(* ===== verification/_CoqProject ===== *)
-Q . S2P
Prelude.v
Effect.v
Json.v
Serde.v
Canonical.v
CanonicalFloat.v
CanonicalProps.v
Kahn.v
Proposal.v
Schedule.v
Placement.v
Orchestration.v
AppStateMachine.v
RuntimeInit.v
Session.v
SessionProps.v
Events.v
Broker.v
BrokerInv.v
BrokerProps.v
Journal.v
JournalLog.v
JournalProps.v
Durable.v
DurablePoll.v
DurableInv.v
DurableProps.v
Pointer.v
Risk.v
Base64.v
Approval.v
Quota.v
Contract.v
ProposalCheck.v
Request.v
ProposalRun.v
ProposalRunProps.v
ProposalMcp.v
ProposalSamples.v
Schema.v
DataStore.v
StoreSync.v
StoreSyncProps.v
LocalStore.v
LocalStoreProps.v
StoreSamples.v
RemoteStore.v
Lifecycle.v
Registry.v
Security.v
Outcome.v
Hydration.v
WorkflowGraph.v
Router.v
Attempt.v
Subscription.v
WorkflowRun.v
Traverse.v
TraverseProps.v
Execute.v
ExecuteProps.v
ExecuteGates.v
ExecuteSamples.v
ProposalLive.v
HostConnector.v
HostConnectorProps.v
GuestFrame.v
ModelPackage.v
ModelStore.v
ModelAdapter.v
ModelGuest.v
ModelConnector.v
ModelConnectorProps.v
ModelSamples.v
FileTree.v
Maintenance.v
MaintenanceProps.v
MigrationProps.v
HostedSync.v
MaintenanceSamples.v
