(* ===== verification/Prelude.v ===== *)
(** * Traverse: a verification development

    Traverse is a portable runtime for governed capabilities, written as a Rust
    workspace.  A planner submits a workflow proposal, which is validated, ordered
    and levelled into parallel waves ([crates/traverse-contracts]); the portable
    runtime, itself a WebAssembly module, runs capabilities and application state
    machines behind a small bridge of exported calls
    ([crates/traverse-runtime-wasm]); the server runtime selects and executes the
    capability a request asks for, alone or as a workflow, publishes events through
    a broker with a durable journal and keeps checkpoints of long executions
    ([crates/traverse-runtime]).  This development models these parts as
    executable functions and proves what makes each correct.

    ** Files

    - [Prelude]: results, machine integers, UTF-8 characters and white space,
      ordered sets and maps, stable sorting, and the generic lemmas.
    - [Effect]: fallible operations on a state, with [?] as their bind.
    - [Json], [Serde]: [serde_json::Value] and its accessors; lossy decoding;
      derived serialization of structs.
    - [Canonical], [CanonicalFloat], [CanonicalProps]: [traverse-contracts/src/canonical_json.rs], the strict
      parse and the RFC 8785 text.
    - [Kahn], [Proposal], [Schedule]: [traverse-contracts/src/proposal.rs]:
      [topological_order], [canonicalize_proposal] and
      [compute_parallel_schedule].
    - [Placement]: [traverse-contracts/src/placement.rs], the choice of an
      execution target, in IEEE single precision.
    - [Orchestration]: [traverse-runtime/src/durable_orchestration.rs]:
      checkpoints, leases, retries, waits and compensation.
    - [AppStateMachine]: [traverse-runtime-wasm/src/app_sm.rs]: declared state
      machines, submit envelopes, capability input.
    - [RuntimeInit]: the init payload of [traverse-runtime-wasm/src/lib.rs] with
      the limits of [executor.rs].
    - [Session] (definitions and invariant), [SessionProps]: sessions, waits,
      submits, suspended guests, the compatible lifecycle and the exported calls
      of [traverse-runtime-wasm/src/lib.rs].
    - [Events]: [traverse-runtime/src/events/types.rs], [catalog.rs] and
      [validation.rs].
    - [Broker] (definitions), [BrokerInv], [BrokerProps]:
      [traverse-runtime/src/events/broker.rs].
    - [Journal] (definitions), [JournalLog], [JournalProps]: [traverse-runtime/src/events/journal.rs].
    - [Durable] (definitions), [DurablePoll], [DurableInv], [DurableProps]: [traverse-runtime/src/events/durable.rs], the
      broker that writes through the journal, as interleaved steps.
    - [Contract], [Risk]: capability contracts of
      [traverse-contracts/src/lib.rs].
    - [Base64], [Approval], [Quota], [Pointer], [ProposalCheck], [ProposalRun], [ProposalRunProps]: approval tokens, quotas,
      cross-validation and execution of [traverse-runtime/src/proposal.rs] and
      [parallel_proposal.rs].
    - [ProposalMcp], [ProposalSamples]: the proposal tools of
      [traverse-mcp/src/tools], and the concrete runs of these parts.
      [ProposalLive]: proposal execution on the server runtime of [Execute].
    - [Schema]: the payload validator of [traverse-runtime/src/lib.rs].
    - [DataStore], [StoreSync], [StoreSyncProps]: the adapter trait, the runtime
      store, its clock and synchronisation of [traverse-runtime/src/data_store.rs];
      [LocalStore] (definitions), [LocalStoreProps]: its local file adapter;
      [RemoteStore]: [data_store_remote.rs] and
      [data_store_coordinator.rs]; [StoreSamples]: concrete runs.
    - [FileTree]: paths, directories and file system calls that may fail;
      [Maintenance] (definitions), [MaintenanceProps], [MigrationProps]:
      [data_store_maintenance.rs]: pruning, backup, restore and migration of the
      local store; [HostedSync]: [data_store_hosted_sync.rs], the transport over a
      provider's edge and the in-memory relay; [MaintenanceSamples]: concrete runs.
    - [Request], [Lifecycle], [Outcome], [Attempt], [Execute], [Subscription]: [traverse-runtime/src/lib.rs]: requests, the state machine of
      an attempt, the records of an outcome, telemetry, the outcome each ending
      builds, [Runtime::execute] and browser subscriptions; [ExecuteProps],
      [ExecuteGates]: what it guarantees; [ExecuteSamples]:
      concrete runs.
    - [Registry]: what the runtime reads of the registry crate.
    - [Security]: [security.rs]: artifact verification and the
      identity in a bearer token.
    - [Hydration]: [capability_metadata.rs], the index of
      persisted capabilities and its cache of contracts; [WorkflowGraph]: the
      checks of loaded workflows of [workspace_lazy.rs].
    - [Router]: the host interfaces, the state shared by a runtime, and
      [router/mod.rs] with the trace entries of [trace] and the executor types.
    - [WorkflowRun], [Traverse], [TraverseProps]: [workflows.rs], the workflow
      engine: event-driven edges, and the traversal of a definition.
    - [HostConnector], [HostConnectorProps]: [host_connector_dispatch.rs], commands of
      an application handed to a host adapter, with the replay store.
    - [GuestFrame], [ModelPackage], [ModelStore], [ModelAdapter], [ModelGuest],
      [ModelConnector], [ModelConnectorProps]: [exact_model.rs] with [exact_model/adapter.rs]
      and [exact_model/snapshot.rs]: rights, tensor frames, signed packages, staged
      buffers and snapshots, accelerator self-checks, the two guest engines and the
      connector, which is a host adapter; [ModelSamples]: concrete runs.

    Definitions keep the names of the code.  A struct is a record, an enum an
    inductive type, a method a function from the state before to the state after
    and its result; an early return is a branch, [?] the bind of [Result].

    ** What is proved

    - Proposals: validation accepts exactly the well-formed acyclic proposals; the
      order is a permutation of the nodes in which edges go forward, the same for
      every declaration order; a node's mapped sources run before it; a cycle is
      reported as such.  The waves of a schedule partition the nodes, respect the
      edges and are as early as possible, and the limits are exact.
    - Sessions: an invariant over every sequence of bridge calls; the first
      terminal for a wait is applied and later ones ignored; what an accepted
      command stages; the compatible lifecycle; three behaviours that differ from
      the specification of the bridge.
    - Canonical JSON: the canonical bytes identify the document; the strict parse
      and the range of numbers are characterised exactly; the text of a double reads
      back as it, and numbers have one text exactly when they have one value.
    - Events and broker: validation is exact; buffers, queues and remembered ids
      satisfy an invariant over every sequence of operations; each subscription
      is delivered strictly increasing cursors while assigned ones increase; what
      publishing and subscribing store and replay; two divergences between [poll] and its comments.
    - Journal: the files, the open journal and its cache together refine a list of
      records ([JournalLog.journal_repr]): recovery yields the recorded log or the error
      of a failed call, an
      append extends it by one record, a replay reads it through the segments and
      the cache, pruning cuts a prefix; two ways in which an interrupted write
      makes acknowledged records unreadable.
    - Durable broker: under every interleaving of publishers, writer and
      subscribers, with writes that are not torn, an acknowledged event is in the log
      and unrevoked, and a refused one is withdrawn or its failure audited; polls deliver exactly the wanted
      records, also after a restart; one order of steps that loses an event.
    - Approval, quotas and contracts: tokens and contracts are accepted exactly
      when they satisfy their specification; uses are counted exactly; no
      interleaving of callers exceeds a quota and every run finishes.
    - Proposal execution: cross-validation is exact; a sequential run stops at the
      first failure and, on the server runtime, is a run of calls that passed every
      gate; uncancelled waves succeed when the sequential run does, with its outcomes,
      whatever the order of the calls in a batch; what the MCP tools execute was validated,
      authorized and within quota.
    - Data stores: payload validation decides a typing judgment, and only typed and
      stamped values reach an adapter; the laws of an adapter
      ([StoreSync.DataStoreLaws]) hold of the in-memory, local file and remote
      adapters whatever calls fail; against these laws synchronisation converges
      and a failed one is rolled back; local writes are atomic and read back,
      remote results and evidence agree; a restarted clock loses writes.
    - Maintenance: whatever calls fail, without leftovers of earlier attempts, pruning deletes a first part of exactly the
      keys the policy dooms, a restore leaves the old records or all of the new ones
      (in the store or complete beside it), a migration keeps every record readable,
      and a restored backup is the store that was backed up.
    - Hosted synchronisation: the transport over an edge refines a log of operations per
      scope, the relay one log for all scopes; the relay reuses cursors and ignores the scope of a
      credential.
    - Runtime requests: every outcome reports one walk through the state machine
      and agrees with its trace; nothing runs that did not pass every gate, and the
      executor runs at most once; whose request it was, in the trace and in the
      event; artifacts are accepted exactly as the trust policy says; the contract
      cache refines a least-recently-used cache; subscriptions stream an outcome
      completely and in order; a capability confined to the cloud that runs locally.
    - Workflows: the evidence of an execution is a run of the definition; the cycle
      check is exact and the traversal of a definition that passes it ends; drafts
      run as steps, and an event edge passed twice consumes an event twice.
    - Connectors and models: a dispatch does what the application permits, and one
      idempotency key completes one command; a manifest is valid exactly when it
      satisfies its rules; every registered package was signed, pinned and valid, and
      its placement the first that could be prepared; an execution that succeeds was
      granted by pin, policy, rights and placement and stored one output within every
      ceiling, also when it is dispatched as a command; snapshots form a bounded
      least-recently-used cache; fuel slices end and grant no more than the fuel of
      the call; frames round-trip; the windows of a guest do not overlap unless the
      32-bit address of the fixed layout wraps.
    - Placement, orchestration, state machines and initialisation: minimality and
      order independence of the choice of a target, recovery of the last complete
      checkpoint against the store interface, fencing of leases, bounded retries, ordered compensation, exact
      acceptance of declared machines, framing and limits of the init payload.

    ** Parameters

    What is not in the repository is an argument of the definitions: the JSON
    parser and printer ([Json.SerdeJson], [Journal.JournalCodec] with the laws of
    [JournalLog.JournalCodecLaws]), version parsing ([Events.Semver]), the size
    of [usize] ([RuntimeInit.Target]), Ed25519 ([Approval.Ed25519]), digests and
    serde of proposals ([ProposalMcp.ProposalCodec]) and of contracts
    ([Contract.ContractParams]), the text of JSON ([Serde.SerdeLaws]), SHA-256,
    AES-GCM and random UUIDs ([LocalStore.StoreCrypto] with
    [LocalStoreProps.CryptoLaws]), the remote backend
    ([RemoteStore.RemoteDataStoreBackend] with [RemoteStore.BackendLaws], which
    a concrete backend satisfies), which file system calls fail and what they leave
    ([FileTree.Faults]), zip archives, RFC 3339 times and the text of a backup manifest
    ([Maintenance.ZipCrate], [Maintenance.Chrono], [Maintenance.ManifestCodec] with
    their laws), the text of a hosted event ([HostedSync.EventCodec] with its laws)
    and a provider's edge ([HostedSync.AblyRealtimeEdge]), the registry ([ProposalCheck.HostState]), the
    capability runtime ([ProposalRun.CapabilityRuntime]), the executor, broker, event
    sink and files of a runtime ([Router.Host]), the registries
    ([Registry.Registries]), SHA-256 and Ed25519 of artifacts ([Security.Trust]),
    version ranges ([Attempt.SemverCrate]), contract files
    ([Hydration.ContractCodec]), the nested WebAssembly guest
    ([Session.NestedEngine]), the host adapter of a connector
    ([HostConnector.HostConnectorPort]), the WebAssembly engines and their parser
    ([ModelGuest.GuestEngine], [ModelStore.WasmParser]), native accelerators
    ([ModelAdapter.AcceleratorAdapter] with [ModelConnectorProps.AdapterLaws]), the
    exponential ([ModelAdapter.Libm]), serde of model documents
    ([ModelPackage.ModelCodec]), what a process reads of its cancel flag and clock
    ([ModelGuest.Environment]), cargo features ([ModelGuest.Build]) and the host's
    checkpoint store
    ([Orchestration.CheckpointStore] with its laws, which the in-memory store
    satisfies).  Clocks and the outcomes of file system calls are arguments of the
    operations that observe them, or part of the state ([LocalStore.Outcome]).

    ** Conventions

    Unsigned integers are [N] with their bounds written out; arithmetic that the
    code does not check wraps, as in a release build, and checked or saturating
    arithmetic is modelled as such.  Strings are their UTF-8 bytes.  Loops that
    are not structural take fuel: [Kahn.kahn_loop] and [Schedule.wave_loop] one
    step per node, [Json.lossy] and [Canonical.lone_surrogate] one per byte,
    [Canonical.generate] and the two scalings one per bit of the scale,
    [ProposalRun.chunks_fuel] one per element, [Durable.poll_loop] one per record
    of the log, [WorkflowGraph.dfs_cycle] one per node on the stack,
    [Traverse.traverse_loop] one per step, [WorkflowRun.drain] one per page of a
    subscription and [ModelGuest.slices] one per fuel slice.  The graph loops, the digit
    generation, the polls of the durable broker, the fuel slices and the traversal of
    checked workflows are proved to stop on their own
    within it; a traversal that is still running when its fuel is spent, as one of a
    workflow with an event-driven cycle may be, has no outcome.

    ** Not modelled

    The insides of digests, ciphers and signatures, raw-pointer allocation of the
    bridge, the WebAssembly engines, sockets and files other than the directories of
    the journal and of the local store.  The conformance suites of the event broker and
    of the hosted transports, which are tests.  The command line, the HTTP API, the
    MCP server's transport, the embedder and the native hosts, which parse arguments,
    move bytes and call the parts above.  Event and connector contracts, the framed model
    host, the inference trait and the nested executor of the portable runtime would
    start from [Contract], [ModelConnector] and [Session]. *)
From stdpp Require Export base sorting pretty numbers option gmap strings.
From stdpp Require Export list relations.
From Stdlib Require Import Ascii.

(** * Result: Rust's [Result<T, E>] *)

Inductive Result (E T : Type) : Type :=
  | Ok (v : T)
  | Err (e : E).
Arguments Ok {E T} v.
Arguments Err {E T} e.

#[export] Instance Result_ret E : MRet (Result E) := fun _ v => Ok v.

#[export] Instance Result_bind E : MBind (Result E) := fun _ _ k m =>
  match m with Ok v => k v | Err e => Err e end.

#[export] Instance Result_eq_dec `{EqDecision E, EqDecision T} : EqDecision (Result E T).
Proof. solve_decision. Defined.

Definition is_ok {E T} (r : Result E T) : bool :=
  match r with Ok _ => true | Err _ => false end.

(** [Option::ok_or] *)
Definition ok_or {E T} (o : option T) (e : E) : Result E T :=
  match o with Some v => Ok v | None => Err e end.

(** [if !guard { return Err(e) }] *)
Definition ensure {E} (guard : bool) (e : E) : Result E unit :=
  if guard then Ok tt else Err e.

Lemma bind_ok_inv {E A B} (m : Result E A) (k : A -> Result E B) b :
  (m ≫= k) = Ok b <-> exists a, m = Ok a /\ k a = Ok b.
Proof.
  destruct m; cbn; split; [eauto|by intros (? & [= ->] & ?)|done|by intros (? & ? & ?)].
Qed.

Lemma ok_or_ok_inv {E T} (o : option T) (e : E) v : ok_or o e = Ok v <-> o = Some v.
Proof. destruct o; cbn; naive_solver. Qed.

Lemma ensure_ok_inv {E} (g : bool) (e : E) u : ensure g e = Ok u <-> g = true.
Proof. destruct g, u; cbn; naive_solver. Qed.

Lemma ensure_then {E A} (g : bool) (e : E) (k : Result E A) a :
  (ensure g e ≫= fun _ => k) = Ok a <-> g = true /\ k = Ok a.
Proof. destruct g; cbn; naive_solver. Qed.

(** [Result::map_err] *)
Definition map_err {E F T} (f : E -> F) (r : Result E T) : Result F T :=
  match r with Ok v => Ok v | Err e => Err (f e) end.

Lemma map_err_ok {E F T} (f : E -> F) (r : Result E T) v : map_err f r = Ok v <-> r = Ok v.
Proof. destruct r; cbn; naive_solver. Qed.

Lemma filter_all {A} (P : A -> Prop) `{!forall x, Decision (P x)} (l : list A) :
  (forall x, x ∈ l -> P x) -> filter P l = l.
Proof.
  induction l as [|x l IH]; intros Hl; [done|]. rewrite filter_cons_True by (apply Hl; left).
  f_equal. apply IH. intros y Hy. apply Hl. by right.
Qed.

(** Decompose a successful [?]-chain into its successful steps. *)
Ltac ok_inv :=
  repeat match goal with
  | H : (_ ≫= _) = Ok _ |- _ => apply bind_ok_inv in H; destruct H as (? & ? & H)
  | H : ok_or _ _ = Ok _ |- _ => apply ok_or_ok_inv in H
  | H : ensure _ _ = Ok _ |- _ => apply ensure_ok_inv in H
  end.

(** Turn boolean tests in the context into propositions. *)
Ltac to_props :=
  repeat match goal with
  | H : bool_decide _ = true |- _ => apply bool_decide_eq_true in H
  | H : bool_decide _ = false |- _ => apply bool_decide_eq_false in H
  | H : (_ <? _)%N = true |- _ => apply N.ltb_lt in H
  | H : (_ <? _)%N = false |- _ => apply N.ltb_ge in H
  | H : (_ <=? _)%N = true |- _ => apply N.leb_le in H
  | H : (_ <=? _)%N = false |- _ => apply N.leb_gt in H
  | H : (_ && _)%bool = true |- _ => apply andb_true_iff in H; destruct H
  | H : (_ || _)%bool = false |- _ => apply orb_false_iff in H; destruct H
  | H : negb _ = true |- _ => apply negb_true_iff in H
  | H : negb _ = false |- _ => apply negb_false_iff in H
  | u : unit |- _ => destruct u
  end.

(** * Machine integers

    [u64] and [usize] are [N]; the operations that can leave the range are the
    ones written out here. *)

Definition u64_max : N := 18446744073709551615.
Definition usize_max : N := 18446744073709551615.
Definition u32_max : N := 4294967295.
Definition i64_max : Z := 9223372036854775807.

(** [u64::saturating_add] *)
Definition saturating_add (a b : N) : N := N.min (a + b) u64_max.

(** [u64::saturating_sub]: subtraction on [N] already stops at zero. *)
Definition saturating_sub (a b : N) : N := (a - b)%N.

(** [x -= 1] on a [usize], wrapping the way a release build does. *)
Definition wrapping_dec (d : N) : N := if (d =? 0)%N then usize_max else (d - 1)%N.

Lemma wrapping_dec_pos d : (0 < d)%N -> wrapping_dec d = (d - 1)%N.
Proof. unfold wrapping_dec. destruct (N.eqb_spec d 0); lia. Qed.

(** * Decimal text of a [u64] *)

(** [u64::to_string] *)
Definition u64_to_string (n : N) : string := pretty n.

Definition digit_value (c : ascii) : option N :=
  let n := N_of_ascii c in
  if ((48 <=? n) && (n <=? 57))%N then Some (n - 48)%N else None.

Fixpoint parse_digits (acc : N) (s : string) : option N :=
  match s with
  | EmptyString => Some acc
  | String c s' =>
      d ← digit_value c;
      let acc' := (10 * acc + d)%N in
      if (acc' <=? u64_max)%N then parse_digits acc' s' else None
  end.

(** [str::parse::<u64>]: an optional leading plus sign, at least one digit, no overflow. *)
Definition parse_u64 (s : string) : option N :=
  match s with
  | EmptyString => None
  | String c s' =>
      if decide (c = "+"%char)
      then match s' with EmptyString => None | _ => parse_digits 0 s' end
      else parse_digits 0 s
  end.

Lemma digit_value_char d : (d < 10)%N -> digit_value (pretty_N_char d) = Some d.
Proof.
  intros H.
  assert (d = 0 ∨ d = 1 ∨ d = 2 ∨ d = 3 ∨ d = 4 ∨ d = 5 ∨ d = 6 ∨ d = 7 ∨ d = 8 ∨ d = 9)%N
    as Hd by lia.
  by destruct_or! Hd; subst d.
Qed.

(** Parsing the digits of [n] in front of [s] leaves the accumulator at
    [n * 10^|s| ...]; stated for an accumulator of zero, which is all the
    callers need. *)
Lemma parse_digits_pretty_go n s :
  (0 < n <= u64_max)%N -> parse_digits 0 (pretty_N_go n s) = parse_digits n s.
Proof.
  revert s. induction (N.lt_wf_0 n) as [n _ IH]; intros s [Hpos Hmax].
  rewrite pretty_N_go_step by done.
  assert (n `mod` 10 < 10)%N as Hmod by (apply N.mod_lt; lia).
  assert (10 * (n `div` 10) + n `mod` 10 = n)%N as Hdm
    by (symmetry; apply N.div_mod; lia).
  assert (parse_digits (n `div` 10) (String (pretty_N_char (n `mod` 10)) s)
          = parse_digits n s) as Hstep.
  { cbn [parse_digits]. rewrite digit_value_char by done. cbn -[N.mul N.add].
    rewrite Hdm. destruct (N.leb_spec n u64_max); [done|lia]. }
  destruct (decide (n `div` 10 = 0)%N) as [Hz|Hnz].
  - rewrite Hz in *. by rewrite pretty_N_go_0.
  - rewrite (IH (n `div` 10)%N); [done|apply N.div_lt; lia|].
    remember (n `div` 10)%N as q. remember (n `mod` 10)%N as r. lia.
Qed.

Lemma pretty_N_char_not_plus d : pretty_N_char d <> "+"%char.
Proof. unfold pretty_N_char. by repeat case_match. Qed.

Lemma pretty_go_head n s :
  (0 < n)%N -> exists d r, pretty_N_go n s = String (pretty_N_char d) r.
Proof.
  revert s. induction (N.lt_wf_0 n) as [n _ IH]; intros s Hpos.
  rewrite pretty_N_go_step by done.
  destruct (decide (n `div` 10 = 0)%N) as [Hz|Hnz].
  - rewrite Hz, pretty_N_go_0. eauto.
  - apply IH; [apply N.div_lt; lia|]. by apply N.neq_0_lt_0.
Qed.

Lemma parse_u64_to_string n : (n <= u64_max)%N -> parse_u64 (u64_to_string n) = Some n.
Proof.
  intros Hn. unfold u64_to_string, pretty, pretty_N.
  case_decide as H0; [by subst|].
  destruct (pretty_go_head n "") as (d & r & Hgo); [lia|].
  unfold parse_u64. rewrite Hgo. rewrite decide_False by apply pretty_N_char_not_plus.
  rewrite <- Hgo. rewrite parse_digits_pretty_go by lia. done.
Qed.

Lemma parse_digits_max acc s n :
  (acc <= u64_max)%N -> parse_digits acc s = Some n -> (n <= u64_max)%N.
Proof.
  revert acc. induction s as [|c s IH]; intros acc Hacc; cbn -[N.mul N.add].
  - by intros [= <-].
  - destruct (digit_value c) as [d|]; cbn -[N.mul N.add]; [|done].
    destruct (N.leb_spec (10 * acc + d) u64_max); [by apply IH|done].
Qed.

Lemma parse_u64_max s n : parse_u64 s = Some n -> (n <= u64_max)%N.
Proof.
  destruct s as [|c s]; cbn -[parse_digits]; [done|].
  case_decide; [destruct s; [done|]|]; apply parse_digits_max; vm_compute; done.
Qed.

(** * Strings

    A Rust [String] is its UTF-8 bytes.  [chars] groups them into scalar values:
    a continuation byte [10xxxxxx] belongs to the character before it. *)

Definition is_continuation (c : ascii) : bool :=
  let n := N_of_ascii c in ((128 <=? n) && (n <? 192))%N.

Fixpoint chars (s : string) : list string :=
  match s with
  | EmptyString => []
  | String c s' =>
      match chars s' with
      | (String c2 r) :: t =>
          if is_continuation c2 then String c (String c2 r) :: t
          else String c EmptyString :: String c2 r :: t
      | t => String c EmptyString :: t
      end
  end.

Fixpoint zeros (n : nat) : string := match n with 0 => "" | S m => String "0"%char (zeros m) end.

(** One digit of a lower-case hexadecimal text. *)
Definition hex_digit (n : N) : string := String.substring (N.to_nat n) 1 "0123456789abcdef".

Definition bytes (l : list N) : string := foldr (fun n s => String (ascii_of_N n) s) "" l.

(** The characters with the Unicode [White_Space] property, which
    [char::is_whitespace] and [str::trim] use. *)
Definition whitespace_chars : list string :=
  bytes <$> ([[9]; [10]; [11]; [12]; [13]; [32]; [194; 133]; [194; 160]; [225; 154; 128];
    [226; 128; 128]; [226; 128; 129]; [226; 128; 130]; [226; 128; 131]; [226; 128; 132];
    [226; 128; 133]; [226; 128; 134]; [226; 128; 135]; [226; 128; 136]; [226; 128; 137];
    [226; 128; 138]; [226; 128; 168]; [226; 128; 169]; [226; 128; 175]; [226; 129; 159];
    [227; 128; 128]]%N : list (list N)).

Definition is_whitespace (ch : string) : bool := bool_decide (ch ∈ whitespace_chars).

Fixpoint drop_while {A} (p : A -> bool) (l : list A) : list A :=
  match l with
  | [] => []
  | x :: l' => if p x then drop_while p l' else l
  end.

(** [str::trim] *)
Definition trim (s : string) : string :=
  String.concat "" (reverse (drop_while is_whitespace
    (reverse (drop_while is_whitespace (chars s))))).

(** [s.trim().is_empty()] *)
Definition is_blank (s : string) : bool := bool_decide (trim s = "").

Lemma chars_ne_empty s ch : ch ∈ chars s -> ch <> "".
Proof.
  revert ch. induction s as [|c s IH]; cbn; [by intros ? ?%elem_of_nil|].
  intros ch. destruct (chars s) as [|[|c2 r] t]; [set_solver|set_solver|].
  destruct (is_continuation c2); set_solver.
Qed.

Lemma concat_empty_nil l : (forall ch, ch ∈ l -> ch <> "") -> String.concat "" l = "" -> l = [].
Proof.
  destruct l as [|x l]; [done|]. intros Hne Hc. exfalso.
  apply (Hne x); [left|]. destruct x; [done|]. destruct l; done.
Qed.

Lemma drop_while_elem {A} p (l : list A) x : x ∈ drop_while p l -> x ∈ l.
Proof. induction l as [|y l IH]; cbn; [done|]. destruct (p y); set_solver. Qed.

Lemma drop_while_nil {A} p (l : list A) : drop_while p l = [] <-> Forall (fun x => p x = true) l.
Proof.
  induction l as [|y l IH]; cbn; [by split|]. rewrite Forall_cons.
  destruct (p y); [|naive_solver]. rewrite IH. naive_solver.
Qed.

Lemma drop_while_head {A} p (l : list A) y t : drop_while p l = y :: t -> p y = false.
Proof.
  induction l as [|z l IH]; cbn; [done|]. destruct (p z) eqn:E; [apply IH|by intros [= <- <-]].
Qed.

(** A string is blank exactly when every one of its characters is white space. *)
Lemma is_blank_spec s : is_blank s = true <-> Forall (fun ch => is_whitespace ch = true) (chars s).
Proof.
  unfold is_blank. rewrite bool_decide_eq_true, <- drop_while_nil. split.
  - intros H%concat_empty_nil.
    + apply (f_equal reverse) in H. rewrite reverse_involutive in H. cbn in H.
      destruct (drop_while is_whitespace (chars s)) as [|y l] eqn:E; [done|].
      apply drop_while_nil in H. rewrite reverse_cons in H. apply Forall_app in H as [_ H].
      rewrite Forall_singleton in H. apply drop_while_head in E. congruence.
    + intros ch Hch%elem_of_reverse%drop_while_elem%elem_of_reverse%drop_while_elem.
      by eapply chars_ne_empty.
  - intros H. unfold trim. by rewrite H.
Qed.

Lemma is_blank_empty : is_blank "" = true.
Proof. done. Qed.

Lemma not_blank_not_empty s : is_blank s = false -> s <> "".
Proof. by intros H ->. Qed.

(** * Ordered sets and maps

    [BTreeSet<String>] and [BTreeMap<String, V>] are [gset string] and
    [gmap string V]; what their iteration order adds is the sorted listing. *)

Definition btree_elements (X : gset string) : list string :=
  merge_sort String.le (elements X).

(** [set.iter().next()] *)
Definition btree_first (X : gset string) : option string := head (btree_elements X).

Definition key_le {V} (p q : string * V) : Prop := String.le (p.1) (q.1).

#[export] Instance key_le_dec {V} : RelDecision (@key_le V).
Proof. intros p q. unfold key_le. apply _. Defined.

#[export] Instance key_le_total {V} : Total (@key_le V).
Proof. intros p q. apply String.le_total. Qed.

#[export] Instance key_le_trans {V} : Transitive (@key_le V).
Proof. intros p q r. unfold key_le. apply transitivity. Qed.

Definition btree_entries {V} (m : gmap string V) : list (string * V) :=
  merge_sort key_le (map_to_list m).

Lemma btree_elements_perm X : btree_elements X ≡ₚ elements X.
Proof. apply merge_sort_Permutation. Qed.

Lemma btree_elements_elem X x : x ∈ btree_elements X <-> x ∈ X.
Proof. rewrite btree_elements_perm. apply elem_of_elements. Qed.

Lemma btree_elements_NoDup X : NoDup (btree_elements X).
Proof. rewrite btree_elements_perm. apply NoDup_elements. Qed.

Lemma btree_elements_sorted X : StronglySorted String.le (btree_elements X).
Proof. apply (StronglySorted_merge_sort _). Qed.

Lemma btree_elements_length X : length (btree_elements X) = size X.
Proof. by rewrite btree_elements_perm. Qed.

Lemma btree_entries_elem {V} (m : gmap string V) k v :
  (k, v) ∈ btree_entries m <-> m !! k = Some v.
Proof. unfold btree_entries. rewrite merge_sort_Permutation. apply elem_of_map_to_list. Qed.

Lemma btree_first_None X : btree_first X = None <-> X = ∅.
Proof.
  unfold btree_first. split.
  - intros H. apply set_eq. intros x. rewrite <- btree_elements_elem.
    destruct (btree_elements X); [set_solver|done].
  - intros ->. done.
Qed.

(** The first element is the least one. *)
Lemma btree_first_Some X x :
  btree_first X = Some x <-> x ∈ X /\ forall y, y ∈ X -> String.le x y.
Proof.
  unfold btree_first. split.
  - intros H. pose proof (btree_elements_sorted X) as Hs.
    setoid_rewrite <- btree_elements_elem.
    destruct (btree_elements X) as [|z l]; [done|]. injection H as ->.
    apply StronglySorted_inv in Hs as [_ Hall]. split; [left|].
    intros y [->|Hy]%elem_of_cons; [done|]. rewrite Forall_forall in Hall. by apply Hall.
  - intros [Hx Hmin]. pose proof (btree_elements_sorted X) as Hs.
    apply btree_elements_elem in Hx as Hx'. setoid_rewrite <- btree_elements_elem in Hmin.
    destruct (btree_elements X) as [|z l]; [by apply elem_of_nil in Hx'|]. cbn. f_equal.
    apply StronglySorted_inv in Hs as [_ Hall].
    apply (anti_symm String.le).
    + apply elem_of_cons in Hx' as [->|Hx']; [done|]. rewrite Forall_forall in Hall. by apply Hall.
    + apply Hmin. left.
Qed.

(** * Lists *)

(** [for (index, x) in items.iter().enumerate()] *)
Definition enumerate {A} (l : list A) : list (nat * A) := imap pair l.

(** The elements of [l] up to the first one that satisfies [p], as a [find]. *)
Fixpoint find_first {A} (p : A -> bool) (l : list A) : option A :=
  match l with
  | [] => None
  | x :: l' => if p x then Some x else find_first p l'
  end.

Lemma find_first_Some {A} (p : A -> bool) (l : list A) x :
  find_first p l = Some x -> x ∈ l /\ p x = true.
Proof.
  induction l as [|y l IH]; cbn; [done|]. destruct (p y) eqn:E.
  - intros [= ->]. split; [left|done].
  - intros [? ?]%IH. split; [by right|done].
Qed.

Lemma find_first_None {A} (p : A -> bool) (l : list A) :
  find_first p l = None <-> forall x, x ∈ l -> p x = false.
Proof.
  induction l as [|y l IH]; cbn; [set_solver|]. destruct (p y) eqn:E.
  - split; [done|]. intros H. rewrite (H y) in E; [done|left].
  - rewrite IH. set_solver.
Qed.

(** Loop-invariant rule for a [for] loop over [enumerate]. *)
Lemma foldl_enumerate_inv {A B} (f : B -> nat * A -> B) (I : list A -> B -> Prop) b l :
  I [] b ->
  (forall seen x st, seen `prefix_of` l -> x ∈ l -> I seen st ->
     I (seen ++ [x]) (f st (length seen, x))) ->
  I l (foldl f b (enumerate l)).
Proof.
  intros H0 Hstep. unfold enumerate.
  enough (forall todo seen st, l = seen ++ todo -> I seen st ->
    I l (foldl f st (imap (fun i x => (length seen + i, x)) todo))) as Hgen.
  { exact (Hgen l [] b eq_refl H0). }
  induction todo as [|x todo IH]; intros seen st Hl HI; cbn.
  - subst. by rewrite app_nil_r.
  - rewrite Nat.add_0_r.
    rewrite (imap_ext _ (fun i y => (length (seen ++ [x]) + i, y))).
    + apply IH; [by rewrite Hl, <- app_assoc|]. apply Hstep; [|set_solver|done].
      exists (x :: todo). done.
    + intros i y _. rewrite length_app. cbn. f_equal. lia.
Qed.

Lemma app_nil_iff {A} (l1 l2 : list A) : l1 ++ l2 = [] <-> l1 = [] /\ l2 = [].
Proof. split; [apply app_eq_nil|by intros [-> ->]]. Qed.

Lemma snoc_not_nil {A} (l : list A) x : l ++ [x] = [] <-> False.
Proof. split; [by destruct l|done]. Qed.

(** [f (x1) :: ... ] pairwise distinct, as a count per key. *)
Lemma NoDup_count {A K} `{EqDecision K} (f : A -> K) (l : list A) :
  NoDup (f <$> l) <-> forall k, length (filter (fun x => f x = k) l) <= 1.
Proof.
  induction l as [|x l IH].
  { split; [intros _ k; cbn; lia|constructor]. }
  rewrite fmap_cons, NoDup_cons, IH. split.
  - intros [Hx Hle] k. rewrite filter_cons. case_decide as Hk; [|done]. cbn.
    destruct (filter (fun y => f y = k) l) as [|y t] eqn:Hf; [done|]. exfalso. apply Hx.
    assert (y ∈ filter (fun y => f y = k) l) as Hy by (rewrite Hf; left).
    apply list_elem_of_filter in Hy as [Hy Hin]. rewrite Hk, <- Hy. by apply list_elem_of_fmap_2.
  - intros Hle. split.
    + intros (y & Hy & Hin)%list_elem_of_fmap. specialize (Hle (f x)).
      rewrite filter_cons, decide_True in Hle by done. cbn in Hle.
      destruct (filter (fun z => f z = f x) l) eqn:Hf; [|cbn in Hle; lia].
      assert (y ∈ filter (fun z => f z = f x) l) as Hyin by (by apply list_elem_of_filter).
      rewrite Hf in Hyin. by apply elem_of_nil in Hyin.
    + intros k. specialize (Hle k). rewrite filter_cons in Hle.
      case_decide; cbn in Hle; lia.
Qed.

Lemma existsb_false_iff {A} (p : A -> bool) (l : list A) :
  existsb p l = false <-> forall x, x ∈ l -> p x = false.
Proof.
  induction l as [|y l IH]; cbn; [split; [by intros _ ? ?%elem_of_nil|done]|].
  rewrite orb_false_iff, IH. set_solver.
Qed.

Lemma StronglySorted_weaken {A} (R1 R2 : relation A) l :
  (forall x y, R1 x y -> R2 x y) -> StronglySorted R1 l -> StronglySorted R2 l.
Proof.
  intros HR. induction 1 as [|x l _ IH Hall]; constructor; [done|].
  eapply Forall_impl; [exact Hall|]. apply HR.
Qed.

(** ** Stable sorting

    [slice::sort_by_key] is a stable sort, and sorted order together with
    stability determines its result; insertion is the simplest algorithm with
    both. *)

Fixpoint insert_by {A} (leb : A -> A -> bool) (x : A) (l : list A) : list A :=
  match l with
  | [] => [x]
  | y :: rest => if leb x y then x :: l else y :: insert_by leb x rest
  end.

Definition stable_sort {A} (leb : A -> A -> bool) (l : list A) : list A :=
  foldr (insert_by leb) [] l.

Section stable_sort.
Context {A : Type} (leb : A -> A -> bool).

Lemma insert_by_perm x l : insert_by leb x l ≡ₚ x :: l.
Proof.
  induction l as [|y l IH]; cbn; [done|]. destruct (leb x y); [done|].
  rewrite IH. apply perm_swap.
Qed.

Lemma stable_sort_perm l : stable_sort leb l ≡ₚ l.
Proof. induction l as [|x l IH]; cbn; [done|]. by rewrite insert_by_perm, IH. Qed.

Lemma stable_sort_sorted l :
  (forall x y, leb x y = true \/ leb y x = true) ->
  (forall x y z, leb x y = true -> leb y z = true -> leb x z = true) ->
  StronglySorted (fun x y => leb x y = true) (stable_sort leb l).
Proof.
  intros Htotal Htrans. induction l as [|x l IH]; [constructor|].
  change (stable_sort leb (x :: l)) with (insert_by leb x (stable_sort leb l)).
  induction (stable_sort leb l) as [|y s IHs]; cbn; [apply SSorted_cons; constructor|].
  apply StronglySorted_inv in IH as [Hs Hall]. destruct (leb x y) eqn:Exy.
  - constructor; [by constructor|]. constructor; [done|].
    eapply Forall_impl; [exact Hall|]. cbn. eauto.
  - constructor; [by apply IHs|]. rewrite insert_by_perm. constructor; [|done].
    destruct (Htotal x y); congruence.
Qed.

(** Elements that compare equal keep their relative order. *)
Lemma stable_sort_stable (P : A -> Prop) `{!forall x, Decision (P x)} l :
  (forall x y, P x -> P y -> leb x y = true) -> filter P (stable_sort leb l) = filter P l.
Proof.
  intros HP. induction l as [|x l IH]; [done|].
  change (stable_sort leb (x :: l)) with (insert_by leb x (stable_sort leb l)). rewrite (filter_cons P x l), <- IH. clear IH.
  induction (stable_sort leb l) as [|y s IHs]; cbn [insert_by].
  { by rewrite filter_cons. }
  destruct (leb x y) eqn:Exy; [by rewrite filter_cons|].
  rewrite !(filter_cons P y), IHs. repeat case_decide; try done.
  rewrite HP in Exy; done.
Qed.

(** A map that respects the comparison commutes with sorting. *)
Lemma stable_sort_fmap {B} (leb' : B -> B -> bool) (f : B -> A) l :
  (forall x y, leb (f x) (f y) = leb' x y) -> stable_sort leb (f <$> l) = f <$> stable_sort leb' l.
Proof.
  intros Hf. unfold stable_sort. induction l as [|x l IH]; [done|].
  rewrite fmap_cons. cbn [foldr]. rewrite IH. clear IH.
  induction (foldr (insert_by leb') [] l) as [|y s IHs]; [done|]. rewrite fmap_cons. cbn [insert_by].
  rewrite Hf. destruct (leb' x y); [done|]. rewrite fmap_cons. f_equal. apply IHs.
Qed.

(** Sorting permuted lists gives the same list when no two elements tie. *)
Lemma stable_sort_perm_eq l1 l2 :
  (forall x y, leb x y = true \/ leb y x = true) ->
  (forall x y z, leb x y = true -> leb y z = true -> leb x z = true) ->
  (forall x y, x ∈ l1 -> y ∈ l1 -> leb x y = true -> leb y x = true -> x = y) ->
  l1 ≡ₚ l2 -> stable_sort leb l1 = stable_sort leb l2.
Proof.
  intros Htotal Htrans Hanti Hp.
  apply (StronglySorted_unique_strong (fun x y => leb x y = true)).
  - intros x y. rewrite !stable_sort_perm, <- Hp. auto.
  - by apply stable_sort_sorted.
  - by apply stable_sort_sorted.
  - by rewrite !stable_sort_perm.
Qed.
End stable_sort.

Lemma NoDup_fmap_inj_elem {A B} (f : A -> B) l x y :
  NoDup (f <$> l) -> x ∈ l -> y ∈ l -> f x = f y -> x = y.
Proof.
  intros Hnd [i Hi]%list_elem_of_lookup [j Hj]%list_elem_of_lookup Hf.
  assert (i = j) as ->; [|congruence].
  eapply NoDup_lookup; [exact Hnd|by rewrite list_lookup_fmap, Hi|by rewrite list_lookup_fmap, Hj, Hf].
Qed.

(** ** Concatenation of strings *)

Lemma string_app_nil (s : string) : s +:+ "" = s.
Proof. induction s as [|c s IH]; [done|]. change (String c (s +:+ "") = String c s). by rewrite IH. Qed.

Lemma string_app_assoc (a b c : string) : (a +:+ b) +:+ c = a +:+ b +:+ c.
Proof. induction a as [|x a IH]; [done|]. change (String x ((a +:+ b) +:+ c) = String x (a +:+ b +:+ c)). by rewrite IH. Qed.

Create HintDb traverse discriminated.
#[export] Hint Resolve btree_elements_NoDup btree_elements_sorted : traverse.
#[export] Hint Resolve not_blank_not_empty parse_u64_max : traverse.
