(* ===== verification/Effect.v ===== *)
(** * Fallible operations on a state

    A method that takes [&mut self] and returns a [Result] is a function from the
    state before to the state after and the result; [?] is the bind, which keeps
    the state reached when a step fails.  [on_fst] and [on_snd] run an operation
    on one component of a pair of states. *)
From S2P Require Import Prelude.

Definition Eff (St E A : Type) : Type := St -> St * Result E A.

#[export] Instance Eff_ret St E : MRet (Eff St E) := fun _ a s => (s, Ok a).

#[export] Instance Eff_bind St E : MBind (Eff St E) := fun _ _ k m s =>
  match m s with
  | (s', Ok a) => k a s'
  | (s', Err e) => (s', Err e)
  end.

(** [return Err(e)] *)
Definition fail {St E A} (e : E) : Eff St E A := fun s => (s, Err e).

(** A [Result] computed without touching the state. *)
Definition lift {St E A} (r : Result E A) : Eff St E A := fun s => (s, r).

(** The state as a value. *)
Definition current {St E} : Eff St E St := fun s => (s, Ok s).

(** [if guard { m? }] *)
Definition when {St E} (guard : bool) (m : Eff St E unit) : Eff St E unit :=
  if guard then m else mret tt.

Definition on_fst {L R E A} (m : Eff L E A) : Eff (L * R) E A := fun s =>
  let '(l, a) := m s.1 in ((l, s.2), a).

Definition on_snd {L R E A} (m : Eff R E A) : Eff (L * R) E A := fun s =>
  let '(r, a) := m s.2 in ((s.1, r), a).

Section effects.
Context {St E : Type}.

Lemma eff_bind_ok {A B} (m : Eff St E A) (k : A -> Eff St E B) s s' b :
  (m ≫= k) s = (s', Ok b) <-> exists s1 a, m s = (s1, Ok a) /\ k a s1 = (s', Ok b).
Proof.
  unfold mbind, Eff_bind. destruct (m s) as [s1 [a|e]] eqn:Hm; naive_solver.
Qed.

Lemma eff_bind_err {A B} (m : Eff St E A) (k : A -> Eff St E B) s s' e :
  (m ≫= k) s = (s', Err e) <->
  m s = (s', Err e) \/ exists s1 a, m s = (s1, Ok a) /\ k a s1 = (s', Err e).
Proof.
  unfold mbind, Eff_bind. destruct (m s) as [s1 [a|e1]] eqn:Hm; naive_solver.
Qed.

Lemma lift_inv {A} (r : Result E A) (s s' : St) a : lift r s = (s', a) <-> s' = s /\ a = r.
Proof. unfold lift. naive_solver. Qed.
End effects.

Lemma on_fst_inv {L R E A} (m : Eff L E A) (s s' : L * R) a :
  on_fst m s = (s', a) <-> s'.2 = s.2 /\ m s.1 = (s'.1, a).
Proof.
  unfold on_fst. destruct s as [l r], s' as [l' r']. cbn. destruct (m l) as [l1 a1]. naive_solver.
Qed.

Lemma on_snd_inv {L R E A} (m : Eff R E A) (s s' : L * R) a :
  on_snd m s = (s', a) <-> s'.1 = s.1 /\ m s.2 = (s'.2, a).
Proof.
  unfold on_snd. destruct s as [l r], s' as [l' r']. cbn. destruct (m r) as [r1 a1]. naive_solver.
Qed.

(** Decompose a successful chain of [?] into its successful steps. *)
Ltac eff_inv :=
  repeat match goal with
  | H : (_ ≫= _) _ = (_, Ok _) |- _ =>
      apply eff_bind_ok in H; destruct H as (? & ? & ? & H)
  | H : on_fst _ _ = (_, _) |- _ => apply on_fst_inv in H; destruct H as [? H]
  | H : on_snd _ _ = (_, _) |- _ => apply on_snd_inv in H; destruct H as [? H]
  | H : lift _ _ = (_, _) |- _ => apply lift_inv in H; destruct H as [? H]
  end.
