(* ===== verification/Json.v ===== *)
(** * The JSON values the runtime exchanges

    [serde_json::Value] as a data type, with the accessors the modelled code
    calls.  An object is its member list: [serde_json] without the
    [preserve_order] feature (no manifest of the workspace turns it on) keeps
    members in key order, which is how [json!] objects are built ([obj]). *)
From S2P Require Import Prelude.
From Stdlib Require Import SpecFloat Ascii.

Inductive Number : Type :=
  | PosInt (n : N)
  | NegInt (z : Z)
  | Float (f : spec_float).

Unset Elimination Schemes.
Inductive Value : Type :=
  | Null
  | Bool (b : bool)
  | Num (n : Number)
  | Str (s : string)
  | Array (items : list Value)
  | Object (members : list (string * Value)).
Set Elimination Schemes.

(** Induction through the nested lists. *)
Section value_ind_nested.
Context (P : Value -> Prop)
  (HNull : P Null) (HBool : forall b, P (Bool b)) (HNum : forall n, P (Num n))
  (HStr : forall s, P (Str s))
  (HArray : forall items, Forall P items -> P (Array items))
  (HObject : forall members, Forall (fun m => P m.2) members -> P (Object members)).

Fixpoint value_ind' (v : Value) : P v :=
  match v with
  | Null => HNull
  | Bool b => HBool b
  | Num n => HNum n
  | Str s => HStr s
  | Array items =>
      HArray items ((fix go l : Forall P l :=
        match l with
        | [] => List.Forall_nil P
        | x :: l' => List.Forall_cons P x l' (value_ind' x) (go l')
        end) items)
  | Object members =>
      HObject members ((fix go l : Forall (fun m => P m.2) l :=
        match l with
        | [] => List.Forall_nil _
        | m :: l' => List.Forall_cons _ m l' (value_ind' m.2) (go l')
        end) members)
  end.
End value_ind_nested.

(** [Map::get] on a member list. *)
Fixpoint member (key : string) (members : list (string * Value)) : option Value :=
  match members with
  | [] => None
  | (k, v) :: rest => if decide (k = key) then Some v else member key rest
  end.

(** [Map::contains_key] *)
Definition contains_key (key : string) (members : list (string * Value)) : bool :=
  match member key members with Some _ => true | None => false end.

(** [Value::get] with a string index: [None] unless the value is an object. *)
Definition get (key : string) (v : Value) : option Value :=
  match v with Object members => member key members | _ => None end.

(** [Value::as_str] *)
Definition as_str (v : Value) : option string :=
  match v with Str s => Some s | _ => None end.

(** [Value::as_array] *)
Definition as_array (v : Value) : option (list Value) :=
  match v with Array items => Some items | _ => None end.

(** [Value::as_object] *)
Definition as_object (v : Value) : option (list (string * Value)) :=
  match v with Object members => Some members | _ => None end.

(** [Value::as_u64] *)
Definition as_u64 (v : Value) : option N :=
  match v with Num (PosInt n) => Some n | _ => None end.

(** [Value::as_i64] *)
Definition as_i64 (v : Value) : option Z :=
  match v with
  | Num (PosInt n) => if (Z.of_N n <=? i64_max)%Z then Some (Z.of_N n) else None
  | Num (NegInt z) => Some z
  | _ => None
  end.

(** [Value::as_bool] *)
Definition as_bool (v : Value) : option bool :=
  match v with Bool b => Some b | _ => None end.

(** [Value::as_f64]: integers are rounded to the nearest double. *)
Definition as_f64 (v : Value) : option spec_float :=
  match v with
  | Num (PosInt n) => Some (binary_normalize 53 1024 (Z.of_N n) 0 false)
  | Num (NegInt z) => Some (binary_normalize 53 1024 z 0 false)
  | Num (Float f) => Some f
  | _ => None
  end.

(** [json!({..})]: members end up in key order. *)
Definition obj (members : list (string * Value)) : Value := Object (merge_sort key_le members).

(** Byte buffers, [Vec<u8>]. *)
Abbreviation Bytes := (list ascii).

(** [Map::insert]: members stay in key order and a repeated key takes the new
    value. *)
Fixpoint map_insert (key : string) (v : Value) (members : list (string * Value))
    : list (string * Value) :=
  match members with
  | [] => [(key, v)]
  | (k, w) :: rest =>
      if decide (k = key) then (key, v) :: rest
      else if decide (String.le key k) then (key, v) :: members
      else (k, w) :: map_insert key v rest
  end.

Definition map_of (members : list (string * Value)) : list (string * Value) :=
  foldl (fun acc m => map_insert m.1 m.2 acc) [] members.

(** The [Value] that [serde_json] builds for a document: its syntax lists the
    members of an object as they are written, and the last one of a name wins. *)
Fixpoint value_of_syntax (document : Value) : Value :=
  match document with
  | Array items => Array (value_of_syntax <$> items)
  | Object members => Object (map_of ((fun m => (m.1, value_of_syntax m.2)) <$> members))
  | scalar => scalar
  end.

(** The third-party codec [serde_json]: parsing bytes into the syntax of a
    document, with the members of every object in the order they are written and
    repeated names kept, fails with a message; [to_vec] is also the text
    [Display] prints. *)
Class SerdeJson := {
  parse_syntax : Bytes -> Result string Value;
  to_vec : Value -> Bytes }.

(** [serde_json::from_slice::<Value>] *)
Definition from_slice `{SerdeJson} (bytes : Bytes) : Result string Value :=
  document ← parse_syntax bytes; Ok (value_of_syntax document).

(** [value[key] = v] on an object. *)
Definition set_member (key : string) (v : Value) (value : Value) : Value :=
  match value with
  | Object members =>
      Object (merge_sort key_le ((key, v) :: List.filter (fun m => negb (bool_decide (m.1 = key))) members))
  | other => other
  end.

(** [PartialEq] on values compares floats as numbers, so the two zeros are equal. *)
Definition number_eqb (a b : Number) : bool :=
  match a, b with
  | PosInt m, PosInt n => (m =? n)%N
  | NegInt m, NegInt n => (m =? n)%Z
  | Float f, Float g => SFeqb f g
  | _, _ => false
  end.

Fixpoint value_eqb (a b : Value) {struct a} : bool :=
  match a, b with
  | Null, Null => true
  | Bool x, Bool y => Bool.eqb x y
  | Num x, Num y => number_eqb x y
  | Str x, Str y => bool_decide (x = y)
  | Array xs, Array ys =>
      (fix go (xs ys : list Value) {struct xs} : bool :=
         match xs, ys with
         | [], [] => true
         | x :: xs', y :: ys' => value_eqb x y && go xs' ys'
         | _, _ => false
         end) xs ys
  | Object xs, Object ys =>
      (fix go (xs ys : list (string * Value)) {struct xs} : bool :=
         match xs, ys with
         | [], [] => true
         | x :: xs', y :: ys' => bool_decide (x.1 = y.1) && value_eqb x.2 y.2 && go xs' ys'
         | _, _ => false
         end) xs ys
  | _, _ => false
  end.

(** [map.get(key).and_then(Value::as_str)] *)
Definition member_str (key : string) (members : list (string * Value)) : option string :=
  member key members ≫= as_str.

(** [.filter(|value| !value.trim().is_empty())] *)
Definition non_blank (o : option string) : option string :=
  o ≫= fun s => if is_blank s then None else Some s.

Lemma non_blank_Some o s : non_blank o = Some s <-> o = Some s /\ is_blank s = false.
Proof.
  destruct o as [t|]; cbn; [|split; [done|by intros [? _]]].
  destruct (is_blank t) eqn:E; split; [done| |by intros [= <-]|by intros [[= ->] _]].
  intros [[= ->] ?]. congruence.
Qed.

Lemma member_elem key members v : member key members = Some v -> (key, v) ∈ members.
Proof.
  induction members as [|[k w] rest IH]; cbn; [done|].
  case_decide as Hk; [intros [= ->]; subst; left|]. intros ?%IH. by right.
Qed.

Lemma contains_key_spec key members :
  contains_key key members = true <-> key ∈ members.*1.
Proof.
  unfold contains_key. induction members as [|[k w] rest IH]; cbn.
  - split; [done|by intros ?%elem_of_nil].
  - case_decide as Hk; [subst; split; [left|done]|]. rewrite IH, elem_of_cons. naive_solver.
Qed.

Lemma map_insert_perm key v acc : key ∉ acc.*1 -> map_insert key v acc ≡ₚ (key, v) :: acc.
Proof.
  induction acc as [|[k w] rest IH]; cbn; [done|]. rewrite not_elem_of_cons. intros [Hne Hnin].
  rewrite decide_False by congruence. case_decide; [done|]. rewrite IH by done. apply perm_swap.
Qed.

Lemma foldl_insert_perm members acc :
  NoDup members.*1 -> (forall k, k ∈ members.*1 -> k ∉ acc.*1) ->
  foldl (fun acc m => map_insert m.1 m.2 acc) acc members ≡ₚ members ++ acc.
Proof.
  revert acc. induction members as [|[k v] rest IH]; intros acc; cbn; [done|].
  rewrite NoDup_cons. intros [Hk Hnd] Hacc.
  assert (Hp : map_insert k v acc ≡ₚ (k, v) :: acc) by (apply map_insert_perm, Hacc; left).
  rewrite IH; [by rewrite Hp, Permutation_middle|done|].
  intros k' Hk'. rewrite Hp. cbn. rewrite not_elem_of_cons. split; [by intros ->|]. apply Hacc. by right.
Qed.

Lemma map_of_perm members : NoDup members.*1 -> map_of members ≡ₚ members.
Proof.
  intros Hnd. unfold map_of. rewrite foldl_insert_perm; [by rewrite app_nil_r|done|].
  intros k _ Hk. by apply elem_of_nil in Hk.
Qed.

Lemma member_Some key members v :
  NoDup members.*1 -> (member key members = Some v <-> (key, v) ∈ members).
Proof.
  intros Hnd. split; [apply member_elem|]. induction members as [|[k w] rest IH]; cbn in *; [by intros ?%elem_of_nil|].
  apply NoDup_cons in Hnd as [Hk Hnd]. rewrite elem_of_cons. intros [[= -> ->]|Hin]; [by rewrite decide_True|].
  rewrite decide_False; [by apply IH|]. intros ->. apply Hk, list_elem_of_fmap. by exists (key, v).
Qed.

Lemma member_perm key (l l' : list (string * Value)) : NoDup l.*1 -> l ≡ₚ l' -> member key l = member key l'.
Proof.
  intros Hnd Hp. assert (NoDup l'.*1) as Hnd' by by rewrite <- Hp.
  apply option_eq. intros v. rewrite !member_Some by done. by rewrite Hp.
Qed.

(** Sorting the members of an object does not change what is found. *)
Lemma member_map_of key members : NoDup members.*1 -> member key (map_of members) = member key members.
Proof. intros Hnd. symmetry. apply member_perm; [done|]. by rewrite map_of_perm. Qed.

(** * [String::from_utf8_lossy]

    Decoding bytes the way the Rust standard library does: every maximal invalid
    prefix of a sequence becomes one replacement character. *)
From Stdlib Require Import Ascii.

(** The ranges of the continuation bytes after a leading byte; [None] when the
    byte starts no character. *)
Definition continuation_ranges (lead : N) : option (list (N * N)) :=
  let cont := (128, 191)%N in
  if (lead <=? 127)%N then Some []
  else if (lead <=? 193)%N then None
  else if (lead <=? 223)%N then Some [cont]
  else if (lead =? 224)%N then Some [(160, 191)%N; cont]
  else if (lead =? 237)%N then Some [(128, 159)%N; cont]
  else if (lead <=? 239)%N then Some [cont; cont]
  else if (lead =? 240)%N then Some [(144, 191)%N; cont; cont]
  else if (lead <=? 243)%N then Some [cont; cont; cont]
  else if (lead =? 244)%N then Some [(128, 143)%N; cont; cont]
  else None.

(** How many bytes in a row fall in their range. *)
Fixpoint matched (ranges : list (N * N)) (rest : Bytes) : nat :=
  match ranges, rest with
  | (low, high) :: ranges', b :: rest' =>
      if ((low <=? N_of_ascii b) && (N_of_ascii b <=? high))%N%bool
      then S (matched ranges' rest') else 0
  | _, _ => 0
  end.

Definition REPLACEMENT : Bytes := ascii_of_N <$> [239; 191; 189]%N.

(** One chunk: the bytes to output and the bytes left. *)
Definition lossy_step (lead : ascii) (rest : Bytes) : Bytes * Bytes :=
  match continuation_ranges (N_of_ascii lead) with
  | None => (REPLACEMENT, rest)
  | Some ranges =>
      let k := matched ranges rest in
      (if (k =? length ranges)%nat then lead :: take k rest else REPLACEMENT, drop k rest)
  end.

Fixpoint lossy (fuel : nat) (bytes : Bytes) : Bytes :=
  match fuel, bytes with
  | S fuel', lead :: rest =>
      let '(out, rest') := lossy_step lead rest in out ++ lossy fuel' rest'
  | _, _ => []
  end.

(** Every step consumes a byte, so the length is enough fuel. *)
Definition from_utf8_lossy (bytes : Bytes) : string :=
  String.string_of_list_ascii (lossy (length bytes) bytes).

Example lossy_ascii : from_utf8_lossy (String.list_ascii_of_string "done") = "done".
Proof. reflexivity. Qed.

(** A truncated three-byte character is one replacement character, a stray
    continuation byte another. *)
Example lossy_truncated :
  String.list_ascii_of_string (from_utf8_lossy (ascii_of_N <$> [226; 130; 65; 128]%N)) =
  REPLACEMENT ++ [ascii_of_N 65] ++ REPLACEMENT.
Proof. reflexivity. Qed.

(** Text in plain ASCII is unchanged. *)
Lemma lossy_ascii_id bytes fuel :
  Forall (fun b => N_of_ascii b <= 127)%N bytes -> length bytes <= fuel -> lossy fuel bytes = bytes.
Proof.
  revert fuel. induction bytes as [|b bytes IH]; intros [|fuel] Hb Hf; cbn in *; try done; try lia.
  apply Forall_cons in Hb as [Hb Hbs]. unfold lossy_step, continuation_ranges.
  rewrite (proj2 (N.leb_le _ _) Hb). cbn. rewrite drop_0. f_equal. apply IH; [done|lia].
Qed.
