(* ===== verification/Serde.v ===== *)
(** * Derived serialization

    What [serde] and [serde_json] do for the structs of the data stores: a struct
    is written as an object with its fields in the order of the declaration, and
    read back from an object (unknown members ignored, a repeated field refused)
    or from an array of its fields.  [SerdeLaws] is the documented round trip of
    the text for the values a program can hold. *)
From S2P Require Import Prelude Json.
From Stdlib Require Import SpecFloat Ascii.

(** ** Values a program can hold *)

(** [str::from_utf8(..).is_ok()] *)
Definition valid_utf8 (b : Bytes) : bool := bool_decide (lossy (length b) b = b).

Definition valid_string (s : string) : bool := valid_utf8 (String.list_ascii_of_string s).

Definition representable_number (n : Number) : bool :=
  match n with
  | PosInt n => (n <=? u64_max)%N
  | NegInt z => (- 9223372036854775808 <=? z)%Z && (z <? 0)%Z
  | Float S754_nan | Float (S754_infinity _) => false
  | Float f => valid_binary 53 1024 f
  end.

Fixpoint representable (v : Value) : bool :=
  match v with
  | Num n => representable_number n
  | Str s => valid_string s
  | Array items => forallb representable items
  | Object members => forallb (fun m => valid_string m.1 && representable m.2) members
  | _ => true
  end.

(** Levels of arrays and objects; [serde_json] refuses to parse more than 127. *)
Fixpoint nesting (v : Value) : nat :=
  match v with
  | Array items => S (foldr (fun i n => nesting i `max` n) 0 items)
  | Object members => S (foldr (fun m n => nesting m.2 `max` n) 0 members)
  | _ => 0
  end.

Definition MAX_NESTING : nat := 127.

(** The text of a value parses back to it. *)
Class SerdeLaws `{SerdeJson} : Prop := {
  parse_print v : representable v = true -> nesting v <= MAX_NESTING -> parse_syntax (to_vec v) = Ok v;
  print_utf8 v : representable v = true -> valid_utf8 (to_vec v) = true }.

(** ** Fields *)

Definition occurrences (name : string) (members : list (string * Value)) : nat :=
  length (List.filter (fun m => bool_decide (m.1 = name)) members).

(** The fields of a struct, from a map or from a sequence. *)
Definition struct_fields (names : list string) (v : Value) : option (list (option Value)) :=
  match v with
  | Object members =>
      if forallb (fun name => (occurrences name members <=? 1)%nat) names
      then Some ((fun name => member name members) <$> names) else None
  | Array items =>
      if (length items <=? length names)%nat
      then Some ((fun i => items !! i) <$> seq 0 (length names)) else None
  | _ => None
  end.

(** A field that must be present, and one with [#[serde(default)]] of an [Option]. *)
Definition required {A} (decode : Value -> option A) (field : option Value) : option A := field ≫= decode.

Definition optional {A} (decode : Value -> option A) (field : option Value) : option (option A) :=
  match field with
  | None | Some Null => Some None
  | Some v => Some <$> decode v
  end.

Definition as_u32 (v : Value) : option N :=
  n ← as_u64 v; if (n <=? u32_max)%N then Some n else None.

(** A member that is written only when present. *)
Definition some_member {A} (name : string) (encode : A -> Value) (o : option A) : list (string * Value) :=
  match o with Some a => [(name, encode a)] | None => [] end.

(** ** Reading fields back *)

Lemma occurrences_le name members : NoDup members.*1 -> occurrences name members <= 1.
Proof.
  unfold occurrences. induction members as [|[k v] rest IH]; cbn; [lia|]. rewrite NoDup_cons. intros [Hk Hnd].
  case_bool_decide as Hn; cbn; [subst|by apply IH].
  enough (List.filter (fun m => bool_decide (m.1 = name)) rest = []) as -> by (cbn; lia).
  clear -Hk. induction rest as [|[k' v'] rest IH]; cbn in *; [done|].
  apply not_elem_of_cons in Hk as [? ?]. rewrite bool_decide_eq_false_2 by congruence. by apply IH.
Qed.

(** The fields found in an object with distinct names. *)
Lemma struct_fields_object names members :
  NoDup members.*1 -> struct_fields names (Object members) = Some ((fun name => member name members) <$> names).
Proof.
  intros Hnd. cbn. rewrite (proj2 (forallb_forall _ _)); [done|].
  intros name _. apply Nat.leb_le. by apply occurrences_le.
Qed.

Definition read_back (members : list (string * Value)) : list (string * Value) :=
  (fun m => (m.1, value_of_syntax m.2)) <$> members.

Lemma read_back_names members : (read_back members).*1 = members.*1.
Proof. unfold read_back. rewrite <- list_fmap_compose. done. Qed.

Lemma member_read_back name members :
  member name (read_back members) = value_of_syntax <$> member name members.
Proof. induction members as [|[k v] rest IH]; cbn; [done|]. by case_decide. Qed.

(** The same fields after the text was parsed into a [Value]. *)
Lemma struct_fields_read_back names members :
  NoDup members.*1 ->
  struct_fields names (value_of_syntax (Object members))
  = Some ((fun name => value_of_syntax <$> member name members) <$> names).
Proof.
  intros Hnd. assert (NoDup (read_back members).*1) as Hnd' by by rewrite read_back_names.
  change (value_of_syntax (Object members)) with (Object (map_of (read_back members))).
  rewrite struct_fields_object by by rewrite map_of_perm.
  f_equal. apply list_fmap_ext. intros _ name _. by rewrite member_map_of, member_read_back.
Qed.

Lemma from_slice_printed `{SerdeLaws} v :
  representable v = true -> nesting v <= MAX_NESTING -> from_slice (to_vec v) = Ok (value_of_syntax v).
Proof. intros Hr Hn. unfold from_slice. by rewrite parse_print. Qed.

(** Looking a member up after the parse. *)
Lemma get_read_back name members :
  NoDup members.*1 -> get name (value_of_syntax (Object members)) = value_of_syntax <$> member name members.
Proof.
  intros Hnd. cbn. change ((fun m => (m.1, value_of_syntax m.2)) <$> members) with (read_back members).
  rewrite member_map_of by by rewrite read_back_names. apply member_read_back.
Qed.

(** Looking members up by name, one member at a time. *)
Lemma member_here name v rest : member name ((name, v) :: rest) = Some v.
Proof. cbn. by rewrite decide_True. Qed.

Lemma member_there name name' v rest : name' <> name -> member name ((name', v) :: rest) = member name rest.
Proof. intros H. cbn. by rewrite decide_False. Qed.

Lemma member_some_here {A} name (f : A -> Value) o rest :
  member name rest = None -> member name (some_member name f o ++ rest) = f <$> o.
Proof. intros H. destruct o; cbn [some_member app]; [apply member_here|done]. Qed.

Lemma member_some_there {A} name name' (f : A -> Value) o rest :
  name' <> name -> member name (some_member name' f o ++ rest) = member name rest.
Proof. intros H. destruct o; cbn [some_member app]; [by apply member_there|done]. Qed.

Ltac find_member :=
  repeat first
    [ rewrite member_here
    | rewrite member_there by discriminate
    | rewrite member_some_there by discriminate
    | rewrite member_some_here by (repeat first [rewrite member_some_there by discriminate | reflexivity]) ].

(** An optional field reads back what was written. *)
Lemma optional_some {A} (decode : Value -> option A) (encode : A -> Value) (o : option A) :
  (forall a, o = Some a -> decode (encode a) = Some a /\ encode a <> Null) -> optional decode (encode <$> o) = Some o.
Proof.
  intros H. destruct o as [a|]; cbn; [|done]. destruct (H a eq_refl) as [Hd Hn].
  destruct (encode a) eqn:E; [done|..]; by rewrite Hd.
Qed.
