(* ===== verification/Canonical.v ===== *)
(** * Canonical JSON

    [crates/traverse-contracts/src/canonical_json.rs]: the strict parse of a
    request and the RFC 8785 text of a value, which every host feeds a guest.

    The syntax of a document comes from [serde_json] ([parse_syntax] of
    [SerdeJson]); duplicate names, surrogates, member order, escapes and numbers
    are the code's own.  Doubles are [SpecFloat] numbers, and the shortest digits
    that Rust's [{:e}] prints are computed by the digit generation of the standard
    library's [flt2dec] ("Dragon"), on unbounded integers. *)
From S2P Require Import Prelude Json.
From Stdlib Require Import SpecFloat Ascii.

(** ** Errors *)

Inductive CanonicalJsonError := InvalidJson | UnsafeInteger | DuplicateKey | InvalidUnicode.

#[export] Instance CanonicalJsonError_eq_dec : EqDecision CanonicalJsonError.
Proof. solve_decision. Defined.

Definition INPUT_NOT_CANONICALIZABLE : string := "input_not_canonicalizable".

Definition error_code (e : CanonicalJsonError) : string :=
  match e with InvalidJson => "invalid_json" | _ => INPUT_NOT_CANONICALIZABLE end.

Definition display_error (e : CanonicalJsonError) : string :=
  error_code e +:+ ": " +:+
  match e with
  | InvalidJson => "input is not valid JSON"
  | UnsafeInteger => "input contains an integer beyond ±(2^53 − 1)"
  | DuplicateKey => "input contains an object with a duplicate member name"
  | InvalidUnicode => "input contains a string that is not valid Unicode"
  end.

(** ** Numbers *)

Definition MAX_SAFE_INTEGER : N := 9007199254740991.

Definition MAX_SAFE_INTEGER_F64 : spec_float := S754_finite false 9007199254740991 0.

(** The scaled integers of the digit generation: the number is
    [mant / scale * 10^k], its rounding interval reaches down by [minus] and up by
    [plus], with its ends when [inclusive]. *)
Record Decoded := {
  mant : Z; minus : Z; plus : Z; scale : Z; inclusive : bool }.

(** [flt2dec::decode] for [m * 2^e]: a power of two has a closer lower neighbour;
    subnormal mantissas are shifted by one, hence always even. *)
Definition decode (m : positive) (e : Z) : Decoded :=
  let m := Z.pos m in
  let shift := if (m =? 2 ^ 52)%Z then 2%Z else 1%Z in
  let e := (e - shift)%Z in
  let up := Z.max e 0 in
  let down := Z.max (- e) 0 in
  {| mant := (m * 2 ^ shift * 2 ^ up)%Z; minus := (2 ^ up)%Z;
     plus := ((if (m =? 2 ^ 52)%Z then 2 else 1) * 2 ^ up)%Z; scale := (2 ^ down)%Z;
     inclusive := (Z.even m || (m <? 2 ^ 52)%Z)%bool |}.

(** [a.cmp(b) < rounding] *)
Definition below (inclusive : bool) (a b : Z) : bool := if inclusive then (a <=? b)%Z else (a <? b)%Z.

Definition times_ten (d : Decoded) : Decoded := {|
  mant := 10 * mant d; minus := 10 * minus d; plus := 10 * plus d; scale := scale d;
  inclusive := inclusive d |}.

Definition scale_up (d : Decoded) : Decoded := {|
  mant := mant d; minus := minus d; plus := plus d; scale := 10 * scale d;
  inclusive := inclusive d |}.

(** The decimal exponent [k]: the least with [mant + plus] below [10^k], found by
    multiplying the number or the scale by ten. *)
Fixpoint normalize_up (fuel : nat) (k : Z) (d : Decoded) : Z * Decoded :=
  match fuel with
  | 0 => (k, d)
  | S fuel' =>
      if below (inclusive d) (scale d) (mant d + plus d) then normalize_up fuel' (k + 1) (scale_up d)
      else (k, d)
  end.

Fixpoint normalize_down (fuel : nat) (k : Z) (d : Decoded) : Z * Decoded :=
  match fuel with
  | 0 => (k, d)
  | S fuel' =>
      if below (inclusive d) (scale d) (10 * (mant d + plus d)) then (k, d)
      else normalize_down fuel' (k - 1) (times_ten d)
  end.

Definition normalize (d : Decoded) : Z * Decoded :=
  let '(k, d) := normalize_up (Z.to_nat (Z.log2_up (mant d + plus d + 1))) 0 d in
  normalize_down (Z.to_nat (Z.log2_up (scale d))) k d.

(** Digits are produced until the rest is within the interval below or above. *)
Fixpoint generate (fuel : nat) (d : Decoded) (digits : Z) (n : nat) : Z * nat :=
  match fuel with
  | 0 => (digits, n)
  | S fuel' =>
      let d := times_ten d in
      let digits := (10 * digits + mant d / scale d)%Z in
      let rest := (mant d mod scale d)%Z in
      let down := below (inclusive d) rest (minus d) in
      let up := below (inclusive d) (scale d) (rest + plus d) in
      if (down || up)%bool then
        ((if (up && (negb down || (scale d <=? 2 * rest)%Z))%bool then digits + 1 else digits)%Z, S n)
      else
        generate fuel' {| mant := rest; minus := minus d; plus := plus d; scale := scale d;
                          inclusive := inclusive d |} digits (S n)
  end.

(** The digits of [{:e}] and the exponent of the number written as
    [0.digits * 10^k]; a carry out of the leading digit lengthens the digits. *)
Definition shortest (m : positive) (e : Z) : string * Z :=
  let '(k, d) := normalize (decode m e) in
  let '(digits, n) := generate (S (Z.to_nat (Z.log2_up (scale d)))) d 0 0 in
  let text := u64_to_string (Z.to_N digits) in
  (text, if (n <? String.length text)%nat then k + 1 else k)%Z.

Fixpoint split_at (n : nat) (s : string) : string * string :=
  match n, s with
  | S m, String c rest => let '(first, second) := split_at m rest in (String c first, second)
  | _, _ => ("", s)
  end.

(** The layout of [format_f64]: digits and the exponent [n] of the ECMAScript
    algorithm. *)
Definition layout (digits : string) (n : Z) : string :=
  let k := Z.of_nat (String.length digits) in
  if (k <=? n)%Z then digits +:+ zeros (Z.to_nat (n - k))
  else if (0 <? n)%Z then
    let '(whole, fraction) := split_at (Z.to_nat n) digits in whole +:+ "." +:+ fraction
  else if ((-6 <? n) && (n <=? 0))%Z%bool then "0." +:+ zeros (Z.to_nat (- n)) +:+ digits
  else
    let '(first, rest) := split_at 1 digits in
    first +:+ (if decide (rest = "") then "" else "." +:+ rest) +:+ "e-"
      +:+ u64_to_string (Z.to_N (1 - n)).

Definition format_f64 (value : spec_float) : string :=
  match value with
  | S754_finite negative m e =>
      let '(digits, n) := shortest m e in (if negative then "-" else "") +:+ layout digits n
  | _ => "0"
  end.

(** [i64::to_string] of a negative number *)
Definition i64_to_string (z : Z) : string := "-" +:+ u64_to_string (Z.to_N (- z)).

Definition write_number (number : Number) : Result CanonicalJsonError string :=
  match number with
  | PosInt n => if (MAX_SAFE_INTEGER <? n)%N then Err UnsafeInteger else Ok (u64_to_string n)
  | NegInt z =>
      if (MAX_SAFE_INTEGER <? Z.to_N (Z.abs z))%N then Err UnsafeInteger else Ok (i64_to_string z)
  | Float f =>
      if bool_decide (SFcompare (SFabs f) MAX_SAFE_INTEGER_F64 = Some Gt) then Err UnsafeInteger
      else Ok (format_f64 f)
  end.

(** ** Strings *)

Definition hex_digit (n : N) : ascii :=
  if (n <? 10)%N then ascii_of_N (48 + n) else ascii_of_N (87 + n).

(** A character above the controls is copied; it may be several bytes. *)
Definition escape (c : ascii) : string :=
  let n := N_of_ascii c in
  if (n =? 34)%N then String (ascii_of_N 92) (String (ascii_of_N 34) "")
  else if (n =? 92)%N then String (ascii_of_N 92) (String (ascii_of_N 92) "")
  else if (n =? 8)%N then "\b"
  else if (n =? 9)%N then "\t"
  else if (n =? 10)%N then "\n"
  else if (n =? 12)%N then "\f"
  else if (n =? 13)%N then "\r"
  else if (n <? 32)%N then "\u00" +:+ String (hex_digit (n / 16)) (String (hex_digit (n mod 16)) "")
  else String c "".

Fixpoint escape_all (text : string) : string :=
  match text with
  | EmptyString => ""
  | String c rest => escape c +:+ escape_all rest
  end.

Definition QUOTE : string := String (ascii_of_N 34) "".

Definition write_string (text : string) : string := QUOTE +:+ escape_all text +:+ QUOTE.

(** ** Member order *)

(** The scalar value of one UTF-8 character. *)
Definition code_point (ch : string) : N :=
  match N_of_ascii <$> String.list_ascii_of_string ch with
  | [a] => a
  | [a; b] => N.lor (N.shiftl (N.land a 31) 6) (N.land b 63)
  | [a; b; c] => N.lor (N.shiftl (N.land a 15) 12) (N.lor (N.shiftl (N.land b 63) 6) (N.land c 63))
  | [a; b; c; d] =>
      N.lor (N.shiftl (N.land a 7) 18)
        (N.lor (N.shiftl (N.land b 63) 12) (N.lor (N.shiftl (N.land c 63) 6) (N.land d 63)))
  | _ => 0%N
  end.

Definition utf16_units (c : N) : list N :=
  if (c <? 65536)%N then [c]
  else [55296 + N.shiftr (c - 65536) 10; 56320 + N.land (c - 65536) 1023]%N.

(** [str::encode_utf16] *)
Definition encode_utf16 (s : string) : list N := chars s ≫= fun ch => utf16_units (code_point ch).

(** The lexicographic order of slices. *)
Fixpoint units_le (a b : list N) : bool :=
  match a, b with
  | [], _ => true
  | _ :: _, [] => false
  | x :: a', y :: b' => ((x <? y) || ((x =? y) && units_le a' b'))%N%bool
  end.

Definition utf16_le {V} (p q : string * V) : bool := units_le (encode_utf16 p.1) (encode_utf16 q.1).

(** ** The canonical text *)

Fixpoint join_items (items : list (Result CanonicalJsonError string)) : Result CanonicalJsonError string :=
  match items with
  | [] => Ok ""
  | [item] => item
  | item :: rest => text ← item; others ← join_items rest; Ok (text +:+ "," +:+ others)
  end.

Definition write_member (m : string * Result CanonicalJsonError string)
    : Result CanonicalJsonError string :=
  text ← m.2; Ok (write_string m.1 +:+ ":" +:+ text).

Fixpoint write_value (value : Value) : Result CanonicalJsonError string :=
  match value with
  | Null => Ok "null"
  | Bool flag => Ok (if flag then "true" else "false")
  | Num number => write_number number
  | Str text => Ok (write_string text)
  | Array items => body ← join_items (write_value <$> items); Ok ("[" +:+ body +:+ "]")
  | Object members =>
      let entries := (fun m => (m.1, write_value m.2)) <$> members in
      body ← join_items (write_member <$> stable_sort utf16_le entries); Ok ("{" +:+ body +:+ "}")
  end.

Definition to_canonical_json (value : Value) : Result CanonicalJsonError string := write_value value.

(** ** The strict parse *)

Fixpoint strict_members (members : list (string * option Value)) (acc : list (string * Value))
    : option (list (string * Value)) :=
  match members with
  | [] => Some acc
  | (key, member) :: rest =>
      v ← member;
      if contains_key key acc then None else strict_members rest (map_insert key v acc)
  end.

(** [StrictVisitor]: the value, unless an object repeats a name. *)
Fixpoint strict_value (document : Value) : option Value :=
  match document with
  | Array items => Array <$> mapM strict_value items
  | Object members => Object <$> strict_members ((fun m => (m.1, strict_value m.2)) <$> members) []
  | scalar => Some scalar
  end.

Definition hex_value (c : ascii) : option N :=
  let n := N_of_ascii c in
  if ((48 <=? n) && (n <=? 57))%N%bool then Some (n - 48)%N
  else if ((97 <=? n) && (n <=? 102))%N%bool then Some (n - 87)%N
  else if ((65 <=? n) && (n <=? 70))%N%bool then Some (n - 55)%N
  else None.

(** [u16::from_str_radix(hex, 16)] on four bytes, which may start with a plus
    sign. *)
Definition hex_unit (hex : Bytes) : option N :=
  let digits := match hex with
    | "+"%char :: rest => rest
    | _ => hex
    end in
  foldl (fun acc c => n ← acc; d ← hex_value c; Some (16 * n + d)%N) (Some 0%N) digits.

(** [bytes.get(2..6)] *)
Definition escape_unit (bytes : Bytes) : option N :=
  if (6 <=? length bytes)%nat then hex_unit (take 4 (drop 2 bytes)) else None.

Definition in_range (low high : N) (unit : option N) : bool :=
  match unit with Some n => ((low <=? n) && (n <=? high))%N%bool | None => false end.

(** The scan for an escaped surrogate outside a pair; every step consumes a
    byte, so the length is enough fuel. *)
Fixpoint lone_surrogate (fuel : nat) (in_string pending_high : bool) (bytes : Bytes) : bool :=
  match fuel, bytes with
  | S fuel', byte :: rest =>
      if negb in_string then lone_surrogate fuel' (bool_decide (byte = ascii_of_N 34)) pending_high rest
      else if (bool_decide (byte = "\"%char) && bool_decide (head rest = Some "u"%char))%bool then
        let unit := escape_unit bytes in
        if in_range 55296 56319 unit && negb pending_high then lone_surrogate fuel' in_string true (drop 6 bytes)
        else if in_range 56320 57343 unit && pending_high
        then lone_surrogate fuel' in_string false (drop 6 bytes)
        else if in_range 55296 57343 unit then true
        else if pending_high then true
        else lone_surrogate fuel' in_string pending_high (drop 6 bytes)
      else if pending_high then true
      else if bool_decide (byte = "\"%char) then lone_surrogate fuel' in_string pending_high (drop 2 bytes)
      else lone_surrogate fuel' (negb (bool_decide (byte = ascii_of_N 34))) pending_high rest
  | _, _ => pending_high
  end.

Definition has_lone_surrogate_escape (bytes : Bytes) : bool :=
  lone_surrogate (length bytes) false false bytes.

(** [std::str::from_utf8(bytes).is_ok()] *)
Fixpoint utf8_valid (fuel : nat) (bytes : Bytes) : bool :=
  match fuel, bytes with
  | S fuel', lead :: rest =>
      match continuation_ranges (N_of_ascii lead) with
      | None => false
      | Some ranges =>
          (matched ranges rest =? length ranges)%nat && utf8_valid fuel' (drop (length ranges) rest)
      end
  | _, _ => true
  end.

Definition from_utf8_ok (bytes : Bytes) : bool := utf8_valid (length bytes) bytes.

Section strict.
Context `{SerdeJson}.

Definition parse_canonicalizable (bytes : Bytes) : Result CanonicalJsonError Value :=
  match from_slice bytes with
  | Err _ =>
      Err (if (negb (from_utf8_ok bytes) || has_lone_surrogate_escape bytes)%bool
           then InvalidUnicode else InvalidJson)
  | Ok _ =>
      match parse_syntax bytes with
      | Ok document => ok_or (strict_value document) DuplicateKey
      | Err _ => Err DuplicateKey
      end
  end.

Definition canonicalize_json_bytes (bytes : Bytes) : Result CanonicalJsonError string :=
  value ← parse_canonicalizable bytes; to_canonical_json value.
End strict.

(** ** The vectors of the test suite *)

Example rfc8785_numbers :
  format_f64 <$> [S754_finite true 1 (-1074); S754_finite false 9007199254740991 0;
    S754_finite false 4722366482869645 (-72); S754_finite false 4722366482869644 (-72);
    S754_finite false 5592405333333331 (-24); S754_finite false 5592405333333334 (-24);
    S754_finite false 4503599627370496 (-52); S754_finite false 7318349394477056 (-49);
    S754_finite true 7036874417766400 (-49)]%Z
  = ["-5e-324"; "9007199254740991"; "0.000001"; "9.999999999999997e-7"; "333333333.3333332";
     "333333333.3333334"; "1"; "13"; "-12.5"].
Proof. vm_compute. reflexivity. Qed.

(** * The canonical text determines the document

    The text of a value can be read back in one way only: every token is
    delimited, and the members of an object are recovered up to their order. *)
(** The characters of a text. *)
Abbreviation text := String.list_ascii_of_string.

Lemma text_app a b : text (a +:+ b) = text a ++ text b.
Proof. induction a as [|c a IH]; [done|]. change (String c a +:+ b) with (String c (a +:+ b)). cbn. by rewrite IH. Qed.

Lemma text_inj a b : text a = text b -> a = b.
Proof.
  intros Heq. rewrite <- (String.string_of_list_ascii_of_string a), Heq.
  apply String.string_of_list_ascii_of_string.
Qed.

Lemma text_nil a : text a = [] -> a = "".
Proof. by destruct a. Qed.

(** ** Strings *)

Definition unescape (l : list ascii) : option (ascii * list ascii) :=
  match l with
  | [] => None
  | c :: rest =>
      if decide (c = ascii_of_N 34) then None
      else if decide (c = "\"%char) then
        match rest with
        | [] => None
        | k :: rest' =>
            if decide (k = "b"%char) then Some (ascii_of_N 8, rest')
            else if decide (k = "t"%char) then Some (ascii_of_N 9, rest')
            else if decide (k = "n"%char) then Some (ascii_of_N 10, rest')
            else if decide (k = "f"%char) then Some (ascii_of_N 12, rest')
            else if decide (k = "r"%char) then Some (ascii_of_N 13, rest')
            else if decide (k = "u"%char) then
              match rest' with
              | _ :: _ :: h :: g :: rest'' =>
                  d1 ← hex_value h; d2 ← hex_value g; Some (ascii_of_N (16 * d1 + d2), rest'')
              | _ => None
              end
            else Some (k, rest')
        end
      else Some (c, rest)
  end.

Lemma unescape_escape c l : unescape (text (escape c) ++ l) = Some (c, l).
Proof. by destruct c as [[] [] [] [] [] [] [] []]. Qed.

Lemma escape_all_decode k1 k2 r1 r2 :
  text (escape_all k1) ++ ascii_of_N 34 :: r1 = text (escape_all k2) ++ ascii_of_N 34 :: r2 ->
  k1 = k2 /\ r1 = r2.
Proof.
  revert k2. induction k1 as [|c1 k1 IH]; intros [|c2 k2]; cbn [escape_all]; rewrite ?text_app, <- ?app_assoc;
    intros Heq.
  - by injection Heq.
  - apply (f_equal unescape) in Heq. by rewrite unescape_escape in Heq.
  - apply (f_equal unescape) in Heq. by rewrite unescape_escape in Heq.
  - apply (f_equal unescape) in Heq. rewrite !unescape_escape in Heq.
    injection Heq as -> Heq. by apply IH in Heq as [-> ->].
Qed.

Lemma write_string_decode k1 k2 r1 r2 :
  text (write_string k1) ++ r1 = text (write_string k2) ++ r2 -> k1 = k2 /\ r1 = r2.
Proof.
  unfold write_string. rewrite !text_app. cbn. intros [= Heq]. rewrite <- !app_assoc in Heq.
  by apply escape_all_decode.
Qed.

(** ** Numbers *)

Definition number_char (c : ascii) : bool :=
  match digit_value c with
  | Some _ => true
  | None => bool_decide (c = "."%char) || bool_decide (c = "e"%char) || bool_decide (c = "-"%char)
  end.

Definition numeric (s : string) : Prop := Forall (fun c => number_char c = true) (text s).

Lemma numeric_app a b : numeric (a +:+ b) <-> numeric a /\ numeric b.
Proof. unfold numeric. rewrite text_app. apply Forall_app. Qed.

Lemma numeric_pretty_go n s : numeric s -> numeric (pretty_N_go n s).
Proof.
  revert s. induction (N.lt_wf_0 n) as [n _ IH]; intros s Hs.
  destruct (decide (0 < n)%N) as [Hpos|Hz]; [|by replace n with 0%N by lia; rewrite pretty_N_go_0].
  rewrite pretty_N_go_step by done. apply IH; [apply N.div_lt; lia|].
  apply Forall_cons. split; [|done]. unfold number_char.
  rewrite digit_value_char by (apply N.mod_lt; lia). done.
Qed.

Lemma pretty_not_empty n : u64_to_string n <> "".
Proof.
  unfold u64_to_string, pretty, pretty_N. case_decide as H0; [done|].
  destruct (pretty_go_head n "") as (d & r & ->); [lia|done].
Qed.

Lemma numeric_pretty n : numeric (u64_to_string n).
Proof.
  unfold u64_to_string, pretty, pretty_N. case_decide; [by apply Forall_singleton|].
  apply numeric_pretty_go. constructor.
Qed.

Lemma numeric_zeros n : numeric (zeros n).
Proof. induction n as [|n IH]; [constructor|]. apply Forall_cons. by split. Qed.

Lemma split_at_app n s : (split_at n s).1 +:+ (split_at n s).2 = s.
Proof.
  revert s. induction n as [|n IH]; intros [|c s]; cbn; try done.
  specialize (IH s). destruct (split_at n s) as [a b]. cbn in *.
  change (String c a +:+ b) with (String c (a +:+ b)). by f_equal.
Qed.

Lemma layout_numeric digits n : numeric digits -> digits <> "" -> numeric (layout digits n) /\ layout digits n <> "".
Proof.
  intros Hd Hne. unfold layout. destruct (_ <=? n)%Z.
  { split; [apply numeric_app; split; [done|apply numeric_zeros]|]. by destruct digits. }
  pose proof (split_at_app (Z.to_nat n) digits) as H1. pose proof (split_at_app 1 digits) as H2.
  destruct (0 <? n)%Z.
  { destruct (split_at (Z.to_nat n) digits) as [a b]. cbn in H1. rewrite <- H1 in Hd.
    apply numeric_app in Hd as [? ?]. split; [|by destruct a].
    rewrite !numeric_app. split_and!; [done|by apply Forall_singleton|done]. }
  destruct (_ && _)%bool.
  { split; [|done]. rewrite !numeric_app. split_and!; [by repeat constructor|apply numeric_zeros|done]. }
  destruct (split_at 1 digits) as [a b]. cbn in H2. rewrite <- H2 in Hd. apply numeric_app in Hd as [? ?].
  split; [|by destruct a; [case_decide|]]. rewrite !numeric_app.
  split_and!; [done| |by repeat constructor|apply numeric_pretty].
  case_decide; [constructor|]. apply numeric_app. split; [by apply Forall_singleton|done].
Qed.

Lemma write_number_numeric n t : write_number n = Ok t -> numeric t /\ t <> "".
Proof.
  destruct n as [n|z|f]; cbn [write_number].
  - destruct (_ <? _)%N; [done|]. intros [= <-]. split; [apply numeric_pretty|apply pretty_not_empty].
  - destruct (_ <? _)%N; [done|]. intros [= <-]. unfold i64_to_string. split; [|done].
    apply numeric_app. split; [by apply Forall_singleton|apply numeric_pretty].
  - destruct (bool_decide _); [done|]. intros [= <-].
    destruct f as [| | |negative m e]; try (split; [by apply Forall_singleton|done]).
    cbn [format_f64]. unfold shortest. destruct (normalize _) as [k d]. destruct (generate _ _ _ _) as [ds n].
    match goal with |- context [layout ?a ?b] => destruct (layout_numeric a b) as [Hl Hn] end;
      [apply numeric_pretty|apply pretty_not_empty|].
    split; [|by destruct negative]. apply numeric_app. split; [|done].
    destruct negative; [by apply Forall_singleton|constructor].
Qed.

(** What may follow a value: nothing, a comma or a closing bracket. *)
Definition ends (r : list ascii) : Prop :=
  match r with [] => True | c :: _ => c = ","%char \/ c = "]"%char \/ c = "}"%char end.

Lemma ends_not_number r c rest : ends r -> r = c :: rest -> number_char c = false.
Proof. intros Hr ->. cbn in Hr. by destruct_or! Hr; subst. Qed.

Lemma number_decode t1 t2 r1 r2 :
  Forall (fun c => number_char c = true) t1 -> Forall (fun c => number_char c = true) t2 ->
  ends r1 -> ends r2 -> t1 ++ r1 = t2 ++ r2 -> t1 = t2 /\ r1 = r2.
Proof.
  intros Ht1. revert t2. induction Ht1 as [|c1 t1 Hc1 Ht1 IH]; intros t2 Ht2 Hr1 Hr2 Heq.
  - destruct Ht2 as [|c2 t2 Hc2]; [done|]. cbn in Heq.
    by rewrite (ends_not_number _ _ _ Hr1 Heq) in Hc2.
  - destruct Ht2 as [|c2 t2 Hc2 Ht2]; cbn in Heq.
    + symmetry in Heq. by rewrite (ends_not_number _ _ _ Hr2 Heq) in Hc1.
    + injection Heq as -> Heq. by destruct (IH t2 Ht2 Hr1 Hr2 Heq) as [-> ->].
Qed.

(** ** The same document

    Equal up to the order of members and the spelling of numbers that are related. *)

Unset Elimination Schemes.
Inductive same_value_by (R : Number -> Number -> Prop) : Value -> Value -> Prop :=
  | same_null : same_value_by R Null Null
  | same_bool b : same_value_by R (Bool b) (Bool b)
  | same_num n m : R n m -> same_value_by R (Num n) (Num m)
  | same_string s : same_value_by R (Str s) (Str s)
  | same_array l1 l2 : Forall2 (same_value_by R) l1 l2 -> same_value_by R (Array l1) (Array l2)
  | same_object m1 m1' m2 :
      Forall2 (fun p q => p.1 = q.1 /\ same_value_by R p.2 q.2) m1 m1' -> m1' ≡ₚ m2 ->
      same_value_by R (Object m1) (Object m2).
Set Elimination Schemes.

(** Numbers with one text. *)
Definition same_text : Value -> Value -> Prop := same_value_by (fun n m => write_number n = write_number m).

Abbreviation same_member := (fun p q : string * Value => p.1 = q.1 /\ same_text p.2 q.2).

(** ** Sequences *)

Lemma join_items_cons i rest b :
  join_items (i :: rest) = Ok b ->
  exists t, i = Ok t /\
    (rest = [] /\ b = t \/ exists b', join_items rest = Ok b' /\ rest <> [] /\ b = t +:+ "," +:+ b').
Proof.
  destruct rest as [|j rest]; [cbn; intros ->; by exists b; split; [|left]|].
  change (join_items (i :: j :: rest)) with
    (t ← i; others ← join_items (j :: rest); Ok (t +:+ "," +:+ others)).
  destruct i as [t|]; cbn [mbind Result_bind]; [|done].
  destruct (join_items (j :: rest)) as [b'|] eqn:Hj; cbn [mbind Result_bind]; [|done].
  intros [= <-]. exists t. split; [done|]. right. by exists b'.
Qed.

Lemma join_decode {A B} (R : A -> B -> Prop) (f : A -> Result CanonicalJsonError string)
    (g : B -> Result CanonicalJsonError string) (close : ascii) l1 l2 b1 b2 r1 r2 :
  close = "]"%char \/ close = "}"%char ->
  Forall (fun x => forall y t1 t2 q1 q2, f x = Ok t1 -> g y = Ok t2 ->
    text t1 ++ q1 = text t2 ++ q2 -> ends q1 -> ends q2 -> R x y /\ q1 = q2) l1 ->
  (forall x t, f x = Ok t -> exists c rest, text t = c :: rest /\ c <> close) ->
  (forall y t, g y = Ok t -> exists c rest, text t = c :: rest /\ c <> close) ->
  join_items (f <$> l1) = Ok b1 -> join_items (g <$> l2) = Ok b2 ->
  text b1 ++ close :: r1 = text b2 ++ close :: r2 -> Forall2 R l1 l2 /\ r1 = r2.
Proof.
  intros Hclose Hdec Hf Hg. revert l2 b1 b2.
  assert (Hend : forall r, ends (close :: r)) by (intros r; cbn; destruct_or! Hclose; subst; auto).
  assert (Hcomma : close <> ","%char) by (destruct_or! Hclose; by subst).
  induction Hdec as [|x l1 Hx Hdec IH]; intros [|y l2] b1 b2 Hb1 Hb2 Heq.
  - cbn in Hb1, Hb2. injection Hb1 as <-. injection Hb2 as <-. by injection Heq as ->.
  - cbn in Hb1. injection Hb1 as <-. apply join_items_cons in Hb2 as (t & (c & rest & Ht & Hc)%Hg & Hb2).
    destruct Hb2 as [[_ ->]|(b' & _ & _ & ->)]; rewrite ?text_app, Ht in Heq; cbn in Heq; congruence.
  - cbn in Hb2. injection Hb2 as <-. apply join_items_cons in Hb1 as (t & (c & rest & Ht & Hc)%Hf & Hb1).
    destruct Hb1 as [[_ ->]|(b' & _ & _ & ->)]; rewrite ?text_app, Ht in Heq; cbn in Heq; congruence.
  - rewrite fmap_cons in Hb1. rewrite fmap_cons in Hb2.
    apply join_items_cons in Hb1 as (t1 & Ht1 & Hb1). apply join_items_cons in Hb2 as (t2 & Ht2 & Hb2).
    destruct Hb1 as [[Hl1 ->]|(b1' & Hb1 & Hl1 & ->)], Hb2 as [[Hl2 ->]|(b2' & Hb2 & Hl2 & ->)];
      rewrite ?text_app, <- ?app_assoc in Heq; cbn [text app] in Heq;
      destruct (Hx y _ _ _ _ Ht1 Ht2 Heq) as [HR Hq]; try (apply Hend); try (by left).
    + apply fmap_nil_inv in Hl1 as ->. apply fmap_nil_inv in Hl2 as ->. injection Hq as ->. by repeat constructor.
    + congruence.
    + congruence.
    + injection Hq as Hq. destruct (IH l2 b1' b2' Hb1 Hb2 Hq) as [HF ->]. by repeat constructor.
Qed.

(** ** First characters *)

Definition starts (v : Value) (c : ascii) : bool :=
  match v with
  | Null => bool_decide (c = "n"%char)
  | Bool true => bool_decide (c = "t"%char)
  | Bool false => bool_decide (c = "f"%char)
  | Num _ => number_char c
  | Str _ => bool_decide (c = ascii_of_N 34)
  | Array _ => bool_decide (c = "["%char)
  | Object _ => bool_decide (c = "{"%char)
  end.

Lemma write_value_starts v t :
  write_value v = Ok t -> exists c rest, text t = c :: rest /\ starts v c = true.
Proof.
  destruct v as [|b|n|s|items|members]; cbn [write_value].
  - intros [= <-]. by repeat eexists.
  - intros [= <-]. destruct b; by repeat eexists.
  - intros [Hn Hne]%write_number_numeric. destruct t as [|c t]; [done|]. apply Forall_cons in Hn as [Hc _].
    by repeat eexists.
  - intros [= <-]. by repeat eexists.
  - destruct (join_items _); [|done]. intros [= <-]. by repeat eexists.
  - destruct (join_items _); [|done]. intros [= <-]. by repeat eexists.
Qed.

Lemma starts_not_close v c : starts v c = true -> c <> "]"%char /\ c <> "}"%char.
Proof. destruct v as [|[]| | | |]; cbn; intros Hc; split; intros ->; done. Qed.

Lemma write_value_open v t :
  write_value v = Ok t -> exists c rest, text t = c :: rest /\ c <> "]"%char.
Proof.
  intros (c & rest & Ht & Hc)%write_value_starts. exists c, rest. split; [done|].
  by apply starts_not_close in Hc as [? _].
Qed.

(** A member is delimited by its name's quotes and its value. *)
Abbreviation write_entry := (fun m : string * Value => write_member (m.1, write_value m.2)).

Lemma write_entry_inv m t :
  write_entry m = Ok t -> exists tv, write_value m.2 = Ok tv /\ t = write_string m.1 +:+ ":" +:+ tv.
Proof. unfold write_member. cbn. destruct (write_value m.2) as [tv|]; [|done]. intros [= <-]. eauto. Qed.

Definition same_kind (v w : Value) : Prop :=
  match v, w with
  | Null, Null | Num _, Num _ | Str _, Str _ | Array _, Array _ | Object _, Object _ => True
  | Bool b, Bool b' => b = b'
  | _, _ => False
  end.

Lemma starts_kind v w c : starts v c = true -> starts w c = true -> same_kind v w.
Proof.
  destruct v as [|[]| | | |], w as [|[]| | | |]; cbn; try done; intros Hv Hw;
    repeat match goal with H : bool_decide _ = true |- _ => apply bool_decide_eq_true in H; subst end; done.
Qed.

Lemma write_object_body members :
  write_value (Object members) =
  (body ← join_items (write_entry <$> stable_sort utf16_le members);
   Ok ("{" +:+ body +:+ "}")).
Proof.
  cbn [write_value].
  rewrite (stable_sort_fmap _ utf16_le (fun m => (m.1, write_value m.2))) by done.
  by rewrite <- list_fmap_compose.
Qed.

(** ** Reading back *)

(** Whatever value is written at the front of the same text, it is this one. *)
Definition decodes (v1 : Value) : Prop := forall v2 t1 t2 r1 r2,
  write_value v1 = Ok t1 -> write_value v2 = Ok t2 -> text t1 ++ r1 = text t2 ++ r2 ->
  ends r1 -> ends r2 -> same_text v1 v2 /\ r1 = r2.

Lemma write_value_same_kind v1 v2 t1 t2 r1 r2 :
  write_value v1 = Ok t1 -> write_value v2 = Ok t2 -> text t1 ++ r1 = text t2 ++ r2 -> same_kind v1 v2.
Proof.
  intros (c1 & q1 & Hc1 & Hs1)%write_value_starts (c2 & q2 & Hc2 & Hs2)%write_value_starts Heq.
  rewrite Hc1, Hc2 in Heq. injection Heq as -> _. by eapply starts_kind.
Qed.

Lemma array_decode items items' t1 t2 r1 r2 :
  Forall decodes items -> write_value (Array items) = Ok t1 -> write_value (Array items') = Ok t2 ->
  text t1 ++ r1 = text t2 ++ r2 -> same_text (Array items) (Array items') /\ r1 = r2.
Proof.
  cbn [write_value]. intros IH H1 H2 Heq.
  destruct (join_items (write_value <$> items)) as [b1|] eqn:Hb1; [|done]. injection H1 as <-.
  destruct (join_items (write_value <$> items')) as [b2|] eqn:Hb2; [|done]. injection H2 as <-.
  rewrite !text_app in Heq. cbn in Heq. injection Heq as Heq. rewrite <- !app_assoc in Heq. cbn in Heq.
  destruct (join_decode same_text write_value write_value "]"%char items items' b1 b2 r1 r2)
    as [HF ->]; [by left| | | |done|done|done|split; [by constructor|done]].
  - eapply Forall_impl; [exact IH|]. cbn. eauto.
  - intros x t. by apply write_value_open.
  - intros x t. by apply write_value_open.
Qed.

Lemma entry_decode m m' t1 t2 q1 q2 :
  decodes m.2 -> write_entry m = Ok t1 -> write_entry m' = Ok t2 -> text t1 ++ q1 = text t2 ++ q2 ->
  ends q1 -> ends q2 -> same_member m m' /\ q1 = q2.
Proof.
  intros Hm (tv1 & Hv1 & ->)%write_entry_inv (tv2 & Hv2 & ->)%write_entry_inv Hq Hq1 Hq2.
  rewrite !text_app, <- !app_assoc in Hq. apply write_string_decode in Hq as [Hkey Hq].
  cbn in Hq. injection Hq as Hq. by destruct (Hm _ _ _ _ _ Hv1 Hv2 Hq Hq1 Hq2).
Qed.

Lemma object_decode members members' t1 t2 r1 r2 :
  Forall (fun m => decodes m.2) members ->
  write_value (Object members) = Ok t1 -> write_value (Object members') = Ok t2 ->
  text t1 ++ r1 = text t2 ++ r2 -> same_text (Object members) (Object members') /\ r1 = r2.
Proof.
  rewrite !write_object_body. intros IH H1 H2 Heq.
  destruct (join_items _) as [b1|] eqn:Hb1 in H1; [|done]. injection H1 as <-.
  destruct (join_items _) as [b2|] eqn:Hb2 in H2; [|done]. injection H2 as <-.
  rewrite !text_app in Heq. cbn in Heq. injection Heq as Heq. rewrite <- !app_assoc in Heq. cbn in Heq.
  destruct (join_decode same_member write_entry write_entry "}"%char
    (stable_sort utf16_le members) (stable_sort utf16_le members') b1 b2 r1 r2)
    as [HF ->]; [by right| | | |exact Hb1|exact Hb2|exact Heq|].
  - rewrite stable_sort_perm. eapply Forall_impl; [exact IH|]. intros m Hm m' u1 u2 q1 q2. by apply entry_decode.
  - intros m t (tv & _ & ->)%write_entry_inv. by repeat eexists.
  - intros m t (tv & _ & ->)%write_entry_inv. by repeat eexists.
  - split; [|done].
    destruct (Permutation_Forall2 (stable_sort_perm utf16_le members) HF) as (m1' & Hp & HF').
    econstructor; [exact HF'|]. rewrite <- Hp. apply stable_sort_perm.
Qed.

Lemma write_value_decode v1 : decodes v1.
Proof.
  induction v1 as [|b|n|s|items IH|members IH] using value_ind';
    intros v2 t1 t2 r1 r2 H1 H2 Heq Hr1 Hr2;
    pose proof (write_value_same_kind _ _ _ _ _ _ H1 H2 Heq) as Hk;
    destruct v2 as [|b'|m|s'|items'|members']; try done.
  - cbn in H1, H2. simplify_eq/=. split; [constructor|done].
  - cbn in Hk. subst b'. rewrite H1 in H2. injection H2 as ->.
    apply app_inv_head in Heq as ->. split; [constructor|done].
  - destruct (write_number_numeric _ _ H1) as [Hn1 _]. destruct (write_number_numeric _ _ H2) as [Hn2 _].
    destruct (number_decode _ _ _ _ Hn1 Hn2 Hr1 Hr2 Heq) as [Ht ->]. apply text_inj in Ht as ->.
    split; [constructor; cbn in H1, H2; congruence|done].
  - cbn in H1, H2. injection H1 as <-. injection H2 as <-.
    apply write_string_decode in Heq as [-> ->]. split; [constructor|done].
  - by eapply array_decode.
  - by eapply object_decode.
Qed.

Lemma write_value_inj v1 v2 t : write_value v1 = Ok t -> write_value v2 = Ok t -> same_text v1 v2.
Proof. intros H1 H2. by destruct (write_value_decode v1 v2 t t [] [] H1 H2 eq_refl I I). Qed.
