(* ===== verification/CanonicalFloat.v ===== *)
(** * The text of a double

    The digit generation stops by itself and yields digits inside the double's
    rounding interval; the layout of the digits denotes the same decimal, which is closer
    to the double than to any other, and an integer when the double is one. *)
From S2P Require Import Prelude Json Canonical.
From Stdlib Require Import SpecFloat Ascii.

#[local] Open Scope Z_scope.

Definition ten (n : nat) : Z := 10 ^ Z.of_nat n.

Lemma ten_0 : ten 0 = 1.
Proof. done. Qed.

Lemma ten_S n : ten (S n) = 10 * ten n.
Proof. unfold ten. rewrite Nat2Z.inj_succ. apply Z.pow_succ_r. lia. Qed.

Lemma ten_add n m : ten (n + m) = ten n * ten m.
Proof. unfold ten. rewrite Nat2Z.inj_add. apply Z.pow_add_r; lia. Qed.

Lemma ten_pos n : 0 < ten n.
Proof. apply Z.pow_pos_nonneg; lia. Qed.

Lemma ten_log n x : Z.log2_up x <= Z.of_nat n -> x <= ten n.
Proof.
  intros Hn. destruct (Z.le_gt_cases x 1) as [Hx|Hx]; [pose proof (ten_pos n); lia|].
  destruct (Z.log2_up_spec x Hx) as [_ Hup]. etrans; [exact Hup|].
  etrans; [apply (Z.pow_le_mono_r 2 _ (Z.of_nat n)); lia|]. apply Z.pow_le_mono_l. lia.
Qed.

(** The fuel of the loops: one unit per bit. *)
Lemma ten_fuel x y : 0 < y -> x <= ten (Z.to_nat (Z.log2_up x)) * y.
Proof.
  intros Hy. pose proof (Z.log2_up_nonneg x).
  assert (Hx : x <= ten (Z.to_nat (Z.log2_up x))) by (apply ten_log; lia).
  pose proof (ten_pos (Z.to_nat (Z.log2_up x))). nia.
Qed.

(** [a <= b] or [a < b]: the comparison of the interval's ends. *)
Definition within (inclusive : bool) (a b : Z) : Prop := if inclusive then a <= b else a < b.

Lemma below_spec i a b : below i a b = true <-> within i a b.
Proof. destruct i; cbn; lia. Qed.

Lemma below_false i a b : below i a b = false <-> within (negb i) b a.
Proof. destruct i; cbn; lia. Qed.

Lemma within_scale i a b c : 0 < c -> within i a b -> within i (c * a) (c * b).
Proof. destruct i; cbn; nia. Qed.

Lemma within_le i a b : within i a b -> a <= b.
Proof. destruct i; cbn; lia. Qed.

(** ** Generating digits *)

Record decoded_ok (d : Decoded) : Prop := {
  dec_mant : 0 <= mant d < scale d;
  dec_minus : 0 < minus d;
  dec_plus : 0 < plus d }.

(** One digit: the quotient and what is left. *)
Lemma digit_step s m : 0 <= m < s ->
  10 * m = s * (10 * m / s) + 10 * m mod s /\ 0 <= 10 * m mod s < s /\ 0 <= 10 * m / s <= 9.
Proof.
  intros Hm. pose proof (Z.div_mod (10 * m) s ltac:(lia)). pose proof (Z.mod_pos_bound (10 * m) s ltac:(lia)).
  split_and!; try lia; nia.
Qed.

(** Stopping after a digit lands in the interval. *)
Lemma stop_spec i s D m minus plus q r :
  10 * m = s * q + r -> 0 <= r < s -> 0 <= q <= 9 -> 0 < minus -> 0 < plus ->
  let down := below i r (10 * minus) in
  let up := below i s (r + 10 * plus) in
  (down || up)%bool = true ->
  let D' := if (up && (negb down || (s <=? 2 * r)))%bool then 10 * D + q + 1 else 10 * D + q in
  within i (10 * (D * s + m - minus)) (D' * s) /\
  within i (D' * s) (10 * (D * s + m + plus)) /\ 10 * D <= D' <= 10 * (D + 1).
Proof.
  intros Hdiv Hr Hq Hminus Hplus down up Hstop D'.
  assert (Hcase : D' = 10 * D + q /\ within i r (10 * minus) \/
                  D' = 10 * D + q + 1 /\ within i s (r + 10 * plus)).
  { unfold D'. destruct down eqn:Hd, up eqn:Hu; cbn; try done; unfold down, up in *;
      rewrite below_spec in *; [destruct (s <=? 2 * r)|..]; auto. }
  destruct Hcase as [[-> Hw]|[-> Hw]]; destruct i; cbn in *; nia.
Qed.

Definition stopped (d : Decoded) : bool :=
  let r := 10 * mant d mod scale d in
  (below (inclusive d) r (10 * minus d) || below (inclusive d) (scale d) (r + 10 * plus d))%bool.

Definition next_decoded (d : Decoded) : Decoded := {|
  mant := 10 * mant d mod scale d; minus := 10 * minus d; plus := 10 * plus d; scale := scale d;
  inclusive := inclusive d |}.

Lemma generate_continue fuel d digits n :
  stopped d = false ->
  generate (S fuel) d digits n = generate fuel (next_decoded d) (10 * digits + 10 * mant d / scale d) (S n).
Proof. unfold stopped. intros Hs. cbn [generate times_ten mant minus plus scale inclusive]. by rewrite Hs. Qed.

Lemma generate_stop d digits n :
  decoded_ok d -> stopped d = true ->
  exists digits', (forall fuel, generate (S fuel) d digits n = (digits', S n)) /\
    within (inclusive d) (10 * (digits * scale d + mant d - minus d)) (digits' * scale d) /\
    within (inclusive d) (digits' * scale d) (10 * (digits * scale d + mant d + plus d)) /\
    10 * digits <= digits' <= 10 * (digits + 1).
Proof.
  intros [Hm Hminus Hplus] Hs. destruct (digit_step _ _ Hm) as (Hdiv & Hr & Hq).
  pose proof (stop_spec (inclusive d) (scale d) digits _ _ _ _ _ Hdiv Hr Hq Hminus Hplus Hs) as Hstop.
  unfold stopped in Hs. eexists. split; [|exact Hstop].
  intros fuel. cbn [generate times_ten mant minus plus scale inclusive]. by rewrite Hs.
Qed.

(** After [j] digits the rest is still outside the interval, unless there are none. *)
Definition unfinished (d : Decoded) (j : nat) : Prop :=
  j = 0%nat \/ within (negb (inclusive d)) (ten j * minus d) (ten j * mant d mod scale d).

Lemma unfinished_next d j : 0 < scale d -> stopped d = false -> unfinished (next_decoded d) j -> unfinished d (S j).
Proof.
  intros Hs Hstop Hj. right. unfold stopped in Hstop. apply orb_false_iff in Hstop as [Hstop _]. apply below_false in Hstop.
  destruct Hj as [->|Hj]; [by rewrite ten_S, ten_0|]. cbn [next_decoded mant minus scale inclusive] in Hj.
  rewrite Z.mul_mod_idemp_r in Hj by lia. rewrite ten_S.
  replace (10 * ten j * minus d) with (ten j * (10 * minus d)) by lia.
  by replace (10 * ten j * mant d) with (ten j * (10 * mant d)) by lia.
Qed.

(** From digits [digits] and the rest [mant / scale], [S j] more digits land in
    the interval around the number. *)
Lemma generate_spec fuel d digits n :
  decoded_ok d -> scale d <= ten fuel * minus d ->
  exists j digits',
    generate (S fuel) d digits n = (digits', n + S j)%nat /\
    within (inclusive d) (ten (S j) * (digits * scale d + mant d - minus d)) (digits' * scale d) /\
    within (inclusive d) (digits' * scale d) (ten (S j) * (digits * scale d + mant d + plus d)) /\
    ten (S j) * digits <= digits' <= ten (S j) * (digits + 1) /\ unfinished d j.
Proof.
  revert d digits n. induction fuel as [|fuel IH]; intros d digits n Hd Hfuel.
  all: destruct (stopped d) eqn:Hs;
    [destruct (generate_stop _ digits n Hd Hs) as (D' & Hg & Hspec); exists 0%nat, D';
     rewrite Hg, ten_S, ten_0, Z.mul_1_r; destruct Hspec as (Hl & Hh & Hb);
     split_and!; [f_equal; lia|exact Hl|exact Hh|lia|lia|by left]|].
  all: destruct Hd as [Hm Hminus Hplus]; destruct (digit_step _ _ Hm) as (Hdiv & Hr & Hq).
  - exfalso. rewrite ten_0 in Hfuel. unfold stopped in Hs. apply orb_false_iff in Hs as [Hs _].
    apply below_false in Hs. apply within_le in Hs. lia.
  - rewrite generate_continue by done. set (q := 10 * mant d / scale d) in *.
    destruct (IH (next_decoded d) (10 * digits + q) (S n)) as (j & D' & Hg & Hlow & Hhigh & Hb & Hun).
    { split; cbn; lia. }
    { cbn. rewrite ten_S in Hfuel. lia. }
    apply unfinished_next in Hun; [|lia|done].
    exists (S j), D'. rewrite Hg. cbn [next_decoded mant minus plus scale inclusive] in *.
    rewrite (ten_S (S j)). split; [f_equal; lia|]. pose proof (ten_pos (S j)).
    replace (10 * ten (S j) * (digits * scale d + mant d - minus d))
      with (ten (S j) * ((10 * digits + q) * scale d + 10 * mant d mod scale d - 10 * minus d)) by nia.
    replace (10 * ten (S j) * (digits * scale d + mant d + plus d))
      with (ten (S j) * ((10 * digits + q) * scale d + 10 * mant d mod scale d + 10 * plus d)) by nia.
    split_and!; [exact Hlow|exact Hhigh|nia|nia|exact Hun].
Qed.

(** The first digit is not zero, or generation stops at once with a one. *)
Lemma generate_first fuel d :
  decoded_ok d -> scale d <= ten fuel * minus d -> minus d < mant d ->
  below (inclusive d) (scale d) (10 * (mant d + plus d)) = true ->
  exists j digits',
    generate (S fuel) d 0 0 = (digits', S j) /\
    within (inclusive d) (ten (S j) * (mant d - minus d)) (digits' * scale d) /\
    within (inclusive d) (digits' * scale d) (ten (S j) * (mant d + plus d)) /\
    ten j <= digits' <= ten (S j) /\ unfinished d j.
Proof.
  intros Hd Hfuel Hmm Hbelow. destruct (stopped d) eqn:Hs.
  - destruct (generate_stop d 0 0 Hd Hs) as (D' & Hg & Hlow & Hhigh & Hb). exists 0%nat, D'.
    rewrite Hg, ten_S, ten_0, Z.mul_1_r. rewrite Z.mul_0_l, Z.add_0_l in *. split_and!; try done; try lia; [|by left].
    apply within_le in Hlow. destruct Hd as [Hm _ _].
    enough (0 < D') by lia. apply (Z.mul_pos_cancel_r _ (scale d)); lia.
  - destruct Hd as [Hm Hminus Hplus]. destruct (digit_step _ _ Hm) as (Hdiv & Hr & Hq).
    assert (Hq1 : 1 <= 10 * mant d / scale d).
    { destruct (Z.eq_dec (10 * mant d / scale d) 0) as [Hz|]; [exfalso|lia].
      unfold stopped in Hs. apply orb_false_iff in Hs as [_ Hs].
      replace (10 * mant d mod scale d + 10 * plus d) with (10 * (mant d + plus d)) in Hs by nia. congruence. }
    destruct fuel as [|fuel].
    { exfalso. rewrite ten_0 in Hfuel. unfold stopped in Hs. apply orb_false_iff in Hs as [Hs _].
      apply below_false, within_le in Hs. lia. }
    rewrite generate_continue by done.
    destruct (generate_spec fuel (next_decoded d) (10 * 0 + 10 * mant d / scale d) 1) as (j & D' & Hg & Hlow & Hhigh & Hb & Hun).
    { split; cbn; lia. }
    { cbn. rewrite ten_S in Hfuel. lia. }
    apply unfinished_next in Hun; [|lia|done].
    exists (S j), D'. rewrite Hg. cbn [next_decoded mant minus plus scale inclusive] in *.
    rewrite (ten_S (S j)). pose proof (ten_pos (S j)). set (q := 10 * mant d / scale d) in *.
    replace (10 * ten (S j) * (mant d - minus d))
      with (ten (S j) * ((10 * 0 + q) * scale d + 10 * mant d mod scale d - 10 * minus d)) by nia.
    replace (10 * ten (S j) * (mant d + plus d))
      with (ten (S j) * ((10 * 0 + q) * scale d + 10 * mant d mod scale d + 10 * plus d)) by nia.
    split_and!; [done|exact Hlow|exact Hhigh|nia|nia|exact Hun].
Qed.

(** ** The decimal exponent *)

Definition rescaled (a b : nat) (d : Decoded) : Decoded := {|
  mant := ten b * mant d; minus := ten b * minus d; plus := ten b * plus d; scale := ten a * scale d;
  inclusive := inclusive d |}.

Lemma rescaled_0 d : rescaled 0 0 d = d.
Proof. destruct d as [a b c e i]. unfold rescaled. cbn [mant minus plus scale inclusive]. rewrite ten_0, !Z.mul_1_l. done. Qed.

Lemma scale_up_rescaled a b d : rescaled a b (scale_up d) = rescaled (S a) b d.
Proof. unfold rescaled. cbn [scale_up mant minus plus scale inclusive]. rewrite ten_S. f_equal; lia. Qed.

Lemma times_ten_rescaled a b d : rescaled a b (times_ten d) = rescaled a (S b) d.
Proof. unfold rescaled. cbn [times_ten mant minus plus scale inclusive]. rewrite ten_S. f_equal; lia. Qed.

Lemma normalize_up_spec fuel k d :
  0 < scale d -> mant d + plus d < ten fuel * scale d ->
  exists a, normalize_up fuel k d = (k + Z.of_nat a, rescaled a 0 d) /\
    below (inclusive d) (ten a * scale d) (mant d + plus d) = false.
Proof.
  revert k d. induction fuel as [|fuel IH]; intros k d Hs Hfuel; cbn [normalize_up].
  { rewrite ten_0 in Hfuel. exists 0%nat. rewrite rescaled_0, ten_0. split; [f_equal; lia|].
    apply below_false. destruct (inclusive d); cbn; lia. }
  destruct (below (inclusive d) (scale d) (mant d + plus d)) eqn:Hb.
  - rewrite ten_S in Hfuel. destruct (IH (k + 1) (scale_up d)) as (a & Hn & Hb');
      cbn [scale_up mant minus plus scale inclusive] in *; [lia|lia|].
    exists (S a). rewrite Hn, scale_up_rescaled, ten_S. split; [f_equal; lia|].
    by replace (10 * ten a * scale d) with (ten a * (10 * scale d)) by lia.
  - exists 0%nat. rewrite rescaled_0, ten_0, Z.mul_1_l. split; [f_equal; lia|done].
Qed.

Lemma normalize_down_spec fuel k d :
  0 < mant d + plus d -> scale d <= ten fuel * (mant d + plus d) ->
  below (inclusive d) (scale d) (mant d + plus d) = false ->
  exists b, normalize_down fuel k d = (k - Z.of_nat b, rescaled 0 b d) /\
    below (inclusive d) (scale d) (10 * (ten b * (mant d + plus d))) = true /\
    below (inclusive d) (scale d) (ten b * (mant d + plus d)) = false.
Proof.
  revert k d. induction fuel as [|fuel IH]; intros k d Hpos Hfuel Hb; cbn [normalize_down].
  { rewrite ten_0 in Hfuel. exists 0%nat. rewrite rescaled_0, ten_0, !Z.mul_1_l. split_and!; [f_equal; lia| |done].
    apply below_spec. destruct (inclusive d); cbn; lia. }
  destruct (below (inclusive d) (scale d) (10 * (mant d + plus d))) eqn:Hb10.
  - exists 0%nat. rewrite rescaled_0, ten_0, Z.mul_1_l. split_and!; [f_equal; lia|done|done].
  - rewrite ten_S in Hfuel. destruct (IH (k - 1) (times_ten d)) as (b & Hn & Hb1 & Hb2);
      cbn [times_ten mant minus plus scale inclusive] in *.
    + lia.
    + lia.
    + by replace (10 * mant d + 10 * plus d) with (10 * (mant d + plus d)) by lia.
    + exists (S b). rewrite Hn, times_ten_rescaled, ten_S.
      replace (10 * ten b * (mant d + plus d)) with (ten b * (10 * mant d + 10 * plus d)) by lia.
      split_and!; [f_equal; lia|done|done].
Qed.

Lemma rescaled_rescaled a b d : rescaled 0 b (rescaled a 0 d) = rescaled a b d.
Proof. unfold rescaled. cbn [mant minus plus scale inclusive]. rewrite !ten_0. f_equal; lia. Qed.

Lemma normalize_spec d :
  0 < scale d -> 0 < mant d + plus d ->
  exists a b, normalize d = (Z.of_nat a - Z.of_nat b, rescaled a b d) /\
    below (inclusive d) (ten a * scale d) (10 * (ten b * (mant d + plus d))) = true /\
    below (inclusive d) (ten a * scale d) (ten b * (mant d + plus d)) = false.
Proof.
  intros Hs Hpos. unfold normalize.
  destruct (normalize_up_spec (Z.to_nat (Z.log2_up (mant d + plus d + 1))) 0 d Hs) as (a & -> & Ha).
  { pose proof (ten_fuel (mant d + plus d + 1) (scale d) Hs). lia. }
  set (d1 := rescaled a 0 d).
  assert (Hmp : mant d1 + plus d1 = mant d + plus d) by (cbn; rewrite ten_0; lia).
  destruct (normalize_down_spec (Z.to_nat (Z.log2_up (scale d1))) (0 + Z.of_nat a) d1) as (b & -> & Hb1 & Hb2).
  - lia.
  - apply ten_fuel. lia.
  - by rewrite Hmp.
  - exists a, b. unfold d1. rewrite rescaled_rescaled. rewrite Hmp in *. split_and!; [f_equal; lia|done|done].
Qed.

(** ** The number of digits *)

Lemma pretty_go_length n s :
  (0 < n)%N -> exists j, String.length (pretty_N_go n s) = (S j + String.length s)%nat /\
    ten j <= Z.of_N n < ten (S j).
Proof.
  revert s. induction (N.lt_wf_0 n) as [n _ IH]; intros s Hpos. rewrite pretty_N_go_step by done.
  pose proof (N.div_mod n 10 ltac:(lia)) as Hdm. pose proof (N.mod_lt n 10 ltac:(lia)) as Hmod.
  pose proof (N.div_lt n 10 Hpos ltac:(lia)) as Hlt.
  set (q := (n / 10)%N) in *. set (r := (n mod 10)%N) in *. clearbody q r.
  destruct (decide (q = 0)%N) as [->|Hnz].
  - rewrite pretty_N_go_0. exists 0%nat. rewrite ten_S, ten_0. split; [done|]. lia.
  - destruct (IH q Hlt (String (pretty_N_char r) s)) as (j & -> & Hj); [lia|].
    exists (S j). rewrite (ten_S (S j)). rewrite (ten_S j) in *. split; [cbn [String.length]; lia|]. lia.
Qed.

Lemma pretty_length n : (0 < n)%N ->
  exists j, String.length (u64_to_string n) = S j /\ ten j <= Z.of_N n < ten (S j).
Proof.
  intros Hpos. unfold u64_to_string, pretty, pretty_N. rewrite decide_False by lia.
  destruct (pretty_go_length n "" Hpos) as (j & -> & Hj). exists j. split; [cbn; lia|done].
Qed.

Lemma ten_mono n m : ten n < ten m -> (n < m)%nat.
Proof.
  intros Hlt. destruct (le_lt_dec m n) as [Hle|]; [|done]. exfalso.
  assert (ten m <= ten n) by (apply Z.pow_le_mono_r; lia). lia.
Qed.

(** ** Shortest digits *)

Lemma decode_ok m e :
  let d := decode m e in 0 < scale d /\ 0 < minus d /\ 0 < plus d /\ minus d < mant d.
Proof.
  cbn -[Z.pow Z.eqb]. assert (0 < 2 ^ Z.max (e - (if Z.pos m =? 2 ^ 52 then 2 else 1)) 0) by (apply Z.pow_pos_nonneg; lia).
  assert (0 < 2 ^ Z.max (- (e - (if Z.pos m =? 2 ^ 52 then 2 else 1))) 0) by (apply Z.pow_pos_nonneg; lia).
  set (u := 2 ^ Z.max (e - _) 0) in *. set (w := 2 ^ Z.max (- _) 0) in *. clearbody u w.
  destruct (Z.pos m =? 2 ^ 52); change (2 ^ 2) with 4; change (2 ^ 1) with 2; split_and!; nia.
Qed.

(** The digits of a double denote a decimal inside its rounding interval, and one digit
    less would not have been enough. *)
Lemma shortest_spec m e :
  let d := decode m e in
  exists digits a b j k,
    shortest m e = (u64_to_string (Z.to_N digits), k) /\ 0 < digits /\
    k - Z.of_nat (String.length (u64_to_string (Z.to_N digits))) = Z.of_nat a - Z.of_nat (S j + b) /\
    within (inclusive d) (ten (S j + b) * (mant d - minus d)) (digits * (ten a * scale d)) /\
    within (inclusive d) (digits * (ten a * scale d)) (ten (S j + b) * (mant d + plus d)) /\
    ten b * (mant d + plus d) <= ten a * scale d /\
    (j = 0%nat \/ ten (j + b) * minus d <= ten (j + b) * mant d mod (ten a * scale d)).
Proof.
  intros d. destruct (decode_ok m e) as (Hs & Hminus & Hplus & Hmm). fold d in Hs, Hminus, Hplus, Hmm.
  destruct (normalize_spec d Hs ltac:(lia)) as (a & b & Hn & Hb1 & Hb2).
  unfold shortest. fold d. rewrite Hn.
  pose proof (ten_pos a). pose proof (ten_pos b).
  destruct (generate_first (Z.to_nat (Z.log2_up (scale (rescaled a b d)))) (rescaled a b d))
    as (j & D & Hg & Hlow & Hhigh & Hb & Hun); cbn [rescaled mant minus plus scale inclusive] in *.
  { split; cbn [rescaled mant minus plus scale inclusive]; [|lia|lia].
    apply below_false, within_le in Hb2. nia. }
  { apply ten_fuel. lia. }
  { nia. }
  { by rewrite <- Z.mul_add_distr_l. }
  rewrite Hg. pose proof (ten_pos j). pose proof (ten_pos (S j)).
  destruct (pretty_length (Z.to_N D)) as (l & Hlen & Hl); [lia|]. rewrite Z2N.id in Hl by lia.
  eexists D, a, b, j, _. split; [reflexivity|]. split; [lia|]. split; [|].
  - rewrite Hlen. destruct (Nat.ltb_spec (S j) (S l)) as [Hlt|Hge].
    + assert (l <= S j)%nat; [|lia]. enough (l < S (S j))%nat by lia. apply ten_mono. rewrite (ten_S (S j)). lia.
    + assert (j < S l)%nat by (apply ten_mono; lia). lia.
  - rewrite !ten_add.
    replace (ten (S j) * ten b * (mant d - minus d)) with (ten (S j) * (ten b * mant d - ten b * minus d)) by lia.
    replace (ten (S j) * ten b * (mant d + plus d)) with (ten (S j) * (ten b * mant d + ten b * plus d)) by lia.
    apply below_false, within_le in Hb2. split_and!; [done|done|lia|].
    destruct Hun as [Hj|Hun]; [by left|right]. apply within_le in Hun.
    cbn [rescaled mant minus plus scale inclusive] in Hun. by rewrite <- !Z.mul_assoc.
Qed.

(** ** Reading a decimal *)

Fixpoint read_digits (acc : Z) (count : nat) (l : list ascii) : Z * nat * list ascii :=
  match l with
  | [] => (acc, count, [])
  | c :: rest =>
      match digit_value c with
      | Some d => read_digits (10 * acc + Z.of_N d) (S count) rest
      | None => (acc, count, l)
      end
  end.

(** The exponent after [e-]; only that form is printed. *)
Definition read_exponent (l : list ascii) : option Z :=
  match l with
  | [] => Some 0
  | "e"%char :: "-"%char :: rest =>
      match read_digits 0 0 rest with
      | (x, S _, []) => Some (- x)
      | _ => None
      end
  | _ => None
  end.

Definition read_places (i : Z) (l : list ascii) : Z * nat * list ascii :=
  match l with
  | c :: rest => if decide (c = "."%char) then read_digits i 0 rest else (i, 0%nat, l)
  | [] => (i, 0%nat, [])
  end.

(** The decimal [mantissa * 10^exponent] that an unsigned JSON number denotes. *)
Definition read_decimal (l : list ascii) : option (Z * Z) :=
  let '(i, n, rest) := read_digits 0 0 l in
  if (n =? 0)%nat then None
  else
    let '(m, places, rest) := read_places i rest in
    x ← read_exponent rest; Some (m, x - Z.of_nat places).

Definition read_number (l : list ascii) : option (Z * Z) :=
  match l with
  | c :: rest =>
      if decide (c = "-"%char) then '(m, x) ← read_decimal rest; Some (- m, x) else read_decimal l
  | [] => None
  end.

Lemma read_number_unsigned l r : read_decimal l = Some r -> read_number l = Some r.
Proof.
  destruct l as [|c l]; [done|]. cbn [read_number]. case_decide as Hc; [subst; done|done].
Qed.

(** ** The value of a string of digits *)

Definition all_digits (s : string) : Prop := Forall (fun c => is_Some (digit_value c)) (text s).

Fixpoint num (acc : Z) (s : string) : Z :=
  match s with
  | EmptyString => acc
  | String c rest => num (10 * acc + Z.of_N (default 0%N (digit_value c))) rest
  end.

Definition no_digit (l : list ascii) : Prop := match l with [] => True | c :: _ => digit_value c = None end.

Lemma read_digits_text s l acc count :
  all_digits s -> no_digit l ->
  read_digits acc count (text s ++ l) = (num acc s, count + String.length s, l)%nat.
Proof.
  revert acc count. induction s as [|c s IH]; intros acc count Hs Hl; cbn.
  - rewrite Nat.add_0_r. destruct l as [|c l]; cbn in *; [done|]. by rewrite Hl.
  - apply Forall_cons in Hs as [[d Hd] Hs]. rewrite Hd. cbn. rewrite IH by done. do 2 f_equal. lia.
Qed.

Lemma num_app acc a b : num acc (a +:+ b) = num (num acc a) b.
Proof. revert acc. induction a as [|c a IH]; intros acc; [done|]. cbn. apply IH. Qed.

Lemma num_zeros acc n : num acc (zeros n) = acc * ten n.
Proof.
  revert acc. induction n as [|n IH]; intros acc; cbn [zeros num]; [rewrite ten_0; lia|].
  rewrite IH, ten_S. change (default 0%N (digit_value "0")) with 0%N. lia.
Qed.

Lemma num_pretty n : num 0 (u64_to_string n) = Z.of_N n.
Proof.
  unfold u64_to_string, pretty, pretty_N. case_decide as H0; [by subst|].
  enough (Hgo : forall s, num 0 (pretty_N_go n s) = num (Z.of_N n) s) by apply Hgo.
  clear H0. induction (N.lt_wf_0 n) as [n _ IH]; intros s.
  destruct (decide (0 < n)%N) as [Hpos|Hz]; [|replace n with 0%N by lia; by rewrite pretty_N_go_0].
  rewrite pretty_N_go_step, IH by (try apply N.div_lt; lia). cbn [num].
  rewrite digit_value_char by (apply N.mod_lt; lia). f_equal.
  pose proof (N.div_mod n 10 ltac:(lia)). cbn [default from_option].
  set (q := (n / 10)%N) in *. set (r := (n mod 10)%N) in *. clearbody q r. unfold id. lia.
Qed.

Lemma all_digits_app a b : all_digits (a +:+ b) <-> all_digits a /\ all_digits b.
Proof. unfold all_digits. rewrite text_app. apply Forall_app. Qed.

Lemma all_digits_zeros n : all_digits (zeros n).
Proof. induction n as [|n IH]; [constructor|]. apply Forall_cons. split; [|done]. by exists 0%N. Qed.

Lemma all_digits_pretty n : all_digits (u64_to_string n).
Proof.
  unfold u64_to_string, pretty, pretty_N. case_decide as H0; [apply Forall_singleton; by exists 0%N|]. clear H0.
  enough (Hgo : forall s, all_digits s -> all_digits (pretty_N_go n s)) by (apply Hgo; constructor).
  induction (N.lt_wf_0 n) as [k _ IH]; intros s Hs.
  destruct (decide (0 < k)%N) as [Hpos|Hz]; [|replace k with 0%N by lia; by rewrite pretty_N_go_0].
  rewrite pretty_N_go_step by done. apply IH; [apply N.div_lt; lia|].
  apply Forall_cons. split; [|done]. rewrite digit_value_char by (apply N.mod_lt; lia). eauto.
Qed.

Lemma split_at_length n s :
  (n <= String.length s)%nat -> String.length (split_at n s).1 = n.
Proof.
  revert s. induction n as [|n IH]; intros [|c s] Hn; cbn in *; try done; try lia.
  specialize (IH s ltac:(lia)). destruct (split_at n s). cbn in *. lia.
Qed.

Lemma string_length_app a b : String.length (a +:+ b) = (String.length a + String.length b)%nat.
Proof. induction a as [|c a IH]; [done|]. change (String c a +:+ b) with (String c (a +:+ b)). cbn. lia. Qed.

Lemma zeros_length n : String.length (zeros n) = n.
Proof. induction n; cbn; congruence. Qed.

(** ** The layout *)

Lemma read_whole s rest x :
  all_digits s -> s <> "" -> no_digit rest -> head rest <> Some "."%char -> read_exponent rest = Some x ->
  read_decimal (text s ++ rest) = Some (num 0 s, x).
Proof.
  intros Hs Hne Hr Hdot Hx. unfold read_decimal. rewrite read_digits_text by done.
  destruct s as [|c s]; [done|]. cbn [String.length Nat.add Nat.eqb].
  assert (Hp : read_places (num 0 (String c s)) rest = (num 0 (String c s), 0%nat, rest)).
  { destruct rest as [|r rest]; [done|]. cbn [read_places]. rewrite decide_False; [done|]. by intros ->. }
  rewrite Hp, Hx. cbn [mbind option_bind]. do 2 f_equal. lia.
Qed.

Lemma read_fraction s f rest x :
  all_digits s -> s <> "" -> all_digits f -> no_digit rest -> read_exponent rest = Some x ->
  read_decimal (text s ++ "."%char :: text f ++ rest) =
  Some (num (num 0 s) f, x - Z.of_nat (String.length f)).
Proof.
  intros Hs Hne Hf Hr Hx. unfold read_decimal. rewrite read_digits_text by done.
  destruct s as [|c s]; [done|]. cbn [String.length Nat.add Nat.eqb read_places].
  rewrite decide_True by done. rewrite read_digits_text by done. rewrite Nat.add_0_l. by rewrite Hx.
Qed.

Lemma layout_value digits n :
  all_digits digits -> digits <> "" ->
  let k := Z.of_nat (String.length digits) in
  read_decimal (text (layout digits n)) =
  Some (num 0 digits * ten (Z.to_nat (n - k)), Z.min 0 (n - k)).
Proof.
  intros Hd Hne k. unfold layout. fold k. destruct (Z.leb_spec k n) as [Hkn|Hkn].
  { rewrite <- (app_nil_r (text _)), (read_whole _ [] 0); try done.
    - rewrite num_app, num_zeros. do 2 f_equal. lia.
    - apply all_digits_app. split; [done|apply all_digits_zeros].
    - by destruct digits. }
  replace (Z.to_nat (n - k)) with 0%nat by lia. rewrite ten_0, Z.mul_1_r, Z.min_r by lia.
  destruct (Z.ltb_spec 0 n) as [Hn|Hn].
  { pose proof (split_at_app (Z.to_nat n) digits) as Happ.
    pose proof (split_at_length (Z.to_nat n) digits ltac:(lia)) as Hlen.
    destruct (split_at (Z.to_nat n) digits) as [whole fraction]. cbn [fst snd] in *. subst digits.
    apply all_digits_app in Hd as [Hw Hf]. rewrite !text_app. cbn [text app].
    rewrite <- (app_nil_r (text fraction)), (read_fraction _ _ [] 0); try done.
    - rewrite <- num_app. do 2 f_equal. unfold k. rewrite string_length_app. lia.
    - intros ->. cbn in Hlen. lia. }
  destruct ((-6 <? n) && (n <=? 0))%bool eqn:Hsmall.
  { rewrite !text_app. change (text "0.") with (text "0" ++ ["."%char]). rewrite <- app_assoc, <- text_app.
    cbn [app]. rewrite <- (app_nil_r (text (_ +:+ _))), (read_fraction "0" _ [] 0); try done.
    - rewrite num_app, num_zeros. do 2 f_equal. rewrite string_length_app, zeros_length. lia.
    - apply Forall_singleton. by exists 0%N.
    - apply all_digits_app. split; [apply all_digits_zeros|done]. }
  assert (Hexp : read_exponent ("e"%char :: "-"%char :: text (u64_to_string (Z.to_N (1 - n)))) = Some (n - 1)).
  { cbn. rewrite <- (app_nil_r (text _)), read_digits_text by (try apply all_digits_pretty; done).
    rewrite num_pretty. pose proof (pretty_not_empty (Z.to_N (1 - n))) as Hp.
    destruct (u64_to_string (Z.to_N (1 - n))); [done|]. cbn [String.length Nat.add]. f_equal. lia. }
  pose proof (split_at_app 1 digits) as Happ.
  pose proof (split_at_length 1 digits ltac:(destruct digits; [done|cbn; lia])) as Hlen.
  destruct (split_at 1 digits) as [first rest]. cbn [fst snd] in *. subst digits.
  apply all_digits_app in Hd as [Hf Hr]. assert (Hk : k = 1 + Z.of_nat (String.length rest))
    by (unfold k; rewrite string_length_app, Hlen; lia).
  assert (Hfne : first <> "") by (by intros ->). rewrite !text_app. change (text "e-") with ["e"%char; "-"%char].
  case_decide as Hrest.
  - subst rest. cbn [text app]. rewrite (read_whole _ _ (n - 1)); try done.
    rewrite num_app. do 2 f_equal. cbn in Hk. lia.
  - rewrite text_app. cbn [text app]. rewrite (read_fraction _ _ _ (n - 1)); try done.
    rewrite <- num_app. do 2 f_equal. lia.
Qed.

(** ** The interval is open *)

Lemma ten_diff a b : ten a * ten (b - a) = ten b * ten (a - b).
Proof. rewrite <- !ten_add. f_equal. lia. Qed.

Lemma odd_five n : Z.odd (5 ^ Z.of_nat n) = true.
Proof. induction n as [|n IH]; [done|]. by rewrite Nat2Z.inj_succ, Z.pow_succ_r, Z.odd_mul, IH by lia. Qed.

(** A power of two that divides an odd multiple of a power of ten. *)
Lemma odd_multiple D s n o : Z.odd o = true -> D * 2 ^ s = ten n * o -> 0 <= s -> s <= Z.of_nat n.
Proof.
  intros Ho Heq Hs. destruct (Z.le_gt_cases s (Z.of_nat n)) as [Hle|Hgt]; [done|exfalso].
  unfold ten in Heq. change 10 with (2 * 5) in Heq. rewrite Z.pow_mul_l in Heq.
  replace s with (Z.of_nat n + (1 + (s - Z.of_nat n - 1))) in Heq by lia.
  rewrite !Z.pow_add_r, Z.pow_1_r in Heq by lia. pose proof (Z.pow_pos_nonneg 2 (Z.of_nat n) ltac:(lia) ltac:(lia)).
  assert (Heq2 : 2 * (D * 2 ^ (s - Z.of_nat n - 1)) = 5 ^ Z.of_nat n * o).
  { apply (Z.mul_reg_l _ _ (2 ^ Z.of_nat n)); [lia|]. etransitivity; [|etransitivity; [exact Heq|]]; ring. }
  apply (f_equal Z.odd) in Heq2. rewrite !Z.odd_mul, Ho, odd_five in Heq2. discriminate.
Qed.

Lemma decode_small m e : e <= 0 ->
  let sh := if Z.pos m =? 2 ^ 52 then 2 else 1 in
  decode m e = {| mant := Z.pos m * 2 ^ sh; minus := 1; plus := sh; scale := 2 ^ (sh - e);
                  inclusive := (Z.even (Z.pos m) || (Z.pos m <? 2 ^ 52))%bool |}.
Proof.
  intros He sh. unfold decode. fold sh. assert (1 <= sh <= 2) by (unfold sh; destruct (_ =? _); lia).
  replace (Z.max (e - sh) 0) with 0 by lia. replace (Z.max (- (e - sh)) 0) with (sh - e) by lia.
  change (2 ^ 0) with 1. f_equal; unfold sh; destruct (_ =? _); lia.
Qed.

Lemma ten_two n s : 0 <= s -> ten n < 2 ^ s -> 3 * Z.of_nat n < s.
Proof.
  intros Hs Hlt. destruct (Z.lt_ge_cases (3 * Z.of_nat n) s) as [|Hge]; [done|exfalso].
  assert (2 ^ s <= 2 ^ (3 * Z.of_nat n)) by (apply Z.pow_le_mono_r; lia).
  assert (2 ^ (3 * Z.of_nat n) <= ten n) by (rewrite Z.pow_mul_r by lia; apply Z.pow_le_mono_l; lia). lia.
Qed.

(** Digits that denote an end of the interval would have stopped before. *)
Lemma no_tie D a B s u o :
  0 <= u <= 1 -> u < s -> Z.odd o = true -> D * (ten a * 2 ^ s) = ten B * (2 ^ u * o) ->
  ten (pred B) < ten a * 2 ^ s -> (a < B)%nat /\ s = u + 1.
Proof.
  intros Hu Hs Ho Heq Hlt. pose proof (Z.pow_pos_nonneg 2 u ltac:(lia) ltac:(lia)) as H2u.
  replace s with (u + (s - u)) in Heq by lia. rewrite Z.pow_add_r in Heq by lia.
  assert (Heq2 : D * ten a * 2 ^ (s - u) = ten B * o).
  { apply (Z.mul_reg_l _ _ (2 ^ u)); [lia|]. etransitivity; [|etransitivity; [exact Heq|]]; ring. }
  pose proof (ten_pos a). pose proof (ten_pos B). destruct (Nat.le_gt_cases B a) as [Hle|Hgt].
  - exfalso. replace (ten a) with (ten B * ten (a - B)) in Heq2 by (rewrite <- ten_add; f_equal; lia).
    assert (Heq3 : D * ten (a - B) * 2 ^ (s - u) = ten 0 * o).
    { rewrite ten_0. apply (Z.mul_reg_l _ _ (ten B)); [lia|]. etransitivity; [|etransitivity; [exact Heq2|]]; ring. }
    apply odd_multiple in Heq3; [|done|]; lia.
  - replace (ten B) with (ten a * ten (B - a)) in Heq2 by (rewrite <- ten_add; f_equal; lia).
    assert (Heq3 : D * 2 ^ (s - u) = ten (B - a) * o).
    { apply (Z.mul_reg_l _ _ (ten a)); [lia|]. etransitivity; [|etransitivity; [exact Heq2|]]; ring. }
    apply odd_multiple in Heq3; [|done|lia].
    replace (pred B) with (a + (B - 1 - a))%nat in Hlt by lia. rewrite ten_add in Hlt.
    apply Z.mul_lt_mono_pos_l, ten_two in Hlt; [|lia|lia]. split; [done|]. lia.
Qed.

(** The digits of a whole number end at its unit. *)
Lemma whole_digits A P s a b j :
  0 < A -> 0 < P -> 0 <= s -> ten b * (A + P) <= ten a * 2 ^ s ->
  j = 0%nat \/ ten (j + b) * 1 <= ten (j + b) * A mod (ten a * 2 ^ s) ->
  A mod 2 ^ s = 0 -> (S j + b <= a)%nat.
Proof.
  intros HA HP Hs Hnorm Hun Hmod. pose proof (Z.pow_pos_nonneg 2 s ltac:(lia) Hs) as H2s.
  apply Z.mod_divide in Hmod as [q Hq]; [|lia]. pose proof (ten_pos a). pose proof (ten_pos b).
  destruct (Nat.lt_ge_cases (j + b) a) as [|Hge]; [lia|exfalso]. destruct Hun as [->|Hun].
  - assert (ten a <= ten b) by (apply Z.pow_le_mono_r; lia).
    assert (Hq1 : 1 <= q) by (destruct (Z.le_gt_cases q 0); [nia|lia]).
    assert (2 ^ s <= A) by (rewrite Hq; apply (Z.mul_le_mono_nonneg_r 1 q (2 ^ s)) in Hq1; lia).
    assert (ten a * 2 ^ s <= ten b * A) by (apply Z.mul_le_mono_nonneg; lia).
    assert (0 < ten b * P) by (by apply Z.mul_pos_pos). lia.
  - replace (j + b)%nat with (a + (j + b - a))%nat in Hun at 2 by lia. rewrite (ten_add a), Hq in Hun.
    replace (ten a * ten (j + b - a) * (q * 2 ^ s)) with (ten (j + b - a) * q * (ten a * 2 ^ s)) in Hun by ring.
    rewrite Z.mod_mul in Hun by nia. pose proof (ten_pos (j + b)). lia.
Qed.

(** Up to 2^53 the digits end at the unit of a whole number, and denote a decimal
    strictly inside the interval. *)
Lemma shortest_small m e : e <= 0 ->
  let sh := if Z.pos m =? 2 ^ 52 then 2 else 1 in
  exists D a B k,
    shortest m e = (u64_to_string (Z.to_N D), k) /\ 0 < D /\
    k - Z.of_nat (String.length (u64_to_string (Z.to_N D))) = Z.of_nat a - Z.of_nat B /\
    ten B * (Z.pos m * 2 ^ sh - 1) < D * (ten a * 2 ^ (sh - e)) /\
    D * (ten a * 2 ^ (sh - e)) < ten B * (Z.pos m * 2 ^ sh + sh) /\
    ((Z.pos m * 2 ^ sh) mod 2 ^ (sh - e) = 0 -> (B <= a)%nat).
Proof.
  intros He sh. pose proof (shortest_spec m e) as Hspec. rewrite decode_small in Hspec by done. fold sh in Hspec.
  cbv zeta in Hspec. cbn [mant minus plus scale inclusive] in Hspec.
  destruct Hspec as (D & a & b & j & k & Hsh & HD & Hk & Hlow & Hhigh & Hnorm & Hun). apply within_le in Hlow, Hhigh.
  assert (Hs : sh = 1 \/ sh = 2 /\ Z.pos m = 2 ^ 52) by (unfold sh; destruct (Z.eqb_spec (Z.pos m) (2 ^ 52)); auto).
  set (A := Z.pos m * 2 ^ sh) in *.
  assert (HA : exists h, A = 2 * h /\ 1 <= h).
  { exists (Z.pos m * 2 ^ (sh - 1)). unfold A. replace (2 ^ sh) with (2 * 2 ^ (sh - 1)).
    - pose proof (Z.pow_pos_nonneg 2 (sh - 1) ltac:(lia) ltac:(lia)). split; [ring|nia].
    - rewrite <- Z.pow_succ_r by lia. f_equal. lia. }
  assert (Hwhole : A mod 2 ^ (sh - e) = 0 -> (S j + b <= a)%nat) by (apply (whole_digits A sh); (lia || done)).
  assert (Hunit : sh - e = sh -> (S j + b <= a)%nat).
  { intros Heq. apply Hwhole. rewrite Heq. unfold A. apply Z.mod_mul. pose proof (Z.pow_pos_nonneg 2 sh ltac:(lia) ltac:(lia)). lia. }
  assert (Hlt : ten (pred (S j + b)) < ten a * 2 ^ (sh - e)).
  { cbn [Nat.add Nat.pred]. pose proof (ten_pos a). pose proof (ten_pos b).
    pose proof (Z.pow_pos_nonneg 2 (sh - e) ltac:(lia) ltac:(lia)). destruct Hun as [->|Hun]; [cbn [Nat.add]; nia|].
    pose proof (Z.mod_pos_bound (ten (j + b) * A) (ten a * 2 ^ (sh - e)) ltac:(nia)). lia. }
  exists D, a, (S j + b)%nat, k. split_and!; [done|done|done| | |done]; apply Z.le_neq; (split; [done|]); intros Heq.
  - destruct (no_tie D a (S j + b) (sh - e) 0 (A - 1)) as [Hab Hse]; [lia|lia| |by rewrite Z.mul_1_l|done|].
    + destruct HA as (h & -> & _). rewrite Z.odd_sub, Z.odd_mul. done.
    + assert (sh = 1) by lia. specialize (Hunit ltac:(lia)). lia.
  - destruct Hs as [Hs|[Hs Hm]].
    + destruct (no_tie D a (S j + b) (sh - e) 0 (A + 1)) as [Hab Hse]; [lia|lia| |rewrite Z.mul_1_l, Heq, Hs; done|done|].
      * destruct HA as (h & -> & _). rewrite Z.odd_add, Z.odd_mul. done.
      * specialize (Hunit ltac:(lia)). lia.
    + destruct (no_tie D a (S j + b) (sh - e) 1 (2 ^ 53 + 1)) as [Hab Hse]; [lia|lia|done| |done|].
      * rewrite Heq. f_equal. unfold A. rewrite Hs, Hm. done.
      * specialize (Hunit ltac:(lia)). lia.
Qed.

(** ** Doubles *)

Lemma digits2_pos_size m : digits2_pos m = Pos.size m.
Proof. induction m as [m IH|m IH|]; cbn; congruence. Qed.

Lemma digits_bounds m :
  (2 ^ (Z.pos (digits2_pos m) - 1) <= Z.pos m < 2 ^ Z.pos (digits2_pos m))%Z.
Proof.
  rewrite digits2_pos_size. pose proof (Pos.size_gt m) as Hgt. pose proof (Pos.size_le m) as Hle.
  rewrite <- Pos2Z.inj_pow. split; [|lia].
  apply (Z.mul_le_mono_pos_l _ _ 2); [lia|].
  rewrite <- Z.pow_succ_r by lia. replace (Z.succ (Z.pos (Pos.size m) - 1)) with (Z.pos (Pos.size m)) by lia.
  rewrite <- Pos2Z.inj_pow. lia.
Qed.

Lemma SFcompare_positive m1 e1 m2 e2 :
  SFcompare (S754_finite false m1 e1) (S754_finite false m2 e2) =
  Some match (e1 ?= e2)%Z with Lt => Lt | Gt => Gt | Eq => (m1 ?= m2)%positive end.
Proof. reflexivity. Qed.

(** A finite double: zero, or a mantissa in the range of its exponent. *)
Definition finite_double (f : spec_float) : Prop :=
  match f with
  | S754_zero _ => True
  | S754_finite _ m e => bounded 53 1024 m e = true
  | _ => False
  end.

(** Its value, in units of the least double, 2^-1074. *)
Definition units (f : spec_float) : Z :=
  match f with
  | S754_finite negative m e => (if negative then - 1 else 1) * (Z.pos m * 2 ^ (e + 1074))
  | _ => 0
  end.

(** How far the decimal [M * 10^x] is from a double, in units of 2^-1074 * 10^x. *)
Definition decimal_error (M x : Z) (f : spec_float) : Z := Z.abs (M * 2 ^ 1074 - 10 ^ (- x) * units f).

(** The decimal is closer to [f] than to every double of another value: reading it
    yields [f], however ties are broken. *)
Definition reads_as (M x : Z) (f : spec_float) : Prop :=
  forall g, finite_double g -> units g <> units f -> decimal_error M x f < decimal_error M x g.

Lemma bounded_spec m e : bounded 53 1024 m e = true ->
  -1074 <= e /\ Z.pos m < 2 ^ 53 /\ (2 ^ 52 <= Z.pos m \/ e = -1074).
Proof.
  unfold bounded, canonical_mantissa, fexp, emin. rewrite andb_true_iff. intros [Hcan%Z.eqb_eq _].
  pose proof (digits_bounds m) as [Hlow Hhigh]. set (d := Z.pos (digits2_pos m)) in *. clearbody d.
  split_and!; [lia| |].
  - eapply Z.lt_le_trans; [exact Hhigh|]. apply Z.pow_le_mono_r; lia.
  - destruct (Z.eq_dec e (-1074)) as [|Hne]; [by right|left].
    eapply Z.le_trans; [|exact Hlow]. apply Z.pow_le_mono_r; lia.
Qed.

(** Doubles are a unit in the last place apart, or half of it below a power of two. *)
Lemma neighbours m e g :
  bounded 53 1024 m e = true -> finite_double g -> units g <> Z.pos m * 2 ^ (e + 1074) ->
  Z.pos m * 2 ^ (e + 1074) + 2 ^ (e + 1074) <= units g \/
  units g <= Z.pos m * 2 ^ (e + 1074) - 2 ^ (e + 1074) \/
  Z.pos m = 2 ^ 52 /\ 2 * units g <= 2 * (Z.pos m * 2 ^ (e + 1074)) - 2 ^ (e + 1074).
Proof.
  intros Hm Hg Hne. apply bounded_spec in Hm as (He & Hm & Hcan).
  pose proof (Z.pow_pos_nonneg 2 (e + 1074) ltac:(lia) ltac:(lia)) as HG. set (G := 2 ^ (e + 1074)) in *.
  destruct g as [s|s| |s m' e']; cbn [units finite_double] in *; [right; left; nia|done|done|].
  apply bounded_spec in Hg as (He' & Hm' & Hcan').
  pose proof (Z.pow_pos_nonneg 2 (e' + 1074) ltac:(lia) ltac:(lia)) as HG'. set (G' := 2 ^ (e' + 1074)) in *.
  destruct s; [right; left; nia|]. rewrite Z.mul_1_l in *.
  destruct (Z.le_gt_cases e e') as [Hle|Hgt].
  - assert (HGG : exists k, G' = k * G /\ 0 < k).
    { exists (2 ^ (e' - e)). split; [unfold G, G'; rewrite <- Z.pow_add_r by lia; f_equal; lia|apply Z.pow_pos_nonneg; lia]. }
    destruct HGG as (k & -> & Hk). destruct (Z.lt_trichotomy (Z.pos m' * k) (Z.pos m)) as [Hlt|[Heq|Hlt]]; [|nia|]; nia.
  - assert (HGG : exists k, G = k * (2 * G') /\ 0 < k).
    { exists (2 ^ (e - e' - 1)). split; [|apply Z.pow_pos_nonneg; lia]. unfold G, G'.
      rewrite <- (Z.pow_succ_r 2 (e' + 1074)), <- Z.pow_add_r by lia. f_equal. lia. }
    destruct HGG as (k & HG2 & Hk). destruct Hcan as [Hcan|Hcan]; [|lia]. right.
    assert (Hg' : 2 * (Z.pos m' * G') <= (2 ^ 53 - 1) * G) by nia.
    destruct (Z.eq_dec (Z.pos m) (2 ^ 52)) as [Heq|Hneq]; [right|left]; nia.
Qed.

(** A decimal inside the interval is nearest to the double. *)
Lemma interval_nearest m e M x :
  bounded 53 1024 m e = true -> e <= 0 -> x <= 0 ->
  let sh := if Z.pos m =? 2 ^ 52 then 2 else 1 in
  10 ^ (- x) * (Z.pos m * 2 ^ sh - 1) < M * 2 ^ (sh - e) < 10 ^ (- x) * (Z.pos m * 2 ^ sh + sh) ->
  reads_as M x (S754_finite false m e).
Proof.
  intros Hm He Hx sh [Hlow Hhigh] g Hg Hne. cbn [units] in Hne. rewrite Z.mul_1_l in Hne.
  pose proof (neighbours m e g Hm Hg Hne) as Hgap. apply bounded_spec in Hm as (Hmin & _).
  unfold decimal_error. change (units (S754_finite false m e)) with (1 * (Z.pos m * 2 ^ (e + 1074))). rewrite Z.mul_1_l.
  assert (HT : 0 < 10 ^ (- x)) by (apply Z.pow_pos_nonneg; lia). set (T := 10 ^ (- x)) in *.
  assert (HG : 0 < 2 ^ (e + 1074)) by (apply Z.pow_pos_nonneg; lia).
  assert (Hs : sh = 1 /\ Z.pos m <> 2 ^ 52 \/ sh = 2) by (unfold sh; destruct (Z.eqb_spec (Z.pos m) (2 ^ 52)); auto).
  assert (HP : 0 < 2 ^ (e + 1076 - sh)) by (apply Z.pow_pos_nonneg; lia). set (P := 2 ^ (e + 1076 - sh)) in *.
  assert (H4 : 2 ^ (sh - e) * P = 4 * 2 ^ 1074).
  { unfold P. rewrite <- Z.pow_add_r by lia. change 4 with (2 ^ 2). rewrite <- Z.pow_add_r by lia. f_equal. lia. }
  assert (HPG : 2 ^ sh * P = 4 * 2 ^ (e + 1074)).
  { unfold P. rewrite <- Z.pow_add_r by lia. change 4 with (2 ^ 2). rewrite <- Z.pow_add_r by lia. f_equal. lia. }
  apply (Z.mul_lt_mono_pos_r P) in Hlow, Hhigh; [|lia..].
  replace (M * 2 ^ (sh - e) * P) with (4 * (M * 2 ^ 1074)) in Hlow, Hhigh
    by (rewrite <- Z.mul_assoc, H4; ring).
  replace (T * (Z.pos m * 2 ^ sh - 1) * P) with (4 * (T * (Z.pos m * 2 ^ (e + 1074))) - T * P) in Hlow
    by (replace (T * (Z.pos m * 2 ^ sh - 1) * P) with (T * Z.pos m * (2 ^ sh * P) - T * P) by ring; rewrite HPG; ring).
  replace (T * (Z.pos m * 2 ^ sh + sh) * P) with (4 * (T * (Z.pos m * 2 ^ (e + 1074))) + sh * (T * P)) in Hhigh
    by (replace (T * (Z.pos m * 2 ^ sh + sh) * P) with (T * Z.pos m * (2 ^ sh * P) + sh * (T * P)) by ring; rewrite HPG; ring).
  set (E := M * 2 ^ 1074) in *. clearbody E. set (G := 2 ^ (e + 1074)) in *. set (F := Z.pos m * G) in *.
  assert (HTP : T * P = (if decide (sh = 1) then 2 else 1) * (T * G)).
  { destruct Hs as [[Hs _]|Hs]; rewrite Hs in *; [rewrite decide_True by done|rewrite decide_False by done].
    - replace P with (2 * G) by (change (2 ^ 1) with 2 in HPG; lia). ring.
    - replace P with G by (change (2 ^ 2) with 4 in HPG; lia). ring. }
  rewrite HTP in *. assert (HTG : 0 < T * G) by (by apply Z.mul_pos_pos).
  assert (Hgap' : T * F + T * G <= T * units g \/ T * units g <= T * F - T * G \/
    sh = 2 /\ 2 * (T * units g) <= 2 * (T * F) - T * G).
  { destruct Hgap as [Hg1|[Hg1|[Hp Hg1]]]; [left; nia|right; left; nia|right; right].
    split; [destruct Hs as [[_ ?]|]; done|]. apply (Z.mul_le_mono_nonneg_l _ _ T) in Hg1; [|lia]. lia. }
  clear Hgap HTP H4 HPG. set (TF := T * F) in *. set (TG := T * G) in *. set (TU := T * units g) in *.
  clearbody TF TG TU. destruct Hs as [[Hs _]|Hs]; rewrite Hs in *;
    [rewrite decide_True in * by done|rewrite decide_False in * by done]; lia.
Qed.

Lemma layout_reads m e :
  bounded 53 1024 m e = true -> e <= 0 ->
  let '(digits, k) := shortest m e in
  exists M x, read_decimal (text (layout digits k)) = Some (M, x) /\ x <= 0 /\ reads_as M x (S754_finite false m e).
Proof.
  intros Hm He. destruct (shortest_small m e He) as (D & a & B & k & Hsh & HD & Hk & Hlow & Hhigh & _).
  rewrite Hsh. set (digits := u64_to_string (Z.to_N D)) in *.
  pose proof (layout_value digits k (all_digits_pretty _) (pretty_not_empty _)) as Hread.
  assert (HN : num 0 digits = D) by (unfold digits; rewrite num_pretty; lia).
  cbv zeta in Hread. rewrite HN, Hk in Hread.
  replace (Z.to_nat (Z.of_nat a - Z.of_nat B)) with (a - B)%nat in Hread by lia.
  set (x := Z.min 0 (Z.of_nat a - Z.of_nat B)) in *.
  assert (Hx : 10 ^ (- x) = ten (B - a)) by (unfold ten; f_equal; lia).
  exists (D * ten (a - B)), x. split; [done|]. split; [lia|]. apply interval_nearest; [done|done|lia|]. rewrite Hx.
  pose proof (ten_diff a B) as Hdiff. pose proof (ten_pos B) as HB. pose proof (ten_pos (B - a)) as Hba.
  set (sh := if Z.pos m =? 2 ^ 52 then 2 else 1) in *.
  apply (Z.mul_lt_mono_pos_l (ten (B - a))) in Hlow, Hhigh; [|lia..].
  replace (ten (B - a) * (D * (ten a * 2 ^ (sh - e)))) with (ten B * (D * ten (a - B) * 2 ^ (sh - e))) in Hlow, Hhigh
    by (replace (ten B * (D * ten (a - B) * 2 ^ (sh - e))) with (D * (ten B * ten (a - B)) * 2 ^ (sh - e)) by ring;
        rewrite <- Hdiff; ring).
  split; apply (Z.mul_lt_mono_pos_l (ten B)); try lia.
Qed.

Lemma units_neg g : finite_double g ->
  exists g', finite_double g' /\ units g' = - units g.
Proof.
  destruct g as [s|s| |s m e]; cbn; intros Hg; [by exists (S754_zero s)|done|done|].
  exists (S754_finite (negb s) m e). split; [done|]. cbn. destruct s; cbn [negb]; lia.
Qed.

Lemma safe_exponent s m e :
  SFcompare (SFabs (S754_finite s m e)) MAX_SAFE_INTEGER_F64 <> Some Gt -> e <= 0.
Proof.
  unfold MAX_SAFE_INTEGER_F64. cbn [SFabs]. rewrite SFcompare_positive. intros Hc.
  destruct (Z.compare_spec e 0); [lia|lia|done].
Qed.

Lemma f64_reads_back (f : spec_float) :
  finite_double f -> SFcompare (SFabs f) MAX_SAFE_INTEGER_F64 <> Some Gt ->
  exists M x, read_number (text (format_f64 f)) = Some (M, x) /\ x <= 0 /\ reads_as M x f.
Proof.
  intros Hf Hsafe. destruct f as [s|s| |s m e]; [|done|done|].
  { exists 0, 0. split_and!; [done..|]. intros g _ Hne. unfold decimal_error. cbn [units] in *. lia. }
  pose proof (layout_reads m e Hf (safe_exponent s m e Hsafe)) as Hr. cbn [format_f64].
  destruct (shortest m e) as [digits k]. destruct Hr as (M & x & Hread & Hx & Hnear). destruct s.
  - exists (- M), x. rewrite text_app. cbn [text app read_number]. rewrite decide_True, Hread by done.
    split_and!; [done..|]. intros g Hg Hne. destruct (units_neg g Hg) as (g' & Hg' & Hu).
    specialize (Hnear g' Hg'). unfold decimal_error in *. rewrite Hu in Hnear. cbn [units] in *.
    set (U := Z.pos m * 2 ^ (e + 1074)) in *. specialize (Hnear ltac:(lia)).
    replace (- M * 2 ^ 1074 - 10 ^ (- x) * (-1 * U)) with (- (M * 2 ^ 1074 - 10 ^ (- x) * (1 * U))) by ring.
    replace (- M * 2 ^ 1074 - 10 ^ (- x) * units g) with (- (M * 2 ^ 1074 - 10 ^ (- x) * - units g)) by ring.
    by rewrite !Z.abs_opp.
  - exists M, x. split_and!; [by apply read_number_unsigned|done|done].
Qed.

(** ** Whole numbers *)

Lemma pretty_go_app n s : pretty_N_go n s = pretty_N_go n "" +:+ s.
Proof.
  revert s. induction (N.lt_wf_0 n) as [n _ IH]; intros s.
  destruct (decide (0 < n)%N) as [Hpos|Hz]; [|replace n with 0%N by lia; by rewrite !pretty_N_go_0].
  rewrite !(pretty_N_go_step n) by done. assert (n / 10 < n)%N by (apply N.div_lt; lia).
  rewrite (IH _ ltac:(done) (String _ s)), (IH _ ltac:(done) (String _ "")). by rewrite string_app_assoc.
Qed.

Lemma pretty_times_ten n : (0 < n)%N -> u64_to_string (10 * n) = u64_to_string n +:+ "0".
Proof.
  intros Hn. unfold u64_to_string, pretty, pretty_N. rewrite !decide_False by lia.
  rewrite (pretty_N_go_step (10 * n)) by lia.
  replace (10 * n)%N with (n * 10)%N by lia. rewrite N.div_mul, N.Div0.mod_mul by lia. apply pretty_go_app.
Qed.

Lemma zeros_snoc y : zeros (S y) = zeros y +:+ "0".
Proof. induction y as [|y IH]; [done|]. cbn [zeros] in *. rewrite IH at 1. done. Qed.

Lemma pretty_zeros n y : (0 < n)%N -> u64_to_string n +:+ zeros y = u64_to_string (Z.to_N (Z.of_N n * ten y)).
Proof.
  intros Hn. induction y as [|y IH].
  - rewrite ten_0, Z.mul_1_r, N2Z.id. apply string_app_nil.
  - rewrite zeros_snoc, <- string_app_assoc, IH, ten_S. pose proof (ten_pos y).
    rewrite <- pretty_times_ten by lia. f_equal. lia.
Qed.

(** A whole double is printed as the integer it is. *)
Lemma whole_layout m e n : e <= 0 -> Z.pos m = n * 2 ^ (- e) ->
  let '(digits, k) := shortest m e in layout digits k = u64_to_string (Z.to_N n).
Proof.
  intros He Hm. pose proof (Z.pow_pos_nonneg 2 (- e) ltac:(lia) ltac:(lia)) as H2e.
  destruct (shortest_small m e He) as (D & a & B & k & Hsh & HD & Hk & Hlow & Hhigh & Hwhole).
  set (sh := if Z.pos m =? 2 ^ 52 then 2 else 1) in *.
  assert (Hs : 1 <= sh <= 2) by (unfold sh; destruct (_ =? _); lia).
  assert (HA : Z.pos m * 2 ^ sh = n * 2 ^ (sh - e)).
  { rewrite Hm, <- Z.mul_assoc, <- Z.pow_add_r by lia. do 2 f_equal. lia. }
  assert (Hsmall : sh < 2 ^ (sh - e)).
  { eapply Z.lt_le_trans; [|apply (Z.pow_le_mono_r 2 sh); lia].
    assert (sh = 1 \/ sh = 2) as [-> | ->] by lia; done. }
  rewrite HA in *. pose proof (Z.pow_pos_nonneg 2 (sh - e) ltac:(lia) ltac:(lia)) as Hp.
  specialize (Hwhole (Z.mod_mul n (2 ^ (sh - e)) ltac:(lia))). set (p := 2 ^ (sh - e)) in *. clearbody p.
  replace (ten a) with (ten B * ten (a - B)) in Hlow, Hhigh by (rewrite <- ten_add; f_equal; lia).
  pose proof (ten_pos B) as HB. pose proof (ten_pos (a - B)) as Hy.
  replace (D * (ten B * ten (a - B) * p)) with (ten B * (D * ten (a - B) * p)) in Hlow, Hhigh by ring.
  apply Z.mul_lt_mono_pos_l in Hlow, Hhigh; [|done..].
  assert (Hn : n = D * ten (a - B)) by nia. rewrite Hsh. unfold layout.
  rewrite (proj2 (Z.leb_le _ _)) by lia.
  replace (Z.to_nat (k - _)) with (a - B)%nat by lia. rewrite pretty_zeros by lia. rewrite Z2N.id by lia. by rewrite <- Hn.
Qed.

(** Every integer below 2^53 is a double. *)
Lemma whole_double z : Z.abs z < 2 ^ 53 -> exists g, finite_double g /\ units g = z * 2 ^ 1074.
Proof.
  intros Hz. destruct (Z.eq_dec z 0) as [->|Hne]; [by exists (S754_zero false)|].
  destruct (Z.log2_spec (Z.abs z) ltac:(lia)) as [Hl1 Hl2]. set (l := Z.log2 (Z.abs z)) in *.
  assert (0 <= l) by apply Z.log2_nonneg. assert (l < 53) by (apply (Z.pow_lt_mono_r_iff 2); lia).
  assert (Hm : 0 < 2 ^ (52 - l)) by (apply Z.pow_pos_nonneg; lia).
  assert (Hpos : Z.pos (Z.to_pos (Z.abs z * 2 ^ (52 - l))) = Z.abs z * 2 ^ (52 - l)) by (apply Z2Pos.id; lia).
  exists (S754_finite (z <? 0) (Z.to_pos (Z.abs z * 2 ^ (52 - l))) (l - 52)). split.
  - cbn [finite_double]. pose proof (digits_bounds (Z.to_pos (Z.abs z * 2 ^ (52 - l)))) as [Hd1 Hd2].
    unfold bounded, canonical_mantissa, fexp, emin. rewrite Hpos in *. set (d := Z.pos (digits2_pos _)) in *.
    assert (Hlow : 2 ^ 52 <= Z.abs z * 2 ^ (52 - l)).
    { replace (2 ^ 52) with (2 ^ l * 2 ^ (52 - l)) by (rewrite <- Z.pow_add_r by lia; f_equal; lia). nia. }
    assert (Hhigh : Z.abs z * 2 ^ (52 - l) < 2 ^ 53).
    { replace (2 ^ 53) with (2 ^ Z.succ l * 2 ^ (52 - l)) by (rewrite <- Z.pow_add_r by lia; f_equal; lia). nia. }
    assert (52 < d) by (apply (Z.pow_lt_mono_r_iff 2); lia).
    assert (d - 1 < 53) by (apply (Z.pow_lt_mono_r_iff 2); lia).
    assert (d = 53) as -> by lia. apply andb_true_iff. split; [apply Z.eqb_eq|apply Z.leb_le]; lia.
  - cbn [units]. rewrite Hpos.
    replace (Z.abs z * 2 ^ (52 - l) * 2 ^ (l - 52 + 1074)) with (Z.abs z * 2 ^ 1074)
      by (rewrite <- Z.mul_assoc, <- Z.pow_add_r by lia; do 2 f_equal; lia).
    destruct (Z.ltb_spec z 0); nia.
Qed.

Lemma units_inj_le m e m' e' :
  bounded 53 1024 m e = true -> bounded 53 1024 m' e' = true -> e <= e' ->
  Z.pos m * 2 ^ (e + 1074) = Z.pos m' * 2 ^ (e' + 1074) -> m = m' /\ e = e'.
Proof.
  intros Hb Hb' Hle. apply bounded_spec in Hb as (He & Hm & _). apply bounded_spec in Hb' as (He' & _ & Hcan).
  replace (e' + 1074) with ((e' - e) + (e + 1074)) by lia. rewrite (Z.pow_add_r 2 (e' - e)), Z.mul_assoc by lia.
  intros Heq%Z.mul_reg_r; [|pose proof (Z.pow_pos_nonneg 2 (e + 1074)); lia].
  destruct (Z.eq_dec e e') as [<-|Hne]; [rewrite Z.sub_diag, Z.mul_1_r in Heq; split; lia|exfalso].
  assert (2 ^ 1 <= 2 ^ (e' - e)) by (apply Z.pow_le_mono_r; lia). destruct Hcan; [nia|lia].
Qed.

(** Doubles of one value are the same double. *)
Lemma units_inj m e m' e' :
  bounded 53 1024 m e = true -> bounded 53 1024 m' e' = true ->
  Z.pos m * 2 ^ (e + 1074) = Z.pos m' * 2 ^ (e' + 1074) -> m = m' /\ e = e'.
Proof.
  intros Hb Hb' Heq. destruct (Z.le_ge_cases e e') as [Hle|Hle]; [by apply units_inj_le|].
  destruct (units_inj_le m' e' m e Hb' Hb Hle (eq_sym Heq)). done.
Qed.

(** C29: the text of a finite double of magnitude at most 2^53 - 1, the range in which one
    is printed, reads back as that double: it denotes a decimal that is strictly closer to
    it than to any other double. *)
Theorem format_f64_reads_back (f : spec_float) :
  finite_double f -> SFcompare (SFabs f) MAX_SAFE_INTEGER_F64 <> Some Gt ->
  exists M x, read_number (text (format_f64 f)) = Some (M, x) /\ x <= 0 /\ reads_as M x f.
Proof. apply f64_reads_back. Qed.

(** A power of two, whose lower neighbour is half as far as the upper one. *)
Definition two_to_minus_25 : spec_float := S754_finite false 4503599627370496 (-77).

Lemma format_f64_reads_back_witness : exists M x,
  read_number (text (format_f64 two_to_minus_25)) = Some (M, x) /\ reads_as M x two_to_minus_25.
Proof.
  destruct (format_f64_reads_back two_to_minus_25 eq_refl) as (M & x & Hr & _ & Hn); [vm_compute; discriminate|].
  exists M, x. split; [exact Hr|exact Hn].
Defined.
