(* ===== verification/CanonicalProps.v ===== *)
(** * Properties of canonical JSON

    Which requests have a canonical text, and that it identifies the document. *)
From S2P Require Import Prelude Json Canonical CanonicalFloat.
From Stdlib Require Import SpecFloat Ascii.

(** ** Safe numbers *)

Fixpoint numbers (v : Value) : list Number :=
  match v with
  | Num n => [n]
  | Array items => items ≫= numbers
  | Object members => members ≫= fun m => numbers m.2
  | _ => []
  end.

(** A number as [serde_json] holds it: a signed integer is negative, a float a finite
    double. *)
Definition valid_number (n : Number) : Prop :=
  match n with
  | PosInt _ => True
  | NegInt z => (z < 0)%Z
  | Float f => finite_double f
  end.

(** Its magnitude, as an exact comparison of integers. *)
Definition safe_number (n : Number) : Prop :=
  match n with
  | PosInt n => (n <= MAX_SAFE_INTEGER)%N
  | NegInt z => (Z.abs z <= Z.of_N MAX_SAFE_INTEGER)%Z
  | Float (S754_finite _ m e) =>
      (Z.pos m * 2 ^ Z.max e 0 <= Z.of_N MAX_SAFE_INTEGER * 2 ^ Z.max (- e) 0)%Z
  | Float _ => True
  end.

Lemma compare_Gt_iff m M : Some (m ?= M)%positive = Some Gt <-> ~ (Z.pos m <= Z.pos M)%Z.
Proof. rewrite (inj_iff Some). change (m ?= M)%positive with (Z.pos m ?= Z.pos M)%Z. fold (Z.gt (Z.pos m) (Z.pos M)). lia. Qed.

Lemma float_safe_iff s m e :
  valid_binary 53 1024 (S754_finite s m e) = true ->
  SFcompare (SFabs (S754_finite s m e)) MAX_SAFE_INTEGER_F64 = Some Gt <->
  ~ safe_number (Float (S754_finite s m e)).
Proof.
  cbn [valid_binary]. unfold bounded, canonical_mantissa, fexp, emin. rewrite andb_true_iff.
  intros [Hcan%Z.eqb_eq _]. pose proof (digits_bounds m) as [Hlow Hhigh].
  set (d := Z.pos (digits2_pos m)) in *. clearbody d.
  unfold MAX_SAFE_INTEGER_F64. cbn [SFabs safe_number]. rewrite SFcompare_positive.
  unfold MAX_SAFE_INTEGER.
  destruct (Z.compare_spec e 0) as [->|Hneg|Hpos].
  - change (Z.max 0 0) with 0%Z. change (Z.max (- 0) 0) with 0%Z.
    rewrite compare_Gt_iff, !Z.mul_1_r. reflexivity.
  - split; [done|]. intros Hs. exfalso. apply Hs. replace (Z.max e 0) with 0%Z by lia.
    assert (Z.pos m < 2 ^ 53)%Z by (eapply Z.lt_le_trans; [exact Hhigh|]; apply Z.pow_le_mono_r; lia).
    assert (2 ^ 1 <= 2 ^ Z.max (- e) 0)%Z by (apply Z.pow_le_mono_r; lia). lia.
  - split; [intros _ Hs|done]. replace (Z.max (- e) 0) with 0%Z in Hs by lia.
    assert (2 ^ 52 <= Z.pos m)%Z by (eapply Z.le_trans; [|exact Hlow]; apply Z.pow_le_mono_r; lia).
    assert (2 ^ 1 <= 2 ^ Z.max e 0)%Z by (apply Z.pow_le_mono_r; lia). nia.
Qed.

Lemma write_number_spec n :
  valid_number n ->
  match write_number n with
  | Ok _ => safe_number n
  | Err e => e = UnsafeInteger /\ ~ safe_number n
  end.
Proof.
  intros Hv. destruct n as [n|z|f]; cbn [write_number safe_number].
  - destruct (N.ltb_spec MAX_SAFE_INTEGER n); [split; [done|]|]; lia.
  - destruct (N.ltb_spec MAX_SAFE_INTEGER (Z.to_N (Z.abs z))); [split; [done|]|]; lia.
  - destruct f as [s|s| |s m e]; try done.
    pose proof (float_safe_iff s m e Hv) as Hiff.
    case_bool_decide as Hc; [split; [done|by apply Hiff]|].
    cbn [safe_number]. destruct (decide (safe_number (Float (S754_finite s m e)))) as [Hs|Hs]; [exact Hs|].
    by apply Hiff in Hs.
Qed.

Lemma join_items_ok_iff items : is_ok (join_items items) = forallb is_ok items.
Proof.
  induction items as [|i rest IH]; [done|]. destruct rest as [|j rest].
  { cbn. by rewrite andb_true_r. }
  change (join_items (i :: j :: rest)) with
    (t ← i; others ← join_items (j :: rest); Ok (t +:+ "," +:+ others)).
  destruct i as [t|]; cbn [mbind Result_bind]; [|done]. cbn [forallb is_ok andb] in *. rewrite <- IH.
  by destruct (join_items (j :: rest)).
Qed.

Lemma join_items_err items e : join_items items = Err e -> Err e ∈ items.
Proof.
  induction items as [|i rest IH]; [done|]. destruct rest as [|j rest].
  { cbn. intros ->. left. }
  change (join_items (i :: j :: rest)) with
    (t ← i; others ← join_items (j :: rest); Ok (t +:+ "," +:+ others)).
  destruct i as [t|e']; cbn [mbind Result_bind]; [|intros [= ->]; left].
  destruct (join_items (j :: rest)) as [b|e'] eqn:Hj; cbn [mbind Result_bind]; [done|].
  intros [= ->]. right. by apply IH.
Qed.

(** What a value's outcome says about its numbers. *)
Definition outcome_ok (r : Result CanonicalJsonError string) (ns : list Number) : Prop :=
  match r with
  | Ok _ => Forall safe_number ns
  | Err e => e = UnsafeInteger /\ Exists (fun n => ~ safe_number n) ns
  end.

Lemma join_outcome {A} (f : A -> Result CanonicalJsonError string) (g : A -> list Number) l wrap :
  Forall (fun x => outcome_ok (f x) (g x)) l ->
  outcome_ok (body ← join_items (f <$> l); Ok (wrap body)) (l ≫= g).
Proof.
  intros Hl. destruct (join_items (f <$> l)) as [b|e] eqn:Hj; cbn [mbind Result_bind outcome_ok].
  - assert (Hok : forallb is_ok (f <$> l) = true) by (rewrite <- join_items_ok_iff; by rewrite Hj).
    rewrite Forall_bind. rewrite Forall_forall in *. intros x Hx. specialize (Hl x Hx).
    rewrite forallb_forall in Hok.
    assert (Hfx : is_ok (f x) = true) by (by apply Hok, list_elem_of_In, list_elem_of_fmap_2).
    by destruct (f x).
  - apply join_items_err in Hj as (x & Hx & Hin)%list_elem_of_fmap.
    rewrite Forall_forall in Hl. specialize (Hl x Hin). rewrite <- Hx in Hl. cbn in Hl.
    destruct Hl as [-> Hex]. split; [done|]. rewrite Exists_exists in *. destruct Hex as (n & Hn & Hs).
    exists n. split; [|done]. apply list_elem_of_bind. eauto.
Qed.

Lemma write_value_outcome v : Forall valid_number (numbers v) -> outcome_ok (write_value v) (numbers v).
Proof.
  induction v as [|b|n|s|items IH|members IH] using value_ind'; cbn [numbers]; intros Hv;
    try (by cbn; constructor).
  - rewrite Forall_singleton in Hv. cbn [write_value]. pose proof (write_number_spec n Hv) as Hn.
    destruct (write_number n); cbn; [by apply Forall_singleton|].
    split; [apply Hn|]. apply Exists_cons. left. apply Hn.
  - apply (join_outcome write_value numbers items (fun body => "[" +:+ body +:+ "]")).
    rewrite Forall_bind in Hv. eapply Forall_impl; [by apply Forall_and; split; [exact IH|exact Hv]|].
    cbn. tauto.
  - rewrite write_object_body. rewrite Forall_bind in Hv.
    assert (Hm : outcome_ok (body ← join_items (write_entry <$> stable_sort utf16_le members);
                   Ok ("{" +:+ body +:+ "}")) (stable_sort utf16_le members ≫= fun m => numbers m.2)).
    { apply (join_outcome write_entry (fun m => numbers m.2) _ (fun body => "{" +:+ body +:+ "}")).
      rewrite stable_sort_perm. eapply Forall_impl; [by apply Forall_and; split; [exact IH|exact Hv]|].
      cbn. intros m [Hm1 Hm2]. specialize (Hm1 Hm2). unfold write_member. cbn. by destruct (write_value m.2). }
    destruct (mbind _ _) as [t|e]; cbn [outcome_ok] in *.
    + rewrite Forall_bind in *. by rewrite stable_sort_perm in Hm.
    + split; [apply Hm|]. destruct Hm as [_ Hm]. rewrite Exists_exists in *.
      destruct Hm as (n & Hn & Hs). exists n. split; [|done]. rewrite list_elem_of_bind in *.
      destruct Hn as (m & Hnm & Hin). exists m. by rewrite stable_sort_perm in Hin.
Qed.

(** ** Member names *)

(** The names of every object in a document. *)
Fixpoint object_names (v : Value) : list (list string) :=
  match v with
  | Array items => items ≫= object_names
  | Object members => members.*1 :: (members ≫= fun m => object_names m.2)
  | _ => []
  end.

Definition no_duplicates (v : Value) : Prop := Forall NoDup (object_names v).

(** Names that differ as UTF-16, as distinct strings of characters do. *)
Definition distinct_names (v : Value) : Prop :=
  Forall (fun names => NoDup (encode_utf16 <$> names)) (object_names v).

Lemma strict_members_Some l acc r :
  strict_members l acc = Some r <->
  exists members, l = (fun m => (m.1, Some m.2)) <$> members /\ NoDup members.*1 /\
    (forall k, k ∈ members.*1 -> k ∉ acc.*1) /\
    r = foldl (fun acc m => map_insert m.1 m.2 acc) acc members.
Proof.
  revert acc. induction l as [|[k o] l IH]; intros acc; cbn [strict_members].
  { split.
    - intros [= <-]. exists []. split_and!; [done|constructor|by intros k ?%elem_of_nil|done].
    - intros ([|? ?] & ? & _ & _ & ->); [done|discriminate]. }
  destruct o as [v|]; cbn [mbind option_bind].
  2:{ split; [done|]. by intros ([|? ?] & ? & _). }
  destruct (contains_key k acc) eqn:Hc.
  { apply contains_key_spec in Hc. split; [done|]. intros ([|[k' v'] ms] & Hl & _ & Hd & _); [done|].
    injection Hl as <- <- _. exfalso. apply (Hd k); [left|done]. }
  assert (Hnk : k ∉ acc.*1) by (rewrite <- contains_key_spec; congruence).
  assert (Hkeys : forall x, x ∈ (map_insert k v acc).*1 <-> x = k \/ x ∈ acc.*1)
    by (intros x; rewrite map_insert_perm by done; cbn; apply elem_of_cons).
  rewrite IH. split.
  - intros (ms & -> & Hnd & Hd & ->). exists ((k, v) :: ms). split_and!; [done| | |done].
    + constructor; [|done]. intros Hin. apply (Hd k Hin). apply Hkeys. by left.
    + cbn. intros x [->|Hx]%elem_of_cons; [done|]. intros Hin. apply (Hd x Hx). apply Hkeys. by right.
  - intros ([|[k' v'] ms] & Hl & Hnd & Hd & ->); [done|]. injection Hl as <- <- ->.
    cbn in Hnd. apply NoDup_cons in Hnd as [Hk Hnd]. exists ms. split_and!; [done|done| |done].
    intros x Hx [->|Hin]%Hkeys; [done|]. apply (Hd x); [by right|done].
Qed.

Lemma mapM_all_Some {A B} (f : A -> option B) (g : A -> B) (P : A -> Prop) l r :
  Forall (fun x => forall y, f x = Some y <-> P x /\ y = g x) l ->
  mapM f l = Some r <-> Forall P l /\ r = g <$> l.
Proof.
  intros Hl. rewrite mapM_Some. split.
  - intros HF. revert Hl. induction HF as [|x y l r Hxy HF IH]; [done|].
    rewrite Forall_cons. intros [Hx Hl]. apply Hx in Hxy as [HP ->]. destruct (IH Hl) as [HPs ->]. by split; [constructor|].
  - intros [HP ->]. induction HP as [|x l HP HPs IH]; [constructor|]. apply Forall_cons in Hl as [Hx Hl].
    rewrite fmap_cons. constructor; [by apply Hx|by apply IH].
Qed.

Lemma strict_value_iff document v :
  strict_value document = Some v <-> no_duplicates document /\ v = value_of_syntax document.
Proof.
  revert v. induction document as [|b|n|s|items IH|members IH] using value_ind'; intros v;
    try (cbn; split; [intros [= <-]; by repeat constructor|by intros [_ ->]]).
  - unfold no_duplicates. cbn [strict_value object_names value_of_syntax]. rewrite fmap_Some, Forall_bind.
    setoid_rewrite (mapM_all_Some _ value_of_syntax no_duplicates _ _ IH). naive_solver.
  - unfold no_duplicates. cbn [strict_value object_names value_of_syntax]. rewrite fmap_Some, Forall_cons, Forall_bind.
    setoid_rewrite strict_members_Some. split.
    + intros (r & (ms & Hl & Hnd & _ & ->) & ->).
      assert (HF : members.*1 = ms.*1 /\ Forall (fun m => no_duplicates m.2) members /\
        ms = (fun m => (m.1, value_of_syntax m.2)) <$> members).
      { clear Hnd. revert ms Hl. induction IH as [|m members Hm IH IH']; intros [|m' ms] Hl; try done.
        rewrite !fmap_cons in Hl. injection Hl as Hk Hv Hl. apply Hm in Hv as [Hnd Hv].
        destruct (IH' ms Hl) as (Hks & Hnds & ->). cbn. destruct m'. cbn in *. subst.
        split_and!; [by rewrite Hks|by constructor|done]. }
      destruct HF as (Hk & Hnds & ->). rewrite Hk. split_and!; [done|exact Hnds|done].
    + intros [[Hnd Hnds] ->]. exists (map_of ((fun m => (m.1, value_of_syntax m.2)) <$> members)). split; [|done].
      exists ((fun m => (m.1, value_of_syntax m.2)) <$> members). split_and!.
      * rewrite <- list_fmap_compose. apply list_fmap_ext. intros i m Hm. cbn. f_equal.
        rewrite Forall_forall in IH. apply IH; [by eapply list_elem_of_lookup_2|]. split; [|done].
        rewrite Forall_forall in Hnds. apply Hnds. by eapply list_elem_of_lookup_2.
      * by rewrite <- list_fmap_compose.
      * by intros k _ ?%elem_of_nil.
      * done.
Qed.

(** ** Member order does not matter *)

Lemma units_le_total a b : units_le a b = true \/ units_le b a = true.
Proof.
  revert b. induction a as [|x a IH]; intros [|y b]; cbn; auto.
  destruct (N.lt_total x y) as [Hlt|[->|Hlt]].
  - left. by rewrite (proj2 (N.ltb_lt _ _) Hlt).
  - rewrite N.ltb_irrefl, N.eqb_refl. cbn. apply IH.
  - right. by rewrite (proj2 (N.ltb_lt _ _) Hlt).
Qed.

Lemma units_le_cons x a y b :
  units_le (x :: a) (y :: b) = true <-> (x < y)%N \/ x = y /\ units_le a b = true.
Proof. cbn. rewrite orb_true_iff, andb_true_iff, N.ltb_lt, N.eqb_eq. done. Qed.

Lemma units_le_trans a b c : units_le a b = true -> units_le b c = true -> units_le a c = true.
Proof.
  revert b c. induction a as [|x a IH]; intros [|y b] [|z c]; try done. rewrite !units_le_cons.
  intros [Hxy|[-> Hab]] [Hyz|[-> Hbc]]; [left; lia|by left|by left|]. right. eauto.
Qed.

Lemma units_le_antisym a b : units_le a b = true -> units_le b a = true -> a = b.
Proof.
  revert b. induction a as [|x a IH]; intros [|y b]; try done. rewrite !units_le_cons.
  intros [Hxy|[-> Hab]] [Hyx|[? Hba]]; [lia..|]. f_equal. by apply IH.
Qed.

Lemma write_object_perm m1 m2 :
  NoDup (encode_utf16 <$> m1.*1) ->
  ((fun m => (m.1, write_value m.2)) <$> m1) ≡ₚ ((fun m => (m.1, write_value m.2)) <$> m2) ->
  write_value (Object m1) = write_value (Object m2).
Proof.
  intros Hnd Hp. cbn [write_value].
  rewrite (stable_sort_perm_eq utf16_le _ ((fun m => (m.1, write_value m.2)) <$> m2)); [done|..|exact Hp].
  - intros x y. apply units_le_total.
  - intros x y z. apply units_le_trans.
  - intros x y Hx Hy Hxy Hyx.
    apply (NoDup_fmap_inj_elem (fun m => encode_utf16 m.1) ((fun m => (m.1, write_value m.2)) <$> m1)); [|done|done|].
    + rewrite <- !list_fmap_compose in *. done.
    + by apply units_le_antisym.
Qed.

Lemma distinct_array items x : distinct_names (Array items) -> x ∈ items -> distinct_names x.
Proof.
  unfold distinct_names. cbn [object_names]. rewrite Forall_bind. intros Hd Hx.
  rewrite Forall_forall in Hd. by apply Hd.
Qed.

Lemma distinct_object members :
  distinct_names (Object members) ->
  NoDup (encode_utf16 <$> members.*1) /\ Forall (fun m => distinct_names m.2) members.
Proof. unfold distinct_names. cbn [object_names]. by rewrite Forall_cons, Forall_bind. Qed.

Lemma distinct_NoDup members : NoDup (encode_utf16 <$> members.*1) -> NoDup (members : list (string * Value)).*1.
Proof. apply NoDup_fmap_1. Qed.

Lemma same_text_text v1 v2 : same_text v1 v2 -> distinct_names v1 -> write_value v1 = write_value v2.
Proof.
  revert v2. induction v1 as [|b|n|s|items IH|members IH] using value_ind'; intros v2 Hs Hd;
    inversion Hs; subst; clear Hs; try done.
  - cbn [write_value]. do 2 f_equal. assert (Hd' := fun x => distinct_array _ x Hd). clear Hd.
    match goal with H : Forall2 _ _ _ |- _ => induction H as [|x y l1 l2 Hxy HF IHF] end; [done|].
    apply Forall_cons in IH as [Hx IH]. rewrite !fmap_cons. f_equal; [apply Hx; [done|apply Hd'; left]|].
    apply IHF; [done|]. intros z Hz. apply Hd'. by right.
  - apply distinct_object in Hd as [Hnd Hd]. apply write_object_perm; [done|].
    match goal with H : ?m ≡ₚ _, HF : Forall2 _ _ ?m |- _ => rewrite <- H; clear H; rename HF into HF0; rename m into m1' end.
    enough (Heq : ((fun m => (m.1, write_value m.2)) <$> members) = ((fun m => (m.1, write_value m.2)) <$> m1'))
      by (by rewrite Heq).
    clear Hnd. induction HF0 as [|p q l1 l2 [Hk Hv] HF IHF]; [done|].
    apply Forall_cons in IH as [Hx IH]. apply Forall_cons in Hd as [Hdx Hd].
    rewrite !fmap_cons. f_equal; [rewrite Hk; f_equal; by apply Hx|]. by apply IHF.
Qed.

Lemma value_of_syntax_text d : distinct_names d -> write_value (value_of_syntax d) = write_value d.
Proof.
  induction d as [|b|n|s|items IH|members IH] using value_ind'; intros Hd; try done.
  - cbn [write_value value_of_syntax]. do 2 f_equal. rewrite <- list_fmap_compose. apply list_fmap_ext.
    intros i x Hx%list_elem_of_lookup_2. rewrite Forall_forall in IH. by apply IH, (distinct_array items).
  - apply distinct_object in Hd as [Hnd Hd]. symmetry. apply write_object_perm; [done|].
    rewrite map_of_perm by (rewrite <- list_fmap_compose; by apply distinct_NoDup).
    rewrite <- list_fmap_compose. apply reflexive_eq, list_fmap_ext.
    intros i m Hm%list_elem_of_lookup_2. cbn. f_equal. rewrite Forall_forall in IH, Hd. symmetry.
    by apply IH, Hd.
Qed.

(** ** The text identifies a number *)

(** The value of a number, in units of 2^-1074. *)
Definition number_units (n : Number) : Z :=
  match n with
  | PosInt n => Z.of_N n * 2 ^ 1074
  | NegInt z => z * 2 ^ 1074
  | Float f => units f
  end%Z.

Definition same_number (n m : Number) : Prop := number_units n = number_units m.

Lemma write_float_ok f t :
  write_number (Float f) = Ok t -> SFcompare (SFabs f) MAX_SAFE_INTEGER_F64 <> Some Gt /\ t = format_f64 f.
Proof. cbn [write_number]. case_bool_decide as Hc; [done|]. by intros [= <-]. Qed.

Lemma read_integer n : read_decimal (text (u64_to_string n)) = Some (Z.of_N n, 0%Z).
Proof.
  rewrite <- (app_nil_r (text _)), (read_whole _ [] 0), num_pretty; try done; [apply all_digits_pretty|apply pretty_not_empty].
Qed.

(** An integer is read exactly. *)
Lemma integer_reads z : (Z.abs z <= Z.of_N MAX_SAFE_INTEGER)%Z ->
  exists g, finite_double g /\ units g = (z * 2 ^ 1074)%Z /\ reads_as z 0 g.
Proof.
  intros Hz. destruct (whole_double z) as (g & Hg & Hu); [unfold MAX_SAFE_INTEGER in Hz; lia|].
  exists g. split_and!; [done|done|]. intros h _ Hne. unfold decimal_error. rewrite Hu in *. cbn [Z.opp].
  change (10 ^ 0)%Z with 1%Z. set (U := (2 ^ 1074)%Z) in *. lia.
Qed.

(** What is written for a number reads back as a double of its value. *)
Lemma number_reads n t : valid_number n -> write_number n = Ok t ->
  exists M x g, read_number (text t) = Some (M, x) /\ finite_double g /\ units g = number_units n /\ reads_as M x g.
Proof.
  intros Hv Hw. destruct n as [n|z|f].
  - cbn [write_number] in Hw. destruct (N.ltb_spec MAX_SAFE_INTEGER n); [done|]. injection Hw as <-.
    destruct (integer_reads (Z.of_N n)) as (g & Hg & Hu & Hr); [lia|].
    exists (Z.of_N n), 0%Z, g. split_and!; [apply read_number_unsigned, read_integer|done..].
  - cbn [write_number valid_number] in *. destruct (N.ltb_spec MAX_SAFE_INTEGER (Z.to_N (Z.abs z))); [done|]. injection Hw as <-.
    destruct (integer_reads z) as (g & Hg & Hu & Hr); [lia|].
    exists z, 0%Z, g. split_and!; [|done..]. unfold i64_to_string. rewrite text_app. cbn [text app read_number].
    rewrite decide_True, read_integer by done. cbn [mbind option_bind]. do 2 f_equal. lia.
  - apply write_float_ok in Hw as [Hs ->]. destruct (f64_reads_back f Hv Hs) as (M & x & Hr & _ & Hn). by exists M, x, f.
Qed.

(** A whole double has the text of the integer. *)
Lemma whole_text f z : finite_double f -> SFcompare (SFabs f) MAX_SAFE_INTEGER_F64 <> Some Gt ->
  units f = (z * 2 ^ 1074)%Z ->
  format_f64 f = (if (z <? 0)%Z then "-" else "") +:+ u64_to_string (Z.to_N (Z.abs z)).
Proof.
  intros Hf Hs Hu. destruct f as [s|s| |s m e]; [|done|done|].
  { cbn [units] in Hu. assert (z = 0%Z) as -> by lia. done. }
  apply safe_exponent in Hs. pose proof (bounded_spec _ _ Hf) as (He & _). cbn [units] in Hu.
  assert (HG : (0 < 2 ^ (e + 1074))%Z) by (apply Z.pow_pos_nonneg; lia).
  replace 1074%Z with (- e + (e + 1074))%Z in Hu at 2 by lia. rewrite (Z.pow_add_r 2 (- e)) in Hu by lia.
  assert (Habs : Z.pos m = (Z.abs z * 2 ^ (- e))%Z /\ (z <? 0)%Z = s).
  { pose proof (Z.pow_pos_nonneg 2 (- e) ltac:(lia) ltac:(lia)). set (G := (2 ^ (e + 1074))%Z) in *. set (P := (2 ^ (- e))%Z) in *.
    assert (Heq : ((if s then -1 else 1) * Z.pos m = z * P)%Z) by (apply (Z.mul_reg_r _ _ G); [lia|]; rewrite <- Z.mul_assoc, Hu; ring).
    destruct s, (Z.ltb_spec z 0); split; try done; nia. }
  destruct Habs as [Hm <-]. pose proof (whole_layout m e (Z.abs z) Hs Hm) as Hl. cbn [format_f64].
  destruct (shortest m e) as [digits k]. by rewrite Hl.
Qed.

Lemma units_nonzero s m e : finite_double (S754_finite s m e) -> units (S754_finite s m e) <> 0%Z.
Proof.
  intros Hf. pose proof (bounded_spec _ _ Hf) as (He & _). cbn [units].
  assert (0 < 2 ^ (e + 1074))%Z by (apply Z.pow_pos_nonneg; lia). destruct s; nia.
Qed.

Lemma finite_units f g : finite_double f -> finite_double g -> units f = units g -> format_f64 f = format_f64 g.
Proof.
  intros Hf Hg Heq. destruct f as [s|s| |s m e], g as [s'|s'| |s' m' e']; try done;
    [by destruct (units_nonzero _ _ _ Hg)|by destruct (units_nonzero _ _ _ Hf)|]. cbn [units] in Heq.
  pose proof (bounded_spec _ _ Hf) as (He & _). pose proof (bounded_spec _ _ Hg) as (He' & _).
  assert (HG : (0 < 2 ^ (e + 1074))%Z) by (apply Z.pow_pos_nonneg; lia).
  assert (HG' : (0 < 2 ^ (e' + 1074))%Z) by (apply Z.pow_pos_nonneg; lia).
  assert (s = s') as <- by (destruct s, s'; [done|exfalso; nia|exfalso; nia|done]).
  destruct (units_inj m e m' e') as [-> ->]; [done|done|destruct s; lia|done].
Qed.

(** Two accepted numbers have the same text exactly when they have the same value. *)
Lemma number_text_iff n m t u :
  valid_number n -> valid_number m -> write_number n = Ok t -> write_number m = Ok u -> t = u <-> same_number n m.
Proof.
  intros Hn Hm Ht Hu. split.
  - intros ->. destruct (number_reads n u Hn Ht) as (M & x & f & Hr & Hf & Hfu & Hnf).
    destruct (number_reads m u Hm Hu) as (M' & x' & g & Hr' & Hg & Hgu & Hng).
    assert (M' = M /\ x' = x) as [-> ->] by (rewrite Hr in Hr'; by injection Hr').
    unfold same_number. rewrite <- Hfu, <- Hgu. destruct (Z.eq_dec (units f) (units g)) as [|Hne]; [done|exfalso].
    specialize (Hnf g Hg ltac:(congruence)). specialize (Hng f Hf Hne). lia.
  - unfold same_number. intros Heq. destruct n as [n|z|f], m as [n'|z'|g]; cbn [number_units valid_number] in *;
      try (apply write_float_ok in Ht as [Hsf ->]); try (apply write_float_ok in Hu as [Hsg ->]).
    + assert (n' = n) as -> by lia. congruence.
    + exfalso. lia.
    + rewrite (whole_text g (Z.of_N n)) by done. rewrite (proj2 (Z.ltb_ge _ _)), Z.abs_eq, N2Z.id by lia.
      cbn [write_number] in Ht. destruct (MAX_SAFE_INTEGER <? n)%N; [done|]. by injection Ht as <-.
    + exfalso. lia.
    + assert (z' = z) as -> by lia. congruence.
    + rewrite (whole_text g z) by done. rewrite (proj2 (Z.ltb_lt _ _)), Z.abs_neq by lia.
      cbn [write_number] in Ht. destruct (_ <? _)%N; [done|]. by injection Ht as <-.
    + rewrite (whole_text f (Z.of_N n')) by done. rewrite (proj2 (Z.ltb_ge _ _)), Z.abs_eq, N2Z.id by lia.
      cbn [write_number] in Hu. destruct (MAX_SAFE_INTEGER <? n')%N; [done|]. by injection Hu as <-.
    + rewrite (whole_text f z') by done. rewrite (proj2 (Z.ltb_lt _ _)), Z.abs_neq by lia.
      cbn [write_number] in Hu. destruct (_ <? _)%N; [done|]. by injection Hu as <-.
    + by apply finite_units.
Qed.

(** ** The same document *)

(** Documents that are equal up to the order of members, with numbers of equal value. *)
Definition same_value : Value -> Value -> Prop := same_value_by same_number.

Lemma same_value_impl (R S : Number -> Number -> Prop) v1 v2 :
  (forall n m, n ∈ numbers v1 -> m ∈ numbers v2 -> R n m -> S n m) -> same_value_by R v1 v2 -> same_value_by S v1 v2.
Proof.
  revert v2. induction v1 as [|b|n|s|items IH|members IH] using value_ind'; intros v2 HRS Hv; inversion Hv; subst; clear Hv.
  - constructor.
  - constructor.
  - constructor. apply HRS; [left|left|done].
  - constructor.
  - constructor. rewrite Forall_forall in IH. match goal with HF : Forall2 _ _ _ |- _ => rename HF into HF0 end.
    assert (Hl : forall x y, x ∈ items -> y ∈ l2 -> same_value_by R x y -> same_value_by S x y).
    { intros x y Hx Hy. apply (IH x Hx). intros n m Hn Hm. apply HRS; cbn [numbers]; apply list_elem_of_bind; eauto. }
    clear IH HRS. induction HF0 as [|x y l1 l2 Hxy HF IHF]; constructor; [apply Hl; [left|left|done]|].
    apply IHF. intros x' y' Hx' Hy'. apply Hl; by right.
  - econstructor; [|eassumption]. rewrite Forall_forall in IH.
    match goal with HF : Forall2 _ members ?m, Hp : ?m ≡ₚ m2 |- _ => rename HF into HF0; rename Hp into Hperm; rename m into ms end.
    assert (Hl : forall x y, x ∈ members -> y ∈ ms -> same_value_by R x.2 y.2 -> same_value_by S x.2 y.2).
    { intros x y Hx Hy. apply (IH x Hx). rewrite Hperm in Hy.
      intros n m Hn Hm. apply HRS; cbn [numbers]; apply list_elem_of_bind; eauto. }
    clear IH HRS Hperm. induction HF0 as [|x y l1 l2 [Hk Hxy] HF IHF]; constructor; [split; [done|apply Hl; [left|left|done]]|].
    apply IHF. intros x' y' Hx' Hy'. apply Hl; by right.
Qed.

(** The numbers of an accepted document have texts. *)
Lemma accepted_numbers v t : Forall valid_number (numbers v) -> write_value v = Ok t ->
  forall n, n ∈ numbers v -> valid_number n /\ exists u, write_number n = Ok u.
Proof.
  intros Hv Ht n Hn. pose proof (write_value_outcome v Hv) as Ho. rewrite Ht in Ho. cbn [outcome_ok] in Ho.
  rewrite Forall_forall in Hv, Ho. specialize (Hv n Hn). specialize (Ho n Hn). split; [done|].
  pose proof (write_number_spec n Hv) as Hs. destruct (write_number n) as [u|e]; [eauto|]. by destruct Hs.
Qed.

Lemma same_text_iff v1 v2 t1 t2 :
  Forall valid_number (numbers v1) -> Forall valid_number (numbers v2) -> write_value v1 = Ok t1 -> write_value v2 = Ok t2 ->
  same_text v1 v2 <-> same_value v1 v2.
Proof.
  intros Hv1 Hv2 Ht1 Ht2. split; apply same_value_impl; intros n m Hn Hm;
    destruct (accepted_numbers _ _ Hv1 Ht1 n Hn) as (Hvn & u & Hu); destruct (accepted_numbers _ _ Hv2 Ht2 m Hm) as (Hvm & w & Hw);
    pose proof (number_text_iff n m u w Hvn Hvm Hu Hw) as Hiff.
  - rewrite Hu, Hw. intros [= ->]. by apply Hiff.
  - intros ->%Hiff. congruence.
Qed.

(** ** Requests *)

(** Serialisation succeeds exactly when no number of the value exceeds
    2^53 - 1 in magnitude, floating-point ones included, and fails as an unsafe
    integer otherwise. *)
Theorem canonical_numbers_safe (v : Value) :
  Forall valid_number (numbers v) ->
  match to_canonical_json v with
  | Ok _ => Forall safe_number (numbers v)
  | Err e => e = UnsafeInteger /\ Exists (fun n => ~ safe_number n) (numbers v)
  end.
Proof. apply write_value_outcome. Qed.

Definition two_to_53 : Value :=
  Array [Num (PosInt 7); Object [("id", Num (Float (S754_finite false 4503599627370496 1)))]].

Lemma canonical_numbers_safe_witness :
  to_canonical_json two_to_53 = Err UnsafeInteger /\
  Exists (fun n => ~ safe_number n) (numbers two_to_53).
Proof.
  pose proof (canonical_numbers_safe two_to_53) as Hspec.
  assert (Hres : to_canonical_json two_to_53 = Err UnsafeInteger) by (vm_compute; reflexivity).
  rewrite Hres in Hspec. split; [exact Hres|]. apply Hspec. repeat constructor.
Defined.

Section requests.
Context `{SerdeJson}.

(** The strict parse accepts exactly the well-formed documents in which no
    object, at any depth, repeats a member name, and returns the value a plain
    parse does; a rejection says whether a name was repeated, the text was not
    JSON, or its Unicode was at fault. *)
Theorem parse_canonicalizable_spec (bytes : Bytes) :
  match parse_canonicalizable bytes with
  | Ok v => from_slice bytes = Ok v /\ exists document, parse_syntax bytes = Ok document /\ no_duplicates document
  | Err DuplicateKey => exists document, parse_syntax bytes = Ok document /\ ~ no_duplicates document
  | Err InvalidJson => (exists message, from_slice bytes = Err message) /\
      from_utf8_ok bytes = true /\ has_lone_surrogate_escape bytes = false
  | Err InvalidUnicode => (exists message, from_slice bytes = Err message) /\
      (from_utf8_ok bytes = false \/ has_lone_surrogate_escape bytes = true)
  | Err UnsafeInteger => False
  end.
Proof.
  unfold parse_canonicalizable, from_slice.
  destruct (parse_syntax bytes) as [document|message] eqn:Hp; cbn [mbind Result_bind].
  - destruct (strict_value document) as [v|] eqn:Hs; cbn [ok_or].
    + apply strict_value_iff in Hs as [Hnd ->]. split; [done|]. by exists document.
    + exists document. split; [done|]. intros Hnd.
      assert (strict_value document = Some (value_of_syntax document)) by (by apply strict_value_iff). congruence.
  - destruct (from_utf8_ok bytes), (has_lone_surrogate_escape bytes); cbn; split; eauto.
Qed.

Lemma canonicalize_text bytes document t :
  parse_syntax bytes = Ok document -> distinct_names document ->
  canonicalize_json_bytes bytes = Ok t -> write_value document = Ok t.
Proof.
  intros Hp Hd. unfold canonicalize_json_bytes, parse_canonicalizable, from_slice. rewrite Hp. cbn [mbind Result_bind].
  destruct (strict_value document) as [v|] eqn:Hs; cbn [ok_or mbind Result_bind]; [|done].
  apply strict_value_iff in Hs as [_ ->]. unfold to_canonical_json. by rewrite value_of_syntax_text.
Qed.

(** C28: the canonical bytes identify the document: two accepted requests have the
    same canonical bytes exactly when they are the same document up to white
    space, the order of members and the spelling of strings and numbers, where two numbers
    are the same when they have the same value, integers and doubles alike. *)
Theorem canonical_bytes_identify (bytes1 bytes2 : Bytes) (document1 document2 : Value) (t1 t2 : string) :
  parse_syntax bytes1 = Ok document1 -> parse_syntax bytes2 = Ok document2 ->
  distinct_names document1 -> distinct_names document2 ->
  Forall valid_number (numbers document1) -> Forall valid_number (numbers document2) ->
  canonicalize_json_bytes bytes1 = Ok t1 -> canonicalize_json_bytes bytes2 = Ok t2 ->
  (t1 = t2 <-> same_value document1 document2).
Proof.
  intros Hp1 Hp2 Hd1 Hd2 Hn1 Hn2 H1%(canonicalize_text _ _ _ Hp1 Hd1) H2%(canonicalize_text _ _ _ Hp2 Hd2).
  rewrite <- (same_text_iff _ _ _ _ Hn1 Hn2 H1 H2). split; [intros ->; by eapply write_value_inj|].
  intros Hs%same_text_text; [|done]. congruence.
Qed.
End requests.

(** A codec that reads two spellings of one document. *)
Definition spelled (first : bool) : Value :=
  if first then Object [("b", Num (PosInt 1)); ("a", Num (Float (S754_finite true 6755399441055744 (-52))))]
  else Object [("a", Num (Float (S754_finite true 6755399441055744 (-52))));
               ("b", Num (Float (S754_finite false 4503599627370496 (-52))))].

#[local] Instance spelling_codec : SerdeJson := {|
  parse_syntax := fun bytes => match bytes with [] => Err "EOF while parsing a value"
    | c :: _ => Ok (spelled (bool_decide (c = "1"%char))) end;
  to_vec := fun _ => [] |}.

Definition spelled_text : string := "{" +:+ write_string "a" +:+ ":-1.5," +:+ write_string "b" +:+ ":1}".

Lemma spelled_canonical c : c = "1"%char \/ c = "2"%char -> canonicalize_json_bytes [c] = Ok spelled_text.
Proof. intros [-> | ->]; vm_compute; reflexivity. Qed.

Lemma spelled_distinct first : distinct_names (spelled first).
Proof.
  destruct first; apply Forall_singleton, NoDup_ListNoDup; vm_compute; repeat constructor; cbn;
    intuition discriminate.
Qed.

Lemma spelled_numbers first : Forall valid_number (numbers (spelled first)).
Proof. by destruct first; repeat constructor. Qed.

Lemma canonical_bytes_identify_witness :
  canonicalize_json_bytes ["1"%char] = canonicalize_json_bytes ["2"%char] /\
  same_value (spelled true) (spelled false).
Proof.
  pose proof (spelled_canonical "1" (or_introl eq_refl)) as H1.
  pose proof (spelled_canonical "2" (or_intror eq_refl)) as H2.
  split; [congruence|].
  exact (proj1 (canonical_bytes_identify ["1"%char] ["2"%char] (spelled true) (spelled false)
    spelled_text spelled_text eq_refl eq_refl (spelled_distinct true) (spelled_distinct false)
    (spelled_numbers true) (spelled_numbers false) H1 H2) eq_refl).
Defined.
