(* ===== verification/Kahn.v ===== *)
(** * Kahn's algorithm over ordered sets

    The loop of [topological_order] in [crates/traverse-contracts/src/proposal.rs]
    and the successor relaxation it shares with [compute_parallel_schedule].
    A graph is a set of node ids and a set of edges; [adjacency] and [in_degree]
    are the maps the code keeps, and [graph_ok] ties them to the edge set.

    The specification is [lex_topological]: at every position the order holds the
    least node, in byte order, all of whose predecessors are already placed. *)
From S2P Require Import Prelude.

(** ** Topological order *)

(** [for successor in successors { *degree -= 1; if *degree == 0 { ready.insert(..) } }] *)
Definition relax_successor (st : gmap string N * gset string) (successor : string)
    : gmap string N * gset string :=
  let '(degrees, ready) := st in
  let degree := wrapping_dec (default 0%N (degrees !! successor)) in
  (<[successor := degree]> degrees,
   if (degree =? 0)%N then {[successor]} ∪ ready else ready).

Definition relax (adjacency : gmap string (gset string)) (next : string)
    (degrees : gmap string N) (ready : gset string) : gmap string N * gset string :=
  match adjacency !! next with
  | None => (degrees, ready)
  | Some successors => foldl relax_successor (degrees, ready) (btree_elements successors)
  end.

(** [node_ids.iter().filter(|id| remaining_in_degree.get(id).copied().unwrap_or(0) == 0)] *)
Definition initially_ready (node_ids : gset string) (degrees : gmap string N) : gset string :=
  filter (fun id => default 0%N (degrees !! id) = 0%N) node_ids.

(** [while let Some(next) = ready.iter().next().cloned()]; the fuel bounds the
    number of turns, and the second component is the ready set left over. *)
Fixpoint kahn_loop (fuel : nat) (adjacency : gmap string (gset string))
    (degrees : gmap string N) (ready : gset string) (order : list string)
    : list string * gset string :=
  match fuel, btree_first ready with
  | S fuel', Some next =>
      let '(degrees', ready') := relax adjacency next degrees (ready ∖ {[next]}) in
      kahn_loop fuel' adjacency degrees' ready' (order ++ [next])
  | _, _ => (order, ready)
  end.

Definition kahn (node_ids : gset string) (adjacency : gmap string (gset string))
    (in_degree : gmap string N) : list string * gset string :=
  kahn_loop (S (size node_ids)) adjacency in_degree (initially_ready node_ids in_degree) [].

(** [None] is the code's [Err(())]. *)
Definition topological_order (node_ids : gset string) (adjacency : gmap string (gset string))
    (in_degree : gmap string N) : option (list string) :=
  let order := (kahn node_ids adjacency in_degree).1 in
  if decide (length order = size node_ids) then Some order else None.

(** ** The graph the maps stand for *)

(** Edges into [v] from nodes that are not in [D] yet. *)
Definition pending (E : gset (string * string)) (D : gset string) (v : string)
    : gset (string * string) :=
  filter (fun e => e.2 = v /\ (e.1 ∉ D)) E.

Record graph_ok (V : gset string) (E : gset (string * string))
    (adj : gmap string (gset string)) (deg : gmap string N) : Prop := {
  gok_adj u v : v ∈ default ∅ (adj !! u) <-> (u, v) ∈ E;
  gok_deg v : v ∈ V -> deg !! v = Some (N.of_nat (size (pending E ∅ v)));
  gok_ends u v : (u, v) ∈ E -> u ∈ V /\ v ∈ V }.

(** The nodes outside [D] all of whose predecessors are in [D]. *)
Definition available (V : gset string) (E : gset (string * string)) (D : gset string)
    : gset string :=
  filter (fun v => (v ∉ D) /\ pending E D v = ∅) V.

(** Specification of the order: always the least available node, until none is left. *)
Fixpoint lex_topological (V : gset string) (E : gset (string * string)) (D : gset string)
    (order : list string) : Prop :=
  match order with
  | [] => available V E D = ∅
  | x :: rest =>
      btree_first (available V E D) = Some x /\ lex_topological V E ({[x]} ∪ D) rest
  end.

(** [u] reaches [v] along edges. *)
Definition edge_rel (E : gset (string * string)) : relation string := fun u v => (u, v) ∈ E.

Definition acyclic (E : gset (string * string)) : Prop := forall v, ~ tc (edge_rel E) v v.

(** ** The invariant *)

Record kahn_inv (V : gset string) (E : gset (string * string)) (D : gset string)
    (deg : gmap string N) (ready : gset string) : Prop := {
  ki_deg v : v ∈ V -> deg !! v = Some (N.of_nat (size (pending E D v)));
  ki_ready v : v ∈ ready <-> v ∈ available V E D;
  ki_sub : D ⊆ V;
  ki_closed v : v ∈ D -> pending E D v = ∅ }.

Arguments gok_adj {V E adj deg}.
Arguments gok_deg {V E adj deg}.
Arguments gok_ends {V E adj deg}.
Arguments ki_deg {V E D deg ready}.
Arguments ki_ready {V E D deg ready}.
Arguments ki_sub {V E D deg ready}.
Arguments ki_closed {V E D deg ready}.

Lemma elem_of_pending E D v e : e ∈ pending E D v <-> e ∈ E /\ e.2 = v /\ (e.1 ∉ D).
Proof. unfold pending. rewrite elem_of_filter. tauto. Qed.

Lemma elem_of_available V E D v :
  v ∈ available V E D <-> v ∈ V /\ (v ∉ D) /\ pending E D v = ∅.
Proof. unfold available. rewrite elem_of_filter. tauto. Qed.

Lemma pending_no_edge E D x v : (x, v) ∉ E -> pending E ({[x]} ∪ D) v = pending E D v.
Proof.
  intros Hno. apply set_eq. intros [a b]. rewrite !elem_of_pending. cbn.
  split; [set_solver|]. intros (HE & -> & Ha). split_and!; [done..|].
  intros [->%elem_of_singleton|]%elem_of_union; done.
Qed.

Lemma pending_edge E D x v :
  pending E ({[x]} ∪ D) v = pending E D v ∖ {[(x, v)]}.
Proof.
  apply set_eq. intros [a b]. rewrite elem_of_difference, !elem_of_pending, elem_of_singleton.
  cbn. split.
  - intros (HE & -> & Ha). set_solver.
  - intros [(HE & -> & Ha) Hne]. split_and!; [done..|].
    intros [->%elem_of_singleton|]%elem_of_union; [by apply Hne|done].
Qed.

Lemma pending_edge_size E D x v :
  (x, v) ∈ E -> x ∉ D ->
  N.of_nat (size (pending E ({[x]} ∪ D) v)) = wrapping_dec (N.of_nat (size (pending E D v))).
Proof.
  intros HE HD.
  assert ((x, v) ∈ pending E D v) as Hin by (by apply elem_of_pending).
  rewrite pending_edge, size_difference by set_solver. rewrite size_singleton.
  assert (size (pending E D v) <> 0) 
    by (intros Hz%size_empty_inv; by apply Hz, elem_of_empty in Hin).
  rewrite wrapping_dec_pos; lia.
Qed.

(** What a run of [relax_successor] does to each degree and to the ready set. *)
Lemma relax_successors_spec succs deg ready deg' ready' :
  NoDup succs -> foldl relax_successor (deg, ready) succs = (deg', ready') ->
  (forall v, v ∉ succs -> deg' !! v = deg !! v) /\
  (forall v, v ∈ succs -> deg' !! v = Some (wrapping_dec (default 0%N (deg !! v)))) /\
  (forall v, v ∈ ready' <-> v ∈ ready \/
     (v ∈ succs /\ wrapping_dec (default 0%N (deg !! v)) = 0%N)).
Proof.
  revert deg ready. induction succs as [|s succs IH]; intros deg ready Hnd; cbn [foldl].
  - intros [= <- <-]. set_solver.
  - apply NoDup_cons in Hnd as [Hs Hnd]. cbn [relax_successor].
    intros (Hout & Hin & Hr)%IH; [|done]. split_and!.
    + intros v Hv. rewrite Hout by set_solver. rewrite lookup_insert_ne; set_solver.
    + intros v [->|Hv]%elem_of_cons.
      * rewrite Hout by done. by rewrite lookup_insert_eq.
      * rewrite Hin by done. rewrite lookup_insert_ne; [done|set_solver].
    + intros v. rewrite Hr. destruct (decide (v = s)) as [->|Hne].
      * rewrite elem_of_cons.
        destruct (N.eqb_spec (wrapping_dec (default 0%N (deg !! s))) 0);
          rewrite ?elem_of_union, ?elem_of_singleton; tauto.
      * rewrite lookup_insert_ne by done.
        rewrite elem_of_cons.
        destruct (wrapping_dec (default 0%N (deg !! s)) =? 0)%N;
          rewrite ?elem_of_union, ?elem_of_singleton; tauto.
Qed.

Section graph.
Context (V : gset string) (E : gset (string * string))
  (adj : gmap string (gset string)) (deg0 : gmap string N) (G : graph_ok V E adj deg0).

Lemma ready_not_edge D deg ready x y :
  kahn_inv V E D deg ready -> x ∈ ready -> y ∉ D -> (y, x) ∉ E.
Proof.
  intros HI [_ [_ Hp]]%(ki_ready HI)%elem_of_available Hy HE.
  assert ((y, x) ∈ pending E D x) as Hin by (by apply elem_of_pending).
  rewrite Hp in Hin. by apply elem_of_empty in Hin.
Qed.

(** [relax] in terms of the edge set: the degree of each successor drops by
    one, and a successor joins the ready set when its degree reaches zero. *)
Lemma relax_spec x deg ready deg' ready' :
  relax adj x deg ready = (deg', ready') ->
  (forall v, (x, v) ∉ E -> deg' !! v = deg !! v) /\
  (forall v, (x, v) ∈ E -> deg' !! v = Some (wrapping_dec (default 0%N (deg !! v)))) /\
  (forall v, v ∈ ready' <-> v ∈ ready \/
     ((x, v) ∈ E /\ wrapping_dec (default 0%N (deg !! v)) = 0%N)).
Proof.
  pose proof (gok_adj G x) as Hadj.
  unfold relax. destruct (adj !! x) as [succs|]; cbn in Hadj.
  - intros (Hout & Hin & Hr)%relax_successors_spec; [|apply btree_elements_NoDup].
    setoid_rewrite btree_elements_elem in Hout.
    setoid_rewrite btree_elements_elem in Hin.
    setoid_rewrite btree_elements_elem in Hr.
    setoid_rewrite Hadj in Hout. setoid_rewrite Hadj in Hin. setoid_rewrite Hadj in Hr. done.
  - intros [= <- <-]. split_and!; [done| |].
    + intros v HE%Hadj. by apply elem_of_empty in HE.
    + intros v. split; [by left|]. intros [?|[HE%Hadj _]]; [done|].
      by apply elem_of_empty in HE.
Qed.

(** One visit.  [waiting] are the ready nodes not visited yet apart from
    those in [next]; the sequential loop has [waiting = {x}], a wave has the
    rest of the wave. *)
Lemma relax_inv D deg waiting next x deg' next' :
  kahn_inv V E D deg (waiting ∪ next) -> x ∈ waiting -> x ∉ next -> waiting ## next ->
  relax adj x deg next = (deg', next') ->
  kahn_inv V E ({[x]} ∪ D) deg' ((waiting ∖ {[x]}) ∪ next') /\ (waiting ∖ {[x]}) ## next'.
Proof.
  intros HI Hx Hxn Hdisj (Hout & Hin & Hr)%relax_spec.
  assert (x ∈ waiting ∪ next) as Hxr by set_solver.
  pose proof Hxr as (HxV & HxD & Hxp)%(ki_ready HI)%elem_of_available.
  assert (forall v, (x, v) ∈ E -> v ∉ waiting ∪ next) as Hnr.
  { intros v HE Hv. by eapply ready_not_edge in HE. }
  assert (forall v, (x, v) ∈ E -> v ∈ V /\ (v ∉ D) /\ v <> x) as Hsucc.
  { intros v HE. split_and!; [by apply (gok_ends G) in HE as []| |].
    - intros HD%(ki_closed HI).
      assert ((x, v) ∈ pending E D v) as Hp by (by apply elem_of_pending).
      rewrite HD in Hp. by apply elem_of_empty in Hp.
    - intros ->. by apply (Hnr _ HE). }
  assert (forall v, (x, v) ∈ E ->
    wrapping_dec (default 0%N (deg !! v)) = N.of_nat (size (pending E ({[x]} ∪ D) v))) as Hdec.
  { intros v HE. rewrite (ki_deg HI) by (by apply Hsucc). cbn.
    by rewrite pending_edge_size. }
  assert (forall v, N.of_nat (size (pending E ({[x]} ∪ D) v)) = 0%N <->
    pending E ({[x]} ∪ D) v = ∅) as Hzero.
  { intros v. rewrite <- leibniz_equiv_iff, <- size_empty_iff. lia. }
  split; [constructor|].
  - intros v Hv. destruct (decide ((x, v) ∈ E)) as [HE|HE].
    + rewrite Hin, Hdec by done. done.
    + rewrite Hout, pending_no_edge by done. by apply HI.
  - intros v. rewrite elem_of_union, elem_of_difference, elem_of_singleton, Hr.
    rewrite elem_of_available. destruct (decide ((x, v) ∈ E)) as [HE|HE].
    + rewrite Hdec, Hzero by done. pose proof (Hnr v HE). pose proof (Hsucc v HE).
      clear -HE H H0. set_solver.
    + rewrite pending_no_edge by done.
      pose proof (ki_ready HI v) as Hrv. rewrite elem_of_available in Hrv.
      clear -Hrv HE Hx Hxn. set_solver.
  - pose proof (ki_sub HI). set_solver.
  - intros v [->%elem_of_singleton|HD]%elem_of_union.
    + rewrite pending_no_edge; [done|]. intros HE. by apply (Hnr _ HE).
    + rewrite pending_edge, (ki_closed HI) by done. set_solver.
  - intros v [Hv _]%elem_of_difference [Hv'|[HE _]]%Hr; [set_solver|].
    apply (Hnr _ HE). set_solver.
Qed.

Lemma kahn_inv_initial : kahn_inv V E ∅ deg0 (initially_ready V deg0).
Proof.
  constructor; [apply G| |set_solver|set_solver].
  intros v. unfold initially_ready. rewrite elem_of_filter, elem_of_available.
  split.
  - intros [Hz HV]. rewrite (gok_deg G) in Hz by done. cbn in Hz.
    split_and!; [done|set_solver|]. apply leibniz_equiv, size_empty_inv. lia.
  - intros (HV & _ & Hp). rewrite (gok_deg G) by done. by rewrite Hp.
Qed.

Lemma kahn_inv_available D deg ready : kahn_inv V E D deg ready -> ready = available V E D.
Proof. intros HI. apply set_eq, HI. Qed.

(** The loop extends [order] by a lexicographic topological order of what is
    left, and the fuel [|V| - |D|] is enough for it to stop on its own. *)
Lemma kahn_loop_spec fuel D deg ready order :
  kahn_inv V E D deg ready -> size V < fuel + size D ->
  exists rest, kahn_loop fuel adj deg ready order = (order ++ rest, ∅) /\
    lex_topological V E D rest.
Proof.
  revert D deg ready order. induction fuel as [|fuel IH]; intros D deg ready order HI Hfuel.
  { pose proof (subseteq_size _ _ (ki_sub HI)). lia. }
  cbn [kahn_loop]. pose proof (kahn_inv_available _ _ _ HI) as ->.
  destruct (btree_first (available V E D)) as [x|] eqn:Hx.
  - pose proof Hx as [Hxa _]%btree_first_Some.
    pose proof Hxa as (HxV & HxD & _)%elem_of_available.
    destruct (relax adj x deg (available V E D ∖ {[x]})) as [deg' ready'] eqn:Hrelax.
    assert ({[x]} ∪ available V E D ∖ {[x]} = available V E D) as Hsplit.
    { apply set_eq. intros y. destruct (decide (y = x)); set_solver. }
    rewrite <- Hsplit in HI at 1.
    assert (kahn_inv V E ({[x]} ∪ D) deg' ({[x]} ∖ {[x]} ∪ ready')) as HI'
      by (eapply relax_inv; [exact HI|set_solver..|exact Hrelax]).
    replace ({[x]} ∖ {[x]} ∪ ready') with ready' in HI' by set_solver.
    destruct (IH ({[x]} ∪ D) deg' ready' (order ++ [x]) HI') as (rest & Heq & Hlex).
    { rewrite size_union, size_singleton by set_solver. lia. }
    exists (x :: rest). rewrite Heq, <- app_assoc. split; [done|]. by split.
  - apply btree_first_None in Hx as Hemp. exists []. rewrite app_nil_r, Hemp. by split.
Qed.

Lemma kahn_spec : exists order, kahn V adj deg0 = (order, ∅) /\ lex_topological V E ∅ order.
Proof.
  destruct (kahn_loop_spec (S (size V)) ∅ deg0 (initially_ready V deg0) [])
    as (order & Heq & Hlex); [apply kahn_inv_initial|lia|].
  by exists order.
Qed.
End graph.

(** ** Consequences of the specification *)

Lemma lex_topological_unique V E D l1 l2 :
  lex_topological V E D l1 -> lex_topological V E D l2 -> l1 = l2.
Proof.
  revert D l2. induction l1 as [|x l1 IH]; intros D [|y l2]; cbn; [done|..].
  - intros -> [H _]. done.
  - intros [H _] Heq. by rewrite Heq in H.
  - intros [Hx H1] [Hy H2]. simplify_eq. f_equal. by eapply IH.
Qed.

Lemma lex_topological_elem V E D l x : lex_topological V E D l -> x ∈ l -> x ∈ V /\ x ∉ D.
Proof.
  revert D. induction l as [|y l IH]; intros D; cbn; [by intros _ ?%elem_of_nil|].
  intros [(Hy & Hd & _)%btree_first_Some%proj1%elem_of_available Hl] [->|Hx]%elem_of_cons; [done|].
  apply (IH _ Hl) in Hx as [? ?]. set_solver.
Qed.

Lemma lex_topological_NoDup V E D l : lex_topological V E D l -> NoDup l.
Proof.
  revert D. induction l as [|y l IH]; intros D; cbn; [by constructor|].
  intros [Hy Hl]. constructor; [|by eapply IH].
  intros Hin. apply (lex_topological_elem _ _ _ _ _ Hl) in Hin as [_ Hin]. set_solver.
Qed.

(** Every predecessor of a placed node is placed before it, or was there already. *)
Lemma lex_topological_before V E D l1 v l2 u :
  lex_topological V E D (l1 ++ v :: l2) -> (u, v) ∈ E -> u ∈ D \/ u ∈ l1.
Proof.
  revert D. induction l1 as [|y l1 IH]; intros D; cbn.
  - intros [(_ & _ & Hp)%btree_first_Some%proj1%elem_of_available _] HE. left.
    destruct (decide (u ∈ D)) as [|Hu]; [done|].
    assert ((u, v) ∈ pending E D v) as Hin by (by apply elem_of_pending).
    rewrite Hp in Hin. by apply elem_of_empty in Hin.
  - intros [_ Hl] HE. destruct (IH _ Hl HE) as [[->%elem_of_singleton|]%elem_of_union|?].
    + right. left.
    + by left.
    + right. by right.
Qed.

(** What is never placed has a predecessor that is never placed. *)
Lemma lex_topological_stuck V E D l v :
  (forall a b, (a, b) ∈ E -> a ∈ V) ->
  lex_topological V E D l -> v ∈ V -> v ∉ D -> v ∉ l ->
  exists u, u ∈ V /\ (u ∉ D) /\ (u ∉ l) /\ (u, v) ∈ E.
Proof.
  intros Hends. revert D. induction l as [|y l IH]; intros D; cbn.
  - intros Hav HV HD _.
    destruct (set_choose_or_empty (pending E D v)) as [[[a b] Hab]|Hemp].
    + apply elem_of_pending in Hab as (HE & Hb & Ha). cbn in *. subst b.
      exists a. split_and!; [by eapply Hends|done|by intros ?%elem_of_nil|done].
    + assert (v ∈ available V E D) as Hin
        by (apply elem_of_available; split_and!; [done..|by apply leibniz_equiv]).
      rewrite Hav in Hin. by apply elem_of_empty in Hin.
  - intros [_ Hl] HV HD Hv.
    destruct (IH _ Hl HV) as (u & HuV & HuD & Hul & HE); [set_solver..|].
    exists u. set_solver.
Qed.

Lemma lex_topological_reach V E l u v l1 l2 :
  lex_topological V E ∅ l -> tc (edge_rel E) u v -> l = l1 ++ v :: l2 -> u ∈ l1.
Proof.
  intros Hl Htc. revert l1 l2. induction Htc as [u v HE|u w v HE _ IH]; intros l1 l2 ->.
  - destruct (lex_topological_before _ _ _ _ _ _ _ Hl HE); set_solver.
  - destruct (list_elem_of_split l1 w) as (a & b & ->); [by eapply IH|].
    rewrite <- app_assoc in Hl. cbn in Hl.
    destruct (lex_topological_before _ _ _ _ _ _ _ Hl HE); set_solver.
Qed.

Lemma flip_edge_tc E u v : tc (flip (edge_rel E)) u v -> tc (edge_rel E) v u.
Proof.
  induction 1 as [u v H|u w v H _ IH]; [by apply tc_once|]. eapply tc_r; [exact IH|exact H].
Qed.

(** In an acyclic graph no set of nodes is closed under "has a predecessor in the set". *)
Lemma acyclic_not_stuck (V : gset string) E (stuck : string -> Prop) :
  (forall a b, (a, b) ∈ E -> a ∈ V /\ b ∈ V) -> acyclic E ->
  (forall v, v ∈ V -> stuck v -> exists u, u ∈ V /\ stuck u /\ (u, v) ∈ E) ->
  forall v, v ∈ V -> ~ stuck v.
Proof.
  intros Hends Hac Hstep v HV Hv.
  assert (sn (flip (edge_rel E)) v) as Hsn.
  { apply tc_finite_sn.
    - intros x Hx%flip_edge_tc. by apply (Hac x).
    - exists (elements V). intros x Hx%flip_edge_tc. apply elem_of_elements.
      inversion Hx as [? ? HE|? ? ? HE]; subst; by apply Hends in HE as []. }
  induction Hsn as [v _ IH]. destruct (Hstep v HV Hv) as (u & HuV & Hu & HE).
  by apply (IH u).
Qed.

(** Every node gets a place exactly when the graph has no cycle. *)
Lemma lex_topological_complete V E l :
  (forall a b, (a, b) ∈ E -> a ∈ V /\ b ∈ V) -> lex_topological V E ∅ l ->
  (forall v, v ∈ V -> v ∈ l) <-> acyclic E.
Proof.
  intros Hends Hl. split.
  - intros Hall v Htc.
    assert (v ∈ V) as HV.
    { clear -Hends Htc. inversion Htc as [? ? HE|? ? ? HE]; subst;
      by apply Hends in HE as []. }
    destruct (list_elem_of_split l v (Hall v HV)) as (l1 & l2 & ->).
    pose proof (lex_topological_reach _ _ _ _ _ _ _ Hl Htc eq_refl) as Hin.
    apply lex_topological_NoDup, NoDup_app in Hl as (_ & Hd & _).
    apply (Hd v Hin). left.
  - intros Hac v HV. destruct (decide (v ∈ l)) as [|Hv]; [done|]. exfalso. revert v HV Hv.
    apply (acyclic_not_stuck V E (fun v => v ∉ l)); [done..|]. intros v HV Hv.
    destruct (lex_topological_stuck V E ∅ l v) as (u & HuV & _ & Hul & HE);
      [by intros a b HE; apply Hends in HE as []|done|done|set_solver|done|]. eauto.
Qed.

Lemma lex_topological_length V E l :
  lex_topological V E ∅ l -> length l = size V <-> (forall v, v ∈ V -> v ∈ l).
Proof.
  intros Hl. pose proof (lex_topological_NoDup _ _ _ _ Hl) as Hnd.
  assert (list_to_set l ⊆ V) as Hsub.
  { intros x Hx%elem_of_list_to_set. by apply (lex_topological_elem _ _ _ _ _ Hl) in Hx as []. }
  rewrite <- (size_list_to_set (C := gset string)) by done. split.
  - intros Hsize v Hv. assert (list_to_set l =@{gset string} V) as <-.
    { apply set_subseteq_size_eq; [done|lia]. }
    by apply elem_of_list_to_set in Hv.
  - intros Hall. f_equal. apply set_eq. intros v. rewrite elem_of_list_to_set.
    split; [by apply (lex_topological_elem _ _ _ _ _ Hl)|apply Hall].
Qed.

(** [topological_order] succeeds exactly on acyclic graphs, with the
    lexicographic topological order. *)
Lemma topological_order_spec V E adj deg :
  graph_ok V E adj deg ->
  match topological_order V adj deg with
  | Some order => lex_topological V E ∅ order /\ (forall v, v ∈ V <-> v ∈ order) /\ acyclic E
  | None => ~ acyclic E
  end.
Proof.
  intros G. destruct (kahn_spec V E adj deg G) as (order & Hk & Hlex).
  pose proof (lex_topological_length _ _ _ Hlex) as Hlen.
  pose proof (lex_topological_complete _ _ _ (gok_ends G) Hlex) as Hcomp.
  unfold topological_order. rewrite Hk. cbn. case_decide as Hd; [|tauto].
  split_and!; [done| |tauto]. intros v.
  split; [by apply Hlen|by apply (lex_topological_elem _ _ _ _ _ Hlex)].
Qed.
