(* ===== verification/Proposal.v ===== *)
(** * Workflow proposals: validation, execution order, parallel schedule

    [crates/traverse-contracts/src/proposal.rs].  A proposal is a graph of
    capability nodes; [canonicalize_proposal] checks its shape and computes the
    deterministic execution order, [compute_parallel_schedule] levels it into
    waves.  [BTreeSet] and [BTreeMap] are finite sets and maps read through their
    sorted listings.  The byte length of [initial_input] comes from [serde_json],
    which is not part of the repository: it is the argument [json_len], [None]
    when serialization fails. *)
From S2P Require Import Prelude Json Kahn.

(** ** Data *)

Record ManifestReference := {
  app_id : string;
  app_version : string;
  manifest_digest : string }.

Record ProposalNode := {
  node_id : string;
  capability_id : string;
  capability_version : string;
  artifact_digest : string }.

Record ProposalEdge := {
  from_node_id : string;
  to_node_id : string }.

Inductive MappingSource :=
  | InitialInput
  | FromNode (source_node_id : string).

Record ProposalMapping := {
  source : MappingSource;
  source_path : string;
  target_node_id : string;
  target_path : string }.

Record WorkflowProposal := {
  kind : string;
  schema_version : string;
  proposal_id : string;
  workspace_id : string;
  app_manifest : ManifestReference;
  nodes : list ProposalNode;
  edges : list ProposalEdge;
  mappings : list ProposalMapping;
  initial_input : Value }.

Record ProposalLimits := {
  max_nodes : N;
  max_edges : N;
  max_mappings : N;
  max_initial_input_bytes : N }.

Definition default_proposal_limits : ProposalLimits := {|
  max_nodes := 32; max_edges := 64; max_mappings := 128; max_initial_input_bytes := 262144 |}.

Record CanonicalProposal := {
  proposal : WorkflowProposal;
  execution_order : list string }.

Inductive ProposalValidationErrorCode :=
  | InvalidLiteral
  | MissingRequiredField
  | NodeLimitExceeded
  | EdgeLimitExceeded
  | MappingLimitExceeded
  | PayloadLimitExceeded
  | DuplicateNodeId
  | UnknownEdgeEndpoint
  | SelfLoopEdge
  | DuplicateEdge
  | CyclicGraph
  | UnknownMappingEndpoint
  | AmbiguousMultiWriterTarget
  | MissingDependencyEdgeForMapping.

Record ProposalValidationError := {
  code : ProposalValidationErrorCode;
  message : string;
  path : string }.

Definition error (c : ProposalValidationErrorCode) (p m : string) : ProposalValidationError :=
  {| code := c; message := m; path := p |}.

Definition PROPOSAL_KIND : string := "workflow_proposal".
Definition PROPOSAL_SCHEMA_VERSION : string := "1.0.0".

(** ** Field checks *)

(** What [validate_non_empty] pushes. *)
Definition validate_non_empty (value path : string) : list ProposalValidationError :=
  if is_blank value
  then [error MissingRequiredField path "value must be non-empty"]
  else [].

Definition show_N (n : N) : string := u64_to_string n.
Definition show_nat (n : nat) : string := u64_to_string (N.of_nat n).

(** A count against a configured limit. *)
Definition check_limit (c : ProposalValidationErrorCode) (path subject unit_ : string)
    (actual limit : N) (suffix : string) : list ProposalValidationError :=
  if (limit <? actual)%N
  then [error c path (subject +:+ " " +:+ show_N actual +:+ " " +:+ unit_
          +:+ ", exceeding the configured limit of " +:+ show_N limit +:+ suffix)]
  else [].

(** The literals, identities and limits, checked before the graph. *)
Definition check_header (json_len : Value -> option N) (p : WorkflowProposal)
    (limits : ProposalLimits) : list ProposalValidationError :=
  (if decide (kind p = PROPOSAL_KIND) then []
   else [error InvalidLiteral "$.kind" "kind must equal workflow_proposal"])
  ++ (if decide (schema_version p = PROPOSAL_SCHEMA_VERSION) then []
      else [error InvalidLiteral "$.schema_version" "schema_version must equal 1.0.0"])
  ++ validate_non_empty (proposal_id p) "$.proposal_id"
  ++ validate_non_empty (workspace_id p) "$.workspace_id"
  ++ check_limit NodeLimitExceeded "$.nodes" "proposal declares" "nodes"
       (N.of_nat (length (nodes p))) (max_nodes limits) ""
  ++ check_limit EdgeLimitExceeded "$.edges" "proposal declares" "edges"
       (N.of_nat (length (edges p))) (max_edges limits) ""
  ++ check_limit MappingLimitExceeded "$.mappings" "proposal declares" "mappings"
       (N.of_nat (length (mappings p))) (max_mappings limits) ""
  ++ check_limit PayloadLimitExceeded "$.initial_input" "initial_input is" "bytes"
       (default usize_max (json_len (initial_input p))) (max_initial_input_bytes limits) " bytes".

(** ** The node pass *)

Definition check_node (st : gset string * list ProposalValidationError)
    (entry : nat * ProposalNode) : gset string * list ProposalValidationError :=
  let '(node_ids, errors) := st in
  let '(index, node) := entry in
  let at_field f := "$.nodes[" +:+ show_nat index +:+ "]." +:+ f in
  let errors := errors
    ++ validate_non_empty (node_id node) (at_field "node_id")
    ++ validate_non_empty (capability_id node) (at_field "capability_id")
    ++ validate_non_empty (capability_version node) (at_field "capability_version")
    ++ validate_non_empty (artifact_digest node) (at_field "artifact_digest") in
  if decide (node_id node ∈ node_ids)
  then (node_ids, errors ++ [error DuplicateNodeId (at_field "node_id")
          ("node_id '" +:+ node_id node +:+ "' is declared more than once")])
  else ({[node_id node]} ∪ node_ids, errors).

Definition check_nodes (ns : list ProposalNode) : gset string * list ProposalValidationError :=
  foldl check_node (∅, []) (enumerate ns).

(** ** The edge pass *)

(** The maps the edge pass builds. *)
Record EdgeState := {
  adjacency : gmap string (gset string);
  in_degree : gmap string N;
  declared_edges : gset (string * string) }.

Definition initial_edge_state (node_ids : gset string) : EdgeState := {|
  adjacency := ∅;
  in_degree := gset_to_gmap 0%N node_ids;
  declared_edges := ∅ |}.

(** Record an edge: extend the successor set, count the predecessor. *)
Definition add_edge (st : EdgeState) (u v : string) : EdgeState := {|
  adjacency := <[u := {[v]} ∪ default ∅ (adjacency st !! u)]> (adjacency st);
  in_degree := <[v := (default 0%N (in_degree st !! v) + 1)%N]> (in_degree st);
  declared_edges := {[(u, v)]} ∪ declared_edges st |}.

Definition check_edge (node_ids : gset string) (st : EdgeState * list ProposalValidationError)
    (entry : nat * ProposalEdge) : EdgeState * list ProposalValidationError :=
  let '(es, errors) := st in
  let '(index, edge) := entry in
  let path := "$.edges[" +:+ show_nat index +:+ "]" in
  let u := from_node_id edge in
  let v := to_node_id edge in
  if decide (u = v) then
    (es, errors ++ [error SelfLoopEdge path ("edge from '" +:+ u +:+ "' to itself is not allowed")])
  else if decide (u ∉ node_ids) then
    (es, errors ++ [error UnknownEdgeEndpoint (path +:+ ".from_node_id")
                      ("edge references unknown node_id '" +:+ u +:+ "'")])
  else if decide (v ∉ node_ids) then
    (es, errors ++ [error UnknownEdgeEndpoint (path +:+ ".to_node_id")
                      ("edge references unknown node_id '" +:+ v +:+ "'")])
  else if decide ((u, v) ∈ declared_edges es) then
    (es, errors ++ [error DuplicateEdge path
                      ("edge '" +:+ u +:+ "' -> '" +:+ v +:+ "' is declared more than once")])
  else (add_edge es u v, errors).

Definition check_edges (node_ids : gset string) (edge_list : list ProposalEdge)
    : EdgeState * list ProposalValidationError :=
  foldl (check_edge node_ids) (initial_edge_state node_ids, []) (enumerate edge_list).

(** ** The mapping pass *)

Definition check_mapping (node_ids : gset string) (declared : gset (string * string))
    (st : gmap (string * string) N * list ProposalValidationError)
    (entry : nat * ProposalMapping)
    : gmap (string * string) N * list ProposalValidationError :=
  let '(writers, errors) := st in
  let '(index, mapping) := entry in
  let path := "$.mappings[" +:+ show_nat index +:+ "]" in
  let target := target_node_id mapping in
  let errors := errors
    ++ validate_non_empty (source_path mapping) (path +:+ ".source_path")
    ++ validate_non_empty (target_path mapping) (path +:+ ".target_path") in
  if decide (target ∉ node_ids) then
    (writers, errors ++ [error UnknownMappingEndpoint (path +:+ ".target_node_id")
                           ("mapping targets unknown node_id '" +:+ target +:+ "'")])
  else
    let rejection :=
      match source mapping with
      | InitialInput => None
      | FromNode src =>
          if decide (src ∉ node_ids) then
            Some (error UnknownMappingEndpoint (path +:+ ".source")
                    ("mapping sources unknown node_id '" +:+ src +:+ "'"))
          else if decide ((src, target) ∉ declared) then
            Some (error MissingDependencyEdgeForMapping path
                    ("mapping from '" +:+ src +:+ "' to '" +:+ target
                       +:+ "' has no corresponding declared edge"))
          else None
      end in
    match rejection with
    | Some e => (writers, errors ++ [e])
    | None =>
        let key := (target, target_path mapping) in
        (<[key := (default 0%N (writers !! key) + 1)%N]> writers, errors)
    end.

Definition check_mappings (node_ids : gset string) (declared : gset (string * string))
    (ms : list ProposalMapping) : gmap (string * string) N * list ProposalValidationError :=
  foldl (check_mapping node_ids declared) (∅, []) (enumerate ms).

(** [BTreeMap<(String, String), usize>] lists its entries by key, lexicographically. *)
Definition writer_le (p q : string * string * N) : Prop :=
  p.1.1 <> q.1.1 /\ String.le p.1.1 q.1.1 \/ p.1.1 = q.1.1 /\ String.le p.1.2 q.1.2.

#[export] Instance writer_le_dec : RelDecision writer_le.
Proof. intros p q. unfold writer_le. apply _. Defined.

Definition check_writers (writers : gmap (string * string) N) : list ProposalValidationError :=
  merge_sort writer_le (map_to_list writers) ≫= fun '(target_node, target_path, count) =>
    if (1 <? count)%N
    then [error AmbiguousMultiWriterTarget
            ("$.mappings[?target_node_id=" +:+ target_node +:+ "][?target_path="
               +:+ target_path +:+ "]")
            ("target path '" +:+ target_path +:+ "' on node '" +:+ target_node
               +:+ "' is written by " +:+ show_N count
               +:+ " mappings; a target path may have at most one writer")]
    else [].

(** ** canonicalize_proposal *)

Definition structural_errors (json_len : Value -> option N) (p : WorkflowProposal)
    (limits : ProposalLimits) : list ProposalValidationError :=
  let '(node_ids, node_errors) := check_nodes (nodes p) in
  let '(es, edge_errors) := check_edges node_ids (edges p) in
  let '(writers, mapping_errors) := check_mappings node_ids (declared_edges es) (mappings p) in
  check_header json_len p limits ++ node_errors ++ edge_errors ++ mapping_errors
    ++ check_writers writers.

Definition canonicalize_proposal (json_len : Value -> option N) (p : WorkflowProposal)
    (limits : ProposalLimits) : Result (list ProposalValidationError) CanonicalProposal :=
  match structural_errors json_len p limits with
  | [] =>
      let node_ids := (check_nodes (nodes p)).1 in
      let es := (check_edges node_ids (edges p)).1 in
      match topological_order node_ids (adjacency es) (in_degree es) with
      | Some order => Ok {| proposal := p; execution_order := order |}
      | None => Err [error CyclicGraph "$.edges"
                       "proposal graph contains a cycle; P1 requires an acyclic graph"]
      end
  | errors => Err errors
  end.

(** ** What a well-formed proposal is *)

Definition node_fields_ok (n : ProposalNode) : Prop :=
  is_blank (node_id n) = false /\ is_blank (capability_id n) = false /\
  is_blank (capability_version n) = false /\ is_blank (artifact_digest n) = false.

Definition node_id_set (p : WorkflowProposal) : gset string := list_to_set (node_id <$> nodes p).

Definition edge_pair (e : ProposalEdge) : string * string := (from_node_id e, to_node_id e).

Definition edge_set (p : WorkflowProposal) : gset (string * string) :=
  list_to_set (edge_pair <$> edges p).

Definition edge_ok (ids : gset string) (e : ProposalEdge) : Prop :=
  from_node_id e <> to_node_id e /\ from_node_id e ∈ ids /\ to_node_id e ∈ ids.

Definition mapping_ok (ids : gset string) (declared : gset (string * string))
    (m : ProposalMapping) : Prop :=
  is_blank (source_path m) = false /\ is_blank (target_path m) = false /\
  target_node_id m ∈ ids /\
  match source m with
  | InitialInput => True
  | FromNode src => src ∈ ids /\ (src, target_node_id m) ∈ declared
  end.

Definition writer_key (m : ProposalMapping) : string * string := (target_node_id m, target_path m).

Record well_formed (json_len : Value -> option N) (p : WorkflowProposal) (limits : ProposalLimits)
    : Prop := {
  wf_kind : kind p = PROPOSAL_KIND;
  wf_schema_version : schema_version p = PROPOSAL_SCHEMA_VERSION;
  wf_proposal_id : is_blank (proposal_id p) = false;
  wf_workspace_id : is_blank (workspace_id p) = false;
  wf_max_nodes : (N.of_nat (length (nodes p)) <= max_nodes limits)%N;
  wf_max_edges : (N.of_nat (length (edges p)) <= max_edges limits)%N;
  wf_max_mappings : (N.of_nat (length (mappings p)) <= max_mappings limits)%N;
  wf_payload : (default usize_max (json_len (initial_input p)) <= max_initial_input_bytes limits)%N;
  wf_node_fields : Forall node_fields_ok (nodes p);
  wf_node_ids : NoDup (node_id <$> nodes p);
  wf_edges : Forall (edge_ok (node_id_set p)) (edges p);
  wf_edge_pairs : NoDup (edge_pair <$> edges p);
  wf_mappings : Forall (mapping_ok (node_id_set p) (edge_set p)) (mappings p);
  wf_writers : NoDup (writer_key <$> mappings p) }.

(** ** Each pass against its part of the specification *)

Lemma validate_non_empty_nil v p : validate_non_empty v p = [] <-> is_blank v = false.
Proof. unfold validate_non_empty. by destruct (is_blank v). Qed.

Lemma check_limit_nil c p s u a l x : check_limit c p s u a l x = [] <-> (a <= l)%N.
Proof. unfold check_limit. destruct (N.ltb_spec l a); split; (done || lia). Qed.

Lemma check_header_nil json_len p limits :
  check_header json_len p limits = [] <->
  kind p = PROPOSAL_KIND /\ schema_version p = PROPOSAL_SCHEMA_VERSION /\
  is_blank (proposal_id p) = false /\ is_blank (workspace_id p) = false /\
  (N.of_nat (length (nodes p)) <= max_nodes limits)%N /\
  (N.of_nat (length (edges p)) <= max_edges limits)%N /\
  (N.of_nat (length (mappings p)) <= max_mappings limits)%N /\
  (default usize_max (json_len (initial_input p)) <= max_initial_input_bytes limits)%N.
Proof.
  unfold check_header. rewrite !app_nil_iff, !validate_non_empty_nil, !check_limit_nil.
  case_decide; case_decide; intuition done.
Qed.

Lemma check_nodes_spec ns :
  (check_nodes ns).1 = list_to_set (node_id <$> ns) /\
  ((check_nodes ns).2 = [] <-> Forall node_fields_ok ns /\ NoDup (node_id <$> ns)).
Proof.
  unfold check_nodes.
  apply (foldl_enumerate_inv check_node (fun seen st => st.1 = list_to_set (node_id <$> seen) /\
    (st.2 = [] <-> Forall node_fields_ok seen /\ NoDup (node_id <$> seen)))).
  { split; [done|]. split; [|done]. split; [constructor|constructor]. }
  intros seen node [ids errs] _ _ [Hids Herrs]. cbn in Hids, Herrs. subst ids.
  rewrite fmap_app, Forall_app, NoDup_app, Forall_singleton, list_to_set_app_L. cbn.
  case_decide as Hin; cbn.
  - split; [set_solver|]. rewrite snoc_not_nil. split; [done|].
    intros (_ & _ & Hd & _). apply elem_of_list_to_set, Hd in Hin. apply Hin. left.
  - split; [set_solver|]. rewrite !app_nil_iff, !validate_non_empty_nil, Herrs.
    unfold node_fields_ok. rewrite elem_of_list_to_set in Hin.
    assert (NoDup [node_id node]) by apply NoDup_singleton. set_solver.
Qed.

Lemma graph_ok_initial ids :
  graph_ok ids ∅ (adjacency (initial_edge_state ids)) (in_degree (initial_edge_state ids)).
Proof.
  constructor; cbn.
  - intros u v. rewrite lookup_empty. cbn. set_solver.
  - intros v Hv. rewrite lookup_gset_to_gmap_Some. split; [done|].
    replace (pending ∅ ∅ v) with (∅ : gset (string * string)); [done|].
    apply set_eq. intros e. rewrite elem_of_pending. set_solver.
  - set_solver.
Qed.

(** Recording an edge keeps the maps in step with the edge set. *)
Lemma graph_ok_add_edge ids E es u v :
  graph_ok ids E (adjacency es) (in_degree es) ->
  u ∈ ids -> v ∈ ids -> (u, v) ∉ E ->
  graph_ok ids ({[(u, v)]} ∪ E) (adjacency (add_edge es u v)) (in_degree (add_edge es u v)).
Proof.
  intros G Hu Hv HE. constructor; cbn.
  - intros a b. destruct (decide (a = u)) as [->|Hne].
    + rewrite lookup_insert_eq. cbn.
      rewrite elem_of_union, elem_of_singleton, (gok_adj G).
      rewrite elem_of_union, elem_of_singleton. naive_solver.
    + rewrite lookup_insert_ne by done. rewrite (gok_adj G), elem_of_union, elem_of_singleton.
      naive_solver.
  - intros b Hb. destruct (decide (b = v)) as [->|Hne].
    + rewrite lookup_insert_eq, (gok_deg G) by done. cbn. f_equal.
      replace (pending ({[(u, v)]} ∪ E) ∅ v) with ({[(u, v)]} ∪ pending E ∅ v).
      * rewrite size_union, size_singleton; [lia|].
        intros e ->%elem_of_singleton Hp%elem_of_pending. tauto.
      * apply set_eq. intros [a c]. rewrite elem_of_union, !elem_of_pending, elem_of_union.
        rewrite elem_of_singleton. cbn. naive_solver set_solver.
    + rewrite lookup_insert_ne, (gok_deg G) by done. do 3 f_equal.
      apply set_eq. intros [a c]. rewrite !elem_of_pending, elem_of_union, elem_of_singleton.
      cbn. naive_solver.
  - intros a b [[= -> ->]%elem_of_singleton|H]%elem_of_union; [done|by apply (gok_ends G)].
Qed.

Lemma check_edges_spec ids es :
  graph_ok ids (declared_edges (check_edges ids es).1)
    (adjacency (check_edges ids es).1) (in_degree (check_edges ids es).1) /\
  ((check_edges ids es).2 = [] <-> Forall (edge_ok ids) es /\ NoDup (edge_pair <$> es)) /\
  ((check_edges ids es).2 = [] ->
    declared_edges (check_edges ids es).1 = list_to_set (edge_pair <$> es)).
Proof.
  unfold check_edges.
  apply (foldl_enumerate_inv (check_edge ids) (fun seen st =>
    graph_ok ids (declared_edges st.1) (adjacency st.1) (in_degree st.1) /\
    (st.2 = [] <-> Forall (edge_ok ids) seen /\ NoDup (edge_pair <$> seen)) /\
    (st.2 = [] -> declared_edges st.1 = list_to_set (edge_pair <$> seen)))).
  { split; [apply graph_ok_initial|]. split; [|done]. split; [|done].
    split; [constructor|constructor]. }
  intros seen e [st errs] _ _ (HG & Herrs & Hdecl). cbn in HG, Herrs, Hdecl.
  rewrite fmap_app, Forall_app, Forall_singleton, NoDup_app, list_to_set_app_L.
  unfold check_edge, edge_ok at 2. repeat case_decide; cbn [fst snd];
    try (rewrite snoc_not_nil; split; [done|]; split; [|done]; split; [done|]; tauto).
  - rewrite snoc_not_nil. split; [done|]. split; [|done]. split; [done|].
    intros ([Hok _] & Hnd & Hd & _). rewrite Hdecl in * by tauto.
    apply (Hd (edge_pair e)); [by apply (elem_of_list_to_set (C := gset (string * string)))|left].
  - split; [by apply graph_ok_add_edge|].
    assert (NoDup (edge_pair <$> [e])) by apply NoDup_singleton.
    split.
    + rewrite Herrs. split; [|tauto]. intros [Hok Hnd]. split_and!; try done.
      intros x Hx Hxe. apply list_elem_of_singleton in Hxe as ->.
      rewrite Hdecl in * by tauto. by apply (elem_of_list_to_set (C := gset (string * string))) in Hx.
    + intros He. cbn. rewrite Hdecl by done. cbn. unfold edge_pair. set_solver.
Qed.

Lemma check_mappings_spec ids declared ms :
  ((check_mappings ids declared ms).2 = [] <-> Forall (mapping_ok ids declared) ms) /\
  ((check_mappings ids declared ms).2 = [] -> forall k,
    default 0%N ((check_mappings ids declared ms).1 !! k)
    = N.of_nat (length (filter (fun m => writer_key m = k) ms))).
Proof.
  unfold check_mappings.
  apply (foldl_enumerate_inv (check_mapping ids declared) (fun seen st =>
    (st.2 = [] <-> Forall (mapping_ok ids declared) seen) /\
    (st.2 = [] -> forall k, default 0%N (st.1 !! k)
      = N.of_nat (length (filter (fun m => writer_key m = k) seen))))).
  { split; [by split; [constructor|]|]. done. }
  intros seen m [writers errs] _ _ [Herrs Hcount]. cbn in Herrs, Hcount.
  rewrite Forall_app, Forall_singleton. unfold check_mapping, mapping_ok at 2.
  case_decide as Ht; cbn [fst snd].
  { rewrite snoc_not_nil. split; [tauto|done]. }
  destruct (source m) as [|src] eqn:Hsrc; [|repeat case_decide]; cbn [fst snd];
    try (rewrite snoc_not_nil; split; [tauto|done]);
    rewrite !app_nil_iff, !validate_non_empty_nil;
    (split; [tauto|]);
    intros (He & _ & _) k; rewrite filter_app, length_app, filter_cons;
    change (target_node_id m, target_path m) with (writer_key m);
    rewrite Nat2N.inj_add, <- !Hcount by done;
    (destruct (decide (writer_key m = k)) as [<-|Hk];
      [rewrite lookup_insert_eq; done|rewrite lookup_insert_ne by done; cbn; lia]).
Qed.

Lemma check_writers_nil w :
  check_writers w = [] <-> forall k n, w !! k = Some n -> (n <= 1)%N.
Proof.
  unfold check_writers. split.
  - intros H [t p] n Hk%elem_of_map_to_list.
    rewrite <- (merge_sort_Permutation writer_le) in Hk.
    apply list_elem_of_split in Hk as (l1 & l2 & Heq). rewrite Heq in H.
    rewrite bind_app, app_nil_iff in H. destruct H as [_ H]. cbn in H.
    destruct (N.ltb_spec 1 n); [done|lia].
  - intros H. destruct (_ ≫= _) as [|e es] eqn:Hb; [done|]. exfalso.
    assert (e ∈ e :: es) as He by left. rewrite <- Hb in He.
    apply list_elem_of_bind in He as ([[t p] n] & He & Hin).
    rewrite merge_sort_Permutation in Hin. apply elem_of_map_to_list, H in Hin.
    destruct (N.ltb_spec 1 n); [lia|]. by apply elem_of_nil in He.
Qed.

Lemma structural_errors_nil json_len p limits :
  structural_errors json_len p limits = [] <-> well_formed json_len p limits.
Proof.
  unfold structural_errors. pose proof (check_nodes_spec (nodes p)) as [Hids Hnodes].
  destruct (check_nodes (nodes p)) as [ids node_errors]. cbn in Hids, Hnodes.
  pose proof (check_edges_spec ids (edges p)) as (_ & Hedges & Hdecl).
  destruct (check_edges ids (edges p)) as [es edge_errors]. cbn in Hedges, Hdecl.
  pose proof (check_mappings_spec ids (declared_edges es) (mappings p)) as [Hmaps Hcount].
  destruct (check_mappings _ _ (mappings p)) as [writers mapping_errors].
  cbn in Hmaps, Hcount.
  rewrite !app_nil_iff, check_header_nil, Hnodes, check_writers_nil.
  assert (ids = node_id_set p) as -> by done.
  assert (edge_errors = [] -> declared_edges es = edge_set p) as Hdecl' by done.
  assert (mapping_errors = [] -> (forall k n, writers !! k = Some n -> (n <= 1)%N) <->
    NoDup (writer_key <$> mappings p)) as Hwriters.
  { intros Hm. rewrite NoDup_count. split.
    - intros Hw k. specialize (Hcount Hm k). destruct (writers !! k) as [n|] eqn:E; cbn in Hcount.
      + apply Hw in E. lia.
      + lia.
    - intros Hle k n E. specialize (Hcount Hm k). rewrite E in Hcount. cbn in Hcount.
      specialize (Hle k). lia. }
  split.
  - intros (? & ? & He & Hm & Hw). rewrite (Hdecl' He) in *.
    constructor; tauto.
  - intros []. assert (edge_errors = []) as He by (by apply Hedges).
    rewrite (Hdecl' He) in *. assert (mapping_errors = []) as Hm by (by apply Hmaps).
    split_and!; try done. by apply Hwriters.
Qed.

(** The maps handed to [topological_order] describe the proposal's own graph. *)
Lemma well_formed_graph json_len p limits :
  well_formed json_len p limits ->
  let ids := (check_nodes (nodes p)).1 in
  let es := (check_edges ids (edges p)).1 in
  ids = node_id_set p /\ graph_ok (node_id_set p) (edge_set p) (adjacency es) (in_degree es).
Proof.
  intros Hwf. cbn zeta. destruct (check_nodes_spec (nodes p)) as [-> _]. split; [done|].
  destruct (check_edges_spec (list_to_set (node_id <$> nodes p)) (edges p)) as (HG & Herr & Hd).
  rewrite Hd in HG; [done|]. apply Herr. by destruct Hwf.
Qed.

Lemma canonicalize_well_formed json_len p limits :
  well_formed json_len p limits ->
  (acyclic (edge_set p) /\ exists order,
     canonicalize_proposal json_len p limits = Ok {| proposal := p; execution_order := order |} /\
     lex_topological (node_id_set p) (edge_set p) ∅ order /\
     (forall v, v ∈ node_id_set p <-> v ∈ order)) \/
  (~ acyclic (edge_set p) /\ canonicalize_proposal json_len p limits
     = Err [error CyclicGraph "$.edges"
              "proposal graph contains a cycle; P1 requires an acyclic graph"]).
Proof.
  intros Hwf. unfold canonicalize_proposal. rewrite (proj2 (structural_errors_nil _ _ _) Hwf).
  destruct (well_formed_graph _ _ _ Hwf) as [Hids HG]. cbn zeta in HG.
  pose proof (topological_order_spec _ _ _ _ HG) as Ht. rewrite Hids in Ht |- *.
  destruct (topological_order _ _ _) as [order|]; [left|right; done].
  destruct Ht as (? & ? & ?). eauto.
Qed.

Lemma canonicalize_ill_formed json_len p limits :
  ~ well_formed json_len p limits ->
  canonicalize_proposal json_len p limits = Err (structural_errors json_len p limits).
Proof.
  rewrite <- structural_errors_nil. unfold canonicalize_proposal.
  by destruct (structural_errors json_len p limits).
Qed.

Lemma canonicalize_ok_inv json_len p limits c :
  canonicalize_proposal json_len p limits = Ok c ->
  well_formed json_len p limits /\ acyclic (edge_set p) /\ proposal c = p /\
  lex_topological (node_id_set p) (edge_set p) ∅ (execution_order c) /\
  (forall v, v ∈ node_id_set p <-> v ∈ execution_order c).
Proof.
  intros Hc. destruct (structural_errors json_len p limits) as [|e es] eqn:Herr.
  - apply structural_errors_nil in Herr as Hwf.
    destruct (canonicalize_well_formed _ _ _ Hwf) as [(Hac & order & Heq & Hlex & Hall)|[_ Heq]].
    + rewrite Hc in Heq. by injection Heq as ->.
    + by rewrite Hc in Heq.
  - unfold canonicalize_proposal in Hc. by rewrite Herr in Hc.
Qed.

(** ** Properties *)

(** C21: a proposal is accepted exactly when it is well formed (literals, non-blank
    fields, limits, unique node ids, declared and distinct edges, mappings backed by a
    declared edge, one writer per target path) and its edge relation has no cycle. *)
Theorem canonicalize_accepts_iff json_len p limits :
  (exists c, canonicalize_proposal json_len p limits = Ok c) <->
  well_formed json_len p limits /\ acyclic (edge_set p).
Proof.
  split.
  - intros [c Hc]. apply canonicalize_ok_inv in Hc. tauto.
  - intros [Hwf Hac].
    destruct (canonicalize_well_formed _ _ _ Hwf) as [(_ & order & Heq & _)|[Hno _]]; [eauto|done].
Qed.

(** The execution order of an accepted proposal lists every declared node exactly
    once, and a node comes after every node that has an edge into it. *)
Theorem canonicalize_order_sound json_len p limits c :
  canonicalize_proposal json_len p limits = Ok c ->
  execution_order c ≡ₚ node_id <$> nodes p /\
  forall e l1 l2, e ∈ edges p -> execution_order c = l1 ++ to_node_id e :: l2 ->
    from_node_id e ∈ l1.
Proof.
  intros (Hwf & _ & _ & Hlex & Hall)%canonicalize_ok_inv. split.
  - apply NoDup_Permutation; [by eapply lex_topological_NoDup|apply Hwf|].
    intros v. rewrite <- Hall. unfold node_id_set. by rewrite elem_of_list_to_set.
  - intros e l1 l2 He Heq. rewrite Heq in Hlex.
    destruct (lex_topological_before _ _ _ _ _ _ (from_node_id e) Hlex) as [H|H]; [|set_solver|done].
    unfold edge_set. apply elem_of_list_to_set. by apply (list_elem_of_fmap_2 edge_pair).
Qed.

(** Data mapped out of a node is available: when a mapping of an accepted
    proposal reads the output of one node into another, the order runs the source first. *)
Theorem canonicalize_mapping_source_first json_len p limits c m src l1 l2 :
  canonicalize_proposal json_len p limits = Ok c ->
  m ∈ mappings p -> source m = FromNode src ->
  execution_order c = l1 ++ target_node_id m :: l2 -> src ∈ l1.
Proof.
  intros (Hwf & _ & _ & Hlex & _)%canonicalize_ok_inv Hm Hsrc Heq. rewrite Heq in Hlex.
  pose proof (wf_mappings _ _ _ Hwf) as Hms. rewrite Forall_forall in Hms.
  specialize (Hms m Hm) as (_ & _ & _ & Hs). rewrite Hsrc in Hs. destruct Hs as [_ HE].
  destruct (lex_topological_before _ _ _ _ _ _ src Hlex HE); set_solver.
Qed.

(** The order does not depend on how the proposal lists its nodes and edges: two
    accepted proposals with the same nodes and edges, in any order, run alike. *)
Theorem canonicalize_order_declaration_independent json_len limits p1 p2 c1 c2 :
  nodes p1 ≡ₚ nodes p2 -> edges p1 ≡ₚ edges p2 ->
  canonicalize_proposal json_len p1 limits = Ok c1 ->
  canonicalize_proposal json_len p2 limits = Ok c2 ->
  execution_order c1 = execution_order c2.
Proof.
  intros Hn He (_ & _ & _ & H1 & _)%canonicalize_ok_inv (_ & _ & _ & H2 & _)%canonicalize_ok_inv.
  assert (node_id_set p1 = node_id_set p2) as HV
    by (unfold node_id_set; apply list_to_set_perm_L; by rewrite Hn).
  assert (edge_set p1 = edge_set p2) as HE
    by (unfold edge_set; apply list_to_set_perm_L; by rewrite He).
  rewrite HV, HE in H1. by eapply lex_topological_unique.
Qed.

(** A well-formed proposal with a cycle is rejected with exactly the
    [CyclicGraph] error. *)
Theorem canonicalize_cycle_error json_len p limits :
  well_formed json_len p limits -> ~ acyclic (edge_set p) ->
  canonicalize_proposal json_len p limits
  = Err [error CyclicGraph "$.edges"
           "proposal graph contains a cycle; P1 requires an acyclic graph"].
Proof.
  intros Hwf Hc. destruct (canonicalize_well_formed _ _ _ Hwf) as [[? _]|[_ ?]]; done.
Qed.

(** ** Witnesses *)

Definition sample_node (id : string) : ProposalNode := {|
  node_id := id; capability_id := "test." +:+ id; capability_version := "1.0.0";
  artifact_digest := "digest-" +:+ id |}.

Definition sample_edge (u v : string) : ProposalEdge := {| from_node_id := u; to_node_id := v |}.

Definition sample_proposal (ns : list string) (es : list (string * string)) : WorkflowProposal := {|
  kind := "workflow_proposal"; schema_version := "1.0.0"; proposal_id := "proposal-p2-001";
  workspace_id := "workspace-001";
  app_manifest := {| app_id := "test-app"; app_version := "1.0.0";
                     manifest_digest := "sha256:manifest-digest" |};
  nodes := sample_node <$> ns;
  edges := (fun e => sample_edge e.1 e.2) <$> es;
  mappings := match es with
    | (u, v) :: _ => [{| source := FromNode u; source_path := "/x"; target_node_id := v;
                         target_path := "/y" |}]
    | [] => [] end;
  initial_input := Object [] |}.

Definition sample_json_len (_ : Value) : option N := Some 2%N.

Definition diamond : WorkflowProposal :=
  sample_proposal ["d"; "c"; "b"; "a"] [("a", "b"); ("a", "c"); ("b", "d"); ("c", "d")].

Definition diamond_order : CanonicalProposal :=
  {| proposal := diamond; execution_order := ["a"; "b"; "c"; "d"] |}.

Lemma diamond_accepted :
  canonicalize_proposal sample_json_len diamond default_proposal_limits = Ok diamond_order.
Proof. vm_compute. reflexivity. Qed.

Lemma canonicalize_order_sound_witness :
  execution_order diamond_order ≡ₚ node_id <$> nodes diamond.
Proof. exact (proj1 (canonicalize_order_sound _ _ _ _ diamond_accepted)). Defined.

Lemma canonicalize_mapping_source_first_witness : "a" ∈ ["a"].
Proof.
  exact (canonicalize_mapping_source_first sample_json_len diamond default_proposal_limits
    diamond_order {| source := FromNode "a"; source_path := "/x"; target_node_id := "b";
                     target_path := "/y" |} "a" ["a"] ["c"; "d"]
    diamond_accepted ltac:(left) eq_refl eq_refl).
Defined.

Definition diamond_reversed : WorkflowProposal :=
  sample_proposal ["a"; "b"; "c"; "d"] [("a", "b"); ("a", "c"); ("b", "d"); ("c", "d")].

Lemma diamond_reversed_accepted :
  canonicalize_proposal sample_json_len diamond_reversed default_proposal_limits
  = Ok {| proposal := diamond_reversed; execution_order := ["a"; "b"; "c"; "d"] |}.
Proof. vm_compute. reflexivity. Qed.

Lemma canonicalize_order_declaration_independent_witness :
  execution_order diamond_order = ["a"; "b"; "c"; "d"].
Proof.
  refine (canonicalize_order_declaration_independent sample_json_len default_proposal_limits
    diamond diamond_reversed diamond_order _ _ (Permutation_refl _)
    diamond_accepted diamond_reversed_accepted).
  change (nodes diamond) with (reverse (nodes diamond_reversed)). apply reverse_Permutation.
Defined.

Definition looped : WorkflowProposal := sample_proposal ["a"; "b"] [("a", "b"); ("b", "a")].

Lemma looped_well_formed : well_formed sample_json_len looped default_proposal_limits.
Proof. apply structural_errors_nil. vm_compute. reflexivity. Qed.

Lemma looped_cyclic : ~ acyclic (edge_set looped).
Proof.
  intros Hac. apply (Hac "a"). eapply tc_l; [|apply tc_once].
  - unfold edge_rel. apply (bool_decide_unpack (("a", "b") ∈ edge_set looped)). by vm_compute.
  - unfold edge_rel. apply (bool_decide_unpack (("b", "a") ∈ edge_set looped)). by vm_compute.
Qed.

Lemma canonicalize_cycle_error_witness :
  is_ok (canonicalize_proposal sample_json_len looped default_proposal_limits) = false.
Proof.
  rewrite (canonicalize_cycle_error _ _ _ looped_well_formed looped_cyclic). reflexivity.
Defined.
