(* ===== verification/Schedule.v ===== *)
(** * Bounded parallel schedule

    [compute_parallel_schedule] of [crates/traverse-contracts/src/proposal.rs]:
    an accepted proposal is levelled into waves, each the sorted set of nodes
    whose predecessors are all in earlier waves, and rejected when the queue
    depth, a join width or a wave's fan-out exceeds its limit.  The loop runs at
    most once per node, so the fuel is the number of nodes plus one. *)
From S2P Require Import Prelude Json Kahn Proposal.

(** ** Data *)

Record ParallelScheduleLimits := {
  max_fan_out : N;
  max_join_width : N;
  max_queue_depth : N;
  max_concurrent_nodes : N }.

Definition default_schedule_limits : ParallelScheduleLimits := {|
  max_fan_out := 8; max_join_width := 8; max_queue_depth := 16; max_concurrent_nodes := 8 |}.

Inductive ParallelScheduleErrorCode :=
  | FanOutExceeded
  | JoinWidthExceeded
  | QueueDepthExceeded.

Record ParallelScheduleError := {
  schedule_error_code : ParallelScheduleErrorCode;
  schedule_error_message : string;
  schedule_error_path : string }.

Record ParallelSchedule := { waves : list (list string) }.

(** ** Operations *)

(** The adjacency and in-degree maps, rebuilt from the edge list. *)
Definition schedule_maps (node_ids : gset string) (edge_list : list ProposalEdge) : EdgeState :=
  foldl (fun st e => add_edge st (from_node_id e) (to_node_id e))
    (initial_edge_state node_ids) edge_list.

Definition queue_depth_errors (node_ids : gset string) (limits : ParallelScheduleLimits)
    : list ParallelScheduleError :=
  if (max_queue_depth limits <? N.of_nat (size node_ids))%N
  then [{| schedule_error_code := QueueDepthExceeded;
           schedule_error_message := "schedule has " +:+ show_nat (size node_ids)
             +:+ " nodes, exceeding the configured queue depth of "
             +:+ show_N (max_queue_depth limits);
           schedule_error_path := "$.nodes" |}]
  else [].

Definition join_width_errors (degrees : gmap string N) (limits : ParallelScheduleLimits)
    : list ParallelScheduleError :=
  btree_entries degrees ≫= fun '(id, degree) =>
    if (max_join_width limits <? degree)%N
    then [{| schedule_error_code := JoinWidthExceeded;
             schedule_error_message := "node '" +:+ id +:+ "' has " +:+ show_N degree
               +:+ " direct predecessors, exceeding the configured join width of "
               +:+ show_N (max_join_width limits);
             schedule_error_path := "$.nodes[?node_id=" +:+ id +:+ "]" |}]
    else [].

Definition fan_out_errors (wave : list string) (limits : ParallelScheduleLimits)
    : list ParallelScheduleError :=
  if (max_fan_out limits <? N.of_nat (length wave))%N
  then [{| schedule_error_code := FanOutExceeded;
           schedule_error_message := show_nat (length wave)
             +:+ " nodes became ready concurrently, exceeding the configured fan-out of "
             +:+ show_N (max_fan_out limits);
           schedule_error_path := "$.nodes" |}]
  else [].

(** [for node_id in &wave { if let Some(successors) = adjacency.get(node_id) .. }] *)
Definition visit_wave (adj : gmap string (gset string)) (degrees : gmap string N)
    (wave : list string) : gmap string N * gset string :=
  foldl (fun '(degrees, next_ready) id => relax adj id degrees next_ready) (degrees, ∅) wave.

Fixpoint wave_loop (fuel : nat) (limits : ParallelScheduleLimits)
    (adj : gmap string (gset string)) (degrees : gmap string N) (ready : gset string)
    (ws : list (list string)) (errors : list ParallelScheduleError)
    : list (list string) * list ParallelScheduleError * gset string :=
  match fuel with
  | 0 => (ws, errors, ready)
  | S fuel' =>
      if decide (ready = ∅) then (ws, errors, ready)
      else
        let wave := btree_elements ready in
        let '(degrees', next_ready) := visit_wave adj degrees wave in
        wave_loop fuel' limits adj degrees' next_ready (ws ++ [wave])
          (errors ++ fan_out_errors wave limits)
  end.

Definition compute_parallel_schedule (canonical : CanonicalProposal)
    (limits : ParallelScheduleLimits) : Result (list ParallelScheduleError) ParallelSchedule :=
  let node_ids := list_to_set (node_id <$> nodes (proposal canonical)) in
  let maps := schedule_maps node_ids (edges (proposal canonical)) in
  let errors := queue_depth_errors node_ids limits ++ join_width_errors (in_degree maps) limits in
  let ready := initially_ready node_ids (in_degree maps) in
  let '(ws, errors, _) :=
    wave_loop (S (size node_ids)) limits (adjacency maps) (in_degree maps) ready [] errors in
  match errors with
  | [] => Ok {| waves := ws |}
  | _ => Err errors
  end.

(** ** Specification: the layers of the graph *)

Fixpoint layered (V : gset string) (E : gset (string * string)) (D : gset string)
    (ws : list (list string)) : Prop :=
  match ws with
  | [] => available V E D = ∅
  | w :: rest =>
      w = btree_elements (available V E D) /\ w <> [] /\ layered V E (list_to_set w ∪ D) rest
  end.

Section graph.
Context (V : gset string) (E : gset (string * string))
  (adj : gmap string (gset string)) (deg0 : gmap string N) (G : graph_ok V E adj deg0).

Lemma visit_wave_inv D deg next todo :
  NoDup todo -> list_to_set todo ## next ->
  kahn_inv V E D deg (list_to_set todo ∪ next) ->
  let r := foldl (fun '(degrees, next_ready) id => relax adj id degrees next_ready)
             (deg, next) todo in
  kahn_inv V E (list_to_set todo ∪ D) r.1 r.2.
Proof.
  revert D deg next. induction todo as [|x todo IH]; intros D deg next Hnd Hd HI; cbn.
  - replace (∅ ∪ D) with D by set_solver. by replace next with (∅ ∪ next) by set_solver.
  - apply NoDup_cons in Hnd as [Hx Hnd].
    destruct (relax adj x deg next) as [deg' next'] eqn:Hr.
    assert (({[x]} ∪ list_to_set todo) ∖ {[x]} = (list_to_set todo : gset string)) as Hrest.
    { apply set_eq. intros y. rewrite elem_of_difference, elem_of_union, elem_of_singleton.
      rewrite elem_of_list_to_set. split; [tauto|]. intros Hy. split; [tauto|].
      by intros ->. }
    assert (kahn_inv V E ({[x]} ∪ D) deg' (({[x]} ∪ list_to_set todo) ∖ {[x]} ∪ next') /\
      ({[x]} ∪ list_to_set todo) ∖ {[x]} ## next') as [HI' Hd']
      by (eapply relax_inv; [exact G|exact HI|set_solver..|exact Hr]).
    rewrite Hrest in HI', Hd'.
    replace ({[x]} ∪ list_to_set todo ∪ D) with (list_to_set todo ∪ ({[x]} ∪ D)) by set_solver.
    by apply IH.
Qed.

Lemma visit_wave_spec D deg ready :
  kahn_inv V E D deg ready ->
  kahn_inv V E (list_to_set (btree_elements ready) ∪ D)
    (visit_wave adj deg (btree_elements ready)).1 (visit_wave adj deg (btree_elements ready)).2.
Proof.
  intros HI. apply visit_wave_inv; [apply btree_elements_NoDup|set_solver|].
  replace (list_to_set (btree_elements ready) ∪ ∅) with ready; [done|].
  apply set_eq. intros v. rewrite union_empty_r_L, elem_of_list_to_set.
  by rewrite btree_elements_elem.
Qed.

Lemma wave_loop_spec limits fuel D deg ready ws errs :
  kahn_inv V E D deg ready -> size V < fuel + size D ->
  exists rest, layered V E D rest /\
    wave_loop fuel limits adj deg ready ws errs
    = (ws ++ rest, errs ++ (rest ≫= fun w => fan_out_errors w limits), ∅).
Proof.
  revert D deg ready ws errs.
  induction fuel as [|fuel IH]; intros D deg ready ws errs HI Hfuel.
  { pose proof (subseteq_size _ _ (ki_sub HI)). lia. }
  cbn [wave_loop]. pose proof (kahn_inv_available V E _ _ _ HI) as Hready.
  case_decide as Hemp.
  - exists []. cbn. rewrite !app_nil_r, <- Hready. subst ready. by rewrite Hemp.
  - pose proof (visit_wave_spec D deg ready HI) as HI'.
    destruct (visit_wave adj deg (btree_elements ready)) as [deg' next]. cbn in HI'.
    assert (btree_elements ready <> []) as Hne.
    { intros Hnil. apply Hemp. apply btree_first_None. unfold btree_first. by rewrite Hnil. }
    destruct (IH _ _ _ (ws ++ [btree_elements ready])
      (errs ++ fan_out_errors (btree_elements ready) limits) HI') as (rest & Hlay & Heq).
    { assert (list_to_set (btree_elements ready) ## D) as Hdisj.
      { intros v Hv%elem_of_list_to_set. rewrite btree_elements_elem, Hready in Hv.
        by apply elem_of_available in Hv as (_ & ? & _). }
      rewrite size_union, size_list_to_set by (done || apply btree_elements_NoDup).
      destruct (btree_elements ready); [done|]. cbn. lia. }
    exists (btree_elements ready :: rest). cbn. rewrite Heq, <- !app_assoc. split; [|done].
    split_and!; [by rewrite Hready|done|done].
Qed.
End graph.

(** ** Consequences of the specification *)

Lemma layered_elem V E D ws v : layered V E D ws -> v ∈ concat ws -> v ∈ V /\ v ∉ D.
Proof.
  revert D. induction ws as [|w ws IH]; intros D; cbn; [by intros _ ?%elem_of_nil|].
  intros (-> & _ & Hl) [Hv|Hv]%elem_of_app.
  - apply btree_elements_elem, elem_of_available in Hv. tauto.
  - apply (IH _ Hl) in Hv as [? Hv]. set_solver.
Qed.

Lemma layered_NoDup V E D ws : layered V E D ws -> NoDup (concat ws).
Proof.
  revert D. induction ws as [|w ws IH]; intros D; cbn; [constructor|].
  intros (Hw & _ & Hl). apply NoDup_app. split_and!; [| |by eapply IH].
  - rewrite Hw. apply btree_elements_NoDup.
  - intros v Hv Hin. apply (layered_elem _ _ _ _ _ Hl) in Hin as [_ Hin]. set_solver.
Qed.

Lemma layered_before V E D ws1 w ws2 u v :
  layered V E D (ws1 ++ w :: ws2) -> v ∈ w -> (u, v) ∈ E -> u ∈ D \/ u ∈ concat ws1.
Proof.
  revert D. induction ws1 as [|w' ws1 IH]; intros D; cbn.
  - intros (-> & _ & _) (_ & _ & Hp)%btree_elements_elem%elem_of_available HE. left.
    destruct (decide (u ∈ D)) as [|Hu]; [done|].
    assert ((u, v) ∈ pending E D v) as Hin by (by apply elem_of_pending).
    rewrite Hp in Hin. by apply elem_of_empty in Hin.
  - intros (_ & _ & Hl) Hv HE. destruct (IH _ Hl Hv HE) as [[Hu|Hu]%elem_of_union|Hu].
    + right. apply elem_of_app. left. by apply elem_of_list_to_set in Hu.
    + by left.
    + right. apply elem_of_app. by right.
Qed.

Lemma layered_tight V E D ws1 w1 w2 ws2 v :
  layered V E D (ws1 ++ w1 :: w2 :: ws2) -> v ∈ w2 -> exists u, u ∈ w1 /\ (u, v) ∈ E.
Proof.
  revert D. induction ws1 as [|w' ws1 IH]; intros D; [|by cbn; intros (_ & _ & Hl); apply (IH _ Hl)].
  cbn. intros (Hw1 & _ & -> & _ & _) (HV & HvD & Hp)%btree_elements_elem%elem_of_available.
  destruct (set_choose_or_empty (pending E D v)) as [[[u b] Hub]|Hemp].
  - apply elem_of_pending in Hub as (HE & Hb & HuD). cbn in *. subst b. exists u.
    split; [|done]. destruct (decide (u ∈ w1)) as [|Hu]; [done|]. exfalso.
    assert ((u, v) ∈ pending E (list_to_set w1 ∪ D) v) as Hin
      by (apply elem_of_pending; set_solver).
    rewrite Hp in Hin. by apply elem_of_empty in Hin.
  - exfalso. apply HvD. apply elem_of_union_l, elem_of_list_to_set. rewrite Hw1.
    apply btree_elements_elem, elem_of_available. split_and!; [done|set_solver|].
    by apply leibniz_equiv.
Qed.

Lemma layered_stuck V E D ws v :
  (forall a b, (a, b) ∈ E -> a ∈ V) -> layered V E D ws ->
  v ∈ V -> v ∉ D -> v ∉ concat ws ->
  exists u, u ∈ V /\ (u ∉ D) /\ (u ∉ concat ws) /\ (u, v) ∈ E.
Proof.
  intros Hends. revert D. induction ws as [|w ws IH]; intros D; cbn.
  - intros Hav HV HD _.
    apply (lex_topological_stuck V E D [] v); [done..|by intros ?%elem_of_nil].
  - intros (_ & _ & Hl) HV HD Hv.
    destruct (IH _ Hl HV) as (u & HuV & HuD & Hul & HE); [set_solver..|].
    exists u. set_solver.
Qed.

Lemma layered_complete V E ws :
  (forall a b, (a, b) ∈ E -> a ∈ V /\ b ∈ V) -> acyclic E -> layered V E ∅ ws ->
  forall v, v ∈ V -> v ∈ concat ws.
Proof.
  intros Hends Hac Hl v HV. destruct (decide (v ∈ concat ws)) as [|Hv]; [done|]. exfalso.
  revert v HV Hv. apply (acyclic_not_stuck V E (fun v => v ∉ concat ws)); [done..|].
  intros v HV Hv. destruct (layered_stuck V E ∅ ws v) as (u & HuV & _ & Hul & HE);
    [by intros a b HE; apply Hends in HE as []|done|done|set_solver|done|]. eauto.
Qed.

(** ** The schedule of an accepted proposal *)

Lemma schedule_maps_ok ids es :
  Forall (edge_ok ids) es -> NoDup (edge_pair <$> es) ->
  graph_ok ids (list_to_set (edge_pair <$> es))
    (adjacency (schedule_maps ids es)) (in_degree (schedule_maps ids es)).
Proof.
  unfold schedule_maps. induction es as [|e es IH] using rev_ind; [intros; apply graph_ok_initial|].
  rewrite Forall_app, Forall_singleton, fmap_app, NoDup_app, foldl_app, list_to_set_app_L.
  intros [Hok (_ & Hu & Hv)] (Hnd & Hd & _). cbn.
  replace (list_to_set (edge_pair <$> es) ∪ ({[edge_pair e]} ∪ ∅))
    with ({[edge_pair e]} ∪ list_to_set (edge_pair <$> es) : gset (string * string)) by set_solver.
  apply graph_ok_add_edge; [by apply IH|done..|].
  intros Hin%elem_of_list_to_set. apply (Hd _ Hin). left.
Qed.

Lemma schedule_maps_dom ids es :
  Forall (edge_ok ids) es -> dom (in_degree (schedule_maps ids es)) ⊆ ids.
Proof.
  unfold schedule_maps. induction es as [|e es IH] using rev_ind; cbn.
  - intros _. by rewrite dom_gset_to_gmap.
  - rewrite Forall_app, Forall_singleton, foldl_app. intros [Hes (_ & _ & Hv)]. cbn.
    rewrite dom_insert. specialize (IH Hes). set_solver.
Qed.

Lemma fan_out_errors_nil w limits :
  fan_out_errors w limits = [] <-> (N.of_nat (length w) <= max_fan_out limits)%N.
Proof. unfold fan_out_errors. destruct (N.ltb_spec (max_fan_out limits) (N.of_nat (length w))); split; (done || lia). Qed.

Lemma queue_depth_errors_nil V limits :
  queue_depth_errors V limits = [] <-> (N.of_nat (size V) <= max_queue_depth limits)%N.
Proof. unfold queue_depth_errors. destruct (N.ltb_spec (max_queue_depth limits) (N.of_nat (size V))); split; (done || lia). Qed.

Lemma bind_nil_iff {A B} (f : A -> list B) (l : list A) :
  l ≫= f = [] <-> forall x, x ∈ l -> f x = [].
Proof.
  induction l as [|x l IH]; cbn; [split; [by intros _ ? ?%elem_of_nil|done]|].
  rewrite app_nil_iff. unfold mbind in IH. rewrite IH. set_solver.
Qed.

Lemma join_width_errors_nil degrees limits :
  join_width_errors degrees limits = [] <->
  forall v d, degrees !! v = Some d -> (d <= max_join_width limits)%N.
Proof.
  unfold join_width_errors. rewrite bind_nil_iff. split.
  - intros H v d Hd%btree_entries_elem. specialize (H _ Hd). cbn in H.
    destruct (N.ltb_spec (max_join_width limits) d); [done|lia].
  - intros H [v d] Hd%btree_entries_elem. apply H in Hd.
    destruct (N.ltb_spec (max_join_width limits) d); [lia|done].
Qed.

(** The layers of an accepted proposal, and the exact condition under which the
    code returns them. *)
Lemma compute_parallel_schedule_spec json_len p plimits c limits :
  canonicalize_proposal json_len p plimits = Ok c ->
  exists ws, layered (node_id_set p) (edge_set p) ∅ ws /\
    match compute_parallel_schedule c limits with
    | Ok s => waves s = ws
    | Err errs => errs <> []
    end /\
    (is_ok (compute_parallel_schedule c limits) = true <->
      (N.of_nat (size (node_id_set p)) <= max_queue_depth limits)%N /\
      (forall v, v ∈ node_id_set p ->
        (N.of_nat (size (pending (edge_set p) ∅ v)) <= max_join_width limits)%N) /\
      (forall w, w ∈ ws -> (N.of_nat (length w) <= max_fan_out limits)%N)).
Proof.
  intros (Hwf & _ & Hp & _ & _)%canonicalize_ok_inv. unfold compute_parallel_schedule.
  rewrite Hp. change (list_to_set (node_id <$> nodes p)) with (node_id_set p).
  pose proof (schedule_maps_ok (node_id_set p) (edges p) (wf_edges _ _ _ Hwf)
    (wf_edge_pairs _ _ _ Hwf)) as HG.
  change (list_to_set (edge_pair <$> edges p)) with (edge_set p) in HG.
  set (maps := schedule_maps (node_id_set p) (edges p)) in *.
  pose proof (schedule_maps_dom (node_id_set p) (edges p) (wf_edges _ _ _ Hwf)) as Hdom.
  fold maps in Hdom.
  set (errs0 := queue_depth_errors (node_id_set p) limits
    ++ join_width_errors (in_degree maps) limits).
  destruct (wave_loop_spec _ _ _ _ HG limits (S (size (node_id_set p))) ∅ (in_degree maps)
    (initially_ready (node_id_set p) (in_degree maps)) [] errs0)
    as (ws & Hlay & ->); [by eapply kahn_inv_initial|lia|].
  exists ws. split; [done|]. cbn [app].
  assert (errs0 ++ (ws ≫= fun w => fan_out_errors w limits) = [] <->
      (N.of_nat (size (node_id_set p)) <= max_queue_depth limits)%N /\
      (forall v, v ∈ node_id_set p ->
        (N.of_nat (size (pending (edge_set p) ∅ v)) <= max_join_width limits)%N) /\
      (forall w, w ∈ ws -> (N.of_nat (length w) <= max_fan_out limits)%N)) as Hnil.
  { unfold errs0. rewrite !app_nil_iff, queue_depth_errors_nil, join_width_errors_nil.
    rewrite bind_nil_iff. setoid_rewrite fan_out_errors_nil.
    assert ((forall v d, in_degree maps !! v = Some d -> (d <= max_join_width limits)%N) <->
      forall v, v ∈ node_id_set p ->
        (N.of_nat (size (pending (edge_set p) ∅ v)) <= max_join_width limits)%N) as ->; [|tauto].
    split.
    - intros H v Hv. by apply (H v), (gok_deg HG).
    - intros H v d Hd. assert (v ∈ node_id_set p) as Hv by (by apply Hdom, elem_of_dom).
      rewrite (gok_deg HG) in Hd by done. injection Hd as <-. by apply H. }
  destruct (errs0 ++ _) as [|e es]; cbn; split; [done|tauto|done|].
  split; [done|]. intros H. by apply Hnil in H.
Qed.

(** ** Properties *)

(** The waves of a schedule partition the declared nodes, and every predecessor
    of a node is in a strictly earlier wave, so no two nodes of a wave depend on each other. *)
Theorem schedule_waves_respect_edges json_len p plimits c limits s :
  canonicalize_proposal json_len p plimits = Ok c ->
  compute_parallel_schedule c limits = Ok s ->
  concat (waves s) ≡ₚ node_id <$> nodes p /\
  forall e ws1 w ws2, e ∈ edges p -> waves s = ws1 ++ w :: ws2 -> to_node_id e ∈ w ->
    from_node_id e ∈ concat ws1.
Proof.
  intros Hc Hs. destruct (compute_parallel_schedule_spec _ _ _ _ limits Hc) as (ws & Hlay & Hws & _).
  rewrite Hs in Hws. pose proof Hc as (Hwf & Hac & _)%canonicalize_ok_inv. rewrite Hws.
  assert (forall a b, (a, b) ∈ edge_set p -> a ∈ node_id_set p /\ b ∈ node_id_set p) as Hends.
  { intros a b (e & [= -> ->] & He)%elem_of_list_to_set%list_elem_of_fmap.
    pose proof (wf_edges _ _ _ Hwf) as Hes. rewrite Forall_forall in Hes.
    by apply Hes in He as (_ & ? & ?). }
  split.
  - apply NoDup_Permutation; [by eapply layered_NoDup|apply Hwf|]. intros v.
    rewrite <- (elem_of_list_to_set (C := gset string) v (node_id <$> nodes p)). split.
    + intros Hv. by apply (layered_elem _ _ _ _ _ Hlay) in Hv as [].
    + by apply (layered_complete _ (edge_set p)).
  - intros e ws1 w ws2 He -> Hin.
    destruct (layered_before _ _ _ _ _ _ (from_node_id e) _ Hlay Hin) as [H|H]; [|set_solver|done].
    unfold edge_set. apply elem_of_list_to_set. by apply (list_elem_of_fmap_2 edge_pair).
Qed.

(** The schedule delays no node: a node outside the first wave has a predecessor in
    the wave just before its own.  Each wave is dispatched in byte order of the ids. *)
Theorem schedule_waves_earliest json_len p plimits c limits s :
  canonicalize_proposal json_len p plimits = Ok c ->
  compute_parallel_schedule c limits = Ok s ->
  (forall ws1 w1 w2 ws2 v, waves s = ws1 ++ w1 :: w2 :: ws2 -> v ∈ w2 ->
    exists e, e ∈ edges p /\ from_node_id e ∈ w1 /\ to_node_id e = v) /\
  (forall w, w ∈ waves s -> w <> [] /\ StronglySorted String.le w).
Proof.
  intros Hc Hs. destruct (compute_parallel_schedule_spec _ _ _ _ limits Hc) as (ws & Hlay & Hws & _).
  rewrite Hs in Hws. rewrite Hws. split.
  - intros ws1 w1 w2 ws2 v -> Hv. destruct (layered_tight _ _ _ _ _ _ _ _ Hlay Hv) as (u & Hu & HE).
    apply elem_of_list_to_set, list_elem_of_fmap in HE as (e & [= -> ->] & He). eauto.
  - clear -Hlay. revert Hlay. generalize (∅ : gset string) as D.
    induction ws as [|w0 ws IH]; intros D; cbn; [by intros _ w ?%elem_of_nil|].
    intros (Hw0 & Hne & Hl) w [->|Hw]%elem_of_cons; [|by apply (IH _ Hl)].
    split; [done|]. rewrite Hw0. apply btree_elements_sorted.
Qed.

(** For an accepted proposal the scheduler answers [Ok] exactly when the node count
    is within the queue depth, every node's number of incoming edges is within the join
    width, and every layer of the graph is within the fan-out. *)
Theorem schedule_accepts_iff json_len p plimits c limits :
  canonicalize_proposal json_len p plimits = Ok c ->
  exists ws, layered (node_id_set p) (edge_set p) ∅ ws /\
    (is_ok (compute_parallel_schedule c limits) = true <->
      (N.of_nat (length (nodes p)) <= max_queue_depth limits)%N /\
      (forall v, v ∈ node_id <$> nodes p ->
        (N.of_nat (length (filter (fun e => to_node_id e = v) (edges p)))
           <= max_join_width limits)%N) /\
      (forall w, w ∈ ws -> (N.of_nat (length w) <= max_fan_out limits)%N)).
Proof.
  intros Hc. destruct (compute_parallel_schedule_spec _ _ _ _ limits Hc) as (ws & Hlay & _ & Hiff).
  exists ws. split; [done|]. rewrite Hiff. pose proof Hc as (Hwf & _)%canonicalize_ok_inv.
  assert (size (node_id_set p) = length (nodes p)) as ->.
  { unfold node_id_set. rewrite size_list_to_set by apply Hwf. apply length_fmap. }
  assert (forall v, size (pending (edge_set p) ∅ v)
    = length (filter (fun e => to_node_id e = v) (edges p))) as Hdeg.
  { intros v. rewrite <- (length_fmap edge_pair).
    rewrite <- (size_list_to_set (C := gset (string * string))).
    - f_equal. apply set_eq. intros [a b].
      rewrite elem_of_pending, elem_of_list_to_set, list_elem_of_fmap. unfold edge_set.
      rewrite elem_of_list_to_set, list_elem_of_fmap. cbn. split.
      + intros ((e & [= -> ->] & He) & <- & _). exists e. split; [done|].
        by apply list_elem_of_filter.
      + intros (e & [= -> ->] & [Hv He]%list_elem_of_filter). split_and!; [eauto|done|set_solver].
    - pose proof (wf_edge_pairs _ _ _ Hwf) as Hnd. revert Hnd. clear.
      induction (edges p) as [|e es IH]; [constructor|]. rewrite fmap_cons, NoDup_cons, filter_cons.
      intros [He Hnd]. case_decide; [|by apply IH]. rewrite fmap_cons. constructor; [|by apply IH].
      intros (e' & Heq & [_ Hin]%list_elem_of_filter)%list_elem_of_fmap. apply He.
      rewrite Heq. by apply list_elem_of_fmap_2. }
  unfold node_id_set. setoid_rewrite elem_of_list_to_set. by setoid_rewrite Hdeg.
Qed.

(** ** Witnesses *)

Definition diamond_schedule : ParallelSchedule := {| waves := [["a"]; ["b"; "c"]; ["d"]] |}.

Lemma diamond_scheduled :
  compute_parallel_schedule diamond_order default_schedule_limits = Ok diamond_schedule.
Proof. vm_compute. reflexivity. Qed.

Lemma schedule_waves_respect_edges_witness :
  concat (waves diamond_schedule) ≡ₚ node_id <$> nodes diamond.
Proof.
  exact (proj1 (schedule_waves_respect_edges _ _ _ _ _ _ diamond_accepted diamond_scheduled)).
Defined.

Lemma schedule_waves_earliest_witness :
  exists e, e ∈ edges diamond /\ from_node_id e ∈ ["b"; "c"] /\ to_node_id e = "d".
Proof.
  refine (proj1 (schedule_waves_earliest _ _ _ _ _ _ diamond_accepted diamond_scheduled)
    [["a"]] ["b"; "c"] ["d"] [] "d" eq_refl _). left.
Defined.

Lemma schedule_accepts_iff_witness :
  exists ws, layered (node_id_set diamond) (edge_set diamond) ∅ ws.
Proof.
  destruct (schedule_accepts_iff _ _ _ _ default_schedule_limits diamond_accepted) as (ws & Hl & _).
  exists ws. exact Hl.
Defined.
