(* ===== verification/Placement.v ===== *)
(** * Placement constraint evaluator

    [crates/traverse-contracts/src/placement.rs]: the three-tier choice of an
    execution target shared by the native router and the wasm runtime.  Loads are
    IEEE 754 single-precision numbers, compared with the Standard Library's
    [SpecFloat] operations, so a NaN or infinite load behaves as it does in Rust. *)
From S2P Require Import Prelude.
From Stdlib Require Import SpecFloat.

(** ** Data *)

Inductive ExecutionTarget := Local | Browser | Edge | Cloud | Worker | Device.

#[export] Instance ExecutionTarget_eq_dec : EqDecision ExecutionTarget.
Proof. solve_decision. Defined.

Definition target_index (t : ExecutionTarget) : nat :=
  match t with Local => 0 | Browser => 1 | Edge => 2 | Cloud => 3 | Worker => 4 | Device => 5 end.

Definition target_of_index (n : nat) : ExecutionTarget :=
  match n with 0 => Local | 1 => Browser | 2 => Edge | 3 => Cloud | 4 => Worker | _ => Device end.

#[export] Instance ExecutionTarget_countable : Countable ExecutionTarget.
Proof. apply (inj_countable' target_index target_of_index). by intros []. Defined.

Abbreviation f32 := spec_float.

(** [format!("{target:?}")] *)
Definition debug_name (t : ExecutionTarget) : string :=
  match t with
  | Local => "Local" | Browser => "Browser" | Edge => "Edge"
  | Cloud => "Cloud" | Worker => "Worker" | Device => "Device"
  end.

Record RuntimeSnapshot := { target_loads : gmap ExecutionTarget f32 }.

Record PlacementRequest := {
  placement_capability_id : string;
  target_hint : option ExecutionTarget;
  runtime_snapshot : RuntimeSnapshot }.

Inductive PlacementReason := CallerHintAccepted | ContractConstrained | HeuristicSelected.

Inductive PlacementConfidence := High | Medium | Low.

Record PlacementDecision := {
  target : ExecutionTarget;
  reason : PlacementReason;
  confidence : PlacementConfidence }.

Inductive PlacementError := NoEligibleTarget.

(** The [f32] literals of the code. *)
Definition f32_zero : f32 := S754_zero false.
Definition f32_half : f32 := S754_finite false 8388608 (-24).
Definition f32_three_quarters : f32 := S754_finite false 12582912 (-24).
Definition f32_nine_tenths : f32 := S754_finite false 15099494 (-24).

(** ** Operations *)

Definition load_for (snapshot : RuntimeSnapshot) (t : ExecutionTarget) : f32 :=
  default f32_zero (target_loads snapshot !! t).

Definition confidence_for (load : f32) : PlacementConfidence :=
  if SFltb load f32_half then High
  else if SFltb load f32_three_quarters then Medium
  else Low.

(** [la.partial_cmp(&lb).unwrap_or(Equal).then_with(|| format!("{a:?}").cmp(..))] *)
Definition compare_targets (snapshot : RuntimeSnapshot) (a b : ExecutionTarget) : comparison :=
  match default Eq (SFcompare (load_for snapshot a) (load_for snapshot b)) with
  | Eq => String.compare (debug_name a) (debug_name b)
  | c => c
  end.

(** [Iterator::min_by]: the first of the least elements. *)
Definition min_by {A} (compare : A -> A -> comparison) (l : list A) : option A :=
  match l with
  | [] => None
  | x :: rest => Some (foldl (fun best y => match compare best y with Gt => y | _ => best end) x rest)
  end.

Definition evaluate_targets (request : PlacementRequest) (permitted : list ExecutionTarget)
    : Result PlacementError PlacementDecision :=
  let snapshot := runtime_snapshot request in
  let tiers_2_and_3 :=
    let eligible :=
      List.filter (fun t => SFleb (load_for snapshot t) f32_nine_tenths) permitted in
    selected ← ok_or (min_by (compare_targets snapshot) eligible) NoEligibleTarget;
    Ok {| target := selected;
          reason := if (length permitted =? 1)%nat then ContractConstrained else HeuristicSelected;
          confidence := confidence_for (load_for snapshot selected) |} in
  match target_hint request with
  | Some hint =>
      if decide (hint ∈ permitted)
      then Ok {| target := hint; reason := CallerHintAccepted;
                 confidence := confidence_for (load_for snapshot hint) |}
      else tiers_2_and_3
  | None => tiers_2_and_3
  end.

(** ** The order on loads

    Away from NaN, comparing two floats is comparing their sort keys: class and
    sign first, then exponent and mantissa. *)

Definition f32_key (f : f32) : Z * Z * Z :=
  match f with
  | S754_infinity true => (-2, 0, 0)
  | S754_finite true m e => (-1, - e, Z.neg m)
  | S754_zero _ | S754_nan => (0, 0, 0)
  | S754_finite false m e => (1, e, Z.pos m)
  | S754_infinity false => (2, 0, 0)
  end%Z.

Definition key_lt (a b : Z * Z * Z) : Prop :=
  (a.1.1 < b.1.1 \/ a.1.1 = b.1.1 /\ (a.1.2 < b.1.2 \/ a.1.2 = b.1.2 /\ a.2 < b.2))%Z.

Definition is_nan (f : f32) : bool := match f with S754_nan => true | _ => false end.

Ltac key_solve := unfold key_lt in *; cbn in *; lia.

Lemma SFcompare_key f g c :
  SFcompare f g = Some c ->
  match c with
  | Lt => key_lt (f32_key f) (f32_key g)
  | Eq => f32_key f = f32_key g
  | Gt => key_lt (f32_key g) (f32_key f)
  end.
Proof.
  destruct f as [s1|s1| |s1 m1 e1], g as [s2|s2| |s2 m2 e2]; cbn;
    try (destruct s1); try (destruct s2); intros [= <-]; try done; try key_solve;
    destruct (Z.compare_spec e1 e2); try key_solve; subst; try done;
    change (Pos.compare_cont Eq m1 m2) with (Pos.compare m1 m2);
    destruct (Pos.compare_spec m1 m2); subst; cbn; try done; key_solve.
Qed.

Lemma SFcompare_Some f g : is_nan f = false -> is_nan g = false -> is_Some (SFcompare f g).
Proof. destruct f as [[]|[]| |[]], g as [[]|[]| |[]]; cbn; eauto; done. Qed.

Lemma SFleb_not_nan f g : SFleb f g = true -> is_nan f = false.
Proof. unfold SFleb. destruct f; done. Qed.

(** ** The order on targets *)

Section snapshot.
Context (snapshot : RuntimeSnapshot).

Definition eligible_target (t : ExecutionTarget) : Prop :=
  SFleb (load_for snapshot t) f32_nine_tenths = true.

(** [a] comes strictly before [b]: smaller load, or equal load and smaller name. *)
Definition before (a b : ExecutionTarget) : Prop :=
  key_lt (f32_key (load_for snapshot a)) (f32_key (load_for snapshot b)) \/
  f32_key (load_for snapshot a) = f32_key (load_for snapshot b) /\
  String.compare (debug_name a) (debug_name b) = Lt.

Lemma compare_targets_spec a b :
  eligible_target a -> eligible_target b ->
  match compare_targets snapshot a b with
  | Lt => before a b
  | Eq => a = b
  | Gt => before b a
  end.
Proof.
  intros Ha%SFleb_not_nan Hb%SFleb_not_nan. unfold compare_targets, before.
  destruct (SFcompare_Some _ _ Ha Hb) as [c Hc]. rewrite Hc. apply SFcompare_key in Hc. cbn.
  destruct c; [|by left..].
  destruct a, b; cbn; try done; right; done.
Qed.

Lemma before_trans a b c : before a b -> before b c -> before a c.
Proof.
  unfold before. intros [H1|[E1 N1]] [H2|[E2 N2]].
  - left. key_solve.
  - left. by rewrite <- E2.
  - left. by rewrite E1.
  - right. split; [congruence|]. destruct a, b, c; done.
Qed.

Lemma before_irrefl a : ~ before a a.
Proof. unfold before. intros [H|[_ H]]; [key_solve|by destruct a]. Qed.

(** The element [min_by] returns is in the list and before every other one. *)
Lemma min_by_spec x rest :
  Forall eligible_target (x :: rest) ->
  let best := foldl (fun best y =>
    match compare_targets snapshot best y with Gt => y | _ => best end) x rest in
  best ∈ x :: rest /\ forall y, y ∈ x :: rest -> y = best \/ before best y.
Proof.
  revert x. induction rest as [|y rest IH]; intros x Hall; cbn [foldl].
  - split; [left|]. intros y [->|?%elem_of_nil]%elem_of_cons; [by left|done].
  - apply Forall_cons in Hall as [Hx Hall]. pose proof Hall as [Hy Hrest]%Forall_cons.
    pose proof (compare_targets_spec x y Hx Hy) as Hc.
    destruct (compare_targets snapshot x y).
    + subst y. destruct (IH x) as [Hin Hle]; [by constructor|]. set_solver.
    + destruct (IH x) as [Hin Hle]; [by constructor|]. split; [set_solver|].
      intros z [->|[->|Hz]%elem_of_cons]%elem_of_cons; [apply Hle; left| |apply Hle; by right].
      right. destruct (Hle x) as [<-|H]; [left|done|by eapply before_trans].
    + destruct (IH y) as [Hin Hle]; [by constructor|]. split; [set_solver|].
      intros z [->|Hz]%elem_of_cons; [|by apply Hle].
      right. destruct (Hle y) as [<-|H]; [left|done|by eapply before_trans].
Qed.

Lemma min_by_unique l1 l2 :
  l1 ≡ₚ l2 -> Forall eligible_target l1 ->
  min_by (compare_targets snapshot) l1 = min_by (compare_targets snapshot) l2.
Proof.
  intros Hp Hall. assert (Forall eligible_target l2) as Hall2 by (by rewrite <- Hp).
  destruct l1 as [|x1 r1]; [by apply Permutation_nil in Hp as ->|].
  destruct l2 as [|x2 r2]; [by apply Permutation_sym, Permutation_nil in Hp|].
  cbn. f_equal. destruct (min_by_spec x1 r1 Hall) as [Hin1 Hle1].
  destruct (min_by_spec x2 r2 Hall2) as [Hin2 Hle2]. cbn zeta in *.
  rewrite Hp in Hin1. apply Hle2 in Hin1 as [?|H21]; [done|].
  rewrite <- Hp in Hin2. apply Hle1 in Hin2 as [?|H12]; [done|].
  destruct (before_irrefl _ (before_trans _ _ _ H12 H21)).
Qed.
End snapshot.

Lemma filter_eligible snapshot l :
  Forall (eligible_target snapshot)
    (List.filter (fun t => SFleb (load_for snapshot t) f32_nine_tenths) l).
Proof. apply Forall_forall. intros t Ht%list_elem_of_In%filter_In. apply Ht. Qed.

Lemma elem_of_eligible snapshot l t :
  t ∈ List.filter (fun t => SFleb (load_for snapshot t) f32_nine_tenths) l <->
  t ∈ l /\ eligible_target snapshot t.
Proof. rewrite !list_elem_of_In. apply filter_In. Qed.

(** Whether tier 1 decides. *)
Definition hint_permitted (request : PlacementRequest) (permitted : list ExecutionTarget) : Prop :=
  exists hint, target_hint request = Some hint /\ hint ∈ permitted.

Lemma evaluate_not_hinted request permitted :
  ~ hint_permitted request permitted ->
  evaluate_targets request permitted =
    evaluate_targets {| placement_capability_id := placement_capability_id request;
                        target_hint := None; runtime_snapshot := runtime_snapshot request |} permitted.
Proof.
  intros Hno. unfold evaluate_targets. cbn. destruct (target_hint request) as [h|] eqn:Eh; [|done].
  rewrite decide_False; [done|]. intros Hin. apply Hno. by exists h.
Qed.

Lemma evaluate_unhinted_spec request permitted :
  target_hint request = None ->
  match evaluate_targets request permitted with
  | Ok d => target d ∈ permitted /\ eligible_target (runtime_snapshot request) (target d) /\
      forall t, t ∈ permitted -> eligible_target (runtime_snapshot request) t ->
        t = target d \/ before (runtime_snapshot request) (target d) t
  | Err NoEligibleTarget =>
      forall t, t ∈ permitted -> ~ eligible_target (runtime_snapshot request) t
  end.
Proof.
  intros Eh. unfold evaluate_targets. rewrite Eh.
  pose proof (filter_eligible (runtime_snapshot request) permitted) as Hall.
  pose proof (elem_of_eligible (runtime_snapshot request) permitted) as Hel.
  destruct (List.filter _ permitted) as [|x rest]; cbn.
  - intros t Ht He. by apply (elem_of_nil t), Hel.
  - destruct (min_by_spec _ x rest Hall) as [Hin Hle]. cbn zeta in *.
    apply Hel in Hin as [? ?]. split_and!; [done..|]. intros t Ht He. by apply Hle, Hel.
Qed.

(** ** Properties *)

(** A decision always names a permitted target.  Unless the caller's own permitted
    hint was taken, its load is at most 0.9 and every other permitted target with such a
    load has a larger load, or the same load and a later name. *)
Theorem placement_decision_minimal request permitted d :
  evaluate_targets request permitted = Ok d ->
  target d ∈ permitted /\
  (hint_permitted request permitted /\ target_hint request = Some (target d)
     /\ reason d = CallerHintAccepted \/
   ~ hint_permitted request permitted /\ reason d <> CallerHintAccepted /\
   eligible_target (runtime_snapshot request) (target d) /\
   forall t, t ∈ permitted -> eligible_target (runtime_snapshot request) t ->
     t = target d \/ before (runtime_snapshot request) (target d) t).
Proof.
  intros Hd.
  assert (hint_permitted request permitted \/ ~ hint_permitted request permitted) as [Hh|Hno].
  { unfold hint_permitted. destruct (target_hint request) as [h|]; [|right; by intros (? & ? & _)].
    destruct (decide (h ∈ permitted)); [left; eauto|right; by intros (? & [= <-] & ?)]. }
  - pose proof Hh as (h & Eh & Hin). unfold evaluate_targets in Hd. rewrite Eh in Hd.
    rewrite decide_True in Hd by done. injection Hd as <-. cbn. auto.
  - rewrite (evaluate_not_hinted _ _ Hno) in Hd.
    pose proof (evaluate_unhinted_spec {| placement_capability_id := placement_capability_id request;
      target_hint := None; runtime_snapshot := runtime_snapshot request |} permitted eq_refl) as Hs.
    assert (reason d <> CallerHintAccepted).
    { unfold evaluate_targets in Hd. cbn in Hd. ok_inv. injection Hd as <-. cbn.
      by destruct (_ =? _)%nat. }
    rewrite Hd in Hs. cbn in Hs. tauto.
Qed.

(** The decision does not depend on the order in which the contract lists its
    permitted targets: ties are broken by name, and overloaded or NaN loads are dropped
    before any comparison. *)
Theorem placement_order_independent request l1 l2 :
  l1 ≡ₚ l2 -> evaluate_targets request l1 = evaluate_targets request l2.
Proof.
  intros Hp. unfold evaluate_targets.
  assert (List.filter (fun t => SFleb (load_for (runtime_snapshot request) t) f32_nine_tenths) l1 ≡ₚ
          List.filter (fun t => SFleb (load_for (runtime_snapshot request) t) f32_nine_tenths) l2)
    as Hf.
  { clear -Hp. induction Hp; cbn; [done| |repeat case_match; (done || apply perm_swap)|by etrans].
    case_match; [by constructor|done]. }
  rewrite (min_by_unique _ _ _ Hf (filter_eligible _ _)), (Permutation_length Hp).
  destruct (target_hint request) as [h|]; [|done].
  destruct (decide (h ∈ l1)) as [H1|H1], (decide (h ∈ l2)) as [H2|H2]; try done.
  - destruct H2. by rewrite <- Hp.
  - destruct H1. by rewrite Hp.
Qed.

(** The evaluator fails exactly when the caller's hint is absent or not permitted
    and every permitted target has a load above 0.9 or not comparable with it. *)
Theorem placement_error_iff request permitted :
  evaluate_targets request permitted = Err NoEligibleTarget <->
  ~ hint_permitted request permitted /\
  forall t, t ∈ permitted -> ~ eligible_target (runtime_snapshot request) t.
Proof.
  split.
  - intros He. assert (~ hint_permitted request permitted) as Hno.
    { intros (h & Eh & Hin). unfold evaluate_targets in He. rewrite Eh in He.
      by rewrite decide_True in He. }
    split; [done|]. rewrite (evaluate_not_hinted _ _ Hno) in He.
    pose proof (evaluate_unhinted_spec {| placement_capability_id := placement_capability_id request;
      target_hint := None; runtime_snapshot := runtime_snapshot request |} permitted eq_refl) as Hs.
    by rewrite He in Hs.
  - intros [Hno Hall]. rewrite (evaluate_not_hinted _ _ Hno).
    pose proof (evaluate_unhinted_spec {| placement_capability_id := placement_capability_id request;
      target_hint := None; runtime_snapshot := runtime_snapshot request |} permitted eq_refl) as Hs.
    destruct (evaluate_targets _ permitted) as [d|[]]; [|done].
    destruct Hs as (Hin & He & _). by destruct (Hall _ Hin).
Qed.

(** ** Witnesses *)

Definition sample_request (hint : option ExecutionTarget)
    (loads : list (ExecutionTarget * f32)) : PlacementRequest := {|
  placement_capability_id := "placement.tests.evaluator-subject";
  target_hint := hint;
  runtime_snapshot := {| target_loads := list_to_map loads |} |}.

Definition f32_one_fifth : f32 := S754_finite false 13421773 (-26).

Definition balanced : PlacementRequest :=
  sample_request None [(Local, f32_half); (Cloud, f32_one_fifth); (Edge, f32_one_fifth);
                       (Worker, S754_nan)].

Lemma placement_decision_minimal_witness :
  target {| target := Cloud; reason := HeuristicSelected; confidence := High |}
    ∈ [Local; Worker; Edge; Cloud].
Proof.
  refine (proj1 (placement_decision_minimal balanced [Local; Worker; Edge; Cloud] _ _)).
  vm_compute. reflexivity.
Defined.

Lemma placement_order_independent_witness :
  evaluate_targets balanced [Edge; Cloud] = evaluate_targets balanced [Cloud; Edge].
Proof. apply placement_order_independent. apply perm_swap. Defined.

(** A permitted hint is taken whatever its load, and the reported confidence is
    then [Low] even above the 0.9 the documentation gives as its upper bound. *)
Example placement_hint_ignores_overload :
  evaluate_targets (sample_request (Some Cloud) [(Cloud, S754_infinity false)]) [Local; Cloud]
  = Ok {| target := Cloud; reason := CallerHintAccepted; confidence := Low |}.
Proof. vm_compute. reflexivity. Qed.
