(* ===== verification/Orchestration.v ===== *)
(** * Durable orchestration controls

    [crates/traverse-runtime/src/durable_orchestration.rs]: checkpoints bound to
    governing snapshots, fenced leases, bounded retries and waits, and authorized
    compensation.  The host's persistence is the trait [CheckpointStore], here a
    class; recovery is proved against its laws, which the in-memory store
    satisfies. *)
From S2P Require Import Prelude.

(** ** Data *)

Definition GOVERNING_SPEC : string := "111-durable-dynamic-orchestration".

Record GoverningSnapshots := {
  proposal_digest : string;
  snapshot_manifest_digest : string;
  registry_digest : string;
  policy_digest : string;
  authorization_digest : string }.

#[export] Instance GoverningSnapshots_eq_dec : EqDecision GoverningSnapshots.
Proof. solve_decision. Defined.

Definition is_complete (s : GoverningSnapshots) : bool :=
  forallb (fun digest => negb (is_blank digest))
    [proposal_digest s; snapshot_manifest_digest s; registry_digest s; policy_digest s;
     authorization_digest s].

Record ExecutionLease := {
  lease_owner_id : string;
  fencing_token : N;
  expires_at : N }.

Inductive DurableWaitKind := Event | Schedule | HumanApproval.

Record DurableWait := {
  wait_kind : DurableWaitKind;
  wait_owner_id : string;
  deadline : N;
  cancellation_id : string }.

Record RetryPolicy := {
  retryable : bool;
  max_attempts : N;
  backoff_units : N;
  budget_units : N;
  idempotency_key : string }.

Record CompensationStep := {
  compensation_capability_id : string;
  compensation_authorization_digest : string;
  order : N }.

Record DurableCheckpoint := {
  governing_spec : string;
  execution_id : string;
  snapshots : GoverningSnapshots;
  lease : ExecutionLease;
  completed_node_ids : list string;
  wait : option DurableWait;
  retry : option RetryPolicy;
  compensation : list CompensationStep;
  authentication_tag : string }.

Inductive DurableOrchestrationErrorCode :=
  | InvalidCheckpoint
  | AuthenticationFailed
  | SnapshotMismatch
  | StaleLease
  | WaitExpired
  | Cancelled
  | RetryNotDeclared
  | RetryBudgetExhausted
  | CompensationUnauthorized.

Record DurableOrchestrationError := {
  orchestration_code : DurableOrchestrationErrorCode;
  orchestration_message : string }.

Definition orchestration_error (c : DurableOrchestrationErrorCode) (m : string)
    : DurableOrchestrationError :=
  {| orchestration_code := c; orchestration_message := m |}.

(** ** The store interface *)

Class CheckpointStore (St : Type) := {
  save : DurableCheckpoint -> St -> Result DurableOrchestrationError St;
  load : string -> St -> Result DurableOrchestrationError (option DurableCheckpoint);
  verify : St -> DurableCheckpoint -> bool }.

(** [execution_id:fencing_token:proposal_digest] *)
Definition authenticated_tag (c : DurableCheckpoint) : string :=
  execution_id c +:+ ":" +:+ u64_to_string (fencing_token (lease c)) +:+ ":"
    +:+ proposal_digest (snapshots c).

Definition with_tag (tag : string) (c : DurableCheckpoint) : DurableCheckpoint := {|
  governing_spec := governing_spec c; execution_id := execution_id c; snapshots := snapshots c;
  lease := lease c; completed_node_ids := completed_node_ids c; wait := wait c; retry := retry c;
  compensation := compensation c; authentication_tag := tag |}.

Record MemoryCheckpointStore := { checkpoints : gmap string DurableCheckpoint }.

#[export] Instance memory_store : CheckpointStore MemoryCheckpointStore := {|
  save c s := Ok {| checkpoints := <[execution_id c := c]> (checkpoints s) |};
  load id s := Ok (checkpoints s !! id);
  verify _ c := bool_decide (authentication_tag c = authenticated_tag c) |}.

(** ** Operations *)

Definition validate_checkpoint (c : DurableCheckpoint) : Result DurableOrchestrationError unit :=
  if negb (bool_decide (governing_spec c = GOVERNING_SPEC))
     || is_blank (execution_id c)
     || negb (is_complete (snapshots c))
     || is_blank (lease_owner_id (lease c))
     || (fencing_token (lease c) =? 0)%N
  then Err (orchestration_error InvalidCheckpoint
              "checkpoint is incomplete or uses an unsupported governing spec")
  else Ok tt.

Definition persist_checkpoint {St} `{!CheckpointStore St} (store : St) (c : DurableCheckpoint)
    : Result DurableOrchestrationError St :=
  _ ← validate_checkpoint c;
  save (if bool_decide (authentication_tag c = "") then with_tag (authenticated_tag c) c else c) store.

Definition recover_checkpoint {St} `{!CheckpointStore St} (store : St) (id : string)
    (expected : GoverningSnapshots) (now : N) : Result DurableOrchestrationError DurableCheckpoint :=
  found ← load id store;
  c ← ok_or found (orchestration_error InvalidCheckpoint "checkpoint is absent");
  _ ← validate_checkpoint c;
  _ ← ensure (verify store c)
        (orchestration_error AuthenticationFailed "checkpoint authentication failed");
  _ ← ensure (bool_decide (snapshots c = expected))
        (orchestration_error SnapshotMismatch "checkpoint governing snapshots differ");
  _ ← ensure (now <? expires_at (lease c))%N
        (orchestration_error StaleLease "checkpoint lease has expired");
  Ok c.

Definition with_lease (l : ExecutionLease) (c : DurableCheckpoint) : DurableCheckpoint := {|
  governing_spec := governing_spec c; execution_id := execution_id c; snapshots := snapshots c;
  lease := l; completed_node_ids := completed_node_ids c; wait := wait c; retry := retry c;
  compensation := compensation c; authentication_tag := authentication_tag c |}.

Definition acquire_lease (c : DurableCheckpoint) (owner_id : string) (token expiry : N)
    : Result DurableOrchestrationError DurableCheckpoint :=
  if is_blank owner_id || (token <=? fencing_token (lease c))%N
     || (expiry <=? expires_at (lease c))%N
  then Err (orchestration_error StaleLease
              "lease transfer requires a newer fencing token and expiry")
  else Ok (with_tag "" (with_lease
             {| lease_owner_id := owner_id; fencing_token := token; expires_at := expiry |} c)).

Definition authorize_retry (policy : RetryPolicy) (attempts_used budget_used : N)
    : Result DurableOrchestrationError N :=
  if negb (retryable policy) || is_blank (idempotency_key policy)
  then Err (orchestration_error RetryNotDeclared
              "retryability and idempotency key must be declared")
  else if (max_attempts policy <=? attempts_used)%N || (budget_units policy <=? budget_used)%N
  then Err (orchestration_error RetryBudgetExhausted "retry attempt or budget limit reached")
  else Ok (backoff_units policy).

Definition wake_wait (w : DurableWait) (wake_owner : string) (cancelled : bool) (now : N)
    : Result DurableOrchestrationError unit :=
  if cancelled then Err (orchestration_error Cancelled "wait was cancelled before wake")
  else if (deadline w <? now)%N
  then Err (orchestration_error WaitExpired "wait deadline elapsed before wake")
  else if bool_decide (wake_owner <> wait_owner_id w)
  then Err (orchestration_error StaleLease "wake owner does not own the wait")
  else Ok tt.

(** [ordered.sort_by_key(|step| Reverse(step.order))] *)
Definition later_first (a b : CompensationStep) : bool := (order b <=? order a)%N.

Definition authorized_compensation (steps : list CompensationStep) (digest : string)
    : Result DurableOrchestrationError (list CompensationStep) :=
  if existsb (fun s => negb (bool_decide (compensation_authorization_digest s = digest))
                       || is_blank (compensation_capability_id s)) steps
  then Err (orchestration_error CompensationUnauthorized
              "compensation is not authorized by the execution snapshot")
  else Ok (stable_sort later_first steps).

(** ** What the store promises *)

Class CheckpointStoreLaws (St : Type) `{!CheckpointStore St} : Prop := {
  load_saved (c : DurableCheckpoint) (s s' : St) :
    save c s = Ok s' -> load (execution_id c) s' = Ok (Some c);
  load_other (c : DurableCheckpoint) (s s' : St) id :
    save c s = Ok s' -> id <> execution_id c -> load id s' = load id s;
  verify_tagged (c : DurableCheckpoint) (s : St) :
    verify s (with_tag (authenticated_tag c) c) = true }.

#[export] Instance memory_store_laws : CheckpointStoreLaws MemoryCheckpointStore.
Proof.
  constructor; cbn.
  - intros c s s' [= <-]. cbn. by rewrite lookup_insert_eq.
  - intros c s s' id [= <-] Hne. cbn. by rewrite lookup_insert_ne.
  - intros c s. by apply bool_decide_eq_true.
Qed.

(** A complete checkpoint: it is written for this specification, names its execution,
    carries every governing digest and is owned under a fencing token. *)
Record valid_checkpoint (c : DurableCheckpoint) : Prop := {
  valid_spec : governing_spec c = "111-durable-dynamic-orchestration";
  valid_execution : is_blank (execution_id c) = false;
  valid_proposal : is_blank (proposal_digest (snapshots c)) = false;
  valid_manifest : is_blank (snapshot_manifest_digest (snapshots c)) = false;
  valid_registry : is_blank (registry_digest (snapshots c)) = false;
  valid_policy : is_blank (policy_digest (snapshots c)) = false;
  valid_authorization : is_blank (authorization_digest (snapshots c)) = false;
  valid_owner : is_blank (lease_owner_id (lease c)) = false;
  valid_token : (1 <= fencing_token (lease c))%N }.

Lemma validate_checkpoint_ok c : validate_checkpoint c = Ok tt <-> valid_checkpoint c.
Proof.
  unfold validate_checkpoint. destruct (negb _ || _ || _ || _ || _) eqn:Hg; split; try done.
  - intros [Hs Hx Hp Hm Hr Hy Ha Ho Ht]. unfold is_complete in Hg. cbn [forallb] in Hg.
    rewrite bool_decide_eq_true_2, Hx, Hp, Hm, Hr, Hy, Ha, Ho in Hg by done. cbn in Hg. apply N.eqb_eq in Hg. lia.
  - intros _. unfold is_complete in Hg. cbn [forallb] in Hg.
    repeat (apply orb_false_iff in Hg as [Hg ?]). to_props.
    rewrite N.eqb_neq in *. split; try done. lia.
Qed.

Lemma validate_checkpoint_err c e : validate_checkpoint c = Err e -> ~ valid_checkpoint c.
Proof. intros He Hv%validate_checkpoint_ok. congruence. Qed.

#[export] Instance valid_checkpoint_dec c : Decision (valid_checkpoint c).
Proof.
  destruct (validate_checkpoint c) as [[]|e] eqn:Hv; [left; by apply validate_checkpoint_ok|].
  right. by eapply validate_checkpoint_err.
Defined.

Lemma valid_with_tag tag c : valid_checkpoint c -> valid_checkpoint (with_tag tag c).
Proof. intros []. by split. Qed.

(** What [persist_checkpoint] saves: a checkpoint without a tag gets one. *)
Definition stamped (c : DurableCheckpoint) : DurableCheckpoint :=
  if decide (authentication_tag c = "") then with_tag (authenticated_tag c) c else c.


Lemma acquire_lease_ok c owner token expiry c' :
  acquire_lease c owner token expiry = Ok c' ->
  (fencing_token (lease c) < token)%N /\ (expires_at (lease c) < expiry)%N /\
  is_blank owner = false /\
  lease c' = {| lease_owner_id := owner; fencing_token := token; expires_at := expiry |} /\
  authentication_tag c' = "" /\ execution_id c' = execution_id c /\ snapshots c' = snapshots c.
Proof.
  unfold acquire_lease. destruct (is_blank owner); [done|]. cbn.
  destruct (N.leb_spec token (fencing_token (lease c))); [done|]. cbn.
  destruct (N.leb_spec expiry (expires_at (lease c))); [done|]. by intros [= <-].
Qed.

(** A run of lease transfers: each attempt either succeeds or leaves the
    checkpoint alone; [granted] are the leases handed out, oldest first. *)
Fixpoint lease_run (c : DurableCheckpoint) (attempts : list (string * N * N))
    : list ExecutionLease * DurableCheckpoint :=
  match attempts with
  | [] => ([], c)
  | (owner, token, expiry) :: rest =>
      match acquire_lease c owner token expiry with
      | Ok c' => let r := lease_run c' rest in (lease c' :: r.1, r.2)
      | Err _ => lease_run c rest
      end
  end.

Lemma lease_run_tokens c attempts :
  StronglySorted N.lt (fencing_token <$> (lease_run c attempts).1) /\
  Forall (fun l => fencing_token (lease c) < fencing_token l)%N (lease_run c attempts).1.
Proof.
  revert c. induction attempts as [|[[owner token] expiry] rest IH]; intros c; cbn.
  { split; constructor. }
  destruct (acquire_lease c owner token expiry) as [c'|e] eqn:E; [|apply IH]. cbn.
  apply acquire_lease_ok in E as (Ht & _ & _ & Hl & _).
  destruct (IH c') as [Hs Hall]. rewrite Hl in *. cbn in *. split.
  - constructor; [done|]. apply Forall_fmap. done.
  - constructor; [done|]. eapply Forall_impl; [exact Hall|]. cbn. intros l ?. lia.
Qed.

(** A run of retries under a policy: after each authorized retry the attempt
    count grows by one and the budget by the given cost. *)
Fixpoint authorized_retries (policy : RetryPolicy) (attempts budget : N) (costs : list N) : N :=
  match costs with
  | [] => 0
  | cost :: rest =>
      match authorize_retry policy attempts budget with
      | Ok _ => 1 + authorized_retries policy (attempts + 1) (budget + cost) rest
      | Err _ => 0
      end
  end.

Lemma authorize_retry_ok policy attempts budget backoff :
  authorize_retry policy attempts budget = Ok backoff ->
  (attempts < max_attempts policy)%N /\ (budget < budget_units policy)%N /\
  backoff = backoff_units policy.
Proof.
  unfold authorize_retry. destruct (negb _ || _); [done|].
  destruct (N.leb_spec (max_attempts policy) attempts); [done|]. cbn.
  destruct (N.leb_spec (budget_units policy) budget); [done|]. by intros [= <-].
Qed.

Lemma later_first_total x y : later_first x y = true \/ later_first y x = true.
Proof. unfold later_first. rewrite !N.leb_le. lia. Qed.

Lemma later_first_trans x y z :
  later_first x y = true -> later_first y z = true -> later_first x z = true.
Proof. unfold later_first. rewrite !N.leb_le. lia. Qed.

(** ** Properties *)

Section store.
Context {St : Type} `{!CheckpointStore St}.

Lemma recover_checkpoint_ok (store : St) id expected now c :
  recover_checkpoint store id expected now = Ok c <->
  load id store = Ok (Some c) /\ valid_checkpoint c /\ verify store c = true /\
  snapshots c = expected /\ (now < expires_at (lease c))%N.
Proof.
  rewrite <- validate_checkpoint_ok. unfold recover_checkpoint. split.
  - intros Hr. ok_inv. simplify_eq. by to_props.
  - intros (-> & Hv & Hver & <- & Hlt). cbn. rewrite Hv. cbn. rewrite Hver. cbn.
    rewrite bool_decide_eq_true_2 by done. cbn. by apply N.ltb_lt in Hlt as ->.
Qed.

Lemma persist_checkpoint_ok (store : St) c :
  persist_checkpoint store c =
  match validate_checkpoint c with Ok _ => save (stamped c) store | Err e => Err e end.
Proof.
  unfold persist_checkpoint, stamped. destruct (validate_checkpoint c); cbn [mbind Result_bind]; [|done].
  case_decide; [by rewrite bool_decide_eq_true_2|by rewrite bool_decide_eq_false_2].
Qed.



Context `{!CheckpointStoreLaws St}.



(** A complete, not yet authenticated checkpoint that was persisted in a lawful
    store is recovered under its own snapshots until its lease expires, with the tag the
    persist step stamped and otherwise unchanged. *)
Theorem persist_recover_roundtrip (store store' : St) c now :
  authentication_tag c = "" -> (now < expires_at (lease c))%N ->
  persist_checkpoint store c = Ok store' ->
  recover_checkpoint store' (execution_id c) (snapshots c) now
  = Ok (with_tag (authenticated_tag c) c).
Proof.
  intros Htag Hnow. rewrite persist_checkpoint_ok. destruct (validate_checkpoint c) as [[]|e] eqn:Hv; [|done].
  apply validate_checkpoint_ok in Hv. unfold stamped. rewrite decide_True by done. intros Hs.
  apply recover_checkpoint_ok. split_and!; [by apply load_saved in Hs|by apply valid_with_tag|apply verify_tagged|done|done].
Qed.
End store.

(** Lease ownership is fenced: over any sequence of transfer attempts the granted
    fencing tokens strictly increase, starting above the current one, so no token is ever
    held by two owners. *)
Theorem lease_tokens_increase c attempts :
  StronglySorted N.lt (fencing_token (lease c) :: (fencing_token <$> (lease_run c attempts).1)).
Proof.
  destruct (lease_run_tokens c attempts) as [Hs Hall]. constructor; [done|].
  by apply Forall_fmap.
Qed.

(** Taking over a lease invalidates the stored authentication: the checkpoint
    cannot be recovered from the in-memory store before it is persisted again. *)
Theorem transferred_lease_needs_persist store c owner token expiry c' expected now :
  acquire_lease c owner token expiry = Ok c' ->
  checkpoints store !! execution_id c = Some c' ->
  exists e, recover_checkpoint store (execution_id c) expected now = Err e /\
    (orchestration_code e = InvalidCheckpoint \/ orchestration_code e = AuthenticationFailed).
Proof.
  intros (_ & _ & _ & Hl & Ht & _)%acquire_lease_ok Hin.
  unfold recover_checkpoint. cbn. rewrite Hin. cbn.
  destruct (validate_checkpoint c') as [[]|e] eqn:Hv; cbn.
  - assert (bool_decide (authentication_tag c' = authenticated_tag c') = false) as ->.
    { apply bool_decide_eq_false_2. rewrite Ht. unfold authenticated_tag.
      by destruct (execution_id c'). }
    cbn. eexists. split; [reflexivity|]. by right.
  - exists e. split; [done|]. left. unfold validate_checkpoint in Hv.
    destruct (_ || _ || _ || _ || _); by simplify_eq.
Qed.

(** However the costs fall, a policy authorizes at most [max_attempts] retries in
    total, counting the ones already used. *)
Theorem authorized_retries_bounded policy attempts budget costs :
  (attempts <= max_attempts policy)%N ->
  (attempts + authorized_retries policy attempts budget costs <= max_attempts policy)%N.
Proof.
  revert attempts budget. induction costs as [|cost rest IH]; intros attempts budget Hle;
    cbn [authorized_retries]; [lia|].
  destruct (authorize_retry policy attempts budget) as [b|e] eqn:E; [|lia].
  apply authorize_retry_ok in E as (Hlt & _ & _).
  specialize (IH (attempts + 1)%N (budget + cost)%N ltac:(lia)). lia.
Qed.

(** A wait is woken exactly by its owner, at or before its deadline, when it was not
    cancelled; cancellation is reported before expiry and expiry before ownership. *)
Theorem wake_wait_decision w owner cancelled now :
  match wake_wait w owner cancelled now with
  | Ok _ => cancelled = false /\ (now <= deadline w)%N /\ owner = wait_owner_id w
  | Err e =>
      match orchestration_code e with
      | Cancelled => cancelled = true
      | WaitExpired => cancelled = false /\ (deadline w < now)%N
      | StaleLease => cancelled = false /\ (now <= deadline w)%N /\ owner <> wait_owner_id w
      | _ => False
      end
  end.
Proof.
  unfold wake_wait. destruct cancelled; [done|].
  destruct (N.ltb_spec (deadline w) now); [done|].
  destruct (decide (owner = wait_owner_id w)) as [->|Hne].
  - by rewrite bool_decide_eq_false_2 by auto.
  - by rewrite bool_decide_eq_true_2.
Qed.

(** Compensation runs exactly the declared steps, latest first and, among steps of
    equal order, as declared; it is refused as soon as one step is not bound to the
    authorization snapshot or names no capability. *)
Theorem compensation_reverses steps digest :
  match authorized_compensation steps digest with
  | Ok ordered => ordered ≡ₚ steps /\
      StronglySorted (fun a b => order b <= order a)%N ordered /\
      (forall k, filter (fun s => order s = k) ordered = filter (fun s => order s = k) steps) /\
      Forall (fun s => compensation_authorization_digest s = digest /\
                       is_blank (compensation_capability_id s) = false) steps
  | Err e => orchestration_code e = CompensationUnauthorized /\
      Exists (fun s => compensation_authorization_digest s <> digest \/
                       is_blank (compensation_capability_id s) = true) steps
  end.
Proof.
  unfold authorized_compensation. destruct (existsb _ steps) eqn:Hex; cbn.
  - split; [done|]. apply existsb_exists in Hex as (s & Hin%list_elem_of_In & Hs).
    apply Exists_exists. exists s. split; [done|].
    apply orb_true_iff in Hs as [Hs%negb_true_iff%bool_decide_eq_false|Hs]; auto.
  - split_and!.
    + apply stable_sort_perm.
    + eapply StronglySorted_weaken; [|apply stable_sort_sorted].
      * intros a b. apply N.leb_le.
      * apply later_first_total.
      * apply later_first_trans.
    + intros k. apply stable_sort_stable. intros a b Ha Hb. apply N.leb_le. lia.
    + apply Forall_forall. intros s Hin. rewrite existsb_false_iff in Hex.
      specialize (Hex s Hin). cbn in Hex. by to_props.
Qed.

(** The in-memory store does not compare fencing tokens when it replaces a
    checkpoint: a stale owner can persist its older checkpoint over a newer one, and
    recovery then returns the older lease. *)
Theorem memory_store_accepts_stale_lease (store s1 s2 : MemoryCheckpointStore) newer older now :
  execution_id older = execution_id newer ->
  (fencing_token (lease older) < fencing_token (lease newer))%N ->
  authentication_tag older = "" -> (now < expires_at (lease older))%N ->
  persist_checkpoint store newer = Ok s1 -> valid_checkpoint older ->
  persist_checkpoint s1 older = Ok s2 ->
  recover_checkpoint s2 (execution_id newer) (snapshots older) now
  = Ok (with_tag (authenticated_tag older) older).
Proof.
  intros Hid _ Htag Hnow _ Hv Hp. rewrite <- Hid. by eapply persist_recover_roundtrip.
Qed.

(** ** Witnesses *)

Definition sample_snapshots : GoverningSnapshots := {|
  proposal_digest := "proposal"; snapshot_manifest_digest := "manifest";
  registry_digest := "registry"; policy_digest := "policy"; authorization_digest := "auth" |}.

Definition sample_checkpoint (token : N) : DurableCheckpoint := {|
  governing_spec := GOVERNING_SPEC; execution_id := "exec-1"; snapshots := sample_snapshots;
  lease := {| lease_owner_id := "worker-a"; fencing_token := token; expires_at := 20 |};
  completed_node_ids := ["charge"]; wait := None; retry := None; compensation := [];
  authentication_tag := "" |}.

Definition empty_store : MemoryCheckpointStore := {| checkpoints := ∅ |}.

Definition stored (token : N) (s : MemoryCheckpointStore) : MemoryCheckpointStore := {|
  checkpoints := <["exec-1" := with_tag (authenticated_tag (sample_checkpoint token))
                                 (sample_checkpoint token)]> (checkpoints s) |}.

Lemma persist_recover_roundtrip_witness :
  recover_checkpoint (stored 1 empty_store) "exec-1" sample_snapshots 10
  = Ok (with_tag "exec-1:1:proposal" (sample_checkpoint 1)).
Proof.
  exact (persist_recover_roundtrip empty_store (stored 1 empty_store) (sample_checkpoint 1) 10
    eq_refl eq_refl eq_refl).
Defined.

Definition transferred : DurableCheckpoint :=
  with_lease {| lease_owner_id := "worker-b"; fencing_token := 2; expires_at := 21 |}
    (sample_checkpoint 1).

Lemma transferred_lease_needs_persist_witness :
  exists e, recover_checkpoint {| checkpoints := {["exec-1" := transferred]} |} "exec-1"
    sample_snapshots 10 = Err e.
Proof.
  destruct (transferred_lease_needs_persist {| checkpoints := {["exec-1" := transferred]} |}
    (sample_checkpoint 1) "worker-b" 2 21 transferred sample_snapshots 10 eq_refl
    (lookup_singleton_eq _ _))
    as (e & He & _).
  exists e. exact He.
Defined.

Definition sample_policy : RetryPolicy := {|
  retryable := true; max_attempts := 2; backoff_units := 3; budget_units := 5;
  idempotency_key := "key" |}.

Lemma authorized_retries_bounded_witness :
  (1 + authorized_retries sample_policy 1 0 [1; 1; 1] <= 2)%N.
Proof. exact (authorized_retries_bounded sample_policy 1 0 [1; 1; 1]%N ltac:(done)). Defined.

Lemma memory_store_accepts_stale_lease_witness :
  recover_checkpoint (stored 1 (stored 2 empty_store)) "exec-1" sample_snapshots 10
  = Ok (with_tag "exec-1:1:proposal" (sample_checkpoint 1)).
Proof.
  exact (memory_store_accepts_stale_lease empty_store (stored 2 empty_store)
    (stored 1 (stored 2 empty_store)) (sample_checkpoint 2) (sample_checkpoint 1) 10
    eq_refl eq_refl eq_refl eq_refl eq_refl (proj1 (validate_checkpoint_ok (sample_checkpoint 1)) eq_refl) eq_refl).
Defined.


