(* ===== verification/AppStateMachine.v ===== *)
(** * The application state machine and the submit envelope

    [crates/traverse-runtime-wasm/src/app_sm.rs]: parsing a declared state
    machine, telling the submit forms apart, resolving transitions and the input
    of an invoked capability.  The sessions that run on it are in [Session]. *)
From S2P Require Import Prelude Json.

(** ** Data *)

Inductive AppInvoke :=
  | InvokeCapability (invoke_capability_id input_from : string)
  | InvokeHostConnector (invoke_command : string).

Record AppTransition := { on : string; to : string }.

Record AppState := {
  invoke : option AppInvoke;
  transitions : list AppTransition }.

Record AppStateMachine := {
  initial_state : string;
  states : gmap string AppState }.

Record CapabilityInputError := {
  input_error_code : string;
  input_error_message : string }.

Record AppCommandEnvelope := {
  command : string;
  payload : Value;
  envelope_session_id : option string }.

Record HostConnectorTerminal := {
  terminal_command_id : string;
  terminal_session_id : string;
  lifecycle_event_name : string;
  terminal_payload : Value }.

Record TargetEnvelope := {
  target_id : string;
  input : Value }.

Inductive SubmitDiscrimination :=
  | AppCommand (envelope : AppCommandEnvelope)
  | HostTerminal (terminal : HostConnectorTerminal)
  | TargetForm (envelope : TargetEnvelope)
  | CapabilityOrWorkflow
  | Ambiguous
  | Invalid (message : string).

(** ** Capability input *)

Definition HOST_CONNECTOR_RESULT_PREFIX : string := "host_connector_result.".

(** [str::strip_prefix] *)
Fixpoint strip_prefix (p s : string) : option string :=
  match p, s with
  | EmptyString, _ => Some s
  | String a p', String b s' => if decide (a = b) then strip_prefix p' s' else None
  | String _ _, EmptyString => None
  end.

Definition resolve_capability_input (from : string) (command_payload : Value)
    (last_result : option Value) : Result CapabilityInputError Value :=
  if decide (from = "command.payload") then Ok command_payload
  else
    field ← ok_or (non_blank (strip_prefix HOST_CONNECTOR_RESULT_PREFIX from))
      {| input_error_code := "invalid_input_from";
         input_error_message := "unsupported invoke.input_from '" +:+ from +:+ "'" |};
    result ← ok_or last_result
      {| input_error_code := "invalid_input";
         input_error_message := "input_from references host_connector_result." +:+ field
           +:+ " but no host-connector wait has completed in this session" |};
    value ← ok_or (get field result)
      {| input_error_code := "invalid_input";
         input_error_message := "the most recently completed host-connector result has no field '"
           +:+ field +:+ "'" |};
    Ok (Object [(field, value)]).

(** ** Telling the submit forms apart *)

Definition parse_target_envelope (object : list (string * Value)) : SubmitDiscrimination :=
  if negb (length object =? 2)%nat then Ambiguous
  else match non_blank (member_str "target_id" object) with
  | None => Invalid "target_id must be a non-empty string"
  | Some id =>
      match member "input" object with
      | Some (Object members) => TargetForm {| target_id := id; input := Object members |}
      | _ => Invalid "input must be a JSON object"
      end
  end.

Definition terminal_lifecycle_event (kind : string) (object : list (string * Value))
    : Result string string :=
  if decide (kind = "deadline_fired") then Ok "host_connector_timeout"
  else match member_str "result_class" object with
  | None => Err "host_connector_result requires result_class"
  | Some cls =>
      if decide (cls = "succeeded") then Ok "host_connector_succeeded"
      else if decide (cls = "failed") then Ok "host_connector_failed"
      else if decide (cls = "cancelled") then Ok "host_connector_cancelled"
      else if decide (cls = "timeout") then Ok "host_connector_timeout"
      else Err ("unsupported host_connector_result result_class '" +:+ cls +:+ "'")
  end.

Definition parse_host_connector_terminal (object : list (string * Value)) (kind : string)
    : SubmitDiscrimination :=
  match non_blank (member_str "command_id" object) with
  | None => Invalid "host connector terminal requires a non-empty command_id"
  | Some command_id =>
      match non_blank (member_str "session_id" object) with
      | None => Invalid "host connector terminal requires a non-empty session_id"
      | Some session_id =>
          match terminal_lifecycle_event kind object with
          | Err message => Invalid message
          | Ok event =>
              HostTerminal {|
                terminal_command_id := command_id;
                terminal_session_id := session_id;
                lifecycle_event_name := event;
                terminal_payload :=
                  match member "payload" object, member "artifact_ref" object with
                  | Some payload, _ => payload
                  | None, Some artifact_ref => Object [("artifact_ref", artifact_ref)]
                  | None, None => Object []
                  end |}
          end
      end
  end.

(** The [kind == "app_command"] branch. *)
Definition parse_app_command (object : list (string * Value)) : SubmitDiscrimination :=
  match non_blank (member_str "command" object) with
  | None => Invalid "app_command requires a non-empty command"
  | Some command =>
      let accept sid := AppCommand {|
        command := command;
        payload := default (Object []) (member "payload" object);
        envelope_session_id := sid |} in
      match member "session_id" object with
      | None | Some Null => accept None
      | Some (Str sid) =>
          if is_blank sid then Invalid "session_id must be a non-empty string when present"
          else accept (Some sid)
      | Some _ => Invalid "session_id must be a non-empty string when present"
      end
  end.

Definition discriminate_submit (request : Value) : SubmitDiscrimination :=
  match as_object request with
  | None => Invalid "submit body must be a JSON object"
  | Some object =>
      let kind := member_str "kind" object in
      let has_target := contains_key "target_id" object in
      let has_command := contains_key "command" object in
      if decide (kind = Some "app_command") then
        if has_target then Ambiguous else parse_app_command object
      else if decide (kind = Some "host_connector_result") then
        parse_host_connector_terminal object "host_connector_result"
      else if decide (kind = Some "deadline_fired") then
        parse_host_connector_terminal object "deadline_fired"
      else if has_command && negb has_target && bool_decide (kind = None) then Ambiguous
      else if has_target && contains_key "input" object then parse_target_envelope object
      else CapabilityOrWorkflow
  end.

(** ** Parsing a state machine *)

Definition parse_invoke (value : Value) : Result string AppInvoke :=
  object ← ok_or (as_object value) "invoke must be an object";
  match non_blank (member_str "capability_id" object),
        non_blank (member_str "host_connector" object) with
  | Some _, Some _ => Err "invoke must not declare both capability_id and host_connector"
  | Some capability_id, None =>
      Ok (InvokeCapability capability_id
            (default "command.payload" (member_str "input_from" object)))
  | None, Some command => Ok (InvokeHostConnector command)
  | None, None => Err "invoke requires capability_id or host_connector"
  end.

Definition parse_transition (value : Value) : Result string AppTransition :=
  on_event ← ok_or (get "on" value ≫= as_str) "transition.on is required";
  to_state ← ok_or (get "to" value ≫= as_str) "transition.to is required";
  Ok {| on := on_event; to := to_state |}.

(** [.map(..).collect::<Result<Vec<_>, _>>()] *)
Fixpoint try_map {E A B} (f : A -> Result E B) (l : list A) : Result E (list B) :=
  match l with
  | [] => Ok []
  | x :: rest => y ← f x; ys ← try_map f rest; Ok (y :: ys)
  end.

Definition parse_state (state : Value) : Result string (string * AppState) :=
  id ← ok_or (non_blank (get "id" state ≫= as_str)) "state_machine state id is required";
  inv ← match get "invoke" state with
        | None | Some Null => Ok None
        | Some value => i ← parse_invoke value; Ok (Some i)
        end;
  ts ← try_map parse_transition (default [] (get "transitions" state ≫= as_array));
  Ok (id, {| invoke := inv; transitions := ts |}).

Fixpoint parse_states (l : list Value) (acc : gmap string AppState)
    : Result string (gmap string AppState) :=
  match l with
  | [] => Ok acc
  | value :: rest =>
      parsed ← parse_state value;
      let '(id, state) := parsed in
      match acc !! id with
      | Some _ => Err ("duplicate state id '" +:+ id +:+ "'")
      | None => parse_states rest (<[id := state]> acc)
      end
  end.

Definition parse_state_machine (value : Value) : Result string AppStateMachine :=
  initial ← ok_or (non_blank (get "initial_state" value ≫= as_str))
    "state_machine.initial_state is required";
  listed ← ok_or (get "states" value ≫= as_array) "state_machine.states is required";
  sts ← parse_states listed ∅;
  match sts !! initial with
  | None => Err ("initial_state '" +:+ initial +:+ "' is not declared in states")
  | Some _ => Ok {| initial_state := initial; states := sts |}
  end.

(** ** Transitions *)

Definition wait_blocked (s : AppState) : bool :=
  match invoke s with Some _ => true | None => false end.

Definition find_transition (event : string) (s : AppState) : option string :=
  to <$> find_first (fun t => bool_decide (on t = event)) (transitions s).

Definition resolve_command_transition (machine : AppStateMachine) (current command : string)
    : Result string string :=
  state ← ok_or (states machine !! current) ("unknown current state '" +:+ current +:+ "'");
  if wait_blocked state then
    Err ("session is waiting in state '" +:+ current +:+ "' and does not accept command '"
           +:+ command +:+ "'")
  else
    ok_or (find_transition command state)
      ("no transition for command '" +:+ command +:+ "' from '" +:+ current +:+ "'").

Definition resolve_lifecycle_transition (machine : AppStateMachine) (current event : string)
    : Result string (option string) :=
  state ← ok_or (states machine !! current) ("unknown current state '" +:+ current +:+ "'");
  Ok (find_transition event state).

(** ** Lemmas *)

Lemma resolve_command_ok machine current command next :
  resolve_command_transition machine current command = Ok next ->
  exists st, states machine !! current = Some st /\ invoke st = None /\
    find_transition command st = Some next.
Proof.
  unfold resolve_command_transition, wait_blocked. intros H. ok_inv. exists x.
  destruct (invoke x); [done|]. by ok_inv.
Qed.

Lemma member_two_keys (object : list (string * Value)) k1 k2 k3 :
  length object = 2 -> k1 <> k2 -> k1 <> k3 -> k2 <> k3 ->
  contains_key k1 object = true -> contains_key k2 object = true -> member k3 object = None.
Proof.
  destruct object as [|[a va] [|[b vb] [|]]]; try done. intros _ H12 H13 H23.
  rewrite !contains_key_spec. cbn. rewrite !elem_of_cons.
  intros Ha Hb. repeat case_decide; try done; subst; set_solver.
Qed.

(** A parsed list of states adds exactly the listed states, all of them new. *)
Lemma parse_states_spec l acc res :
  parse_states l acc = Ok res <->
  exists parsed, Forall2 (fun v p => parse_state v = Ok p) l parsed /\
    NoDup parsed.*1 /\ (forall id, id ∈ parsed.*1 -> acc !! id = None) /\
    res = list_to_map parsed ∪ acc.
Proof.
  revert acc. induction l as [|v l IH]; intros acc; cbn.
  - split.
    + intros [= <-]. exists []. cbn. split_and!; [constructor|constructor|..].
      * by intros ? ?%elem_of_nil.
      * by rewrite (left_id_L ∅ (∪)).
    + intros (parsed & Hall & _ & _ & ->). apply Forall2_nil_inv_l in Hall as ->.
      cbn. by rewrite (left_id_L ∅ (∪)).
  - split.
    + intros H. ok_inv. destruct x as [id st]. destruct (acc !! id) eqn:Hid; [done|].
      apply IH in H as (parsed & Hall & Hnd & Hfresh & Hres).
      assert (id ∉ parsed.*1) by (intros Hin%Hfresh; by rewrite lookup_insert_eq in Hin).
      exists ((id, st) :: parsed). cbn. split_and!; [by constructor|by constructor| |].
      * intros i [->|Hi]%elem_of_cons; [done|]. apply Hfresh in Hi.
        by apply lookup_insert_None in Hi as [].
      * rewrite Hres, <- insert_union_l, insert_union_r; [done|].
        by apply not_elem_of_list_to_map_1.
    + intros (parsed & Hall & Hnd & Hfresh & ->).
      apply Forall2_cons_inv_l in Hall as ([id st] & rest & Hv & Hall & ->).
      rewrite Hv. cbn. cbn in Hnd, Hfresh. apply NoDup_cons in Hnd as [Hnin Hnd].
      rewrite (Hfresh id) by set_solver. apply IH. exists rest. split_and!; [done..| |].
      * intros i Hi. rewrite lookup_insert_ne by set_solver. apply Hfresh. set_solver.
      * cbn. rewrite <- insert_union_l, insert_union_r; [done|].
        by apply not_elem_of_list_to_map_1.
Qed.

Lemma strip_prefix_Some p s rest : strip_prefix p s = Some rest <-> s = p +:+ rest.
Proof.
  revert s. induction p as [|a p IH]; intros s; cbn.
  { change ("" +:+ rest) with rest. split; congruence. }
  change (String a p +:+ rest) with (String a (p +:+ rest)).
  destruct s as [|b s]; [done|]. case_decide as Hab; [|split; congruence].
  rewrite IH. split; congruence.
Qed.

(** ** Properties *)

(** A state machine is accepted exactly when its initial state is a
    non-blank string, every listed state parses, no state id is listed twice and
    the initial state is one of them; the machine then holds exactly the listed
    states. *)
Theorem parse_state_machine_iff (value : Value) (machine : AppStateMachine) :
  parse_state_machine value = Ok machine <->
  is_blank (initial_state machine) = false /\
  get "initial_state" value = Some (Str (initial_state machine)) /\
  exists listed parsed,
    get "states" value = Some (Array listed) /\
    Forall2 (fun v p => parse_state v = Ok p) listed parsed /\
    NoDup parsed.*1 /\
    states machine = list_to_map parsed /\
    initial_state machine ∈ parsed.*1.
Proof.
  assert (Hstr : forall o s, o ≫= as_str = Some s <-> o = Some (Str s))
    by (intros [[]|]; cbn; naive_solver).
  assert (Harr : forall o l, o ≫= as_array = Some l <-> o = Some (Array l))
    by (intros [[]|]; cbn; naive_solver).
  unfold parse_state_machine. split.
  - intros H. ok_inv. destruct (x1 !! x) eqn:Hx; [|done]. injection H as <-. cbn.
    apply non_blank_Some in H0 as [Hi Hb]. apply Hstr in Hi. apply Harr in H1.
    apply parse_states_spec in H2 as (parsed & Hall & Hnd & _ & ->).
    rewrite (right_id_L ∅ (∪)) in *. split_and!; [done..|]. exists x0, parsed.
    split_and!; [done..|]. apply elem_of_list_to_map_2 in Hx. apply list_elem_of_fmap.
    by eexists (_, _).
  - destruct machine as [init sts]. cbn.
    intros (Hb & Hi & listed & parsed & Hl & Hall & Hnd & -> & Hin).
    rewrite (proj2 (non_blank_Some _ init)) by (split; [by apply Hstr|done]). cbn.
    rewrite (proj2 (Harr _ _) Hl). cbn.
    rewrite (proj2 (parse_states_spec listed ∅ (list_to_map parsed))); cbn.
    + apply list_elem_of_fmap in Hin as ([? st] & -> & Hin). cbn.
      by rewrite (elem_of_list_to_map_1 _ _ _ Hnd Hin).
    + exists parsed. rewrite (right_id_L ∅ (∪)). split_and!; [done..| |done].
      intros. apply lookup_empty.
Qed.

(** The target form of a submit body is exactly an object with the two
    members [target_id], a non-blank string, and [input], an object: any further
    member (a [kind], a [command], a [session_id]) makes it something else. *)
Theorem discriminate_target_form_iff (request : Value) (envelope : TargetEnvelope) :
  discriminate_submit request = TargetForm envelope <->
  exists object members,
    request = Object object /\ length object = 2 /\
    member "target_id" object = Some (Str (target_id envelope)) /\
    is_blank (target_id envelope) = false /\
    member "input" object = Some (Object members) /\ input envelope = Object members.
Proof.
  destruct envelope as [tid inp]; cbn. split.
  - destruct request as [| | | | |object]; try done. unfold discriminate_submit. cbn [as_object].
    repeat case_decide; unfold parse_app_command, parse_host_connector_terminal;
      repeat case_match; try done.
    unfold parse_target_envelope. destruct (length object =? 2)%nat eqn:Hlen; [|done]. cbn.
    destruct (non_blank _) eqn:Hid; [|done]. destruct (member "input" object) as [[]|] eqn:Hin;
      try done. intros [= <- <-]. apply non_blank_Some in Hid as [Hid Hb].
    apply Nat.eqb_eq in Hlen. exists object. eexists. split_and!; try done.
    unfold member_str in Hid. destruct (member "target_id" object) as [[]|]; naive_solver.
  - intros (object & members & -> & Hlen & Hid & Hb & Hin & ->).
    assert (Ht : contains_key "target_id" object = true) by (unfold contains_key; by rewrite Hid).
    assert (Hi : contains_key "input" object = true) by (unfold contains_key; by rewrite Hin).
    assert (Hk : member_str "kind" object = None)
      by (unfold member_str; by rewrite (member_two_keys _ "target_id" "input")).
    unfold discriminate_submit. cbn [as_object]. rewrite Hk, Ht, Hi. cbn.
    rewrite andb_false_r. cbn. unfold parse_target_envelope. rewrite Hlen. cbn.
    unfold member_str. rewrite Hid. cbn. rewrite Hb, Hin. done.
Qed.

(** An invoked capability receives either the command's payload, or one
    existing, non-blank field of the last completed connector result, under its
    own name and with nothing else; every other [input_from] is an error. *)
Theorem resolve_capability_input_iff from command_payload last_result value :
  resolve_capability_input from command_payload last_result = Ok value <->
  from = "command.payload" /\ value = command_payload \/
  exists field result content,
    from = "host_connector_result." +:+ field /\ is_blank field = false /\
    last_result = Some result /\ get field result = Some content /\
    value = Object [(field, content)].
Proof.
  unfold resolve_capability_input. case_decide as Hfrom.
  - split; [intros [= <-]; by left|]. intros [[_ ->]|(field & ? & ? & -> & _)]; [done|done].
  - split.
    + intros H. ok_inv. injection H as <-. apply non_blank_Some in H0 as [Hp Hb].
      apply strip_prefix_Some in Hp. right. by exists x, x0, x1.
    + intros [[? _]|(field & result & content & -> & Hb & -> & Hget & ->)]; [done|].
      rewrite (proj2 (strip_prefix_Some HOST_CONNECTOR_RESULT_PREFIX _ field)) by done.
      cbn. rewrite Hb. cbn. by rewrite Hget.
Qed.

(** A small machine, used by the examples below and by the session witnesses. *)
Definition upload_machine_json : Value :=
  Object [
    ("initial_state", Str "idle");
    ("states", Array [
      Object [("id", Str "idle");
              ("transitions", Array [Object [("on", Str "pick"); ("to", Str "picking")]])];
      Object [("id", Str "picking"); ("invoke", Object [("host_connector", Str "file.pick")]);
              ("transitions", Array [
                Object [("on", Str "host_connector_succeeded"); ("to", Str "ready")];
                Object [("on", Str "host_connector_cancelled"); ("to", Str "picking")];
                Object [("on", Str "host_connector_failed"); ("to", Str "idle")]])];
      Object [("id", Str "ready");
              ("transitions", Array [Object [("on", Str "run"); ("to", Str "analysing")]])];
      Object [("id", Str "analysing");
              ("invoke", Object [("capability_id", Str "doc.analyse");
                                 ("input_from", Str "host_connector_result.artifact")]);
              ("transitions", Array [
                Object [("on", Str "capability_succeeded"); ("to", Str "idle")]])]])].

Example upload_machine_parses : is_ok (parse_state_machine upload_machine_json) = true.
Proof. vm_compute. reflexivity. Qed.
