(* ===== verification/RuntimeInit.v ===== *)
(** * Initialisation of runtime.wasm

    [crates/traverse-runtime-wasm/src/lib.rs], [parse_init_payload] and the
    header parsers it calls, with the limits of [executor.rs].  The payload is a
    little-endian header length, a JSON header and the capability's artifact. *)
From S2P Require Import Prelude Json AppStateMachine Placement.
From Stdlib Require Import SpecFloat Ascii.

(** ** Data *)

Inductive ServiceType := Stateless | Subscribable | Stateful.

Record EventReference := { event_id : string; event_version : string }.

Record ConnectorRequirement := { required_connector_id : string; required_version : string }.

(** A connector the host activated; every binding the init header declares is
    [ConnectorBinding::Deferred]. *)
Record ActivatedConnector := { activated_connector_id : string; activated_version : string }.

Record NestedExecutionLimits := { nested_fuel : N; max_memory_bytes : N }.

Definition DEFAULT_NESTED_FUEL : N := 10000000.
Definition DEFAULT_NESTED_MEMORY_BYTES : N := 33554432.
Definition MAX_HOST_NESTED_MEMORY_BYTES : N := 1073741824.
Definition MAX_HOST_NESTED_FUEL : N := 2000000000000.

Definition default_nested_limits : NestedExecutionLimits := {|
  nested_fuel := DEFAULT_NESTED_FUEL;
  max_memory_bytes := DEFAULT_NESTED_MEMORY_BYTES |}.

(** [Ord::clamp] *)
Definition clamp (n low high : N) : N :=
  if (n <? low)%N then low else if (high <? n)%N then high else n.

Definition clamped (l : NestedExecutionLimits) : NestedExecutionLimits := {|
  nested_fuel := clamp (nested_fuel l) 1 MAX_HOST_NESTED_FUEL;
  max_memory_bytes := clamp (max_memory_bytes l) 65536 MAX_HOST_NESTED_MEMORY_BYTES |}.

Record CompatibleMode := {
  platforms : list string;
  host_platform : string;
  started : N;
  active : option string }.

Record InitPayload := {
  capability_id : string;
  service_type : ServiceType;
  declared_emits : list EventReference;
  connector_requirements : list ConnectorRequirement;
  deferred_connectors : list ActivatedConnector;
  permitted_targets : list ExecutionTarget;
  host_placement_target : ExecutionTarget;
  init_target_hint : option ExecutionTarget;
  init_runtime_snapshot : RuntimeSnapshot;
  wasm_artifact : Bytes;
  app_state_machine : option AppStateMachine;
  nested_limits : NestedExecutionLimits;
  init_compatible : option CompatibleMode }.

(** The pointer width the crate is compiled for: [usize::MAX]. *)
Class Target := { usize_limit : N }.

(** ** Header fields *)

Definition is_null (v : Value) : bool := match v with Null => true | _ => false end.

(** [filter_map(Value::as_str).filter(|p| !p.is_empty())] *)
Definition non_empty (s : string) : bool := negb (bool_decide (s = "")).

Definition platform_entries (header : Value) : list string :=
  match get "platforms" header ≫= as_array with
  | Some entries => List.filter non_empty (omap as_str entries)
  | None => []
  end.

Definition compatible_header (header : Value) (artifact : Bytes) : Result string CompatibleMode :=
  let declared := platform_entries header in
  _ ← ensure (negb (bool_decide (declared = [])))
        "compatible init requires a non-empty platforms list";
  host ← ok_or (s ← get "host_platform" header ≫= as_str; if non_empty s then Some s else None)
        "compatible init requires host_platform";
  _ ← ensure (bool_decide (artifact = [])) "compatible init must not carry a wasm artifact";
  Ok {| platforms := declared; host_platform := host; started := 0; active := None |}.

Definition parse_compatible_mode `{SerdeJson} (header : Value) (artifact : Bytes)
    : Result string (option CompatibleMode) :=
  match get "execution_mode" header with
  | None | Some Null => Ok None
  | Some (Str mode) =>
      if decide (mode = "wasm") then Ok None
      else if decide (mode = "compatible") then
        m ← compatible_header header artifact; Ok (Some m)
      else Err ("unknown execution_mode: " +:+ String.string_of_list_ascii (to_vec (Str mode)))
  | Some other => Err ("unknown execution_mode: " +:+ String.string_of_list_ascii (to_vec other))
  end.

Definition parse_fuel (members : list (string * Value)) (parsed : NestedExecutionLimits)
    : Result string NestedExecutionLimits :=
  match member "fuel" members with
  | None => Ok parsed
  | Some value =>
      fuel ← ok_or (as_u64 value) "limits.fuel must be a non-negative integer";
      _ ← ensure (negb (fuel =? 0)%N) "limits.fuel must be greater than zero";
      Ok {| nested_fuel := fuel; max_memory_bytes := max_memory_bytes parsed |}
  end.

Definition parse_memory `{Target} (members : list (string * Value)) (parsed : NestedExecutionLimits)
    : Result string NestedExecutionLimits :=
  match member "max_memory_bytes" members with
  | None => Ok parsed
  | Some value =>
      memory ← ok_or (as_u64 value) "limits.max_memory_bytes must be a non-negative integer";
      _ ← ensure (memory <=? usize_limit)%N "limits.max_memory_bytes exceeds platform size";
      _ ← ensure (negb (memory =? 0)%N) "limits.max_memory_bytes must be greater than zero";
      Ok {| nested_fuel := nested_fuel parsed; max_memory_bytes := memory |}
  end.

Definition parse_nested_limits `{Target} (header : Value) : Result string NestedExecutionLimits :=
  match get "limits" header with
  | None | Some Null => Ok default_nested_limits
  | Some limits =>
      members ← ok_or (as_object limits) "limits must be an object";
      with_fuel ← parse_fuel members default_nested_limits;
      parsed ← parse_memory members with_fuel;
      Ok (clamped parsed)
  end.

Definition parse_execution_target (raw : string) : option ExecutionTarget :=
  if decide (raw = "local") then Some Local
  else if decide (raw = "browser") then Some Browser
  else if decide (raw = "edge") then Some Edge
  else if decide (raw = "cloud") then Some Cloud
  else if decide (raw = "worker") then Some Worker
  else if decide (raw = "device") then Some Device
  else None.

Definition default_permitted_targets (host : ExecutionTarget) : list ExecutionTarget := [host].

Definition parse_permitted_entry (entry : Value) : Result string ExecutionTarget :=
  raw ← ok_or (as_str entry) "permitted_targets entries must be strings";
  ok_or (parse_execution_target raw) ("unknown permitted_targets entry: " +:+ raw).

Definition parse_permitted_targets (header : Value) (host : ExecutionTarget)
    : Result string (list ExecutionTarget) :=
  match get "permitted_targets" header ≫= as_array with
  | None => Ok (default_permitted_targets host)
  | Some entries =>
      _ ← ensure (negb (bool_decide (length entries = 0)))
            "permitted_targets must not be empty when provided";
      try_map parse_permitted_entry entries
  end.

(** [f64::from(f32::MAX)] *)
Definition f32_max_as_f64 : spec_float := binary_normalize 53 1024 16777215 104 false.

Definition is_finite_f64 (f : spec_float) : bool :=
  match f with S754_zero _ | S754_finite _ _ _ => true | _ => false end.

(** [n as f32], for a finite double *)
Definition f64_as_f32 (f : spec_float) : f32 :=
  match f with
  | S754_finite negative m e =>
      binary_normalize 24 128 (if negative then Z.neg m else Z.pos m) e negative
  | other => other
  end.

Definition parse_load (value : Value) : option f32 :=
  n ← as_f64 value;
  if (is_finite_f64 n && SFleb f32_zero n && SFleb n f32_max_as_f64)%bool
  then Some (f64_as_f32 n) else None.

Fixpoint parse_loads (members : list (string * Value)) (loads : gmap ExecutionTarget f32)
    : Result string (gmap ExecutionTarget f32) :=
  match members with
  | [] => Ok loads
  | (key, value) :: rest =>
      t ← ok_or (parse_execution_target key) ("unknown runtime_snapshot target: " +:+ key);
      load ← ok_or (parse_load value)
               ("runtime_snapshot." +:+ key +:+ " must be a finite f32-range number");
      parse_loads rest (<[t := load]> loads)
  end.

Definition parse_runtime_snapshot (header : Value) : Result string RuntimeSnapshot :=
  match get "runtime_snapshot" header ≫= as_object with
  | None => Ok {| target_loads := ∅ |}
  | Some members =>
      loads ← parse_loads members ∅;
      Ok {| target_loads := loads |}
  end.

(** The shape of [emits], [connector_requirements] and [deferred_connectors]:
    entries without both strings are dropped. *)
Definition named_versions {A} (make : string -> string -> A) (name_key key : string) (header : Value)
    : list A :=
  omap (fun entry =>
          name ← get name_key entry ≫= as_str;
          version ← get "version" entry ≫= as_str;
          Some (make name version))
       (default [] (get key header ≫= as_array)).

Definition parse_deferred_connectors : Value -> list ActivatedConnector :=
  named_versions Build_ActivatedConnector "connector_id" "deferred_connectors".

(** [.map(|raw| parse_execution_target(raw).ok_or_else(..)).transpose()] *)
Definition parse_optional_target (key : string) (header : Value)
    : Result string (option ExecutionTarget) :=
  match get key header ≫= as_str with
  | None => Ok None
  | Some raw =>
      t ← ok_or (parse_execution_target raw) ("unknown " +:+ key +:+ ": " +:+ raw);
      Ok (Some t)
  end.

Definition parse_service_type (header : Value) : ServiceType :=
  let s := default "stateless" (get "service_type" header ≫= as_str) in
  if decide (s = "subscribable") then Subscribable
  else if decide (s = "stateful") then Stateful
  else Stateless.

(** [u32::from_le_bytes] of the first four bytes, when there are four. *)
Definition header_length (payload : Bytes) : option N :=
  match payload with
  | b0 :: b1 :: b2 :: b3 :: _ =>
      Some (N_of_ascii b0 + 256 * (N_of_ascii b1 + 256 * (N_of_ascii b2 + 256 * N_of_ascii b3)))%N
  | _ => None
  end.

(** [&bytes[4..header_end]] and the bytes after it. *)
Definition split_payload `{Target} (payload : Bytes) : Result string (Bytes * Bytes) :=
  header_len ← ok_or (header_length payload) "init payload shorter than the header-length prefix";
  _ ← ensure (4 + header_len <=? usize_limit)%N "init header length overflows";
  _ ← ensure (4 + header_len <=? N.of_nat (length payload))%N "init header length exceeds payload";
  let body := drop 4 payload in
  Ok (take (N.to_nat header_len) body, drop (N.to_nat header_len) body).

Definition parse_header `{Target, SerdeJson} (header : Value) (artifact : Bytes)
    : Result string InitPayload :=
  machine ← match get "state_machine" header with
            | None | Some Null => Ok None
            | Some value => m ← parse_state_machine value; Ok (Some m)
            end;
  id ← ok_or (match get "capability_id" header with
              | Some v => Some v
              | None => get "app_id" header
              end ≫= as_str)
         "init header missing capability_id (or app_id for app mode)";
  declared_host ← parse_optional_target "host_placement_target" header;
  let host := default Local declared_host in
  permitted ← parse_permitted_targets header host;
  hint ← parse_optional_target "target_hint" header;
  snapshot ← parse_runtime_snapshot header;
  limits ← parse_nested_limits header;
  mode ← parse_compatible_mode header artifact;
  Ok {| capability_id := id;
        service_type := parse_service_type header;
        declared_emits := named_versions Build_EventReference "event_id" "emits" header;
        connector_requirements :=
          named_versions Build_ConnectorRequirement "connector_id" "connector_requirements" header;
        deferred_connectors := parse_deferred_connectors header;
        permitted_targets := permitted;
        host_placement_target := host;
        init_target_hint := hint;
        init_runtime_snapshot := snapshot;
        wasm_artifact := artifact;
        app_state_machine := machine;
        nested_limits := limits;
        init_compatible := mode |}.

Definition parse_init_payload `{Target, SerdeJson} (payload : Bytes) : Result string InitPayload :=
  parts ← split_payload payload;
  let '(header_bytes, artifact) := parts in
  header ← match from_slice header_bytes with
           | Ok v => Ok v
           | Err error => Err ("init header: " +:+ error)
           end;
  parse_header header artifact.

(** ** Properties *)

(** The frame a host builds: [u32::to_le_bytes] of the header's length, then the
    header, then the artifact. *)
Definition le_bytes (n : N) : Bytes :=
  ascii_of_N <$> [n mod 256; n / 256 mod 256; n / 65536 mod 256; n / 16777216 mod 256]%N.

Definition frame (header artifact : Bytes) : Bytes :=
  le_bytes (N.of_nat (length header)) ++ header ++ artifact.

Lemma header_length_le n rest : (n < 4294967296)%N -> header_length (le_bytes n ++ rest) = Some n.
Proof.
  intros Hn. unfold header_length, le_bytes. cbn -[N.modulo N.div N.mul N.add ascii_of_N N_of_ascii].
  rewrite !N_ascii_embedding by (apply N.mod_lt; lia). f_equal.
  replace (n / 65536)%N with (n / 256 / 256)%N by (rewrite N.Div0.div_div; f_equal; lia).
  replace (n / 16777216)%N with (n / 256 / 256 / 256)%N by (rewrite !N.Div0.div_div; f_equal; lia).
  pose proof (N.div_mod n 256). pose proof (N.div_mod (n / 256) 256).
  pose proof (N.div_mod (n / 256 / 256) 256).
  assert (n / 256 / 256 / 256 < 256)%N by (repeat apply N.Div0.div_lt_upper_bound; lia).
  rewrite (N.mod_small (n / 256 / 256 / 256)) by lia. lia.
Qed.

(** A framed payload is taken apart into exactly its header and its
    artifact, whatever bytes they hold, as long as the header's length fits the
    32-bit prefix and the platform's [usize]. *)
Theorem init_frame_roundtrip `{Target, SerdeJson} (header artifact : Bytes) :
  (N.of_nat (length header) < 4294967296)%N ->
  (4 + N.of_nat (length header) <= usize_limit)%N ->
  parse_init_payload (frame header artifact) =
  match from_slice header with
  | Ok value => parse_header value artifact
  | Err error => Err ("init header: " +:+ error)
  end.
Proof.
  intros Hlen Husize. unfold parse_init_payload, split_payload, frame.
  rewrite header_length_le by done. cbn -[N.add].
  rewrite (proj2 (N.leb_le _ _) Husize). cbn -[N.add].
  rewrite (proj2 (N.leb_le _ _)) by (rewrite ?length_app; cbn; rewrite ?length_app; lia).
  cbn -[N.add take drop]. rewrite Nat2N.id. rewrite !drop_0.
  rewrite take_app_length, drop_app_length. by destruct (from_slice header).
Qed.

(** The 64-bit target, and a codec that reads one header. *)
Definition native_target : Target := {| usize_limit := usize_max |}.

Definition sample_header : Value := Object [("capability_id", Str "demo.app");
  ("limits", Object [("fuel", Num (PosInt 5000000000000)); ("max_memory_bytes", Num (PosInt 1))])].

Definition sample_codec (header : Value) : SerdeJson := {|
  parse_syntax := fun bytes =>
    if decide (bytes = String.list_ascii_of_string "{..}") then Ok header else Err "expected value";
  to_vec := fun _ => String.list_ascii_of_string "{..}" |}.

Lemma init_frame_roundtrip_witness :
  parse_init_payload (H := native_target) (H0 := sample_codec sample_header)
    (frame (String.list_ascii_of_string "{..}") (String.list_ascii_of_string "asm")) =
  parse_header (H := native_target) (H0 := sample_codec sample_header)
    sample_header (String.list_ascii_of_string "asm").
Proof.
  apply (init_frame_roundtrip (H := native_target) (H0 := sample_codec sample_header));
    vm_compute; done.
Defined.

Lemma clamp_bounds n low high : (low <= high)%N -> (low <= clamp n low high <= high)%N.
Proof. unfold clamp. destruct (N.ltb_spec n low), (N.ltb_spec high n); lia. Qed.

Definition limits_ok (l : NestedExecutionLimits) : Prop :=
  (1 <= nested_fuel l <= MAX_HOST_NESTED_FUEL)%N /\
  (65536 <= max_memory_bytes l <= MAX_HOST_NESTED_MEMORY_BYTES)%N.

Lemma parse_nested_limits_ok `{Target} header l : parse_nested_limits header = Ok l -> limits_ok l.
Proof.
  unfold parse_nested_limits.
  destruct (get "limits" header) as [[]|]; cbn; try done; intros Hl;
    try (injection Hl as <-; by vm_compute).
  ok_inv. injection Hl as <-. split; apply clamp_bounds; by vm_compute.
Qed.

Lemma try_map_length {E A B} (f : A -> Result E B) l res : try_map f l = Ok res -> length res = length l.
Proof.
  revert res. induction l as [|x l IH]; intros res; cbn; [by intros [= <-]|].
  intros H. ok_inv. injection H as <-. cbn. f_equal. by apply IH.
Qed.

Lemma parse_permitted_targets_ok header host ts : parse_permitted_targets header host = Ok ts -> ts <> [].
Proof.
  unfold parse_permitted_targets. destruct (_ ≫= as_array); [|by intros [= <-]].
  intros H. ok_inv. to_props. apply try_map_length in H. by destruct ts, l.
Qed.

Lemma parse_compatible_mode_ok `{SerdeJson} header artifact m :
  parse_compatible_mode header artifact = Ok (Some m) ->
  artifact = [] /\ platforms m <> [] /\ host_platform m <> "" /\ started m = 0%N /\ active m = None.
Proof.
  unfold parse_compatible_mode. destruct (get "execution_mode" header) as [[]|]; try done.
  repeat case_decide; try done. intros Hm. ok_inv. injection Hm as ->.
  unfold compatible_header in *. ok_inv. simplify_eq. to_props. cbn.
  split_and!; try done.
  match goal with Hb : _ = Some x0 |- _ => apply bind_Some in Hb as (s & _ & Hs) end.
  unfold non_empty in Hs. by case_bool_decide; simplify_eq/=.
Qed.

Definition machine_ok (m : AppStateMachine) : Prop := is_Some (states m !! initial_state m).

Lemma parse_state_machine_ok value m : parse_state_machine value = Ok m -> machine_ok m.
Proof.
  unfold parse_state_machine, machine_ok. intros H. ok_inv.
  destruct (_ !! _) eqn:E; [|done]. injection H as <-. by eexists.
Qed.

(** What a runtime may rely on once initialisation succeeded. *)
Record init_ok (p : InitPayload) : Prop := {
  init_limits : limits_ok (nested_limits p);
  init_targets : permitted_targets p <> [];
  init_machine m : app_state_machine p = Some m -> machine_ok m;
  init_mode m : init_compatible p = Some m ->
    wasm_artifact p = [] /\ platforms m <> [] /\ host_platform m <> "" /\
    started m = 0%N /\ active m = None }.

Lemma parse_init_payload_ok `{Target, SerdeJson} payload parsed :
  parse_init_payload payload = Ok parsed -> init_ok parsed.
Proof.
  unfold parse_init_payload, parse_header. intros Hp. ok_inv. destruct x as [hb artifact].
  ok_inv. injection Hp as <-. split; cbn.
  - by eapply parse_nested_limits_ok.
  - by eapply parse_permitted_targets_ok.
  - intros m ->. destruct (get "state_machine" x) as [[]|]; ok_inv; simplify_eq;
      by eapply parse_state_machine_ok.
  - intros m ->. by eapply parse_compatible_mode_ok.
Qed.

(** An accepted init payload carries fuel and memory limits within the
    absolute ceilings, at least one permitted target, a state machine whose
    initial state exists, and, in compatible mode, a platform list, a host
    platform and no artifact. *)
Theorem parse_init_payload_sound `{Target, SerdeJson} (payload : Bytes) (parsed : InitPayload) :
  parse_init_payload payload = Ok parsed -> init_ok parsed.
Proof. apply parse_init_payload_ok. Qed.

Lemma parse_init_payload_sound_witness :
  exists p, parse_init_payload (H := native_target) (H0 := sample_codec sample_header)
    (frame (String.list_ascii_of_string "{..}") []) = Ok p /\
  nested_limits p = {| nested_fuel := 2000000000000; max_memory_bytes := 65536 |} /\ init_ok p.
Proof.
  eexists. split; [vm_compute; reflexivity|]. split; [reflexivity|].
  apply (parse_init_payload_sound (H := native_target) (H0 := sample_codec sample_header)
    (frame (String.list_ascii_of_string "{..}") [])). vm_compute. reflexivity.
Defined.
