(* ===== verification/Session.v ===== *)
(** * Sessions of runtime.wasm

    [crates/traverse-runtime-wasm/src/lib.rs]: the process manager behind
    [traverse_submit] (app commands, host-connector terminals, capability
    submits and suspended guests), the compatible lifecycle and the exported
    calls, on the initialised state of [RuntimeInit].

    The nested wasmi engine and the JSON codec are parameters.  Events are queued
    as the bytes the codec prints.  Counters that the code increments with [+= 1]
    wrap, as in a release build. *)
From S2P Require Import Prelude Json Canonical AppStateMachine Placement RuntimeInit.
From Stdlib Require Import Ascii.

(** ** Data *)

Record ConnectorInvokeRequest := {
  request_abi_version : string;
  request_connector_id : string;
  request_operation : string;
  request_payload : Value }.

Record ConnectorInvokeResponse := {
  response_abi_version : string;
  response_result_class : string;
  response_payload : Value }.

Record ConnectorInvocationEvidence := {
  evidence_connector_id : string;
  evidence_resolved_version : option string;
  evidence_result_class : string;
  evidence_failure_class : option string }.

Record EmittedEvent := {
  emitted_type : string;
  emitted_version : string;
  emitted_data : Value }.

Record NestedExecutionOutcome := {
  stdout : Bytes;
  emitted_events : list EmittedEvent;
  connector_invocation_evidence : list ConnectorInvocationEvidence }.

Inductive NestedRun (Guest : Type) :=
  | Finished (outcome : NestedExecutionOutcome)
  | Suspended (guest : Guest).
Arguments Finished {Guest} outcome.
Arguments Suspended {Guest} guest.

(** The nested engine: what running, starting and resuming a guest returns. *)
Class NestedEngine := {
  SuspendedExecution : Type;
  suspended_request : SuspendedExecution -> ConnectorInvokeRequest;
  execute_nested : InitPayload -> Bytes -> Result string NestedExecutionOutcome;
  start_nested : InitPayload -> Bytes -> Result string (NestedRun SuspendedExecution);
  resume : SuspendedExecution -> Result string ConnectorInvokeResponse ->
    Result string (NestedRun SuspendedExecution) }.

Inductive AppWaitKind :=
  | WaitCapability (wait_capability_id : string)
  | WaitHostConnector (wait_command : string).

Record AppWait := { wait_command_id : string; kind : AppWaitKind }.

Record AppSession := {
  session_id : string;
  state : string;
  wait : option AppWait }.

Record SubmitResult := {
  result_session_id : string;
  status : string;
  error : option string;
  staged_host_connector : list Value;
  staged_deadlines : list Value;
  pending_connector_invocation : option Value }.

Definition rejected (sid message : string) : SubmitResult := {|
  result_session_id := sid; status := "rejected"; error := Some message;
  staged_host_connector := []; staged_deadlines := []; pending_connector_invocation := None |}.

Definition accepted (sid : string) : SubmitResult := {|
  result_session_id := sid; status := "accepted"; error := None;
  staged_host_connector := []; staged_deadlines := []; pending_connector_invocation := None |}.

Section runtime.
Context `{Target, SerdeJson, NestedEngine}.

(** [RuntimeState]: the fields [traverse_init] fills from the payload are
    [config]; [compatible] starts as the payload's. *)
Record RuntimeState := {
  config : InitPayload;
  suspended : option (string * SuspendedExecution);
  execution_counter : N;
  pending_events : list Bytes;
  app_sessions : gmap string AppSession;
  pending_host_connector : list Value;
  pending_deadlines : list Value;
  last_host_connector_result : option Value;
  compatible : option CompatibleMode }.

(** *** Field updates *)

Definition set_suspended (v : option (string * SuspendedExecution)) (s : RuntimeState) : RuntimeState := {|
  config := config s; suspended := v; execution_counter := execution_counter s;
  pending_events := pending_events s; app_sessions := app_sessions s;
  pending_host_connector := pending_host_connector s; pending_deadlines := pending_deadlines s;
  last_host_connector_result := last_host_connector_result s; compatible := compatible s |}.

Definition set_counter (v : N) (s : RuntimeState) : RuntimeState := {|
  config := config s; suspended := suspended s; execution_counter := v;
  pending_events := pending_events s; app_sessions := app_sessions s;
  pending_host_connector := pending_host_connector s; pending_deadlines := pending_deadlines s;
  last_host_connector_result := last_host_connector_result s; compatible := compatible s |}.

Definition set_events (v : list Bytes) (s : RuntimeState) : RuntimeState := {|
  config := config s; suspended := suspended s; execution_counter := execution_counter s;
  pending_events := v; app_sessions := app_sessions s;
  pending_host_connector := pending_host_connector s; pending_deadlines := pending_deadlines s;
  last_host_connector_result := last_host_connector_result s; compatible := compatible s |}.

Definition set_sessions (v : gmap string AppSession) (s : RuntimeState) : RuntimeState := {|
  config := config s; suspended := suspended s; execution_counter := execution_counter s;
  pending_events := pending_events s; app_sessions := v;
  pending_host_connector := pending_host_connector s; pending_deadlines := pending_deadlines s;
  last_host_connector_result := last_host_connector_result s; compatible := compatible s |}.

Definition set_staged (requests deadlines : list Value) (s : RuntimeState) : RuntimeState := {|
  config := config s; suspended := suspended s; execution_counter := execution_counter s;
  pending_events := pending_events s; app_sessions := app_sessions s;
  pending_host_connector := requests; pending_deadlines := deadlines;
  last_host_connector_result := last_host_connector_result s; compatible := compatible s |}.

Definition set_last_result (v : option Value) (s : RuntimeState) : RuntimeState := {|
  config := config s; suspended := suspended s; execution_counter := execution_counter s;
  pending_events := pending_events s; app_sessions := app_sessions s;
  pending_host_connector := pending_host_connector s; pending_deadlines := pending_deadlines s;
  last_host_connector_result := v; compatible := compatible s |}.

Definition set_compatible (v : option CompatibleMode) (s : RuntimeState) : RuntimeState := {|
  config := config s; suspended := suspended s; execution_counter := execution_counter s;
  pending_events := pending_events s; app_sessions := app_sessions s;
  pending_host_connector := pending_host_connector s; pending_deadlines := pending_deadlines s;
  last_host_connector_result := last_host_connector_result s; compatible := v |}.

(** [pending_events.push_back(..)], for one event and for several in order. *)
Definition push_event (event : Bytes) (s : RuntimeState) : RuntimeState :=
  set_events (pending_events s ++ [event]) s.

Definition push_events (events : list Bytes) (s : RuntimeState) : RuntimeState :=
  set_events (pending_events s ++ events) s.

Definition insert_session (session : AppSession) (s : RuntimeState) : RuntimeState :=
  set_sessions (<[session_id session := session]> (app_sessions s)) s.

(** [if let Some(session) = app_sessions.get_mut(id) { .. }] *)
Definition update_session (sid : string) (f : AppSession -> AppSession) (s : RuntimeState) : RuntimeState :=
  set_sessions (alter f sid (app_sessions s)) s.

(** ** Events and evidence *)

Definition lifecycle_event (type sid : string) (data : Value) : Bytes :=
  to_vec (obj [("type", Str type); ("session_id", Str sid); ("data", data)]).

(** The derived [Serialize] of the evidence. *)
Definition option_value (o : option string) : Value :=
  match o with Some s => Str s | None => Null end.

Definition evidence_value (e : ConnectorInvocationEvidence) : Value :=
  obj [("connector_id", Str (evidence_connector_id e));
       ("resolved_version", option_value (evidence_resolved_version e));
       ("result_class", Str (evidence_result_class e));
       ("failure_class", option_value (evidence_failure_class e))].

Definition with_connector_evidence (result : Value) (evidence : list ConnectorInvocationEvidence) : Value :=
  match evidence with
  | [] => result
  | _ => set_member "connector_invocation_evidence" (Array (evidence_value <$> evidence)) result
  end.

Definition emitted_lifecycle_events (sid : string) (outcome : NestedExecutionOutcome) : list Bytes :=
  (fun e => lifecycle_event (emitted_type e) sid
              (obj [("version", Str (emitted_version e)); ("payload", emitted_data e)]))
    <$> emitted_events outcome.

Definition stdout_json (out : Bytes) : Value :=
  match from_slice out with Ok v => v | Err _ => Str (from_utf8_lossy out) end.

(** ** Capability submits *)

Definition queue_capability_outcome (sid : string) (outcome : NestedExecutionOutcome)
    (s : RuntimeState) : RuntimeState :=
  let result := with_connector_evidence
    (obj [("status", Str "completed"); ("output", stdout_json (stdout outcome))])
    (connector_invocation_evidence outcome) in
  push_event (lifecycle_event "capability_result" sid result)
    (push_events (emitted_lifecycle_events sid outcome) s).

Definition request_value (r : ConnectorInvokeRequest) : Value :=
  obj [("abi_version", Str (request_abi_version r)); ("connector_id", Str (request_connector_id r));
       ("operation", Str (request_operation r)); ("payload", request_payload r)].

Definition finish_capability_step (s : RuntimeState) (sid : string)
    (run : Result string (NestedRun SuspendedExecution)) : RuntimeState * SubmitResult :=
  match run with
  | Ok (Suspended guest) =>
      (set_suspended (Some (sid, guest)) s,
       {| result_session_id := sid; status := "suspended"; error := None;
          staged_host_connector := []; staged_deadlines := [];
          pending_connector_invocation := Some (request_value (suspended_request guest)) |})
  | Ok (Finished outcome) => (queue_capability_outcome sid outcome s, accepted sid)
  | Err message =>
      (push_event (lifecycle_event "capability_result" sid
         (obj [("status", Str "failed"); ("error", Str message)])) s, accepted sid)
  end.

(** The derived [Deserialize] of [ConnectorInvokeResponse]: an object with the
    three members, or an array of exactly the three in order. *)
Definition response_of_value (v : Value) : option ConnectorInvokeResponse :=
  match v with
  | Object members =>
      abi ← member_str "abi_version" members;
      cls ← member_str "result_class" members;
      payload ← member "payload" members;
      Some {| response_abi_version := abi; response_result_class := cls; response_payload := payload |}
  | Array [Str abi; Str cls; payload] =>
      Some {| response_abi_version := abi; response_result_class := cls; response_payload := payload |}
  | _ => None
  end.

Definition parse_connector_answer (request : Bytes) : Result string ConnectorInvokeResponse :=
  match from_slice request with
  | Err _ => Err "connector response is not JSON"
  | Ok answer =>
      if decide (get "kind" answer ≫= as_str = Some "connector_response") then
        match get "failure" answer with
        | Some failure => Err (default "connector failed" (as_str failure))
        | None =>
            ok_or (response_of_value (default Null (get "response" answer)))
              "connector response is malformed"
        end
      else Err "expected a connector_response"
  end.

Definition reason_debug (r : PlacementReason) : string :=
  match r with
  | CallerHintAccepted => "CallerHintAccepted"
  | ContractConstrained => "ContractConstrained"
  | HeuristicSelected => "HeuristicSelected"
  end.

Definition confidence_debug (c : PlacementConfidence) : string :=
  match c with High => "High" | Medium => "Medium" | Low => "Low" end.

(** [execution_counter += 1] *)
Definition wrapping_inc (n : N) : N := ((n + 1) mod (u64_max + 1))%N.

Definition exec_session_id (s : RuntimeState) : string :=
  capability_id (config s) +:+ "-exec-" +:+ u64_to_string (execution_counter s).

Definition submit_capability (s0 : RuntimeState) (request : Bytes) : RuntimeState * SubmitResult :=
  let s := set_counter (wrapping_inc (execution_counter s0)) s0 in
  let sid := exec_session_id s in
  let host := host_placement_target (config s) in
  let placement := evaluate_targets
    {| placement_capability_id := capability_id (config s);
       target_hint := init_target_hint (config s);
       runtime_snapshot := init_runtime_snapshot (config s) |}
    (permitted_targets (config s)) in
  match placement with
  | Ok decision =>
      if decide (target decision = host) then
        let s := push_event (lifecycle_event "capability_invoked" sid
          (obj [("placement_target", Str (debug_name (target decision)));
                ("placement_reason", Str (reason_debug (reason decision)));
                ("placement_confidence", Str (confidence_debug (confidence decision)))])) s in
        finish_capability_step s sid (start_nested (config s) request)
      else
        (push_events
           [lifecycle_event "capability_invoked" sid
              (obj [("placement_target", Str (debug_name (target decision)));
                    ("host_placement_target", Str (debug_name host))]);
            lifecycle_event "capability_result" sid
              (obj [("status", Str "failed");
                    ("error", Str ("placement selected " +:+ debug_name (target decision)
                       +:+ ", but this runtime.wasm host is " +:+ debug_name host))])] s,
         accepted sid)
  | Err NoEligibleTarget =>
      (push_events
         [lifecycle_event "capability_invoked" sid (obj []);
          lifecycle_event "capability_result" sid
            (obj [("status", Str "failed"); ("error", Str "placement failed: NoEligibleTarget")])] s,
       accepted sid)
  end.

(** ** Running the capability of an invoke state *)

(** The lifecycle event's name, whether the guest succeeded, its output and
    evidence. *)
Definition run_nested_capability (s : RuntimeState) (sid : string) (input : Bytes)
    : RuntimeState * (string * bool * Value * list ConnectorInvocationEvidence) :=
  match execute_nested (config s) input with
  | Ok outcome =>
      (push_events (emitted_lifecycle_events sid outcome) s,
       ("capability_succeeded", true, stdout_json (stdout outcome),
        connector_invocation_evidence outcome))
  | Err message => (s, ("capability_failed", false, obj [("error", Str message)], []))
  end.

Definition clear_wait (session : AppSession) : AppSession :=
  {| session_id := session_id session; state := state session; wait := None |}.

Definition advance_to (next : string) (session : AppSession) : AppSession :=
  {| session_id := session_id session; state := next; wait := None |}.

Definition no_matching_transition (event current : string) : Value :=
  obj [("code", Str "no_matching_transition");
       ("message", Str ("no " +:+ event +:+ " transition from '" +:+ current +:+ "'"));
       ("state", Str current)].

Definition invalid_state (message : string) : Value :=
  obj [("code", Str "invalid_state"); ("message", Str message)].

Definition run_capability_invoke_wait (s0 : RuntimeState) (machine : AppStateMachine)
    (sid invoking_state cap_id command_id : string) (payload : Value) : RuntimeState :=
  let s1 := push_event (lifecycle_event "capability_invoked" sid
    (obj [("capability_id", Str cap_id); ("command_id", Str command_id);
          ("state", Str invoking_state)])) s0 in
  let '(s2, (event, succeeded, output, evidence)) := run_nested_capability s1 sid (to_vec payload) in
  match resolve_lifecycle_transition machine invoking_state event with
  | Ok (Some next) =>
      let result := with_connector_evidence
        (obj [("status", Str (if succeeded then "completed" else "failed"));
              ("output", output); ("capability_id", Str cap_id)]) evidence in
      push_event (lifecycle_event (if succeeded then "capability_result" else "error") sid result)
        (update_session sid (advance_to next)
          (push_event (lifecycle_event "state_changed" sid
            (obj [("state", Str next); ("previous_state", Str invoking_state);
                  ("command_id", Str command_id)])) s2))
  | Ok None =>
      update_session sid clear_wait
        (push_event (lifecycle_event "error" sid (no_matching_transition event invoking_state)) s2)
  | Err message => push_event (lifecycle_event "error" sid (invalid_state message)) s2
  end.

(** ** App commands *)

Definition finish_accepted_with_pending (s : RuntimeState) (sid : string) : RuntimeState * SubmitResult :=
  (set_staged [] [] s,
   {| result_session_id := sid; status := "accepted"; error := None;
      staged_host_connector := pending_host_connector s;
      staged_deadlines := pending_deadlines s;
      pending_connector_invocation := None |}).

Definition host_connector_request (cmd command_id sid : string) (payload : Value) : Value :=
  obj [("kind", Str "host_connector_command"); ("schema_version", Str "1.0.0");
       ("command", Str cmd); ("command_id", Str command_id); ("session_id", Str sid);
       ("payload", payload)].

Definition deadline_registration (command_id sid : string) : Value :=
  obj [("kind", Str "deadline_registration"); ("command_id", Str command_id);
       ("session_id", Str sid); ("deadline_ms", Num (PosInt 30000))].

(** The session a command addresses and the state it is in. *)
Definition addressed_session (s : RuntimeState) (machine : AppStateMachine) (requested : option string)
    : string * string :=
  match requested with
  | Some sid =>
      (sid, match app_sessions s !! sid with
            | Some session => state session
            | None => initial_state machine
            end)
  | None =>
      (capability_id (config s) +:+ "-sess-" +:+ u64_to_string (execution_counter s),
       initial_state machine)
  end.

(** The [match invoke] of [submit_app_command]: entering the accepted state. *)
Definition enter_state (s : RuntimeState) (machine : AppStateMachine)
    (sid accepted_state command_id : string) (payload : Value) : RuntimeState :=
  match states machine !! accepted_state ≫= invoke with
  | Some (InvokeCapability cap_id input_from) =>
      match resolve_capability_input input_from payload (last_host_connector_result s) with
      | Ok input =>
          run_capability_invoke_wait
            (insert_session {| session_id := sid; state := accepted_state;
                               wait := Some {| wait_command_id := command_id;
                                               kind := WaitCapability cap_id |} |} s)
            machine sid accepted_state cap_id command_id input
      | Err failure =>
          insert_session {| session_id := sid; state := accepted_state; wait := None |}
            (push_event (lifecycle_event "error" sid
              (obj [("code", Str (input_error_code failure));
                    ("message", Str (input_error_message failure));
                    ("state", Str accepted_state)])) s)
      end
  | Some (InvokeHostConnector cmd) =>
      insert_session {| session_id := sid; state := accepted_state;
                        wait := Some {| wait_command_id := command_id;
                                        kind := WaitHostConnector cmd |} |}
        (set_staged (pending_host_connector s ++ [host_connector_request cmd command_id sid payload])
                    (pending_deadlines s ++ [deadline_registration command_id sid]) s)
  | None => insert_session {| session_id := sid; state := accepted_state; wait := None |} s
  end.

Definition command_id_of (s : RuntimeState) : string :=
  capability_id (config s) +:+ "-cmd-" +:+ u64_to_string (execution_counter s).

Definition submit_app_command (s0 : RuntimeState) (envelope : AppCommandEnvelope)
    : RuntimeState * SubmitResult :=
  match app_state_machine (config s0) with
  | None => (s0, rejected "" "app_state_machine_not_initialized")
  | Some machine =>
      let s := set_counter (saturating_add (execution_counter s0) 1) s0 in
      let '(sid, previous) := addressed_session s machine (envelope_session_id envelope) in
      match resolve_command_transition machine previous (command envelope) with
      | Err message =>
          (push_event (lifecycle_event "error" sid
             (obj [("code", Str "invalid_transition"); ("message", Str message);
                   ("state", Str previous)])) s,
           rejected sid "invalid_transition")
      | Ok next =>
          let command_id := command_id_of s in
          let s := push_event (lifecycle_event "state_changed" sid
            (obj [("state", Str next); ("previous_state", Str previous);
                  ("command", Str (command envelope)); ("command_id", Str command_id)])) s in
          finish_accepted_with_pending (enter_state s machine sid next command_id (payload envelope)) sid
      end
  end.

(** ** Host-connector terminals *)

(** From the point where the terminal matched the session's wait. *)
Definition deliver_terminal (s0 : RuntimeState) (machine : AppStateMachine) (session : AppSession)
    (terminal : HostConnectorTerminal) : RuntimeState :=
  let sid := terminal_session_id terminal in
  let event := lifecycle_event_name terminal in
  let invoking_state := state session in
  let s := push_event (lifecycle_event event sid (terminal_payload terminal))
    (set_last_result (Some (terminal_payload terminal)) s0) in
  match resolve_lifecycle_transition machine invoking_state event with
  | Ok (Some next) =>
      update_session sid (advance_to next)
        (push_event (lifecycle_event "state_changed" sid
          (obj [("state", Str next); ("previous_state", Str invoking_state);
                ("command_id", Str (terminal_command_id terminal)); ("on", Str event)])) s)
  | Ok None =>
      update_session sid clear_wait
        (push_event (lifecycle_event "error" sid (no_matching_transition event invoking_state)) s)
  | Err message => push_event (lifecycle_event "error" sid (invalid_state message)) s
  end.

Definition is_host_wait (w : AppWait) : bool :=
  match kind w with WaitHostConnector _ => true | WaitCapability _ => false end.

Definition submit_host_connector_terminal (s : RuntimeState) (terminal : HostConnectorTerminal)
    : RuntimeState * SubmitResult :=
  let sid := terminal_session_id terminal in
  match app_state_machine (config s) with
  | None => (s, rejected sid "app_state_machine_not_initialized")
  | Some machine =>
      match app_sessions s !! sid with
      | None => (s, accepted sid)
      | Some session =>
          match wait session with
          | None => (s, accepted sid)
          | Some w =>
              if negb (bool_decide (wait_command_id w = terminal_command_id terminal))
              then (s, accepted sid)
              else if negb (is_host_wait w)
              then (s, rejected sid "host_connector_terminal_for_non_host_wait")
              else (deliver_terminal s machine session terminal, accepted sid)
          end
      end
  end.

(** ** Submit *)

Definition submit_target_envelope (s : RuntimeState) (request : Bytes) (envelope : TargetEnvelope)
    : RuntimeState * SubmitResult :=
  if decide (target_id envelope = capability_id (config s)) then
    match parse_canonicalizable request with
    | Err error => (s, rejected "" (display_error error))
    | Ok _ => submit_capability s (to_vec (input envelope))
    end
  else (s, rejected "" "target_not_found").

Definition dispatch (s : RuntimeState) (request : Bytes) : RuntimeState * SubmitResult :=
  match from_slice request with
  | Err _ => submit_capability s request
  | Ok value =>
      match discriminate_submit value with
      | AppCommand envelope => submit_app_command s envelope
      | HostTerminal terminal => submit_host_connector_terminal s terminal
      | Ambiguous => (s, rejected "" "ambiguous_submit")
      | Invalid message => (s, rejected "" message)
      | TargetForm envelope => submit_target_envelope s request envelope
      | CapabilityOrWorkflow => submit_capability s request
      end
  end.

Definition submit (s : RuntimeState) (request : Bytes) : RuntimeState * SubmitResult :=
  match compatible s with
  | Some _ => (s, rejected "" "compatible_lifecycle_required")
  | None =>
      match suspended s with
      | Some (sid, guest) =>
          finish_capability_step (set_suspended None s) sid
            (resume guest (parse_connector_answer request))
      | None => dispatch s request
      end
  end.

(** ** The compatible lifecycle *)

Definition INVALID_INPUT : Z := -2.
Definition INVALID_STATE : Z := -1.

Definition compatible_failure (code : Z) (message : string) : Z * Value :=
  (code, obj [("instance_id", Null); ("status", Str "error"); ("error", Str message)]).

Definition compatible_event (type cap_id instance_id : string) : Bytes :=
  to_vec (obj [("type", Str type); ("capability_id", Str cap_id); ("instance_id", Str instance_id)]).

Definition compatible_target (s : RuntimeState) (request : Value) : Result (Z * Value) CompatibleMode :=
  cap_id ← ok_or (id ← get "capability_id" request ≫= as_str; if non_empty id then Some id else None)
    (compatible_failure INVALID_INPUT "invalid_input: capability_id is required");
  match compatible s with
  | Some mode =>
      if decide (cap_id = capability_id (config s)) then Ok mode
      else Err (compatible_failure INVALID_INPUT "capability_not_compatible")
  | None => Err (compatible_failure INVALID_INPUT "capability_not_compatible")
  end.

Definition set_active (instance : option string) (count : N) (mode : CompatibleMode) : CompatibleMode :=
  {| platforms := platforms mode; host_platform := host_platform mode;
     started := count; active := instance |}.

Definition instance_name (s : RuntimeState) (count : N) : string :=
  capability_id (config s) +:+ "-compatible-" +:+ u64_to_string count.

Definition compatible_start (s : RuntimeState) (request : Bytes) : RuntimeState * (Z * Value) :=
  match parse_canonicalizable request with
  | Err error => (s, compatible_failure INVALID_INPUT (display_error error))
  | Ok body =>
      match get "input" body with
      | None => (s, compatible_failure INVALID_INPUT "invalid_input: input is required")
      | Some input =>
          match to_canonical_json input with
          | Err error => (s, compatible_failure INVALID_INPUT (display_error error))
          | Ok canonical =>
              match compatible_target s body with
              | Err outcome => (s, outcome)
              | Ok mode =>
                  if negb (bool_decide (host_platform mode ∈ platforms mode))
                  then (s, compatible_failure INVALID_STATE "platform_not_supported")
                  else match active mode with
                  | Some _ => (s, compatible_failure INVALID_STATE "compatible_instance_active")
                  | None =>
                      let count := wrapping_inc (started mode) in
                      let id := instance_name s count in
                      (push_event (compatible_event "compatible_started" (capability_id (config s)) id)
                         (set_compatible (Some (set_active (Some id) count mode)) s),
                       (0%Z, obj [("instance_id", Str id); ("status", Str "started");
                                  ("error", Null); ("canonical_input", Str canonical)]))
                  end
              end
          end
      end
  end.

Definition requested_instance (request : Value) : Result (Z * Value) (option string) :=
  match get "instance_id" request with
  | Some Null => Ok None
  | Some (Str id) => Ok (Some id)
  | _ => Err (compatible_failure INVALID_INPUT "invalid_input: instance_id must be a string or null")
  end.

Definition compatible_finish (s : RuntimeState) (request : Bytes) (outcome : string)
    : RuntimeState * (Z * Value) :=
  match from_slice request with
  | Err _ => (s, compatible_failure INVALID_INPUT "invalid_input: request is not valid JSON")
  | Ok body =>
      match requested_instance body with
      | Err failure => (s, failure)
      | Ok requested =>
          match compatible_target s body with
          | Err failure => (s, failure)
          | Ok mode =>
              match active mode with
              | None => (s, compatible_failure INVALID_STATE "compatible_instance_not_active")
              | Some id =>
                  if decide (requested = None \/ requested = Some id) then
                    (push_event (compatible_event ("compatible_" +:+ outcome) (capability_id (config s)) id)
                       (set_compatible (Some (set_active None (started mode) mode)) s),
                     (0%Z, obj [("instance_id", Str id); ("status", Str outcome); ("error", Null)]))
                  else (s, compatible_failure INVALID_STATE "compatible_instance_not_active")
              end
          end
      end
  end.

(** ** The exported calls

    [STATE] is the [option RuntimeState]; each call returns the new state, the
    response body written for the host and the status code.  The descriptor and
    allocation layer (raw pointers) is not modelled. *)

Definition initial_runtime (p : InitPayload) : RuntimeState := {|
  config := p; suspended := None; execution_counter := 0; pending_events := [];
  app_sessions := ∅; pending_host_connector := []; pending_deadlines := [];
  last_host_connector_result := None; compatible := init_compatible p |}.

Definition traverse_init (st : option RuntimeState) (payload : Bytes)
    : option RuntimeState * Value * Z :=
  match parse_init_payload payload with
  | Ok parsed => (Some (initial_runtime parsed), obj [("status", Str "ready"); ("error", Null)], 0%Z)
  | Err message => (st, obj [("status", Str "error"); ("error", Str message)], (-1)%Z)
  end.

Definition submit_response (r : SubmitResult) : Value :=
  let with_requests v := match staged_host_connector r with
    | [] => v | l => set_member "pending_host_connector" (Array l) v end in
  let with_invocation v := match pending_connector_invocation r with
    | Some i => set_member "pending_connector_invocation" i v | None => v end in
  let with_deadlines v := match staged_deadlines r with
    | [] => v | l => set_member "pending_deadlines" (Array l) v end in
  with_deadlines (with_invocation (with_requests
    (obj [("session_id", Str (result_session_id r)); ("status", Str (status r));
          ("error", option_value (error r))]))).

Definition traverse_submit (st : option RuntimeState) (request : Bytes)
    : option RuntimeState * Value * Z :=
  match st with
  | None => (None, obj [("status", Str "error"); ("error", Str "not initialized")], (-1)%Z)
  | Some s =>
      let '(s', r) := submit s request in
      (Some s', submit_response r, match error r with None => 0%Z | Some _ => (-1)%Z end)
  end.

Definition traverse_next_event (st : option RuntimeState) : option RuntimeState * option Bytes :=
  match st with
  | None => (None, None)
  | Some s =>
      match pending_events s with
      | [] => (Some s, None)
      | event :: rest => (Some (set_events rest s), Some event)
      end
  end.

Definition compatible_export (operation : RuntimeState -> Bytes -> RuntimeState * (Z * Value))
    (st : option RuntimeState) (request : Bytes) : option RuntimeState * (Z * Value) :=
  match st with
  | None => (None, compatible_failure INVALID_STATE "not initialized")
  | Some s => let '(s', outcome) := operation s request in (Some s', outcome)
  end.

Definition shutdown_response (st : option RuntimeState) : Value :=
  match st ≫= compatible with
  | Some mode => obj [("status", Str "stopped");
      ("killed_compatible_instances", Array (Str <$> option_list (active mode)))]
  | None => obj [("status", Str "stopped")]
  end.

Definition traverse_shutdown (st : option RuntimeState) : option RuntimeState * Value :=
  (None, shutdown_response st).

(** The calls a host can make, as steps on [STATE]. *)
Inductive bridge_step : relation (option RuntimeState) :=
  | step_init st payload : bridge_step st (traverse_init st payload).1.1
  | step_submit st request : bridge_step st (traverse_submit st request).1.1
  | step_next_event st : bridge_step st (traverse_next_event st).1
  | step_start st request : bridge_step st (compatible_export compatible_start st request).1
  | step_stop st request :
      bridge_step st (compatible_export (fun s r => compatible_finish s r "stopped") st request).1
  | step_kill st request :
      bridge_step st (compatible_export (fun s r => compatible_finish s r "killed") st request).1
  | step_shutdown st : bridge_step st (traverse_shutdown st).1.

Definition bridge_reachable (st : option RuntimeState) : Prop := rtc bridge_step None st.

(** ** The invariant *)

(** A session is filed under its own id, and it waits only for the connector of
    the state it is in. *)
Definition session_ok (p : InitPayload) (sid : string) (session : AppSession) : Prop :=
  session_id session = sid /\
  forall w, wait session = Some w ->
    exists machine st cmd,
      app_state_machine p = Some machine /\ states machine !! state session = Some st /\
      invoke st = Some (InvokeHostConnector cmd) /\ kind w = WaitHostConnector cmd.

Record runtime_ok (s : RuntimeState) : Prop := {
  ok_config : init_ok (config s);
  ok_drained : pending_host_connector s = [] /\ pending_deadlines s = [];
  ok_sessions : map_Forall (session_ok (config s)) (app_sessions s);
  ok_mode mode : compatible s = Some mode ->
    app_sessions s = ∅ /\ suspended s = None /\
    (active mode = None \/ active mode = Some (instance_name s (started mode))) }.

Lemma session_ok_no_wait p sid session :
  session_id session = sid -> wait session = None -> session_ok p sid session.
Proof. intros Hid Hw. split; [done|]. intros w Hw'. congruence. Qed.

Lemma run_capability_frame s machine sid st cap cid payload :
  let s' := run_capability_invoke_wait s machine sid st cap cid payload in
  config s' = config s /\ suspended s' = suspended s /\ compatible s' = compatible s /\
  execution_counter s' = execution_counter s /\
  last_host_connector_result s' = last_host_connector_result s /\
  pending_host_connector s' = pending_host_connector s /\ pending_deadlines s' = pending_deadlines s.
Proof.
  unfold run_capability_invoke_wait, run_nested_capability.
  by destruct (execute_nested _ _); destruct (resolve_lifecycle_transition _ _ _) as [[]|].
Qed.

(** In a declared state the capability always settles: its session leaves the
    wait, whatever the guest did. *)
Lemma run_capability_sessions s machine sid st def cap cid payload :
  states machine !! st = Some def ->
  exists f, app_sessions (run_capability_invoke_wait s machine sid st cap cid payload) =
      alter f sid (app_sessions s) /\
    (f = clear_wait \/ exists next, f = advance_to next).
Proof.
  intros Hst. unfold run_capability_invoke_wait, run_nested_capability, resolve_lifecycle_transition.
  rewrite Hst. cbn.
  destruct (execute_nested _ _); cbn; destruct (find_transition _ def); cbn; eauto.
Qed.

Lemma settled_session_ok p sid f session :
  session_id session = sid -> f = clear_wait \/ (exists next, f = advance_to next) ->
  session_ok p sid (f session).
Proof. by intros ? [->|[next ->]]; apply session_ok_no_wait. Qed.

Lemma enter_state_frame s machine sid next cid payload :
  let s' := enter_state s machine sid next cid payload in
  config s' = config s /\ suspended s' = suspended s /\ compatible s' = compatible s /\
  execution_counter s' = execution_counter s /\
  last_host_connector_result s' = last_host_connector_result s.
Proof.
  unfold enter_state. destruct (_ ≫= invoke) as [[cap from|cmd]|]; [|done..].
  destruct (resolve_capability_input _ _ _) as [v|]; [|done]. cbn zeta.
  edestruct (run_capability_frame (insert_session {| session_id := sid; state := next;
    wait := Some {| wait_command_id := cid; kind := WaitCapability cap |} |} s)
    machine sid next cap cid v) as (-> & -> & -> & -> & -> & _). done.
Qed.

Lemma enter_state_sessions s machine sid next cid payload :
  app_state_machine (config s) = Some machine ->
  exists session,
    app_sessions (enter_state s machine sid next cid payload) = <[sid := session]> (app_sessions s) /\
    session_ok (config s) sid session.
Proof.
  intros Hm. unfold enter_state.
  destruct (states machine !! next) as [def|] eqn:Hdef; cbn.
  2: { eexists. split; [done|]. by apply session_ok_no_wait. }
  destruct (invoke def) as [[cap from|cmd]|] eqn:Hinv.
  - destruct (resolve_capability_input _ _ _).
    + edestruct run_capability_sessions as (f & -> & Hf); [exact Hdef|].
      cbn. rewrite alter_insert_eq. eexists. split; [done|]. by apply settled_session_ok.
    + eexists. split; [done|]. by apply session_ok_no_wait.
  - eexists. split; [done|]. split; [done|]. cbn. intros w [= <-].
    by exists machine, def, cmd.
  - eexists. split; [done|]. by apply session_ok_no_wait.
Qed.

Lemma finish_capability_step_ok s sid run :
  runtime_ok s -> compatible s = None -> runtime_ok (finish_capability_step s sid run).1.
Proof.
  intros [Hc Hd Hs Hmode] Hcomp.
  destruct run as [[outcome|guest]|message]; split; cbn; try done; by rewrite Hcomp.
Qed.

Lemma runtime_ok_events s events :
  runtime_ok s -> runtime_ok (set_events events s).
Proof. by intros [Hc Hd Hs Hmode]; split. Qed.

Lemma runtime_ok_counter s n : runtime_ok s -> runtime_ok (set_counter n s).
Proof. by intros [Hc Hd Hs Hmode]; split. Qed.

Lemma submit_capability_ok s request :
  runtime_ok s -> compatible s = None -> runtime_ok (submit_capability s request).1.
Proof.
  intros Hok Hcomp. unfold submit_capability.
  destruct (evaluate_targets _ _) as [d|[]]; [case_decide|]; cbn zeta.
  - apply finish_capability_step_ok; [|done]. by apply runtime_ok_events, runtime_ok_counter.
  - by apply runtime_ok_events, runtime_ok_counter.
  - by apply runtime_ok_events, runtime_ok_counter.
Qed.

Lemma submit_app_command_ok s envelope :
  runtime_ok s -> compatible s = None -> runtime_ok (submit_app_command s envelope).1.
Proof.
  intros Hok Hcomp. unfold submit_app_command.
  destruct (app_state_machine (config s)) as [machine|] eqn:Hm; [|done].
  destruct (addressed_session _ _ _) as [sid previous].
  destruct (resolve_command_transition _ _ _) as [next|message].
  2: by apply runtime_ok_events, runtime_ok_counter.
  unfold finish_accepted_with_pending. cbn [fst].
  match goal with |- runtime_ok (set_staged _ _ (enter_state ?s0 _ _ _ ?cid ?pl)) =>
    destruct (enter_state_frame s0 machine sid next cid pl) as (Ec & Es & Em & _);
    destruct (enter_state_sessions s0 machine sid next cid pl) as (session & Esess & Hsess);
      [done|] end.
  destruct Hok as [Hc Hd Hs Hmode]. split; cbn; rewrite ?Ec, ?Esess, ?Em; cbn; [done..| |].
  - by apply map_Forall_insert_2.
  - by rewrite Hcomp.
Qed.

(** A terminal is delivered to a session that waits: the session is settled. *)
Lemma deliver_terminal_sessions s machine session terminal def :
  states machine !! state session = Some def ->
  exists f, app_sessions (deliver_terminal s machine session terminal) =
      alter f (terminal_session_id terminal) (app_sessions s) /\
    f = match find_transition (lifecycle_event_name terminal) def with
        | Some next => advance_to next
        | None => clear_wait
        end.
Proof.
  intros Hst. unfold deliver_terminal, resolve_lifecycle_transition. rewrite Hst. cbn.
  destruct (find_transition _ def); cbn; eauto.
Qed.

Lemma deliver_terminal_frame s machine session terminal :
  let s' := deliver_terminal s machine session terminal in
  config s' = config s /\ suspended s' = suspended s /\ compatible s' = compatible s /\
  execution_counter s' = execution_counter s /\
  last_host_connector_result s' = Some (terminal_payload terminal) /\
  pending_host_connector s' = pending_host_connector s /\ pending_deadlines s' = pending_deadlines s.
Proof.
  unfold deliver_terminal. by destruct (resolve_lifecycle_transition _ _ _) as [[]|].
Qed.

Lemma submit_terminal_ok s terminal :
  runtime_ok s -> compatible s = None -> runtime_ok (submit_host_connector_terminal s terminal).1.
Proof.
  intros Hok Hcomp. unfold submit_host_connector_terminal.
  destruct (app_state_machine (config s)) as [machine|] eqn:Hm; [|done].
  destruct (app_sessions s !! _) as [session|] eqn:Hsession; [|done].
  destruct (wait session) as [w|] eqn:Hw; [|done].
  destruct (negb _); [done|]. destruct (negb _); [done|]. cbn [fst].
  destruct (deliver_terminal_frame s machine session terminal) as (Ec & Es & Em & _ & _ & Eh & Ed).
  destruct Hok as [Hc Hd Hs Hmode].
  destruct (Hs _ _ Hsession) as [Hid Hwait]. destruct (Hwait _ Hw) as (m & def & cmd & Hm' & Hdef & _).
  assert (m = machine) as -> by congruence.
  destruct (deliver_terminal_sessions s machine session terminal def Hdef) as (f & Esess & Hf).
  split; rewrite ?Ec, ?Esess, ?Eh, ?Ed; try done.
  - intros sid session' Hlook. apply lookup_alter_Some in Hlook as [(<- & old & Hold & ->)|[? Hold]].
    + assert (old = session) as -> by congruence. apply settled_session_ok; [done|].
      destruct (find_transition _ def); subst f; eauto.
    + by apply Hs.
  - by rewrite Em, Hcomp.
Qed.

Lemma dispatch_ok s request :
  runtime_ok s -> compatible s = None -> runtime_ok (dispatch s request).1.
Proof.
  intros Hok Hcomp. unfold dispatch, submit_target_envelope.
  destruct (from_slice request) as [v|]; [|by apply submit_capability_ok].
  destruct (discriminate_submit v); try done.
  - by apply submit_app_command_ok.
  - by apply submit_terminal_ok.
  - case_decide; [|done]. destruct (parse_canonicalizable request); [|done].
    by apply submit_capability_ok.
  - by apply submit_capability_ok.
Qed.

Lemma submit_ok s request : runtime_ok s -> runtime_ok (submit s request).1.
Proof.
  intros Hok. unfold submit. destruct (compatible s) eqn:Hcomp; [done|].
  destruct (suspended s) as [[sid guest]|] eqn:Hsus; [|by apply dispatch_ok].
  apply finish_capability_step_ok; [|done]. destruct Hok as [Hc Hd Hs Hmode].
  split; cbn; try done. by rewrite Hcomp.
Qed.

Lemma runtime_ok_mode s mode instance count :
  runtime_ok s -> compatible s = Some mode ->
  instance = None \/ instance = Some (instance_name s count) ->
  runtime_ok (set_compatible (Some (set_active instance count mode)) s).
Proof.
  intros [Hc Hd Hs Hmode] Hcomp Hinst. destruct (Hmode _ Hcomp) as (? & ? & _).
  split; cbn; try done. by intros ? [= <-].
Qed.

Lemma compatible_target_ok s body mode : compatible_target s body = Ok mode -> compatible s = Some mode.
Proof.
  unfold compatible_target. intros Ht. ok_inv. destruct (compatible s); [|done].
  case_decide; congruence.
Qed.

Lemma compatible_start_ok s request : runtime_ok s -> runtime_ok (compatible_start s request).1.
Proof.
  intros Hok. unfold compatible_start. repeat (case_match; try done).
  apply runtime_ok_events, runtime_ok_mode; [done|by eapply compatible_target_ok|by right].
Qed.

Lemma compatible_finish_ok s request outcome :
  runtime_ok s -> runtime_ok (compatible_finish s request outcome).1.
Proof.
  intros Hok. unfold compatible_finish. repeat (case_match; try done).
  apply runtime_ok_events, runtime_ok_mode; [done|by eapply compatible_target_ok|by left].
Qed.

Lemma initial_runtime_ok p : init_ok p -> runtime_ok (initial_runtime p).
Proof.
  intros Hp. split; cbn; try done. intros mode Hmode.
  destruct Hp as [_ _ _ Hp]. destruct (Hp _ Hmode) as (_ & _ & _ & _ & ?). by split_and!; [..|left].
Qed.

Lemma bridge_step_ok st st' :
  bridge_step st st' -> (forall s, st = Some s -> runtime_ok s) -> forall s, st' = Some s -> runtime_ok s.
Proof.
  intros Hstep Hok s.
  destruct Hstep as [st payload|st request|st|st request|st request|st request|st].
  - unfold traverse_init. destruct (parse_init_payload payload) eqn:Hp; cbn; [|by apply Hok].
    intros [= <-]. by eapply initial_runtime_ok, parse_init_payload_ok.
  - unfold traverse_submit. destruct st as [s0|]; [|done].
    pose proof (submit_ok s0 request (Hok _ eq_refl)). destruct (submit s0 request). cbn.
    by intros [= <-].
  - destruct st as [s0|]; [|done]. cbn. destruct (pending_events s0); [by apply Hok|].
    cbn. intros [= <-]. by apply runtime_ok_events, Hok.
  - unfold compatible_export. destruct st as [s0|]; [|done].
    pose proof (compatible_start_ok s0 request (Hok _ eq_refl)).
    destruct (compatible_start s0 request). cbn. by intros [= <-].
  - unfold compatible_export. destruct st as [s0|]; [|done].
    pose proof (compatible_finish_ok s0 request "stopped" (Hok _ eq_refl)).
    destruct (compatible_finish s0 request "stopped"). cbn. by intros [= <-].
  - unfold compatible_export. destruct st as [s0|]; [|done].
    pose proof (compatible_finish_ok s0 request "killed" (Hok _ eq_refl)).
    destruct (compatible_finish s0 request "killed"). cbn. by intros [= <-].
  - done.
Qed.

Lemma bridge_reachable_ok s : bridge_reachable (Some s) -> runtime_ok s.
Proof.
  intros Hreach.
  assert (Hinv : forall st, rtc bridge_step None st -> forall s', st = Some s' -> runtime_ok s').
  { apply (rtc_ind_r (fun st => forall s', st = Some s' -> runtime_ok s') None); [done|].
    intros y z _ Hstep IH. by eapply bridge_step_ok. }
  by eapply Hinv.
Qed.

(** A session in a wait is in a declared invoke state. *)
Lemma waiting_session_state s sid session w :
  runtime_ok s -> app_sessions s !! sid = Some session -> wait session = Some w ->
  exists machine def cmd,
    app_state_machine (config s) = Some machine /\ states machine !! state session = Some def /\
    invoke def = Some (InvokeHostConnector cmd) /\ is_host_wait w = true.
Proof.
  intros Hok Hsession Hw. destruct (ok_sessions s Hok _ _ Hsession) as [_ Hwait].
  destruct (Hwait _ Hw) as (machine & def & cmd & ? & ? & ? & Hk).
  exists machine, def, cmd. unfold is_host_wait. by rewrite Hk.
Qed.

(** A command for a session whose state has an invoke, or is not declared, is
    rejected and moves nothing. *)
Lemma blocked_command s envelope machine sid session :
  app_state_machine (config s) = Some machine ->
  envelope_session_id envelope = Some sid -> app_sessions s !! sid = Some session ->
  (forall def, states machine !! state session = Some def -> invoke def <> None) ->
  exists s', submit_app_command s envelope = (s', rejected sid "invalid_transition") /\
    app_sessions s' = app_sessions s /\
    last_host_connector_result s' = last_host_connector_result s.
Proof.
  intros Hm Hsid Hsession Hblocked. unfold submit_app_command. rewrite Hm, Hsid. cbn.
  rewrite Hsession. unfold resolve_command_transition, wait_blocked.
  destruct (states machine !! state session) as [def|] eqn:Hdef; cbn; [|eauto].
  specialize (Hblocked def eq_refl). destruct (invoke def); [cbn; eauto|done].
Qed.

Lemma idle_terminal_ignored s terminal session machine :
  app_state_machine (config s) = Some machine ->
  app_sessions s !! terminal_session_id terminal = Some session -> wait session = None ->
  submit_host_connector_terminal s terminal = (s, accepted (terminal_session_id terminal)).
Proof.
  intros Hm Hsession Hw. unfold submit_host_connector_terminal. by rewrite Hm, Hsession, Hw.
Qed.

(** What a terminal that matches the session's wait does. *)
Lemma matching_terminal s terminal session w :
  runtime_ok s -> app_sessions s !! terminal_session_id terminal = Some session ->
  wait session = Some w -> wait_command_id w = terminal_command_id terminal ->
  exists machine def,
    app_state_machine (config s) = Some machine /\ states machine !! state session = Some def /\
    submit_host_connector_terminal s terminal =
      (deliver_terminal s machine session terminal, accepted (terminal_session_id terminal)) /\
    app_sessions (deliver_terminal s machine session terminal) =
      <[terminal_session_id terminal :=
          {| session_id := terminal_session_id terminal;
             state := default (state session) (find_transition (lifecycle_event_name terminal) def);
             wait := None |}]> (app_sessions s).
Proof.
  intros Hok Hsession Hw Hcid.
  destruct (waiting_session_state _ _ _ _ Hok Hsession Hw) as (machine & def & cmd & Hm & Hdef & _ & Hhost).
  destruct (ok_sessions s Hok _ _ Hsession) as [Hid _].
  exists machine, def. split_and!; [done..| |].
  - unfold submit_host_connector_terminal. rewrite Hm, Hsession, Hw, Hhost, Hcid.
    by rewrite bool_decide_true.
  - destruct (deliver_terminal_sessions s machine session terminal def Hdef) as (f & -> & ->).
    apply map_eq. intros i. destruct (decide (i = terminal_session_id terminal)) as [->|Hne].
    + rewrite lookup_alter_eq, lookup_insert_eq, Hsession. cbn.
      destruct (find_transition _ def); cbn; unfold advance_to, clear_wait; by rewrite Hid.
    + by rewrite lookup_alter_ne, lookup_insert_ne by done.
Qed.
End runtime.
