(* ===== verification/SessionProps.v ===== *)
(** * Properties of the sessions of runtime.wasm

    What the host can rely on across any sequence of exported calls, and three
    behaviours of the session manager that its specification does not describe. *)
From S2P Require Import Prelude Json Canonical AppStateMachine Placement RuntimeInit Session.
From Stdlib Require Import Ascii.

Section properties.
Context `{Target, SerdeJson, NestedEngine}.

(** C27: whatever calls the host makes, the runtime stays well-formed: staged
    connector requests are always handed over with the submit that created them,
    every session is filed under its own id, and a session that waits is in a
    declared host-connector state and waits for exactly that connector (no
    capability wait survives a call). *)
Theorem bridge_invariant (s : RuntimeState) : bridge_reachable (Some s) -> runtime_ok s.
Proof. apply bridge_reachable_ok. Qed.

(** The first terminal that matches a session's wait decides it: the session
    moves along the declared transition (or stays where it is when none is
    declared), its wait ends, the payload becomes the last connector result and
    no other session changes; every later terminal for that session is accepted
    and ignored. *)
Theorem terminal_first_wins (s : RuntimeState) (terminal : HostConnectorTerminal)
    (session : AppSession) (w : AppWait) :
  runtime_ok s ->
  app_sessions s !! terminal_session_id terminal = Some session ->
  wait session = Some w -> wait_command_id w = terminal_command_id terminal ->
  exists s' machine def,
    submit_host_connector_terminal s terminal = (s', accepted (terminal_session_id terminal)) /\
    app_state_machine (config s) = Some machine /\ states machine !! state session = Some def /\
    app_sessions s' =
      <[terminal_session_id terminal :=
          {| session_id := terminal_session_id terminal;
             state := default (state session) (find_transition (lifecycle_event_name terminal) def);
             wait := None |}]> (app_sessions s) /\
    last_host_connector_result s' = Some (terminal_payload terminal) /\
    forall later, terminal_session_id later = terminal_session_id terminal ->
      submit_host_connector_terminal s' later = (s', accepted (terminal_session_id later)).
Proof.
  intros Hok Hsession Hw Hcid.
  destruct (matching_terminal _ _ _ _ Hok Hsession Hw Hcid) as (machine & def & Hm & Hdef & Hsub & Hsess).
  destruct (deliver_terminal_frame s machine session terminal) as (Ec & _ & _ & _ & El & _).
  exists (deliver_terminal s machine session terminal), machine, def. split_and!; [done..|].
  intros later Hlater. eapply idle_terminal_ignored; [by rewrite Ec| |].
  - rewrite Hlater, Hsess. apply lookup_insert_eq.
  - done.
Qed.

(** While a session waits for its connector, every command addressed to it is
    rejected as an invalid transition and neither its session nor any other
    changes. *)
Theorem waiting_session_rejects_commands (s : RuntimeState) (envelope : AppCommandEnvelope)
    (sid : string) (session : AppSession) (w : AppWait) :
  runtime_ok s -> envelope_session_id envelope = Some sid ->
  app_sessions s !! sid = Some session -> wait session = Some w ->
  exists s', submit_app_command s envelope = (s', rejected sid "invalid_transition") /\
    app_sessions s' = app_sessions s.
Proof.
  intros Hok Hsid Hsession Hw.
  destruct (waiting_session_state _ _ _ _ Hok Hsession Hw) as (machine & def & cmd & Hm & Hdef & Hinv & _).
  edestruct (blocked_command s envelope machine sid session) as (s' & Hsub & Hsess & _); [done..| |eauto].
  intros def' Hdef'. congruence.
Qed.

(** An accepted command writes the session it returns and no other; when that
    session ends up waiting, the submit hands the host exactly one connector
    request and one deadline, both carrying the command id and session id of the
    wait, and otherwise it hands over nothing. *)
Theorem accepted_command_staging (s s' : RuntimeState) (envelope : AppCommandEnvelope) (r : SubmitResult) :
  runtime_ok s -> submit_app_command s envelope = (s', r) -> error r = None ->
  let sid := result_session_id r in
  exists session,
    app_sessions s' = <[sid := session]> (app_sessions s) /\
    match wait session with
    | Some w =>
        exists cmd, kind w = WaitHostConnector cmd /\
          staged_host_connector r =
            [host_connector_request cmd (wait_command_id w) sid (payload envelope)] /\
          staged_deadlines r = [deadline_registration (wait_command_id w) sid]
    | None => staged_host_connector r = [] /\ staged_deadlines r = []
    end.
Proof.
  intros Hok Hsub Herr. unfold submit_app_command in Hsub.
  destruct (app_state_machine (config s)) as [machine|] eqn:Hm; [|by simplify_eq].
  destruct (addressed_session _ _ _) as [sid previous].
  destruct (resolve_command_transition _ _ _) as [next|]; [|by simplify_eq].
  unfold finish_accepted_with_pending in Hsub. simplify_eq. cbn.
  destruct (ok_drained s Hok) as [Hh Hd]. unfold enter_state.
  destruct (states machine !! next) as [def|] eqn:Hdef; cbn; [|by eexists; split].
  destruct (invoke def) as [[cap from|cmd]|] eqn:Hinv; [| |by eexists; split].
  - destruct (resolve_capability_input _ _ _) as [v|]; [|by eexists; split].
    edestruct run_capability_sessions as (f & -> & Hf); [exact Hdef|].
    edestruct run_capability_frame as (_ & _ & _ & _ & _ & -> & ->). cbn.
    rewrite alter_insert_eq. eexists. split; [done|].
    by destruct Hf as [->|[? ->]]; cbn; rewrite Hh, Hd.
  - eexists. split; [done|]. cbn. rewrite Hh, Hd. by exists cmd.
Qed.

(** A terminal whose transition leads into a state that itself declares an
    invoke leaves the session there without a wait: nothing is invoked or
    staged, and from then on every command to the session is rejected and every
    terminal ignored. *)
Theorem terminal_into_invoke_is_final (s : RuntimeState) (terminal : HostConnectorTerminal)
    (session : AppSession) (w : AppWait) (machine : AppStateMachine) (def next_def : AppState)
    (next : string) :
  runtime_ok s ->
  app_sessions s !! terminal_session_id terminal = Some session ->
  wait session = Some w -> wait_command_id w = terminal_command_id terminal ->
  app_state_machine (config s) = Some machine -> states machine !! state session = Some def ->
  find_transition (lifecycle_event_name terminal) def = Some next ->
  states machine !! next = Some next_def -> invoke next_def <> None ->
  exists s',
    submit_host_connector_terminal s terminal = (s', accepted (terminal_session_id terminal)) /\
    app_sessions s' !! terminal_session_id terminal =
      Some {| session_id := terminal_session_id terminal; state := next; wait := None |} /\
    (forall envelope, envelope_session_id envelope = Some (terminal_session_id terminal) ->
      exists s'', submit_app_command s' envelope =
          (s'', rejected (terminal_session_id terminal) "invalid_transition") /\
        app_sessions s'' = app_sessions s') /\
    (forall later, terminal_session_id later = terminal_session_id terminal ->
      submit_host_connector_terminal s' later = (s', accepted (terminal_session_id later))).
Proof.
  intros Hok Hsession Hw Hcid Hm Hdef Hnext Hnd Hinv.
  destruct (matching_terminal _ _ _ _ Hok Hsession Hw Hcid)
    as (machine' & def' & Hm' & Hdef' & Hsub & Hsess).
  assert (machine' = machine) as -> by congruence. assert (def' = def) as -> by congruence.
  rewrite Hnext in Hsess. cbn in Hsess.
  destruct (deliver_terminal_frame s machine session terminal) as (Ec & _).
  exists (deliver_terminal s machine session terminal). split_and!; [done| | |].
  - rewrite Hsess. apply lookup_insert_eq.
  - intros envelope Henv.
    edestruct (blocked_command (deliver_terminal s machine session terminal) envelope machine)
      as (s'' & ? & ? & _); [by rewrite Ec|exact Henv|rewrite Hsess; apply lookup_insert_eq| |eauto].
    intros d Hd. cbn in Hd. congruence.
  - intros later Hlater. eapply idle_terminal_ignored; [by rewrite Ec| |].
    + rewrite Hlater, Hsess. apply lookup_insert_eq.
    + done.
Qed.

(** A compatible lifecycle call either fails with a negative status and
    changes nothing, or succeeds: a start only when no instance runs and on a
    listed platform, and it makes a newly numbered instance the active one; a
    stop or kill only on the active instance, which it ends. *)
Theorem compatible_calls_atomic (s : RuntimeState) (request : Bytes) (outcome : string) :
  (let '(s', (code, _)) := compatible_start s request in
   code <> 0%Z /\ s' = s \/
   code = 0%Z /\ exists mode, compatible s = Some mode /\ active mode = None /\
     host_platform mode ∈ platforms mode /\
     compatible s' = Some (set_active (Some (instance_name s (wrapping_inc (started mode))))
                             (wrapping_inc (started mode)) mode)) /\
  (let '(s', (code, _)) := compatible_finish s request outcome in
   code <> 0%Z /\ s' = s \/
   code = 0%Z /\ exists mode id, compatible s = Some mode /\ active mode = Some id /\
     compatible s' = Some (set_active None (started mode) mode)).
Proof.
  assert (Hfail : forall s' body message code,
    compatible_target s' body = Err (code, message) -> code <> 0%Z).
  { intros s' body message code. unfold compatible_target, compatible_failure.
    match goal with |- context [ok_or ?o _] => destruct o end; cbn; [|intros ?; by simplify_eq].
    destruct (compatible s'); [case_decide|]; intros ?; by simplify_eq. }
  split.
  - unfold compatible_start.
    destruct (parse_canonicalizable request) as [body|]; [|by left].
    destruct (get "input" body); [|by left]. destruct (to_canonical_json v); [|by left].
    destruct (compatible_target s body) as [mode|[code message]] eqn:Ht; [|left; eauto].
    case_bool_decide as Hp; cbn; [|by left]. destruct (active mode) eqn:Ha; [by left|].
    right. split; [done|]. exists mode. apply compatible_target_ok in Ht. by split_and!.
  - unfold compatible_finish, requested_instance.
    destruct (from_slice request) as [body|]; [|by left].
    destruct (get "instance_id" body) as [[]|]; try (by left); cbn;
      (destruct (compatible_target s body) as [mode|[code message]] eqn:Ht; [|left; eauto]);
      (destruct (active mode) eqn:Ha; [|by left]);
      (case_decide; [|by left]); right; split; try done;
      apply compatible_target_ok in Ht; by eexists _, _.
Qed.
End properties.

(** ** A concrete host

    A codec that knows the requests of the traces below and prints values
    plainly, and an engine whose guests echo their input. *)

Fixpoint render (v : Value) : string :=
  match v with
  | Null => "null"
  | Bool b => if b then "true" else "false"
  | Num (PosInt n) => pretty n
  | Num _ => "?"
  | Str s => "'" +:+ s +:+ "'"
  | Array items => "[" +:+ String.concat "," (List.map render items) +:+ "]"
  | Object members =>
      "{" +:+ String.concat "," (List.map (fun m => "'" +:+ m.1 +:+ "':" +:+ render m.2) members) +:+ "}"
  end.

Definition command_json (cmd : string) (sid : list (string * Value)) : Value :=
  obj ([("kind", Str "app_command"); ("command", Str cmd)] ++ sid).

Definition terminal_json (sid command_id content : string) : Value :=
  obj [("kind", Str "host_connector_result"); ("result_class", Str "succeeded");
       ("session_id", Str sid); ("command_id", Str command_id);
       ("payload", obj [("artifact", Str content)])].

Definition demo_requests : list (string * Value) :=
  [("init", obj [("capability_id", Str "demo.app"); ("state_machine", upload_machine_json)]);
   ("bob picks", command_json "pick" [("session_id", Str "bob")]);
   ("bob picked", terminal_json "bob" "demo.app-cmd-1" "bob's file");
   ("alice picks", command_json "pick" [("session_id", Str "alice")]);
   ("alice picked", terminal_json "alice" "demo.app-cmd-2" "alice's file");
   ("bob runs", command_json "run" [("session_id", Str "bob")]);
   ("named pick", command_json "pick" [("session_id", Str "demo.app-sess-2")]);
   ("anonymous pick", command_json "pick" [])].

#[local] Instance demo_target : Target := {| usize_limit := usize_max |}.

#[local] Instance demo_codec : SerdeJson := {|
  parse_syntax := fun bytes =>
    ok_or (member (String.string_of_list_ascii bytes) demo_requests) "expected value";
  to_vec := fun v => String.list_ascii_of_string (render v) |}.

#[local] Instance demo_engine : NestedEngine := {|
  SuspendedExecution := unit;
  suspended_request := fun _ => {| request_abi_version := "1.0.0"; request_connector_id := "c";
    request_operation := "op"; request_payload := Null |};
  execute_nested := fun _ input =>
    Ok {| stdout := input; emitted_events := []; connector_invocation_evidence := [] |};
  start_nested := fun _ input =>
    Ok (Finished {| stdout := input; emitted_events := []; connector_invocation_evidence := [] |});
  resume := fun _ _ => Err "closed" |}.

(** The state after an init and a sequence of submits. *)
Definition run_submits (requests : list string) : option RuntimeState :=
  foldl (fun st request => (traverse_submit st (String.list_ascii_of_string request)).1.1)
    (traverse_init None (frame (String.list_ascii_of_string "init") [])).1.1 requests.

Lemma run_submits_reachable requests : bridge_reachable (run_submits requests).
Proof.
  unfold run_submits, bridge_reachable.
  assert (Hinit : rtc bridge_step None
    (traverse_init None (frame (String.list_ascii_of_string "init") [])).1.1)
    by (apply rtc_once; constructor).
  revert Hinit. generalize (traverse_init None (frame (String.list_ascii_of_string "init") [])).1.1.
  induction requests as [|r rest IH]; intros st Hst; [done|]. cbn [foldl]. apply IH.
  eapply rtc_r; [exact Hst|constructor].
Qed.

(** The session table, as printable data. *)
Definition session_states (st : option RuntimeState) (sid : string) : option (string * option string) :=
  s ← st; session ← app_sessions s !! sid; Some (state session, wait_command_id <$> wait session).

(** Bob's runtime while his file is being picked, and the terminal for it. *)
Definition bob_waiting : RuntimeState :=
  default (initial_runtime {| capability_id := ""; service_type := Stateless; declared_emits := [];
    connector_requirements := []; deferred_connectors := []; permitted_targets := [];
    host_placement_target := Local; init_target_hint := None;
    init_runtime_snapshot := {| target_loads := ∅ |}; wasm_artifact := [];
    app_state_machine := None; nested_limits := default_nested_limits; init_compatible := None |})
    (run_submits ["bob picks"]).

Lemma bob_waiting_ok : runtime_ok bob_waiting.
Proof.
  apply bridge_reachable_ok. assert (Hrun : run_submits ["bob picks"] = Some bob_waiting)
    by (vm_compute; reflexivity).
  rewrite <- Hrun. apply run_submits_reachable.
Qed.

Lemma bridge_invariant_witness :
  session_states (Some bob_waiting) "bob" = Some ("picking", Some "demo.app-cmd-1") /\
  runtime_ok bob_waiting.
Proof.
  split; [vm_compute; reflexivity|]. apply bridge_invariant.
  assert (Hrun : run_submits ["bob picks"] = Some bob_waiting) by (vm_compute; reflexivity).
  rewrite <- Hrun. apply run_submits_reachable.
Defined.

Definition bob_picked : HostConnectorTerminal := {|
  terminal_command_id := "demo.app-cmd-1"; terminal_session_id := "bob";
  lifecycle_event_name := "host_connector_succeeded";
  terminal_payload := obj [("artifact", Str "bob's file")] |}.

Definition bob_session : AppSession := {|
  session_id := "bob"; state := "picking";
  wait := Some {| wait_command_id := "demo.app-cmd-1"; kind := WaitHostConnector "file.pick" |} |}.

Lemma terminal_first_wins_witness :
  exists s', submit_host_connector_terminal bob_waiting bob_picked = (s', accepted "bob") /\
    forall later, terminal_session_id later = "bob" ->
      submit_host_connector_terminal s' later = (s', accepted (terminal_session_id later)).
Proof.
  destruct (terminal_first_wins bob_waiting bob_picked bob_session
    {| wait_command_id := "demo.app-cmd-1"; kind := WaitHostConnector "file.pick" |}
    bob_waiting_ok ltac:(vm_compute; reflexivity) eq_refl eq_refl)
    as (s' & machine & def & Hsub & _ & _ & _ & _ & Hlater).
  exists s'. split; [exact Hsub|exact Hlater].
Defined.

Lemma waiting_session_rejects_commands_witness :
  exists s', submit_app_command bob_waiting
    {| command := "run"; payload := Null; envelope_session_id := Some "bob" |} =
      (s', rejected "bob" "invalid_transition") /\ app_sessions s' = app_sessions bob_waiting.
Proof.
  apply (waiting_session_rejects_commands bob_waiting
    {| command := "run"; payload := Null; envelope_session_id := Some "bob" |} "bob" bob_session
    {| wait_command_id := "demo.app-cmd-1"; kind := WaitHostConnector "file.pick" |}
    bob_waiting_ok eq_refl ltac:(vm_compute; reflexivity) eq_refl).
Defined.

Lemma accepted_command_staging_witness :
  let '(s', r) := submit_app_command bob_waiting
    {| command := "pick"; payload := Null; envelope_session_id := Some "alice" |} in
  exists session, app_sessions s' = <["alice" := session]> (app_sessions bob_waiting) /\
    length (staged_host_connector r) = 1.
Proof.
  destruct (submit_app_command bob_waiting
    {| command := "pick"; payload := Null; envelope_session_id := Some "alice" |}) as [s' r] eqn:Hsub.
  destruct (accepted_command_staging bob_waiting s' _ r bob_waiting_ok Hsub) as (session & Hsess & _).
  - vm_compute in Hsub. by injection Hsub as _ <-.
  - exists session. vm_compute in Hsub. injection Hsub as Hs <-. split; [exact Hsess|reflexivity].
Defined.

(** Cancelling Bob's pick leads back into the picking state. *)
Lemma terminal_into_invoke_is_final_witness :
  exists s', submit_host_connector_terminal bob_waiting
    {| terminal_command_id := "demo.app-cmd-1"; terminal_session_id := "bob";
       lifecycle_event_name := "host_connector_cancelled"; terminal_payload := Null |} =
      (s', accepted "bob") /\
    app_sessions s' !! "bob" = Some {| session_id := "bob"; state := "picking"; wait := None |}.
Proof.
  edestruct (terminal_into_invoke_is_final bob_waiting
    {| terminal_command_id := "demo.app-cmd-1"; terminal_session_id := "bob";
       lifecycle_event_name := "host_connector_cancelled"; terminal_payload := Null |} bob_session
    {| wait_command_id := "demo.app-cmd-1"; kind := WaitHostConnector "file.pick" |})
    as (s' & Hsub & Hsess & _);
    [exact bob_waiting_ok|vm_compute; reflexivity|reflexivity|reflexivity|vm_compute; reflexivity
    |vm_compute; reflexivity|vm_compute; reflexivity|vm_compute; reflexivity|discriminate|].
  exists s'. split; [exact Hsub|exact Hsess].
Defined.

(** The last connector result is one field for all sessions: after Alice's
    file arrives, Bob's capability, whose input is declared as the result of the
    wait in its own session, runs on Alice's file. *)
Theorem connector_result_crosses_sessions :
  (s ← run_submits ["bob picks"; "bob picked"; "alice picks"; "alice picked"; "bob runs"];
   last (pending_events s)) =
  Some (lifecycle_event "capability_result" "bob"
    (obj [("status", Str "completed"); ("capability_id", Str "doc.analyse");
          ("output", Str (render (obj [("artifact", Str "alice's file")])))])).
Proof. vm_compute. reflexivity. Qed.

(** A session id the runtime generates can be one a client already chose: the
    anonymous command then takes over the waiting session, whose own terminal is
    ignored from then on. *)
Theorem generated_session_id_collides :
  session_states (run_submits ["named pick"]) "demo.app-sess-2" =
    Some ("picking", Some "demo.app-cmd-1") /\
  session_states (run_submits ["named pick"; "anonymous pick"]) "demo.app-sess-2" =
    Some ("picking", Some "demo.app-cmd-2").
Proof. vm_compute. split; reflexivity. Qed.
