(* ===== verification/Events.v ===== *)
(** * Events: types, catalog and envelope validation

    [crates/traverse-runtime/src/events/types.rs], [catalog.rs] and
    [validation.rs].  The [semver] crate is a parameter: whether a string parses
    as a version. *)
From S2P Require Import Prelude Json.
From Stdlib Require Import Ascii.

(** ** Types *)

Inductive LifecycleStatus := Draft | Active | Deprecated.

Record TraverseEvent := {
  id : string;
  source : string;
  event_type : string;
  datacontenttype : string;
  time : string;
  data : Value;
  owner : string;
  version : string;
  lifecycle_status : LifecycleStatus;
  deduplication_id : option string;
  ordering_scope : option string;
  correlation_id : option string;
  causation_id : option string;
  subject_id : option string;
  actor_id : option string }.

Inductive EventError :=
  | ValidationRejected (code : string)
  | LifecycleViolation (message : string)
  | UnregisteredEventType (unknown : string)
  | InvalidCursor (message : string)
  | CursorExpired (expired_type oldest_available_cursor : string)
  | SubscriptionNotFound (unknown : string)
  | InvalidRetentionWindow (message : string)
  | JournalWrite (message : string)
  | JournalWriteTimeout (message : string)
  | JournalRead (message : string).

Record BrokerEvent := { broker_cursor : string; broker_event : TraverseEvent }.

Record Subscription := {
  handle_id : string;
  handle_event_type : string;
  handle_cursor : string }.

Record SubscriptionPoll := {
  poll_subscription_id : string;
  poll_event_type : string;
  poll_cursor : string;
  poll_events : list BrokerEvent }.

(** ** The catalog *)

Record EventCatalogEntry := {
  entry_event_type : string;
  entry_owner : string;
  entry_version : string;
  entry_status : LifecycleStatus;
  consumer_count : N }.

Abbreviation EventCatalog := (gmap string EventCatalogEntry).

Definition register (catalog : EventCatalog) (entry : EventCatalogEntry)
    : Result EventError EventCatalog :=
  match catalog !! entry_event_type entry with
  | Some _ => Err (LifecycleViolation
      ("event type '" +:+ entry_event_type entry +:+ "' is already registered"))
  | None => Ok (<[entry_event_type entry := entry]> catalog)
  end.

Definition count_consumer (entry : EventCatalogEntry) : EventCatalogEntry := {|
  entry_event_type := entry_event_type entry; entry_owner := entry_owner entry;
  entry_version := entry_version entry; entry_status := entry_status entry;
  consumer_count := saturating_add (consumer_count entry) 1 |}.

Definition increment_consumer_count (catalog : EventCatalog) (ty : string) : EventCatalog :=
  alter count_consumer ty catalog.

(** ** Validation *)

Inductive EventValidationMode := Migration | Enforcement.

Record EventValidationDiagnostic := {
  diagnostic_code : string;
  diagnostic_path : string;
  severity : string;
  remediation : string;
  diagnostic_contract_id : string;
  diagnostic_version : string }.

Record EventValidationResult := {
  validation_accepted : bool;
  diagnostics : list EventValidationDiagnostic }.

Record EventValidationEvidence := {
  evidence_contract_id : string;
  evidence_version : string;
  evidence_diagnostics : list EventValidationDiagnostic }.

Definition from_result (r : EventValidationResult) : option EventValidationEvidence :=
  first ← head (diagnostics r);
  Some {| evidence_contract_id := diagnostic_contract_id first;
          evidence_version := diagnostic_version first;
          evidence_diagnostics := diagnostics r |}.

Definition is_valid (r : EventValidationResult) : bool :=
  match diagnostics r with [] => true | _ => false end.

(** [semver::Version::parse(text).is_ok()] *)
Class Semver := { version_parses : string -> bool }.

Definition diagnostic (code path remedy : string) (event : TraverseEvent) : EventValidationDiagnostic := {|
  diagnostic_code := code; diagnostic_path := path; severity := "error"; remediation := remedy;
  diagnostic_contract_id := event_type event; diagnostic_version := version event |}.

(** The diagnostics each check pushes. *)
Definition validate_non_empty (code path field value : string) (event : TraverseEvent)
    : list EventValidationDiagnostic :=
  if is_blank value then [diagnostic code path field event] else [].

Definition validate_optional_non_empty (code path field : string) (value : option string)
    (event : TraverseEvent) : list EventValidationDiagnostic :=
  match value with
  | Some v => if is_blank v then [diagnostic code path field event] else []
  | None => [diagnostic code path field event]
  end.

(** [value.contains('.')] and [value.rsplit('.').next()]: the text after the last
    dot, when there is one. *)
Fixpoint after_last_dot (s : string) : option string :=
  match s with
  | EmptyString => None
  | String c rest =>
      match after_last_dot rest with
      | Some tail => Some tail
      | None => if decide (c = "."%char) then Some rest else None
      end
  end.

Fixpoint ends_with_ed (s : string) : bool :=
  match s with
  | EmptyString => false
  | String c rest => bool_decide (s = "ed") || ends_with_ed rest
  end.

Definition is_fact_type (value : string) : bool :=
  match after_last_dot value with Some tail => ends_with_ed tail | None => false end.

Section validation.
Context `{Semver}.

Definition event_diagnostics (event : TraverseEvent) : list EventValidationDiagnostic :=
  validate_non_empty "EVP-001" "/id" "id" (id event) event ++
  validate_non_empty "EVP-002" "/source" "source" (source event) event ++
  validate_non_empty "EVP-003" "/datacontenttype" "datacontenttype" (datacontenttype event) event ++
  validate_non_empty "EVP-004" "/time" "time" (time event) event ++
  validate_non_empty "EVP-005" "/owner" "owner" (owner event) event ++
  validate_optional_non_empty "EVP-008" "/deduplicationid" "deduplication identity"
    (deduplication_id event) event ++
  validate_optional_non_empty "EVP-009" "/orderingscope" "ordering scope" (ordering_scope event) event ++
  validate_optional_non_empty "EVP-010" "/correlationid" "correlation id" (correlation_id event) event ++
  validate_optional_non_empty "EVP-011" "/causationid" "causation id" (causation_id event) event ++
  (if version_parses (version event) then []
   else [diagnostic "EVP-006" "/version" "version must be semantic" event]) ++
  (if is_fact_type (event_type event) then []
   else [diagnostic "EVP-007" "/type" "type must use a dotted past-tense fact name" event]).

Definition validate_event (event : TraverseEvent) (mode : EventValidationMode) : EventValidationResult :=
  let found := event_diagnostics event in {|
    validation_accepted :=
      match mode with Migration => true | Enforcement => bool_decide (length found = 0) end;
    diagnostics := found |}.

(** ** What a governed envelope is *)

Definition present (o : option string) : Prop := exists v, o = Some v /\ is_blank v = false.

Record envelope_ok (event : TraverseEvent) : Prop := {
  ok_id : is_blank (id event) = false;
  ok_source : is_blank (source event) = false;
  ok_contenttype : is_blank (datacontenttype event) = false;
  ok_time : is_blank (time event) = false;
  ok_owner : is_blank (owner event) = false;
  ok_dedup : present (deduplication_id event);
  ok_scope : present (ordering_scope event);
  ok_correlation : present (correlation_id event);
  ok_causation : present (causation_id event);
  ok_version : version_parses (version event) = true;
  ok_type : exists domain fact, event_type event = domain +:+ "." +:+ fact +:+ "ed" /\
    after_last_dot (fact +:+ "ed") = None }.

Lemma validate_text_nil code path field value event :
  validate_non_empty code path field value event = [] <-> is_blank value = false.
Proof. unfold validate_non_empty. by destruct (is_blank value). Qed.

Lemma validate_optional_nil code path field value event :
  validate_optional_non_empty code path field value event = [] <-> present value.
Proof.
  unfold validate_optional_non_empty, present. destruct value as [v|]; [|split; [done|by intros (? & ? & _)]].
  destruct (is_blank v) eqn:E; split; [done| |by exists v|done].
  intros (? & [= <-] & ?). congruence.
Qed.

Lemma ends_with_ed_spec s : ends_with_ed s = true <-> exists fact, s = fact +:+ "ed".
Proof.
  induction s as [|c s IH].
  - split; [done|]. intros [[|] Hf]; discriminate Hf.
  - cbn [ends_with_ed]. rewrite orb_true_iff, bool_decide_eq_true, IH. split.
    + intros [->|[fact ->]]; [by exists ""|by exists (String c fact)].
    + intros [[|a fact] Hf]; [by left|right]. change (String a fact +:+ "ed") with
        (String a (fact +:+ "ed")) in Hf. injection Hf as _ ->. by exists fact.
Qed.

Lemma dotted_cons_inv c s domain tail :
  String c s = domain +:+ "." +:+ tail ->
  c = "."%char /\ s = tail \/ exists domain', s = domain' +:+ "." +:+ tail.
Proof.
  destruct domain as [|a domain].
  - change ("" +:+ "." +:+ tail) with (String "." tail). intros [= -> ->]. by left.
  - change (String a domain +:+ "." +:+ tail) with (String a (domain +:+ "." +:+ tail)).
    intros [= _ ->]. right. by exists domain.
Qed.

Lemma after_last_dot_spec s tail :
  after_last_dot s = Some tail <->
  (exists domain, s = domain +:+ "." +:+ tail) /\ after_last_dot tail = None.
Proof.
  revert tail. induction s as [|c s IH]; intros tail; cbn.
  { split; [done|]. intros [[[|] Hd] _]; discriminate Hd. }
  assert (Hinner : forall d, s = d +:+ "." +:+ tail -> after_last_dot tail = None ->
    after_last_dot s = Some tail) by (intros d Hd Ht; apply IH; eauto).
  split.
  - destruct (after_last_dot s) as [t|] eqn:E.
    + intros [= <-]. destruct (proj1 (IH t) eq_refl) as [[d ->] ?]. split; [|done]. by exists (String c d).
    + case_decide as Hc; [|done]. intros [= ->]. split; [|done]. exists "". by rewrite Hc.
  - intros [[d [[-> ->]|[d' Hs]]%dotted_cons_inv] Ht].
    + by rewrite Ht, decide_True.
    + by rewrite (Hinner d').
Qed.

Lemma is_fact_type_spec value :
  is_fact_type value = true <->
  exists domain fact, value = domain +:+ "." +:+ fact +:+ "ed" /\ after_last_dot (fact +:+ "ed") = None.
Proof.
  unfold is_fact_type. split.
  - destruct (after_last_dot value) as [tail|] eqn:E; [|done].
    intros [fact ->]%ends_with_ed_spec. apply after_last_dot_spec in E as [[domain ->] ?].
    by exists domain, fact.
  - intros (domain & fact & -> & Ht).
    rewrite (proj2 (after_last_dot_spec (domain +:+ "." +:+ fact +:+ "ed") (fact +:+ "ed")))
      by eauto. apply ends_with_ed_spec. eauto.
Qed.

(** Enforcement accepts an event exactly when its envelope is governed (every
    mandatory field present and not blank, a semantic version, a dotted
    past-tense type); migration mode accepts every event, and in both modes the
    event is reported as valid exactly when it is governed. *)
Theorem validate_event_iff (event : TraverseEvent) (mode : EventValidationMode) :
  (is_valid (validate_event event mode) = true <-> envelope_ok event) /\
  (validation_accepted (validate_event event mode) = true <-> mode = Migration \/ envelope_ok event).
Proof.
  assert (Hnil : event_diagnostics event = [] <-> envelope_ok event).
  { unfold event_diagnostics. rewrite !app_nil_iff.
    rewrite !validate_text_nil, !validate_optional_nil.
    assert (Hif : forall (b : bool) (d : EventValidationDiagnostic),
      (if b then [] else [d]) = [] <-> b = true) by (intros [] d; split; done).
    rewrite !Hif, is_fact_type_spec. split; [|intros []; tauto].
    intros. by split; tauto. }
  unfold is_valid, validate_event. cbn. rewrite <- Hnil. split.
  - by destruct (event_diagnostics event).
  - destruct mode; [tauto|]. rewrite bool_decide_eq_true, length_zero_iff_nil.
    split; [tauto|]. by intros [?|?].
Qed.
End validation.
