(* ===== verification/Broker.v ===== *)
(** * The in-process event broker

    [crates/traverse-runtime/src/events/broker.rs]: a retention buffer per event
    type, a bounded queue per subscription, cursors, duplicate suppression and
    the recorded evidence.

    The clock is an argument of the operations that read it (nanoseconds on a
    signed scale, since [SystemTime] can precede the epoch).  Each method holds
    the broker's lock throughout, so operations are sequential; no operation
    panics while it holds the lock, so the lock is never poisoned.  Iteration
    over a set of subscription ids changes each subscription on its own, so its
    order is immaterial. *)
From S2P Require Import Prelude Json Events.
From Stdlib Require Import Ascii.

(** ** Data *)

Record BrokerConfig := { retention_window : Z; max_queue_len : nat }.

Definition default_broker_config : BrokerConfig :=
  {| retention_window := 300000000000; max_queue_len := 1024 |}.

Record BufferedEvent := { cursor : N; published_at : Z; event : TraverseEvent }.

Record SubscriptionState := {
  subscription_id : string;
  sub_event_type : string;
  sub_subject_id : option string;
  consumer_id : option string;
  sub_cursor : N;
  queue : list BufferedEvent }.

Record EventLineageRecord := {
  lineage_contract_id : string;
  lineage_contract_version : string;
  lineage_event_id : string;
  producer_id : string;
  lineage_consumer_id : string;
  lineage_subscription_id : string;
  lineage_cursor : string }.

Record EventTelemetryRecord := {
  operation : string;
  outcome : string;
  telemetry_contract_id : string;
  telemetry_contract_version : string;
  telemetry_event_id : string;
  telemetry_deduplication_id : option string;
  telemetry_ordering_scope : option string;
  telemetry_correlation_id : option string;
  telemetry_causation_id : option string;
  telemetry_consumer_id : option string;
  telemetry_cursor : option string;
  retry_count : N;
  latency_ms : N }.

Record EventRuntimeMetrics := {
  publications : N;
  deliveries : N;
  validation_failures : N;
  quarantines : N }.

(** The evidence side of [BrokerState], written and never read by the broker. *)
Record Evidence := {
  validation_evidence : list EventValidationEvidence;
  quarantine_records : list EventValidationEvidence;
  observed_lineage : list EventLineageRecord;
  telemetry : list EventTelemetryRecord;
  metrics : EventRuntimeMetrics }.

Record BrokerState := {
  next_subscription : N;
  next_cursor : gmap string N;
  buffers : gmap string (list BufferedEvent);
  seen_event_ids : gmap string (gset string);
  subscriptions : gmap string SubscriptionState;
  subscriptions_by_event_type : gmap string (gset string);
  restart_floor : N;
  evidence : Evidence }.

Record InProcessBroker := {
  catalog : EventCatalog;
  config : BrokerConfig;
  validation_mode : EventValidationMode;
  state : BrokerState }.

(** *** Field updates *)

Definition set_buffer (ty : string) (buffer : list BufferedEvent) (s : BrokerState) : BrokerState := {|
  next_subscription := next_subscription s; next_cursor := next_cursor s;
  buffers := <[ty := buffer]> (buffers s); seen_event_ids := seen_event_ids s;
  subscriptions := subscriptions s; subscriptions_by_event_type := subscriptions_by_event_type s;
  restart_floor := restart_floor s; evidence := evidence s |}.

Definition set_seen (seen : gmap string (gset string)) (s : BrokerState) : BrokerState := {|
  next_subscription := next_subscription s; next_cursor := next_cursor s;
  buffers := buffers s; seen_event_ids := seen;
  subscriptions := subscriptions s; subscriptions_by_event_type := subscriptions_by_event_type s;
  restart_floor := restart_floor s; evidence := evidence s |}.

Definition set_next_cursor (ty : string) (n : N) (s : BrokerState) : BrokerState := {|
  next_subscription := next_subscription s; next_cursor := <[ty := n]> (next_cursor s);
  buffers := buffers s; seen_event_ids := seen_event_ids s;
  subscriptions := subscriptions s; subscriptions_by_event_type := subscriptions_by_event_type s;
  restart_floor := restart_floor s; evidence := evidence s |}.

Definition set_subscriptions (subs : gmap string SubscriptionState) (s : BrokerState) : BrokerState := {|
  next_subscription := next_subscription s; next_cursor := next_cursor s;
  buffers := buffers s; seen_event_ids := seen_event_ids s;
  subscriptions := subs; subscriptions_by_event_type := subscriptions_by_event_type s;
  restart_floor := restart_floor s; evidence := evidence s |}.

Definition set_index (index : gmap string (gset string)) (s : BrokerState) : BrokerState := {|
  next_subscription := next_subscription s; next_cursor := next_cursor s;
  buffers := buffers s; seen_event_ids := seen_event_ids s;
  subscriptions := subscriptions s; subscriptions_by_event_type := index;
  restart_floor := restart_floor s; evidence := evidence s |}.

Definition set_next_subscription (n : N) (s : BrokerState) : BrokerState := {|
  next_subscription := n; next_cursor := next_cursor s;
  buffers := buffers s; seen_event_ids := seen_event_ids s;
  subscriptions := subscriptions s; subscriptions_by_event_type := subscriptions_by_event_type s;
  restart_floor := restart_floor s; evidence := evidence s |}.

Definition set_evidence (e : Evidence) (s : BrokerState) : BrokerState := {|
  next_subscription := next_subscription s; next_cursor := next_cursor s;
  buffers := buffers s; seen_event_ids := seen_event_ids s;
  subscriptions := subscriptions s; subscriptions_by_event_type := subscriptions_by_event_type s;
  restart_floor := restart_floor s; evidence := e |}.

Definition set_queue (q : list BufferedEvent) (sub : SubscriptionState) : SubscriptionState := {|
  subscription_id := subscription_id sub; sub_event_type := sub_event_type sub;
  sub_subject_id := sub_subject_id sub; consumer_id := consumer_id sub;
  sub_cursor := sub_cursor sub; queue := q |}.

Definition set_sub_cursor (c : N) (sub : SubscriptionState) : SubscriptionState := {|
  subscription_id := subscription_id sub; sub_event_type := sub_event_type sub;
  sub_subject_id := sub_subject_id sub; consumer_id := consumer_id sub;
  sub_cursor := c; queue := queue sub |}.

Definition with_state (s : BrokerState) (b : InProcessBroker) : InProcessBroker := {|
  catalog := catalog b; config := config b; validation_mode := validation_mode b; state := s |}.

Definition with_catalog (c : EventCatalog) (b : InProcessBroker) : InProcessBroker := {|
  catalog := c; config := config b; validation_mode := validation_mode b; state := state b |}.

(** ** Construction *)

Definition empty_evidence : Evidence := {|
  validation_evidence := []; quarantine_records := []; observed_lineage := []; telemetry := [];
  metrics := {| publications := 0; deliveries := 0; validation_failures := 0; quarantines := 0 |} |}.

Definition empty_state : BrokerState := {|
  next_subscription := 0; next_cursor := ∅; buffers := ∅; seen_event_ids := ∅;
  subscriptions := ∅; subscriptions_by_event_type := ∅; restart_floor := 0;
  evidence := empty_evidence |}.

Definition with_clock_and_validation (c : EventCatalog) (cfg : BrokerConfig) (mode : EventValidationMode)
    : Result EventError InProcessBroker :=
  if (retention_window cfg =? 0)%Z then
    Err (InvalidRetentionWindow "retention_window must be > 0")
  else if (max_queue_len cfg =? 0)%nat then
    Err (InvalidRetentionWindow "max_queue_len must be > 0")
  else Ok {| catalog := c; config := cfg; validation_mode := mode; state := empty_state |}.

(** ** Cursors and queues *)

Definition parse_cursor (raw : string) : Result EventError N :=
  let trimmed := trim raw in
  if decide (trimmed = "0") then Ok 0%N
  else ok_or (parse_u64 trimmed)
    (InvalidCursor ("cursor must be " +:+ String "034"%char "0" +:+ String "034"%char " or a base-10 unsigned integer")).

Definition cursor_to_string (c : N) : string := u64_to_string c.

(** [while queue.len() >= max_len { queue.pop_front() }] *)
Fixpoint pop_to (max_len : nat) (q : list BufferedEvent) : list BufferedEvent :=
  match q with
  | [] => []
  | _ :: rest => if (max_len <=? length q)%nat then pop_to max_len rest else q
  end.

Definition enqueue_with_drop_oldest (max_len : nat) (q : list BufferedEvent) (item : BufferedEvent)
    : list BufferedEvent :=
  pop_to max_len q ++ [item].

Definition buffer_of (s : BrokerState) (ty : string) : list BufferedEvent := default [] (buffers s !! ty).

Definition subscription_ids_for_event_type (s : BrokerState) (ty : string) : gset string :=
  default ∅ (subscriptions_by_event_type s !! ty).

(** [for id in ids { if let Some(sub) = subscriptions.get_mut(&id) { .. } }] *)
Definition update_subscriptions (ids : gset string) (f : SubscriptionState -> SubscriptionState)
    (subs : gmap string SubscriptionState) : gmap string SubscriptionState :=
  map_imap (fun key sub => Some (if decide (key ∈ ids) then f sub else sub)) subs.

(** The age a clock reading gives an event: zero when the clock went back. *)
Definition age (now : Z) (item : BufferedEvent) : Z := Z.max 0 (now - published_at item).

(** The buffer loop of [prune_expired]: what is kept and the ids forgotten. *)
Fixpoint prune_buffer (window now : Z) (buffer : list BufferedEvent) : list BufferedEvent * list string :=
  match buffer with
  | [] => ([], [])
  | front :: rest =>
      if (age now front <=? window)%Z then (buffer, [])
      else let '(kept, dropped) := prune_buffer window now rest in
           (kept, id (event front) :: dropped)
  end.

(** [while front.cursor < oldest { queue.pop_front() }] *)
Definition drop_before (oldest : N) (q : list BufferedEvent) : list BufferedEvent :=
  drop_while (fun item => (cursor item <? oldest)%N) q.

Definition prune_expired (ty : string) (window now : Z) (s : BrokerState) : BrokerState :=
  let '(kept, dropped) := prune_buffer window now (buffer_of s ty) in
  let s1 := set_seen (alter (fun ids => ids ∖ list_to_set dropped) ty (seen_event_ids s))
              (set_buffer ty kept s) in
  match kept with
  | [] => s1
  | oldest :: _ =>
      set_subscriptions
        (update_subscriptions (subscription_ids_for_event_type s1 ty)
           (fun sub => set_queue (drop_before (cursor oldest) (queue sub)) sub)
           (subscriptions s1)) s1
  end.

Definition validate_from_cursor (s : BrokerState) (ty : string) (from_cursor : N)
    : Result EventError unit :=
  if (from_cursor =? 0)%N then Ok tt
  else
    let last_cursor := N.max (default 0%N (next_cursor s !! ty)) (restart_floor s) in
    match buffer_of s ty with
    | front :: _ =>
        let oldest_ok := saturating_sub (cursor front) 1 in
        if (from_cursor <? oldest_ok)%N
        then Err (CursorExpired ty (cursor_to_string oldest_ok)) else Ok tt
    | [] =>
        if ((0 <? last_cursor) && (from_cursor <? last_cursor))%N%bool
        then Err (CursorExpired ty (cursor_to_string last_cursor)) else Ok tt
    end.

(** ** Evidence *)

Definition telemetry_record (op result : string) (e : TraverseEvent) (consumer c : option string)
    : EventTelemetryRecord := {|
  operation := op; outcome := result; telemetry_contract_id := event_type e;
  telemetry_contract_version := version e; telemetry_event_id := id e;
  telemetry_deduplication_id := deduplication_id e; telemetry_ordering_scope := ordering_scope e;
  telemetry_correlation_id := correlation_id e; telemetry_causation_id := causation_id e;
  telemetry_consumer_id := consumer; telemetry_cursor := c; retry_count := 0; latency_ms := 0 |}.

Definition push_telemetry (r : EventTelemetryRecord) (e : Evidence) : Evidence := {|
  validation_evidence := validation_evidence e; quarantine_records := quarantine_records e;
  observed_lineage := observed_lineage e; telemetry := telemetry e ++ [r]; metrics := metrics e |}.

Definition push_failure (v : EventValidationEvidence) (quarantine : bool) (e : Evidence) : Evidence :=
  let m := metrics e in {|
    validation_evidence := validation_evidence e ++ [v];
    quarantine_records := if quarantine then quarantine_records e ++ [v] else quarantine_records e;
    observed_lineage := observed_lineage e; telemetry := telemetry e;
    metrics := {| publications := publications m; deliveries := deliveries m;
      validation_failures := saturating_add (validation_failures m) 1;
      quarantines := if quarantine then saturating_add (quarantines m) 1 else quarantines m |} |}.

Definition count_publication (e : Evidence) : Evidence :=
  let m := metrics e in {|
    validation_evidence := validation_evidence e; quarantine_records := quarantine_records e;
    observed_lineage := observed_lineage e; telemetry := telemetry e;
    metrics := {| publications := saturating_add (publications m) 1; deliveries := deliveries m;
      validation_failures := validation_failures m; quarantines := quarantines m |} |}.

(** The consumer a delivery is attributed to. *)
Definition attributed_consumer (sub : SubscriptionState) : string :=
  default (subscription_id sub) (consumer_id sub).

Definition record_delivery (sub : SubscriptionState) (e : Evidence) (item : BufferedEvent) : Evidence := {|
  validation_evidence := validation_evidence e; quarantine_records := quarantine_records e;
  observed_lineage := observed_lineage e ++ [{|
    lineage_contract_id := event_type (event item); lineage_contract_version := version (event item);
    lineage_event_id := id (event item); producer_id := owner (event item);
    lineage_consumer_id := attributed_consumer sub; lineage_subscription_id := subscription_id sub;
    lineage_cursor := cursor_to_string (cursor item) |}];
  telemetry := telemetry e ++ [telemetry_record "traverse.event.delivery" "delivered" (event item)
    (Some (attributed_consumer sub)) (Some (cursor_to_string (cursor item)))];
  metrics := metrics e |}.

Definition count_deliveries (n : nat) (e : Evidence) : Evidence :=
  let m := metrics e in {|
    validation_evidence := validation_evidence e; quarantine_records := quarantine_records e;
    observed_lineage := observed_lineage e; telemetry := telemetry e;
    metrics := {| publications := publications m; deliveries := saturating_add (deliveries m) (N.of_nat n);
      validation_failures := validation_failures m; quarantines := quarantines m |} |}.

(** ** Operations *)

Section broker.
Context `{Semver}.

Definition outcome_name (r : EventValidationResult) : string :=
  if is_valid r then "accepted" else if validation_accepted r then "reported" else "rejected".

(** [validate_boundary]: the evidence is recorded whether or not the event passes. *)
Definition validate_boundary (b : InProcessBroker) (e : TraverseEvent)
    : InProcessBroker * Result EventError unit :=
  let r := validate_event e (validation_mode b) in
  let recorded := match from_result r with
    | Some v => push_failure v (negb (validation_accepted r)) (evidence (state b))
    | None => evidence (state b)
    end in
  let recorded := push_telemetry
    (telemetry_record "traverse.event.validation" (outcome_name r) e None None) recorded in
  (with_state (set_evidence recorded (state b)) b,
   if validation_accepted r then Ok tt
   else Err (ValidationRejected (default "EVP-000" (diagnostic_code <$> head (diagnostics r))))).

Definition check_publishable (b : InProcessBroker) (e : TraverseEvent) : Result EventError unit :=
  entry ← ok_or (catalog b !! event_type e) (UnregisteredEventType (event_type e));
  match entry_status entry with
  | Active => Ok tt
  | Deprecated => Err (LifecycleViolation
      ("event type '" +:+ event_type e +:+ "' is Deprecated and cannot be published"))
  | Draft => Err (LifecycleViolation
      ("event type '" +:+ event_type e +:+ "' is Draft and cannot be published"))
  end.

Definition seen_of (s : BrokerState) (ty : string) : gset string := default ∅ (seen_event_ids s !! ty).

(** Whether a subscription's subject filter lets an event through. *)
Definition subject_matches (subject : option string) (e : TraverseEvent) : bool :=
  match subject with
  | None => true
  | Some s => bool_decide (subject_id e = Some s)
  end.

(** The cursor an event gets and the type's counter after it. *)
Definition next_cursors (counter : N) (assigned : option N) : N * N :=
  match assigned with
  | Some c => (c, N.max counter c)
  | None => let n := saturating_add counter 1 in (n, n)
  end.

(** From the duplicate check to the end of [publish_internal]. *)
Definition store_event (max_len : nat) (now : Z) (e : TraverseEvent) (assigned : option N)
    (s : BrokerState) : BrokerState :=
  let ty := event_type e in
  let seen := seen_of s ty in
  if decide (id e ∈ seen) then set_seen (<[ty := seen]> (seen_event_ids s)) s
  else
    let s := set_seen (<[ty := {[id e]} ∪ seen]> (seen_event_ids s)) s in
    let s := set_evidence (push_telemetry
      (telemetry_record "traverse.event.publish" "accepted" e None None)
      (count_publication (evidence s))) s in
    let '(c, counter) := next_cursors (default 0%N (next_cursor s !! ty)) assigned in
    let s := set_next_cursor ty counter s in
    let item := {| cursor := c; published_at := now; event := e |} in
    let s := set_buffer ty (buffer_of s ty ++ [item]) s in
    set_subscriptions
      (update_subscriptions (subscription_ids_for_event_type s ty)
         (fun sub => if subject_matches (sub_subject_id sub) e
                     then set_queue (enqueue_with_drop_oldest max_len (queue sub) item) sub else sub)
         (subscriptions s)) s.

Definition publish_internal (b : InProcessBroker) (now : Z) (e : TraverseEvent) (assigned : option N)
    : InProcessBroker * Result EventError unit :=
  let '(b, validated) := validate_boundary b e in
  match (_ ← validated; check_publishable b e) with
  | Err error => (b, Err error)
  | Ok _ =>
      let s := prune_expired (event_type e) (retention_window (config b)) now (state b) in
      (with_state (store_event (max_queue_len (config b)) now e assigned s) b, Ok tt)
  end.

Definition publish (b : InProcessBroker) (now : Z) (e : TraverseEvent)
    : InProcessBroker * Result EventError unit :=
  publish_internal b now e None.

Definition publish_with_cursor (b : InProcessBroker) (now : Z) (e : TraverseEvent) (raw : string)
    : InProcessBroker * Result EventError unit :=
  match parse_cursor raw with
  | Ok assigned => publish_internal b now e (Some assigned)
  | Err error => (b, Err error)
  end.

Definition seed_restart_floor (b : InProcessBroker) (floor : N) : InProcessBroker :=
  let s := state b in
  with_state {| next_subscription := next_subscription s; next_cursor := next_cursor s;
    buffers := buffers s; seen_event_ids := seen_event_ids s;
    subscriptions := subscriptions s; subscriptions_by_event_type := subscriptions_by_event_type s;
    restart_floor := N.max (restart_floor s) floor; evidence := evidence s |} b.

(** The events a new subscription replays. *)
Definition replayed (from : N) (subject : option string) (item : BufferedEvent) : bool :=
  ((from =? 0)%N || (from <? cursor item)%N) && subject_matches subject (event item).

Definition subscribe_with_subject (b : InProcessBroker) (now : Z) (ty raw_cursor : string)
    (subject consumer : option string) : InProcessBroker * Result EventError Subscription :=
  match catalog b !! ty with
  | None => (b, Err (UnregisteredEventType ty))
  | Some _ =>
      match parse_cursor raw_cursor with
      | Err error => (b, Err error)
      | Ok from =>
          let s := prune_expired ty (retention_window (config b)) now (state b) in
          match validate_from_cursor s ty from with
          | Err error => (with_state s b, Err error)
          | Ok _ =>
              let s := set_next_subscription (saturating_add (next_subscription s) 1) s in
              let sid := "sub-" +:+ u64_to_string (next_subscription s) in
              let q := foldl (enqueue_with_drop_oldest (max_queue_len (config b))) []
                         (List.filter (replayed from subject) (buffer_of s ty)) in
              let sub := {| subscription_id := sid; sub_event_type := ty; sub_subject_id := subject;
                            consumer_id := consumer; sub_cursor := from; queue := q |} in
              let s := set_subscriptions (<[sid := sub]> (subscriptions s)) s in
              let s := set_index (<[ty := {[sid]} ∪ subscription_ids_for_event_type s ty]>
                                    (subscriptions_by_event_type s)) s in
              (with_state s (with_catalog (increment_consumer_count (catalog b) ty) b),
               Ok {| handle_id := sid; handle_event_type := ty; handle_cursor := cursor_to_string from |})
          end
      end
  end.

Definition subscribe (b : InProcessBroker) (now : Z) (ty raw_cursor : string) :=
  subscribe_with_subject b now ty raw_cursor None None.

Definition subscribe_for_subject (b : InProcessBroker) (now : Z) (ty raw_cursor : string)
    (subject : option string) :=
  subscribe_with_subject b now ty raw_cursor subject None.

Definition subscribe_for_consumer (b : InProcessBroker) (now : Z) (ty raw_cursor consumer : string)
    (subject : option string) : InProcessBroker * Result EventError Subscription :=
  if is_blank consumer then (b, Err (LifecycleViolation "consumer_id must not be empty"))
  else subscribe_with_subject b now ty raw_cursor subject (Some consumer).

Definition to_broker_event (item : BufferedEvent) : BrokerEvent :=
  {| broker_cursor := cursor_to_string (cursor item); broker_event := event item |}.

(** The loop of [poll]: hand over up to [n] queued events. *)
Definition deliver (n : nat) (sub : SubscriptionState) (s : BrokerState)
    : BrokerState * SubscriptionState * list BufferedEvent :=
  let items := take n (queue sub) in
  let sub' := set_sub_cursor (default (sub_cursor sub) (cursor <$> last items))
                (set_queue (drop n (queue sub)) sub) in
  (set_evidence (count_deliveries (length items)
     (foldl (record_delivery sub) (evidence s) items)) s, sub', items).

Definition poll (b : InProcessBroker) (now : Z) (sid : string) (max_events : nat)
    : InProcessBroker * Result EventError SubscriptionPoll :=
  match subscriptions (state b) !! sid with
  | None => (b, Err (SubscriptionNotFound sid))
  | Some sub =>
      let ty := sub_event_type sub in
      let s := set_subscriptions (delete sid (subscriptions (state b))) (state b) in
      let s := prune_expired ty (retention_window (config b)) now s in
      match validate_from_cursor s ty (sub_cursor sub) with
      | Err error => (with_state s b, Err error)
      | Ok _ =>
          let sub := match buffer_of s ty with
            | [] => sub
            | oldest :: _ => set_queue (drop_before (cursor oldest) (queue sub)) sub
            end in
          let put_back s sub := with_state
            (set_subscriptions (<[subscription_id sub := sub]> (subscriptions s)) s) b in
          if (max_events =? 0)%nat then
            (put_back s sub,
             Ok {| poll_subscription_id := sid; poll_event_type := ty;
                   poll_cursor := cursor_to_string (sub_cursor sub); poll_events := [] |})
          else
            let '(s, sub, items) := deliver max_events sub s in
            (put_back s sub,
             Ok {| poll_subscription_id := subscription_id sub; poll_event_type := sub_event_type sub;
                   poll_cursor := cursor_to_string (sub_cursor sub);
                   poll_events := to_broker_event <$> items |})
      end
  end.

Definition cancel (b : InProcessBroker) (sid : string) : InProcessBroker * Result EventError unit :=
  let s := state b in
  match subscriptions s !! sid with
  | None => (b, Err (SubscriptionNotFound sid))
  | Some sub =>
      let ty := sub_event_type sub in
      let index := match subscriptions_by_event_type s !! ty with
        | None => subscriptions_by_event_type s
        | Some ids =>
            let ids := ids ∖ {[sid]} in
            if decide (ids = ∅) then delete ty (subscriptions_by_event_type s)
            else <[ty := ids]> (subscriptions_by_event_type s)
        end in
      (with_state (set_index index (set_subscriptions (delete sid (subscriptions s)) s)) b, Ok tt)
  end.
End broker.
