(* ===== verification/BrokerInv.v ===== *)
(** * The broker's invariant

    Every operation of [Broker] keeps the retention buffers ordered and free of
    duplicates and the subscription queues bounded, ordered and filtered. *)
From S2P Require Import Prelude Json Events Broker.

(** Cursors grow strictly until the counter saturates at [u64::MAX]. *)
Definition before (a b : N) : Prop := (a < b)%N \/ b = u64_max.

Definition counter (s : BrokerState) (ty : string) : N := default 0%N (next_cursor s !! ty).

Definition cursors (l : list BufferedEvent) : list N := cursor <$> l.
Definition ids (l : list BufferedEvent) : list string := (fun i => id (event i)) <$> l.

Lemma ids_app l1 l2 : ids (l1 ++ l2) = ids l1 ++ ids l2.
Proof. apply fmap_app. Qed.

Lemma cursors_app l1 l2 : cursors (l1 ++ l2) = cursors l1 ++ cursors l2.
Proof. apply fmap_app. Qed.

Record buffer_ok (ty : string) (top : N) (seen : gset string) (buffer : list BufferedEvent) : Prop := {
  buffer_sorted : StronglySorted before (cursors buffer);
  buffer_top : Forall (fun i => (cursor i <= top)%N) buffer;
  buffer_ids : NoDup (ids buffer);
  buffer_seen : seen = list_to_set (ids buffer);
  buffer_type : Forall (fun i => event_type (event i) = ty) buffer }.

(** A subscription is indexed under its type and its queue is short, ordered and
    holds only events of its type that pass its subject filter. *)
Record sub_ok (max_len : nat) (s : BrokerState) (key : string) (sub : SubscriptionState) : Prop := {
  sub_key : subscription_id sub = key;
  sub_indexed ty : key ∈ subscription_ids_for_event_type s ty <-> ty = sub_event_type sub;
  sub_length : length (queue sub) <= max_len;
  sub_sorted : StronglySorted before (cursors (queue sub));
  sub_top : Forall (fun i => (cursor i <= counter s (sub_event_type sub))%N) (queue sub);
  sub_filter : Forall (fun i => event_type (event i) = sub_event_type sub /\
    subject_matches (sub_subject_id sub) (event i) = true) (queue sub) }.

(** [format!("sub-{n}")] *)
Definition sub_name (n : N) : string := "sub-" +:+ u64_to_string n.

#[export] Instance sub_name_inj : Inj (=) (=) sub_name.
Proof. intros n m Heq. unfold sub_name, u64_to_string in Heq. by simplify_eq. Qed.

(** Besides the buffers and the subscriptions: every indexed id was handed out. *)
Record state_ok (max_len : nat) (s : BrokerState) : Prop := {
  state_counter ty : (counter s ty <= u64_max)%N;
  state_index ty key : key ∈ subscription_ids_for_event_type s ty ->
    exists n, (n <= next_subscription s)%N /\ key = sub_name n;
  state_buffers ty : buffer_ok ty (counter s ty) (seen_of s ty) (buffer_of s ty);
  state_subs : map_Forall (sub_ok max_len s) (subscriptions s) }.

Definition broker_ok (b : InProcessBroker) : Prop :=
  1 <= max_queue_len (config b) /\ state_ok (max_queue_len (config b)) (state b).

(** ** Queues *)

Lemma drop_while_suffix {A} (p : A -> bool) l : exists dropped, l = dropped ++ drop_while p l.
Proof.
  induction l as [|x l [d IH]]; cbn; [by exists []|]. destruct (p x); [|by exists []].
  exists (x :: d). cbn. by f_equal.
Qed.

Lemma StronglySorted_suffix {A} (R : relation A) l1 l2 : StronglySorted R (l1 ++ l2) -> StronglySorted R l2.
Proof. induction l1; [done|]. cbn. intros ?%StronglySorted_inv. naive_solver. Qed.

Lemma pop_to_drop max_len q : 1 <= max_len -> pop_to max_len q = drop (S (length q) - max_len) q.
Proof.
  intros Hk. induction q as [|x q IH]; [by rewrite drop_nil|]. cbn [pop_to].
  destruct (Nat.leb_spec max_len (length (x :: q))) as [Hle|Hlt].
  - rewrite IH. cbn [length] in *. replace (S (S (length q)) - max_len) with (S (S (length q) - max_len)) by lia.
    done.
  - replace (S (length (x :: q)) - max_len) with 0 by lia. done.
Qed.

(** Enqueueing keeps the last [max_len] elements. *)
Lemma enqueue_drop max_len q item :
  1 <= max_len -> enqueue_with_drop_oldest max_len q item = drop (length (q ++ [item]) - max_len) (q ++ [item]).
Proof.
  intros Hk. unfold enqueue_with_drop_oldest. rewrite pop_to_drop by done.
  rewrite drop_app_le by (rewrite length_app; cbn; lia). rewrite length_app. cbn.
  do 2 f_equal. lia.
Qed.

Lemma enqueue_all_drop max_len l :
  1 <= max_len -> foldl (enqueue_with_drop_oldest max_len) [] l = drop (length l - max_len) l.
Proof.
  intros Hk. induction l as [|x l IH] using rev_ind; [done|].
  rewrite foldl_snoc, IH, enqueue_drop by done.
  rewrite !length_app, length_drop. cbn. rewrite <- drop_app_le by lia. rewrite drop_drop. f_equal. lia.
Qed.

(** What every suffix of a good queue inherits, and what appending keeps. *)
Lemma sub_ok_suffix max_len s key sub dropped q :
  sub_ok max_len s key sub -> queue sub = dropped ++ q -> sub_ok max_len s key (set_queue q sub).
Proof.
  intros [Hk Hi Hl Hs Ht Hf] Hq. rewrite Hq in *. split; cbn; try done.
  - rewrite length_app in Hl. lia.
  - rewrite cursors_app in Hs. by eapply StronglySorted_suffix.
  - by apply Forall_app in Ht as [_ ?].
  - by apply Forall_app in Hf as [_ ?].
Qed.

Lemma sub_ok_cursor max_len s key sub c : sub_ok max_len s key sub -> sub_ok max_len s key (set_sub_cursor c sub).
Proof. by intros []; split. Qed.

Lemma before_snoc l top c :
  StronglySorted before l -> Forall (fun x => (x <= top)%N) l ->
  (top < c)%N \/ c = u64_max -> StronglySorted before (l ++ [c]).
Proof.
  intros Hs Ht Hc. induction Hs as [|x l Hs IH Hx]; cbn; [repeat constructor|].
  apply Forall_cons in Ht as [Hxt Ht]. constructor; [by apply IH|].
  apply Forall_app. split; [done|]. apply Forall_singleton. unfold before in *. destruct Hc; [left; lia|by right].
Qed.

Lemma cursors_top l top : Forall (fun i => (cursor i <= top)%N) l -> Forall (fun x => (x <= top)%N) (cursors l).
Proof. intros Hl. unfold cursors. by apply Forall_fmap. Qed.

Lemma sorted_filter (p : BufferedEvent -> bool) l :
  StronglySorted before (cursors l) -> StronglySorted before (cursors (List.filter p l)).
Proof.
  unfold cursors. induction l as [|x l IH]; cbn; [done|]. intros [Hs Hx]%StronglySorted_inv.
  destruct (p x); [|by apply IH]. cbn. constructor; [by apply IH|].
  rewrite Forall_forall in *. intros c Hc. apply Hx.
  apply list_elem_of_fmap in Hc as (i & -> & Hi). apply list_elem_of_fmap. exists i. split; [done|].
  apply list_elem_of_In. apply list_elem_of_In in Hi. by apply filter_In in Hi as [].
Qed.

Lemma Forall_List_filter {A} (P : A -> Prop) (p : A -> bool) l : Forall P l -> Forall P (List.filter p l).
Proof. induction 1; cbn; [done|]. destruct (p x); [by constructor|done]. Qed.

(** ** Pruning *)

Lemma prune_buffer_spec window now buffer :
  let '(kept, dropped) := prune_buffer window now buffer in
  exists gone, buffer = gone ++ kept /\ dropped = ids gone /\
    Forall (fun i => (window < age now i)%Z) gone /\
    (forall front, head kept = Some front -> (age now front <= window)%Z).
Proof.
  induction buffer as [|front rest IH]; cbn; [by exists []; split_and!; [..|constructor|]|].
  destruct (Z.leb_spec (age now front) window).
  - exists []. split_and!; [done|done|constructor|]. by intros ? [= <-].
  - destruct (prune_buffer window now rest) as [kept dropped].
    destruct IH as (gone & -> & -> & Hg & Hh). exists (front :: gone). by split_and!; [..|constructor|].
Qed.

Lemma buffer_ok_suffix ty top seen gone kept :
  buffer_ok ty top seen (gone ++ kept) -> buffer_ok ty top (seen ∖ list_to_set (ids gone)) kept.
Proof.
  intros [Hs Ht Hn Hseen Hty]. rewrite cursors_app in Hs.
  rewrite ids_app in Hn, Hseen. split.
  - by eapply StronglySorted_suffix.
  - by apply Forall_app in Ht as [_ ?].
  - by apply NoDup_app in Hn as (_ & _ & ?).
  - apply NoDup_app in Hn as (_ & Hdisj & _). rewrite Hseen, list_to_set_app_L.
    apply set_eq. intros x. rewrite elem_of_difference, elem_of_union, !elem_of_list_to_set.
    split; [tauto|]. intros Hx. split; [by right|]. intros Hg. by apply (Hdisj x).
  - by apply Forall_app in Hty as [_ ?].
Qed.

(** What pruning a type leaves alone, and the buffer it leaves. *)
Definition pruned_buffer (ty : string) (window now : Z) (s : BrokerState) : list BufferedEvent :=
  (prune_buffer window now (buffer_of s ty)).1.

Lemma prune_frame ty window now s :
  let s' := prune_expired ty window now s in
  next_cursor s' = next_cursor s /\ subscriptions_by_event_type s' = subscriptions_by_event_type s /\
  next_subscription s' = next_subscription s /\ restart_floor s' = restart_floor s /\
  (forall ty', buffer_of s' ty' = if decide (ty' = ty) then pruned_buffer ty window now s else buffer_of s ty').
Proof.
  unfold prune_expired, pruned_buffer.
  destruct (prune_buffer window now (buffer_of s ty)) as [kept dropped]; cbn.
  assert (Hb : forall ty', default [] (<[ty := kept]> (buffers s) !! ty') =
    if decide (ty' = ty) then kept else buffer_of s ty').
  { intros ty'. case_decide; [subst; by rewrite lookup_insert_eq|by rewrite lookup_insert_ne by done]. }
  destruct kept; cbn; by split_and!.
Qed.

Lemma prune_seen ty window now s ty' :
  seen_of (prune_expired ty window now s) ty' =
  if decide (ty' = ty)
  then seen_of s ty ∖ list_to_set (prune_buffer window now (buffer_of s ty)).2
  else seen_of s ty'.
Proof.
  unfold prune_expired. destruct (prune_buffer window now (buffer_of s ty)) as [kept dropped]. cbn.
  assert (Hs : default ∅ (alter (fun x => x ∖ list_to_set dropped) ty (seen_event_ids s) !! ty') =
    if decide (ty' = ty) then seen_of s ty ∖ list_to_set dropped else seen_of s ty').
  { case_decide; [subst|by rewrite lookup_alter_ne by done]. rewrite lookup_alter_eq. unfold seen_of.
    destruct (seen_event_ids s !! ty); cbn; [done|set_solver]. }
  by destruct kept; apply Hs.
Qed.

(** Pruning only shortens queues from the front. *)
Lemma prune_subs ty window now s key :
  subscriptions (prune_expired ty window now s) !! key = None <-> subscriptions s !! key = None.
Proof.
  unfold prune_expired. destruct (prune_buffer _ _ _) as [[|oldest kept] dropped]; cbn; [done|].
  unfold update_subscriptions. rewrite map_lookup_imap. by destruct (subscriptions s !! key).
Qed.

Lemma prune_sub ty window now s key sub' :
  subscriptions (prune_expired ty window now s) !! key = Some sub' ->
  exists sub dropped, subscriptions s !! key = Some sub /\
    sub' = set_queue (queue sub') sub /\ queue sub = dropped ++ queue sub'.
Proof.
  unfold prune_expired. destruct (prune_buffer _ _ _) as [[|oldest kept] dropped]; cbn.
  - intros Hk. exists sub', []. by destruct sub'.
  - unfold update_subscriptions. rewrite map_lookup_imap.
    destruct (subscriptions s !! key) as [sub|]; cbn; [|done]. case_decide; intros [= <-].
    + destruct (drop_while_suffix (fun i => (cursor i <? cursor oldest)%N) (queue sub)) as [d Hd].
      by exists sub, d.
    + exists sub, []. by destruct sub.
Qed.

(** The parts of the state a good subscription depends on. *)
Lemma sub_ok_ext max_len s s' key sub :
  (forall ty, (counter s ty <= counter s' ty)%N) ->
  (forall ty, subscription_ids_for_event_type s' ty = subscription_ids_for_event_type s ty) ->
  sub_ok max_len s key sub -> sub_ok max_len s' key sub.
Proof.
  intros Hc Hi' [Hk Hi Hl Hs Ht Hf]. split; try done.
  { intros ty. by rewrite Hi'. }
  eapply Forall_impl; [exact Ht|]. intros i Hle. cbn in *. specialize (Hc (sub_event_type sub)). lia.
Qed.

Lemma prune_ok max_len ty window now s :
  state_ok max_len s -> state_ok max_len (prune_expired ty window now s).
Proof.
  intros [Hc Hi Hb Hs]. destruct (prune_frame ty window now s) as (En & Ei & Esub & _ & Eb). split.
  - intros ty'. unfold counter. rewrite En. apply Hc.
  - intros ty' key. unfold subscription_ids_for_event_type. rewrite Ei, Esub. apply Hi.
  - intros ty'. unfold counter. rewrite En, Eb, prune_seen. case_decide as Hty; [subst ty'|apply Hb].
    pose proof (prune_buffer_spec window now (buffer_of s ty)) as Hspec.
    unfold pruned_buffer. destruct (prune_buffer window now (buffer_of s ty)) as [kept dropped]; cbn.
    destruct Hspec as (gone & Hbuf & -> & _). apply buffer_ok_suffix. rewrite <- Hbuf. apply Hb.
  - intros key sub' Hkey. apply prune_sub in Hkey as (sub & d & Hsub & -> & Hq).
    apply (sub_ok_ext _ s).
    + intros. unfold counter. by rewrite En.
    + intros. unfold subscription_ids_for_event_type. by rewrite Ei.
    + eapply sub_ok_suffix; [by apply Hs|exact Hq].
Qed.

(** ** Publishing *)

(** An assigned cursor must be above every cursor its type has used. *)
Definition assignable (s : BrokerState) (ty : string) (assigned : option N) : Prop :=
  match assigned with None => True | Some c => (counter s ty < c <= u64_max)%N end.

Lemma next_cursors_spec s ty assigned c top :
  assignable s ty assigned -> (counter s ty <= u64_max)%N ->
  next_cursors (counter s ty) assigned = (c, top) ->
  top = c /\ (c <= u64_max)%N /\ (counter s ty <= c)%N /\ ((counter s ty < c)%N \/ c = u64_max).
Proof.
  unfold assignable, next_cursors, saturating_add, before. destruct assigned; intros Ha Hc [= <- <-]; lia.
Qed.

(** The state after a new event was stored. *)
Lemma store_new_event max_len now e assigned s c top :
  id e ∉ seen_of s (event_type e) ->
  next_cursors (counter s (event_type e)) assigned = (c, top) ->
  let item := {| cursor := c; published_at := now; event := e |} in
  let s' := store_event max_len now e assigned s in
  next_cursor s' = <[event_type e := top]> (next_cursor s) /\
  buffers s' = <[event_type e := buffer_of s (event_type e) ++ [item]]> (buffers s) /\
  seen_event_ids s' = <[event_type e := {[id e]} ∪ seen_of s (event_type e)]> (seen_event_ids s) /\
  subscriptions_by_event_type s' = subscriptions_by_event_type s /\
  next_subscription s' = next_subscription s /\
  subscriptions s' = update_subscriptions (subscription_ids_for_event_type s (event_type e))
    (fun sub => if subject_matches (sub_subject_id sub) e
                then set_queue (enqueue_with_drop_oldest max_len (queue sub) item) sub else sub)
    (subscriptions s).
Proof.
  intros Hnew Hc. unfold store_event. rewrite decide_False by done. cbn. unfold counter in Hc.
  rewrite Hc. done.
Qed.

Lemma buffer_ok_snoc ty top seen buffer c now e :
  buffer_ok ty top seen buffer -> id e ∉ seen -> event_type e = ty ->
  (top <= c)%N -> (top < c)%N \/ c = u64_max ->
  buffer_ok ty c ({[id e]} ∪ seen) (buffer ++ [{| cursor := c; published_at := now; event := e |}]).
Proof.
  intros [Hs Ht Hn Hseen Hty] Hnew He Hle Hc. split.
  - rewrite cursors_app. by eapply before_snoc; [|apply cursors_top|].
  - apply Forall_app. split; [|by apply Forall_singleton].
    eapply Forall_impl; [exact Ht|]. cbn. intros. lia.
  - rewrite ids_app. apply NoDup_app. split_and!; [done| |apply NoDup_singleton].
    intros x Hx ->%list_elem_of_singleton. apply Hnew. rewrite Hseen. by apply elem_of_list_to_set.
  - rewrite ids_app, list_to_set_app_L, Hseen. cbn. set_solver.
  - apply Forall_app. by split; [|apply Forall_singleton].
Qed.

Lemma sub_ok_enqueue max_len s s' key sub c now e :
  1 <= max_len -> sub_ok max_len s key sub ->
  (forall ty, (counter s ty <= counter s' ty)%N) ->
  (forall ty, subscription_ids_for_event_type s' ty = subscription_ids_for_event_type s ty) ->
  event_type e = sub_event_type sub -> subject_matches (sub_subject_id sub) e = true ->
  (counter s (sub_event_type sub) < c)%N \/ c = u64_max ->
  (c <= counter s' (sub_event_type sub))%N ->
  sub_ok max_len s' key (set_queue (enqueue_with_drop_oldest max_len (queue sub)
    {| cursor := c; published_at := now; event := e |}) sub).
Proof.
  intros Hk [Hkey Hi Hl Hs Ht Hf] Hcs Hidx Hty Hsubj Hc Htop.
  set (item := {| cursor := c; published_at := now; event := e |}).
  rewrite enqueue_drop by done. set (q := queue sub ++ [item]).
  assert (Hq : q = take (length q - max_len) q ++ drop (length q - max_len) q) by (by rewrite take_drop).
  assert (Hall : StronglySorted before (cursors q) /\
    Forall (fun i => (cursor i <= counter s' (sub_event_type sub))%N) q /\
    Forall (fun i => event_type (event i) = sub_event_type sub /\
      subject_matches (sub_subject_id sub) (event i) = true) q).
  { unfold q. rewrite cursors_app, !Forall_app, !Forall_singleton. split_and!; try done.
    - by eapply before_snoc; [|apply cursors_top|].
    - eapply Forall_impl; [exact Ht|]. cbn. intros x Hx. specialize (Hcs (sub_event_type sub)). lia. }
  destruct Hall as (Hs' & Ht' & Hf'). split; cbn; try done.
  - intros ty. by rewrite Hidx.
  - rewrite length_drop. lia.
  - rewrite Hq, cursors_app in Hs'. by eapply StronglySorted_suffix.
  - rewrite Hq in Ht'. by apply Forall_app in Ht' as [_ ?].
  - rewrite Hq in Hf'. by apply Forall_app in Hf' as [_ ?].
Qed.

Lemma buffer_of_insert s s' ty buffer ty' :
  buffers s' = <[ty := buffer]> (buffers s) ->
  buffer_of s' ty' = if decide (ty' = ty) then buffer else buffer_of s ty'.
Proof.
  intros Hb. unfold buffer_of. rewrite Hb. case_decide; [subst; by rewrite lookup_insert_eq|].
  by rewrite lookup_insert_ne by done.
Qed.

Lemma seen_of_insert s s' ty seen ty' :
  seen_event_ids s' = <[ty := seen]> (seen_event_ids s) ->
  seen_of s' ty' = if decide (ty' = ty) then seen else seen_of s ty'.
Proof.
  intros Hb. unfold seen_of. rewrite Hb. case_decide; [subst; by rewrite lookup_insert_eq|].
  by rewrite lookup_insert_ne by done.
Qed.

Lemma counter_insert s s' ty top ty' :
  next_cursor s' = <[ty := top]> (next_cursor s) ->
  counter s' ty' = if decide (ty' = ty) then top else counter s ty'.
Proof.
  intros Hb. unfold counter. rewrite Hb. case_decide; [subst; by rewrite lookup_insert_eq|].
  by rewrite lookup_insert_ne by done.
Qed.

Lemma store_event_ok max_len now e assigned s :
  1 <= max_len -> state_ok max_len s -> assignable s (event_type e) assigned ->
  state_ok max_len (store_event max_len now e assigned s).
Proof.
  intros Hk [Hc Hix Hb Hs] Ha. destruct (decide (id e ∈ seen_of s (event_type e))) as [Hseen|Hnew].
  { unfold store_event. rewrite decide_True by done. split; cbn; [done|done| |].
    - intros ty.
      rewrite (seen_of_insert s (set_seen _ s) (event_type e) (seen_of s (event_type e)) ty) by done.
      case_decide; [subst|]; apply Hb.
    - intros key sub Hsub. by apply (sub_ok_ext _ s); [..|apply Hs]. }
  destruct (next_cursors (counter s (event_type e)) assigned) as [c top] eqn:Hn.
  destruct (next_cursors_spec _ _ _ _ _ Ha (Hc _) Hn) as (-> & Hmax & Hle & Hlt).
  destruct (store_new_event max_len now e assigned s c c Hnew Hn) as (En & Eb & Es & Ei & Enx & Eq).
  set (s' := store_event max_len now e assigned s) in *.
  assert (Hcount : forall ty, (counter s ty <= counter s' ty)%N).
  { intros ty. rewrite (counter_insert s s' _ _ ty En). case_decide; [subst; lia|lia]. }
  assert (Hidx : forall ty, subscription_ids_for_event_type s' ty = subscription_ids_for_event_type s ty)
    by (intros; unfold subscription_ids_for_event_type; by rewrite Ei).
  split.
  - intros ty. rewrite (counter_insert s s' _ _ ty En). case_decide; [done|apply Hc].
  - intros ty key. rewrite Hidx, Enx. apply Hix.
  - intros ty.
    rewrite (counter_insert s s' _ _ ty En), (buffer_of_insert s s' _ _ ty Eb), (seen_of_insert s s' _ _ ty Es).
    case_decide; [subst ty|apply Hb]. by eapply buffer_ok_snoc.
  - intros key sub'. rewrite Eq. unfold update_subscriptions. rewrite map_lookup_imap.
    destruct (subscriptions s !! key) as [sub|] eqn:Hsub; cbn; [|done]. intros [= <-].
    specialize (Hs _ _ Hsub).
    assert (Hkeep : sub_ok max_len s' key sub) by (by eapply sub_ok_ext).
    case_decide as Hin; [|done]. destruct (subject_matches _ e) eqn:Hsubj; [|done].
    apply (sub_indexed _ _ _ _ Hs) in Hin.
    eapply sub_ok_enqueue; [done|exact Hs|done|done|done|done|by rewrite <- Hin|].
    rewrite <- Hin, (counter_insert s s' _ _ _ En). by rewrite decide_True.
Qed.

(** ** The operations *)

Section operations.
Context `{Semver}.

(** Evidence is not part of the invariant. *)
Lemma state_ok_evidence max_len s ev : state_ok max_len s -> state_ok max_len (set_evidence ev s).
Proof. intros [Hc Hi Hb Hs]. split; try done. intros key sub Hsub. by apply (sub_ok_ext _ s); [..|apply Hs]. Qed.

Lemma validate_boundary_frame b e :
  exists ev, (validate_boundary b e).1 = with_state (set_evidence ev (state b)) b.
Proof. unfold validate_boundary. eauto. Qed.

Lemma publish_internal_ok b now e assigned :
  broker_ok b -> assignable (state b) (event_type e) assigned ->
  broker_ok (publish_internal b now e assigned).1.
Proof.
  intros [Hk Hs] Ha. unfold publish_internal.
  destruct (validate_boundary_frame b e) as [ev Hev].
  destruct (validate_boundary b e) as [b1 validated]. cbn in Hev. subst b1.
  assert (Hs1 : state_ok (max_queue_len (config b)) (set_evidence ev (state b)))
    by (by apply state_ok_evidence).
  destruct (_ ≫= _); cbn; [|by split]. split; [done|]. cbn.
  apply store_event_ok; [done|by apply prune_ok|].
  destruct (prune_frame (event_type e) (retention_window (config b)) now (set_evidence ev (state b)))
    as (En & _).
  unfold assignable, counter in *. destruct assigned; [|done]. by rewrite En.
Qed.

(** The queue a new subscription starts with. *)
Lemma replay_queue_ok max_len ty top seen buffer from subject :
  1 <= max_len -> buffer_ok ty top seen buffer ->
  let q := foldl (enqueue_with_drop_oldest max_len) [] (List.filter (replayed from subject) buffer) in
  length q <= max_len /\ StronglySorted before (cursors q) /\
  Forall (fun i => (cursor i <= top)%N) q /\
  Forall (fun i => event_type (event i) = ty /\ subject_matches subject (event i) = true) q.
Proof.
  intros Hk Hb q. unfold q. rewrite enqueue_all_drop by done. set (l := List.filter _ _). split_and!.
  - rewrite length_drop. lia.
  - assert (Hl : StronglySorted before (cursors l)) by (apply sorted_filter, Hb).
    rewrite <- (take_drop (length l - max_len) l), cursors_app in Hl. by eapply StronglySorted_suffix.
  - apply Forall_drop, Forall_List_filter, Hb.
  - apply Forall_drop, Forall_forall. intros i Hi'.
    apply list_elem_of_In, filter_In in Hi' as [Hin Hrep]. unfold replayed in Hrep. to_props.
    split; [|done]. pose proof (buffer_type _ _ _ _ Hb) as Ht.
    rewrite Forall_forall in Ht. apply Ht. by apply list_elem_of_In.
Qed.

Lemma subscribe_ok b now ty raw subject consumer :
  broker_ok b -> (next_subscription (state b) < u64_max)%N ->
  broker_ok (subscribe_with_subject b now ty raw subject consumer).1.
Proof.
  intros [Hk Hok] Hfresh. unfold subscribe_with_subject.
  destruct (catalog b !! ty); [|done]. destruct (parse_cursor raw) as [from|]; [|done].
  set (s := prune_expired ty (retention_window (config b)) now (state b)).
  assert (Hs : state_ok (max_queue_len (config b)) s) by (by apply prune_ok).
  assert (Hnext : next_subscription s = next_subscription (state b))
    by apply (prune_frame ty (retention_window (config b)) now (state b)).
  destruct (validate_from_cursor s ty from); [|by split]. cbn. split; [done|]. cbn.
  assert (Hn : saturating_add (next_subscription s) 1 = (next_subscription s + 1)%N)
    by (unfold saturating_add; lia). rewrite Hn.
  change ("sub-" +:+ u64_to_string (next_subscription s + 1)) with (sub_name (next_subscription s + 1)).
  destruct Hs as [Hc Hi Hb Hsubs].
  assert (Hnew : forall ty', sub_name (next_subscription s + 1) ∉ subscription_ids_for_event_type s ty').
  { intros ty' (n & Hle & Heq%(inj sub_name))%Hi. lia. }
  split; cbn.
  - done.
  - intros ty' key. unfold subscription_ids_for_event_type at 1. cbn.
    destruct (decide (ty' = ty)) as [->|Hne].
    + rewrite lookup_insert_eq. cbn. intros [->%elem_of_singleton|(n & ? & ?)%Hi]%elem_of_union; [eauto with lia|].
      exists n. split; [lia|done].
    + rewrite lookup_insert_ne by done. intros (n & ? & ?)%Hi. exists n. split; [lia|done].
  - done.
  - apply map_Forall_insert_2; [|intros key sub Hsub; specialize (Hsubs _ _ Hsub)].
    + pose proof (replay_queue_ok _ _ _ _ _ from subject Hk (Hb ty)) as Hq.
      split; cbn; [done| | | | |].
      * intros ty'. unfold subscription_ids_for_event_type at 1. cbn.
        destruct (decide (ty' = ty)) as [->|Hne]; [rewrite lookup_insert_eq; set_solver|].
        rewrite lookup_insert_ne by done. split; [|done]. intros Hin. by apply Hnew in Hin.
      * apply Hq.
      * apply Hq.
      * apply Hq.
      * apply Hq.
    + split; try apply Hsubs. intros ty'. cbn. unfold subscription_ids_for_event_type at 1. cbn.
      destruct (decide (ty' = ty)) as [->|Hne].
      * rewrite lookup_insert_eq. cbn. rewrite elem_of_union, elem_of_singleton.
        pose proof (sub_indexed _ _ _ _ Hsubs ty) as Hix. split; [|intros; right; by apply Hix].
        intros [->|?]; [|by apply Hix].
        exfalso. apply (Hnew (sub_event_type sub)). by apply (sub_indexed _ _ _ _ Hsubs).
      * rewrite lookup_insert_ne by done. apply (sub_indexed _ _ _ _ Hsubs).
Qed.

(** Removing a subscription, and putting one back. *)
Lemma state_ok_delete max_len s sid :
  state_ok max_len s -> state_ok max_len (set_subscriptions (delete sid (subscriptions s)) s).
Proof.
  intros [Hc Hi Hb Hs]. split; try done. cbn. intros key sub [_ Hsub]%lookup_delete_Some.
  by apply (sub_ok_ext _ s); [..|apply Hs].
Qed.

Lemma state_ok_insert max_len s sid sub :
  state_ok max_len s -> sub_ok max_len s sid sub ->
  state_ok max_len (set_subscriptions (<[sid := sub]> (subscriptions s)) s).
Proof.
  intros [Hc Hi Hb Hs] Hsub. split; try done. cbn. apply map_Forall_insert_2.
  - by apply (sub_ok_ext _ s).
  - intros key sub' Hsub'. by apply (sub_ok_ext _ s); [..|apply Hs].
Qed.

(** A successful poll: the subscription's queue is cut at the front by retention,
    a prefix of the rest is handed over, and the remainder put back. *)
Lemma poll_spec b now sid n b' p :
  broker_ok b -> poll b now sid n = (b', Ok p) ->
  exists sub expired items rest ev c,
    subscriptions (state b) !! sid = Some sub /\ queue sub = expired ++ items ++ rest /\
    length items <= n /\ (rest <> [] -> length items = n) /\
    poll_events p = to_broker_event <$> items /\
    poll_cursor p = cursor_to_string (default (sub_cursor sub) (cursor <$> last items)) /\
    let s1 := prune_expired (sub_event_type sub) (retention_window (config b)) now
      (set_subscriptions (delete sid (subscriptions (state b))) (state b)) in
    b' = with_state (set_subscriptions
      (<[sid := set_sub_cursor c (set_queue rest sub)]> (subscriptions s1)) (set_evidence ev s1)) b.
Proof.
  intros Hok. unfold poll. destruct (subscriptions (state b) !! sid) as [sub|] eqn:Hsub; [|done].
  destruct (state_subs _ _ (proj2 Hok) _ _ Hsub) as [Hkey _ _ _ _ _].
  set (s1 := prune_expired _ _ _ _). cbn zeta.
  destruct (validate_from_cursor s1 _ _); [|done].
  set (sub1 := match buffer_of s1 (sub_event_type sub) with [] => sub | o :: _ => _ end).
  assert (Hcut : exists expired q, queue sub = expired ++ q /\ sub1 = set_queue q sub).
  { unfold sub1. destruct (buffer_of s1 _) as [|o ?]; [exists [], (queue sub); by destruct sub|].
    destruct (drop_while_suffix (fun i => (cursor i <? cursor o)%N) (queue sub)) as [d Hd].
    by exists d, (drop_before (cursor o) (queue sub)). }
  destruct Hcut as (expired & q & Hq & Hsub1). clearbody sub1. subst sub1.
  destruct (Nat.eqb_spec n 0) as [->|Hn].
  - intros [= <- <-]. exists sub, expired, [], q, (evidence s1), (sub_cursor sub).
    cbn. rewrite Hkey. by split_and!.
  - unfold deliver. intros [= <- <-].
    exists sub, expired, (take n q), (drop n q),
      (count_deliveries (length (take n q)) (foldl (record_delivery (set_queue q sub)) (evidence s1) (take n q))),
      (default (sub_cursor sub) (cursor <$> last (take n q))).
    rewrite take_drop. cbn. rewrite Hkey. split_and!; try done.
    + rewrite length_take. lia.
    + intros Hne. apply length_take_le.
      destruct (Nat.le_gt_cases n (length q)) as [|Hgt]; [done|].
      by rewrite drop_ge in Hne by lia.
Qed.

Lemma sub_ok_rest max_len s sid sub expired items rest c :
  sub_ok max_len s sid sub -> queue sub = expired ++ items ++ rest ->
  sub_ok max_len s sid (set_sub_cursor c (set_queue rest sub)).
Proof.
  intros Hsub Hq. apply sub_ok_cursor. apply (sub_ok_suffix _ _ _ _ (expired ++ items)); [done|].
  by rewrite <- app_assoc.
Qed.

Lemma poll_ok b now sid n : broker_ok b -> broker_ok (poll b now sid n).1.
Proof.
  intros Hok. destruct (poll b now sid n) as [b' [p|err]] eqn:Hp; cbn.
  - destruct (poll_spec _ _ _ _ _ _ Hok Hp) as (sub & expired & items & rest & ev & c & Hsub & Hq & _ & _ & _ & _ & ->).
    destruct Hok as [Hk Hs]. split; [done|]. cbn.
    set (s1 := prune_expired _ _ _ _).
    assert (Hs1 : state_ok (max_queue_len (config b)) s1) by (by apply prune_ok, state_ok_delete).
    apply (state_ok_evidence _ _ ev) in Hs1. apply (state_ok_insert _ (set_evidence ev s1)); [done|].
    apply (sub_ok_ext _ (state b)).
    + intros ty. unfold counter. cbn. unfold s1. by rewrite (proj1 (prune_frame _ _ _ _)).
    + intros ty. unfold subscription_ids_for_event_type. cbn. unfold s1.
      by rewrite (proj1 (proj2 (prune_frame _ _ _ _))).
    + eapply sub_ok_rest; [by apply Hs|exact Hq].
  - unfold poll in Hp. destruct Hok as [Hk Hs].
    destruct (subscriptions (state b) !! sid) as [sub|]; [|by injection Hp as <- _].
    destruct (validate_from_cursor _ _ _).
    + destruct (n =? 0)%nat; [done|]. by destruct (deliver _ _ _) as [[? ?] ?].
    + injection Hp as <- _. split; [done|]. by apply prune_ok, state_ok_delete.
Qed.

Lemma cancel_index s ty sid ty' key :
  key <> sid ->
  let index := match subscriptions_by_event_type s !! ty with
    | None => subscriptions_by_event_type s
    | Some ids => let ids := ids ∖ {[sid]} in
        if decide (ids = ∅) then delete ty (subscriptions_by_event_type s)
        else <[ty := ids]> (subscriptions_by_event_type s)
    end in
  key ∈ (default ∅ (index !! ty') : gset string) <-> key ∈ subscription_ids_for_event_type s ty'.
Proof.
  intros Hne. unfold subscription_ids_for_event_type. cbn zeta.
  destruct (subscriptions_by_event_type s !! ty) as [members|] eqn:Hty; [|done].
  destruct (decide (ty' = ty)) as [->|Hother].
  - rewrite Hty. cbn. case_decide as Hempty.
    + rewrite lookup_delete_eq. cbn. set_solver.
    + rewrite lookup_insert_eq. cbn. set_solver.
  - case_decide; [by rewrite lookup_delete_ne|by rewrite lookup_insert_ne].
Qed.

Lemma cancel_ok b sid : broker_ok b -> broker_ok (cancel b sid).1.
Proof.
  intros [Hk Hs]. unfold cancel. destruct (subscriptions (state b) !! sid) as [sub|] eqn:Hsub; [|done].
  split; [done|]. destruct Hs as [Hc Hi Hb Hs]. cbn -[cancel_index].
  pose proof (fun ty' key => cancel_index (state b) (sub_event_type sub) sid ty' key) as Hidx.
  cbn zeta in Hidx. split; cbn; [done| |done|].
  - intros ty' key Hin. destruct (decide (key = sid)) as [->|Hne].
    + apply (Hi (sub_event_type sub)). by apply (sub_indexed _ _ _ _ (Hs _ _ Hsub)).
    + by apply (Hi ty'), (Hidx ty' key Hne).
  - intros key sub' [Hne Hsub']%lookup_delete_Some. destruct (Hs _ _ Hsub') as [? Hix ? ? ? ?].
    split; try done. intros ty'. rewrite <- Hix. by apply (Hidx ty' key).
Qed.

Lemma seed_ok b floor : broker_ok b -> broker_ok (seed_restart_floor b floor).
Proof.
  intros [Hk [Hc Hi Hb Hs]]. split; [done|]. split; try done. cbn.
  intros key sub Hsub. by apply (sub_ok_ext _ (state b)); [..|apply Hs].
Qed.
End operations.
