(* ===== verification/BrokerProps.v ===== *)
(** * Properties of the event broker

    Invariant and ordered delivery over arbitrary sequences of operations, what
    publishing and subscribing do, and two behaviours of [poll] that the code's
    comments do not describe. *)
From S2P Require Import Prelude Json Events Broker BrokerInv.

Section properties.
Context `{Semver}.

(** ** Runs *)

(** What a step shows to the outside: an event published under an assigned cursor, a
    new subscription, or delivered events. *)
Inductive label :=
  | Quiet
  | Assigned (ty : string) (c : N)
  | Created (key : string)
  | Delivered (key : string) (events : list BrokerEvent).

(** The operations, at any clock reading and with any arguments; fewer than
    [u64::MAX] subscriptions are made. *)
Inductive broker_step : InProcessBroker -> label -> InProcessBroker -> Prop :=
  | step_publish b now e : broker_step b Quiet (publish b now e).1
  | step_publish_at b now e raw c :
      parse_cursor raw = Ok c -> broker_step b (Assigned (event_type e) c) (publish_with_cursor b now e raw).1
  | step_publish_at_error b now e raw err :
      parse_cursor raw = Err err -> broker_step b Quiet (publish_with_cursor b now e raw).1
  | step_seed b floor : broker_step b Quiet (seed_restart_floor b floor)
  | step_subscribe b now ty raw subject consumer b' h :
      (next_subscription (state b) < u64_max)%N ->
      subscribe_with_subject b now ty raw subject consumer = (b', Ok h) ->
      broker_step b (Created (handle_id h)) b'
  | step_subscribe_error b now ty raw subject consumer b' err :
      (next_subscription (state b) < u64_max)%N ->
      subscribe_with_subject b now ty raw subject consumer = (b', Err err) ->
      broker_step b Quiet b'
  | step_poll b now sid n b' p :
      poll b now sid n = (b', Ok p) -> broker_step b (Delivered sid (poll_events p)) b'
  | step_poll_error b now sid n b' err :
      poll b now sid n = (b', Err err) -> broker_step b Quiet b'
  | step_cancel b sid : broker_step b Quiet (cancel b sid).1.

Lemma publish_at_internal b now e raw c :
  parse_cursor raw = Ok c -> publish_with_cursor b now e raw = publish_internal b now e (Some c).
Proof. unfold publish_with_cursor. by intros ->. Qed.

Lemma publish_at_refused b now e raw err :
  parse_cursor raw = Err err -> publish_with_cursor b now e raw = (b, Err err).
Proof. unfold publish_with_cursor. by intros ->. Qed.

(** An assigned cursor is above those its type has used. *)
Definition orderly (b : InProcessBroker) (l : label) : Prop :=
  match l with Assigned ty c => assignable (state b) ty (Some c) | _ => True end.

Lemma broker_step_ok b l b' : broker_step b l b' -> orderly b l -> broker_ok b -> broker_ok b'.
Proof.
  intros Hstep Ho Hok. destruct Hstep.
  - by apply publish_internal_ok.
  - erewrite publish_at_internal by done. by apply publish_internal_ok.
  - by erewrite publish_at_refused.
  - by apply seed_ok.
  - pose proof (subscribe_ok b now ty raw subject consumer Hok ltac:(done)) as Hs.
    by rewrite H1 in Hs.
  - pose proof (subscribe_ok b now ty raw subject consumer Hok ltac:(done)) as Hs.
    by rewrite H1 in Hs.
  - pose proof (poll_ok b now sid n Hok) as Hs. by rewrite H0 in Hs.
  - pose proof (poll_ok b now sid n Hok) as Hs. by rewrite H0 in Hs.
  - by apply cancel_ok.
Qed.

(** The events a label delivers to one subscription. *)
Definition deliveries_to (sid : string) (l : label) : list BrokerEvent :=
  match l with
  | Delivered key events => if decide (key = sid) then events else []
  | _ => []
  end.

(** A run in which assigned cursors are orderly and [sid] is not handed out again, with
    the events delivered to it. *)
Inductive broker_run (sid : string) : InProcessBroker -> list BrokerEvent -> InProcessBroker -> Prop :=
  | run_done b : broker_run sid b [] b
  | run_step b l b1 events b2 :
      broker_step b l b1 -> orderly b l -> l <> Created sid -> broker_run sid b1 events b2 ->
      broker_run sid b (deliveries_to sid l ++ events) b2.

(** ** How one subscription evolves *)

Lemma StronglySorted_sublist {A} (R : relation A) l1 l2 :
  l1 `sublist_of` l2 -> StronglySorted R l2 -> StronglySorted R l1.
Proof.
  induction 1 as [|x l1 l2 Hsub IH|x l1 l2 Hsub IH]; intros Hs; [done| |].
  - apply StronglySorted_inv in Hs as [Hs Hx]. constructor; [by apply IH|].
    rewrite Forall_forall in *. intros y Hy. apply Hx.
    eapply elem_of_submseteq; [exact Hy|by apply sublist_submseteq].
  - apply StronglySorted_inv in Hs as [Hs _]. by apply IH.
Qed.

(** From one state to another, a subscription loses queued events (delivered or
    dropped) and gains at most new ones, above the old counter. *)
Record evolves (sid : string) (s s' : BrokerState) (items : list BufferedEvent) : Prop := {
  evolves_counter ty : (counter s ty <= counter s' ty)%N;
  evolves_sub sub' : subscriptions s' !! sid = Some sub' ->
    exists sub kept new,
      subscriptions s !! sid = Some sub /\ sub_event_type sub' = sub_event_type sub /\
      queue sub' = kept ++ new /\ items ++ kept `sublist_of` queue sub /\
      (new = [] \/ exists i, new = [i] /\
        ((counter s (sub_event_type sub) < cursor i)%N \/ cursor i = u64_max));
  evolves_items : items = [] \/ is_Some (subscriptions s' !! sid) }.

Lemma evolves_refl sid s s' :
  next_cursor s' = next_cursor s -> subscriptions s' !! sid = subscriptions s !! sid -> evolves sid s s' [].
Proof.
  intros Hn Hs. split; [intros; unfold counter; by rewrite Hn| |by left]. rewrite Hs.
  intros sub Hsub. exists sub, (queue sub), []. rewrite app_nil_r. by split_and!; [..|left].
Qed.

Lemma evolves_gone sid s s' :
  next_cursor s' = next_cursor s -> subscriptions s' !! sid = None -> evolves sid s s' [].
Proof.
  intros Hn Hs. split; [intros; unfold counter; by rewrite Hn| |by left]. rewrite Hs. done.
Qed.

(** Pruning first only drops more. *)
Lemma evolves_after_prune sid ty window now s s' items :
  evolves sid (prune_expired ty window now s) s' items -> evolves sid s s' items.
Proof.
  destruct (prune_frame ty window now s) as (En & _). intros [Hc Hs Hi]. split; [| |done].
  - intros ty'. specialize (Hc ty'). unfold counter in *. by rewrite En in Hc.
  - intros sub' Hsub'. destruct (Hs _ Hsub') as (sub1 & kept & new & Hsub1 & Hty & Hq & Hsubl & Hnew).
    apply prune_sub in Hsub1 as (sub & d & Hsub & Heq & Hq1).
    assert (Hty1 : sub_event_type sub1 = sub_event_type sub) by (by rewrite Heq).
    exists sub, kept, new. rewrite <- Hty1. split_and!; [done|done|done| |].
    + rewrite Hq1. by apply sublist_inserts_l.
    + destruct Hnew as [?|(i & -> & Hi')]; [by left|right]. exists i. split; [done|].
      unfold counter in *. by rewrite En in Hi'.
Qed.

Lemma evolves_store max_len sid now e assigned s :
  1 <= max_len -> state_ok max_len s -> assignable s (event_type e) assigned ->
  evolves sid s (store_event max_len now e assigned s) [].
Proof.
  intros Hk Hok Ha. destruct (decide (id e ∈ seen_of s (event_type e))) as [Hseen|Hnew].
  { unfold store_event. rewrite decide_True by done. split; [done| |by left].
    cbn. intros sub Hsub. exists sub, (queue sub), []. rewrite app_nil_r. by split_and!; [..|left]. }
  destruct (next_cursors (counter s (event_type e)) assigned) as [c top] eqn:Hn.
  destruct (next_cursors_spec _ _ _ _ _ Ha (state_counter _ _ Hok _) Hn) as (-> & Hmax & Hle & Hlt).
  destruct (store_new_event max_len now e assigned s c c Hnew Hn) as (En & _ & _ & _ & _ & Eq).
  set (s' := store_event max_len now e assigned s) in *. split; [..|by left].
  - intros ty. rewrite (counter_insert s s' _ _ ty En). case_decide; [subst; lia|lia].
  - intros sub'. rewrite Eq. unfold update_subscriptions. rewrite map_lookup_imap.
    destruct (subscriptions s !! sid) as [sub|] eqn:Hsub; cbn; [|done]. intros [= <-].
    assert (Hsame : exists sub0 kept new, Some sub = Some sub0 /\ sub_event_type sub = sub_event_type sub0 /\
      queue sub = kept ++ new /\ kept `sublist_of` queue sub0 /\
      (new = [] \/ exists i, new = [i] /\
        ((counter s (sub_event_type sub0) < cursor i)%N \/ cursor i = u64_max))).
    { exists sub, (queue sub), []. rewrite app_nil_r. by split_and!; [..|left]. }
    case_decide as Hin; [|done]. destruct (subject_matches _ e); [|done].
    apply (sub_indexed _ _ _ _ (state_subs _ _ Hok _ _ Hsub)) in Hin.
    exists sub, (pop_to max_len (queue sub)), [{| cursor := c; published_at := now; event := e |}].
    split_and!; [done|done|done| |].
    + rewrite pop_to_drop by done. apply sublist_drop.
    + right. eexists. split; [done|]. cbn. by rewrite <- Hin.
Qed.

Lemma evolves_publish sid b now e assigned :
  broker_ok b -> assignable (state b) (event_type e) assigned ->
  evolves sid (state b) (state (publish_internal b now e assigned).1) [].
Proof.
  intros [Hk Hok] Ha. unfold publish_internal.
  destruct (validate_boundary_frame b e) as [ev Hev].
  destruct (validate_boundary b e) as [b1 validated]. cbn in Hev. subst b1.
  destruct (_ ≫= _); cbn; [|by apply evolves_refl].
  set (s := set_evidence ev (state b)).
  assert (Hs : state_ok (max_queue_len (config b)) s) by (by apply state_ok_evidence).
  assert (Hev : evolves sid s (store_event (max_queue_len (config b)) now e assigned
    (prune_expired (event_type e) (retention_window (config b)) now s)) []).
  { eapply evolves_after_prune, evolves_store; [done|by apply prune_ok|].
    destruct (prune_frame (event_type e) (retention_window (config b)) now s) as (En & _).
    unfold assignable, counter in *. destruct assigned; [|done]. by rewrite En. }
  destruct Hev as [Hc Hsub Hi]. by split.
Qed.

Lemma evolves_subscribe sid b now ty raw subject consumer b' r :
  broker_ok b -> (next_subscription (state b) < u64_max)%N ->
  subscribe_with_subject b now ty raw subject consumer = (b', r) ->
  (forall h, r = Ok h -> handle_id h <> sid) -> evolves sid (state b) (state b') [].
Proof.
  intros Hok Hfresh. unfold subscribe_with_subject.
  destruct (catalog b !! ty); [|intros [= <- <-] _; by apply evolves_refl].
  destruct (parse_cursor raw) as [from|]; [|intros [= <- <-] _; by apply evolves_refl].
  destruct (validate_from_cursor _ ty from); cbn zeta; intros [= <- <-] Hne; cbn;
    apply (evolves_after_prune sid ty (retention_window (config b)) now); [|by apply evolves_refl].
  apply evolves_refl; [done|]. cbn. rewrite lookup_insert_ne; [done|]. by apply (Hne _ eq_refl).
Qed.

Lemma evolves_poll sid b now key n b' p :
  broker_ok b -> poll b now key n = (b', Ok p) ->
  exists items, evolves sid (state b) (state b') items /\
    deliveries_to sid (Delivered key (poll_events p)) = to_broker_event <$> items.
Proof.
  intros Hok Hp.
  destruct (poll_spec _ _ _ _ _ _ Hok Hp)
    as (sub & expired & items & rest & ev & c & Hsub & Hq & _ & _ & Hev & _ & ->).
  set (s0 := set_subscriptions (delete key (subscriptions (state b))) (state b)). cbn -[prune_expired].
  destruct (prune_frame (sub_event_type sub) (retention_window (config b)) now s0) as (En & _).
  destruct (decide (key = sid)) as [->|Hne].
  - exists items. split; [|by rewrite Hev]. split; cbn -[prune_expired].
    + intros ty. unfold counter. cbn -[prune_expired]. by rewrite En.
    + intros sub'. rewrite lookup_insert_eq. intros [= <-]. exists sub, rest, []. cbn.
      rewrite app_nil_r. split_and!; [done|done|done| |by left]. rewrite Hq. by apply sublist_inserts_l.
    + right. rewrite lookup_insert_eq. eauto.
  - exists []. split; [|done].
    assert (Hs0 : evolves sid (state b) s0 []) by (apply evolves_refl; [done|]; by apply lookup_delete_ne).
    assert (Hs1 : evolves sid s0 (prune_expired (sub_event_type sub) (retention_window (config b)) now s0) [])
      by (eapply evolves_after_prune; by apply evolves_refl).
    split; [..|by left]; cbn -[prune_expired].
    + intros ty. unfold counter. cbn -[prune_expired]. by rewrite En.
    + intros sub'. rewrite lookup_insert_ne by done. intros Hsub'.
      destruct (evolves_sub _ _ _ _ Hs1 _ Hsub') as (sub1 & kept & new & Hsub1 & Hrest).
      exists sub1, kept, new. split; [|exact Hrest]. cbn in Hsub1. by rewrite lookup_delete_ne in Hsub1.
Qed.

Lemma evolves_poll_error sid b now key n b' err :
  poll b now key n = (b', Err err) -> evolves sid (state b) (state b') [].
Proof.
  unfold poll. destruct (subscriptions (state b) !! key) as [sub|]; [|intros [= <- _]; by apply evolves_refl].
  destruct (validate_from_cursor _ _ _).
  { cbn zeta. destruct (n =? 0)%nat; [done|]. by destruct (deliver _ _ _) as [[? ?] ?]. }
  intros [= <- _]. cbn -[prune_expired].
  set (s0 := set_subscriptions (delete key (subscriptions (state b))) (state b)).
  destruct (decide (key = sid)) as [->|Hne].
  - destruct (prune_frame (sub_event_type sub) (retention_window (config b)) now s0) as (En & _).
    apply evolves_gone; [done|]. apply prune_subs. apply lookup_delete_eq.
  - assert (Hs1 : evolves sid s0 (prune_expired (sub_event_type sub) (retention_window (config b)) now s0) [])
      by (eapply evolves_after_prune; by apply evolves_refl).
    destruct Hs1 as [Hc Hs Hi]. split; [done| |done].
    intros sub' Hsub'. destruct (Hs _ Hsub') as (sub1 & kept & new & Hsub1 & Hrest).
    exists sub1, kept, new. split; [|exact Hrest]. cbn in Hsub1. by rewrite lookup_delete_ne in Hsub1.
Qed.

Lemma evolves_cancel sid b key : evolves sid (state b) (state (cancel b key).1) [].
Proof.
  unfold cancel. destruct (subscriptions (state b) !! key); [|by apply evolves_refl]. cbn.
  destruct (decide (key = sid)) as [->|Hne].
  - apply evolves_gone; [done|]. apply lookup_delete_eq.
  - apply evolves_refl; [done|]. by apply lookup_delete_ne.
Qed.

Lemma step_evolves sid b l b' :
  broker_step b l b' -> orderly b l -> broker_ok b -> l <> Created sid ->
  exists items, evolves sid (state b) (state b') items /\ deliveries_to sid l = to_broker_event <$> items.
Proof.
  intros Hstep Ho Hok Hl. destruct Hstep.
  - exists []. split; [|done]. by apply evolves_publish.
  - exists []. split; [|done]. erewrite publish_at_internal by done. by apply evolves_publish.
  - exists []. split; [|done]. erewrite publish_at_refused by done. by apply evolves_refl.
  - exists []. split; [|done]. by apply evolves_refl.
  - exists []. split; [|done]. eapply evolves_subscribe; [done|done|done|]. intros ? [= <-] ?. by subst.
  - exists []. split; [|done]. by eapply evolves_subscribe.
  - by eapply evolves_poll.
  - exists []. split; [|done]. by eapply evolves_poll_error.
  - exists []. split; [|done]. apply evolves_cancel.
Qed.

(** The cursors delivered so far come before everything still queued. *)
Record tracked (sid ty : string) (s : BrokerState) (delivered : list N) : Prop := {
  tracked_top : Forall (fun c => (c <= counter s ty)%N) delivered;
  tracked_sorted : StronglySorted before delivered;
  tracked_queue sub : subscriptions s !! sid = Some sub ->
    sub_event_type sub = ty /\ StronglySorted before (delivered ++ cursors (queue sub)) }.

Lemma cursors_sublist l1 l2 : l1 `sublist_of` l2 -> cursors l1 `sublist_of` cursors l2.
Proof. unfold cursors. induction 1; cbn; by constructor. Qed.

Lemma Forall_sublist_of {A} (P : A -> Prop) l1 l2 : l1 `sublist_of` l2 -> Forall P l2 -> Forall P l1.
Proof.
  rewrite !Forall_forall. intros Hsub Hl2 x Hx. apply Hl2.
  eapply elem_of_submseteq; [exact Hx|by apply sublist_submseteq].
Qed.

Lemma tracked_step max_len sid ty s s' items delivered :
  state_ok max_len s -> tracked sid ty s delivered -> evolves sid s s' items ->
  tracked sid ty s' (delivered ++ cursors items).
Proof.
  intros Hok [Ht Hs Hq] [Hc Hsub Hi].
  destruct (subscriptions s' !! sid) as [sub'|] eqn:Hsub'.
  - destruct (Hsub _ eq_refl) as (sub & kept & new & Hsub0 & Hty & Hq' & Hsubl & Hnew).
    destruct (Hq _ Hsub0) as [Hty0 Hsorted].
    assert (Hall : StronglySorted before ((delivered ++ cursors items) ++ cursors kept)).
    { rewrite <- app_assoc, <- cursors_app. eapply StronglySorted_sublist; [|exact Hsorted].
      apply sublist_app; [done|]. by apply cursors_sublist. }
    assert (Htop : Forall (fun c => (c <= counter s ty)%N) ((delivered ++ cursors items) ++ cursors kept)).
    { rewrite <- app_assoc, <- cursors_app. apply Forall_app. split; [done|].
      apply cursors_top. eapply Forall_sublist_of; [exact Hsubl|]. rewrite <- Hty0.
      apply (state_subs _ _ Hok _ _ Hsub0). }
    split.
    + apply Forall_app in Htop as [Htop _]. eapply Forall_impl; [exact Htop|]. intros c Hle.
      cbn in Hle. specialize (Hc ty). lia.
    + eapply StronglySorted_sublist; [|exact Hall]. apply sublist_inserts_r. done.
    + intros sub1 Heq. assert (sub1 = sub') as -> by congruence. split; [congruence|]. rewrite Hq', cursors_app.
      destruct Hnew as [->|(i & -> & Hi')]; [by rewrite app_nil_r|].
      rewrite app_assoc. rewrite Hty0 in Hi'. by eapply before_snoc.
  - destruct Hi as [->|[? ?]]; [|congruence]. rewrite app_nil_r. split; [|done|congruence].
    eapply Forall_impl; [exact Ht|]. cbn. intros c Hle. specialize (Hc ty). lia.
Qed.

Lemma run_tracked sid ty b events b' delivered :
  broker_run sid b events b' -> broker_ok b -> tracked sid ty (state b) delivered ->
  exists cs, broker_cursor <$> events = cursor_to_string <$> cs /\
    StronglySorted before (delivered ++ cs).
Proof.
  intros Hrun. revert delivered. induction Hrun as [b|b l b1 events b2 Hstep Ho Hl Hrun IH]; intros delivered Hok Htr.
  - exists []. rewrite app_nil_r. split; [done|apply Htr].
  - destruct (step_evolves sid b l b1 Hstep Ho Hok Hl) as (items & Hev & Hdel).
    destruct (IH (delivered ++ cursors items)) as (cs & Hcs & Hsorted).
    + by eapply broker_step_ok.
    + eapply tracked_step; [apply Hok|done|done].
    + exists (cursors items ++ cs). rewrite app_assoc. split; [|done].
      rewrite Hdel, !fmap_app, Hcs. f_equal. unfold cursors. rewrite <- !list_fmap_compose. done.
Qed.

(** C32: the events one subscription is handed, over all its polls, carry strictly
    increasing cursors (until the 64-bit counter saturates), whatever operations
    interleave, as long as every cursor assigned from outside is above those its type
    has used: nothing is delivered twice or out of order. *)
Theorem deliveries_in_order (b b' : InProcessBroker) (sid : string) (sub : SubscriptionState)
    (events : list BrokerEvent) :
  broker_ok b -> subscriptions (state b) !! sid = Some sub -> broker_run sid b events b' ->
  exists cs, broker_cursor <$> events = cursor_to_string <$> cs /\ StronglySorted before cs.
Proof.
  intros Hok Hsub Hrun. eapply (run_tracked sid (sub_event_type sub) b events b' []); [done|done|].
  split; [by apply Forall_nil|constructor|]. intros sub' Heq. simplify_eq.
  split; [done|]. apply (state_subs _ _ (proj2 Hok) _ _ Hsub).
Qed.

(** A broker reached from a fresh one, with orderly assigned cursors. *)
Definition broker_reachable (b : InProcessBroker) : Prop :=
  exists c cfg mode b0, with_clock_and_validation c cfg mode = Ok b0 /\
    rtc (fun b1 b2 => exists l, broker_step b1 l b2 /\ orderly b1 l) b0 b.

Lemma fresh_broker_ok c cfg mode b : with_clock_and_validation c cfg mode = Ok b -> broker_ok b.
Proof.
  unfold with_clock_and_validation. destruct (retention_window cfg =? 0)%Z; [done|].
  destruct (Nat.eqb_spec (max_queue_len cfg) 0); [done|]. intros [= <-]. split; [cbn; lia|].
  split; cbn; try done.
  intros ty. split; try constructor.
Qed.

Lemma broker_reachable_ok b : broker_reachable b -> broker_ok b.
Proof.
  intros (c & cfg & mode & b0 & H0 & Hrun). apply fresh_broker_ok in H0.
  induction Hrun as [|x y z (l & Hstep & Ho) _ IH]; [done|]. apply IH. by eapply broker_step_ok.
Qed.

(** In every reachable broker each queue holds at most [max_queue_len]
    events, all of its own type and passing its subject filter; the retained
    events of a type have increasing cursors and distinct ids; and the ids
    remembered for duplicate suppression are exactly those of the retained
    events. *)
Theorem broker_invariant (b : InProcessBroker) : broker_reachable b -> broker_ok b.
Proof. apply broker_reachable_ok. Qed.

(** A publish the catalog and the validation allow is discarded, leaving
    buffers, cursors and queues as pruning left them, exactly when an event with
    the same id is still retained for its type; otherwise it is retained under
    the next cursor. *)
Theorem publish_stores_once (b b' : InProcessBroker) (now : Z) (e : TraverseEvent) :
  broker_ok b -> publish b now e = (b', Ok tt) ->
  let ty := event_type e in
  let kept := pruned_buffer ty (retention_window (config b)) now (state b) in
  (id e ∈ ids kept -> buffer_of (state b') ty = kept /\ counter (state b') ty = counter (state b) ty) /\
  (id e ∉ ids kept ->
    let c := saturating_add (counter (state b) ty) 1 in
    buffer_of (state b') ty = kept ++ [{| cursor := c; published_at := now; event := e |}] /\
    counter (state b') ty = c).
Proof.
  intros [Hk Hok] Hpub. unfold publish, publish_internal in Hpub.
  destruct (validate_boundary_frame b e) as [ev Hev].
  destruct (validate_boundary b e) as [b1 validated]. cbn in Hev. subst b1.
  destruct (_ ≫= _); [|done]. injection Hpub as <-. cbn.
  set (s := set_evidence ev (state b)). set (s1 := prune_expired _ _ now s).
  assert (Hs : state_ok (max_queue_len (config b)) s) by (by apply state_ok_evidence).
  assert (Hs1 : state_ok (max_queue_len (config b)) s1) by (by apply prune_ok).
  destruct (prune_frame (event_type e) (retention_window (config b)) now s) as (En & _ & _ & _ & Eb).
  fold s1 in En, Eb. specialize (Eb (event_type e)). rewrite decide_True in Eb by done.
  change (pruned_buffer (event_type e) (retention_window (config b)) now s) with
    (pruned_buffer (event_type e) (retention_window (config b)) now (state b)) in Eb.
  assert (Hcnt : counter s1 (event_type e) = counter (state b) (event_type e))
    by (unfold counter; by rewrite En).
  pose proof (buffer_seen _ _ _ _ (state_buffers _ _ Hs1 (event_type e))) as Hseen. rewrite Eb in Hseen.
  split.
  - intros Hin. unfold store_event. rewrite decide_True.
    + split; [exact Eb|exact Hcnt].
    + rewrite Hseen. by apply elem_of_list_to_set.
  - intros Hnin.
    assert (Hnew : id e ∉ seen_of s1 (event_type e)) by (rewrite Hseen; by rewrite elem_of_list_to_set).
    destruct (store_new_event (max_queue_len (config b)) now e None s1 _ _ Hnew eq_refl)
      as (En' & Eb' & _). set (s2 := store_event _ now e None s1) in *.
    rewrite (buffer_of_insert s1 s2 _ _ _ Eb'), (counter_insert s1 s2 _ _ _ En'), !decide_True by done.
    by rewrite Eb, Hcnt.
Qed.

(** A new subscription starts with the retained events after its cursor that
    pass its subject filter, in order, keeping the newest [max_queue_len] when
    there are more. *)
Theorem subscribe_replays (b b' : InProcessBroker) (now : Z) (ty raw : string)
    (subject consumer : option string) (h : Subscription) :
  broker_ok b -> subscribe_with_subject b now ty raw subject consumer = (b', Ok h) ->
  exists from sub,
    parse_cursor raw = Ok from /\ subscriptions (state b') !! handle_id h = Some sub /\
    let replay := List.filter (replayed from subject)
      (pruned_buffer ty (retention_window (config b)) now (state b)) in
    queue sub = drop (length replay - max_queue_len (config b)) replay.
Proof.
  intros [Hk Hok]. unfold subscribe_with_subject. destruct (catalog b !! ty); [|done].
  destruct (parse_cursor raw) as [from|]; [|done].
  destruct (prune_frame ty (retention_window (config b)) now (state b)) as (_ & _ & _ & _ & Eb).
  specialize (Eb ty). rewrite decide_True in Eb by done.
  destruct (validate_from_cursor _ ty from); [|done]. cbn zeta. intros [= <- <-].
  eexists from, _. split_and!; [done|apply lookup_insert_eq|]. cbn.
  rewrite enqueue_all_drop by done. unfold buffer_of in *. cbn. by rewrite Eb.
Qed.

(** A poll that reports an expired cursor also forgets the subscription: its
    id stays indexed for its event type, but every later poll or cancel of it
    answers that the subscription does not exist. *)
Theorem expired_poll_forgets_subscription (b b' : InProcessBroker) (now : Z) (sid : string) (n : nat)
    (ty oldest : string) :
  broker_ok b -> poll b now sid n = (b', Err (CursorExpired ty oldest)) ->
  sid ∈ subscription_ids_for_event_type (state b') ty /\
  (forall later m, poll b' later sid m = (b', Err (SubscriptionNotFound sid))) /\
  cancel b' sid = (b', Err (SubscriptionNotFound sid)).
Proof.
  intros [Hk Hok]. unfold poll at 1.
  destruct (subscriptions (state b) !! sid) as [sub|] eqn:Hsub; [|done].
  set (s0 := set_subscriptions (delete sid (subscriptions (state b))) (state b)).
  set (s1 := prune_expired (sub_event_type sub) _ now s0).
  destruct (validate_from_cursor s1 _ _) as [|err] eqn:Hval.
  { cbn zeta. destruct (n =? 0)%nat; [done|]. by destruct (deliver _ _ _) as [[? ?] ?]. }
  intros [= <- ->].
  assert (Hty : ty = sub_event_type sub).
  { unfold validate_from_cursor in Hval. repeat case_match; congruence. }
  assert (Hgone : subscriptions s1 !! sid = None) by (apply prune_subs; apply lookup_delete_eq).
  destruct (prune_frame (sub_event_type sub) (retention_window (config b)) now s0) as (_ & Ei & _).
  split_and!.
  - cbn -[prune_expired]. unfold subscription_ids_for_event_type, s1. rewrite Ei, Hty.
    by apply (sub_indexed _ _ _ _ (state_subs _ _ Hok _ _ Hsub)).
  - intros later m. unfold poll. cbn -[prune_expired s1]. by rewrite Hgone.
  - unfold cancel. cbn -[prune_expired s1]. by rewrite Hgone.
Qed.
End properties.

(** ** Concrete runs *)

#[local] Instance any_version : Semver := {| version_parses := fun _ => true |}.

Definition sample_event (name : string) : TraverseEvent := {|
  id := name; source := "traverse-runtime/trip"; event_type := "dev.trip.planned";
  datacontenttype := "application/json"; time := "2026-01-01T00:00:00Z"; data := Null;
  owner := "trip"; version := "1.0.0"; lifecycle_status := Active;
  deduplication_id := Some name; ordering_scope := Some "trip"; correlation_id := Some "c";
  causation_id := Some "c"; subject_id := None; actor_id := None |}.

Definition sample_catalog : EventCatalog :=
  {[ "dev.trip.planned" := {| entry_event_type := "dev.trip.planned"; entry_owner := "trip";
       entry_version := "1.0.0"; entry_status := Active; consumer_count := 0 |} ]}.

(** A broker that retains events for 100 ns and queues two of them. *)
Definition small_broker : InProcessBroker := {|
  catalog := sample_catalog; config := {| retention_window := 100; max_queue_len := 2 |};
  validation_mode := Enforcement; state := empty_state |}.

Lemma small_broker_fresh :
  with_clock_and_validation sample_catalog {| retention_window := 100; max_queue_len := 2 |} Enforcement
    = Ok small_broker.
Proof. reflexivity. Qed.

Definition subscribed : InProcessBroker := (subscribe small_broker 0 "dev.trip.planned" "0").1.

Definition published : InProcessBroker :=
  (publish (publish subscribed 10 (sample_event "a")).1 20 (sample_event "b")).1.

Lemma subscribed_step : broker_step small_broker (Created "sub-1") subscribed.
Proof.
  apply (step_subscribe small_broker 0 "dev.trip.planned" "0" None None subscribed
    {| handle_id := "sub-1"; handle_event_type := "dev.trip.planned"; handle_cursor := "0" |});
    vm_compute; reflexivity.
Qed.

Lemma subscribed_ok : broker_ok subscribed.
Proof. eapply broker_step_ok; [apply subscribed_step|done|]. by eapply fresh_broker_ok, small_broker_fresh. Qed.

Lemma published_ok : broker_ok published.
Proof.
  eapply broker_step_ok; [apply step_publish|done|]. eapply broker_step_ok; [apply step_publish|done|].
  apply subscribed_ok.
Qed.

Lemma broker_invariant_witness : broker_ok published.
Proof.
  apply broker_invariant. exists sample_catalog, {| retention_window := 100; max_queue_len := 2 |}, Enforcement,
    small_broker. split; [reflexivity|].
  eapply rtc_l; [exists (Created "sub-1"); split; [apply subscribed_step|done]|].
  eapply rtc_l; [exists Quiet; split; [apply step_publish|done]|].
  apply rtc_once. exists Quiet. split; [apply step_publish|done].
Defined.

(** One poll of one event, then another of the rest. *)
Definition event_a : BrokerEvent := {| broker_cursor := "1"; broker_event := sample_event "a" |}.
Definition event_b : BrokerEvent := {| broker_cursor := "2"; broker_event := sample_event "b" |}.

Definition sample_poll (c : string) (events : list BrokerEvent) : SubscriptionPoll := {|
  poll_subscription_id := "sub-1"; poll_event_type := "dev.trip.planned";
  poll_cursor := c; poll_events := events |}.

Lemma two_polls :
  broker_run "sub-1" published [event_a; event_b]
    (poll (poll published 30 "sub-1" 1).1 30 "sub-1" 5).1.
Proof.
  apply (run_step "sub-1" published (Delivered "sub-1" [event_a]) (poll published 30 "sub-1" 1).1
    [event_b]); [|done|discriminate|].
  { apply (step_poll published 30 "sub-1" 1 _ (sample_poll "1" [event_a])). vm_compute. reflexivity. }
  apply (run_step "sub-1" _ (Delivered "sub-1" [event_b])
    (poll (poll published 30 "sub-1" 1).1 30 "sub-1" 5).1 []); [|done|discriminate|apply run_done].
  apply (step_poll _ 30 "sub-1" 5 _ (sample_poll "2" [event_b])). vm_compute. reflexivity.
Qed.

Lemma deliveries_in_order_witness :
  exists cs, broker_cursor <$> [event_a; event_b] = cursor_to_string <$> cs /\ StronglySorted before cs.
Proof.
  destruct (subscriptions (state published) !! "sub-1") as [sub|] eqn:Hsub; [|vm_compute in Hsub; discriminate].
  apply (deliveries_in_order published _ "sub-1" sub _ published_ok Hsub two_polls).
Defined.

Lemma publish_stores_once_witness :
  buffer_of (state (publish subscribed 10 (sample_event "a")).1) "dev.trip.planned" =
    [{| cursor := 1; published_at := 10; event := sample_event "a" |}].
Proof.
  destruct (publish subscribed 10 (sample_event "a")) as [b' [[]|]] eqn:Hpub;
    [|vm_compute in Hpub; discriminate].
  apply (publish_stores_once subscribed b' 10 (sample_event "a") subscribed_ok Hpub).
  vm_compute. intros Hin. by apply elem_of_nil in Hin.
Defined.

Lemma subscribe_replays_witness :
  exists b' h from sub, subscribe_with_subject published 30 "dev.trip.planned" "1" None None = (b', Ok h) /\
    parse_cursor "1" = Ok from /\ subscriptions (state b') !! handle_id h = Some sub.
Proof.
  destruct (subscribe_with_subject published 30 "dev.trip.planned" "1" None None) as [b' [h|]] eqn:Hs;
    [|vm_compute in Hs; discriminate].
  destruct (subscribe_replays published b' 30 "dev.trip.planned" "1" None None h published_ok Hs)
    as (from & sub & Hp & Hsub & _).
  exists b', h, from, sub. split_and!; [done|exact Hp|exact Hsub].
Defined.

(** The subscriber read "a"; "b" then expired and "c" arrived. *)
Definition fell_behind : InProcessBroker :=
  (publish (publish (poll (publish subscribed 10 (sample_event "a")).1 11 "sub-1" 1).1
     20 (sample_event "b")).1 500 (sample_event "c")).1.

Lemma fell_behind_ok : broker_ok fell_behind.
Proof.
  do 2 (eapply broker_step_ok; [apply step_publish|done|]).
  apply poll_ok. eapply broker_step_ok; [apply step_publish|done|]. apply subscribed_ok.
Qed.

Lemma expired_poll_forgets_subscription_witness :
  (cancel (poll fell_behind 501 "sub-1" 1).1 "sub-1").2 = Err (SubscriptionNotFound "sub-1").
Proof.
  destruct (poll fell_behind 501 "sub-1" 1) as [b' r] eqn:Hp.
  assert (r = Err (CursorExpired "dev.trip.planned" "2")) as -> by (vm_compute in Hp; congruence).
  destruct (expired_poll_forgets_subscription fell_behind b' 501 "sub-1" 1 "dev.trip.planned" "2"
    fell_behind_ok Hp) as (_ & _ & Hc). cbn [fst]. by rewrite Hc.
Defined.

Example fell_behind_expires :
  (poll fell_behind 501 "sub-1" 1).2 = Err (CursorExpired "dev.trip.planned" "2").
Proof. vm_compute. reflexivity. Qed.

(** Pruning an event type whose whole buffer expired leaves the queues alone,
    so a poll long after the retention window still delivers its events. *)
Theorem poll_delivers_expired_events :
  buffer_of (state (poll published 1000000 "sub-1" 5).1) "dev.trip.planned" = [] /\
  (poll published 1000000 "sub-1" 5).2 = Ok (sample_poll "2" [event_a; event_b]).
Proof. vm_compute. split; reflexivity. Qed.
