(* ===== verification/Journal.v ===== *)
(** * The durable event journal

    [crates/traverse-runtime/src/events/journal.rs]: append-only segments of
    newline-terminated JSON records, recovery, incremental replay and retention.

    The directory is a map from file names to contents.  The JSON codec of a
    record and the text of operating-system errors are parameters.  A durable
    write either completes or fails after some bytes of the line reached the
    file, which its [WriteOutcome] says. *)
From S2P Require Import Prelude Json Events.
From Stdlib Require Import Ascii.

(** ** Data *)

Record JournalConfig := {
  max_segment_bytes : N;
  max_segment_age_secs : N;
  retention_max_age_secs : option N;
  retention_max_total_bytes : option N }.

Definition default_journal_config : JournalConfig := {|
  max_segment_bytes := 67108864; max_segment_age_secs := 600;
  retention_max_age_secs := None; retention_max_total_bytes := None |}.

Inductive JournalError :=
  | Io (message : string)
  | Corrupt (corrupt_path : string) (line : nat) (message : string)
  | JournalInvalidCursor (message : string)
  | JournalCursorExpired (oldest_available_cursor : string)
  | InvalidConfig (message : string).

Record JournalRecordV1 := {
  seq : N;
  written_at_secs : N;
  record_event : option TraverseEvent;
  revokes : option N }.

Record SegmentMeta := {
  path : string;
  first_seq : N;
  last_seq : N;
  created_at_secs : N;
  last_written_at_secs : N;
  bytes_written : N }.

Record SegmentReadCache := {
  consumed_bytes : nat;
  consumed_lines : nat;
  records : list JournalRecordV1 }.

Definition empty_cache : SegmentReadCache :=
  {| consumed_bytes := 0; consumed_lines := 0; records := [] |}.

Record DurableEventJournal := {
  root : string;
  journal_config : JournalConfig;
  sealed : list SegmentMeta;
  active : option SegmentMeta;
  next_seq : N;
  read_cache : gmap string SegmentReadCache }.

(** The files of the journal's directory. *)
Abbreviation Disk := (gmap string Bytes).

Inductive WriteOutcome := Written | WriteFailed (bytes_on_disk : nat).

(** The codec of a record and the texts of parse and I/O errors. *)
Class JournalCodec := {
  to_line : JournalRecordV1 -> Bytes;
  of_line : Bytes -> Result string JournalRecordV1;
  parse_int_error : string -> string;
  os_error : string -> string }.

(** ** Reading a segment *)

Definition NL : ascii := "010"%char.

(** [bytes.split(|b| b == '\n')] *)
Fixpoint split_lines (l : Bytes) : list Bytes :=
  match l with
  | [] => [[]]
  | b :: rest =>
      if decide (b = NL) then [] :: split_lines rest
      else match split_lines rest with
           | chunk :: chunks => (b :: chunk) :: chunks
           | [] => [[b]]
           end
  end.

Definition non_empty_chunks (l : Bytes) : list Bytes :=
  List.filter (fun chunk => negb (bool_decide (chunk = []))) (split_lines l).

Definition ends_with_newline (l : Bytes) : bool := bool_decide (last l = Some NL).

Section journal.
Context `{JournalCodec}.

Definition io_err (action : string) : JournalError := Io (action +:+ ": " +:+ os_error action).

Definition display (root name : string) : string := root +:+ "/" +:+ name.

Definition corrupt (where_ : string) (index : nat) (message : string) : JournalError :=
  Corrupt where_ (index + 1) message.

Definition not_greater (s previous : N) : string :=
  "sequence " +:+ u64_to_string s +:+ " is not greater than prior sequence " +:+ u64_to_string previous.

(** The record loop that [read_segment_records] and [refresh_segment_cache] share:
    the parsed records and the bytes of their lines.  [torn] says that the last
    chunk has no terminator. *)
Fixpoint parse_chunks (where_ : string) (torn allow_torn_tail : bool) (line : nat) (previous : option N)
    (chunks : list Bytes) : Result JournalError (list JournalRecordV1 * nat) :=
  match chunks with
  | [] => Ok ([], 0)
  | chunk :: rest =>
      let is_torn_tail := torn && match rest with [] => true | _ => false end in
      match of_line chunk with
      | Ok record =>
          if is_torn_tail then
            if allow_torn_tail then Ok ([], 0) else Err (corrupt where_ line "unterminated record")
          else
            match previous with
            | Some p =>
                if (seq record <=? p)%N then Err (corrupt where_ line (not_greater (seq record) p))
                else
                  parsed ← parse_chunks where_ torn allow_torn_tail (S line) (Some (seq record)) rest;
                  Ok (record :: parsed.1, length chunk + 1 + parsed.2)
            | None =>
                parsed ← parse_chunks where_ torn allow_torn_tail (S line) (Some (seq record)) rest;
                Ok (record :: parsed.1, length chunk + 1 + parsed.2)
            end
      | Err message =>
          if is_torn_tail && allow_torn_tail then Ok ([], 0)
          else Err (corrupt where_ line ("malformed record: " +:+ message))
      end
  end.

Definition parse_bytes (where_ : string) (allow_torn_tail : bool) (line : nat) (previous : option N)
    (l : Bytes) : Result JournalError (list JournalRecordV1 * nat) :=
  parse_chunks where_ (negb (ends_with_newline l)) allow_torn_tail line previous (non_empty_chunks l).

Definition read_segment_records (r name : string) (disk : Disk) (allow_torn_tail : bool)
    : Result JournalError (list JournalRecordV1) :=
  contents ← ok_or (disk !! name) (io_err "read journal segment");
  parsed ← parse_bytes (display r name) allow_torn_tail 0 None contents;
  Ok parsed.1.

Definition refresh_segment_cache (r name : string) (disk : Disk) (allow_torn_tail : bool)
    (cache : SegmentReadCache) : Result JournalError SegmentReadCache :=
  contents ← ok_or (disk !! name) (io_err "read journal segment");
  if (length contents <=? consumed_bytes cache)%nat then Ok cache
  else
    parsed ← parse_bytes (display r name) allow_torn_tail (consumed_lines cache)
               (seq <$> last (records cache)) (drop (consumed_bytes cache) contents);
    Ok {| consumed_bytes := consumed_bytes cache + parsed.2;
          consumed_lines := consumed_lines cache + length parsed.1;
          records := records cache ++ parsed.1 |}.

(** ** Opening *)

Definition SEGMENT_PREFIX : string := "segment-".
Definition SEGMENT_SUFFIX : string := ".jsonl".

(** [str::ends_with] *)
Fixpoint ends_with (tail s : string) : bool :=
  bool_decide (s = tail) || match s with EmptyString => false | String _ rest => ends_with tail rest end.

Definition is_segment_name (name : string) : bool :=
  String.prefix SEGMENT_PREFIX name && ends_with SEGMENT_SUFFIX name.

Definition segment_paths (disk : Disk) : list string :=
  merge_sort String.le (List.filter is_segment_name (elements (dom disk))).

Definition validate_config (c : JournalConfig) : Result JournalError unit :=
  _ ← ensure (negb (max_segment_bytes c =? 0)%N) (InvalidConfig "max_segment_bytes must be at least 1");
  _ ← ensure (negb (max_segment_age_secs c =? 0)%N)
        (InvalidConfig "max_segment_age_secs must be at least 1");
  _ ← ensure (negb (bool_decide (retention_max_age_secs c = Some 0%N)))
        (InvalidConfig "retention_max_age_secs must be at least 1 when set");
  ensure (negb (bool_decide (retention_max_total_bytes c = Some 0%N)))
        (InvalidConfig "retention_max_total_bytes must be at least 1 when set").

(** [x + 1] on a [u64], wrapping as in a release build. *)
Definition wrapping_succ (n : N) : N := ((n + 1) mod (u64_max + 1))%N.

(** [x - 1] on a [u64], wrapping as in a release build. *)
Definition wrapping_pred (n : N) : N := ((n + u64_max) mod (u64_max + 1))%N.

(** The file system calls of [open] that may fail; each [open] is given the ones that do. *)
Inductive OpenCall :=
  | CreateRoot | ListRoot | ReadEntry
  | ReadSegment (name : string) | RemoveSegment (name : string) | StatSegment (name : string).

Definition no_failure (c : OpenCall) : bool := false.

(** The loop of [open] over the segment files in name order. *)
Fixpoint recover_segments (fails : OpenCall -> bool) (r : string) (disk : Disk) (paths : list string)
    (found : list SegmentMeta) (next : N) : Disk * Result JournalError (list SegmentMeta * N) :=
  match paths with
  | [] => (disk, Ok (found, next))
  | name :: rest =>
      let allow_torn_tail := match rest with [] => true | _ => false end in
      match (_ ← ensure (negb (fails (ReadSegment name))) (io_err "read journal segment");
             read_segment_records r name disk allow_torn_tail) with
      | Err error => (disk, Err error)
      | Ok recs =>
          match head recs, last recs with
          | Some first, Some final =>
              if (seq first <? next)%N then
                (disk, Err (Corrupt (display r name) 1
                  ("sequence " +:+ u64_to_string (seq first)
                     +:+ " is not greater than prior segment sequence " +:+ u64_to_string (next - 1))))
              else if fails (StatSegment name) then (disk, Err (io_err "stat journal segment"))
              else
                recover_segments fails r disk rest
                  (found ++ [{| path := name; first_seq := seq first; last_seq := seq final;
                     created_at_secs := written_at_secs first;
                     last_written_at_secs := written_at_secs final;
                     bytes_written := N.of_nat (length (default [] (disk !! name))) |}])
                  (wrapping_succ (seq final))
          | _, _ =>
              if fails (RemoveSegment name) then (disk, Err (io_err "remove empty journal segment"))
              else recover_segments fails r (delete name disk) rest found next
          end
      end
  end.

Definition open (fails : OpenCall -> bool) (r : string) (c : JournalConfig) (disk : Disk)
    : Disk * Result JournalError DurableEventJournal :=
  match (_ ← validate_config c;
         _ ← ensure (negb (fails CreateRoot)) (io_err "create journal root");
         _ ← ensure (negb (fails ListRoot)) (io_err "list journal segments");
         ensure (negb (fails ReadEntry)) (io_err "read journal segment entry")) with
  | Err error => (disk, Err error)
  | Ok _ =>
      match recover_segments fails r disk (segment_paths disk) [] 1 with
      | (disk', Err error) => (disk', Err error)
      | (disk', Ok (found, next)) =>
          (disk', Ok {| root := r; journal_config := c; sealed := found; active := None;
                        next_seq := next; read_cache := ∅ |})
      end
  end.

(** ** Appending *)

(** The clock in nanoseconds since the epoch. *)
Definition now_secs (now : Z) : Result JournalError N :=
  if (now <? 0)%Z then Err (Io ("system time before epoch: " +:+ os_error "now"))
  else Ok (Z.to_N (now / 1000000000)).

(** The number is padded as [{:020}]. *)
Definition segment_name (s : N) : string :=
  let digits := u64_to_string s in
  SEGMENT_PREFIX +:+ zeros (20 - String.length digits) +:+ digits +:+ SEGMENT_SUFFIX.

Definition needs_rollover (j : DurableEventJournal) (now : N) (meta : SegmentMeta) : bool :=
  ((max_segment_bytes (journal_config j) <=? bytes_written meta) ||
   (max_segment_age_secs (journal_config j) <=? saturating_sub now (created_at_secs meta)))%N%bool.

Definition with_segments (s : list SegmentMeta) (a : option SegmentMeta) (j : DurableEventJournal)
    : DurableEventJournal := {|
  root := root j; journal_config := journal_config j; sealed := s; active := a;
  next_seq := next_seq j; read_cache := read_cache j |}.

Definition with_next (n : N) (j : DurableEventJournal) : DurableEventJournal := {|
  root := root j; journal_config := journal_config j; sealed := sealed j; active := active j;
  next_seq := n; read_cache := read_cache j |}.

Definition with_cache (c : gmap string SegmentReadCache) (j : DurableEventJournal) : DurableEventJournal := {|
  root := root j; journal_config := journal_config j; sealed := sealed j; active := active j;
  next_seq := next_seq j; read_cache := c |}.

Definition rollover (now : N) (j : DurableEventJournal) : DurableEventJournal :=
  match active j with
  | Some meta => if needs_rollover j now meta then with_segments (sealed j ++ [meta]) None j else j
  | None => j
  end.

(** [create_new(true)] fails when the file is already there. *)
Definition open_segment (j : DurableEventJournal) (disk : Disk) (now : N)
    : Result JournalError (Disk * SegmentMeta) :=
  let name := segment_name (next_seq j) in
  match disk !! name with
  | Some _ => Err (io_err "create journal segment")
  | None =>
      Ok (<[name := []]> disk,
          {| path := name; first_seq := next_seq j; last_seq := next_seq j;
             created_at_secs := now; last_written_at_secs := now; bytes_written := 0 |})
  end.

Definition write_durable (disk : Disk) (name : string) (line : Bytes) (outcome : WriteOutcome)
    : Disk * Result JournalError unit :=
  let contents := default [] (disk !! name) in
  match outcome with
  | Written => (<[name := contents ++ line]> disk, Ok tt)
  | WriteFailed n => (<[name := contents ++ take n line]> disk, Err (io_err "append journal record"))
  end.

Definition append_record (disk : Disk) (meta : SegmentMeta) (s now : N) (e : option TraverseEvent)
    (revoked : option N) (outcome : WriteOutcome) : Disk * SegmentMeta * Result JournalError string :=
  let line := to_line {| seq := s; written_at_secs := now; record_event := e; revokes := revoked |} ++ [NL] in
  match write_durable disk (path meta) line outcome with
  | (disk', Err error) => (disk', meta, Err error)
  | (disk', Ok _) =>
      (disk', {| path := path meta; first_seq := first_seq meta; last_seq := s;
                 created_at_secs := created_at_secs meta; last_written_at_secs := now;
                 bytes_written := bytes_written meta + N.of_nat (length line) |},
       Ok (u64_to_string s))
  end.

Definition append_line (j0 : DurableEventJournal) (disk : Disk) (now : Z) (outcome : WriteOutcome)
    (e : option TraverseEvent) (revoked : option N)
    : Disk * DurableEventJournal * Result JournalError string :=
  match now_secs now with
  | Err error => (disk, j0, Err error)
  | Ok secs =>
      let j := rollover secs j0 in
      match (match active j with
             | Some meta => Ok (disk, meta)
             | None => open_segment j disk secs
             end) with
      | Err error => (disk, j, Err error)
      | Ok (disk, meta) =>
          let '(disk, meta, result) := append_record disk meta (next_seq j) secs e revoked outcome in
          let j := with_segments (sealed j) (Some meta) j in
          match result with
          | Err error => (disk, j, Err error)
          | Ok cursor => (disk, with_next (wrapping_succ (next_seq j)) j, Ok cursor)
          end
      end
  end.

Definition append (j : DurableEventJournal) (disk : Disk) (now : Z) (outcome : WriteOutcome)
    (e : TraverseEvent) : Disk * DurableEventJournal * Result JournalError string :=
  append_line j disk now outcome (Some e) None.

Definition append_revocation (j : DurableEventJournal) (disk : Disk) (now : Z) (outcome : WriteOutcome)
    (revoked_cursor : string) : Disk * DurableEventJournal * Result JournalError string :=
  match parse_u64 revoked_cursor with
  | None => (disk, j, Err (JournalInvalidCursor ("revoked cursor `" +:+ revoked_cursor +:+ "`: "
              +:+ parse_int_error revoked_cursor)))
  | Some revoked => append_line j disk now outcome None (Some revoked)
  end.

(** ** Replay *)

Definition segments (j : DurableEventJournal) : list SegmentMeta := sealed j ++ option_list (active j).

Definition oldest_retained_seq (j : DurableEventJournal) : option N := first_seq <$> head (segments j).

Definition cached_segment_records (j : DurableEventJournal) (disk : Disk)
    (cache : gmap string SegmentReadCache) (name : string) (allow_torn_tail : bool)
    : Result JournalError (gmap string SegmentReadCache * list JournalRecordV1) :=
  entry ← refresh_segment_cache (root j) name disk allow_torn_tail (default empty_cache (cache !! name));
  Ok (<[name := entry]> cache, records entry).

(** One record of the scan: a revocation is noted, an event after the cursor
    collected. *)
Definition scan_record (after : N) (acc : gset N * list (N * TraverseEvent)) (r : JournalRecordV1)
    : gset N * list (N * TraverseEvent) :=
  match revokes r with
  | Some k => ({[k]} ∪ acc.1, acc.2)
  | None =>
      match record_event r with
      | Some e => if (after <? seq r)%N then (acc.1, acc.2 ++ [(seq r, e)]) else acc
      | None => acc
      end
  end.

Fixpoint scan_segments (j : DurableEventJournal) (disk : Disk) (after : N) (metas : list SegmentMeta)
    (cache : gmap string SegmentReadCache) (acc : gset N * list (N * TraverseEvent))
    : gmap string SegmentReadCache * Result JournalError (gset N * list (N * TraverseEvent)) :=
  match metas with
  | [] => (cache, Ok acc)
  | meta :: rest =>
      if (last_seq meta <=? after)%N then scan_segments j disk after rest cache acc
      else
        let allow_torn_tail := match rest with [] => true | _ => false end in
        match cached_segment_records j disk cache (path meta) allow_torn_tail with
        | Err error => (<[path meta := default empty_cache (cache !! path meta)]> cache, Err error)
        | Ok (cache, recs) =>
            scan_segments j disk after rest cache (foldl (scan_record after) acc recs)
        end
  end.

Definition replay_from (j : DurableEventJournal) (disk : Disk) (raw : string) (max_events : nat)
    : DurableEventJournal * Result JournalError (list (string * TraverseEvent)) :=
  match parse_u64 raw with
  | None => (j, Err (JournalInvalidCursor ("cursor `" +:+ raw +:+ "`: " +:+ parse_int_error raw)))
  | Some after =>
      if match oldest_retained_seq j with
         | Some oldest => (wrapping_succ after <? oldest)%N
         | None => false
         end
      then (j, Err (JournalCursorExpired
             (u64_to_string (default 0%N (oldest_retained_seq j) - 1))))
      else
        match scan_segments j disk after (segments j) (read_cache j) (∅, []) with
        | (cache, Err error) => (with_cache cache j, Err error)
        | (cache, Ok (revoked, collected)) =>
            let kept := List.filter (fun item => negb (bool_decide (item.1 ∈ revoked))) collected in
            (with_cache cache j, Ok ((fun item => (u64_to_string item.1, item.2)) <$> take max_events kept))
        end
  end.

Definition oldest_available_cursor (j : DurableEventJournal) : string :=
  match oldest_retained_seq j with
  | Some s => u64_to_string (wrapping_pred s)
  | None => u64_to_string (wrapping_pred (next_seq j))
  end.

Definition latest_cursor (j : DurableEventJournal) : N := saturating_sub (next_seq j) 1.

(** ** Retention *)

(** The two reclaim loops: the sealed segments left and the files deleted. *)
Fixpoint prune_by_age (now max_age : N) (disk : Disk) (metas : list SegmentMeta)
    : Disk * list SegmentMeta * list string * option JournalError :=
  match metas with
  | [] => (disk, [], [], None)
  | meta :: rest =>
      if (saturating_sub now (last_written_at_secs meta) <=? max_age)%N then (disk, metas, [], None)
      else
        match disk !! path meta with
        | None => (disk, rest, [], Some (io_err "remove expired journal segment"))
        | Some _ =>
            let '(disk, remaining, deleted, error) := prune_by_age now max_age (delete (path meta) disk) rest in
            (disk, remaining, path meta :: deleted, error)
        end
  end.

Fixpoint prune_by_size (total max_total : N) (disk : Disk) (metas : list SegmentMeta)
    : Disk * list SegmentMeta * list string * option JournalError :=
  match metas with
  | [] => (disk, [], [], None)
  | meta :: rest =>
      if (total <=? max_total)%N then (disk, metas, [], None)
      else
        match disk !! path meta with
        | None => (disk, rest, [], Some (io_err "remove oversized journal segment"))
        | Some _ =>
            let '(disk, remaining, deleted, error) :=
              prune_by_size (total - bytes_written meta) max_total (delete (path meta) disk) rest in
            (disk, remaining, path meta :: deleted, error)
        end
  end.

Definition total_bytes (metas : list SegmentMeta) : N := foldr (fun m n => (bytes_written m + n)%N) 0%N metas.

Definition prune (j : DurableEventJournal) (disk : Disk) (now : Z)
    : Disk * DurableEventJournal * Result JournalError (list string) :=
  match now_secs now with
  | Err error => (disk, j, Err error)
  | Ok secs =>
      let '(disk, remaining, aged, error) :=
        match retention_max_age_secs (journal_config j) with
        | None => (disk, sealed j, [], None)
        | Some max_age => prune_by_age secs max_age disk (sealed j)
        end in
      let j := with_segments remaining (active j) j in
      match error with
      | Some e => (disk, j, Err e)
      | None =>
          let '(disk, remaining, oversized, error) :=
            match retention_max_total_bytes (journal_config j) with
            | None => (disk, sealed j, [], None)
            | Some max_total => prune_by_size (total_bytes (segments j)) max_total disk (sealed j)
            end in
          let j := with_segments remaining (active j) j in
          match error with
          | Some e => (disk, j, Err e)
          | None =>
              let deleted := aged ++ oversized in
              (disk, with_cache (foldr delete (read_cache j) deleted) j, Ok deleted)
          end
      end
  end.
End journal.
