(* ===== verification/JournalLog.v ===== *)
(** * Reading the journal

    What parsing a segment returns on well-formed contents, and that the
    incremental cache agrees with reading the whole file. *)
From S2P Require Import Prelude Json Events Journal.
From Stdlib Require Import Ascii.

(** What the journal relies on of the codec: [serde_json] prints a record on one
    non-empty line (control characters are escaped), and reads the records called
    [exact] back as they were (its default parser may round floating-point
    payloads, so not every record is). *)
Class JournalCodecLaws `{JournalCodec} := {
  exact : JournalRecordV1 -> Prop;
  of_to_line r : exact r -> of_line (to_line r) = Ok r;
  to_line_no_newline r : NL ∉ to_line r;
  to_line_non_empty r : to_line r <> [] }.

(** Sequences grow strictly, from above [previous] when it is given. *)
Fixpoint ascending (previous : option N) (recs : list JournalRecordV1) : Prop :=
  match recs with
  | [] => True
  | r :: rest => (forall p, previous = Some p -> (p < seq r)%N) /\ ascending (Some (seq r)) rest
  end.

Lemma ascending_app previous l1 l2 :
  ascending previous (l1 ++ l2) <->
  ascending previous l1 /\ ascending (match last l1 with Some r => Some (seq r) | None => previous end) l2.
Proof.
  revert previous. induction l1 as [|r l1 IH]; intros previous; [cbn; tauto|].
  cbn [app ascending]. rewrite IH. destruct l1 as [|r' l1]; [cbn; tauto|].
  change (last (r :: r' :: l1)) with (last (r' :: l1)).
  destruct (last (r' :: l1)) eqn:E; [tauto|]. by apply last_None in E.
Qed.

Lemma ascending_bound previous recs r :
  ascending previous recs -> r ∈ recs -> forall p, previous = Some p -> (p < seq r)%N.
Proof.
  revert previous. induction recs as [|x recs IH]; intros previous; [by intros _ ?%elem_of_nil|].
  intros [Hx Hrec] [->|Hin]%elem_of_cons p Hp; [by apply Hx|].
  specialize (IH _ Hrec Hin _ eq_refl). specialize (Hx _ Hp). lia.
Qed.

Lemma ascending_weaken previous recs : ascending previous recs -> ascending None recs.
Proof. destruct recs; [done|]. by intros [_ ?]. Qed.

Section reading.
Context `{JournalCodecLaws}.

(** The bytes of fully written records. *)
Definition lines (recs : list JournalRecordV1) : Bytes := concat ((fun r => to_line r ++ [NL]) <$> recs).

Lemma lines_app l1 l2 : lines (l1 ++ l2) = lines l1 ++ lines l2.
Proof. unfold lines. by rewrite fmap_app, concat_app. Qed.

Lemma lines_cons r recs : lines (r :: recs) = to_line r ++ NL :: lines recs.
Proof. unfold lines. cbn. by rewrite <- app_assoc. Qed.

Lemma lines_nil_inv recs : lines recs = [] -> recs = [].
Proof. destruct recs; [done|]. rewrite lines_cons. by destruct (to_line j). Qed.

Lemma split_lines_none l : NL ∉ l -> split_lines l = [l].
Proof.
  induction l as [|b l IH]; [done|]. rewrite not_elem_of_cons. intros [Hb Hl]. cbn.
  rewrite decide_False by done. by rewrite IH.
Qed.

Lemma split_lines_cons l rest : NL ∉ l -> split_lines (l ++ NL :: rest) = l :: split_lines rest.
Proof.
  induction l as [|b l IH]; cbn; [by rewrite decide_True|]. rewrite not_elem_of_cons. intros [Hb Hl].
  rewrite decide_False by done. by rewrite IH.
Qed.

(** The unterminated rest of a file is one chunk, when there is any. *)
Definition tail_chunk (tail : Bytes) : list Bytes := match tail with [] => [] | _ => [tail] end.

Lemma non_empty_chunks_lines recs tail :
  NL ∉ tail -> non_empty_chunks (lines recs ++ tail) = (to_line <$> recs) ++ tail_chunk tail.
Proof.
  intros Htail. unfold non_empty_chunks. induction recs as [|r recs IH].
  - cbn. rewrite split_lines_none by done. cbn. by destruct tail.
  - rewrite lines_cons, <- app_assoc. cbn [app]. rewrite split_lines_cons by apply to_line_no_newline.
    cbn. rewrite bool_decide_false by apply to_line_non_empty. cbn. f_equal. exact IH.
Qed.

Lemma ends_with_newline_lines recs : recs <> [] -> ends_with_newline (lines recs) = true.
Proof.
  intros Hne. destruct recs as [|r recs _] using rev_ind; [done|].
  rewrite lines_app, lines_cons. unfold ends_with_newline. cbn. rewrite app_assoc.
  rewrite last_snoc. by apply bool_decide_true.
Qed.

Lemma ends_with_newline_tail recs tail : NL ∉ tail -> tail <> [] -> ends_with_newline (lines recs ++ tail) = false.
Proof.
  intros Hnl Hne. destruct tail as [|b tail _] using rev_ind; [done|].
  unfold ends_with_newline. rewrite app_assoc, last_snoc. apply bool_decide_false. intros [= ->].
  apply Hnl. set_solver.
Qed.

Lemma lines_cons_length r recs : length (lines (r :: recs)) = length (to_line r) + 1 + length (lines recs).
Proof. rewrite lines_cons, length_app. cbn. lia. Qed.

(** Complete records parse to themselves; a torn chunk after them ends the scan
    when it is allowed and is an error otherwise. *)
Lemma parse_chunks_lines where_ torn allow line previous recs chunks :
  Forall exact recs -> ascending previous recs -> torn = false \/ chunks <> [] ->
  parse_chunks where_ torn allow line previous ((to_line <$> recs) ++ chunks) =
  match parse_chunks where_ torn allow (line + length recs)
          (match last recs with Some r => Some (seq r) | None => previous end) chunks with
  | Ok parsed => Ok (recs ++ parsed.1, length (lines recs) + parsed.2)
  | Err e => Err e
  end.
Proof.
  intros Hexact Hasc Htorn. revert line previous Hasc.
  induction Hexact as [|r recs Hr Hrecs IH]; intros line previous Hasc.
  { cbn. rewrite Nat.add_0_r. by destruct (parse_chunks _ _ _ _ _ chunks) as [[]|]. }
  destruct Hasc as [Hp Hasc].
  assert (Hnt : torn && match (to_line <$> recs) ++ chunks with [] => true | _ => false end = false).
  { destruct Htorn as [->|Hne]; [done|]. rewrite andb_false_iff. right. by destruct recs, chunks. }
  change ((to_line <$> r :: recs) ++ chunks) with (to_line r :: ((to_line <$> recs) ++ chunks)).
  specialize (IH (S line) (Some (seq r)) Hasc). set (rest := (to_line <$> recs) ++ chunks) in *.
  cbn [parse_chunks]. rewrite of_to_line by done. cbn zeta. rewrite Hnt.
  assert (Hlast : last (r :: recs) = match last recs with Some x => Some x | None => Some r end)
    by (rewrite last_cons; by destruct (last recs)).
  rewrite Hlast, lines_cons_length.
  assert (Hgo : (parsed ← parse_chunks where_ torn allow (S line) (Some (seq r)) rest;
      Ok (r :: parsed.1, length (to_line r) + 1 + parsed.2)) =
    match parse_chunks where_ torn allow (line + length (r :: recs))
        match match last recs with Some x => Some x | None => Some r end with
        | Some x => Some (seq x) | None => previous end chunks with
    | Ok parsed => Ok ((r :: recs) ++ parsed.1, length (to_line r) + 1 + length (lines recs) + parsed.2)
    | Err e => Err e
    end).
  { replace (line + length (r :: recs)) with (S line + length recs) by (cbn; lia). rewrite IH.
    destruct (last recs); destruct (parse_chunks _ _ _ _ _ chunks) as [[? ?]|]; cbn -[Nat.add]; try done;
      (apply (f_equal Ok), (f_equal2 pair); [done|lia]). }
  destruct previous as [p|]; [|exact Hgo].
  specialize (Hp _ eq_refl). rewrite (proj2 (N.leb_gt _ _)) by done. exact Hgo.
Qed.

Lemma parse_bytes_lines where_ allow line previous recs tail :
  Forall exact recs -> ascending previous recs -> NL ∉ tail -> tail = [] \/ allow = true ->
  parse_bytes where_ allow line previous (lines recs ++ tail) = Ok (recs, length (lines recs)).
Proof.
  intros Hexact Hasc Hnl Hallow. unfold parse_bytes. rewrite non_empty_chunks_lines by done.
  destruct tail as [|b tail].
  - rewrite !app_nil_r. destruct recs as [|r recs]; [done|].
    rewrite ends_with_newline_lines by done. cbn [negb tail_chunk].
    pose proof (parse_chunks_lines where_ false allow line previous (r :: recs) [] Hexact Hasc ltac:(by left)) as Hp.
    rewrite app_nil_r in Hp. rewrite Hp. cbn. by rewrite app_nil_r, Nat.add_0_r.
  - destruct Hallow as [?| ->]; [done|]. rewrite ends_with_newline_tail by done. cbn [negb tail_chunk].
    rewrite parse_chunks_lines; [|done|done|by right]. cbn.
    destruct (of_line (b :: tail)); cbn; by rewrite app_nil_r, Nat.add_0_r.
Qed.

Lemma parse_bytes_torn where_ line previous recs tail :
  Forall exact recs -> ascending previous recs -> NL ∉ tail -> tail <> [] ->
  exists message, parse_bytes where_ false line previous (lines recs ++ tail) =
    Err (Corrupt where_ (line + length recs + 1) message).
Proof.
  intros Hexact Hasc Hnl Hne. unfold parse_bytes. rewrite non_empty_chunks_lines by done.
  rewrite ends_with_newline_tail by done. destruct tail as [|b tail]; [done|]. cbn [negb tail_chunk].
  rewrite parse_chunks_lines; [|done|done|by right]. cbn.
  destruct (of_line (b :: tail)); cbn; eauto.
Qed.

(** ** The incremental cache *)

(** The cache holds the first records of the file and knows where they end. *)
Definition cache_ok (recs : list JournalRecordV1) (cache : SegmentReadCache) : Prop :=
  exists rest, recs = records cache ++ rest /\
    consumed_lines cache = length (records cache) /\
    consumed_bytes cache = length (lines (records cache)).

Lemma cache_ok_empty recs : cache_ok recs empty_cache.
Proof. by exists recs. Qed.

Lemma cache_ok_app recs new cache : cache_ok recs cache -> cache_ok (recs ++ new) cache.
Proof. intros (rest & -> & ? & ?). exists (rest ++ new). by rewrite app_assoc. Qed.

Lemma last_previous (l : list JournalRecordV1) :
  match last l with Some r => Some (seq r) | None => None end = seq <$> last l.
Proof. by destruct (last l). Qed.

Lemma refresh_ok r name disk recs tail allow cache :
  disk !! name = Some (lines recs ++ tail) -> Forall exact recs -> ascending None recs ->
  NL ∉ tail -> tail = [] \/ allow = true -> cache_ok recs cache ->
  exists cache', refresh_segment_cache r name disk allow cache = Ok cache' /\
    records cache' = recs /\ cache_ok recs cache'.
Proof.
  intros Hdisk Hexact Hasc Hnl Hallow (rest & -> & Hl & Hb).
  unfold refresh_segment_cache. rewrite Hdisk. cbn.
  apply Forall_app in Hexact as [_ Hexact]. apply ascending_app in Hasc as [_ Hasc].
  rewrite last_previous in Hasc.
  destruct (Nat.leb_spec (length (lines (records cache ++ rest) ++ tail)) (consumed_bytes cache)) as [Hle|Hgt].
  - rewrite Hb, lines_app, !length_app in Hle.
    assert (rest = []) as -> by (apply lines_nil_inv, nil_length_inv; lia).
    exists cache. rewrite app_nil_r. split_and!; [done..|]. exists []. by rewrite app_nil_r.
  - rewrite Hb, lines_app, <- app_assoc, drop_app_length.
    rewrite parse_bytes_lines by done. cbn. eexists. split; [done|].
    split; [done|]. exists []. cbn [records consumed_lines consumed_bytes].
    by rewrite app_nil_r, Hl, lines_app, !length_app.
Qed.

(** Refreshing a consistent cache of a well-formed segment returns exactly the
    records that reading the whole file returns, leaves a consistent cache, and
    both tolerate an unterminated tail exactly when it is allowed. *)
Theorem refresh_equals_full_read (r name : string) (disk : Disk) (recs : list JournalRecordV1)
    (tail : Bytes) (allow : bool) (cache : SegmentReadCache) :
  disk !! name = Some (lines recs ++ tail) -> Forall exact recs -> ascending None recs ->
  NL ∉ tail -> tail = [] \/ allow = true -> cache_ok recs cache ->
  exists cache', refresh_segment_cache r name disk allow cache = Ok cache' /\
    read_segment_records r name disk allow = Ok (records cache') /\
    records cache' = recs /\ cache_ok recs cache'.
Proof.
  intros Hdisk Hexact Hasc Hnl Hallow Hcache.
  destruct (refresh_ok r name disk recs tail allow cache) as (cache' & Href & Hrec & Hok); [done..|].
  exists cache'. split_and!; [done| |done|done].
  unfold read_segment_records. rewrite Hdisk. cbn. rewrite parse_bytes_lines by done. cbn. by rewrite Hrec.
Qed.
End reading.

(** * The journal as a log

    The abstract journal is a list of records with increasing sequences.  A
    directory and an open journal represent a log when the segments, in order,
    hold its records; appending extends the log by one record and replaying reads
    it, whatever the segment boundaries and the state of the read cache. *)
(** ** Segment names *)


Lemma Forall2_impl_elem {A B} (P Q : A -> B -> Prop) l k :
  Forall2 P l k -> (forall x y, x ∈ l -> P x y -> Q x y) -> Forall2 Q l k.
Proof.
  induction 1 as [|x y l k Hxy Hl IH]; intros Himp; constructor.
  - apply Himp; [by left|done].
  - apply IH. intros x' y' Hx'. apply Himp. by right.
Qed.

(** The number a name starts with. *)
Fixpoint leading_number (acc : N) (s : string) : N :=
  match s with
  | EmptyString => acc
  | String c rest =>
      match digit_value c with Some d => leading_number (10 * acc + d) rest | None => acc end
  end.

Lemma leading_number_zeros n s : leading_number 0 (zeros n +:+ s) = leading_number 0 s.
Proof. by induction n. Qed.

Lemma leading_number_digits s acc n tail :
  parse_digits acc s = Some n -> leading_number acc (s +:+ tail) = leading_number n tail.
Proof.
  revert acc. induction s as [|c s IH]; intros acc; [by intros [= ->]|].
  change (String c s +:+ tail) with (String c (s +:+ tail)). cbn [parse_digits leading_number].
  destruct (digit_value c) as [d|]; cbn; [|done]. destruct (_ <=? _)%N; [|done]. apply IH.
Qed.

Lemma parse_digits_to_string n : (n <= u64_max)%N -> parse_digits 0 (u64_to_string n) = Some n.
Proof.
  intros Hn. unfold u64_to_string, pretty, pretty_N. case_decide as H0; [by subst|].
  by rewrite parse_digits_pretty_go by lia.
Qed.

Lemma segment_name_inj a b :
  (a <= u64_max)%N -> (b <= u64_max)%N -> segment_name a = segment_name b -> a = b.
Proof.
  intros Ha Hb. unfold segment_name. intros Heq%(inj (String.append SEGMENT_PREFIX)).
  apply (f_equal (leading_number 0)) in Heq. rewrite !leading_number_zeros in Heq.
  erewrite !leading_number_digits in Heq by (by apply parse_digits_to_string). exact Heq.
Qed.

(** ** The representation *)

Section log.
Context `{JournalCodecLaws}.

(** The last segment may end in the unterminated tail of an interrupted write. *)
Fixpoint with_tail (parts : list (list JournalRecordV1)) (tail : Bytes)
    : list (list JournalRecordV1 * Bytes) :=
  match parts with
  | [] => []
  | [p] => [(p, tail)]
  | p :: rest => (p, []) :: with_tail rest tail
  end.

(** A segment's file and cache entry, given the records and the tail it holds. *)
Record file_ok (disk : Disk) (cache : gmap string SegmentReadCache) (name : string)
    (p : list JournalRecordV1 * Bytes) : Prop := {
  file_contents : disk !! name = Some (lines p.1 ++ p.2);
  file_tail : NL ∉ p.2;
  file_exact : Forall exact p.1;
  file_ascending : ascending None p.1;
  file_cache : cache_ok p.1 (default empty_cache (cache !! name)) }.

(** A segment's metadata, given its records. *)
Definition meta_ok (meta : SegmentMeta) (recs : list JournalRecordV1) : Prop :=
  exists first final, head recs = Some first /\ last recs = Some final /\
    first_seq meta = seq first /\ last_seq meta = seq final.

Record journal_repr (j : DurableEventJournal) (disk : Disk) (log : list JournalRecordV1)
    (parts : list (list JournalRecordV1)) (tail : Bytes) : Prop := {
  repr_log : log = concat parts;
  repr_metas : Forall2 meta_ok (segments j) parts;
  repr_files : Forall2 (fun meta p => file_ok disk (read_cache j) (path meta) p)
    (segments j) (with_tail parts tail);
  repr_paths : NoDup (path <$> segments j);
  repr_ascending : ascending None log;
  repr_next : Forall (fun r => (seq r < next_seq j)%N) log;
  repr_fresh s : (next_seq j <= s <= u64_max)%N ->
    disk !! segment_name s = None /\ read_cache j !! segment_name s = None /\
    segment_name s ∉ path <$> segments j }.

(** ** Reading the log *)

(** The specification of a replay. *)
Definition events_after (after : N) (log : list JournalRecordV1) : list (N * TraverseEvent) :=
  omap (fun r => match revokes r, record_event r with
                 | None, Some e => if (after <? seq r)%N then Some (seq r, e) else None
                 | _, _ => None
                 end) log.

Definition revoked_in (log : list JournalRecordV1) (s : N) : Prop :=
  exists r, r ∈ log /\ revokes r = Some s.

Definition revocations (log : list JournalRecordV1) : gset N := list_to_set (omap revokes log).

Definition replay_spec (log : list JournalRecordV1) (after : N) (max_events : nat)
    : list (string * TraverseEvent) :=
  (fun item => (u64_to_string item.1, item.2)) <$>
    take max_events
      (List.filter (fun item => negb (bool_decide (item.1 ∈ revocations log))) (events_after after log)).

Lemma revocations_spec log s : s ∈ revocations log <-> revoked_in log s.
Proof.
  unfold revocations, revoked_in. rewrite elem_of_list_to_set, list_elem_of_omap. done.
Qed.

Lemma scan_records after recs acc :
  foldl (scan_record after) acc recs = (acc.1 ∪ revocations recs, acc.2 ++ events_after after recs).
Proof.
  revert acc. induction recs as [|r recs IH]; intros [rev col]; cbn.
  - unfold revocations. cbn. by rewrite (right_id_L ∅ (∪)), app_nil_r.
  - rewrite IH. unfold scan_record, revocations, events_after. cbn.
    destruct (revokes r) as [k|]; cbn; [f_equal; set_solver|].
    destruct (record_event r) as [e|]; cbn; [|done]. destruct (after <? seq r)%N; cbn; [|done].
    by rewrite <- app_assoc.
Qed.

Lemma events_after_app after l1 l2 : events_after after (l1 ++ l2) = events_after after l1 ++ events_after after l2.
Proof. apply omap_app. Qed.

Lemma revocations_app l1 l2 : revocations (l1 ++ l2) = revocations l1 ∪ revocations l2.
Proof. unfold revocations. by rewrite omap_app, list_to_set_app_L. Qed.

(** The segments a replay skips. *)
Definition scanned (after : N) (metas : list SegmentMeta) (parts : list (list JournalRecordV1))
    : list JournalRecordV1 :=
  concat (omap (fun mp => if (last_seq mp.1 <=? after)%N then None else Some mp.2) (zip metas parts)).

Lemma with_tail_cons p rest tail :
  with_tail (p :: rest) tail = (p, if decide (rest = []) then tail else []) :: with_tail rest tail.
Proof. by destruct rest. Qed.

Lemma with_tail_snoc parts p tail : with_tail (parts ++ [p]) tail = with_tail parts [] ++ [(p, tail)].
Proof.
  induction parts as [|q parts IH]; [done|]. cbn [app]. rewrite !with_tail_cons, IH. cbn [app].
  f_equal. f_equal. by destruct parts.
Qed.

Lemma with_tail_fst parts tail : (with_tail parts tail).*1 = parts.
Proof. induction parts as [|p parts IH]; [done|]. rewrite with_tail_cons. cbn. by rewrite IH. Qed.

(** Scanning leaves entries for other files alone and its own entries correct. *)
Lemma scan_segments_ok j disk after metas cache acc parts tail :
  Forall2 meta_ok metas parts ->
  Forall2 (fun meta p => file_ok disk cache (path meta) p) metas (with_tail parts tail) ->
  NoDup (path <$> metas) ->
  exists cache',
    scan_segments j disk after metas cache acc =
      (cache', Ok (foldl (scan_record after) acc (scanned after metas parts))) /\
    Forall2 (fun meta p => file_ok disk cache' (path meta) p) metas (with_tail parts tail) /\
    (forall name, name ∉ path <$> metas -> cache' !! name = cache !! name).
Proof.
  intros Hmetas. revert cache acc. induction Hmetas as [|meta p metas parts Hmeta Hmetas IH];
    intros cache acc Hfiles Hnd; [by exists cache|].
  rewrite with_tail_cons in *. apply Forall2_cons in Hfiles as [Hfile Hfiles].
  cbn [fmap list_fmap] in Hnd. apply NoDup_cons in Hnd as [Hnin Hnd].
  cbn [scan_segments]. unfold scanned. cbn [zip zip_with omap list_omap].
  destruct (last_seq meta <=? after)%N eqn:Hskip; cbn [fst snd].
  - destruct (IH cache acc Hfiles Hnd) as (cache' & Hscan & Hfiles' & Hother). rewrite Hskip.
    exists cache'. split_and!; [done| |].
    + constructor; [|done]. destruct Hfile as [? ? ? ? Hc]. split; try done. by rewrite Hother.
    + intros name Hname. apply Hother. set_solver.
  - rewrite Hskip. cbn [concat]. rewrite foldl_app.
    destruct Hfile as [Hdisk Hnl Hex Hasc Hcache]. cbn [fst snd] in *.
    destruct (refresh_ok (root j) (path meta) disk p (if decide (parts = []) then tail else [])
      (match metas with [] => true | _ => false end) (default empty_cache (cache !! path meta)) Hdisk Hex Hasc Hnl) as (entry & Href & Hrec & Hok);
      [|exact Hcache|].
    { destruct (decide (parts = [])) as [->|]; [right|by left]. by apply Forall2_nil_inv_r in Hmetas as ->. }
    unfold cached_segment_records. rewrite Href. cbn [mbind Result_bind]. rewrite Hrec.
    assert (Hfiles1 : Forall2 (fun meta0 p0 => file_ok disk (<[path meta := entry]> cache) (path meta0) p0)
      metas (with_tail parts tail)).
    { eapply Forall2_impl_elem; [exact Hfiles|]. intros m0 p0 Hm0 [? ? ? ? Hc]. split; try done.
      rewrite lookup_insert_ne; [done|]. intros Heq. apply Hnin. rewrite Heq. apply list_elem_of_fmap. eauto. }
    destruct (IH _ (foldl (scan_record after) acc p) Hfiles1 Hnd) as (cache' & Hscan & Hfiles' & Hother).
    exists cache'. split_and!; [exact Hscan| |].
    + constructor; [|done]. split; try done. cbn [fst]. rewrite Hother by done.
      by rewrite lookup_insert_eq.
    + intros name Hname. rewrite Hother by set_solver. apply lookup_insert_ne. set_solver.
Qed.

Lemma ascending_last previous recs r final :
  ascending previous recs -> last recs = Some final -> r ∈ recs -> (seq r <= seq final)%N.
Proof.
  revert previous r. induction recs as [|x recs IH]; intros previous r; [by intros _ _ ?%elem_of_nil|].
  intros [_ Hasc] Hlast Hin. destruct recs as [|y recs].
  - injection Hlast as ->. apply list_elem_of_singleton in Hin as ->. done.
  - change (last (x :: y :: recs)) with (last (y :: recs)) in Hlast.
    apply elem_of_cons in Hin as [->|Hin]; [|by eapply IH].
    assert (Hy : y ∈ y :: recs) by left. pose proof (IH _ _ Hasc Hlast Hy).
    pose proof (ascending_bound _ _ _ Hasc Hy _ eq_refl). lia.
Qed.

Lemma events_after_none after recs :
  (forall r, r ∈ recs -> (seq r <= after)%N) -> events_after after recs = [].
Proof.
  intros Hle. unfold events_after. apply elem_of_nil_inv. intros x (r & Hr & Hx)%list_elem_of_omap.
  specialize (Hle _ Hr). destruct (revokes r), (record_event r); try done.
  destruct (N.ltb_spec after (seq r)); [lia|done].
Qed.

Lemma ascending_parts p parts : ascending None (concat (p :: parts)) -> ascending None p /\ ascending None (concat parts).
Proof.
  cbn. intros Hasc. apply ascending_app in Hasc as [Hp Hrest]. split; [done|]. by eapply ascending_weaken.
Qed.

(** The records of a skipped segment are all at or below the cursor. *)
Lemma scanned_split after metas parts :
  Forall2 meta_ok metas parts -> ascending None (concat parts) ->
  events_after after (scanned after metas parts) = events_after after (concat parts) /\
  (forall r, r ∈ scanned after metas parts -> r ∈ concat parts) /\
  (forall r, r ∈ concat parts -> r ∈ scanned after metas parts \/ (seq r <= after)%N).
Proof.
  induction 1 as [|meta p metas parts (first & final & _ & Hlast & _ & Hls) Hmetas IH]; intros Hasc.
  { split_and!; [done|done|]. by intros r ?%elem_of_nil. }
  apply ascending_parts in Hasc as [Hp Hrest]. destruct (IH Hrest) as (IHe & IHin & IHout).
  unfold scanned in *. cbn [zip zip_with omap list_omap fst snd concat].
  destruct (N.leb_spec (last_seq meta) after) as [Hskip|Hkeep].
  - assert (Hlow : forall r, r ∈ p -> (seq r <= after)%N)
      by (intros r Hr; pose proof (ascending_last _ _ _ _ Hp Hlast Hr); lia).
    rewrite events_after_app, (events_after_none after p) by done. split_and!; [done| |].
    + intros r Hr. apply elem_of_app. right. by apply IHin.
    + intros r [Hr|Hr]%elem_of_app; [right; by apply Hlow|by apply IHout].
  - cbn [concat]. rewrite !events_after_app, IHe. split_and!; [done| |].
    + intros r [Hr|Hr]%elem_of_app; apply elem_of_app; [by left|right; by apply IHin].
    + intros r [Hr|Hr]%elem_of_app; [left; apply elem_of_app; by left|].
      destruct (IHout _ Hr); [left; apply elem_of_app; by right|by right].
Qed.

(** Revocations point back: the sequence they name was written before them. *)
Definition revokes_backward (log : list JournalRecordV1) : Prop :=
  forall r k, r ∈ log -> revokes r = Some k -> (k < seq r)%N.

Lemma events_after_elem after log item :
  item ∈ events_after after log -> (after < item.1)%N.
Proof.
  intros (r & _ & Hx)%list_elem_of_omap. destruct (revokes r), (record_event r); try done.
  destruct (N.ltb_spec after (seq r)); [by injection Hx as <-|done].
Qed.

Lemma filter_ext_elem {A} (f g : A -> bool) l :
  (forall x, x ∈ l -> f x = g x) -> List.filter f l = List.filter g l.
Proof.
  induction l as [|x l IH]; intros Hfg; cbn; [done|]. rewrite (Hfg x) by left.
  rewrite IH; [done|]. intros y Hy. apply Hfg. by right.
Qed.

Lemma scanned_replay after max metas parts :
  Forall2 meta_ok metas parts -> ascending None (concat parts) -> revokes_backward (concat parts) ->
  let recs := scanned after metas parts in
  ((fun item => (u64_to_string item.1, item.2)) <$>
    take max (List.filter (fun item => negb (bool_decide (item.1 ∈ revocations recs))) (events_after after recs)))
  = replay_spec (concat parts) after max.
Proof.
  intros Hmetas Hasc Hback. destruct (scanned_split after metas parts Hmetas Hasc) as (He & Hin & Hout).
  cbn zeta. unfold replay_spec. rewrite He. f_equal. f_equal. apply filter_ext_elem.
  intros item Hitem%events_after_elem. f_equal. apply bool_decide_ext. rewrite !revocations_spec.
  split; intros (r & Hr & Hk).
  - exists r. split; [by apply Hin|done].
  - exists r. split; [|done]. destruct (Hout _ Hr) as [?|Hle]; [done|].
    specialize (Hback _ _ Hr Hk). lia.
Qed.

Lemma segments_with_cache j c : segments (with_cache c j) = segments j.
Proof. done. Qed.

Lemma repr_oldest j disk log parts tail :
  journal_repr j disk log parts tail -> oldest_retained_seq j = seq <$> head log.
Proof.
  intros Hr. unfold oldest_retained_seq. rewrite (repr_log _ _ _ _ _ Hr).
  destruct (repr_metas _ _ _ _ _ Hr) as [|meta p metas parts' (first & final & Hh & _ & Hf & _) _]; [done|].
  destruct p as [|r p]; [done|]. cbn in *. by injection Hh as ->; rewrite Hf.
Qed.

(** A replay only fills the read cache, whatever it is asked for. *)
Lemma scan_repr j disk log parts tail after cache acc :
  journal_repr j disk log parts tail ->
  (scan_segments j disk after (segments j) (read_cache j) acc).1 = cache ->
  journal_repr (with_cache cache j) disk log parts tail.
Proof.
  intros Hr <-.
  destruct (scan_segments_ok j disk after (segments j) (read_cache j) acc parts tail
    (repr_metas _ _ _ _ _ Hr) (repr_files _ _ _ _ _ Hr) (repr_paths _ _ _ _ _ Hr))
    as (cache' & -> & Hfiles & Hother).
  destruct Hr as [Hlog Hmetas _ Hpaths Hasc Hnext Hfresh]. split; try done.
  intros s Hs. destruct (Hfresh s Hs) as (Hd & Hc & Hp). split_and!; [done| |done].
  cbn. by rewrite Hother.
Qed.

Lemma replay_repr j disk log parts tail raw max :
  journal_repr j disk log parts tail -> journal_repr (replay_from j disk raw max).1 disk log parts tail.
Proof.
  intros Hr. unfold replay_from. destruct (parse_u64 raw) as [after|]; [|done].
  destruct (match oldest_retained_seq j with Some _ => _ | None => _ end); [done|].
  destruct (scan_segments _ _ _ _ _ _) as [cache [[rev col]|err]] eqn:Hs;
    (eapply scan_repr; [exact Hr|by rewrite Hs]).
Qed.

Lemma replay_ok j disk log parts tail raw after max :
  journal_repr j disk log parts tail -> revokes_backward log ->
  parse_u64 raw = Some after -> (after < u64_max)%N ->
  exists j', journal_repr j' disk log parts tail /\ next_seq j' = next_seq j /\
  replay_from j disk raw max =
    match head log with
    | Some first =>
        if (after + 1 <? seq first)%N
        then (j, Err (JournalCursorExpired (u64_to_string (seq first - 1))))
        else (j', Ok (replay_spec log after max))
    | None => (j', Ok [])
    end.
Proof.
  intros Hr Hback Hraw Hafter. unfold replay_from. rewrite Hraw, (repr_oldest _ _ _ _ _ Hr).
  assert (Hsucc : wrapping_succ after = (after + 1)%N)
    by (unfold wrapping_succ; apply N.mod_small; lia). rewrite Hsucc.
  destruct (scan_segments_ok j disk after (segments j) (read_cache j) (∅, []) parts tail
    (repr_metas _ _ _ _ _ Hr) (repr_files _ _ _ _ _ Hr) (repr_paths _ _ _ _ _ Hr))
    as (cache' & Hscan & _ & _).
  exists (with_cache cache' j). split_and!; [by eapply scan_repr; [|rewrite Hscan]|done|].
  rewrite Hscan, scan_records. cbn [fst snd].
  rewrite (left_id_L ∅ (∪)), app_nil_l.
  rewrite scanned_replay; [|apply Hr| |]; rewrite <- (repr_log _ _ _ _ _ Hr); [|apply Hr|done].
  destruct log as [|first log]; cbn; [unfold replay_spec; cbn; by rewrite take_nil|].
  by destruct (after + 1 <? seq first)%N.
Qed.

(** ** Appending *)

Lemma rollover_frame secs j :
  segments (rollover secs j) = segments j /\ next_seq (rollover secs j) = next_seq j /\
  read_cache (rollover secs j) = read_cache j /\ root (rollover secs j) = root j.
Proof.
  unfold rollover, segments. destruct (active j) as [meta|] eqn:Ha; [|by rewrite ?Ha].
  destruct (needs_rollover j secs meta); cbn; [by rewrite app_nil_r|by rewrite ?Ha].
Qed.

Lemma rollover_repr secs j disk log parts tail :
  journal_repr j disk log parts tail -> journal_repr (rollover secs j) disk log parts tail.
Proof.
  destruct (rollover_frame secs j) as (Es & En & Ec & _).
  intros [Hlog Hmetas Hfiles Hpaths Hasc Hnext Hfresh].
  split; rewrite ?Es, ?En, ?Ec; done.
Qed.

Lemma ascending_snoc log r :
  ascending None log -> Forall (fun x => (seq x < seq r)%N) log -> ascending None (log ++ [r]).
Proof.
  intros Hasc Hlt. apply ascending_app. split; [done|]. cbn. split; [|done].
  intros p. destruct (last log) as [l|] eqn:El; [|done]. intros [= <-].
  rewrite Forall_forall in Hlt. apply Hlt. by apply last_Some_elem_of.
Qed.

(** The log extended by the record under the next sequence. *)
Lemma repr_log_snoc j disk log parts tail r :
  journal_repr j disk log parts tail -> seq r = next_seq j -> ascending None (log ++ [r]).
Proof.
  intros Hr Hs. apply ascending_snoc; [apply Hr|]. rewrite Hs. apply Hr.
Qed.

Lemma meta_ok_snoc meta recs r now bytes :
  meta_ok meta recs ->
  meta_ok {| path := path meta; first_seq := first_seq meta; last_seq := seq r;
             created_at_secs := created_at_secs meta; last_written_at_secs := now;
             bytes_written := bytes |} (recs ++ [r]).
Proof.
  intros (first & final & Hh & _ & Hf & _). exists first, r.
  split_and!; [|by rewrite last_snoc|done|done]. by destruct recs.
Qed.

Lemma lines_snoc recs r : lines recs ++ to_line r ++ [NL] = lines (recs ++ [r]).
Proof. by rewrite lines_app, lines_cons. Qed.

Lemma file_ok_other disk cache name p name' contents :
  file_ok disk cache name p -> name <> name' -> file_ok (<[name' := contents]> disk) cache name p.
Proof. intros [Hd ? ? ? ?] Hne. split; try done. by rewrite lookup_insert_ne. Qed.

(** Appending to the segment that is already open. *)
Lemma repr_append_active j disk log parts meta r now bytes :
  journal_repr j disk log parts [] -> active j = Some meta -> (seq r < u64_max)%N ->
  seq r = next_seq j -> exact r ->
  let meta' := {| path := path meta; first_seq := first_seq meta; last_seq := seq r;
                  created_at_secs := created_at_secs meta; last_written_at_secs := now;
                  bytes_written := bytes |} in
  exists parts', journal_repr (with_next (next_seq j + 1) (with_segments (sealed j) (Some meta') j))
    (<[path meta := default [] (disk !! path meta) ++ to_line r ++ [NL]]> disk) (log ++ [r]) parts' [].
Proof.
  intros Hr Hact Hmax Hs Hex meta'. pose proof (repr_log_snoc _ _ _ _ _ r Hr Hs) as Hasc.
  destruct Hr as [Hlog Hmetas Hfiles Hpaths _ Hnext Hfresh].
  unfold segments in Hmetas, Hfiles, Hpaths. rewrite Hact in Hmetas, Hfiles, Hpaths.
  cbn [option_list] in *.
  apply Forall2_app_inv_l in Hmetas as (init & final & Hinit & Hfinal & ->).
  apply Forall2_cons_inv_l in Hfinal as (p & nil & Hmeta & Hnil & ->). apply Forall2_nil_inv_l in Hnil as ->.
  rewrite with_tail_snoc in Hfiles. apply Forall2_app_inv in Hfiles as [Hfinit Hffinal];
    [|apply Forall2_length in Hinit; rewrite <- (length_fmap fst), with_tail_fst; done].
  apply Forall2_cons in Hffinal as [[Hd Hnl Hpex Hpasc Hpc] _]. cbn [fst snd] in *.
  rewrite fmap_app in Hpaths. apply NoDup_app in Hpaths as (Hnd & Hdisj & _).
  assert (Hne : forall m, m ∈ sealed j -> path m <> path meta).
  { intros m Hm Heq. apply (Hdisj (path m)); [apply list_elem_of_fmap; eauto|]. rewrite Heq. cbn. left. }
  exists (init ++ [p ++ [r]]). split; unfold segments; cbn [sealed active with_next with_segments
    read_cache next_seq option_list].
  - rewrite Hlog, !concat_app. cbn. by rewrite !app_nil_r, app_assoc.
  - apply Forall2_app; [done|]. constructor; [|done]. by apply meta_ok_snoc.
  - rewrite with_tail_snoc. apply Forall2_app.
    + eapply Forall2_impl_elem; [exact Hfinit|]. intros m q Hm Hq. by apply file_ok_other; [|apply Hne].
    + constructor; [|done]. rewrite Hd. cbn [default]. rewrite app_nil_r. split; cbn [fst snd].
      * rewrite app_nil_r. cbn [path meta']. rewrite lookup_insert_eq. by rewrite <- lines_snoc.
      * done.
      * apply Forall_app. by split; [|apply Forall_singleton].
      * rewrite Hlog, concat_app in Hasc. cbn in Hasc. rewrite app_nil_r, <- app_assoc in Hasc.
        apply ascending_app in Hasc as [_ Hasc]. by eapply ascending_weaken.
      * by apply cache_ok_app.
  - rewrite fmap_app. apply NoDup_app. split_and!; [done|done|apply NoDup_singleton].
  - done.
  - apply Forall_app. split; [|apply Forall_singleton; lia].
    eapply Forall_impl; [exact Hnext|]. cbn. intros. lia.
  - intros s Hs'. destruct (Hfresh s ltac:(lia)) as (Hds & Hcs & Hps). unfold segments in Hps.
    rewrite Hact, fmap_app in Hps. split_and!; [|done|rewrite fmap_app; exact Hps].
    rewrite lookup_insert_ne; [done|]. intros Heq. apply Hps. rewrite <- Heq.
    apply elem_of_app. right. cbn. left.
Qed.

(** Appending to a new segment. *)
Lemma repr_append_new j disk log parts r now bytes :
  journal_repr j disk log parts [] -> active j = None -> (seq r < u64_max)%N ->
  seq r = next_seq j -> exact r ->
  let meta' := {| path := segment_name (seq r); first_seq := seq r; last_seq := seq r;
                  created_at_secs := now; last_written_at_secs := now; bytes_written := bytes |} in
  exists parts', journal_repr (with_next (next_seq j + 1) (with_segments (sealed j) (Some meta') j))
    (<[segment_name (seq r) := to_line r ++ [NL]]> (<[segment_name (seq r) := []]> disk))
    (log ++ [r]) parts' [].
Proof.
  intros Hr Hact Hmax Hs Hex meta'. pose proof (repr_log_snoc _ _ _ _ _ r Hr Hs) as Hasc.
  destruct Hr as [Hlog Hmetas Hfiles Hpaths _ Hnext Hfresh].
  unfold segments in Hmetas, Hfiles, Hpaths. rewrite Hact, app_nil_r in Hmetas, Hfiles, Hpaths.
  destruct (Hfresh (seq r) ltac:(lia)) as (Hd0 & Hc0 & Hp0). unfold segments in Hp0.
  rewrite Hact, app_nil_r in Hp0. rewrite insert_insert_eq.
  exists (parts ++ [[r]]). split; unfold segments; cbn [sealed active with_next with_segments
    read_cache next_seq option_list].
  - rewrite Hlog, concat_app. done.
  - apply Forall2_app; [done|]. constructor; [|done]. by exists r, r.
  - rewrite with_tail_snoc. apply Forall2_app.
    + eapply Forall2_impl_elem; [exact Hfiles|]. intros m q Hm Hq. apply file_ok_other; [done|].
      intros Heq. apply Hp0. rewrite <- Heq. apply list_elem_of_fmap. eauto.
    + constructor; [|done]. split; cbn [fst snd path meta'].
      * rewrite lookup_insert_eq, app_nil_r. f_equal. exact (lines_snoc [] r).
      * set_solver.
      * by apply Forall_singleton.
      * done.
      * rewrite Hc0. apply cache_ok_empty.
  - rewrite fmap_app. apply NoDup_app. split_and!; [done| |apply NoDup_singleton].
    intros x Hx ->%list_elem_of_singleton. by apply Hp0.
  - done.
  - apply Forall_app. split; [|apply Forall_singleton; lia].
    eapply Forall_impl; [exact Hnext|]. cbn. intros. lia.
  - intros s Hs'. destruct (Hfresh s ltac:(lia)) as (Hds & Hcs & Hps). unfold segments in Hps.
    rewrite Hact, app_nil_r in Hps.
    assert (Hne : segment_name (seq r) <> segment_name s)
      by (intros Heq%segment_name_inj; lia).
    split_and!; [by rewrite lookup_insert_ne|done|].
    rewrite fmap_app, elem_of_app. intros [?|?%list_elem_of_singleton]; [done|by apply Hne].
Qed.

Lemma append_ok j disk log parts now e revoked :
  journal_repr j disk log parts [] -> (0 <= now)%Z -> (next_seq j < u64_max)%N ->
  let r := {| seq := next_seq j; written_at_secs := Z.to_N (now / 1000000000);
              record_event := e; revokes := revoked |} in
  exact r ->
  exists disk' j' parts',
    append_line j disk now Written e revoked = (disk', j', Ok (u64_to_string (next_seq j))) /\
    journal_repr j' disk' (log ++ [r]) parts' [] /\ next_seq j' = (next_seq j + 1)%N.
Proof.
  intros Hr Hnow Hnext r Hex. unfold append_line, now_secs.
  rewrite (proj2 (Z.ltb_ge _ _)) by lia. set (secs := Z.to_N (now / 1000000000)) in *.
  destruct (rollover_frame secs j) as (Es & En & Ec & Ero). pose proof (rollover_repr secs _ _ _ _ _ Hr) as Hr'.
  set (j1 := rollover secs j) in *. clearbody j1.
  assert (Hsucc : wrapping_succ (next_seq j1) = (next_seq j1 + 1)%N)
    by (unfold wrapping_succ; apply N.mod_small; lia).
  assert (Hseq : seq r = next_seq j1) by (by rewrite En).
  destruct (active j1) as [meta|] eqn:Hact.
  - destruct (repr_append_active j1 disk log parts meta r secs
      (bytes_written meta + N.of_nat (length (to_line r ++ [NL]))) Hr' Hact) as (parts' & Hp);
      [cbn; lia|done|done|].
    cbn -[wrapping_succ]. rewrite Hsucc, !En. do 3 eexists. split; [reflexivity|].
    split; [|reflexivity]. rewrite En in Hp. exact Hp.
  - unfold open_segment. destruct (repr_fresh _ _ _ _ _ Hr' (next_seq j1)) as (Hd & _ & _); [lia|].
    rewrite Hd.
    destruct (repr_append_new j1 disk log parts r secs
      (0 + N.of_nat (length (to_line r ++ [NL]))) Hr' Hact) as (parts' & Hp); [cbn; lia|done|done|].
    cbn -[wrapping_succ]. rewrite lookup_insert_eq, Hsucc, !En. do 3 eexists. split; [reflexivity|].
    split; [|reflexivity]. rewrite En in Hp. exact Hp.
Qed.
End log.
