(* ===== verification/JournalProps.v ===== *)
(** * A sample codec

    A concrete instance of the journal's codec and of its laws: a record of the
    first sample event is its sequence in angle brackets, one of the second is marked,
    and a revocation adds the sequence it revokes.  The evaluated runs of the journal and of the durable
    broker use it. *)
From S2P Require Import Prelude Json Events Journal JournalLog.
From Stdlib Require Import Ascii.

Definition named_event (name : string) : TraverseEvent := {|
  id := name; source := "traverse-runtime/trip"; event_type := "dev.trip.planned";
  datacontenttype := "application/json"; time := "2026-01-01T00:00:00Z"; data := Null;
  owner := "trip"; version := "1.0.0"; lifecycle_status := Active;
  deduplication_id := Some name; ordering_scope := Some "trip"; correlation_id := Some "c";
  causation_id := Some "c"; subject_id := None; actor_id := None |}.

Definition sample_event : TraverseEvent := named_event "e".

Definition second_event : TraverseEvent := named_event "f".

Definition sample_record (n : N) : JournalRecordV1 :=
  {| seq := n; written_at_secs := 0; record_event := Some sample_event; revokes := None |}.

Definition second_record (n : N) : JournalRecordV1 :=
  {| seq := n; written_at_secs := 0; record_event := Some second_event; revokes := None |}.

Definition sample_revocation (n k : N) : JournalRecordV1 :=
  {| seq := n; written_at_secs := 0; record_event := None; revokes := Some k |}.

(** The number a text starts with, and what follows it. *)
Fixpoint read_number (acc : N) (s : Bytes) : N * Bytes :=
  match s with
  | [] => (acc, [])
  | c :: rest =>
      match digit_value c with
      | Some d => read_number (10 * acc + d) rest
      | None => (acc, s)
      end
  end.

Definition digits (n : N) : Bytes :=
  if (n <=? u64_max)%N then String.list_ascii_of_string (u64_to_string n) else [].

Definition read_record (s : Bytes) : option JournalRecordV1 :=
  let '(n, rest) := read_number 0 s in
  if decide (rest = [">"%char]) then Some (sample_record n)
  else if decide (rest = ["+"%char; ">"%char]) then Some (second_record n)
  else match rest with
       | c :: rest' =>
           let '(k, rest'') := read_number 0 rest' in
           if decide (c = "!"%char /\ rest'' = [">"%char]) then Some (sample_revocation n k) else None
       | [] => None
       end.

Definition mark (r : JournalRecordV1) : Bytes :=
  match revokes r, record_event r with
  | Some k, _ => "!"%char :: digits k
  | None, Some e => if decide (id e = "f") then ["+"%char] else []
  | None, None => []
  end.

#[export] Instance bracket_codec : JournalCodec := {|
  to_line := fun r => "<"%char :: digits (seq r) ++ mark r ++ [">"%char];
  of_line := fun line =>
    match line with
    | c :: rest => if decide (c = "<"%char) then ok_or (read_record rest) "expected value" else Err "expected value"
    | [] => Err "expected value"
    end;
  parse_int_error := fun _ => "invalid digit found in string";
  os_error := fun _ => "os error" |}.

Lemma read_number_parsed s acc n tail :
  parse_digits acc s = Some n ->
  read_number acc (String.list_ascii_of_string s ++ tail) = read_number n tail.
Proof.
  revert acc. induction s as [|c s IH]; intros acc; cbn [parse_digits String.list_ascii_of_string app read_number].
  { by intros [= ->]. }
  destruct (digit_value c) as [d|]; cbn [mbind option_bind]; [|done].
  destruct (_ <=? _)%N; [apply IH|done].
Qed.

Lemma read_digits n tail : (n <= u64_max)%N -> read_number 0 (digits n ++ tail) = read_number n tail.
Proof.
  intros Hn. unfold digits. rewrite (proj2 (N.leb_le _ _) Hn).
  by apply read_number_parsed, parse_digits_to_string.
Qed.

Lemma parsed_no_newline s acc n : parse_digits acc s = Some n -> NL ∉ String.list_ascii_of_string s.
Proof.
  revert acc. induction s as [|c s IH]; intros acc; cbn [parse_digits String.list_ascii_of_string].
  { intros _ ?%elem_of_nil. done. }
  destruct (digit_value c) as [d|] eqn:Hc; cbn [mbind option_bind]; [|done].
  destruct (_ <=? _)%N; [|done]. intros Hs [<-|Hin]%elem_of_cons; [discriminate Hc|].
  by apply IH in Hs.
Qed.

Lemma digits_no_newline n : NL ∉ digits n.
Proof.
  unfold digits. destruct (N.leb_spec n u64_max); [|by intros ?%elem_of_nil].
  by eapply parsed_no_newline, parse_digits_to_string.
Qed.

Lemma read_record_mark r :
  (seq r <= u64_max)%N ->
  r = sample_record (seq r) \/ r = second_record (seq r) \/
    (exists k, (k <= u64_max)%N /\ r = sample_revocation (seq r) k) ->
  read_record (digits (seq r) ++ mark r ++ [">"%char]) = Some r.
Proof.
  intros Hle Hr. unfold read_record. rewrite read_digits by done. remember (seq r) as n eqn:Hn. clear Hn.
  destruct Hr as [->|[->|(k & Hk & ->)]]; [done..|]. cbn [mark revokes sample_revocation app].
  change (read_number n ("!"%char :: digits k ++ [">"%char])) with (n, "!"%char :: digits k ++ [">"%char]).
  cbn iota beta. rewrite !decide_False by discriminate. by rewrite read_digits.
Qed.

Lemma mark_no_newline r : NL ∉ mark r.
Proof.
  unfold mark. destruct (revokes r) as [k|].
  - rewrite not_elem_of_cons. split; [discriminate|apply digits_no_newline].
  - destruct (record_event r) as [e|]; [case_decide|];
      rewrite ?not_elem_of_cons; repeat split; try discriminate; by intros ?%elem_of_nil.
Qed.

#[export, refine] Instance bracket_laws : JournalCodecLaws := {|
  exact := fun r => (seq r <= u64_max)%N /\
    (r = sample_record (seq r) \/ r = second_record (seq r) \/
     exists k, (k <= u64_max)%N /\ r = sample_revocation (seq r) k) |}.
Proof.
  - intros r [Hle Hr]. cbn [to_line of_line bracket_codec]. rewrite decide_True by done.
    by rewrite read_record_mark.
  - intros r. cbn [to_line bracket_codec]. rewrite not_elem_of_cons, !not_elem_of_app, list_elem_of_singleton.
    split_and!; [discriminate|apply digits_no_newline|apply mark_no_newline|discriminate].
  - done.
Defined.

Lemma sample_exact n : (n <= u64_max)%N -> exact (sample_record n).
Proof. split; [done|by left]. Qed.

Lemma revocation_exact n k : (n <= u64_max)%N -> (k <= u64_max)%N -> exact (sample_revocation n k).
Proof. split; [done|]. eauto. Qed.

Lemma second_exact n : (n <= u64_max)%N -> exact (second_record n).
Proof. split; [done|]. auto. Qed.

(** A journal opened on an empty directory. *)
Definition fresh_journal : DurableEventJournal := {|
  root := "/j"; journal_config := default_journal_config; sealed := []; active := None;
  next_seq := 1; read_cache := ∅ |}.

Lemma fresh_repr : journal_repr fresh_journal ∅ [] [] [].
Proof.
  split; cbn; [done|constructor|constructor|constructor|done|constructor|].
  intros n _. split_and!; [done..|]. by intros ?%elem_of_nil.
Qed.

(** * Properties of the durable journal

    Refinement of the log by append, replay and recovery, and the two ways an
    interrupted write makes later, acknowledged records unreadable. *)
Section properties.
Context `{JournalCodecLaws}.

(** ** Recovery *)

Lemma last_app_Some {A} (l1 l2 : list A) x : last l2 = Some x -> last (l1 ++ l2) = Some x.
Proof. intros Hl. rewrite last_app. by rewrite Hl. Qed.

Lemma foldr_delete_comm {V} (m : gmap string V) x l : foldr delete (delete x m) l = delete x (foldr delete m l).
Proof. induction l as [|y l IH]; [done|]. cbn. rewrite IH. apply delete_delete. Qed.

Lemma foldr_delete_app {V} (m : gmap string V) l1 l2 :
  foldr delete (foldr delete m l1) l2 = foldr delete m (l1 ++ l2).
Proof. induction l1 as [|x l1 IH]; [done|]. cbn. by rewrite foldr_delete_comm, IH. Qed.

Lemma lookup_foldr_delete {V} (m : gmap string V) l x : x ∉ l -> foldr delete m l !! x = m !! x.
Proof.
  induction l as [|y l IH]; [done|]. rewrite not_elem_of_cons. intros [Hne Hx]. cbn.
  rewrite lookup_delete_ne by done. by apply IH.
Qed.

Lemma lookup_foldr_delete_None {V} (m : gmap string V) l x : m !! x = None -> foldr delete m l !! x = None.
Proof. intros Hx. induction l as [|y l IH]; [done|]. cbn. by rewrite lookup_delete_None; right. Qed.

Lemma lookup_foldr_delete_in {V} (m : gmap string V) l x : x ∈ l -> foldr delete m l !! x = None.
Proof.
  induction l as [|y l IH]; [by intros ?%elem_of_nil|]. intros [->|Hx]%elem_of_cons; cbn; [apply lookup_delete_eq|].
  rewrite lookup_delete_None. right. by apply IH.
Qed.

(** ** Segments without records *)

Definition has_records (p : list JournalRecordV1) : bool := match p with [] => false | _ => true end.

(** The segments in which no record was completed, and the others. *)
Fixpoint recordless (names : list string) (parts : list (list JournalRecordV1)) : list string :=
  match names, parts with
  | name :: names', p :: parts' => (if has_records p then [] else [name]) ++ recordless names' parts'
  | _, _ => []
  end.

Fixpoint kept_names (names : list string) (parts : list (list JournalRecordV1)) : list string :=
  match names, parts with
  | name :: names', p :: parts' => (if has_records p then [name] else []) ++ kept_names names' parts'
  | _, _ => []
  end.

Definition kept (parts : list (list JournalRecordV1)) : list (list JournalRecordV1) := List.filter has_records parts.

(** The unterminated tail goes with the file of the newest segment. *)
Definition kept_tail (parts : list (list JournalRecordV1)) (tail : Bytes) : Bytes :=
  match last parts with Some [] => [] | _ => tail end.

Lemma concat_kept parts : concat (kept parts) = concat parts.
Proof. unfold kept. induction parts as [|[|x p] parts IH]; cbn; [done|done|]. by rewrite IH. Qed.

Lemma kept_names_elem names parts name : name ∈ kept_names names parts -> name ∈ names.
Proof.
  revert parts. induction names as [|n names IH]; intros [|p parts]; cbn; [by intros ?%elem_of_nil..|].
  rewrite elem_of_app, elem_of_cons. intros [Hin|Hin]; [left|right; by eapply IH].
  destruct (has_records p); [by apply list_elem_of_singleton in Hin|by apply elem_of_nil in Hin].
Qed.

Lemma recordless_elem names parts name : name ∈ recordless names parts -> name ∈ names.
Proof.
  revert parts. induction names as [|n names IH]; intros [|p parts]; cbn; [by intros ?%elem_of_nil..|].
  rewrite elem_of_app, elem_of_cons. intros [Hin|Hin]; [left|right; by eapply IH].
  destruct (has_records p); [by apply elem_of_nil in Hin|by apply list_elem_of_singleton in Hin].
Qed.

Lemma kept_not_recordless names parts name :
  NoDup names -> name ∈ kept_names names parts -> name ∉ recordless names parts.
Proof.
  revert parts. induction names as [|n names IH]; intros [|p parts]; cbn; [by intros _ ?%elem_of_nil..|].
  intros [Hn Hnd]%NoDup_cons. rewrite !elem_of_app. destruct (has_records p).
  - intros [->%list_elem_of_singleton|Hin] [?%elem_of_nil|Hr]; [done| |done|by eapply IH].
    by apply Hn, (recordless_elem names parts).
  - intros [?%elem_of_nil|Hin] [->%list_elem_of_singleton|Hr]; [done..| |by eapply IH].
    by apply Hn, (kept_names_elem names parts).
Qed.

Lemma kept_names_NoDup names parts : NoDup names -> NoDup (kept_names names parts).
Proof.
  revert parts. induction names as [|n names IH]; intros [|p parts]; cbn; [constructor..|].
  intros [Hn Hnd]%NoDup_cons. destruct (has_records p); cbn; [|by apply IH].
  constructor; [|by apply IH]. intros Hin. by apply Hn, (kept_names_elem names parts).
Qed.

Lemma kept_tail_cons p parts tail : parts <> [] -> kept_tail (p :: parts) tail = kept_tail parts tail.
Proof. unfold kept_tail. destruct parts; [done|]. by rewrite last_cons_cons. Qed.

Lemma kept_nil_tail parts tail : parts <> [] -> kept parts = [] -> kept_tail parts tail = [].
Proof.
  unfold kept, kept_tail. intros Hne Hk. destruct (last parts) as [p|] eqn:Hl; [|by apply last_None in Hl].
  destruct p as [|x p]; [done|]. exfalso. apply last_Some_elem_of, list_elem_of_In in Hl.
  assert (Hin : In (x :: p) (List.filter has_records parts)) by (by apply filter_In). by rewrite Hk in Hin.
Qed.

Lemma kept_files disk names parts tail :
  Forall2 (file_ok disk ∅) names (with_tail parts tail) ->
  Forall2 (file_ok disk ∅) (kept_names names parts) (with_tail (kept parts) (kept_tail parts tail)).
Proof.
  revert names. induction parts as [|p parts IH]; intros names Hfiles.
  { apply Forall2_nil_inv_r in Hfiles as ->. constructor. }
  rewrite with_tail_cons in Hfiles. apply Forall2_cons_inv_r in Hfiles as (name & names' & Hfile & Hrest & ->).
  specialize (IH _ Hrest). cbn [kept_names kept List.filter]. fold (kept parts). destruct (decide (parts = [])) as [->|Hne].
  { apply Forall2_nil_inv_r in Hrest as ->. destruct p; [constructor|]. constructor; [exact Hfile|constructor]. }
  rewrite kept_tail_cons by done. destruct p as [|x p]; [exact IH|]. cbn [has_records app]. rewrite with_tail_cons.
  constructor; [|exact IH]. case_decide as Hk; [|exact Hfile]. by rewrite kept_nil_tail.
Qed.

(** An error of the file system, of a call that fails. *)
Definition call_failed (fails : OpenCall -> bool) (e : JournalError) : Prop :=
  exists call action, fails call = true /\ e = io_err action.

(** How the recovery of segments ends: the ones without records are removed and the
    others found, or a call failed and none with records was touched. *)
Definition recovered (fails : OpenCall -> bool) (disk : Disk) (names : list string) (parts : list (list JournalRecordV1))
    (found : list SegmentMeta) (next : N) (r : Disk * Result JournalError (list SegmentMeta * N)) : Prop :=
  match r with
  | (disk', Ok (found', next')) => disk' = foldr delete disk (recordless names parts) /\
      next' = match last (concat parts) with Some x => seq x + 1 | None => next end%N /\
      exists metas, found' = found ++ metas /\ Forall2 meta_ok metas (kept parts) /\ path <$> metas = kept_names names parts
  | (disk', Err e) => call_failed fails e /\ forall name, name ∉ recordless names parts -> disk' !! name = disk !! name
  end.

Lemma file_ok_delete disk name cache n p : n <> name -> file_ok disk cache n p -> file_ok (delete name disk) cache n p.
Proof. intros Hne []. split; try done. by rewrite lookup_delete_ne. Qed.

Lemma recovered_skip fails disk name names parts found next r :
  recovered fails (delete name disk) names parts found next r -> recovered fails disk (name :: names) ([] :: parts) found next r.
Proof.
  destruct r as [disk' [[found' next']|e]]; cbn [recovered recordless kept_names kept List.filter has_records concat app foldr].
  - intros (-> & Hrest). split; [apply foldr_delete_comm|exact Hrest].
  - intros [Hf Hd]. split; [done|]. intros n [Hne Hn]%not_elem_of_cons. rewrite Hd by done. by apply lookup_delete_ne.
Qed.

Lemma recovered_found fails disk name names p parts found next meta final r :
  last p = Some final -> meta_ok meta p -> path meta = name ->
  recovered fails disk names parts (found ++ [meta]) (seq final + 1) r -> recovered fails disk (name :: names) (p :: parts) found next r.
Proof.
  intros Hlast Hmeta Hpath. assert (Hp : has_records p = true) by (by destruct p).
  destruct r as [disk' [[found' next']|e]]; cbn [recovered recordless kept_names kept List.filter concat]; rewrite Hp; [|done].
  intros (-> & -> & metas & -> & Hmetas & Hpaths). split; [done|]. split.
  { rewrite last_app, Hlast. by destruct (last (concat parts)). }
  exists (meta :: metas). rewrite <- app_assoc. split_and!; [done|by constructor|]. cbn. by rewrite Hpath, Hpaths.
Qed.

Lemma recover_ok fails r disk names parts tail found next :
  NoDup names -> Forall2 (file_ok disk ∅) names (with_tail parts tail) ->
  (1 <= next)%N -> ascending (Some (next - 1)%N) (concat parts) ->
  Forall (fun x => (seq x < u64_max)%N) (concat parts) ->
  recovered fails disk names parts found next (recover_segments fails r disk names found next).
Proof.
  revert disk names found next. induction parts as [|p parts IH]; intros disk names found next Hnd Hfiles Hnext Hasc Hmax.
  { apply Forall2_nil_inv_r in Hfiles as ->. cbn. split_and!; [done..|]. exists []. by rewrite app_nil_r. }
  rewrite with_tail_cons in Hfiles.
  apply Forall2_cons_inv_r in Hfiles as (name & names' & [Hd Hnl Hex Hpasc _] & Hrest & ->).
  cbn [fst snd concat] in *. apply NoDup_cons in Hnd as [Hname Hnd].
  apply ascending_app in Hasc as [Hfirst Hasc]. apply Forall_app in Hmax as [Hpmax Hmax].
  assert (Htorn : (if decide (parts = []) then tail else []) = [] \/
    match names' with [] => true | _ => false end = true).
  { destruct (decide (parts = [])) as [->|]; [right|by left]. by apply Forall2_nil_inv_r in Hrest as ->. }
  cbn [recover_segments]. destruct (fails (ReadSegment name)) eqn:Hf1; cbn [negb ensure mbind Result_bind].
  { split; [|done]. by eexists _, _. }
  unfold read_segment_records. rewrite Hd. cbn [ok_or mbind Result_bind].
  rewrite parse_bytes_lines by done. cbn [mbind Result_bind fst].
  destruct (head p) as [first|] eqn:Hhead.
  2:{ destruct p; [|done]. destruct (fails (RemoveSegment name)) eqn:Hf2; [split; [by eexists _, _|done]|].
      apply recovered_skip, IH; [done| |done|done|done].
      eapply Forall2_impl_elem; [exact Hrest|]. cbn. intros n q Hn. apply file_ok_delete. by intros ->. }
  destruct (last p) as [final|] eqn:Hlast; [|apply last_None in Hlast; by subst].
  assert (Hgt : (next - 1 < seq first)%N)
    by (destruct p; [done|]; injection Hhead as ->; by apply (proj1 Hfirst)).
  rewrite (proj2 (N.ltb_ge _ _)) by lia. destruct (fails (StatSegment name)) eqn:Hf3; [split; [by eexists _, _|done]|].
  assert (Hfin : (seq final < u64_max)%N).
  { rewrite Forall_forall in Hpmax. apply Hpmax. by apply last_Some_elem_of. }
  assert (Hsucc : wrapping_succ (seq final) = (seq final + 1)%N)
    by (unfold wrapping_succ; apply N.mod_small; lia). rewrite Hsucc.
  eapply recovered_found; [done| | |apply IH]; [by exists first, final|done|done|done|lia| |done].
  by replace (seq final + 1 - 1)%N with (seq final) by lia.
Qed.

Lemma segment_paths_NoDup (disk : Disk) : NoDup (segment_paths disk).
Proof.
  unfold segment_paths. rewrite merge_sort_Permutation. apply NoDup_ListNoDup, List.NoDup_filter, NoDup_ListNoDup.
  apply NoDup_elements.
Qed.

Lemma segment_paths_dom (disk : Disk) name : name ∈ segment_paths disk -> is_Some (disk !! name).
Proof.
  unfold segment_paths. rewrite merge_sort_Permutation. intros [Hin _]%list_elem_of_In%filter_In.
  by apply elem_of_dom, elem_of_elements, list_elem_of_In.
Qed.

(** What is found represents the log. *)
Lemma recovered_repr fails r c disk parts tail disk' metas :
  Forall2 (file_ok disk ∅) (segment_paths disk) (with_tail parts tail) -> ascending (Some 0%N) (concat parts) ->
  (forall s, Forall (fun x => (seq x < s)%N) (concat parts) -> (1 <= s <= u64_max)%N ->
    is_Some (disk !! segment_name s) -> segment_name s ∈ recordless (segment_paths disk) parts) ->
  forall next, recovered fails disk (segment_paths disk) parts [] 1 (disk', Ok (metas, next)) ->
  journal_repr {| root := r; journal_config := c; sealed := metas; active := None; next_seq := next; read_cache := ∅ |}
    disk' (concat parts) (kept parts) (kept_tail parts tail).
Proof.
  intros Hfiles Hasc Hfresh next (-> & -> & ms & -> & Hmetas & Hpaths). cbn [app] in *.
  pose proof (segment_paths_NoDup disk) as Hnd.
  assert (Hbelow : Forall (fun x => seq x <
    match last (concat parts) with Some x => seq x + 1 | None => 1 end)%N (concat parts)).
  { apply Forall_forall. intros x Hx. destruct (last (concat parts)) as [f|] eqn:Hl.
    - pose proof (ascending_last _ _ _ _ Hasc Hl Hx). lia.
    - apply last_None in Hl. rewrite Hl in Hx. by apply elem_of_nil in Hx. }
  split; unfold segments; cbn [sealed active option_list read_cache next_seq]; rewrite ?app_nil_r.
  - by rewrite concat_kept.
  - done.
  - apply kept_files in Hfiles. rewrite <- Hpaths, Forall2_fmap_l in Hfiles.
    eapply Forall2_impl_elem; [exact Hfiles|]. intros meta p Hin []. split; try done.
    rewrite lookup_foldr_delete; [done|]. apply kept_not_recordless; [done|]. rewrite <- Hpaths. by apply list_elem_of_fmap_2.
  - rewrite Hpaths. by apply kept_names_NoDup.
  - by eapply ascending_weaken.
  - done.
  - intros s [Hlow Hhigh]. rewrite Hpaths.
    assert (Hs : is_Some (disk !! segment_name s) -> segment_name s ∈ recordless (segment_paths disk) parts).
    { apply Hfresh; [|split; [destruct (last (concat parts)); lia|done]].
      eapply Forall_impl; [exact Hbelow|]. cbn. intros x Hx. lia. }
    split_and!; [|done|].
    + destruct (decide (segment_name s ∈ recordless (segment_paths disk) parts)) as [Hin|Hout].
      * by apply lookup_foldr_delete_in.
      * rewrite lookup_foldr_delete by done. apply eq_None_not_Some. auto.
    + intros Hin. eapply kept_not_recordless; [exact Hnd|exact Hin|].
      apply Hs, segment_paths_dom. by eapply kept_names_elem.
Qed.

(** How opening ends, when the segments of the directory hold [parts]. *)
Definition open_spec (fails : OpenCall -> bool) (disk : Disk) (parts : list (list JournalRecordV1)) (tail : Bytes)
    (result : Disk * Result JournalError DurableEventJournal) : Prop :=
  match result with
  | (disk', Ok j) => disk' = foldr delete disk (recordless (segment_paths disk) parts) /\
      journal_repr j disk' (concat parts) (kept parts) (kept_tail parts tail)
  | (disk', Err e) => call_failed fails e /\
      forall name, name ∉ recordless (segment_paths disk) parts -> disk' !! name = disk !! name
  end.

Lemma open_ok (fails : OpenCall -> bool) (r : string) (c : JournalConfig) (disk : Disk)
    (parts : list (list JournalRecordV1)) (tail : Bytes) :
  validate_config c = Ok tt ->
  Forall2 (file_ok disk ∅) (segment_paths disk) (with_tail parts tail) ->
  ascending (Some 0%N) (concat parts) -> Forall (fun x => (seq x < u64_max)%N) (concat parts) ->
  (forall s, Forall (fun x => (seq x < s)%N) (concat parts) -> (1 <= s <= u64_max)%N ->
    is_Some (disk !! segment_name s) -> segment_name s ∈ recordless (segment_paths disk) parts) ->
  open_spec fails disk parts tail (open fails r c disk).
Proof.
  intros Hc Hfiles Hasc Hmax Hfresh. unfold open. rewrite Hc. cbn [mbind Result_bind].
  destruct (fails CreateRoot) eqn:Hf1; [split; [by eexists _, _|done]|].
  destruct (fails ListRoot) eqn:Hf2; [split; [by eexists _, _|done]|].
  destruct (fails ReadEntry) eqn:Hf3; [split; [by eexists _, _|done]|]. cbn [negb ensure mbind Result_bind].
  pose proof (recover_ok fails r disk _ parts tail [] 1 (segment_paths_NoDup disk) Hfiles ltac:(lia) Hasc Hmax) as Hrec.
  destruct (recover_segments fails r disk _ [] 1) as [disk' [[metas next]|e]]; [|exact Hrec].
  split; [apply Hrec|]. by eapply recovered_repr.
Qed.

(** C33: opening a directory whose segments, in name order, hold increasing records
    and whose newest segment may end in an interrupted write, also in the middle of its
    first record: whatever file system calls fail, either the journal represents exactly
    the recorded log, its next sequence is above all of it and just the files without a
    complete record are gone, or the error is that of a failed call and every file with a
    record is as it was. *)
Theorem open_recovers_log (fails : OpenCall -> bool) (r : string) (c : JournalConfig) (disk : Disk)
    (parts : list (list JournalRecordV1)) (tail : Bytes) :
  validate_config c = Ok tt ->
  Forall2 (file_ok disk ∅) (segment_paths disk) (with_tail parts tail) ->
  ascending (Some 0%N) (concat parts) -> Forall (fun x => (seq x < u64_max)%N) (concat parts) ->
  (forall s, Forall (fun x => (seq x < s)%N) (concat parts) -> (1 <= s <= u64_max)%N ->
    is_Some (disk !! segment_name s) -> segment_name s ∈ recordless (segment_paths disk) parts) ->
  match open fails r c disk with
  | (disk', Ok j) => disk' = foldr delete disk (recordless (segment_paths disk) parts) /\
      journal_repr j disk' (concat parts) (kept parts) (kept_tail parts tail)
  | (disk', Err e) => call_failed fails e /\
      forall name, name ∉ recordless (segment_paths disk) parts -> disk' !! name = disk !! name
  end.
Proof. apply open_ok. Qed.

(** ** Append and replay *)

(** A completed append writes exactly one record at the end of the log, under
    the next sequence, and acknowledges that sequence, whether or not it starts a
    new segment. *)
Theorem append_extends_log (j : DurableEventJournal) (disk : Disk) (log : list JournalRecordV1)
    (parts : list (list JournalRecordV1)) (now : Z) (e : TraverseEvent) :
  journal_repr j disk log parts [] -> (0 <= now)%Z -> (next_seq j < u64_max)%N ->
  let record := {| seq := next_seq j; written_at_secs := Z.to_N (now / 1000000000);
                   record_event := Some e; revokes := None |} in
  exact record ->
  exists disk' j' parts',
    append j disk now Written e = (disk', j', Ok (u64_to_string (next_seq j))) /\
    journal_repr j' disk' (log ++ [record]) parts' [] /\ next_seq j' = (next_seq j + 1)%N.
Proof. intros Hr Hnow Hnext record Hex. by apply (append_ok j disk log parts now (Some e) None). Qed.

(** C34: a replay returns exactly the log's events after the cursor that no record
    revokes, in order and up to the limit, or reports the oldest cursor when the
    log no longer reaches back that far; it does not depend on the segments or on
    what earlier replays cached, and leaves a journal representing the same log. *)
Theorem replay_reads_log (j : DurableEventJournal) (disk : Disk) (log : list JournalRecordV1)
    (parts : list (list JournalRecordV1)) (tail : Bytes) (raw : string) (after : N) (max_events : nat) :
  journal_repr j disk log parts tail -> revokes_backward log ->
  parse_u64 raw = Some after -> (after < u64_max)%N ->
  (replay_from j disk raw max_events).2 =
    match head log with
    | Some first =>
        if (after + 1 <? seq first)%N
        then Err (JournalCursorExpired (u64_to_string (seq first - 1)))
        else Ok (replay_spec log after max_events)
    | None => Ok []
    end /\
  journal_repr (replay_from j disk raw max_events).1 disk log parts tail.
Proof.
  intros Hr Hback Hraw Hafter.
  destruct (replay_ok j disk log parts tail raw after max_events Hr Hback Hraw Hafter) as (j' & Hj' & _ & ->).
  destruct (head log) as [first|]; [destruct (after + 1 <? seq first)%N|]; done.
Qed.
(** ** Retention *)

(** Both reclaim loops delete some number [k] of leading segments. *)
Definition reclaimed (k : nat) (disk : Disk) (metas : list SegmentMeta)
    : Disk * list SegmentMeta * list string * option JournalError :=
  (foldr delete disk (path <$> take k metas), drop k metas, path <$> take k metas, None).

Lemma reclaimed_step k disk meta rest :
  (let '(d, remaining, deleted, error) := reclaimed k (delete (path meta) disk) rest in
   (d, remaining, path meta :: deleted, error)) = reclaimed (S k) disk (meta :: rest).
Proof. unfold reclaimed. cbn. by rewrite foldr_delete_comm. Qed.

(** The number of leading segments whose last record is too old at [now]. *)
Fixpoint expired_prefix (now max_age : N) (metas : list SegmentMeta) : nat :=
  match metas with
  | [] => 0
  | meta :: rest =>
      if (saturating_sub now (last_written_at_secs meta) <=? max_age)%N then 0
      else S (expired_prefix now max_age rest)
  end.

Definition expired (now : N) (j : DurableEventJournal) : nat :=
  match retention_max_age_secs (journal_config j) with
  | None => 0
  | Some max_age => expired_prefix now max_age (sealed j)
  end.

(** The size limit, if any, holds of these segments. *)
Definition within_budget (j : DurableEventJournal) (metas : list SegmentMeta) : Prop :=
  match retention_max_total_bytes (journal_config j) with
  | None => True
  | Some max_total => (total_bytes (metas ++ option_list (active j)) <= max_total)%N
  end.

Lemma expired_prefix_le now max_age metas : expired_prefix now max_age metas <= length metas.
Proof. induction metas as [|m rest IH]; cbn; [lia|]. destruct (_ <=? _)%N; lia. Qed.

Definition all_present (disk : Disk) (metas : list SegmentMeta) : Prop :=
  NoDup (path <$> metas) /\ Forall (fun m => is_Some (disk !! path m)) metas.

Lemma all_present_tail disk meta rest :
  all_present disk (meta :: rest) -> all_present (delete (path meta) disk) rest.
Proof.
  intros [Hnd Hp]. cbn in Hnd. apply NoDup_cons in Hnd as [Hnin Hnd]. apply Forall_cons in Hp as [_ Hp].
  split; [done|]. rewrite Forall_forall in *. intros m Hm. rewrite lookup_delete_ne; [by apply Hp|].
  intros Heq. apply Hnin. rewrite Heq. apply list_elem_of_fmap. eauto.
Qed.

Lemma prune_by_age_reclaims now max_age disk metas :
  all_present disk metas ->
  prune_by_age now max_age disk metas = reclaimed (expired_prefix now max_age metas) disk metas.
Proof.
  revert disk. induction metas as [|meta rest IH]; intros disk Hp; [done|]. cbn [prune_by_age expired_prefix].
  destruct (_ <=? max_age)%N; [done|].
  destruct (proj1 (Forall_cons _ _ _) (proj2 Hp)) as [[contents ->] _].
  by rewrite IH, reclaimed_step by (by apply all_present_tail).
Qed.

Lemma prune_by_size_reclaims max_total disk metas last_segment :
  all_present disk metas ->
  exists k, prune_by_size (total_bytes (metas ++ last_segment)) max_total disk metas = reclaimed k disk metas /\
    k <= length metas /\
    (drop k metas = [] \/ (total_bytes (drop k metas ++ last_segment) <= max_total)%N) /\
    (forall i, i < k -> (max_total < total_bytes (drop i metas ++ last_segment))%N).
Proof.
  revert disk. induction metas as [|meta rest IH]; intros disk Hp.
  { exists 0. split_and!; [done|lia|by left|lia]. }
  cbn [prune_by_size app]. destruct (N.leb_spec (total_bytes (meta :: rest ++ last_segment)) max_total) as [Hle|Hgt].
  { exists 0. split_and!; [done|lia|by right|lia]. }
  destruct (proj1 (Forall_cons _ _ _) (proj2 Hp)) as [[contents ->] _].
  replace (total_bytes (meta :: rest ++ last_segment) - bytes_written meta)%N
    with (total_bytes (rest ++ last_segment)) by (unfold total_bytes; cbn; lia).
  destruct (IH _ (all_present_tail _ _ _ Hp)) as (k & -> & Hk & Hend & Hneed).
  exists (S k). rewrite reclaimed_step. split_and!; [done|cbn; lia|done|].
  intros [|i] Hi; [exact Hgt|]. apply Hneed. lia.
Qed.

Lemma drop_with_tail k parts tail : drop k (with_tail parts tail) = with_tail (drop k parts) tail.
Proof.
  revert k. induction parts as [|p parts IH]; intros k; [by destruct k|].
  destruct k as [|k]; [done|]. rewrite with_tail_cons. cbn [drop]. apply IH.
Qed.

(** Dropping leading segments drops the records they hold. *)
Lemma repr_drop j disk log parts tail k cache :
  journal_repr j disk log parts tail -> k <= length (sealed j) ->
  let gone := path <$> take k (sealed j) in
  (forall name, name ∉ gone -> cache !! name = read_cache j !! name) ->
  (forall name, read_cache j !! name = None -> cache !! name = None) ->
  journal_repr (with_cache cache (with_segments (drop k (sealed j)) (active j) j))
    (foldr delete disk gone) (concat (drop k parts)) (drop k parts) tail.
Proof.
  intros [Hlog Hmetas Hfiles Hpaths Hasc Hnext Hfresh] Hk gone Hcache Hnone.
  assert (Hseg : segments (with_cache cache (with_segments (drop k (sealed j)) (active j) j)) =
    drop k (segments j)) by (unfold segments; cbn; by rewrite drop_app_le).
  assert (Hgone : forall m, m ∈ drop k (segments j) -> path m ∉ gone).
  { intros m Hm Hin. unfold gone in Hin. unfold segments in *. rewrite drop_app_le in Hm by done.
    rewrite <- (take_drop k (sealed j)), <- app_assoc, fmap_app in Hpaths.
    apply NoDup_app in Hpaths as (_ & Hdisj & _). apply (Hdisj _ Hin).
    apply list_elem_of_fmap. eauto. }
  assert (Hsplit : log = concat (take k parts) ++ concat (drop k parts))
    by (rewrite Hlog, <- concat_app, take_drop; done).
  split; try rewrite Hseg; cbn [read_cache next_seq with_cache with_segments].
  - done.
  - by apply Forall2_drop.
  - rewrite <- drop_with_tail. eapply Forall2_impl_elem; [by apply Forall2_drop; exact Hfiles|].
    intros m p Hm [Hd Hnl Hex Hpa Hpc]. specialize (Hgone _ Hm).
    split; try done; [by rewrite lookup_foldr_delete|by rewrite Hcache].
  - rewrite <- (take_drop k (segments j)), fmap_app in Hpaths. by apply NoDup_app in Hpaths as (_ & _ & ?).
  - rewrite Hsplit in Hasc. apply ascending_app in Hasc as [_ Hasc]. by eapply ascending_weaken.
  - rewrite Hsplit in Hnext. by apply Forall_app in Hnext as [_ ?].
  - intros s Hs. destruct (Hfresh s Hs) as (Hd & Hc & Hp). split_and!.
    + by apply lookup_foldr_delete_None.
    + by apply Hnone.
    + rewrite <- (take_drop k (segments j)), fmap_app in Hp. set_solver.
Qed.

Lemma repr_all_present j disk log parts tail :
  journal_repr j disk log parts tail -> all_present disk (sealed j).
Proof.
  intros [_ Hmetas Hfiles Hpaths _ _ _]. unfold segments in *. rewrite fmap_app in Hpaths.
  split; [by apply NoDup_app in Hpaths as (? & _ & _)|].
  apply Forall_forall. intros m Hm.
  assert (Hin : m ∈ sealed j ++ option_list (active j)) by (apply elem_of_app; by left).
  apply list_elem_of_lookup in Hin as [i Hi].
  destruct (Forall2_lookup_l _ _ _ _ _ Hfiles Hi) as (p & _ & [Hd _ _ _ _]). eauto.
Qed.

Lemma with_cache_id j : with_cache (read_cache j) j = j.
Proof. by destruct j. Qed.

Lemma take_add_path a b (l : list SegmentMeta) :
  path <$> take (a + b) l = (path <$> take a l) ++ (path <$> take b (drop a l)).
Proof.
  rewrite <- fmap_app. f_equal. rewrite <- (take_drop a l) at 1.
  rewrite take_app, length_take, take_take.
  destruct (le_lt_dec a (length l)); [f_equal; f_equal; lia|].
  rewrite !(drop_ge l) by lia. rewrite !take_nil. f_equal. f_equal. lia.
Qed.

(** The two passes of a prune on a consistent directory. *)
Lemma prune_result j disk log parts tail now :
  journal_repr j disk log parts tail -> (0 <= now)%Z ->
  let k1 := expired (Z.to_N (now / 1000000000)) j in
  exists k2,
    prune j disk now =
      (foldr delete disk (path <$> take (k1 + k2) (sealed j)),
       with_cache (foldr delete (read_cache j) (path <$> take (k1 + k2) (sealed j)))
         (with_segments (drop (k1 + k2) (sealed j)) (active j) j),
       Ok (path <$> take (k1 + k2) (sealed j))) /\
    k1 + k2 <= length (sealed j) /\
    (drop (k1 + k2) (sealed j) = [] \/ within_budget j (drop (k1 + k2) (sealed j))) /\
    (forall i, k1 <= i < k1 + k2 -> ~ within_budget j (drop i (sealed j))).
Proof.
  intros Hr Hnow k1. unfold prune, now_secs. rewrite (proj2 (Z.ltb_ge _ _)) by lia.
  set (secs := Z.to_N (now / 1000000000)) in *.
  pose proof (repr_all_present _ _ _ _ _ Hr) as Hp1.
  assert (Hk1 : k1 <= length (sealed j)).
  { unfold k1, expired. destruct (retention_max_age_secs _); [apply expired_prefix_le|lia]. }
  assert (H1 : match retention_max_age_secs (journal_config j) with
    | None => (disk, sealed j, [], None)
    | Some max_age => prune_by_age secs max_age disk (sealed j) end = reclaimed k1 disk (sealed j)).
  { unfold k1, expired. destruct (retention_max_age_secs _); [by apply prune_by_age_reclaims|done]. }
  rewrite H1. unfold reclaimed at 1.
  assert (Hr1 : journal_repr (with_segments (drop k1 (sealed j)) (active j) j)
    (foldr delete disk (path <$> take k1 (sealed j))) (concat (drop k1 parts)) (drop k1 parts) tail).
  { rewrite <- (with_cache_id (with_segments _ _ _)). by apply (repr_drop j disk log). }
  pose proof (repr_all_present _ _ _ _ _ Hr1) as Hp2.
  cbn [sealed active journal_config read_cache with_segments] in *. unfold segments, within_budget.
  cbn [sealed active with_segments].
  destruct (retention_max_total_bytes (journal_config j)) as [max_total|].
  - destruct (prune_by_size_reclaims max_total _ _ (option_list (active j)) Hp2) as (k2 & -> & Hk2 & Hend & Hneed).
    exists k2. unfold reclaimed. rewrite foldr_delete_app, <- take_add_path, drop_drop in *.
    rewrite length_drop in Hk2. split_and!; [done|lia|done|].
    intros i Hi Hle. specialize (Hneed (i - k1) ltac:(lia)). rewrite drop_drop in Hneed.
    replace (k1 + (i - k1)) with i in Hneed by lia. lia.
  - exists 0. rewrite Nat.add_0_r, app_nil_r. split_and!; [done|lia|by right|lia].
Qed.

(** On a consistent directory a prune does not fail and deletes a number [k] of
    leading sealed segments with their files, never the active one: at least
    those that lead with an expired last record, and beyond them exactly as many
    as the size limit needs (every shorter cut is over the limit, and the result
    is within it unless no sealed segment is left). What remains represents the
    log without the deleted segments' records, a suffix of the history. *)
Theorem prune_keeps_suffix (j : DurableEventJournal) (disk : Disk) (log : list JournalRecordV1)
    (parts : list (list JournalRecordV1)) (tail : Bytes) (now : Z) :
  journal_repr j disk log parts tail -> (0 <= now)%Z ->
  exists k disk' j',
    prune j disk now = (disk', j', Ok (path <$> take k (sealed j))) /\
    sealed j' = drop k (sealed j) /\ active j' = active j /\
    journal_repr j' disk' (concat (drop k parts)) (drop k parts) tail /\
    expired (Z.to_N (now / 1000000000)) j <= k /\
    (sealed j' = [] \/ within_budget j (sealed j')) /\
    (forall i, expired (Z.to_N (now / 1000000000)) j <= i < k -> ~ within_budget j (drop i (sealed j))).
Proof.
  intros Hr Hnow. destruct (prune_result _ _ _ _ _ _ Hr Hnow) as (k2 & -> & Hk & Hend & Hneed).
  eexists _, _, _. split; [reflexivity|]. cbn [sealed active with_cache with_segments].
  split_and!; [done..| |lia|done|exact Hneed].
  apply (repr_drop j disk log); [done..| |].
  - intros name. apply lookup_foldr_delete.
  - intros name. apply lookup_foldr_delete_None.
Qed.
End properties.

(** ** Runs of the sample journal *)

Lemma append_extends_log_witness :
  exists disk' j' parts', append fresh_journal ∅ 0 Written sample_event = (disk', j', Ok "1") /\
    journal_repr j' disk' [sample_record 1] parts' [] /\ next_seq j' = 2%N.
Proof.
  apply (append_extends_log fresh_journal ∅ [] [] 0 sample_event fresh_repr); [lia|reflexivity|].
  by apply sample_exact.
Defined.

(** The contents of a segment holding one record and an interrupted write. *)
Definition torn_disk : Disk :=
  {[ segment_name 1 := lines [sample_record 1] ++ String.list_ascii_of_string "<2" ]}.

Lemma torn_disk_file :
  file_ok torn_disk ∅ (segment_name 1) ([sample_record 1], String.list_ascii_of_string "<2").
Proof.
  split; cbn [fst snd].
  - unfold torn_disk. apply lookup_singleton_eq.
  - cbn. rewrite !not_elem_of_cons. split_and!; [discriminate..|by intros ?%elem_of_nil].
  - apply Forall_singleton. by apply sample_exact.
  - done.
  - apply cache_ok_empty.
Qed.

Lemma refresh_equals_full_read_witness :
  exists cache', refresh_segment_cache "/j" (segment_name 1) torn_disk true empty_cache = Ok cache' /\
    read_segment_records "/j" (segment_name 1) torn_disk true = Ok (records cache') /\
    records cache' = [sample_record 1].
Proof.
  destruct torn_disk_file as [Hd Hnl Hex Hasc Hc].
  destruct (refresh_equals_full_read "/j" (segment_name 1) torn_disk [sample_record 1]
    (String.list_ascii_of_string "<2") true empty_cache Hd Hex Hasc Hnl (or_intror eq_refl) Hc)
    as (cache' & Href & Hread & Hrec & _).
  exists cache'. split; [exact Href|]. split; [exact Hread|exact Hrec].
Defined.

Lemma torn_disk_paths : segment_paths torn_disk = [segment_name 1].
Proof. vm_compute. reflexivity. Qed.

Lemma segment_name_1_ne s : (1 < s <= u64_max)%N -> segment_name 1 <> segment_name s.
Proof. intros Hs Heq%segment_name_inj; [lia|vm_compute; discriminate|lia]. Qed.

Lemma torn_disk_fresh s :
  Forall (fun x => (seq x < s)%N) (concat [[sample_record 1]]) -> (1 <= s <= u64_max)%N ->
  torn_disk !! segment_name s = None /\ segment_name s ∉ segment_paths torn_disk.
Proof.
  cbn [concat app]. rewrite Forall_singleton. cbn [seq sample_record]. intros Hs Hmax.
  pose proof (segment_name_1_ne s ltac:(lia)) as Hne.
  split; [by apply lookup_singleton_ne|]. rewrite torn_disk_paths, list_elem_of_singleton. congruence.
Qed.

(** A crash in the first record of the second segment. *)
Definition crashed_disk : Disk :=
  <[segment_name 2 := String.list_ascii_of_string "<2"]> {[ segment_name 1 := lines [sample_record 1] ]}.

Lemma crashed_disk_paths : segment_paths crashed_disk = [segment_name 1; segment_name 2].
Proof. vm_compute. reflexivity. Qed.

Lemma crashed_disk_files : Forall2 (file_ok crashed_disk ∅) [segment_name 1; segment_name 2]
  (with_tail [[sample_record 1]; []] (String.list_ascii_of_string "<2")).
Proof.
  constructor; [|constructor; [|constructor]]; split; cbn [fst snd].
  - unfold crashed_disk. rewrite app_nil_r, lookup_insert_ne by (by apply not_eq_sym, segment_name_1_ne). apply lookup_singleton_eq.
  - by intros ?%elem_of_nil.
  - apply Forall_singleton. by apply sample_exact.
  - done.
  - apply cache_ok_empty.
  - apply lookup_insert_eq.
  - cbn. rewrite !not_elem_of_cons. split_and!; [discriminate..|by intros ?%elem_of_nil].
  - constructor.
  - done.
  - apply cache_ok_empty.
Qed.

Lemma crashed_disk_fresh s :
  Forall (fun x => (seq x < s)%N) [sample_record 1] -> (1 <= s <= u64_max)%N ->
  is_Some (crashed_disk !! segment_name s) -> segment_name s ∈ [segment_name 2].
Proof.
  rewrite Forall_singleton. cbn [seq sample_record]. intros Hs Hmax. unfold crashed_disk. rewrite list_elem_of_singleton.
  destruct (decide (segment_name s = segment_name 2)) as [Heq|Hne]; [done|].
  rewrite lookup_insert_ne, lookup_singleton_ne by (done || apply segment_name_1_ne; lia). by intros [].
Qed.

Lemma open_recovers_log_witness : exists disk' j,
  open no_failure "/j" default_journal_config crashed_disk = (disk', Ok j) /\
  disk' = delete (segment_name 2) crashed_disk /\ journal_repr j disk' [sample_record 1] [[sample_record 1]] [].
Proof.
  pose proof (open_recovers_log no_failure "/j" default_journal_config crashed_disk [[sample_record 1]; []]
    (String.list_ascii_of_string "<2") eq_refl) as Hspec.
  rewrite crashed_disk_paths in Hspec. specialize (Hspec crashed_disk_files).
  destruct (open no_failure "/j" default_journal_config crashed_disk) as [disk' [j|e]].
  - exists disk', j. split; [reflexivity|].
    apply Hspec; [cbn; split; [intros p [= <-]; lia|exact I]|by apply Forall_singleton|exact crashed_disk_fresh].
  - exfalso. destruct Hspec as [(call & action & Hf & _) _]; [cbn; split; [intros p [= <-]; lia|exact I]|by apply Forall_singleton
      |exact crashed_disk_fresh|discriminate Hf].
Defined.

(** A journal whose only segment expired at [now] = 100 s. *)
Definition pruning_journal : DurableEventJournal := {|
  root := "/j";
  journal_config := {| max_segment_bytes := 100; max_segment_age_secs := 600;
    retention_max_age_secs := Some 10%N; retention_max_total_bytes := Some 50%N |};
  sealed := [ {| path := segment_name 1; first_seq := 1; last_seq := 1; created_at_secs := 0;
                 last_written_at_secs := 0; bytes_written := 6 |} ];
  active := None; next_seq := 2; read_cache := ∅ |}.

Lemma pruning_repr :
  journal_repr pruning_journal torn_disk [sample_record 1] [[sample_record 1]] (String.list_ascii_of_string "<2").
Proof.
  split; unfold segments; cbn [sealed active pruning_journal option_list app read_cache next_seq].
  - done.
  - constructor; [|constructor]. by exists (sample_record 1), (sample_record 1).
  - constructor; [apply torn_disk_file|constructor].
  - apply NoDup_singleton.
  - by split.
  - by apply Forall_singleton.
  - intros s Hs. destruct (torn_disk_fresh s) as [Hd Hp]; [apply Forall_singleton; cbn; lia|lia|].
    split_and!; [done..|]. by rewrite torn_disk_paths in Hp.
Qed.

Lemma prune_keeps_suffix_witness :
  exists disk' j', prune pruning_journal torn_disk 100000000000 = (disk', j', Ok [segment_name 1]) /\
    sealed j' = [] /\ exists k, journal_repr j' disk' (concat (drop k [[sample_record 1]]))
      (drop k [[sample_record 1]]) (String.list_ascii_of_string "<2").
Proof.
  destruct (prune_keeps_suffix _ _ _ _ _ 100000000000 pruning_repr ltac:(lia))
    as (k & disk' & j' & Hprune & Hsealed & _ & Hrepr & Hk & _).
  exists disk', j'. destruct k as [|k]; [vm_compute in Hk; lia|].
  split; [rewrite Hprune; by destruct k|]. split; [rewrite Hsealed; by destruct k|]. by exists (S k).
Defined.

Lemma replay_reads_log_witness :
  exists disk' j', append fresh_journal ∅ 0 Written sample_event = (disk', j', Ok "1") /\
    (replay_from j' disk' "0" 10).2 = Ok [("1", sample_event)].
Proof.
  destruct (append_ok fresh_journal ∅ [] [] 0 (Some sample_event) None fresh_repr) as
    (disk' & j' & parts' & Happ & Hrepr & _); [lia|reflexivity|by apply sample_exact|].
  exists disk', j'. split; [exact Happ|].
  destruct (replay_reads_log j' disk' [sample_record 1] parts' [] "0" 0 10 Hrepr) as [Hread _];
    [|reflexivity|reflexivity|exact Hread].
  intros x k ->%list_elem_of_singleton. discriminate.
Defined.

(** ** Interrupted writes *)

(** An interrupted write that recovery tolerates is left in its segment: the
    next append is acknowledged in a newer segment, after which replaying the
    journal from the start fails as corrupt, and so does the next open, although
    the appended record was acknowledged. *)
Theorem torn_tail_poisons_journal :
  match open no_failure "/j" default_journal_config torn_disk with
  | (disk0, Ok j0) =>
      match append j0 disk0 0 Written sample_event with
      | (disk1, j1, Ok cursor) =>
          cursor = "2" /\
          (replay_from j0 disk0 "0" 10).2 = Ok [("1", sample_event)] /\
          (replay_from j1 disk1 "0" 10).2 =
            Err (Corrupt "/j/segment-00000000000000000001.jsonl" 2 "malformed record: expected value") /\
          (open no_failure "/j" default_journal_config disk1).2 =
            Err (Corrupt "/j/segment-00000000000000000001.jsonl" 2 "malformed record: expected value")
      | _ => False
      end
  | _ => False
  end.
Proof. vm_compute. split_and!; reflexivity. Qed.

(** A write that fails after part of its line reached the file leaves the part
    there; the next append to the segment succeeds and is acknowledged, but its
    record continues the broken line, and neither a replay nor an open can read
    it. *)
Theorem failed_write_loses_next_record :
  match append fresh_journal ∅ 0 Written sample_event with
  | (disk1, j1, Ok first) =>
      match append j1 disk1 0 (WriteFailed 2) sample_event with
      | (disk2, j2, Err failure) =>
          match append j2 disk2 0 Written sample_event with
          | (disk3, j3, Ok second) =>
              first = "1" /\ failure = Io "append journal record: os error" /\ second = "2" /\
              (replay_from j3 disk3 "1" 10).2 =
                Err (Corrupt "/j/segment-00000000000000000001.jsonl" 2 "malformed record: expected value") /\
              (open no_failure "/j" default_journal_config disk3).2 =
                Err (Corrupt "/j/segment-00000000000000000001.jsonl" 2 "malformed record: expected value")
          | _ => False
          end
      | _ => False
      end
  | _ => False
  end.
Proof. vm_compute. split_and!; reflexivity. Qed.
