(* ===== verification/Durable.v ===== *)
(** * The durable broker

    [crates/traverse-runtime/src/events/durable.rs]: publication through the
    journal before live delivery, and subscriptions that fall back to the journal.

    The traits [EventBroker], [JournalSource] and [JournalSink] are classes; the
    in-process broker and the journal with its directory are instances.  The
    publisher, the writer thread and the subscribers interleave at their locks:
    every function of the section on publication is one critical section, and the
    steps of [Publication] compose them in any order.  An acknowledgement cell is a
    field of the call that waits on it. *)
From S2P Require Import Prelude Json Events Broker Journal.
From Stdlib Require Import Ascii.

(** ** Interfaces *)

(** [trait EventBroker], the inner broker; operations that read the clock take it. *)
Class EventBroker (B : Type) := {
  inner_publish_with_cursor : B -> Z -> TraverseEvent -> string -> B * Result EventError unit;
  inner_seed_restart_floor : B -> N -> B;
  inner_subscribe_for_subject : B -> Z -> string -> string -> option string -> B * Result EventError Subscription;
  inner_poll : B -> Z -> string -> nat -> B * Result EventError SubscriptionPoll;
  inner_cancel : B -> string -> B * Result EventError unit }.

#[export] Instance in_process_broker `{Semver} : EventBroker InProcessBroker := {|
  inner_publish_with_cursor := publish_with_cursor;
  inner_seed_restart_floor := seed_restart_floor;
  inner_subscribe_for_subject := subscribe_for_subject;
  inner_poll := poll;
  inner_cancel := cancel |}.

(** [trait JournalSource] *)
Class JournalSource (J : Type) := {
  source_replay_from : J -> string -> nat -> J * Result JournalError (list (string * TraverseEvent)) }.

(** [trait JournalSink]; an append observes the clock and how its write ends. *)
Class JournalSink (J : Type) := {
  sink_append_event : J -> Z -> WriteOutcome -> TraverseEvent -> J * Result JournalError string;
  sink_append_revocation : J -> Z -> WriteOutcome -> string -> J * Result JournalError string }.

(** [RwLock<DurableEventJournal>] and [SharedJournalSink]: one journal, with its
    directory, on both sides. *)
Record SharedJournal := { shared : DurableEventJournal; directory : Disk }.

#[export] Instance shared_source `{JournalCodec} : JournalSource SharedJournal := {|
  source_replay_from := fun s cursor max_events =>
    let '(j, result) := replay_from (shared s) (directory s) cursor max_events in
    ({| shared := j; directory := directory s |}, result) |}.

#[export] Instance shared_sink `{JournalCodec} : JournalSink SharedJournal := {|
  sink_append_event := fun s now outcome e =>
    let '(disk, j, result) := append (shared s) (directory s) now outcome e in
    ({| shared := j; directory := disk |}, result);
  sink_append_revocation := fun s now outcome cursor =>
    let '(disk, j, result) := append_revocation (shared s) (directory s) now outcome cursor in
    ({| shared := j; directory := disk |}, result) |}.

(** ** Data *)

Definition DURABLE_SUBSCRIPTION_PREFIX : string := "durable-sub-".

Record DurableSubscriptionState := {
  durable_event_type : string;
  durable_subject_id : option string;
  durable_cursor : string }.

Record DurableSubscriptions := {
  next_id : N;
  entries : gmap string DurableSubscriptionState }.

Record JournalWriteAuditRecord := {
  audit_kind : string;
  audit_event_id : string;
  audit_event_type : string;
  audit_detail : string }.

Definition display_journal_error (e : JournalError) : string :=
  match e with
  | Io message => "journal io failure: " +:+ message
  | Corrupt where_ line message =>
      "journal corrupt at " +:+ where_ +:+ ":" +:+ u64_to_string (N.of_nat line) +:+ ": " +:+ message
  | JournalInvalidCursor message => "invalid journal cursor: " +:+ message
  | JournalCursorExpired oldest => "journal cursor expired: oldest available cursor is " +:+ oldest
  | InvalidConfig message => "invalid journal config: " +:+ message
  end.

Definition map_journal_read_error (ty : string) (e : JournalError) : EventError :=
  match e with
  | JournalCursorExpired oldest => CursorExpired ty oldest
  | JournalInvalidCursor message => InvalidCursor message
  | Io message | InvalidConfig message => JournalRead message
  | Corrupt where_ line message =>
      JournalRead ("corrupt journal record at " +:+ where_ +:+ ":" +:+ u64_to_string (N.of_nat line)
                     +:+ ": " +:+ message)
  end.

Definition normalize_cursor (raw : string) : Result EventError string :=
  match parse_u64 raw with
  | Some parsed => Ok (u64_to_string parsed)
  | None => Err (InvalidCursor raw)
  end.

Inductive AckState :=
  | Pending
  | Done (cursor : string)
  | Failed (error : JournalError)
  | Abandoned.

(** A job names the call whose acknowledgement it carries. *)
Inductive WriterJob :=
  | JobWrite (call : nat) (event : TraverseEvent)
  | JobRevoke (call : nat) (cursor event_id event_type : string).

(** Where a call of [publish] is: waiting for its write, about to deliver, waiting
    for the revocation of a write that could not be delivered, or back. *)
Inductive PublishPc :=
  | AwaitWrite
  | Delivering (cursor : string)
  | AwaitRevoke (rejection : EventError)
  | Returned (result : Result EventError unit).

(** [call_cursor] records where the call's event was written; no step reads it. *)
Record PublishCall := {
  call_event : TraverseEvent;
  call_pc : PublishPc;
  write_ack : AckState;
  revoke_ack : AckState;
  call_cursor : option string }.

(** Where the writer thread is: waiting for a job, holding the outcome of an
    append it has not acknowledged, about to revoke an abandoned write, or holding
    the outcome of a revocation. *)
Inductive Writer :=
  | Idle
  | Wrote (call : nat) (event : TraverseEvent) (result : Result JournalError string)
  | Revoking (cursor event_id event_type : string)
  | Revoked (call : nat) (result : Result JournalError unit)
  | Stopped.

Record DurableBroker (B J : Type) := {
  inner : B;
  journal : J;
  write_timeout : N;
  audit : list JournalWriteAuditRecord;
  durable_subscriptions : DurableSubscriptions;
  jobs : list WriterJob;
  writer : Writer;
  calls : gmap nat PublishCall }.
Arguments inner {B J} _.
Arguments journal {B J} _.
Arguments write_timeout {B J} _.
Arguments audit {B J} _.
Arguments durable_subscriptions {B J} _.
Arguments jobs {B J} _.
Arguments writer {B J} _.
Arguments calls {B J} _.
Arguments Build_DurableBroker {B J} _ _ _ _ _ _ _ _.

Section durable.
Context {B J : Type} `{!EventBroker B, !JournalSource J, !JournalSink J}.

Abbreviation System := (DurableBroker B J).

Definition with_inner (b : B) (s : System) : System :=
  Build_DurableBroker b (journal s) (write_timeout s) (audit s) (durable_subscriptions s) (jobs s) (writer s) (calls s).

Definition with_journal (j : J) (s : System) : System :=
  Build_DurableBroker (inner s) j (write_timeout s) (audit s) (durable_subscriptions s) (jobs s) (writer s) (calls s).

Definition record_audit (kind event_id event_type detail : string) (s : System) : System :=
  Build_DurableBroker (inner s) (journal s) (write_timeout s)
    (audit s ++ [{| audit_kind := kind; audit_event_id := event_id; audit_event_type := event_type;
                    audit_detail := detail |}])
    (durable_subscriptions s) (jobs s) (writer s) (calls s).

Definition with_subscriptions (d : DurableSubscriptions) (s : System) : System :=
  Build_DurableBroker (inner s) (journal s) (write_timeout s) (audit s) d (jobs s) (writer s) (calls s).

Definition with_jobs (l : list WriterJob) (s : System) : System :=
  Build_DurableBroker (inner s) (journal s) (write_timeout s) (audit s) (durable_subscriptions s) l (writer s) (calls s).

Definition with_writer (w : Writer) (s : System) : System :=
  Build_DurableBroker (inner s) (journal s) (write_timeout s) (audit s) (durable_subscriptions s) (jobs s) w (calls s).

Definition with_call (cid : nat) (c : PublishCall) (s : System) : System :=
  Build_DurableBroker (inner s) (journal s) (write_timeout s) (audit s) (durable_subscriptions s) (jobs s) (writer s)
    (<[cid := c]> (calls s)).

Definition set_pc (pc : PublishPc) (c : PublishCall) : PublishCall := {|
  call_event := call_event c; call_pc := pc; write_ack := write_ack c; revoke_ack := revoke_ack c;
  call_cursor := call_cursor c |}.

Definition set_write_ack (a : AckState) (c : PublishCall) : PublishCall := {|
  call_event := call_event c; call_pc := call_pc c; write_ack := a; revoke_ack := revoke_ack c;
  call_cursor := call_cursor c |}.

Definition set_revoke_ack (a : AckState) (c : PublishCall) : PublishCall := {|
  call_event := call_event c; call_pc := call_pc c; write_ack := write_ack c; revoke_ack := a;
  call_cursor := call_cursor c |}.

Definition set_call_cursor (k : option string) (c : PublishCall) : PublishCall := {|
  call_event := call_event c; call_pc := call_pc c; write_ack := write_ack c; revoke_ack := revoke_ack c;
  call_cursor := k |}.

Definition update_call (cid : nat) (f : PublishCall -> PublishCall) (s : System) : System :=
  Build_DurableBroker (inner s) (journal s) (write_timeout s) (audit s) (durable_subscriptions s) (jobs s) (writer s)
    (alter f cid (calls s)).

(** [jobs.send(job)]: fails once the writer's end of the channel is gone. *)
Definition send (job : WriterJob) (s : System) : option System :=
  match writer s with
  | Stopped => None
  | _ => Some (with_jobs (jobs s ++ [job]) s)
  end.

(** ** Publication *)

(** The call sends its job and starts to wait. *)
Definition begin_publish (cid : nat) (e : TraverseEvent) (s : System) : System :=
  let call := {| call_event := e; call_pc := AwaitWrite; write_ack := Pending; revoke_ack := Pending;
                 call_cursor := None |} in
  match send (JobWrite cid e) s with
  | Some s' => with_call cid call s'
  | None => with_call cid (set_pc (Returned (Err (JournalWrite "journal writer is unavailable"))) call) s
  end.

Definition write_timeout_detail (s : System) : string :=
  "durable write exceeded " +:+ u64_to_string (write_timeout s) +:+ "ms; event rejected".

(** The wait ends, because the cell changed or the timeout passed; the outcome is
    taken and the cell abandoned. *)
Definition take_write_outcome (cid : nat) (call : PublishCall) (s : System) : System :=
  let e := call_event call in
  let returned result s := with_call cid (set_pc (Returned result) (set_write_ack Abandoned call)) s in
  match write_ack call with
  | Done cursor => with_call cid (set_pc (Delivering cursor) (set_write_ack Abandoned call)) s
  | Failed error => returned (Err (JournalWrite (display_journal_error error))) s
  | Pending | Abandoned =>
      returned (Err (JournalWriteTimeout (write_timeout_detail s)))
        (record_audit "journal_write_timeout" (id e) (event_type e) (write_timeout_detail s) s)
  end.

Definition revocation_writer_unavailable (event_id event_type : string) (s : System) : System * EventError :=
  (record_audit "journal_revocation_failed" event_id event_type "journal writer is unavailable" s,
   JournalWrite "journal revocation failed: journal writer is unavailable").

Definition enqueue_revocation (job : WriterJob) (event_id event_type : string) (s : System)
    : System * Result EventError unit :=
  match send job s with
  | Some s' => (s', Ok tt)
  | None => let '(s', error) := revocation_writer_unavailable event_id event_type s in (s', Err error)
  end.

Definition revoke_timeout_detail (s : System) : string :=
  "journal revocation exceeded " +:+ u64_to_string (write_timeout s) +:+ "ms; event remains rejected".

Definition map_revocation_outcome (outcome : AckState) (event_id event_type : string) (s : System)
    : System * Result EventError unit :=
  match outcome with
  | Done _ => (s, Ok tt)
  | Failed error => (s, Err (JournalWrite ("journal revocation failed: " +:+ display_journal_error error)))
  | Pending | Abandoned =>
      (record_audit "journal_revocation_failed" event_id event_type (revoke_timeout_detail s) s,
       Err (JournalWriteTimeout (revoke_timeout_detail s)))
  end.

(** Live delivery at the journal's cursor; an event the inner broker rejects is
    revoked before the call returns. *)
Definition deliver_live (cid : nat) (call : PublishCall) (cursor : string) (now : Z) (s : System) : System :=
  let e := call_event call in
  let '(b, delivered) := inner_publish_with_cursor (inner s) now e cursor in
  let s := with_inner b s in
  match delivered with
  | Ok _ => with_call cid (set_pc (Returned (Ok tt)) call) s
  | Err rejection =>
      match enqueue_revocation (JobRevoke cid cursor (id e) (event_type e)) (id e) (event_type e) s with
      | (s', Ok _) => with_call cid (set_pc (AwaitRevoke rejection) call) s'
      | (s', Err error) => with_call cid (set_pc (Returned (Err error)) call) s'
      end
  end.

(** The wait for the revocation ends; a revocation that succeeded leaves the
    rejection. *)
Definition take_revoke_outcome (cid : nat) (call : PublishCall) (rejection : EventError) (s : System) : System :=
  let e := call_event call in
  let '(s, revoked) := map_revocation_outcome (revoke_ack call) (id e) (event_type e) s in
  let error := match revoked with Ok _ => rejection | Err error => error end in
  with_call cid (set_pc (Returned (Err error)) (set_revoke_ack Abandoned call)) s.

(** ** The writer thread *)

(** [sink.append_event] for the next job; the outcome is not acknowledged yet. *)
Definition writer_append (cid : nat) (e : TraverseEvent) (rest : list WriterJob) (now : Z)
    (outcome : WriteOutcome) (s : System) : System :=
  let '(j, result) := sink_append_event (journal s) now outcome e in
  let s := with_writer (Wrote cid e result) (with_jobs rest (with_journal j s)) in
  match result with
  | Ok cursor => update_call cid (set_call_cursor (Some cursor)) s
  | Err _ => s
  end.

(** The acknowledgement, unless the call gave up: then a completed write is to be
    revoked. *)
Definition writer_acknowledge (cid : nat) (e : TraverseEvent) (result : Result JournalError string)
    (call : PublishCall) (s : System) : System :=
  match write_ack call with
  | Abandoned =>
      match result with
      | Ok cursor => with_writer (Revoking cursor (id e) (event_type e)) s
      | Err _ => with_writer Idle s
      end
  | _ =>
      with_writer Idle (with_call cid (set_write_ack
        (match result with Ok cursor => Done cursor | Err error => Failed error end) call) s)
  end.

(** [revoke]: a revocation that cannot be written is audited. *)
Definition revoke (cursor event_id event_type : string) (now : Z) (outcome : WriteOutcome) (s : System)
    : System * Result JournalError unit :=
  let '(j, result) := sink_append_revocation (journal s) now outcome cursor in
  let s := with_journal j s in
  match result with
  | Ok _ => (s, Ok tt)
  | Err error =>
      (record_audit "journal_revocation_failed" event_id event_type (display_journal_error error) s, Err error)
  end.

Definition writer_revoke_abandoned (cursor event_id event_type : string) (now : Z) (outcome : WriteOutcome)
    (s : System) : System :=
  with_writer Idle (revoke cursor event_id event_type now outcome s).1.

Definition writer_revoke (cid : nat) (cursor event_id event_type : string) (rest : list WriterJob) (now : Z)
    (outcome : WriteOutcome) (s : System) : System :=
  let '(s, result) := revoke cursor event_id event_type now outcome (with_jobs rest s) in
  with_writer (Revoked cid result) s.

Definition acknowledge_revocation (cid : nat) (result : Result JournalError unit) (s : System) : System :=
  with_writer Idle (update_call cid (set_revoke_ack
    (match result with Ok _ => Done "" | Err error => Failed error end)) s).

(** The writer's thread ends, with its end of the channel. *)
Definition writer_stops (s : System) : System := with_writer Stopped (with_jobs [] s).

(** ** Subscriptions *)

Definition subscribe_durably (ty from_cursor : string) (subject : option string) (s : System)
    : System * Result EventError Subscription :=
  match normalize_cursor from_cursor with
  | Err error => (s, Err error)
  | Ok cursor =>
      let d := durable_subscriptions s in
      let next := saturating_add (next_id d) 1 in
      let sid := DURABLE_SUBSCRIPTION_PREFIX +:+ u64_to_string next in
      (with_subscriptions
         {| next_id := next;
            entries := <[sid := {| durable_event_type := ty; durable_subject_id := subject;
                                   durable_cursor := cursor |}]> (entries d) |} s,
       Ok {| handle_id := sid; handle_event_type := ty; handle_cursor := cursor |})
  end.

Definition durable_subscribe_for_subject (now : Z) (ty from_cursor : string) (subject : option string) (s : System)
    : System * Result EventError Subscription :=
  let '(b, subscribed) := inner_subscribe_for_subject (inner s) now ty from_cursor subject in
  let s := with_inner b s in
  match subscribed with
  | Err (CursorExpired expired_type _) =>
      let '(j, replayable) := source_replay_from (journal s) from_cursor 0 in
      let s := with_journal j s in
      match replayable with
      | Ok _ => subscribe_durably ty from_cursor subject s
      | Err (JournalCursorExpired oldest) => (s, Err (CursorExpired expired_type oldest))
      | Err other => (s, Err (map_journal_read_error ty other))
      end
  | other => (s, other)
  end.

(** A poll of a durable subscription under way: the position and what it has
    collected. *)
Record DurablePoll := {
  polled : string;
  polled_subscription : DurableSubscriptionState;
  poll_max : nat;
  poll_position : string;
  poll_delivered : list BrokerEvent }.

Definition subscription_matches (sub : DurableSubscriptionState) (e : TraverseEvent) : bool :=
  bool_decide (event_type e = durable_event_type sub) &&
  match durable_subject_id sub with
  | None => true
  | Some subject => bool_decide (subject_id e = Some subject)
  end.

(** The loop over one batch. *)
Fixpoint scan_batch (sub : DurableSubscriptionState) (max_events : nat) (batch : list (string * TraverseEvent))
    (position : string) (delivered : list BrokerEvent) : string * list BrokerEvent :=
  match batch with
  | [] => (position, delivered)
  | (cursor, e) :: rest =>
      if subscription_matches sub e then
        let delivered := delivered ++ [{| broker_cursor := cursor; broker_event := e |}] in
        if (max_events <=? length delivered)%nat then (cursor, delivered)
        else scan_batch sub max_events rest cursor delivered
      else scan_batch sub max_events rest cursor delivered
  end.

Definition advance_poll (p : DurablePoll) (position : string) (delivered : list BrokerEvent) : DurablePoll := {|
  polled := polled p; polled_subscription := polled_subscription p; poll_max := poll_max p;
  poll_position := position; poll_delivered := delivered |}.

(** One iteration: the poll so far and whether the loop goes on. *)
Definition poll_batch (p : DurablePoll) (j : J) : J * Result EventError (DurablePoll * bool) :=
  let '(j, replayed) := source_replay_from j (poll_position p) (poll_max p) in
  match replayed with
  | Err error => (j, Err (map_journal_read_error (durable_event_type (polled_subscription p)) error))
  | Ok [] => (j, Ok (p, false))
  | Ok batch =>
      let '(position, delivered) :=
        scan_batch (polled_subscription p) (poll_max p) batch (poll_position p) (poll_delivered p) in
      (j, Ok (advance_poll p position delivered,
              negb ((poll_max p <=? length delivered)%nat || (length batch <? poll_max p)%nat)))
  end.

(** Every batch the loop goes on after is as long as the limit; [fuel] bounds their
    number. *)
Fixpoint poll_loop (fuel : nat) (p : DurablePoll) (j : J) : J * Result EventError (option DurablePoll) :=
  match fuel with
  | 0 => (j, Ok None)
  | S fuel' =>
      match poll_batch p j with
      | (j, Err error) => (j, Err error)
      | (j, Ok (p, true)) => poll_loop fuel' p j
      | (j, Ok (p, false)) => (j, Ok (Some p))
      end
  end.

(** Writing the position back and returning what was collected. *)
Definition finish_poll (p : DurablePoll) (s : System) : System * Result EventError SubscriptionPoll :=
  let sub := polled_subscription p in
  let d := durable_subscriptions s in
  (with_subscriptions
     {| next_id := next_id d;
        entries := <[polled p := {| durable_event_type := durable_event_type sub;
                                    durable_subject_id := durable_subject_id sub;
                                    durable_cursor := poll_position p |}]> (entries d) |} s,
   Ok {| poll_subscription_id := polled p; poll_event_type := durable_event_type sub;
         poll_cursor := poll_position p; poll_events := poll_delivered p |}).

Definition start_poll (sid : string) (sub : DurableSubscriptionState) (max_events : nat) : DurablePoll := {|
  polled := sid; polled_subscription := sub; poll_max := max_events;
  poll_position := durable_cursor sub; poll_delivered := [] |}.

Definition durable_poll (fuel : nat) (now : Z) (sid : string) (max_events : nat) (s : System)
    : System * option (Result EventError SubscriptionPoll) :=
  if negb (String.prefix DURABLE_SUBSCRIPTION_PREFIX sid) then
    let '(b, result) := inner_poll (inner s) now sid max_events in (with_inner b s, Some result)
  else
    match entries (durable_subscriptions s) !! sid with
    | None => (s, Some (Err (SubscriptionNotFound sid)))
    | Some sub =>
        let p := start_poll sid sub max_events in
        if (max_events =? 0)%nat then
          let '(s, result) := finish_poll p s in (s, Some result)
        else
          match poll_loop fuel p (journal s) with
          | (j, Err error) => (with_journal j s, Some (Err error))
          | (j, Ok None) => (with_journal j s, None)
          | (j, Ok (Some p)) => let '(s, result) := finish_poll p (with_journal j s) in (s, Some result)
          end
    end.

Definition durable_cancel (sid : string) (s : System) : System * Result EventError unit :=
  if String.prefix DURABLE_SUBSCRIPTION_PREFIX sid then
    let d := durable_subscriptions s in
    match entries d !! sid with
    | Some _ => (with_subscriptions {| next_id := next_id d; entries := delete sid (entries d) |} s, Ok tt)
    | None => (s, Err (SubscriptionNotFound sid))
    end
  else let '(b, result) := inner_cancel (inner s) sid in (with_inner b s, result).
End durable.

(** [DurableBroker::open]: the inner broker learns the journal's latest cursor. *)
Definition open_durable `{JournalCodec} {B} `{!EventBroker B} (fails : OpenCall -> bool) (r : string) (b : B)
    (c : JournalConfig) (timeout : N) (disk : Disk) : Disk * Result JournalError (DurableBroker B SharedJournal) :=
  match open fails r c disk with
  | (disk, Err error) => (disk, Err error)
  | (disk, Ok j) =>
      (disk, Ok (Build_DurableBroker (inner_seed_restart_floor b (latest_cursor j))
        {| shared := j; directory := disk |} timeout [] {| next_id := 0; entries := ∅ |} [] Idle ∅))
  end.
