(* ===== verification/DurablePoll.v ===== *)
(** * Polling through the journal

    What a durable subscription reads, proved against the interface of a source
    that represents a log, and the journal as such a source. *)
From S2P Require Import Prelude Json Events Broker Journal JournalLog Durable.
From Stdlib Require Import Ascii.

(** ** Sources that represent a log *)

(** Events after a cursor. *)
Definition pending (after : N) (evs : list (N * TraverseEvent)) : list (N * TraverseEvent) :=
  List.filter (fun x => (after <? x.1)%N) evs.

Definition cursor_expired (oldest : option N) (after : N) : bool :=
  match oldest with Some o => (after + 1 <? o)%N | None => false end.

(** A source holds the events [evs], in increasing order of their cursors, and
    answers for cursors back to [oldest]. *)
Class LogSource (J : Type) `{!JournalSource J} := {
  source_log : J -> option N -> list (N * TraverseEvent) -> Prop;
  source_ordered j oldest evs : source_log j oldest evs ->
    StronglySorted N.lt evs.*1 /\
    Forall (fun x => x.1 < u64_max /\ default 0%N oldest <= x.1)%N evs;
  source_replays j oldest evs raw after max_events :
    source_log j oldest evs -> parse_u64 raw = Some after -> (after < u64_max)%N ->
    exists j', source_log j' oldest evs /\
      source_replay_from j raw max_events =
        (j', if cursor_expired oldest after
             then Err (JournalCursorExpired (u64_to_string (default 0%N oldest - 1)))
             else Ok ((fun x => (u64_to_string x.1, x.2)) <$> take max_events (pending after evs))) }.

(** ** Batches *)

Definition to_event (x : N * TraverseEvent) : BrokerEvent :=
  {| broker_cursor := u64_to_string x.1; broker_event := x.2 |}.

#[export] Instance to_event_inj : Inj (=) (=) to_event.
Proof.
  intros [n e] [n' e'] Heq. unfold to_event in Heq. cbn in Heq. injection Heq as Hn ->.
  f_equal. by apply (inj pretty).
Qed.

Section batches.
Context (sub : DurableSubscriptionState).

(** The events of a list that the subscription wants. *)
Definition wanted (l : list (N * TraverseEvent)) : list (N * TraverseEvent) :=
  List.filter (fun x => subscription_matches sub x.2) l.

Lemma wanted_app l1 l2 : wanted (l1 ++ l2) = wanted l1 ++ wanted l2.
Proof. apply List.filter_app. Qed.

(** A batch is consumed up to its end or to the event that fills the poll. *)
Lemma scan_batch_spec max_events l position delivered :
  length delivered < max_events ->
  exists l1 l2, l = l1 ++ l2 /\
    scan_batch sub max_events ((fun x => (u64_to_string x.1, x.2)) <$> l) position delivered =
      (default position (u64_to_string <$> last l1.*1), delivered ++ (to_event <$> wanted l1)) /\
    length (delivered ++ (to_event <$> wanted l1)) <= max_events /\
    (l2 = [] \/ length (delivered ++ (to_event <$> wanted l1)) = max_events).
Proof.
  revert position delivered. induction l as [|[n e] l IH]; intros position delivered Hlt.
  { exists [], []. cbn. rewrite app_nil_r. split_and!; [done|done|lia|by left]. }
  rewrite fmap_cons. cbn [scan_batch fst snd].
  assert (Hlast : forall p l1, default p (u64_to_string <$> last ((n, e) :: l1).*1) =
    default (u64_to_string n) (u64_to_string <$> last l1.*1)).
  { intros p [|x l1]; [done|]. rewrite !fmap_cons. cbn [fst].
    change (last (n :: x.1 :: l1.*1)) with (last (x.1 :: l1.*1)).
    destruct (last (x.1 :: l1.*1)) eqn:Hl; [done|]. by apply last_None in Hl. }
  destruct (subscription_matches sub e) eqn:Hm.
  - assert (Hwant : forall l1, delivered ++ (to_event <$> wanted ((n, e) :: l1)) =
      (delivered ++ [{| broker_cursor := u64_to_string n; broker_event := e |}]) ++ (to_event <$> wanted l1)).
    { intros l1. unfold wanted. cbn [List.filter snd]. rewrite Hm, fmap_cons, <- app_assoc. done. }
    destruct (Nat.leb_spec max_events
      (length (delivered ++ [{| broker_cursor := u64_to_string n; broker_event := e |}]))) as [Hfull|Hroom].
    + exists [(n, e)], l. rewrite Hwant. cbn. rewrite app_nil_r. rewrite length_app in *. cbn in *.
      split_and!; [done|done|lia|right; lia].
    + destruct (IH (u64_to_string n) _ Hroom) as (l1 & l2 & -> & Hscan & Hle & Hend).
      exists ((n, e) :: l1), l2. rewrite Hlast, Hwant. by split_and!.
  - assert (Hwant : forall l1, wanted ((n, e) :: l1) = wanted l1)
      by (intros l1; unfold wanted; cbn [List.filter snd]; by rewrite Hm).
    destruct (IH (u64_to_string n) _ Hlt) as (l1 & l2 & -> & Hscan & Hle & Hend).
    exists ((n, e) :: l1), l2. rewrite Hlast, Hwant. by split_and!.
Qed.
End batches.

Lemma pending_all after l : Forall (fun x => (after < x.1)%N) l -> pending after l = l.
Proof.
  induction 1 as [|x l Hx Hl IH]; [done|]. unfold pending in *. cbn. by rewrite (proj2 (N.ltb_lt _ _) Hx), IH.
Qed.

Lemma pending_none after l : Forall (fun x => (x.1 <= after)%N) l -> pending after l = [].
Proof.
  induction 1 as [|x l Hx Hl IH]; [done|]. unfold pending in *. cbn. by rewrite (proj2 (N.ltb_ge _ _) Hx), IH.
Qed.

Lemma pending_app after l1 l2 : pending after (l1 ++ l2) = pending after l1 ++ pending after l2.
Proof. apply List.filter_app. Qed.

Lemma pending_pending a b l : (a <= b)%N -> pending b (pending a l) = pending b l.
Proof.
  intros Hab. unfold pending. induction l as [|x l IH]; [done|]. cbn.
  destruct (N.ltb_spec a x.1), (N.ltb_spec b x.1); cbn; try lia; rewrite ?IH; try done;
    destruct (N.ltb_spec b x.1); try lia; done.
Qed.

(** Moving the cursor to the end of a consumed prefix leaves what follows it. *)
Lemma pending_advance after evs l1 l2 n :
  StronglySorted N.lt evs.*1 -> pending after evs = l1 ++ l2 -> last l1.*1 = Some n ->
  (after < n)%N /\ n ∈ evs.*1 /\ pending n evs = l2.
Proof.
  intros Hs Hp Hn.
  assert (Hsorted : StronglySorted N.lt (l1 ++ l2).*1).
  { rewrite <- Hp. clear Hp. induction evs as [|x evs IH]; [constructor|]. cbn in *.
    apply StronglySorted_inv in Hs as [Hs Hx]. destruct (after <? x.1)%N; [|by apply IH].
    constructor; [by apply IH|]. rewrite Forall_forall in *. intros y (z & -> & Hz)%list_elem_of_fmap.
    apply list_elem_of_In, filter_In in Hz as [Hz _]. apply Hx, list_elem_of_fmap_2. by apply list_elem_of_In. }
  assert (Hin : n ∈ (pending after evs).*1).
  { rewrite Hp, fmap_app. apply elem_of_app. left. by apply last_Some_elem_of. }
  apply list_elem_of_fmap in Hin as (x & -> & Hx). apply list_elem_of_In, filter_In in Hx as [Hx Hlt].
  apply N.ltb_lt in Hlt. split_and!; [done|by apply list_elem_of_fmap_2, list_elem_of_In|].
  rewrite <- (pending_pending after x.1) by lia. rewrite Hp, pending_app.
  rewrite fmap_app in Hsorted. apply StronglySorted_app in Hsorted as (Hcross & Hs1 & _).
  rewrite pending_none, pending_all; [done| |].
  - apply Forall_forall. intros y Hy. apply Hcross; [by apply last_Some_elem_of|by apply list_elem_of_fmap_2].
  - apply Forall_forall. intros y Hy.
    assert (Hl : exists pre, l1.*1 = pre ++ [x.1]) by (by apply last_Some).
    destruct Hl as [pre Hl]. rewrite Hl in Hs1. apply StronglySorted_app in Hs1 as (Hpre & _ & _).
    assert (Hy' : y.1 ∈ l1.*1) by (by apply list_elem_of_fmap_2). rewrite Hl in Hy'.
    apply elem_of_app in Hy' as [Hy'| ->%list_elem_of_singleton]; [|lia].
    specialize (Hpre y.1 x.1 Hy'). rewrite list_elem_of_singleton in Hpre. specialize (Hpre eq_refl). lia.
Qed.

(** ** The loop *)

Section poll.
Context {J : Type} `{!JournalSource J, !LogSource J}.
Context (oldest : option N) (evs : list (N * TraverseEvent)) (goal : list BrokerEvent).

(** What has been delivered and what is still ahead make up [goal]. *)
Record poll_inv (p : DurablePoll) (after : N) (j : J) : Prop := {
  inv_log : source_log j oldest evs;
  inv_position : parse_u64 (poll_position p) = Some after;
  inv_max : (after < u64_max)%N;
  inv_retained : cursor_expired oldest after = false;
  inv_length : length (poll_delivered p) <= poll_max p;
  inv_goal : poll_delivered p ++ (to_event <$> wanted (polled_subscription p) (pending after evs)) = goal }.

(** At the end the goal is cut at the limit. *)
Lemma inv_split p after j ahead :
  poll_inv p after j -> goal = to_event <$> ahead ->
  length (poll_delivered p) = poll_max p \/ pending after evs = [] ->
  poll_delivered p = to_event <$> take (poll_max p) ahead /\
  wanted (polled_subscription p) (pending after evs) = drop (poll_max p) ahead.
Proof.
  intros [_ _ _ _ Hlen Hgoal] Hahead Hend. rewrite Hahead in Hgoal.
  destruct Hend as [Hfull|Hnil].
  - split.
    + by rewrite fmap_take, <- Hgoal, <- Hfull, take_app_length.
    + apply (inj (fmap to_event)). by rewrite fmap_drop, <- Hgoal, <- Hfull, drop_app_length.
  - rewrite Hnil in *. cbn in *. rewrite app_nil_r in Hgoal.
    assert (length ahead <= poll_max p) by (apply (f_equal length) in Hgoal; rewrite length_fmap in Hgoal; lia).
    rewrite take_ge, drop_ge by done. done.
Qed.

Definition same_poll (p q : DurablePoll) : Prop :=
  polled q = polled p /\ polled_subscription q = polled_subscription p /\ poll_max q = poll_max p.

Lemma poll_batch_step p after j :
  poll_inv p after j -> length (poll_delivered p) < poll_max p ->
  exists j' p' after' more,
    poll_batch p j = (j', Ok (p', more)) /\ poll_inv p' after' j' /\ same_poll p p' /\
    (more = true -> length (poll_delivered p') < poll_max p /\
       length (pending after' evs) < length (pending after evs)) /\
    (more = false -> length (poll_delivered p') = poll_max p \/ pending after' evs = []).
Proof.
  intros [Hlog Hpos Hmax Hret Hlen Hgoal] Hroom. unfold poll_batch.
  destruct (source_replays j oldest evs _ after (poll_max p) Hlog Hpos Hmax) as (j' & Hlog' & ->). rewrite Hret.
  destruct (take (poll_max p) (pending after evs)) as [|x batch] eqn:Hbatch.
  { exists j', p, after, false. split_and!; [done|by split|done|done|]. intros _. right.
    destruct (pending after evs); [done|]. destruct (poll_max p); [lia|done]. }
  destruct (scan_batch_spec (polled_subscription p) (poll_max p) (x :: batch) (poll_position p) _ Hroom)
    as (l1 & l2 & Hl & Hscan & Hle & Hend).
  rewrite fmap_cons in Hscan. rewrite fmap_cons, Hscan.
  set (delivered := poll_delivered p ++ (to_event <$> wanted (polled_subscription p) l1)) in *.
  assert (Hp : pending after evs = l1 ++ l2 ++ drop (poll_max p) (pending after evs)).
  { rewrite app_assoc, <- Hl, <- Hbatch. symmetry. apply take_drop. }
  destruct (source_ordered _ _ _ Hlog) as [Hs Hcur].
  assert (Hn : exists n, last l1.*1 = Some n).
  { destruct (last l1.*1) eqn:Hlast; [eauto|]. apply last_None, fmap_nil_inv in Hlast as ->.
    destruct Hend as [->|Hfull]; [done|]. unfold delivered in Hfull. cbn in Hfull. rewrite app_nil_r in Hfull. lia. }
  destruct Hn as [n Hn]. destruct (pending_advance _ _ _ _ _ Hs Hp Hn) as (Han & Hin & Hpn).
  rewrite Hn. cbn [fmap option_fmap option_map default].
  rewrite Forall_forall in Hcur. apply list_elem_of_fmap in Hin as (y & -> & Hy).
  specialize (Hcur y Hy) as [Hy1 Hy2].
  eexists j', (advance_poll p (u64_to_string y.1) delivered), y.1, _. split; [reflexivity|]. split_and!; [|done| |].
  - split; cbn [advance_poll poll_position poll_delivered poll_max polled_subscription].
    + done.
    + apply parse_u64_to_string. lia.
    + done.
    + unfold cursor_expired in *. destruct oldest as [o|]; [|done]. cbn in Hy2. apply N.ltb_ge. lia.
    + done.
    + rewrite Hp, wanted_app, fmap_app in Hgoal. rewrite Hpn, <- Hgoal. unfold delivered. by rewrite <- app_assoc.
  - cbn [advance_poll poll_delivered]. intros Hmore. apply negb_true_iff, orb_false_iff in Hmore as [Hm _].
    apply Nat.leb_gt in Hm. split; [done|]. rewrite Hpn. apply (f_equal length) in Hp. rewrite length_app in Hp. rewrite Hp.
    destruct l1 as [|z l1]; [done|]. cbn. lia.
  - cbn [advance_poll poll_delivered]. intros Hmore. apply negb_false_iff, orb_true_iff in Hmore as [Hm|Hm].
    + apply Nat.leb_le in Hm. left. lia.
    + apply Nat.ltb_lt in Hm. cbn [length] in Hm. rewrite length_fmap in Hm.
      change (S (length batch)) with (length (x :: batch)) in Hm.
      destruct Hend as [->|Hfull]; [|by left]. right. rewrite Hpn. cbn.
      apply drop_ge. rewrite <- Hbatch, length_take in Hm. lia.
Qed.

Lemma poll_loop_spec fuel p after j :
  poll_inv p after j -> length (poll_delivered p) < poll_max p -> length (pending after evs) < fuel ->
  exists j' p' after',
    poll_loop fuel p j = (j', Ok (Some p')) /\ poll_inv p' after' j' /\ same_poll p p' /\
    (length (poll_delivered p') = poll_max p \/ pending after' evs = []).
Proof.
  revert p after j. induction fuel as [|fuel IH]; intros p after j Hinv Hroom Hfuel; [lia|]. cbn [poll_loop].
  destruct (poll_batch_step p after j Hinv Hroom) as (j' & p' & after' & more & -> & Hinv' & Hsame & Hmore & Hdone).
  destruct more.
  - destruct (Hmore eq_refl) as [Hroom' Hless]. destruct Hsame as (S1 & S2 & S3).
    destruct (IH p' after' j' Hinv') as (j2 & p2 & after2 & Hloop & Hinv2 & (T1 & T2 & T3) & Hend); [congruence|lia|].
    exists j2, p2, after2. rewrite S3 in *. split_and!; [done|done|split_and!; congruence|done].
  - exists j', p', after'. by split_and!; [| | |apply Hdone].
Qed.
End poll.

(** ** The journal as a source *)

Definition events_of (log : list JournalRecordV1) : list (N * TraverseEvent) :=
  omap (fun r => match revokes r, record_event r with None, Some e => Some (seq r, e) | _, _ => None end) log.

(** The events no record revokes. *)
Definition live_events (log : list JournalRecordV1) : list (N * TraverseEvent) :=
  List.filter (fun x => negb (bool_decide (x.1 ∈ revocations log))) (events_of log).

Lemma events_after_pending after log : events_after after log = pending after (events_of log).
Proof.
  unfold events_after, events_of, pending. induction log as [|r log IH]; [done|]. cbn.
  destruct (revokes r); [done|]. destruct (record_event r); [|done]. cbn. rewrite <- IH.
  by destruct (after <? seq r)%N.
Qed.

Lemma replay_spec_live log after max_events :
  replay_spec log after max_events =
  (fun x => (u64_to_string x.1, x.2)) <$> take max_events (pending after (live_events log)).
Proof.
  unfold replay_spec, live_events. rewrite events_after_pending. do 2 f_equal. unfold pending.
  induction (events_of log) as [|x l IH]; [done|]. cbn.
  destruct (after <? x.1)%N eqn:Ha; cbn; destruct (bool_decide _); cbn; rewrite ?Ha, IH; done.
Qed.

Lemma events_of_elem log x : x ∈ events_of log -> exists r, r ∈ log /\ seq r = x.1.
Proof.
  intros (r & Hr & Hx)%list_elem_of_omap. exists r. split; [done|].
  destruct (revokes r); [done|]. destruct (record_event r); [|done]. by injection Hx as <-.
Qed.

Lemma live_events_elem log x : x ∈ live_events log -> exists r, r ∈ log /\ seq r = x.1.
Proof. intros Hx. apply list_elem_of_In, filter_In in Hx as [Hx _]. by apply events_of_elem, list_elem_of_In. Qed.

Lemma ascending_events previous log :
  ascending previous log -> StronglySorted N.lt (live_events log).*1.
Proof.
  intros Hasc. unfold live_events. generalize (revocations log) as revs. intros revs. revert previous Hasc.
  induction log as [|r log IH]; intros previous; [constructor|]. cbn [ascending]. intros [_ Hasc].
  assert (Hlt : forall x, x ∈ List.filter (fun x => negb (bool_decide (x.1 ∈ revs))) (events_of log) -> (seq r < x.1)%N).
  { intros x Hx. apply list_elem_of_In, filter_In in Hx as [Hx _].
    apply list_elem_of_In, events_of_elem in Hx as (r' & Hr' & <-).
    by apply (ascending_bound _ _ _ Hasc Hr' _ eq_refl). }
  unfold events_of. cbn. fold events_of.
  destruct (match revokes r, record_event r with None, Some e => Some (seq r, e) | _, _ => None end) as [y|] eqn:Hy;
    [|by eapply IH].
  assert (y.1 = seq r) by (destruct (revokes r), (record_event r); simplify_eq/=; done).
  cbn. destruct (negb _); [|by eapply IH]. cbn. constructor; [by eapply IH|].
  apply Forall_forall. intros n (x & -> & Hx)%list_elem_of_fmap. rewrite H. by apply Hlt.
Qed.

(** The journal answers for the log it represents. *)
#[export, refine] Instance shared_log_source `{JournalCodecLaws} : LogSource SharedJournal := {|
  source_log := fun s oldest evs => exists log parts tail,
    journal_repr (shared s) (directory s) log parts tail /\ revokes_backward log /\
    Forall (fun r => (seq r < u64_max)%N) log /\ oldest = seq <$> head log /\ evs = live_events log |}.
Proof.
  - intros s oldest evs (log & parts & tail & Hr & Hback & Hmax & -> & ->).
    pose proof (repr_ascending _ _ _ _ _ Hr) as Hasc. split; [by eapply ascending_events|].
    apply Forall_forall. intros x (r & Hin & <-)%live_events_elem. rewrite Forall_forall in Hmax.
    split; [by apply Hmax|]. destruct log as [|first log]; [by apply elem_of_nil in Hin|]. cbn.
    apply elem_of_cons in Hin as [->|Hin]; [lia|]. destruct Hasc as [_ Hasc].
    pose proof (ascending_bound _ _ _ Hasc Hin _ eq_refl). lia.
  - intros s oldest evs raw after max_events (log & parts & tail & Hr & Hback & Hmax & -> & ->) Hraw Hafter.
    destruct (replay_ok _ _ _ _ _ _ _ max_events Hr Hback Hraw Hafter) as (j' & Hr' & _ & Hreplay).
    cbn [source_replay_from shared_source]. rewrite Hreplay, replay_spec_live.
    destruct (head log) as [first|] eqn:Hhead; cbn [fmap option_fmap option_map cursor_expired default].
    + destruct (after + 1 <? seq first)%N.
      * exists s. split; [|by destruct s]. exists log, parts, tail. by rewrite Hhead.
      * exists {| shared := j'; directory := directory s |}. split; [|done].
        exists log, parts, tail. by rewrite Hhead.
    + exists {| shared := j'; directory := directory s |}. split; [exists log, parts, tail; by rewrite Hhead|].
      destruct log; [|done]. by destruct max_events.
Defined.

(** ** Polling *)

Section durable_poll.
Context {B J : Type} `{!EventBroker B, !JournalSource J, !JournalSink J, !LogSource J}.

(** What one poll returns and where it leaves the subscription. *)
Lemma durable_poll_spec (s : DurableBroker B J) (oldest : option N) (evs : list (N * TraverseEvent))
    (sid : string) (sub : DurableSubscriptionState) (after : N) (fuel : nat) (now : Z) (max_events : nat) :
  source_log (journal s) oldest evs ->
  String.prefix DURABLE_SUBSCRIPTION_PREFIX sid = true ->
  entries (durable_subscriptions s) !! sid = Some sub ->
  parse_u64 (durable_cursor sub) = Some after -> (after < u64_max)%N -> cursor_expired oldest after = false ->
  0 < max_events -> length evs < fuel ->
  exists s' sub' after',
    durable_poll fuel now sid max_events s =
      (s', Some (Ok {| poll_subscription_id := sid; poll_event_type := durable_event_type sub;
                       poll_cursor := durable_cursor sub';
                       poll_events := to_event <$> take max_events (wanted sub (pending after evs)) |})) /\
    entries (durable_subscriptions s') !! sid = Some sub' /\
    parse_u64 (durable_cursor sub') = Some after' /\
    durable_event_type sub' = durable_event_type sub /\ durable_subject_id sub' = durable_subject_id sub /\
    wanted sub' (pending after' evs) = drop max_events (wanted sub (pending after evs)) /\
    source_log (journal s') oldest evs.
Proof.
  intros Hlog Hsid Hsub Hpos Hmax Hret Hlimit Hfuel. unfold durable_poll. rewrite Hsid, Hsub. cbn [negb].
  rewrite (proj2 (Nat.eqb_neq _ _)) by lia.
  assert (Hpend : length (pending after evs) <= length evs) by apply List.filter_length_le.
  destruct (poll_loop_spec oldest evs (to_event <$> wanted sub (pending after evs)) fuel
    (start_poll sid sub max_events) after (journal s)) as (j' & p' & after' & -> & Hinv' & Hsame & Hend).
  { by split; [| | | |cbn; lia|]. }
  { done. }
  { lia. }
  destruct Hsame as (S1 & S2 & S3). cbn [start_poll polled polled_subscription poll_max] in *.
  assert (Hend' : length (poll_delivered p') = poll_max p' \/ pending after' evs = []) by (by rewrite S3).
  destruct (inv_split _ _ _ _ _ _ _ Hinv' eq_refl Hend') as [Hdel Hrest]. rewrite S3 in Hdel. rewrite S2, S3 in Hrest.
  unfold finish_poll. rewrite S2, S1, Hdel. destruct Hinv' as [Hlog' Hpos' _ _ _ _].
  eexists _, {| durable_event_type := durable_event_type sub; durable_subject_id := durable_subject_id sub;
    durable_cursor := poll_position p' |}, after'.
  split; [reflexivity|]. cbn. rewrite lookup_insert_eq. by split_and!.
Qed.
End durable_poll.
