(* ===== verification/DurableInv.v ===== *)
(** * The publication protocol

    The publishers and the writer thread as a step relation over [Durable], and
    the invariant that ties every call to the journal's log. *)
From S2P Require Import Prelude Json Events Broker Journal JournalLog Durable.
From Stdlib Require Import Ascii.

(** ** Sinks that keep a log *)

(** A sink with a log: an append that succeeds adds its record under a fresh
    sequence, an append that fails adds nothing, and reading changes nothing.
    [sink_ready] says for which clock, outcome and content that holds. *)
Class LogSink (J : Type) `{!JournalSink J, !JournalSource J} := {
  sink_log : J -> list JournalRecordV1 -> Prop;
  sink_ready : J -> Z -> WriteOutcome -> option TraverseEvent -> option string -> Prop;
  sink_appends j now outcome e log :
    sink_log j log -> sink_ready j now outcome (Some e) None ->
    exists j' r, sink_append_event j now outcome e = (j', r) /\
      match r with
      | Err _ => sink_log j' log
      | Ok c => exists rec, c = u64_to_string (seq rec) /\ (seq rec <= u64_max)%N /\
          record_event rec = Some e /\ revokes rec = None /\
          Forall (fun x => (seq x < seq rec)%N) log /\ sink_log j' (log ++ [rec])
      end;
  sink_revokes j now outcome c log :
    sink_log j log -> sink_ready j now outcome None (Some c) ->
    exists j' r, sink_append_revocation j now outcome c = (j', r) /\
      match r with
      | Err _ => sink_log j' log
      | Ok _ => exists rec n, parse_u64 c = Some n /\ record_event rec = None /\ revokes rec = Some n /\
          Forall (fun x => (seq x < seq rec)%N) log /\ sink_log j' (log ++ [rec])
      end;
  source_keeps_log j raw max_events log :
    sink_log j log -> sink_log (source_replay_from j raw max_events).1 log }.

(** ** Steps *)

Section steps.
Context {B J : Type} `{!EventBroker B, !JournalSource J, !JournalSink J, !LogSink J}.

(** A subscription or a poll that reads through the journal releases the journal
    between its reads: it is one step when nothing interleaves, and otherwise the
    steps [step_read], [step_subscribe_durably] and [step_finish_poll] of its
    parts. *)
Inductive durable_step : DurableBroker B J -> DurableBroker B J -> Prop :=
  | step_begin cid e s :
      calls s !! cid = None -> durable_step s (begin_publish cid e s)
  | step_take cid call s :
      calls s !! cid = Some call -> call_pc call = AwaitWrite -> durable_step s (take_write_outcome cid call s)
  | step_deliver cid call cursor now s :
      calls s !! cid = Some call -> call_pc call = Delivering cursor ->
      durable_step s (deliver_live cid call cursor now s)
  | step_take_revoke cid call rejection s :
      calls s !! cid = Some call -> call_pc call = AwaitRevoke rejection ->
      durable_step s (take_revoke_outcome cid call rejection s)
  | step_append cid e rest now outcome s :
      writer s = Idle -> jobs s = JobWrite cid e :: rest -> sink_ready (journal s) now outcome (Some e) None ->
      durable_step s (writer_append cid e rest now outcome s)
  | step_acknowledge cid e result call s :
      writer s = Wrote cid e result -> calls s !! cid = Some call ->
      durable_step s (writer_acknowledge cid e result call s)
  | step_revoke_abandoned cursor event_id event_type now outcome s :
      writer s = Revoking cursor event_id event_type -> sink_ready (journal s) now outcome None (Some cursor) ->
      durable_step s (writer_revoke_abandoned cursor event_id event_type now outcome s)
  | step_revoke cid cursor event_id event_type rest now outcome s :
      writer s = Idle -> jobs s = JobRevoke cid cursor event_id event_type :: rest ->
      sink_ready (journal s) now outcome None (Some cursor) ->
      durable_step s (writer_revoke cid cursor event_id event_type rest now outcome s)
  | step_acknowledge_revocation cid result s :
      writer s = Revoked cid result -> durable_step s (acknowledge_revocation cid result s)
  | step_stop s : durable_step s (writer_stops s)
  | step_subscribe now ty from_cursor subject s :
      durable_step s (durable_subscribe_for_subject now ty from_cursor subject s).1
  | step_subscribe_durably ty from_cursor subject s :
      durable_step s (subscribe_durably ty from_cursor subject s).1
  | step_poll fuel now sid max_events s : durable_step s (durable_poll fuel now sid max_events s).1
  | step_read raw max_events s :
      durable_step s (with_journal (source_replay_from (journal s) raw max_events).1 s)
  | step_finish_poll p s : durable_step s (finish_poll p s).1
  | step_cancel sid s : durable_step s (durable_cancel sid s).1.
End steps.

(** ** Records of an event *)

Definition recorded (log : list JournalRecordV1) (e : TraverseEvent) (c : string) : Prop :=
  exists rec, rec ∈ log /\ record_event rec = Some e /\ revokes rec = None /\
    c = u64_to_string (seq rec) /\ (seq rec <= u64_max)%N.

Definition cursor_revoked (log : list JournalRecordV1) (c : string) : Prop :=
  exists n, parse_u64 c = Some n /\ revoked_in log n.

Definition live (log : list JournalRecordV1) (e : TraverseEvent) (c : string) : Prop :=
  recorded log e c /\ ~ cursor_revoked log c.

Lemma recorded_app log rec e c : recorded log e c -> recorded (log ++ [rec]) e c.
Proof. intros (r & Hr & H1 & H2 & H3). exists r. split; [apply elem_of_app; by left|done]. Qed.

Lemma recorded_parse log e c : recorded log e c -> exists n, parse_u64 c = Some n /\ c = u64_to_string n.
Proof. intros (r & _ & _ & _ & -> & Hmax). exists (seq r). by rewrite parse_u64_to_string. Qed.

Lemma revoked_snoc log rec n : revoked_in (log ++ [rec]) n <-> revoked_in log n \/ revokes rec = Some n.
Proof.
  unfold revoked_in. setoid_rewrite elem_of_app. setoid_rewrite list_elem_of_singleton. naive_solver.
Qed.

Lemma cursor_revoked_snoc log rec c :
  cursor_revoked (log ++ [rec]) c <-> cursor_revoked log c \/ exists n, parse_u64 c = Some n /\ revokes rec = Some n.
Proof. unfold cursor_revoked. setoid_rewrite revoked_snoc. naive_solver. Qed.

Lemma live_event log rec e c : revokes rec = None -> live log e c -> live (log ++ [rec]) e c.
Proof.
  intros Hrec [Hr Hn]. split; [by apply recorded_app|]. rewrite cursor_revoked_snoc, Hrec. naive_solver.
Qed.

Lemma live_revocation log rec e c n :
  revokes rec = Some n -> parse_u64 c <> Some n -> live log e c -> live (log ++ [rec]) e c.
Proof.
  intros Hrec Hne [Hr Hn]. split; [by apply recorded_app|]. rewrite cursor_revoked_snoc, Hrec. naive_solver.
Qed.

(** A fresh record is live: nothing revokes a sequence not yet written. *)
Lemma live_fresh log rec e :
  record_event rec = Some e -> revokes rec = None -> (seq rec <= u64_max)%N ->
  Forall (fun x => (seq x < seq rec)%N) log -> revokes_backward log ->
  live (log ++ [rec]) e (u64_to_string (seq rec)).
Proof.
  intros He Hr Hmax Hlt Hback. split.
  - exists rec. split_and!; [|done..]. apply elem_of_app. right. by apply list_elem_of_singleton.
  - intros (n & Hn & (r & Hin & Hrev)). rewrite parse_u64_to_string in Hn by done. injection Hn as <-.
    apply elem_of_app in Hin as [Hin| ->%list_elem_of_singleton]; [|congruence].
    rewrite Forall_forall in Hlt. specialize (Hlt r Hin). specialize (Hback r _ Hin Hrev). lia.
Qed.

(** ** The invariant *)

Definition ok_cursor (r : Result JournalError string) : option string :=
  match r with Ok c => Some c | Err _ => None end.

(** The call failed or is about to. *)
Definition doomed (call : PublishCall) : Prop :=
  match call_pc call with AwaitRevoke _ | Returned (Err _) => True | _ => False end.

(** The call has not seen an outcome: it waits, or it gave up waiting. *)
Definition unanswered (call : PublishCall) : Prop :=
  match write_ack call with
  | Pending => call_pc call = AwaitWrite
  | Abandoned => doomed call
  | _ => False
  end.

Definition audited (au : list JournalWriteAuditRecord) (event_id : string) : Prop :=
  exists r, r ∈ au /\ audit_kind r = "journal_revocation_failed" /\ audit_event_id r = event_id.

(** A written event of a doomed call is revoked, or its revocation is on its way,
    or its failure was audited, or the writer is gone. *)
Definition withdrawn (log : list JournalRecordV1) (w : Writer) (js : list WriterJob)
    (au : list JournalWriteAuditRecord) (cid : nat) (e : TraverseEvent) (c : string) : Prop :=
  cursor_revoked log c \/ w = Wrote cid e (Ok c) \/ (exists ety, w = Revoking c (id e) ety) \/
  (exists ety, JobRevoke cid c (id e) ety ∈ js) \/ audited au (id e) \/ w = Stopped.

Definition call_inv (log : list JournalRecordV1) (w : Writer) (js : list WriterJob)
    (au : list JournalWriteAuditRecord) (cid : nat) (call : PublishCall) : Prop :=
  let e := call_event call in
  match call_pc call with
  | AwaitWrite =>
      match write_ack call with
      | Pending => forall c, call_cursor call = Some c -> live log e c /\ (w = Wrote cid e (Ok c) \/ w = Stopped)
      | Done c => call_cursor call = Some c /\ live log e c
      | Failed _ => call_cursor call = None
      | Abandoned => False
      end
  | Delivering c => call_cursor call = Some c /\ live log e c /\ write_ack call = Abandoned
  | Returned (Ok _) => exists c, call_cursor call = Some c /\ live log e c /\ write_ack call = Abandoned
  | AwaitRevoke _ | Returned (Err _) =>
      forall c, call_cursor call = Some c -> recorded log e c /\ withdrawn log w js au cid e c
  end.

Definition write_calls (js : list WriterJob) : list nat :=
  omap (fun j => match j with JobWrite cid _ => Some cid | _ => None end) js.

Definition job_inv (cs : gmap nat PublishCall) (j : WriterJob) : Prop :=
  match j with
  | JobWrite cid e => exists call, cs !! cid = Some call /\ call_event call = e /\
      call_cursor call = None /\ unanswered call
  | JobRevoke cid c event_id _ => exists call, cs !! cid = Some call /\ call_cursor call = Some c /\
      doomed call /\ id (call_event call) = event_id
  end.

Definition writer_inv (cs : gmap nat PublishCall) (js : list WriterJob) (w : Writer) : Prop :=
  match w with
  | Wrote cid e r => (cid ∉ write_calls js) /\ exists call, cs !! cid = Some call /\ call_event call = e /\
      call_cursor call = ok_cursor r /\ unanswered call
  | Revoking c event_id _ => exists cid call, cs !! cid = Some call /\ call_cursor call = Some c /\
      doomed call /\ id (call_event call) = event_id
  | _ => True
  end.

Record protocol_inv {B J} `{!JournalSource J, !JournalSink J, !LogSink J} (s : DurableBroker B J)
    (log : list JournalRecordV1) : Prop := {
  pi_log : sink_log (journal s) log;
  pi_back : revokes_backward log;
  pi_calls cid call : calls s !! cid = Some call ->
    call_inv log (writer s) (jobs s) (audit s) cid call;
  pi_distinct cid cid' call call' c : calls s !! cid = Some call -> calls s !! cid' = Some call' ->
    call_cursor call = Some c -> call_cursor call' = Some c -> cid = cid';
  pi_jobs : Forall (job_inv (calls s)) (jobs s);
  pi_once : NoDup (write_calls (jobs s));
  pi_writer : writer_inv (calls s) (jobs s) (writer s) }.

(** ** Frames *)

Lemma withdrawn_mono log log' w w' js js' au au' cid e c :
  (cursor_revoked log c -> cursor_revoked log' c) ->
  (w = Wrote cid e (Ok c) -> withdrawn log' w' js' au' cid e c) ->
  (forall ety, w = Revoking c (id e) ety -> withdrawn log' w' js' au' cid e c) ->
  (forall ety, JobRevoke cid c (id e) ety ∈ js -> withdrawn log' w' js' au' cid e c) ->
  (audited au (id e) -> audited au' (id e)) -> (w = Stopped -> w' = Stopped) ->
  withdrawn log w js au cid e c -> withdrawn log' w' js' au' cid e c.
Proof.
  intros Hrev Hwrote Hrevoking Hjob Hau Hstop [H|[H|[[ety H]|[[ety H]|[H|H]]]]]; eauto.
  - left. auto.
  - do 4 right. left. auto.
  - do 5 right. auto.
Qed.

Lemma call_cursor_recorded log w js au cid call c :
  call_inv log w js au cid call -> call_cursor call = Some c -> recorded log (call_event call) c.
Proof.
  unfold call_inv. intros Hinv Hc. destruct (call_pc call) as [|c'|rej|[u|err]].
  - destruct (write_ack call); [apply Hinv in Hc as [[? _] _]; done| |congruence|done].
    destruct Hinv as [Hc' [? _]]. congruence.
  - destruct Hinv as (Hc' & [? _] & _). congruence.
  - by apply Hinv in Hc as [? _].
  - destruct Hinv as (c' & Hc' & [? _] & _). congruence.
  - by apply Hinv in Hc as [? _].
Qed.

(** A call that is not doomed is live. *)
Lemma call_live_or_doomed log w js au cid call c :
  call_inv log w js au cid call -> call_cursor call = Some c -> live log (call_event call) c \/ doomed call.
Proof.
  unfold call_inv, doomed. intros Hinv Hc. destruct (call_pc call) as [|c'|rej|[u|err]]; auto; left.
  - destruct (write_ack call); [by apply Hinv in Hc as [? _]| |congruence|done].
    destruct Hinv as [Hc' ?]. congruence.
  - destruct Hinv as (Hc' & ? & _). congruence.
  - destruct Hinv as (c' & Hc' & ? & _). congruence.
Qed.

(** What a call's invariant needs of a new log, writer, queue and audit trail. *)
Lemma call_inv_mono log log' w w' js js' au au' cid call :
  (forall e c, recorded log e c -> recorded log' e c) ->
  (forall c, call_cursor call = Some c -> ~ doomed call -> live log (call_event call) c -> live log' (call_event call) c) ->
  (forall c, call_cursor call = Some c -> call_pc call = AwaitWrite -> write_ack call = Pending ->
     w = Wrote cid (call_event call) (Ok c) \/ w = Stopped ->
     w' = Wrote cid (call_event call) (Ok c) \/ w' = Stopped) ->
  (forall c, call_cursor call = Some c -> doomed call ->
     withdrawn log w js au cid (call_event call) c -> withdrawn log' w' js' au' cid (call_event call) c) ->
  call_inv log w js au cid call -> call_inv log' w' js' au' cid call.
Proof.
  unfold call_inv, doomed. intros Hrec Hlive Hpend Hwd. destruct (call_pc call) as [|c'|rej|[u|err]].
  - destruct (write_ack call) eqn:Ha; [|naive_solver|done|done].
    intros Hinv c Hc. destruct (Hinv c Hc) as [Hl Hw]. split; [by apply Hlive; auto|]. by apply Hpend.
  - intros (Hc & Hl & Ha). split_and!; [done|by apply Hlive; auto|done].
  - intros Hinv c Hc. destruct (Hinv c Hc). split; auto.
  - intros (c & Hc & Hl & Ha). exists c. split_and!; [done|by apply Hlive; auto|done].
  - intros Hinv c Hc. destruct (Hinv c Hc). split; auto.
Qed.

Lemma audited_app au r i : audited au i -> audited (au ++ [r]) i.
Proof. intros (x & Hx & ?). exists x. split; [apply elem_of_app; by left|done]. Qed.

Lemma write_calls_elem js cid : cid ∈ write_calls js <-> exists e, JobWrite cid e ∈ js.
Proof.
  unfold write_calls. rewrite list_elem_of_omap. split.
  - intros ([cid' e|] & Hin & Heq); [|done]. injection Heq as ->. eauto.
  - intros [e He]. by exists (JobWrite cid e).
Qed.

Section preservation.
Context {B J : Type} `{!EventBroker B, !JournalSource J, !JournalSink J, !LogSink J}.
Implicit Types s : DurableBroker B J.

(** ** Changes to one call *)

Record evolves (call call' : PublishCall) : Prop := {
  ev_event : call_event call' = call_event call;
  ev_cursor : call_cursor call' = call_cursor call;
  ev_unanswered : unanswered call -> unanswered call';
  ev_doomed : doomed call -> doomed call' }.

Lemma job_inv_evolves cs cid call call' j :
  cs !! cid = Some call -> evolves call call' -> job_inv cs j -> job_inv (<[cid := call']> cs) j.
Proof.
  intros Hc [He Hk Hu Hd]. destruct j as [cid' e|cid' c eid ety]; cbn; intros (x & Hx & Hrest).
  - destruct (decide (cid' = cid)) as [->|]; [|exists x; by rewrite lookup_insert_ne].
    rewrite Hc in Hx. injection Hx as <-. exists call'. rewrite lookup_insert_eq, He, Hk. naive_solver.
  - destruct (decide (cid' = cid)) as [->|]; [|exists x; by rewrite lookup_insert_ne].
    rewrite Hc in Hx. injection Hx as <-. exists call'. rewrite lookup_insert_eq, He, Hk. naive_solver.
Qed.

Lemma writer_inv_evolves cs cid call call' js w :
  cs !! cid = Some call -> evolves call call' -> writer_inv cs js w -> writer_inv (<[cid := call']> cs) js w.
Proof.
  intros Hc [He Hk Hu Hd]. destruct w as [|cid' e r|c eid ety| |]; cbn; try done.
  - intros [Hn (x & Hx & Hrest)]. split; [done|].
    destruct (decide (cid' = cid)) as [->|]; [|exists x; by rewrite lookup_insert_ne].
    rewrite Hc in Hx. injection Hx as <-. exists call'. rewrite lookup_insert_eq, He, Hk. naive_solver.
  - intros (cid' & x & Hx & Hrest).
    destruct (decide (cid' = cid)) as [->|]; [|exists cid', x; by rewrite lookup_insert_ne].
    rewrite Hc in Hx. injection Hx as <-. exists cid, call'. rewrite lookup_insert_eq, He, Hk. naive_solver.
Qed.

Lemma distinct_evolves s log cid call call' :
  protocol_inv s log -> calls s !! cid = Some call -> call_cursor call' = call_cursor call ->
  forall i i' x x' c, <[cid := call']> (calls s) !! i = Some x -> <[cid := call']> (calls s) !! i' = Some x' ->
    call_cursor x = Some c -> call_cursor x' = Some c -> i = i'.
Proof.
  intros Hinv Hc Hk i i' x x' c Hx Hx' Hcx Hcx'.
  assert (Hlook : forall k y, <[cid := call']> (calls s) !! k = Some y -> call_cursor y = Some c ->
    exists z, calls s !! k = Some z /\ call_cursor z = Some c).
  { intros k y Hy Hcy. destruct (decide (k = cid)) as [->|Hne].
    - rewrite lookup_insert_eq in Hy. injection Hy as <-. exists call. split; [done|congruence].
    - rewrite lookup_insert_ne in Hy by done. eauto. }
  destruct (Hlook _ _ Hx Hcx) as (z & Hz & Hcz). destruct (Hlook _ _ Hx' Hcx') as (z' & Hz' & Hcz').
  by eapply (pi_distinct _ _ Hinv).
Qed.

Lemma inv_call s log cid call call' :
  protocol_inv s log -> calls s !! cid = Some call -> evolves call call' ->
  call_inv log (writer s) (jobs s) (audit s) cid call' -> protocol_inv (with_call cid call' s) log.
Proof.
  intros Hinv Hc Hev Hnew. destruct Hinv as [Hlog Hback Hcalls Hdist Hjobs Honce Hw] eqn:Heq.
  split; cbn [with_call calls jobs writer journal audit]; try done.
  - intros i x. destruct (decide (i = cid)) as [->|Hne].
    + rewrite lookup_insert_eq. by intros [= <-].
    + rewrite lookup_insert_ne by done. apply Hcalls.
  - eapply distinct_evolves; [exact Hinv|done|apply Hev].
  - eapply Forall_impl; [exact Hjobs|]. intros j. by eapply job_inv_evolves.
  - by eapply writer_inv_evolves.
Qed.

Lemma inv_audit s log kind eid ety detail :
  protocol_inv s log -> protocol_inv (record_audit kind eid ety detail s) log.
Proof.
  intros [Hlog Hback Hcalls Hdist Hjobs Honce Hw]. split; cbn [record_audit calls jobs writer journal audit]; try done.
  intros cid call Hc. eapply call_inv_mono; [..|by apply Hcalls]; try done.
  intros c _ _. apply withdrawn_mono; try done; unfold withdrawn; eauto 10 using audited_app.
Qed.

Lemma inv_frame s s' log :
  protocol_inv s log -> sink_log (journal s') log -> calls s' = calls s -> jobs s' = jobs s ->
  writer s' = writer s -> audit s' = audit s -> protocol_inv s' log.
Proof. intros [Hlog Hback Hcalls Hdist Hjobs Honce Hw] Hlog' E1 E2 E3 E4. split; rewrite ?E1, ?E2, ?E3, ?E4; done. Qed.

(** ** The publisher's steps *)

Lemma inv_new_call s log cid call :
  protocol_inv s log -> calls s !! cid = None -> call_cursor call = None ->
  call_inv log (writer s) (jobs s) (audit s) cid call -> protocol_inv (with_call cid call s) log.
Proof.
  intros [Hlog Hback Hcalls Hdist Hjobs Honce Hw] Hfresh Hnone Hnew.
  split; cbn [with_call calls jobs writer journal audit]; try done.
  - intros i x. destruct (decide (i = cid)) as [->|Hne].
    + rewrite lookup_insert_eq. by intros [= <-].
    + rewrite lookup_insert_ne by done. apply Hcalls.
  - intros i i' x x' c Hx Hx' Hcx Hcx'.
    assert (Hlook : forall k y, <[cid := call]> (calls s) !! k = Some y -> call_cursor y = Some c -> calls s !! k = Some y).
    { intros k y Hy Hcy. destruct (decide (k = cid)) as [->|Hne].
      - rewrite lookup_insert_eq in Hy. injection Hy as <-. congruence.
      - by rewrite lookup_insert_ne in Hy. }
    by eapply Hdist; eauto.
  - eapply Forall_impl; [exact Hjobs|]. intros [i x|i k eid ety] (y & Hy & Hrest); exists y;
      (rewrite lookup_insert_ne by congruence); done.
  - destruct (writer s) as [|i x r|k eid ety| |]; cbn in *; try done.
    + destruct Hw as [Hn (y & Hy & Hrest)]. split; [done|]. exists y. by rewrite lookup_insert_ne by congruence.
    + destruct Hw as (i & y & Hy & Hrest). exists i, y. by rewrite lookup_insert_ne by congruence.
Qed.

Lemma write_calls_app js j :
  write_calls (js ++ [j]) = write_calls js ++ match j with JobWrite cid _ => [cid] | _ => [] end.
Proof. unfold write_calls. rewrite omap_app. by destruct j. Qed.

Lemma inv_send s log j :
  protocol_inv s log -> job_inv (calls s) j ->
  match j with JobWrite cid _ => (cid ∉ write_calls (jobs s)) /\ forall e r, writer s <> Wrote cid e r | _ => True end ->
  protocol_inv (with_jobs (jobs s ++ [j]) s) log.
Proof.
  intros [Hlog Hback Hcalls Hdist Hjobs Honce Hw] Hj Hwrite.
  split; cbn [with_jobs calls jobs writer journal audit]; try done.
  - intros cid call Hc. eapply call_inv_mono; [..|by apply Hcalls]; try done.
    intros c _ _. apply withdrawn_mono; try done; unfold withdrawn; eauto 10.
    intros ety Hin. do 3 right. left. exists ety. apply elem_of_app. by left.
  - apply Forall_app. split; [done|by apply Forall_singleton].
  - rewrite write_calls_app. destruct j as [cid e|]; [|by rewrite app_nil_r].
    apply NoDup_app. split_and!; [done| |apply NoDup_singleton]. intros x Hx ->%list_elem_of_singleton. by destruct Hwrite.
  - destruct (writer s) as [|i x r|k eid ety| |] eqn:Ew; cbn in *; try done.
    destruct Hw as [Hn Hrest]. split; [|done]. rewrite write_calls_app, not_elem_of_app. split; [done|].
    destruct j as [cid e|]; [|by intros ?%elem_of_nil]. intros ->%list_elem_of_singleton. destruct Hwrite as [_ Hne]. by eapply Hne.
Qed.

(** The parts of a call an unrelated change leaves alone. *)
Lemma writer_has_call s log cid e r : protocol_inv s log -> writer s = Wrote cid e r -> is_Some (calls s !! cid).
Proof. intros Hinv Hw. pose proof (pi_writer _ _ Hinv) as H. rewrite Hw in H. destruct H as [_ (x & Hx & _)]. eauto. Qed.

Lemma job_has_call s log cid : protocol_inv s log -> cid ∈ write_calls (jobs s) -> is_Some (calls s !! cid).
Proof.
  intros Hinv [e He]%write_calls_elem. pose proof (pi_jobs _ _ Hinv) as H. rewrite Forall_forall in H.
  apply H in He as (x & Hx & _). eauto.
Qed.

Lemma begin_publish_ok s log cid e :
  protocol_inv s log -> calls s !! cid = None -> protocol_inv (begin_publish cid e s) log.
Proof.
  intros Hinv Hfresh. unfold begin_publish, send.
  assert (Hsent : protocol_inv (with_call cid {| call_event := e; call_pc := AwaitWrite; write_ack := Pending;
      revoke_ack := Pending; call_cursor := None |} (with_jobs (jobs s ++ [JobWrite cid e]) s)) log).
  { match goal with |- protocol_inv (with_call cid ?c _) log =>
      change (protocol_inv (with_jobs (jobs (with_call cid c s) ++ [JobWrite cid e]) (with_call cid c s)) log) end.
    apply inv_send; [by apply inv_new_call| |].
    - cbn [job_inv with_call calls]. eexists. by rewrite lookup_insert_eq.
    - cbn [with_call jobs writer]. split.
      + intros Hin. destruct (job_has_call _ _ _ Hinv Hin) as [x Hx]. congruence.
      + intros x r Hw. destruct (writer_has_call _ _ _ _ _ Hinv Hw) as [y Hy]. congruence. }
  destruct (writer s); try exact Hsent. by apply inv_new_call.
Qed.

Lemma take_write_ok s log cid call :
  protocol_inv s log -> calls s !! cid = Some call -> call_pc call = AwaitWrite ->
  protocol_inv (take_write_outcome cid call s) log.
Proof.
  intros Hinv Hc Hpc. pose proof (pi_calls _ _ Hinv _ _ Hc) as Hcall. unfold call_inv in Hcall. rewrite Hpc in Hcall.
  unfold take_write_outcome. destruct (write_ack call) as [|c|err|] eqn:Ha; [| | |done].
  - apply (inv_call _ _ _ call); [by apply inv_audit|done| |].
    + by split.
    + cbn. intros c Hk. destruct (Hcall c Hk) as [[Hrec _] Hw]. split; [done|]. unfold withdrawn. destruct Hw; auto 10.
  - destruct Hcall as [Hk Hl]. apply (inv_call _ _ _ call); [done..| |by cbn].
    split; try done; unfold unanswered, doomed; by rewrite ?Ha, ?Hpc.
  - apply (inv_call _ _ _ call); [done..| |].
    + split; try done; unfold unanswered, doomed; by rewrite ?Ha, ?Hpc.
    + cbn. intros c Hk. congruence.
Qed.

Lemma inv_inner s log b : protocol_inv s log -> protocol_inv (with_inner b s) log.
Proof. intros Hinv. eapply inv_frame; [exact Hinv|apply Hinv|done..]. Qed.

(** A rejected delivery queues the revocation of its write. *)
Lemma inv_reject s log cid call c rejection :
  protocol_inv s log -> calls s !! cid = Some call -> call_pc call = Delivering c ->
  protocol_inv (with_call cid (set_pc (AwaitRevoke rejection) call)
    (with_jobs (jobs s ++ [JobRevoke cid c (id (call_event call)) (event_type (call_event call))]) s)) log.
Proof.
  intros Hinv Hc Hpc. pose proof (pi_calls _ _ Hinv _ _ Hc) as Hcall. unfold call_inv in Hcall. rewrite Hpc in Hcall.
  destruct Hcall as (Hk & Hl & Ha). set (call' := set_pc (AwaitRevoke rejection) call).
  assert (Hev : evolves call call').
  { split; try done; unfold unanswered, doomed; cbn; rewrite ?Ha, ?Hpc; unfold doomed; by rewrite ?Hpc. }
  pose proof (distinct_evolves _ _ _ _ call' Hinv Hc eq_refl) as Hdist'.
  destruct Hinv as [Hlog Hback Hcalls Hdist Hjobs Honce Hw].
  split; cbn [with_call with_jobs calls jobs writer journal audit]; try done.
  - intros i x. destruct (decide (i = cid)) as [->|Hne].
    + rewrite lookup_insert_eq. intros [= <-]. cbn. intros c' Hk'. assert (c' = c) as -> by congruence.
      split; [apply Hl|]. do 3 right. left. eexists. apply elem_of_app. right. by apply list_elem_of_singleton.
    + rewrite lookup_insert_ne by done. intros Hx. eapply call_inv_mono; [..|by apply Hcalls]; try done.
      intros k _ _. apply withdrawn_mono; try done; unfold withdrawn; eauto 10.
      intros ety Hin. do 3 right. left. exists ety. apply elem_of_app. by left.
  - apply Forall_app. split.
    + eapply Forall_impl; [exact Hjobs|]. intros j. by eapply job_inv_evolves.
    + apply Forall_singleton. cbn. exists call'. by rewrite lookup_insert_eq.
  - by rewrite write_calls_app, app_nil_r.
  - eapply writer_inv_evolves; [exact Hc|exact Hev|].
    destruct (writer s) as [|i x r| | |]; cbn in *; try done. by rewrite write_calls_app, app_nil_r.
Qed.

Lemma deliver_live_ok s log cid call c now :
  protocol_inv s log -> calls s !! cid = Some call -> call_pc call = Delivering c ->
  protocol_inv (deliver_live cid call c now s) log.
Proof.
  intros Hinv0 Hc Hpc. unfold deliver_live. destruct (inner_publish_with_cursor _ _ _ _) as [b r].
  pose proof (inv_inner _ _ b Hinv0) as Hinv. set (s1 := with_inner b s) in *.
  assert (Hc1 : calls s1 !! cid = Some call) by done. clearbody s1. clear Hinv0 Hc s.
  pose proof (pi_calls _ _ Hinv _ _ Hc1) as Hcall. unfold call_inv in Hcall. rewrite Hpc in Hcall.
  destruct Hcall as (Hk & Hl & Ha).
  assert (Hev : forall pc, evolves call (set_pc pc call)).
  { intros pc. split; try done; unfold unanswered, doomed; cbn; rewrite ?Ha, ?Hpc; unfold doomed; by rewrite ?Hpc. }
  destruct r as [u|rejection].
  { apply (inv_call _ _ _ call); [done..| |]; [apply Hev|]. cbn. eauto. }
  unfold enqueue_revocation, send, revocation_writer_unavailable.
  destruct (writer s1) eqn:Ew; try (by eapply inv_reject).
  apply (inv_call _ _ _ call); [by apply inv_audit|done|apply Hev|]. cbn. intros c' Hk'.
  assert (c' = c) as -> by congruence. split; [apply Hl|]. unfold withdrawn. rewrite Ew. auto 10.
Qed.

Lemma take_revoke_ok s log cid call rejection :
  protocol_inv s log -> calls s !! cid = Some call -> call_pc call = AwaitRevoke rejection ->
  protocol_inv (take_revoke_outcome cid call rejection s) log.
Proof.
  intros Hinv Hc Hpc.
  assert (Hall : forall s1 error, protocol_inv s1 log -> calls s1 !! cid = Some call ->
    protocol_inv (with_call cid (set_pc (Returned (Err error)) (set_revoke_ack Abandoned call)) s1) log).
  { intros s1 error Hinv1 Hc1. pose proof (pi_calls _ _ Hinv1 _ _ Hc1) as Hcall. unfold call_inv in Hcall.
    rewrite Hpc in Hcall. apply (inv_call _ _ _ call); [done..| |by cbn].
    split; try done. unfold unanswered. cbn. destruct (write_ack call); try done. by rewrite Hpc. }
  unfold take_revoke_outcome, map_revocation_outcome. destruct (revoke_ack call); apply Hall; try done; by apply inv_audit.
Qed.
End preservation.

(** * The writer thread and the protocol's invariant

    The steps of the writer and of the subscribers preserve [protocol_inv], and so
    does every execution. *)
Definition job_call (j : WriterJob) : nat :=
  match j with JobWrite cid _ | JobRevoke cid _ _ _ => cid end.

Section writer_steps.
Context {B J : Type} `{!EventBroker B, !JournalSource J, !JournalSink J, !LogSink J}.
Implicit Types s : DurableBroker B J.

(** ** Appending an event *)

(** The job the writer takes is the only one of its call. *)
Lemma append_job_alone s log cid e rest :
  protocol_inv s log -> jobs s = JobWrite cid e :: rest -> Forall (fun j => job_call j <> cid) rest.
Proof.
  intros [Hlog Hback Hcalls Hdist Hjobs Honce Hw] Hj. rewrite Hj in *.
  apply Forall_cons in Hjobs as [(call & Hc & _ & Hk & _) Hrest]. cbn in Honce. apply NoDup_cons in Honce as [Hnew _].
  rewrite Forall_forall in *. intros j Hin Heq. specialize (Hrest j Hin).
  destruct j as [i x|i k eid ety]; cbn in *; subst i.
  - apply Hnew, write_calls_elem. eauto.
  - destruct Hrest as (y & Hy & Hyk & _). congruence.
Qed.

Lemma job_inv_lookup cs cs' j : cs' !! job_call j = cs !! job_call j -> job_inv cs j -> job_inv cs' j.
Proof. destruct j; cbn; intros -> (x & Hx & Hrest); by exists x. Qed.

(** Changes of the writer and its queue that no call depends on. *)
Lemma inv_queue s log w js :
  protocol_inv s log ->
  (forall cid e c, withdrawn log (writer s) (jobs s) (audit s) cid e c -> withdrawn log w js (audit s) cid e c) ->
  (forall cid e c, writer s = Wrote cid e (Ok c) \/ writer s = Stopped -> w = Wrote cid e (Ok c) \/ w = Stopped) ->
  Forall (job_inv (calls s)) js -> NoDup (write_calls js) -> writer_inv (calls s) js w ->
  protocol_inv (with_writer w (with_jobs js s)) log.
Proof.
  intros [Hlog Hback Hcalls Hdist Hjobs Honce Hw] Hwd Hpend Hjobs' Honce' Hw'.
  split; cbn [with_jobs with_writer calls jobs writer journal audit]; try done.
  intros i x Hx. eapply call_inv_mono; [..|by apply Hcalls]; try done; auto.
Qed.

Lemma withdrawn_idle log log' w' js js' au au' cid e c :
  (cursor_revoked log c -> cursor_revoked log' c) ->
  (forall ety, JobRevoke cid c (id e) ety ∈ js -> withdrawn log' w' js' au' cid e c) ->
  (audited au (id e) -> audited au' (id e)) ->
  withdrawn log Idle js au cid e c -> withdrawn log' w' js' au' cid e c.
Proof. intros H1 H2 H3. by apply withdrawn_mono. Qed.

(** The record of an append is new to every call. *)
Lemma fresh_cursor s log rec cid call :
  protocol_inv s log -> Forall (fun x => (seq x < seq rec)%N) log -> calls s !! cid = Some call ->
  call_cursor call <> Some (u64_to_string (seq rec)).
Proof.
  intros Hinv Hlt Hc Hk. destruct (call_cursor_recorded _ _ _ _ _ _ _ (pi_calls _ _ Hinv _ _ Hc) Hk)
    as (r & Hr & _ & _ & Heq & _). apply (inj pretty) in Heq.
  rewrite Forall_forall in Hlt. specialize (Hlt r Hr). lia.
Qed.

Lemma append_failed_ok s log cid e rest j err :
  protocol_inv s log -> writer s = Idle -> jobs s = JobWrite cid e :: rest -> sink_log j log ->
  protocol_inv (with_writer (Wrote cid e (Err err)) (with_jobs rest (with_journal j s))) log.
Proof.
  intros Hinv Hidle Hj Hlog'. pose proof (pi_jobs _ _ Hinv) as Hjobs. pose proof (pi_once _ _ Hinv) as Honce.
  rewrite Hj in Hjobs, Honce. apply Forall_cons in Hjobs as [(call & Hc & He & Hk & Hu) Hrest].
  cbn in Honce. apply NoDup_cons in Honce as [Hnew Honce].
  apply inv_queue; cbn [with_journal calls jobs writer audit]; try done; rewrite ?Hidle, ?Hj.
  - by eapply inv_frame.
  - intros i x c. apply withdrawn_idle; try done. intros ety Hin.
    apply elem_of_cons in Hin as [?|Hin]; [done|]. do 3 right. left. eauto.
  - by intros i x c [?|?].
  - split; [done|]. exists call. cbn. naive_solver.
Qed.

Lemma append_written_ok s log cid e rest j rec :
  protocol_inv s log -> writer s = Idle -> jobs s = JobWrite cid e :: rest ->
  (seq rec <= u64_max)%N -> record_event rec = Some e -> revokes rec = None ->
  Forall (fun x => (seq x < seq rec)%N) log -> sink_log j (log ++ [rec]) ->
  protocol_inv (update_call cid (set_call_cursor (Some (u64_to_string (seq rec))))
    (with_writer (Wrote cid e (Ok (u64_to_string (seq rec)))) (with_jobs rest (with_journal j s)))) (log ++ [rec]).
Proof.
  intros Hinv Hidle Hj Hmax He Hrev Hlt Hlog'. set (c := u64_to_string (seq rec)).
  pose proof (append_job_alone _ _ _ _ _ Hinv Hj) as Halone.
  assert (Hfresh : forall i x, calls s !! i = Some x -> call_cursor x <> Some c)
    by (intros i x; by apply fresh_cursor with log).
  destruct Hinv as [Hlog Hback Hcalls Hdist Hjobs Honce Hw].
  rewrite Hj, Hidle in *. apply Forall_cons in Hjobs as [(call & Hc & Hev & Hk & Hu) Hrest].
  cbn in Honce. apply NoDup_cons in Honce as [Hnew Honce].
  assert (Hlive : live (log ++ [rec]) e c) by (by apply live_fresh).
  split; cbn [update_call with_journal with_jobs with_writer calls jobs writer journal audit]; try done.
  - intros r n Hin Hr. apply elem_of_app in Hin as [Hin| ->%list_elem_of_singleton]; [eauto|congruence].
  - intros i x Hx. destruct (decide (i = cid)) as [->|Hne].
    + rewrite lookup_alter_eq, Hc in Hx. injection Hx as <-. unfold call_inv, unanswered, doomed in *.
      cbn [set_call_cursor call_event call_pc write_ack call_cursor]. rewrite Hev in *.
      destruct (write_ack call) eqn:Ha; [rewrite Hu|done|done|]; [naive_solver|].
      assert (Hgone : forall k, Some c = Some k -> recorded (log ++ [rec]) e k /\
        withdrawn (log ++ [rec]) (Wrote cid e (Ok c)) rest (audit s) cid e k).
      { intros k [= <-]. split; [apply Hlive|]. right. by left. }
      by destruct (call_pc call) as [| | |[]].
    + rewrite lookup_alter_ne in Hx by done. eapply call_inv_mono; [..|by apply Hcalls].
      * intros x' k. apply recorded_app.
      * intros k _ _. by apply live_event.
      * by intros k _ _ _ [?|?].
      * intros k _ _. apply withdrawn_idle; [rewrite cursor_revoked_snoc; by left| |done]. intros ety Hin.
        apply elem_of_cons in Hin as [?|Hin]; [done|]. do 3 right. left. eauto.
  - assert (Hlook : forall i x k, alter (set_call_cursor (Some c)) cid (calls s) !! i = Some x -> call_cursor x = Some k ->
      (i = cid /\ k = c) \/ (i <> cid /\ calls s !! i = Some x)).
    { intros i x k Hx Hkx. destruct (decide (i = cid)) as [->|Hne].
      - rewrite lookup_alter_eq, Hc in Hx. injection Hx as <-. left. by injection Hkx as <-.
      - rewrite lookup_alter_ne in Hx by done. by right. }
    intros i i' x x' k Hx Hx' Hkx Hkx'.
    destruct (Hlook _ _ _ Hx Hkx) as [[-> ->]|[? ?]], (Hlook _ _ _ Hx' Hkx') as [[-> ?]|[? ?]]; try done; [| |eauto].
    + exfalso. by eapply Hfresh.
    + subst k. exfalso. by eapply Hfresh.
  - rewrite Forall_forall in *. intros x Hx. eapply job_inv_lookup; [|by apply Hrest].
    rewrite lookup_alter_ne; [done|]. intros Heq. by apply (Halone x Hx).
  - split; [done|]. eexists. rewrite lookup_alter_eq, Hc. by split.
Qed.

Lemma writer_append_ok s log cid e rest now outcome :
  protocol_inv s log -> writer s = Idle -> jobs s = JobWrite cid e :: rest ->
  sink_ready (journal s) now outcome (Some e) None ->
  exists log', protocol_inv (writer_append cid e rest now outcome s) log'.
Proof.
  intros Hinv Hidle Hj Hready. unfold writer_append.
  destruct (sink_appends _ _ _ _ _ (pi_log _ _ Hinv) Hready) as (j & r & -> & Hr). destruct r as [c|err].
  - destruct Hr as (rec & -> & Hmax & He & Hrev & Hlt & Hlog'). exists (log ++ [rec]). by apply append_written_ok.
  - exists log. by apply append_failed_ok.
Qed.

(** ** Acknowledging a write *)

Lemma acknowledge_answer_ok s log cid e r call :
  protocol_inv s log -> writer s = Wrote cid e r -> calls s !! cid = Some call -> write_ack call = Pending ->
  protocol_inv (with_writer Idle (with_call cid (set_write_ack
    (match r with Ok c => Done c | Err err => Failed err end) call) s)) log.
Proof.
  intros Hinv Hw Hc Hp. pose proof (pi_writer _ _ Hinv) as Hwrote. rewrite Hw in Hwrote.
  destruct Hwrote as [Hnew (y & Hy & He & Hk & Hu)]. rewrite Hc in Hy. injection Hy as <-.
  unfold unanswered in Hu. rewrite Hp in Hu.
  set (call' := set_write_ack _ call).
  pose proof (distinct_evolves _ _ _ _ call' Hinv Hc eq_refl) as Hdist'.
  destruct Hinv as [Hlog Hback Hcalls Hdist Hjobs Honce _]. rewrite Hw in Hcalls.
  split; cbn [with_call with_writer calls jobs writer journal audit]; try done.
  - intros i x. destruct (decide (i = cid)) as [->|Hne].
    + rewrite lookup_insert_eq. intros [= <-]. specialize (Hcalls _ _ Hc). unfold call_inv in *.
      cbn [call' set_write_ack call_event call_pc write_ack call_cursor]. rewrite Hu, Hp, Hk in *.
      destruct r as [c|err]; [|done]. split; [done|]. by apply Hcalls.
    + rewrite lookup_insert_ne by done. intros Hx. eapply call_inv_mono; [..|by apply Hcalls]; try done.
      * intros c _ _ _ [?|?]; congruence.
      * intros c _ _. apply withdrawn_mono; try done; [congruence|]. intros ety Hin. do 3 right. left. eauto.
  - rewrite Forall_forall in *. intros j Hin. eapply job_inv_lookup; [|by apply Hjobs].
    apply lookup_insert_ne. intros Heq. specialize (Hjobs j Hin). destruct j as [i x|i k eid ety]; cbn in *; subst i.
    + apply Hnew, write_calls_elem. eauto.
    + destruct Hjobs as (y & Hy & _ & Hd & _). rewrite Hc in Hy. injection Hy as <-. unfold doomed in Hd. by rewrite Hu in Hd.
Qed.

Lemma writer_acknowledge_ok s log cid e r call :
  protocol_inv s log -> writer s = Wrote cid e r -> calls s !! cid = Some call ->
  protocol_inv (writer_acknowledge cid e r call s) log.
Proof.
  intros Hinv Hw Hc. pose proof (pi_writer _ _ Hinv) as Hwrote. rewrite Hw in Hwrote.
  destruct Hwrote as [Hnew (y & Hy & He & Hk & Hu)]. rewrite Hc in Hy. injection Hy as <-.
  unfold writer_acknowledge. destruct (write_ack call) eqn:Ha; [by eapply acknowledge_answer_ok| | |].
  1,2: exfalso; unfold unanswered in Hu; by rewrite Ha in Hu.
  assert (Hd : doomed call) by (unfold unanswered in Hu; by rewrite Ha in Hu).
  assert (Hset : forall w, writer_inv (calls s) (jobs s) w -> w <> Stopped ->
    (forall c, r = Ok c -> withdrawn log w (jobs s) (audit s) cid e c) ->
    protocol_inv (with_writer w s) log).
  { intros w Hwi Hns Hwd. change (protocol_inv (with_writer w (with_jobs (jobs s) s)) log).
    destruct Hinv as [Hlog Hback Hcalls Hdist Hjobs Honce _]. rewrite Hw in Hcalls.
    split; cbn [with_jobs with_writer calls jobs writer journal audit]; try done.
    intros i x Hx. eapply call_inv_mono; [..|by apply Hcalls]; try done.
    - intros c _ Hpc Hack [[= -> -> ->]|?]; [|done]. exfalso. assert (x = call) as -> by congruence. congruence.
    - intros c _ _. apply withdrawn_mono; try done; [|intros ety Hin; do 3 right; left; eauto].
      intros [= -> -> ->]. auto. }
  destruct r as [c|err]; apply Hset; try done.
  - exists cid, call. cbn in Hk. by rewrite He.
  - intros c' [= ->]. do 2 right. left. eauto.
Qed.

(** ** Revoking a write *)

(** A revocation names a cursor some doomed call was written at. *)
Definition revocable (s : DurableBroker B J) (c event_id : string) : Prop :=
  exists cid call, calls s !! cid = Some call /\ call_cursor call = Some c /\ doomed call /\
    id (call_event call) = event_id.

(** Afterwards the cursor is revoked or the failure is in the audit trail. *)
Definition settled (log : list JournalRecordV1) (au : list JournalWriteAuditRecord) (c event_id : string) : Prop :=
  cursor_revoked log c \/ audited au event_id.

(** The revocation of one call's record leaves the others live. *)
Lemma revocation_spares s log rec c event_id n :
  protocol_inv s log -> revocable s c event_id -> parse_u64 c = Some n -> revokes rec = Some n ->
  forall cid call k, calls s !! cid = Some call -> call_cursor call = Some k -> ~ doomed call ->
    live log (call_event call) k -> live (log ++ [rec]) (call_event call) k.
Proof.
  intros Hinv (cid0 & call0 & Hc0 & Hk0 & Hd0 & _) Hn Hrev cid call k Hc Hk Hnd Hl.
  eapply live_revocation; [exact Hrev| |done]. intros Hkn. apply Hnd.
  destruct (recorded_parse _ _ _ (proj1 Hl)) as (n' & Hn' & ->).
  destruct (recorded_parse _ _ _ (call_cursor_recorded _ _ _ _ _ _ _ (pi_calls _ _ Hinv _ _ Hc0) Hk0))
    as (n0 & Hn0 & Heq). assert (n' = n0) as -> by congruence. rewrite <- Heq in Hk.
  assert (cid = cid0) as -> by (by eapply (pi_distinct _ _ Hinv)). congruence.
Qed.

Lemma revocable_seq s log c event_id n :
  protocol_inv s log -> revocable s c event_id -> parse_u64 c = Some n -> exists r, r ∈ log /\ seq r = n.
Proof.
  intros Hinv (cid & call & Hc & Hk & _) Hn.
  destruct (call_cursor_recorded _ _ _ _ _ _ _ (pi_calls _ _ Hinv _ _ Hc) Hk) as (r & Hr & _ & _ & -> & Hmax).
  rewrite parse_u64_to_string in Hn by done. injection Hn as <-. eauto.
Qed.

Lemma inv_revocation_record s log rec j c event_id n :
  protocol_inv s log -> revocable s c event_id -> parse_u64 c = Some n -> revokes rec = Some n ->
  Forall (fun x => (seq x < seq rec)%N) log -> sink_log j (log ++ [rec]) ->
  protocol_inv (with_journal j s) (log ++ [rec]).
Proof.
  intros Hinv Hr Hn Hrev Hlt Hlog'. pose proof (revocation_spares _ _ _ _ _ _ Hinv Hr Hn Hrev) as Hspare.
  destruct (revocable_seq _ _ _ _ _ Hinv Hr Hn) as (r0 & Hr0 & Hs0).
  destruct Hinv as [Hlog Hback Hcalls Hdist Hjobs Honce Hw].
  split; cbn [with_journal calls jobs writer journal audit]; try done.
  - intros r m Hin Hm. apply elem_of_app in Hin as [Hin| ->%list_elem_of_singleton]; [eauto|].
    assert (m = n) as -> by congruence. rewrite Forall_forall in Hlt. specialize (Hlt r0 Hr0). lia.
  - intros i x Hx. eapply call_inv_mono; [..|by apply Hcalls]; try done; eauto using recorded_app.
    intros k _ _. apply withdrawn_mono; try done; [rewrite cursor_revoked_snoc; by left|..];
      unfold withdrawn; eauto 10.
Qed.

Lemma revoke_ok s log c event_id ety now outcome :
  protocol_inv s log -> revocable s c event_id -> sink_ready (journal s) now outcome None (Some c) ->
  exists log' s' r, revoke c event_id ety now outcome s = (s', r) /\ protocol_inv s' log' /\
    calls s' = calls s /\ jobs s' = jobs s /\ writer s' = writer s /\ settled log' (audit s') c event_id.
Proof.
  intros Hinv Hr Hready. unfold revoke.
  destruct (sink_revokes _ _ _ _ _ (pi_log _ _ Hinv) Hready) as (j & r & -> & Hres). destruct r as [k|err].
  - destruct Hres as (rec & n & Hn & He & Hrev & Hlt & Hlog'). exists (log ++ [rec]). eexists _, _.
    split; [reflexivity|]. split_and!; [by eapply inv_revocation_record|done..|].
    left. apply cursor_revoked_snoc. right. eauto.
  - exists log. eexists _, _. split; [reflexivity|]. split_and!; [|done..|].
    + apply inv_audit. by eapply inv_frame.
    + right. eexists. split; [apply elem_of_app; right; by apply list_elem_of_singleton|done].
Qed.

Lemma settled_withdrawn log w js au cid e c : settled log au c (id e) -> withdrawn log w js au cid e c.
Proof. unfold withdrawn. intros [?|?]; auto 10. Qed.

Lemma writer_revoke_abandoned_ok s log c event_id ety now outcome :
  protocol_inv s log -> writer s = Revoking c event_id ety -> sink_ready (journal s) now outcome None (Some c) ->
  exists log', protocol_inv (writer_revoke_abandoned c event_id ety now outcome s) log'.
Proof.
  intros Hinv Hw Hready. pose proof (pi_writer _ _ Hinv) as Hr. rewrite Hw in Hr.
  destruct (revoke_ok _ _ _ _ ety _ _ Hinv Hr Hready) as (log' & s' & r & Hrev & Hinv' & _ & _ & Hw' & Hset).
  exists log'. unfold writer_revoke_abandoned. rewrite Hrev.
  change (protocol_inv (with_writer Idle (with_jobs (jobs s') s')) log').
  apply inv_queue; try done; [| |apply Hinv'..]; rewrite Hw', Hw; [|by intros ? ? ? [?|?]].
  intros cid e k. apply withdrawn_mono; try done; [|intros ety' Hin; do 3 right; left; eauto].
  intros ety' [= -> -> ->]. by apply settled_withdrawn.
Qed.

Lemma revoke_with_jobs c event_id ety now outcome rest s s' r :
  revoke c event_id ety now outcome s = (s', r) ->
  revoke c event_id ety now outcome (with_jobs rest s) = (with_jobs rest s', r).
Proof.
  unfold revoke. cbn [with_jobs journal]. destruct (sink_append_revocation _ _ _ _) as [j [k|err]]; by intros [= <- <-].
Qed.

Lemma writer_revoke_ok s log cid c event_id ety rest now outcome :
  protocol_inv s log -> writer s = Idle -> jobs s = JobRevoke cid c event_id ety :: rest ->
  sink_ready (journal s) now outcome None (Some c) ->
  exists log', protocol_inv (writer_revoke cid c event_id ety rest now outcome s) log'.
Proof.
  intros Hinv Hw Hj Hready. pose proof (pi_jobs _ _ Hinv) as Hr. rewrite Hj in Hr.
  apply Forall_cons in Hr as [(call & Hcall) _].
  destruct (revoke_ok _ _ c event_id ety _ _ Hinv (ex_intro _ cid (ex_intro _ call Hcall)) Hready)
    as (log' & s' & r & Hrev & Hinv' & _ & Hj' & Hw' & Hset).
  exists log'. unfold writer_revoke. rewrite (revoke_with_jobs _ _ _ _ _ rest _ _ _ Hrev).
  pose proof (pi_jobs _ _ Hinv') as Hjobs. pose proof (pi_once _ _ Hinv') as Honce. rewrite Hj', Hj in Hjobs, Honce.
  apply inv_queue; try done; rewrite ?Hw', ?Hw, ?Hj', ?Hj; [|by intros ? ? ? [?|?]|by apply Forall_cons in Hjobs as [_ ?]].
  intros i e k. apply withdrawn_idle; try done. intros ety' Hin.
  apply elem_of_cons in Hin as [[= -> -> <- ->]|Hin]; [by apply settled_withdrawn|]. do 3 right. left. eauto.
Qed.

Lemma acknowledge_revocation_ok s log cid r :
  protocol_inv s log -> writer s = Revoked cid r -> protocol_inv (acknowledge_revocation cid r s) log.
Proof.
  intros Hinv Hw. unfold acknowledge_revocation. set (f := set_revoke_ack _).
  assert (Hinv' : protocol_inv (update_call cid f s) log).
  { destruct (calls s !! cid) as [call|] eqn:Hc.
    - replace (update_call cid f s) with (with_call cid (f call) s).
      + apply (inv_call _ _ _ call); [done..|by split|]. exact (pi_calls _ _ Hinv _ _ Hc).
      + unfold update_call, with_call. f_equal. apply map_eq. intros i.
        destruct (decide (i = cid)) as [->|Hne]; [by rewrite lookup_insert_eq, lookup_alter_eq, Hc|].
        by rewrite lookup_insert_ne, lookup_alter_ne.
    - eapply inv_frame; [exact Hinv|apply Hinv| |done..]. cbn. apply map_eq. intros i.
      destruct (decide (i = cid)) as [->|Hne]; [by rewrite lookup_alter_eq, Hc|by rewrite lookup_alter_ne]. }
  set (s1 := update_call cid f s) in *. change (protocol_inv (with_writer Idle (with_jobs (jobs s1) s1)) log).
  assert (Hw1 : writer s1 = Revoked cid r) by done. clearbody s1.
  apply inv_queue; try done; [| |apply Hinv'..]; rewrite Hw1; [|by intros ? ? ? [?|?]].
  intros i e k. apply withdrawn_mono; try done. intros ety Hin. do 3 right. left. eauto.
Qed.

Lemma writer_stops_ok s log : protocol_inv s log -> protocol_inv (writer_stops s) log.
Proof.
  intros Hinv. apply inv_queue; [done| |by right|by constructor|by constructor|done].
  intros cid e c _. by do 5 right.
Qed.

(** ** Subscribers *)

Lemma subscribe_durably_ok s log ty from subject :
  protocol_inv s log -> protocol_inv (subscribe_durably ty from subject s).1 log.
Proof.
  intros Hinv. unfold subscribe_durably. destruct (normalize_cursor from); [|exact Hinv].
  by eapply inv_frame; [exact Hinv|apply Hinv|..].
Qed.

Lemma replay_read_ok s log raw max_events :
  protocol_inv s log -> protocol_inv (with_journal (source_replay_from (journal s) raw max_events).1 s) log.
Proof. intros Hinv. eapply inv_frame; [exact Hinv|apply source_keeps_log, Hinv|done..]. Qed.

Lemma finish_poll_ok s log p : protocol_inv s log -> protocol_inv (finish_poll p s).1 log.
Proof. intros Hinv. by eapply inv_frame; [exact Hinv|apply Hinv|..]. Qed.

Lemma durable_subscribe_ok s log now ty from subject :
  protocol_inv s log -> protocol_inv (durable_subscribe_for_subject now ty from subject s).1 log.
Proof.
  intros Hinv. unfold durable_subscribe_for_subject.
  destruct (inner_subscribe_for_subject _ _ _ _ _) as [b r].
  pose proof (inv_inner _ _ b Hinv) as Hb. destruct r as [sub|[]]; try exact Hb.
  pose proof (replay_read_ok _ _ from 0 Hb) as Hj. destruct (source_replay_from _ _ _) as [j rr]. cbn [fst] in Hj.
  destruct rr as [l|[]]; try exact Hj. by apply subscribe_durably_ok.
Qed.

Lemma poll_loop_log fuel p j log : sink_log j log -> sink_log (poll_loop fuel p j).1 log.
Proof.
  revert p j. induction fuel as [|fuel IH]; intros p j Hlog; [done|]. cbn [poll_loop]. unfold poll_batch.
  pose proof (source_keeps_log j (poll_position p) (poll_max p) log Hlog) as Hlog'.
  destruct (source_replay_from _ _ _) as [j' [[|x batch]|err]]; [done| |done].
  destruct (scan_batch _ _ _ _ _) as [pos del]. destruct (negb _); [by apply IH|done].
Qed.

Lemma durable_poll_ok s log fuel now sid max_events :
  protocol_inv s log -> protocol_inv (durable_poll fuel now sid max_events s).1 log.
Proof.
  intros Hinv. unfold durable_poll. destruct (negb _).
  { destruct (inner_poll _ _ _ _) as [b r]. by apply inv_inner. }
  destruct (entries _ !! sid) as [sub|]; [|done]. destruct (max_events =? 0)%nat.
  { by apply (finish_poll_ok s log). }
  pose proof (poll_loop_log fuel (start_poll sid sub max_events) _ _ (pi_log _ _ Hinv)) as Hlog.
  destruct (poll_loop _ _ _) as [j [[p|]|err]]; by eapply inv_frame.
Qed.

Lemma durable_cancel_ok s log sid : protocol_inv s log -> protocol_inv (durable_cancel sid s).1 log.
Proof.
  intros Hinv. unfold durable_cancel. destruct (String.prefix _ _).
  - destruct (entries _ !! sid); [|done]. by eapply inv_frame; [exact Hinv|apply Hinv|..].
  - destruct (inner_cancel _ _) as [b r]. by apply inv_inner.
Qed.

(** ** Executions *)

#[local] Hint Resolve begin_publish_ok take_write_ok deliver_live_ok take_revoke_ok writer_append_ok
  writer_acknowledge_ok writer_revoke_abandoned_ok writer_revoke_ok acknowledge_revocation_ok writer_stops_ok
  durable_subscribe_ok subscribe_durably_ok durable_poll_ok replay_read_ok finish_poll_ok durable_cancel_ok : core.

Lemma durable_step_ok s s' log :
  durable_step s s' -> protocol_inv s log -> exists log', protocol_inv s' log'.
Proof. intros [] Hinv; eauto. Qed.

(** The broker before its first call. *)
Definition started (s : DurableBroker B J) : Prop :=
  calls s = ∅ /\ jobs s = [] /\ writer s = Idle.

Lemma started_ok s log : started s -> sink_log (journal s) log -> revokes_backward log -> protocol_inv s log.
Proof.
  intros (Hc & Hj & Hw) Hlog Hback. split; rewrite ?Hc, ?Hj, ?Hw; try done; try constructor.
Qed.

Lemma durable_steps_ok s s' log :
  rtc durable_step s s' -> protocol_inv s log -> exists log', protocol_inv s' log'.
Proof.
  intros Hsteps. revert log. induction Hsteps as [|s s1 s' Hstep _ IH]; intros log Hinv; [eauto|].
  destruct (durable_step_ok _ _ _ Hstep Hinv) as [log' Hinv']. eauto.
Qed.
End writer_steps.
