(* ===== verification/DurableProps.v ===== *)
(** * Properties of the durable broker

    The journal as a sink that keeps a log, what the publication protocol promises
    over it, and what a subscription reads across a restart. *)
From S2P Require Import Prelude Json Events Broker BrokerInv Journal JournalLog JournalProps.
From S2P Require Import Durable DurablePoll DurableInv.
From Stdlib Require Import Ascii.

(** ** Polling *)

Section polls.
Context {B J : Type} `{!EventBroker B, !JournalSource J, !JournalSink J, !LogSource J}.

(** C31: a poll of a durable subscription returns, in order, the next events of the
    log that it wants, up to the limit, whatever batches it reads them in, and
    moves its cursor so that exactly the wanted events after those remain: polls
    never repeat or skip an event.  The loop ends by itself; as many batches as
    there are events, and one, are enough. *)
Theorem durable_poll_delivers (s : DurableBroker B J) (oldest : option N) (evs : list (N * TraverseEvent))
    (sid : string) (sub : DurableSubscriptionState) (after : N) (fuel : nat) (now : Z) (max_events : nat) :
  source_log (journal s) oldest evs ->
  String.prefix DURABLE_SUBSCRIPTION_PREFIX sid = true ->
  entries (durable_subscriptions s) !! sid = Some sub ->
  parse_u64 (durable_cursor sub) = Some after -> (after < u64_max)%N -> cursor_expired oldest after = false ->
  0 < max_events -> length evs < fuel ->
  exists s' sub' after',
    durable_poll fuel now sid max_events s =
      (s', Some (Ok {| poll_subscription_id := sid; poll_event_type := durable_event_type sub;
                       poll_cursor := durable_cursor sub';
                       poll_events := to_event <$> take max_events (wanted sub (pending after evs)) |})) /\
    entries (durable_subscriptions s') !! sid = Some sub' /\
    parse_u64 (durable_cursor sub') = Some after' /\
    durable_event_type sub' = durable_event_type sub /\ durable_subject_id sub' = durable_subject_id sub /\
    wanted sub' (pending after' evs) = drop max_events (wanted sub (pending after evs)) /\
    source_log (journal s') oldest evs.
Proof. apply durable_poll_spec. Qed.
End polls.

(** ** The journal as a sink *)

Section sink.
Context `{JournalCodecLaws}.

(** An append reads a clock before the epoch and fails at once, fails to write to the
    segment in use before any byte reaches it, or writes a record the codec represents
    exactly, below the last sequence.  What a torn write does to the records after it is
    [failed_write_loses_next_record]. *)
Definition append_ready (j : DurableEventJournal) (now : Z) (outcome : WriteOutcome)
    (e : option TraverseEvent) (revoked : option N) : Prop :=
  (now < 0)%Z \/
  (0 <= now)%Z /\ outcome = WriteFailed 0 /\ is_Some (active (rollover (Z.to_N (now / 1000000000)) j)) \/
  (0 <= now)%Z /\ outcome = Written /\ (next_seq j < u64_max)%N /\
  exact {| seq := next_seq j; written_at_secs := Z.to_N (now / 1000000000); record_event := e; revokes := revoked |}.

Lemma repr_write_nothing j disk log parts meta :
  journal_repr j disk log parts [] -> active j = Some meta ->
  journal_repr (with_segments (sealed j) (Some meta) j) (<[path meta := default [] (disk !! path meta) ++ []]> disk) log parts [].
Proof.
  intros Hr Hact. rewrite app_nil_r.
  assert (Hin : exists p, file_ok disk (read_cache j) (path meta) p).
  { pose proof (repr_files _ _ _ _ _ Hr) as Hf. unfold segments in Hf. rewrite Hact in Hf.
    apply Forall2_app_inv_l in Hf as (? & ? & _ & Hf & _). cbn in Hf.
    apply Forall2_cons_inv_l in Hf as (p & ? & Hp & _). eauto. }
  destruct Hin as [p Hp]. rewrite (file_contents _ _ _ _ Hp). cbn [default from_option]. unfold id.
  rewrite insert_id by apply Hp. rewrite <- Hact. by destruct j.
Qed.

Lemma append_line_cases j disk log parts now outcome e revoked :
  journal_repr j disk log parts [] -> append_ready j now outcome e revoked ->
  exists disk' j' r, append_line j disk now outcome e revoked = (disk', j', r) /\
    match r with
    | Err _ => exists parts', journal_repr j' disk' log parts' []
    | Ok c => exists rec parts', c = u64_to_string (seq rec) /\ (seq rec <= u64_max)%N /\
        record_event rec = e /\ revokes rec = revoked /\
        Forall (fun x => (seq x < seq rec)%N) log /\ journal_repr j' disk' (log ++ [rec]) parts' []
    end.
Proof.
  intros Hr [Hnow|[(Hnow & -> & Hact)|(Hnow & -> & Hnext & Hex)]].
  - unfold append_line, now_secs. rewrite (proj2 (Z.ltb_lt _ _) Hnow).
    eexists _, _, _. split; [reflexivity|]. by exists parts.
  - pose proof (rollover_repr (Z.to_N (now / 1000000000)) _ _ _ _ _ Hr) as Hr'. unfold append_line, now_secs.
    rewrite (proj2 (Z.ltb_ge _ _)) by lia. destruct Hact as [meta Hact]. rewrite Hact. cbn [append_record write_durable take].
    eexists _, _, _. split; [reflexivity|]. exists parts. by apply repr_write_nothing.
  - destruct (append_ok _ _ _ _ _ _ _ Hr Hnow Hnext Hex) as (disk' & j' & parts' & -> & Hr' & _).
    eexists _, _, _. split; [reflexivity|]. eexists _, parts'. split_and!; [..|exact Hr']; try done; cbn.
    + lia.
    + apply (repr_next _ _ _ _ _ Hr).
Qed.

#[export, refine] Instance shared_log_sink : LogSink SharedJournal := {|
  sink_log := fun s log => exists parts, journal_repr (shared s) (directory s) log parts [];
  sink_ready := fun s now outcome e c => append_ready (shared s) now outcome e (c ≫= parse_u64) |}.
Proof.
  - intros s now outcome e log [parts Hr] Hready. cbn [sink_append_event shared_sink]. unfold append.
    destruct (append_line_cases _ _ _ _ _ _ (Some e) None Hr Hready) as (disk' & j' & r & -> & Hres).
    eexists _, r. split; [reflexivity|]. destruct r as [c|err]; [|exact Hres].
    destruct Hres as (rec & parts' & Hrest). exists rec. naive_solver.
  - intros s now outcome c log [parts Hr] Hready. cbn [sink_append_revocation shared_sink]. unfold append_revocation.
    destruct (parse_u64 c) as [n|] eqn:Hc; cbn in Hready; rewrite Hc in Hready.
    + destruct (append_line_cases _ _ _ _ _ _ _ _ Hr Hready) as (disk' & j' & r & -> & Hres).
      eexists _, r. split; [reflexivity|]. destruct r as [k|err]; [|exact Hres].
      destruct Hres as (rec & parts' & Hrest). exists rec, n. naive_solver.
    + eexists _, _. split; [reflexivity|]. by exists parts.
  - intros s raw max_events log [parts Hr]. exists parts. cbn [source_replay_from shared_source].
    pose proof (replay_repr _ _ _ _ _ raw max_events Hr) as Hr'. by destruct (replay_from _ _ _ _).
Defined.

(** What a replay of the journal returns. *)
Lemma shared_replay s log parts tail raw after max_events :
  journal_repr (shared s) (directory s) log parts tail -> revokes_backward log ->
  parse_u64 raw = Some after -> (after < u64_max)%N ->
  (source_replay_from s raw max_events).2 =
    if cursor_expired (seq <$> head log) after then Err (JournalCursorExpired (u64_to_string (default 0%N (seq <$> head log) - 1)))
    else Ok (replay_spec log after max_events).
Proof.
  intros Hr Hback Hraw Hafter.
  destruct (replay_ok _ _ _ _ _ _ _ max_events Hr Hback Hraw Hafter) as (j' & _ & _ & Hreplay).
  cbn [source_replay_from shared_source]. rewrite Hreplay.
  destruct log as [|first log]; cbn; [by destruct max_events|]. by destruct (after + 1 <? seq first)%N.
Qed.

(** A live record after the cursor is replayed, unless the limit comes first. *)
Lemma live_replayed log e c n after max_events :
  live log e c -> parse_u64 c = Some n -> (after < n)%N ->
  (c, e) ∈ replay_spec log after max_events \/ length (replay_spec log after max_events) = max_events.
Proof.
  intros [(rec & Hin & He & Hrev & -> & Hmax) Hnot] Hn Hafter.
  rewrite parse_u64_to_string in Hn by done. injection Hn as <-.
  unfold replay_spec. set (items := List.filter _ _).
  assert (Hitem : (seq rec, e) ∈ items).
  { unfold items. apply list_elem_of_In, filter_In. split.
    - apply list_elem_of_In, list_elem_of_omap. exists rec. split; [done|].
      by rewrite Hrev, He, (proj2 (N.ltb_lt _ _) Hafter).
    - cbn. apply negb_true_iff, bool_decide_eq_false. intros Hrevd%revocations_spec. apply Hnot.
      exists (seq rec). by rewrite parse_u64_to_string. }
  rewrite length_fmap, length_take. destruct (decide (length items <= max_events)); [|right; lia].
  left. rewrite take_ge by done. apply list_elem_of_fmap. by exists (seq rec, e).
Qed.

(** A revoked record is not replayed. *)
Lemma revoked_not_replayed log n after max_events e :
  revoked_in log n -> (u64_to_string n, e) ∉ replay_spec log after max_events.
Proof.
  intros Hrev (item & Heq & Hin)%list_elem_of_fmap. injection Heq as Hn _. apply (inj pretty) in Hn as ->.
  apply elem_of_take in Hin as (i & Hi & _). apply list_elem_of_lookup_2 in Hi.
  apply list_elem_of_In, filter_In in Hi as [_ Hi].
  apply negb_true_iff, bool_decide_eq_false in Hi. by apply Hi, revocations_spec.
Qed.
End sink.

(** ** Publication *)

Section publication.
Context `{JournalCodecLaws} {B : Type} `{!EventBroker B}.
Implicit Types s : DurableBroker B SharedJournal.

(** Executions over a journal: any interleaving of publishers, the writer and
    subscribers, from a broker without calls. *)
Definition durable_run (s0 s : DurableBroker B SharedJournal) : Prop :=
  started s0 /\
  (exists log parts, journal_repr (shared (journal s0)) (directory (journal s0)) log parts [] /\ revokes_backward log) /\
  rtc durable_step s0 s.

Lemma durable_run_inv s0 s :
  durable_run s0 s -> exists log parts, journal_repr (shared (journal s)) (directory (journal s)) log parts [] /\
    protocol_inv s log.
Proof.
  intros (Hs & (log & parts & Hr & Hback) & Hsteps).
  destruct (durable_steps_ok _ _ log Hsteps) as [log' Hinv].
  - apply started_ok; [done| |done]. by exists parts.
  - destruct (pi_log _ _ Hinv) as [parts' Hr']. eauto.
Qed.

(** The call's event is handed to the inner broker, or its publication was
    acknowledged. *)
Definition past_journal (call : PublishCall) : bool :=
  match call_pc call with Delivering _ | Returned (Ok _) => true | _ => false end.

(** C30: under any interleaving, an event is handed to the inner broker, and its
    publication acknowledged, only once it is in the journal and not revoked:
    every replay from an older cursor returns it, unless the replay's limit is
    reached first or retention has dropped that cursor.  The journal starts without a
    torn tail, and its writes complete or fail before any byte reaches the segment in
    use ([append_ready]). *)
Theorem acknowledged_is_replayed s0 s (cid : nat) (call : PublishCall) :
  durable_run s0 s -> calls s !! cid = Some call -> past_journal call = true ->
  exists c n, call_cursor call = Some c /\ parse_u64 c = Some n /\
    forall raw after max_events, parse_u64 raw = Some after -> (after < n)%N ->
      match (source_replay_from (journal s) raw max_events).2 with
      | Ok events => (c, call_event call) ∈ events \/ length events = max_events
      | Err error => exists oldest, error = JournalCursorExpired oldest
      end.
Proof.
  intros Hrun Hc Hpast. destruct (durable_run_inv _ _ Hrun) as (log & parts & Hr & Hinv).
  assert (Hlive : exists c, call_cursor call = Some c /\ live log (call_event call) c).
  { pose proof (pi_calls _ _ Hinv _ _ Hc) as Hcall. unfold call_inv, past_journal in *.
    destruct (call_pc call) as [|c'|rej|[u|err]]; try done; [exists c'|destruct Hcall as (c' & Hcall); exists c']; naive_solver. }
  destruct Hlive as (c & Hk & Hl). destruct (recorded_parse _ _ _ (proj1 Hl)) as (n & Hn & _).
  exists c, n. split_and!; [done..|]. intros raw after max_events Hraw Hafter.
  assert (n <= u64_max)%N by (by eapply parse_u64_max).
  rewrite (shared_replay _ _ _ _ _ after) by (done || apply Hinv || lia).
  destruct (cursor_expired _ _); [eauto|by eapply live_replayed].
Qed.

(** Once the writer has caught up, a publication that was refused after its
    event reached the journal leaves nothing behind: no replay returns the event,
    unless writing the revocation failed or timed out, and then the audit trail
    names the event. *)
Theorem rejected_is_withdrawn s0 s (cid : nat) (call : PublishCall) (error : EventError) (c : string) :
  durable_run s0 s -> calls s !! cid = Some call -> call_pc call = Returned (Err error) ->
  call_cursor call = Some c -> writer s = Idle -> jobs s = [] ->
  (exists r, r ∈ audit s /\ audit_kind r = "journal_revocation_failed" /\ audit_event_id r = id (call_event call)) \/
  (forall raw after max_events e, parse_u64 raw = Some after -> (after < u64_max)%N ->
     forall events, (source_replay_from (journal s) raw max_events).2 = Ok events -> (c, e) ∉ events).
Proof.
  intros Hrun Hc Hpc Hk Hw Hj. destruct (durable_run_inv _ _ Hrun) as (log & parts & Hr & Hinv).
  pose proof (pi_calls _ _ Hinv _ _ Hc) as Hcall. unfold call_inv in Hcall. rewrite Hpc in Hcall.
  destruct (Hcall c Hk) as [Hrec Hwd]. rewrite Hw, Hj in Hwd.
  destruct Hwd as [Hrev|[?|[[? ?]|[[? ?%elem_of_nil]|[?|?]]]]]; [right|done..|by left|done].
  intros raw after max_events e Hraw Hafter events. rewrite (shared_replay _ _ _ _ _ after) by (done || apply Hinv).
  destruct (cursor_expired _ _); [done|]. intros [= <-]. destruct (recorded_parse _ _ _ Hrec) as (n & Hn & ->).
  destruct Hrev as (n' & Hn' & Hrev). assert (n' = n) as -> by congruence. by apply revoked_not_replayed.
Qed.
End publication.

(** ** Restart *)

Section restart.
Context `{JournalCodecLaws} `{Semver}.

(** A broker without events of the type defers cursors below its restart floor. *)
Lemma subscribe_below_floor b now ty raw after subject entry :
  catalog b !! ty = Some entry -> parse_cursor raw = Ok after -> (0 < after)%N ->
  (after < restart_floor (state b))%N -> buffer_of (state b) ty = [] ->
  exists b' oldest, subscribe_for_subject b now ty raw subject = (b', Err (CursorExpired ty oldest)).
Proof.
  intros Hcat Hraw Hpos Hfloor Hbuf. unfold subscribe_for_subject, subscribe_with_subject. rewrite Hcat, Hraw.
  destruct (prune_frame ty (retention_window (config b)) now (state b)) as (_ & _ & _ & Hf & Hb).
  unfold validate_from_cursor. rewrite Hf, Hb, decide_True by done. unfold pruned_buffer. rewrite Hbuf. cbn [prune_buffer fst].
  rewrite (proj2 (N.eqb_neq _ _)) by lia.
  rewrite (proj2 (N.ltb_lt 0 _)), (proj2 (N.ltb_lt after _)) by lia. cbn. eauto.
Qed.

(** After a restart a subscription that resumes from a cursor the journal still
    retains reads through the journal: its polls return, in order, the events of
    its type and subject that were journaled after the cursor and not revoked,
    although the new in-process broker holds none of them. *)
Theorem restart_resumes (fails : OpenCall -> bool) (r : string) (b : InProcessBroker) (c : JournalConfig) (timeout : N) (disk disk' : Disk)
    (s : DurableBroker InProcessBroker SharedJournal) (log : list JournalRecordV1)
    (parts : list (list JournalRecordV1)) (tail : Bytes) (now : Z) (ty raw : string) (subject : option string)
    (after : N) (entry : EventCatalogEntry) (max_events : nat) :
  open_durable fails r b c timeout disk = (disk', Ok s) ->
  journal_repr (shared (journal s)) (directory (journal s)) log parts tail ->
  revokes_backward log -> Forall (fun x => (seq x < u64_max)%N) log ->
  catalog b !! ty = Some entry -> buffer_of (state b) ty = [] ->
  parse_cursor raw = Ok after -> parse_u64 raw = Some after -> (0 < after < u64_max)%N ->
  (after < latest_cursor (shared (journal s)))%N -> cursor_expired (seq <$> head log) after = false ->
  0 < max_events ->
  let sub := {| durable_event_type := ty; durable_subject_id := subject; durable_cursor := u64_to_string after |} in
  let events := live_events log in
  exists s1 s2 next,
    durable_subscribe_for_subject now ty raw subject s =
      (s1, Ok {| handle_id := "durable-sub-1"; handle_event_type := ty; handle_cursor := u64_to_string after |}) /\
    durable_poll (S (length events)) now "durable-sub-1" max_events s1 =
      (s2, Some (Ok {| poll_subscription_id := "durable-sub-1"; poll_event_type := ty; poll_cursor := next;
                       poll_events := to_event <$> take max_events (wanted sub (pending after events)) |})).
Proof.
  intros Hopen Hr Hback Hmax Hcat Hbuf Hpc Hraw [Hpos Hafter] Hlatest Hret Hlimit sub events.
  assert (Hlog : source_log (journal s) (seq <$> head log) events) by (by exists log, parts, tail).
  assert (Hs : inner s = seed_restart_floor b (latest_cursor (shared (journal s))) /\
    durable_subscriptions s = {| next_id := 0; entries := ∅ |}).
  { unfold open_durable in Hopen. destruct (open fails r c disk) as [d [j|err]]; [|done]. by injection Hopen as _ <-. }
  destruct Hs as [Hinner Hsubs].
  destruct (subscribe_below_floor (inner s) now ty raw after subject entry) as (b' & oldest & Hsub); try done.
  { by rewrite Hinner. }
  { rewrite Hinner. cbn. lia. }
  { by rewrite Hinner. }
  unfold durable_subscribe_for_subject. cbn [inner_subscribe_for_subject in_process_broker]. rewrite Hsub.
  destruct (source_replays (journal s) _ _ raw after 0 Hlog Hraw Hafter) as (j1 & Hlog1 & Hreplay).
  cbn [with_inner journal]. rewrite Hreplay, Hret. unfold subscribe_durably, normalize_cursor. rewrite Hraw.
  cbn [with_journal with_inner with_subscriptions durable_subscriptions]. rewrite Hsubs. cbn [next_id entries].
  match goal with |- exists s1 _ _, (?x, _) = (s1, _) /\ _ => set (s1 := x) end.
  destruct (durable_poll_spec s1 (seq <$> head log) events "durable-sub-1" sub after (S (length events)) now max_events)
    as (s2 & sub' & after' & Hpoll & _); try done; [|lia|].
  { apply parse_u64_to_string. lia. }
  exists s1, s2, (durable_cursor sub'). split; [reflexivity|exact Hpoll].
Qed.
End restart.

(** * Runs of the durable broker

    Concrete executions over the sample journal and the in-process broker, where
    the theorems of [DurableProps] apply, and two interleavings whose outcome the
    documentation excludes. *)
#[local] Instance any_version : Semver := {| version_parses := fun _ => true |}.

Definition trip_entry : EventCatalogEntry := {| entry_event_type := "dev.trip.planned"; entry_owner := "trip";
  entry_version := "1.0.0"; entry_status := Active; consumer_count := 0 |}.

Definition trip_broker : InProcessBroker := {|
  catalog := {[ "dev.trip.planned" := trip_entry ]}; config := default_broker_config;
  validation_mode := Enforcement; state := empty_state |}.

Abbreviation State := (DurableBroker InProcessBroker SharedJournal).

(** A durable broker over an empty directory. *)
Definition opened : State :=
  Build_DurableBroker trip_broker {| shared := fresh_journal; directory := ∅ |} 2000 []
    {| next_id := 0; entries := ∅ |} [] Idle ∅.

Example opened_is_open : open_durable no_failure "/j" trip_broker default_journal_config 2000 ∅ = (∅, Ok opened).
Proof. vm_compute. reflexivity. Qed.

Definition no_call : PublishCall := {|
  call_event := sample_event; call_pc := AwaitWrite; write_ack := Pending; revoke_ack := Pending; call_cursor := None |}.

Definition call_of (cid : nat) (s : State) : PublishCall := default no_call (calls s !! cid).

Lemma call_of_Some cid s : bool_decide (is_Some (calls s !! cid)) = true -> calls s !! cid = Some (call_of cid s).
Proof. intros [x Hx]%bool_decide_eq_true. unfold call_of. by rewrite Hx. Qed.

Lemma step_then (s1 s2 s3 : State) : durable_step s1 s2 -> rtc durable_step s2 s3 -> rtc durable_step s1 s3.
Proof. apply rtc_l. Qed.

Lemma opened_run s : rtc durable_step opened s -> durable_run opened s.
Proof.
  intros Hs. split_and!; [done| |done]. exists [], []. split; [apply fresh_repr|]. by intros r n ?%elem_of_nil.
Qed.

(** ** An acknowledged publication *)

Definition sent : State := begin_publish 0 sample_event opened.
Definition written : State := writer_append 0 sample_event [] 0 Written sent.
Definition acknowledged : State := writer_acknowledge 0 sample_event (Ok "1") (call_of 0 written) written.
Definition taken : State := take_write_outcome 0 (call_of 0 acknowledged) acknowledged.
Definition delivered : State := deliver_live 0 (call_of 0 taken) "1" 0 taken.

Lemma sample_ready : append_ready fresh_journal 0 Written (Some sample_event) None.
Proof. right. right. split_and!; [lia|done|done|]. by apply (sample_exact 1). Qed.

Lemma sent_written : durable_step sent written.
Proof. by apply step_append; [| |apply sample_ready]. Qed.

Lemma delivered_run : durable_run opened delivered.
Proof.
  apply opened_run. apply (step_then _ sent); [by apply step_begin|].
  apply (step_then _ written); [apply sent_written|].
  apply (step_then _ acknowledged); [by apply step_acknowledge; [|apply call_of_Some]|].
  apply (step_then _ taken); [by apply step_take; [apply call_of_Some|]|].
  apply (step_then _ delivered); [by apply step_deliver; [apply call_of_Some|]|]. apply rtc_refl.
Qed.

Lemma acknowledged_is_replayed_witness :
  call_pc (call_of 0 delivered) = Returned (Ok tt) /\
  exists c n, call_cursor (call_of 0 delivered) = Some c /\ parse_u64 c = Some n /\
    forall raw after max_events, parse_u64 raw = Some after -> (after < n)%N ->
      match (source_replay_from (journal delivered) raw max_events).2 with
      | Ok events => (c, sample_event) ∈ events \/ length events = max_events
      | Err error => exists oldest, error = JournalCursorExpired oldest
      end.
Proof.
  split; [vm_compute; reflexivity|].
  apply (acknowledged_is_replayed opened delivered 0 (call_of 0 delivered) delivered_run);
    [by apply call_of_Some|vm_compute; reflexivity].
Defined.

(** ** A publication that times out *)

Definition timed_out : State := take_write_outcome 0 (call_of 0 sent) sent.
Definition written_late : State := writer_append 0 sample_event [] 0 Written timed_out.
Definition abandoned : State := writer_acknowledge 0 sample_event (Ok "1") (call_of 0 written_late) written_late.
Definition withdrawn_late : State := writer_revoke_abandoned "1" "e" "dev.trip.planned" 0 Written abandoned.

Lemma revocation_ready : append_ready (shared (journal abandoned)) 0 Written None (Some 1%N).
Proof. right. right. split_and!; [lia|done|vm_compute; reflexivity|]. by apply (revocation_exact 2 1). Qed.

Lemma withdrawn_late_run : durable_run opened withdrawn_late.
Proof.
  apply opened_run. apply (step_then _ sent); [by apply step_begin|].
  apply (step_then _ timed_out); [by apply step_take; [apply call_of_Some|]|].
  apply (step_then _ written_late); [by apply step_append; [| |apply sample_ready]|].
  apply (step_then _ abandoned); [by apply step_acknowledge; [|apply call_of_Some]|].
  apply (step_then _ withdrawn_late); [by apply step_revoke_abandoned; [|apply revocation_ready]|]. apply rtc_refl.
Qed.

Lemma rejected_is_withdrawn_witness :
  call_cursor (call_of 0 withdrawn_late) = Some "1" /\
  forall raw after max_events e, parse_u64 raw = Some after -> (after < u64_max)%N ->
    forall events, (source_replay_from (journal withdrawn_late) raw max_events).2 = Ok events -> ("1", e) ∉ events.
Proof.
  split; [vm_compute; reflexivity|].
  destruct (rejected_is_withdrawn opened withdrawn_late 0 (call_of 0 withdrawn_late)
    (JournalWriteTimeout "durable write exceeded 2000ms; event rejected") "1" withdrawn_late_run) as [(r & Hr & Hk & _)|H].
  - by apply call_of_Some.
  - vm_compute. reflexivity.
  - vm_compute. reflexivity.
  - vm_compute. reflexivity.
  - vm_compute. reflexivity.
  - exfalso. apply list_elem_of_singleton in Hr. subst r. discriminate Hk.
  - exact H.
Defined.

(** ** A restart *)

(** The directory after two publications, and a broker opened on it. *)
Definition two_events : Disk := {[ segment_name 1 := lines [sample_record 1; second_record 2] ]}.

Definition reopened_journal : DurableEventJournal :=
  match open no_failure "/j" default_journal_config two_events with (_, Ok j) => j | _ => fresh_journal end.

Definition reopened : State :=
  Build_DurableBroker (seed_restart_floor trip_broker 2) {| shared := reopened_journal; directory := two_events |} 2000 []
    {| next_id := 0; entries := ∅ |} [] Idle ∅.

Definition two_records : list JournalRecordV1 := [sample_record 1; second_record 2].

Lemma two_records_forward : revokes_backward two_records.
Proof. unfold two_records. intros r n [->|[->|?%elem_of_nil]%elem_of_cons]%elem_of_cons Hr; done. Qed.

Lemma two_records_ascending previous : (default 0 previous < 1)%N -> ascending previous two_records.
Proof. intros Hp. cbn. split; [intros p ->; exact Hp|]. split; [|done]. intros p [= <-]. lia. Qed.

Lemma two_events_paths : segment_paths two_events = [segment_name 1].
Proof. vm_compute. reflexivity. Qed.

Lemma reopened_repr : journal_repr reopened_journal two_events two_records [two_records] [].
Proof.
  pose proof (open_ok no_failure "/j" default_journal_config two_events [two_records] [] eq_refl) as Hopen.
  rewrite two_events_paths in Hopen. unfold reopened_journal.
  assert (Hfile : file_ok two_events ∅ (segment_name 1) (two_records, [])).
  { split; cbn [fst snd].
    + rewrite app_nil_r. apply lookup_singleton_eq.
    + by intros ?%elem_of_nil.
    + constructor; [by apply sample_exact|]. constructor; [by apply second_exact|constructor].
    + by apply two_records_ascending.
    + apply cache_ok_empty. }
  assert (Hspec : open_spec no_failure two_events [two_records] [] (open no_failure "/j" default_journal_config two_events)).
  { apply Hopen.
    - by constructor.
    - cbn [concat]. rewrite app_nil_r. by apply two_records_ascending.
    - by constructor; [|constructor].
    - cbn [concat]. rewrite app_nil_r. intros s Hs Hmax. apply Forall_cons in Hs as [Hs _]. cbn in Hs.
      unfold two_events. rewrite lookup_singleton_ne by (apply segment_name_1_ne; lia). by intros []. }
  destruct (open no_failure "/j" default_journal_config two_events) as [disk' [j|e]];
    [|destruct Hspec as [(call & action & Hf & _) _]; discriminate Hf].
  destruct Hspec as [Hd Hr]. rewrite two_events_paths in Hd. cbn in Hd. subst disk'.
  cbn [concat] in Hr. by rewrite app_nil_r in Hr.
Qed.

Lemma restart_resumes_witness :
  exists s1 s2 next,
    durable_subscribe_for_subject 0 "dev.trip.planned" "1" None reopened =
      (s1, Ok {| handle_id := "durable-sub-1"; handle_event_type := "dev.trip.planned"; handle_cursor := "1" |}) /\
    durable_poll 3 0 "durable-sub-1" 10 s1 =
      (s2, Some (Ok {| poll_subscription_id := "durable-sub-1"; poll_event_type := "dev.trip.planned"; poll_cursor := next;
                       poll_events := [{| broker_cursor := "2"; broker_event := second_event |}] |})).
Proof.
  apply (restart_resumes no_failure "/j" trip_broker default_journal_config 2000 two_events two_events reopened two_records
    [two_records] [] 0 "dev.trip.planned" "1" None 1 trip_entry 10).
  - vm_compute. reflexivity.
  - apply reopened_repr.
  - apply two_records_forward.
  - by constructor; [|constructor].
  - vm_compute. reflexivity.
  - vm_compute. reflexivity.
  - vm_compute. reflexivity.
  - vm_compute. reflexivity.
  - split; reflexivity.
  - vm_compute. reflexivity.
  - vm_compute. reflexivity.
  - lia.
Defined.

(** A subscription resumed after the restart. *)
Definition resumed : State := (durable_subscribe_for_subject 0 "dev.trip.planned" "1" None reopened).1.

Definition resumed_subscription : DurableSubscriptionState :=
  {| durable_event_type := "dev.trip.planned"; durable_subject_id := None; durable_cursor := "1" |}.

Lemma durable_poll_delivers_witness :
  exists s' next, durable_poll 4 0 "durable-sub-1" 1 resumed =
    (s', Some (Ok {| poll_subscription_id := "durable-sub-1"; poll_event_type := "dev.trip.planned"; poll_cursor := next;
                     poll_events := [{| broker_cursor := "2"; broker_event := second_event |}] |})).
Proof.
  destruct (durable_poll_delivers resumed (Some 1%N) [(1%N, sample_event); (2%N, second_event)] "durable-sub-1"
    resumed_subscription 1 4 0 1) as (s' & sub' & after' & Hpoll & _).
  - exists two_records, [two_records], []. split_and!; [|apply two_records_forward|by constructor; [|constructor]|done..].
    replace (journal resumed) with (source_replay_from (journal reopened) "1" 0).1 by (vm_compute; reflexivity).
    cbn [source_replay_from shared_source reopened journal shared directory].
    pose proof (replay_repr _ _ _ _ _ "1" 0 reopened_repr) as Hr. by destruct (replay_from _ _ _ _).
  - vm_compute. reflexivity.
  - vm_compute. reflexivity.
  - vm_compute. reflexivity.
  - vm_compute. reflexivity.
  - vm_compute. reflexivity.
  - lia.
  - cbn. lia.
  - exists s', (durable_cursor sub'). exact Hpoll.
Defined.

(** ** Interleavings *)

(** The writer's append lands after the publisher gave up and before the writer
    looks at the acknowledgement. *)
Definition refused : State :=
  writer_append 0 sample_event [] 0 Written
    (take_write_outcome 0 (call_of 0 (begin_publish 0 sample_event resumed)) (begin_publish 0 sample_event resumed)).

Definition refused_then_revoked : State :=
  writer_revoke_abandoned "3" "e" "dev.trip.planned" 0 Written
    (writer_acknowledge 0 sample_event (Ok "3") (call_of 0 refused) refused).

(** Between a write and its revocation a replay returns the event: a subscriber
    that polls in between is handed an event whose publication was already
    refused, and which later replays no longer have. *)
Theorem refused_event_is_polled :
  call_pc (call_of 0 refused) = Returned (Err (JournalWriteTimeout "durable write exceeded 2000ms; event rejected")) /\
  (durable_poll 4 0 "durable-sub-1" 10 refused).2 =
    Some (Ok {| poll_subscription_id := "durable-sub-1"; poll_event_type := "dev.trip.planned"; poll_cursor := "3";
                poll_events := [{| broker_cursor := "2"; broker_event := second_event |};
                                {| broker_cursor := "3"; broker_event := sample_event |}] |}) /\
  (source_replay_from (journal refused_then_revoked) "2" 10).2 = Ok [].
Proof. vm_compute. split_and!; reflexivity. Qed.

(** Two publishers whose events are written in one order and delivered in the other,
    with a live subscriber. *)
Definition listening : State := (durable_subscribe_for_subject 0 "dev.trip.planned" "0" None opened).1.

Definition both_sent : State := begin_publish 1 second_event (begin_publish 0 sample_event listening).

Definition first_written : State :=
  let s := writer_append 0 sample_event [JobWrite 1 second_event] 0 Written both_sent in
  writer_acknowledge 0 sample_event (Ok "1") (call_of 0 s) s.

Definition both_written : State :=
  let s := writer_append 1 second_event [] 0 Written first_written in
  writer_acknowledge 1 second_event (Ok "2") (call_of 1 s) s.

Definition both_taken : State :=
  let s := take_write_outcome 0 (call_of 0 both_written) both_written in
  take_write_outcome 1 (call_of 1 s) s.

Definition second_delivered : State := deliver_live 1 (call_of 1 both_taken) "2" 0 both_taken.
Definition after_first_poll : State := (durable_poll 1 0 "sub-1" 10 second_delivered).1.
Definition both_delivered : State := deliver_live 0 (call_of 0 after_first_poll) "1" 0 after_first_poll.

Definition trip_poll (sid c : string) (events : list BrokerEvent) : SubscriptionPoll := {|
  poll_subscription_id := sid; poll_event_type := "dev.trip.planned"; poll_cursor := c; poll_events := events |}.

(** The cursor of an event is assigned when it is written, but live delivery
    happens afterwards and outside any common lock: two publications that both
    succeed can be delivered in the opposite order.  The broker then takes the
    late event for one it no longer retains and drops it from the queue: the
    subscriber that polls on never receives it, and neither does one that resumes
    from the cursor of the first poll, although the journal holds it. *)
Theorem late_delivery_is_lost :
  call_pc (call_of 0 both_delivered) = Returned (Ok tt) /\
  call_pc (call_of 1 both_delivered) = Returned (Ok tt) /\
  (durable_poll 1 0 "sub-1" 10 second_delivered).2 =
    Some (Ok (trip_poll "sub-1" "2" [{| broker_cursor := "2"; broker_event := second_event |}])) /\
  (durable_poll 1 0 "sub-1" 10 both_delivered).2 = Some (Ok (trip_poll "sub-1" "2" [])) /\
  (let '(s, resumed) := durable_subscribe_for_subject 0 "dev.trip.planned" "2" None both_delivered in
   resumed = Ok {| handle_id := "sub-2"; handle_event_type := "dev.trip.planned"; handle_cursor := "2" |} /\
   (durable_poll 1 0 "sub-2" 10 s).2 = Some (Ok (trip_poll "sub-2" "2" []))) /\
  (source_replay_from (journal both_delivered) "0" 10).2 = Ok [("1", sample_event); ("2", second_event)].
Proof. vm_compute. split_and!; reflexivity. Qed.
