(* ===== verification/Pointer.v ===== *)
(** * JSON pointers of proposal mappings

    [pointer_get] and [pointer_set] of
    [crates/traverse-runtime/src/proposal.rs].  Reading is [Value::pointer] of
    [serde_json], RFC 6901 with its escapes and array indices; writing splits the
    text at slashes, drops empty segments and builds objects. *)
From S2P Require Import Prelude Json.
From Stdlib Require Import Ascii.

(** [str::split] at a character: one more piece than there are separators. *)
Fixpoint split_on (sep : ascii) (s : string) : list string :=
  match s with
  | EmptyString => [""]
  | String c rest =>
      if decide (c = sep) then "" :: split_on sep rest
      else match split_on sep rest with
           | piece :: pieces => String c piece :: pieces
           | [] => [String c ""]
           end
  end.

(** [str::replace] of a two-character pattern by one character. *)
Fixpoint replace_pair (a b into : ascii) (s : string) : string :=
  match s with
  | String c (String d rest as tail) =>
      if decide (c = a /\ d = b) then String into (replace_pair a b into rest)
      else String c (replace_pair a b into tail)
  | short => short
  end.

(** [token.replace("~1", "/").replace("~0", "~")] *)
Definition unescape (token : string) : string :=
  replace_pair "~" "0" "~" (replace_pair "~" "1" "/" token).

(** [parse_index] of [serde_json]: no sign, no leading zero. *)
Definition parse_index (token : string) : option nat :=
  match token with
  | String "+" _ => None
  | String "0" (String _ _) => None
  | _ => N.to_nat <$> parse_u64 token
  end.

(** One step of [Value::pointer]. *)
Definition pointer_step (target : Value) (token : string) : option Value :=
  match target with
  | Object members => member token members
  | Array items => index ← parse_index token; items !! index
  | _ => None
  end.

Fixpoint follow (target : Value) (tokens : list string) : option Value :=
  match tokens with
  | [] => Some target
  | token :: rest => next ← pointer_step target token; follow next rest
  end.

(** [Value::pointer] *)
Definition pointer_get (value : Value) (pointer : string) : option Value :=
  match pointer with
  | EmptyString => Some value
  | String c rest => if decide (c = "/"%char) then follow value (unescape <$> split_on "/" rest) else None
  end.

(** [pointer.split('/').filter(|s| !s.is_empty())] *)
Definition segments (pointer : string) : list string :=
  List.filter (fun s => negb (bool_decide (s = ""))) (split_on "/" pointer).

(** [Map::remove] *)
Definition map_remove (key : string) (members : list (string * Value)) : list (string * Value) :=
  List.filter (fun m => negb (bool_decide (m.1 = key))) members.

Fixpoint set_at_segments (current : Value) (segs : list string) (new_value : Value) : Value :=
  match segs with
  | [] => new_value
  | head :: rest =>
      let members := match current with Object members => members | _ => [] end in
      let child := default Null (member head members) in
      Object (map_insert head (set_at_segments child rest new_value) (map_remove head members))
  end.

Definition pointer_set (target : Value) (pointer : string) (new_value : Value) : Value :=
  set_at_segments target (segments pointer) new_value.

(** ** Members *)

Lemma member_insert key v members key' :
  member key' (map_insert key v members) = if decide (key' = key) then Some v else member key' members.
Proof.
  induction members as [|[k w] rest IH]; cbn [member map_insert]; [by repeat case_decide|].
  destruct (decide (k = key)) as [->|Hk]; cbn [member]; [by repeat case_decide|].
  destruct (decide (String.le key k)); cbn [member]; [|rewrite IH]; repeat case_decide; by subst.
Qed.

Lemma member_remove key members key' :
  member key' (map_remove key members) = if decide (key' = key) then None else member key' members.
Proof.
  induction members as [|[k w] rest IH]; [by cbn; case_decide|]. unfold map_remove in *. cbn [List.filter fst].
  destruct (decide (k = key)) as [->|Hk].
  - rewrite bool_decide_eq_true_2 by done. cbn [negb member]. rewrite IH. repeat case_decide; congruence.
  - rewrite bool_decide_eq_false_2 by done. cbn [negb member]. rewrite IH. repeat case_decide; congruence.
Qed.

(** ** Paths through objects *)

(** What a list of keys reaches through objects only. *)
Fixpoint lookup_path (v : Value) (keys : list string) : option Value :=
  match keys with
  | [] => Some v
  | key :: rest => next ← get key v; lookup_path next rest
  end.

(** Neither path continues the other. *)
Fixpoint diverge (p q : list string) : Prop :=
  match p, q with
  | a :: p', b :: q' => if decide (a = b) then diverge p' q' else True
  | _, _ => False
  end.

Lemma get_set_at v keys key rest new_value :
  get key (set_at_segments v (keys :: rest) new_value) =
  if decide (key = keys) then Some (set_at_segments (default Null (get keys v)) rest new_value) else get key v.
Proof.
  cbn [set_at_segments get]. rewrite member_insert, member_remove.
  destruct v; cbn [get member]; repeat case_decide; subst; done.
Qed.

Lemma lookup_set_same v keys new_value : lookup_path (set_at_segments v keys new_value) keys = Some new_value.
Proof.
  revert v. induction keys as [|key rest IH]; intros v; [done|]. cbn [lookup_path].
  rewrite get_set_at, decide_True by done. cbn. apply IH.
Qed.

Lemma lookup_path_Null keys : keys <> [] -> lookup_path Null keys = None.
Proof. by destruct keys. Qed.

Lemma lookup_set_other v p q new_value :
  diverge p q -> lookup_path (set_at_segments v p new_value) q = lookup_path v q.
Proof.
  revert v q. induction p as [|a p IH]; intros v [|b q]; cbn [diverge]; try done. intros Hd.
  cbn [lookup_path]. rewrite get_set_at. destruct (decide (b = a)) as [->|Hne]; [|done].
  rewrite decide_True in Hd by done. cbn. rewrite IH by done.
  destruct (get a v); cbn; [done|]. apply lookup_path_Null. by destruct p, q.
Qed.

(** ** Pointers without escapes *)

Fixpoint has_char (c : ascii) (s : string) : bool :=
  match s with EmptyString => false | String d rest => bool_decide (c = d) || has_char c rest end.

(** A pointer that both functions read alike: it starts with a slash, has no
    tilde and no empty segment. *)
Definition simple_pointer (pointer : string) : Prop :=
  match pointer with
  | String c rest => c = "/"%char /\ has_char "~" rest = false /\ "" ∉ split_on "/" rest
  | EmptyString => False
  end.

Lemma replace_pair_id a b into s : has_char a s = false -> replace_pair a b into s = s.
Proof.
  induction s as [|c tail IH]; [done|]. cbn [has_char]. intros [Hc Htail]%orb_false_iff.
  apply bool_decide_eq_false in Hc. specialize (IH Htail). destruct tail as [|d rest]; [done|].
  cbn [replace_pair] in *. rewrite decide_False by naive_solver. by f_equal.
Qed.

Lemma unescape_id s : has_char "~" s = false -> unescape s = s.
Proof. intros Hs. unfold unescape. by rewrite (replace_pair_id _ _ _ s), replace_pair_id by (rewrite ?replace_pair_id; done). Qed.

Lemma split_on_no_char sep c s : has_char c s = false -> Forall (fun t => has_char c t = false) (split_on sep s).
Proof.
  induction s as [|d rest IH]; cbn [has_char split_on]; [by repeat constructor|]. intros [Hd Hrest]%orb_false_iff.
  specialize (IH Hrest). destruct (decide (d = sep)); [by constructor|].
  destruct IH as [|piece pieces Hp Hps]; repeat constructor; try done; cbn [has_char]; by rewrite Hd.
Qed.

Lemma segments_simple rest :
  "" ∉ split_on "/" rest -> segments (String "/" rest) = split_on "/" rest.
Proof.
  unfold segments. change (split_on "/" (String "/" rest)) with ("" :: split_on "/" rest). cbn [List.filter].
  rewrite bool_decide_eq_true_2 by done. cbn [negb].
  induction (split_on "/" rest) as [|t l IH]; [done|]. rewrite not_elem_of_cons. intros [Ht Hl]. cbn.
  rewrite bool_decide_eq_false_2 by done. cbn. by rewrite IH.
Qed.

(** Reading a value that objects lead to. *)
Lemma follow_lookup_path v keys w : lookup_path v keys = Some w -> follow v keys = Some w.
Proof.
  revert v. induction keys as [|key rest IH]; intros v; [done|]. cbn.
  destruct v as [| | | | |members]; cbn; try done. destruct (member key members); cbn; [apply IH|done].
Qed.

Lemma pointer_get_simple v pointer w :
  simple_pointer pointer -> lookup_path v (segments pointer) = Some w -> pointer_get v pointer = Some w.
Proof.
  destruct pointer as [|c rest]; [done|]. intros (-> & Htilde & Hempty) Hl.
  rewrite segments_simple in Hl by done. cbn [pointer_get]. rewrite decide_True by done.
  replace (unescape <$> split_on "/" rest) with (split_on "/" rest); [by apply follow_lookup_path|].
  apply (split_on_no_char "/") in Htilde. clear -Htilde.
  induction Htilde as [|s l Hs Hl IH]; [done|]. rewrite fmap_cons, <- IH. by rewrite unescape_id.
Qed.

(** What was written is read back, and other paths are left alone. *)
Lemma pointer_set_get v pointer w : simple_pointer pointer -> pointer_get (pointer_set v pointer w) pointer = Some w.
Proof. intros Hp. apply pointer_get_simple; [done|]. apply lookup_set_same. Qed.
