(* ===== verification/Risk.v ===== *)
(** * Capability risk metadata

    The risk dimensions of [crates/traverse-contracts/src/lib.rs]: what a capability
    declares about its effects, data flow and reliability, and the rule for running
    without an approval token. *)
From S2P Require Import Prelude.

Inductive EffectClass := PureRead | StateWrite | ExternalEffect | IrreversibleEffect.

Inductive DeterminismClass := Deterministic | ExternallyVariable | ModelDerived.

Inductive DataClassification := Public | Internal | Confidential | Restricted.

Inductive EgressPolicy := Denied | AllowedConnectors (connectors : list string).

#[export] Instance effect_class_eq_dec : EqDecision EffectClass.
Proof. solve_decision. Defined.
#[export] Instance determinism_class_eq_dec : EqDecision DeterminismClass.
Proof. solve_decision. Defined.
#[export] Instance data_classification_eq_dec : EqDecision DataClassification.
Proof. solve_decision. Defined.
#[export] Instance egress_policy_eq_dec : EqDecision EgressPolicy.
Proof. solve_decision. Defined.

(** The derived order of [DataClassification]. *)
Definition classification_rank (c : DataClassification) : nat :=
  match c with Public => 0 | Internal => 1 | Confidential => 2 | Restricted => 3 end.

Definition classification_above (a b : DataClassification) : bool :=
  (classification_rank b <? classification_rank a)%nat.

Record FieldDataClassification := {
  field_path : string;
  classification : DataClassification }.

Record DataFlowPolicy := {
  accepted_data_classifications : list FieldDataClassification;
  produced_data_classifications : list FieldDataClassification;
  egress_policy : EgressPolicy }.

Definition default_data_flow : DataFlowPolicy := {|
  accepted_data_classifications := []; produced_data_classifications := []; egress_policy := Denied |}.

Record ReliabilityMetadata := {
  idempotency_required : bool;
  retryable : bool;
  compensation_available : bool }.

Record RiskMetadata := {
  effect_class : EffectClass;
  determinism_class : DeterminismClass;
  data_flow : DataFlowPolicy;
  reliability : ReliabilityMetadata }.

Definition default_risk_metadata : RiskMetadata := {|
  effect_class := IrreversibleEffect; determinism_class := ModelDerived; data_flow := default_data_flow;
  reliability := {| idempotency_required := true; retryable := false; compensation_available := false |} |}.

Definition is_automatic_eligible (risk : RiskMetadata) : bool :=
  bool_decide (effect_class risk = PureRead) && bool_decide (determinism_class risk = Deterministic) &&
  bool_decide (egress_policy (data_flow risk) = Denied) && negb (idempotency_required (reliability risk)).

(** [parse_effect_class] *)
Definition parse_effect_class (value : string) : option EffectClass :=
  if decide (value = "pure_read") then Some PureRead
  else if decide (value = "state_write") then Some StateWrite
  else if decide (value = "external_effect") then Some ExternalEffect
  else if decide (value = "irreversible_effect") then Some IrreversibleEffect
  else None.

(** ** Narrowing by a manifest *)

Record ManifestRiskPolicy := { egress_allowed_connectors : option (list string) }.

(** The violations [validate_manifest_risk_policy] reports: path and message, all
    with the code [RiskPolicyWeakened]. *)
Definition validate_manifest_risk_policy (risk : RiskMetadata) (policy : ManifestRiskPolicy)
    : Result (list (string * string)) unit :=
  let path := "$.risk_policy.egress_allowed_connectors" in
  let errors :=
    match egress_allowed_connectors policy with
    | None => []
    | Some declared =>
        match egress_policy (data_flow risk) with
        | Denied =>
            if (0 <? length declared)%nat
            then [(path, "manifest cannot allow egress for a capability whose contract denies all egress")]
            else []
        | AllowedConnectors allowed =>
            declared ≫= fun connector_id =>
              if bool_decide (connector_id ∈ allowed) then []
              else [(path, "manifest allows connector '" +:+ connector_id
                       +:+ "' the contract's egress policy does not permit")]
        end
    end in
  match errors with [] => Ok tt | _ => Err errors end.

(** The connectors a contract and a manifest permit. *)
Definition contract_egress (p : EgressPolicy) (connector : string) : Prop :=
  match p with Denied => False | AllowedConnectors allowed => connector ∈ allowed end.

(** A manifest policy is accepted exactly when it widens nothing. *)
Lemma manifest_policy_narrows risk policy :
  validate_manifest_risk_policy risk policy = Ok tt <->
  forall declared connector, egress_allowed_connectors policy = Some declared -> connector ∈ declared ->
    contract_egress (egress_policy (data_flow risk)) connector.
Proof.
  unfold validate_manifest_risk_policy. destruct (egress_allowed_connectors policy) as [declared|]; [|naive_solver].
  destruct (egress_policy (data_flow risk)) as [|allowed]; cbn [contract_egress].
  - destruct declared as [|c declared]; cbn; [split; [|done]; intros _ d c [= <-] ?%elem_of_nil; done|].
    split; [done|]. intros Hall. exfalso. apply (Hall (c :: declared) c); [done|by left].
  - set (report := fun connector_id => if bool_decide (connector_id ∈ allowed) then [] else [_]).
    assert (Hnil : declared ≫= report = [] <-> Forall (fun c => c ∈ allowed) declared).
    { induction declared as [|c declared IH]; cbn; [done|]. rewrite app_nil, IH, Forall_cons.
      unfold report at 1. case_bool_decide; naive_solver. }
    destruct (declared ≫= report) eqn:E.
    + split; [|done]. intros _ d c [= <-] Hc. destruct Hnil as [Hnil _]. specialize (Hnil eq_refl).
      rewrite Forall_forall in Hnil. auto.
    + split; [done|]. intros Hall. exfalso.
      assert (Hf : Forall (fun c => c ∈ allowed) declared) by (apply Forall_forall; eauto).
      apply Hnil in Hf. done.
Qed.
