(* ===== verification/Base64.v ===== *)
(** * The base64url decoder of approval tokens

    [base64url_decode] of [crates/traverse-runtime/src/proposal.rs], bit by bit on
    its 32-bit buffer, and its agreement with RFC 4648. *)
From S2P Require Import Prelude Json.
From Stdlib Require Import Ascii.

Definition ALPHABET : string := "ABCDEFGHIJKLMNOPQRSTUVWXYZabcdefghijklmnopqrstuvwxyz0123456789-_".

Fixpoint index_from (i : N) (alphabet : string) (c : ascii) : option N :=
  match alphabet with
  | EmptyString => None
  | String d rest => if decide (c = d) then Some i else index_from (i + 1) rest c
  end.

(** [lookup[byte]], with [None] for 255. *)
Definition alphabet_index (c : ascii) : option N := index_from 0 ALPHABET c.

(** The loop.  A shift of the [u32] buffer drops its high bits. *)
Fixpoint decode_loop (input : Bytes) (buffer bits : N) : Result string Bytes :=
  match input with
  | [] => Ok []
  | byte :: rest =>
      match alphabet_index byte with
      | None => Err "invalid base64url character"
      | Some value =>
          let buffer := N.lor (N.shiftl buffer 6 mod 2 ^ 32) value in
          let bits := (bits + 6)%N in
          if (8 <=? bits)%N then
            out ← decode_loop rest buffer (bits - 8);
            Ok (ascii_of_N (N.land (N.shiftr buffer (bits - 8)) 255) :: out)
          else decode_loop rest buffer bits
      end
  end.

Definition base64url_decode (input : string) : Result string Bytes :=
  decode_loop (String.list_ascii_of_string input) 0 0.

(** ** Reference encoding *)

Definition digit (n : N) : ascii := default "A"%char (String.get (N.to_nat n) ALPHABET).

(** RFC 4648, section 5, without padding. *)
Fixpoint base64url_encode (input : Bytes) : Bytes :=
  match input with
  | a :: b :: c :: rest =>
      let '(a, b, c) := (N_of_ascii a, N_of_ascii b, N_of_ascii c) in
      digit (a / 4) :: digit (a mod 4 * 16 + b / 16) :: digit (b mod 16 * 4 + c / 64) :: digit (c mod 64)
        :: base64url_encode rest
  | [a; b] =>
      let '(a, b) := (N_of_ascii a, N_of_ascii b) in
      [digit (a / 4); digit (a mod 4 * 16 + b / 16); digit (b mod 16 * 4)]
  | [a] => let a := N_of_ascii a in [digit (a / 4); digit (a mod 4 * 16)]
  | [] => []
  end.

(** ** The buffer *)

(** The loop in exact arithmetic: [pending] holds the bits not yet handed out. *)
Fixpoint decode_pending (input : Bytes) (pending bits : N) : Result string Bytes :=
  match input with
  | [] => Ok []
  | byte :: rest =>
      match alphabet_index byte with
      | None => Err "invalid base64url character"
      | Some value =>
          let value := (pending * 64 + value)%N in
          if (8 <=? bits + 6)%N then
            out ← decode_pending rest (value mod 2 ^ (bits - 2)) (bits - 2);
            Ok (ascii_of_N (value / 2 ^ (bits - 2)) :: out)
          else decode_pending rest value (bits + 6)
      end
  end.

Lemma digit_index n : (n < 64)%N -> alphabet_index (digit n) = Some n.
Proof.
  intros Hn.
  assert (Hall : Forall (fun n => alphabet_index (digit n) = Some n) (N.of_nat <$> seq 0 64))
    by (repeat constructor; vm_compute; reflexivity).
  rewrite Forall_forall in Hall. apply Hall. apply list_elem_of_fmap. exists (N.to_nat n). split; [lia|].
  apply elem_of_seq. lia.
Qed.

Lemma index_from_bound i s c n : index_from i s c = Some n -> (n < i + N.of_nat (String.length s))%N.
Proof.
  revert i. induction s as [|d s IH]; intros i; cbn [index_from String.length]; [done|].
  case_decide; [intros [= <-]; lia|]. intros Hn%IH. lia.
Qed.

Lemma alphabet_index_bound c n : alphabet_index c = Some n -> (n < 64)%N.
Proof. intros Hn%index_from_bound. exact Hn. Qed.

(** The new buffer holds the old one, six bits up, and the new digit. *)
Lemma buffer_step buffer bits value :
  (value < 64)%N -> (bits + 6 <= 32)%N ->
  (N.lor (N.shiftl buffer 6 mod 2 ^ 32) value mod 2 ^ (bits + 6) = buffer mod 2 ^ bits * 64 + value)%N.
Proof.
  intros Hv Hbits.
  assert (Hlow : (N.land (N.shiftl buffer 6 mod 2 ^ 32) value = 0)%N).
  { apply N.bits_inj_0. intros n. rewrite N.land_spec.
    destruct (N.lt_ge_cases n 6) as [Hn|Hn].
    - rewrite N.mod_pow2_bits_low by lia. by rewrite N.shiftl_spec_low.
    - replace value with (value mod 2 ^ 6)%N by (apply N.mod_small; exact Hv).
      rewrite (N.mod_pow2_bits_high value 6 n) by done. by rewrite andb_false_r. }
  rewrite <- N.lxor_lor by exact Hlow. rewrite <- N.add_nocarry_lxor by exact Hlow.
  rewrite N.shiftl_mul_pow2. set (b := (buffer * 2 ^ 6)%N).
  assert (Hmod : ((b mod 2 ^ 32) mod 2 ^ (bits + 6) = b mod 2 ^ (bits + 6))%N).
  { replace (2 ^ 32)%N with (2 ^ (bits + 6) * 2 ^ (26 - bits))%N by (rewrite <- N.pow_add_r; f_equal; lia).
    rewrite N.Div0.mod_mul_r. rewrite (N.mul_comm (2 ^ (bits + 6))), N.Div0.mod_add. apply N.Div0.mod_mod. }
  rewrite N.Div0.add_mod, Hmod, <- N.Div0.add_mod.
  assert (Hb : (b mod 2 ^ (bits + 6) = buffer mod 2 ^ bits * 64)%N)
    by (unfold b; rewrite N.pow_add_r, N.Div0.mul_mod_distr_r; done).
  rewrite N.Div0.add_mod, Hb.
  assert (buffer mod 2 ^ bits < 2 ^ bits)%N by (apply N.mod_lt, N.pow_nonzero; lia).
  rewrite (N.mod_small value) by (rewrite N.pow_add_r; change (2 ^ 6)%N with 64%N; nia).
  apply N.mod_small. rewrite N.pow_add_r. change (2 ^ 6)%N with 64%N. nia.
Qed.

Lemma decode_loop_pending input buffer bits :
  (bits < 8)%N -> decode_loop input buffer bits = decode_pending input (buffer mod 2 ^ bits) bits.
Proof.
  revert buffer bits. induction input as [|c rest IH]; intros buffer bits Hbits; [done|].
  cbn [decode_loop decode_pending]. destruct (alphabet_index c) as [value|] eqn:Hc; [|done].
  apply alphabet_index_bound in Hc. rewrite <- buffer_step by lia.
  set (b := N.lor _ value). destruct (N.leb_spec 8 (bits + 6)) as [Hge|Hlt]; [|apply IH; lia].
  replace (bits + 6 - 8)%N with (bits - 2)%N by lia. rewrite IH by lia.
  assert (Hsplit : (2 ^ (bits + 6) = 2 ^ (bits - 2) * 2 ^ 8)%N) by (rewrite <- N.pow_add_r; f_equal; lia).
  assert (Hrest : ((b mod 2 ^ (bits + 6)) mod 2 ^ (bits - 2) = b mod 2 ^ (bits - 2))%N).
  { rewrite Hsplit, N.Div0.mod_mul_r, (N.mul_comm (2 ^ (bits - 2))), N.Div0.mod_add. apply N.Div0.mod_mod. }
  assert (Hbyte : ((b mod 2 ^ (bits + 6)) / 2 ^ (bits - 2) = N.land (N.shiftr b (bits - 2)) 255)%N).
  { rewrite N.shiftr_div_pow2. change 255%N with (N.ones 8). rewrite N.land_ones, Hsplit, N.Div0.mod_mul_r.
    rewrite (N.mul_comm (2 ^ (bits - 2)) (_ mod _)), N.div_add by (apply N.pow_nonzero; lia).
    rewrite N.div_small; [lia|]. apply N.mod_lt, N.pow_nonzero. lia. }
  by rewrite Hrest, Hbyte.
Qed.

(** ** Round trip *)

Lemma decode_pending_digit v rest pending bits :
  (v < 64)%N ->
  decode_pending (digit v :: rest) pending bits =
    let value := (pending * 64 + v)%N in
    if (8 <=? bits + 6)%N then
      out ← decode_pending rest (value mod 2 ^ (bits - 2)) (bits - 2);
      Ok (ascii_of_N (value / 2 ^ (bits - 2)) :: out)
    else decode_pending rest value (bits + 6).
Proof. intros Hv. cbn [decode_pending]. by rewrite digit_index. Qed.

Lemma byte_bound (c : ascii) : (N_of_ascii c < 256)%N.
Proof. apply N_ascii_bounded. Qed.

(** Quotient and remainder of a byte, as variables. *)
Ltac split_byte c k :=
  let q := fresh "q" in let r := fresh "r" in
  pose proof (N.div_mod (N_of_ascii c) k ltac:(done));
  pose proof (N.mod_lt (N_of_ascii c) k ltac:(done));
  set (q := (N_of_ascii c / k)%N) in *; set (r := (N_of_ascii c mod k)%N) in *; clearbody q r.

(** A digit that completes byte [c] and leaves [low] pending. *)
Lemma decode_completes v rest pending bits low c :
  (v < 64)%N -> (2 <= bits)%N -> (low < 2 ^ (bits - 2))%N ->
  (pending * 64 + v = low + N_of_ascii c * 2 ^ (bits - 2))%N ->
  decode_pending (digit v :: rest) pending bits = (out ← decode_pending rest low (bits - 2); Ok (c :: out)).
Proof.
  intros Hv Hbits Hlow Hsum. rewrite decode_pending_digit by exact Hv. cbv zeta.
  destruct (N.leb_spec 8 (bits + 6)) as [_|]; [|lia].
  assert (Hnz : (2 ^ (bits - 2) <> 0)%N) by (apply N.pow_nonzero; lia).
  rewrite Hsum, N.Div0.mod_add, N.div_add, N.div_small, N.mod_small, N.add_0_l, ascii_N_embedding by done. done.
Qed.

Lemma decode_pair a v rest :
  (v < 16)%N ->
  decode_pending (digit (N_of_ascii a / 4) :: digit (N_of_ascii a mod 4 * 16 + v) :: rest) 0 0 =
  (out ← decode_pending rest v 4; Ok (a :: out)).
Proof.
  intros Hv. pose proof (byte_bound a) as Ha. split_byte a 4%N.
  rewrite decode_pending_digit by lia. change (8 <=? 0 + 6)%N with false. cbv beta iota zeta.
  apply (decode_completes _ _ _ 6); [lia|lia|exact Hv|change (2 ^ (6 - 2))%N with 16%N; lia].
Qed.

Lemma decode_third v rest p b :
  (v < 16)%N -> (p < 4)%N -> (N_of_ascii b = v * 16 + (N_of_ascii b mod 16))%N ->
  decode_pending (digit (N_of_ascii b mod 16 * 4 + p) :: rest) v 4 = (out ← decode_pending rest p 2; Ok (b :: out)).
Proof.
  intros Hv Hp Hb. split_byte b 16%N.
  apply (decode_completes _ _ _ 4); [lia|lia|exact Hp|change (2 ^ (4 - 2))%N with 4%N; lia].
Qed.

Lemma decode_fourth p rest c :
  (N_of_ascii c = p * 64 + N_of_ascii c mod 64)%N ->
  decode_pending (digit (N_of_ascii c mod 64) :: rest) p 2 = (out ← decode_pending rest 0 0; Ok (c :: out)).
Proof.
  intros Hc. split_byte c 64%N.
  apply (decode_completes _ _ _ 2); [lia|lia|done|change (2 ^ (2 - 2))%N with 1%N; lia].
Qed.

Lemma byte_split c k : (N_of_ascii c = N_of_ascii c / k * k + N_of_ascii c mod k)%N.
Proof. rewrite N.mul_comm. apply N.Div0.div_mod. Qed.

Lemma byte_high c k m : (256 <= k * m)%N -> (N_of_ascii c / k < m)%N.
Proof. intros Hk. apply N.Div0.div_lt_upper_bound. pose proof (byte_bound c). lia. Qed.

Lemma decode_encode_pending input : decode_pending (base64url_encode input) 0 0 = Ok input.
Proof.
  revert input. fix IH 1. intros [|a [|b [|c rest]]]; [done|..]; cbn [base64url_encode].
  - rewrite <- (N.add_0_r (N_of_ascii a mod 4 * 16)). by rewrite decode_pair.
  - rewrite decode_pair by (apply byte_high; done).
    rewrite <- (N.add_0_r (N_of_ascii b mod 16 * 4)).
    by rewrite decode_third by (apply byte_split || (apply byte_high; done) || done).
  - rewrite decode_pair by (apply byte_high; done).
    rewrite decode_third by (apply byte_split || (apply byte_high; done)).
    by rewrite decode_fourth, IH by apply byte_split.
Qed.

Lemma base64url_decode_encode input :
  base64url_decode (String.string_of_list_ascii (base64url_encode input)) = Ok input.
Proof.
  unfold base64url_decode. rewrite String.list_ascii_of_string_of_list_ascii, decode_loop_pending by done.
  apply decode_encode_pending.
Qed.
