(* ===== verification/Approval.v ===== *)
(** * Approval tokens

    [verify_approval_token] and [ApprovalTokenStore] of
    [crates/traverse-runtime/src/proposal.rs]: a signed, expiring token that binds
    an approval to one proposal, one snapshot and one workspace, and the ledger of
    its uses.  The signature scheme is [Ed25519], the clock an argument. *)
From S2P Require Import Prelude Json Pointer Risk Base64.
From Stdlib Require Import Ascii.

(** The signature scheme of [ed25519_dalek]. *)
Class Ed25519 := {
  VerifyingKey : Type;
  verify_signature : VerifyingKey -> Bytes -> Bytes -> bool }.

Record ApprovalTokenClaims := {
  token_id : string;
  issuer : string;
  key_id : string;
  audience : string;
  principal : string;
  workspace_id : string;
  proposal_digest : string;
  snapshot_digest : string;
  permitted_effects : list EffectClass;
  permitted_connectors : list string;
  max_use_count : N;
  expiry_unix : Z }.

Inductive AuthorizationDecision := Automatic | Approved (claims : ApprovalTokenClaims).

Inductive ApprovalTokenErrorCode :=
  | Malformed
  | AlgorithmNotAllowed
  | UnknownKeyId
  | SignatureVerificationFailed
  | IssuerMismatch
  | AudienceMismatch
  | Expired
  | WorkspaceMismatch
  | ProposalDigestMismatch
  | SnapshotDigestMismatch
  | UseCountExhausted
  | Revoked
  | StoreUnavailable.

#[export] Instance approval_code_eq_dec : EqDecision ApprovalTokenErrorCode.
Proof. solve_decision. Defined.

Record ApprovalTokenError := { code : ApprovalTokenErrorCode; message : string }.

Definition token_error (c : ApprovalTokenErrorCode) (m : string) : ApprovalTokenError :=
  {| code := c; message := m |}.

Definition APPROVAL_TOKEN_ALLOWED_ALG : string := "EdDSA".

(** [unix_now], of a clock that shows [secs] seconds since the epoch. *)
Definition unix_now (secs : N) : Z := Z.min (Z.of_N secs) i64_max.

(** ** Claims *)

Definition get_str (payload : Value) (field : string) : Result ApprovalTokenError string :=
  ok_or (non_blank (get field payload ≫= as_str))
    (token_error Malformed ("payload missing required non-empty claim '" +:+ field +:+ "'")).

(** The strings of an array member, [[]] when it is absent or not an array. *)
Definition string_items (payload : Value) (field : string) : list string :=
  match get field payload ≫= as_array with
  | Some values => omap as_str values
  | None => []
  end.

Definition parse_approval_token_claims (payload : Value) (kid : string)
    : Result ApprovalTokenError ApprovalTokenClaims :=
  let effects := omap parse_effect_class (string_items payload "permitted_effects") in
  let connectors := string_items payload "permitted_connectors" in
  max_use ← ok_or
    (v ← get "max_use_count" payload ≫= as_u64; if (v <=? u32_max)%N then Some v else None)
    (token_error Malformed "payload missing required u32 claim 'max_use_count'");
  expiry ← ok_or (get "exp" payload ≫= as_i64)
    (token_error Malformed "payload missing required claim 'exp'");
  jti ← get_str payload "jti";
  iss ← get_str payload "iss";
  aud ← get_str payload "aud";
  sub ← get_str payload "sub";
  workspace ← get_str payload "workspace_id";
  proposal ← get_str payload "proposal_digest";
  snapshot ← get_str payload "snapshot_digest";
  Ok {| token_id := jti; issuer := iss; key_id := kid; audience := aud; principal := sub;
        workspace_id := workspace; proposal_digest := proposal; snapshot_digest := snapshot;
        permitted_effects := effects; permitted_connectors := connectors;
        max_use_count := max_use; expiry_unix := expiry |}.

(** ** Verification *)

Record ApprovalTokenVerificationContext `{Ed25519} := {
  expected_issuer : string;
  expected_audience : string;
  expected_workspace_id : string;
  expected_proposal_digest : string;
  expected_snapshot_digest : string;
  verifying_keys_by_key_id : gmap string VerifyingKey }.

(** The claims against what the context expects, in the order of the checks. *)
Definition check_bindings `{Ed25519} (context : ApprovalTokenVerificationContext) (now : Z)
    (claims : ApprovalTokenClaims) : Result ApprovalTokenError ApprovalTokenClaims :=
  ensure (bool_decide (issuer claims = expected_issuer context))
    (token_error IssuerMismatch "token issuer does not match the expected issuer");;
  ensure (bool_decide (audience claims = expected_audience context))
    (token_error AudienceMismatch "token audience does not match the expected audience");;
  ensure (bool_decide (workspace_id claims = expected_workspace_id context))
    (token_error WorkspaceMismatch "token workspace_id does not match the proposal's workspace_id");;
  ensure (bool_decide (proposal_digest claims = expected_proposal_digest context))
    (token_error ProposalDigestMismatch "token is not bound to this exact proposal digest");;
  ensure (bool_decide (snapshot_digest claims = expected_snapshot_digest context))
    (token_error SnapshotDigestMismatch "token is not bound to the current pinned snapshot digest");;
  ensure (negb (expiry_unix claims <=? now)%Z) (token_error Expired "token is expired");;
  Ok claims.

(** The decoded JSON of a segment; [part] names it in the message. *)
Definition decode_segment `{SerdeJson} (part segment : string) : Result ApprovalTokenError Value :=
  bytes ← map_err (token_error Malformed) (base64url_decode segment);
  map_err (fun e => token_error Malformed ("invalid " +:+ part +:+ ": " +:+ e)) (from_slice bytes).

Definition verify_segments `{SerdeJson, Ed25519} (context : ApprovalTokenVerificationContext) (now : Z)
    (header_b64 payload_b64 signature_b64 : string) : Result ApprovalTokenError ApprovalTokenClaims :=
  header ← decode_segment "header" header_b64;
  let alg := default "" (get "alg" header ≫= as_str) in
  ensure (bool_decide (alg = APPROVAL_TOKEN_ALLOWED_ALG))
    (token_error AlgorithmNotAllowed
       ("alg '" +:+ alg +:+ "' is not allowed; only " +:+ APPROVAL_TOKEN_ALLOWED_ALG +:+ " is accepted"));;
  kid ← ok_or (get "kid" header ≫= as_str) (token_error Malformed "header missing 'kid'");
  key ← ok_or (verifying_keys_by_key_id context !! kid)
    (token_error UnknownKeyId ("no verification key configured for key id '" +:+ kid +:+ "'"));
  signature ← map_err (token_error SignatureVerificationFailed) (base64url_decode signature_b64);
  ensure (bool_decide (length signature = 64))
    (token_error SignatureVerificationFailed "signature must be 64 bytes");;
  let signing_input := header_b64 +:+ "." +:+ payload_b64 in
  ensure (verify_signature key (String.list_ascii_of_string signing_input) signature)
    (token_error SignatureVerificationFailed "signature verification failed");;
  payload ← decode_segment "payload" payload_b64;
  claims ← parse_approval_token_claims payload kid;
  check_bindings context now claims.

Definition verify_approval_token `{SerdeJson, Ed25519} (context : ApprovalTokenVerificationContext)
    (now : Z) (token : string) : Result ApprovalTokenError ApprovalTokenClaims :=
  match split_on "." token with
  | [header_b64; payload_b64; signature_b64] => verify_segments context now header_b64 payload_b64 signature_b64
  | _ => Err (token_error Malformed "approval token must have exactly three dot-separated segments")
  end.

(** ** The ledger of uses *)

Record TokenUsageRecord := { use_count : N; revoked : bool }.

Definition fresh_usage : TokenUsageRecord := {| use_count := 0; revoked := false |}.

(** [poisoned] when a holder of the lock panicked. *)
Record ApprovalTokenStore := { used : gmap string TokenUsageRecord; poisoned : bool }.

Definition new_store : ApprovalTokenStore := {| used := ∅; poisoned := false |}.

Definition usage (store : ApprovalTokenStore) (id : string) : TokenUsageRecord :=
  default fresh_usage (used store !! id).

Definition set_usage (id : string) (r : TokenUsageRecord) (store : ApprovalTokenStore) : ApprovalTokenStore :=
  {| used := <[id := r]> (used store); poisoned := poisoned store |}.

Definition check_and_record_use (store : ApprovalTokenStore) (claims : ApprovalTokenClaims)
    : ApprovalTokenStore * Result ApprovalTokenError unit :=
  if poisoned store then
    (store, Err (token_error StoreUnavailable "approval token store is unavailable; failing closed"))
  else
    let id := token_id claims in
    let record := usage store id in
    if revoked record then
      (set_usage id record store, Err (token_error Revoked "token has been revoked"))
    else if (max_use_count claims <=? use_count record)%N then
      (set_usage id record store, Err (token_error UseCountExhausted "token has reached its maximum use count"))
    else (set_usage id {| use_count := use_count record + 1; revoked := revoked record |} store, Ok tt).

Definition revoke (store : ApprovalTokenStore) (id : string) : ApprovalTokenStore :=
  if poisoned store then store
  else set_usage id {| use_count := use_count (usage store id); revoked := true |} store.

(** * What an approval token permits

    A token is accepted exactly when it is signed, current and bound to what is
    approved; an issued token is accepted; and a use is granted exactly while the
    token is neither revoked nor used up. *)
(** ** Acceptance *)

Section Verification.
Context `{SerdeJson, Ed25519}.

(** The document a segment encodes. *)
Definition segment_document (segment : string) (document : Value) : Prop :=
  exists bytes, base64url_decode segment = Ok bytes /\ from_slice bytes = Ok document.

(** The claims name what the context expects and are not expired. *)
Definition bound_to (context : ApprovalTokenVerificationContext) (now : Z) (claims : ApprovalTokenClaims) : Prop :=
  issuer claims = expected_issuer context /\ audience claims = expected_audience context /\
  workspace_id claims = expected_workspace_id context /\
  proposal_digest claims = expected_proposal_digest context /\
  snapshot_digest claims = expected_snapshot_digest context /\ (now < expiry_unix claims)%Z.

(** [signature] is a signature of the two segments under the key the header names. *)
Definition signed_by (context : ApprovalTokenVerificationContext) (kid : string)
    (header_b64 payload_b64 signature_b64 : string) : Prop :=
  exists key signature,
    verifying_keys_by_key_id context !! kid = Some key /\
    base64url_decode signature_b64 = Ok signature /\ length signature = 64 /\
    verify_signature key (String.list_ascii_of_string (header_b64 +:+ "." +:+ payload_b64)) signature = true.


Lemma ensure_bind_ok {E T} (g : bool) (e : E) (k : Result E T) v :
  (ensure g e;; k) = Ok v <-> g = true /\ k = Ok v.
Proof. destruct g; cbn; naive_solver. Qed.

Lemma decode_segment_ok part segment document :
  decode_segment part segment = Ok document <-> segment_document segment document.
Proof.
  unfold decode_segment, segment_document. rewrite bind_ok_inv. by setoid_rewrite map_err_ok.
Qed.

Lemma check_bindings_ok context now claims claims' :
  check_bindings context now claims = Ok claims' <-> claims' = claims /\ bound_to context now claims.
Proof.
  unfold check_bindings, bound_to. rewrite !ensure_bind_ok, !bool_decide_eq_true, negb_true_iff, Z.leb_gt.
  naive_solver.
Qed.

Lemma alg_allowed header :
  default "" (get "alg" header ≫= as_str) = APPROVAL_TOKEN_ALLOWED_ALG <->
  get "alg" header ≫= as_str = Some APPROVAL_TOKEN_ALLOWED_ALG.
Proof. destruct (get "alg" header ≫= as_str); cbn; naive_solver. Qed.

(** An approval token is accepted, with the claims of its payload, exactly when
    it has three segments, its header names the EdDSA algorithm and a configured
    key, the third segment is a 64-byte signature of the first two under that key,
    and the claims name the expected issuer, audience, workspace, proposal digest
    and snapshot digest and have not expired. *)
Theorem verify_approval_token_exact context now token claims :
  verify_approval_token context now token = Ok claims <->
  exists header_b64 payload_b64 signature_b64 header payload kid,
    split_on "." token = [header_b64; payload_b64; signature_b64] /\
    segment_document header_b64 header /\ segment_document payload_b64 payload /\
    get "alg" header ≫= as_str = Some "EdDSA" /\ get "kid" header ≫= as_str = Some kid /\
    signed_by context kid header_b64 payload_b64 signature_b64 /\
    parse_approval_token_claims payload kid = Ok claims /\ bound_to context now claims.
Proof.
  unfold verify_approval_token. split.
  - destruct (split_on "." token) as [|h [|p [|s [|]]]] eqn:Hsplit; try done. unfold verify_segments. intros Hv.
    apply bind_ok_inv in Hv as (header & Hh%decode_segment_ok & Hv). cbv zeta in Hv.
    apply ensure_bind_ok in Hv as (Halg%bool_decide_eq_true%alg_allowed & Hv).
    apply bind_ok_inv in Hv as (kid & Hkid%ok_or_ok_inv & Hv).
    apply bind_ok_inv in Hv as (key & Hkey%ok_or_ok_inv & Hv).
    apply bind_ok_inv in Hv as (signature & Hsig%map_err_ok & Hv).
    apply ensure_bind_ok in Hv as (Hlen%bool_decide_eq_true & Hv). apply ensure_bind_ok in Hv as (Hver & Hv).
    apply bind_ok_inv in Hv as (payload & Hp%decode_segment_ok & Hv).
    apply bind_ok_inv in Hv as (claims' & Hclaims & Hv%check_bindings_ok). destruct Hv as [-> Hb].
    exists h, p, s, header, payload, kid. unfold signed_by. naive_solver.
  - intros (h & p & s & header & payload & kid & -> & Hh & Hp & Halg & Hkid & Hs & Hclaims & Hb).
    destruct Hs as (key & signature & Hkey & Hsig & Hlen & Hver).
    unfold verify_segments. rewrite (proj2 (decode_segment_ok _ _ _) Hh). cbn [mbind Result_bind].
    rewrite (proj2 (alg_allowed header)) by done. rewrite bool_decide_eq_true_2 by done.
    cbn [mbind Result_bind ensure]. rewrite Hkid. cbn [mbind Result_bind ok_or].
    rewrite Hkey. cbn [mbind Result_bind ok_or]. rewrite Hsig. cbn [mbind Result_bind map_err].
    rewrite bool_decide_eq_true_2 by done. cbn [mbind Result_bind ensure]. rewrite Hver. cbn [mbind Result_bind ensure].
    rewrite (proj2 (decode_segment_ok _ _ _) Hp). cbn [mbind Result_bind]. rewrite Hclaims.
    cbn [mbind Result_bind]. by apply check_bindings_ok.
Qed.

End Verification.

(** ** Issuing *)

(** The reference issuer: a token in the compact form of RFC 7515. *)
Section Issuing.
Context `{SerdeJson, Ed25519}.

Definition effect_name (e : EffectClass) : string :=
  match e with
  | PureRead => "pure_read"
  | StateWrite => "state_write"
  | ExternalEffect => "external_effect"
  | IrreversibleEffect => "irreversible_effect"
  end.

Definition integer (z : Z) : Value := Num (if (z <? 0)%Z then NegInt z else PosInt (Z.to_N z)).

Definition token_header (kid : string) : Value := Object [("alg", Str "EdDSA"); ("kid", Str kid)].

Definition token_payload (c : ApprovalTokenClaims) : Value := Object [
  ("aud", Str (audience c)); ("exp", integer (expiry_unix c)); ("iss", Str (issuer c));
  ("jti", Str (token_id c)); ("max_use_count", Num (PosInt (max_use_count c)));
  ("permitted_connectors", Array (Str <$> permitted_connectors c));
  ("permitted_effects", Array (Str <$> (effect_name <$> permitted_effects c)));
  ("proposal_digest", Str (proposal_digest c)); ("snapshot_digest", Str (snapshot_digest c));
  ("sub", Str (principal c)); ("workspace_id", Str (workspace_id c))].

Definition encode_segment (bytes : Bytes) : string := String.string_of_list_ascii (base64url_encode bytes).

Definition issue (sign : Bytes -> Bytes) (c : ApprovalTokenClaims) : string :=
  let signing_input :=
    encode_segment (to_vec (token_header (key_id c))) +:+ "." +:+ encode_segment (to_vec (token_payload c)) in
  signing_input +:+ "." +:+ encode_segment (sign (String.list_ascii_of_string signing_input)).

(** Claims a token can carry. *)
Definition claims_ok (c : ApprovalTokenClaims) : Prop :=
  Forall (fun s => is_blank s = false)
    [token_id c; issuer c; audience c; principal c; workspace_id c; proposal_digest c; snapshot_digest c] /\
  (max_use_count c <= u32_max)%N /\ (expiry_unix c <= i64_max)%Z.

Lemma get_not_char c s n d : has_char c s = false -> String.get n s = Some d -> d <> c.
Proof.
  revert n. induction s as [|e s IH]; intros n; [by destruct n|]. cbn [has_char String.get].
  intros [Hc Hs]%orb_false_iff. apply bool_decide_eq_false in Hc. destruct n; [intros [= <-]; congruence|by apply IH].
Qed.

Lemma digit_not_dot n : digit n <> "."%char.
Proof.
  unfold digit. destruct (String.get (N.to_nat n) ALPHABET) as [d|] eqn:E; [|done]. cbn.
  by eapply get_not_char, E.
Qed.

Lemma encode_no_dot bytes : has_char "." (encode_segment bytes) = false.
Proof.
  unfold encode_segment. revert bytes. fix IH 1. intros [|a [|b [|c rest]]]; [done|..];
    cbn [base64url_encode String.string_of_list_ascii has_char];
    rewrite ?(bool_decide_eq_false_2 (_ = digit _)) by (intros Heq; symmetry in Heq; by apply digit_not_dot in Heq);
    cbn; [done|done|apply IH].
Qed.

Lemma split_on_app c s rest : has_char c s = false -> split_on c (s +:+ String c rest) = s :: split_on c rest.
Proof.
  induction s as [|d s IH]; cbn [has_char].
  - intros _. change ("" +:+ String c rest) with (String c rest). cbn [split_on]. by rewrite decide_True.
  - intros [Hc Hs]%orb_false_iff. apply bool_decide_eq_false in Hc.
    change (String d s +:+ String c rest) with (String d (s +:+ String c rest)). cbn [split_on].
    rewrite decide_False by congruence. by rewrite IH.
Qed.

Lemma split_on_none c s : has_char c s = false -> split_on c s = [s].
Proof.
  induction s as [|d s IH]; [done|]. cbn [has_char split_on]. intros [Hc Hs]%orb_false_iff.
  apply bool_decide_eq_false in Hc. rewrite decide_False by congruence. by rewrite IH.
Qed.

Lemma parse_effect_name e : parse_effect_class (effect_name e) = Some e.
Proof. by destruct e. Qed.

Lemma omap_all {A B} (f : A -> option B) (g : B -> A) (l : list B) : (forall x, f (g x) = Some x) -> omap f (g <$> l) = l.
Proof. intros Hf. induction l as [|x l IH]; [done|]. cbn. by rewrite Hf, IH. Qed.

Lemma as_i64_integer z : (z <= i64_max)%Z -> as_i64 (integer z) = Some z.
Proof.
  intros Hz. unfold integer, as_i64. destruct (Z.ltb_spec z 0); [done|]. rewrite Z2N.id by done.
  by rewrite (proj2 (Z.leb_le _ _)).
Qed.

Lemma parse_issued_claims c :
  claims_ok c -> parse_approval_token_claims (token_payload c) (key_id c) = Ok c.
Proof.
  intros (Hblank & Huse & Hexp). rewrite !Forall_cons in Hblank.
  destruct Hblank as (Hjti & Hiss & Haud & Hsub & Hws & Hp & Hs & _).
  assert (Hstr : forall field s, get field (token_payload c) = Some (Str s) -> is_blank s = false ->
    get_str (token_payload c) field = Ok s).
  { intros field s Hget Hb. unfold get_str. rewrite Hget. cbn. by rewrite Hb. }
  unfold parse_approval_token_claims, string_items.
  change (get "max_use_count" (token_payload c)) with (Some (Num (PosInt (max_use_count c)))).
  change (get "exp" (token_payload c)) with (Some (integer (expiry_unix c))). cbn [mbind option_bind as_u64].
  rewrite (proj2 (N.leb_le _ _) Huse), as_i64_integer by done. cbn [mbind Result_bind ok_or].
  rewrite (Hstr "jti" (token_id c)), (Hstr "iss" (issuer c)), (Hstr "aud" (audience c)), (Hstr "sub" (principal c)),
    (Hstr "workspace_id" (workspace_id c)), (Hstr "proposal_digest" (proposal_digest c)),
    (Hstr "snapshot_digest" (snapshot_digest c)) by done.
  cbn [mbind Result_bind].
  change (get "permitted_effects" (token_payload c)) with (Some (Array (Str <$> (effect_name <$> permitted_effects c)))).
  change (get "permitted_connectors" (token_payload c)) with (Some (Array (Str <$> permitted_connectors c))).
  cbn [mbind option_bind as_array].
  rewrite !(omap_all as_str Str), (omap_all parse_effect_class effect_name) by (done || apply parse_effect_name).
  by destruct c.
Qed.

Lemma segment_document_encode document :
  from_slice (to_vec document) = Ok document -> segment_document (encode_segment (to_vec document)) document.
Proof. exists (to_vec document). split; [apply base64url_decode_encode|done]. Qed.

Lemma split_segments h p s :
  has_char "." h = false -> has_char "." p = false -> has_char "." s = false ->
  split_on "." ((h +:+ "." +:+ p) +:+ "." +:+ s) = [h; p; s].
Proof.
  intros Hh Hp Hs. rewrite !string_app_assoc. change ("." +:+ (p +:+ "." +:+ s)) with (String "." (p +:+ String "." s)).
  by rewrite split_on_app, split_on_app, split_on_none.
Qed.

(** A token issued for well-formed claims, signed with the private key of a
    configured key, verifies and yields exactly those claims, when they match the
    context and are not expired.  The codec is only required to read back the two
    documents of the token, and the scheme to accept its own signature. *)
Theorem issued_token_verifies context now sign key c :
  claims_ok c -> bound_to context now c ->
  verifying_keys_by_key_id context !! key_id c = Some key ->
  (forall msg, length (sign msg) = 64 /\ verify_signature key msg (sign msg) = true) ->
  from_slice (to_vec (token_header (key_id c))) = Ok (token_header (key_id c)) ->
  from_slice (to_vec (token_payload c)) = Ok (token_payload c) ->
  verify_approval_token context now (issue sign c) = Ok c.
Proof.
  intros Hc Hb Hkey Hsign Hheader Hpayload. unfold issue. cbv zeta.
  set (h := encode_segment (to_vec (token_header (key_id c)))). set (p := encode_segment (to_vec (token_payload c))).
  set (m := String.list_ascii_of_string (h +:+ "." +:+ p)). destruct (Hsign m) as [Hlen Hver].
  unfold verify_approval_token. rewrite split_segments by apply encode_no_dot. unfold verify_segments.
  rewrite (proj2 (decode_segment_ok "header" h _) (segment_document_encode _ Hheader)).
  cbn [mbind Result_bind]. change (default "" (get "alg" (token_header (key_id c)) ≫= as_str)) with "EdDSA".
  change (get "kid" (token_header (key_id c)) ≫= as_str) with (Some (key_id c)). cbv zeta.
  rewrite bool_decide_eq_true_2 by done. cbn [mbind Result_bind ensure ok_or]. rewrite Hkey.
  cbn [mbind Result_bind ok_or]. unfold encode_segment at 1. rewrite base64url_decode_encode.
  cbn [mbind Result_bind map_err]. rewrite bool_decide_eq_true_2 by done. cbn [mbind Result_bind ensure].
  change (String.list_ascii_of_string (h +:+ "." +:+ p)) with m. rewrite Hver. cbn [mbind Result_bind ensure].
  rewrite (proj2 (decode_segment_ok "payload" p _) (segment_document_encode _ Hpayload)).
  cbn [mbind Result_bind]. rewrite parse_issued_claims by done. cbn [mbind Result_bind]. by apply check_bindings_ok.
Qed.

End Issuing.

(** ** Uses *)

Inductive store_op := Use (claims : ApprovalTokenClaims) | Revoke (id : string).

(** The store after [op], and the token it granted a use of. *)
Definition apply_op (store : ApprovalTokenStore) (op : store_op) : ApprovalTokenStore * list string :=
  match op with
  | Use claims =>
      let '(store', r) := check_and_record_use store claims in
      (store', if is_ok r then [token_id claims] else [])
  | Revoke id => (revoke store id, [])
  end.

(** The store after [ops] and the uses granted on the way. *)
Definition run_ops (ops : list store_op) : ApprovalTokenStore * list string :=
  foldl (fun st op => let '(store', granted) := apply_op st.1 op in (store', st.2 ++ granted)) (new_store, []) ops.

Definition granted (id : string) (ops : list store_op) : N :=
  N.of_nat (length (filter (fun t => t = id) (run_ops ops).2)).

(** [id] was revoked by one of [ops]. *)
Definition was_revoked (id : string) (ops : list store_op) : bool :=
  existsb (fun op => match op with Revoke t => bool_decide (t = id) | Use _ => false end) ops.

(** The ledger counts the grants and remembers the revocations. *)
Definition store_repr (ops : list store_op) (store : ApprovalTokenStore) : Prop :=
  poisoned store = false /\
  forall id, use_count (usage store id) = granted id ops /\
             revoked (usage store id) = was_revoked id ops.

Lemma usage_set id r store id' : usage (set_usage id r store) id' = if decide (id' = id) then r else usage store id'.
Proof.
  unfold usage, set_usage. cbn. case_decide as Hid; [subst; by rewrite lookup_insert_eq|by rewrite lookup_insert_ne].
Qed.

Lemma run_ops_snoc ops op :
  run_ops (ops ++ [op]) =
  ((apply_op (run_ops ops).1 op).1, (run_ops ops).2 ++ (apply_op (run_ops ops).1 op).2).
Proof. unfold run_ops. rewrite foldl_app. cbn. by destruct (apply_op _ op). Qed.

Lemma granted_snoc id ops op :
  granted id (ops ++ [op]) =
  (granted id ops + N.of_nat (length (filter (fun t => t = id) (apply_op (run_ops ops).1 op).2)))%N.
Proof. unfold granted. rewrite run_ops_snoc. cbn [snd]. rewrite filter_app, length_app. lia. Qed.

Lemma was_revoked_snoc id ops op :
  was_revoked id (ops ++ [op]) =
  was_revoked id ops || match op with Revoke t => bool_decide (t = id) | Use _ => false end.
Proof. unfold was_revoked. rewrite existsb_app. cbn. by rewrite orb_false_r. Qed.

Lemma store_repr_run ops : store_repr ops (run_ops ops).1.
Proof.
  induction ops as [|op ops [Hp IH]] using rev_ind; [done|].
  split; [|intros id; rewrite granted_snoc, was_revoked_snoc; destruct (IH id) as [Hc Hr]];
    rewrite run_ops_snoc; cbn [fst]; destruct op as [claims|t];
    unfold apply_op, check_and_record_use, revoke; rewrite Hp.
  - destruct (revoked _); [|destruct (_ <=? _)%N]; exact Hp.
  - done.
  - rewrite orb_false_r, <- Hc, <- Hr.
    destruct (revoked (usage (run_ops ops).1 (token_id claims))) eqn:Hrev; [|destruct (max_use_count claims <=? _)%N];
      cbn [fst snd is_ok]; rewrite usage_set, ?filter_cons, filter_nil;
      (destruct (decide (id = token_id claims)) as [->|Hid];
        [rewrite ?decide_True by done|rewrite ?decide_False by congruence]); cbn; by rewrite ?N.add_0_r.
  - cbn [fst snd]. rewrite usage_set. case_decide as Hid; subst; cbn.
    + rewrite bool_decide_eq_true_2, orb_true_r by done. split; [|done]. by rewrite Hc, N.add_0_r.
    + rewrite bool_decide_eq_false_2, orb_false_r by congruence. by rewrite N.add_0_r.
Qed.

(** What the ledger answers. *)
Lemma check_and_record_use_result ops claims :
  (check_and_record_use (run_ops ops).1 claims).2 =
  if was_revoked (token_id claims) ops
  then Err (token_error Revoked "token has been revoked")
  else if (max_use_count claims <=? granted (token_id claims) ops)%N
  then Err (token_error UseCountExhausted "token has reached its maximum use count")
  else Ok tt.
Proof.
  destruct (store_repr_run ops) as [Hp Hu]. destruct (Hu (token_id claims)) as [Hc Hr].
  unfold check_and_record_use. rewrite Hp, Hr, Hc. by repeat case_match.
Qed.

Lemma granted_bound id ops m :
  (forall claims, Use claims ∈ ops -> token_id claims = id -> (max_use_count claims <= m)%N) -> (granted id ops <= m)%N.
Proof.
  induction ops as [|op ops IH] using rev_ind; intros Hm; [unfold granted; cbn; lia|].
  assert (Hops : (granted id ops <= m)%N) by (apply IH; intros; apply Hm; set_solver). rewrite granted_snoc.
  destruct op as [claims|t]; [|cbn; lia]. unfold apply_op.
  pose proof (check_and_record_use_result ops claims) as Hr. destruct (check_and_record_use _ claims) as [store r].
  cbn [fst snd] in *. destruct r as [[]|e]; cbn [is_ok]; [|cbn; lia].
  destruct (was_revoked _ _); [done|]. destruct (N.leb_spec (max_use_count claims) (granted (token_id claims) ops)); [done|].
  rewrite filter_cons, filter_nil. case_decide as Hid; cbn; [|lia]. subst.
  assert (max_use_count claims <= m)%N by (apply Hm; [set_solver|done]). lia.
Qed.

(** C24: after any sequence of uses and revocations of tokens, a use is granted
    exactly when the token has not been revoked and fewer uses of it have been
    granted than its claims allow; the error says which of the two failed.  The uses
    ever granted of a token never exceed the largest count any of its presented
    claims allows. *)
Theorem token_uses_exact ops claims :
  (check_and_record_use (run_ops ops).1 claims).2 =
    (if was_revoked (token_id claims) ops
     then Err (token_error Revoked "token has been revoked")
     else if (max_use_count claims <=? granted (token_id claims) ops)%N
     then Err (token_error UseCountExhausted "token has reached its maximum use count")
     else Ok tt) /\
  (forall m, (forall c, Use c ∈ ops -> token_id c = token_id claims -> (max_use_count c <= m)%N) ->
    (granted (token_id claims) ops <= m)%N).
Proof. split; [apply check_and_record_use_result|apply granted_bound]. Qed.

(** ** A sample issuer *)

Definition sample_claims : ApprovalTokenClaims := {|
  token_id := "tok-1"; issuer := "approvals"; key_id := "k1"; audience := "traverse"; principal := "alice";
  workspace_id := "ws"; proposal_digest := "sha256:p"; snapshot_digest := "sha256:s";
  permitted_effects := [PureRead; StateWrite]; permitted_connectors := ["mail"]; max_use_count := 1; expiry_unix := 2000 |}.

(** A codec that knows the two documents of the token. *)
Definition sample_serde : SerdeJson := {|
  parse_syntax bytes :=
    if decide (bytes = ["h"%char]) then Ok (token_header "k1")
    else if decide (bytes = ["p"%char]) then Ok (token_payload sample_claims) else Err "unexpected";
  to_vec v := match get "alg" v with Some _ => ["h"%char] | None => ["p"%char] end |}.

(** A scheme with one key, whose signatures are 64 bytes of ["s"]. *)
Definition sample_ed25519 : Ed25519 := {|
  VerifyingKey := unit;
  verify_signature _ _ signature := bool_decide (signature = replicate 64 "s"%char) |}.

Definition sample_context : @ApprovalTokenVerificationContext sample_ed25519 :=
  @Build_ApprovalTokenVerificationContext sample_ed25519 "approvals" "traverse" "ws" "sha256:p" "sha256:s" {["k1" := tt]}.

Lemma issued_token_verifies_witness :
  @verify_approval_token sample_serde sample_ed25519 sample_context 1000
    (@issue sample_serde (fun _ => replicate 64 "s"%char) sample_claims) = Ok sample_claims.
Proof.
  apply (@issued_token_verifies sample_serde sample_ed25519 sample_context 1000 (fun _ => replicate 64 "s"%char) tt).
  - split; [repeat constructor; vm_compute; reflexivity|split; vm_compute; discriminate].
  - repeat split.
  - vm_compute. reflexivity.
  - intros msg. split; vm_compute; reflexivity.
  - vm_compute. reflexivity.
  - vm_compute. reflexivity.
Defined.
