(* ===== verification/Quota.v ===== *)
(** * Concurrency quotas

    [QuotaTracker] of [crates/traverse-runtime/src/proposal.rs].  A reservation
    takes one slot in each of three ledgers, each behind its own lock, and gives back
    what it took when a later ledger is full; dropping it releases the three.  The
    locks are taken one after the other, so concurrent callers interleave between
    ledgers: [step] is one acquisition by one thread. *)
From S2P Require Import Prelude.

(** ** The ledgers *)

Record QuotaLimits := {
  max_concurrent_per_principal : N;
  max_concurrent_per_app : N;
  max_concurrent_per_workspace : N }.

Definition default_quota_limits : QuotaLimits := {|
  max_concurrent_per_principal := 4; max_concurrent_per_app := 16; max_concurrent_per_workspace := 32 |}.

Record QuotaDenial := { scope : string; message : string }.

(** [Mutex<HashMap<String, u32>>] *)
Record Slots := { counts : gmap string N; poisoned : bool }.

Record QuotaTracker := {
  principal_slots : Slots;
  app_slots : Slots;
  workspace_slots : Slots }.

Definition new_slots : Slots := {| counts := ∅; poisoned := false |}.

Definition new_tracker : QuotaTracker := {|
  principal_slots := new_slots; app_slots := new_slots; workspace_slots := new_slots |}.

Definition set_count (key : string) (n : N) (slots : Slots) : Slots :=
  {| counts := <[key := n]> (counts slots); poisoned := poisoned slots |}.

Definition slot (slots : Slots) (key : string) : N := default 0%N (counts slots !! key).

Definition reserve_dimension (slots : Slots) (key : string) (limit : N) (scope : string)
    : Slots * Result QuotaDenial unit :=
  if poisoned slots then
    (slots, Err {| scope := "store"; message := "quota tracker is unavailable; failing closed" |})
  else
    let count := slot slots key in
    if (limit <=? count)%N then
      (set_count key count slots,
       Err {| scope := scope;
              message := scope +:+ " '" +:+ key +:+ "' is at its concurrency limit of " +:+ u64_to_string limit |})
    else (set_count key (count + 1) slots, Ok tt).

Definition release_dimension (slots : Slots) (key : string) : Slots :=
  if poisoned slots then slots
  else match counts slots !! key with
       | Some count => set_count key (saturating_sub count 1) slots
       | None => slots
       end.

(** ** Dimensions *)

Inductive dimension := Principal | App | Workspace.

#[export] Instance dimension_eq_dec : EqDecision dimension.
Proof. solve_decision. Defined.

Definition ledger (t : QuotaTracker) (d : dimension) : Slots :=
  match d with Principal => principal_slots t | App => app_slots t | Workspace => workspace_slots t end.

Definition set_ledger (d : dimension) (s : Slots) (t : QuotaTracker) : QuotaTracker := {|
  principal_slots := if decide (d = Principal) then s else principal_slots t;
  app_slots := if decide (d = App) then s else app_slots t;
  workspace_slots := if decide (d = Workspace) then s else workspace_slots t |}.

(** The arguments of a call of [reserve]. *)
Record ReserveCall := {
  principal : string;
  app_id : string;
  workspace_id : string;
  limits : QuotaLimits }.

Definition key_of (c : ReserveCall) (d : dimension) : string :=
  match d with Principal => principal c | App => app_id c | Workspace => workspace_id c end.

Definition limit_of (c : ReserveCall) (d : dimension) : N :=
  match d with
  | Principal => max_concurrent_per_principal (limits c)
  | App => max_concurrent_per_app (limits c)
  | Workspace => max_concurrent_per_workspace (limits c)
  end.

Definition scope_of (d : dimension) : string :=
  match d with Principal => "principal" | App => "app" | Workspace => "workspace" end.

Definition reserve_at (c : ReserveCall) (d : dimension) (t : QuotaTracker)
    : QuotaTracker * Result QuotaDenial unit :=
  let '(s, r) := reserve_dimension (ledger t d) (key_of c d) (limit_of c d) (scope_of d) in
  (set_ledger d s t, r).

Definition release_at (c : ReserveCall) (d : dimension) (t : QuotaTracker) : QuotaTracker :=
  set_ledger d (release_dimension (ledger t d) (key_of c d)) t.

(** ** One caller *)

Definition reserve (t : QuotaTracker) (c : ReserveCall) : QuotaTracker * Result QuotaDenial unit :=
  match reserve_at c Principal t with
  | (t, Err denial) => (t, Err denial)
  | (t, Ok _) =>
      match reserve_at c App t with
      | (t, Err denial) => (release_at c Principal t, Err denial)
      | (t, Ok _) =>
          match reserve_at c Workspace t with
          | (t, Err denial) => (release_at c App (release_at c Principal t), Err denial)
          | (t, Ok _) => (t, Ok tt)
          end
      end
  end.

(** [Drop for QuotaReservation] *)
Definition release (t : QuotaTracker) (c : ReserveCall) : QuotaTracker :=
  release_at c Workspace (release_at c App (release_at c Principal t)).

(** ** Concurrent callers *)

(** Where a caller is: between two acquisitions of a lock.  [Holding] has the
    reservation, [Undo]s are the ledgers left to give back after a denial, [Drop]s
    those left to release when the reservation is dropped. *)
Inductive Pc :=
  | ReservePrincipal
  | ReserveApp
  | ReserveWorkspace
  | Holding
  | Undo (ledgers : list dimension) (denial : QuotaDenial)
  | Drop (ledgers : list dimension)
  | Finished (result : Result QuotaDenial unit).

Record Thread := { call : ReserveCall; pc : Pc }.

Definition at_pc (th : Thread) (p : Pc) : Thread := {| call := call th; pc := p |}.

(** The next acquisition of a caller; [None] when it has returned. *)
Definition step_thread (t : QuotaTracker) (th : Thread) : option (QuotaTracker * Thread) :=
  let c := call th in
  match pc th with
  | ReservePrincipal =>
      let '(t, r) := reserve_at c Principal t in
      Some (t, at_pc th match r with Ok _ => ReserveApp | Err e => Finished (Err e) end)
  | ReserveApp =>
      let '(t, r) := reserve_at c App t in
      Some (t, at_pc th match r with Ok _ => ReserveWorkspace | Err e => Undo [Principal] e end)
  | ReserveWorkspace =>
      let '(t, r) := reserve_at c Workspace t in
      Some (t, at_pc th match r with Ok _ => Holding | Err e => Undo [Principal; App] e end)
  | Holding => Some (t, at_pc th (Drop [Principal; App; Workspace]))
  | Undo (d :: ds) e =>
      Some (release_at c d t, at_pc th match ds with [] => Finished (Err e) | _ => Undo ds e end)
  | Drop (d :: ds) =>
      Some (release_at c d t, at_pc th match ds with [] => Finished (Ok tt) | _ => Drop ds end)
  | Undo [] _ | Drop [] | Finished _ => None
  end.

Record System := { tracker : QuotaTracker; threads : list Thread }.

(** Any thread takes the next lock. *)
Inductive step : System -> System -> Prop :=
  | StepThread s i th t th' :
      threads s !! i = Some th ->
      step_thread (tracker s) th = Some (t, th') ->
      step s {| tracker := t; threads := <[i := th']> (threads s) |}.

Definition start (calls : list ReserveCall) : System := {|
  tracker := new_tracker; threads := (fun c => {| call := c; pc := ReservePrincipal |}) <$> calls |}.

Definition reachable (calls : list ReserveCall) (s : System) : Prop := rtc step (start calls) s.

(** ** Slots *)

Lemma slot_set key n slots k : slot (set_count key n slots) k = if decide (k = key) then n else slot slots k.
Proof.
  unfold slot, set_count. cbn. case_decide; [subst; by rewrite lookup_insert_eq|by rewrite lookup_insert_ne].
Qed.

Definition b2N (b : bool) : N := if b then 1 else 0.

Lemma reserve_dimension_slot slots key limit scope k :
  slot (reserve_dimension slots key limit scope).1 k =
  (slot slots k + b2N (is_ok (reserve_dimension slots key limit scope).2 && bool_decide (k = key)))%N.
Proof.
  unfold reserve_dimension. destruct (poisoned slots); [cbn; lia|]. cbv zeta.
  destruct (limit <=? slot slots key)%N; cbn [fst snd is_ok andb]; rewrite slot_set;
    destruct (decide (k = key)) as [->|Hk]; rewrite ?(bool_decide_eq_true_2 (key = key)), ?(bool_decide_eq_false_2 (k = key)) by done;
    cbn [b2N]; lia.
Qed.

Lemma reserve_dimension_limit slots key limit scope :
  is_ok (reserve_dimension slots key limit scope).2 = true -> (slot slots key < limit)%N.
Proof.
  unfold reserve_dimension. destruct (poisoned slots); [done|]. cbv zeta.
  by destruct (N.leb_spec limit (slot slots key)).
Qed.

Lemma release_dimension_slot slots key k :
  poisoned slots = false ->
  slot (release_dimension slots key) k = (slot slots k - b2N (bool_decide (k = key)))%N.
Proof.
  intros Hp. unfold release_dimension. rewrite Hp. destruct (counts slots !! key) as [n|] eqn:E.
  - rewrite slot_set. unfold saturating_sub. case_decide as Hk; [subst; rewrite bool_decide_eq_true_2 by done|
      rewrite bool_decide_eq_false_2 by done]; cbn; [unfold slot; rewrite E; cbn; lia|lia].
  - case_bool_decide; cbn; [|lia]. subst. unfold slot. rewrite E. cbn. lia.
Qed.

Lemma ledger_set d s t d' : ledger (set_ledger d s t) d' = if decide (d' = d) then s else ledger t d'.
Proof. by destruct d, d'. Qed.

(** * The quota of concurrent proposals

    In every interleaving the ledgers count the callers that hold a slot, no limit is
    exceeded, every caller returns, and when all have returned nothing is left
    reserved. *)
(** ** What a caller holds *)

Definition holds (p : Pc) (d : dimension) : bool :=
  match p with
  | ReservePrincipal | Finished _ => false
  | ReserveApp => bool_decide (d = Principal)
  | ReserveWorkspace => bool_decide (d <> Workspace)
  | Holding => true
  | Undo ds _ | Drop ds => bool_decide (d ∈ ds)
  end.

Definition pc_ok (p : Pc) : Prop :=
  match p with Undo ds _ | Drop ds => ds <> [] /\ NoDup ds | _ => True end.

Definition contribution (d : dimension) (k : string) (th : Thread) : N :=
  b2N (holds (pc th) d && bool_decide (k = key_of (call th) d)).

(** The callers of a list that hold a slot of [k]. *)
Fixpoint held (d : dimension) (k : string) (ths : list Thread) : N :=
  match ths with [] => 0 | th :: rest => (contribution d k th + held d k rest)%N end.

Lemma held_lookup d k ths i th : ths !! i = Some th -> (contribution d k th <= held d k ths)%N.
Proof. revert i. induction ths as [|x ths IH]; intros [|i]; cbn -[contribution]; [done|done|intros [= ->]; lia|intros ?%IH; lia]. Qed.

Lemma held_insert d k ths i th th' :
  ths !! i = Some th ->
  (held d k (<[i := th']> ths) + contribution d k th = held d k ths + contribution d k th')%N.
Proof.
  revert i. induction ths as [|x ths IH]; intros [|i]; try done; cbn [lookup list_lookup].
  - intros [= ->]. change (<[0 := th']> (th :: ths)) with (th' :: ths). cbn [held]. lia.
  - intros Hi%IH. change (<[S i := th']> (x :: ths)) with (x :: <[i := th']> ths). cbn [held]. lia.
Qed.

(** ** One step *)

Definition unpoisoned (t : QuotaTracker) : Prop := forall d, poisoned (ledger t d) = false.

Lemma unpoisoned_set d s t : unpoisoned t -> poisoned s = false -> unpoisoned (set_ledger d s t).
Proof. intros Ht Hs d'. rewrite ledger_set. by case_decide. Qed.

Lemma release_dimension_unpoisoned s k : poisoned (release_dimension s k) = poisoned s.
Proof. unfold release_dimension. by repeat case_match. Qed.

Lemma reserve_dimension_unpoisoned s k limit scope : poisoned (reserve_dimension s k limit scope).1 = poisoned s.
Proof. unfold reserve_dimension. by repeat case_match. Qed.

Lemma reserve_at_spec c d t t' r :
  reserve_at c d t = (t', r) -> unpoisoned t ->
  unpoisoned t' /\
  (forall d' k, slot (ledger t' d') k =
     (slot (ledger t d') k + b2N (is_ok r && bool_decide (d' = d) && bool_decide (k = key_of c d)))%N) /\
  (is_ok r = true -> (slot (ledger t d) (key_of c d) < limit_of c d)%N).
Proof.
  unfold reserve_at. destruct (reserve_dimension _ _ _ _) as [s r'] eqn:E. intros [= <- <-] Hp.
  assert (Hs : s = (reserve_dimension (ledger t d) (key_of c d) (limit_of c d) (scope_of d)).1) by by rewrite E.
  assert (Hr : r' = (reserve_dimension (ledger t d) (key_of c d) (limit_of c d) (scope_of d)).2) by by rewrite E.
  split_and!.
  - apply unpoisoned_set; [done|]. by rewrite Hs, reserve_dimension_unpoisoned.
  - intros d' k. rewrite ledger_set. destruct (decide (d' = d)) as [->|Hd].
    + rewrite (bool_decide_eq_true_2 (d = d)), andb_true_r by done. rewrite Hs, Hr. apply reserve_dimension_slot.
    + rewrite (bool_decide_eq_false_2 (d' = d)), andb_false_r by done. cbn. lia.
  - rewrite Hr. apply reserve_dimension_limit.
Qed.

Lemma release_at_spec c d t :
  unpoisoned t ->
  unpoisoned (release_at c d t) /\
  forall d' k, slot (ledger (release_at c d t) d') k =
    (slot (ledger t d') k - b2N (bool_decide (d' = d) && bool_decide (k = key_of c d)))%N.
Proof.
  intros Hp. unfold release_at. split.
  - apply unpoisoned_set; [done|]. by rewrite release_dimension_unpoisoned.
  - intros d' k. rewrite ledger_set. destruct (decide (d' = d)) as [->|Hd].
    + rewrite (bool_decide_eq_true_2 (d = d)) by done. by apply release_dimension_slot.
    + rewrite (bool_decide_eq_false_2 (d' = d)) by done. cbn. lia.
Qed.

(** A step keeps the balance between the ledgers and what its thread holds. *)
Definition balanced (t t' : QuotaTracker) (th th' : Thread) : Prop :=
  forall d k, (contribution d k th <= slot (ledger t d) k)%N ->
    (slot (ledger t' d) k + contribution d k th = slot (ledger t d) k + contribution d k th')%N.

(** Reserving ledger [d]. *)
Lemma reserve_balanced d t t' r th p :
  reserve_at (call th) d t = (t', r) -> unpoisoned t ->
  (forall d', holds p d' = holds (pc th) d' || (is_ok r && bool_decide (d' = d))) -> holds (pc th) d = false ->
  balanced t t' th (at_pc th p).
Proof.
  intros E Hp Hholds Hnot d' k _. destruct (reserve_at_spec _ _ _ _ _ E Hp) as (_ & Hslot & _).
  rewrite Hslot. unfold contribution. cbn [pc call at_pc]. rewrite Hholds.
  destruct (decide (d' = d)) as [->|Hd].
  - rewrite Hnot. rewrite !(bool_decide_eq_true_2 (d = d)), !andb_true_r by done. cbn. lia.
  - rewrite !(bool_decide_eq_false_2 (d' = d)), !andb_false_r, orb_false_r by done. cbn. lia.
Qed.

(** Giving back ledger [d]. *)
Lemma release_balanced d t th p :
  unpoisoned t -> (forall d', holds (pc th) d' = holds p d' || bool_decide (d' = d)) -> holds p d = false ->
  balanced t (release_at (call th) d t) th (at_pc th p).
Proof.
  intros Hp Hholds Hnot d' k Hle. destruct (release_at_spec (call th) d t Hp) as (_ & Hslot).
  rewrite Hslot. unfold contribution in *. cbn [pc call at_pc] in *. rewrite Hholds in *.
  destruct (decide (d' = d)) as [->|Hd].
  - rewrite Hnot in *. rewrite !(bool_decide_eq_true_2 (d = d)) in * by done. cbn in *. lia.
  - rewrite !(bool_decide_eq_false_2 (d' = d)) in * by done. rewrite orb_false_r in *. cbn in *. lia.
Qed.

(** The cases of [step_thread_spec] that take, and that give back, a slot. *)
Ltac reserve_case Hstep Hp Epc :=
  let t1 := fresh "t" in let r := fresh "r" in let E := fresh "E" in let Hp1 := fresh "Hp" in
  destruct (reserve_at _ _ _) as [t1 r] eqn:E; injection Hstep as <- <-;
  destruct (reserve_at_spec _ _ _ _ _ E Hp) as (Hp1 & _);
  split_and!;
    [eapply reserve_balanced; [exact E|done|intros []; rewrite Epc; by destruct r|by rewrite Epc]
    |done|destruct r; cbn; [done|]; first [done|split; [done|by apply (bool_decide_unpack _)]]|done].

Ltac release_case Hstep Hp Hok Epc :=
  injection Hstep as <- <-;
  match goal with |- context [release_at ?c ?d ?t] => destruct (release_at_spec c d t Hp) as (? & _) end;
  destruct Hok as [_ [? ?]%NoDup_cons];
  split_and!;
    [apply release_balanced;
       [done
       |intros d'; rewrite Epc; cbn [holds];
        rewrite (bool_decide_ext _ _ (elem_of_cons _ d' _)), bool_decide_or, orb_comm; by case_match
       |case_match; [done|]; by apply bool_decide_eq_false]
    |done|by case_match|done].

Lemma step_thread_spec t th t' th' :
  step_thread t th = Some (t', th') -> unpoisoned t -> pc_ok (pc th) ->
  balanced t t' th th' /\ unpoisoned t' /\ pc_ok (pc th') /\ call th' = call th.
Proof.
  unfold step_thread. intros Hstep Hp Hok. destruct (pc th) as [| | | |[|d ds] e|[|d ds]|r] eqn:Epc; try done.
  - reserve_case Hstep Hp Epc.
  - reserve_case Hstep Hp Epc.
  - reserve_case Hstep Hp Epc.
  - injection Hstep as <- <-. split_and!; [|done|split; [done|by apply (bool_decide_unpack _)]|done].
    intros d k _. unfold contribution. cbn [pc call at_pc]. rewrite Epc. by destruct d.
  - release_case Hstep Hp Hok Epc.
  - release_case Hstep Hp Hok Epc.
Qed.

(** ** The invariant *)

Record system_ok (calls : list ReserveCall) (s : System) : Prop := {
  sys_unpoisoned : unpoisoned (tracker s);
  sys_counts : forall d k, slot (ledger (tracker s) d) k = held d k (threads s);
  sys_pcs : Forall (fun th => pc_ok (pc th)) (threads s);
  sys_calls : call <$> threads s = calls }.

Lemma held_fresh d k calls : held d k (threads (start calls)) = 0%N.
Proof. unfold start. cbn [threads]. induction calls as [|c calls IH]; [done|]. rewrite fmap_cons. cbn [held]. by rewrite IH. Qed.

Lemma start_ok calls : system_ok calls (start calls).
Proof.
  split; [by intros []|intros d k; rewrite held_fresh; by destruct d| |].
  - apply Forall_fmap, Forall_true. done.
  - unfold start. cbn. rewrite <- list_fmap_compose. apply list_fmap_id.
Qed.

Lemma step_ok calls s s' : system_ok calls s -> step s s' -> system_ok calls s'.
Proof.
  intros [Hp Hcounts Hpcs Hcalls] Hstep. destruct Hstep as [s i th t th' Hi Hth].
  assert (Hok : pc_ok (pc th)) by (rewrite Forall_lookup in Hpcs; eauto).
  destruct (step_thread_spec _ _ _ _ Hth Hp Hok) as (Hb & Hp' & Hok' & Hcall). split; cbn [tracker threads].
  - done.
  - intros d k. pose proof (held_lookup d k _ _ _ Hi). pose proof (held_insert d k _ _ _ th' Hi).
    specialize (Hb d k). rewrite Hcounts in Hb. lia.
  - by apply Forall_insert.
  - rewrite list_fmap_insert, Hcall. rewrite list_insert_id; [done|]. by rewrite list_lookup_fmap, Hi.
Qed.

Lemma reachable_ok calls s : reachable calls s -> system_ok calls s.
Proof. intros Hr. pattern s. eapply rtc_ind_r; [apply start_ok| |exact Hr]. intros; by eapply step_ok. Qed.

(** ** Limits *)

Definition within_limits (calls : list ReserveCall) (t : QuotaTracker) : Prop :=
  forall d k m, (forall c, c ∈ calls -> key_of c d = k -> (limit_of c d <= m)%N) -> (slot (ledger t d) k <= m)%N.

Lemma reserve_within calls c d t t' r :
  c ∈ calls -> unpoisoned t -> within_limits calls t -> reserve_at c d t = (t', r) -> within_limits calls t'.
Proof.
  intros Hc Hp Hw E d' k m Hm. destruct (reserve_at_spec _ _ _ _ _ E Hp) as (_ & Hslot & Hlimit).
  rewrite Hslot. specialize (Hw d' k m Hm). destruct (is_ok r); [|cbn; lia]. specialize (Hlimit eq_refl).
  repeat case_bool_decide; subst; cbn; try lia. specialize (Hm c Hc eq_refl). lia.
Qed.

Lemma release_within calls c d t : unpoisoned t -> within_limits calls t -> within_limits calls (release_at c d t).
Proof.
  intros Hp Hw d' k m Hm. destruct (release_at_spec c d t Hp) as (_ & Hslot). rewrite Hslot.
  specialize (Hw d' k m Hm). lia.
Qed.

Lemma step_within calls s s' :
  system_ok calls s -> within_limits calls (tracker s) -> step s s' -> within_limits calls (tracker s').
Proof.
  intros [Hp _ _ Hcalls] Hw Hstep. destruct Hstep as [s i th t th' Hi Hth]. cbn [tracker].
  assert (Hc : call th ∈ calls) by (rewrite <- Hcalls; apply list_elem_of_fmap; eauto using list_elem_of_lookup_2).
  unfold step_thread in Hth.
  destruct (pc th) as [| | | |[|d ds] e|[|d ds]|r]; try done;
    try (destruct (reserve_at _ _ _) as [t1 r] eqn:E); injection Hth as <- <-;
    eauto using reserve_within, release_within.
Qed.

Lemma start_within calls : within_limits calls (tracker (start calls)).
Proof. intros [] k m _; apply N.le_0_l. Qed.

Lemma reachable_within calls s : reachable calls s -> within_limits calls (tracker s).
Proof.
  intros Hr. assert (Hboth : system_ok calls s /\ within_limits calls (tracker s)); [|tauto].
  pattern s. eapply rtc_ind_r; [split; [apply start_ok|apply start_within]| |exact Hr].
  intros x y _ Hxy [Hok Hw]. eauto using step_ok, step_within.
Qed.

(** The callers that have a reservation. *)
Definition has_reservation (d : dimension) (k : string) (th : Thread) : bool :=
  match pc th with Holding => bool_decide (key_of (call th) d = k) | _ => false end.

Definition holders (d : dimension) (k : string) (ths : list Thread) : N :=
  N.of_nat (length (List.filter (has_reservation d k) ths)).

Lemma holders_held d k ths : (holders d k ths <= held d k ths)%N.
Proof.
  unfold holders. induction ths as [|th ths IH]; [done|]. cbn [held List.filter].
  destruct (has_reservation d k th) eqn:Hth; [|lia]. unfold has_reservation in Hth. cbn [length].
  unfold contribution at 1. destruct (pc th); try done. apply bool_decide_eq_true in Hth.
  rewrite Hth, bool_decide_eq_true_2 by done. cbn. lia.
Qed.

(** C25: in every interleaving of any set of callers, each ledger counts exactly the
    callers that have taken a slot of it and not yet given it back, and neither that
    count nor the number of live reservations of a principal, application or
    workspace exceeds the largest limit its callers passed. *)
Theorem quota_never_exceeded calls s d k m :
  reachable calls s ->
  (forall c, c ∈ calls -> key_of c d = k -> (limit_of c d <= m)%N) ->
  slot (ledger (tracker s) d) k = held d k (threads s) /\
  (holders d k (threads s) <= slot (ledger (tracker s) d) k)%N /\
  (slot (ledger (tracker s) d) k <= m)%N.
Proof.
  intros Hr Hm. destruct (reachable_ok _ _ Hr) as [_ Hcounts _ _].
  split_and!; [done|rewrite Hcounts; apply holders_held|by apply (reachable_within _ _ Hr)].
Qed.

(** ** Progress *)

(** The acquisitions a caller still makes, at most. *)
Definition remaining (p : Pc) : nat :=
  match p with
  | ReservePrincipal => 7
  | ReserveApp => 6
  | ReserveWorkspace => 5
  | Holding => 4
  | Undo ds _ | Drop ds => length ds
  | Finished _ => 0
  end.

Fixpoint work (ths : list Thread) : nat :=
  match ths with [] => 0 | th :: rest => remaining (pc th) + work rest end.

Lemma step_thread_remaining t th t' th' : step_thread t th = Some (t', th') -> remaining (pc th') < remaining (pc th).
Proof.
  unfold step_thread. destruct (pc th) as [| | | |[|d [|d' ds]] e|[|d [|d' ds]]|r]; try done;
    try destruct (reserve_at _ _ _) as [t1 r]; intros [= <- <-]; cbn; try destruct r; cbn; lia.
Qed.

Lemma work_insert ths i th th' :
  ths !! i = Some th -> remaining (pc th') < remaining (pc th) -> work (<[i := th']> ths) < work ths.
Proof.
  revert i. induction ths as [|x ths IH]; intros [|i] Hi Hlt; try done; cbn [lookup list_lookup] in Hi.
  - injection Hi as ->. change (<[0 := th']> (th :: ths)) with (th' :: ths). cbn [work]. lia.
  - change (<[S i := th']> (x :: ths)) with (x :: <[i := th']> ths). cbn [work]. specialize (IH i Hi Hlt). lia.
Qed.

Lemma step_work s s' : step s s' -> work (threads s') < work (threads s).
Proof. intros [s0 i th t th' Hi Hth]. cbn [threads]. eapply work_insert; [done|]. by eapply step_thread_remaining. Qed.

Lemma nsteps_work n s s' : nsteps step n s s' -> n + work (threads s') <= work (threads s).
Proof. induction 1 as [|n x y z Hxy Hyz IH]; [lia|]. apply step_work in Hxy. lia. Qed.

Lemma work_start calls : work (threads (start calls)) = 7 * length calls.
Proof. unfold start. cbn [threads]. induction calls as [|c calls IH]; [done|]. rewrite fmap_cons. cbn [work length pc remaining]. lia. Qed.

Definition is_finished (th : Thread) : Prop := exists r, pc th = Finished r.

(** A caller that has not returned can take its next lock. *)
Lemma step_thread_enabled t th : pc_ok (pc th) -> is_finished th \/ exists t' th', step_thread t th = Some (t', th').
Proof.
  unfold is_finished, step_thread. destruct (pc th) as [| | | |[|d ds] e|[|d ds]|r];
    try destruct (reserve_at _ _ _); try (by intros [? _]); eauto.
Qed.

#[local] Instance is_finished_dec th : Decision (is_finished th).
Proof. unfold is_finished. destruct (pc th) as [| | | |ds e|ds|r]; [right; by intros [? ?]..|left; eauto]. Defined.

Lemma system_progress calls s : system_ok calls s -> Forall is_finished (threads s) \/ exists s', step s s'.
Proof.
  intros [_ _ Hpcs _]. destruct (decide (Forall is_finished (threads s))) as [?|He]; [by left|right].
  apply not_Forall_Exists, Exists_exists in He as (th & [i Hi]%list_elem_of_lookup & Hnot); [|apply _].
  rewrite Forall_lookup in Hpcs. destruct (step_thread_enabled (tracker s) th (Hpcs i th Hi)) as [?|(t' & th' & E)]; [done|].
  eexists. by econstructor.
Qed.

Lemma held_finished d k ths : Forall is_finished ths -> held d k ths = 0%N.
Proof. induction 1 as [|th ths [r Hr] _ IH]; [done|]. cbn [held]. unfold contribution. by rewrite IH, Hr. Qed.

(** C26: every schedule of the callers ends: at most seven acquisitions per caller
    are made in all, as long as a caller has not returned some acquisition is
    possible, so every run extends to one in which all have returned, and then all
    three ledgers are back at zero for every key. *)
Theorem quota_runs_finish calls s :
  reachable calls s ->
  (forall n s', nsteps step n s s' -> n <= 7 * length calls) /\
  (exists s', rtc step s s' /\ Forall is_finished (threads s')) /\
  (Forall is_finished (threads s) -> forall d k, slot (ledger (tracker s) d) k = 0%N).
Proof.
  intros Hr. pose proof (reachable_ok _ _ Hr) as Hok.
  assert (Hwork : work (threads s) <= 7 * length calls).
  { apply rtc_nsteps in Hr as [n Hn]. apply nsteps_work in Hn. rewrite work_start in Hn. lia. }
  split_and!.
  - intros n s' Hn%nsteps_work. lia.
  - clear Hr Hwork. remember (work (threads s)) as w eqn:Hw. revert s Hok Hw.
    induction w as [w IH] using lt_wf_ind. intros s Hok Hw.
    destruct (system_progress _ _ Hok) as [Hf|[s1 H1]]; [by exists s; split|].
    destruct (IH (work (threads s1)) ltac:(subst; by apply step_work) s1 (step_ok _ _ _ Hok H1) eq_refl) as (s' & Hs' & Hf).
    exists s'. split; [by eapply rtc_l|done].
  - intros Hf d k. rewrite (sys_counts _ _ Hok). by apply held_finished.
Qed.

(** ** A call that is not interrupted *)

(** The first full ledger in the order of the reservations. *)
Definition first_full (t : QuotaTracker) (c : ReserveCall) : option dimension :=
  let full d := (limit_of c d <=? slot (ledger t d) (key_of c d))%N in
  if full Principal then Some Principal else if full App then Some App
  else if full Workspace then Some Workspace else None.

Lemma reserve_at_result c d t :
  unpoisoned t ->
  is_ok (reserve_at c d t).2 = negb (limit_of c d <=? slot (ledger t d) (key_of c d))%N /\
  forall e, (reserve_at c d t).2 = Err e -> scope e = scope_of d.
Proof.
  intros Hp. unfold reserve_at, reserve_dimension. rewrite Hp.
  destruct (_ <=? _)%N; cbn; split; try done. by intros e [= <-].
Qed.

Lemma ledger_other c d t t' r d' : reserve_at c d t = (t', r) -> d' <> d -> ledger t' d' = ledger t d'.
Proof.
  unfold reserve_at. destruct (reserve_dimension _ _ _ _). intros [= <- <-] Hd. rewrite ledger_set. by rewrite decide_False.
Qed.

(** Counts that differ by the slots of single ledgers. *)
Ltac count_slots :=
  match goal with |- context [ledger _ ?d] => destruct d end;
  repeat match goal with
  | |- context [bool_decide (?k = key_of ?c ?d)] => destruct (bool_decide (k = key_of c d))
  | |- context [bool_decide (@eq dimension ?a ?b)] =>
      let v := eval vm_compute in (bool_decide (@eq dimension a b)) in change (bool_decide (@eq dimension a b)) with v
  end; cbn; lia.

Lemma reserve_spec t c :
  unpoisoned t ->
  unpoisoned (reserve t c).1 /\
  (forall d k, slot (ledger (reserve t c).1 d) k =
    (slot (ledger t d) k + b2N (is_ok (reserve t c).2 && bool_decide (k = key_of c d)))%N) /\
  match first_full t c with
  | None => (reserve t c).2 = Ok tt
  | Some d => exists e, (reserve t c).2 = Err e /\ scope e = scope_of d
  end.
Proof.
  intros Hp. unfold reserve, first_full. destruct (reserve_at_result c Principal t Hp) as [Hok1 He1].
  destruct (reserve_at c Principal t) as [t1 r1] eqn:E1. destruct (reserve_at_spec _ _ _ _ _ E1 Hp) as (Hp1 & Hs1 & _).
  cbn [snd] in *. apply (f_equal negb) in Hok1. rewrite negb_involutive in Hok1. rewrite <- Hok1.
  destruct r1 as [[]|e1]; cbn [is_ok negb andb] in *; [|split_and!; [done|exact Hs1|eauto]].
  destruct (reserve_at_result c App t1 Hp1) as [Hok2 He2].
  rewrite (ledger_other _ _ _ _ _ App E1) in Hok2 by done.
  destruct (reserve_at c App t1) as [t2 r2] eqn:E2. destruct (reserve_at_spec _ _ _ _ _ E2 Hp1) as (Hp2 & Hs2 & _).
  cbn [snd] in *. apply (f_equal negb) in Hok2. rewrite negb_involutive in Hok2. rewrite <- Hok2.
  destruct r2 as [[]|e2]; cbn [is_ok negb andb] in *.
  2:{ destruct (release_at_spec c Principal t2 Hp2) as [Hp3 Hs3]. cbn [fst snd is_ok andb b2N]. split_and!; [done| |eauto].
      intros d k. rewrite Hs3, Hs2, Hs1. count_slots. }
  destruct (reserve_at_result c Workspace t2 Hp2) as [Hok3 He3].
  rewrite (ledger_other _ _ _ _ _ Workspace E2), (ledger_other _ _ _ _ _ Workspace E1) in Hok3 by done.
  destruct (reserve_at c Workspace t2) as [t3 r3] eqn:E3. destruct (reserve_at_spec _ _ _ _ _ E3 Hp2) as (Hp3 & Hs3 & _).
  cbn [snd] in *. apply (f_equal negb) in Hok3. rewrite negb_involutive in Hok3. rewrite <- Hok3.
  destruct r3 as [[]|e3]; cbn [is_ok negb andb fst snd] in *.
  - split_and!; [done| |done]. intros d k. rewrite Hs3, Hs2, Hs1. count_slots.
  - destruct (release_at_spec c Principal t3 Hp3) as [Hp4 Hs4]. destruct (release_at_spec c App _ Hp4) as [Hp5 Hs5].
    split_and!; [done| |eauto]. intros d k. rewrite Hs5, Hs4, Hs3, Hs2, Hs1. count_slots.
Qed.

Lemma release_spec t c :
  unpoisoned t -> unpoisoned (release t c) /\
  forall d k, slot (ledger (release t c) d) k = (slot (ledger t d) k - b2N (bool_decide (k = key_of c d)))%N.
Proof.
  intros Hp. unfold release. destruct (release_at_spec c Principal t Hp) as [Hp1 Hs1].
  destruct (release_at_spec c App _ Hp1) as [Hp2 Hs2]. destruct (release_at_spec c Workspace _ Hp2) as [Hp3 Hs3].
  split; [done|]. intros d k. rewrite Hs3, Hs2, Hs1. count_slots.
Qed.

(** A caller that no other interrupts runs [reserve]. *)
Lemma reserve_alone s i th t r :
  threads s !! i = Some th -> pc th = ReservePrincipal -> reserve (tracker s) (call th) = (t, r) ->
  rtc step s {| tracker := t;
    threads := <[i := at_pc th match r with Ok _ => Holding | Err e => Finished (Err e) end]> (threads s) |}.
Proof.
  intros Hi Hpc. unfold reserve.
  assert (Hlt : i < length (threads s)) by by eapply lookup_lt_Some.
  assert (Hone : forall t p t' p',
    step_thread t (at_pc th p) = Some (t', at_pc th p') ->
    step {| tracker := t; threads := <[i := at_pc th p]> (threads s) |} {| tracker := t'; threads := <[i := at_pc th p']> (threads s) |}).
  { intros t0 p t' p' Hs. rewrite <- (list_insert_insert_eq (threads s) i (at_pc th p') (at_pc th p)).
    apply (StepThread {| tracker := t0; threads := <[i := at_pc th p]> (threads s) |} i (at_pc th p));
      [by apply list_lookup_insert_eq|done]. }
  assert (Hstart : s = {| tracker := tracker s; threads := <[i := at_pc th ReservePrincipal]> (threads s) |}).
  { destruct s as [t0 ths]. cbn in *. f_equal. symmetry. apply list_insert_id. rewrite Hi. by destruct th; cbn in Hpc; subst. }
  destruct (reserve_at (call th) Principal (tracker s)) as [t1 r1] eqn:E1.
  assert (H1 := Hone (tracker s) ReservePrincipal t1 (match r1 with Ok _ => ReserveApp | Err e => Finished (Err e) end)).
  cbn [step_thread pc at_pc call] in H1. rewrite E1 in H1. specialize (H1 eq_refl). rewrite <- Hstart in H1.
  destruct r1 as [[]|e1]; [|intros [= <- <-]; by apply rtc_once].
  destruct (reserve_at (call th) App t1) as [t2 r2] eqn:E2.
  assert (H2 := Hone t1 ReserveApp t2 (match r2 with Ok _ => ReserveWorkspace | Err e => Undo [Principal] e end)).
  cbn [step_thread pc at_pc call] in H2. rewrite E2 in H2. specialize (H2 eq_refl).
  destruct r2 as [[]|e2]; [|intros [= <- <-]; eapply rtc_l, rtc_l, rtc_once; [exact H1|exact H2|by apply Hone]].
  destruct (reserve_at (call th) Workspace t2) as [t3 r3] eqn:E3.
  assert (H3 := Hone t2 ReserveWorkspace t3 (match r3 with Ok _ => Holding | Err e => Undo [Principal; App] e end)).
  cbn [step_thread pc at_pc call] in H3. rewrite E3 in H3. specialize (H3 eq_refl).
  destruct r3 as [[]|e3]; intros [= <- <-]; (eapply rtc_l; [exact H1|eapply rtc_l; [exact H2|eapply rtc_l; [exact H3|]]]); [done|].
  eapply rtc_l; [by apply Hone|]. apply rtc_once. by apply Hone.
Qed.

(** A reservation that is not interleaved with others succeeds exactly when no
    ledger is full for its key, and is otherwise denied in the name of the first full
    one; it takes one slot of each ledger when it succeeds and leaves every count as
    it was when it is denied; dropping it restores every count. *)
Theorem reserve_exact t c :
  unpoisoned t ->
  (forall d k, slot (ledger (reserve t c).1 d) k =
    (slot (ledger t d) k + b2N (is_ok (reserve t c).2 && bool_decide (k = key_of c d)))%N) /\
  match first_full t c with
  | None => (reserve t c).2 = Ok tt /\ forall d k, slot (ledger (release (reserve t c).1 c) d) k = slot (ledger t d) k
  | Some d => exists e, (reserve t c).2 = Err e /\ scope e = scope_of d
  end.
Proof.
  intros Hp. destruct (reserve_spec t c Hp) as (Hp1 & Hslot & Hr). split; [done|].
  destruct (first_full t c); [done|]. split; [done|]. intros d k.
  destruct (release_spec _ c Hp1) as [_ Hrel]. rewrite Hrel, Hslot, Hr. cbn. lia.
Qed.

(** ** Samples *)

Definition sample_call (p : string) : ReserveCall := {|
  principal := p; app_id := "app"; workspace_id := "ws";
  limits := {| max_concurrent_per_principal := 1; max_concurrent_per_app := 2; max_concurrent_per_workspace := 1 |} |}.

(** Run the threads of a schedule, one acquisition each. *)
Definition run_at (s : System) (i : nat) : System :=
  match threads s !! i with
  | Some th =>
      match step_thread (tracker s) th with
      | Some (t, th') => {| tracker := t; threads := <[i := th']> (threads s) |}
      | None => s
      end
  | None => s
  end.

Lemma run_at_steps s i : rtc step s (run_at s i).
Proof.
  unfold run_at. destruct (threads s !! i) as [th|] eqn:Hi; [|done].
  destruct (step_thread (tracker s) th) as [[t th']|] eqn:E; [|done]. apply rtc_once. by econstructor.
Qed.

Lemma run_schedule_steps schedule s : rtc step s (foldl run_at s schedule).
Proof. revert s. induction schedule as [|i l IH]; intros s; [done|]. cbn. etrans; [apply run_at_steps|apply IH]. Qed.

(** Both callers have passed the first two ledgers and one of them the third. *)
Definition sample_system : System :=
  foldl run_at (start [sample_call "alice"; sample_call "bob"]) [0; 1; 0; 1; 0].

Lemma sample_reachable : reachable [sample_call "alice"; sample_call "bob"] sample_system.
Proof. apply run_schedule_steps. Qed.

Lemma quota_never_exceeded_witness :
  slot (ledger (tracker sample_system) Workspace) "ws" = held Workspace "ws" (threads sample_system) /\
  (holders Workspace "ws" (threads sample_system) <= slot (ledger (tracker sample_system) Workspace) "ws")%N /\
  (slot (ledger (tracker sample_system) Workspace) "ws" <= 1)%N.
Proof.
  apply (quota_never_exceeded [sample_call "alice"; sample_call "bob"] sample_system Workspace "ws" 1 sample_reachable).
  intros c Hc _. apply elem_of_cons in Hc as [->|Hc%list_elem_of_singleton]; [|subst c]; vm_compute; discriminate.
Defined.

Lemma quota_runs_finish_witness :
  exists s', rtc step sample_system s' /\ Forall is_finished (threads s').
Proof. apply (quota_runs_finish [sample_call "alice"; sample_call "bob"] sample_system sample_reachable). Defined.

Lemma reserve_exact_witness : exists e, (reserve (tracker sample_system) (sample_call "carol")).2 = Err e /\ scope e = "app".
Proof.
  destruct (reserve_exact (tracker sample_system) (sample_call "carol")) as [_ H]; [by intros []|exact H].
Defined.
