(* ===== verification/Contract.v ===== *)
(** * Capability, event and connector contracts

    The contract types of [crates/traverse-contracts/src/lib.rs] and their
    validators.  A validator returns the errors it pushes, in order.  Version parsing
    is the third-party [semver] crate, the [Debug] text of a contract, of which the
    digest is taken, is what [derive(Debug)] prints: both are parameters. *)
From S2P Require Import Prelude Json Pointer Placement RuntimeInit Risk.
From Stdlib Require Import Ascii.

(** ** Data *)

Inductive Lifecycle := Draft | Active | Deprecated | Retired | Archived.

Definition is_runtime_eligible (l : Lifecycle) : bool :=
  match l with Active | Deprecated => true | _ => false end.

Record Owner := { team : string; contact : string }.
Record SchemaContainer := { schema : Value }.
Record Condition := { condition_id : string; condition_description : string }.

Inductive SideEffectKind := NoEffect | MemoryOnly | EventEmission | ExternalCall | StateChange.
Record SideEffect := { effect_kind : SideEffectKind; effect_description : string }.

Record IdReference := { reference_id : string }.

Inductive HostApiAccess := NoHostApi | ExceptionRequired.
Inductive NetworkAccess := NetworkForbidden | NetworkRequired.
Inductive FilesystemAccess := NoFilesystem | SandboxOnly.

Record ExecutionConstraints := {
  host_api_access : HostApiAccess;
  network_access : NetworkAccess;
  filesystem_access : FilesystemAccess }.

Record ExecutionResources := { min_memory_bytes : option N; max_fuel : option N }.

(** [binary_format] and [entrypoint.kind] have one value each. *)
Record Execution := {
  entrypoint_command : string;
  preferred_targets : list ExecutionTarget;
  constraints : ExecutionConstraints;
  resources : option ExecutionResources }.

Inductive DependencyArtifactType := CapabilityArtifact | EventArtifact | PolicyArtifact.

#[export] Instance artifact_type_eq_dec : EqDecision DependencyArtifactType.
Proof. solve_decision. Defined.

Record DependencyReference := {
  artifact_type : DependencyArtifactType;
  dependency_id : string;
  dependency_version : string }.

Inductive ProvenanceSource := Greenfield | BrownfieldExtracted | AiGenerated | AiAssisted.

Record Provenance := {
  provenance_source : ProvenanceSource;
  author : string;
  created_at : string;
  spec_ref : option string;
  adr_refs : list string;
  exception_refs : list string }.

Inductive EvidenceType := SpecAlignment | ContractValidation | Compatibility.
Inductive EvidenceStatus := Passed | Failed | Superseded.

Record ValidationEvidence := {
  evidence_id : string;
  evidence_type : EvidenceType;
  evidence_status : EvidenceStatus }.

Record UseCase := {
  scenario : string;
  input_example : Value;
  output_example : Value;
  happy : bool;
  persona_ref : option string }.

Record CapabilityContract := {
  kind : string;
  schema_version : string;
  id : string;
  namespace : string;
  name : string;
  version : string;
  lifecycle : Lifecycle;
  owner : Owner;
  summary : string;
  description : string;
  inputs : SchemaContainer;
  outputs : SchemaContainer;
  preconditions : list Condition;
  postconditions : list Condition;
  side_effects : list SideEffect;
  emits : list EventReference;
  consumes : list EventReference;
  permissions : list IdReference;
  execution : Execution;
  policies : list IdReference;
  dependencies : list DependencyReference;
  provenance : Provenance;
  evidence : list ValidationEvidence;
  service_type : ServiceType;
  permitted_targets : list ExecutionTarget;
  event_trigger : option string;
  connector_requirements : list ConnectorRequirement;
  state_schema : option Value;
  use_cases : list UseCase;
  risk : RiskMetadata }.

(** [contract.evidence.clear()] *)
Definition clear_evidence (c : CapabilityContract) : CapabilityContract := {|
  kind := kind c; schema_version := schema_version c; id := id c; namespace := namespace c; name := name c;
  version := version c; lifecycle := lifecycle c; owner := owner c; summary := summary c;
  description := description c; inputs := inputs c; outputs := outputs c; preconditions := preconditions c;
  postconditions := postconditions c; side_effects := side_effects c; emits := emits c; consumes := consumes c;
  permissions := permissions c; execution := execution c; policies := policies c; dependencies := dependencies c;
  provenance := provenance c; evidence := []; service_type := service_type c;
  permitted_targets := permitted_targets c; event_trigger := event_trigger c;
  connector_requirements := connector_requirements c; state_schema := state_schema c; use_cases := use_cases c;
  risk := risk c |}.

Record PublishedContractRecord := {
  published_id : string;
  published_version : string;
  published_digest : string;
  published_lifecycle : Lifecycle }.

Record ValidationContext := {
  governing_spec : string;
  validator_version : string;
  existing_published : option PublishedContractRecord }.

Record ProducedValidationEvidence := {
  artifact_id : string;
  artifact_version : string;
  produced_governing_spec : string;
  produced_validator_version : string;
  produced_status : EvidenceStatus }.

Inductive ValidationErrorCode :=
  | MissingRequiredField
  | InvalidLiteral
  | InvalidFormat
  | InvalidSemver
  | InconsistentIdentity
  | DuplicateItem
  | InvalidCapabilityBoundary
  | InvalidEventBoundary
  | UnsupportedBinaryFormat
  | UnsupportedEntrypoint
  | PortabilityExceptionRequired
  | ImmutableVersionConflict
  | InvalidDependencyRef
  | InvalidPlacementConstraint
  | MissingEventTrigger
  | MissingStateSchema
  | InvalidConnectorContract
  | InvalidConnectorRequirement
  | RiskPolicyWeakened.

(** The severity is always [Error]. *)
Record ValidationError := { code : ValidationErrorCode; message : string; path : string }.

Definition error (c : ValidationErrorCode) (p m : string) : ValidationError :=
  {| code := c; message := m; path := p |}.

(** [semver::Version::parse] and [VersionReq::parse], as tests; the [Debug] text. *)
Class ContractParams := {
  version_valid : string -> bool;
  version_req_valid : string -> bool;
  debug_contract : CapabilityContract -> string }.

(** ** Shared checks *)

(** One error when [bad]. *)
Definition push_if (bad : bool) (e : ValidationError) : list ValidationError := if bad then [e] else [].

Definition validate_non_empty (value path : string) : list ValidationError :=
  push_if (is_blank value) (error MissingRequiredField path "value must be non-empty").

Definition validate_semver `{ContractParams} (value path : string) : list ValidationError :=
  push_if (negb (version_valid value)) (error InvalidSemver path "version must match MAJOR.MINOR.PATCH").

Definition validate_min_length (value path : string) (min_length : nat) (message : string) : list ValidationError :=
  push_if (String.length (trim value) <? min_length)%nat (error InvalidFormat path message).

Definition validate_schema_value (schema : Value) (path : string) : list ValidationError :=
  push_if (match schema with Object _ => false | _ => true end)
    (error InvalidFormat path "schema must be a JSON object").

Fixpoint has_duplicate (seen values : list string) : bool :=
  match values with
  | [] => false
  | value :: rest => bool_decide (value ∈ seen) || has_duplicate (value :: seen) rest
  end.

Definition validate_unique_strings (values : list string) (path message : string) : list ValidationError :=
  push_if (has_duplicate [] values) (error DuplicateItem path message).

Definition at_index (path : string) (index : nat) (field : string) : string :=
  path +:+ "[" +:+ u64_to_string (N.of_nat index) +:+ "]" +:+ field.

(** The loops over keyed items: the checks of an item, then whether its key was
    seen before. *)
Fixpoint keyed_loop {A K} `{EqDecision K} (key : A -> K) (check : nat -> A -> list ValidationError)
    (duplicate : nat -> ValidationError) (index : nat) (seen : list K) (items : list A) : list ValidationError :=
  match items with
  | [] => []
  | item :: rest =>
      check index item ++ (if decide (key item ∈ seen) then [duplicate index] else [])
        ++ keyed_loop key check duplicate (S index) (key item :: seen) rest
  end.

Fixpoint item_loop {A} (check : nat -> A -> list ValidationError) (index : nat) (items : list A) : list ValidationError :=
  match items with [] => [] | item :: rest => check index item ++ item_loop check (S index) rest end.

(** ** Names *)

Definition is_lower_or_digit (c : ascii) : bool :=
  let n := N_of_ascii c in ((97 <=? n) && (n <=? 122) || (48 <=? n) && (n <=? 57))%N.

Definition is_valid_segment (segment : string) : bool :=
  negb (bool_decide (segment = "")) && forallb is_lower_or_digit (String.list_ascii_of_string segment).

Definition is_valid_name (name : string) : bool := forallb is_valid_segment (split_on "-" name).

Definition is_valid_namespace (namespace : string) : bool := forallb is_valid_name (split_on "." namespace).

(** ** Capability contracts *)

Definition CAPABILITY_CONTRACT_KIND : string := "capability_contract".
Definition SUPPORTED_SCHEMA_VERSION : string := "1.0.0".
Definition GOVERNED_CONTENT_VERSION : string := "0.1.0".

Definition validate_kind (actual expected message : string) : list ValidationError :=
  push_if (negb (bool_decide (actual = expected))) (error InvalidLiteral "$.kind" message).

Definition validate_schema_version (actual : string) : list ValidationError :=
  push_if (negb (bool_decide (actual = SUPPORTED_SCHEMA_VERSION)))
    (error InvalidLiteral "$.schema_version" "schema_version must equal 1.0.0").

Definition validate_identity (id namespace name : string) : list ValidationError :=
  push_if (negb (is_valid_namespace namespace))
    (error InvalidFormat "$.namespace" "namespace must be dot-separated lowercase kebab-case segments")
  ++ push_if (negb (is_valid_name name)) (error InvalidFormat "$.name" "name must be lowercase kebab-case")
  ++ push_if (negb (bool_decide (id = namespace +:+ "." +:+ name)))
       (error InconsistentIdentity "$.id" "id must equal namespace.name").

Definition validate_owner (o : Owner) : list ValidationError :=
  validate_non_empty (team o) "$.owner.team" ++ validate_non_empty (contact o) "$.owner.contact".

Definition validate_summary (summary path : string) : list ValidationError :=
  push_if ((String.length (trim summary) <? 10)%nat || (200 <? String.length summary)%nat)
    (error InvalidFormat path "summary length must be between 10 and 200 characters").

Definition validate_description (description path : string) : list ValidationError :=
  push_if (String.length (trim description) <? 20)%nat
    (error InvalidFormat path "description must be at least 20 characters").

Definition validate_schema_container (c : SchemaContainer) (path : string) : list ValidationError :=
  validate_schema_value (schema c) path.

Definition validate_conditions (conditions : list Condition) (path : string) : list ValidationError :=
  keyed_loop condition_id
    (fun i c => validate_non_empty (condition_id c) (at_index path i ".id")
       ++ validate_non_empty (condition_description c) (at_index path i ".description"))
    (fun i => error DuplicateItem (at_index path i ".id") "condition ids must be unique") 0 [] conditions.

Definition validate_side_effects (effects : list SideEffect) : list ValidationError :=
  push_if (bool_decide (effects = []))
    (error MissingRequiredField "$.side_effects" "side_effects must contain at least one item")
  ++ item_loop (fun i e => validate_non_empty (effect_description e) (at_index "$.side_effects" i ".description"))
       0 effects.

Definition validate_event_references `{ContractParams} (references : list EventReference) (path : string)
    : list ValidationError :=
  keyed_loop (fun r => (event_id r, event_version r))
    (fun i r => validate_non_empty (event_id r) (at_index path i ".event_id")
       ++ validate_semver (event_version r) (at_index path i ".version"))
    (fun i => error DuplicateItem (at_index path i ".event_id") "event references must be unique by id and version")
    0 [] references.

Definition validate_id_references (items : list IdReference) (path : string) : list ValidationError :=
  keyed_loop reference_id
    (fun i r => validate_non_empty (reference_id r) (at_index path i ".id"))
    (fun i => error DuplicateItem (at_index path i ".id") "ids must be unique") 0 [] items.

(** [unique_targets.len() != targets.len()], with the set as a [BTreeSet]. *)
Definition repeats_target (targets : list ExecutionTarget) : bool :=
  negb (size (list_to_set targets : gset ExecutionTarget) =? length targets)%nat.

Definition validate_execution (e : Execution) (p : Provenance) : list ValidationError :=
  validate_non_empty (entrypoint_command e) "$.execution.entrypoint.command"
  ++ push_if (bool_decide (preferred_targets e = []))
       (error MissingRequiredField "$.execution.preferred_targets" "preferred_targets must contain at least one item")
  ++ push_if (repeats_target (preferred_targets e))
       (error DuplicateItem "$.execution.preferred_targets" "preferred_targets must be unique")
  ++ push_if (match host_api_access (constraints e) with ExceptionRequired => true | NoHostApi => false end
              && bool_decide (exception_refs p = []))
       (error PortabilityExceptionRequired "$.execution.constraints.host_api_access"
          "host_api_access=exception_required requires provenance.exception_refs").

Definition validate_dependencies `{ContractParams} (dependencies : list DependencyReference) : list ValidationError :=
  keyed_loop (fun d => (artifact_type d, dependency_id d, dependency_version d))
    (fun i d => validate_non_empty (dependency_id d) (at_index "$.dependencies" i ".id")
       ++ validate_semver (dependency_version d) (at_index "$.dependencies" i ".version"))
    (fun i => error DuplicateItem (at_index "$.dependencies" i ".id")
       "dependencies must be unique by artifact_type, id, and version") 0 [] dependencies.

Definition validate_connector_requirements `{ContractParams} (requirements : list ConnectorRequirement)
    : list ValidationError :=
  let path := "$.connector_requirements" in
  keyed_loop (fun r => (required_connector_id r, required_version r))
    (fun i r => validate_non_empty (required_connector_id r) (at_index path i ".connector_id")
       ++ push_if (negb (version_req_valid (required_version r)))
            (error InvalidConnectorRequirement (at_index path i ".version")
               "connector requirement version must be a valid semver range"))
    (fun i => error DuplicateItem (at_index path i ".connector_id")
       "connector_requirements must be unique by connector_id and version") 0 [] requirements.

Definition validate_provenance (p : Provenance) : list ValidationError :=
  validate_non_empty (author p) "$.provenance.author"
  ++ validate_non_empty (created_at p) "$.provenance.created_at"
  ++ match spec_ref p with Some s => validate_non_empty s "$.provenance.spec_ref" | None => [] end
  ++ validate_unique_strings (adr_refs p) "$.provenance.adr_refs" "adr_refs must be unique"
  ++ validate_unique_strings (exception_refs p) "$.provenance.exception_refs" "exception_refs must be unique".

Definition validate_evidence (evidence : list ValidationEvidence) : list ValidationError :=
  keyed_loop evidence_id
    (fun i e => validate_non_empty (evidence_id e) (at_index "$.evidence" i ".evidence_id"))
    (fun i => error DuplicateItem (at_index "$.evidence" i ".evidence_id") "evidence_id values must be unique")
    0 [] evidence.

(** [str::to_ascii_lowercase] *)
Definition to_ascii_lowercase (s : string) : string :=
  String.string_of_list_ascii
    ((fun c => let n := N_of_ascii c in if ((65 <=? n) && (n <=? 90))%N then ascii_of_N (n + 32) else c)
       <$> String.list_ascii_of_string s).

(** [str::contains] *)
Fixpoint contains (haystack needle : string) : bool :=
  String.prefix needle haystack || match haystack with EmptyString => false | String _ rest => contains rest needle end.

Definition capability_banned_terms : list string :=
  ["utility function"; "helper function"; "crud wrapper"; "transport handler"; "database insert"; "full application";
   "subsystem"].

(** The lower-cased text, [summary] and [description] joined by a blank. *)
Definition names_banned_term (banned : list string) (summary description : string) : bool :=
  existsb (contains (to_ascii_lowercase summary +:+ " " +:+ to_ascii_lowercase description)) banned.

Definition validate_boundary (summary description : string) : list ValidationError :=
  push_if (names_banned_term capability_banned_terms summary description)
    (error InvalidCapabilityBoundary "$.summary" "capability must represent one meaningful business action").

(** A state schema that is absent, not an object or without properties. *)
Definition lacks_state_schema (state_schema : option Value) : bool :=
  match state_schema with
  | None => true
  | Some s =>
      match get "properties" s ≫= as_object with Some (_ :: _) => false | _ => true end
      || match s with Object _ => false | _ => true end
  end.

Definition lacks_event_trigger (event_trigger : option string) : bool :=
  match event_trigger with None => true | Some t => bool_decide (t = "") end.

Definition validate_placement_constraints (st : ServiceType) (state_schema : option Value) (trigger : option string)
    : list ValidationError :=
  push_if (match st with Stateful => true | _ => false end && lacks_state_schema state_schema)
    (error MissingStateSchema "$.state_schema"
       "Stateful capabilities must declare a non-empty state_schema object with at least one property.")
  ++ push_if (match st with Subscribable => true | _ => false end && lacks_event_trigger trigger)
       (error MissingEventTrigger "$.event_trigger" "Subscribable capabilities must declare a non-empty event_trigger field.").

Definition validate_field_classifications (classifications : list FieldDataClassification) (path : string)
    : list ValidationError :=
  keyed_loop field_path
    (fun i c => validate_non_empty (field_path c) (at_index path i ".field_path"))
    (fun i => error DuplicateItem (at_index path i ".field_path") "field_path values must be unique") 0 [] classifications.

Definition validate_risk_metadata (r : RiskMetadata) : list ValidationError :=
  validate_field_classifications (accepted_data_classifications (data_flow r))
    "$.risk.data_flow.accepted_data_classifications"
  ++ validate_field_classifications (produced_data_classifications (data_flow r))
       "$.risk.data_flow.produced_data_classifications".

(** *** The digest *)

(** FNV-1a on 64 bits. *)
Definition fnv1a_step (hash : N) (byte : ascii) : N :=
  (N.lxor hash (N_of_ascii byte) * 1099511628211) mod (u64_max + 1).

Definition fnv1a (text : string) : N :=
  foldl fnv1a_step 14695981039346656037%N (String.list_ascii_of_string text).

(** [{hash:016x}]: the sixteen nibbles, from the most significant. *)
Definition hex16 (hash : N) : string :=
  String.concat "" ((fun i => hex_digit (N.land (N.shiftr hash (4 * N.of_nat i)) 15)) <$> reverse (seq 0 16)).

Definition governed_content_digest `{ContractParams} (c : CapabilityContract) : string :=
  GOVERNED_CONTENT_VERSION +:+ ":" +:+ hex16 (fnv1a (debug_contract (clear_evidence c))).

Definition validate_published_record `{ContractParams} (c : CapabilityContract)
    (published : option PublishedContractRecord) : list ValidationError :=
  match published with
  | None => []
  | Some p =>
      if decide (published_id p = id c /\ published_version p = version c) then
        push_if (negb (bool_decide (published_digest p = governed_content_digest c)))
          (error ImmutableVersionConflict "$.version" "published contract versions are immutable")
      else []
  end.

(** *** The whole contract *)

Definition contract_errors `{ContractParams} (c : CapabilityContract) (context : ValidationContext)
    : list ValidationError :=
  validate_kind (kind c) CAPABILITY_CONTRACT_KIND "kind must equal capability_contract"
  ++ validate_schema_version (schema_version c)
  ++ validate_identity (id c) (namespace c) (name c)
  ++ validate_semver (version c) "$.version"
  ++ validate_owner (owner c)
  ++ validate_summary (summary c) "$.summary"
  ++ validate_description (description c) "$.description"
  ++ validate_schema_container (inputs c) "$.inputs.schema"
  ++ validate_schema_container (outputs c) "$.outputs.schema"
  ++ validate_conditions (preconditions c) "$.preconditions"
  ++ validate_conditions (postconditions c) "$.postconditions"
  ++ validate_side_effects (side_effects c)
  ++ validate_event_references (emits c) "$.emits"
  ++ validate_event_references (consumes c) "$.consumes"
  ++ validate_id_references (permissions c) "$.permissions"
  ++ validate_execution (execution c) (provenance c)
  ++ validate_id_references (policies c) "$.policies"
  ++ validate_dependencies (dependencies c)
  ++ validate_connector_requirements (connector_requirements c)
  ++ validate_provenance (provenance c)
  ++ validate_evidence (evidence c)
  ++ validate_boundary (summary c) (description c)
  ++ validate_placement_constraints (service_type c) (state_schema c) (event_trigger c)
  ++ validate_risk_metadata (risk c)
  ++ validate_published_record c (existing_published context).

Definition produced_evidence (id version : string) (governing_spec validator_version : string)
    : ProducedValidationEvidence := {|
  artifact_id := id; artifact_version := version; produced_governing_spec := governing_spec;
  produced_validator_version := validator_version; produced_status := Passed |}.

(** The normalized contract and the evidence produced. *)
Definition validate_contract `{ContractParams} (c : CapabilityContract) (context : ValidationContext)
    : Result (list ValidationError) (CapabilityContract * ProducedValidationEvidence) :=
  match contract_errors c context with
  | [] =>
      Ok (clear_evidence c,
          produced_evidence (id c) (version c) (governing_spec context) (validator_version context))
  | errors => Err errors
  end.

(** [host_meets_execution_resources] *)
Definition host_meets_execution_resources (capability_id : string) (r : ExecutionResources) (host_memory host_fuel : N)
    : Result string unit :=
  let unmet required unit_ ceiling :=
    "resource_requirements_exceed_host: capability '" +:+ capability_id +:+ "' requires " +:+ u64_to_string required
      +:+ " " +:+ unit_ +:+ "; host ceiling is " +:+ u64_to_string ceiling in
  match min_memory_bytes r with
  | Some required =>
      if (host_memory <? required)%N then Err (unmet required "memory bytes" host_memory) else Ok tt
  | None => Ok tt
  end;;
  match max_fuel r with
  | Some required => if (host_fuel <? required)%N then Err (unmet required "fuel" host_fuel) else Ok tt
  | None => Ok tt
  end.

(** * What a valid capability contract is

    Validation accepts exactly the well-formed contracts, is idempotent, and keeps a
    published version immutable. *)
(** ** Errors and what they check *)

Lemma push_if_nil bad e : push_if bad e = [] <-> bad = false.
Proof. by destruct bad. Qed.

Lemma push_unless_nil good e : push_if (negb good) e = [] <-> good = true.
Proof. by destruct good. Qed.

Lemma keyed_loop_nil {A K} `{EqDecision K} (key : A -> K) check duplicate index seen items :
  keyed_loop key check duplicate index seen items = [] <->
  (forall i item, items !! i = Some item -> check (index + i) item = []) /\
  NoDup (key <$> items) /\ Forall (fun k => k ∉ seen) (key <$> items).
Proof.
  revert index seen. induction items as [|item rest IH]; intros index seen.
  - cbn. split; [intros _; split_and!; [done|constructor|done]|done].
  - cbn [keyed_loop]. rewrite fmap_cons, NoDup_cons, Forall_cons, !app_nil, IH.
    assert (Hdup : (if decide (key item ∈ seen) then [duplicate index] else []) = [] <-> key item ∉ seen)
      by (by case_decide). rewrite Hdup. split.
    + intros (H0 & Hseen & Hrest & Hnd & Hall). rewrite Forall_forall in Hall. split_and!.
      * intros [|i] x; cbn; [intros [= <-]; by rewrite Nat.add_0_r|]. intros Hx%Hrest. by rewrite Nat.add_succ_r.
      * intros Hin. apply (Hall _ Hin). left.
      * done.
      * done.
      * apply Forall_forall. intros k Hk Hin. apply (Hall k Hk). by right.
    + intros (Hitems & [Hnin Hnd] & Hseen & Hall). split_and!; [|done| |done|].
      * rewrite <- (Nat.add_0_r index). by apply Hitems.
      * intros i x Hx. rewrite Nat.add_succ_comm. by apply Hitems.
      * rewrite Forall_forall in *. intros k Hk [->|Hin]%elem_of_cons; [done|]. by apply (Hall k).
Qed.

Lemma item_loop_nil {A} (check : nat -> A -> list ValidationError) index items :
  item_loop check index items = [] <-> forall i item, items !! i = Some item -> check (index + i) item = [].
Proof.
  revert index. induction items as [|item rest IH]; intros index; [done|]. cbn [item_loop]. rewrite app_nil, IH. split.
  - intros [H0 Hrest] [|i] x; cbn; [intros [= <-]; by rewrite Nat.add_0_r|]. intros Hx%Hrest. by rewrite Nat.add_succ_r.
  - intros Hitems. split; [rewrite <- (Nat.add_0_r index); by apply Hitems|].
    intros i x Hx. rewrite Nat.add_succ_comm. by apply Hitems.
Qed.

(** A check whose verdict does not depend on the index. *)
Lemma checks_all {A} (check : nat -> A -> list ValidationError) (ok : A -> Prop) items :
  (forall i item, check i item = [] <-> ok item) ->
  (forall i item, items !! i = Some item -> check (0 + i) item = []) <-> Forall ok items.
Proof. intros Hok. rewrite Forall_lookup. by setoid_rewrite Hok. Qed.

Lemma keyed_ok {A K} `{EqDecision K} (key : A -> K) check duplicate (ok : A -> Prop) items :
  (forall i item, check i item = [] <-> ok item) ->
  keyed_loop key check duplicate 0 [] items = [] <-> Forall ok items /\ NoDup (key <$> items).
Proof.
  intros Hok. rewrite keyed_loop_nil, (checks_all check ok) by done. split; [tauto|]. intros [? ?].
  split_and!; [done|done|]. apply Forall_forall. intros k _ ?%elem_of_nil. done.
Qed.

Lemma item_ok {A} (check : nat -> A -> list ValidationError) (ok : A -> Prop) items :
  (forall i item, check i item = [] <-> ok item) -> item_loop check 0 items = [] <-> Forall ok items.
Proof. intros Hok. by rewrite item_loop_nil, (checks_all check ok). Qed.

Lemma has_duplicate_false seen values :
  has_duplicate seen values = false <-> NoDup values /\ Forall (fun v => v ∉ seen) values.
Proof.
  revert seen. induction values as [|v values IH]; intros seen; cbn [has_duplicate].
  - split; [split; [constructor|done]|done].
  - rewrite orb_false_iff, bool_decide_eq_false, IH, NoDup_cons, Forall_cons. rewrite !Forall_forall. split.
    + intros (Hv & Hnd & Hall). split_and!; [|done|done|]; [intros Hin; apply (Hall v Hin); left|].
      intros x Hx Hin. apply (Hall x Hx). by right.
    + intros ([Hv Hnd] & Hs & Hall). split_and!; [done|done|].
      intros x Hx [->|Hin]%elem_of_cons; [done|]. by apply (Hall x).
Qed.

Lemma unique_strings_nil values path message : validate_unique_strings values path message = [] <-> NoDup values.
Proof.
  unfold validate_unique_strings. rewrite push_if_nil, has_duplicate_false. split; [tauto|]. intros. split; [done|].
  apply Forall_forall. intros ? _ ?%elem_of_nil. done.
Qed.

Lemma size_list_to_set_le (targets : list ExecutionTarget) :
  size (list_to_set targets : gset ExecutionTarget) <= length targets.
Proof.
  induction targets as [|t targets IH]; [done|]. cbn. rewrite size_union_alt, size_singleton.
  assert (size (list_to_set targets ∖ {[t]} : gset ExecutionTarget) <= size (list_to_set targets : gset ExecutionTarget))
    by (apply subseteq_size; set_solver). lia.
Qed.

Lemma repeats_target_false targets : repeats_target targets = false <-> NoDup targets.
Proof.
  unfold repeats_target. rewrite negb_false_iff, Nat.eqb_eq. induction targets as [|t targets IH]; cbn.
  - split; [constructor|done].
  - rewrite NoDup_cons. destruct (decide (t ∈ targets)) as [Hin|Hnin].
    + rewrite subseteq_union_1_L by set_solver.
      assert (size (list_to_set targets : gset ExecutionTarget) <= length targets) by apply size_list_to_set_le.
      split; [lia|naive_solver].
    + rewrite size_union, size_singleton by set_solver. split; [intros; split; [done|]; apply IH; lia|].
      intros [_ Hnd%IH]. lia.
Qed.

(** ** Well-formed contracts *)

Section Exact.
Context `{ContractParams}.

Definition non_blank_text (s : string) : Prop := is_blank s = false.

Definition is_object (v : Value) : Prop := exists members, v = Object members.

Definition conditions_ok (l : list Condition) : Prop :=
  Forall (fun c => non_blank_text (condition_id c) /\ non_blank_text (condition_description c)) l /\
  NoDup (condition_id <$> l).

Definition references_ok (l : list EventReference) : Prop :=
  Forall (fun r => non_blank_text (event_id r) /\ version_valid (event_version r) = true) l /\
  NoDup ((fun r => (event_id r, event_version r)) <$> l).

Definition ids_ok (l : list IdReference) : Prop :=
  Forall (fun r => non_blank_text (reference_id r)) l /\ NoDup (reference_id <$> l).

Definition classifications_ok (l : list FieldDataClassification) : Prop :=
  Forall (fun c => non_blank_text (field_path c)) l /\ NoDup (field_path <$> l).

(** Identity, texts and schemas. *)
Definition descriptive_ok (c : CapabilityContract) : Prop :=
  kind c = "capability_contract" /\ schema_version c = "1.0.0" /\
  is_valid_namespace (namespace c) = true /\ is_valid_name (name c) = true /\
  id c = namespace c +:+ "." +:+ name c /\ version_valid (version c) = true /\
  non_blank_text (team (owner c)) /\ non_blank_text (contact (owner c)) /\
  10 <= String.length (trim (summary c)) /\ String.length (summary c) <= 200 /\
  20 <= String.length (trim (description c)) /\
  names_banned_term capability_banned_terms (summary c) (description c) = false /\
  is_object (schema (inputs c)) /\ is_object (schema (outputs c)).

(** What the contract refers to. *)
Definition referential_ok (c : CapabilityContract) : Prop :=
  conditions_ok (preconditions c) /\ conditions_ok (postconditions c) /\
  references_ok (emits c) /\ references_ok (consumes c) /\ ids_ok (permissions c) /\ ids_ok (policies c) /\
  (Forall (fun d => non_blank_text (dependency_id d) /\ version_valid (dependency_version d) = true) (dependencies c) /\
   NoDup ((fun d => (artifact_type d, dependency_id d, dependency_version d)) <$> dependencies c)) /\
  (Forall (fun r => non_blank_text (required_connector_id r) /\ version_req_valid (required_version r) = true)
     (connector_requirements c) /\
   NoDup ((fun r => (required_connector_id r, required_version r)) <$> connector_requirements c)) /\
  (Forall (fun e => non_blank_text (evidence_id e)) (evidence c) /\ NoDup (evidence_id <$> evidence c)).

(** How it runs and what it may do. *)
Definition operational_ok (c : CapabilityContract) : Prop :=
  side_effects c <> [] /\ Forall (fun e => non_blank_text (effect_description e)) (side_effects c) /\
  non_blank_text (entrypoint_command (execution c)) /\
  preferred_targets (execution c) <> [] /\ NoDup (preferred_targets (execution c)) /\
  (host_api_access (constraints (execution c)) = ExceptionRequired -> exception_refs (provenance c) <> []) /\
  (service_type c = Stateful -> lacks_state_schema (state_schema c) = false) /\
  (service_type c = Subscribable -> lacks_event_trigger (event_trigger c) = false) /\
  classifications_ok (accepted_data_classifications (data_flow (risk c))) /\
  classifications_ok (produced_data_classifications (data_flow (risk c))).

Definition provenance_ok (p : Provenance) : Prop :=
  non_blank_text (author p) /\ non_blank_text (created_at p) /\
  (forall s, spec_ref p = Some s -> non_blank_text s) /\ NoDup (adr_refs p) /\ NoDup (exception_refs p).

(** A published version is only presented again unchanged. *)
Definition republication_ok (c : CapabilityContract) (published : option PublishedContractRecord) : Prop :=
  forall p, published = Some p -> published_id p = id c -> published_version p = version c ->
    published_digest p = governed_content_digest c.

Definition contract_ok (c : CapabilityContract) (context : ValidationContext) : Prop :=
  descriptive_ok c /\ referential_ok c /\ operational_ok c /\ provenance_ok (provenance c) /\
  republication_ok c (existing_published context).

(** ** Each validator *)

Lemma non_empty_nil value path : validate_non_empty value path = [] <-> non_blank_text value.
Proof. apply push_if_nil. Qed.

Lemma semver_nil value path : validate_semver value path = [] <-> version_valid value = true.
Proof. apply push_unless_nil. Qed.

Lemma schema_value_nil v path : validate_schema_value v path = [] <-> is_object v.
Proof. unfold validate_schema_value, is_object. rewrite push_if_nil. destruct v; naive_solver. Qed.

Lemma conditions_nil l path : validate_conditions l path = [] <-> conditions_ok l.
Proof. apply keyed_ok. intros. by rewrite app_nil, !non_empty_nil. Qed.

Lemma event_references_nil l path : validate_event_references l path = [] <-> references_ok l.
Proof. apply keyed_ok. intros. by rewrite app_nil, non_empty_nil, semver_nil. Qed.

Lemma id_references_nil l path : validate_id_references l path = [] <-> ids_ok l.
Proof. apply keyed_ok. intros. apply non_empty_nil. Qed.

Lemma classifications_nil l path : validate_field_classifications l path = [] <-> classifications_ok l.
Proof. apply keyed_ok. intros. apply non_empty_nil. Qed.

Lemma dependencies_nil l :
  validate_dependencies l = [] <->
  Forall (fun d => non_blank_text (dependency_id d) /\ version_valid (dependency_version d) = true) l /\
  NoDup ((fun d => (artifact_type d, dependency_id d, dependency_version d)) <$> l).
Proof. apply keyed_ok. intros. by rewrite app_nil, non_empty_nil, semver_nil. Qed.

Lemma connector_requirements_nil l :
  validate_connector_requirements l = [] <->
  Forall (fun r => non_blank_text (required_connector_id r) /\ version_req_valid (required_version r) = true) l /\
  NoDup ((fun r => (required_connector_id r, required_version r)) <$> l).
Proof. apply keyed_ok. intros. by rewrite app_nil, non_empty_nil, push_unless_nil. Qed.

Lemma evidence_nil l :
  validate_evidence l = [] <-> Forall (fun e => non_blank_text (evidence_id e)) l /\ NoDup (evidence_id <$> l).
Proof. apply keyed_ok. intros. apply non_empty_nil. Qed.

Lemma side_effects_nil l :
  validate_side_effects l = [] <-> l <> [] /\ Forall (fun e => non_blank_text (effect_description e)) l.
Proof.
  unfold validate_side_effects. rewrite app_nil, push_if_nil, bool_decide_eq_false.
  apply and_iff_compat_l, item_ok. intros. apply non_empty_nil.
Qed.

Lemma execution_nil e p :
  validate_execution e p = [] <->
  non_blank_text (entrypoint_command e) /\ preferred_targets e <> [] /\ NoDup (preferred_targets e) /\
  (host_api_access (constraints e) = ExceptionRequired -> exception_refs p <> []).
Proof.
  unfold validate_execution. rewrite !app_nil, non_empty_nil, !push_if_nil, bool_decide_eq_false, repeats_target_false.
  destruct (host_api_access (constraints e)); cbn; rewrite ?bool_decide_eq_false; naive_solver.
Qed.

Lemma provenance_nil p : validate_provenance p = [] <-> provenance_ok p.
Proof.
  unfold validate_provenance, provenance_ok. rewrite !app_nil, !non_empty_nil, !unique_strings_nil.
  destruct (spec_ref p); [rewrite non_empty_nil|]; naive_solver.
Qed.

Lemma published_nil c published : validate_published_record c published = [] <-> republication_ok c published.
Proof.
  unfold validate_published_record, republication_ok. destruct published as [p|]; [|naive_solver].
  case_decide; [rewrite push_unless_nil, bool_decide_eq_true|]; naive_solver.
Qed.

Lemma placement_nil st schema trigger :
  validate_placement_constraints st schema trigger = [] <->
  (st = Stateful -> lacks_state_schema schema = false) /\ (st = Subscribable -> lacks_event_trigger trigger = false).
Proof. unfold validate_placement_constraints. rewrite app_nil, !push_if_nil. destruct st; cbn; naive_solver. Qed.

Lemma contract_errors_nil c context : contract_errors c context = [] <-> contract_ok c context.
Proof.
  unfold contract_errors, contract_ok, descriptive_ok, referential_ok, operational_ok, validate_kind,
    validate_schema_version, validate_identity, validate_owner, validate_summary, validate_description,
    validate_schema_container, validate_boundary, validate_risk_metadata.
  rewrite !app_nil, !push_unless_nil, !push_if_nil, !non_empty_nil, semver_nil, !schema_value_nil, !conditions_nil,
    side_effects_nil, !event_references_nil, !id_references_nil, execution_nil, dependencies_nil,
    connector_requirements_nil, provenance_nil, evidence_nil, placement_nil, !classifications_nil, published_nil,
    !bool_decide_eq_true, orb_false_iff, !Nat.ltb_ge.
  split; intros Hc; decompose [and] Hc; clear Hc; split_and!; assumption.
Qed.

(** ** Normalization *)

Lemma clear_evidence_idempotent c : clear_evidence (clear_evidence c) = clear_evidence c.
Proof. done. Qed.

Lemma digest_ignores_evidence c : governed_content_digest (clear_evidence c) = governed_content_digest c.
Proof. done. Qed.

Lemma clear_evidence_ok c context : contract_ok c context -> contract_ok (clear_evidence c) context.
Proof.
  intros (Hd & Hr & Ho & Hp & Hpub). split_and!; try done; [|by apply Hp..].
  destruct Hr as (H1 & H2 & H3 & H4 & H5 & H6 & H7 & H8 & _). repeat split; try apply H1; try apply H2; try apply H3;
    try apply H4; try apply H5; try apply H6; try apply H7; try apply H8; constructor.
Qed.

(** C36: a capability contract is accepted exactly when it is well formed: identity,
    texts, schemas, references, execution, provenance and risk obey their rules and a
    published version with the same identity has the same digest.  The normalized
    contract is the contract without its evidence; it is accepted again and
    normalization changes neither it nor its digest. *)
Theorem validate_contract_exact c context :
  (is_ok (validate_contract c context) = true <-> contract_ok c context) /\
  (forall normalized produced, validate_contract c context = Ok (normalized, produced) ->
    normalized = clear_evidence c /\ produced_status produced = Passed /\
    governed_content_digest normalized = governed_content_digest c /\
    validate_contract normalized context = Ok (normalized, produced)).
Proof.
  unfold validate_contract. pose proof (contract_errors_nil c context) as Hnil. split.
  - destruct (contract_errors c context); cbn; naive_solver.
  - intros normalized produced. destruct (contract_errors c context) as [|e l] eqn:E; [|done]. intros [= <- <-].
    assert (Hok : contract_ok (clear_evidence c) context) by (apply clear_evidence_ok, Hnil; done).
    apply contract_errors_nil in Hok. rewrite Hok. done.
Qed.

(** Once a version is published, whatever contract is later accepted under the
    same identity and version has the digest of what was published. *)
Theorem published_version_immutable c context published :
  existing_published context = Some published ->
  id c = published_id published -> version c = published_version published ->
  is_ok (validate_contract c context) = true ->
  governed_content_digest c = published_digest published.
Proof.
  intros Hpub Hid Hversion Hok. unfold validate_contract in Hok.
  destruct (contract_errors c context) eqn:E; [|done]. apply contract_errors_nil in E.
  destruct E as (_ & _ & _ & _ & Hr). symmetry. by apply Hr.
Qed.

End Exact.

(** ** A sample contract *)

#[local] Instance sample_params : ContractParams := {|
  version_valid v := bool_decide (v = "1.0.0");
  version_req_valid v := bool_decide (v = "^1");
  debug_contract c := id c +:+ summary c |}.

Definition sample_contract : CapabilityContract := {|
  kind := "capability_contract"; schema_version := "1.0.0"; id := "notes.extract-actions"; namespace := "notes";
  name := "extract-actions"; version := "1.0.0"; lifecycle := Active;
  owner := {| team := "notes"; contact := "notes@example.org" |};
  summary := "Extract action items"; description := "Reads a note and lists its action items";
  inputs := {| schema := Object [] |}; outputs := {| schema := Object [] |};
  preconditions := []; postconditions := [];
  side_effects := [{| effect_kind := NoEffect; effect_description := "none" |}];
  emits := []; consumes := [{| event_id := "notes.saved"; event_version := "1.0.0" |}]; permissions := [];
  execution := {| entrypoint_command := "run"; preferred_targets := [Local];
    constraints := {| host_api_access := NoHostApi; network_access := NetworkForbidden;
                      filesystem_access := NoFilesystem |};
    resources := None |};
  policies := []; dependencies := [];
  provenance := {| provenance_source := Greenfield; author := "team"; created_at := "2026-01-01"; spec_ref := None;
    adr_refs := []; exception_refs := [] |};
  evidence := [{| evidence_id := "e1"; evidence_type := SpecAlignment; evidence_status := Passed |}];
  service_type := Subscribable; permitted_targets := [Local]; event_trigger := Some "notes.saved";
  connector_requirements := [{| required_connector_id := "traverse.http"; required_version := "^1" |}];
  state_schema := None; use_cases := []; risk := default_risk_metadata |}.

Definition sample_published : PublishedContractRecord := {|
  published_id := "notes.extract-actions"; published_version := "1.0.0";
  published_digest := "0.1.0:27eac98a139fc822"; published_lifecycle := Active |}.

Definition sample_context : ValidationContext := {|
  governing_spec := "spec"; validator_version := "0.1"; existing_published := Some sample_published |}.

Lemma published_version_immutable_witness : governed_content_digest sample_contract = "0.1.0:27eac98a139fc822".
Proof.
  apply (published_version_immutable sample_contract sample_context sample_published);
    [reflexivity|reflexivity|reflexivity|vm_compute; reflexivity].
Defined.

(** An upper-case name is rejected with one error. *)
Example bad_name_rejected : is_valid_name "Extract" = false /\ is_valid_name "a--b" = false /\ is_valid_namespace "a.b-2" = true.
Proof. vm_compute. auto. Qed.

(** The contract with other risk metadata. *)
Definition with_risk (r : RiskMetadata) (c : CapabilityContract) : CapabilityContract := {|
  kind := kind c; schema_version := schema_version c; id := id c;
  namespace := namespace c; name := name c; version := version c; lifecycle := lifecycle c; owner := owner c;
  summary := summary c; description := description c; inputs := inputs c; outputs := outputs c;
  preconditions := preconditions c; postconditions := postconditions c; side_effects := side_effects c;
  emits := emits c; consumes := consumes c; permissions := permissions c; execution := execution c;
  policies := policies c; dependencies := dependencies c; provenance := provenance c; evidence := evidence c;
  service_type := service_type c; permitted_targets := permitted_targets c; event_trigger := event_trigger c;
  connector_requirements := connector_requirements c; state_schema := state_schema c; use_cases := use_cases c;
  risk := r |}.
