(* ===== verification/ProposalCheck.v ===== *)
(** * Cross-validation of a proposal

    [validate_proposal_against_host_state] of
    [crates/traverse-runtime/src/proposal.rs]: every node is declared by the
    application manifest and pinned to the artifact the registry holds, and data only
    flows between nodes whose schemas and data classifications permit it.  Manifest
    and registry come from the crate [traverse_registry], which is not part of the
    repository: the accessors used of them are [HostState]. *)
From S2P Require Import Prelude Json Pointer Risk Contract Proposal.

Class HostState := {
  ApplicationBundleManifest : Type;
  (** [(component.manifest.capability_id, component.manifest.capability_version)]
      of each component *)
  components : ApplicationBundleManifest -> list (string * string);
  CapabilityRegistry : Type;
  RegisteredCapability : Type;
  (** [registry.find_exact(LookupScope::PreferPrivate, id, version)] *)
  find_exact : CapabilityRegistry -> string -> string -> option RegisteredCapability;
  contract_of : RegisteredCapability -> CapabilityContract;
  binary_digest : RegisteredCapability -> option string;
  source_digest : RegisteredCapability -> string }.

Inductive ProposalCrossValidationErrorCode :=
  | UndeclaredCapability
  | CapabilityNotFound
  | ArtifactDigestMismatch
  | IncompatibleMappingSchema
  | UndeclaredDataClassification
  | DataClassificationOverAccepted
  | EgressDeniedForClassifiedMapping.

Record ProposalCrossValidationError := {
  cross_code : ProposalCrossValidationErrorCode;
  cross_message : string;
  cross_path : string }.

Definition cross_error (c : ProposalCrossValidationErrorCode) (p m : string) : ProposalCrossValidationError :=
  {| cross_code := c; cross_message := m; cross_path := p |}.

Record ResolvedProposalNode := { resolved_id : string; contract : CapabilityContract }.

(** ** Nodes *)

Section Checks.
Context `{HostState}.

Definition manifest_declares_capability (manifest : ApplicationBundleManifest) (node : ProposalNode) : bool :=
  existsb (fun '(id, v) => bool_decide (id = capability_id node) && bool_decide (v = capability_version node))
    (components manifest).

Definition registry_digest (c : RegisteredCapability) : string := default (source_digest c) (binary_digest c).

(** The body of the node loop: the resolved node or the error pushed. *)
Definition resolve_node (manifest : ApplicationBundleManifest) (registry : CapabilityRegistry)
    (index : nat) (node : ProposalNode) : Result ProposalCrossValidationError ResolvedProposalNode :=
  let path := "$.nodes[" +:+ show_nat index +:+ "]" in
  let pinned := capability_id node +:+ "@" +:+ capability_version node in
  if negb (manifest_declares_capability manifest node) then
    Err (cross_error UndeclaredCapability path
           ("capability '" +:+ pinned +:+ "' is not declared in the application manifest"))
  else
    match find_exact registry (capability_id node) (capability_version node) with
    | None =>
        Err (cross_error CapabilityNotFound path ("capability '" +:+ pinned +:+ "' was not found in the registry"))
    | Some capability =>
        let digest := registry_digest capability in
        if decide (digest = artifact_digest node) then
          Ok {| resolved_id := node_id node; contract := contract_of capability |}
        else
          Err (cross_error ArtifactDigestMismatch (path +:+ ".artifact_digest")
                 ("proposal pins digest '" +:+ artifact_digest node +:+ "' but the registry resolves '" +:+ pinned
                    +:+ "' to digest '" +:+ digest +:+ "'"))
    end.

Abbreviation Resolved := (gmap string ResolvedProposalNode).

Fixpoint resolve_nodes (manifest : ApplicationBundleManifest) (registry : CapabilityRegistry)
    (index : nat) (ns : list ProposalNode) (st : Resolved * list ProposalCrossValidationError)
    : Resolved * list ProposalCrossValidationError :=
  match ns with
  | [] => st
  | node :: rest =>
      resolve_nodes manifest registry (S index) rest
        match resolve_node manifest registry index node with
        | Ok r => (<[node_id node := r]> st.1, st.2)
        | Err e => (st.1, st.2 ++ [e])
        end
  end.

(** ** Mappings *)

Fixpoint resolve_segments (current : Value) (segs : list string) : option Value :=
  match segs with
  | [] => Some current
  | segment :: rest =>
      next ← match get "properties" current ≫= get segment with
             | Some v => Some v
             | None => get "items" current
             end;
      resolve_segments next rest
  end.

Definition resolve_schema_pointer (schema : Value) (pointer : string) : option Value :=
  resolve_segments schema (segments pointer).

Definition schema_type (schema : Value) (pointer : string) : option string :=
  fragment ← resolve_schema_pointer schema pointer; get "type" fragment ≫= as_str.

Definition mapping_schema_compatible (source_schema : Value) (source_path : string)
    (target_schema : Value) (target_path : string) : bool :=
  match schema_type source_schema source_path, schema_type target_schema target_path with
  | Some s, Some t => bool_decide (s = t)
  | _, _ => true
  end.

Definition classification_at_path (classifications : list FieldDataClassification) (path : string)
    : option DataClassification :=
  classification <$> List.find (fun entry => bool_decide (field_path entry = path)) classifications.

Definition has_outside_effect (c : CapabilityContract) : bool :=
  match effect_class (risk c) with ExternalEffect | IrreversibleEffect => true | _ => false end.

(** The classification of what a mapping reads: that of the source node's contract. *)
Definition produced_classification (resolved : Resolved) (m : ProposalMapping) : option DataClassification :=
  match source m with
  | InitialInput => None
  | FromNode src =>
      s ← resolved !! src;
      classification_at_path (produced_data_classifications (data_flow (risk (contract s)))) (source_path m)
  end.

Definition schema_errors (resolved : Resolved) (path : string) (m : ProposalMapping) (target : ResolvedProposalNode)
    : list ProposalCrossValidationError :=
  match source m with
  | InitialInput => []
  | FromNode src =>
      match resolved !! src with
      | None => []
      | Some s =>
          if mapping_schema_compatible (schema (outputs (contract s))) (source_path m)
               (schema (inputs (contract target))) (target_path m)
          then []
          else [cross_error IncompatibleMappingSchema path
                  ("source path '" +:+ source_path m +:+ "' and target path '" +:+ target_path m
                     +:+ "' declare incompatible JSON Schema types")]
      end
  end.

Definition flow_errors (path : string) (m : ProposalMapping) (target : ResolvedProposalNode)
    (produced : option DataClassification) : list ProposalCrossValidationError :=
  match produced with
  | None => []
  | Some produced =>
      match classification_at_path (accepted_data_classifications (data_flow (risk (contract target)))) (target_path m) with
      | None =>
          [cross_error UndeclaredDataClassification path
             ("target path '" +:+ target_path m +:+ "' on node '" +:+ target_node_id m
                +:+ "' has no declared accepted_data_classifications entry; "
                +:+ "schema compatibility alone does not authorize disclosure (spec 109 FR-011)")]
      | Some accepted =>
          if classification_above produced accepted then
            [cross_error DataClassificationOverAccepted path
               ("source path '" +:+ source_path m +:+ "' produces data classified above what target path '"
                  +:+ target_path m +:+ "' on node '" +:+ target_node_id m +:+ "' accepts")]
          else if classification_above produced Public && has_outside_effect (contract target)
                  && bool_decide (egress_policy (data_flow (risk (contract target))) = Denied) then
            [cross_error EgressDeniedForClassifiedMapping path
               ("node '" +:+ target_node_id m +:+ "' has an external/irreversible effect with a denied egress policy and "
                  +:+ "cannot receive classified data from '" +:+ source_path m +:+ "'")]
          else []
      end
  end.

(** The body of the mapping loop. *)
Definition mapping_errors (resolved : Resolved) (index : nat) (m : ProposalMapping) : list ProposalCrossValidationError :=
  let path := "$.mappings[" +:+ show_nat index +:+ "]" in
  match resolved !! target_node_id m with
  | None => []
  | Some target =>
      schema_errors resolved path m target ++ flow_errors path m target (produced_classification resolved m)
  end.

Fixpoint check_flows (resolved : Resolved) (index : nat) (ms : list ProposalMapping) : list ProposalCrossValidationError :=
  match ms with [] => [] | m :: rest => mapping_errors resolved index m ++ check_flows resolved (S index) rest end.

(** ** The whole check *)

Definition validate_proposal_against_host_state (canonical : CanonicalProposal)
    (manifest : ApplicationBundleManifest) (registry : CapabilityRegistry)
    : Result (list ProposalCrossValidationError) (list ResolvedProposalNode) :=
  let '(resolved, errors) := resolve_nodes manifest registry 0 (nodes (proposal canonical)) (∅, []) in
  match errors with
  | _ :: _ => Err errors
  | [] =>
      match check_flows resolved 0 (mappings (proposal canonical)) with
      | [] => Ok (omap (fun id => resolved !! id) (execution_order canonical))
      | errors => Err errors
      end
  end.

Definition proposal_is_automatic_eligible (resolved : list ResolvedProposalNode) : bool :=
  forallb (fun node => is_automatic_eligible (risk (contract node))) resolved.

(** ** Specification *)

(** [node] is declared, registered and pinned to the registered artifact. *)
Definition pinned_to (manifest : ApplicationBundleManifest) (registry : CapabilityRegistry) (node : ProposalNode)
    (c : CapabilityContract) : Prop :=
  (capability_id node, capability_version node) ∈ components manifest /\
  exists capability, find_exact registry (capability_id node) (capability_version node) = Some capability /\
    registry_digest capability = artifact_digest node /\ contract_of capability = c.

(** What may flow from a field classified [produced] into a field of [target]. *)
Definition flow_permitted (m : ProposalMapping) (target : CapabilityContract) (produced : DataClassification) : Prop :=
  exists accepted,
    classification_at_path (accepted_data_classifications (data_flow (risk target))) (target_path m) = Some accepted /\
    classification_above produced accepted = false /\
    ~ (classification_above produced Public = true /\ has_outside_effect target = true /\
       egress_policy (data_flow (risk target)) = Denied).

Definition mapping_permitted (contract_at : string -> option CapabilityContract) (m : ProposalMapping) : Prop :=
  forall src from to, source m = FromNode src -> contract_at src = Some from -> contract_at (target_node_id m) = Some to ->
    mapping_schema_compatible (schema (outputs from)) (source_path m) (schema (inputs to)) (target_path m) = true /\
    forall produced,
      classification_at_path (produced_data_classifications (data_flow (risk from))) (source_path m) = Some produced ->
      flow_permitted m to produced.

Lemma declares_spec manifest node :
  manifest_declares_capability manifest node = true <->
  (capability_id node, capability_version node) ∈ components manifest.
Proof.
  unfold manifest_declares_capability. rewrite existsb_exists. split.
  - intros ([i v] & Hin & [Hi Hv]%andb_true_iff). apply bool_decide_eq_true in Hi, Hv. subst. by apply list_elem_of_In.
  - intros Hin. exists (capability_id node, capability_version node). split; [by apply list_elem_of_In|].
    by rewrite !bool_decide_eq_true_2.
Qed.

Lemma resolve_node_ok manifest registry index node r :
  resolve_node manifest registry index node = Ok r <->
  pinned_to manifest registry node (contract r) /\ resolved_id r = node_id node.
Proof.
  unfold resolve_node, pinned_to. rewrite <- declares_spec. cbv zeta.
  destruct (manifest_declares_capability manifest node); cbn [negb]; [|naive_solver].
  destruct (find_exact registry _ _) as [cap|]; [|naive_solver].
  case_decide; [|naive_solver]. destruct r as [rid rc]. cbn. naive_solver.
Qed.

(** The state of the node loop: errors are only added, and without errors the map
    holds a resolved node for every node passed. *)
Lemma resolve_nodes_spec manifest registry index ns st resolved errors :
  resolve_nodes manifest registry index ns st = (resolved, errors) ->
  (errors = [] <-> st.2 = [] /\ Forall (fun node => exists c, pinned_to manifest registry node c) ns) /\
  (NoDup (node_id <$> ns) -> errors = [] -> forall id, resolved !! id =
    match List.find (fun node => bool_decide (node_id node = id)) ns with
    | Some node => match resolve_node manifest registry 0 node with Ok r => Some r | Err _ => None end
    | None => st.1 !! id
    end).
Proof.
  revert index st. induction ns as [|node ns IH]; intros index st; cbn [resolve_nodes].
  { intros ->. cbn. split; [naive_solver|done]. }
  intros Hrun. apply IH in Hrun as [Herr Hmap]. clear IH.
  assert (Hidx : forall i j, is_ok (resolve_node manifest registry i node) = is_ok (resolve_node manifest registry j node)
    /\ forall r, resolve_node manifest registry i node = Ok r -> resolve_node manifest registry j node = Ok r).
  { intros i j. split; [|by intros r Hr%resolve_node_ok; apply resolve_node_ok].
    apply eq_true_iff_eq. split; intros Hok.
    - destruct (resolve_node manifest registry i node) as [r|] eqn:E; [|done].
      apply resolve_node_ok, (resolve_node_ok manifest registry j) in E. by rewrite E.
    - destruct (resolve_node manifest registry j node) as [r|] eqn:E; [|done].
      apply resolve_node_ok, (resolve_node_ok manifest registry i) in E. by rewrite E. }
  destruct (resolve_node manifest registry index node) as [r|e] eqn:E; cbn [fst snd] in *.
  - split.
    + rewrite Herr, Forall_cons. apply resolve_node_ok in E as [Hpin _]. naive_solver.
    + intros [Hnin Hnd]%NoDup_cons Hnil id. rewrite (Hmap Hnd Hnil). cbn [List.find].
      destruct (Hidx index 0) as [_ Hr]. specialize (Hr r E). case_bool_decide as Hid.
      * subst id. rewrite Hr. destruct (List.find _ ns) as [node'|] eqn:Hf; [|by rewrite lookup_insert_eq].
        apply List.find_some in Hf as [Hin Heq%bool_decide_eq_true]. exfalso. apply Hnin. rewrite <- Heq.
        apply list_elem_of_fmap_2. by apply list_elem_of_In.
      * destruct (List.find _ ns); [done|]. by rewrite lookup_insert_ne.
  - assert (Hne : errors <> []) by (rewrite Herr; intros [Hn _]; by apply app_nil in Hn as [_ ?]).
    split; [|done]. split; [done|]. rewrite Forall_cons. intros (_ & [c Hc] & _). exfalso.
    assert (Hok : resolve_node manifest registry index node = Ok {| resolved_id := node_id node; contract := c |})
      by by apply resolve_node_ok. by rewrite Hok in E.
Qed.

Lemma flow_errors_nil path m target produced :
  flow_errors path m target produced = [] <->
  forall c, produced = Some c -> flow_permitted m (contract target) c.
Proof.
  unfold flow_errors. destruct produced as [c|]; [|naive_solver].
  transitivity (flow_permitted m (contract target) c); [|naive_solver]. unfold flow_permitted.
  destruct (classification_at_path _ _) as [accepted|]; [|split; [done|by intros (? & ? & _)]].
  destruct (classification_above c accepted) eqn:Habove.
  { split; [done|]. intros (a & [= <-] & Ha & _). congruence. }
  destruct (classification_above c Public && has_outside_effect (contract target)
            && bool_decide (egress_policy (data_flow (risk (contract target))) = Denied)) eqn:Hdeny.
  - split; [done|]. intros (a & _ & _ & Hno). exfalso. apply Hno. by to_props.
  - split; [|done]. intros _. exists accepted. split_and!; [done|done|]. intros (H1 & H2 & H3).
    by rewrite H1, H2, bool_decide_eq_true_2 in Hdeny by done.
Qed.

Lemma mapping_errors_nil resolved index m :
  mapping_errors resolved index m = [] <-> mapping_permitted (fun id => contract <$> resolved !! id) m.
Proof.
  unfold mapping_errors, mapping_permitted, schema_errors, produced_classification.
  destruct (resolved !! target_node_id m) as [target|]; [|by split; [intros _ src from to _ _ ?|done]].
  rewrite app_nil, flow_errors_nil. destruct (source m) as [|src]; [by split; [intros _ src from to ?|done]|].
  destruct (resolved !! src) as [s|] eqn:Hs; cbn [mbind option_bind].
  2:{ split; [|done]. intros _ src' from to [= <-]. by rewrite Hs. }
  destruct (mapping_schema_compatible _ _ _ _) eqn:Hc; split.
  - intros [_ Hf] src' from to [= <-]. rewrite Hs. intros [= <-] [= <-]. by split.
  - intros Hp. split; [done|]. apply (Hp src (contract s) (contract target)); [done|by rewrite Hs|done].
  - by intros [? _].
  - intros Hp. destruct (Hp src (contract s) (contract target)) as [Hc' _]; [done|by rewrite Hs|done|congruence].
Qed.

Lemma check_flows_nil resolved index ms :
  check_flows resolved index ms = [] <-> Forall (mapping_permitted (fun id => contract <$> resolved !! id)) ms.
Proof.
  revert index. induction ms as [|m ms IH]; intros index; cbn [check_flows]; [done|].
  by rewrite app_nil, mapping_errors_nil, IH, Forall_cons.
Qed.

(** ** The resolved nodes *)

Definition contract_at (resolved : list ResolvedProposalNode) (id : string) : option CapabilityContract :=
  contract <$> List.find (fun r => bool_decide (resolved_id r = id)) resolved.

(** [r] stands for a declared node, under the contract it is pinned to. *)
Definition resolves (manifest : ApplicationBundleManifest) (registry : CapabilityRegistry) (ns : list ProposalNode)
    (r : ResolvedProposalNode) : Prop :=
  exists node, node ∈ ns /\ node_id node = resolved_id r /\ pinned_to manifest registry node (contract r).

Lemma pinned_to_functional manifest registry node c1 c2 :
  pinned_to manifest registry node c1 -> pinned_to manifest registry node c2 -> c1 = c2.
Proof. intros (_ & k1 & H1 & _ & <-) (_ & k2 & H2 & _ & <-). by simplify_eq. Qed.

Lemma resolves_functional manifest registry ns r1 r2 :
  NoDup (node_id <$> ns) -> resolves manifest registry ns r1 -> resolves manifest registry ns r2 ->
  resolved_id r1 = resolved_id r2 -> r1 = r2.
Proof.
  intros Hnd (n1 & Hn1 & Hid1 & Hp1) (n2 & Hn2 & Hid2 & Hp2) Heq.
  assert (n1 = n2) as <- by (eapply NoDup_fmap_inj_elem; [exact Hnd|done|done|congruence]).
  destruct r1, r2. cbn in *. f_equal; [done|]. by eapply pinned_to_functional.
Qed.

Lemma resolved_lists_equal manifest registry ns l1 l2 :
  NoDup (node_id <$> ns) -> Forall (resolves manifest registry ns) l1 -> Forall (resolves manifest registry ns) l2 ->
  resolved_id <$> l1 = resolved_id <$> l2 -> l1 = l2.
Proof.
  intros Hnd H1. revert l2. induction H1 as [|r l1 Hr H1 IH]; intros [|r2 l2] H2; rewrite ?fmap_cons; try done.
  intros [= Hid Hrest]. apply Forall_cons in H2 as [Hr2 H2]. f_equal; [by eapply resolves_functional|by apply IH].
Qed.

(** The map of the node loop, when it reports no error. *)
Lemma resolved_map_spec manifest registry ns resolved :
  NoDup (node_id <$> ns) -> resolve_nodes manifest registry 0 ns (∅, []) = (resolved, []) ->
  forall id r, resolved !! id = Some r <-> resolved_id r = id /\ resolves manifest registry ns r.
Proof.
  intros Hnd Hrun id r. destruct (resolve_nodes_spec _ _ _ _ _ _ _ Hrun) as [_ Hmap].
  rewrite (Hmap Hnd eq_refl). cbn [fst]. unfold resolves. split.
  - destruct (List.find _ ns) as [node|] eqn:Hf; [|by rewrite lookup_empty].
    apply List.find_some in Hf as [Hin Hid%bool_decide_eq_true].
    destruct (resolve_node manifest registry 0 node) as [r'|] eqn:E; [|done]. intros [= ->].
    apply resolve_node_ok in E as [Hp Hr]. split; [congruence|]. exists node. split; [by apply list_elem_of_In|]. done.
  - intros (Hid & node & Hin & Hnode & Hp). destruct (List.find _ ns) as [node'|] eqn:Hf.
    + apply List.find_some in Hf as [Hin' Hid'%bool_decide_eq_true]. apply list_elem_of_In in Hin'.
      assert (node' = node) as -> by (eapply NoDup_fmap_inj_elem; [exact Hnd|done|done|congruence]).
      rewrite (proj2 (resolve_node_ok manifest registry 0 node r)); [done|]. by split.
    + apply list_elem_of_In in Hin. eapply List.find_none in Hf; [|exact Hin]. apply bool_decide_eq_false in Hf. congruence.
Qed.

Lemma omap_resolved_ids (R : Resolved) (order : list string) :
  (forall id r, R !! id = Some r -> resolved_id r = id) -> (forall id, id ∈ order -> is_Some (R !! id)) ->
  resolved_id <$> omap (fun id => R !! id) order = order.
Proof.
  intros Hid Hsome. induction order as [|id order IH]; [done|]. cbn.
  destruct (Hsome id) as [r Hr]; [left|]. rewrite Hr. cbn. rewrite (Hid _ _ Hr), IH; [done|].
  intros id' Hin. apply Hsome. by right.
Qed.

Lemma contract_at_omap (R : Resolved) (order : list string) id :
  (forall id r, R !! id = Some r -> resolved_id r = id) -> (forall id, is_Some (R !! id) -> id ∈ order) ->
  contract_at (omap (fun id => R !! id) order) id = contract <$> R !! id.
Proof.
  intros Hid Hdom. unfold contract_at. f_equal.
  assert (Hgen : forall l, (forall x, id ∈ l -> R !! id = Some x ->
     List.find (fun r => bool_decide (resolved_id r = id)) (omap (fun id => R !! id) l) = Some x) /\
     (R !! id = None -> List.find (fun r => bool_decide (resolved_id r = id)) (omap (fun id => R !! id) l) = None)).
  { intros l. induction l as [|i l [IH1 IH2]]; cbn; [split; [by intros x ?%elem_of_nil|done]|].
    destruct (R !! i) as [r|] eqn:Hr; cbn.
    - rewrite (Hid _ _ Hr). split.
      + intros x [->|Hin]%elem_of_cons Hx; [rewrite bool_decide_eq_true_2 by done; congruence|].
        case_bool_decide; [subst; congruence|by apply IH1].
      + intros Hn. rewrite bool_decide_eq_false_2 by (intros ->; congruence). by apply IH2.
    - split; [|done]. intros x [->|Hin]%elem_of_cons Hx; [congruence|by apply IH1]. }
  destruct (R !! id) as [x|] eqn:Hx; [apply Hgen; [apply Hdom; eauto|done]|by apply Hgen].
Qed.

(** ** Properties *)

(** Cross-validation of an accepted proposal succeeds exactly when every node is
    declared by the manifest, registered, and pinned to the registered artifact, and
    every mapping from a node is permitted: the schema types agree where both are
    declared, and data of a declared classification flows only into a field that
    accepts that classification, and not out of the system through a capability whose
    egress is denied.  The answer then lists the contract each node is pinned to, in
    execution order. *)
Theorem host_validation_exact json_len p limits canonical manifest registry resolved :
  canonicalize_proposal json_len p limits = Ok canonical ->
  validate_proposal_against_host_state canonical manifest registry = Ok resolved <->
  resolved_id <$> resolved = execution_order canonical /\
  Forall (resolves manifest registry (nodes p)) resolved /\
  Forall (mapping_permitted (contract_at resolved)) (mappings p).
Proof.
  intros (Hwf & _ & Hprop & _ & Hall)%canonicalize_ok_inv. unfold validate_proposal_against_host_state.
  rewrite Hprop. pose proof (wf_node_ids _ _ _ Hwf) as Hnd.
  destruct (resolve_nodes manifest registry 0 (nodes p) (∅, [])) as [R errors] eqn:Hrun.
  destruct (resolve_nodes_spec _ _ _ _ _ _ _ Hrun) as [Herr _]. cbn [snd] in Herr.
  assert (Hids : forall v, v ∈ node_id <$> nodes p <-> v ∈ execution_order canonical)
    by (intros v; rewrite <- Hall; unfold node_id_set; by rewrite elem_of_list_to_set).
  destruct errors as [|e errors].
  - pose proof (resolved_map_spec _ _ _ _ Hnd Hrun) as Hmap.
    assert (Hid : forall id r, R !! id = Some r -> resolved_id r = id) by (intros id r Hr; by apply Hmap in Hr as [? _]).
    assert (Hdom : forall id, is_Some (R !! id) <-> id ∈ execution_order canonical).
    { intros id. rewrite <- Hids, list_elem_of_fmap. split.
      - intros [r (<- & node & Hin & Heq & _)%Hmap]. eauto.
      - intros (node & -> & Hin). destruct Herr as [Herr _]. destruct (Herr eq_refl) as [_ Hpins].
        rewrite Forall_forall in Hpins. destruct (Hpins node Hin) as [c Hc].
        exists {| resolved_id := node_id node; contract := c |}. apply Hmap. split; [done|]. by exists node. }
    set (lst := omap (fun id => R !! id) (execution_order canonical)).
    assert (Hlst : resolved_id <$> lst = execution_order canonical) by (apply omap_resolved_ids; [done|intros id; apply Hdom]).
    assert (Hres : Forall (resolves manifest registry (nodes p)) lst).
    { apply Forall_forall. intros r (id & Hin & Hr)%list_elem_of_omap. by apply Hmap in Hr as [_ ?]. }
    assert (Hflows : check_flows R 0 (mappings p) = [] <-> Forall (mapping_permitted (contract_at lst)) (mappings p)).
    { rewrite check_flows_nil. unfold mapping_permitted, lst.
      assert (Hc : forall id, contract_at (omap (fun id => R !! id) (execution_order canonical)) id = contract <$> R !! id)
        by (intros id; apply contract_at_omap; [done|intros; by apply Hdom]).
      by setoid_rewrite Hc. }
    split.
    + destruct (check_flows R 0 (mappings p)) eqn:Ef; [|done]. intros [= <-]. split_and!; [done|done|by apply Hflows].
    + intros (Hr1 & Hr2 & Hr3). assert (resolved = lst) as -> by (eapply resolved_lists_equal; [exact Hnd|done|done|congruence]).
      apply Hflows in Hr3. by rewrite Hr3.
  - split; [done|]. intros (Hr1 & Hr2 & _). exfalso. enough (e :: errors = []) by done. apply Herr. split; [done|].
    apply Forall_forall. intros node Hin. assert (Hv : node_id node ∈ resolved_id <$> resolved)
      by (rewrite Hr1; apply Hids; by apply list_elem_of_fmap_2).
    apply list_elem_of_fmap in Hv as (r & Heq & Hr). rewrite Forall_forall in Hr2.
    destruct (Hr2 r Hr) as (node' & Hin' & Heq' & Hpin).
    assert (node' = node) as -> by (eapply NoDup_fmap_inj_elem; [exact Hnd|done|done|congruence]). eauto.
Qed.

End Checks.
