(* ===== verification/Request.v ===== *)
(** * Runtime requests

    The request types of [crates/traverse-runtime/src/lib.rs] that callers of the
    runtime build, and the identity of [security.rs]. *)
From S2P Require Import Prelude Json.

Inductive PlacementTarget :=
  | LocalTarget | BrowserTarget | EdgeTarget | CloudTarget | WorkerTarget | DeviceTarget.

#[export] Instance PlacementTarget_eq_dec : EqDecision PlacementTarget.
Proof. solve_decision. Defined.

Record RuntimeIntent := {
  intent_capability_id : option string;
  intent_capability_version : option string;
  version_range : option string;
  intent_key : option string }.

Inductive RuntimeLookupScope := PublicOnly | PreferPrivate.

Record RuntimeLookup := { scope : RuntimeLookupScope; allow_ambiguity : bool }.

Record RuntimeIdentity := {
  subject_id : string;
  actor_id : option string;
  token_reference_hash : string }.

Record RuntimeContext := {
  requested_target : PlacementTarget;
  correlation_id : option string;
  caller : option string;
  traceparent : option string;
  tracestate : option string;
  metadata : option Value;
  identity : option RuntimeIdentity }.

Record RuntimeRequest := {
  request_kind : string;
  request_schema_version : string;
  request_id : string;
  intent : RuntimeIntent;
  input : Value;
  lookup_scope : RuntimeLookup;
  context : RuntimeContext;
  request_governing_spec : string }.

Inductive RuntimeResultStatus := Completed | Errored.
