(* ===== verification/ProposalRun.v ===== *)
(** * Execution of proposals

    [execute_proposal] of [crates/traverse-runtime/src/proposal.rs] and
    [execute_parallel_proposal] of [parallel_proposal.rs].  The capability runtime is
    the interface [CapabilityRuntime]: its state, and what executing a request returns
    or that it panics.  The threads of a batch are scoped; each calls [execute] once,
    and the order in which these calls take effect is an argument. *)
From S2P Require Import Prelude Json Pointer Placement Risk Contract Proposal Schedule ProposalCheck Request.

(** ** Requests *)

(** The parts of [RuntimeResult] the executors read; [error_code] is the [Debug]
    text of [error.code]. *)
Record RuntimeResult := {
  result_status : RuntimeResultStatus;
  output : option Value;
  result_error : option string }.

(** [Runtime<E>::execute]; [None] when the call panics. *)
Class CapabilityRuntime := {
  Runtime : Type;
  execute : Runtime -> RuntimeRequest -> Runtime * option RuntimeResult }.

Definition build_node_execution_request (canonical : CanonicalProposal) (node : ProposalNode) (id : string)
    (node_input : Value) : RuntimeRequest := {|
  request_kind := "runtime_request"; request_schema_version := "1.0.0";
  request_id := proposal_id (proposal canonical) +:+ "-" +:+ id;
  intent := {| intent_capability_id := Some (capability_id node);
               intent_capability_version := Some (capability_version node);
               version_range := None; intent_key := None |};
  input := node_input;
  lookup_scope := {| scope := PreferPrivate; allow_ambiguity := false |};
  context := {| requested_target := LocalTarget; correlation_id := Some (proposal_id (proposal canonical));
                caller := Some "workflow_proposal"; traceparent := None; tracestate := None; metadata := None;
                identity := None |};
  request_governing_spec := "006-runtime-request-execution" |}.

(** ** Inputs *)

Abbreviation Outputs := (gmap string Value).

(** What a mapping carries, when its source has it. *)
Definition mapped_value (canonical : CanonicalProposal) (outputs : Outputs) (m : ProposalMapping) : option Value :=
  match source m with
  | InitialInput => pointer_get (initial_input (proposal canonical)) (source_path m)
  | FromNode src => out ← outputs !! src; pointer_get out (source_path m)
  end.

Definition apply_mapping (canonical : CanonicalProposal) (outputs : Outputs) (id : string) (acc : Value)
    (m : ProposalMapping) : Value :=
  if decide (target_node_id m = id) then
    match mapped_value canonical outputs m with
    | Some v => pointer_set acc (target_path m) v
    | None => acc
    end
  else acc.

Definition assemble_node_input (canonical : CanonicalProposal) (id : string) (outputs : Outputs) : Value :=
  foldl (apply_mapping canonical outputs id) (Object []) (mappings (proposal canonical)).

(** ** Traces *)

Inductive ProposalNodeStatus := Succeeded | NodeFailed | SkippedAfterEarlierFailure.

Record ProposalNodeOutcome := {
  outcome_node_id : string;
  outcome_capability_id : string;
  outcome_capability_version : string;
  outcome_artifact_digest : string;
  status : ProposalNodeStatus;
  error_code : option string }.

Inductive ProposalTerminalState := TerminalSucceeded | TerminalFailed | Cancelled | TerminalExpired | AuthorizationRevoked.

Record AuthorizationSummary := { automatic : bool; approval_token_id : option string }.

Record ProposalTrace := {
  trace_proposal_id : string;
  trace_proposal_digest : string;
  trace_snapshot_digest : string;
  authorization : AuthorizationSummary;
  node_outcomes : list ProposalNodeOutcome;
  mapping_paths : list (string * string);
  terminal_state : ProposalTerminalState }.

Definition outcome_of (id : string) (node : ProposalNode) (s : ProposalNodeStatus) (code : option string)
    : ProposalNodeOutcome := {|
  outcome_node_id := id; outcome_capability_id := capability_id node; outcome_capability_version := capability_version node;
  outcome_artifact_digest := artifact_digest node; status := s; error_code := code |}.

Definition trace_of (canonical : CanonicalProposal) (auth : AuthorizationSummary) (digest snapshot : string)
    (outcomes : list ProposalNodeOutcome) (terminal : ProposalTerminalState) : ProposalTrace := {|
  trace_proposal_id := proposal_id (proposal canonical); trace_proposal_digest := digest;
  trace_snapshot_digest := snapshot; authorization := auth; node_outcomes := outcomes;
  mapping_paths := (fun m => (source_path m, target_path m)) <$> mappings (proposal canonical);
  terminal_state := terminal |}.

(** [HashMap] built from the nodes: a later node of the same id wins. *)
Definition nodes_by_id (canonical : CanonicalProposal) : gmap string ProposalNode :=
  foldl (fun m node => <[node_id node := node]> m) ∅ (nodes (proposal canonical)).

Section Execution.
Context `{CapabilityRuntime}.

(** ** One node at a time *)

Record RunState := {
  runtime : Runtime;
  outputs : Outputs;
  outcomes : list ProposalNodeOutcome;
  failed : bool }.

Definition store_output (id : string) (o : option Value) (outs : Outputs) : Outputs :=
  match o with Some v => <[id := v]> outs | None => outs end.

(** The body of the loop; [None] when the runtime panics. *)
Definition execute_node (canonical : CanonicalProposal) (by_id : gmap string ProposalNode) (st : RunState) (id : string)
    : option RunState :=
  match by_id !! id with
  | None => Some st
  | Some node =>
      if failed st then
        Some {| runtime := runtime st; outputs := outputs st;
                outcomes := outcomes st ++ [outcome_of id node SkippedAfterEarlierFailure None]; failed := true |}
      else
        let request := build_node_execution_request canonical node id (assemble_node_input canonical id (outputs st)) in
        match execute (runtime st) request with
        | (_, None) => None
        | (rt, Some result) =>
            match result_status result with
            | Completed =>
                Some {| runtime := rt; outputs := store_output id (output result) (outputs st);
                        outcomes := outcomes st ++ [outcome_of id node Succeeded None]; failed := false |}
            | Errored =>
                Some {| runtime := rt; outputs := outputs st;
                        outcomes := outcomes st ++ [outcome_of id node NodeFailed (result_error result)]; failed := true |}
            end
        end
  end.

Fixpoint execute_nodes (canonical : CanonicalProposal) (by_id : gmap string ProposalNode) (st : RunState)
    (ids : list string) : option RunState :=
  match ids with
  | [] => Some st
  | id :: rest => st ← execute_node canonical by_id st id; execute_nodes canonical by_id st rest
  end.

Definition execute_proposal (rt : Runtime) (canonical : CanonicalProposal) (auth : AuthorizationSummary)
    (digest snapshot : string) : option (Runtime * ProposalTrace) :=
  st ← execute_nodes canonical (nodes_by_id canonical)
         {| runtime := rt; outputs := ∅; outcomes := []; failed := false |} (execution_order canonical);
  Some (runtime st,
        trace_of canonical auth digest snapshot (outcomes st) (if failed st then TerminalFailed else TerminalSucceeded)).

(** ** Waves *)

Record ParallelExecutionLimits := {
  max_wall_time : N;
  max_wave_payload_bytes : N;
  max_concurrent_nodes : N }.

Definition default_execution_limits : ParallelExecutionLimits := {|
  max_wall_time := 30000; max_wave_payload_bytes := 1048576; max_concurrent_nodes := 8 |}.

Definition push_skipped_wave (by_id : gmap string ProposalNode) (wave : list string) : list ProposalNodeOutcome :=
  omap (fun id => node ← by_id !! id; Some (outcome_of id node SkippedAfterEarlierFailure None)) wave.

(** The outcome of a joined thread, and the output to store. *)
Definition joined_outcome (id : string) (node : ProposalNode) (joined : option RuntimeResult)
    : ProposalNodeOutcome * option Value :=
  match joined with
  | Some result =>
      match result_status result with
      | Completed => (outcome_of id node Succeeded None, output result)
      | Errored => (outcome_of id node NodeFailed (result_error result), None)
      end
  | None => (outcome_of id node NodeFailed (Some "executor_panicked"), None)
  end.

(** The calls of a batch take effect in the order [order] of their positions. *)
Fixpoint run_calls (rt : Runtime) (requests : list RuntimeRequest) (order : list nat)
    (results : gmap nat (option RuntimeResult)) : Runtime * gmap nat (option RuntimeResult) :=
  match order with
  | [] => (rt, results)
  | i :: rest =>
      match requests !! i with
      | Some request =>
          let '(rt, r) := execute rt request in run_calls rt requests rest (<[i := r]> results)
      | None => run_calls rt requests rest results
      end
  end.

Definition dispatch_batch (rt : Runtime) (canonical : CanonicalProposal) (by_id : gmap string ProposalNode)
    (batch : list (string * Value)) (order : list nat)
    : Runtime * list (string * ProposalNodeOutcome * option Value) :=
  let dispatchable := omap (fun '(id, v) => node ← by_id !! id; Some (id, node, v)) batch in
  let requests := (fun '(id, node, v) => build_node_execution_request canonical node id v) <$> dispatchable in
  let '(rt, results) := run_calls rt requests order ∅ in
  (rt, imap (fun i '(id, node, _) =>
         let '(o, out) := joined_outcome id node (default None (results !! i)) in (id, o, out)) dispatchable).

(** [slice::chunks] *)
Fixpoint chunks_fuel {A} (fuel : nat) (size : nat) (l : list A) : list (list A) :=
  match fuel, l with
  | S fuel, _ :: _ => take size l :: chunks_fuel fuel size (drop size l)
  | _, _ => []
  end.

Definition chunks {A} (size : nat) (l : list A) : list (list A) := chunks_fuel (length l) size l.

Record WaveState := {
  w_runtime : Runtime;
  w_outputs : Outputs;
  w_outcomes : list ProposalNodeOutcome;
  w_failed : bool;
  w_cancelled : bool }.

Definition is_failed (o : ProposalNodeOutcome) : bool :=
  match status o with NodeFailed => true | _ => false end.

Definition fold_outcome (st : WaveState) (entry : string * ProposalNodeOutcome * option Value) : WaveState :=
  let '(id, o, out) := entry in
  {| w_runtime := w_runtime st; w_outputs := store_output id out (w_outputs st); w_outcomes := w_outcomes st ++ [o];
     w_failed := w_failed st || is_failed o; w_cancelled := w_cancelled st |}.

Definition set_runtime (rt : Runtime) (st : WaveState) : WaveState := {|
  w_runtime := rt; w_outputs := w_outputs st; w_outcomes := w_outcomes st; w_failed := w_failed st;
  w_cancelled := w_cancelled st |}.

Fixpoint run_batches (canonical : CanonicalProposal) (by_id : gmap string ProposalNode) (st : WaveState)
    (batches : list (list (string * Value))) (orders : list (list nat)) : WaveState :=
  match batches with
  | [] => st
  | batch :: rest =>
      let '(rt, entries) := dispatch_batch (w_runtime st) canonical by_id batch (default [] (head orders)) in
      run_batches canonical by_id (foldl fold_outcome (set_runtime rt st) entries) rest (tail orders)
  end.

Definition skip_wave (by_id : gmap string ProposalNode) (wave : list string) (cancelled : bool) (st : WaveState) : WaveState := {|
  w_runtime := w_runtime st; w_outputs := w_outputs st; w_outcomes := w_outcomes st ++ push_skipped_wave by_id wave;
  w_failed := w_failed st; w_cancelled := cancelled |}.

(** What the environment decides about a wave: the time elapsed when it is reached,
    and the order of the calls of each of its batches. *)
Record WaveEnvironment := { elapsed : N; call_orders : list (list nat) }.

Context `{SerdeJson}.

Definition wave_payload (inputs : list (string * Value)) : N :=
  foldr (fun '(_, v) n => (N.of_nat (length (to_vec v)) + n)%N) 0%N inputs.

Definition run_wave (canonical : CanonicalProposal) (by_id : gmap string ProposalNode) (limits : ParallelExecutionLimits)
    (st : WaveState) (wave : list string) (env : WaveEnvironment) : WaveState :=
  if w_failed st || w_cancelled st then skip_wave by_id wave (w_cancelled st) st
  else if (max_wall_time limits <? elapsed env)%N then skip_wave by_id wave true st
  else
    let wave_inputs := (fun id => (id, assemble_node_input canonical id (w_outputs st))) <$> wave in
    if (max_wave_payload_bytes limits <? wave_payload wave_inputs)%N then skip_wave by_id wave true st
    else run_batches canonical by_id st (chunks (N.to_nat (N.max (max_concurrent_nodes limits) 1)) wave_inputs)
           (call_orders env).

Fixpoint run_waves (canonical : CanonicalProposal) (by_id : gmap string ProposalNode) (limits : ParallelExecutionLimits)
    (st : WaveState) (ws : list (list string)) (envs : list WaveEnvironment) : WaveState :=
  match ws with
  | [] => st
  | wave :: rest =>
      let env := default {| elapsed := 0; call_orders := [] |} (head envs) in
      run_waves canonical by_id limits (run_wave canonical by_id limits st wave env) rest (tail envs)
  end.

Definition execute_parallel_proposal (rt : Runtime) (canonical : CanonicalProposal) (schedule : ParallelSchedule)
    (auth : AuthorizationSummary) (digest snapshot : string) (limits : ParallelExecutionLimits)
    (envs : list WaveEnvironment) : Runtime * ProposalTrace :=
  let st := run_waves canonical (nodes_by_id canonical) limits
    {| w_runtime := rt; w_outputs := ∅; w_outcomes := []; w_failed := false; w_cancelled := false |}
    (waves schedule) envs in
  (w_runtime st,
   trace_of canonical auth digest snapshot (w_outcomes st)
     (if w_failed st then TerminalFailed else if w_cancelled st then Cancelled else TerminalSucceeded)).

End Execution.

(** ** Concurrent side effects *)

Record ParallelAuthorizationError := { auth_message : string; auth_path : string }.

Definition wave_authorization_errors (effects : gmap string EffectClass) (index : nat) (wave : list string)
    : list ParallelAuthorizationError :=
  if (length wave <=? 1)%nat then []
  else
    wave ≫= fun id =>
      if decide (effects !! id = Some PureRead) then []
      else [{| auth_message := "node '" +:+ id +:+ "' does not have effect_class pure_read and cannot run "
                 +:+ "concurrently with other nodes in wave " +:+ show_nat index;
               auth_path := "$.schedule.waves[" +:+ show_nat index +:+ "]" |}].

Definition effect_class_by_node (resolved : list ResolvedProposalNode) : gmap string EffectClass :=
  foldl (fun m r => <[resolved_id r := effect_class (risk (contract r))]> m) ∅ resolved.

(** Every error has the code [ConcurrentSideEffectDenied]. *)
Definition enforce_pure_read_only_parallelism (schedule : ParallelSchedule) (resolved : list ResolvedProposalNode)
    : Result (list ParallelAuthorizationError) unit :=
  match concat (imap (wave_authorization_errors (effect_class_by_node resolved)) (waves schedule)) with
  | [] => Ok tt
  | errors => Err errors
  end.
