(* ===== verification/ProposalRunProps.v ===== *)
(** * What an execution of a proposal does

    The sequential executor runs the nodes in order and stops at the first failure;
    a node's input holds what its mappings say; the parallel executor, under any
    interleaving of the calls of a batch, succeeds exactly when the sequential one
    does and with the same outcome for every node. *)
From S2P Require Import Prelude Json Pointer Placement Risk Contract Kahn Proposal Schedule ProposalCheck Request ProposalRun.

(** ** The nodes by id *)

Lemma foldl_insert_lookup {A} (key : A -> string) (l : list A) (m : gmap string A) id x :
  NoDup (key <$> l) -> (forall y, y ∈ l -> m !! key y = None) ->
  foldl (fun m y => <[key y := y]> m) m l !! id = Some x <-> m !! id = Some x \/ x ∈ l /\ key x = id.
Proof.
  revert m. induction l as [|y l IH]; intros m Hnd Hm; cbn [foldl].
  - split; [by left|]. intros [?|[?%elem_of_nil _]]; done.
  - rewrite fmap_cons in Hnd. apply NoDup_cons in Hnd as [Hnin Hnd]. rewrite IH; [|done|].
    + destruct (decide (id = key y)) as [->|Hne].
      * rewrite lookup_insert_eq, elem_of_cons, (Hm y ltac:(left)). split.
        -- intros [[= ->]|[Hx Hk]]; [by right; split; [left|]|]. exfalso. apply Hnin. rewrite <- Hk.
           by apply list_elem_of_fmap_2.
        -- intros [?|[[->|Hx] Hk]]; [done|by left|by right].
      * rewrite lookup_insert_ne, elem_of_cons by done. naive_solver.
    + intros z Hz. rewrite lookup_insert_ne; [apply Hm; by right|]. intros Heq. apply Hnin. rewrite Heq.
      by apply list_elem_of_fmap_2.
Qed.

Lemma nodes_by_id_spec canonical id node :
  NoDup (node_id <$> nodes (proposal canonical)) ->
  nodes_by_id canonical !! id = Some node <-> node ∈ nodes (proposal canonical) /\ node_id node = id.
Proof.
  intros Hnd. unfold nodes_by_id. rewrite foldl_insert_lookup; [|done|intros; apply lookup_empty].
  rewrite lookup_empty. naive_solver.
Qed.

(** ** Accepted proposals *)

Section Accepted.
Context (json_len : Value -> option N) (p : WorkflowProposal) (limits : ProposalLimits) (canonical : CanonicalProposal)
  (Hcanonical : canonicalize_proposal json_len p limits = Ok canonical).

Lemma accepted_proposal : proposal canonical = p.
Proof using All. by apply canonicalize_ok_inv in Hcanonical as (_ & _ & ? & _). Qed.

Lemma accepted_node_ids : NoDup (node_id <$> nodes (proposal canonical)).
Proof using All. rewrite accepted_proposal. by apply canonicalize_ok_inv in Hcanonical as (Hwf & _); apply Hwf. Qed.

Lemma accepted_order_nodes id :
  id ∈ execution_order canonical <-> exists node, nodes_by_id canonical !! id = Some node.
Proof using All.
  setoid_rewrite nodes_by_id_spec; [|apply accepted_node_ids]. rewrite accepted_proposal.
  apply canonicalize_ok_inv in Hcanonical as (_ & _ & _ & _ & Hall). rewrite <- Hall. unfold node_id_set.
  rewrite elem_of_list_to_set, list_elem_of_fmap. naive_solver.
Qed.

Lemma accepted_order_NoDup : NoDup (execution_order canonical).
Proof using All. apply canonicalize_ok_inv in Hcanonical as (_ & _ & _ & Hlex & _). by eapply lex_topological_NoDup. Qed.

Lemma accepted_source_first m src l1 l2 :
  m ∈ mappings p -> source m = FromNode src -> execution_order canonical = l1 ++ target_node_id m :: l2 -> src ∈ l1.
Proof using All.
  apply canonicalize_ok_inv in Hcanonical as (Hwf & _ & _ & Hlex & _). intros Hm Hsrc Heq. rewrite Heq in Hlex.
  pose proof (wf_mappings _ _ _ Hwf) as Hms. rewrite Forall_forall in Hms.
  specialize (Hms m Hm) as (_ & _ & _ & Hs). rewrite Hsrc in Hs. destruct Hs as [_ HE].
  destruct (lex_topological_before _ _ _ _ _ _ src Hlex HE); set_solver.
Qed.

(** ** Sequential execution *)

Context `{CapabilityRuntime}.

(** [o] reports on a declared node. *)
Definition reports (o : ProposalNodeOutcome) : Prop :=
  exists node, node ∈ nodes p /\ o = outcome_of (node_id node) node (status o) (error_code o).

(** The runtime after a list of calls. *)
Definition after_calls (rt : Runtime) (requests : list RuntimeRequest) : Runtime :=
  foldl (fun rt q => (execute rt q).1) rt requests.

Lemma reports_outcome id node s code :
  nodes_by_id canonical !! id = Some node -> reports (outcome_of id node s code).
Proof using All.
  intros [Hin <-]%nodes_by_id_spec; [|apply accepted_node_ids]. exists node. by rewrite <- accepted_proposal.
Qed.

(** After a failure the remaining nodes are skipped and the runtime is not called. *)
Lemma execute_nodes_skip st ids st' :
  Forall (fun id => id ∈ execution_order canonical) ids -> failed st = true ->
  execute_nodes canonical (nodes_by_id canonical) st ids = Some st' ->
  runtime st' = runtime st /\ failed st' = true /\ exists os, outcomes st' = outcomes st ++ os /\
    outcome_node_id <$> os = ids /\ status <$> os = replicate (length ids) SkippedAfterEarlierFailure /\ Forall reports os.
Proof using All.
  intros Hids. revert st. induction Hids as [|id ids Hid Hids IH]; intros st Hf; cbn [execute_nodes].
  { intros [= <-]. split_and!; [done..|]. exists []. by rewrite app_nil_r. }
  unfold execute_node. apply accepted_order_nodes in Hid as [node Hnode]. rewrite Hnode, Hf.
  intros (Hrt & Hf' & os & Hos & H1 & H2 & H3)%IH; [|done]. cbn [runtime outcomes] in *. split_and!; [done|done|].
  eexists (_ :: os). rewrite Hos, <- app_assoc. split_and!; [done|by rewrite fmap_cons, H1|by rewrite fmap_cons, H2|].
  constructor; [by apply reports_outcome|done].
Qed.

(** The part of a run from a state without failure. *)
Lemma execute_nodes_spec st ids st' :
  Forall (fun id => id ∈ execution_order canonical) ids -> failed st = false ->
  execute_nodes canonical (nodes_by_id canonical) st ids = Some st' ->
  exists ran requests os skipped, ids = ran ++ skipped /\ outcomes st' = outcomes st ++ os /\
    outcome_node_id <$> os = ids /\ Forall reports os /\
    runtime st' = after_calls (runtime st) requests /\
    request_id <$> requests = (fun id => proposal_id p +:+ "-" +:+ id) <$> ran /\
    if failed st' then exists ok id, ran = ok ++ [id] /\
      status <$> os = replicate (length ok) Succeeded ++ NodeFailed :: replicate (length skipped) SkippedAfterEarlierFailure
    else skipped = [] /\ status <$> os = replicate (length ids) Succeeded.
Proof using All.
  intros Hids. revert st. induction Hids as [|id ids Hid Hids IH]; intros st Hf; cbn [execute_nodes].
  { intros [= <-]. exists [], [], [], []. rewrite !app_nil_r, Hf. split_and!; (done || constructor). }
  unfold execute_node. apply accepted_order_nodes in Hid as [node Hnode]. rewrite Hnode, Hf. cbv zeta.
  set (request := build_node_execution_request canonical node id _).
  assert (Hreq : request_id request = proposal_id p +:+ "-" +:+ id) by (unfold request; cbn; by rewrite accepted_proposal).
  destruct (execute (runtime st) request) as [rt [result|]] eqn:Hexec; [|done].
  assert (Hrt : rt = (execute (runtime st) request).1) by by rewrite Hexec.
  destruct (result_status result); cbn [mbind option_bind]; intros Hrun.
  - apply IH in Hrun as (ran & requests & os & skipped & -> & Hos & H1 & H2 & H3 & H4 & H5); [|done].
    cbn [runtime outcomes] in *. exists (id :: ran), (request :: requests), (outcome_of id node Succeeded None :: os), skipped.
    rewrite Hos, <- app_assoc, !fmap_cons, H1, H4, Hreq. split_and!; try done.
    + constructor; [by apply reports_outcome|done].
    + unfold after_calls. cbn [foldl]. by rewrite <- Hrt.
    + destruct (failed st').
      * destruct H5 as (ok & last & -> & ->). by exists (id :: ok), last.
      * destruct H5 as [-> ->]. done.
  - apply execute_nodes_skip in Hrun as (Hrun1 & Hrun2 & os & Hos & H1 & H2 & H3); [|done|done].
    cbn [runtime outcomes] in *. exists [id], [request], (outcome_of id node NodeFailed (result_error result) :: os), ids.
    rewrite Hos, <- app_assoc, !fmap_cons, H1, Hreq, Hrun2, H2. split_and!; try done.
    + constructor; [by apply reports_outcome|done].
    + unfold after_calls. cbn [foldl]. by rewrite <- Hrt.
    + by exists [], id.
Qed.

End Accepted.

(** A sequential execution reports every node of the proposal once, in execution
    order; it calls the runtime once for each node up to the first failure, in that
    order, and not at all after it: the nodes before the failed one succeeded, those
    after it are skipped.  It ends as failed exactly when a node failed. *)
Theorem sequential_stops_at_first_failure `{CapabilityRuntime} json_len p limits canonical rt auth digest snapshot rt' t :
  canonicalize_proposal json_len p limits = Ok canonical ->
  execute_proposal rt canonical auth digest snapshot = Some (rt', t) ->
  outcome_node_id <$> node_outcomes t = execution_order canonical /\ Forall (reports p) (node_outcomes t) /\
  exists ran skipped requests, execution_order canonical = ran ++ skipped /\ rt' = after_calls rt requests /\
    request_id <$> requests = (fun id => proposal_id p +:+ "-" +:+ id) <$> ran /\
    ((terminal_state t = TerminalSucceeded /\ skipped = [] /\
      status <$> node_outcomes t = replicate (length ran) Succeeded) \/
     (terminal_state t = TerminalFailed /\ exists ok id, ran = ok ++ [id] /\
      status <$> node_outcomes t =
        replicate (length ok) Succeeded ++ NodeFailed :: replicate (length skipped) SkippedAfterEarlierFailure)).
Proof.
  intros Hc. unfold execute_proposal. destruct (execute_nodes _ _ _ _) as [st|] eqn:Hrun; [|done]. intros [= <- <-].
  apply (execute_nodes_spec _ _ _ _ Hc) in Hrun as (ran & requests & os & skipped & Heq & Hos & H1 & H2 & H3 & H4 & H5);
    [|by apply Forall_forall|done].
  cbn in Hos. cbn [node_outcomes terminal_state trace_of]. rewrite Hos. split_and!; [done|done|].
  exists ran, skipped, requests. split_and!; [done|done|done|]. destruct (failed st).
  - right. split; [done|]. destruct H5 as (ok & id & -> & ?). eauto.
  - left. destruct H5 as [-> H5]. rewrite app_nil_r in Heq. rewrite <- Heq. done.
Qed.

(** ** Inputs *)

Lemma foldl_keeps_path canonical outs id path v acc ms :
  lookup_path acc path = Some v ->
  (forall m, m ∈ ms -> target_node_id m = id -> diverge (segments (target_path m)) path) ->
  lookup_path (foldl (apply_mapping canonical outs id) acc ms) path = Some v.
Proof.
  revert acc. induction ms as [|m ms IH]; intros acc Hacc Hd; [done|]. cbn [foldl]. apply IH.
  - unfold apply_mapping. case_decide as Ht; [|done]. destruct (mapped_value canonical outs m); [|done].
    unfold pointer_set. rewrite lookup_set_other; [done|]. apply Hd; [left|done].
  - intros m' Hm'. apply Hd. by right.
Qed.

(** A node's assembled input holds, at the target path of each of its mappings,
    the value found at the mapping's source path, in the initial input or in the
    output of the source node, unless a later mapping of the same node writes a path
    that continues it or is continued by it. *)
Theorem assembled_input_has_mapped_value canonical outs l1 m l2 v :
  mappings (proposal canonical) = l1 ++ m :: l2 -> mapped_value canonical outs m = Some v ->
  simple_pointer (target_path m) ->
  (forall m', m' ∈ l2 -> target_node_id m' = target_node_id m ->
    diverge (segments (target_path m')) (segments (target_path m))) ->
  pointer_get (assemble_node_input canonical (target_node_id m) outs) (target_path m) = Some v.
Proof.
  intros Hms Hv Hsimple Hd. apply pointer_get_simple; [done|]. unfold assemble_node_input.
  rewrite Hms, foldl_app. cbn [foldl]. apply foldl_keeps_path; [|done].
  unfold apply_mapping. rewrite decide_True, Hv by done. apply lookup_set_same.
Qed.

(** The input depends on the outputs of the sources of the node's mappings only. *)
Lemma assemble_agree canonical id outs outs' :
  (forall m src, m ∈ mappings (proposal canonical) -> target_node_id m = id -> source m = FromNode src ->
    outs !! src = outs' !! src) ->
  assemble_node_input canonical id outs = assemble_node_input canonical id outs'.
Proof.
  unfold assemble_node_input. generalize (Object []) as acc.
  induction (mappings (proposal canonical)) as [|m ms IH]; intros acc Hag; [done|]. cbn [foldl].
  rewrite (IH (apply_mapping canonical outs id acc m)) by (intros m' src Hm'; apply Hag; by right).
  f_equal. unfold apply_mapping, mapped_value. case_decide as Ht; [|done].
  destruct (source m) as [|src] eqn:Hs; [done|]. by rewrite (Hag m src ltac:(left) Ht Hs).
Qed.

(** ** Parallel execution *)

(** The runtime answers a request the same way whatever it did before. *)
Class PureRuntime (R : CapabilityRuntime) := {
  answer : RuntimeRequest -> option RuntimeResult;
  answer_spec : forall rt q, (execute rt q).2 = answer q }.

Section Parallel.
Context (json_len : Value -> option N) (p : WorkflowProposal) (limits : ProposalLimits) (canonical : CanonicalProposal)
  (Hcanonical : canonicalize_proposal json_len p limits = Ok canonical).
Context `{R : CapabilityRuntime} `{!PureRuntime R}.

Abbreviation by_id := (nodes_by_id canonical).

(** What node [id] answers when the outputs so far are [outs]. *)
Definition node_answer (outs : Outputs) (id : string) : option RuntimeResult :=
  node ← by_id !! id;
  answer (build_node_execution_request canonical node id (assemble_node_input canonical id outs)).

(** [outs] are the outputs of a run in which every node of [ids] completes. *)
Definition solution (ids : list string) (outs : Outputs) : Prop :=
  forall id, id ∈ ids -> exists r, node_answer outs id = Some r /\ result_status r = Completed /\ outs !! id = output r.

Definition agree (ids : list string) (outs outs' : Outputs) : Prop := forall id, id ∈ ids -> outs !! id = outs' !! id.

(** The sources of a node's mappings are in [before]. *)
Definition sources_in (before : list string) (id : string) : Prop :=
  forall m src, m ∈ mappings p -> target_node_id m = id -> source m = FromNode src -> src ∈ before.

Lemma node_answer_agree before outs outs' id :
  sources_in before id -> agree before outs outs' -> node_answer outs id = node_answer outs' id.
Proof.
  intros Hs Hag. unfold node_answer. destruct (by_id !! id) as [node|]; [|done]. cbn. do 2 f_equal.
  apply assemble_agree. rewrite (accepted_proposal _ _ _ _ Hcanonical). intros m src Hm Ht Hsrc. apply Hag. eauto.
Qed.

Lemma store_output_other id o outs id' : id <> id' -> store_output id o outs !! id' = outs !! id'.
Proof. destruct o; cbn; [intros; by rewrite lookup_insert_ne|done]. Qed.

Lemma store_output_same id o outs : outs !! id = None -> store_output id o outs !! id = o.
Proof. destruct o; cbn; [intros; by rewrite lookup_insert_eq|done]. Qed.

(** Runs only set the outputs of the nodes they run. *)
Definition unset (ids : list string) (outs : Outputs) : Prop := forall id, id ∈ ids -> outs !! id = None.

Definition succeeded (id : string) : list ProposalNodeOutcome :=
  match by_id !! id with Some node => [outcome_of id node Succeeded None] | None => [] end.

(** The order has been run up to [before]: every node runs after its sources. *)
Fixpoint ordered_from (before : list string) (ids : list string) : Prop :=
  match ids with
  | [] => True
  | id :: rest => sources_in before id /\ ordered_from (before ++ [id]) rest
  end.

(** A sequential run without failure is a run of a solution. *)
Lemma execute_nodes_solution before ids st st' :
  Forall (fun id => id ∈ execution_order canonical) ids -> NoDup ids -> ordered_from before ids ->
  (forall id, id ∈ ids -> id ∉ before) -> unset ids (outputs st) -> failed st = false ->
  execute_nodes canonical by_id st ids = Some st' -> failed st' = false ->
  agree before (outputs st) (outputs st') /\ solution ids (outputs st') /\
  outcomes st' = outcomes st ++ (ids ≫= succeeded) /\ (forall id, id ∉ ids -> outputs st' !! id = outputs st !! id).
Proof.
  intros Hids. revert before st. induction Hids as [|id ids Hid Hids IH]; intros before st Hnd Hord Hdisj Hun Hf.
  { cbn [execute_nodes]. intros [= <-] _. split_and!; [done|by intros ? ?%elem_of_nil|by rewrite app_nil_r|done]. }
  apply NoDup_cons in Hnd as [Hnin Hnd]. destruct Hord as [Hsrc Hord]. cbn [execute_nodes]. unfold execute_node.
  apply (accepted_order_nodes _ _ _ _ Hcanonical) in Hid as [node Hnode]. rewrite Hnode, Hf. cbv zeta.
  set (request := build_node_execution_request canonical node id _).
  destruct (execute (runtime st) request) as [rt r] eqn:Hexec.
  assert (Hans : node_answer (outputs st) id = r)
    by (unfold node_answer; rewrite Hnode; cbn; by rewrite <- (answer_spec (runtime st)); fold request; rewrite Hexec).
  destruct r as [result|]; [|done]. destruct (result_status result) eqn:Hstatus; cbn [mbind option_bind]; intros Hrun Hok.
  2:{ exfalso. apply (execute_nodes_skip _ _ _ _ Hcanonical) in Hrun as (_ & Hf' & _); [congruence|done|done]. }
  assert (Hdisj' : forall id', id' ∈ ids -> id' ∉ before ++ [id]).
  { intros id' Hid' [Hb| ->%list_elem_of_singleton]%elem_of_app; [|done]. apply (Hdisj id'); [by right|done]. }
  assert (Hun' : unset ids (store_output id (output result) (outputs st))).
  { intros id' Hid'. rewrite store_output_other by (intros ->; done). apply Hun. by right. }
  match type of Hrun with execute_nodes _ _ ?s _ = _ =>
    destruct (IH _ s Hnd Hord Hdisj' Hun' eq_refl Hrun Hok) as (Hag & Hsol & Hos & Hkeep) end.
  cbn [outputs outcomes] in *. assert (Hidout : outputs st' !! id = output result).
    { rewrite Hkeep by done. apply store_output_same. apply Hun. left. }
    assert (Hagb : agree before (outputs st) (outputs st')).
    { intros b Hb. rewrite Hkeep; [|intros Hin; apply (Hdisj b); [by right|done]].
      rewrite store_output_other; [done|]. intros ->. apply (Hdisj b); [left|done]. }
    split_and!; [done| | |].
    + intros id' [->|Hin]%elem_of_cons; [|by apply Hsol]. exists result. split_and!; [|done|done].
      by rewrite <- (node_answer_agree before (outputs st)).
    + rewrite Hos. cbn. unfold succeeded at 2. rewrite Hnode. by rewrite <- app_assoc.
    + intros id' Hn. rewrite not_elem_of_cons in Hn. destruct Hn. rewrite Hkeep by done. by rewrite store_output_other.
Qed.

(** With a solution at hand the sequential run completes. *)
Lemma solution_execute_nodes before ids O st :
  Forall (fun id => id ∈ execution_order canonical) ids -> NoDup ids -> ordered_from before ids ->
  (forall id, id ∈ ids -> id ∉ before) -> unset ids (outputs st) -> failed st = false ->
  solution ids O -> agree before (outputs st) O ->
  exists st', execute_nodes canonical by_id st ids = Some st' /\ failed st' = false.
Proof.
  intros Hids. revert before st. induction Hids as [|id ids Hid Hids IH]; intros before st Hnd Hord Hdisj Hun Hf Hsol Hag.
  { by exists st. }
  apply NoDup_cons in Hnd as [Hnin Hnd]. destruct Hord as [Hsrc Hord]. cbn [execute_nodes]. unfold execute_node.
  apply (accepted_order_nodes _ _ _ _ Hcanonical) in Hid as [node Hnode]. rewrite Hnode, Hf. cbv zeta.
  set (request := build_node_execution_request canonical node id _).
  destruct (Hsol id ltac:(left)) as (r & Hr & Hstatus & Hout).
  rewrite <- (node_answer_agree before (outputs st)) in Hr by done. unfold node_answer in Hr. rewrite Hnode in Hr.
  cbn [mbind option_bind] in Hr. fold request in Hr. rewrite <- (answer_spec (runtime st)) in Hr.
  destruct (execute (runtime st) request) as [rt result]. cbn [snd] in Hr. subst result. rewrite Hstatus. cbn [mbind option_bind].
  apply (IH (before ++ [id])); cbn [outputs failed]; try done.
  - intros id' Hid' [Hb| ->%list_elem_of_singleton]%elem_of_app; [|done]. apply (Hdisj id'); [by right|done].
  - intros id' Hid'. rewrite store_output_other by (intros ->; done). apply Hun. by right.
  - intros id' Hid'. apply Hsol. by right.
  - intros b [Hb| ->%list_elem_of_singleton]%elem_of_app.
    + rewrite store_output_other; [by apply Hag|]. intros ->. apply (Hdisj b); [left|done].
    + rewrite store_output_same; [done|]. apply Hun. left.
Qed.

(** *** Batches *)

(** Every call of the batch takes effect. *)
Lemma run_calls_spec rt requests order results :
  let '(_, results') := run_calls rt requests order results in
  forall i q, requests !! i = Some q -> results' !! i = if decide (i ∈ order) then Some (answer q) else results !! i.
Proof.
  revert rt results. induction order as [|k order IH]; intros rt results; cbn [run_calls].
  { intros i q _. by rewrite decide_False by apply not_elem_of_nil. }
  destruct (requests !! k) as [q0|] eqn:Hk.
  - destruct (execute rt q0) as [rt1 r] eqn:He. assert (Hr : r = answer q0) by (by rewrite <- (answer_spec rt), He).
    specialize (IH rt1 (<[k := r]> results)). destruct (run_calls rt1 requests order _) as [rt2 results2].
    intros i q Hi. rewrite (IH i q Hi). destruct (decide (i ∈ order)) as [Hin|Hnin].
    + by rewrite decide_True by by right.
    + destruct (decide (i = k)) as [->|Hne].
      * rewrite lookup_insert_eq, decide_True by left. by simplify_eq.
      * rewrite lookup_insert_ne, decide_False by (done || rewrite not_elem_of_cons; done). done.
  - specialize (IH rt results). destruct (run_calls rt requests order results) as [rt2 results2].
    intros i q Hi. rewrite (IH i q Hi). repeat case_decide; try done; exfalso; set_solver.
Qed.

(** What a dispatched node contributes. *)
Definition entry (e : string * Value) : option (string * ProposalNodeOutcome * option Value) :=
  node ← by_id !! e.1;
  let '(o, out) := joined_outcome e.1 node (answer (build_node_execution_request canonical node e.1 e.2)) in
  Some (e.1, o, out).

Lemma dispatch_batch_spec rt batch order :
  Forall (fun e => is_Some (by_id !! e.1)) batch -> order ≡ₚ seq 0 (length batch) ->
  (dispatch_batch rt canonical by_id batch order).2 = omap entry batch.
Proof.
  intros Hall Horder. unfold dispatch_batch. cbv zeta.
  set (dispatchable := omap (fun '(id, v) => node ← by_id !! id; Some (id, node, v)) batch).
  set (requests := (fun '(id, node, v) => build_node_execution_request canonical node id v) <$> dispatchable).
  pose proof (run_calls_spec rt requests order ∅) as Hcalls.
  destruct (run_calls rt requests order ∅) as [rt' results]. cbn [snd].
  assert (Hlen : length dispatchable = length batch).
  { unfold dispatchable. clear -Hall. induction Hall as [|[id v] batch [node Hn] _ IH]; [done|]. cbn in *. rewrite Hn. cbn. by rewrite IH. }
  assert (Hres : forall i id node v, dispatchable !! i = Some (id, node, v) ->
    results !! i = Some (answer (build_node_execution_request canonical node id v))).
  { intros i id node v Hi. rewrite (Hcalls i (build_node_execution_request canonical node id v)).
    - rewrite decide_True; [done|]. rewrite Horder. apply elem_of_seq. apply lookup_lt_Some in Hi. lia.
    - unfold requests. by rewrite list_lookup_fmap, Hi. }
  transitivity ((fun '(id, node, v) =>
    let '(o, out) := joined_outcome id node (answer (build_node_execution_request canonical node id v)) in (id, o, out)) <$> dispatchable).
  - apply list_eq. intros i. rewrite list_lookup_imap, list_lookup_fmap.
    destruct (dispatchable !! i) as [[[id node] v]|] eqn:Hi; [|done]. cbn. by rewrite (Hres _ _ _ _ Hi).
  - unfold dispatchable, entry. clear -Hall. induction Hall as [|[id v] batch [node Hn] _ IH]; [done|].
    cbn in *. rewrite Hn. cbn. rewrite IH. by destruct (joined_outcome _ _ _).
Qed.

Lemma foldl_set_runtime rt st es : foldl fold_outcome (set_runtime rt st) es = set_runtime rt (foldl fold_outcome st es).
Proof. revert st. induction es as [|[[id o] out] es IH]; intros st; [done|]. cbn [foldl]. by rewrite <- IH. Qed.

(** The calls of every batch take effect, in some order. *)
Definition fair_orders {A} (batches : list (list A)) (orders : list (list nat)) : Prop :=
  Forall2 (fun batch order => order ≡ₚ seq 0 (length batch)) batches orders.

Lemma run_batches_spec st batches orders :
  Forall (fun e => is_Some (by_id !! e.1)) (concat batches) -> fair_orders batches orders ->
  exists rt, run_batches canonical by_id st batches orders =
    set_runtime rt (foldl fold_outcome st (omap entry (concat batches))).
Proof.
  intros Hall Hfair. revert st Hall. induction Hfair as [|batch order batches orders Ho Hfair IH]; intros st Hall.
  { exists (w_runtime st). by destruct st. }
  cbn [concat] in *. apply Forall_app in Hall as [Hb Hall]. cbn [run_batches default head tail].
  pose proof (dispatch_batch_spec (w_runtime st) batch order Hb Ho) as Hd. cbn.
  destruct (dispatch_batch (w_runtime st) canonical by_id batch order) as [rt1 entries]. cbn [snd] in Hd. subst entries.
  destruct (IH (foldl fold_outcome (set_runtime rt1 st) (omap entry batch)) Hall) as [rt2 ->].
  exists rt2. rewrite foldl_set_runtime, foldl_set_runtime, omap_app, foldl_app. done.
Qed.

Lemma concat_chunks_fuel {A} fuel size (l : list A) : 0 < size -> length l <= fuel -> concat (chunks_fuel fuel size l) = l.
Proof.
  intros Hs. revert l. induction fuel as [|fuel IH]; intros [|x l] Hl; cbn [chunks_fuel]; try done; cbn in Hl; [lia|].
  cbn [concat]. rewrite IH; [apply take_drop|]. rewrite length_drop. cbn. lia.
Qed.

Lemma concat_chunks {A} size (l : list A) : 0 < size -> concat (chunks size l) = l.
Proof. intros. by apply concat_chunks_fuel. Qed.

Lemma chunks_fmap {A B} (f : A -> B) size (l : list A) : chunks size (f <$> l) = (fun c : list A => f <$> c) <$> chunks size l.
Proof.
  unfold chunks. rewrite length_fmap. generalize (length l) at 1 2 as fuel. intros fuel. revert l.
  induction fuel as [|fuel IH]; intros [|x l]; try done. rewrite fmap_cons. cbn [chunks_fuel]. rewrite fmap_cons.
  f_equal; [by rewrite fmap_take, fmap_cons|]. rewrite <- IH. by rewrite fmap_drop, fmap_cons.
Qed.

(** *** Waves *)

Lemma fair_orders_fmap {A B} (f : A -> B) (batches : list (list A)) orders :
  fair_orders batches orders -> fair_orders ((fun c : list A => f <$> c) <$> batches) orders.
Proof. unfold fair_orders. intros Hf. apply Forall2_fmap_l. eapply Forall2_impl; [exact Hf|]. intros b o Hbo. cbn beta. unfold compose. by rewrite length_fmap. Qed.

(** The entries of a wave whose inputs were assembled from [outs]. *)
Definition wave_entries (outs : Outputs) (ids : list string) : list (string * ProposalNodeOutcome * option Value) :=
  omap entry ((fun id => (id, assemble_node_input canonical id outs)) <$> ids).

Lemma wave_entries_cons outs id ids node o out :
  by_id !! id = Some node ->
  joined_outcome id node (answer (build_node_execution_request canonical node id (assemble_node_input canonical id outs))) = (o, out) ->
  wave_entries outs (id :: ids) = (id, o, out) :: wave_entries outs ids.
Proof.
  intros Hnode Hj. unfold wave_entries. rewrite fmap_cons. cbn [omap list_omap]. unfold entry at 1. cbn [fst snd].
  rewrite Hnode. cbn [mbind option_bind]. by rewrite Hj.
Qed.

(** Folding in the outcomes of a wave that does not fail. *)
Lemma fold_wave_ok outs ids st :
  Forall (fun id => is_Some (by_id !! id)) ids -> NoDup ids -> unset ids (w_outputs st) ->
  let st' := foldl fold_outcome st (wave_entries outs ids) in
  w_failed st' = false ->
  (forall id, id ∈ ids -> exists r, node_answer outs id = Some r /\ result_status r = Completed /\ w_outputs st' !! id = output r) /\
  w_outcomes st' = w_outcomes st ++ (ids ≫= succeeded) /\ (forall id, id ∉ ids -> w_outputs st' !! id = w_outputs st !! id) /\
  w_failed st = false /\ w_cancelled st' = w_cancelled st.
Proof.
  intros Hids. revert st. induction Hids as [|id ids [node Hnode] Hids IH]; intros st Hnd Hun; cbv zeta.
  { cbn. intros. split_and!; [by intros ? ?%elem_of_nil|by rewrite app_nil_r|done..]. }
  apply NoDup_cons in Hnd as [Hnin Hnd].
  destruct (joined_outcome id node (answer (build_node_execution_request canonical node id (assemble_node_input canonical id outs))))
    as [o out] eqn:Hj. rewrite (wave_entries_cons _ _ _ _ _ _ Hnode Hj). cbn [foldl]. intros Hok.
  assert (Hun' : unset ids (w_outputs (fold_outcome st (id, o, out)))).
  { intros id' Hid'. cbn. rewrite store_output_other by (intros ->; done). apply Hun. by right. }
  destruct (IH _ Hnd Hun' Hok) as (Hans & Hos & Hkeep & Hf & Hc). cbn [fold_outcome w_outcomes w_outputs w_failed w_cancelled] in *.
  apply orb_false_iff in Hf as [Hf Hfo].
  assert (Hmine : exists r, node_answer outs id = Some r /\ result_status r = Completed /\ out = output r /\
    o = outcome_of id node Succeeded None).
  { unfold node_answer. rewrite Hnode. cbn [mbind option_bind]. unfold joined_outcome in Hj.
    destruct (answer _) as [r|]; [|by injection Hj as <- <-]. exists r.
    destruct (result_status r); injection Hj as <- <-; done. }
  destruct Hmine as (r & Hr & Hst & -> & ->). split_and!; [| | |done|done].
  - intros id' [->|Hin]%elem_of_cons; [|by apply Hans]. exists r. split_and!; [done|done|]. rewrite Hkeep by done.
    apply store_output_same. apply Hun. left.
  - rewrite Hos. cbn. unfold succeeded at 2. rewrite Hnode. by rewrite <- app_assoc.
  - intros id' [Hne Hn]%not_elem_of_cons. rewrite Hkeep by done. by rewrite store_output_other.
Qed.

(** A wave of a solution does not fail. *)
Lemma fold_wave_solution outs ids st :
  (forall id, id ∈ ids -> exists r, node_answer outs id = Some r /\ result_status r = Completed) ->
  w_failed st = false -> w_failed (foldl fold_outcome st (wave_entries outs ids)) = false.
Proof.
  revert st. induction ids as [|id ids IH]; intros st Hans Hf; [done|].
  destruct (Hans id ltac:(left)) as (r & Hr & Hst). unfold node_answer in Hr.
  unfold wave_entries. rewrite fmap_cons. cbn [omap list_omap]. unfold entry at 1. cbn [fst snd].
  destruct (by_id !! id) as [node|]; [|done]. cbn [mbind option_bind] in *. rewrite Hr. cbn [joined_outcome]. rewrite Hst.
  cbn [foldl]. apply IH; [intros id' Hid'; apply Hans; by right|]. cbn. by rewrite Hf.
Qed.

Context `{SerdeJson} (xlimits : ParallelExecutionLimits).

(** The environment lets every call of the wave take effect once. *)
Definition fair_wave (wave : list string) (env : WaveEnvironment) : Prop :=
  fair_orders (chunks (N.to_nat (N.max (max_concurrent_nodes xlimits) 1)) wave) (call_orders env).

(** A wave is skipped, or all its entries are folded in. *)
Lemma run_wave_cases st wave env :
  Forall (fun id => is_Some (by_id !! id)) wave -> fair_wave wave env ->
  (exists c, run_wave canonical by_id xlimits st wave env = skip_wave by_id wave c st /\
     (w_failed st = true \/ c = true)) \/
  w_failed st = false /\ w_cancelled st = false /\
  exists rt, run_wave canonical by_id xlimits st wave env =
    set_runtime rt (foldl fold_outcome st (wave_entries (w_outputs st) wave)).
Proof.
  intros Hall Hfair. unfold run_wave.
  destruct (w_failed st) eqn:Hf; [left; cbn; eauto|]. destruct (w_cancelled st) eqn:Hc; [left; cbn; eauto|]. cbn [orb].
  destruct (max_wall_time xlimits <? elapsed env)%N; [left; eauto|]. cbv zeta.
  destruct (max_wave_payload_bytes xlimits <? _)%N; [left; eauto|]. right. split_and!; [done|done|].
  set (size := N.to_nat (N.max (max_concurrent_nodes xlimits) 1)). set (f := fun id => (id, assemble_node_input canonical id (w_outputs st))).
  assert (Hsize : 0 < size) by (unfold size; lia).
  destruct (run_batches_spec st (chunks size (f <$> wave)) (call_orders env)) as [rt Hrt].
  - rewrite concat_chunks by done. apply Forall_fmap. eapply Forall_impl; [exact Hall|]. done.
  - rewrite chunks_fmap. by apply fair_orders_fmap.
  - exists rt. rewrite Hrt, concat_chunks by done. done.
Qed.

Fixpoint waves_from (before : list string) (ws : list (list string)) : Prop :=
  match ws with
  | [] => True
  | w :: rest => (forall id, id ∈ w -> sources_in before id) /\ waves_from (before ++ w) rest
  end.

Fixpoint fair_waves (ws : list (list string)) (envs : list WaveEnvironment) : Prop :=
  match ws with
  | [] => True
  | w :: rest => fair_wave w (default {| elapsed := 0; call_orders := [] |} (head envs)) /\ fair_waves rest (tail envs)
  end.

Lemma run_wave_flags st wave env :
  Forall (fun id => is_Some (by_id !! id)) wave -> fair_wave wave env ->
  w_failed st = true \/ w_cancelled st = true ->
  exists c, run_wave canonical by_id xlimits st wave env = skip_wave by_id wave c st /\ (w_failed st = true \/ c = true).
Proof. intros Hall Hfair Hflags. destruct (run_wave_cases st wave env Hall Hfair) as [?|(Hf & Hc & _)]; [done|]. destruct Hflags; congruence. Qed.

(** Flags are never cleared. *)
Lemma run_waves_flags ws envs st :
  Forall (fun id => is_Some (by_id !! id)) (concat ws) -> fair_waves ws envs ->
  w_failed st = true \/ w_cancelled st = true ->
  let st' := run_waves canonical by_id xlimits st ws envs in w_failed st' = true \/ w_cancelled st' = true.
Proof.
  revert envs st. induction ws as [|w ws IH]; intros envs st Hall Hfair Hflags; [done|]. cbn [run_waves].
  cbn [concat] in Hall. apply Forall_app in Hall as [Hw Hall]. destruct Hfair as [Hfw Hfair].
  apply IH; [done|done|]. destruct (run_wave_flags st w _ Hw Hfw Hflags) as (c & -> & Hc). cbn. destruct Hc; auto.
Qed.

Lemma run_waves_solution before ws envs st :
  Forall (fun id => is_Some (by_id !! id)) (concat ws) -> fair_waves ws envs -> NoDup (concat ws) -> waves_from before ws ->
  (forall id, id ∈ concat ws -> id ∉ before) -> unset (concat ws) (w_outputs st) ->
  let st' := run_waves canonical by_id xlimits st ws envs in
  w_failed st' = false -> w_cancelled st' = false ->
  agree before (w_outputs st) (w_outputs st') /\ solution (concat ws) (w_outputs st') /\
  w_outcomes st' = w_outcomes st ++ (concat ws ≫= succeeded) /\
  (forall id, id ∉ concat ws -> w_outputs st' !! id = w_outputs st !! id).
Proof.
  revert before envs st. induction ws as [|w ws IH]; intros before envs st Hall Hfair Hnd Hord Hdisj Hun; cbv zeta; cbn [run_waves].
  { intros. split_and!; [done|by intros ? ?%elem_of_nil|by rewrite app_nil_r|done]. }
  cbn [concat] in *. apply Forall_app in Hall as [Hw Hall]. destruct Hfair as [Hfw Hfair]. destruct Hord as [Hsrc Hord].
  apply NoDup_app in Hnd as (Hndw & Hndx & Hnd). intros Hf Hc.
  set (env := default _ (head envs)) in *. set (st1 := run_wave canonical by_id xlimits st w env) in *.
  assert (Hflags1 : w_failed st1 = false /\ w_cancelled st1 = false).
  { destruct (w_failed st1) eqn:E1; [|destruct (w_cancelled st1) eqn:E2; [|done]];
      (destruct (run_waves_flags ws (tail envs) st1 Hall Hfair) as [?|?]; [auto|congruence|congruence]). }
  destruct Hflags1 as [Hf1 Hc1].
  destruct (run_wave_cases st w env Hw Hfw) as [(c & Hskip & Hor)|(Hf0 & Hc0 & rt & Hrun)].
  { exfalso. unfold st1 in Hf1, Hc1. rewrite Hskip in Hf1, Hc1. cbn in *. destruct Hor; congruence. }
  fold st1 in Hrun. set (folded := foldl fold_outcome st (wave_entries (w_outputs st) w)) in *.
  destruct (fold_wave_ok (w_outputs st) w st Hw Hndw) as (Hans & Hos & Hkeep & _ & _).
  { intros id Hid. apply Hun. apply elem_of_app. by left. }
  { rewrite Hrun in Hf1. exact Hf1. }
  fold folded in Hans, Hos, Hkeep.
  assert (Ho1 : w_outputs st1 = w_outputs folded) by by rewrite Hrun.
  assert (Hs1 : w_outcomes st1 = w_outcomes folded) by by rewrite Hrun.
  assert (Hdisj' : forall id, id ∈ concat ws -> id ∉ before ++ w).
  { intros id Hid [Hb|Hb]%elem_of_app; [apply (Hdisj id); [apply elem_of_app; by right|done]|by apply (Hndx id)]. }
  assert (Hun' : unset (concat ws) (w_outputs st1)).
  { intros id Hid. rewrite Ho1, Hkeep by (intros Hb; by apply (Hndx id)). apply Hun. apply elem_of_app. by right. }
  destruct (IH (before ++ w) (tail envs) st1 Hall Hfair Hnd Hord Hdisj' Hun' Hf Hc) as (Hag & Hsol & Hos' & Hkeep').
  set (st' := run_waves canonical by_id xlimits st1 ws (tail envs)) in *.
  assert (Hagb : agree before (w_outputs st) (w_outputs st')).
  { intros b Hb. rewrite Hkeep' by (intros Hin; apply (Hdisj b); [apply elem_of_app; by right|done]).
    rewrite Ho1. symmetry. apply Hkeep. intros Hin. apply (Hdisj b); [apply elem_of_app; by left|done]. }
  split_and!; [done| | |].
  - intros id [Hin|Hin]%elem_of_app; [|by apply Hsol]. destruct (Hans id Hin) as (r & Hr & Hst & Hout).
    exists r. split_and!; [|done|].
    + rewrite <- (node_answer_agree before (w_outputs st)); [done|by apply Hsrc|done].
    + rewrite Hkeep' by (by apply Hndx). by rewrite Ho1.
  - rewrite Hos', Hs1, Hos, bind_app. by rewrite <- app_assoc.
  - intros id [Hn1 Hn2]%not_elem_of_app. rewrite Hkeep' by done. rewrite Ho1. by apply Hkeep.
Qed.

(** With a solution at hand no wave fails. *)
Lemma solution_run_waves before ws envs O st :
  Forall (fun id => is_Some (by_id !! id)) (concat ws) -> fair_waves ws envs -> NoDup (concat ws) -> waves_from before ws ->
  (forall id, id ∈ concat ws -> id ∉ before) -> unset (concat ws) (w_outputs st) -> w_failed st = false ->
  solution (concat ws) O -> (w_cancelled st = false -> agree before (w_outputs st) O) ->
  w_failed (run_waves canonical by_id xlimits st ws envs) = false.
Proof.
  revert before envs st. induction ws as [|w ws IH]; intros before envs st Hall Hfair Hnd Hord Hdisj Hun Hf Hsol Hag; [done|].
  cbn [concat run_waves] in *. apply Forall_app in Hall as [Hw Hall]. destruct Hfair as [Hfw Hfair]. destruct Hord as [Hsrc Hord].
  apply NoDup_app in Hnd as (Hndw & Hndx & Hnd). set (env := default _ (head envs)) in *.
  assert (Hdisj' : forall id, id ∈ concat ws -> id ∉ before ++ w).
  { intros id Hid [Hb|Hb]%elem_of_app; [apply (Hdisj id); [apply elem_of_app; by right|done]|by apply (Hndx id)]. }
  assert (Hsol' : solution (concat ws) O) by (intros id Hid; apply Hsol, elem_of_app; by right).
  destruct (run_wave_cases st w env Hw Hfw) as [(c & -> & Hor)|(_ & Hc0 & rt & ->)].
  - apply (IH (before ++ w)); cbn; try done.
    + intros id Hid. apply Hun, elem_of_app. by right.
    + intros ->. destruct Hor; congruence.
  - specialize (Hag Hc0).
    assert (Hans : forall id, id ∈ w -> exists r, node_answer (w_outputs st) id = Some r /\ result_status r = Completed /\ O !! id = output r).
    { intros id Hid. rewrite (node_answer_agree before _ O) by auto. apply Hsol, elem_of_app. by left. }
    assert (Hok : w_failed (foldl fold_outcome st (wave_entries (w_outputs st) w)) = false).
    { apply fold_wave_solution; [|done]. intros id Hid. destruct (Hans id Hid) as (r & ? & ? & _). eauto. }
    destruct (fold_wave_ok (w_outputs st) w st Hw Hndw) as (Hans' & _ & Hkeep & _);
      [intros id Hid; apply Hun, elem_of_app; by left|exact Hok|].
    apply (IH (before ++ w)); cbn [w_outputs w_failed w_cancelled set_runtime]; try done.
    + intros id Hid. rewrite Hkeep by (intros Hb; by apply (Hndx id)). apply Hun, elem_of_app. by right.
    + intros _ id [Hb|Hb]%elem_of_app.
      * rewrite Hkeep; [by apply Hag|]. intros Hin. apply (Hdisj id); [apply elem_of_app; by left|done].
      * destruct (Hans' id Hb) as (r & Hr & _ & ->). destruct (Hans id Hb) as (r' & Hr' & _ & ->). congruence.
Qed.

(** *** The order and the schedule *)

Lemma execution_order_ordered before ids : execution_order canonical = before ++ ids -> ordered_from before ids.
Proof.
  revert before. induction ids as [|id ids IH]; intros before Heq; [done|]. split.
  - intros m src Hm <- Hsrc. by eapply (accepted_source_first _ _ _ _ Hcanonical).
  - apply IH. by rewrite <- app_assoc.
Qed.

Context (slimits : ParallelScheduleLimits) (schedule : ParallelSchedule)
  (Hschedule : compute_parallel_schedule canonical slimits = Ok schedule).

Lemma schedule_layers : layered (node_id_set p) (edge_set p) ∅ (waves schedule).
Proof.
  destruct (compute_parallel_schedule_spec _ _ _ _ slimits Hcanonical) as (ws & Hlay & Hws & _).
  rewrite Hschedule in Hws. by rewrite Hws.
Qed.

Lemma schedule_perm : concat (waves schedule) ≡ₚ execution_order canonical.
Proof.
  pose proof schedule_layers as Hlay. pose proof Hcanonical as (Hwf & Hac & _ & _ & Hall)%canonicalize_ok_inv.
  assert (Hends : forall a b, (a, b) ∈ edge_set p -> a ∈ node_id_set p /\ b ∈ node_id_set p).
  { intros a b (e & [= -> ->] & He)%elem_of_list_to_set%list_elem_of_fmap.
    pose proof (wf_edges _ _ _ Hwf) as Hes. rewrite Forall_forall in Hes. by apply Hes in He as (_ & ? & ?). }
  apply NoDup_Permutation; [by eapply layered_NoDup|by apply (accepted_order_NoDup _ _ _ _ Hcanonical)|].
  intros v. rewrite <- Hall. split.
  - intros Hv. by apply (layered_elem _ _ _ _ _ Hlay) in Hv as [].
  - by apply (layered_complete _ (edge_set p)).
Qed.

Lemma schedule_waves_from ws1 ws2 : waves schedule = ws1 ++ ws2 -> waves_from (concat ws1) ws2.
Proof.
  revert ws1. induction ws2 as [|w ws2 IH]; intros ws1 Heq; [done|]. split.
  - intros id Hid m src Hm <- Hsrc. pose proof schedule_layers as Hlay. rewrite Heq in Hlay.
    pose proof Hcanonical as (Hwf & _)%canonicalize_ok_inv. pose proof (wf_mappings _ _ _ Hwf) as Hms.
    rewrite Forall_forall in Hms. specialize (Hms m Hm) as (_ & _ & _ & Hs). rewrite Hsrc in Hs. destruct Hs as [_ HE].
    destruct (layered_before _ _ _ _ _ _ src _ Hlay Hid HE) as [Hin|Hin]; [set_solver|done].
  - replace (concat ws1 ++ w) with (concat (ws1 ++ [w])) by (rewrite concat_app; cbn; by rewrite app_nil_r).
    apply IH. by rewrite <- app_assoc.
Qed.

Lemma order_nodes_exist ids : (forall id, id ∈ ids -> id ∈ execution_order canonical) -> Forall (fun id => is_Some (by_id !! id)) ids.
Proof.
  intros Hin. apply Forall_forall. intros id Hid. destruct (proj1 (accepted_order_nodes _ _ _ _ Hcanonical id)) as [node Hn]; eauto.
Qed.

(** Both executions from the start, through the solution. *)
Lemma parallel_sequential envs rt auth digest snapshot rt2 t2 :
  fair_waves (waves schedule) envs ->
  execute_parallel_proposal rt canonical schedule auth digest snapshot xlimits envs = (rt2, t2) ->
  (terminal_state t2 = TerminalSucceeded ->
   exists rt1 t1, execute_proposal rt canonical auth digest snapshot = Some (rt1, t1) /\
     terminal_state t1 = TerminalSucceeded /\ node_outcomes t1 ≡ₚ node_outcomes t2) /\
  (forall rt1 t1, execute_proposal rt canonical auth digest snapshot = Some (rt1, t1) ->
     terminal_state t1 = TerminalSucceeded -> terminal_state t2 = Cancelled \/
     terminal_state t2 = TerminalSucceeded /\ node_outcomes t1 ≡ₚ node_outcomes t2).
Proof.
  intros Hfair. unfold execute_parallel_proposal, execute_proposal.
  set (s0 := {| w_runtime := rt; w_outputs := ∅; w_outcomes := []; w_failed := false; w_cancelled := false |}).
  set (r0 := {| runtime := rt; outputs := ∅; outcomes := []; failed := false |}).
  set (st2 := run_waves canonical by_id xlimits s0 (waves schedule) envs). intros [= <- <-].
  pose proof schedule_perm as Hperm. pose proof (accepted_order_NoDup _ _ _ _ Hcanonical) as Hnd.
  assert (Hord : Forall (fun id => id ∈ execution_order canonical) (execution_order canonical)) by by apply Forall_forall.
  assert (Hall : Forall (fun id => is_Some (by_id !! id)) (concat (waves schedule)))
    by (apply order_nodes_exist; intros id; by rewrite Hperm).
  assert (Hndw : NoDup (concat (waves schedule))) by by rewrite Hperm.
  assert (Hwf : waves_from [] (waves schedule)) by by apply (schedule_waves_from []).
  assert (Hof : ordered_from [] (execution_order canonical)) by by apply execution_order_ordered.
  assert (Hempty : forall ids, unset ids (∅ : Outputs)) by (intros ids id _; apply lookup_empty).
  assert (Hno : forall ids id, id ∈ (ids : list string) -> id ∉ ([] : list string)) by (intros; apply not_elem_of_nil).
  assert (Houtcomes : forall ids, ids ≡ₚ execution_order canonical -> (execution_order canonical ≫= succeeded) ≡ₚ (ids ≫= succeeded))
    by (intros ids ->; done).
  cbn [terminal_state node_outcomes trace_of]. split.
  - intros Hterm. destruct (w_failed st2) eqn:Hf2; [done|]. destruct (w_cancelled st2) eqn:Hc2; [done|].
    destruct (run_waves_solution [] (waves schedule) envs s0 Hall Hfair Hndw Hwf (Hno _) (Hempty _) Hf2 Hc2)
      as (_ & Hsol & Hos & _). fold st2 in Hsol, Hos.
    assert (Hsol' : solution (execution_order canonical) (w_outputs st2)) by (intros id Hid; apply Hsol; by rewrite Hperm).
    destruct (solution_execute_nodes [] (execution_order canonical) (w_outputs st2) r0 Hord Hnd Hof (Hno _) (Hempty _) eq_refl Hsol')
      as (st1 & Hrun & Hf1); [by intros ? ?%elem_of_nil|].
    destruct (execute_nodes_solution [] _ r0 st1 Hord Hnd Hof (Hno _) (Hempty _) eq_refl Hrun Hf1) as (_ & _ & Hos1 & _).
    rewrite Hrun. cbn [mbind option_bind]. eexists _, _. split; [done|]. cbn [terminal_state node_outcomes trace_of].
    rewrite Hf1, Hos, Hos1. split; [done|]. by apply Houtcomes.
  - intros rt1 t1. destruct (execute_nodes canonical by_id r0 (execution_order canonical)) as [st1|] eqn:Hrun; [|done].
    cbn [mbind option_bind]. intros [= <- <-]. cbn [terminal_state node_outcomes trace_of].
    destruct (failed st1) eqn:Hf1; [done|]. intros _.
    destruct (execute_nodes_solution [] _ r0 st1 Hord Hnd Hof (Hno _) (Hempty _) eq_refl Hrun Hf1) as (_ & Hsol & Hos1 & _).
    assert (Hsol' : solution (concat (waves schedule)) (outputs st1)) by (intros id; rewrite Hperm; apply Hsol).
    assert (Hf2 : w_failed st2 = false) by (eapply (solution_run_waves []); eauto; intros _ ? ?%elem_of_nil; done).
    rewrite Hf2. destruct (w_cancelled st2) eqn:Hc2; [by left|]. right. split; [done|].
    destruct (run_waves_solution [] (waves schedule) envs s0 Hall Hfair Hndw Hwf (Hno _) (Hempty _) Hf2 Hc2)
      as (_ & _ & Hos & _). fold st2 in Hos. rewrite Hos, Hos1. by apply Houtcomes.
Qed.

End Parallel.

(** C22: for a runtime whose answers depend on the request only, executing the waves
    of the computed schedule in parallel, in whatever order the calls of each batch
    take effect, succeeds exactly when the sequential execution succeeds, unless a
    budget cancels it, and then reports the same outcome for every node. *)
Theorem parallel_matches_sequential `{R : CapabilityRuntime} `{!PureRuntime R} `{SerdeJson}
    json_len p limits canonical slimits schedule xlimits envs rt auth digest snapshot rt2 t2 :
  canonicalize_proposal json_len p limits = Ok canonical ->
  compute_parallel_schedule canonical slimits = Ok schedule ->
  fair_waves xlimits (waves schedule) envs ->
  execute_parallel_proposal rt canonical schedule auth digest snapshot xlimits envs = (rt2, t2) ->
  terminal_state t2 <> Cancelled ->
  (terminal_state t2 = TerminalSucceeded <->
   exists rt1 t1, execute_proposal rt canonical auth digest snapshot = Some (rt1, t1) /\
     terminal_state t1 = TerminalSucceeded) /\
  (forall rt1 t1, execute_proposal rt canonical auth digest snapshot = Some (rt1, t1) ->
     terminal_state t1 = TerminalSucceeded -> node_outcomes t1 ≡ₚ node_outcomes t2).
Proof.
  intros Hc Hs Hfair Hrun Hterm.
  destruct (parallel_sequential _ _ _ _ Hc xlimits slimits schedule Hs envs rt auth digest snapshot rt2 t2 Hfair Hrun) as [H1 H2].
  split; [split|].
  - intros Hok. destruct (H1 Hok) as (rt1 & t1 & ? & ? & _). eauto.
  - intros (rt1 & t1 & Hr & Ht). destruct (H2 _ _ Hr Ht) as [|[? _]]; done.
  - intros rt1 t1 Hr Ht. destruct (H2 _ _ Hr Ht) as [|[_ ?]]; done.
Qed.

(** ** Concurrent side effects *)

Lemma effect_class_by_node_spec resolved id :
  NoDup (resolved_id <$> resolved) ->
  effect_class_by_node resolved !! id = Some PureRead <->
  exists r, r ∈ resolved /\ resolved_id r = id /\ effect_class (risk (contract r)) = PureRead.
Proof.
  intros Hnd. unfold effect_class_by_node.
  assert (Hgen : forall m : gmap string EffectClass, (forall r, r ∈ resolved -> m !! resolved_id r = None) ->
    foldl (fun m r => <[resolved_id r := effect_class (risk (contract r))]> m) m resolved !! id = Some PureRead <->
    m !! id = Some PureRead \/ exists r, r ∈ resolved /\ resolved_id r = id /\ effect_class (risk (contract r)) = PureRead).
  { induction resolved as [|r l IH]; intros m Hm; cbn [foldl].
    - split; [by left|]. intros [?|(r & ?%elem_of_nil & _)]; done.
    - rewrite fmap_cons in Hnd. apply NoDup_cons in Hnd as [Hnin Hnd]. rewrite IH; [|done|].
      + destruct (decide (id = resolved_id r)) as [->|Hne].
        * rewrite lookup_insert_eq, (Hm r ltac:(left)). split.
          -- intros [[= Hr]|(r' & Hin & Hid & _)]; [right; exists r; split_and!; [left|done|done]|].
             exfalso. apply Hnin. rewrite <- Hid. by apply list_elem_of_fmap_2.
          -- intros [?|(r' & [->|Hin]%elem_of_cons & Hid & He)]; [done|left; congruence|].
             right. eauto.
        * rewrite lookup_insert_ne by done. setoid_rewrite elem_of_cons. split; [naive_solver|].
          intros [?|(r' & [->|Hin] & Hid & He)]; [by left|done|right; eauto].
      + intros r' Hr'. rewrite lookup_insert_ne; [apply Hm; by right|]. intros Heq. apply Hnin. rewrite Heq.
        by apply list_elem_of_fmap_2. }
  rewrite Hgen by (intros; apply lookup_empty). rewrite lookup_empty. naive_solver.
Qed.

Lemma wave_authorization_nil effects index wave :
  wave_authorization_errors effects index wave = [] <->
  (1 < length wave -> Forall (fun id => effects !! id = Some PureRead) wave).
Proof.
  unfold wave_authorization_errors. destruct (Nat.leb_spec (length wave) 1) as [Hle|Hgt]; [split; [lia|done]|].
  transitivity (Forall (fun id => effects !! id = Some PureRead) wave); [|naive_solver]. clear Hgt.
  induction wave as [|id wave IH]; [done|]. cbn. rewrite app_nil, IH, Forall_cons. case_decide; naive_solver.
Qed.

(** A schedule may run in parallel exactly when every node that shares a wave
    with another is declared a pure read by its contract. *)
Theorem parallel_only_pure_reads schedule resolved :
  NoDup (resolved_id <$> resolved) ->
  enforce_pure_read_only_parallelism schedule resolved = Ok tt <->
  forall wave id, wave ∈ waves schedule -> id ∈ wave -> 1 < length wave ->
    exists r, r ∈ resolved /\ resolved_id r = id /\ effect_class (risk (contract r)) = PureRead.
Proof.
  intros Hnd. unfold enforce_pure_read_only_parallelism. set (effects := effect_class_by_node resolved).
  assert (Hnil : forall ws k, concat (imap (fun i => wave_authorization_errors effects (k + i)) ws) = [] <->
    forall wave, wave ∈ ws -> 1 < length wave -> Forall (fun id => effects !! id = Some PureRead) wave).
  { induction ws as [|w ws IH]; intros k; cbn [imap concat]; [split; [by intros _ ? ?%elem_of_nil|done]|].
    rewrite app_nil, wave_authorization_nil.
    assert (Heq : imap ((fun i => wave_authorization_errors effects (k + i)) ∘ S) ws
      = imap (fun i => wave_authorization_errors effects (S k + i)) ws)
      by (apply imap_ext; intros i x _; unfold compose; by rewrite Nat.add_succ_r).
    rewrite Heq, IH. setoid_rewrite elem_of_cons. naive_solver. }
  transitivity (concat (imap (wave_authorization_errors effects) (waves schedule)) = []);
    [by destruct (concat _)|]. rewrite (Hnil (waves schedule) 0). setoid_rewrite Forall_forall.
  unfold effects. setoid_rewrite (effect_class_by_node_spec resolved); [|done]. naive_solver.
Qed.
