(* ===== verification/ProposalMcp.v ===== *)
(** * The proposal tools of the MCP server

    [crates/traverse-mcp/src/tools/proposals.rs] and [parallel_proposals.rs]: validate,
    submit, schedule, authorize and execute a proposal.  Execution composes the
    structural and cross-validation, the approval token and its ledger, the quota and
    the executors.  Digests are those of [traverse-contracts/src/proposal.rs].
    Deserialization of a proposal is derived by serde and a parameter, as is SHA-256. *)
From S2P Require Import Prelude Json Pointer Risk Contract Proposal Schedule Approval Quota ProposalCheck Request ProposalRun.
From Stdlib Require Import Ascii.

(** [serde_json::from_str::<WorkflowProposal>] and [Sha256::digest]. *)
Class ProposalCodec := {
  parse_proposal : string -> Result string WorkflowProposal;
  sha256 : Bytes -> Bytes }.

(** ** Digests *)

Section Digests.
Context `{SerdeJson, ProposalCodec}.

Definition text_of (v : Value) : string := String.string_of_list_ascii (to_vec v).

(** [write_canonical]: members in byte order of their keys. *)
Fixpoint write_canonical (value : Value) : string :=
  match value with
  | Array items => "[" +:+ String.concat "," (write_canonical <$> items) +:+ "]"
  | Object members =>
      let texts := (fun m => (m.1, text_of (Str m.1) +:+ ":" +:+ write_canonical m.2)) <$> members in
      "{" +:+ String.concat "," ((merge_sort key_le texts).*2) +:+ "}"
  | scalar => text_of scalar
  end.

Definition hex_byte (c : ascii) : string :=
  hex_digit (N.shiftr (N_of_ascii c) 4) +:+ hex_digit (N.land (N_of_ascii c) 15).

Definition hex_encode (bytes : Bytes) : string := String.concat "" (hex_byte <$> bytes).

Definition digest_json_value (value : Value) : string :=
  "1.0.0:sha256:" +:+ hex_encode (sha256 (String.list_ascii_of_string (write_canonical value))).

Definition source_value (s : MappingSource) : Value :=
  match s with
  | InitialInput => obj [("kind", Str "initial_input")]
  | FromNode id => obj [("kind", Str "node"); ("node_id", Str id)]
  end.

(** What [derive(Serialize)] writes. *)
Definition proposal_value (p : WorkflowProposal) : Value := obj [
  ("kind", Str (kind p)); ("schema_version", Str (schema_version p)); ("proposal_id", Str (proposal_id p));
  ("workspace_id", Str (Proposal.workspace_id p));
  ("app_manifest", obj [("app_id", Str (Proposal.app_id (app_manifest p)));
     ("app_version", Str (app_version (app_manifest p))); ("manifest_digest", Str (manifest_digest (app_manifest p)))]);
  ("nodes", Array ((fun n => obj [("node_id", Str (node_id n)); ("capability_id", Str (capability_id n));
     ("capability_version", Str (capability_version n)); ("artifact_digest", Str (artifact_digest n))]) <$> nodes p));
  ("edges", Array ((fun e => obj [("from_node_id", Str (from_node_id e)); ("to_node_id", Str (to_node_id e))]) <$> edges p));
  ("mappings", Array ((fun m => obj [("source", source_value (source m)); ("source_path", Str (source_path m));
     ("target_node_id", Str (target_node_id m)); ("target_path", Str (target_path m))]) <$> mappings p));
  ("initial_input", initial_input p)].

Definition proposal_digest (p : WorkflowProposal) : string := digest_json_value (proposal_value p).

Record SnapshotDigests := {
  snap_manifest : string;
  snap_registry : string;
  snap_binding : string;
  snap_policy : string;
  snap_budget : string }.

Definition proposal_snapshot_digest (digest : string) (s : SnapshotDigests) : string :=
  digest_json_value (obj [("proposal_digest", Str digest); ("manifest_digest", Str (snap_manifest s));
    ("registry_digest", Str (snap_registry s)); ("binding_digest", Str (snap_binding s));
    ("policy_digest", Str (snap_policy s)); ("budget_digest", Str (snap_budget s))]).

End Digests.

(** ** Composition mode *)

Inductive CompositionMode := Sealed | Adaptive.

Definition parse_composition_mode (raw : option string) : Result string CompositionMode :=
  match trim <$> raw with
  | None => Ok Sealed
  | Some m =>
      if bool_decide (m = "") || bool_decide (m = "sealed") then Ok Sealed
      else if decide (m = "adaptive") then Ok Adaptive
      else Err "composition_mode must be sealed or adaptive when present"
  end.

Definition allows_proposal_surfaces (m : CompositionMode) : bool := match m with Adaptive => true | Sealed => false end.

Record ProposalDenial := { denial_code : string; denial_path : string; denial_message : string }.

Definition deny_unless_adaptive (m : CompositionMode) : option ProposalDenial :=
  if allows_proposal_surfaces m then None
  else Some {| denial_code := "adaptive_composition_opt_in_required"; denial_path := "/composition_mode";
    denial_message := "adaptive composition requires explicit composition_mode=adaptive; sealed workflows are the default — author and validate a pinned workflow instead" |}.

(** ** Error codes *)

Definition is_ascii_uppercase (c : ascii) : bool := let n := N_of_ascii c in ((65 <=? n) && (n <=? 90))%N.

Fixpoint snake_case_from (first : bool) (s : string) : string :=
  match s with
  | EmptyString => ""
  | String c rest =>
      if is_ascii_uppercase c then
        (if first then "" else "_") +:+ String (ascii_of_N (N_of_ascii c + 32)) (snake_case_from false rest)
      else String c (snake_case_from false rest)
  end.

Definition debug_enum_to_snake_case (value : string) : string := snake_case_from true value.

(** [{code:?}] *)
Definition approval_code_debug (c : ApprovalTokenErrorCode) : string :=
  match c with
  | Malformed => "Malformed"
  | AlgorithmNotAllowed => "AlgorithmNotAllowed"
  | UnknownKeyId => "UnknownKeyId"
  | SignatureVerificationFailed => "SignatureVerificationFailed"
  | IssuerMismatch => "IssuerMismatch"
  | AudienceMismatch => "AudienceMismatch"
  | Expired => "Expired"
  | WorkspaceMismatch => "WorkspaceMismatch"
  | ProposalDigestMismatch => "ProposalDigestMismatch"
  | SnapshotDigestMismatch => "SnapshotDigestMismatch"
  | UseCountExhausted => "UseCountExhausted"
  | Revoked => "Revoked"
  | StoreUnavailable => "StoreUnavailable"
  end.

Definition structural_code_debug (c : ProposalValidationErrorCode) : string :=
  match c with
  | InvalidLiteral => "InvalidLiteral"
  | MissingRequiredField => "MissingRequiredField"
  | NodeLimitExceeded => "NodeLimitExceeded"
  | EdgeLimitExceeded => "EdgeLimitExceeded"
  | MappingLimitExceeded => "MappingLimitExceeded"
  | PayloadLimitExceeded => "PayloadLimitExceeded"
  | DuplicateNodeId => "DuplicateNodeId"
  | UnknownEdgeEndpoint => "UnknownEdgeEndpoint"
  | SelfLoopEdge => "SelfLoopEdge"
  | DuplicateEdge => "DuplicateEdge"
  | CyclicGraph => "CyclicGraph"
  | UnknownMappingEndpoint => "UnknownMappingEndpoint"
  | AmbiguousMultiWriterTarget => "AmbiguousMultiWriterTarget"
  | MissingDependencyEdgeForMapping => "MissingDependencyEdgeForMapping"
  end.

Definition cross_code_debug (c : ProposalCrossValidationErrorCode) : string :=
  match c with
  | UndeclaredCapability => "UndeclaredCapability"
  | CapabilityNotFound => "CapabilityNotFound"
  | ArtifactDigestMismatch => "ArtifactDigestMismatch"
  | IncompatibleMappingSchema => "IncompatibleMappingSchema"
  | UndeclaredDataClassification => "UndeclaredDataClassification"
  | DataClassificationOverAccepted => "DataClassificationOverAccepted"
  | EgressDeniedForClassifiedMapping => "EgressDeniedForClassifiedMapping"
  end.

Definition token_error_code (c : ApprovalTokenErrorCode) : string := debug_enum_to_snake_case (approval_code_debug c).

Definition structural_denial (e : ProposalValidationError) : ProposalDenial := {|
  denial_code := debug_enum_to_snake_case (structural_code_debug (Proposal.code e)); denial_path := Proposal.path e;
  denial_message := Proposal.message e |}.

Definition cross_denial (e : ProposalCrossValidationError) : ProposalDenial := {|
  denial_code := debug_enum_to_snake_case (cross_code_debug (cross_code e)); denial_path := cross_path e;
  denial_message := cross_message e |}.

Definition schedule_code_debug (c : ParallelScheduleErrorCode) : string :=
  match c with
  | FanOutExceeded => "FanOutExceeded"
  | JoinWidthExceeded => "JoinWidthExceeded"
  | QueueDepthExceeded => "QueueDepthExceeded"
  end.

Definition schedule_denial (e : ParallelScheduleError) : ProposalDenial := {|
  denial_code := debug_enum_to_snake_case (schedule_code_debug (schedule_error_code e));
  denial_path := schedule_error_path e; denial_message := schedule_error_message e |}.

Definition authorization_denial (e : ParallelAuthorizationError) : ProposalDenial := {|
  denial_code := debug_enum_to_snake_case "ConcurrentSideEffectDenied"; denial_path := auth_path e;
  denial_message := auth_message e |}.

Inductive McpErrorCode := InvalidRequest | ValidationFailed.
Record McpError := { mcp_code : McpErrorCode; mcp_message : string }.

(** ** Inspection *)

Section Tools.
Context `{SerdeJson, ProposalCodec, HostState}.

Definition serialized_len (v : Value) : option N := Some (N.of_nat (length (to_vec v))).

Definition parse_and_digest (json : string) : Result McpError (WorkflowProposal * string * string) :=
  p ← map_err (fun e => {| mcp_code := InvalidRequest; mcp_message := "proposal is not valid JSON: " +:+ e |})
        (parse_proposal json);
  Ok (p, proposal_id p, proposal_digest p).

Record ProposalValidationResponse := {
  response_proposal_id : string;
  response_digest : string;
  response_valid : bool;
  response_errors : list ProposalDenial }.

(** The structural and the cross-validation, with the denials of the first that
    fails. *)
Definition check_proposal (p : WorkflowProposal) (manifest : ApplicationBundleManifest) (registry : CapabilityRegistry)
    (limits : ProposalLimits) : Result (list ProposalDenial) (CanonicalProposal * list ResolvedProposalNode) :=
  canonical ← map_err (fmap structural_denial) (canonicalize_proposal serialized_len p limits);
  resolved ← map_err (fmap cross_denial) (validate_proposal_against_host_state canonical manifest registry);
  Ok (canonical, resolved).

Definition validate_proposal (json : string) (manifest : ApplicationBundleManifest) (registry : CapabilityRegistry)
    (limits : ProposalLimits) : Result McpError ProposalValidationResponse :=
  '(p, id, digest) ← parse_and_digest json;
  Ok match check_proposal p manifest registry limits with
     | Ok _ => {| response_proposal_id := id; response_digest := digest; response_valid := true; response_errors := [] |}
     | Err errors =>
         {| response_proposal_id := id; response_digest := digest; response_valid := false; response_errors := errors |}
     end.

Record ProposalSubmissionResponse := {
  submission : ProposalValidationResponse;
  submission_snapshot : string;
  automatic_eligible : bool }.

Definition submit_proposal (json : string) (manifest : ApplicationBundleManifest) (registry : CapabilityRegistry)
    (limits : ProposalLimits) (snapshots : SnapshotDigests) : Result McpError ProposalSubmissionResponse :=
  '(p, id, digest) ← parse_and_digest json;
  let snapshot := proposal_snapshot_digest digest snapshots in
  let answer valid errors eligible := {|
    submission := {| response_proposal_id := id; response_digest := digest; response_valid := valid; response_errors := errors |};
    submission_snapshot := snapshot; automatic_eligible := eligible |} in
  Ok match check_proposal p manifest registry limits with
     | Ok (_, resolved) => answer true [] (proposal_is_automatic_eligible resolved)
     | Err errors => answer false errors false
     end.

Inductive AuthorizationState :=
  | Invalid (errors : list ProposalDenial)
  | AutomaticallyAuthorized
  | RequiresApprovalToken.

Definition authorization_state (json : string) (manifest : ApplicationBundleManifest) (registry : CapabilityRegistry)
    (limits : ProposalLimits) : Result McpError AuthorizationState :=
  '(p, _, _) ← parse_and_digest json;
  Ok match check_proposal p manifest registry limits with
     | Ok (_, resolved) =>
         if proposal_is_automatic_eligible resolved then AutomaticallyAuthorized else RequiresApprovalToken
     | Err errors => Invalid errors
     end.

Record ParallelScheduleResponse := {
  schedule_check : ProposalValidationResponse;
  response_waves : list (list string);
  schedule_automatic : bool }.

Definition compute_schedule_for_proposal (json : string) (manifest : ApplicationBundleManifest)
    (registry : CapabilityRegistry) (limits : ProposalLimits) (schedule_limits : ParallelScheduleLimits)
    : Result McpError ParallelScheduleResponse :=
  '(p, id, digest) ← parse_and_digest json;
  let outcome : Result (list ProposalDenial) (ParallelSchedule * list ResolvedProposalNode) :=
    '(canonical, resolved) ← check_proposal p manifest registry limits;
    schedule ← map_err (fmap schedule_denial) (compute_parallel_schedule canonical schedule_limits);
    map_err (fmap authorization_denial) (enforce_pure_read_only_parallelism schedule resolved);;
    Ok (schedule, resolved) in
  let answer valid errors := {|
    response_proposal_id := id; response_digest := digest; response_valid := valid; response_errors := errors |} in
  Ok match outcome with
     | Ok (schedule, resolved) =>
         {| schedule_check := answer true []; response_waves := waves schedule;
            schedule_automatic := proposal_is_automatic_eligible resolved |}
     | Err errors => {| schedule_check := answer false errors; response_waves := []; schedule_automatic := false |}
     end.

Record ProposalExportResponse := {
  exported : WorkflowProposal;
  exported_digest : string;
  exported_order : list string }.

Definition export_proposal (json : string) (limits : ProposalLimits) : Result McpError ProposalExportResponse :=
  '(p, _, digest) ← parse_and_digest json;
  canonical ← map_err (fun errors => {| mcp_code := ValidationFailed;
      mcp_message := "proposal is not structurally valid (" +:+ show_nat (length errors) +:+ " error(s))" |})
    (canonicalize_proposal serialized_len p limits);
  Ok {| exported := proposal canonical; exported_digest := digest; exported_order := execution_order canonical |}.

(** ** Authorization and quota *)

Context `{Ed25519, CapabilityRuntime}.

Inductive ProposalExecutionResponse :=
  | Trace (t : ProposalTrace)
  | DeniedExecution (code message : string).

Record TokenPolicy := {
  expected_token_issuer : string;
  expected_token_audience : string;
  token_verifying_keys : gmap string VerifyingKey }.

Record Caller := {
  approval_token : option string;
  caller_principal : string;
  caller_app : string }.

Definition verification_context (policy : TokenPolicy) (workspace digest snapshot : string)
    : ApprovalTokenVerificationContext := {|
  expected_issuer := expected_token_issuer policy; expected_audience := expected_token_audience policy;
  expected_workspace_id := workspace; expected_proposal_digest := digest; expected_snapshot_digest := snapshot;
  verifying_keys_by_key_id := token_verifying_keys policy |}.

Definition denied_token (e : ApprovalTokenError) : ProposalExecutionResponse :=
  DeniedExecution (token_error_code (Approval.code e)) (Approval.message e).

(** The decision, and the ledger after it. *)
Definition decide_authorization (policy : TokenPolicy) (caller : Caller) (now : Z) (resolved : list ResolvedProposalNode)
    (digest snapshot workspace : string) (store : ApprovalTokenStore)
    : ApprovalTokenStore * Result ProposalExecutionResponse AuthorizationDecision :=
  if proposal_is_automatic_eligible resolved then (store, Ok Automatic)
  else
    match approval_token caller with
    | None => (store, Err (DeniedExecution "approval_token_required" "this proposal requires a verified approval token"))
    | Some token =>
        match verify_approval_token (verification_context policy workspace digest snapshot) now token with
        | Err e => (store, Err (denied_token e))
        | Ok claims =>
            match check_and_record_use store claims with
            | (store, Err e) => (store, Err (denied_token e))
            | (store, Ok _) => (store, Ok (Approved claims))
            end
        end
    end.

Definition summary_of (d : AuthorizationDecision) : AuthorizationSummary :=
  match d with
  | Automatic => {| automatic := true; approval_token_id := None |}
  | Approved claims => {| automatic := false; approval_token_id := Some (token_id claims) |}
  end.

Definition reserve_call (caller : Caller) (workspace : string) (limits : QuotaLimits) : ReserveCall := {|
  Quota.principal := caller_principal caller; Quota.app_id := caller_app caller;
  Quota.workspace_id := workspace; Quota.limits := limits |}.

(** The shared state the tools change. *)
Record McpState := {
  mcp_runtime : Runtime;
  token_store : ApprovalTokenStore;
  quota_tracker : QuotaTracker }.

Definition authorize_and_reserve_quota (policy : TokenPolicy) (caller : Caller) (now : Z) (limits : QuotaLimits)
    (resolved : list ResolvedProposalNode) (digest snapshot workspace : string) (st : McpState)
    : McpState * Result ProposalExecutionResponse AuthorizationSummary :=
  match decide_authorization policy caller now resolved digest snapshot workspace (token_store st) with
  | (store, Err denial) =>
      ({| mcp_runtime := mcp_runtime st; token_store := store; quota_tracker := quota_tracker st |}, Err denial)
  | (store, Ok decision) =>
      match reserve (quota_tracker st) (reserve_call caller workspace limits) with
      | (tracker, Err denial) =>
          ({| mcp_runtime := mcp_runtime st; token_store := store; quota_tracker := tracker |},
           Err (DeniedExecution ("quota_exhausted_" +:+ Quota.scope denial) (Quota.message denial)))
      | (tracker, Ok _) =>
          ({| mcp_runtime := mcp_runtime st; token_store := store; quota_tracker := tracker |}, Ok (summary_of decision))
      end
  end.

(** ** Execution *)

Record ProposalExecutionRequest := {
  proposal_json : string;
  manifest : ApplicationBundleManifest;
  registry : CapabilityRegistry;
  proposal_limits : ProposalLimits;
  snapshots : SnapshotDigests;
  token_policy : TokenPolicy;
  caller : Caller }.

Definition count_errors {E} (n : list E) (what : string) : string := show_nat (length n) +:+ " " +:+ what.

(** The checks shared by both executions, up to the authorization. *)
Definition accept_proposal (p : WorkflowProposal) (r : ProposalExecutionRequest)
    : Result ProposalExecutionResponse (CanonicalProposal * list ResolvedProposalNode) :=
  canonical ← map_err (fun errors => DeniedExecution "invalid_proposal" (count_errors errors "structural validation error(s)"))
    (canonicalize_proposal serialized_len p (proposal_limits r));
  resolved ← map_err (fun errors => DeniedExecution "invalid_proposal" (count_errors errors "cross-validation error(s)"))
    (validate_proposal_against_host_state canonical (manifest r) (registry r));
  Ok (canonical, resolved).

Definition set_mcp_runtime (rt : Runtime) (st : McpState) : McpState :=
  {| mcp_runtime := rt; token_store := token_store st; quota_tracker := quota_tracker st |}.

(** [drop(authorized.reservation)] *)
Definition drop_reservation (c : ReserveCall) (st : McpState) : McpState :=
  {| mcp_runtime := mcp_runtime st; token_store := token_store st; quota_tracker := release (quota_tracker st) c |}.

(** [None] when the runtime panics. *)
Definition execute_proposal_via_mcp (r : ProposalExecutionRequest) (limits : QuotaLimits) (now : Z) (st : McpState)
    : option (McpState * Result McpError ProposalExecutionResponse) :=
  match parse_and_digest (proposal_json r) with
  | Err e => Some (st, Err e)
  | Ok (p, _, digest) =>
      let workspace := Proposal.workspace_id p in
      let snapshot := proposal_snapshot_digest digest (snapshots r) in
      match accept_proposal p r with
      | Err denial => Some (st, Ok denial)
      | Ok (canonical, resolved) =>
          match authorize_and_reserve_quota (token_policy r) (caller r) now limits resolved digest snapshot workspace st with
          | (st, Err denial) => Some (st, Ok denial)
          | (st, Ok summary) =>
              '(rt, t) ← execute_proposal (mcp_runtime st) canonical summary digest snapshot;
              Some (drop_reservation (reserve_call (caller r) workspace limits) (set_mcp_runtime rt st), Ok (Trace t))
          end
      end
  end.

Definition execute_parallel_proposal_via_mcp (r : ProposalExecutionRequest) (schedule_limits : ParallelScheduleLimits)
    (execution_limits : ParallelExecutionLimits) (limits : QuotaLimits) (now : Z) (envs : list WaveEnvironment)
    (st : McpState) : McpState * Result McpError ProposalExecutionResponse :=
  match parse_and_digest (proposal_json r) with
  | Err e => (st, Err e)
  | Ok (p, _, digest) =>
      let workspace := Proposal.workspace_id p in
      let snapshot := proposal_snapshot_digest digest (snapshots r) in
      let checked : Result ProposalExecutionResponse (CanonicalProposal * list ResolvedProposalNode * ParallelSchedule) :=
        '(canonical, resolved) ← accept_proposal p r;
        schedule ← map_err (fun errors =>
            DeniedExecution "invalid_parallel_schedule" (count_errors errors "schedule bound violation(s)"))
          (compute_parallel_schedule canonical schedule_limits);
        map_err (fun errors =>
            DeniedExecution "concurrent_side_effect_denied" (count_errors errors "node(s) denied concurrent execution"))
          (enforce_pure_read_only_parallelism schedule resolved);;
        Ok (canonical, resolved, schedule) in
      match checked with
      | Err denial => (st, Ok denial)
      | Ok (canonical, resolved, schedule) =>
          match authorize_and_reserve_quota (token_policy r) (caller r) now limits resolved digest snapshot workspace st with
          | (st, Err denial) => (st, Ok denial)
          | (st, Ok summary) =>
              let '(rt, t) := execute_parallel_proposal (mcp_runtime st) canonical schedule summary digest snapshot
                                execution_limits envs in
              (drop_reservation (reserve_call (caller r) workspace limits) (set_mcp_runtime rt st), Ok (Trace t))
          end
      end
  end.

End Tools.

(** * Authorized execution

    What the execute tools guarantee: a proposal only runs when it was validated and
    authorized and a quota slot was free, the slot is given back, and a denial leaves
    the runtime and the quota as they were. *)
Section Mcp.
Context `{SerdeJson, ProposalCodec, HostState, Ed25519, CapabilityRuntime}.

Definition same_slots (t t' : QuotaTracker) : Prop := forall d k, slot (ledger t' d) k = slot (ledger t d) k.

(** How an execution was authorized, and what that did to the ledger of tokens. *)
Inductive authorized (policy : TokenPolicy) (c : Caller) (now : Z) (resolved : list ResolvedProposalNode)
    (digest snapshot workspace : string) (store : ApprovalTokenStore)
    : AuthorizationSummary -> ApprovalTokenStore -> Prop :=
  | AuthorizedAutomatically :
      Forall (fun node => is_automatic_eligible (risk (contract node)) = true) resolved ->
      authorized policy c now resolved digest snapshot workspace store {| automatic := true; approval_token_id := None |} store
  | AuthorizedByToken token claims store' :
      approval_token c = Some token ->
      verify_approval_token (verification_context policy workspace digest snapshot) now token = Ok claims ->
      check_and_record_use store claims = (store', Ok tt) ->
      authorized policy c now resolved digest snapshot workspace store
        {| automatic := false; approval_token_id := Some (token_id claims) |} store'.

Lemma decide_authorization_ok policy c now resolved digest snapshot workspace store store' decision :
  decide_authorization policy c now resolved digest snapshot workspace store = (store', Ok decision) ->
  authorized policy c now resolved digest snapshot workspace store (summary_of decision) store'.
Proof.
  unfold decide_authorization. destruct (proposal_is_automatic_eligible resolved) eqn:Hauto.
  - intros [= <- <-]. apply AuthorizedAutomatically. apply Forall_forall. intros node Hn.
    unfold proposal_is_automatic_eligible in Hauto. rewrite forallb_forall in Hauto. by apply Hauto, list_elem_of_In.
  - destruct (approval_token c) as [token|] eqn:Ht; [|done].
    destruct (verify_approval_token _ _ _) as [claims|] eqn:Hv; [|done].
    destruct (check_and_record_use store claims) as [s [[]|]] eqn:Hu; [|done]. intros [= <- <-].
    by eapply AuthorizedByToken.
Qed.

(** Authorization and quota together. *)
Lemma authorize_and_reserve_ok policy c now limits resolved digest snapshot workspace st st' summary :
  unpoisoned (quota_tracker st) ->
  authorize_and_reserve_quota policy c now limits resolved digest snapshot workspace st = (st', Ok summary) ->
  authorized policy c now resolved digest snapshot workspace (token_store st) summary (token_store st') /\
  mcp_runtime st' = mcp_runtime st /\ first_full (quota_tracker st) (reserve_call c workspace limits) = None /\
  same_slots (quota_tracker st) (release (quota_tracker st') (reserve_call c workspace limits)).
Proof.
  intros Hp. unfold authorize_and_reserve_quota.
  destruct (decide_authorization _ _ _ _ _ _ _ _) as [store [decision|]] eqn:Hd; [|done].
  pose proof (reserve_spec (quota_tracker st) (reserve_call c workspace limits) Hp) as (Hp1 & Hslot & Hfull).
  destruct (reserve (quota_tracker st) (reserve_call c workspace limits)) as [tracker r]. cbn [fst snd] in *.
  destruct r as [[]|e]; [|done]. intros [= <- <-].
  destruct (first_full _ _); [by destruct Hfull as (? & ? & _)|]. split_and!; [by apply decide_authorization_ok|done|done|].
  intros d k. destruct (release_spec tracker (reserve_call c workspace limits) Hp1) as [_ Hrel].
  cbn [quota_tracker]. rewrite Hrel, Hslot. cbn. lia.
Qed.

Lemma authorize_and_reserve_err policy c now limits resolved digest snapshot workspace st st' denial :
  unpoisoned (quota_tracker st) ->
  authorize_and_reserve_quota policy c now limits resolved digest snapshot workspace st = (st', Err denial) ->
  mcp_runtime st' = mcp_runtime st /\ same_slots (quota_tracker st) (quota_tracker st') /\
  exists code message, denial = DeniedExecution code message.
Proof.
  intros Hp. unfold authorize_and_reserve_quota, decide_authorization, denied_token.
  pose proof (reserve_spec (quota_tracker st) (reserve_call c workspace limits) Hp) as (_ & Hslot & _).
  destruct (reserve (quota_tracker st) (reserve_call c workspace limits)) as [tracker r]. cbn [fst snd] in *.
  assert (Hres : forall e, r = Err e -> same_slots (quota_tracker st) tracker)
    by (intros e -> d k; rewrite Hslot; cbn; lia).
  assert (Hquota : forall store decision,
    (let '(tracker', r') := (tracker, r) in
     match r' with
     | Ok _ => ({| mcp_runtime := mcp_runtime st; token_store := store; quota_tracker := tracker' |}, Ok (summary_of decision))
     | Err e => ({| mcp_runtime := mcp_runtime st; token_store := store; quota_tracker := tracker' |},
                 Err (DeniedExecution ("quota_exhausted_" +:+ Quota.scope e) (Quota.message e)))
     end) = (st', Err denial) ->
    mcp_runtime st' = mcp_runtime st /\ same_slots (quota_tracker st) (quota_tracker st') /\
    exists code message, denial = DeniedExecution code message).
  { intros store decision. destruct r as [[]|e]; [done|]. intros [= <- <-]. split_and!; [done|by eapply Hres|eauto]. }
  destruct (proposal_is_automatic_eligible resolved); [apply Hquota|].
  destruct (approval_token c) as [token|]; [|intros [= <- <-]; split_and!; [done|by intros ? ?|eauto]].
  destruct (verify_approval_token _ _ _) as [claims|e]; [|intros [= <- <-]; split_and!; [done|by intros ? ?|eauto]].
  destruct (check_and_record_use _ _) as [store [[]|e]]; [apply Hquota|].
  intros [= <- <-]; split_and!; [done|by intros ? ?|eauto].
Qed.

(** What was executed passed every check. *)
Definition validated (r : ProposalExecutionRequest) (p : WorkflowProposal) (canonical : CanonicalProposal)
    (resolved : list ResolvedProposalNode) : Prop :=
  parse_proposal (proposal_json r) = Ok p /\
  canonicalize_proposal serialized_len p (proposal_limits r) = Ok canonical /\
  validate_proposal_against_host_state canonical (manifest r) (registry r) = Ok resolved.

Lemma parse_and_digest_ok json p id digest :
  parse_and_digest json = Ok (p, id, digest) -> parse_proposal json = Ok p /\ digest = proposal_digest p.
Proof. unfold parse_and_digest. destruct (parse_proposal json); cbn; [|done]. by intros [= <- <- <-]. Qed.

Lemma accept_proposal_ok p r canonical resolved :
  accept_proposal p r = Ok (canonical, resolved) ->
  canonicalize_proposal serialized_len p (proposal_limits r) = Ok canonical /\
  validate_proposal_against_host_state canonical (manifest r) (registry r) = Ok resolved.
Proof.
  unfold accept_proposal. destruct (canonicalize_proposal _ _ _) as [c|] eqn:Hc; [|done]. cbn [mbind Result_bind map_err].
  destruct (validate_proposal_against_host_state _ _ _) as [v|] eqn:Hv; [|done]. cbn. by intros [= <- <-].
Qed.

(** C23: when the execute tool answers with a trace, the request held a proposal that
    passed the structural and the cross-validation; either every node may run
    automatically, or a presented token verified for exactly this proposal, snapshot
    and workspace and one of its uses was recorded; no quota was exhausted; and the
    trace is that of one sequential execution.  Afterwards every quota count is what
    it was before. *)
Theorem mcp_execution_authorized r limits now st st' t :
  unpoisoned (quota_tracker st) ->
  execute_proposal_via_mcp r limits now st = Some (st', Ok (Trace t)) ->
  exists p canonical resolved summary, validated r p canonical resolved /\
    let digest := proposal_digest p in
    let snapshot := proposal_snapshot_digest digest (snapshots r) in
    let workspace := Proposal.workspace_id p in
    authorized (token_policy r) (caller r) now resolved digest snapshot workspace (token_store st) summary (token_store st') /\
    first_full (quota_tracker st) (reserve_call (caller r) workspace limits) = None /\
    execute_proposal (mcp_runtime st) canonical summary digest snapshot = Some (mcp_runtime st', t) /\
    same_slots (quota_tracker st) (quota_tracker st').
Proof.
  intros Hp. unfold execute_proposal_via_mcp. destruct (parse_and_digest (proposal_json r)) as [[[p id] digest]|] eqn:Hparse; [|done].
  apply parse_and_digest_ok in Hparse as [Hparse ->]. cbv zeta.
  destruct (accept_proposal p r) as [[canonical resolved]|denial] eqn:Hacc; [|intros [= _ Hd]; subst; unfold accept_proposal in Hacc].
  2:{ exfalso. destruct (canonicalize_proposal _ _ _); cbn in Hacc; [destruct (validate_proposal_against_host_state _ _ _)|]; done. }
  apply accept_proposal_ok in Hacc as [Hc Hv].
  destruct (authorize_and_reserve_quota _ _ _ _ _ _ _ _ _) as [st1 [summary|denial]] eqn:Ha.
  - apply authorize_and_reserve_ok in Ha as (Hauth & Hrt & Hfull & Hslots); [|done].
    destruct (execute_proposal _ _ _ _ _) as [[rt t']|] eqn:Hrun; [|done]. cbn [mbind option_bind]. intros [= <- <-].
    exists p, canonical, resolved, summary. rewrite <- Hrt. by split_and!.
  - apply authorize_and_reserve_err in Ha as (_ & _ & code & message & ->); done.
Qed.

(** The parallel execute tool gives the same guarantees, and in addition the
    schedule it runs was computed from the proposal and lets only pure reads share a
    wave. *)
Theorem mcp_parallel_execution_authorized r slimits xlimits limits now envs st st' t :
  unpoisoned (quota_tracker st) ->
  execute_parallel_proposal_via_mcp r slimits xlimits limits now envs st = (st', Ok (Trace t)) ->
  exists p canonical resolved schedule summary, validated r p canonical resolved /\
    compute_parallel_schedule canonical slimits = Ok schedule /\
    enforce_pure_read_only_parallelism schedule resolved = Ok tt /\
    let digest := proposal_digest p in
    let snapshot := proposal_snapshot_digest digest (snapshots r) in
    let workspace := Proposal.workspace_id p in
    authorized (token_policy r) (caller r) now resolved digest snapshot workspace (token_store st) summary (token_store st') /\
    first_full (quota_tracker st) (reserve_call (caller r) workspace limits) = None /\
    execute_parallel_proposal (mcp_runtime st) canonical schedule summary digest snapshot xlimits envs = (mcp_runtime st', t) /\
    same_slots (quota_tracker st) (quota_tracker st').
Proof.
  intros Hp. unfold execute_parallel_proposal_via_mcp.
  destruct (parse_and_digest (proposal_json r)) as [[[p id] digest]|] eqn:Hparse; [|done].
  apply parse_and_digest_ok in Hparse as [Hparse ->]. cbv zeta.
  destruct (accept_proposal p r) as [[canonical resolved]|denial] eqn:Hacc; cbn [mbind Result_bind].
  2:{ intros [= _ ->]. exfalso. unfold accept_proposal in Hacc.
      destruct (canonicalize_proposal _ _ _); cbn in Hacc; [destruct (validate_proposal_against_host_state _ _ _)|]; done. }
  apply accept_proposal_ok in Hacc as [Hc Hv].
  destruct (compute_parallel_schedule canonical slimits) as [schedule|] eqn:Hs; [|done]. cbn [map_err mbind Result_bind].
  destruct (enforce_pure_read_only_parallelism schedule resolved) as [[]|] eqn:He; [|done]. cbn [map_err mbind Result_bind].
  destruct (authorize_and_reserve_quota _ _ _ _ _ _ _ _ _) as [st1 [summary|denial]] eqn:Ha.
  - apply authorize_and_reserve_ok in Ha as (Hauth & Hrt & Hfull & Hslots); [|done].
    destruct (execute_parallel_proposal _ _ _ _ _ _ _ _) as [rt t'] eqn:Hrun. intros [= <- <-].
    exists p, canonical, resolved, schedule, summary. rewrite <- Hrt. by split_and!.
  - apply authorize_and_reserve_err in Ha as (_ & _ & code & message & ->); done.
Qed.

(** A request that is not executed (it does not parse, is invalid, not authorized,
    or over quota) does not reach the runtime and leaves every quota count as it was. *)
Theorem mcp_denial_is_inert r limits now st st' answer :
  unpoisoned (quota_tracker st) ->
  execute_proposal_via_mcp r limits now st = Some (st', answer) ->
  (forall t, answer <> Ok (Trace t)) ->
  mcp_runtime st' = mcp_runtime st /\ same_slots (quota_tracker st) (quota_tracker st').
Proof.
  intros Hp. unfold execute_proposal_via_mcp. destruct (parse_and_digest _) as [[[p id] digest]|]; [|by intros [= <- <-]].
  cbv zeta. destruct (accept_proposal p r) as [[canonical resolved]|denial]; [|by intros [= <- <-]].
  destruct (authorize_and_reserve_quota _ _ _ _ _ _ _ _ _) as [st1 [summary|denial]] eqn:Ha.
  - destruct (execute_proposal _ _ _ _ _) as [[rt t]|]; [|done]. cbn. intros [= <- <-] Hno. by destruct (Hno t).
  - apply authorize_and_reserve_err in Ha as (Hrt & Hs & _); [|done]. by intros [= <- <-].
Qed.

(** A use of an approval token is consumed even when the quota then denies the
    request: with a token valid for one use and an exhausted quota the answer is a
    quota denial, and the token is refused from then on. *)
Theorem quota_denial_consumes_token_use r limits now st p canonical resolved token claims d :
  unpoisoned (quota_tracker st) -> validated r p canonical resolved ->
  proposal_is_automatic_eligible resolved = false -> approval_token (caller r) = Some token ->
  let digest := proposal_digest p in
  verify_approval_token
    (verification_context (token_policy r) (Proposal.workspace_id p) digest (proposal_snapshot_digest digest (snapshots r)))
    now token = Ok claims ->
  max_use_count claims = 1%N -> Approval.poisoned (token_store st) = false ->
  usage (token_store st) (token_id claims) = fresh_usage ->
  first_full (quota_tracker st) (reserve_call (caller r) (Proposal.workspace_id p) limits) = Some d ->
  exists st' message,
    execute_proposal_via_mcp r limits now st =
      Some (st', Ok (DeniedExecution ("quota_exhausted_" +:+ scope_of d) message)) /\
    (check_and_record_use (token_store st') claims).2 =
      Err (token_error UseCountExhausted "token has reached its maximum use count").
Proof.
  intros Hp (Hparse & Hc & Hv) Hauto Htoken. cbv zeta. intros Hverify Hmax Hpois Husage Hfull.
  unfold execute_proposal_via_mcp, parse_and_digest. rewrite Hparse. cbn [map_err mbind Result_bind]. cbv zeta.
  unfold accept_proposal. rewrite Hc. cbn [map_err mbind Result_bind]. rewrite Hv. cbn [map_err mbind Result_bind].
  unfold authorize_and_reserve_quota, decide_authorization. rewrite Hauto, Htoken, Hverify.
  unfold check_and_record_use at 1. rewrite Hpois, Husage, Hmax. cbn [revoked use_count fresh_usage N.leb N.compare].
  pose proof (reserve_spec (quota_tracker st) (reserve_call (caller r) (Proposal.workspace_id p) limits) Hp) as (_ & _ & Hr).
  rewrite Hfull in Hr. destruct Hr as (e & He & Hscope).
  destruct (reserve _ _) as [tracker res]. cbn [snd] in He. subst res. rewrite Hscope. eexists _, _. split; [done|].
  cbn [token_store]. unfold check_and_record_use. cbn [Approval.poisoned set_usage]. rewrite Hpois, usage_set, decide_True by done.
  cbn. by rewrite Hmax.
Qed.

End Mcp.
