(* ===== verification/ProposalSamples.v ===== *)
(** * Concrete proposals, hosts and runs

    Instances of the parameters of proposal execution, on which its theorems are
    applied: a host whose registry holds the four capabilities of the diamond, a
    runtime that answers with its input, and a token issuer. *)
From S2P Require Import Prelude Json Pointer Placement Risk Contract Proposal Schedule.
From S2P Require Import Base64 Approval Quota ProposalCheck Request ProposalRun ProposalRunProps.
From S2P Require Import ProposalMcp.
From Stdlib Require Import Ascii.

(** ** The host *)

(** A pure read that produces and accepts internal data. *)
Definition read_risk : RiskMetadata := {|
  effect_class := PureRead; determinism_class := Deterministic;
  data_flow := {| accepted_data_classifications := [{| field_path := "/y"; classification := Internal |}];
                  produced_data_classifications := [{| field_path := "/x"; classification := Internal |}];
                  egress_policy := Denied |};
  reliability := {| idempotency_required := false; retryable := false; compensation_available := false |} |}.

(** The same with a side effect. *)
Definition write_risk : RiskMetadata := {|
  effect_class := StateWrite; determinism_class := Deterministic; data_flow := data_flow read_risk;
  reliability := reliability read_risk |}.

Definition letters : list (string * string) := [("test.a", "a"); ("test.b", "b"); ("test.c", "c"); ("test.d", "d")].

(** The registry gives every capability the same risk. *)
#[local] Instance sample_host : HostState := {|
  ApplicationBundleManifest := unit;
  components _ := (fun l => (l.1, "1.0.0")) <$> letters;
  CapabilityRegistry := RiskMetadata;
  RegisteredCapability := string * RiskMetadata;
  find_exact r id _ := (fun l => (l.2, r)) <$> List.find (fun l => bool_decide (l.1 = id)) letters;
  contract_of c := with_risk c.2 sample_contract;
  binary_digest c := Some ("digest-" +:+ c.1);
  source_digest _ := "unused" |}.

Definition resolved_diamond (r : RiskMetadata) : list ResolvedProposalNode :=
  (fun id => {| resolved_id := id; contract := with_risk r sample_contract |}) <$> ["a"; "b"; "c"; "d"].

Lemma diamond_validated :
  @validate_proposal_against_host_state sample_host diamond_order tt read_risk = Ok (resolved_diamond read_risk).
Proof. vm_compute. reflexivity. Qed.

Lemma host_validation_exact_witness :
  resolved_id <$> resolved_diamond read_risk = ["a"; "b"; "c"; "d"] /\
  Forall (@resolves sample_host tt read_risk (nodes diamond)) (resolved_diamond read_risk) /\
  Forall (mapping_permitted (contract_at (resolved_diamond read_risk))) (mappings diamond).
Proof.
  exact (proj1 (@host_validation_exact sample_host sample_json_len diamond default_proposal_limits diamond_order tt read_risk
    (resolved_diamond read_risk) diamond_accepted) diamond_validated).
Defined.

(** ** Executions *)

(** The runtime counts its calls and answers with the input of the request. *)
#[local] Instance echo_runtime : CapabilityRuntime := {|
  Runtime := N;
  execute n q := ((n + 1)%N,
    Some {| result_status := Completed; output := Some (Object [("x", input q)]); result_error := None |}) |}.

#[local] Instance echo_pure : PureRuntime echo_runtime.
Proof.
  refine {| answer q := Some {| result_status := Completed; output := Some (Object [("x", input q)]); result_error := None |} |}.
  done.
Defined.

Definition auto_summary : AuthorizationSummary := {| automatic := true; approval_token_id := None |}.

Definition diamond_trace : ProposalTrace :=
  trace_of diamond_order auto_summary "d" "s"
    ((fun id => outcome_of id (sample_node id) Succeeded None) <$> ["a"; "b"; "c"; "d"]) TerminalSucceeded.

Lemma diamond_executed :
  @execute_proposal echo_runtime 0%N diamond_order auto_summary "d" "s" = Some (4%N, diamond_trace).
Proof. vm_compute. reflexivity. Qed.

Lemma sequential_stops_at_first_failure_witness :
  outcome_node_id <$> node_outcomes diamond_trace = ["a"; "b"; "c"; "d"].
Proof.
  exact (proj1 (@sequential_stops_at_first_failure echo_runtime sample_json_len diamond default_proposal_limits
    diamond_order 0%N auto_summary "d" "s" 4%N diamond_trace diamond_accepted diamond_executed)).
Defined.

#[local] Instance empty_serde : SerdeJson := {| parse_syntax _ := Err "unexpected"; to_vec _ := [] |}.

(** In the second wave the second node's call takes effect first. *)
Definition sample_environments : list WaveEnvironment := [
  {| elapsed := 1; call_orders := [[0]] |}; {| elapsed := 2; call_orders := [[1; 0]] |};
  {| elapsed := 3; call_orders := [[0]] |}].

Lemma parallel_matches_sequential_witness : node_outcomes diamond_trace ≡ₚ node_outcomes diamond_trace.
Proof.
  apply (proj2 (@parallel_matches_sequential echo_runtime echo_pure empty_serde sample_json_len diamond
    default_proposal_limits diamond_order default_schedule_limits diamond_schedule default_execution_limits
    sample_environments 0%N auto_summary "d" "s" 4%N diamond_trace diamond_accepted diamond_scheduled
    ltac:(repeat split; repeat constructor) ltac:(vm_compute; reflexivity) ltac:(discriminate)) 4%N diamond_trace
    diamond_executed eq_refl).
Defined.

Lemma parallel_only_pure_reads_witness :
  exists r, r ∈ resolved_diamond read_risk /\ resolved_id r = "b" /\ effect_class (risk (contract r)) = PureRead.
Proof.
  apply (proj1 (parallel_only_pure_reads diamond_schedule (resolved_diamond read_risk)
    ltac:(apply (bool_decide_unpack _); vm_compute; exact I)) ltac:(vm_compute; reflexivity) ["b"; "c"] "b");
    [right; left|left|vm_compute; repeat constructor].
Defined.

(** ** Inputs *)

Definition first_mapping : ProposalMapping :=
  {| source := FromNode "a"; source_path := "/x"; target_node_id := "b"; target_path := "/y" |}.

Lemma assembled_input_has_mapped_value_witness :
  pointer_get (assemble_node_input diamond_order "b" {["a" := Object [("x", Str "v")]]}) "/y" = Some (Str "v").
Proof.
  apply (assembled_input_has_mapped_value diamond_order {["a" := Object [("x", Str "v")]]} [] first_mapping []).
  - reflexivity.
  - vm_compute. reflexivity.
  - split_and!; [reflexivity|reflexivity|]. apply (bool_decide_unpack _). vm_compute. exact I.
  - intros m' Hm'. apply elem_of_nil in Hm'. destruct Hm'.
Defined.

(** Two mappings into node ["b"], whose target paths are different strings that name
    the same field. *)
Definition aliased : WorkflowProposal := {|
  kind := "workflow_proposal"; schema_version := "1.0.0"; proposal_id := "aliased"; Proposal.workspace_id := "ws";
  app_manifest := app_manifest diamond; nodes := [sample_node "b"]; edges := [];
  mappings := [{| source := InitialInput; source_path := "/p"; target_node_id := "b"; target_path := "/y" |};
               {| source := InitialInput; source_path := "/q"; target_node_id := "b"; target_path := "//y" |}];
  initial_input := Object [("p", Str "first"); ("q", Str "second")] |}.

(** The check for several writers of one target path compares the paths as texts:
    a proposal that writes ["/y"] and ["//y"] of a node is accepted, and the input of
    the node holds the value of the last mapping only. *)
Theorem aliased_targets_overwrite :
  exists canonical, canonicalize_proposal sample_json_len aliased default_proposal_limits = Ok canonical /\
    assemble_node_input canonical "b" ∅ = Object [("y", Str "second")].
Proof. exists {| proposal := aliased; execution_order := ["b"] |}. split; vm_compute; reflexivity. Qed.

(** ** The tools *)

#[local] Instance diamond_codec : ProposalCodec := {|
  parse_proposal json := if decide (json = "diamond") then Ok diamond else Err "unexpected";
  sha256 _ := [] |}.

Definition token_claims : ApprovalTokenClaims := {|
  token_id := "tok-1"; issuer := "approvals"; key_id := "k1"; audience := "traverse"; Approval.principal := "alice";
  Approval.workspace_id := "workspace-001"; Approval.proposal_digest := "1.0.0:sha256:"; snapshot_digest := "1.0.0:sha256:";
  permitted_effects := []; permitted_connectors := []; max_use_count := 1; expiry_unix := 2000 |}.

(** A codec that knows the documents of the token. *)
Definition token_serde : SerdeJson := {|
  parse_syntax bytes :=
    if decide (bytes = ["h"%char]) then Ok (token_header "k1")
    else if decide (bytes = ["p"%char]) then Ok (token_payload token_claims) else Err "unexpected";
  to_vec v := match get "alg" v with Some _ => ["h"%char] | None => ["p"%char] end |}.

Definition sample_token : string := @issue token_serde (fun _ => replicate 64 "s"%char) token_claims.

Definition sample_request (registry : RiskMetadata) : @ProposalExecutionRequest sample_host sample_ed25519 :=
  @Build_ProposalExecutionRequest sample_host sample_ed25519 "diamond" tt registry default_proposal_limits
    {| snap_manifest := "m"; snap_registry := "r"; snap_binding := "b"; snap_policy := "p"; snap_budget := "u" |}
    (@Build_TokenPolicy sample_ed25519 "approvals" "traverse" {["k1" := tt]})
    {| approval_token := Some sample_token; caller_principal := "alice"; caller_app := "app" |}.

Definition idle : @McpState echo_runtime := @Build_McpState echo_runtime 0%N new_store new_tracker.

(** The slots after a reservation that was dropped. *)
Definition used_tracker : QuotaTracker :=
  let slots k := {| counts := {[k := 0%N]}; Quota.poisoned := false |} in
  {| principal_slots := slots "alice"; app_slots := slots "app"; workspace_slots := slots "workspace-001" |}.

Definition mcp_trace : ProposalTrace :=
  trace_of diamond_order auto_summary "1.0.0:sha256:" "1.0.0:sha256:"
    ((fun id => outcome_of id (sample_node id) Succeeded None) <$> ["a"; "b"; "c"; "d"]) TerminalSucceeded.

Definition after_run : @McpState echo_runtime := @Build_McpState echo_runtime 4%N new_store used_tracker.

Lemma mcp_execution_authorized_witness :
  exists p canonical resolved summary,
    @validated token_serde diamond_codec sample_host sample_ed25519 (sample_request read_risk) p canonical resolved /\
    @execute_proposal echo_runtime 0%N canonical summary (@proposal_digest token_serde diamond_codec p) "1.0.0:sha256:" =
      Some (4%N, mcp_trace).
Proof.
  destruct (@mcp_execution_authorized token_serde diamond_codec sample_host sample_ed25519 echo_runtime
    (sample_request read_risk) default_quota_limits 1000 idle after_run mcp_trace)
    as (p & canonical & resolved & summary & Hv & _ & _ & Hrun & _); [by intros []|vm_compute; reflexivity|].
  exists p, canonical, resolved, summary. split; [exact Hv|]. exact Hrun.
Defined.

Lemma mcp_parallel_execution_authorized_witness :
  exists p canonical resolved schedule,
    @validated token_serde diamond_codec sample_host sample_ed25519 (sample_request read_risk) p canonical resolved /\
    enforce_pure_read_only_parallelism schedule resolved = Ok tt.
Proof.
  destruct (@mcp_parallel_execution_authorized token_serde diamond_codec sample_host sample_ed25519 echo_runtime
    (sample_request read_risk) default_schedule_limits default_execution_limits default_quota_limits 1000 sample_environments
    idle after_run mcp_trace)
    as (p & canonical & resolved & schedule & summary & Hv & _ & He & _); [by intros []|vm_compute; reflexivity|].
  exists p, canonical, resolved, schedule. split; [exact Hv|exact He].
Defined.

Definition no_principals : QuotaLimits := {|
  max_concurrent_per_principal := 0; max_concurrent_per_app := 1; max_concurrent_per_workspace := 1 |}.

Lemma quota_denial_consumes_token_use_witness :
  exists st' message,
    @execute_proposal_via_mcp token_serde diamond_codec sample_host sample_ed25519 echo_runtime
      (sample_request write_risk) no_principals 1000 idle = Some (st', Ok (DeniedExecution "quota_exhausted_principal" message)) /\
    (check_and_record_use (token_store st') token_claims).2 =
      Err (token_error UseCountExhausted "token has reached its maximum use count").
Proof.
  apply (@quota_denial_consumes_token_use token_serde diamond_codec sample_host sample_ed25519 echo_runtime
    (sample_request write_risk) no_principals 1000 idle diamond diamond_order (resolved_diamond write_risk) sample_token
    token_claims Principal).
  - by intros [].
  - split_and!; vm_compute; reflexivity.
  - vm_compute. reflexivity.
  - reflexivity.
  - vm_compute. reflexivity.
  - reflexivity.
  - reflexivity.
  - reflexivity.
  - vm_compute. reflexivity.
Defined.

Lemma mcp_denial_is_inert_witness :
  exists st' answer,
    @execute_proposal_via_mcp token_serde diamond_codec sample_host sample_ed25519 echo_runtime
      (sample_request write_risk) no_principals 1000 idle = Some (st', answer) /\ mcp_runtime st' = 0%N.
Proof.
  destruct (@execute_proposal_via_mcp token_serde diamond_codec sample_host sample_ed25519 echo_runtime
    (sample_request write_risk) no_principals 1000 idle) as [[st' answer]|] eqn:Hrun; [|vm_compute in Hrun; discriminate].
  exists st', answer. split; [reflexivity|].
  apply (@mcp_denial_is_inert token_serde diamond_codec sample_host sample_ed25519 echo_runtime
    (sample_request write_risk) no_principals 1000 idle _ _ ltac:(by intros []) Hrun).
  intros t ->. vm_compute in Hrun. discriminate.
Defined.
