(* ===== verification/Schema.v ===== *)
(** * Payload validation

    [validate_value_against_schema] of [crates/traverse-runtime/src/lib.rs], the
    structural subset of JSON Schema that guards inputs, outputs and stored state.
    The violations are returned in the order the code pushes them.  [conforms] is
    the typing judgment the function decides. *)
From S2P Require Import Prelude Json Proposal.

(** ** The validator *)

Definition schema_pointer (path segment : string) : string := path +:+ "/" +:+ segment.

Definition display_pointer (path : string) : string :=
  if bool_decide (path = "") then "/" else path.

Definition type_error (path expected : string) : Value :=
  obj [("path", Str (display_pointer path)); ("message", Str ("expected " +:+ expected))].

(** [schema_object.get("type").and_then(Value::as_str)] *)
Definition declared_type (schema_object : list (string * Value)) : option string :=
  member_str "type" schema_object.

Definition missing_property (path field : string) : Value :=
  obj [("path", Str (schema_pointer path field)); ("keyword", Str "required");
       ("message", Str "required property is missing")].

(** [required.iter().filter_map(Value::as_str)] *)
Definition required_fields (schema_object : list (string * Value)) : list string :=
  match member "required" schema_object ≫= as_array with
  | Some required => omap as_str required
  | None => []
  end.

Definition validate_required (instance schema_object : list (string * Value)) (path : string) : list Value :=
  missing_property path <$>
    List.filter (fun field => negb (contains_key field instance)) (required_fields schema_object).

Definition property_schema (schema_object : list (string * Value)) (key : string) : option Value :=
  properties ← member "properties" schema_object ≫= as_object; member key properties.

Definition additional_allowed (schema_object : list (string * Value)) : bool :=
  default true (member "additionalProperties" schema_object ≫= as_bool).

Definition additional_property (path key : string) : Value :=
  obj [("path", Str (schema_pointer path key)); ("keyword", Str "additionalProperties");
       ("message", Str "additional property is not allowed")].

Section loops.
Context (validate : Value -> Value -> string -> list Value).

Definition validate_property (schema_object : list (string * Value)) (path : string) (entry : string * Value)
    : list Value :=
  match property_schema schema_object entry.1 with
  | Some schema => validate entry.2 schema (schema_pointer path entry.1)
  | None => if additional_allowed schema_object then [] else [additional_property path entry.1]
  end.

Definition validate_properties (instance schema_object : list (string * Value)) (path : string) : list Value :=
  flat_map (validate_property schema_object path) instance.

Definition validate_items (item_schema : Value) (path : string) : nat -> list Value -> list Value :=
  fix loop index items :=
    match items with
    | [] => []
    | item :: rest =>
        validate item item_schema (schema_pointer path (show_nat index)) ++ loop (S index) rest
    end.
End loops.

Definition too_long (path : string) (max_length : N) : Value :=
  obj [("path", Str (display_pointer path)); ("keyword", Str "maxLength");
       ("message", Str ("string longer than maxLength " +:+ u64_to_string max_length))].

Definition validate_text (text : string) (schema_object : list (string * Value)) (path : string) : list Value :=
  match member "maxLength" schema_object ≫= as_u64 with
  | Some max_length =>
      if (max_length <? N.of_nat (length (chars text)))%N then [too_long path max_length] else []
  | None => []
  end.

Definition is_number (v : Value) : bool := match v with Num _ => true | _ => false end.
Definition is_boolean (v : Value) : bool := match v with Bool _ => true | _ => false end.
Definition is_null (v : Value) : bool := match v with Null => true | _ => false end.

(** [value.as_i64().is_some() || value.as_u64().is_some()] *)
Definition is_integer (v : Value) : bool :=
  match as_i64 v, as_u64 v with None, None => false | _, _ => true end.

(** The arms of the match on [schema_type] that look at the value alone. *)
Definition validate_scalar (schema_type : string) (value : Value) (path : string) : list Value :=
  if bool_decide (schema_type = "integer") && negb (is_integer value) then [type_error path "integer"]
  else if bool_decide (schema_type = "number") && negb (is_number value) then [type_error path "number"]
  else if bool_decide (schema_type = "boolean") && negb (is_boolean value) then [type_error path "boolean"]
  else if bool_decide (schema_type = "null") && negb (is_null value) then [type_error path "null"]
  else [].

Fixpoint validate_value_against_schema (value schema : Value) (path : string) {struct value} : list Value :=
  match schema with
  | Object schema_object =>
      match declared_type schema_object with
      | None => []
      | Some schema_type =>
          if bool_decide (schema_type = "object") then
            match value with
            | Object instance =>
                validate_required instance schema_object path
                ++ validate_properties validate_value_against_schema instance schema_object path
            | _ => [type_error path "object"]
            end
          else if bool_decide (schema_type = "array") then
            match value with
            | Array items =>
                match member "items" schema_object with
                | Some item_schema => validate_items validate_value_against_schema item_schema path 0 items
                | None => []
                end
            | _ => [type_error path "array"]
            end
          else if bool_decide (schema_type = "string") then
            match value with
            | Str text => validate_text text schema_object path
            | _ => [type_error path "string"]
            end
          else validate_scalar schema_type value path
      end
  | _ => [obj [("path", Str (if bool_decide (path = "") then "/" else path));
               ("message", Str "schema must be an object")]]
  end.

(** ** The judgment *)

Definition scalar_types : list string := ["integer"; "number"; "boolean"; "null"].

(** A scalar of the named type. *)
Definition scalar_of (schema_type : string) (value : Value) : Prop :=
  match value with
  | Num (Float _) => schema_type = "number"
  | Num _ => schema_type = "integer" \/ schema_type = "number"
  | Bool _ => schema_type = "boolean"
  | Null => schema_type = "null"
  | _ => False
  end.

Inductive conforms : Value -> Value -> Prop :=
  | conforms_untyped value schema :
      declared_type schema = None -> conforms value (Object schema)
  | conforms_unknown value schema t :
      declared_type schema = Some t -> t ∉ ["object"; "array"; "string"] ++ scalar_types ->
      conforms value (Object schema)
  | conforms_object instance schema :
      declared_type schema = Some "object" ->
      (forall field, field ∈ required_fields schema -> field ∈ instance.*1) ->
      (forall key value s, (key, value) ∈ instance -> property_schema schema key = Some s -> conforms value s) ->
      (additional_allowed schema = false -> forall key, key ∈ instance.*1 -> is_Some (property_schema schema key)) ->
      conforms (Object instance) (Object schema)
  | conforms_array items schema :
      declared_type schema = Some "array" ->
      (forall s item, member "items" schema = Some s -> item ∈ items -> conforms item s) ->
      conforms (Array items) (Object schema)
  | conforms_string text schema :
      declared_type schema = Some "string" ->
      (forall n, member "maxLength" schema ≫= as_u64 = Some n -> (N.of_nat (length (chars text)) <= n)%N) ->
      conforms (Str text) (Object schema)
  | conforms_scalar value schema t :
      declared_type schema = Some t -> t ∈ scalar_types -> scalar_of t value ->
      conforms value (Object schema).

(** ** The loops *)

Lemma validate_required_nil instance schema path :
  validate_required instance schema path = [] <->
  forall field, field ∈ required_fields schema -> field ∈ instance.*1.
Proof.
  unfold validate_required. induction (required_fields schema) as [|f fs IH]; cbn.
  - split; [by intros _ ? ?%elem_of_nil|done].
  - destruct (contains_key f instance) eqn:E; cbn.
    + apply contains_key_spec in E. rewrite IH. set_solver.
    + split; [done|]. intros H. exfalso. specialize (H f ltac:(left)).
      apply contains_key_spec in H. congruence.
Qed.

Lemma flat_map_nil {A B} (f : A -> list B) l : flat_map f l = [] <-> Forall (fun x => f x = []) l.
Proof. induction l; cbn; [by split|]. rewrite Forall_cons, app_nil_iff. naive_solver. Qed.

(** What validating the members of an object accepts, given what the recursive
    calls accept. *)
Lemma validate_properties_nil (ok : Value -> Value -> Prop) validate instance schema path :
  Forall (fun m => forall s p, validate m.2 s p = [] <-> ok m.2 s) instance ->
  validate_properties validate instance schema path = [] <->
  (forall key value s, (key, value) ∈ instance -> property_schema schema key = Some s -> ok value s) /\
  (additional_allowed schema = false -> forall key, key ∈ instance.*1 -> is_Some (property_schema schema key)).
Proof.
  intros Hok. unfold validate_properties. rewrite flat_map_nil, Forall_forall.
  rewrite Forall_forall in Hok. unfold validate_property. split.
  - intros H. split.
    + intros key value s Hin Hs. specialize (H _ Hin). cbn in H. rewrite Hs in H.
      by apply (Hok _ Hin) in H.
    + intros Hclosed key Hin. apply list_elem_of_fmap in Hin as ([k v] & -> & Hin).
      specialize (H _ Hin). cbn in H |- *. rewrite Hclosed in H. destruct (property_schema schema k); done.
  - intros [Hsub Hclosed] [k v] Hin. cbn. destruct (property_schema schema k) as [s|] eqn:Hs.
    + apply (Hok _ Hin), (Hsub k v s); done.
    + destruct (additional_allowed schema) eqn:Ha; [done|].
      destruct (Hclosed eq_refl k) as [s Hs']; [|congruence].
      apply list_elem_of_fmap. by exists (k, v).
Qed.

Lemma validate_items_nil (ok : Value -> Value -> Prop) validate s path items :
  Forall (fun item => forall s p, validate item s p = [] <-> ok item s) items ->
  forall index, validate_items validate s path index items = [] <-> forall item, item ∈ items -> ok item s.
Proof.
  induction 1 as [|item items Hitem _ IH]; intros index; cbn.
  - split; [by intros _ ? ?%elem_of_nil|done].
  - rewrite app_nil_iff, Hitem, IH. set_solver.
Qed.

Lemma validate_length_nil text schema path :
  validate_text text schema path = [] <->
  forall n, member "maxLength" schema ≫= as_u64 = Some n -> (N.of_nat (length (chars text)) <= n)%N.
Proof.
  unfold validate_text. destruct (member "maxLength" schema ≫= as_u64) as [n|]; [|naive_solver].
  destruct (N.ltb_spec n (N.of_nat (length (chars text)))).
  - split; [done|]. intros Hn. specialize (Hn n eq_refl). lia.
  - split; [|done]. by intros _ ? [= <-].
Qed.

Lemma is_integer_spec v : is_integer v = true <-> scalar_of "integer" v.
Proof.
  unfold is_integer, as_i64, as_u64. destruct v as [| |[n|z|f]| | |]; cbn; try naive_solver.
  destruct (Z.of_N n <=? i64_max)%Z; naive_solver.
Qed.

Lemma validate_scalar_nil t v path :
  validate_scalar t v path = [] <-> (t ∈ scalar_types -> scalar_of t v).
Proof.
  unfold validate_scalar, scalar_types.
  destruct (decide (t = "integer")) as [->|H1].
  { rewrite bool_decide_eq_true_2 by done. cbn. rewrite <- is_integer_spec.
    destruct (is_integer v); cbn; set_solver. }
  destruct (decide (t = "number")) as [->|H2].
  { cbn. destruct v as [| |[]| | |]; cbn; set_solver. }
  destruct (decide (t = "boolean")) as [->|H3].
  { cbn. destruct v as [| |[]| | |]; cbn; set_solver. }
  destruct (decide (t = "null")) as [->|H4].
  { cbn. destruct v as [| |[]| | |]; cbn; set_solver. }
  rewrite !bool_decide_eq_false_2 by done. cbn. set_solver.
Qed.

(** ** The validator decides the judgment *)

(** The declared type of a schema selects one rule. *)
Lemma conforms_inv_object value schema :
  declared_type schema = Some "object" -> conforms value (Object schema) ->
  exists instance, value = Object instance /\
    (forall field, field ∈ required_fields schema -> field ∈ instance.*1) /\
    (forall key v s, (key, v) ∈ instance -> property_schema schema key = Some s -> conforms v s) /\
    (additional_allowed schema = false -> forall key, key ∈ instance.*1 -> is_Some (property_schema schema key)).
Proof.
  intros Ht H. inversion H; subst; simplify_eq; [set_solver|eauto|].
  unfold scalar_types in *. set_solver.
Qed.

Lemma conforms_inv_array value schema :
  declared_type schema = Some "array" -> conforms value (Object schema) ->
  exists items, value = Array items /\
    (forall s item, member "items" schema = Some s -> item ∈ items -> conforms item s).
Proof.
  intros Ht H. inversion H; subst; simplify_eq; [set_solver|eauto|].
  unfold scalar_types in *. set_solver.
Qed.

Lemma conforms_inv_string value schema :
  declared_type schema = Some "string" -> conforms value (Object schema) ->
  exists text, value = Str text /\
    (forall n, member "maxLength" schema ≫= as_u64 = Some n -> (N.of_nat (length (chars text)) <= n)%N).
Proof.
  intros Ht H. inversion H; subst; simplify_eq; [set_solver|eauto|].
  unfold scalar_types in *. set_solver.
Qed.

Lemma conforms_inv_scalar value schema t :
  declared_type schema = Some t -> t ∈ scalar_types -> conforms value (Object schema) -> scalar_of t value.
Proof. intros Ht Hin H. inversion H; subst; simplify_eq; unfold scalar_types in *; set_solver. Qed.

(** The branch of the match on [schema_type] that is taken. *)
Lemma validate_untyped value so path :
  declared_type so = None -> validate_value_against_schema value (Object so) path = [].
Proof. intros Ht. destruct value; cbn; by rewrite Ht. Qed.

Lemma validate_as_scalar value so t path :
  declared_type so = Some t -> t ∉ ["object"; "array"; "string"] ->
  validate_value_against_schema value (Object so) path = validate_scalar t value path.
Proof.
  intros Ht Hn. assert (t <> "object" /\ t <> "array" /\ t <> "string") as (Ho & Ha & Hs) by set_solver.
  destruct value; cbn; rewrite Ht, !bool_decide_eq_false_2 by done; done.
Qed.

Lemma conforms_as_scalar value so t :
  declared_type so = Some t -> t ∉ ["object"; "array"; "string"] ->
  (conforms value (Object so) <-> (t ∈ scalar_types -> scalar_of t value)).
Proof.
  intros Ht Hn. split; [intros H Hin; by eapply conforms_inv_scalar|].
  intros H. destruct (decide (t ∈ scalar_types)).
  - by eapply conforms_scalar; eauto.
  - eapply conforms_unknown; [done|]. rewrite elem_of_app. tauto.
Qed.

Lemma validate_as_object value so path :
  declared_type so = Some "object" ->
  validate_value_against_schema value (Object so) path =
  match value with
  | Object instance => validate_required instance so path
      ++ validate_properties validate_value_against_schema instance so path
  | _ => [type_error path "object"]
  end.
Proof. intros Ht. destruct value; cbn; by rewrite Ht. Qed.

Lemma validate_as_array value so path :
  declared_type so = Some "array" ->
  validate_value_against_schema value (Object so) path =
  match value with
  | Array items =>
      match member "items" so with
      | Some s => validate_items validate_value_against_schema s path 0 items
      | None => []
      end
  | _ => [type_error path "array"]
  end.
Proof. intros Ht. destruct value; cbn; by rewrite Ht. Qed.

Lemma validate_as_string value so path :
  declared_type so = Some "string" ->
  validate_value_against_schema value (Object so) path =
  match value with Str text => validate_text text so path | _ => [type_error path "string"] end.
Proof. intros Ht. destruct value; cbn; by rewrite Ht. Qed.

Definition decided (value : Value) : Prop :=
  forall schema path, validate_value_against_schema value schema path = [] <-> conforms value schema.

Lemma decided_object value so path :
  declared_type so = Some "object" ->
  (forall instance, value = Object instance -> Forall (fun m => decided m.2) instance) ->
  (validate_value_against_schema value (Object so) path = [] <-> conforms value (Object so)).
Proof.
  intros Ht Hin. rewrite (validate_as_object _ _ _ Ht). destruct value as [| | | | |instance];
    try (split; [done|]; by intros (? & ? & _)%(conforms_inv_object _ _ Ht)).
  rewrite app_nil_iff, validate_required_nil, (validate_properties_nil conforms) by by apply Hin.
  split; [intros (? & ? & ?); by apply conforms_object|].
  intros (i & [= <-] & ? & ? & ?)%(conforms_inv_object _ _ Ht). eauto.
Qed.

Lemma decided_array value so path :
  declared_type so = Some "array" ->
  (forall items, value = Array items -> Forall decided items) ->
  (validate_value_against_schema value (Object so) path = [] <-> conforms value (Object so)).
Proof.
  intros Ht Hin. rewrite (validate_as_array _ _ _ Ht). destruct value as [| | | |items|];
    try (split; [done|]; by intros (? & ? & _)%(conforms_inv_array _ _ Ht)).
  destruct (member "items" so) as [s|] eqn:Hs.
  - rewrite (validate_items_nil conforms) by by apply Hin. split.
    + intros ?. apply conforms_array; [done|]. intros ? ? [= <-]%(eq_trans (eq_sym Hs)). auto.
    + intros (i & [= <-] & H)%(conforms_inv_array _ _ Ht). eauto.
  - split; [|done]. intros _. apply conforms_array; [done|]. intros ? ? ?%(eq_trans (eq_sym Hs)). done.
Qed.

Lemma decided_string value so path :
  declared_type so = Some "string" ->
  (validate_value_against_schema value (Object so) path = [] <-> conforms value (Object so)).
Proof.
  intros Ht. rewrite (validate_as_string _ _ _ Ht). destruct value as [| | |text| |];
    try (split; [done|]; by intros (? & ? & _)%(conforms_inv_string _ _ Ht)).
  rewrite validate_length_nil. split; [by apply conforms_string|].
  by intros (? & [= <-] & ?)%(conforms_inv_string _ _ Ht).
Qed.

Lemma decided_here value :
  (forall instance, value = Object instance -> Forall (fun m => decided m.2) instance) ->
  (forall items, value = Array items -> Forall decided items) ->
  decided value.
Proof.
  intros Hobj Harr [| | | | |so] path; [destruct value; (split; [done|by inversion 1])..|].
  destruct (declared_type so) as [t|] eqn:Ht;
    [|rewrite validate_untyped by done; split; [by constructor|done]].
  destruct (decide (t = "object")) as [->|]; [by apply decided_object|].
  destruct (decide (t = "array")) as [->|]; [by apply decided_array|].
  destruct (decide (t = "string")) as [->|]; [by apply decided_string|].
  assert (t ∉ ["object"; "array"; "string"]) as Hn by set_solver.
  by rewrite (validate_as_scalar _ _ _ _ Ht Hn), (conforms_as_scalar _ _ _ Ht Hn), validate_scalar_nil.
Qed.

Lemma validate_value_nil value : decided value.
Proof.
  induction value as [| | | |items IH|members IH] using value_ind'; apply decided_here; try done.
  - by intros ? [= <-].
  - by intros ? [= <-].
Qed.

(** A payload passes validation exactly when it has the type its schema
    declares: objects with their required members, with every declared member of
    its type and no other member where the schema is closed, arrays of items of
    their type, strings within their length and scalars of the named type.  A
    schema that is not an object accepts nothing, and the position in the document
    has no influence on the verdict. *)
Theorem schema_validation_exact value schema path :
  validate_value_against_schema value schema path = [] <-> conforms value schema.
Proof. apply validate_value_nil. Qed.
