(* ===== verification/DataStore.v ===== *)
(** * Application state

    [crates/traverse-runtime/src/data_store.rs]: the records, the errors, the
    trait [DataStore] that storage adapters implement, the in-memory adapter, the
    Lamport clock and [RuntimeDataStore], which validates and stamps what
    capabilities write.  An adapter's methods are [Eff] operations on its state:
    also reading may change it, because the remote adapter records evidence. *)
From S2P Require Import Prelude Effect Json Schema Contract.
From Stdlib Require Import SpecFloat Ascii.

(** ** Data *)

Record StateRecord := {
  key : string;
  value : Value;
  lamport_clock : N;
  writer_id : string }.

Inductive ConflictResolutionRule := OnlyLocal | OnlyRemote | HigherLamportClock | WriterIdentityTieBreak.

Record MergeDecision := {
  decision_key : string;
  winning_writer_id : string;
  winning_lamport_clock : N;
  resolution_rule : ConflictResolutionRule }.

Record SyncReport := {
  governing_spec : string;
  decisions : list MergeDecision }.

Inductive DataStoreErrorCode :=
  | SchemaValidationError | NoStateSchemaDeclared | LamportClockOverflow | InvalidKey | IoFailure
  | SerializationFailure | SyncFailure | IntegrityCheckFailed | StoreLocked | DurabilityCommitFailed
  | KeyProviderRequired | KeyNotFound | KeyExpired | KeyProviderFailure | CryptoFailure
  | ClassificationChangeNotAllowed | RemoteConflict | RemoteUnavailable | RemoteTimeout
  | RemoteOutcomeUnknown | RemoteUnauthorized | RemoteScopeDenied | RemoteIntegrityFailed
  | RemoteBackendFailed.

Record DataStoreError := {
  error_code : DataStoreErrorCode;
  error_message : string;
  error_details : Value }.

Definition data_store_error (code : DataStoreErrorCode) (message : string) (details : Value) : DataStoreError :=
  {| error_code := code; error_message := message; error_details := details |}.

(** ** Equality of records *)

Definition record_eqb (a b : StateRecord) : bool :=
  bool_decide (key a = key b) && value_eqb (value a) (value b)
  && (lamport_clock a =? lamport_clock b)%N && bool_decide (writer_id a = writer_id b).

(** ** The adapter interface *)

Class DataStore (St : Type) := {
  ds_read : string -> Eff St DataStoreError (option StateRecord);
  ds_write : StateRecord -> Eff St DataStoreError unit;
  ds_delete : string -> Eff St DataStoreError unit;
  ds_list_keys : Eff St DataStoreError (list string) }.

(** ** The in-memory adapter *)

Record InMemoryDataStore := { records : gmap string StateRecord }.

Definition new_in_memory : InMemoryDataStore := {| records := ∅ |}.

#[export] Instance in_memory_data_store : DataStore InMemoryDataStore := {|
  ds_read k s := (s, Ok (records s !! k));
  ds_write r s := ({| records := <[key r := r]> (records s) |}, Ok tt);
  ds_delete k s := ({| records := delete k (records s) |}, Ok tt);
  ds_list_keys s := (s, Ok (btree_elements (dom (records s)))) |}.

(** ** Keys and schemas *)

Definition is_key_char (c : string) : bool :=
  match c with
  | String a EmptyString =>
      let n := N_of_ascii a in
      ((48 <=? n) && (n <=? 57))%N || ((65 <=? n) && (n <=? 90))%N || ((97 <=? n) && (n <=? 122))%N
      || bool_decide (a = "_"%char) || bool_decide (a = "-"%char)
  | _ => false
  end.

Definition validate_key (k : string) : Result DataStoreError unit :=
  if negb (bool_decide (k = "")) && forallb is_key_char (chars k) then Ok tt
  else Err (data_store_error InvalidKey
              "state key must be non-empty and contain only ASCII letters, numbers, '_' or '-'"
              (obj [("key", Str k)])).

Definition validate_state_write_for_schema (capability_id : string) (state_schema : option Value)
    (k : string) (v : Value) : Result DataStoreError unit :=
  _ ← validate_key k;
  schema ← ok_or state_schema
    (data_store_error NoStateSchemaDeclared "no_state_schema_declared"
       (obj [("capability_id", Str capability_id); ("key", Str k)]));
  property ← ok_or (properties ← get "properties" schema ≫= as_object; member k properties)
    (data_store_error SchemaValidationError "schema_validation_error"
       (obj [("key", Str k); ("reason", Str "state key is not declared in schema")]));
  match validate_value_against_schema v property "" with
  | [] => Ok tt
  | violations =>
      Err (data_store_error SchemaValidationError "schema_validation_error"
             (obj [("key", Str k); ("violations", Array violations)]))
  end.

Definition validate_state_write (contract : CapabilityContract) (k : string) (v : Value)
    : Result DataStoreError unit :=
  validate_state_write_for_schema (id contract) (state_schema contract) k v.

Definition validate_relative_state_key (k : string) : Result DataStoreError unit :=
  if bool_decide (k = "") || contains k "/" || contains k ".."
  then Err (data_store_error InvalidKey
              "relative state key must be non-empty and must not contain '/' or '..'"
              (obj [("key", Str k)]))
  else validate_key k.

Definition namespaced_state_key (capability_id relative_key : string) : string :=
  capability_id +:+ "/" +:+ relative_key.

(** ** The Lamport clock *)

Record LamportClock := {
  clock_writer_id : string;
  clock_value : N }.

Definition new_clock (writer : string) : LamportClock :=
  {| clock_writer_id := writer; clock_value := 0 |}.

Definition with_value (writer : string) (value : N) : LamportClock :=
  {| clock_writer_id := writer; clock_value := value |}.

(** [LamportClock::next] *)
Definition next : Eff LamportClock DataStoreError N := fun c =>
  if (clock_value c <? u64_max)%N then
    let n := (clock_value c + 1)%N in
    ({| clock_writer_id := clock_writer_id c; clock_value := n |}, Ok n)
  else (c, Err (data_store_error LamportClockOverflow "lamport clock overflow"
                  (obj [("writer_id", Str (clock_writer_id c))]))).

(** ** [RuntimeDataStore]: an adapter and a clock *)

Definition RuntimeDataStore (A : Type) : Type := (A * LamportClock)%type.

Section runtime_store.
Context {A : Type} `{!DataStore A}.

Definition new_runtime_store (adapter : A) (writer : string) : RuntimeDataStore A :=
  (adapter, new_clock writer).

Definition with_clock (adapter : A) (clock : LamportClock) : RuntimeDataStore A := (adapter, clock).

(** [record.map(|record| { validate(&record.value)?; Ok(record.value) }).transpose()] *)
Definition checked_value (validate : Value -> Result DataStoreError unit) (found : option StateRecord)
    : Result DataStoreError (option Value) :=
  match found with
  | None => Ok None
  | Some r => _ ← validate (value r); Ok (Some (value r))
  end.

Definition runtime_read (contract : CapabilityContract) (k : string)
    : Eff (RuntimeDataStore A) DataStoreError (option Value) :=
  _ ← lift (validate_key k);
  match state_schema contract with
  | None => mret None
  | Some _ =>
      found ← on_fst (ds_read k);
      lift (checked_value (validate_state_write contract k) found)
  end.

(** Stamp a value and hand the record to the adapter. *)
Definition stamp_and_write (k : string) (v : Value) : Eff (RuntimeDataStore A) DataStoreError StateRecord :=
  n ← on_snd next;
  s ← current;
  let r := {| key := k; value := v; lamport_clock := n; writer_id := clock_writer_id s.2 |} in
  _ ← on_fst (ds_write r);
  mret r.

Definition runtime_write (contract : CapabilityContract) (k : string) (v : Value)
    : Eff (RuntimeDataStore A) DataStoreError StateRecord :=
  _ ← lift (validate_state_write contract k v);
  stamp_and_write k v.

Definition runtime_delete (k : string) : Eff (RuntimeDataStore A) DataStoreError unit := on_fst (ds_delete k).

Definition write_namespaced (capability_id : string) (state_schema : Value) (relative_key : string) (v : Value)
    : Eff (RuntimeDataStore A) DataStoreError StateRecord :=
  _ ← lift (validate_relative_state_key relative_key);
  _ ← lift (validate_state_write_for_schema capability_id (Some state_schema) relative_key v);
  stamp_and_write (namespaced_state_key capability_id relative_key) v.

Definition read_namespaced (capability_id : string) (state_schema : Value) (relative_key : string)
    : Eff (RuntimeDataStore A) DataStoreError (option Value) :=
  _ ← lift (validate_relative_state_key relative_key);
  found ← on_fst (ds_read (namespaced_state_key capability_id relative_key));
  lift (checked_value (validate_state_write_for_schema capability_id (Some state_schema) relative_key) found).

Definition delete_namespaced (capability_id relative_key : string) : Eff (RuntimeDataStore A) DataStoreError unit :=
  _ ← lift (validate_relative_state_key relative_key);
  on_fst (ds_delete (namespaced_state_key capability_id relative_key)).

Definition runtime_list_keys : Eff (RuntimeDataStore A) DataStoreError (list string) := on_fst ds_list_keys.
End runtime_store.

(** ** Keys are plain ASCII *)

Lemma key_chars_bytes k :
  forallb is_key_char (chars k) = true ->
  Forall (fun c => is_key_char (String c "") = true) (String.list_ascii_of_string k).
Proof.
  induction k as [|c k IH]; cbn -[is_key_char]; [done|]. revert IH.
  destruct (chars k) as [|[|c2 r] t]; cbn -[is_key_char] in *; rewrite ?andb_true_iff in *.
  - intros IH [Hc _]. constructor; [done|by apply IH].
  - by intros _ (_ & ? & _).
  - destruct (is_continuation c2); cbn -[is_key_char]; rewrite ?andb_true_iff; [by intros _ [? _]|].
    intros IH (Hc & Hh & Ht). constructor; [done|]. by apply IH.
Qed.

Lemma validate_key_ok k u :
  validate_key k = Ok u ->
  k <> "" /\ Forall (fun c => is_key_char (String c "") = true) (String.list_ascii_of_string k).
Proof.
  unfold validate_key. destruct (negb _ && _) eqn:E; [|done]. intros _.
  apply andb_true_iff in E as [Hne Hc]. to_props. split; [done|]. by apply key_chars_bytes.
Qed.

Lemma key_char_ascii c : is_key_char (String c "") = true -> (N_of_ascii c <= 127)%N /\ c <> "."%char /\ c <> "/"%char.
Proof.
  intros H. destruct (decide (N_of_ascii c <= 127)%N) as [Hc|Hc].
  - split; [done|]. split; by intros ->.
  - exfalso. unfold is_key_char in H. rewrite !orb_true_iff, !andb_true_iff, !N.leb_le, !bool_decide_eq_true in H.
    destruct H as [[[[H|H]|H]| ->]| ->]; [lia..| |]; apply Hc; by vm_compute.
Qed.

(** ** What reaches an adapter is typed and stamped *)

(** The schema a state schema declares for a key. *)
Definition state_property (schema : option Value) (k : string) : option Value :=
  s ← schema; properties ← get "properties" s ≫= as_object; member k properties.

Definition rejection_codes : list DataStoreErrorCode :=
  [InvalidKey; NoStateSchemaDeclared; SchemaValidationError].

Lemma validate_state_write_for_schema_spec capability schema k v :
  match validate_state_write_for_schema capability schema k v with
  | Ok _ => validate_key k = Ok tt /\ exists property, state_property schema k = Some property /\ conforms v property
  | Err e => error_code e ∈ rejection_codes
  end.
Proof.
  unfold validate_state_write_for_schema, state_property, rejection_codes.
  destruct (validate_key k) as [[]|e] eqn:Hk; cbn [mbind Result_bind].
  2: { unfold validate_key in Hk. case_match; [done|]. injection Hk as <-. left. }
  destruct schema as [s|]; cbn [ok_or mbind Result_bind option_bind]; [|cbn; set_solver].
  destruct (get "properties" s ≫= as_object) as [properties|]; cbn [ok_or mbind Result_bind option_bind]; [|cbn; set_solver].
  destruct (member k properties) as [p|]; cbn [ok_or mbind Result_bind option_bind]; [|cbn; set_solver].
  destruct (validate_value_against_schema v p "") as [|x l] eqn:Hv; [|cbn; set_solver].
  split; [done|]. exists p. split; [done|]. by apply validate_value_nil in Hv.
Qed.

Section typed.
Context {A : Type} `{!DataStore A}.

Lemma stamp_and_write_spec k v (s s' : RuntimeDataStore A) a :
  stamp_and_write k v s = (s', a) ->
  (s' = s /\ exists e, a = Err e /\ error_code e = LamportClockOverflow /\ (u64_max <= clock_value s.2)%N) \/
  exists r, key r = k /\ value r = v /\ lamport_clock r = clock_value s'.2 /\ writer_id r = clock_writer_id s.2 /\
    clock_value s'.2 = (clock_value s.2 + 1)%N /\ (clock_value s'.2 <= u64_max)%N /\
    s'.1 = (ds_write r s.1).1 /\
    a = match (ds_write r s.1).2 with Ok _ => Ok r | Err e => Err e end.
Proof.
  destruct s as [adapter c]. unfold stamp_and_write, mbind, Eff_bind, on_snd, on_fst, current, next. cbn.
  destruct (N.ltb_spec (clock_value c) u64_max) as [Hlt|Hge]; cbn.
  - intros H. right. exists {| key := k; value := v; lamport_clock := clock_value c + 1; writer_id := clock_writer_id c |}.
    destruct (ds_write _ adapter) as [adapter' [u|e]]; injection H as <- <-; cbn; split_and!; try done; lia.
  - intros [= <- <-]. left. eauto.
Qed.

(** C37: no value reaches the storage adapter unchecked.  A write either changes
    nothing, neither the adapter nor the clock, and is rejected for its key, its
    schema or an exhausted clock; or the state schema of the contract declares the
    key with a type that the value has, and the adapter is handed exactly one
    record with the next value of the clock, whose result is returned.  A read
    returns only values of the declared type. *)
Theorem runtime_state_typed contract k (s s' : RuntimeDataStore A) :
  (forall v a, runtime_write contract k v s = (s', a) ->
     (s' = s /\ exists e, a = Err e /\ error_code e ∈ LamportClockOverflow :: rejection_codes) \/
     exists property r, state_property (state_schema contract) k = Some property /\ conforms v property /\
       key r = k /\ value r = v /\ lamport_clock r = clock_value s'.2 /\ writer_id r = clock_writer_id s.2 /\
       clock_value s'.2 = (clock_value s.2 + 1)%N /\ (clock_value s'.2 <= u64_max)%N /\
       s'.1 = (ds_write r s.1).1 /\
       a = match (ds_write r s.1).2 with Ok _ => Ok r | Err e => Err e end) /\
  (forall v, runtime_read contract k s = (s', Ok (Some v)) ->
     exists property, state_property (state_schema contract) k = Some property /\ conforms v property).
Proof.
  split.
  - intros v a Hw. unfold runtime_write, validate_state_write in Hw.
    pose proof (validate_state_write_for_schema_spec (id contract) (state_schema contract) k v) as Hval.
    unfold mbind, Eff_bind, lift in Hw.
    destruct (validate_state_write_for_schema _ _ k v) as [u|e].
    + destruct Hval as (_ & property & Hp & Hc). apply stamp_and_write_spec in Hw as [(-> & e & -> & He & _)|(r & Hr)].
      * left. split; [done|]. exists e. split; [done|]. rewrite He. left.
      * right. exists property, r. naive_solver.
    + injection Hw as <- <-. left. split; [done|]. exists e. split; [done|]. by right.
  - intros v Hr. unfold runtime_read in Hr. apply eff_bind_ok in Hr as (s1 & [] & _ & Hr).
    destruct (state_schema contract) as [schema|] eqn:Hs; [|done].
    apply eff_bind_ok in Hr as (s2 & found & _ & Hr). apply lift_inv in Hr as [_ Hr].
    destruct found as [r|]; [|done]. cbn in Hr. symmetry in Hr. apply bind_ok_inv in Hr as (u & Hv & [= <-]).
    pose proof (validate_state_write_for_schema_spec (id contract) (state_schema contract) k (value r)) as Hval.
    unfold validate_state_write in Hv. rewrite Hv, Hs in Hval. by destruct Hval as [_ ?].
Qed.
End typed.
