(* ===== verification/StoreSync.v ===== *)
(** * Synchronisation of two stores

    [sync_adapters] of [crates/traverse-runtime/src/data_store.rs]: the keys of
    both stores in order, the merge of the two records of a key, writing the
    winner to both sides, and restoring the local side when that fails.  What an
    adapter promises is [DataStoreLaws]: it keeps a map from keys to records; the
    theorems hold for every pair of adapters with these laws. *)
From S2P Require Import Prelude Effect Json Schema Serde DataStore.
From Stdlib Require Import SpecFloat.

(** ** The operations *)

Definition DATA_STORE_SPEC : string := "089-datastore-synchronization".

(** [.chain(remote_keys).collect::<BTreeSet<_>>()] *)
Definition merged_keys (local_keys remote_keys : list string) : list string :=
  btree_elements (list_to_set (local_keys ++ remote_keys)).

Definition select_conflict_winner (local remote : StateRecord) : StateRecord * ConflictResolutionRule :=
  if (lamport_clock remote <? lamport_clock local)%N then (local, HigherLamportClock)
  else if (lamport_clock local <? lamport_clock remote)%N then (remote, HigherLamportClock)
  else if bool_decide (String.le (writer_id remote) (writer_id local)) then (local, WriterIdentityTieBreak)
  else (remote, WriterIdentityTieBreak).

Definition merge_records (local remote : option StateRecord) : option (StateRecord * ConflictResolutionRule) :=
  match local, remote with
  | Some r, None => Some (r, OnlyLocal)
  | None, Some r => Some (r, OnlyRemote)
  | Some l, Some r => Some (select_conflict_winner l r)
  | None, None => None
  end.

(** [read(key)?.as_ref() != Some(winner)] *)
Definition differs (found : option StateRecord) (winner : StateRecord) : bool :=
  match found with Some r => negb (record_eqb r winner) | None => true end.

(** [if store.read(key)?.as_ref() != Some(winner) { store.write(winner.clone())?; }] *)
Definition put_winner {St} `{!DataStore St} (k : string) (winner : StateRecord) : Eff St DataStoreError unit :=
  found ← ds_read k;
  when (differs found winner) (ds_write winner).

Section sync.
Context {L R : Type} `{!DataStore L, !DataStore R}.

Definition apply_winner (k : string) (winner : StateRecord) : Eff (L * R) DataStoreError unit :=
  _ ← on_fst (put_winner k winner);
  on_snd (put_winner k winner).

(** One entry of the rollback; its result is ignored. *)
Definition restore_entry (local : L) (entry : string * option StateRecord) : L :=
  match entry.2 with
  | Some r => (ds_write r local).1
  | None => (ds_delete entry.1 local).1
  end.

Definition rollback_local (snapshots : gmap string (option StateRecord)) (local : L) : L :=
  foldl restore_entry local (btree_entries snapshots).

Definition sync_failure (k cause : string) : DataStoreError :=
  data_store_error SyncFailure "sync failed; local state restored"
    (obj [("key", Str k); ("cause", Str cause)]).

Definition decision (k : string) (winner : StateRecord) (rule : ConflictResolutionRule) : MergeDecision := {|
  decision_key := k; winning_writer_id := writer_id winner;
  winning_lamport_clock := lamport_clock winner; resolution_rule := rule |}.

Definition apply_or_rollback (k : string) (winner : StateRecord) (snapshots : gmap string (option StateRecord))
    : Eff (L * R) DataStoreError unit := fun s =>
  match apply_winner k winner s with
  | (s', Ok u) => (s', Ok u)
  | (s', Err e) => ((rollback_local snapshots s'.1, s'.2), Err (sync_failure k (error_message e)))
  end.

Fixpoint sync_keys (keys : list string) (snapshots : gmap string (option StateRecord))
    (done : list MergeDecision) : Eff (L * R) DataStoreError (list MergeDecision) :=
  match keys with
  | [] => mret done
  | k :: rest =>
      local ← on_fst (ds_read k);
      remote ← on_snd (ds_read k);
      let snapshots := <[k := local]> snapshots in
      match merge_records local remote with
      | None => sync_keys rest snapshots done
      | Some (winner, rule) =>
          _ ← apply_or_rollback k winner snapshots;
          sync_keys rest snapshots (done ++ [decision k winner rule])
      end
  end.

Definition sync_adapters : Eff (L * R) DataStoreError SyncReport :=
  local_keys ← on_fst ds_list_keys;
  remote_keys ← on_snd ds_list_keys;
  decisions ← sync_keys (merged_keys local_keys remote_keys) ∅ [];
  mret {| governing_spec := DATA_STORE_SPEC; decisions := decisions |}.

(** [RuntimeDataStore::sync_on_reconnect]: the clock is not consulted. *)
Definition sync_on_reconnect : Eff (RuntimeDataStore L * R) DataStoreError SyncReport := fun s =>
  let '((l, r), report) := sync_adapters (s.1.1, s.2) in (((l, s.1.2), r), report).
End sync.

(** ** Records up to the sign of zero *)

Definition norm_number (n : Number) : Number :=
  match n with Float (S754_zero _) => Float (S754_zero false) | _ => n end.

Fixpoint norm (v : Value) : Value :=
  match v with
  | Num n => Num (norm_number n)
  | Array items => Array (norm <$> items)
  | Object members => Object ((fun m => (m.1, norm m.2)) <$> members)
  | scalar => scalar
  end.

#[export] Instance record_equiv : Equiv StateRecord := fun a b =>
  key a = key b /\ norm (value a) = norm (value b) /\
  lamport_clock a = lamport_clock b /\ writer_id a = writer_id b.

#[export] Instance record_equivalence : Equivalence (≡@{StateRecord}).
Proof.
  split.
  - by intros a.
  - intros a b (? & ? & ? & ?). by split_and!.
  - intros a b c (? & ? & ? & ?) (? & ? & ? & ?). split_and!; by etrans.
Qed.

Lemma SFeqb_norm f g : SFeqb f g = true -> norm_number (Float f) = norm_number (Float g).
Proof.
  unfold SFeqb, SFcompare.
  destruct f as [[]|[]| |[] m e], g as [[]|[]| |[] n h]; try done;
    destruct (Z.compare_spec e h); try done; subst;
    change (Pos.compare_cont Eq m n) with (Pos.compare m n);
    destruct (Pos.compare_spec m n); cbn; try done; by subst.
Qed.

Lemma value_eqb_norm a : forall b, value_eqb a b = true -> norm a = norm b.
Proof.
  induction a as [|x|x|x|xs IH|xs IH] using value_ind'; intros [|y|y|y|ys|ys]; cbn; try done.
  - intros ->%Bool.eqb_prop. done.
  - destruct x as [m|m|f], y as [n|n|g]; cbn; try done.
    + by intros ->%N.eqb_eq.
    + by intros ->%Z.eqb_eq.
    + intros ?%SFeqb_norm. by f_equal.
  - by intros ->%bool_decide_eq_true.
  - intros H. f_equal. revert ys H. induction IH as [|x xs Hx _ IH]; intros [|y ys]; cbn; try done.
    intros [Hxy Hrest]%andb_true_iff. f_equal; eauto.
  - intros H. f_equal. revert ys H. induction IH as [|x xs Hx _ IH]; intros [|y ys]; cbn; try done.
    rewrite !andb_true_iff, bool_decide_eq_true. intros [[Hk Hxy] Hrest]. f_equal; [|eauto].
    f_equal; eauto.
Qed.

Lemma record_eqb_equiv a b : record_eqb a b = true -> a ≡ b.
Proof.
  unfold record_eqb. rewrite !andb_true_iff, !bool_decide_eq_true, N.eqb_eq.
  intros [[[? ?%value_eqb_norm] ?] ?]. by split_and!.
Qed.

(** ** What an adapter promises *)

(** The map [f] with [k] set to [o]. *)
Definition set_at (k : string) (o : option StateRecord) (f : string -> option StateRecord)
    : string -> option StateRecord :=
  fun k' => if decide (k' = k) then o else f k'.

(** A record a program can hold and a store can write within the nesting that the
    JSON parser accepts, three levels of it the store's own. *)
Definition storable (r : StateRecord) : Prop :=
  valid_string (key r) = true /\ valid_string (writer_id r) = true /\ (lamport_clock r <= u64_max)%N /\
  representable (value r) = true /\ nesting (value r) + 3 <= MAX_NESTING /\ value_of_syntax (value r) = value r.

(** An adapter keeps a map [view] from keys to records.  A read changes nothing
    and, when it succeeds, returns the record; a write or delete that succeeds
    sets the key, and one that fails either sets it or changes nothing. *)
Class DataStoreLaws (St : Type) `{!DataStore St} := {
  store_ok : St -> Prop;
  view : St -> string -> option StateRecord;
  view_key (s : St) k r : store_ok s -> view s k = Some r -> key r = k /\ storable r;
  read_law k (s s' : St) a : store_ok s -> ds_read k s = (s', a) ->
    store_ok s' /\ (forall k', view s' k' = view s k') /\ (forall o, a = Ok o -> o = view s k);
  write_law r (s s' : St) a : storable r -> store_ok s -> ds_write r s = (s', a) ->
    store_ok s' /\
    ((forall k', view s' k' = set_at (key r) (Some r) (view s) k') \/
     (forall k', view s' k' = view s k') /\ is_ok a = false);
  delete_law k (s s' : St) a : store_ok s -> ds_delete k s = (s', a) ->
    store_ok s' /\
    ((forall k', view s' k' = set_at k None (view s) k') \/
     (forall k', view s' k' = view s k') /\ is_ok a = false);
  list_law (s s' : St) a : store_ok s -> ds_list_keys s = (s', a) ->
    store_ok s' /\ (forall k', view s' k' = view s k') /\
    (forall ks, a = Ok ks -> forall k, k ∈ ks <-> is_Some (view s k)) }.

#[export] Program Instance in_memory_laws : DataStoreLaws InMemoryDataStore := {|
  store_ok s := map_Forall (fun k r => key r = k /\ storable r) (records s);
  view s k := records s !! k |}.
Next Obligation. intros s k r H. apply H. Qed.
Next Obligation. intros k s s' a H [= <- <-]. naive_solver. Qed.
Next Obligation.
  intros r s s' a Hr H [= <- <-]. cbn. split; [by apply map_Forall_insert_2|]. left. intros k'.
  unfold set_at. case_decide; [subst; by rewrite lookup_insert_eq|by rewrite lookup_insert_ne].
Qed.
Next Obligation.
  intros k s s' a H [= <- <-]. cbn. split; [by apply map_Forall_delete|]. left. intros k'.
  unfold set_at. case_decide; [subst; by rewrite lookup_delete_eq|by rewrite lookup_delete_ne].
Qed.
Next Obligation.
  intros s s' a H [= <- <-]. split_and!; [done..|]. intros ks [= <-] k.
  by rewrite btree_elements_elem, elem_of_dom.
Qed.

(** ** Steps *)

Section one_store.
Context {St : Type} `{DataStoreLaws St}.

(** After settling [w] at [k], the map holds [w] there, up to the sign of zero,
    and is unchanged elsewhere. *)
Definition settled (k : string) (w : StateRecord) (f f' : string -> option StateRecord) : Prop :=
  f' k ≡ Some w /\ forall k', k' <> k -> f' k' = f k'.

Definition untouched (k : string) (f f' : string -> option StateRecord) : Prop :=
  forall k', k' <> k -> f' k' = f k'.

Lemma differs_false o w : differs o w = false -> o ≡ Some w.
Proof. destruct o as [r|]; cbn; [|done]. intros ?%negb_false_iff%record_eqb_equiv. by constructor. Qed.

Lemma write_untouched r (s s' : St) a :
  storable r -> store_ok s -> ds_write r s = (s', a) -> store_ok s' /\ untouched (key r) (view s) (view s').
Proof.
  intros Hr Hs Hw. apply (write_law _ _ _ _ Hr Hs) in Hw as [Hs' Hv]. split; [done|].
  intros k' Hk. destruct Hv as [Hv|[Hv _]]; rewrite Hv; [|done]. unfold set_at. by rewrite decide_False.
Qed.

Lemma put_winner_untouched k w (s s' : St) a :
  store_ok s -> key w = k /\ storable w -> put_winner k w s = (s', a) ->
  store_ok s' /\ untouched k (view s) (view s').
Proof.
  intros Hs [<- Hw]. unfold put_winner, mbind, Eff_bind. destruct (ds_read (key w) s) as [s1 o] eqn:Hr.
  destruct (read_law _ _ _ _ Hs Hr) as (Hs1 & Hv1 & _).
  assert (forall s2, store_ok s2 /\ untouched (key w) (view s1) (view s2) ->
    store_ok s2 /\ untouched (key w) (view s) (view s2)) as Hback.
  { intros s2 [? Hu]. split; [done|]. intros k' Hk. by rewrite Hu, Hv1. }
  destruct o as [o|e]; [destruct (differs o w); cbn|]; intros Hp; apply Hback.
  - by eapply write_untouched.
  - injection Hp as <- <-. by split.
  - injection Hp as <- <-. by split.
Qed.

Lemma put_winner_settled k w (s s' : St) u :
  store_ok s -> key w = k /\ storable w -> put_winner k w s = (s', Ok u) ->
  store_ok s' /\ settled k w (view s) (view s').
Proof.
  intros Hs [<- Hw] Hp. apply eff_bind_ok in Hp as (s1 & found & Hr & Hp).
  destruct (read_law _ _ _ _ Hs Hr) as (Hs1 & Hv1 & Hf). specialize (Hf _ eq_refl).
  destruct (differs found w) eqn:Hd; cbn in Hp.
  - apply (write_law _ _ _ _ Hw Hs1) in Hp as [Hs' [Hv|[_ ?]]]; [|done]. split; [done|]. split.
    + rewrite Hv. unfold set_at. by rewrite decide_True.
    + intros k' Hk. rewrite Hv. unfold set_at. by rewrite decide_False, Hv1.
  - injection Hp as <- _. split; [done|]. split.
    + rewrite Hv1, <- Hf. by apply differs_false.
    + intros k' _. apply Hv1.
Qed.
End one_store.

(** The record that both sides should hold. *)
Definition merged (f g : string -> option StateRecord) (k : string) : option StateRecord :=
  fst <$> merge_records (f k) (g k).

(** What is reported of a key. *)
Definition decision_of (f g : string -> option StateRecord) (k : string) : option MergeDecision :=
  (fun '(winner, rule) => decision k winner rule) <$> merge_records (f k) (g k).

Lemma merge_records_from f g w rule :
  merge_records f g = Some (w, rule) -> f = Some w \/ g = Some w.
Proof.
  destruct f as [l|], g as [r|]; cbn; [|naive_solver..].
  unfold select_conflict_winner. repeat case_match; naive_solver.
Qed.

Lemma merge_records_None f g : merge_records f g = None <-> f = None /\ g = None.
Proof. destruct f, g; cbn; naive_solver. Qed.

Section two_stores.
Context {L R : Type} `{DataStoreLaws L, DataStoreLaws R}.

Lemma apply_winner_settled k w (s s' : L * R) u :
  store_ok s.1 -> store_ok s.2 -> key w = k /\ storable w -> apply_winner k w s = (s', Ok u) ->
  (store_ok s'.1 /\ settled k w (view s.1) (view s'.1)) /\
  (store_ok s'.2 /\ settled k w (view s.2) (view s'.2)).
Proof.
  destruct s as [l r], s' as [l' r']. cbn. intros Hl Hr Hk Ha.
  apply eff_bind_ok in Ha as ([l1 r1] & [] & H1 & H2).
  apply on_fst_inv in H1 as [E1 H1]. apply on_snd_inv in H2 as [E2 H2]. cbn in *. subst.
  split; by eapply put_winner_settled.
Qed.

Lemma apply_winner_untouched k w (s s' : L * R) a :
  store_ok s.1 -> store_ok s.2 -> key w = k /\ storable w -> apply_winner k w s = (s', a) ->
  store_ok s'.1 /\ store_ok s'.2 /\ untouched k (view s.1) (view s'.1).
Proof.
  destruct s as [l r], s' as [l' r']. cbn. intros Hl Hr Hk Ha. destruct a as [[]|e].
  - apply apply_winner_settled in Ha as [[? [_ ?]] [? _]]; [|done..]. done.
  - apply eff_bind_err in Ha as [Ha|([l1 r1] & [] & H1 & H2)].
    + apply on_fst_inv in Ha as [E1 Ha]. cbn in *. subst.
      eapply put_winner_untouched in Ha as [? ?]; done.
    + apply on_fst_inv in H1 as [E1 H1]. apply on_snd_inv in H2 as [E2 H2]. cbn in *. subst.
      eapply put_winner_untouched in H1 as [? ?]; [|done..].
      eapply put_winner_untouched in H2 as [? ?]; done.
Qed.

(** ** Success *)

Lemma apply_or_rollback_ok k w snapshots (s s' : L * R) u :
  apply_or_rollback k w snapshots s = (s', Ok u) -> apply_winner k w s = (s', Ok u).
Proof. unfold apply_or_rollback. destruct (apply_winner k w s) as [s1 [[]|e]]; naive_solver. Qed.

(** The side that held [h] holds the merge of [f] and [g] at the keys synchronised. *)
Definition synced (keys : list string) (f g h h' : string -> option StateRecord) : Prop :=
  forall k, (k ∈ keys -> h' k ≡ merged f g k) /\ (k ∉ keys -> h' k = h k).

Lemma synced_cons k keys f g h f1 g1 h1 h' :
  k ∉ keys -> untouched k f f1 -> untouched k g g1 ->
  h1 k ≡ merged f g k -> untouched k h h1 ->
  synced keys f1 g1 h1 h' -> synced (k :: keys) f g h h'.
Proof.
  intros Hk Hf Hg Hm Hh Hs k'. destruct (Hs k') as [Hin Hout]. destruct (decide (k' = k)) as [->|Hne].
  - split; [|set_solver]. intros _. by rewrite Hout.
  - split.
    + intros [?|Hk']%elem_of_cons; [done|]. unfold merged. rewrite <- (Hf k'), <- (Hg k') by done. by apply Hin.
    + intros Hn. rewrite Hout by set_solver. by apply Hh.
Qed.

Lemma decisions_untouched k (keys : list string) f g f1 g1 :
  k ∉ keys -> untouched k f f1 -> untouched k g g1 ->
  omap (decision_of f1 g1) keys = omap (decision_of f g) keys.
Proof.
  intros Hk Hf Hg. induction keys as [|x keys IH]; [done|]. cbn.
  assert (decision_of f1 g1 x = decision_of f g x) as ->.
  { unfold decision_of. by rewrite (Hf x), (Hg x) by set_solver. }
  by rewrite IH by set_solver.
Qed.

(** Reading a key on both sides. *)
Lemma read_both k (s s' : L * R) {A} (rest : option StateRecord -> option StateRecord -> Eff (L * R) DataStoreError A) a :
  store_ok s.1 -> store_ok s.2 ->
  (local ← on_fst (ds_read k); remote ← on_snd (ds_read k); rest local remote) s = (s', a) ->
  exists s1, store_ok s1.1 /\ store_ok s1.2 /\
    (forall k', view s1.1 k' = view s.1 k') /\ (forall k', view s1.2 k' = view s.2 k') /\
    ((exists e, s' = s1 /\ a = Err e /\
        (is_ok (ds_read k s.1).2 = false \/ is_ok (ds_read k s.2).2 = false)) \/
     rest (view s.1 k) (view s.2 k) s1 = (s', a)).
Proof.
  destruct s as [l r]. cbn. intros Hl Hr. unfold mbind, Eff_bind, on_fst, on_snd. cbn.
  destruct (ds_read k l) as [l1 lo] eqn:H1. destruct (ds_read k r) as [r1 ro] eqn:H2'.
  destruct (read_law _ _ _ _ Hl H1) as (Hl1 & Hvl & Hlo). destruct (read_law _ _ _ _ Hr H2') as (Hr1 & Hvr & Hro).
  destruct lo as [lo|e]; cbn; [|intros [= <- <-]; exists (l1, r); cbn; split_and!; eauto 10].
  rewrite (Hlo _ eq_refl). rewrite H2'.
  destruct ro as [ro|e]; [|intros [= <- <-]; exists (l1, r1); cbn; split_and!; eauto 10].
  rewrite (Hro _ eq_refl). intros Hrest. exists (l1, r1). cbn. eauto 10.
Qed.

Lemma sync_keys_ok keys : forall snapshots acc (s s' : L * R) ds,
  NoDup keys -> store_ok s.1 -> store_ok s.2 ->
  sync_keys keys snapshots acc s = (s', Ok ds) ->
  store_ok s'.1 /\ store_ok s'.2 /\
  synced keys (view s.1) (view s.2) (view s.1) (view s'.1) /\
  synced keys (view s.1) (view s.2) (view s.2) (view s'.2) /\
  ds = acc ++ omap (decision_of (view s.1) (view s.2)) keys.
Proof.
  induction keys as [|k keys IH]; intros snapshots acc s s' ds Hnd Hl Hr Hs; cbn [sync_keys] in *.
  - injection Hs as <- <-. cbn. rewrite app_nil_r. split_and!; try done; intros k'; (split; [by intros ?%elem_of_nil|done]).
  - apply NoDup_cons in Hnd as [Hk Hnd].
    apply read_both in Hs as (s1 & Hl1 & Hr1 & Hv1 & Hw1 & [(e & _ & [=] & _)|Hs]); [|done..].
    assert (untouched k (view s.1) (view s1.1) /\ untouched k (view s.2) (view s1.2)) as [Hu1 Hu2]
      by (split; intros k' _; auto).
    cbn [omap list_omap]. unfold decision_of at 1.
    destruct (merge_records (view s.1 k) (view s.2 k)) as [[w rule]|] eqn:Hm; cbn [fmap option_fmap option_map].
    + assert (merged (view s.1) (view s.2) k = Some w) as Hmk by (unfold merged; by rewrite Hm).
      assert (key w = k /\ storable w) as Hkw by (apply merge_records_from in Hm as [Hm|Hm]; [exact (view_key _ _ _ Hl Hm)|exact (view_key _ _ _ Hr Hm)]).
      apply eff_bind_ok in Hs as (s2 & [] & Ha%apply_or_rollback_ok & Hs).
      apply apply_winner_settled in Ha as [[Hl2 [Hwl Hul]] [Hr2 [Hwr Hur]]]; [|done..].
      assert (untouched k (view s.1) (view s2.1) /\ untouched k (view s.2) (view s2.2)) as [Hv2 Hw2]
        by (split; intros k' ?; [rewrite Hul|rewrite Hur]; auto).
      apply IH in Hs as (? & ? & Hsl & Hsr & ->); [|done..]. split_and!; [done..| | |].
      * refine (synced_cons k _ _ _ _ _ _ _ _ Hk Hv2 Hw2 _ Hv2 Hsl). by rewrite Hmk.
      * refine (synced_cons k _ _ _ _ _ _ _ _ Hk Hv2 Hw2 _ Hw2 Hsr). by rewrite Hmk.
      * rewrite <- app_assoc. f_equal. cbn. f_equal. by apply (decisions_untouched k).
    + assert (merged (view s.1) (view s.2) k = None) as Hmk by (unfold merged; by rewrite Hm).
      apply merge_records_None in Hm as [Hnl Hnr].
      apply IH in Hs as (? & ? & Hsl & Hsr & ->); [|done..]. split_and!; [done..| | |].
      * refine (synced_cons k _ _ _ _ _ _ _ _ Hk Hu1 Hu2 _ Hu1 Hsl). by rewrite Hmk, Hv1, Hnl.
      * refine (synced_cons k _ _ _ _ _ _ _ _ Hk Hu1 Hu2 _ Hu2 Hsr). by rewrite Hmk, Hw1, Hnr.
      * f_equal. by apply (decisions_untouched k).
Qed.
(** The two listings. *)
Lemma list_both (s s' : L * R) {A} (rest : list string -> list string -> Eff (L * R) DataStoreError A) a :
  store_ok s.1 -> store_ok s.2 ->
  (ls ← on_fst ds_list_keys; rs ← on_snd ds_list_keys; rest ls rs) s = (s', a) ->
  exists s1, store_ok s1.1 /\ store_ok s1.2 /\
    (forall k', view s1.1 k' = view s.1 k') /\ (forall k', view s1.2 k' = view s.2 k') /\
    ((exists e, s' = s1 /\ a = Err e) \/
     exists ls rs, (forall k, k ∈ ls <-> is_Some (view s.1 k)) /\ (forall k, k ∈ rs <-> is_Some (view s.2 k)) /\
       rest ls rs s1 = (s', a)).
Proof.
  destruct s as [l r]. cbn. intros Hl Hr. unfold mbind, Eff_bind, on_fst, on_snd. cbn.
  destruct (ds_list_keys l) as [l1 lo] eqn:H1. destruct (ds_list_keys r) as [r1 ro] eqn:H2'.
  destruct (list_law _ _ _ Hl H1) as (Hl1 & Hvl & Hlo). destruct (list_law _ _ _ Hr H2') as (Hr1 & Hvr & Hro).
  destruct lo as [lo|e]; cbn; [|intros [= <- <-]; exists (l1, r); cbn; split_and!; eauto 10].
  rewrite H2'. destruct ro as [ro|e]; [|intros [= <- <-]; exists (l1, r1); cbn; split_and!; eauto 10].
  intros Hrest. exists (l1, r1). cbn. split_and!; [done..|]. right. exists lo, ro. eauto.
Qed.

Lemma merged_keys_elem ls rs k : k ∈ merged_keys ls rs <-> k ∈ ls \/ k ∈ rs.
Proof. unfold merged_keys. rewrite btree_elements_elem, elem_of_list_to_set, elem_of_app. done. Qed.

Lemma merged_ext f g f' g' k : f k = f' k -> g k = g' k -> merged f g k = merged f' g' k.
Proof. unfold merged. by intros -> ->. Qed.

Lemma sync_adapters_ok (s s' : L * R) report :
  store_ok s.1 -> store_ok s.2 -> sync_adapters s = (s', Ok report) ->
  store_ok s'.1 /\ store_ok s'.2 /\
  (forall k, view s'.1 k ≡ merged (view s.1) (view s.2) k /\ view s'.2 k ≡ merged (view s.1) (view s.2) k) /\
  exists keys, StronglySorted String.le keys /\ NoDup keys /\
    (forall k, k ∈ keys <-> is_Some (merged (view s.1) (view s.2) k)) /\
    decisions report = omap (decision_of (view s.1) (view s.2)) keys.
Proof.
  intros Hl Hr Hs.
  apply list_both in Hs as (s1 & Hl1 & Hr1 & Hv1 & Hw1 & [(e & _ & [=])|(ls & rs & Hls & Hrs & Hs)]); [|done..].
  apply eff_bind_ok in Hs as (s2 & ds & Hs & [= <- <-]).
  assert (NoDup (merged_keys ls rs)) as Hnd by apply btree_elements_NoDup.
  assert (forall k, merged (view s1.1) (view s1.2) k = merged (view s.1) (view s.2) k) as Hm
    by (intros k; by apply merged_ext).
  assert (forall k, k ∈ merged_keys ls rs <-> is_Some (merged (view s.1) (view s.2) k)) as Hkeys.
  { intros k. rewrite merged_keys_elem, Hls, Hrs. unfold merged.
    destruct (view s.1 k), (view s.2 k); cbn; split; intros; eauto; destruct_or?; done. }
  apply sync_keys_ok in Hs as (? & ? & Hsl & Hsr & ->); [|done..]. split_and!; [done..| |].
  - intros k. destruct (Hsl k) as [Hin Hout], (Hsr k) as [Hin' Hout'].
    destruct (decide (k ∈ merged_keys ls rs)) as [Hk|Hk]; [rewrite <- Hm; auto|].
    rewrite Hout, Hout', Hv1, Hw1 by done. rewrite Hkeys in Hk. unfold merged in *.
    destruct (view s.1 k), (view s.2 k); cbn in *; try (by destruct Hk; eauto). done.
  - exists (merged_keys ls rs). split_and!; [apply btree_elements_sorted|done|done|].
    cbn. clear -Hv1 Hw1. induction (merged_keys ls rs) as [|k ks IH]; [done|]. cbn. rewrite IH.
    unfold decision_of. by rewrite Hv1, Hw1.
Qed.
End two_stores.

(** ** Runs of an adapter

    The contract of an adapter over a sequence of operations: a map from keys to
    records that every result is explained by. *)

Inductive StoreOp := OpRead (k : string) | OpWrite (r : StateRecord) | OpDelete (k : string) | OpList.

Inductive OpResult :=
  | ReadResult (a : Result DataStoreError (option StateRecord))
  | UnitResult (a : Result DataStoreError unit)
  | ListResult (a : Result DataStoreError (list string)).

Definition run_op {St} `{!DataStore St} (op : StoreOp) (s : St) : St * OpResult :=
  match op with
  | OpRead k => let '(s', a) := ds_read k s in (s', ReadResult a)
  | OpWrite r => let '(s', a) := ds_write r s in (s', UnitResult a)
  | OpDelete k => let '(s', a) := ds_delete k s in (s', UnitResult a)
  | OpList => let '(s', a) := ds_list_keys s in (s', ListResult a)
  end.

Fixpoint run_ops {St} `{!DataStore St} (ops : list StoreOp) (s : St) : St * list OpResult :=
  match ops with
  | [] => (s, [])
  | op :: rest =>
      let '(s1, a) := run_op op s in
      let '(s2, results) := run_ops rest s1 in (s2, a :: results)
  end.

(** One operation on the map.  A failed operation changed nothing or all it had
    to, never a part. *)
Inductive map_op : StoreOp -> OpResult -> (string -> option StateRecord) -> (string -> option StateRecord) -> Prop :=
  | map_read k a f : (forall o, a = Ok o -> o = f k) -> map_op (OpRead k) (ReadResult a) f f
  | map_write r a f : map_op (OpWrite r) (UnitResult a) f (set_at (key r) (Some r) f)
  | map_write_failed r e f : map_op (OpWrite r) (UnitResult (Err e)) f f
  | map_delete k a f : map_op (OpDelete k) (UnitResult a) f (set_at k None f)
  | map_delete_failed k e f : map_op (OpDelete k) (UnitResult (Err e)) f f
  | map_list a f : (forall ks, a = Ok ks -> forall k, k ∈ ks <-> is_Some (f k)) -> map_op OpList (ListResult a) f f.

Inductive map_run : list StoreOp -> list OpResult -> (string -> option StateRecord) -> (string -> option StateRecord) -> Prop :=
  | map_run_nil f f' : (forall k, f' k = f k) -> map_run [] [] f f'
  | map_run_cons op a ops results f f1 f1' f2 :
      map_op op a f f1 -> (forall k, f1' k = f1 k) -> map_run ops results f1' f2 ->
      map_run (op :: ops) (a :: results) f f2.

Definition op_storable (op : StoreOp) : Prop :=
  match op with OpWrite r => storable r | _ => True end.

Lemma run_op_refines {St} `{DataStoreLaws St} op (s s' : St) a :
  store_ok s -> op_storable op -> run_op op s = (s', a) ->
  store_ok s' /\ exists f, map_op op a (view s) f /\ forall k, view s' k = f k.
Proof.
  intros Hs Hop Hr. destruct op as [k|r|k|]; cbn in Hr.
  - destruct (ds_read k s) as [s1 x] eqn:E. injection Hr as <- <-.
    apply (read_law _ _ _ _ Hs) in E as (? & ? & ?). split; [done|]. exists (view s). by split; [constructor|].
  - destruct (ds_write r s) as [s1 x] eqn:E. injection Hr as <- <-.
    apply (write_law _ _ _ _ Hop Hs) in E as [? [Hv|[Hv He]]]; (split; [done|]).
    + exists (set_at (key r) (Some r) (view s)). by split; [constructor|].
    + destruct x; [done|]. exists (view s). by split; [constructor|].
  - destruct (ds_delete k s) as [s1 x] eqn:E. injection Hr as <- <-.
    apply (delete_law _ _ _ _ Hs) in E as [? [Hv|[Hv He]]]; (split; [done|]).
    + exists (set_at k None (view s)). by split; [constructor|].
    + destruct x; [done|]. exists (view s). by split; [constructor|].
  - destruct (ds_list_keys s) as [s1 x] eqn:E. injection Hr as <- <-.
    apply (list_law _ _ _ Hs) in E as (? & ? & ?). split; [done|]. exists (view s). by split; [constructor|].
Qed.

(** Every adapter with the laws refines the map. *)
Lemma run_ops_refines {St} `{DataStoreLaws St} ops : forall (s s' : St) results,
  store_ok s -> Forall op_storable ops -> run_ops ops s = (s', results) ->
  store_ok s' /\ map_run ops results (view s) (view s').
Proof.
  induction ops as [|op ops IH]; intros s s' results Hs Hops Hr; cbn in Hr.
  - injection Hr as <- <-. split; [done|by constructor].
  - apply Forall_cons in Hops as [Hop Hops]. destruct (run_op op s) as [s1 a] eqn:E.
    destruct (run_ops ops s1) as [s2 rs] eqn:E2. injection Hr as <- <-.
    destruct (run_op_refines _ _ _ _ Hs Hop E) as (Hs1 & f & Hf & Hv).
    destruct (IH _ _ _ Hs1 Hops E2) as [? ?]. split; [done|]. by econstructor.
Qed.
