(* ===== verification/StoreSyncProps.v ===== *)
(** * What synchronisation guarantees, and what it loses

    Convergence, the rollback of a failed synchronisation, and the ways in which
    the code departs from the specification of the data access layer: a restarted
    clock, a deleted key, and a read that fails half way. *)
From S2P Require Import Prelude Effect Json Placement RuntimeInit Serde Risk Schema Contract DataStore StoreSync.

(** ** Rolling back *)

(** Writes and deletes of this adapter do not fail; nor do reads. *)
Class WritesSucceed (St : Type) `{DataStoreLaws St} : Prop := {
  write_succeeds r (s : St) : storable r -> store_ok s -> is_ok (ds_write r s).2 = true;
  delete_succeeds k (s : St) : store_ok s -> is_ok (ds_delete k s).2 = true }.

Class ReadsSucceed (St : Type) `{DataStoreLaws St} : Prop := {
  read_succeeds k (s : St) : store_ok s -> is_ok (ds_read k s).2 = true }.

#[export] Instance in_memory_writes : WritesSucceed InMemoryDataStore.
Proof. by split. Qed.

#[export] Instance in_memory_reads : ReadsSucceed InMemoryDataStore.
Proof. by split. Qed.

Section rollback.
Context {L : Type} `{WritesSucceed L}.

Lemma restore_entry_view (l : L) k o :
  store_ok l -> (forall r, o = Some r -> key r = k /\ storable r) ->
  store_ok (restore_entry l (k, o)) /\ forall k', view (restore_entry l (k, o)) k' = set_at k o (view l) k'.
Proof.
  intros Hl Hk. unfold restore_entry. cbn. destruct o as [r|].
  - destruct (Hk r eq_refl) as [<- Hr]. destruct (ds_write r l) as [l' a] eqn:Hw.
    pose proof (write_succeeds r l Hr Hl) as Hok. rewrite Hw in Hok.
    apply (write_law _ _ _ _ Hr Hl) in Hw as [? [?|[_ ?]]]; [done|]. cbn in *. congruence.
  - destruct (ds_delete k l) as [l' a] eqn:Hw.
    pose proof (delete_succeeds k l Hl) as Hok. rewrite Hw in Hok.
    apply (delete_law _ _ _ _ Hl) in Hw as [? [?|[_ ?]]]; [done|]. cbn in *. congruence.
Qed.

Lemma restore_entries_view (g : string -> option StateRecord) entries : forall l : L,
  store_ok l -> Forall (fun e => e.2 = g e.1 /\ forall r, e.2 = Some r -> key r = e.1 /\ storable r) entries ->
  let l' := foldl restore_entry l entries in
  store_ok l' /\ forall k, view l' k = if decide (k ∈ entries.*1) then g k else view l k.
Proof.
  induction entries as [|[k o] entries IH]; intros l Hl Hall; cbn -[decide]; [done|].
  apply Forall_cons in Hall as [[Ho Hk] Hall]. cbn in Ho, Hk.
  destruct (restore_entry_view l k o Hl Hk) as [Hl1 Hv1].
  destruct (IH _ Hl1 Hall) as [Hl2 Hv2]. split; [done|]. intros k'. rewrite Hv2, Hv1. unfold set_at.
  repeat case_decide; subst; set_solver.
Qed.

(** The local side is restored to [g] when the snapshots hold [g] at the keys
    that were touched. *)
Lemma rollback_restores (snapshots : gmap string (option StateRecord)) (g : string -> option StateRecord) (l : L) :
  store_ok l ->
  (forall k r, g k = Some r -> key r = k /\ storable r) ->
  (forall k, match snapshots !! k with Some o => o = g k | None => view l k = g k end) ->
  store_ok (rollback_local snapshots l) /\ forall k, view (rollback_local snapshots l) k = g k.
Proof.
  intros Hl Hg Hs. unfold rollback_local.
  destruct (restore_entries_view g (btree_entries snapshots) l Hl) as [Hl' Hv].
  { apply Forall_forall. intros [k o] Hin%btree_entries_elem. specialize (Hs k). rewrite Hin in Hs.
    cbn. subst o. eauto. }
  split; [done|]. intros k. rewrite Hv. case_decide as Hk; [done|].
  specialize (Hs k). destruct (snapshots !! k) as [o|] eqn:E; [|done].
  exfalso. apply Hk, list_elem_of_fmap. exists (k, o). by rewrite btree_entries_elem.
Qed.
End rollback.

Section failure.
Context {L R : Type} `{ReadsSucceed L} `{!WritesSucceed L} `{ReadsSucceed R}.

(** The snapshots and the local side together still determine [g]. *)
Definition restorable (snapshots : gmap string (option StateRecord)) (g : string -> option StateRecord) (l : L) : Prop :=
  forall k, match snapshots !! k with Some o => o = g k | None => view l k = g k end.

Lemma restorable_touch snapshots g k l l' :
  restorable snapshots g l -> snapshots !! k = None -> untouched k (view l) (view l') ->
  restorable (<[k := view l k]> snapshots) g l'.
Proof.
  intros Hr Hk Hu k'. specialize (Hr k'). destruct (decide (k' = k)) as [->|Hne].
  - rewrite lookup_insert_eq. by rewrite Hk in Hr.
  - rewrite lookup_insert_ne by done. destruct (snapshots !! k'); [done|]. by rewrite Hu.
Qed.

Lemma sync_keys_failure g keys : forall snapshots acc (s s' : L * R) e,
  NoDup keys -> (forall k, k ∈ keys -> snapshots !! k = None) ->
  store_ok s.1 -> store_ok s.2 -> (forall k r, g k = Some r -> key r = k /\ storable r) ->
  restorable snapshots g s.1 ->
  sync_keys keys snapshots acc s = (s', Err e) ->
  error_code e = SyncFailure /\ store_ok s'.1 /\ forall k, view s'.1 k = g k.
Proof.
  induction keys as [|k keys IH]; intros snapshots acc s s' e Hnd Hfresh Hl Hr Hg Hrest Hs; cbn [sync_keys] in *; [done|].
  apply NoDup_cons in Hnd as [Hk Hnd].
  apply read_both in Hs as (s1 & Hl1 & Hr1 & Hv1 & Hw1 & [(e' & _ & _ & Hf)|Hs]); [|  |done..].
  { rewrite (read_succeeds _ _ Hl), (read_succeeds _ _ Hr) in Hf. by destruct Hf. }
  assert (forall k', k' ∈ keys -> <[k:=view s.1 k]> snapshots !! k' = None) as Hfresh'
    by (intros k' ?; rewrite lookup_insert_ne by set_solver; apply Hfresh; set_solver).
  assert (snapshots !! k = None) as Hnk by (apply Hfresh; left).
  destruct (merge_records (view s.1 k) (view s.2 k)) as [[w rule]|] eqn:Hm.
  - assert (key w = k /\ storable w) as Hkw
      by (apply merge_records_from in Hm as [Hm|Hm]; [exact (view_key _ _ _ Hl Hm)|exact (view_key _ _ _ Hr Hm)]).
    apply eff_bind_err in Hs as [Hs|(s2 & [] & Ha & Hs)]; unfold apply_or_rollback in *;
      destruct (apply_winner k w s1) as [s3 a] eqn:Haw;
      destruct (apply_winner_untouched _ _ _ _ _ Hl1 Hr1 Hkw Haw) as (Hl3 & Hr3 & Hu3);
      assert (untouched k (view s.1) (view s3.1)) as Hu by (intros k' ?; by rewrite Hu3, Hv1).
    + destruct a as [[]|e3]; [done|]. injection Hs as <- <-. split; [done|]. cbn.
      apply rollback_restores; [done..|]. by apply (restorable_touch _ _ _ s.1).
    + destruct a as [[]|e3]; [|done]. injection Ha as <-.
      eapply IH in Hs; [exact Hs|done..|]. by eapply restorable_touch.
  - eapply IH in Hs; [exact Hs|done..|]. eapply restorable_touch; [done..|]. by intros k' _.
Qed.
End failure.

(** ** Convergence *)

(** An adapter whose operations do not fail. *)
Class Succeeds (St : Type) `{DataStoreLaws St} : Prop := {
  succeeds_reads :: ReadsSucceed St;
  succeeds_writes :: WritesSucceed St;
  list_succeeds (s : St) : store_ok s -> is_ok (ds_list_keys s).2 = true }.

#[export] Instance in_memory_succeeds : Succeeds InMemoryDataStore.
Proof. split; [apply _..|done]. Qed.

Lemma put_winner_succeeds {St} `{Succeeds St} k w (s : St) :
  storable w -> store_ok s -> is_ok (put_winner k w s).2 = true.
Proof.
  intros Hw Hs. unfold put_winner, mbind, Eff_bind. pose proof (read_succeeds k s Hs) as Hok.
  destruct (ds_read k s) as [s1 [o|e]] eqn:Hr; [|done].
  apply (read_law _ _ _ _ Hs) in Hr as (Hs1 & _ & _).
  destruct (differs o w); [by apply write_succeeds|done].
Qed.

Section converge.
Context {L R : Type} `{DataStoreLaws L} `{DataStoreLaws R}.

Lemma apply_winner_succeeds `{!Succeeds L, !Succeeds R} k w (s : L * R) :
  store_ok s.1 -> store_ok s.2 -> key w = k /\ storable w -> is_ok (apply_winner k w s).2 = true.
Proof.
  destruct s as [l r]. cbn. intros Hl Hr [Hk Hst]. unfold apply_winner, mbind, Eff_bind, on_fst, on_snd. cbn.
  pose proof (put_winner_succeeds k w l Hst Hl) as Hok. destruct (put_winner k w l) as [l1 [[]|e]]; [|done]. cbn.
  pose proof (put_winner_succeeds k w r Hst Hr) as Hok'. destruct (put_winner k w r) as [r1 [[]|e]]; done.
Qed.

Lemma sync_keys_succeeds `{!Succeeds L, !Succeeds R} keys : forall snapshots acc (s s' : L * R) a,
  store_ok s.1 -> store_ok s.2 -> sync_keys keys snapshots acc s = (s', a) -> is_ok a = true.
Proof.
  induction keys as [|k keys IH]; intros snapshots acc s s' a Hl Hr Hs; cbn [sync_keys] in *.
  - by injection Hs as <- <-.
  - apply read_both in Hs as (s1 & Hl1 & Hr1 & Hv1 & Hw1 & [(e' & _ & _ & Hf)|Hs]); [|  |done..].
    { rewrite (read_succeeds _ _ Hl), (read_succeeds _ _ Hr) in Hf. by destruct Hf. }
    destruct (merge_records (view s.1 k) (view s.2 k)) as [[w rule]|] eqn:Hm; [|by eapply IH].
    assert (key w = k /\ storable w) as Hkw
      by (apply merge_records_from in Hm as [Hm|Hm]; [exact (view_key _ _ _ Hl Hm)|exact (view_key _ _ _ Hr Hm)]).
    pose proof (apply_winner_succeeds k w s1 Hl1 Hr1 Hkw) as Hok.
    unfold mbind, Eff_bind, apply_or_rollback in Hs. destruct (apply_winner k w s1) as [s2 [[]|e]] eqn:Ha; [|done].
    apply apply_winner_untouched in Ha as (? & ? & _); [|done..]. by eapply IH.
Qed.

Lemma sync_adapters_succeeds `{!Succeeds L, !Succeeds R} (s s' : L * R) a :
  store_ok s.1 -> store_ok s.2 -> sync_adapters s = (s', a) -> is_ok a = true.
Proof.
  destruct s as [l r]. cbn. intros Hl Hr. unfold sync_adapters, mbind, Eff_bind, on_fst, on_snd. cbn.
  pose proof (list_succeeds l Hl) as Hok. destruct (ds_list_keys l) as [l1 [ls|e]] eqn:Hls; [|done]. cbn.
  pose proof (list_succeeds r Hr) as Hok'. destruct (ds_list_keys r) as [r1 [rs|e]] eqn:Hrs; [|done].
  destruct (list_law _ _ _ Hl Hls) as (Hl1 & _ & _). destruct (list_law _ _ _ Hr Hrs) as (Hr1 & _ & _).
  destruct (sync_keys (merged_keys ls rs) ∅ [] (l1, r1)) as [s1 a1] eqn:Hk.
  apply sync_keys_succeeds in Hk as Ha; [|done..]. destruct a1; [|done]. by intros [= <- <-].
Qed.
End converge.

(** [w] is ordered after [c], or is at the same place in the order: by clock,
    then by writer. *)
Definition wins (w c : StateRecord) : Prop :=
  (lamport_clock c < lamport_clock w)%N \/
  lamport_clock c = lamport_clock w /\ String.le (writer_id c) (writer_id w).

Lemma select_conflict_winner_wins l r w rule :
  select_conflict_winner l r = (w, rule) -> (w = l \/ w = r) /\ wins w l /\ wins w r.
Proof.
  unfold select_conflict_winner, wins.
  destruct (N.ltb_spec (lamport_clock r) (lamport_clock l)) as [?|?]; [intros [= <- _]; auto 10|].
  destruct (N.ltb_spec (lamport_clock l) (lamport_clock r)) as [?|?]; [intros [= <- _]; auto 10|].
  assert (lamport_clock l = lamport_clock r) as He by lia.
  case_bool_decide as Hw; intros [= <- _]; (split; [auto|]); split; right; try done.
  split; [done|]. by destruct (total String.le (writer_id l) (writer_id r)).
Qed.

Lemma merged_wins f g k c :
  f k = Some c \/ g k = Some c ->
  exists w, merged f g k = Some w /\ (f k = Some w \/ g k = Some w) /\ wins w c.
Proof.
  unfold merged. destruct (f k) as [l|], (g k) as [r|]; cbn; try naive_solver.
  - destruct (select_conflict_winner l r) as [w rule] eqn:Hs.
    apply select_conflict_winner_wins in Hs as ([->| ->] & ? & ?); intros [[= <-]|[= <-]]; eauto 10.
  - intros [[= <-]|[=]]. exists l. split_and!; [done|auto|]. by right.
  - intros [[=]|[= <-]]. exists r. split_and!; [done|auto|]. by right.
Qed.

Lemma merged_None f g k : f k = None -> g k = None -> merged f g k = None.
Proof. unfold merged. by intros -> ->. Qed.

(** C38: synchronising two stores.  When no operation of the adapters fails it
    succeeds; and whenever it succeeds both sides hold the same records: at each
    key that either side held, one of the records held there, which no record
    held there beats by clock and then by writer; at every other key nothing.  The
    report lists the decision for each key that was held, in the order of the
    keys. *)
Theorem sync_converges {L R} `{DataStoreLaws L} `{DataStoreLaws R} (l l' : L) (r r' : R) a :
  store_ok l -> store_ok r -> sync_adapters (l, r) = ((l', r'), a) ->
  (Succeeds L -> Succeeds R -> is_ok a = true) /\
  forall report, a = Ok report ->
    store_ok l' /\ store_ok r' /\
    (forall k, view l' k ≡ view r' k) /\
    (forall k c, view l k = Some c \/ view r k = Some c ->
       exists w, view l' k ≡ Some w /\ (view l k = Some w \/ view r k = Some w) /\ wins w c) /\
    (forall k, view l k = None -> view r k = None -> view l' k = None) /\
    exists keys, StronglySorted String.le keys /\ NoDup keys /\
      (forall k, k ∈ keys <-> is_Some (view l k) \/ is_Some (view r k)) /\
      decisions report = omap (decision_of (view l) (view r)) keys.
Proof.
  intros Hl Hr Hs. split; [intros ? ?; by apply (sync_adapters_succeeds (l, r) (l', r'))|].
  intros report ->. apply sync_adapters_ok in Hs as (Hl' & Hr' & Hv & keys & Hsort & Hnd & Hkeys & Hd); [|done..].
  cbn in *. split_and!; [done..| | | |].
  - intros k. by destruct (Hv k) as [-> ->].
  - intros k c Hc. destruct (merged_wins _ _ _ _ Hc) as (w & Hw & Hfrom & Hwins).
    exists w. split; [|done]. by rewrite <- Hw; apply Hv.
  - intros k Hlk Hrk. destruct (Hv k) as [Hk _]. rewrite merged_None in Hk by done. by apply None_equiv_eq in Hk.
  - exists keys. split_and!; [done..| |done]. intros k. rewrite Hkeys. unfold merged.
    destruct (view l k), (view r k); cbn; split; intros; eauto; destruct_or?; done.
Qed.

(** A synchronisation that fails leaves the local store as it was, when the
    local adapter's operations and the remote reads succeed: whatever winners were
    already written are rolled back. *)
Theorem failed_sync_restores_local {L R} `{DataStoreLaws L, !ReadsSucceed L, !WritesSucceed L}
    `{DataStoreLaws R, !ReadsSucceed R} (l l' : L) (r r' : R) e :
  store_ok l -> store_ok r -> sync_adapters (l, r) = ((l', r'), Err e) ->
  store_ok l' /\ forall k, view l' k = view l k.
Proof.
  intros Hl Hr Hs.
  apply list_both in Hs as (s1 & Hl1 & Hr1 & Hv1 & Hw1 & [(e' & <- & _)|(ls & rs & _ & _ & Hs)]); [done| |done..].
  apply eff_bind_err in Hs as [Hs|(s2 & ds & _ & [=])].
  assert (NoDup (merged_keys ls rs)) as Hnd by apply btree_elements_NoDup.
  eapply (sync_keys_failure (view l)) in Hs as (_ & ? & ?); [done|done|by intros; apply lookup_empty|done..| |].
  - intros k0 r0. by apply view_key.
  - intros k. rewrite lookup_empty. apply Hv1.
Qed.

(** ** What is lost *)

(** A value a program can hold, within the nesting a store accepts. *)
Definition value_ok (v : Value) : Prop :=
  representable v = true /\ nesting v + 3 <= MAX_NESTING /\ value_of_syntax v = v.

Lemma valid_key_string k u : validate_key k = Ok u -> valid_string k = true.
Proof.
  intros [_ Hk]%validate_key_ok. apply bool_decide_eq_true_2, lossy_ascii_id; [|done].
  eapply Forall_impl; [exact Hk|]. by intros c [? _]%key_char_ascii.
Qed.

(** A successful write leaves the stamped record at its key. *)
Lemma write_stamps {A} `{DataStoreLaws A} contract k v (s s' : RuntimeDataStore A) record :
  store_ok s.1 -> value_ok v -> valid_string (clock_writer_id s.2) = true ->
  runtime_write contract k v s = (s', Ok record) ->
  key record = k /\ value record = v /\ lamport_clock record = (clock_value s.2 + 1)%N /\
  store_ok s'.1 /\ forall k', view s'.1 k' = set_at k (Some record) (view s.1) k'.
Proof.
  destruct s as [a c], s' as [a' c']. cbn. intros Ha Hv Hwr Hw.
  apply eff_bind_ok in Hw as ([a1 c1] & [] & [= <- <- Hval] & Hw).
  apply bind_ok_inv in Hval as ([] & Hval%valid_key_string & _).
  apply eff_bind_ok in Hw as ([a2 c2] & n & Hn & Hw). apply on_snd_inv in Hn as [E2 Hn]. cbn in *. subst a2.
  unfold next in Hn. destruct (N.ltb_spec (clock_value c) u64_max); [|done]. injection Hn as <- <-.
  unfold mbind, Eff_bind, current, on_fst in Hw. cbn in Hw.
  destruct (ds_write _ a) as [a3 [u|e]] eqn:Hd; [|done]. cbn in Hw. injection Hw as <- <- <-.
  apply write_law in Hd as [? [?|[_ ?]]]; try done.
  destruct Hv as (? & ? & ?). split_and!; cbn; try done. lia.
Qed.

(** A clock that starts again from zero loses writes.  A fresh
    [RuntimeDataStore] over a store that already synchronised stamps its first
    write with one; when the remote side still holds an older record of the key
    with a higher clock, the next synchronisation replaces the new value by the
    old one on both sides and reports success. *)
Theorem restarted_clock_loses_write {L R} `{DataStoreLaws L} `{DataStoreLaws R}
    contract k v writer (l : L) (r r' : R) (local local' : RuntimeDataStore L) record old report :
  store_ok l -> store_ok r -> value_ok v -> valid_string writer = true ->
  view r k = Some old -> (1 < lamport_clock old)%N ->
  runtime_write contract k v (new_runtime_store l writer) = (local, Ok record) ->
  sync_on_reconnect (local, r) = ((local', r'), Ok report) ->
  view local.1 k = Some record /\ value record = v /\ view local'.1 k ≡ Some old /\ view r' k ≡ Some old.
Proof.
  intros Hl Hr Hvok Hwr Hold Hclock Hw Hs. apply write_stamps in Hw as (Hkey & Hv & Hn & Hl1 & Hview); [|done..]. cbn in Hn.
  unfold sync_on_reconnect in Hs. cbn in Hs.
  destruct (sync_adapters (local.1, r)) as [[l2 r2] a2] eqn:Hsync. injection Hs as <- <- ->.
  assert (view local.1 k = Some record) as Hrec by (rewrite Hview; unfold set_at; by rewrite decide_True).
  apply sync_adapters_ok in Hsync as (_ & _ & Hm & _); [|done..]. cbn in Hm. specialize (Hm k).
  assert (merged (view local.1) (view r) k = Some old) as Hmerged.
  { unfold merged. rewrite Hrec, Hold. cbn. unfold select_conflict_winner.
    destruct (N.ltb_spec (lamport_clock old) (lamport_clock record)); [lia|].
    destruct (N.ltb_spec (lamport_clock record) (lamport_clock old)); [done|lia]. }
  rewrite Hmerged in Hm. by destruct Hm.
Qed.

(** A key deleted on one side comes back with the next synchronisation, because
    nothing records the deletion. *)
Theorem deleted_key_returns {L R} `{DataStoreLaws L} `{DataStoreLaws R}
    k (l l1 l' : L) (r r' : R) old report :
  store_ok l -> store_ok r -> view r k = Some old ->
  ds_delete k l = (l1, Ok tt) -> sync_adapters (l1, r) = ((l', r'), Ok report) ->
  view l1 k = None /\ view l' k ≡ Some old.
Proof.
  intros Hl Hr Hold Hd Hs. apply (delete_law _ _ _ _ Hl) in Hd as [Hl1 [Hv|[_ ?]]]; [|done].
  assert (view l1 k = None) as Hnone by (rewrite Hv; unfold set_at; by rewrite decide_True).
  split; [done|]. apply sync_adapters_ok in Hs as (_ & _ & Hm & _); [|done..]. cbn in Hm. destruct (Hm k) as [-> _].
  unfold merged. by rewrite Hnone, Hold.
Qed.

(** ** Samples *)

(** An in-memory adapter that refuses to write some keys and, when [reads_fail],
    to read others. *)
Record FlakyStore (reads_fail : bool) := {
  backing : InMemoryDataStore;
  unreadable : gset string;
  unwritable : gset string }.
Arguments backing {reads_fail}.
Arguments unreadable {reads_fail}.
Arguments unwritable {reads_fail}.

Definition with_backing {f} (m : InMemoryDataStore) (s : FlakyStore f) : FlakyStore f :=
  {| backing := m; unreadable := unreadable s; unwritable := unwritable s |}.

Definition refused : DataStoreError := data_store_error IoFailure "storage_io_failed" Null.

#[export] Instance flaky_store f : DataStore (FlakyStore f) := {|
  ds_read k s :=
    if decide (f = true /\ k ∈ unreadable s) then (s, Err refused) else (s, Ok (records (backing s) !! k));
  ds_write r s :=
    if decide (key r ∈ unwritable s) then (s, Err refused)
    else (with_backing {| records := <[key r := r]> (records (backing s)) |} s, Ok tt);
  ds_delete k s := (with_backing {| records := delete k (records (backing s)) |} s, Ok tt);
  ds_list_keys s := (s, Ok (btree_elements (dom (records (backing s))))) |}.

#[export] Program Instance flaky_laws f : DataStoreLaws (FlakyStore f) := {|
  store_ok s := store_ok (backing s);
  view s k := records (backing s) !! k |}.
Next Obligation. intros f s k r H. apply H. Qed.
Next Obligation. intros f k s s' a H. cbn. case_decide; intros [= <- <-]; naive_solver. Qed.
Next Obligation.
  intros f r s s' a Hr H. cbn. case_decide; intros [= <- <-]; [split; [done|by right]|].
  by apply (write_law r (backing s) _ _ Hr H).
Qed.
Next Obligation. intros f k s s' a H [= <- <-]. by apply (delete_law k (backing s) _ _ H). Qed.
Next Obligation. intros f s s' a H [= <- <-]. by apply (list_law (backing s) _ _ H). Qed.

#[export] Instance flaky_reads : ReadsSucceed (FlakyStore false).
Proof. split. intros k s _. cbn. by rewrite decide_False by naive_solver. Qed.

Definition sample_record (k : string) (text : string) (clock : N) (writer : string) : StateRecord :=
  {| key := k; value := Str text; lamport_clock := clock; writer_id := writer |}.

Definition store_of (rs : list StateRecord) : InMemoryDataStore :=
  {| records := list_to_map ((fun r => (key r, r)) <$> rs) |}.

Lemma store_of_ok rs : Forall storable rs -> store_ok (store_of rs).
Proof.
  rewrite Forall_forall. intros Hrs k r H. apply elem_of_list_to_map_2, list_elem_of_fmap in H as (r' & [= -> ->] & ?).
  auto.
Qed.

(** A concrete store. *)
Ltac store_check :=
  apply store_of_ok; repeat (apply List.Forall_cons; [split_and!; vm_compute; first [done|lia]|]); apply List.Forall_nil.

Definition phone : InMemoryDataStore :=
  store_of [sample_record "a" "old" 1 "phone"; sample_record "b" "phone" 3 "phone"; sample_record "c" "tie" 2 "phone"].
Definition cloud : InMemoryDataStore :=
  store_of [sample_record "a" "new" 2 "cloud"; sample_record "b" "cloud" 1 "cloud"; sample_record "c" "tie!" 2 "cloud"].

Lemma phone_ok : store_ok phone.
Proof. store_check. Qed.

Lemma cloud_ok : store_ok cloud.
Proof. store_check. Qed.

Lemma sync_converges_witness :
  let '((l, r), a) := sync_adapters (phone, cloud) in
  is_ok a = true /\ (forall k, view l k ≡ view r k) /\ view l "c" = Some (sample_record "c" "tie" 2 "phone").
Proof.
  destruct (sync_adapters (phone, cloud)) as [[l r] a] eqn:Hs.
  destruct (sync_converges _ _ _ _ _ phone_ok cloud_ok Hs) as [Hok Hall].
  specialize (Hok _ _). split; [done|]. destruct a as [report|e]; [|done].
  destruct (Hall report eq_refl) as (_ & _ & Hsame & _). split; [done|].
  vm_compute in Hs. injection Hs as <- <- _. by vm_compute.
Defined.

(** A remote side that takes the winner of [a] and refuses the one of [b]. *)
Definition refusing : FlakyStore false :=
  {| backing := store_of [sample_record "a" "new" 2 "cloud"]; unreadable := ∅; unwritable := {["b"]} |}.

Lemma refusing_ok : store_ok refusing.
Proof. change (store_ok (store_of [sample_record "a" "new" 2 "cloud"])). store_check. Qed.

Lemma failed_sync_restores_local_witness :
  let '((l, r), a) := sync_adapters (phone, refusing) in
  is_ok a = false /\ forall k, view l k = view phone k.
Proof.
  destruct (sync_adapters (phone, refusing)) as [[l r] a] eqn:Hs. destruct a as [report|e].
  - by vm_compute in Hs.
  - split; [done|]. by apply (failed_sync_restores_local phone l refusing r e phone_ok refusing_ok).
Defined.

Definition stateful (schema : Value) : CapabilityContract := {|
  kind := kind sample_contract; schema_version := schema_version sample_contract; id := "notes.save";
  namespace := "notes"; name := "save"; version := version sample_contract; lifecycle := lifecycle sample_contract;
  owner := owner sample_contract; summary := summary sample_contract; description := description sample_contract;
  inputs := inputs sample_contract; outputs := outputs sample_contract; preconditions := []; postconditions := [];
  side_effects := []; emits := []; consumes := []; permissions := []; execution := execution sample_contract;
  policies := []; dependencies := []; provenance := provenance sample_contract; evidence := [];
  service_type := Stateful; permitted_targets := [Local]; event_trigger := None; connector_requirements := [];
  state_schema := Some schema; use_cases := []; risk := risk sample_contract |}.

Definition notes_schema : Value :=
  Object [("properties", Object [("a", Object [("type", Str "string")])])].

Lemma restarted_clock_loses_write_witness :
  let '(local, written) := runtime_write (stateful notes_schema) "a" (Str "newest")
                             (new_runtime_store phone "phone") in
  let '((local', r), a) := sync_on_reconnect (local, cloud) in
  is_ok written = true /\ is_ok a = true /\ view local'.1 "a" ≡ Some (sample_record "a" "new" 2 "cloud").
Proof.
  destruct (runtime_write _ _ _ _) as [local [record|e]] eqn:Hw; [|by vm_compute in Hw].
  destruct (sync_on_reconnect (local, cloud)) as [[local' r] [report|e]] eqn:Hs.
  - split_and!; [done..|].
    eapply (restarted_clock_loses_write (stateful notes_schema) "a" (Str "newest") "phone" phone cloud r local local'
      record (sample_record "a" "new" 2 "cloud") report phone_ok cloud_ok); [split_and!; vm_compute; first [done|lia]|by vm_compute..|done|done].
  - exfalso. vm_compute in Hw. injection Hw as <- <-. by vm_compute in Hs.
Defined.

(** A failing read during synchronisation is not rolled back.  Both sides are
    in-memory adapters, the remote one unable to read one key: the synchronisation
    fails with the adapter's error after it has already overwritten the local
    record of an earlier key, which stays overwritten. *)
Theorem failed_read_keeps_partial_sync :
  let remote : FlakyStore true :=
    {| backing := cloud; unreadable := {["b"]}; unwritable := ∅ |} in
  let '((l, _), a) := sync_adapters (phone, remote) in
  a = Err refused /\
  view phone "a" = Some (sample_record "a" "old" 1 "phone") /\
  view l "a" = Some (sample_record "a" "new" 2 "cloud").
Proof. by vm_compute. Qed.
