(* ===== verification/LocalStore.v ===== *)
(** * The local file store

    [LocalFileDataStore] of [crates/traverse-runtime/src/data_store.rs]: one
    envelope per key in a directory, with a digest, optionally wrapped in the
    version-two envelope, and encrypted for private records; writes go through a
    temporary sibling and a rename.  The directory is a map from file names to
    contents.  What the file system answers is an argument: [outcomes] lists, per
    operation, the call that fails, if any. *)
From S2P Require Import Prelude Effect Json Serde DataStore.
From Stdlib Require Import Ascii.

(** SHA-256, AES-256-GCM (key, nonce, message, associated data), the bytes of the
    [n]-th random UUID, and the size of [usize]. *)
Class StoreCrypto := {
  sha256 : Bytes -> Bytes;
  aes_encrypt : Bytes -> Bytes -> Bytes -> Bytes -> option Bytes;
  aes_decrypt : Bytes -> Bytes -> Bytes -> Bytes -> option Bytes;
  uuid_bytes : nat -> Bytes;
  usize_bytes : nat }.

Definition LOCAL_DATA_STORE_FORMAT : string := "local-datastore/1".
Definition LOCAL_DATA_STORE_V2_FORMAT : string := "local-datastore/2".
Definition LOCAL_DATA_STORE_V2_FORMAT_VERSION : N := 2.
Definition LOCAL_DATA_STORE_V2_SCHEMA_VERSION : N := 1.
Definition LOCAL_DATA_STORE_LOCK_FILE : string := ".traverse-datastore.lock".

(** ** Hexadecimal text and digests *)

Definition text (s : string) : Bytes := String.list_ascii_of_string s.

Definition hex_byte (c : ascii) : string :=
  hex_digit (N.shiftr (N_of_ascii c) 4) +:+ hex_digit (N.land (N_of_ascii c) 15).

Definition hex_encode (bytes : Bytes) : string := String.concat "" (hex_byte <$> bytes).

Definition integrity_error (reason : string) : DataStoreError :=
  data_store_error IntegrityCheckFailed "integrity_check_failed" (obj [("reason", Str reason)]).

Definition decode_hex_digit (c : ascii) : option N :=
  let n := N_of_ascii c in
  if ((48 <=? n) && (n <=? 57))%N then Some (n - 48)%N
  else if ((97 <=? n) && (n <=? 102))%N then Some (n - 97 + 10)%N
  else None.

(** The pairs of an even number of digits. *)
Fixpoint hex_decode (digits : Bytes) : Result DataStoreError Bytes :=
  match digits with
  | [] => Ok []
  | [_] => Err (integrity_error "invalid_hex")
  | high :: low :: rest =>
      h ← ok_or (decode_hex_digit high) (integrity_error "invalid_hex");
      l ← ok_or (decode_hex_digit low) (integrity_error "invalid_hex");
      bytes ← hex_decode rest;
      Ok (ascii_of_N (N.lor (N.shiftl h 4) l) :: bytes)
  end.

(** [usize::to_le_bytes] *)
Fixpoint to_le_bytes (width : nat) (n : N) : Bytes :=
  match width with
  | 0 => []
  | S w => ascii_of_N (n mod 256) :: to_le_bytes w (n / 256)
  end.

(** ** Records and envelopes *)

Inductive LocalDataClassification := Public | Private.

#[export] Instance LocalDataClassification_eq_dec : EqDecision LocalDataClassification.
Proof. solve_decision. Defined.

Record LocalDataStoreEnvelope := {
  format : string;
  classification : LocalDataClassification;
  digest : string;
  record : option StateRecord;
  record_key : option string;
  key_id : option string;
  nonce : option string;
  ciphertext : option string;
  retained_at : option string }.

Record LocalDataStoreIntegrity := {
  algorithm : string;
  content_digest : string }.

Record LocalDataStoreV2Envelope := {
  v2_format : string;
  format_version : N;
  v2_schema_version : N;
  payload_integrity : string;
  integrity : LocalDataStoreIntegrity;
  encryption_disclosure : string;
  payload : LocalDataStoreEnvelope }.

Definition classification_name (c : LocalDataClassification) : string :=
  match c with Public => "public" | Private => "private" end.

Definition record_value (r : StateRecord) : Value :=
  Object [("key", Str (key r)); ("value", value r); ("lamport_clock", Num (PosInt (lamport_clock r)));
          ("writer_id", Str (writer_id r))].

Definition envelope_value (e : LocalDataStoreEnvelope) : Value :=
  Object ([("format", Str (format e)); ("classification", Str (classification_name (classification e)));
           ("digest", Str (digest e))]
          ++ some_member "record" record_value (record e)
          ++ some_member "record_key" Str (record_key e)
          ++ some_member "key_id" Str (key_id e)
          ++ some_member "nonce" Str (nonce e)
          ++ some_member "ciphertext" Str (ciphertext e)
          ++ some_member "retained_at" Str (retained_at e)).

Definition integrity_value (i : LocalDataStoreIntegrity) : Value :=
  Object [("algorithm", Str (algorithm i)); ("content_digest", Str (content_digest i))].

Definition v2_envelope_value (e : LocalDataStoreV2Envelope) : Value :=
  Object [("format", Str (v2_format e)); ("format_version", Num (PosInt (format_version e)));
          ("schema_version", Num (PosInt (v2_schema_version e)));
          ("payload_integrity", Str (payload_integrity e));
          ("integrity", integrity_value (integrity e));
          ("encryption_disclosure", Str (encryption_disclosure e));
          ("payload", envelope_value (payload e))].

(** Reading them back. *)
Definition classification_named (name : string) : option LocalDataClassification :=
  if bool_decide (name = "public") then Some Public
  else if bool_decide (name = "private") then Some Private
  else None.

Definition classification_of (v : Value) : option LocalDataClassification :=
  match v with
  | Str name | Object [(name, Null)] => classification_named name
  | _ => None
  end.

Definition record_of (v : Value) : option StateRecord :=
  fields ← struct_fields ["key"; "value"; "lamport_clock"; "writer_id"] v;
  match fields with
  | [k; val; clock; writer] =>
      k ← required as_str k;
      val ← val;
      clock ← required as_u64 clock;
      writer ← required as_str writer;
      Some {| key := k; value := value_of_syntax val; lamport_clock := clock; writer_id := writer |}
  | _ => None
  end.

Definition envelope_of (v : Value) : option LocalDataStoreEnvelope :=
  fields ← struct_fields ["format"; "classification"; "digest"; "record"; "record_key"; "key_id"; "nonce";
                          "ciphertext"; "retained_at"] v;
  match fields with
  | [f; c; d; r; rk; kid; n; ct; ra] =>
      f ← required as_str f;
      c ← required classification_of c;
      d ← required as_str d;
      r ← optional record_of r;
      rk ← optional as_str rk;
      kid ← optional as_str kid;
      n ← optional as_str n;
      ct ← optional as_str ct;
      ra ← optional as_str ra;
      Some {| format := f; classification := c; digest := d; record := r; record_key := rk; key_id := kid;
              nonce := n; ciphertext := ct; retained_at := ra |}
  | _ => None
  end.

Definition integrity_of (v : Value) : option LocalDataStoreIntegrity :=
  fields ← struct_fields ["algorithm"; "content_digest"] v;
  match fields with
  | [a; d] =>
      a ← required as_str a; d ← required as_str d; Some {| algorithm := a; content_digest := d |}
  | _ => None
  end.

Definition v2_envelope_of (v : Value) : option LocalDataStoreV2Envelope :=
  fields ← struct_fields ["format"; "format_version"; "schema_version"; "payload_integrity"; "integrity";
                          "encryption_disclosure"; "payload"] v;
  match fields with
  | [f; fv; sv; pi; i; ed; p] =>
      f ← required as_str f;
      fv ← required as_u32 fv;
      sv ← required as_u32 sv;
      pi ← required as_str pi;
      i ← required integrity_of i;
      ed ← required as_str ed;
      p ← required envelope_of p;
      Some {| v2_format := f; format_version := fv; v2_schema_version := sv; payload_integrity := pi;
              integrity := i; encryption_disclosure := ed; payload := p |}
  | _ => None
  end.

(** ** Key providers *)

Inductive KeyProviderErrorCode := MissingKey | ExpiredKeyId | ProviderFailure.

Record KeyProviderError := {
  provider_code : KeyProviderErrorCode;
  provider_message : string }.

Definition missing_key : KeyProviderError := {| provider_code := MissingKey; provider_message := "key_not_found" |}.
Definition expired_key_id : KeyProviderError := {| provider_code := ExpiredKeyId; provider_message := "key_expired" |}.
Definition provider_failure : KeyProviderError :=
  {| provider_code := ProviderFailure; provider_message := "key_provider_failed" |}.

(** The trait [KeyProvider]: a record of its methods. *)
Record KeyProvider := {
  active_key_id : Result KeyProviderError string;
  key_for : string -> Result KeyProviderError Bytes }.

Record InMemoryKeyProvider := {
  memory_active_key_id : string;
  keys : gmap string Bytes;
  expired_key_ids : gset string }.

Definition new_key_provider (active : string) (k : Bytes) : InMemoryKeyProvider :=
  {| memory_active_key_id := active; keys := {[active := k]}; expired_key_ids := ∅ |}.

Definition with_read_key (id : string) (k : Bytes) (p : InMemoryKeyProvider) : InMemoryKeyProvider :=
  {| memory_active_key_id := memory_active_key_id p; keys := <[id := k]> (keys p);
     expired_key_ids := expired_key_ids p |}.

Definition with_expired_key_id (id : string) (p : InMemoryKeyProvider) : InMemoryKeyProvider :=
  {| memory_active_key_id := memory_active_key_id p; keys := keys p;
     expired_key_ids := {[id]} ∪ expired_key_ids p |}.

Definition in_memory_key_provider (p : InMemoryKeyProvider) : KeyProvider := {|
  active_key_id :=
    let id := memory_active_key_id p in
    if bool_decide (id ∈ expired_key_ids p) then Err expired_key_id
    else match keys p !! id with Some _ => Ok id | None => Err missing_key end;
  key_for id :=
    if bool_decide (id ∈ expired_key_ids p) then Err expired_key_id
    else ok_or (keys p !! id) missing_key |}.

Definition key_provider_error_code (c : KeyProviderErrorCode) : string :=
  match c with
  | MissingKey => "missing_key" | ExpiredKeyId => "expired_key_id" | ProviderFailure => "provider_failure"
  end.

Definition map_key_provider_error (e : KeyProviderError) : DataStoreError :=
  data_store_error
    (match provider_code e with
     | MissingKey => KeyNotFound | ExpiredKeyId => KeyExpired | ProviderFailure => KeyProviderFailure
     end)
    (provider_message e)
    (obj [("provider_error_code", Str (key_provider_error_code (provider_code e)))]).

Definition crypto_error : DataStoreError :=
  data_store_error CryptoFailure "crypto_failed" (obj [("reason", Str "encryption_failed")]).

Definition io_error (action reason : string) : DataStoreError :=
  data_store_error IoFailure "storage_io_failed" (obj [("action", Str action); ("reason", Str reason)]).

Definition durability_error (root stage reason : string) : DataStoreError :=
  data_store_error DurabilityCommitFailed "durability_commit_failed"
    (obj [("root", Str root); ("stage", Str stage); ("reason", Str reason)]).

(** ** The state *)

(** The file system call of an operation that fails, with its message; a failed
    write may leave part of the data in the temporary file. *)
Inductive Fault :=
  | ReadFails (reason : string)
  | CreateFails (reason : string)
  | WriteFails (reason : string) (written : Bytes)
  | SyncFails (reason : string)
  | RenameFails (reason : string)
  | SyncRootFails (reason : string)
  | RemoveFails (reason : string)
  | ListFails (reason : string).

(** [discard_fails]: the temporary file stays, because removing it fails or the
    process stops before it. *)
Record Outcome := {
  fault : option Fault;
  discard_fails : bool }.

Definition all_well : Outcome := {| fault := None; discard_fails := false |}.

(** [drawn] counts the random UUIDs used so far, [process_id] is the process. *)
Record LocalFileDataStore := {
  root : string;
  store_classification : LocalDataClassification;
  key_provider : option KeyProvider;
  write_retained_at : option string;
  files : gmap string Bytes;
  process_id : N;
  drawn : nat;
  outcomes : list Outcome }.

Definition set_files (f : gmap string Bytes) (s : LocalFileDataStore) : LocalFileDataStore := {|
  root := root s; store_classification := store_classification s; key_provider := key_provider s;
  write_retained_at := write_retained_at s; files := f; process_id := process_id s; drawn := drawn s;
  outcomes := outcomes s |}.

Definition set_drawn (n : nat) (s : LocalFileDataStore) : LocalFileDataStore := {|
  root := root s; store_classification := store_classification s; key_provider := key_provider s;
  write_retained_at := write_retained_at s; files := files s; process_id := process_id s; drawn := n;
  outcomes := outcomes s |}.

(** Take the outcome of one operation. *)
Definition next_outcome (s : LocalFileDataStore) : Outcome * LocalFileDataStore :=
  (default all_well (head (outcomes s)),
   {| root := root s; store_classification := store_classification s; key_provider := key_provider s;
      write_retained_at := write_retained_at s; files := files s; process_id := process_id s; drawn := drawn s;
      outcomes := tail (outcomes s) |}).

(** *** Opening *)

Inductive TryLockError := WouldBlock | Unsupported | OtherLockError.

Definition lock_error (e : TryLockError) : DataStoreError :=
  match e with
  | WouldBlock =>
      data_store_error StoreLocked "store_locked" (obj [("reason", Str "exclusive_owner_active")])
  | Unsupported =>
      data_store_error IoFailure "storage_io_failed"
        (obj [("operation", Str "acquire_lock"); ("reason", Str "locking_unsupported")])
  | OtherLockError =>
      data_store_error IoFailure "storage_io_failed"
        (obj [("operation", Str "acquire_lock"); ("reason", Str "lock_acquisition_failed")])
  end.

(** [with_classification], given how creating the directory, opening the lock file
    and taking the lock end. *)
Definition with_classification (path : string) (c : LocalDataClassification) (disk : gmap string Bytes)
    (created opened : Result string unit) (locked : Result TryLockError unit)
    (pid : N) (used : nat) (future : list Outcome) : Result DataStoreError LocalFileDataStore :=
  _ ← map_err (io_error "create data store root") created;
  _ ← map_err (io_error "open data store lock") opened;
  _ ← map_err lock_error locked;
  Ok {| root := path; store_classification := c; key_provider := None; write_retained_at := None;
        files := match disk !! LOCAL_DATA_STORE_LOCK_FILE with
                 | Some _ => disk
                 | None => <[LOCAL_DATA_STORE_LOCK_FILE := []]> disk
                 end;
        process_id := pid; drawn := used; outcomes := future |}.

(** [LocalFileDataStore::new] *)
Definition new_local_store (path : string) := with_classification path Private.

Definition with_key_provider (p : KeyProvider) (s : LocalFileDataStore) : LocalFileDataStore := {|
  root := root s; store_classification := store_classification s; key_provider := Some p;
  write_retained_at := write_retained_at s; files := files s; process_id := process_id s; drawn := drawn s;
  outcomes := outcomes s |}.

Definition set_write_retained_at (at_time : option string) (s : LocalFileDataStore) : LocalFileDataStore := {|
  root := root s; store_classification := store_classification s; key_provider := key_provider s;
  write_retained_at := at_time; files := files s; process_id := process_id s; drawn := drawn s;
  outcomes := outcomes s |}.

Definition file_name (k : string) : string := k +:+ ".json".

Definition path_for_key (k : string) : Result DataStoreError string :=
  _ ← validate_key k; Ok (file_name k).

Definition temporary_path_for_key (s : LocalFileDataStore) (k : string) : string :=
  "." +:+ k +:+ "." +:+ u64_to_string (process_id s) +:+ ".tmp".

(** ** Digests and encryption *)

Section crypto.
Context `{SerdeJson} `{StoreCrypto}.

Definition digest_bytes (b : Bytes) : string := "sha256:" +:+ hex_encode (sha256 b).

Definition digest_for_record (r : StateRecord) : string := digest_bytes (to_vec (record_value r)).

(** [append_length_prefixed] and [update_length_prefixed] *)
Definition length_prefixed (b : Bytes) : Bytes := to_le_bytes usize_bytes (N.of_nat (length b)) ++ b.

Definition digest_for_private_envelope (kid rkey nonce_hex ciphertext_hex : string) : string :=
  digest_bytes (length_prefixed (text kid) ++ length_prefixed (text rkey) ++ length_prefixed (text "private")
                ++ length_prefixed (text nonce_hex) ++ length_prefixed (text ciphertext_hex)).

Definition private_record_aad (kid rkey : string) : Bytes :=
  length_prefixed (text kid) ++ length_prefixed (text rkey) ++ length_prefixed (text "private").

Definition v2_envelope (p : LocalDataStoreEnvelope) : LocalDataStoreV2Envelope :=
  let pi := digest_bytes (to_vec (envelope_value p)) in
  {| v2_format := LOCAL_DATA_STORE_V2_FORMAT; format_version := LOCAL_DATA_STORE_V2_FORMAT_VERSION;
     v2_schema_version := LOCAL_DATA_STORE_V2_SCHEMA_VERSION; payload_integrity := pi;
     integrity := {| algorithm := "sha256"; content_digest := pi |};
     encryption_disclosure := match classification p with Public => "not_enabled" | Private => "host_managed_opaque" end;
     payload := p |}.

Definition decode_v2_envelope (v : Value) : Result DataStoreError LocalDataStoreEnvelope :=
  e ← ok_or (v2_envelope_of v) (integrity_error "malformed_envelope");
  if negb (bool_decide (v2_format e = LOCAL_DATA_STORE_V2_FORMAT))
     || negb (format_version e =? LOCAL_DATA_STORE_V2_FORMAT_VERSION)%N
     || negb (v2_schema_version e =? LOCAL_DATA_STORE_V2_SCHEMA_VERSION)%N
     || negb (bool_decide (algorithm (integrity e) = "sha256"))
     || negb (bool_decide (content_digest (integrity e) = payload_integrity e))
     || negb (bool_decide (encryption_disclosure e = "not_enabled")
              || bool_decide (encryption_disclosure e = "host_managed_opaque"))
  then Err (integrity_error "unknown_format_version")
  else
    _ ← ensure (bool_decide (digest_bytes (to_vec (envelope_value (payload e))) = payload_integrity e))
          (integrity_error "digest_mismatch");
    _ ← ensure (bool_decide (format (payload e) = LOCAL_DATA_STORE_FORMAT))
          (integrity_error "unknown_format_version");
    Ok (payload e).

Definition required_key_provider (s : LocalFileDataStore) : Result DataStoreError KeyProvider :=
  ok_or (key_provider s)
    (data_store_error KeyProviderRequired "key_provider_required" (obj [("reason", Str "private_record")])).

Definition fresh_aes_nonce (n : nat) : Bytes := take 12 (uuid_bytes n).

(** [encrypt_private_record] with the nonce it draws. *)
Definition encrypt_private_record (s : LocalFileDataStore) (fresh : Bytes) (r : StateRecord)
    : Result DataStoreError LocalDataStoreEnvelope :=
  provider ← required_key_provider s;
  kid ← map_err map_key_provider_error (active_key_id provider);
  k ← map_err map_key_provider_error (key_for provider kid);
  ct ← ok_or (aes_encrypt k fresh (to_vec (record_value r)) (private_record_aad kid (key r))) crypto_error;
  let nonce_hex := hex_encode fresh in
  let ciphertext_hex := hex_encode ct in
  Ok {| format := LOCAL_DATA_STORE_FORMAT; classification := Private;
        digest := digest_for_private_envelope kid (key r) nonce_hex ciphertext_hex;
        record := None; record_key := Some (key r); key_id := Some kid; nonce := Some nonce_hex;
        ciphertext := Some ciphertext_hex; retained_at := write_retained_at s |}.

(** [serde_json::from_slice::<StateRecord>] *)
Definition record_from_slice (b : Bytes) : option StateRecord :=
  match parse_syntax b with Ok document => record_of document | Err _ => None end.

Definition decrypt_private_envelope (s : LocalFileDataStore) (requested_key : string) (e : LocalDataStoreEnvelope)
    : Result DataStoreError (option StateRecord) :=
  _ ← ensure (match record e with Some _ => false | None => true end) (integrity_error "malformed_envelope");
  rkey ← ok_or (record_key e) (integrity_error "malformed_envelope");
  kid ← ok_or (key_id e) (integrity_error "malformed_envelope");
  nonce_hex ← ok_or (nonce e) (integrity_error "malformed_envelope");
  ciphertext_hex ← ok_or (ciphertext e) (integrity_error "malformed_envelope");
  _ ← ensure (bool_decide (rkey = requested_key)) (integrity_error "record_key_mismatch");
  _ ← ensure (bool_decide (digest e = digest_for_private_envelope kid rkey nonce_hex ciphertext_hex))
        (integrity_error "digest_mismatch");
  provider ← required_key_provider s;
  k ← map_err map_key_provider_error (key_for provider kid);
  nonce_bytes ← hex_decode (text nonce_hex);
  _ ← ensure (length nonce_bytes =? 12)%nat (integrity_error "invalid_nonce");
  ct ← hex_decode (text ciphertext_hex);
  plaintext ← ok_or (aes_decrypt k nonce_bytes ct (private_record_aad kid rkey))
                (integrity_error "authentication_failed");
  r ← ok_or (record_from_slice plaintext) (integrity_error "malformed_plaintext");
  _ ← ensure (bool_decide (key r = rkey)) (integrity_error "record_key_mismatch");
  Ok (Some r).

(** ** The operations *)

(** What a file holds for [requested_key]: everything [read] does after loading the
    text. *)
Definition decode_file (s : LocalFileDataStore) (requested_key : string) (b : Bytes)
    : Result DataStoreError (option StateRecord) :=
  v ← map_err (fun _ => integrity_error "malformed_envelope") (from_slice b);
  _ ← ensure (match get "format" v with Some _ => true | None => false end) (integrity_error "legacy_unverified");
  let fmt := get "format" v ≫= as_str in
  e ← (if bool_decide (fmt = Some LOCAL_DATA_STORE_FORMAT)
       then ok_or (envelope_of v) (integrity_error "malformed_envelope")
       else if bool_decide (fmt = Some LOCAL_DATA_STORE_V2_FORMAT) then decode_v2_envelope v
       else Err (integrity_error "unknown_format_version"));
  match classification e with
  | Public =>
      r ← ok_or (record e) (integrity_error "malformed_envelope");
      _ ← ensure (match key_id e, nonce e, ciphertext e, record_key e with
                  | None, None, None, None => true | _, _, _, _ => false end)
            (integrity_error "malformed_envelope");
      _ ← ensure (bool_decide (digest e = digest_for_record r)) (integrity_error "digest_mismatch");
      Ok (Some r)
  | Private => decrypt_private_envelope s requested_key e
  end.

Definition local_read (k : string) : Eff LocalFileDataStore DataStoreError (option StateRecord) := fun s =>
  let '(outcome, s) := next_outcome s in
  match path_for_key k with
  | Err e => (s, Err e)
  | Ok path =>
      match files s !! path, fault outcome with
      | None, _ => (s, Ok None)
      | Some _, Some (ReadFails reason) => (s, Err (io_error "read state record" reason))
      | Some b, _ =>
          if valid_utf8 b then (s, decode_file s k b)
          else (s, Err (io_error "read state record" "stream did not contain valid UTF-8"))
      end
  end.

(** [ensure_classification_unchanged]: whether to write the version-two wrapper. *)
Definition ensure_classification_unchanged (s : LocalFileDataStore) (outcome : Outcome) (path : string)
    : Result DataStoreError bool :=
  match files s !! path with
  | None => Ok false
  | Some b =>
      _ ← (match fault outcome with
           | Some (ReadFails reason) => Err (io_error "read existing envelope" reason)
           | _ => Ok tt
           end);
      v ← map_err (fun _ => integrity_error "malformed_envelope") (from_slice b);
      let write_v2 := bool_decide (get "format" v ≫= as_str = Some LOCAL_DATA_STORE_V2_FORMAT) in
      e ← (if write_v2 then decode_v2_envelope v
           else ok_or (envelope_of v) (integrity_error "malformed_envelope"));
      _ ← ensure (bool_decide (format e = LOCAL_DATA_STORE_FORMAT)) (integrity_error "unknown_format_version");
      _ ← ensure (bool_decide (classification e = store_classification s))
            (data_store_error ClassificationChangeNotAllowed "classification_change_not_allowed"
               (obj [("reason", Str "delete_before_reclassifying")]));
      Ok write_v2
  end.

(** The envelope of a new record. *)
Definition envelope_for (s : LocalFileDataStore) (fresh : Bytes) (r : StateRecord)
    : Result DataStoreError LocalDataStoreEnvelope :=
  match store_classification s with
  | Public =>
      Ok {| format := LOCAL_DATA_STORE_FORMAT; classification := Public; digest := digest_for_record r;
            record := Some r; record_key := None; key_id := None; nonce := None; ciphertext := None;
            retained_at := write_retained_at s |}
  | Private => encrypt_private_record s fresh r
  end.

Definition envelope_text (write_v2 : bool) (e : LocalDataStoreEnvelope) : Bytes :=
  if write_v2 then to_vec (v2_envelope_value (v2_envelope e)) else to_vec (envelope_value e).

(** The temporary file, the rename and the flushes; the files afterwards. *)
Definition commit (outcome : Outcome) (store_root temporary path : string) (content : Bytes)
    (disk : gmap string Bytes) : gmap string Bytes * Result DataStoreError unit :=
  match fault outcome with
  | Some (CreateFails reason) => (disk, Err (io_error "create temporary state record" reason))
  | Some (WriteFails reason written) =>
      (<[temporary := written]> disk, Err (io_error "write temporary state record" reason))
  | Some (SyncFails reason) =>
      (<[temporary := content]> disk, Err (durability_error store_root "temporary_file" reason))
  | Some (RenameFails reason) =>
      (<[temporary := content]> disk, Err (io_error "atomically commit state record" reason))
  | Some (SyncRootFails reason) =>
      (<[path := content]> (delete temporary disk), Err (durability_error store_root "parent_directory" reason))
  | _ => (<[path := content]> (delete temporary disk), Ok tt)
  end.

(** [discard_temporary_record] *)
Definition discard_temporary_record (outcome : Outcome) (temporary : string) (disk : gmap string Bytes)
    : gmap string Bytes :=
  if discard_fails outcome then disk else delete temporary disk.

Definition local_write (r : StateRecord) : Eff LocalFileDataStore DataStoreError unit := fun s =>
  let '(outcome, s) := next_outcome s in
  let fresh := fresh_aes_nonce (drawn s) in
  let prepared :=
    path ← path_for_key (key r);
    write_v2 ← ensure_classification_unchanged s outcome path;
    e ← envelope_for s fresh r;
    Ok (path, envelope_text write_v2 e) in
  let s := set_drawn (S (drawn s)) s in
  match prepared with
  | Err e => (s, Err e)
  | Ok (path, content) =>
      let temporary := temporary_path_for_key s (key r) in
      let '(disk, result) := commit outcome (root s) temporary path content (files s) in
      (set_files (discard_temporary_record outcome temporary disk) s, result)
  end.

Definition local_delete (k : string) : Eff LocalFileDataStore DataStoreError unit := fun s =>
  let '(outcome, s) := next_outcome s in
  match path_for_key k with
  | Err e => (s, Err e)
  | Ok path =>
      match files s !! path, fault outcome with
      | None, _ => (s, Ok tt)
      | Some _, Some (RemoveFails reason) => (s, Err (io_error "delete state record" reason))
      | Some _, Some (SyncRootFails reason) =>
          (set_files (delete path (files s)) s, Err (durability_error (root s) "parent_directory" reason))
      | Some _, _ => (set_files (delete path (files s)) s, Ok tt)
      end
  end.

(** [Path::file_stem] and [Path::extension]: the name around its last dot, unless
    that is the first character. *)
Fixpoint last_dot (name : string) : option (string * string) :=
  match name with
  | EmptyString => None
  | String c rest =>
      match last_dot rest with
      | Some (before, after) => Some (String c before, after)
      | None => if bool_decide (c = "."%char) then Some (EmptyString, rest) else None
      end
  end.

Definition split_extension (name : string) : string * option string :=
  match last_dot name with
  | Some (EmptyString, _) | None => (name, None)
  | Some (before, after) => (before, Some after)
  end.

(** The key of a listed file. *)
Definition listed_key (name : string) : option string :=
  match split_extension name with
  | (stem, Some extension) => if bool_decide (extension = "json") then Some stem else None
  | (_, None) => None
  end.

Definition local_list_keys : Eff LocalFileDataStore DataStoreError (list string) := fun s =>
  let '(outcome, s) := next_outcome s in
  match fault outcome with
  | Some (ListFails reason) => (s, Err (io_error "list state keys" reason))
  | _ => (s, Ok (merge_sort String.le (omap listed_key (map_to_list (files s)).*1)))
  end.

#[export] Instance local_file_data_store : DataStore LocalFileDataStore := {|
  ds_read := local_read;
  ds_write := local_write;
  ds_delete := local_delete;
  ds_list_keys := local_list_keys |}.
End crypto.
