(* ===== verification/LocalStoreProps.v ===== *)
(** * What the local store writes can be read back

    Hexadecimal text, derived serialization and the envelopes: decoding the file
    that a write produces yields the record, for plain and encrypted records and
    for both versions of the envelope. *)
From S2P Require Import Prelude Effect Json Serde DataStore StoreSync LocalStore.
From Stdlib Require Import Ascii.

(** What is relied on of AES-GCM and of random UUIDs. *)
Class CryptoLaws `{StoreCrypto} : Prop := {
  aes_roundtrip k n m aad c : aes_encrypt k n m aad = Some c -> aes_decrypt k n c aad = Some m;
  uuid_length n : length (uuid_bytes n) = 16 }.

(** ** Hexadecimal text *)

Definition hex_byte_check (c : ascii) : bool :=
  match text (hex_byte c) with
  | [h; l] =>
      match decode_hex_digit h, decode_hex_digit l with
      | Some x, Some y =>
          bool_decide (ascii_of_N (N.lor (N.shiftl x 4) y) = c)
          && (N_of_ascii h <=? 127)%N && (N_of_ascii l <=? 127)%N
      | _, _ => false
      end
  | _ => false
  end.

Lemma hex_byte_decodes c :
  exists h l, text (hex_byte c) = [h; l] /\ (N_of_ascii h <= 127)%N /\ (N_of_ascii l <= 127)%N /\
    exists x y, decode_hex_digit h = Some x /\ decode_hex_digit l = Some y /\
      ascii_of_N (N.lor (N.shiftl x 4) y) = c.
Proof.
  assert (hex_byte_check c = true) as H by (destruct c as [[] [] [] [] [] [] [] []]; vm_compute; reflexivity).
  unfold hex_byte_check in H. destruct (text (hex_byte c)) as [|h [|l [|]]]; try done.
  destruct (decode_hex_digit h) as [x|] eqn:Hx, (decode_hex_digit l) as [y|] eqn:Hy; try done. to_props.
  exists h, l. split_and!; [done..|]. by exists x, y.
Qed.

Lemma bytes_app a b : text (a +:+ b) = text a ++ text b.
Proof. unfold text. induction a as [|c a IH]; [done|]. cbn. by rewrite <- IH. Qed.

Lemma hex_encode_cons c b : hex_encode (c :: b) = hex_byte c +:+ hex_encode b.
Proof.
  unfold hex_encode. rewrite fmap_cons. cbn [String.concat]. destruct (hex_byte <$> b) as [|x l]; [|done].
  symmetry. apply string_app_nil.
Qed.

Lemma hex_roundtrip b : hex_decode (text (hex_encode b)) = Ok b.
Proof.
  induction b as [|c b IH]; [done|]. rewrite hex_encode_cons, bytes_app.
  destruct (hex_byte_decodes c) as (h & l & -> & _ & _ & x & y & Hx & Hy & Hc). cbn [hex_decode app].
  rewrite Hx, Hy. cbn [ok_or mbind Result_bind]. by rewrite IH, Hc.
Qed.

(** ** ASCII text is valid *)

Definition ascii_text (s : string) : Prop := Forall (fun c => N_of_ascii c <= 127)%N (text s).

Lemma ascii_valid s : ascii_text s -> valid_string s = true.
Proof. intros H. apply bool_decide_eq_true_2. by apply lossy_ascii_id. Qed.

Lemma ascii_app a b : ascii_text a -> ascii_text b -> ascii_text (a +:+ b).
Proof. unfold ascii_text. rewrite bytes_app. intros ? ?. by apply Forall_app. Qed.

Lemma hex_ascii b : ascii_text (hex_encode b).
Proof.
  induction b as [|c b IH]; [constructor|]. rewrite hex_encode_cons. apply ascii_app; [|done].
  unfold ascii_text. destruct (hex_byte_decodes c) as (h & l & -> & ? & ? & _). by repeat constructor.
Qed.

Lemma digest_bytes_valid `{StoreCrypto} b : valid_string (digest_bytes b) = true.
Proof. apply ascii_valid. apply ascii_app; [repeat constructor; by vm_compute|apply hex_ascii]. Qed.

(** ** Records and envelopes *)

Definition record_members (r : StateRecord) : list (string * Value) :=
  [("key", Str (key r)); ("value", value r); ("lamport_clock", Num (PosInt (lamport_clock r)));
   ("writer_id", Str (writer_id r))].

Lemma record_members_NoDup r : NoDup (record_members r).*1.
Proof. apply (bool_decide_unpack _); vm_compute; reflexivity. Qed.

Lemma record_of_syntax r : value_of_syntax (value r) = value r -> record_of (record_value r) = Some r.
Proof.
  intros Hv. unfold record_of, record_value. fold (record_members r).
  rewrite struct_fields_object by apply record_members_NoDup. unfold record_members. cbn [fmap list_fmap].
  find_member. cbn -[value_of_syntax]. rewrite Hv. by destruct r.
Qed.

Lemma record_of_value r :
  value_of_syntax (value r) = value r -> record_of (value_of_syntax (record_value r)) = Some r.
Proof.
  intros Hv. unfold record_of, record_value. fold (record_members r).
  rewrite struct_fields_read_back by apply record_members_NoDup. unfold record_members. cbn [fmap list_fmap].
  find_member. cbn -[value_of_syntax]. rewrite !Hv. by destruct r.
Qed.

Definition envelope_members (e : LocalDataStoreEnvelope) : list (string * Value) :=
  [("format", Str (format e)); ("classification", Str (classification_name (classification e)));
   ("digest", Str (digest e))]
  ++ some_member "record" record_value (record e)
  ++ some_member "record_key" Str (record_key e)
  ++ some_member "key_id" Str (key_id e)
  ++ some_member "nonce" Str (nonce e)
  ++ some_member "ciphertext" Str (ciphertext e)
  ++ some_member "retained_at" Str (retained_at e).

Lemma envelope_members_NoDup e : NoDup (envelope_members e).*1.
Proof.
  destruct e as [f c d [] [] [] [] [] []]; apply (bool_decide_unpack _); vm_compute; reflexivity.
Qed.

(** An envelope whose record can be written. *)
Definition envelope_ok (e : LocalDataStoreEnvelope) : Prop :=
  forall r, record e = Some r -> value_of_syntax (value r) = value r.

Lemma optional_str o : optional as_str (value_of_syntax <$> (Str <$> o)) = Some o.
Proof. by destruct o. Qed.

Lemma required_str (s : string) : required as_str (value_of_syntax <$> Some (Str s)) = Some s.
Proof. done. Qed.

Lemma required_classification c :
  required classification_of (value_of_syntax <$> Some (Str (classification_name c))) = Some c.
Proof. by destruct c. Qed.

Lemma optional_record o :
  (forall r, o = Some r -> value_of_syntax (value r) = value r) ->
  optional record_of (value_of_syntax <$> (record_value <$> o)) = Some o.
Proof.
  intros H. rewrite <- option_fmap_compose. apply optional_some. intros r Hr. split; [|done].
  by apply record_of_value, H.
Qed.

Lemma envelope_of_value e :
  envelope_ok e -> envelope_of (value_of_syntax (envelope_value e)) = Some e.
Proof.
  intros Hok. unfold envelope_of, envelope_value. fold (envelope_members e).
  rewrite struct_fields_read_back by apply envelope_members_NoDup. unfold envelope_members.
  rewrite <- (app_nil_r (some_member "retained_at" Str (retained_at e))). cbn [fmap list_fmap app].
  find_member. cbn [mbind option_bind].
  rewrite !required_str, required_classification. cbn [mbind option_bind].
  rewrite (optional_record _ Hok). cbn [mbind option_bind].
  do 5 (rewrite optional_str; cbn [mbind option_bind]). by destruct e.
Qed.

(** *** Printable *)

(** An envelope made of valid text. *)
Record writable (e : LocalDataStoreEnvelope) : Prop := {
  writable_format : valid_string (format e) = true;
  writable_digest : valid_string (digest e) = true;
  writable_record r : record e = Some r -> storable r;
  writable_record_key s : record_key e = Some s -> valid_string s = true;
  writable_key_id s : key_id e = Some s -> valid_string s = true;
  writable_nonce s : nonce e = Some s -> valid_string s = true;
  writable_ciphertext s : ciphertext e = Some s -> valid_string s = true;
  writable_retained_at s : retained_at e = Some s -> valid_string s = true }.

Definition printable_member (m : string * Value) : bool := valid_string m.1 && representable m.2.

Lemma representable_object members : representable (Object members) = forallb printable_member members.
Proof. done. Qed.

Lemma printable_some {A} name (f : A -> Value) o :
  valid_string name = true -> (forall a, o = Some a -> representable (f a) = true) ->
  forallb printable_member (some_member name f o) = true.
Proof.
  intros Hn Hf. destruct o as [a|]; [|done]. cbn -[valid_string]. unfold printable_member. cbn -[valid_string].
  by rewrite Hn, (Hf a eq_refl).
Qed.

Lemma representable_record r : storable r -> representable (record_value r) = true.
Proof.
  intros (Hk & Hw & Hc & Hv & _). cbn -[valid_string N.leb]. rewrite Hk, Hw, Hv.
  rewrite (proj2 (N.leb_le _ _) Hc). done.
Qed.

Lemma representable_envelope e : writable e -> representable (envelope_value e) = true.
Proof.
  intros H. change (forallb printable_member (envelope_members e) = true). unfold envelope_members.
  rewrite !forallb_app, !andb_true_iff. split_and!;
    try (apply printable_some; [done|]; apply H).
  - unfold printable_member. cbn -[valid_string].
    rewrite (writable_format _ H), (writable_digest _ H). by destruct (classification e).
  - apply printable_some; [done|]. intros r Hr. by apply representable_record, H.
Qed.

Lemma nesting_record r : nesting (record_value r) = S (nesting (value r)).
Proof. cbn. lia. Qed.

Lemma nesting_envelope e :
  writable e -> nesting (envelope_value e) + 1 <= MAX_NESTING.
Proof.
  intros H. destruct e as [f c d r rk ki n ct ra]. pose proof (writable_record _ H) as Hr. cbn in Hr.
  unfold MAX_NESTING. destruct r as [r|].
  - specialize (Hr r eq_refl). destruct Hr as (_ & _ & _ & _ & Hn & _). unfold MAX_NESTING in Hn.
    destruct rk, ki, n, ct, ra; cbn -[Nat.max]; rewrite ?Nat.max_0_r, ?Nat.max_0_l; cbn; lia.
  - destruct rk, ki, n, ct, ra; cbn; lia.
Qed.

(** *** The two versions of the envelope *)

Section text.
Context `{SerdeLaws} `{StoreCrypto}.

Definition v2_members (e : LocalDataStoreV2Envelope) : list (string * Value) :=
  [("format", Str (v2_format e)); ("format_version", Num (PosInt (format_version e)));
   ("schema_version", Num (PosInt (v2_schema_version e)));
   ("payload_integrity", Str (payload_integrity e));
   ("integrity", integrity_value (integrity e));
   ("encryption_disclosure", Str (encryption_disclosure e));
   ("payload", envelope_value (payload e))].

Lemma v2_members_NoDup e : NoDup (v2_members e).*1.
Proof. apply (bool_decide_unpack _); vm_compute; reflexivity. Qed.

Lemma integrity_of_value i : integrity_of (value_of_syntax (integrity_value i)) = Some i.
Proof.
  unfold integrity_of, integrity_value.
  rewrite struct_fields_read_back by (apply (bool_decide_unpack _); vm_compute; reflexivity).
  cbn [fmap list_fmap]. find_member. by destruct i.
Qed.

Lemma v2_envelope_of_value p :
  envelope_ok p -> v2_envelope_of (value_of_syntax (v2_envelope_value (v2_envelope p))) = Some (v2_envelope p).
Proof.
  intros Hok. set (e := v2_envelope p). unfold v2_envelope_of, v2_envelope_value. fold (v2_members e).
  rewrite struct_fields_read_back by apply v2_members_NoDup. unfold v2_members.
  cbn [fmap list_fmap]. find_member. cbn [mbind option_bind]. rewrite !required_str.
  change (required as_u32 (value_of_syntax <$> Some (Num (PosInt (format_version e))))) with (Some 2%N).
  change (required as_u32 (value_of_syntax <$> Some (Num (PosInt (v2_schema_version e))))) with (Some 1%N).
  cbn [mbind option_bind required fmap option_fmap option_map].
  rewrite integrity_of_value. cbn [mbind option_bind]. by rewrite envelope_of_value.
Qed.

Lemma decode_v2_written p :
  envelope_ok p -> format p = LOCAL_DATA_STORE_FORMAT ->
  decode_v2_envelope (value_of_syntax (v2_envelope_value (v2_envelope p))) = Ok p.
Proof.
  intros Hok Hf. unfold decode_v2_envelope. rewrite v2_envelope_of_value by done. cbn [ok_or mbind Result_bind].
  unfold v2_envelope. cbn [v2_format format_version v2_schema_version payload_integrity integrity algorithm
    content_digest encryption_disclosure payload].
  rewrite !bool_decide_eq_true_2 by done. destruct (classification p); cbn; by rewrite Hf.
Qed.
Lemma writable_ok e : writable e -> envelope_ok e.
Proof. intros Hw r Hr. by apply (writable_record _ Hw) in Hr as (_ & _ & _ & _ & _ & ?). Qed.

Lemma representable_v2 p : writable p -> representable (v2_envelope_value (v2_envelope p)) = true.
Proof.
  intros Hw. unfold v2_envelope_value. cbn -[valid_string representable envelope_value digest_bytes N.leb integrity_value].
  unfold integrity_value. cbn -[valid_string envelope_value digest_bytes N.leb].
  rewrite !digest_bytes_valid. rewrite (representable_envelope _ Hw). by destruct (classification p).
Qed.

Lemma nesting_v2 p : writable p -> nesting (v2_envelope_value (v2_envelope p)) <= MAX_NESTING.
Proof.
  intros Hw. pose proof (nesting_envelope _ Hw) as Hn. unfold v2_envelope_value.
  cbn -[envelope_value Nat.max MAX_NESTING]. rewrite ?Nat.max_0_r, ?Nat.max_0_l.
  unfold MAX_NESTING in *. destruct (nesting (envelope_value p)) as [|n] eqn:E; cbn; lia.
Qed.

(** The document that [decode_file] interprets: its envelope. *)
Definition decode_document (s : LocalFileDataStore) (requested_key : string) (e : LocalDataStoreEnvelope)
    : Result DataStoreError (option StateRecord) :=
  match classification e with
  | Public =>
      r ← ok_or (record e) (integrity_error "malformed_envelope");
      _ ← ensure (match key_id e, nonce e, ciphertext e, record_key e with
                  | None, None, None, None => true | _, _, _, _ => false end)
            (integrity_error "malformed_envelope");
      _ ← ensure (bool_decide (digest e = digest_for_record r)) (integrity_error "digest_mismatch");
      Ok (Some r)
  | Private => decrypt_private_envelope s requested_key e
  end.

Lemma get_envelope_format e :
  get "format" (value_of_syntax (envelope_value e)) = Some (Str (format e)).
Proof. unfold envelope_value. fold (envelope_members e). by rewrite get_read_back by apply envelope_members_NoDup. Qed.

Lemma get_v2_format e :
  get "format" (value_of_syntax (v2_envelope_value e)) = Some (Str (v2_format e)).
Proof. unfold v2_envelope_value. fold (v2_members e). by rewrite get_read_back by apply v2_members_NoDup. Qed.

Lemma decode_file_written s k v2 e :
  writable e -> format e = LOCAL_DATA_STORE_FORMAT ->
  valid_utf8 (envelope_text v2 e) = true /\ decode_file s k (envelope_text v2 e) = decode_document s k e.
Proof.
  intros Hw Hf. pose proof (writable_ok _ Hw) as Hok. pose proof (nesting_envelope _ Hw) as Hn.
  unfold envelope_text, decode_file, decode_document. destruct v2.
  - split; [by apply print_utf8, representable_v2|].
    rewrite from_slice_printed by (by apply representable_v2 || by apply nesting_v2).
    cbn [map_err mbind Result_bind]. rewrite !get_v2_format.
    cbn -[decode_v2_envelope v2_envelope_value value_of_syntax]. by rewrite decode_v2_written.
  - split; [by apply print_utf8, representable_envelope|].
    rewrite from_slice_printed by (by apply representable_envelope || lia).
    cbn [map_err mbind Result_bind]. rewrite !get_envelope_format, Hf.
    cbn -[envelope_value value_of_syntax envelope_of]. by rewrite envelope_of_value.
Qed.

(** What the write of a record puts into its envelope decodes to the record. *)
Definition provider_ok (s : LocalFileDataStore) : Prop :=
  forall p id, key_provider s = Some p -> active_key_id p = Ok id -> valid_string id = true.

Definition stamp_ok (s : LocalFileDataStore) : Prop :=
  forall t, write_retained_at s = Some t -> valid_string t = true.

Lemma nonce_length `{!CryptoLaws} n : length (fresh_aes_nonce n) = 12.
Proof. unfold fresh_aes_nonce. by rewrite length_take, uuid_length. Qed.

Lemma envelope_for_written `{!CryptoLaws} s n r e :
  storable r -> provider_ok s -> stamp_ok s -> envelope_for s (fresh_aes_nonce n) r = Ok e ->
  writable e /\ format e = LOCAL_DATA_STORE_FORMAT /\
  forall s', key_provider s' = key_provider s -> decode_document s' (key r) e = Ok (Some r).
Proof.
  intros Hr Hp Hs. unfold envelope_for. destruct (store_classification s).
  - intros [= <-]. split_and!; [|done|].
    + constructor; cbn; try done; [apply digest_bytes_valid|by intros ? [= <-]].
    + intros s' _. unfold decode_document. cbn -[digest_for_record]. by rewrite bool_decide_eq_true_2 by done.
  - unfold encrypt_private_record, required_key_provider. intros He.
    destruct (key_provider s) as [p|] eqn:Hkp; [|done]. cbn [ok_or mbind Result_bind] in He.
    apply bind_ok_inv in He as (kid & Hkid%map_err_ok & He).
    apply bind_ok_inv in He as (k & Hk%map_err_ok & He).
    apply bind_ok_inv in He as (ct & Hct%ok_or_ok_inv & [= <-]). split_and!; [|done|].
    + destruct Hr as (Hkey & _). constructor; cbn; try done; try (by intros ? [= <-]).
      * apply digest_bytes_valid.
      * intros ? [= <-]. by apply (Hp p).
      * intros ? [= <-]. apply ascii_valid, hex_ascii.
      * intros ? [= <-]. apply ascii_valid, hex_ascii.
    + intros s' Hs'. unfold decode_document, decrypt_private_envelope, required_key_provider.
      cbn [classification record record_key key_id nonce ciphertext digest]. rewrite Hs'.
      do 2 (cbn [ok_or ensure mbind Result_bind]; rewrite bool_decide_eq_true_2 by done).
      cbn [ok_or ensure mbind Result_bind]. rewrite Hk. cbn [map_err mbind Result_bind].
      rewrite !hex_roundtrip. cbn [mbind Result_bind]. rewrite nonce_length. cbn [Nat.eqb ensure mbind Result_bind].
      rewrite (aes_roundtrip _ _ _ _ _ Hct). cbn -[record_from_slice record_value].
      unfold record_from_slice. destruct Hr as (Hr1 & Hr2 & Hr3 & Hr4 & Hr5 & Hr6).
      rewrite parse_print; [|by apply representable_record|rewrite nesting_record; lia].
      rewrite record_of_syntax by done. cbn. by rewrite bool_decide_eq_true_2 by done.
Qed.
End text.

(** * The local file store implements the adapter interface

    Whatever file system call fails, the directory holds one readable record per
    key; a write replaces a record or leaves it, and temporary files are never
    seen.  [LocalFileDataStore] is therefore an instance of [DataStoreLaws], so
    what is proved of synchronisation holds for it. *)
(** ** File names *)

Lemma last_dot_app a b : last_dot b = None -> last_dot (a +:+ "." +:+ b) = Some (a, b).
Proof.
  intros Hb. induction a as [|c a IH].
  - change (last_dot (String "."%char b) = Some ("", b)). cbn [last_dot]. by rewrite Hb.
  - change (last_dot (String c (a +:+ "." +:+ b)) = Some (String c a, b)). cbn [last_dot]. by rewrite IH.
Qed.

Lemma last_dot_inv name before after :
  last_dot name = Some (before, after) -> name = before +:+ "." +:+ after.
Proof.
  revert before. induction name as [|c name IH]; intros before; cbn [last_dot]; [done|].
  destruct (last_dot name) as [[b a]|].
  - intros [= <- <-]. change (String c name = String c (b +:+ "." +:+ a)). f_equal. by apply IH.
  - case_bool_decide; [|done]. intros [= <- <-]. by subst.
Qed.

Lemma listed_file_name k : k <> "" -> listed_key (file_name k) = Some k.
Proof.
  intros Hk. unfold listed_key, split_extension, file_name.
  change (k +:+ ".json") with (k +:+ "." +:+ "json"). rewrite last_dot_app by done. by destruct k.
Qed.

Lemma listed_key_inv name k : listed_key name = Some k -> name = file_name k /\ k <> "".
Proof.
  unfold listed_key, split_extension. destruct (last_dot name) as [[b a]|] eqn:E; [|done].
  apply last_dot_inv in E. destruct b as [|c b]; [done|]. case_bool_decide; [|done]. intros [= <-]. by subst.
Qed.

Lemma file_name_inj k k' : k <> "" -> k' <> "" -> file_name k = file_name k' -> k = k'.
Proof.
  intros Hk Hk' H. apply (f_equal listed_key) in H. rewrite !listed_file_name in H by done. by injection H.
Qed.

Lemma temporary_not_listed s k : listed_key (temporary_path_for_key s k) = None.
Proof.
  unfold temporary_path_for_key.
  assert (("." +:+ k +:+ "." +:+ u64_to_string (process_id s) +:+ ".tmp")
          = ("." +:+ k +:+ "." +:+ u64_to_string (process_id s)) +:+ "." +:+ "tmp") as ->
    by by rewrite !string_app_assoc.
  unfold listed_key, split_extension. by rewrite last_dot_app.
Qed.

Section local.
Context `{SerdeLaws} `{StoreCrypto} `{!CryptoLaws}.

(** ** The invariant and the view *)

(** Every listed file holds the record of its key. *)
Definition files_ok (s : LocalFileDataStore) : Prop :=
  forall name b k, files s !! name = Some b -> listed_key name = Some k ->
    validate_key k = Ok tt /\ valid_utf8 b = true /\
    exists r, decode_file s k b = Ok (Some r) /\ key r = k /\ storable r.

Definition local_ok (s : LocalFileDataStore) : Prop := provider_ok s /\ stamp_ok s /\ files_ok s.

Definition local_view (s : LocalFileDataStore) (k : string) : option StateRecord :=
  if is_ok (validate_key k) then
    b ← files s !! file_name k;
    match decode_file s k b with Ok o => o | Err _ => None end
  else None.

Definition same_settings (s s' : LocalFileDataStore) : Prop :=
  key_provider s' = key_provider s /\ write_retained_at s' = write_retained_at s.

Lemma decode_file_settings s s' k b : key_provider s' = key_provider s -> decode_file s' k b = decode_file s k b.
Proof. intros Hp. unfold decode_file, decrypt_private_envelope, required_key_provider. by rewrite Hp. Qed.

Lemma settings_ok s s' : same_settings s s' -> provider_ok s -> stamp_ok s -> provider_ok s' /\ stamp_ok s'.
Proof. intros [Hp Ht] ? ?. unfold provider_ok, stamp_ok. by rewrite Hp, Ht. Qed.

(** Operations that leave the listed files alone. *)
Lemma frame_files s s' :
  local_ok s -> same_settings s s' ->
  (forall name k, listed_key name = Some k -> files s' !! name = files s !! name) ->
  local_ok s' /\ forall k, local_view s' k = local_view s k.
Proof.
  intros (Hp & Ht & Hf) Hset Hsame. destruct (settings_ok _ _ Hset Hp Ht). destruct Hset as [Hkp _].
  split; [split_and!; [done..|]|].
  - intros name b k Hb Hk. rewrite (Hsame _ _ Hk) in Hb. rewrite (decode_file_settings s) by done. by eapply Hf.
  - intros k. unfold local_view. destruct (validate_key k) as [[]|e] eqn:Hk; [|done]. cbn [is_ok].
    apply validate_key_ok in Hk as [Hne _]. rewrite (Hsame _ k) by by apply listed_file_name.
    destruct (files s !! file_name k); [|done]. cbn. by rewrite (decode_file_settings s).
Qed.

(** Setting the file of one key, or removing it. *)
Lemma set_file s s' k o r :
  local_ok s -> same_settings s s' -> validate_key k = Ok tt ->
  files s' !! file_name k = o ->
  (forall name k', listed_key name = Some k' -> name <> file_name k -> files s' !! name = files s !! name) ->
  match o with
  | Some b => valid_utf8 b = true /\ decode_file s k b = Ok r /\
              exists x, r = Some x /\ key x = k /\ storable x
  | None => r = None
  end ->
  local_ok s' /\ forall k', local_view s' k' = set_at k r (local_view s) k'.
Proof.
  intros (Hp & Ht & Hf) Hset Hk Ho Hsame Hr. destruct (settings_ok _ _ Hset Hp Ht). destruct Hset as [Hkp _].
  apply validate_key_ok in Hk as Hne. destruct Hne as [Hne _]. split; [split_and!; [done..|]|].
  - intros name b k' Hb Hk'. rewrite (decode_file_settings s) by done.
    destruct (decide (name = file_name k)) as [->|Hn].
    + rewrite listed_file_name in Hk' by done. injection Hk' as <-. rewrite Hb in Ho. subst o.
      destruct Hr as (? & ? & x & -> & ? & ?). split_and!; [done..|]. by exists x.
    + rewrite (Hsame _ _ Hk' Hn) in Hb. by eapply Hf.
  - intros k'. unfold local_view, set_at. destruct (decide (k' = k)) as [->|Hkk].
    + rewrite Hk. cbn [is_ok]. rewrite Ho. destruct o as [b|]; [|by subst r]. cbn [mbind option_bind].
      rewrite (decode_file_settings s) by done. by destruct Hr as (_ & -> & _).
    + destruct (validate_key k') as [[]|e] eqn:Hv; [|done]. cbn [is_ok].
      apply validate_key_ok in Hv as [Hne' _].
      rewrite (Hsame _ k'); [|by apply listed_file_name|intros E; by apply file_name_inj in E].
      destruct (files s !! file_name k'); [|done]. cbn. by rewrite (decode_file_settings s).
Qed.
(** ** The operations *)

Lemma local_view_key s k r : local_ok s -> local_view s k = Some r -> key r = k /\ storable r.
Proof.
  intros (_ & _ & Hf) Hv. unfold local_view in Hv. destruct (validate_key k) as [[]|e] eqn:Hk; [|done]. cbn [is_ok] in Hv.
  destruct (files s !! file_name k) as [b|] eqn:Hb; [|done]. cbn [mbind option_bind] in Hv.
  apply validate_key_ok in Hk as [Hne _].
  destruct (Hf _ _ k Hb) as (_ & _ & x & Hd & ? & ?); [by apply listed_file_name|]. rewrite Hd in Hv. by injection Hv as <-.
Qed.

Lemma local_read_law k s s' a :
  local_ok s -> local_read k s = (s', a) ->
  local_ok s' /\ (forall k', local_view s' k' = local_view s k') /\ (forall o, a = Ok o -> o = local_view s k).
Proof.
  intros Hs Hr. unfold local_read in Hr. destruct (next_outcome s) as [oc s1] eqn:Hno. injection Hno as <- Hs1.
  assert (s' = s1) as -> by (repeat case_match; by injection Hr).
  destruct (frame_files s s1) as [Hok Hv]; [done|by subst s1|by subst s1|]. split; [done|]. split; [done|].
  intros o ->. unfold local_view, path_for_key in *. destruct (validate_key k) as [[]|e] eqn:Hk; [|done]. cbn [is_ok].
  cbn [mbind Result_bind] in Hr. replace (files s1) with (files s) in Hr by by subst s1.
  destruct (files s !! file_name k) as [b|]; [|by injection Hr]. cbn [mbind option_bind].
  assert (decode_file s1 k b = decode_file s k b) as Hd by (apply decode_file_settings; by subst s1).
  rewrite Hd in Hr. repeat case_match; naive_solver.
Qed.

Lemma local_delete_law k s s' a :
  local_ok s -> local_delete k s = (s', a) ->
  local_ok s' /\
  ((forall k', local_view s' k' = set_at k None (local_view s) k') \/
   (forall k', local_view s' k' = local_view s k') /\ is_ok a = false).
Proof.
  intros Hs Hr. unfold local_delete in Hr. destruct (next_outcome s) as [oc s1] eqn:Hno. injection Hno as <- Hs1.
  destruct (frame_files s s1) as [Hok Hv]; [done|by subst s1|by subst s1|].
  unfold path_for_key in Hr. destruct (validate_key k) as [[]|e] eqn:Hk; cbn [mbind Result_bind] in Hr.
  2: { injection Hr as <- <-. auto. }
  assert (forall s2, s2 = set_files (delete (file_name k) (files s1)) s1 ->
    local_ok s2 /\ forall k', local_view s2 k' = set_at k None (local_view s) k') as Hdel.
  { intros s2 ->. subst s1. apply (set_file s _ k None); [done|done|done| | |done].
    - cbn. apply lookup_delete_eq.
    - intros name k' _ Hne. cbn. by rewrite lookup_delete_ne. }
  destruct (files s1 !! file_name k) as [b|] eqn:Hb.
  - destruct (fault _) as [[]|]; injection Hr as <- <-; try (destruct (Hdel _ eq_refl); by auto).
  - injection Hr as <- <-. split; [done|]. left. intros k'. rewrite Hv. unfold set_at. case_decide; [subst|done].
    unfold local_view. rewrite Hk. cbn [is_ok]. cbn in Hb. by rewrite Hb.
Qed.

Lemma local_list_law s s' a :
  local_ok s -> local_list_keys s = (s', a) ->
  local_ok s' /\ (forall k', local_view s' k' = local_view s k') /\
  (forall ks, a = Ok ks -> forall k, k ∈ ks <-> is_Some (local_view s k)).
Proof.
  intros Hs Hr. unfold local_list_keys in Hr. destruct (next_outcome s) as [oc s1] eqn:Hno. injection Hno as <- Hs1.
  assert (s' = s1) as -> by (repeat case_match; by injection Hr).
  destruct (frame_files s s1) as [Hok Hv]; [done|by subst s1|by subst s1|]. split; [done|]. split; [done|].
  intros ks -> k.
  assert (ks = merge_sort String.le (omap listed_key (map_to_list (files s)).*1)) as -> by (repeat case_match; naive_solver).
  rewrite merge_sort_Permutation, list_elem_of_omap. destruct Hs as (_ & _ & Hf). split.
  - intros (name & Hin & Hk). apply list_elem_of_fmap in Hin as ([n b] & -> & Hin%elem_of_map_to_list). cbn in Hk.
    destruct (Hf _ _ _ Hin Hk) as (Hval & _ & r & Hd & _). apply listed_key_inv in Hk as [-> _].
    exists r. unfold local_view. rewrite Hval. cbn [is_ok]. rewrite Hin. cbn [mbind option_bind]. by rewrite Hd.
  - intros [r Hr']. unfold local_view in Hr'. destruct (validate_key k) as [[]|e] eqn:Hk; [|done]. cbn [is_ok] in Hr'.
    destruct (files s !! file_name k) as [b|] eqn:Hb; [|done]. apply validate_key_ok in Hk as [Hne _].
    exists (file_name k). split; [|by apply listed_file_name]. apply list_elem_of_fmap. exists (file_name k, b).
    split; [done|]. by apply elem_of_map_to_list.
Qed.
(** Whether the rename happened: only a later call can fail. *)
Definition renamed (oc : Outcome) : bool :=
  match fault oc with
  | Some (CreateFails _) | Some (WriteFails _ _) | Some (SyncFails _) | Some (RenameFails _) => false
  | _ => true
  end.

Lemma commit_files oc store_root temporary path content disk disk' result name :
  commit oc store_root temporary path content disk = (disk', result) -> name <> temporary ->
  discard_temporary_record oc temporary disk' !! name
  = (if renamed oc && bool_decide (name = path) then Some content else disk !! name) /\
  (is_ok result = true -> renamed oc = true) /\
  (renamed oc = true ->
   result = Ok tt \/ exists reason, result = Err (durability_error store_root "parent_directory" reason)).
Proof.
  intros Hc Hn. unfold commit, renamed, discard_temporary_record in *.
  destruct (fault oc) as [[]|]; injection Hc as <- <-; cbn [andb is_ok];
    (split; [|split; [done|by eauto]]); destruct (discard_fails oc); try case_bool_decide; subst;
    rewrite ?lookup_delete_ne, ?lookup_insert_ne, ?lookup_insert_eq by done; rewrite ?lookup_delete_ne by done; done.
Qed.

Lemma local_write_cases r s s' a :
  storable r -> local_ok s -> local_write r s = (s', a) ->
  local_ok s' /\
  ((forall k', local_view s' k' = set_at (key r) (Some r) (local_view s) k') /\
   (a = Ok tt \/ exists reason, a = Err (durability_error (root s) "parent_directory" reason)) \/
   (forall k', local_view s' k' = local_view s k') /\ is_ok a = false).
Proof.
  intros Hr Hs Hw. unfold local_write in Hw. destruct (next_outcome s) as [oc s1] eqn:Hno. injection Hno as <- Hs1.
  set (oc := default all_well (head (outcomes s))) in *.
  assert (same_settings s (set_drawn (S (drawn s1)) s1)) as Hset by by subst s1.
  destruct (frame_files s (set_drawn (S (drawn s1)) s1)) as [Hok Hv]; [done|done|by subst s1|].
  destruct (path_for_key (key r) ≫= _) as [[path content]|e] eqn:Hprep; [|injection Hw as <- <-; auto].
  unfold path_for_key in Hprep. destruct (validate_key (key r)) as [[]|e] eqn:Hk; [|done].
  cbn [mbind Result_bind] in Hprep.
  destruct (ensure_classification_unchanged s1 oc (file_name (key r))) as [v2|e]; [|done]. cbn [mbind Result_bind] in Hprep.
  destruct (envelope_for s1 _ r) as [e|] eqn:He; [|done]. injection Hprep as <- <-.
  destruct (commit oc _ _ _ _ _) as [disk result] eqn:Hc. injection Hw as <- <-.
  set (tmp := temporary_path_for_key (set_drawn (S (drawn s1)) s1) (key r)) in *.
  assert (forall name k', listed_key name = Some k' -> name <> tmp) as Htmp.
  { intros name k' Hn ->. unfold tmp in Hn. by rewrite temporary_not_listed in Hn. }
  assert (provider_ok s1 /\ stamp_ok s1) as [Hp1 Ht1]
    by (destruct Hs as (? & ? & _); by apply (settings_ok s); [subst s1|..]).
  destruct (envelope_for_written s1 _ _ _ Hr Hp1 Ht1 He) as (Hwr & Hf & Hdec).
  destruct (renamed oc) eqn:Hren.
  - destruct (decode_file_written s (key r) v2 e Hwr Hf) as [Hutf Hdf].
    rewrite (Hdec s) in Hdf by by subst s1.
    apply validate_key_ok in Hk as Hne. destruct Hne as [Hne _].
    destruct (set_file s (set_files (discard_temporary_record oc tmp disk) (set_drawn (S (drawn s1)) s1))
      (key r) (Some (envelope_text v2 e)) (Some r)) as [Hok' Hv']; [done|by subst s1|done| | |eauto 10|].
    + cbn. destruct (commit_files _ _ _ _ _ _ _ _ (file_name (key r)) Hc) as (-> & _ & _);
        [by eapply Htmp, listed_file_name|]. by rewrite Hren, bool_decide_eq_true_2.
    + intros name k' Hn Hne'. cbn. destruct (commit_files _ _ _ _ _ _ _ _ name Hc) as (-> & _ & _); [by eapply Htmp|].
      rewrite Hren, bool_decide_eq_false_2 by done. by subst s1.
    + split; [done|]. left. split; [done|]. replace (root s) with (root s1) by by subst s1.
      eapply (commit_files _ _ _ _ _ _ _ _ (file_name (key r)) Hc); [by eapply Htmp, listed_file_name|done].
  - destruct (frame_files s (set_files (discard_temporary_record oc tmp disk) (set_drawn (S (drawn s1)) s1)))
      as [Hok' Hv']; [done|by subst s1| |].
    + intros name k' Hn. cbn. destruct (commit_files _ _ _ _ _ _ _ _ name Hc) as (-> & _ & _); [by eapply Htmp|].
      rewrite Hren. by subst s1.
    + split; [done|]. right. split; [done|].
      destruct (commit_files _ _ _ _ _ _ _ _ (file_name (key r)) Hc) as (_ & Hres & _).
      { eapply Htmp, listed_file_name. by apply validate_key_ok in Hk as [? _]. }
      destruct (is_ok result); [|done]. specialize (Hres eq_refl). congruence.
Qed.

Lemma local_write_law r s s' a :
  storable r -> local_ok s -> local_write r s = (s', a) ->
  local_ok s' /\
  ((forall k', local_view s' k' = set_at (key r) (Some r) (local_view s) k') \/
   (forall k', local_view s' k' = local_view s k') /\ is_ok a = false).
Proof. intros Hr Hs Hw. destruct (local_write_cases _ _ _ _ Hr Hs Hw) as [? [[? _]|?]]; auto. Qed.

#[export] Instance local_laws : DataStoreLaws LocalFileDataStore := {|
  store_ok := local_ok;
  view := local_view;
  view_key := local_view_key;
  read_law := local_read_law;
  write_law := local_write_law;
  delete_law := local_delete_law;
  list_law := local_list_law |}.
End local.

(** ** What the store guarantees *)

Section guarantees.
Context `{SerdeLaws} `{StoreCrypto} `{!CryptoLaws}.

(** A store that reads what another one wrote. *)
Lemma read_view s k : local_ok s -> outcomes s = [] -> validate_key k = Ok tt -> (local_read k s).2 = Ok (local_view s k).
Proof.
  intros (_ & _ & Hf) Ho Hk. unfold local_read, local_view, next_outcome, path_for_key. rewrite Ho, Hk. cbn.
  apply validate_key_ok in Hk as [Hne _].
  destruct (files s !! file_name k) as [b|] eqn:Hb; [|done]. cbn.
  destruct (Hf _ _ k Hb) as (_ & -> & x & Hd & _); [by apply listed_file_name|]. cbn.
  rewrite (decode_file_settings s) by done. by rewrite Hd.
Qed.
End guarantees.

(** C39: the local store refines a map from keys to records, whatever file system
    calls fail.  Over any sequence of operations the directory stays readable, a
    successful operation has the effect and the answer the map prescribes, and a
    failed one has all of its effect or none; temporary files are never listed or
    read.  The records written are nested no deeper than the parser reads. *)
Theorem local_store_refines `{SerdeLaws} `{StoreCrypto} `{!CryptoLaws} ops (s s' : LocalFileDataStore) results :
  local_ok s -> Forall op_storable ops -> run_ops ops s = (s', results) ->
  local_ok s' /\ map_run ops results (local_view s) (local_view s').
Proof. intros Hs Hops Hr. exact (run_ops_refines (H := local_laws) ops s s' results Hs Hops Hr). Qed.

(** A write replaces the record of its key as a whole or not at all, and
    touches no other key.  A write that reports success has stored the record; one
    that reports an error has left the previous record, except when the only call
    that failed is the last one, the flush of the directory: then the new record
    is already in place. *)
Theorem local_write_atomic `{SerdeLaws} `{StoreCrypto} `{!CryptoLaws} r (s s' : LocalFileDataStore) a :
  storable r -> local_ok s -> local_write r s = (s', a) ->
  (forall k, k <> key r -> local_view s' k = local_view s k) /\
  (a = Ok tt -> local_view s' (key r) = Some r) /\
  (forall e, a = Err e ->
     local_view s' (key r) = local_view s (key r) \/
     local_view s' (key r) = Some r /\ exists reason, e = durability_error (root s) "parent_directory" reason).
Proof.
  intros Hr Hs Hw. destruct (local_write_cases _ _ _ _ Hr Hs Hw) as [_ [[Hv Ha]|[Hv Ha]]].
  - assert (local_view s' (key r) = Some r) as Hnew by (rewrite Hv; unfold set_at; by rewrite decide_True).
    split_and!; [|done|].
    + intros k Hk. rewrite Hv. unfold set_at. by rewrite decide_False.
    + intros e ->. right. split; [done|]. destruct Ha as [[=]|[reason [= ->]]]. eauto.
  - split_and!; [auto|by intros ->|]. intros e _. by left.
Qed.

(** What is written can be read back, in this process or by a store opened
    later on the directory with the same key provider.  When no call fails, the
    record in place has the store's classification and the envelope can be built
    (a private record needs a key), a write succeeds, and a read of the key then
    returns exactly the record. *)
Theorem local_write_then_read `{SerdeLaws} `{StoreCrypto} `{!CryptoLaws} r (s : LocalFileDataStore) v2 e :
  local_ok s -> storable r -> validate_key (key r) = Ok tt -> outcomes s = [] ->
  ensure_classification_unchanged s all_well (file_name (key r)) = Ok v2 ->
  envelope_for s (fresh_aes_nonce (drawn s)) r = Ok e ->
  exists s', local_write r s = (s', Ok tt) /\
    forall s2, local_ok s2 -> files s2 = files s' -> key_provider s2 = key_provider s -> outcomes s2 = [] ->
      (local_read (key r) s2).2 = Ok (Some r).
Proof.
  intros Hs Hr Hk Ho Hc He. destruct (local_write r s) as [s' a] eqn:Hw. exists s'.
  assert (a = Ok tt) as ->.
  { unfold local_write, next_outcome, path_for_key in Hw. rewrite Ho, Hk in Hw. cbn in Hw.
    unfold ensure_classification_unchanged in Hc, Hw. cbn in Hc, Hw. rewrite Hc in Hw. cbn in Hw.
    unfold envelope_for, encrypt_private_record, required_key_provider in He, Hw. cbn in Hw. rewrite He in Hw.
    cbn in Hw. by injection Hw. }
  split; [done|]. intros s2 Hs2 Hf Hp Ho2. rewrite read_view by done.
  destruct (local_write_cases _ _ _ _ Hr Hs Hw) as [_ [[Hv _]|[_ ?]]]; [|done].
  specialize (Hv (key r)). unfold set_at in Hv. rewrite decide_True in Hv by done. rewrite <- Hv.
  unfold local_view. rewrite Hf. destruct (files s' !! file_name (key r)) as [b|]; [|done]. cbn.
  assert (key_provider s' = key_provider s) as Hp'
    by (unfold local_write in Hw; cbn in Hw; repeat case_match; by injection Hw as <- _).
  rewrite (decode_file_settings s') by congruence. done.
Qed.

(** The keys under which the state of a capability is kept contain a slash, which
    the local store does not accept: it cannot hold such state at all. *)
Theorem namespaced_write_fails_on_files `{SerdeJson} `{StoreCrypto} capability schema k v
    (s : RuntimeDataStore LocalFileDataStore) :
  is_ok (write_namespaced capability schema k v s).2 = false.
Proof.
  assert (forall n, is_ok (validate_key (namespaced_state_key capability n)) = false) as Hkey.
  { intros n. destruct (validate_key (namespaced_state_key capability n)) as [u|] eqn:Hk; [|done].
    apply validate_key_ok in Hk as [_ Hk]. unfold namespaced_state_key in Hk.
    change (String.list_ascii_of_string (capability +:+ "/" +:+ n)) with (text (capability +:+ "/" +:+ n)) in Hk.
    rewrite !bytes_app in Hk. apply Forall_app in Hk as [_ Hk]. apply Forall_app in Hk as [Hk _].
    change (text "/") with ["/"%char] in Hk. rewrite Forall_singleton in Hk. by apply key_char_ascii in Hk as (_ & _ & ?). }
  unfold write_namespaced, mbind, Eff_bind, lift.
  destruct (validate_relative_state_key k); [|done]. destruct (validate_state_write_for_schema _ _ _ _); [|done].
  unfold stamp_and_write, mbind, Eff_bind, on_snd, on_fst, current. cbn -[local_write namespaced_state_key].
  destruct (next s.2) as [c [n|e]]; [|done]. cbn -[local_write namespaced_state_key].
  unfold local_write, path_for_key. cbn -[namespaced_state_key validate_key].
  specialize (Hkey k). by destruct (validate_key (namespaced_state_key capability k)).
Qed.
