(* ===== verification/StoreSamples.v ===== *)
(** * A codec that satisfies the laws of serde

    A value is encoded as a tree, the tree as a number, and the number is written
    in binary digits. *)
From S2P Require Import Prelude Json Serde.
From Stdlib Require Import SpecFloat Ascii.

Abbreviation Leaf := (N + Z + (nat * bool * positive * Z) + string + bool)%type.

Definition float_leaf (f : spec_float) : nat * bool * positive * Z :=
  match f with
  | S754_zero s => (0, s, 1%positive, 0%Z)
  | S754_infinity s => (1, s, 1%positive, 0%Z)
  | S754_nan => (2, false, 1%positive, 0%Z)
  | S754_finite s m e => (3, s, m, e)
  end.

Definition leaf_float (l : nat * bool * positive * Z) : spec_float :=
  match l with
  | (0, s, _, _) => S754_zero s
  | (1, s, _, _) => S754_infinity s
  | (3, s, m, e) => S754_finite s m e
  | _ => S754_nan
  end.

Fixpoint value_tree (v : Value) : gen_tree Leaf :=
  match v with
  | Null => GenNode 0 []
  | Bool b => GenNode 1 [GenLeaf (inr b)]
  | Num (PosInt n) => GenNode 2 [GenLeaf (inl (inl (inl (inl n))))]
  | Num (NegInt z) => GenNode 3 [GenLeaf (inl (inl (inl (inr z))))]
  | Num (Float f) => GenNode 4 [GenLeaf (inl (inl (inr (float_leaf f))))]
  | Str s => GenNode 5 [GenLeaf (inl (inr s))]
  | Array items => GenNode 6 (value_tree <$> items)
  | Object members => GenNode 7 ((fun m => GenNode 0 [GenLeaf (inl (inr m.1)); value_tree m.2]) <$> members)
  end.

Fixpoint tree_value (t : gen_tree Leaf) : Value :=
  match t with
  | GenNode 1 [GenLeaf (inr b)] => Bool b
  | GenNode 2 [GenLeaf (inl (inl (inl (inl n))))] => Num (PosInt n)
  | GenNode 3 [GenLeaf (inl (inl (inl (inr z))))] => Num (NegInt z)
  | GenNode 4 [GenLeaf (inl (inl (inr l)))] => Num (Float (leaf_float l))
  | GenNode 5 [GenLeaf (inl (inr s))] => Str s
  | GenNode 6 items => Array (tree_value <$> items)
  | GenNode 7 members =>
      Object ((fun m => match m with
                        | GenNode _ [GenLeaf (inl (inr k)); v] => (k, tree_value v)
                        | _ => (""%string, Null)
                        end) <$> members)
  | _ => Null
  end.

Lemma tree_value_tree v : tree_value (value_tree v) = v.
Proof.
  induction v as [|b|[n|z|f]|s|items IH|members IH] using value_ind'; cbn; try done.
  - by destruct f.
  - f_equal. induction IH as [|x l Hx _ IH']; cbn; [done|]. by rewrite Hx, IH'.
  - f_equal. induction IH as [|[k x] l Hx _ IH']; cbn in *; [done|]. by rewrite Hx, IH'.
Qed.

Fixpoint bits (p : positive) : Bytes :=
  match p with xH => ["1"%char] | xO q => "0"%char :: bits q | xI q => "1"%char :: bits q end.

Fixpoint read_bits (b : Bytes) : option positive :=
  match b with
  | [] => None
  | [c] => if decide (c = "1"%char) then Some xH else None
  | c :: rest => (if decide (c = "1"%char) then xI else xO) <$> read_bits rest
  end.

Lemma read_bits_bits p : read_bits (bits p) = Some p.
Proof.
  induction p as [p IH|p IH|]; [| |done]; cbn [bits]; (destruct (bits p) as [|c r] eqn:E; [by destruct p|]);
    cbn [read_bits] in *; by rewrite IH.
Qed.

Lemma bits_ascii p : Forall (fun c => N_of_ascii c <= 127)%N (bits p).
Proof. induction p; cbn; repeat constructor; done. Qed.

#[export] Instance sample_serde : SerdeJson := {|
  parse_syntax b :=
    match read_bits b ≫= decode with
    | Some t => Ok (tree_value t)
    | None => Err "expected value at line 1 column 1"
    end;
  to_vec v := bits (encode (value_tree v)) |}.

#[export] Instance sample_serde_laws : SerdeLaws.
Proof.
  constructor.
  - intros v _ _. cbn -[encode decode]. rewrite read_bits_bits. cbn -[encode decode]. rewrite decode_encode.
    by rewrite tree_value_tree.
  - intros v _. apply bool_decide_eq_true_2, lossy_ascii_id; [apply bits_ascii|done].
Qed.

(** * Concrete runs of the data stores

    A cipher that satisfies the laws the stores rely on, and the inputs on which the
    theorems of the stores are applied. *)
From S2P Require Import Effect DataStore StoreSync LocalStore LocalStoreProps.
(** ** A cipher: the identity *)

#[export] Instance sample_crypto : StoreCrypto := {|
  sha256 b := take 32 b;
  aes_encrypt _ _ m _ := Some m;
  aes_decrypt _ _ c _ := Some c;
  uuid_bytes n := ascii_of_nat n :: replicate 15 "0"%char;
  usize_bytes := 8 |}.

#[export] Instance sample_crypto_laws : CryptoLaws.
Proof. constructor; [by intros k n m aad c [= <-]|done]. Qed.

(** ** Stores and records *)

Definition note : StateRecord :=
  {| key := "note"; value := Str "first"; lamport_clock := 1; writer_id := "phone" |}.
Definition note' : StateRecord :=
  {| key := "note"; value := Str "second"; lamport_clock := 2; writer_id := "phone" |}.

Lemma note_storable : storable note.
Proof. split_and!; vm_compute; first [done|lia]. Qed.

Lemma note'_storable : storable note'.
Proof. split_and!; vm_compute; first [done|lia]. Qed.

Definition vault (c : LocalDataClassification) (future : list Outcome) : LocalFileDataStore := {|
  root := "/data"; store_classification := c;
  key_provider := Some (in_memory_key_provider (new_key_provider "k1" (replicate 32 "0"%char)));
  write_retained_at := None; files := {[LOCAL_DATA_STORE_LOCK_FILE := []]}; process_id := 7; drawn := 0;
  outcomes := future |}.

Lemma vault_ok c future : local_ok (vault c future).
Proof.
  split_and!.
  - intros p id [= <-]. cbn. intros [= <-]. done.
  - by intros t [=].
  - intros name b k Hb Hk. cbn in Hb. apply lookup_singleton_Some in Hb as [<- _]. by vm_compute in Hk.
Qed.

Lemma local_write_then_read_witness :
  exists s', local_write note (vault Private []) = (s', Ok tt) /\ (local_read "note" s').2 = Ok (Some note).
Proof.
  destruct (local_write_then_read note (vault Private []) false _ (vault_ok _ _) note_storable eq_refl eq_refl
    eq_refl eq_refl) as (s' & Hw & Hread).
  exists s'. split; [done|]. destruct (local_write_law _ _ _ _ note_storable (vault_ok _ _) Hw) as [Hok _].
  assert (key_provider s' = key_provider (vault Private []) /\ outcomes s' = []) as [Hp Ho]
    by (cbn in Hw; by injection Hw as <-).
  by apply Hread.
Defined.

(** A store whose second write fails at the last step. *)
Definition flush_fails : Outcome := {| fault := Some (SyncRootFails "disk error"); discard_fails := false |}.
Definition rename_fails : Outcome := {| fault := Some (RenameFails "disk error"); discard_fails := true |}.

Lemma local_write_atomic_witness :
  let s := (local_write note (vault Public [all_well; flush_fails])).1 in
  is_ok (local_write note' s).2 = false /\ local_view (local_write note' s).1 "note" = Some note'.
Proof.
  set (s := (local_write note (vault Public [all_well; flush_fails])).1).
  assert (local_ok s) as Hs by (eapply (local_write_law note); [apply note_storable|apply vault_ok|apply surjective_pairing]).
  destruct (local_write note' s) as [s' a] eqn:Hw. cbn.
  destruct (local_write_atomic note' s s' a note'_storable Hs Hw) as (_ & _ & Herr).
  assert (exists e, a = Err e /\ error_code e = DurabilityCommitFailed) as (e & -> & Hcode).
  { vm_compute in Hw. injection Hw as _ <-. eexists. split; reflexivity. }
  split; [done|]. destruct (Herr e eq_refl) as [Hsame|[Hnew _]]; [|done].
  exfalso.
  assert (local_view s' "note" = Some note') as Hn by (vm_compute in Hw; injection Hw as <- _; by vm_compute).
  change (key note') with "note" in Hsame. rewrite Hn in Hsame. by vm_compute in Hsame.
Defined.

Lemma local_store_refines_witness :
  let '(s', results) := run_ops [OpWrite note; OpWrite note'; OpRead "note"; OpList]
                          (vault Public [all_well; rename_fails]) in
  local_ok s' /\ map_run [OpWrite note; OpWrite note'; OpRead "note"; OpList] results
                   (local_view (vault Public [all_well; rename_fails])) (local_view s').
Proof.
  destruct (run_ops _ _) as [s' results] eqn:Hr.
  apply (local_store_refines _ _ _ _ (vault_ok Public [all_well; rename_fails])); [|exact Hr].
  apply Forall_cons; split; [apply note_storable|]. apply Forall_cons; split; [apply note'_storable|]. by repeat constructor.
Defined.

(** A public file copied to the name of another key passes as that key's record:
    the key inside is not compared with the one requested. *)
Example moved_public_file_accepted :
  let s := (local_write note (vault Public [])).1 in
  let moved := set_files (match files s !! file_name "note" with
                          | Some b => <[file_name "other" := b]> (files s) | None => files s end) s in
  (local_read "other" moved).2 = Ok (Some note).
Proof. by vm_compute. Qed.
