(* ===== verification/RemoteStore.v ===== *)
(** * The remote key-value store and the write coordinator

    [crates/traverse-runtime/src/data_store_remote.rs]: an adapter over a backend
    the host provides, with conditional writes and evidence of every operation;
    [data_store_coordinator.rs]: the exclusive writer lease.  The backend is a
    class; its laws are those of a store with compare-and-set per key. *)
From S2P Require Import Prelude Effect Json Serde DataStore StoreSync LocalStore LocalStoreProps.

(** ** Data *)

Definition REMOTE_DATA_STORE_FORMAT : string := "remote-datastore/1".
Definition REMOTE_CONSISTENCY_MODE : string := "read-your-write".

Definition RemoteVersionToken : Type := string.

Record RemoteObject := {
  object_bytes : Bytes;
  version : RemoteVersionToken }.

Inductive RemoteBackendFailure := Unavailable | Timeout | Unauthorized | ScopeDenied | BackendFailed.

Inductive RemoteWriteOutcome :=
  | Acknowledged (retry_count : N)
  | Conflict
  | Unknown (retry_count : N)
  | Failed (failure : RemoteBackendFailure).

(** The trait [RemoteDataStoreBackend].  The backend may change between any two
    calls; a call returns the backend after it. *)
Class RemoteDataStoreBackend (B : Type) := {
  backend_get : string -> B -> B * Result RemoteBackendFailure (option RemoteObject);
  put_conditional : string -> Bytes -> option RemoteVersionToken -> B -> B * RemoteWriteOutcome;
  delete_conditional : string -> option RemoteVersionToken -> B -> B * RemoteWriteOutcome }.

Record RemoteOperationEvidence := {
  operation : string;
  outcome : string;
  evidence_classification : LocalDataClassification;
  consistency_mode : string;
  retry_count : N;
  code : option string }.

Record RemoteDataStoreEnvelope := {
  remote_format : string;
  remote_classification : LocalDataClassification;
  remote_digest : string;
  remote_record : StateRecord }.

Record RemoteKeyValueDataStore (B : Type) := {
  backend : B;
  remote_store_classification : LocalDataClassification;
  last_evidence : option RemoteOperationEvidence }.
Arguments backend {B}.
Arguments remote_store_classification {B}.
Arguments last_evidence {B}.

Definition remote_envelope_value (e : RemoteDataStoreEnvelope) : Value :=
  Object [("format", Str (remote_format e));
          ("classification", Str (classification_name (remote_classification e)));
          ("digest", Str (remote_digest e)); ("record", record_value (remote_record e))].

Definition remote_envelope_of (v : Value) : option RemoteDataStoreEnvelope :=
  fields ← struct_fields ["format"; "classification"; "digest"; "record"] v;
  match fields with
  | [f; c; d; r] =>
      f ← required as_str f;
      c ← required classification_of c;
      d ← required as_str d;
      r ← required record_of r;
      Some {| remote_format := f; remote_classification := c; remote_digest := d; remote_record := r |}
  | _ => None
  end.

(** ** Errors *)

Definition remote_failure_code (f : RemoteBackendFailure) : string :=
  match f with
  | Unavailable => "remote_unavailable"
  | Timeout => "remote_timeout"
  | Unauthorized => "remote_unauthorized"
  | ScopeDenied => "remote_scope_denied"
  | BackendFailed => "remote_backend_failed"
  end.

Definition remote_backend_error (f : RemoteBackendFailure) : DataStoreError :=
  data_store_error
    (match f with
     | Unavailable => RemoteUnavailable
     | Timeout => RemoteTimeout
     | Unauthorized => RemoteUnauthorized
     | ScopeDenied => RemoteScopeDenied
     | BackendFailed => RemoteBackendFailed
     end) (remote_failure_code f) (Object []).

Definition remote_conflict_error : DataStoreError := data_store_error RemoteConflict "remote_conflict" (Object []).

Definition remote_outcome_unknown_error (retries : N) : DataStoreError :=
  data_store_error RemoteOutcomeUnknown "remote_outcome_unknown" (obj [("retry_count", Num (PosInt retries))]).

Definition remote_integrity_error (reason : string) : DataStoreError :=
  data_store_error RemoteIntegrityFailed "remote_integrity_failed" (obj [("reason", Str reason)]).

(** ** The adapter *)

Section remote.
Context {B : Type} `{!RemoteDataStoreBackend B} `{SerdeJson} `{StoreCrypto}.

Definition new_remote_store (b : B) (c : LocalDataClassification) : RemoteKeyValueDataStore B :=
  {| backend := b; remote_store_classification := c; last_evidence := None |}.

Definition with_backend (b : B) (s : RemoteKeyValueDataStore B) : RemoteKeyValueDataStore B :=
  {| backend := b; remote_store_classification := remote_store_classification s; last_evidence := last_evidence s |}.

Definition record_evidence (op oc : string) (retries : N) (c : option string) (s : RemoteKeyValueDataStore B)
    : RemoteKeyValueDataStore B :=
  {| backend := backend s; remote_store_classification := remote_store_classification s;
     last_evidence := Some {| operation := op; outcome := oc;
                              evidence_classification := remote_store_classification s;
                              consistency_mode := REMOTE_CONSISTENCY_MODE; retry_count := retries; code := c |} |}.

Definition decode_envelope (s : RemoteKeyValueDataStore B) (b : Bytes) : Result DataStoreError StateRecord :=
  e ← ok_or (match parse_syntax b with Ok document => remote_envelope_of document | Err _ => None end)
        (remote_integrity_error "malformed_envelope");
  _ ← ensure (bool_decide (remote_format e = REMOTE_DATA_STORE_FORMAT))
        (remote_integrity_error "unknown_format_version");
  _ ← ensure (bool_decide (remote_classification e = remote_store_classification s))
        (remote_integrity_error "classification_mismatch");
  _ ← ensure (bool_decide (digest_for_record (remote_record e) = remote_digest e))
        (remote_integrity_error "digest_mismatch");
  Ok (remote_record e).

Definition current_version (op k : string) : Eff (RemoteKeyValueDataStore B) DataStoreError (option RemoteVersionToken) :=
  fun s =>
    let '(b, found) := backend_get k (backend s) in
    let s := with_backend b s in
    match found with
    | Ok object => (s, Ok (version <$> object))
    | Err failure =>
        (record_evidence op "failed" 0 (Some (remote_failure_code failure)) s, Err (remote_backend_error failure))
    end.

Definition handle_write_outcome (op : string) (result : RemoteWriteOutcome)
    : Eff (RemoteKeyValueDataStore B) DataStoreError unit := fun s =>
  match result with
  | Acknowledged retries => (record_evidence op "acknowledged" retries None s, Ok tt)
  | Conflict => (record_evidence op "conflict" 0 (Some "remote_conflict") s, Err remote_conflict_error)
  | Unknown retries =>
      (record_evidence op "outcome_unknown" retries (Some "remote_outcome_unknown") s,
       Err (remote_outcome_unknown_error retries))
  | Failed failure =>
      (record_evidence op "failed" 0 (Some (remote_failure_code failure)) s, Err (remote_backend_error failure))
  end.

Definition read_object (k : string) : Eff (RemoteKeyValueDataStore B) DataStoreError (option StateRecord) :=
  fun s =>
    let '(b, found) := backend_get k (backend s) in
    let s := with_backend b s in
    match found with
    | Ok None => (record_evidence "read" "not_found" 0 None s, Ok None)
    | Ok (Some object) =>
        match decode_envelope s (object_bytes object) with
        | Ok r => (record_evidence "read" "acknowledged" 0 None s, Ok (Some r))
        | Err e => (record_evidence "read" "integrity_failed" 0 (Some "remote_integrity_failed") s, Err e)
        end
    | Err failure =>
        (record_evidence "read" "failed" 0 (Some (remote_failure_code failure)) s, Err (remote_backend_error failure))
    end.

Definition remote_read (k : string) : Eff (RemoteKeyValueDataStore B) DataStoreError (option StateRecord) :=
  _ ← lift (validate_key k);
  read_object k.

Definition remote_envelope (s : RemoteKeyValueDataStore B) (r : StateRecord) : Bytes :=
  to_vec (remote_envelope_value
    {| remote_format := REMOTE_DATA_STORE_FORMAT; remote_classification := remote_store_classification s;
       remote_digest := digest_for_record r; remote_record := r |}).

(** Run a conditional call of the backend and report its outcome. *)
Definition conditional (op : string) (call : B -> B * RemoteWriteOutcome)
    : Eff (RemoteKeyValueDataStore B) DataStoreError unit := fun s =>
  let '(b, result) := call (backend s) in handle_write_outcome op result (with_backend b s).

Definition remote_write (r : StateRecord) : Eff (RemoteKeyValueDataStore B) DataStoreError unit :=
  _ ← lift (validate_key (key r));
  expected ← current_version "write" (key r);
  s ← current;
  conditional "write" (put_conditional (key r) (remote_envelope s r) expected).

Definition remote_delete (k : string) : Eff (RemoteKeyValueDataStore B) DataStoreError unit :=
  _ ← lift (validate_key k);
  expected ← current_version "delete" k;
  conditional "delete" (delete_conditional k expected).

Definition remote_list_keys : Eff (RemoteKeyValueDataStore B) DataStoreError (list string) := fun s =>
  (record_evidence "list_keys" "unsupported" 0 (Some "remote_backend_failed") s,
   Err (data_store_error RemoteBackendFailed "remote_backend_failed"
          (obj [("reason", Str "remote_scan_not_supported_in_v1")]))).

#[export] Instance remote_data_store : DataStore (RemoteKeyValueDataStore B) := {|
  ds_read := remote_read;
  ds_write := remote_write;
  ds_delete := remote_delete;
  ds_list_keys := remote_list_keys |}.
End remote.

(** ** The coordinator *)

Record CoordinatorState := {
  generation : N;
  coordinator_owner : option string;
  poisoned : bool }.

Definition new_coordinator : CoordinatorState := {| generation := 0; coordinator_owner := None; poisoned := false |}.

Inductive DataStoreCoordinatorError := OwnerLocked | CoordinatorUnavailable.

Definition acquire (owner : string) : Eff CoordinatorState DataStoreCoordinatorError N := fun s =>
  if poisoned s then (s, Err CoordinatorUnavailable)
  else match coordinator_owner s with
  | Some _ => (s, Err OwnerLocked)
  | None =>
      if (generation s <? u64_max)%N
      then ({| generation := generation s + 1; coordinator_owner := Some owner; poisoned := poisoned s |},
            Ok (generation s + 1)%N)
      else (s, Err CoordinatorUnavailable)
  end.

Definition holds (owner : string) (g : N) (s : CoordinatorState) : bool :=
  bool_decide (coordinator_owner s = Some owner) && (generation s =? g)%N.

Definition validate (owner : string) (g : N) (s : CoordinatorState) : Result DataStoreCoordinatorError unit :=
  if poisoned s then Err CoordinatorUnavailable else if holds owner g s then Ok tt else Err OwnerLocked.

Definition release (owner : string) (g : N) : Eff CoordinatorState DataStoreCoordinatorError unit := fun s =>
  if poisoned s then (s, Err CoordinatorUnavailable)
  else if negb (holds owner g s) then (s, Err OwnerLocked)
  else ({| generation := generation s; coordinator_owner := None; poisoned := poisoned s |}, Ok tt).

(** * Properties of the remote store and of the coordinator *)
From S2P Require Import StoreSyncProps StoreSamples.
(** ** The backend

    One object per key.  A conditional call is acknowledged only when the expected
    version is the current one; an unknown outcome may have happened or not. *)
Definition set_object (k : string) (o : option RemoteObject) (f : string -> option RemoteObject)
    : string -> option RemoteObject := fun k' => if decide (k' = k) then o else f k'.

Class BackendLaws (B : Type) `{!RemoteDataStoreBackend B} := {
  objects : B -> string -> option RemoteObject;
  get_law k (b b' : B) a : backend_get k b = (b', a) ->
    (forall k', objects b' k' = objects b k') /\ (forall o, a = Ok o -> o = objects b k);
  put_law k bytes expected (b b' : B) a : put_conditional k bytes expected b = (b', a) ->
    let written := exists v, forall k', objects b' k' = set_object k (Some {| object_bytes := bytes; version := v |}) (objects b) k' in
    let unchanged := forall k', objects b' k' = objects b k' in
    match a with
    | Acknowledged _ => version <$> objects b k = expected /\ written
    | Unknown _ => written \/ unchanged
    | Conflict | Failed _ => unchanged
    end;
  remove_law k expected (b b' : B) a : delete_conditional k expected b = (b', a) ->
    let removed := forall k', objects b' k' = set_object k None (objects b) k' in
    let unchanged := forall k', objects b' k' = objects b k' in
    match a with
    | Acknowledged _ => version <$> objects b k = expected /\ removed
    | Unknown _ => removed \/ unchanged
    | Conflict | Failed _ => unchanged
    end }.

Section remote.
Context {B : Type} `{BackendLaws B} `{SerdeLaws} `{StoreCrypto} `{!CryptoLaws}.

(** ** Envelopes *)

Lemma remote_envelope_decodes (s : RemoteKeyValueDataStore B) r :
  storable r -> decode_envelope s (remote_envelope s r) = Ok r.
Proof.
  intros Hr. pose proof (representable_record _ Hr) as Hrep. destruct Hr as (_ & _ & _ & _ & Hn & Hv).
  unfold decode_envelope, remote_envelope, remote_envelope_value.
  rewrite parse_print.
  - unfold remote_envelope_of.
    rewrite struct_fields_object by (apply (bool_decide_unpack _); vm_compute; reflexivity).
    cbn [remote_format remote_classification remote_digest remote_record fmap list_fmap]. find_member.
    cbn [mbind option_bind required as_str]. 
    assert (classification_of (Str (classification_name (remote_store_classification s)))
            = Some (remote_store_classification s)) as -> by by destruct (remote_store_classification s).
    cbn [mbind option_bind]. rewrite record_of_syntax by done.
    cbn [mbind option_bind ok_or Result_bind remote_format remote_classification remote_digest remote_record].
    do 3 (rewrite bool_decide_eq_true_2 by done; cbn [ensure mbind Result_bind]). done.
  - cbn [remote_format remote_classification remote_digest remote_record].
    rewrite representable_object. cbn [forallb]. unfold printable_member. cbn [fst snd].
    rewrite Hrep. change (representable (Str (digest_for_record r))) with (valid_string (digest_for_record r)).
    unfold digest_for_record at 1. rewrite digest_bytes_valid. by destruct (remote_store_classification s).
  - cbn [remote_format remote_classification remote_digest remote_record].
    pose proof (nesting_record r) as Hnr. cbn -[record_value Nat.max MAX_NESTING]. rewrite Hnr.
    unfold MAX_NESTING in *. cbn. lia.
Qed.
(** ** Invariant and view *)

Definition remote_ok (s : RemoteKeyValueDataStore B) : Prop :=
  forall k o, objects (backend s) k = Some o ->
    exists r, decode_envelope s (object_bytes o) = Ok r /\ key r = k /\ storable r.

Definition remote_view (s : RemoteKeyValueDataStore B) (k : string) : option StateRecord :=
  o ← objects (backend s) k;
  match decode_envelope s (object_bytes o) with Ok r => Some r | Err _ => None end.

Definition same_class (s s' : RemoteKeyValueDataStore B) : Prop :=
  remote_store_classification s' = remote_store_classification s.

Lemma decode_envelope_class s s' b : same_class s s' -> decode_envelope s' b = decode_envelope s b.
Proof. intros Hc. unfold decode_envelope. by rewrite Hc. Qed.

Lemma remote_view_key s k r : remote_ok s -> remote_view s k = Some r -> key r = k /\ storable r.
Proof.
  intros Hs Hv. unfold remote_view in Hv. destruct (objects (backend s) k) as [o|] eqn:Ho; [|done]. cbn in Hv.
  destruct (Hs _ _ Ho) as (r' & Hd & ? & ?). rewrite Hd in Hv. by injection Hv as <-.
Qed.

(** States whose objects are the same, or differ at one key. *)
Lemma same_objects s s' :
  remote_ok s -> same_class s s' -> (forall k, objects (backend s') k = objects (backend s) k) ->
  remote_ok s' /\ forall k, remote_view s' k = remote_view s k.
Proof.
  intros Hs Hc Ho. split.
  - intros k o Hk. rewrite Ho in Hk. rewrite (decode_envelope_class s) by done. by apply Hs.
  - intros k. unfold remote_view. rewrite Ho. destruct (objects (backend s) k); [|done]. cbn.
    by rewrite (decode_envelope_class s).
Qed.

Lemma changed_object s s' k o r :
  remote_ok s -> same_class s s' ->
  (forall k', objects (backend s') k' = set_object k o (objects (backend s)) k') ->
  match o with
  | Some x => exists y, r = Some y /\ decode_envelope s (object_bytes x) = Ok y /\ key y = k /\ storable y
  | None => r = None
  end ->
  remote_ok s' /\ forall k', remote_view s' k' = set_at k r (remote_view s) k'.
Proof.
  intros Hs Hc Ho Hr. unfold set_object in Ho. split.
  - intros k' x Hx. rewrite Ho in Hx. rewrite (decode_envelope_class s) by done.
    case_decide; [subst k' o|by apply Hs]. destruct Hr as (y & _ & ? & ? & ?). eauto.
  - intros k'. unfold remote_view, set_at. rewrite Ho. case_decide; [subst k'|].
    + destruct o as [x|]; cbn; [|by subst r]. rewrite (decode_envelope_class s) by done.
      by destruct Hr as (y & -> & -> & _).
    + destruct (objects (backend s) k'); [|done]. cbn. by rewrite (decode_envelope_class s).
Qed.

(** ** Operations *)

(** The evidence of the last operation. *)
Definition evidence_is (s : RemoteKeyValueDataStore B) (op oc : string) (c : option string) : Prop :=
  exists e, last_evidence s = Some e /\ operation e = op /\ outcome e = oc /\ code e = c /\
    evidence_classification e = remote_store_classification s.

Lemma remote_read_spec k s s' a :
  remote_ok s -> remote_read k s = (s', a) ->
  remote_ok s' /\ (forall k', remote_view s' k' = remote_view s k') /\
  (forall o, a = Ok o -> o = remote_view s k).
Proof.
  intros Hs Hr. unfold remote_read, mbind, Eff_bind, lift in Hr.
  destruct (validate_key k) as [[]|e]; [|injection Hr as <- <-; naive_solver].
  unfold read_object in Hr. destruct (backend_get k (backend s)) as [b found] eqn:Hg.
  apply get_law in Hg as [Hsame Hfound].
  assert (forall op oc c n, let s1 := record_evidence op oc n c (with_backend b s) in
    remote_ok s1 /\ forall k', remote_view s1 k' = remote_view s k') as Hframe
    by (intros; by apply same_objects).
  destruct found as [[o|]|f].
  - rewrite (decode_envelope_class s) in Hr by done.
    destruct (decode_envelope s (object_bytes o)) as [r|e] eqn:Hd; injection Hr as <- <-;
      (split; [apply Hframe|]); (split; [apply Hframe|]); intros ? [= <-].
    unfold remote_view. rewrite <- (Hfound _ eq_refl). cbn. by rewrite Hd.
  - injection Hr as <- <-. split; [apply Hframe|]. split; [apply Hframe|]. intros ? [= <-].
    unfold remote_view. by rewrite <- (Hfound _ eq_refl).
  - injection Hr as <- <-. split; [apply Hframe|]. split; [apply Hframe|]. naive_solver.
Qed.

Lemma current_version_spec op k s s' a :
  remote_ok s -> current_version op k s = (s', a) ->
  remote_ok s' /\ (forall k', remote_view s' k' = remote_view s k') /\ same_class s s' /\
  (forall v, a = Ok v -> v = version <$> objects (backend s') k) /\
  (forall e, a = Err e -> evidence_is s' op "failed" (Some (error_message e)) /\ error_code e <> RemoteOutcomeUnknown).
Proof.
  intros Hs Hr. unfold current_version in Hr. destruct (backend_get k (backend s)) as [b found] eqn:Hg.
  apply get_law in Hg as [Hsame Hfound]. destruct found as [o|f]; injection Hr as <- <-;
    (edestruct (same_objects s) as [Hok Hv]; [done| | |split_and!; [exact Hok|exact Hv|done|..]]); try done.
  - intros v [= <-]. cbn. by rewrite (Hfound _ eq_refl), Hsame.
  - intros e [= <-]. split; [|by destruct f]. eexists. by split_and!.
Qed.
(** What an operation [op] that should leave [new] at [k] reports: its effect, its
    result and its evidence agree. *)
Definition reported (op k : string) (new : option StateRecord) (s s' : RemoteKeyValueDataStore B)
    (a : Result DataStoreError unit) : Prop :=
  remote_ok s' /\ (forall k', k' <> k -> remote_view s' k' = remote_view s k') /\
  match a with
  | Ok _ => remote_view s' k = new /\ evidence_is s' op "acknowledged" None
  | Err e =>
      (error_code e = InvalidKey /\ s' = s) \/
      (error_code e = RemoteOutcomeUnknown /\ evidence_is s' op "outcome_unknown" (Some "remote_outcome_unknown") /\
       (remote_view s' k = new \/ remote_view s' k = remote_view s k)) \/
      (error_code e <> RemoteOutcomeUnknown /\ remote_view s' k = remote_view s k /\
       exists oc, evidence_is s' op oc (Some (error_message e)))
  end.

(** The part of a write and of a delete that follows reading the version. *)
Lemma conditional_reported op k o new (s0 s s' : RemoteKeyValueDataStore B) call a :
  remote_ok s -> (forall k', remote_view s k' = remote_view s0 k') ->
  (forall b b' oc, b = backend s -> call b = (b', oc) ->
     match oc with
     | Acknowledged _ => exists x, o x /\ forall k', objects b' k' = set_object k x (objects b) k'
     | Unknown _ => (exists x, o x /\ forall k', objects b' k' = set_object k x (objects b) k') \/
                    forall k', objects b' k' = objects b k'
     | Conflict | Failed _ => forall k', objects b' k' = objects b k'
     end) ->
  (forall x, o x -> match x with
     | Some y => exists z, new = Some z /\ decode_envelope s (object_bytes y) = Ok z /\ key z = k /\ storable z
     | None => new = None end) ->
  conditional op call s = (s', a) -> reported op k new s0 s' a.
Proof.
  intros Hs Hv0 Hcall Ho Hr. unfold conditional in Hr. destruct (call (backend s)) as [b oc] eqn:Hc.
  specialize (Hcall _ _ _ eq_refl Hc). unfold handle_write_outcome in Hr.
  assert (forall s1, s1 = s' -> same_class s s1 -> backend s1 = b ->
    (exists x, o x /\ forall k', objects b k' = set_object k x (objects (backend s)) k') ->
    remote_ok s1 /\ (forall k', k' <> k -> remote_view s1 k' = remote_view s0 k') /\ remote_view s1 k = new) as Hdone.
  { intros s1 _ Hcl Hb (x & Hx & Hobj). destruct (changed_object s s1 k x new Hs Hcl) as [Hok Hv];
      [by rewrite Hb|by apply Ho|]. split; [done|]. unfold set_at in Hv. split.
    - intros k' Hk. by rewrite Hv, decide_False, Hv0.
    - by rewrite Hv, decide_True. }
  assert (forall s1, s1 = s' -> same_class s s1 -> backend s1 = b -> (forall k', objects b k' = objects (backend s) k') ->
    remote_ok s1 /\ (forall k', remote_view s1 k' = remote_view s0 k')) as Hsame.
  { intros s1 _ Hcl Hb Hobj. destruct (same_objects s s1 Hs Hcl) as [Hok Hv]; [by rewrite Hb|].
    split; [done|]. intros k'. by rewrite Hv. }
  unfold reported. destruct oc as [n| |n|f]; injection Hr as Hs' <-.
  - destruct (Hdone s' eq_refl) as (? & ? & ?); [by subst s'|by subst s'|done|]. split_and!; [done..|].
    subst s'. eexists. by split_and!.
  - destruct (Hsame s' eq_refl) as [? ?]; [by subst s'|by subst s'|done|]. split_and!; [done|auto|]. right. right.
    split_and!; [done|auto|]. exists "conflict". subst s'. eexists. by split_and!.
  - assert (evidence_is s' op "outcome_unknown" (Some "remote_outcome_unknown")) as Hev
      by (subst s'; eexists; by split_and!).
    destruct Hcall as [Hw|Hu].
    + destruct (Hdone s' eq_refl) as (? & ? & ?); [by subst s'|by subst s'|done|]. split_and!; [done..|]. right. left. auto.
    + destruct (Hsame s' eq_refl) as [? ?]; [by subst s'|by subst s'|done|]. split_and!; [done|auto|]. right. left. auto.
  - destruct (Hsame s' eq_refl) as [? ?]; [by subst s'|by subst s'|done|]. split_and!; [done|auto|]. right. right.
    split_and!; [by destruct f|auto|]. exists "failed". subst s'. eexists. by split_and!.
Qed.

Lemma invalid_key_reported op k new s s' e a :
  remote_ok s -> validate_key k = Err e -> (s, Err e) = (s', a) -> reported op k new s s' a.
Proof.
  intros Hs Hk [= <- <-]. split_and!; [done..|]. left. split; [|done].
  unfold validate_key in Hk. case_match; by simplify_eq.
Qed.

Lemma version_failed_reported op k new s s1 e :
  remote_ok s -> current_version op k s = (s1, Err e) -> reported op k new s s1 (Err e).
Proof.
  intros Hs Hc. apply current_version_spec in Hc as (? & Hv & _ & _ & He); [|done].
  destruct (He e eq_refl) as [? ?]. split_and!; [done|auto|]. right. right. split_and!; eauto.
Qed.

Lemma remote_write_reported r s s' a :
  storable r -> remote_ok s -> remote_write r s = (s', a) -> reported "write" (key r) (Some r) s s' a.
Proof.
  intros Hr Hs Hw. unfold remote_write, mbind, Eff_bind, lift in Hw.
  destruct (validate_key (key r)) as [[]|e] eqn:Hk; [|by eapply invalid_key_reported].
  destruct (current_version "write" (key r) s) as [s1 [v|e]] eqn:Hc.
  2: { injection Hw as <- <-. by apply version_failed_reported. }
  apply current_version_spec in Hc as (Hs1 & Hv1 & _ & _ & _); [|done]. cbn in Hw.
  eapply (conditional_reported "write" (key r) (fun x => exists ver,
    x = Some {| object_bytes := remote_envelope s1 r; version := ver |})); [exact Hs1|exact Hv1| | |exact Hw].
  - intros b b' oc -> Hp. apply put_law in Hp. destruct oc; cbn in Hp; [|done| |done].
    + destruct Hp as (_ & ver & Hp). eauto.
    + destruct Hp as [(ver & Hp)|Hp]; eauto.
  - intros x (ver & ->). exists r. split_and!; [done| |done..]. by apply remote_envelope_decodes.
Qed.

Lemma remote_delete_reported k s s' a :
  remote_ok s -> remote_delete k s = (s', a) -> reported "delete" k None s s' a.
Proof.
  intros Hs Hw. unfold remote_delete, mbind, Eff_bind, lift in Hw.
  destruct (validate_key k) as [[]|e] eqn:Hk; [|by eapply invalid_key_reported].
  destruct (current_version "delete" k s) as [s1 [v|e]] eqn:Hc.
  2: { injection Hw as <- <-. by apply version_failed_reported. }
  apply current_version_spec in Hc as (Hs1 & Hv1 & _ & _ & _); [|done].
  eapply (conditional_reported "delete" k (fun x => x = None)); [exact Hs1|exact Hv1| | |exact Hw].
  - intros b b' oc -> Hp. apply remove_law in Hp. destruct oc; cbn in Hp; [|done| |done].
    + destruct Hp as (_ & Hp). eauto.
    + destruct Hp as [Hp|Hp]; eauto.
  - by intros x ->.
Qed.
Lemma reported_effect op k new s s' a :
  reported op k new s s' a ->
  remote_ok s' /\
  ((forall k', remote_view s' k' = set_at k new (remote_view s) k') \/
   (forall k', remote_view s' k' = remote_view s k') /\ is_ok a = false).
Proof.
  intros (Hok & Hother & Ha). split; [done|].
  assert (remote_view s' k = new -> forall k', remote_view s' k' = set_at k new (remote_view s) k') as Hnew
    by (intros ? k'; unfold set_at; case_decide; subst; auto).
  assert (remote_view s' k = remote_view s k -> forall k', remote_view s' k' = remote_view s k') as Hold
    by (intros ? k'; destruct (decide (k' = k)); subst; auto).
  destruct a as [[]|e]; [left; apply Hnew; by destruct Ha|].
  destruct Ha as [[_ ->]|[(_ & _ & [?|?])|(_ & ? & _)]]; auto.
Qed.

Lemma remote_list_spec s s' a :
  remote_ok s -> remote_list_keys s = (s', a) ->
  remote_ok s' /\ (forall k', remote_view s' k' = remote_view s k') /\
  (forall ks, a = Ok ks -> forall k, k ∈ ks <-> is_Some (remote_view s k)).
Proof. intros Hs [= <- <-]. destruct (same_objects s (remote_list_keys s).1) as [? ?]; done. Qed.

#[export] Instance remote_laws : DataStoreLaws (RemoteKeyValueDataStore B) := {|
  store_ok := remote_ok;
  view := remote_view;
  view_key := remote_view_key;
  read_law := remote_read_spec;
  write_law r s s' a Hr Hs Hw := reported_effect _ _ _ _ _ _ (remote_write_reported r s s' a Hr Hs Hw);
  delete_law k s s' a Hs Hd := reported_effect _ _ _ _ _ _ (remote_delete_reported k s s' a Hs Hd);
  list_law := remote_list_spec |}.
End remote.

(** C40: what the remote store reports is what happened.  A write or delete is
    reported as done only when the backend acknowledged it, and the record is then
    there or gone; an ambiguous outcome is reported as [remote_outcome_unknown],
    never as success; every other error means that nothing changed.  The evidence
    left names the operation, the outcome and the code of the error returned, and
    a key that is not valid reaches neither the backend nor the evidence.  No other writer
    intervenes between a read and the conditional call after it ([BackendLaws]). *)
Theorem remote_reports_what_happened {B} `{BackendLaws B} `{SerdeLaws} `{StoreCrypto} `{!CryptoLaws}
    (s s' : RemoteKeyValueDataStore B) :
  remote_ok s ->
  (forall r a, storable r -> remote_write r s = (s', a) -> reported "write" (key r) (Some r) s s' a) /\
  (forall k a, remote_delete k s = (s', a) -> reported "delete" k None s s' a) /\
  (forall k o, remote_read k s = (s', Ok o) -> o = remote_view s k).
Proof.
  intros Hs. split_and!.
  - intros r a Hr Hw. by apply remote_write_reported.
  - intros k a Hd. by apply remote_delete_reported.
  - intros k o Hr. apply remote_read_spec in Hr as (_ & _ & Ho); [by apply Ho|done].
Qed.

(** A store that cannot list its keys cannot be synchronised: the local side is
    left alone. *)
Theorem remote_store_never_syncs {L B} `{DataStoreLaws L} `{BackendLaws B} `{SerdeLaws} `{StoreCrypto} `{!CryptoLaws}
    (l l' : L) (r r' : RemoteKeyValueDataStore B) a :
  store_ok l -> sync_adapters (l, r) = ((l', r'), a) ->
  is_ok a = false /\ store_ok l' /\ forall k, view l' k = view l k.
Proof.
  intros Hl Hs. unfold sync_adapters, mbind, Eff_bind, on_fst, on_snd in Hs. cbn -[remote_list_keys] in Hs.
  destruct (ds_list_keys l) as [l1 ls] eqn:Hls. destruct (list_law _ _ _ Hl Hls) as (? & ? & _).
  destruct ls; cbn in Hs; injection Hs as <- <- <-; done.
Qed.

(** ** A backend *)

(** A map of objects whose versions are counted, and the outcome that the next
    conditional call is to have, when it is not decided by the version. *)
Record MemoryBackend := {
  stored : gmap string RemoteObject;
  writes : nat;
  lost_replies : list bool }.

Definition put_object (k : string) (o : option RemoteObject) (b : MemoryBackend) : MemoryBackend :=
  {| stored := match o with Some x => <[k := x]> (stored b) | None => delete k (stored b) end;
     writes := S (writes b); lost_replies := tail (lost_replies b) |}.

Definition answer (b : MemoryBackend) : RemoteWriteOutcome :=
  if default false (head (lost_replies b)) then Unknown 1 else Acknowledged 0.

#[export] Instance memory_backend : RemoteDataStoreBackend MemoryBackend := {|
  backend_get k b := (b, Ok (stored b !! k));
  put_conditional k bytes expected b :=
    if decide (version <$> stored b !! k = expected)
    then (put_object k (Some {| object_bytes := bytes; version := pretty (writes b) |}) b, answer b)
    else (b, Conflict);
  delete_conditional k expected b :=
    if decide (version <$> stored b !! k = expected) then (put_object k None b, answer b) else (b, Conflict) |}.

#[export] Program Instance memory_backend_laws : BackendLaws MemoryBackend := {|
  objects b k := stored b !! k |}.
Next Obligation. intros k b b' a [= <- <-]. naive_solver. Qed.
Next Obligation.
  intros k bytes expected b b' a. cbn. unfold answer. case_decide as Hv; intros [= <- <-]; [|done].
  assert (exists v, forall k', stored (put_object k (Some {| object_bytes := bytes; version := pretty (writes b) |}) b) !! k' =
    set_object k (Some {| object_bytes := bytes; version := v |}) (fun k0 => stored b !! k0) k') as Hw.
  { exists (pretty (writes b)). intros k'. unfold set_object. cbn. case_decide; [subst; by rewrite lookup_insert_eq|].
    by rewrite lookup_insert_ne. }
  destruct (default false (head (lost_replies b))); auto.
Qed.
Next Obligation.
  intros k expected b b' a. cbn. unfold answer. case_decide as Hv; intros [= <- <-]; [|done].
  assert (forall k', stored (put_object k None b) !! k' = set_object k None (fun k0 => stored b !! k0) k') as Hw.
  { intros k'. unfold set_object. cbn. case_decide; [subst; by rewrite lookup_delete_eq|]. by rewrite lookup_delete_ne. }
  destruct (default false (head (lost_replies b))); auto.
Qed.

Definition empty_backend (replies : list bool) : RemoteKeyValueDataStore MemoryBackend :=
  new_remote_store {| stored := ∅; writes := 0; lost_replies := replies |} Public.

Lemma empty_backend_ok replies : remote_ok (empty_backend replies).
Proof. intros k o Ho. cbn in Ho. by rewrite lookup_empty in Ho. Qed.

(** The reply to the write is lost: the record is there, the caller is not told. *)
Lemma remote_reports_what_happened_witness :
  let '(s', a) := remote_write note (empty_backend [true]) in
  a = Err (remote_outcome_unknown_error 1) /\ reported "write" "note" (Some note) (empty_backend [true]) s' a /\
  remote_view s' "note" = Some note.
Proof.
  destruct (remote_write note (empty_backend [true])) as [s' a] eqn:Hw.
  destruct (remote_reports_what_happened (empty_backend [true]) s' (empty_backend_ok _)) as (Hwrite & _ & _).
  specialize (Hwrite note a note_storable Hw). split_and!; [|exact Hwrite|].
  - vm_compute in Hw. by injection Hw as _ <-.
  - vm_compute in Hw. injection Hw as <- _. by vm_compute.
Defined.

(** ** The coordinator *)

Inductive coordinator_step : CoordinatorState -> CoordinatorState -> Prop :=
  | step_acquire owner s : coordinator_step s (acquire owner s).1
  | step_release owner g s : coordinator_step s (release owner g s).1.

Lemma generation_mono s s' : rtc coordinator_step s s' -> (generation s <= generation s')%N.
Proof.
  induction 1 as [|s s1 s2 Hstep _ IH]; [done|]. etrans; [|exact IH].
  destruct Hstep; unfold acquire, release; repeat case_match; cbn; lia.
Qed.

Lemma acquire_ok owner s s' g :
  acquire owner s = (s', Ok g) ->
  g = (generation s + 1)%N /\ generation s' = g /\ coordinator_owner s = None /\ coordinator_owner s' = Some owner /\
  poisoned s' = false /\ (g <= u64_max)%N.
Proof.
  unfold acquire. destruct (poisoned s) eqn:Hp; [done|]. destruct (coordinator_owner s); [done|].
  destruct (N.ltb_spec (generation s) u64_max); [|done]. intros [= <- <-]. cbn. split_and!; [done..|lia].
Qed.

(** The writer lease is exclusive and fenced.  A granted lease is valid for its
    owner and for no one else; while it is held nobody else acquires one; and once
    a later lease was granted, the earlier one is never valid again and can release
    nothing. *)
Theorem lease_fenced owner owner' s0 s1 s2 s3 s4 g g' :
  acquire owner s0 = (s1, Ok g) -> rtc coordinator_step s1 s2 ->
  acquire owner' s2 = (s3, Ok g') -> rtc coordinator_step s3 s4 ->
  validate owner g s1 = Ok tt /\ (forall o h, validate o h s1 = Ok tt -> o = owner /\ h = g) /\
  (forall o, is_ok (acquire o s1).2 = false) /\
  (g < g')%N /\ validate owner g s4 <> Ok tt /\ (release owner g s4).1 = s4.
Proof.
  intros H1 Hr1 H2 Hr2. apply acquire_ok in H1 as (_ & Hg1 & _ & Ho1 & Hp1 & _).
  apply acquire_ok in H2 as (Hg' & Hg3 & _ & _ & _ & _).
  apply generation_mono in Hr1, Hr2. assert (g < g')%N as Hlt by lia.
  assert (holds owner g s4 = false) as Hno.
  { unfold holds. destruct (N.eqb_spec (generation s4) g); [lia|]. by rewrite andb_false_r. }
  unfold validate, release, acquire. rewrite Hno, Hp1, Ho1. split_and!.
  - unfold holds. rewrite Ho1, Hg1, N.eqb_refl, bool_decide_eq_true_2 by done. done.
  - intros o h. unfold holds. rewrite Ho1. destruct (bool_decide_reflect (Some owner = Some o)) as [[= ->]|]; [|done].
    destruct (N.eqb_spec (generation s1) h); [|done]. by subst.
  - done.
  - done.
  - by destruct (poisoned s4).
  - by destruct (poisoned s4).
Qed.
