(* ===== verification/Lifecycle.v ===== *)
(** * The state machine of a runtime request

    The emitter of [crates/traverse-runtime/src/lib.rs]: states, reasons, the table
    of allowed transitions, the numbered events and transition records, and the
    validation evidence.  The invariant [emitter_ok] says that what an emitter has
    recorded is one walk through the table. *)
From S2P Require Import Prelude Json.

(** ** Data *)

Inductive RuntimeState :=
  | Idle | LoadingRegistry | Ready | Discovering | EvaluatingConstraints | Selecting
  | Executing | EmittingEvents | Completed | Error.

#[export] Instance RuntimeState_eq_dec : EqDecision RuntimeState.
Proof. solve_decision. Defined.

Inductive RuntimeTransitionReasonCode :=
  | RuntimeInitializationStarted | RegistryLoaded | RegistryLoadFailed | RequestStarted
  | CandidatesCollected | NoMatch | ConstraintsEvaluated | ConstraintValidationFailed
  | CandidateSelected | SelectionFailed | ExecutionSucceededWithEvents | ExecutionSucceeded
  | ExecutionFailed | EventsEmitted | EventEmissionFailed | ExecutionClosed.

Record RuntimeStateEvent := {
  rse_kind : string;
  rse_schema_version : string;
  rse_event_id : string;
  rse_execution_id : string;
  rse_request_id : string;
  rse_state : RuntimeState;
  rse_entered_at : string;
  rse_details : Value }.

Record RuntimeTransitionRecord := {
  from_state : RuntimeState;
  to_state : RuntimeState;
  reason_code : RuntimeTransitionReasonCode;
  occurred_at : string;
  transition_request_id : option string;
  transition_execution_id : option string;
  transition_details : option Value }.

Inductive RuntimeStateMachineValidationStatus := Passed | Failed.

Record RuntimeStateMachineValidationEvidence := {
  validation_kind : string;
  validation_schema_version : string;
  validation_governing_spec : string;
  validated_at : string;
  validation_status : RuntimeStateMachineValidationStatus;
  checked_states : list RuntimeState;
  checked_transitions : list string;
  validation_violations : list Value }.

Record StateEmitter := {
  emitter_execution_id : string;
  emitter_request_id : string;
  next_second : N;
  next_event_index : N;
  current_state : RuntimeState;
  events : list RuntimeStateEvent;
  transitions : list RuntimeTransitionRecord;
  violations : list Value }.

Record FinishedStateMachineArtifacts := {
  finished_events : list RuntimeStateEvent;
  finished_transitions : list RuntimeTransitionRecord;
  finished_validation : RuntimeStateMachineValidationEvidence }.

Definition RUNTIME_STATE_EVENT_KIND : string := "runtime_state_event".
Definition RUNTIME_STATE_MACHINE_VALIDATION_KIND : string := "runtime_state_machine_validation".
Definition SUPPORTED_SCHEMA_VERSION : string := "1.0.0".
Definition STATE_MACHINE_GOVERNING_SPEC : string := "010-runtime-state-machine".

(** ** Operations *)

Definition is_allowed_transition (from to : RuntimeState) (reason : RuntimeTransitionReasonCode) : bool :=
  match from, to, reason with
  | Idle, LoadingRegistry, RuntimeInitializationStarted
  | LoadingRegistry, Ready, RegistryLoaded
  | LoadingRegistry, Error, RegistryLoadFailed
  | Ready, Discovering, RequestStarted
  | Discovering, EvaluatingConstraints, CandidatesCollected
  | Discovering, Error, NoMatch
  | EvaluatingConstraints, Selecting, ConstraintsEvaluated
  | EvaluatingConstraints, Error, ConstraintValidationFailed
  | Selecting, Executing, CandidateSelected
  | Selecting, Error, SelectionFailed
  | Executing, EmittingEvents, ExecutionSucceededWithEvents
  | Executing, Completed, ExecutionSucceeded
  | Executing, Error, ExecutionFailed
  | EmittingEvents, Completed, EventsEmitted
  | EmittingEvents, Error, EventEmissionFailed
  | (Completed | Error), Ready, ExecutionClosed => true
  | _, _, _ => false
  end.

Definition runtime_state_name (state : RuntimeState) : string :=
  match state with
  | Idle => "idle"
  | LoadingRegistry => "loading_registry"
  | Ready => "ready"
  | Discovering => "discovering"
  | EvaluatingConstraints => "evaluating_constraints"
  | Selecting => "selecting"
  | Executing => "executing"
  | EmittingEvents => "emitting_events"
  | Completed => "completed"
  | Error => "error"
  end.

(** [serde(rename_all = "snake_case")] *)
Definition reason_name (reason : RuntimeTransitionReasonCode) : string :=
  match reason with
  | RuntimeInitializationStarted => "runtime_initialization_started"
  | RegistryLoaded => "registry_loaded"
  | RegistryLoadFailed => "registry_load_failed"
  | RequestStarted => "request_started"
  | CandidatesCollected => "candidates_collected"
  | NoMatch => "no_match"
  | ConstraintsEvaluated => "constraints_evaluated"
  | ConstraintValidationFailed => "constraint_validation_failed"
  | CandidateSelected => "candidate_selected"
  | SelectionFailed => "selection_failed"
  | ExecutionSucceededWithEvents => "execution_succeeded_with_events"
  | ExecutionSucceeded => "execution_succeeded"
  | ExecutionFailed => "execution_failed"
  | EventsEmitted => "events_emitted"
  | EventEmissionFailed => "event_emission_failed"
  | ExecutionClosed => "execution_closed"
  end.

(** [{:0width}] *)
Definition padded (width : nat) (n : N) : string :=
  let digits := u64_to_string n in zeros (width - String.length digits) +:+ digits.

Definition timestamp (second : N) : string := "1970-01-01T00:00:" +:+ padded 2 second +:+ "Z".

Definition detail_object (details : Value) : list (string * Value) :=
  match details with
  | Object members => members
  | other => [("value", other)]
  end.

(** [StateEmitter::new] *)
Definition new_emitter (execution_id request_id : string) : StateEmitter := {|
  emitter_execution_id := execution_id; emitter_request_id := request_id; next_second := 0;
  next_event_index := 0; current_state := Idle; events := []; transitions := []; violations := [] |}.

(** The timestamp handed out and the emitter one second later. *)
Definition next_timestamp (em : StateEmitter) : StateEmitter * string :=
  ({| emitter_execution_id := emitter_execution_id em; emitter_request_id := emitter_request_id em;
      next_second := (next_second em + 1)%N; next_event_index := next_event_index em;
      current_state := current_state em; events := events em; transitions := transitions em;
      violations := violations em |},
   timestamp (next_second em)).

Definition unexpected_transition (from to : RuntimeState) (reason : RuntimeTransitionReasonCode) : Value :=
  obj [("from_state", Str (runtime_state_name from)); ("to_state", Str (runtime_state_name to));
       ("reason_code", Str (reason_name reason)); ("message", Str "unexpected runtime state transition")].

Definition try_push (em : StateEmitter) (state : RuntimeState) (reason : RuntimeTransitionReasonCode)
    (details : Value) : StateEmitter * bool :=
  let from := current_state em in
  if is_allowed_transition from state reason then
    let '(em, entered_at) := next_timestamp em in
    let event_details :=
      Object (map_insert "transition_reason" (Str (reason_name reason)) (detail_object details)) in
    let event := {|
      rse_kind := RUNTIME_STATE_EVENT_KIND; rse_schema_version := SUPPORTED_SCHEMA_VERSION;
      rse_event_id := "rse_" +:+ emitter_execution_id em +:+ "_" +:+ padded 4 (next_event_index em);
      rse_execution_id := emitter_execution_id em; rse_request_id := emitter_request_id em;
      rse_state := state; rse_entered_at := entered_at; rse_details := event_details |} in
    let transition := {|
      from_state := from; to_state := state; reason_code := reason; occurred_at := entered_at;
      transition_request_id := Some (emitter_request_id em);
      transition_execution_id := Some (emitter_execution_id em);
      transition_details := Some event_details |} in
    ({| emitter_execution_id := emitter_execution_id em; emitter_request_id := emitter_request_id em;
        next_second := next_second em; next_event_index := (next_event_index em + 1)%N;
        current_state := state; events := events em ++ [event];
        transitions := transitions em ++ [transition]; violations := violations em |}, true)
  else
    ({| emitter_execution_id := emitter_execution_id em; emitter_request_id := emitter_request_id em;
        next_second := next_second em; next_event_index := next_event_index em;
        current_state := from; events := events em; transitions := transitions em;
        violations := violations em ++ [unexpected_transition from state reason] |}, false).

(** [push] in a release build: the assertion that the transition is allowed is a
    [debug_assert!]. *)
Definition push (em : StateEmitter) (state : RuntimeState) (reason : RuntimeTransitionReasonCode)
    (details : Value) : StateEmitter :=
  (try_push em state reason details).1.

Definition finish (em : StateEmitter) : FinishedStateMachineArtifacts := {|
  finished_events := events em;
  finished_transitions := transitions em;
  finished_validation := {|
    validation_kind := RUNTIME_STATE_MACHINE_VALIDATION_KIND;
    validation_schema_version := SUPPORTED_SCHEMA_VERSION;
    validation_governing_spec := STATE_MACHINE_GOVERNING_SPEC;
    validated_at := timestamp (saturating_sub (next_second em) 1);
    validation_status := match violations em with [] => Passed | _ => Failed end;
    checked_states := [Idle; LoadingRegistry; Ready; Discovering; EvaluatingConstraints; Selecting;
      Executing; EmittingEvents; Completed; Error];
    checked_transitions :=
      (fun t => runtime_state_name (from_state t) +:+ "->" +:+ runtime_state_name (to_state t))
        <$> transitions em;
    validation_violations := violations em |} |}.

(** ** What an emitter has recorded *)

(** A walk through the table of transitions. *)
Inductive walk : RuntimeState -> list RuntimeTransitionRecord -> RuntimeState -> Prop :=
  | walk_nil s : walk s [] s
  | walk_snoc s ts t :
      walk s ts (from_state t) ->
      is_allowed_transition (from_state t) (to_state t) (reason_code t) = true ->
      walk s (ts ++ [t]) (to_state t).

(** An event reports the transition at the same place, with its place in its name. *)
Definition reports (execution_id request_id : string) (i : nat) (e : RuntimeStateEvent)
    (t : RuntimeTransitionRecord) : Prop :=
  e = {| rse_kind := RUNTIME_STATE_EVENT_KIND; rse_schema_version := SUPPORTED_SCHEMA_VERSION;
         rse_event_id := "rse_" +:+ execution_id +:+ "_" +:+ padded 4 (N.of_nat i);
         rse_execution_id := execution_id; rse_request_id := request_id;
         rse_state := to_state t; rse_entered_at := occurred_at t;
         rse_details := default Null (transition_details t) |} /\
  transition_request_id t = Some request_id /\ transition_execution_id t = Some execution_id /\
  is_Some (transition_details t).

Definition recorded (execution_id request_id : string) (es : list RuntimeStateEvent)
    (ts : list RuntimeTransitionRecord) : Prop :=
  length es = length ts /\
  forall i e t, es !! i = Some e -> ts !! i = Some t -> reports execution_id request_id i e t.

(** The transitions occurred at strictly increasing seconds below [bound]. *)
Definition timed (ts : list RuntimeTransitionRecord) (bound : N) : Prop :=
  exists seconds, occurred_at <$> ts = timestamp <$> seconds /\
    StronglySorted N.lt seconds /\ Forall (fun s => s < bound)%N seconds.

Record emitter_ok (em : StateEmitter) : Prop := {
  ok_walk : walk Idle (transitions em) (current_state em);
  ok_violations : violations em = [];
  ok_index : next_event_index em = N.of_nat (length (events em));
  ok_recorded : recorded (emitter_execution_id em) (emitter_request_id em) (events em) (transitions em);
  ok_timed : timed (transitions em) (next_second em) }.

Lemma new_emitter_ok execution_id request_id : emitter_ok (new_emitter execution_id request_id).
Proof.
  split; cbn; [apply walk_nil|done..|by split|]. exists []. repeat constructor.
Qed.

Lemma recorded_snoc execution_id request_id es ts e t :
  recorded execution_id request_id es ts -> reports execution_id request_id (length ts) e t ->
  recorded execution_id request_id (es ++ [e]) (ts ++ [t]).
Proof.
  intros [Hlen Hr] He. split; [rewrite !length_app; cbn; lia|]. intros i e' t' Hi Ht.
  apply lookup_app_Some in Hi as [Hi|[Hge Hi]]; apply lookup_app_Some in Ht as [Ht|[Hge' Ht]].
  - by apply Hr.
  - apply lookup_lt_Some in Hi. lia.
  - apply lookup_lt_Some in Ht. lia.
  - apply list_lookup_singleton_Some in Hi as [Hi ->], Ht as [_ ->].
    by replace i with (length ts) by lia.
Qed.

Lemma StronglySorted_snoc {A} (R : relation A) l x :
  StronglySorted R l -> Forall (fun y => R y x) l -> StronglySorted R (l ++ [x]).
Proof.
  induction 1 as [|y l Hl IH Hall]; intros Hx; cbn; [repeat constructor|].
  apply Forall_cons in Hx as [Hy Hx]. constructor; [by apply IH|].
  apply Forall_app. split; [done|by constructor].
Qed.

Lemma timed_snoc ts bound t :
  timed ts bound -> occurred_at t = timestamp bound -> timed (ts ++ [t]) (bound + 1).
Proof.
  intros (seconds & Hat & Hs & Hb) Ht. exists (seconds ++ [bound]). split; [|split].
  - rewrite !fmap_app, Hat. cbn. by rewrite Ht.
  - by apply StronglySorted_snoc.
  - apply Forall_app. split; [|constructor; [lia|done]].
    eapply Forall_impl; [exact Hb|]. cbn. lia.
Qed.

Lemma next_timestamp_ok em : emitter_ok em -> emitter_ok (next_timestamp em).1.
Proof.
  intros [Hw Hv Hi Hr (seconds & Hat & Hs & Hb)]. split; cbn; try done.
  exists seconds. split; [done|]. split; [done|]. eapply Forall_impl; [exact Hb|]. cbn. lia.
Qed.

(** An allowed transition is recorded. *)
Lemma push_ok em state reason details :
  emitter_ok em -> is_allowed_transition (current_state em) state reason = true ->
  emitter_ok (push em state reason details).
Proof.
  intros [Hw Hv Hi Hr Ht] Hallowed. unfold push, try_push. rewrite Hallowed. cbn.
  split; cbn; [|done| | |].
  - by apply (walk_snoc _ _ {| from_state := current_state em; to_state := state |}).
  - rewrite length_app, Hi. cbn. lia.
  - apply recorded_snoc; [done|]. destruct Hr as [Hlen _].
    split; [|by eauto]. cbn. by rewrite Hi, Hlen.
  - by apply timed_snoc.
Qed.

Lemma push_state em state reason details :
  is_allowed_transition (current_state em) state reason = true ->
  current_state (push em state reason details) = state.
Proof. intros H. unfold push, try_push. by rewrite H. Qed.

Lemma push_ids em state reason details :
  emitter_execution_id (push em state reason details) = emitter_execution_id em /\
  emitter_request_id (push em state reason details) = emitter_request_id em.
Proof. unfold push, try_push. by destruct (is_allowed_transition _ _ _). Qed.

(** The states a walk goes through, after its first. *)
Lemma push_transitions em state reason details :
  is_allowed_transition (current_state em) state reason = true ->
  to_state <$> transitions (push em state reason details) =
    (to_state <$> transitions em) ++ [state].
Proof. intros H. unfold push, try_push. rewrite H. cbn. by rewrite fmap_app. Qed.

Lemma finish_passed em :
  emitter_ok em ->
  validation_status (finished_validation (finish em)) = Passed /\
  validation_violations (finished_validation (finish em)) = [].
Proof. intros [_ Hv _ _ _]. cbn. by rewrite Hv. Qed.
