(* ===== verification/Registry.v ===== *)
(** * What the runtime reads of the registry

    [traverse_registry] is a published crate of another repository.  These are the
    fields of its records that [crates/traverse-runtime] reads, and the calls it
    makes, as a record of functions: [find_exact], [discover],
    [resolve_version_range], [resolve_dependencies], the workflow registry's
    [find_exact] and [is_governed_artifact_path]. *)
From S2P Require Import Prelude Json RuntimeInit Contract.

Inductive RegistryScope := Public | Private.
Inductive LookupScope := LookupPublicOnly | LookupPreferPrivate.
Inductive ImplementationKind := Executable | Workflow.
Inductive SourceKind := LocalSource | OtherSource.
Inductive ArtifactSignatureScheme := Ed25519 | Sigstore.

#[export] Instance ImplementationKind_eq_dec : EqDecision ImplementationKind.
Proof. solve_decision. Defined.

#[export] Instance LookupScope_eq_dec : EqDecision LookupScope.
Proof. solve_decision. Defined.

Record ArtifactSignature := {
  scheme : ArtifactSignatureScheme;
  public_key_hex : option string;
  signature_hex : option string }.

Record BinaryReference := { location : string; signature : option ArtifactSignature }.

Record WorkflowReference := { ref_workflow_id : string; ref_workflow_version : string }.

Record CapabilityArtifactRecord := {
  source_kind : SourceKind;
  binary : option BinaryReference;
  workflow_ref : option WorkflowReference;
  binary_digest : option string }.

Record CapabilityRegistryRecord := {
  record_scope : RegistryScope;
  record_id : string;
  record_version : string;
  record_lifecycle : Lifecycle;
  contract_path : string;
  implementation_kind : ImplementationKind;
  artifact_ref : string }.

Record ResolvedCapability := {
  record : CapabilityRegistryRecord;
  contract : CapabilityContract;
  artifact : CapabilityArtifactRecord }.

Record DiscoveryIndexEntry := {
  entry_scope : RegistryScope;
  entry_id : string;
  entry_version : string }.

Record ResolvedVersion := {
  resolved_scope : RegistryScope;
  resolved_capability_id : string;
  resolved_version : string }.

Inductive ResolutionError :=
  | MissingDependency (capability_id required_version : string)
  | CircularDependency (cycle : list string)
  | MaxTransitiveDepthExceeded (depth : nat) (chain : list string).

(** ** Workflow definitions *)

Inductive WorkflowEdgeTrigger := Direct | Event.

#[export] Instance WorkflowEdgeTrigger_eq_dec : EqDecision WorkflowEdgeTrigger.
Proof. solve_decision. Defined.

Record WorkflowEdgePredicate := { field : string; equals : Value }.

Record WorkflowEdge := {
  edge_id : string;
  from : string;
  to : string;
  trigger : WorkflowEdgeTrigger;
  edge_event : option EventReference;
  predicate : option WorkflowEdgePredicate }.

Record WorkflowNode := {
  node_id : string;
  node_capability_id : string;
  node_capability_version : string;
  from_workflow_input : list string;
  to_workflow_state : list string;
  publish_to_state_as : option string }.

Record WorkflowDefinition := {
  workflow_id : string;
  workflow_version : string;
  workflow_inputs : SchemaContainer;
  workflow_outputs : SchemaContainer;
  nodes : list WorkflowNode;
  edges : list WorkflowEdge;
  start_node : string;
  terminal_nodes : list string;
  output_projection : list string }.

(** The capability registry and the workflow registry.  A range lookup reports the
    resolution to a telemetry sink, the state of which is not read back. *)
Record Registries := {
  find_exact : LookupScope -> string -> string -> option ResolvedCapability;
  discover : LookupScope -> list DiscoveryIndexEntry;
  resolve_version_range : string -> string -> LookupScope -> option ResolvedVersion;
  resolve_dependencies : string -> list DependencyReference -> LookupScope -> option ResolutionError;
  find_workflow : LookupScope -> string -> string -> option WorkflowDefinition }.
