(* ===== verification/Security.v ===== *)
(** * Artifact trust and caller identity

    [crates/traverse-runtime/src/security.rs]: verification of an artifact before it
    runs, and the identity attributed to a bearer token.  SHA-256, Ed25519 and the
    registry's list of governed paths are parameters ([Trust]). *)
From S2P Require Import Prelude Json Pointer Base64 Contract Registry Request.
From Stdlib Require Import Ascii.

(** ** Data *)

Inductive RuntimeSecurityMode := Production | Development.

Record RuntimeSecurityConfig := { mode : RuntimeSecurityMode }.

Inductive ArtifactVerificationStatus := Verified | Warning | Rejected.
Inductive ArtifactTrustLevel := LocalDev | PublishedGoverned.
Inductive ArtifactVerificationScheme := Ed25519Scheme | SigstoreScheme.

#[export] Instance ArtifactTrustLevel_eq_dec : EqDecision ArtifactTrustLevel.
Proof. solve_decision. Defined.

#[export] Instance RuntimeSecurityMode_eq_dec : EqDecision RuntimeSecurityMode.
Proof. solve_decision. Defined.

Record ArtifactVerificationRecord := {
  verification_status : ArtifactVerificationStatus;
  trust_level : ArtifactTrustLevel;
  verification_scheme : option ArtifactVerificationScheme;
  warning_code : option string;
  error_code : option string }.

Record RuntimeWarning := { warning : string; warning_message : string }.

Inductive ArtifactVerificationFailure :=
  | MissingChecksum (r : ArtifactVerificationRecord)
  | ChecksumMismatch (r : ArtifactVerificationRecord)
  | MissingSignature (r : ArtifactVerificationRecord)
  | SignatureVerificationFailed (r : ArtifactVerificationRecord)
  | SigstoreUnreachable (r : ArtifactVerificationRecord).

Definition failure_code (f : ArtifactVerificationFailure) : string :=
  match f with
  | MissingChecksum _ => "missing_checksum"
  | ChecksumMismatch _ => "checksum_mismatch"
  | MissingSignature _ => "missing_signature"
  | SignatureVerificationFailed _ => "signature_verification_failed"
  | SigstoreUnreachable _ => "sigstore_unreachable"
  end.

Definition failure_record (f : ArtifactVerificationFailure) : ArtifactVerificationRecord :=
  match f with
  | MissingChecksum r | ChecksumMismatch r | MissingSignature r | SignatureVerificationFailed r
  | SigstoreUnreachable r => r
  end.

(** [sha2], [ed25519_dalek] and the registry's governed paths. *)
Class Trust := {
  sha256 : Bytes -> Bytes;
  PublicKey : Type;
  public_key_from_bytes : Bytes -> option PublicKey;
  ed25519_verify : PublicKey -> Bytes -> Bytes -> bool;
  is_governed_artifact_path : string -> bool }.

(** ** Texts *)

Definition text_bytes (s : string) : Bytes := String.list_ascii_of_string s.

Definition sha256_hex `{Trust} (bytes : Bytes) : string :=
  String.concat "" ((fun byte => hex_digit (N.shiftr (N_of_ascii byte) 4)
    +:+ hex_digit (N.land (N_of_ascii byte) 15)) <$> sha256 bytes).

Definition hex_nibble (byte : ascii) : option N :=
  let n := N_of_ascii byte in
  if ((48 <=? n) && (n <=? 57))%N then Some (n - 48)%N
  else if ((97 <=? n) && (n <=? 102))%N then Some (n - 97 + 10)%N
  else if ((65 <=? n) && (n <=? 70))%N then Some (n - 65 + 10)%N
  else None.

(** An odd number of digits is refused before any is read. *)
Fixpoint hex_decode (input : Bytes) : option Bytes :=
  match input with
  | [] => Some []
  | [_] => None
  | h :: l :: rest =>
      high ← hex_nibble h;
      low ← hex_nibble l;
      output ← hex_decode rest;
      Some (ascii_of_N (N.lor (N.shiftl high 4) low) :: output)
  end.

Definition to_ascii_lowercase (c : ascii) : ascii :=
  let n := N_of_ascii c in if ((65 <=? n) && (n <=? 90))%N then ascii_of_N (n + 32) else c.

Definition eq_ignore_ascii_case (a b : string) : bool :=
  bool_decide (to_ascii_lowercase <$> text_bytes a = to_ascii_lowercase <$> text_bytes b).

(** [str::strip_prefix] *)
Fixpoint strip_prefix (prefix s : string) : option string :=
  match prefix, s with
  | EmptyString, _ => Some s
  | String a prefix', String b s' => if decide (a = b) then strip_prefix prefix' s' else None
  | _, _ => None
  end.

(** ** Verification of artifacts *)

Definition verified_local_record (level : ArtifactTrustLevel) : ArtifactVerificationRecord := {|
  verification_status := Verified; trust_level := level; verification_scheme := None;
  warning_code := None; error_code := None |}.

Definition rejected_record (level : ArtifactTrustLevel) (s : option ArtifactVerificationScheme)
    (code : string) : ArtifactVerificationRecord := {|
  verification_status := Rejected; trust_level := level; verification_scheme := s;
  warning_code := None; error_code := Some code |}.

Definition signature_verification_failed (level : ArtifactTrustLevel) : ArtifactVerificationFailure :=
  SignatureVerificationFailed
    (rejected_record level (Some Ed25519Scheme) "signature_verification_failed").

Section trust.
Context `{Trust}.

Definition artifact_trust_level (capability : ResolvedCapability) : ArtifactTrustLevel :=
  match source_kind (artifact capability) with
  | LocalSource => LocalDev
  | OtherSource =>
      if is_governed_artifact_path (contract_path (record capability)) then PublishedGoverned else LocalDev
  end.

(** [<[u8; n]>::try_from] *)
Definition sized (n : nat) (bytes : Bytes) : option Bytes :=
  if decide (length bytes = n) then Some bytes else None.

Definition verify_ed25519 (sig : ArtifactSignature) (artifact_bytes : Bytes) (level : ArtifactTrustLevel)
    : Result ArtifactVerificationFailure ArtifactVerificationRecord :=
  let failed := signature_verification_failed level in
  key_hex ← ok_or (public_key_hex sig) failed;
  sig_hex ← ok_or (signature_hex sig) failed;
  public_key_bytes ← ok_or (hex_decode (text_bytes key_hex)) failed;
  signature_bytes ← ok_or (hex_decode (text_bytes sig_hex)) failed;
  public_key_array ← ok_or (sized 32 public_key_bytes) failed;
  signature_array ← ok_or (sized 64 signature_bytes) failed;
  key ← ok_or (public_key_from_bytes public_key_array) failed;
  _ ← ensure (ed25519_verify key artifact_bytes signature_array) failed;
  Ok {| verification_status := Verified; trust_level := level;
        verification_scheme := Some Ed25519Scheme; warning_code := None; error_code := None |}.

Definition verify_sigstore (sig : ArtifactSignature) (level : ArtifactTrustLevel)
    : Result ArtifactVerificationFailure ArtifactVerificationRecord :=
  Err (SigstoreUnreachable (rejected_record level (Some SigstoreScheme) "sigstore_unreachable")).

Definition verify_checksum (capability : ResolvedCapability) (artifact_bytes : Bytes)
    (level : ArtifactTrustLevel) : Result ArtifactVerificationFailure unit :=
  if decide (level = PublishedGoverned) then
    expected ← ok_or (binary_digest (artifact capability))
      (MissingChecksum (rejected_record level None "missing_checksum"));
    let expected := default expected (strip_prefix "sha256:" expected) in
    ensure (eq_ignore_ascii_case expected (sha256_hex artifact_bytes))
      (ChecksumMismatch (rejected_record level None "checksum_mismatch"))
  else Ok tt.

Definition verify_artifact (capability : ResolvedCapability) (artifact_bytes : Bytes)
    (config : RuntimeSecurityConfig) : Result ArtifactVerificationFailure ArtifactVerificationRecord :=
  let level := artifact_trust_level capability in
  match binary (artifact capability) with
  | None => Ok (verified_local_record level)
  | Some bin =>
      match signature bin with
      | None =>
          if bool_decide (level = LocalDev) && bool_decide (mode config = Development) then
            Ok {| verification_status := Warning; trust_level := level; verification_scheme := None;
                  warning_code := Some "unsigned_local_dev_artifact"; error_code := None |}
          else Err (MissingSignature (rejected_record level None "missing_signature"))
      | Some sig =>
          verification ←
            match scheme sig with
            | Ed25519 => verify_ed25519 sig artifact_bytes level
            | Sigstore => verify_sigstore sig level
            end;
          _ ← verify_checksum capability artifact_bytes level;
          Ok verification
      end
  end.

(** ** Identity *)

(** One character of the alphabet. *)
Definition sextet (c : ascii) : option N :=
  let n := N_of_ascii c in
  if ((65 <=? n) && (n <=? 90))%N then Some (n - 65)%N
  else if ((97 <=? n) && (n <=? 122))%N then Some (n - 97 + 26)%N
  else if ((48 <=? n) && (n <=? 57))%N then Some (n - 48 + 52)%N
  else if (n =? 45)%N then Some 62%N
  else if (n =? 95)%N then Some 63%N
  else None.

Definition low_byte (n : N) : ascii := ascii_of_N (N.land n 255).

(** Four sextets are three bytes; two or three at the end are one or two. *)
Fixpoint join_sextets (sextets : list N) : Bytes :=
  match sextets with
  | a :: b :: c :: d :: rest =>
      let n := N.lor (N.lor (N.lor (N.shiftl a 18) (N.shiftl b 12)) (N.shiftl c 6)) d in
      low_byte (N.shiftr n 16) :: low_byte (N.shiftr n 8) :: low_byte n :: join_sextets rest
  | [a; b] => let n := N.lor (N.shiftl a 18) (N.shiftl b 12) in [low_byte (N.shiftr n 16)]
  | [a; b; c] =>
      let n := N.lor (N.lor (N.shiftl a 18) (N.shiftl b 12)) (N.shiftl c 6) in
      [low_byte (N.shiftr n 16); low_byte (N.shiftr n 8)]
  | _ => []
  end.

Definition base64url_decode (input : string) : option Bytes :=
  if has_char "="%char input then None
  else
    sextets ← mapM sextet (text_bytes input);
    if decide (length sextets `mod` 4 = 1) then None else Some (join_sextets sextets).

(** [None] stands for a token that carries no usable subject. *)
Definition derive_identity_from_jwt `{SerdeJson} (token : string) : option RuntimeIdentity :=
  match split_on "."%char token with
  | [_; payload; _] =>
      payload_bytes ← base64url_decode payload;
      match from_slice payload_bytes with
      | Err _ => None
      | Ok value =>
          subject ← non_blank (get "sub" value ≫= as_str);
          Some {| subject_id := subject;
                  actor_id := non_blank ((get "act" value ≫= get "sub") ≫= as_str);
                  token_reference_hash := sha256_hex (text_bytes token) |}
      end
  | _ => None
  end.
End trust.

(** * When an artifact may run

    [verify_artifact] accepts exactly the artifacts its policy describes, and its
    record says what was checked. *)
Section policy.
Context `{Trust}.

(** An Ed25519 signature over the artifact: a key of 32 bytes and a signature of 64,
    both in hexadecimal, that verify. *)
Definition signed (sig : ArtifactSignature) (artifact_bytes : Bytes) : Prop :=
  exists key_hex sig_hex key_bytes sig_bytes key,
    public_key_hex sig = Some key_hex /\ signature_hex sig = Some sig_hex /\
    hex_decode (text_bytes key_hex) = Some key_bytes /\ hex_decode (text_bytes sig_hex) = Some sig_bytes /\
    length key_bytes = 32 /\ length sig_bytes = 64 /\
    public_key_from_bytes key_bytes = Some key /\ ed25519_verify key artifact_bytes sig_bytes = true.

(** The digest of the registry, with or without its prefix, names these bytes. *)
Definition digest_matches (capability : ResolvedCapability) (artifact_bytes : Bytes) : Prop :=
  exists digest, binary_digest (artifact capability) = Some digest /\
    eq_ignore_ascii_case (default digest (strip_prefix "sha256:" digest)) (sha256_hex artifact_bytes) = true.

(** The policy: no binary to check; or a valid Ed25519 signature and, for a governed
    artifact, the registered digest; or, in development, an unsigned local artifact. *)
Definition trusted (capability : ResolvedCapability) (artifact_bytes : Bytes) (config : RuntimeSecurityConfig) : Prop :=
  match binary (artifact capability) with
  | None => True
  | Some bin =>
      match signature bin with
      | None => artifact_trust_level capability = LocalDev /\ mode config = Development
      | Some sig => scheme sig = Ed25519 /\ signed sig artifact_bytes /\
          (artifact_trust_level capability = PublishedGoverned -> digest_matches capability artifact_bytes)
      end
  end.

Definition has_signature (capability : ResolvedCapability) : Prop :=
  exists bin sig, binary (artifact capability) = Some bin /\ signature bin = Some sig.

Lemma sized_Some n bytes b : sized n bytes = Some b <-> length bytes = n /\ b = bytes.
Proof. unfold sized. case_decide; naive_solver. Qed.

Lemma verify_ed25519_exact sig bytes level r : verify_ed25519 sig bytes level = Ok r <->
  signed sig bytes /\ r = {| verification_status := Verified; trust_level := level;
    verification_scheme := Some Ed25519Scheme; warning_code := None; error_code := None |}.
Proof.
  unfold verify_ed25519, signed. split.
  - intros Hok. ok_inv. split; [|by injection Hok as <-].
    repeat match goal with H : sized _ _ = Some _ |- _ => apply sized_Some in H as [? ->] end. naive_solver.
  - intros [(kh & sh & kb & sb & k & -> & -> & Hk & Hs & Hlk & Hls & Hpk & Hv) ->]. cbn.
    rewrite Hk, Hs. cbn. rewrite (proj2 (sized_Some 32 kb kb) (conj Hlk eq_refl)). cbn.
    rewrite (proj2 (sized_Some 64 sb sb) (conj Hls eq_refl)). cbn. rewrite Hpk. cbn. by rewrite Hv.
Qed.

Lemma verify_ed25519_record sig bytes level f :
  verify_ed25519 sig bytes level = Err f -> f = signature_verification_failed level.
Proof.
  unfold verify_ed25519. intros Herr.
  repeat (match type of Herr with context [ok_or ?o _] => destruct o; cbn in Herr; [|congruence] end).
  destruct (ed25519_verify _ _ _); cbn in Herr; congruence.
Qed.

Lemma verify_checksum_exact c bytes level u : verify_checksum c bytes level = Ok u <->
  (level = PublishedGoverned -> digest_matches c bytes).
Proof.
  unfold verify_checksum, digest_matches. case_decide as Hl; [|destruct u; naive_solver].
  destruct (binary_digest (artifact c)) as [digest|]; cbn; [|split; [done|intros Hd; by destruct (Hd Hl) as (? & ? & _)]].
  rewrite ensure_ok_inv. naive_solver.
Qed.

Lemma verify_checksum_record c bytes level f : verify_checksum c bytes level = Err f ->
  failure_record f = rejected_record level None (failure_code f).
Proof.
  unfold verify_checksum. case_decide; [|done]. destruct (binary_digest (artifact c)); cbn; [|by intros [= <-]].
  unfold ensure. by case_match; intros [= <-].
Qed.

(** An artifact is accepted exactly when the trust policy allows it; the record of
    an accepted one names its trust level, the scheme that was checked and, for an
    unsigned one, the warning, and the record of a rejected one carries the code of
    the failure. *)
Theorem verify_artifact_exact capability artifact_bytes config :
  match verify_artifact capability artifact_bytes config with
  | Ok r => trusted capability artifact_bytes config /\ trust_level r = artifact_trust_level capability /\
      error_code r = None /\
      (verification_scheme r = Some Ed25519Scheme <-> has_signature capability) /\
      (verification_status r = Warning <-> binary (artifact capability) <> None /\ ~ has_signature capability)
  | Err f => ~ trusted capability artifact_bytes config /\
      trust_level (failure_record f) = artifact_trust_level capability /\
      verification_status (failure_record f) = Rejected /\ error_code (failure_record f) = Some (failure_code f)
  end.
Proof.
  unfold verify_artifact, trusted, has_signature. set (level := artifact_trust_level capability).
  destruct (binary (artifact capability)) as [bin|]; [|cbn; naive_solver].
  destruct (signature bin) as [sig|] eqn:Hsig; [|].
  2: { case_bool_decide as Hl; case_bool_decide as Hm; cbn; naive_solver. }
  destruct (scheme sig) eqn:Hscheme; cbn -[verify_ed25519 verify_checksum]; [|naive_solver].
  destruct (verify_ed25519 sig artifact_bytes level) as [v|f] eqn:Hv; cbn -[verify_checksum].
  - apply verify_ed25519_exact in Hv as [Hs ->].
    destruct (verify_checksum capability artifact_bytes level) as [u|f] eqn:Hc; cbn.
    + pose proof (proj1 (verify_checksum_exact _ _ _ _) Hc) as Hd. split_and!; [done..| |].
      * split; [intros _; by exists bin, sig|done].
      * split; [done|]. intros [_ Hno]. destruct Hno. by exists bin, sig.
    + rewrite (verify_checksum_record _ _ _ _ Hc). split_and!; try done. intros (_ & _ & Hd).
      apply (proj2 (verify_checksum_exact capability artifact_bytes level tt)) in Hd. congruence.
  - rewrite (verify_ed25519_record _ _ _ _ Hv). split_and!; try done. intros (_ & Hs & _).
    pose proof (proj2 (verify_ed25519_exact sig artifact_bytes level _) (conj Hs eq_refl)). congruence.
Qed.
End policy.
