(* ===== verification/Outcome.v ===== *)
(** * Results and traces of a runtime request

    The records of [crates/traverse-runtime/src/lib.rs] that make up a
    [RuntimeExecutionOutcome], of [workflows.rs] that make up the evidence of a
    workflow traversal, and the JSON of those that appear in details. *)
From S2P Require Import Prelude Json RuntimeInit Contract Request Registry Security Lifecycle.

(** ** Errors *)

Inductive RuntimeErrorCode :=
  | RequestInvalid | CapabilityNotFound | CapabilityAmbiguous | CapabilityNotRunnable
  | PlacementUnsupportedCode | ArtifactMissingCode | ExecutionFailedCode | OutputValidationFailed
  | ContractViolation.

#[export] Instance RuntimeErrorCode_eq_dec : EqDecision RuntimeErrorCode.
Proof. solve_decision. Defined.

Record RuntimeError := { code : RuntimeErrorCode; message : string; details : Value }.

Definition error_code_name (c : RuntimeErrorCode) : string :=
  match c with
  | RequestInvalid => "request_invalid"
  | CapabilityNotFound => "capability_not_found"
  | CapabilityAmbiguous => "capability_ambiguous"
  | CapabilityNotRunnable => "capability_not_runnable"
  | PlacementUnsupportedCode => "placement_unsupported"
  | ArtifactMissingCode => "artifact_missing"
  | ExecutionFailedCode => "execution_failed"
  | OutputValidationFailed => "output_validation_failed"
  | ContractViolation => "contract_violation"
  end.

Definition runtime_error (c : RuntimeErrorCode) (m : string) (d : Value) : RuntimeError :=
  {| code := c; message := m; details := d |}.

(** ** Candidates and selection *)

Inductive RuntimeRegistryScope := RuntimePublic | RuntimePrivate.
Inductive RuntimeImplementationKind := RuntimeExecutable | RuntimeWorkflow.
Inductive RuntimeLifecycle := RuntimeDraft | RuntimeActive | RuntimeDeprecated | RuntimeRetired | RuntimeArchived.
Inductive CandidateReason := ExactMatch | IntentMatch.
Inductive RejectedCandidateReason :=
  | WrongScope | NotRunnableLocally | LifecycleNotRunnable | InputContractInvalid | ArtifactMissing
  | SupersededByPrivateOverlay | NotSelectedAfterOrdering.

Record RuntimeCandidate := {
  candidate_scope : RuntimeRegistryScope;
  candidate_id : string;
  candidate_version : string;
  candidate_artifact_ref : string;
  candidate_kind : RuntimeImplementationKind;
  candidate_lifecycle : RuntimeLifecycle;
  candidate_reason : CandidateReason }.

Record RejectedRuntimeCandidate := {
  rejected_id : string;
  rejected_version : string;
  rejected_scope : RuntimeRegistryScope;
  rejected_reason : RejectedCandidateReason }.

Record CandidateCollectionRecord := {
  collected_scope : RuntimeLookupScope;
  candidates : list RuntimeCandidate;
  rejected_candidates : list RejectedRuntimeCandidate }.

Inductive SelectionStatus := Selected | SelectionNoMatch | Ambiguous | InvalidRequest.
Inductive SelectionFailureReason := FailInvalidRequest | FailNoMatch | FailAmbiguous | FailNotRunnable.

Record SelectionRecord := {
  selection_status : SelectionStatus;
  selected_capability_id : option string;
  selected_capability_version : option string;
  selection_failure : option SelectionFailureReason;
  remaining_candidates : list RuntimeCandidate }.

(** ** Placement and execution *)

Inductive PlacementDecisionStatus := NotAttempted | PlacementSelected | Unsupported.
Inductive PlacementDecisionReason :=
  | SelectionNotReached | RequestedTargetSelected | RequestedTargetUnsupported.

Record PlacementDecisionRecord := {
  placement_requested : PlacementTarget;
  selected_target : option PlacementTarget;
  placement_status : PlacementDecisionStatus;
  placement_reason : PlacementDecisionReason;
  supported_executor_targets : list PlacementTarget }.

Inductive ExecutionStatus := NotStarted | Succeeded | ExecutionFailedStatus.

Inductive ExecutionFailureReason :=
  | ContractInputInvalid | ArtifactMissingReason | ArtifactNotRunnable | PlacementUnsupported
  | ExecutionFailedReason | ContractOutputInvalid.

Record ExecutionRecord := {
  placement : PlacementDecisionRecord;
  placement_target : PlacementTarget;
  execution_status : ExecutionStatus;
  execution_artifact_ref : option string;
  started_at : option string;
  completed_at : option string;
  output_digest : option string;
  failure_reason : option ExecutionFailureReason;
  artifact_verification : option ArtifactVerificationRecord;
  execution_identity : option RuntimeIdentity }.

(** ** Workflow evidence *)

Inductive WorkflowTraversalStepStatus := Entered | StepCompleted | StepFailed.
Inductive WorkflowTraversalTrigger := TraversedDirect | TraversedEvent.
Inductive WorkflowTraversalStatus := WorkflowCompleted | WorkflowError.

#[export] Instance WorkflowTraversalStatus_eq_dec : EqDecision WorkflowTraversalStatus.
Proof. solve_decision. Defined.

Inductive WorkflowTraversalFailureReason :=
  | WorkflowNotFound | WorkflowInvalid | AmbiguousNextEdge | MissingRequiredEvent
  | TerminalNodeNotReached | StepExecutionFailed | EventSubscriptionFailed | EventBrokerUnavailable.

Record WorkflowTraversalStepRecord := {
  step_index : nat;
  step_node_id : string;
  step_capability_id : string;
  step_capability_version : string;
  step_status : WorkflowTraversalStepStatus }.

Record WorkflowTraversalEdgeRecord := {
  traversed_edge_id : string;
  traversed_from : string;
  traversed_to : string;
  traversed_trigger : WorkflowTraversalTrigger;
  traversed_event : option EventReference }.

Record WaitingWorkflowEdgeContext := {
  waiting_execution_id : string;
  waiting_edge_id : string;
  from_node_id : string;
  to_node_id : string;
  event_ref : EventReference;
  waiting_predicate : option WorkflowEdgePredicate }.

Inductive EventMatchResult := Matched | NotMatched | AlreadyConsumed.
Inductive EventPredicateResult := PredicatePassed | PredicateFailed.

Record EventMatchRecord := {
  match_event_id : string;
  match_event_version : string;
  match_edge_id : string;
  match_result : EventMatchResult;
  predicate_result : option EventPredicateResult;
  rejection_reason : option string;
  match_recorded_at : string;
  match_subscription_id : option string;
  match_cursor : option string }.

Record EventWakeDecision := {
  decision_type : string;
  wake_event_id : string;
  wake_event_version : string;
  wake_edge_id : string;
  wake_execution_id : string;
  wake_order : nat;
  wake_recorded_at : string;
  wake_subscription_id : option string;
  wake_cursor : option string }.

Record EventConsumptionRecord := {
  consumed_event_id : string;
  consumed_event_version : string;
  consumed_edge_id : string;
  consumed_execution_id : string;
  consumed_at : string;
  consumed_subscription_id : option string;
  consumed_cursor : option string }.

Record WorkflowTraversalEvidence := {
  evidence_kind : string;
  evidence_schema_version : string;
  evidence_governing_spec : string;
  evidence_trace_id : string;
  evidence_request_id : string;
  evidence_workflow_id : string;
  evidence_workflow_version : string;
  visited_nodes : list WorkflowTraversalStepRecord;
  traversed_edges : list WorkflowTraversalEdgeRecord;
  evidence_emitted_events : list EventReference;
  waiting_edges : list WaitingWorkflowEdgeContext;
  event_match_records : list EventMatchRecord;
  event_wake_decisions : list EventWakeDecision;
  event_consumptions : list EventConsumptionRecord;
  traversal_status : WorkflowTraversalStatus;
  traversal_failure : option WorkflowTraversalFailureReason }.

(** ** Telemetry *)

Inductive OtlpProtocol := Http | Grpc.

Record RuntimeObservabilityConfig := {
  traces_enabled : bool;
  logs_enabled : bool;
  metrics_enabled : bool;
  exporter_endpoint : option string;
  exporter_protocol : OtlpProtocol;
  deterministic_ids : bool;
  deterministic_seed : option string }.

Inductive OTelSpanStatus := SpanOk | SpanError.

Record OTelAttribute := { attribute_key : string; attribute_value : Value }.

Record OTelSpanEvent := {
  span_event_name : string;
  span_event_timestamp : string;
  span_event_attributes : list OTelAttribute }.

Record OTelSpanRecord := {
  span_trace_id : string;
  span_id : string;
  parent_span_id : option string;
  span_name : string;
  span_status_code : OTelSpanStatus;
  span_started_at : string;
  span_ended_at : string;
  span_attributes : list OTelAttribute;
  span_events : list OTelSpanEvent }.

Record OTelExporterRecord := {
  exporter_enabled : bool;
  exported_endpoint : option string;
  exported_protocol : OtlpProtocol }.

Record OTelTraceRecord := {
  otel_id : string;
  parent_traceparent : option string;
  otel_tracestate : option string;
  exporter : OTelExporterRecord;
  spans : list OTelSpanRecord }.

(** ** Outcome *)

Record TraceResultRecord := {
  trace_result_status : RuntimeResultStatus;
  trace_output : option Value;
  trace_error : option RuntimeError;
  trace_warnings : list RuntimeWarning }.

Record TraceTerminalOutcome := {
  terminal_status : RuntimeResultStatus;
  terminal_execution_status : ExecutionStatus;
  terminal_failure_reason : option ExecutionFailureReason;
  terminal_error : option RuntimeError }.

(** [model_resolution], which is only set after execution, is left out here and in
    the decision evidence. *)
Record RuntimeTrace := {
  trace_kind : string;
  trace_schema_version : string;
  trace_id : string;
  trace_execution_id : string;
  trace_request_id : string;
  trace_governing_spec : string;
  trace_request : RuntimeRequest;
  decision_evidence : CandidateCollectionRecord * SelectionRecord;
  state_progression : list RuntimeStateEvent * list RuntimeTransitionRecord *
    RuntimeStateMachineValidationEvidence;
  terminal_outcome : TraceTerminalOutcome;
  trace_emitted_events : list EventReference;
  workflow_evidence : option WorkflowTraversalEvidence;
  state_transitions : list RuntimeTransitionRecord;
  state_machine_validation : RuntimeStateMachineValidationEvidence;
  candidate_collection : CandidateCollectionRecord;
  selection : SelectionRecord;
  execution : ExecutionRecord;
  trace_result : TraceResultRecord;
  otel_trace : OTelTraceRecord }.

Record RuntimeResult := {
  result_kind : string;
  result_schema_version : string;
  result_execution_id : string;
  result_request_id : string;
  result_status : RuntimeResultStatus;
  trace_ref : string;
  result_output : option Value;
  result_error : option RuntimeError;
  result_warnings : list RuntimeWarning }.

Record RuntimeExecutionOutcome := {
  result : RuntimeResult;
  trace : RuntimeTrace;
  state_events : list RuntimeStateEvent }.

Definition RUNTIME_RESULT_KIND : string := "runtime_result".
Definition RUNTIME_TRACE_KIND : string := "runtime_trace".
Definition RUNTIME_REQUEST_KIND : string := "runtime_request".
Definition GOVERNING_SPEC : string := "006-runtime-request-execution".
Definition EXECUTION_PREFIX : string := "exec_".
Definition TRACE_PREFIX : string := "trace_".
Definition RUNTIME_EXECUTION_EVENT_TYPE : string := "dev.traverse.runtime.execution.completed".

(** ** JSON of the derived serializers *)

Definition option_value {A} (f : A -> Value) (o : option A) : Value :=
  match o with Some a => f a | None => Null end.

Definition lookup_scope_value (s : RuntimeLookupScope) : Value :=
  Str (match s with PublicOnly => "public_only" | PreferPrivate => "prefer_private" end).

Definition identity_value (i : RuntimeIdentity) : Value :=
  obj [("subject_id", Str (subject_id i)); ("actor_id", option_value Str (actor_id i));
       ("token_reference_hash", Str (token_reference_hash i))].

Definition target_value (t : PlacementTarget) : Value :=
  Str (match t with
       | LocalTarget => "local" | BrowserTarget => "browser" | EdgeTarget => "edge"
       | CloudTarget => "cloud" | WorkerTarget => "worker" | DeviceTarget => "device"
       end).

Definition placement_status_value (s : PlacementDecisionStatus) : Value :=
  Str (match s with
       | NotAttempted => "not_attempted" | PlacementSelected => "selected" | Unsupported => "unsupported"
       end).

Definition placement_reason_value (r : PlacementDecisionReason) : Value :=
  Str (match r with
       | SelectionNotReached => "selection_not_reached"
       | RequestedTargetSelected => "requested_target_selected"
       | RequestedTargetUnsupported => "requested_target_unsupported"
       end).

Definition registry_scope_value (s : RuntimeRegistryScope) : Value :=
  Str (match s with RuntimePublic => "public" | RuntimePrivate => "private" end).

Definition candidate_reason_value (r : CandidateReason) : Value :=
  Str (match r with ExactMatch => "exact_match" | IntentMatch => "intent_match" end).

Definition rejected_reason_value (r : RejectedCandidateReason) : Value :=
  Str (match r with
       | WrongScope => "wrong_scope"
       | NotRunnableLocally => "not_runnable_locally"
       | LifecycleNotRunnable => "lifecycle_not_runnable"
       | InputContractInvalid => "input_contract_invalid"
       | ArtifactMissing => "artifact_missing"
       | SupersededByPrivateOverlay => "superseded_by_private_overlay"
       | NotSelectedAfterOrdering => "not_selected_after_ordering"
       end).

Definition lifecycle_value (l : RuntimeLifecycle) : Value :=
  Str (match l with
       | RuntimeDraft => "draft" | RuntimeActive => "active" | RuntimeDeprecated => "deprecated"
       | RuntimeRetired => "retired" | RuntimeArchived => "archived"
       end).

Definition candidate_value (c : RuntimeCandidate) : Value :=
  obj [("scope", registry_scope_value (candidate_scope c)); ("capability_id", Str (candidate_id c));
       ("capability_version", Str (candidate_version c));
       ("artifact_ref", Str (candidate_artifact_ref c));
       ("implementation_kind",
         Str (match candidate_kind c with RuntimeExecutable => "executable" | RuntimeWorkflow => "workflow" end));
       ("lifecycle", lifecycle_value (candidate_lifecycle c));
       ("reason", candidate_reason_value (candidate_reason c))].

Definition rejected_value (c : RejectedRuntimeCandidate) : Value :=
  obj [("capability_id", Str (rejected_id c)); ("capability_version", Str (rejected_version c));
       ("scope", registry_scope_value (rejected_scope c)); ("reason", rejected_reason_value (rejected_reason c))].

Definition verification_value (r : ArtifactVerificationRecord) : Value :=
  obj [("status", Str (match verification_status r with
          | Verified => "verified" | Warning => "warning" | Rejected => "rejected" end));
       ("trust_level", Str (match trust_level r with
          | LocalDev => "local_dev" | PublishedGoverned => "published_governed" end));
       ("scheme", option_value (fun s => Str (match s with
          | Ed25519Scheme => "ed25519" | SigstoreScheme => "sigstore" end)) (verification_scheme r));
       ("warning_code", option_value Str (warning_code r));
       ("error_code", option_value Str (error_code r))].

Definition result_status_value (s : RuntimeResultStatus) : Value :=
  Str (match s with Request.Completed => "completed" | Errored => "error" end).

(** * Trace records of an attempt

    The OpenTelemetry record of [crates/traverse-runtime/src/lib.rs]: identifiers
    hashed from a seed, one root span and one span per phase, and the digest of an
    output. *)
From Stdlib Require Import Ascii.

Record AttemptContext := {
  attempt_request : RuntimeRequest;
  execution_id : string;
  attempt_trace_id : string;
  observability : RuntimeObservabilityConfig;
  attempt_verification : option ArtifactVerificationRecord;
  warnings : list RuntimeWarning }.

(** ** Digests *)

(** [{:0width$x}] of a number of at most [width] digits. *)
Fixpoint hex_fixed (width : nat) (n : N) : string :=
  match width with
  | 0 => ""
  | S w => hex_fixed w (n / 16) +:+ hex_digit (n mod 16)
  end.

(** One round of FNV-1a on [bits] bits. *)
Definition fnv_round (bits prime hash : N) (byte : ascii) : N :=
  (N.lxor hash (N_of_ascii byte) * prime) mod 2 ^ bits.

Definition content_digest `{SerdeJson} (value : Value) : string :=
  "0.1.0:" +:+ hex_fixed 16 (foldl (fnv_round 64 0x00000001000001b3) 0xcbf29ce484222325%N (to_vec value)).

Definition deterministic_hex (seed value : string) (len : nat) : string :=
  String.substring 0 len (hex_fixed 32 (foldl (fnv_round 128 0x0000000001000000000000000000013b)
    0x6c62272e07bb014262b821756295c58d%N (text_bytes seed ++ text_bytes value))).

Definition otel_trace_id (attempt : AttemptContext) : string :=
  if deterministic_ids (observability attempt) then
    deterministic_hex (default "traverse-test" (deterministic_seed (observability attempt)))
      (attempt_trace_id attempt) 32
  else deterministic_hex "traverse-runtime" (attempt_trace_id attempt) 32.

Definition otel_span_id (attempt : AttemptContext) (name : string) (index : nat) : string :=
  deterministic_hex (default "traverse-runtime" (deterministic_seed (observability attempt)))
    (execution_id attempt +:+ ":" +:+ name +:+ ":" +:+ u64_to_string (N.of_nat index)) 16.

(** ** Spans *)

Definition otel_phase_names : list string :=
  ["traverse.request.intake"; "traverse.registry.lookup"; "traverse.contract.validation";
   "traverse.capability.execution"; "traverse.trace.assembly"].

Definition otel_attr (key : string) (value : Value) : OTelAttribute :=
  {| attribute_key := key; attribute_value := value |}.

Definition base_otel_attributes (attempt : AttemptContext) (sel : SelectionRecord) (exec : ExecutionRecord)
    : list OTelAttribute :=
  let request := attempt_request attempt in
  let optional key o := match o with Some v => [otel_attr key (Str v)] | None => [] end in
  [otel_attr "traverse.request.id" (Str (request_id request));
   otel_attr "traverse.execution.id" (Str (execution_id attempt));
   otel_attr "traverse.lookup.scope" (lookup_scope_value (scope (lookup_scope request)));
   otel_attr "traverse.runtime.placement.target" (target_value (placement_target exec))] ++
  optional "traverse.correlation.id" (correlation_id (context request)) ++
  optional "traverse.capability.id" (selected_capability_id sel) ++
  optional "traverse.capability.version" (selected_capability_version sel).

Definition error_events (r : TraceResultRecord) : list OTelSpanEvent :=
  match trace_error r with
  | Some error => [{| span_event_name := "exception"; span_event_timestamp := "1970-01-01T00:00:00Z";
      span_event_attributes := [otel_attr "traverse.error.classification" (Str (error_code_name (code error)));
        otel_attr "traverse.error.message" (Str (message error))] |}]
  | None => []
  end.

Definition span_status (status : RuntimeResultStatus) : OTelSpanStatus :=
  match status with Request.Completed => SpanOk | Errored => SpanError end.

Definition is_error (status : RuntimeResultStatus) : bool :=
  match status with Errored => true | Request.Completed => false end.

Definition phase_status (phase : string) (status : RuntimeResultStatus) : OTelSpanStatus :=
  if is_error status && bool_decide (phase = "traverse.trace.assembly") then SpanError else SpanOk.

Definition first_transition_time (ts : list RuntimeTransitionRecord) : string :=
  from_option occurred_at "1970-01-01T00:00:00Z" (head ts).

Definition last_transition_time (ts : list RuntimeTransitionRecord) : string :=
  from_option occurred_at "1970-01-01T00:00:00Z" (last ts).

Definition phase_started_at (ts : list RuntimeTransitionRecord) (index : nat) : string :=
  from_option occurred_at (first_transition_time ts) (ts !! index).

Definition phase_ended_at (ts : list RuntimeTransitionRecord) (index : nat) : string :=
  from_option occurred_at (last_transition_time ts) (ts !! (index + 1)).

Definition phase_span (attempt : AttemptContext) (ts : list RuntimeTransitionRecord) (sel : SelectionRecord)
    (exec : ExecutionRecord) (r : TraceResultRecord) (trace_id root_span_id : string) (entry : nat * string)
    : OTelSpanRecord :=
  let '(index, phase) := entry in {|
    span_trace_id := trace_id; span_id := otel_span_id attempt phase (index + 1);
    parent_span_id := Some root_span_id; span_name := phase;
    span_status_code := phase_status phase (trace_result_status r);
    span_started_at := phase_started_at ts index; span_ended_at := phase_ended_at ts index;
    span_attributes := base_otel_attributes attempt sel exec;
    span_events :=
      if is_error (trace_result_status r) && bool_decide (phase = "traverse.trace.assembly")
      then error_events r else [] |}.

Definition otel_trace_record (attempt : AttemptContext) (ts : list RuntimeTransitionRecord)
    (sel : SelectionRecord) (exec : ExecutionRecord) (r : TraceResultRecord) : OTelTraceRecord :=
  let trace_id := otel_trace_id attempt in
  let root_span_id := otel_span_id attempt "runtime.request" 0 in
  {| otel_id := trace_id;
     parent_traceparent := traceparent (context (attempt_request attempt));
     otel_tracestate := tracestate (context (attempt_request attempt));
     exporter := {|
       exporter_enabled := bool_decide (is_Some (exporter_endpoint (observability attempt)));
       exported_endpoint := exporter_endpoint (observability attempt);
       exported_protocol := exporter_protocol (observability attempt) |};
     spans :=
       {| span_trace_id := trace_id; span_id := root_span_id; parent_span_id := None;
          span_name := "traverse.runtime.request"; span_status_code := span_status (trace_result_status r);
          span_started_at := first_transition_time ts; span_ended_at := last_transition_time ts;
          span_attributes := base_otel_attributes attempt sel exec; span_events := error_events r |}
       :: (phase_span attempt ts sel exec r trace_id root_span_id <$> enumerate otel_phase_names) |}.
