(* ===== verification/Hydration.v ===== *)
(** * Capability metadata and the hydration cache

    [crates/traverse-runtime/src/capability_metadata.rs]: the index of persisted
    capabilities and the bounded cache of contracts that are verified against their
    digest and parsed on first use, with [resolved_from_index] of
    [workspace_lazy.rs].  A call of [hydrate] runs to its end: the slot it claims in
    [inflight] is removed before it returns.  File contents are an argument;
    deserialization of contracts is the parameter [ContractCodec]. *)
From S2P Require Import Prelude Json Canonical Contract Registry Security.
From Stdlib Require Import Ascii.

(** ** Data *)

(** [HydrationKey]: capability id, version and contract digest. *)
Abbreviation HydrationKey := (string * string * string)%type.

(** Without [execution_mode], [platforms] and [workflow_refs], which are carried along
    and not read by the runtime. *)
Record IndexedCapability := {
  app_id : string;
  app_version : string;
  component_id : string;
  component_version : string;
  indexed_capability_id : string;
  indexed_capability_version : string;
  indexed_contract_digest : string;
  artifact_digest : option string }.

Record IndexedSource := { source_contract : string; source_artifact : string; source_manifest : string }.

Record CapabilityMetadataIndex := {
  index_entries : gmap string IndexedCapability;
  index_sources : gmap string IndexedSource }.

Inductive HydrationEvidenceKind :=
  | IndexLookup | CacheHit | HydrationLeader | CoalescedWaiter | Eviction | HydrationFailure.

Record HydrationEvidence := {
  hydration_schema_version : string;
  evidence_kind : HydrationEvidenceKind;
  evidence_key : HydrationKey;
  reason : string }.

Record HydrationError := { hydration_code : string; hydration_message : string }.

Record CacheInner := {
  order : list HydrationKey;
  entries : gmap HydrationKey CapabilityContract;
  inflight : gmap HydrationKey (option (Result HydrationError CapabilityContract));
  evidence_log : list HydrationEvidence }.

(** [serde_json::from_str::<CapabilityContract>] *)
Class ContractCodec := { parse_contract : string -> option CapabilityContract }.

Definition EVIDENCE_SCHEMA_VERSION : string := "1.0.0".

(** ** The index *)

Definition lookup_key (capability_id capability_version : string) : string :=
  capability_id +:+ "@" +:+ capability_version.

Definition index_is_empty (index : CapabilityMetadataIndex) : bool :=
  bool_decide (index_entries index = ∅).

Definition index_get (index : CapabilityMetadataIndex) (capability_id capability_version : string)
    : option IndexedCapability :=
  index_entries index !! lookup_key capability_id capability_version.

(** [entries()], in key order *)
Definition index_values (index : CapabilityMetadataIndex) : list IndexedCapability :=
  (btree_entries (index_entries index)).*2.

Definition index_source (index : CapabilityMetadataIndex) (capability_id capability_version : string)
    : option IndexedSource :=
  index_sources index !! lookup_key capability_id capability_version.

(** ** The cache *)

Definition key_of (indexed : IndexedCapability) : HydrationKey :=
  (indexed_capability_id indexed, indexed_capability_version indexed, indexed_contract_digest indexed).

Definition set_order (o : list HydrationKey) (s : CacheInner) : CacheInner := {|
  order := o; entries := entries s; inflight := inflight s; evidence_log := evidence_log s |}.

Definition set_inflight (i : gmap HydrationKey (option (Result HydrationError CapabilityContract)))
    (s : CacheInner) : CacheInner := {|
  order := order s; entries := entries s; inflight := i; evidence_log := evidence_log s |}.

Definition record_key (kind : HydrationEvidenceKind) (key : HydrationKey) (reason_code : string)
    (s : CacheInner) : CacheInner := {|
  order := order s; entries := entries s; inflight := inflight s;
  evidence_log := evidence_log s ++ [{| hydration_schema_version := EVIDENCE_SCHEMA_VERSION;
    evidence_kind := kind; evidence_key := key; reason := reason_code |}] |}.

(** [ContractHydrationCache::new]: at least one entry fits. *)
Definition cache_capacity (requested : nat) : nat := Nat.max requested 1.

Definition empty_cache : CacheInner :=
  {| order := []; entries := ∅; inflight := ∅; evidence_log := [] |}.

(** Removes the first occurrence. *)
Fixpoint remove_first (key : HydrationKey) (l : list HydrationKey) : list HydrationKey :=
  match l with
  | [] => []
  | k :: rest => if decide (k = key) then rest else k :: remove_first key rest
  end.

Definition cache_get (s : CacheInner) (key : HydrationKey) : CacheInner * option CapabilityContract :=
  match entries s !! key with
  | None => (s, None)
  | Some hit => (set_order (remove_first key (order s) ++ [key]) s, Some hit)
  end.

(** [while inner.entries.len() >= self.capacity]: evict the least recently used. *)
Fixpoint evict (capacity : nat) (o : list HydrationKey) (s : CacheInner) : CacheInner :=
  match o with
  | evicted :: rest =>
      if decide (capacity <= size (entries s)) then
        evict capacity rest (record_key Eviction evicted "hydration_cache_evicted"
          {| order := rest; entries := delete evicted (entries s); inflight := inflight s;
             evidence_log := evidence_log s |})
      else s
  | [] => s
  end.

Definition cache_insert (capacity : nat) (indexed : IndexedCapability) (c : CapabilityContract)
    (s : CacheInner) : CacheInner :=
  let key := key_of indexed in
  match entries s !! key with
  | Some _ => s
  | None =>
      let s := evict capacity (order s) s in
      {| order := order s ++ [key]; entries := <[key := c]> (entries s); inflight := inflight s;
         evidence_log := evidence_log s |}
  end.

Definition hydration_fail (indexed : IndexedCapability) (reason_code : string) (s : CacheInner)
    : CacheInner * Result HydrationError CapabilityContract :=
  (record_key HydrationFailure (key_of indexed) reason_code s,
   Err {| hydration_code := reason_code; hydration_message := "persisted contract could not be hydrated" |}).

Section hydration.
Context `{Trust, ContractCodec} (files : string -> option Bytes).

Definition hydrate_leader (capacity : nat) (index : CapabilityMetadataIndex) (indexed : IndexedCapability)
    (s : CacheInner) : CacheInner * Result HydrationError CapabilityContract :=
  match index_source index (indexed_capability_id indexed) (indexed_capability_version indexed) with
  | None => hydration_fail indexed "contract_source_missing" s
  | Some source =>
      match files (source_contract source) with
      | None => hydration_fail indexed "contract_unreadable" s
      | Some bytes =>
          let actual := "sha256:" +:+ sha256_hex bytes in
          if negb (bool_decide (actual = indexed_contract_digest indexed)) then
            hydration_fail indexed "contract_digest_mismatch" s
          else if negb (from_utf8_ok bytes) then hydration_fail indexed "contract_not_utf8" s
          else
            match parse_contract (String.string_of_list_ascii bytes) with
            | None => hydration_fail indexed "contract_parse_failed" s
            | Some parsed => (cache_insert capacity indexed parsed s, Ok parsed)
            end
      end
  end.

Definition hydrate (capacity : nat) (index : CapabilityMetadataIndex) (capability_id capability_version : string)
    (s : CacheInner) : CacheInner * Result HydrationError CapabilityContract :=
  match index_get index capability_id capability_version with
  | None =>
      (record_key HydrationFailure (capability_id, capability_version, "") "indexed_capability_missing" s,
       Err {| hydration_code := "indexed_capability_missing";
              hydration_message := "capability is not present in the persisted metadata index" |})
  | Some indexed =>
      let key := key_of indexed in
      let s := record_key IndexLookup key "indexed_capability_found" s in
      match cache_get s key with
      | (s, Some hit) => (record_key CacheHit key "hydration_cache_hit" s, Ok hit)
      | (s, None) =>
          let slot := default None (inflight s !! key) in
          let s := set_inflight (<[key := slot]> (inflight s)) s in
          match slot with
          | Some existing => (record_key CoalescedWaiter key "hydration_coalesced" s, existing)
          | None =>
              let s := record_key HydrationLeader key "hydration_leader" s in
              let '(s, outcome) := hydrate_leader capacity index indexed s in
              (set_inflight (delete key (inflight s)) s, outcome)
          end
      end
  end.
End hydration.

(** ** Resolution from the index *)

Definition indexed_artifact_ref (indexed : IndexedCapability) (artifact_missing : bool) : string :=
  if artifact_missing then
    "app:" +:+ app_id indexed +:+ ":" +:+ app_version indexed +:+ ":" +:+ indexed_capability_id indexed
  else
    "app:" +:+ app_id indexed +:+ ":" +:+ app_version indexed +:+ ":component:" +:+ component_id indexed
      +:+ ":" +:+ component_version indexed.

Definition wasm_binary (artifact_path : string) : option BinaryReference :=
  if decide (artifact_path = "") then None else Some {| location := artifact_path; signature := None |}.

Definition resolved_from_index (index : CapabilityMetadataIndex) (c : CapabilityContract)
    (capability_id capability_version : string) : ResolvedCapability :=
  let unindexed := {| app_id := ""; app_version := ""; component_id := id c; component_version := version c;
    indexed_capability_id := id c; indexed_capability_version := version c; indexed_contract_digest := "";
    artifact_digest := None |} in
  let '(indexed, artifact_path, path) :=
    match index_get index capability_id capability_version, index_source index capability_id capability_version with
    | Some indexed, Some source => (indexed, source_artifact source, source_contract source)
    | _, _ => (unindexed, "", "")
    end in
  {| record := {| record_scope := Private; record_id := id c; record_version := version c;
       record_lifecycle := lifecycle c; contract_path := path; implementation_kind := Executable;
       artifact_ref := indexed_artifact_ref indexed (bool_decide (artifact_path = "")) |};
     contract := c;
     artifact := {| source_kind := LocalSource; binary := wasm_binary artifact_path; workflow_ref := None;
       binary_digest := artifact_digest indexed |} |}.

(** * The contract cache is a least-recently-used cache

    The cache of [Hydration.v], read off as a list from the least to the most
    recently used entry, and that a hydration is one step of the reference cache. *)
From S2P Require Import Request.
(** ** The reference *)

Definition Recency : Type := list (HydrationKey * CapabilityContract).

(** The entry becomes the most recently used; the oldest make room for it. *)
Definition lru_touch (capacity : nat) (key : HydrationKey) (c : CapabilityContract) (l : Recency) : Recency :=
  let others := filter (fun e => e.1 <> key) l in drop (S (length others) - capacity) others ++ [(key, c)].

Definition lookup_pair (m : gmap HydrationKey CapabilityContract) (k : HydrationKey)
    : option (HydrationKey * CapabilityContract) := pair k <$> m !! k.

Definition recency (s : CacheInner) : Recency := omap (lookup_pair (entries s)) (order s).

(** A contract that was parsed from a text with the digest in its key. *)
Definition genuine `{Trust, ContractCodec} (digest : string) (c : CapabilityContract) : Prop :=
  exists bytes, "sha256:" +:+ sha256_hex bytes = digest /\ from_utf8_ok bytes = true /\
    parse_contract (String.string_of_list_ascii bytes) = Some c.

(** The order lists the entries once each, there are no more of them than fit, and
    every contract is genuine. *)
Record cache_ok `{Trust, ContractCodec} (capacity : nat) (s : CacheInner) : Prop := {
  cache_nodup : NoDup (order s);
  cache_dom : forall k, k ∈ order s <-> is_Some (entries s !! k);
  cache_fits : size (entries s) <= capacity;
  cache_genuine : forall k c, entries s !! k = Some c -> genuine k.2 c }.

(** Between calls no load is under way. *)
Definition consistent `{Trust, ContractCodec} (capacity : nat) (s : CacheInner) : Prop :=
  cache_ok capacity s /\ inflight s = ∅.

(** ** Recency *)

Lemma omap_length_le {A B} (f : A -> option B) l : length (omap f l) <= length l.
Proof. induction l as [|x l IH]; [done|]. cbn. destruct (f x); cbn; lia. Qed.

Lemma lookup_pair_fst m k e : lookup_pair m k = Some e -> e.1 = k.
Proof. unfold lookup_pair. by intros (c & _ & ->)%fmap_Some. Qed.

Lemma omap_pair_ext (m m' : gmap HydrationKey CapabilityContract) (l : list HydrationKey) :
  (forall k, k ∈ l -> m !! k = m' !! k) -> omap (lookup_pair m) l = omap (lookup_pair m') l.
Proof.
  induction l as [|k l IH]; intros Hl; [done|]. cbn.
  assert (Hk : lookup_pair m k = lookup_pair m' k) by (unfold lookup_pair; by rewrite (Hl k) by left).
  rewrite Hk, IH; [done|]. intros k' Hk'. apply Hl. by right.
Qed.

Lemma filter_recency m (l : list HydrationKey) key :
  filter (fun e => e.1 <> key) (omap (lookup_pair m) l) = omap (lookup_pair m) (filter (fun k => k <> key) l).
Proof.
  induction l as [|k l IH]; [done|]. rewrite filter_cons. cbn.
  destruct (lookup_pair m k) as [e|] eqn:Hk.
  - rewrite filter_cons. rewrite (lookup_pair_fst _ _ _ Hk). case_decide; [|done]. cbn. by rewrite Hk, IH.
  - case_decide; [|done]. cbn. by rewrite Hk.
Qed.

Lemma remove_first_filter key (l : list HydrationKey) : NoDup l -> remove_first key l = filter (fun k => k <> key) l.
Proof.
  induction 1 as [|k l Hk Hl IH]; [done|]. rewrite filter_cons. cbn [remove_first]. case_decide as Heq.
  - rewrite decide_False by auto. subst k. symmetry. apply filter_all. by intros x Hx ->.
  - rewrite decide_True by done. by rewrite IH.
Qed.

Section cache.
Context `{Trust, ContractCodec} (capacity : nat).

Lemma order_length s : cache_ok capacity s -> length (order s) = size (entries s).
Proof.
  intros [Hn Hd _ _]. rewrite <- size_dom. rewrite <- (size_list_to_set (C := gset HydrationKey) (order s)) by done.
  f_equal. apply set_eq. intros k. rewrite elem_of_list_to_set, elem_of_dom. apply Hd.
Qed.

Lemma recency_length s : cache_ok capacity s -> length (recency s) = length (order s).
Proof.
  intros Hok. unfold recency.
  assert (Hall : forall k, k ∈ order s -> is_Some (entries s !! k)) by (intros k; apply (cache_dom _ _ Hok)).
  induction (order s) as [|k l IH]; [done|]. destruct (Hall k) as [c Hc]; [left|]. cbn.
  assert (Hk : lookup_pair (entries s) k = Some (k, c)) by (unfold lookup_pair; by rewrite Hc).
  rewrite Hk. cbn. f_equal. apply IH. intros k' Hk'. apply Hall. by right.
Qed.

Lemma recency_absent s key : cache_ok capacity s -> entries s !! key = None ->
  filter (fun e => e.1 <> key) (recency s) = recency s.
Proof.
  intros Hok Hnone. unfold recency. rewrite filter_recency. f_equal. apply filter_all.
  intros k Hk ->. apply (cache_dom _ _ Hok) in Hk. rewrite Hnone in Hk. by destruct Hk.
Qed.

(** Evidence is not part of the cache. *)
Lemma record_ok kind key reason s : cache_ok capacity s -> cache_ok capacity (record_key kind key reason s).
Proof. by intros []; split. Qed.

Lemma set_inflight_ok i s : cache_ok capacity s -> cache_ok capacity (set_inflight i s).
Proof. by intros []; split. Qed.

(** ** Operations *)

Lemma get_hit s key c : cache_ok capacity s -> 1 <= capacity -> entries s !! key = Some c ->
  cache_ok capacity (cache_get s key).1 /\ recency (cache_get s key).1 = lru_touch capacity key c (recency s).
Proof.
  intros Hok Hcap Hc. unfold cache_get. rewrite Hc. cbn. rewrite remove_first_filter by apply Hok.
  assert (Hkey : key ∈ order s) by (apply (cache_dom _ _ Hok); by eexists).
  split.
  - destruct Hok as [Hn Hd Hf Hg]. split; [..|done|done]; cbn.
    + apply NoDup_app. split_and!; [by apply NoDup_filter| |apply NoDup_singleton].
      intros k [Hne _]%list_elem_of_filter ->%list_elem_of_singleton. done.
    + intros k. rewrite elem_of_app, list_elem_of_filter, list_elem_of_singleton, <- Hd.
      destruct (decide (k = key)) as [->|Hne]; [tauto|]. tauto.
  - unfold recency, lru_touch. cbn. rewrite omap_app, filter_recency. cbn. unfold lookup_pair at 2. rewrite Hc. cbn.
    f_equal. pose proof (order_length s Hok) as Hlen. pose proof (cache_fits _ _ Hok) as Hfit.
    assert (Hlt : length (omap (lookup_pair (entries s)) (filter (fun k => k <> key) (order s))) < capacity).
    { eapply Nat.le_lt_trans; [apply omap_length_le|]. pose proof (length_filter_lt (fun k => k <> key) (order s) key).
      naive_solver lia. }
    replace (S _ - capacity) with 0 by lia. done.
Qed.

(** Room for one more: at most the oldest entry is gone. *)
Lemma evict_room s : cache_ok capacity s -> 1 <= capacity ->
  let s1 := evict capacity (order s) s in
  cache_ok capacity s1 /\ size (entries s1) < capacity /\
  recency s1 = drop (S (length (recency s)) - capacity) (recency s).
Proof.
  intros Hok Hcap. pose proof (order_length s Hok) as Hlen. pose proof (recency_length s Hok) as Hrec.
  pose proof Hok as [Hn Hd Hf Hg]. cbn zeta.
  destruct (order s) as [|k rest] eqn:Ho; [cbn in *; split_and!; [done|lia|]; replace (_ - capacity) with 0 by lia; done|].
  cbn [evict]. case_decide as Hfull; [|split_and!; [done|lia|]; replace (_ - capacity) with 0 by lia; done].
  set (s2 := record_key _ _ _ _). apply NoDup_cons in Hn as [Hk Hrest].
  destruct (proj1 (Hd k) ltac:(left)) as [c Hc].
  assert (Hsize : size (entries s2) = pred (size (entries s))) by (apply map_size_delete_Some; by eexists).
  assert (Hstop : evict capacity rest s2 = s2).
  { destruct rest; [done|]. cbn [evict]. rewrite decide_False; [done|]. cbn -[size] in *. lia. }
  rewrite Hstop. split_and!; [split|rewrite Hsize; lia|].
  - done.
  - intros x. cbn. specialize (Hd x). rewrite elem_of_cons in Hd.
    destruct (decide (x = k)) as [->|Hne]; [rewrite lookup_delete_eq; split; [done|by intros []]|].
    rewrite lookup_delete_ne by done. rewrite <- Hd. naive_solver.
  - rewrite Hsize. lia.
  - intros x y. cbn. intros [_ Hx]%lookup_delete_Some. by apply Hg.
  - rewrite Hrec, Hlen. replace (S (size (entries s)) - capacity) with 1 by lia.
    unfold recency. rewrite Ho. cbn. unfold lookup_pair at 2. rewrite Hc. cbn. rewrite drop_0.
    apply omap_pair_ext. intros x Hx. rewrite lookup_delete_ne; [done|]. by intros ->.
Qed.

Lemma evict_entries o s k c : entries (evict capacity o s) !! k = Some c -> entries s !! k = Some c.
Proof.
  revert s. induction o as [|x o IH]; intros s; [done|]. cbn. case_decide; [|done].
  intros Hk%IH. cbn in Hk. by apply lookup_delete_Some in Hk as [_ Hk].
Qed.

Lemma insert_miss s indexed c : cache_ok capacity s -> 1 <= capacity ->
  entries s !! key_of indexed = None -> genuine (indexed_contract_digest indexed) c ->
  cache_ok capacity (cache_insert capacity indexed c s) /\
  recency (cache_insert capacity indexed c s) = lru_touch capacity (key_of indexed) c (recency s).
Proof.
  intros Hok Hcap Hnone Hgen. unfold cache_insert. rewrite Hnone. cbn zeta. unfold lru_touch.
  rewrite recency_absent by done. destruct (evict_room s Hok Hcap) as (Hok1 & Hroom & Hrec).
  assert (Hmiss : entries (evict capacity (order s) s) !! key_of indexed = None).
  { destruct (entries (evict capacity (order s) s) !! key_of indexed) eqn:Hx; [|done].
    apply evict_entries in Hx. congruence. }
  set (s1 := evict _ _ _) in *. destruct Hok1 as [Hn Hd Hf Hg]. split; [split|].
  - cbn. apply NoDup_app. split_and!; [done| |apply NoDup_singleton].
    intros k Hk ->%list_elem_of_singleton. apply Hd in Hk. rewrite Hmiss in Hk. by destruct Hk.
  - intros k. cbn. rewrite elem_of_app, list_elem_of_singleton, lookup_insert_is_Some, Hd.
    destruct (decide (k = key_of indexed)); naive_solver.
  - cbn. rewrite map_size_insert_None by done. lia.
  - intros k y. cbn. intros [[<- <-]|[_ Hy]]%lookup_insert_Some; [done|by apply Hg].
  - rewrite <- Hrec. unfold recency. cbn. rewrite omap_app. cbn. unfold lookup_pair at 2.
    rewrite lookup_insert_eq. cbn. f_equal. apply omap_pair_ext. intros k Hk. rewrite lookup_insert_ne; [done|].
    intros <-. apply Hd in Hk. rewrite Hmiss in Hk. by destruct Hk.
Qed.

Lemma evict_inflight o s : inflight (evict capacity o s) = inflight s.
Proof. revert s. induction o as [|x o IH]; intros s; [done|]. cbn. case_decide; [by rewrite IH|done]. Qed.

Definition loaded (indexed : IndexedCapability) (s s' : CacheInner) (r : Result HydrationError CapabilityContract) : Prop :=
  cache_ok capacity s' /\ inflight s' = inflight s /\
  match r with
  | Ok c => genuine (indexed_contract_digest indexed) c /\
      recency s' = lru_touch capacity (key_of indexed) c (recency s)
  | Err _ => recency s' = recency s
  end.

Lemma leader_step files index indexed s s' r :
  cache_ok capacity s -> 1 <= capacity -> entries s !! key_of indexed = None ->
  hydrate_leader files capacity index indexed s = (s', r) -> loaded indexed s s' r.
Proof.
  intros Hok Hcap Hnone. unfold hydrate_leader.
  assert (Hfail : forall reason, hydration_fail indexed reason s = (s', r) -> loaded indexed s s' r).
  { intros reason [= <- <-]. split_and!; [by apply record_ok|done..]. }
  destruct (index_source _ _ _) as [source|]; [|by apply Hfail].
  destruct (files _) as [bytes|]; [|by apply Hfail].
  case_bool_decide as Hdigest; cbn [negb]; [|by apply Hfail].
  destruct (from_utf8_ok bytes) eqn:Hutf; cbn [negb]; [|by apply Hfail].
  destruct (parse_contract _) as [c|] eqn:Hp; [|by apply Hfail]. intros [= <- <-].
  assert (Hgen : genuine (indexed_contract_digest indexed) c) by (by exists bytes).
  destruct (insert_miss s indexed c Hok Hcap Hnone Hgen) as [Hok1 Hrec]. split_and!; [done| |done..].
  unfold cache_insert. rewrite Hnone. cbn. apply evict_inflight.
Qed.
End cache.

(** C7: hydration refines a least-recently-used cache of fixed capacity.  From a
    consistent cache, a call that succeeds leaves the cache that the reference has
    after touching the capability, and returns the contract that was cached or one
    parsed from a text with the digest of the index; a call that fails leaves the
    cached entries and their order alone; and the cache stays consistent. *)
Theorem hydration_refines_lru `{Trust, ContractCodec} files capacity index id version s s' r :
  consistent capacity s -> 1 <= capacity ->
  hydrate files capacity index id version s = (s', r) ->
  consistent capacity s' /\
  match r with
  | Ok c => exists indexed, index_get index id version = Some indexed /\
      genuine (indexed_contract_digest indexed) c /\
      (forall cached, entries s !! key_of indexed = Some cached -> c = cached) /\
      recency s' = lru_touch capacity (key_of indexed) c (recency s)
  | Err _ => recency s' = recency s
  end.
Proof.
  intros [Hok Hidle] Hcap. unfold hydrate. destruct (index_get index id version) as [indexed|] eqn:Hix.
  2: { intros [= <- <-]. split; [by split; [apply record_ok|]|done]. }
  cbn zeta. destruct (entries s !! key_of indexed) as [cached|] eqn:Hc.
  - destruct (get_hit capacity (record_key IndexLookup (key_of indexed) "indexed_capability_found" s) (key_of indexed)
      cached (record_ok _ _ _ _ _ Hok) Hcap Hc) as [Hok1 Hrec].
    unfold cache_get in *. cbn [entries record_key] in *. rewrite Hc in *. intros [= <- <-].
    split; [by split; [apply record_ok|]|].
    exists indexed. split_and!; [done|by apply (cache_genuine _ _ Hok (key_of indexed))|congruence|done].
  - unfold cache_get. cbn [entries inflight record_key]. rewrite Hc. cbn [inflight record_key].
    rewrite Hidle, lookup_empty. cbn [default].
    destruct (hydrate_leader _ _ _ _ _) as [s2 r2] eqn:Hl. intros [= <- <-].
    apply leader_step in Hl as (Hok2 & Hin & Hr); [|by apply record_ok, set_inflight_ok, record_ok|done..].
    split; [split; [by apply set_inflight_ok|]|].
    + cbn. rewrite Hin. cbn. by rewrite delete_insert_eq, delete_empty.
    + destruct r2 as [c|e]; [|done]. destruct Hr as [Hg Hrec]. exists indexed.
      split_and!; [done|done|congruence|done].
Qed.

(** ** A cache of one entry *)

#[local] Instance lru_trust : Trust := {|
  sha256 := fun bytes => bytes; PublicKey := unit; public_key_from_bytes := fun _ => None;
  ed25519_verify := fun _ _ _ => false; is_governed_artifact_path := fun _ => false |}.

#[local] Instance lru_codec : ContractCodec := {| parse_contract := fun _ => Some sample_contract |}.

Definition lru_entry (id digest : string) : IndexedCapability := {|
  app_id := "app"; app_version := "1"; component_id := "c"; component_version := "1"; indexed_capability_id := id;
  indexed_capability_version := "1"; indexed_contract_digest := digest; artifact_digest := None |}.

Definition lru_source (path : string) : IndexedSource :=
  {| source_contract := path; source_artifact := ""; source_manifest := "" |}.

Definition lru_index : CapabilityMetadataIndex := {|
  index_entries := {[ "a@1" := lru_entry "a" "sha256:61"; "b@1" := lru_entry "b" "sha256:62" ]};
  index_sources := {[ "a@1" := lru_source "a"; "b@1" := lru_source "b" ]} |}.

Definition after_a : CacheInner :=
  (hydrate (fun path => Some (text_bytes path)) 1 lru_index "a" "1" empty_cache).1.

Lemma empty_consistent : consistent 1 empty_cache.
Proof.
  split; [split; cbn; [constructor| |rewrite map_size_empty; lia|done]|done].
  intros k. rewrite lookup_empty. split; [by intros ?%elem_of_nil|by intros []].
Qed.

Lemma hydration_refines_lru_witness : exists s',
  hydrate (fun path => Some (text_bytes path)) 1 lru_index "b" "1" after_a = (s', Ok sample_contract) /\
  recency s' = [(key_of (lru_entry "b" "sha256:62"), sample_contract)].
Proof.
  exists (hydrate (fun path => Some (text_bytes path)) 1 lru_index "b" "1" after_a).1.
  assert (Hrun : hydrate (fun path => Some (text_bytes path)) 1 lru_index "b" "1" after_a =
    ((hydrate (fun path => Some (text_bytes path)) 1 lru_index "b" "1" after_a).1, Ok sample_contract))
    by (vm_compute; reflexivity).
  split; [exact Hrun|].
  assert (Hfirst : hydrate (fun path => Some (text_bytes path)) 1 lru_index "a" "1" empty_cache =
    (after_a, Ok sample_contract)) by (vm_compute; reflexivity).
  pose proof (proj1 (hydration_refines_lru _ 1 lru_index "a" "1" _ _ _ empty_consistent (le_n 1) Hfirst)) as after_a_consistent.
  destruct (hydration_refines_lru _ 1 lru_index "b" "1" after_a _ _ after_a_consistent (le_n 1) Hrun)
    as [_ (indexed & Hix & _ & _ & Hrec)].
  vm_compute in Hix. injection Hix as <-. rewrite Hrec. vm_compute. reflexivity.
Defined.
