(* ===== verification/WorkflowGraph.v ===== *)
(** * The cycle check of loaded workflows

    [validate_workflow_against_index], [workflow_has_cycle] and [dfs_cycle] of
    [crates/traverse-runtime/src/workspace_lazy.rs], and that the depth-first search
    reports a cycle exactly when the direct edges have one.  The search takes fuel,
    two more than the number of nodes; it never runs out. *)
From S2P Require Import Prelude Json Contract Registry Hydration.

(** ** Definitions *)

Definition node_ids (definition : WorkflowDefinition) : gset string := list_to_set (node_id <$> nodes definition).

(** [adjacency.get(node).into_iter().flatten()] *)
Definition adjacency (es : list WorkflowEdge) (ids : gset string) (node : string) : list string :=
  if decide (node ∈ ids) then
    to <$> List.filter (fun e => bool_decide (trigger e = Direct) && bool_decide (from e = node)) es
  else [].

(** Nodes on the stack and nodes done. *)
Abbreviation Search := (gset string * gset string)%type.

(** [Iterator::any] with a predicate that updates the search. *)
Fixpoint any_cycle (visit : string -> Search -> option (bool * Search)) (targets : list string) (s : Search)
    : option (bool * Search) :=
  match targets with
  | [] => Some (false, s)
  | next :: rest =>
      match visit next s with
      | Some (false, s) => any_cycle visit rest s
      | found => found
      end
  end.

Fixpoint dfs_cycle (fuel : nat) (adjacent : string -> list string) (node : string) (s : Search)
    : option (bool * Search) :=
  match fuel with
  | 0 => None
  | S fuel' =>
      let '(visiting, visited) := s in
      if decide (node ∈ visited) then Some (false, s)
      else if decide (node ∈ visiting) then Some (true, s)
      else
        match any_cycle (dfs_cycle fuel' adjacent) (adjacent node) ({[node]} ∪ visiting, visited) with
        | Some (cyclic, (visiting, visited)) => Some (cyclic, (visiting ∖ {[node]}, {[node]} ∪ visited))
        | None => None
        end
  end.

(** [None] when the fuel is spent. *)
Definition workflow_has_cycle (es : list WorkflowEdge) (ids : gset string) : option bool :=
  fst <$> any_cycle (dfs_cycle (2 + size ids) (adjacency es ids)) (btree_elements ids) (∅, ∅).

(** The checks in order; an error is its message. *)
Definition validate_workflow_against_index (definition : WorkflowDefinition) (index : CapabilityMetadataIndex)
    : Result string unit :=
  let ids := node_ids definition in
  if negb (bool_decide (start_node definition ∈ ids)) then
    Err "workflow start_node is not present in the definition"
  else
    match find_first (fun t => negb (bool_decide (t ∈ ids))) (terminal_nodes definition) with
    | Some t => Err ("workflow terminal node " +:+ t +:+ " is not present in the definition")
    | None =>
        match find_first (fun n => bool_decide
                (index_get index (node_capability_id n) (node_capability_version n) = None)) (nodes definition) with
        | Some n => Err ("workflow node " +:+ node_id n +:+ " references capability " +:+ node_capability_id n
            +:+ "@" +:+ node_capability_version n +:+ " missing from the metadata index")
        | None =>
            match find_first (fun e => negb (bool_decide (from e ∈ ids) && bool_decide (to e ∈ ids))) (edges definition) with
            | Some e => Err ("workflow edge " +:+ edge_id e +:+ " references a missing node")
            | None =>
                match workflow_has_cycle (edges definition) ids with
                | Some false => Ok tt
                | _ => Err "workflow topology contains a cycle"
                end
            end
        end
    end.

(** ** Depth-first search *)

Section dfs.
Context (adjacent : string -> list string).

Definition step (x y : string) : Prop := y ∈ adjacent x.

(** Nodes done have only done successors and lie on no cycle. *)
Record done_ok (visited : gset string) : Prop := {
  done_closed : forall x y, x ∈ visited -> step x y -> y ∈ visited;
  done_acyclic : forall x, x ∈ visited -> ~ tc step x x }.

Lemma done_reach visited x y : done_ok visited -> x ∈ visited -> tc step x y -> y ∈ visited.
Proof. intros [Hc _] Hx Hxy. induction Hxy as [x y Hs|x y z Hs _ IH]; eauto. Qed.

Lemma done_add visited x :
  done_ok visited -> x ∉ visited -> (forall y, step x y -> y ∈ visited) -> done_ok ({[x]} ∪ visited).
Proof.
  intros Hok Hx Hy. split.
  - intros z y Hz Hs. apply elem_of_union_r. apply elem_of_union in Hz as [->%elem_of_singleton|Hz]; [by apply Hy|].
    by eapply (done_closed _ Hok).
  - intros z Hz Hcycle. apply elem_of_union in Hz as [->%elem_of_singleton|Hz]; [|by eapply (done_acyclic _ Hok)].
    apply Hx. inversion Hcycle as [? ? Hs|? y ? Hs Hr]; subst; [by apply Hy|].
    eapply done_reach; [done|by apply Hy|done].
Qed.

(** What one call guarantees, given that the stack leads to the node. *)
Definition outcome_ok (goal : gset string -> Prop) (s : Search) (r : option (bool * Search)) : Prop :=
  match r with
  | None => True
  | Some (true, _) => exists x, tc step x x
  | Some (false, (visiting, visited)) =>
      visiting = s.1 /\ s.2 ⊆ visited /\ done_ok visited /\ visiting ## visited /\ goal visited
  end.

Definition visit_ok (visit : string -> Search -> option (bool * Search)) : Prop := forall node s,
  done_ok s.2 -> s.1 ## s.2 -> (forall v, v ∈ s.1 -> tc step v node) ->
  outcome_ok (fun visited => node ∈ visited) s (visit node s).

Lemma any_ok visit targets s :
  visit_ok visit -> done_ok s.2 -> s.1 ## s.2 ->
  (forall v t, v ∈ s.1 -> t ∈ targets -> tc step v t) ->
  outcome_ok (fun visited => forall t, t ∈ targets -> t ∈ visited) s (any_cycle visit targets s).
Proof.
  intros Hvisit. revert s. induction targets as [|t rest IH]; intros [visiting visited] Hok Hd Hstack; cbn in *.
  { split_and!; try done. by intros t ?%elem_of_nil. }
  pose proof (Hvisit t (visiting, visited) Hok Hd) as Ht. cbn in Ht.
  assert (Hv : forall v, v ∈ visiting -> tc step v t) by (intros v Hv; apply Hstack; [done|left]).
  specialize (Ht Hv). destruct (visit t (visiting, visited)) as [[[] s1]|]; cbn in *; [done| |done].
  destruct s1 as [visiting1 visited1]. destruct Ht as (-> & Hsub & Hok1 & Hd1 & Hin).
  assert (Hrest : forall v t', v ∈ visiting -> t' ∈ rest -> tc step v t') by (intros; apply Hstack; [done|by right]).
  specialize (IH (visiting, visited1) Hok1 Hd1 Hrest). cbn in IH.
  destruct (any_cycle visit rest (visiting, visited1)) as [[[] [visiting2 visited2]]|]; cbn in *; [done| |done].
  destruct IH as (-> & Hsub2 & Hok2 & Hd2 & Hin2). split_and!; [done|set_solver|done|done|].
  intros t' [->|Ht']%elem_of_cons; set_solver.
Qed.

Lemma dfs_ok fuel : visit_ok (dfs_cycle fuel adjacent).
Proof.
  induction fuel as [|fuel IH]; intros node [visiting visited] Hok Hd Hstack; [done|]. cbn in *.
  case_decide as Hvisited; [done|]. case_decide as Hvisiting; [exists node; by apply Hstack|].
  pose proof (any_ok (dfs_cycle fuel adjacent) (adjacent node) ({[node]} ∪ visiting, visited) IH Hok) as Hany.
  cbn in Hany. assert (Hd' : {[node]} ∪ visiting ## visited) by set_solver.
  assert (Hstack' : forall v t, v ∈ {[node]} ∪ visiting -> t ∈ adjacent node -> tc step v t).
  { intros v t [->%elem_of_singleton|Hv]%elem_of_union Ht; [by apply tc_once|].
    eapply tc_r; [by apply Hstack|done]. }
  specialize (Hany Hd' Hstack').
  destruct (any_cycle _ _ _) as [[[] [visiting1 visited1]]|]; cbn in *; [done| |done].
  destruct Hany as (-> & Hsub & Hok1 & Hd1 & Hall).
  assert (node ∉ visited1) by set_solver.
  split_and!; [set_solver|set_solver|by apply done_add|set_solver|set_solver].
Qed.

(** The fuel is enough when it exceeds the declared nodes that are not on the stack. *)
Lemma dfs_fuel (ids : gset string) fuel node (s : Search) :
  (forall x, x ∉ ids -> adjacent x = []) -> 1 + size (ids ∖ s.1) < fuel ->
  exists r, dfs_cycle fuel adjacent node s = Some r /\ (r.1 = false -> r.2.1 = s.1).
Proof.
  intros Hids. revert node s. induction fuel as [|fuel IH]; intros node [visiting visited] Hf; [lia|].
  cbn [dfs_cycle fst] in *.
  case_decide; [eexists; by split|]. case_decide as Hvisiting; [by eexists|].
  assert (Hany : forall targets s, s.1 = {[node]} ∪ visiting -> (targets = [] \/ node ∈ ids) ->
    exists r, any_cycle (dfs_cycle fuel adjacent) targets s = Some r /\ (r.1 = false -> r.2.1 = {[node]} ∪ visiting)).
  { induction targets as [|t rest IHt]; intros s Hs Hnode; cbn; [by eexists|].
    destruct Hnode as [|Hnode]; [done|].
    destruct (IH t s) as ([c s1] & -> & Hc).
    { rewrite Hs. assert (size (ids ∖ ({[node]} ∪ visiting)) < size (ids ∖ visiting)); [|lia].
      apply subset_size. set_solver. }
    destruct c; [by eexists|]. apply IHt; [|by right]. rewrite <- Hs. by apply Hc. }
  assert (Hnode : adjacent node = [] \/ node ∈ ids).
  { destruct (decide (node ∈ ids)); [by right|left; by apply Hids]. }
  match goal with |- context [any_cycle _ _ ?s] =>
    destruct (Hany (adjacent node) s eq_refl Hnode) as ([c [v1 v2]] & -> & Hc) end.
  eexists; split; [done|]. cbn in *. intros Hfalse. rewrite (Hc Hfalse). set_solver.
Qed.

Lemma any_fuel (ids : gset string) fuel targets (s : Search) :
  (forall x, x ∉ ids -> adjacent x = []) -> 1 + size (ids ∖ s.1) < fuel ->
  is_Some (any_cycle (dfs_cycle fuel adjacent) targets s).
Proof.
  intros Hids. revert s. induction targets as [|t rest IH]; intros s Hf; cbn; [by eexists|].
  destruct (dfs_fuel ids fuel t s Hids Hf) as ([c s1] & -> & Hc). destruct c; [by eexists|].
  apply IH. cbn in Hc. by rewrite Hc.
Qed.
End dfs.

(** ** The check *)

(** A direct edge that leaves a declared node. *)
Definition direct_step (es : list WorkflowEdge) (ids : gset string) (x y : string) : Prop :=
  x ∈ ids /\ exists e, e ∈ es /\ trigger e = Direct /\ from e = x /\ to e = y.

Lemma step_direct es ids x y : step (adjacency es ids) x y <-> direct_step es ids x y.
Proof.
  unfold step, adjacency, direct_step. case_decide as Hx; [|set_solver].
  rewrite list_elem_of_fmap. setoid_rewrite list_elem_of_In at 1. setoid_rewrite filter_In.
  setoid_rewrite andb_true_iff. setoid_rewrite bool_decide_eq_true. setoid_rewrite <- list_elem_of_In. naive_solver.
Qed.

Lemma tc_step_direct es ids x y : tc (step (adjacency es ids)) x y <-> tc (direct_step es ids) x y.
Proof.
  split; intros Hxy; induction Hxy as [x y Hs|x y z Hs _ IH].
  1, 3: by apply tc_once, step_direct. all: eapply tc_l; [by apply step_direct|done].
Qed.

Lemma direct_source es ids x y : tc (direct_step es ids) x y -> x ∈ ids.
Proof. by intros [? ? []|? ? ? []]. Qed.

Lemma cycle_check es ids : exists cyclic,
  workflow_has_cycle es ids = Some cyclic /\ (cyclic = true <-> exists x, tc (direct_step es ids) x x).
Proof.
  assert (Hids : forall x, x ∉ ids -> adjacency es ids x = []).
  { intros x Hx. unfold adjacency. by rewrite decide_False. }
  destruct (any_fuel (adjacency es ids) ids (2 + size ids) (btree_elements ids) (∅, ∅) Hids) as [[cyclic s] Hrun].
  { cbn. assert (size (ids ∖ ∅) <= size ids); [|lia]. apply subseteq_size. set_solver. }
  pose proof (any_ok (adjacency es ids) _ (btree_elements ids) (∅, ∅)
    (dfs_ok (adjacency es ids) (2 + size ids))) as Hok.
  rewrite Hrun in Hok. unfold workflow_has_cycle. rewrite Hrun. exists cyclic. split; [done|].
  destruct cyclic.
  - destruct Hok as [x Hx]; [split; set_solver|set_solver|set_solver|].
    split; [|done]. exists x. by apply tc_step_direct.
  - destruct s as [visiting visited].
    destruct Hok as (_ & _ & Hdone & _ & Hall); [split; set_solver|set_solver|set_solver|].
    split; [done|]. intros [x Hx]. exfalso. eapply (done_acyclic _ _ Hdone); [|by apply tc_step_direct].
    apply Hall, btree_elements_elem. by eapply direct_source.
Qed.

(** C5: the cycle check of a loaded workflow ends, and reports a cycle exactly when
    the direct edges that leave declared nodes have one. *)
Theorem workflow_cycle_check_exact es ids : exists cyclic,
  workflow_has_cycle es ids = Some cyclic /\ (cyclic = true <-> exists x, tc (direct_step es ids) x x).
Proof. apply cycle_check. Qed.
