(* ===== verification/Router.v ===== *)
(** * The host interfaces and the placement router

    The traits a runtime is built over ([LocalExecutor], [EventBroker],
    [RuntimeEventSink]) as the class [Host], the state a runtime shares with its
    callers ([Process]), and [crates/traverse-runtime/src/router/mod.rs] with the
    trace entries of [trace/] and the executor types of [executor/mod.rs].  What
    the clock reads is an argument. *)
From S2P Require Import Prelude Effect Json Placement RuntimeInit Contract Registry Security Events Broker Hydration.
From Stdlib Require Import SpecFloat Ascii.

(** ** Executors *)

Inductive LocalExecutionFailureCode :=
  | LocalExecutionFailed | LocalTimeout | LocalInvalidInput | LocalResourceExhausted | LocalConstraintViolated.

Record LocalExecutionFailure := {
  local_failure_code : LocalExecutionFailureCode;
  local_failure_message : string }.

Record LocalExecutionOutput := { local_value : Value; local_emitted_events : list TraverseEvent }.

Inductive ArtifactType := Native | Wasm.

Record ExecutorCapability := {
  executor_capability_id : string;
  executor_artifact_type : ArtifactType;
  wasm_binary_path : option string;
  wasm_checksum : option string;
  host_abi_version : option string;
  executor_emits : list EventReference;
  executor_service_type : ServiceType;
  executor_state_schema : option Value }.

(** [connector_invocation_evidence] is empty for the executors modelled. *)
Record ExecutorOutput := { executor_value : Value; executor_emitted_events : list TraverseEvent }.

Inductive ExecutorError :=
  | BinaryLoadFailed (msg : string)
  | ExecutorChecksumMismatch (expected actual : string)
  | RuntimeSetupFailed (msg : string)
  | MalformedWasmArtifact (error_code detail : string)
  | UnsupportedAbiVersion (error_code requested supported : string)
  | UnauthorizedHostImport (error_code abi_version module name : string)
  | ExecutorExecutionFailed (msg : string)
  | Timeout (msg : string)
  | ResourceExhausted (msg : string)
  | ResourceRequirementsExceedHost (msg : string)
  | OutputDeserializationFailed (msg : string)
  | InputNotCanonicalizable (msg : string)
  | UnsupportedArtifactType.

Definition display_executor_error (e : ExecutorError) : string :=
  match e with
  | BinaryLoadFailed msg => "binary load failed: " +:+ msg
  | ExecutorChecksumMismatch expected actual => "checksum mismatch: expected " +:+ expected +:+ ", got " +:+ actual
  | RuntimeSetupFailed msg => "runtime setup failed: " +:+ msg
  | MalformedWasmArtifact error_code detail => error_code +:+ ": " +:+ detail
  | UnsupportedAbiVersion error_code requested supported =>
      error_code +:+ ": requested Traverse Host ABI " +:+ requested +:+ ", supported " +:+ supported
  | UnauthorizedHostImport error_code abi_version module name =>
      error_code +:+ ": ABI " +:+ abi_version +:+ " does not allow import " +:+ module +:+ "::" +:+ name
  | ExecutorExecutionFailed msg => "execution failed: " +:+ msg
  | Timeout msg => "execution timed out: " +:+ msg
  | ResourceExhausted msg => "resource exhausted: " +:+ msg
  | ResourceRequirementsExceedHost msg | InputNotCanonicalizable msg => msg
  | OutputDeserializationFailed msg => "output deserialization failed: " +:+ msg
  | UnsupportedArtifactType => "unsupported artifact type for this executor"
  end.

(** [Display] of [EventError] *)
Definition display_event_error (e : EventError) : string :=
  match e with
  | ValidationRejected code => "event validation rejected: " +:+ code
  | LifecycleViolation msg => "lifecycle violation: " +:+ msg
  | UnregisteredEventType t => "unregistered event type: " +:+ t
  | InvalidCursor msg => "invalid cursor: " +:+ msg
  | CursorExpired ty oldest =>
      "cursor expired for event type '" +:+ ty +:+ "': oldest available cursor is " +:+ oldest
  | SubscriptionNotFound id => "subscription not found: " +:+ id
  | InvalidRetentionWindow msg => "invalid retention window: " +:+ msg
  | JournalWrite msg => "journal write failed: " +:+ msg
  | JournalWriteTimeout msg => "journal_write_timeout: " +:+ msg
  | JournalRead msg => "journal read failed: " +:+ msg
  end.

(** ** The host *)

(** [trait EventBroker], the operations the runtime calls. *)
Class RuntimeBroker (B : Type) := {
  broker_publish : B -> TraverseEvent -> B * Result EventError unit;
  broker_subscribe : B -> string -> string -> B * Result EventError Subscription;
  broker_poll : B -> string -> nat -> B * Result EventError SubscriptionPoll;
  broker_cancel : B -> string -> B * Result EventError unit }.

(** [trait LocalExecutor] and the files it may change; [trait RuntimeEventSink]. *)
Class Host := {
  World : Type;
  local_execute : World -> ResolvedCapability -> Value ->
    World * Result LocalExecutionFailure LocalExecutionOutput;
  read_file : World -> string -> Result string Bytes;
  BrokerObject : Type;
  host_broker :: RuntimeBroker BrokerObject;
  SinkObject : Type;
  sink_emit : SinkObject -> TraverseEvent -> SinkObject * Result EventError unit }.

(** [DiscardEventBroker] *)
#[export] Instance discard_event_broker : RuntimeBroker unit := {|
  broker_publish := fun b _ => (b, Ok tt);
  broker_subscribe := fun b event_type _ => (b, Err (UnregisteredEventType event_type));
  broker_poll := fun b subscription_id _ => (b, Err (SubscriptionNotFound subscription_id));
  broker_cancel := fun b subscription_id => (b, Err (SubscriptionNotFound subscription_id)) |}.

(** [InProcessBroker] with the clock it reads, which moves on between calls. *)
Record ClockedBroker := { clock : Z; in_process : InProcessBroker }.

Definition at_clock {A} (run : InProcessBroker -> Z -> InProcessBroker * A) (b : ClockedBroker)
    : ClockedBroker * A :=
  let '(inner, a) := run (in_process b) (clock b) in
  ({| clock := clock b + 1; in_process := inner |}, a).

#[export] Instance in_process_runtime_broker `{Semver} : RuntimeBroker ClockedBroker := {|
  broker_publish := fun b e => at_clock (fun i now => publish i now e) b;
  broker_subscribe := fun b ty cursor => at_clock (fun i now => subscribe i now ty cursor) b;
  broker_poll := fun b sid n => at_clock (fun i now => poll i now sid n) b;
  broker_cancel := fun b sid => at_clock (fun i _ => cancel i sid) b |}.

(** ** Trace entries *)

Inductive TraceOutcome := Success | Failure.

(** [violations] and [model_resolution] are empty in every entry the router writes. *)
Record PublicTraceEntry := {
  public_id : string;
  public_source : string;
  public_event_type : string;
  public_datacontenttype : string;
  public_time : string;
  public_capability_id : string;
  public_placement_target : string;
  outcome : TraceOutcome;
  duration_ms : N }.

Record PrivateTraceEntry := {
  private_trace_id : string;
  inputs_hash : string;
  outputs_hash : string;
  resource_usage_ms : N }.

Abbreviation TraceStore := (gmap string (PublicTraceEntry * option PrivateTraceEntry)).

(** [PublicTraceEntry::new] *)
Definition new_public (id capability_id placement_target : string) (o : TraceOutcome) (duration : N)
    (time : string) : PublicTraceEntry := {|
  public_id := id; public_source := "traverse-runtime/" +:+ capability_id;
  public_event_type := "dev.traverse.execution.completed"; public_datacontenttype := "application/json";
  public_time := time; public_capability_id := capability_id; public_placement_target := placement_target;
  outcome := o; duration_ms := duration |}.

(** [PrivateTraceEntry::new] *)
Definition new_private `{Trust} (trace_id inputs outputs : string) (usage : N) : PrivateTraceEntry := {|
  private_trace_id := trace_id; inputs_hash := sha256_hex (text_bytes inputs);
  outputs_hash := sha256_hex (text_bytes outputs); resource_usage_ms := usage |}.

(** [TraceStore::insert] *)
Definition store_insert (public : PublicTraceEntry) (private : option PrivateTraceEntry) (store : TraceStore)
    : TraceStore :=
  <[public_id public := (public, private)]> store.

(** [TraceStore::get] *)
Definition store_get (store : TraceStore) (trace_id : string)
    : option (PublicTraceEntry * option PrivateTraceEntry) := store !! trace_id.

(** ** The shared state of a runtime *)

Record Process `{Host} := {
  world : World;
  broker : BrokerObject;
  sink : SinkObject;
  trace_store : TraceStore;
  trace_lock_poisoned : bool;
  hydration : CacheInner }.

Section process.
Context `{Host}.

Definition with_world (w : World) (p : Process) : Process := {|
  world := w; broker := broker p; sink := sink p; trace_store := trace_store p;
  trace_lock_poisoned := trace_lock_poisoned p; hydration := hydration p |}.

Definition with_broker (b : BrokerObject) (p : Process) : Process := {|
  world := world p; broker := b; sink := sink p; trace_store := trace_store p;
  trace_lock_poisoned := trace_lock_poisoned p; hydration := hydration p |}.

Definition with_sink (s : SinkObject) (p : Process) : Process := {|
  world := world p; broker := broker p; sink := s; trace_store := trace_store p;
  trace_lock_poisoned := trace_lock_poisoned p; hydration := hydration p |}.

Definition with_traces (t : TraceStore) (p : Process) : Process := {|
  world := world p; broker := broker p; sink := sink p; trace_store := t;
  trace_lock_poisoned := trace_lock_poisoned p; hydration := hydration p |}.

Definition with_hydration (h : CacheInner) (p : Process) : Process := {|
  world := world p; broker := broker p; sink := sink p; trace_store := trace_store p;
  trace_lock_poisoned := trace_lock_poisoned p; hydration := h |}.

(** An operation of the broker, on the shared state. *)
Definition on_broker {E A} (run : BrokerObject -> BrokerObject * Result E A) : Eff Process E A := fun p =>
  let '(b, r) := run (broker p) in (with_broker b p, r).

(** ** The router *)

Record RouterRequest := {
  router_capability_id : string;
  router_artifact_type : ArtifactType;
  router_contract : CapabilityContract;
  router_target_hint : option ExecutionTarget;
  router_runtime_snapshot : RuntimeSnapshot;
  router_input : Value;
  router_executor_capability : ExecutorCapability;
  trace_id_override : option string }.

Record ViolationRecord := { violation_code : string; violation_path : string; violation_message : string }.

Inductive RouterError :=
  | PlacementFailed (e : PlacementError)
  | ExecutorNotFound (artifact_type : string)
  | RouterExecutionFailed (msg : string)
  | RouterContractViolation (violations : list ViolationRecord)
  | TraceLockPoisoned
  | DurableTraceWriteFailed (msg : string).

Record RouterResponse := {
  response_output : Value;
  response_emitted_events : list TraverseEvent;
  response_trace_id : string;
  placement_decision : PlacementDecision }.

(** What a call of the router observes: the elapsed milliseconds, the time, and the
    trace id and time it would mint. *)
Record RouterReadings := {
  elapsed_ms : N;
  now_rfc3339 : string;
  minted_id : string;
  minted_time : string }.

(** [trait CapabilityExecutor] *)
Definition CapabilityExecutor : Type := ExecutorCapability -> Value -> Eff Process ExecutorError ExecutorOutput.

(** [DurableTraceConfig]: the sink, its failure as text, and the audit posture. *)
Record DurableTraceConfig := {
  durable_record : PublicTraceEntry -> PrivateTraceEntry -> Eff Process string unit;
  fail_closed : bool }.

Definition as_router_error {A} (m : Eff Process ExecutorError A) : Eff Process RouterError A := fun p =>
  match m p with
  | (p, Ok a) => (p, Ok a)
  | (p, Err e) => (p, Err (RouterExecutionFailed (display_executor_error e)))
  end.

(** The durable write, which only matters to a caller that fails closed. *)
Definition write_durable (durable : option DurableTraceConfig) (public : PublicTraceEntry)
    (private : PrivateTraceEntry) : Eff Process RouterError unit := fun p =>
  match durable with
  | None => (p, Ok tt)
  | Some d =>
      match durable_record d public private p with
      | (p, Err e) => (p, if fail_closed d then Err (DurableTraceWriteFailed e) else Ok tt)
      | (p, Ok _) => (p, Ok tt)
      end
  end.

Definition record_trace (public : PublicTraceEntry) (private : PrivateTraceEntry)
    : Eff Process RouterError unit := fun p =>
  if trace_lock_poisoned p then (p, Err TraceLockPoisoned)
  else (with_traces (store_insert public (Some private) (trace_store p)) p, Ok tt).

(** [let _ = self.event_broker.publish(..)] for every event. *)
Fixpoint publish_all (es : list TraverseEvent) (p : Process) : Process :=
  match es with
  | [] => p
  | e :: rest => publish_all rest (with_broker (broker_publish (broker p) e).1 p)
  end.

Definition publish_events (service : ServiceType) (es : list TraverseEvent)
    : Eff Process RouterError (list TraverseEvent) := fun p =>
  match service with
  | Subscribable => (publish_all es p, Ok es)
  | _ => (p, Ok [])
  end.

Definition evaluate_placement (request : RouterRequest) : Result RouterError PlacementDecision :=
  match evaluate_targets {| placement_capability_id := router_capability_id request;
          target_hint := router_target_hint request;
          runtime_snapshot := router_runtime_snapshot request |}
          (Contract.permitted_targets (router_contract request)) with
  | Ok decision => Ok decision
  | Err e => Err (PlacementFailed e)
  end.

Definition execute_with_executor `{Trust, SerdeJson} (durable : option DurableTraceConfig) (at_ : RouterReadings)
    (request : RouterRequest) (executor : CapabilityExecutor) : Eff Process RouterError RouterResponse :=
  decision ← lift (evaluate_placement request);
  exec_output ← as_router_error (executor (router_executor_capability request) (router_input request));
  let '(trace_id, time) :=
    match trace_id_override request with
    | Some override_id => (override_id, now_rfc3339 at_)
    | None => (minted_id at_, minted_time at_)
    end in
  let public := new_public trace_id (router_capability_id request) (debug_name (target decision)) Success
    (elapsed_ms at_) time in
  let private := new_private trace_id (String.string_of_list_ascii (to_vec (router_input request)))
    (String.string_of_list_ascii (to_vec (executor_value exec_output))) (elapsed_ms at_) in
  _ ← write_durable durable public private;
  _ ← record_trace public private;
  published ← publish_events (Contract.service_type (router_contract request))
    (executor_emitted_events exec_output);
  mret {| response_output := executor_value exec_output; response_emitted_events := published;
          response_trace_id := trace_id; placement_decision := decision |}.

(** [PlacementRouter::execute]: the registered executor for the artifact type. *)
Definition router_execute `{Trust, SerdeJson} (durable : option DurableTraceConfig) (at_ : RouterReadings)
    (registry : ArtifactType -> option CapabilityExecutor) (request : RouterRequest)
    : Eff Process RouterError RouterResponse :=
  match registry (router_artifact_type request) with
  | None => fail (ExecutorNotFound (match router_artifact_type request with Native => "Native" | Wasm => "Wasm" end))
  | Some executor => execute_with_executor durable at_ request executor
  end.

(** [NativeExecutor::execute] *)
Definition native_execute (handler : Value -> Result string Value) : CapabilityExecutor :=
  fun capability input =>
    match executor_artifact_type capability with
    | Native => lift (match handler input with
        | Ok value => Ok {| executor_value := value; executor_emitted_events := [] |}
        | Err message => Err (ExecutorExecutionFailed message)
        end)
    | Wasm => fail UnsupportedArtifactType
    end.
End process.
