(* ===== verification/Attempt.v ===== *)
(** * One attempt at a runtime request

    The helpers and terminal outcomes of [crates/traverse-runtime/src/lib.rs]:
    intake and validation of a request, evaluation of a candidate, the checks
    before execution, and the outcome each way an attempt can end builds. *)
From S2P Require Import Prelude Effect Json Pointer Canonical Placement Events RuntimeInit Contract Schema.
From S2P Require Import Request Lifecycle Registry Security Outcome Hydration Router.
From Stdlib Require Import Ascii.

(** The [semver] crate. *)
Class SemverCrate := {
  Version : Type;
  parse_version : string -> option Version;
  version_le : Version -> Version -> bool;
  parse_version_req : string -> option (Version -> bool) }.

(** The configuration of a [Runtime]. *)
Record Runtime := {
  registries : Registries;
  observability_config : RuntimeObservabilityConfig;
  security : RuntimeSecurityConfig;
  capability_metadata : CapabilityMetadataIndex;
  hydration_capacity : nat;
  indexed_workflows : gmap (string * string) WorkflowDefinition }.

(** ** Intake *)

Definition non_empty (value : string) : bool := negb (is_blank value).

Definition with_context (c : RuntimeContext) (r : RuntimeRequest) : RuntimeRequest := {|
  request_kind := request_kind r; request_schema_version := request_schema_version r;
  request_id := request_id r; intent := intent r; input := input r; lookup_scope := lookup_scope r;
  context := c; request_governing_spec := request_governing_spec r |}.

(** The context with [caller] and [identity] replaced. *)
Definition with_caller (caller_ : option string) (identity_ : option RuntimeIdentity) (c : RuntimeContext)
    : RuntimeContext := {|
  requested_target := requested_target c; correlation_id := correlation_id c; caller := caller_;
  traceparent := traceparent c; tracestate := tracestate c; metadata := metadata c; identity := identity_ |}.

Definition sanitized_request `{Trust, SerdeJson} (request : RuntimeRequest) : RuntimeRequest :=
  match caller (context request) with
  | None => request
  | Some token =>
      match derive_identity_from_jwt token with
      | Some derived => with_context (with_caller None (Some derived) (context request)) request
      | None => request
      end
  end.

Definition begin_attempt `{Trust, SerdeJson} (request : RuntimeRequest) (config : RuntimeObservabilityConfig)
    : AttemptContext * StateEmitter :=
  let request := sanitized_request request in
  let execution_id := EXECUTION_PREFIX +:+ request_id request in
  let trace_id := TRACE_PREFIX +:+ execution_id in
  let emitter := new_emitter execution_id (request_id request) in
  let emitter := push emitter LoadingRegistry RuntimeInitializationStarted
    (obj [("registry_status", Str "available");
          ("identity", option_value identity_value (identity (context request)))]) in
  let emitter := push emitter Ready RegistryLoaded (obj [("governing_spec", Str GOVERNING_SPEC)]) in
  ({| attempt_request := request; execution_id := execution_id; attempt_trace_id := trace_id;
      observability := config; attempt_verification := None; warnings := [] |}, emitter).

Definition invalid (m path : string) : option RuntimeError :=
  Some (runtime_error RequestInvalid m (obj [("path", Str path)])).

Definition is_exact_target (i : RuntimeIntent) : bool :=
  from_option non_empty false (intent_capability_id i) &&
  from_option non_empty false (intent_capability_version i).

Definition validate_request `{SemverCrate} (request : RuntimeRequest) : option RuntimeError :=
  let i := intent request in
  let exact_id := from_option non_empty false (intent_capability_id i) in
  let exact_version := from_option non_empty false (intent_capability_version i) in
  let has_key := from_option non_empty false (intent_key i) in
  let has_version_range := from_option non_empty false (version_range i) in
  if negb (bool_decide (request_kind request = RUNTIME_REQUEST_KIND)) then
    invalid "kind must equal runtime_request" "$.kind"
  else if negb (bool_decide (request_schema_version request = SUPPORTED_SCHEMA_VERSION)) then
    invalid "schema_version must equal 1.0.0" "$.schema_version"
  else if negb (bool_decide (request_governing_spec request = GOVERNING_SPEC)) then
    invalid "governing_spec must equal 006-runtime-request-execution" "$.governing_spec"
  else if is_blank (request_id request) then invalid "request_id must be non-empty" "$.request_id"
  else if allow_ambiguity (lookup_scope request) then
    invalid "allow_ambiguity must be false in this runtime slice" "$.lookup.allow_ambiguity"
  else if from_option (fun v => bool_decide (parse_version v = None)) false (intent_capability_version i) then
    invalid "capability_version must be valid semantic versioning" "$.intent.capability_version"
  else if negb (exact_id || has_key) then
    invalid "runtime intent must include capability_id or intent_key" "$.intent"
  else if exact_version && negb exact_id then
    invalid "capability_version requires capability_id" "$.intent.capability_version"
  else if has_version_range && negb exact_id then
    invalid "version_range requires capability_id" "$.intent.version_range"
  else if has_version_range && exact_version then
    invalid "version_range and capability_version are mutually exclusive" "$.intent.version_range"
  else None.

(** ** Candidates *)

Definition map_lookup_scope (s : RuntimeLookupScope) : LookupScope :=
  match s with PublicOnly => LookupPublicOnly | PreferPrivate => LookupPreferPrivate end.

Definition map_registry_scope (s : RegistryScope) : RuntimeRegistryScope :=
  match s with Public => RuntimePublic | Private => RuntimePrivate end.

Definition map_implementation_kind (k : ImplementationKind) : RuntimeImplementationKind :=
  match k with Executable => RuntimeExecutable | Workflow => RuntimeWorkflow end.

Definition map_lifecycle (l : Lifecycle) : RuntimeLifecycle :=
  match l with
  | Contract.Draft => RuntimeDraft
  | Contract.Active => RuntimeActive
  | Contract.Deprecated => RuntimeDeprecated
  | Retired => RuntimeRetired
  | Archived => RuntimeArchived
  end.

Definition runtime_candidate (r : CandidateReason) (capability : ResolvedCapability) : RuntimeCandidate := {|
  candidate_scope := map_registry_scope (record_scope (record capability));
  candidate_id := record_id (record capability);
  candidate_version := record_version (record capability);
  candidate_artifact_ref := artifact_ref (record capability);
  candidate_kind := map_implementation_kind (implementation_kind (record capability));
  candidate_lifecycle := map_lifecycle (record_lifecycle (record capability));
  candidate_reason := r |}.

(** [CandidateEvaluation]: eligible, or rejected for a reason. *)
Definition evaluate_candidate (candidate : ResolvedCapability) : Result RejectedCandidateReason unit :=
  if negb (is_runtime_eligible (lifecycle (contract candidate))) then Err LifecycleNotRunnable
  else
    match implementation_kind (record candidate) with
    | Workflow =>
        match workflow_ref (artifact candidate) with Some _ => Ok tt | None => Err ArtifactMissing end
    | Executable =>
        let e := Contract.execution (contract candidate) in
        if bool_decide (Local ∈ preferred_targets e)
           && match host_api_access (constraints e) with NoHostApi => true | ExceptionRequired => false end
           && match network_access (constraints e) with NetworkForbidden => true | NetworkRequired => false end
        then
          match binary (artifact candidate) with
          | Some b => if is_blank (location b) then Err ArtifactMissing else Ok tt
          | None => Ok tt
          end
        else Err NotRunnableLocally
    end.

(** ** Checks before execution *)

Definition validate_payload_against_contract (payload schema : Value) (c : RuntimeErrorCode) (m : string)
    : Result RuntimeError unit :=
  match validate_value_against_schema payload schema "" with
  | [] => Ok tt
  | errors => Err (runtime_error c m (obj [("violations", Array errors)]))
  end.

Definition canonical_input_check (value : Value) : Result RuntimeError unit :=
  match to_canonical_json value with
  | Ok _ => Ok tt
  | Err e => Err (runtime_error RequestInvalid
      "runtime request input cannot be fed to a guest as canonical JSON"
      (obj [("reason_code", Str (Canonical.error_code e)); ("detail", Str (display_error e))]))
  end.

Definition slashed (c : ascii) : ascii := if decide (c = "\"%char) then "/"%char else c.

Definition contains_drafts_segment (path : string) : bool :=
  existsb (fun segment => bool_decide (segment = "drafts"))
    (split_on "/"%char (String.string_of_list_ascii (slashed <$> text_bytes path))).

Definition supported_targets : list PlacementTarget := [LocalTarget].

Definition placement_not_attempted (requested : PlacementTarget) (r : PlacementDecisionReason)
    : PlacementDecisionRecord := {|
  placement_requested := requested; selected_target := None; placement_status := NotAttempted;
  placement_reason := r; supported_executor_targets := supported_targets |}.

Definition resolve_placement (requested : PlacementTarget) : Result RuntimeError PlacementDecisionRecord :=
  if decide (requested = LocalTarget) then
    Ok {| placement_requested := requested; selected_target := Some LocalTarget;
          placement_status := PlacementSelected; placement_reason := RequestedTargetSelected;
          supported_executor_targets := supported_targets |}
  else Err (runtime_error PlacementUnsupportedCode
    "requested placement target is not supported by the available executor set"
    (obj [("requested_target", target_value requested);
          ("supported_executor_targets", Array (target_value <$> supported_targets))])).

(** [read] is the outcome of [fs::read]. *)
Definition load_artifact_bytes_for_verification (read : string -> Result string Bytes)
    (selected : ResolvedCapability) : Result RuntimeError Bytes :=
  match binary (artifact selected) with
  | None => Ok []
  | Some bin =>
      match read (location bin), signature bin with
      | Ok bytes, _ => Ok bytes
      | Err _, None =>
          Ok (text_bytes (default (artifact_ref (record selected)) (binary_digest (artifact selected))))
      | Err error, Some _ => Err (runtime_error ArtifactMissingCode
          "artifact bytes could not be loaded for signature verification"
          (obj [("artifact_ref", Str (artifact_ref (record selected))); ("location", Str (location bin));
                ("code", Str "artifact_load_failed"); ("message", Str error)]))
      end
  end.

Definition artifact_verification_runtime_error (f : ArtifactVerificationFailure) : RuntimeError :=
  runtime_error ContractViolation "artifact signature verification failed before execution"
    (obj [("code", Str (failure_code f)); ("artifact_verification", verification_value (failure_record f))]).

Definition hydration_runtime_error (e : HydrationError) : RuntimeError :=
  let c :=
    if bool_decide (hydration_code e = "indexed_capability_missing") then CapabilityNotFound
    else if bool_decide (hydration_code e ∈ ["contract_digest_mismatch"; "contract_parse_failed"; "contract_not_utf8"])
    then ContractViolation
    else ArtifactMissingCode in
  runtime_error c "capability contract could not be hydrated"
    (obj [("reason_code", Str (hydration_code e))]).

Definition event_declared (emits_ : list EventReference) (e : TraverseEvent) : bool :=
  existsb (fun decl => bool_decide (RuntimeInit.event_id decl = event_type e)
    && bool_decide (event_version decl = Events.version e)) emits_.

Definition validate_natively_emitted_events (c : CapabilityContract) (es : list TraverseEvent)
    : Result string unit :=
  match es, Contract.service_type c with
  | [], _ => Ok tt
  | _, Subscribable =>
      match find_first (fun e => negb (event_declared (emits c) e)) es with
      | Some e => Err ("capability '" +:+ Contract.id c +:+ "' emitted an undeclared event " +:+ event_type e
          +:+ "@" +:+ Events.version e)
      | None => Ok tt
      end
  | _, _ => Err ("capability '" +:+ Contract.id c +:+ "' emitted events but its service_type is not Subscribable")
  end.

(** ** Outcomes *)

Record FailureContext := {
  failed_attempt : AttemptContext;
  failed_artifacts : FinishedStateMachineArtifacts;
  failed_collection : CandidateCollectionRecord;
  failed_selection : SelectionRecord;
  failed_execution : ExecutionRecord;
  failed_error : RuntimeError;
  failed_emitted_events : list EventReference;
  failed_workflow_evidence : option WorkflowTraversalEvidence }.

(** The trace and the result of an attempt from its parts; [terminal_failure] and
    the end of [successful_execution_outcome] fill the same records. *)
Definition assemble (attempt : AttemptContext) (finished : FinishedStateMachineArtifacts)
    (collection : CandidateCollectionRecord) (sel : SelectionRecord) (exec : ExecutionRecord)
    (status : RuntimeResultStatus) (output_ : option Value) (error_ : option RuntimeError)
    (emitted : list EventReference) (workflow : option WorkflowTraversalEvidence) : RuntimeExecutionOutcome :=
  let result_record := {| trace_result_status := status; trace_output := output_; trace_error := error_;
    trace_warnings := warnings attempt |} in
  let ts := finished_transitions finished in
  let validation := finished_validation finished in
  {| result := {|
       result_kind := RUNTIME_RESULT_KIND; result_schema_version := SUPPORTED_SCHEMA_VERSION;
       result_execution_id := execution_id attempt; result_request_id := request_id (attempt_request attempt);
       result_status := status; trace_ref := attempt_trace_id attempt; result_output := output_;
       result_error := error_; result_warnings := warnings attempt |};
     trace := {|
       trace_kind := RUNTIME_TRACE_KIND; trace_schema_version := SUPPORTED_SCHEMA_VERSION;
       trace_id := attempt_trace_id attempt; trace_execution_id := execution_id attempt;
       trace_request_id := request_id (attempt_request attempt); trace_governing_spec := GOVERNING_SPEC;
       trace_request := attempt_request attempt; decision_evidence := (collection, sel);
       state_progression := (finished_events finished, ts, validation);
       terminal_outcome := {| terminal_status := status; terminal_execution_status := execution_status exec;
         terminal_failure_reason := failure_reason exec; terminal_error := error_ |};
       trace_emitted_events := emitted; workflow_evidence := workflow; state_transitions := ts;
       state_machine_validation := validation; candidate_collection := collection; selection := sel;
       execution := exec; trace_result := result_record;
       otel_trace := otel_trace_record attempt ts sel exec result_record |};
     state_events := finished_events finished |}.

Definition terminal_failure (c : FailureContext) : RuntimeExecutionOutcome :=
  assemble (failed_attempt c) (failed_artifacts c) (failed_collection c) (failed_selection c)
    (failed_execution c) Errored None (Some (failed_error c)) (failed_emitted_events c)
    (failed_workflow_evidence c).

Definition not_started (p : PlacementDecisionRecord) (r : ExecutionFailureReason) (i : option RuntimeIdentity)
    : ExecutionRecord := {|
  placement := p; placement_target := placement_requested p; execution_status := NotStarted;
  execution_artifact_ref := None; started_at := None; completed_at := None; output_digest := None;
  failure_reason := Some r; artifact_verification := None; execution_identity := i |}.

Definition closed_in_error : Value := obj [("terminal_state", Str (runtime_state_name Error))].

Definition code_only (e : RuntimeError) : list (string * Value) := [("code", Str (error_code_name (code e)))].

Definition attempt_identity (attempt : AttemptContext) : option RuntimeIdentity :=
  identity (context (attempt_request attempt)).

Definition unreached_placement (attempt : AttemptContext) : PlacementDecisionRecord :=
  placement_not_attempted (requested_target (context (attempt_request attempt))) SelectionNotReached.

Definition invalid_request_outcome (attempt : AttemptContext) (emitter : StateEmitter) (error : RuntimeError)
    : RuntimeExecutionOutcome :=
  let emitter := push emitter EvaluatingConstraints CandidatesCollected
    (obj [("candidate_count", Num (PosInt 0))]) in
  let emitter := push emitter Error ConstraintValidationFailed
    (obj (code_only error ++ [("message", Str (message error))])) in
  let emitter := push emitter Ready ExecutionClosed closed_in_error in
  terminal_failure {|
    failed_attempt := attempt; failed_artifacts := finish emitter;
    failed_collection := {| collected_scope := PreferPrivate; candidates := []; rejected_candidates := [] |};
    failed_selection := {| selection_status := InvalidRequest; selected_capability_id := None;
      selected_capability_version := None; selection_failure := Some FailInvalidRequest;
      remaining_candidates := [] |};
    failed_execution := not_started (unreached_placement attempt) ContractInputInvalid (attempt_identity attempt);
    failed_error := error; failed_emitted_events := []; failed_workflow_evidence := None |}.

Definition hydration_failure_outcome (attempt : AttemptContext) (emitter : StateEmitter)
    (collection : CandidateCollectionRecord) (error : HydrationError) : RuntimeExecutionOutcome :=
  let e := hydration_runtime_error error in
  let emitter := push emitter Error NoMatch
    (obj (code_only e ++ [("reason_code", Str (hydration_code error))])) in
  let emitter := push emitter Ready ExecutionClosed closed_in_error in
  terminal_failure {|
    failed_attempt := attempt; failed_artifacts := finish emitter; failed_collection := collection;
    failed_selection := {| selection_status := SelectionNoMatch; selected_capability_id := None;
      selected_capability_version := None; selection_failure := Some FailNotRunnable;
      remaining_candidates := [] |};
    failed_execution := not_started (unreached_placement attempt) ArtifactNotRunnable (attempt_identity attempt);
    failed_error := e; failed_emitted_events := []; failed_workflow_evidence := None |}.

Definition no_eligible_error (attempt : AttemptContext) (rejected : list RejectedRuntimeCandidate)
    : RuntimeError :=
  match rejected with
  | [] => runtime_error CapabilityNotFound "no eligible capability matched the runtime request"
      (obj [("request_id", Str (request_id (attempt_request attempt)))])
  | _ => runtime_error CapabilityNotRunnable "matching capabilities were found but none were runnable locally"
      (obj [("rejected_candidates", Array (rejected_value <$> rejected))])
  end.

Definition no_eligible_outcome (attempt : AttemptContext) (emitter : StateEmitter)
    (collection : CandidateCollectionRecord) : RuntimeExecutionOutcome :=
  let rejected := rejected_candidates collection in
  let error := no_eligible_error attempt rejected in
  let reason := match rejected with [] => NoMatch | _ => ConstraintValidationFailed end in
  let emitter := push emitter Error reason (obj (code_only error)) in
  let emitter := push emitter Ready ExecutionClosed closed_in_error in
  terminal_failure {|
    failed_attempt := attempt; failed_artifacts := finish emitter; failed_collection := collection;
    failed_selection := {| selection_status := SelectionNoMatch; selected_capability_id := None;
      selected_capability_version := None;
      selection_failure := Some (if decide (code error = CapabilityNotFound) then FailNoMatch else FailNotRunnable);
      remaining_candidates := [] |};
    failed_execution := not_started (unreached_placement attempt) ArtifactNotRunnable (attempt_identity attempt);
    failed_error := error; failed_emitted_events := []; failed_workflow_evidence := None |}.

Definition ambiguous_outcome (attempt : AttemptContext) (emitter : StateEmitter)
    (collection : CandidateCollectionRecord) (r : CandidateReason) (eligible : list ResolvedCapability)
    : RuntimeExecutionOutcome :=
  let remaining := runtime_candidate r <$> eligible in
  let error := runtime_error CapabilityAmbiguous "runtime request matched more than one eligible capability"
    (obj [("remaining_candidates", Array (candidate_value <$> remaining))]) in
  let emitter := push emitter Error SelectionFailed (obj (code_only error)) in
  let emitter := push emitter Ready ExecutionClosed closed_in_error in
  terminal_failure {|
    failed_attempt := attempt; failed_artifacts := finish emitter; failed_collection := collection;
    failed_selection := {| selection_status := Ambiguous; selected_capability_id := None;
      selected_capability_version := None; selection_failure := Some FailAmbiguous;
      remaining_candidates := remaining |};
    failed_execution := not_started (unreached_placement attempt) ArtifactNotRunnable (attempt_identity attempt);
    failed_error := error; failed_emitted_events := []; failed_workflow_evidence := None |}.

Record ExecutionContext := {
  attempt : AttemptContext;
  emitter : StateEmitter;
  context_collection : CandidateCollectionRecord;
  context_selection : SelectionRecord }.

Record PreExecutionFailure := {
  pre_artifact_ref : option string;
  pre_failure_reason : ExecutionFailureReason;
  pre_placement : PlacementDecisionRecord;
  pre_error : RuntimeError;
  pre_verification : option ArtifactVerificationRecord }.

Definition target_of (p : PlacementDecisionRecord) : PlacementTarget :=
  default (placement_requested p) (selected_target p).

Definition code_and_details (e : RuntimeError) : Value := obj (code_only e ++ [("details", details e)]).

Definition pre_execution_failure_outcome (c : ExecutionContext) (failure : PreExecutionFailure)
    : RuntimeExecutionOutcome :=
  let reason := if decide (current_state (emitter c) = Selecting) then SelectionFailed
    else ConstraintValidationFailed in
  let em := push (emitter c) Error reason (code_and_details (pre_error failure)) in
  let em := push em Ready ExecutionClosed closed_in_error in
  terminal_failure {|
    failed_attempt := attempt c; failed_artifacts := finish em; failed_collection := context_collection c;
    failed_selection := context_selection c;
    failed_execution := {|
      placement := pre_placement failure; placement_target := target_of (pre_placement failure);
      execution_status := NotStarted; execution_artifact_ref := pre_artifact_ref failure;
      started_at := None; completed_at := None; output_digest := None;
      failure_reason := Some (pre_failure_reason failure);
      artifact_verification := pre_verification failure;
      execution_identity := attempt_identity (attempt c) |};
    failed_error := pre_error failure; failed_emitted_events := []; failed_workflow_evidence := None |}.

Record StartedExecution := { execution_started_at : string; started_placement : PlacementDecisionRecord }.

(** [start_selected_execution], with the emitter it advances. *)
Definition start_selected_execution (em : StateEmitter) (selected : ResolvedCapability)
    (p : PlacementDecisionRecord) (i : option RuntimeIdentity) : StateEmitter * StartedExecution :=
  let '(em, started_at) := next_timestamp em in
  let em := push em Executing CandidateSelected
    (obj [("capability_id", Str (record_id (record selected)));
          ("capability_version", Str (record_version (record selected)));
          ("artifact_ref", Str (artifact_ref (record selected)));
          ("requested_target", target_value (placement_requested p));
          ("selected_target", option_value target_value (selected_target p));
          ("placement_status", placement_status_value (placement_status p));
          ("placement_reason", placement_reason_value (placement_reason p));
          ("identity", option_value identity_value i)]) in
  (em, {| execution_started_at := started_at; started_placement := p |}).

Definition execution_failure_outcome (c : ExecutionContext) (selected : ResolvedCapability)
    (started : StartedExecution) (r : ExecutionFailureReason) (error : RuntimeError)
    (emitted : list EventReference) (workflow : option WorkflowTraversalEvidence) : RuntimeExecutionOutcome :=
  let em := push (emitter c) Error ExecutionFailed (code_and_details error) in
  let '(em, completed_at) := next_timestamp em in
  let em := push em Ready ExecutionClosed closed_in_error in
  terminal_failure {|
    failed_attempt := attempt c; failed_artifacts := finish em; failed_collection := context_collection c;
    failed_selection := context_selection c;
    failed_execution := {|
      placement := started_placement started; placement_target := target_of (started_placement started);
      execution_status := ExecutionFailedStatus;
      execution_artifact_ref := Some (artifact_ref (record selected));
      started_at := Some (execution_started_at started); completed_at := Some completed_at;
      output_digest := None; failure_reason := Some r;
      artifact_verification := attempt_verification (attempt c);
      execution_identity := attempt_identity (attempt c) |};
    failed_error := error; failed_emitted_events := emitted; failed_workflow_evidence := workflow |}.

Definition capability_details (selected : ResolvedCapability) : list (string * Value) :=
  [("capability_id", Str (record_id (record selected)));
   ("capability_version", Str (record_version (record selected)))].

Definition emits_events (selected : ResolvedCapability) : bool :=
  bool_decide (implementation_kind (record selected) = Workflow)
  || negb (bool_decide (length (emits (contract selected)) = 0)).

Definition successful_execution_outcome `{SerdeJson} (c : ExecutionContext) (selected : ResolvedCapability)
    (started : StartedExecution) (output_ : Value) (emitted : list EventReference)
    (workflow : option WorkflowTraversalEvidence) : RuntimeExecutionOutcome :=
  let '(em, completed_at) := next_timestamp (emitter c) in
  let em :=
    if emits_events selected then
      let em := push em EmittingEvents ExecutionSucceededWithEvents
        (obj (capability_details selected ++
          [("declared_event_count", Num (PosInt (N.of_nat (length (emits (contract selected))))))])) in
      push em Completed EventsEmitted (obj (capability_details selected))
    else push em Completed ExecutionSucceeded (obj (capability_details selected)) in
  let em := push em Ready ExecutionClosed (obj [("terminal_state", Str (runtime_state_name Completed))]) in
  assemble (attempt c) (finish em) (context_collection c) (context_selection c)
    {| placement := started_placement started; placement_target := target_of (started_placement started);
       execution_status := Succeeded; execution_artifact_ref := Some (artifact_ref (record selected));
       started_at := Some (execution_started_at started); completed_at := Some completed_at;
       output_digest := Some (content_digest output_); failure_reason := None;
       artifact_verification := attempt_verification (attempt c);
       execution_identity := attempt_identity (attempt c) |}
    Request.Completed (Some output_) None emitted workflow.
