(* ===== verification/Subscription.v ===== *)
(** * Browser subscriptions

    The messages a browser receives for an execution
    ([browser_subscription_messages] of [crates/traverse-runtime/src/lib.rs]). *)
From S2P Require Import Prelude Json Pointer Contract Request Lifecycle Registry Security Outcome Hydration Router Attempt.
From Stdlib Require Import Ascii.

Record BrowserRuntimeSubscriptionRequest := {
  subscription_kind : string;
  subscription_schema_version : string;
  subscription_governing_spec : string;
  subscription_request_id : option string;
  subscription_execution_id : option string }.

Inductive BrowserRuntimeSubscriptionErrorCode := InvalidRequest | SubscriptionTargetNotFound | UnsupportedOperation.
Inductive BrowserRuntimeSubscriptionLifecycleStatus := SubscriptionEstablished | StreamCompleted.

(** The messages; every one has [kind], [schema_version] and [sequence]. *)
Inductive BrowserRuntimeSubscriptionMessage :=
  | ErrorMessage (kind schema_version : string) (sequence : nat) (code : BrowserRuntimeSubscriptionErrorCode)
      (message : string)
  | LifecycleMessage (kind schema_version : string) (sequence : nat) (request_id execution_id : string)
      (status : BrowserRuntimeSubscriptionLifecycleStatus)
  | StateMessage (kind schema_version : string) (sequence : nat) (state_event : RuntimeStateEvent)
  | TraceArtifactMessage (kind schema_version : string) (sequence : nat) (trace : RuntimeTrace)
  | StreamTerminalMessage (kind schema_version : string) (sequence : nat) (result : RuntimeResult).

Definition BROWSER_SUBSCRIPTION_REQUEST_KIND : string := "browser_runtime_subscription_request".
Definition BROWSER_SUBSCRIPTION_ERROR_KIND : string := "browser_runtime_subscription_error".
Definition BROWSER_SUBSCRIPTION_LIFECYCLE_KIND : string := "browser_runtime_subscription_lifecycle".
Definition BROWSER_SUBSCRIPTION_STATE_KIND : string := "browser_runtime_subscription_state".
Definition BROWSER_SUBSCRIPTION_TRACE_KIND : string := "browser_runtime_subscription_trace_artifact".
Definition BROWSER_SUBSCRIPTION_TERMINAL_KIND : string := "browser_runtime_subscription_terminal".
Definition BROWSER_SUBSCRIPTION_GOVERNING_SPEC : string := "013-browser-runtime-subscription".

Definition browser_subscription_error (c : BrowserRuntimeSubscriptionErrorCode) (m : string)
    : BrowserRuntimeSubscriptionMessage :=
  ErrorMessage BROWSER_SUBSCRIPTION_ERROR_KIND SUPPORTED_SCHEMA_VERSION 0 c m.

Definition validate_browser_subscription_request (q : BrowserRuntimeSubscriptionRequest)
    : option BrowserRuntimeSubscriptionMessage :=
  let invalid m := Some (browser_subscription_error InvalidRequest m) in
  if negb (bool_decide (subscription_kind q = BROWSER_SUBSCRIPTION_REQUEST_KIND)) then
    invalid "kind must equal browser_runtime_subscription_request"
  else if negb (bool_decide (subscription_schema_version q = SUPPORTED_SCHEMA_VERSION)) then
    invalid "schema_version must equal 1.0.0"
  else if negb (bool_decide (subscription_governing_spec q = BROWSER_SUBSCRIPTION_GOVERNING_SPEC)) then
    invalid "governing_spec must equal 013-browser-runtime-subscription"
  else
    let absent := invalid "subscription request must include request_id or execution_id" in
    match subscription_request_id q, subscription_execution_id q with
    | Some request_id, None => if non_empty request_id then None else absent
    | None, Some execution_id => if non_empty execution_id then None else absent
    | Some _, Some _ => invalid "exactly one target selector must be supplied"
    | None, None => absent
    end.

Definition subscription_targets_outcome (q : BrowserRuntimeSubscriptionRequest) (o : RuntimeExecutionOutcome) : bool :=
  match subscription_request_id q, subscription_execution_id q with
  | Some request_id, None => bool_decide (request_id = result_request_id (result o))
  | None, Some execution_id => bool_decide (execution_id = result_execution_id (result o))
  | _, _ => false
  end.

Definition lifecycle_message (n : nat) (o : RuntimeExecutionOutcome) (s : BrowserRuntimeSubscriptionLifecycleStatus)
    : BrowserRuntimeSubscriptionMessage :=
  LifecycleMessage BROWSER_SUBSCRIPTION_LIFECYCLE_KIND SUPPORTED_SCHEMA_VERSION n
    (result_request_id (result o)) (result_execution_id (result o)) s.

(** The loop over the state events: the next number and the messages. *)
Definition push_state (acc : nat * list BrowserRuntimeSubscriptionMessage) (e : RuntimeStateEvent)
    : nat * list BrowserRuntimeSubscriptionMessage :=
  (S acc.1, acc.2 ++ [StateMessage BROWSER_SUBSCRIPTION_STATE_KIND SUPPORTED_SCHEMA_VERSION acc.1 e]).

Definition browser_subscription_messages (q : BrowserRuntimeSubscriptionRequest) (o : RuntimeExecutionOutcome)
    : list BrowserRuntimeSubscriptionMessage :=
  match validate_browser_subscription_request q with
  | Some error => [error]
  | None =>
      if negb (subscription_targets_outcome q o) then
        [browser_subscription_error SubscriptionTargetNotFound
           "subscription target did not match the supplied execution outcome"]
      else
        let '(n, messages) := foldl push_state (1, [lifecycle_message 0 o SubscriptionEstablished]) (state_events o) in
        messages ++
          [TraceArtifactMessage BROWSER_SUBSCRIPTION_TRACE_KIND SUPPORTED_SCHEMA_VERSION n (trace o);
           StreamTerminalMessage BROWSER_SUBSCRIPTION_TERMINAL_KIND SUPPORTED_SCHEMA_VERSION (S n) (result o);
           lifecycle_message (S (S n)) o StreamCompleted]
  end.

(** ** The stream *)

Definition sequence_of (m : BrowserRuntimeSubscriptionMessage) : nat :=
  match m with
  | ErrorMessage _ _ n _ _ | LifecycleMessage _ _ n _ _ _ | StateMessage _ _ n _ | TraceArtifactMessage _ _ n _
  | StreamTerminalMessage _ _ n _ => n
  end.

Definition is_error (m : BrowserRuntimeSubscriptionMessage) : bool :=
  match m with ErrorMessage _ _ _ _ _ => true | _ => false end.

Definition states_of (ms : list BrowserRuntimeSubscriptionMessage) : list RuntimeStateEvent :=
  omap (fun m => match m with StateMessage _ _ _ e => Some e | _ => None end) ms.

(** The request has its kind and versions and selects this outcome by one id. *)
Definition subscribes_to (q : BrowserRuntimeSubscriptionRequest) (o : RuntimeExecutionOutcome) : Prop :=
  subscription_kind q = BROWSER_SUBSCRIPTION_REQUEST_KIND /\
  subscription_schema_version q = SUPPORTED_SCHEMA_VERSION /\
  subscription_governing_spec q = BROWSER_SUBSCRIPTION_GOVERNING_SPEC /\
  ((exists r, subscription_request_id q = Some r /\ subscription_execution_id q = None /\ non_empty r = true /\
      r = result_request_id (result o)) \/
   (exists x, subscription_request_id q = None /\ subscription_execution_id q = Some x /\ non_empty x = true /\
      x = result_execution_id (result o))).

Lemma push_states events n ms :
  sequence_of <$> ms = seq 0 n ->
  let '(n', ms') := foldl push_state (n, ms) events in
  n' = n + length events /\ sequence_of <$> ms' = seq 0 n' /\ states_of ms' = states_of ms ++ events /\
  existsb is_error ms' = existsb is_error ms /\ exists tail, ms' = ms ++ tail.
Proof.
  revert n ms. induction events as [|e events IH]; intros n ms Hseq; cbn.
  { split_and!; [lia|done|by rewrite app_nil_r|done|]. exists []. by rewrite app_nil_r. }
  specialize (IH (S n) (ms ++ [StateMessage BROWSER_SUBSCRIPTION_STATE_KIND SUPPORTED_SCHEMA_VERSION n e])).
  change (push_state (n, ms) e) with (S n, ms ++ [StateMessage BROWSER_SUBSCRIPTION_STATE_KIND SUPPORTED_SCHEMA_VERSION n e]).
  destruct (foldl _ _ events) as [n' ms'].
  destruct IH as (-> & Hs & Hst & He & tail & ->); [by rewrite fmap_app, Hseq, seq_S|].
  split_and!; [lia|done| | |by eexists; rewrite <- app_assoc].
  - rewrite Hst. unfold states_of. rewrite omap_app. cbn. by rewrite <- app_assoc.
  - rewrite He, existsb_app. cbn. by rewrite orb_false_r.
Qed.

Lemma targets_exact q o :
  validate_browser_subscription_request q = None /\ subscription_targets_outcome q o = true <-> subscribes_to q o.
Proof.
  unfold validate_browser_subscription_request, subscription_targets_outcome, subscribes_to.
  case_bool_decide; cbn [negb]; [|by split; [intros [? _]|intros (? & _)]].
  case_bool_decide; cbn [negb]; [|by split; [intros [? _]|intros (_ & ? & _)]].
  case_bool_decide; cbn [negb]; [|by split; [intros [? _]|intros (_ & _ & ? & _)]].
  destruct (subscription_request_id q) as [r|], (subscription_execution_id q) as [x|].
  - split; [by intros [? _]|]. by intros (_ & _ & _ & [(? & _ & ? & _)|(? & ? & _)]).
  - destruct (non_empty r) eqn:Hr; [|split; [by intros [? _]|]; intros (_ & _ & _ & [(? & [= <-] & _ & ? & _)|(? & ? & _)]); congruence].
    rewrite bool_decide_eq_true. split; [|by intros (_ & _ & _ & [(? & [= <-] & _ & _ & ?)|(? & ? & _)])].
    intros [_ Heq]. split_and!; [done..|]. left. by exists r.
  - destruct (non_empty x) eqn:Hx; [|split; [by intros [? _]|]; intros (_ & _ & _ & [(? & ? & _)|(? & _ & [= <-] & ? & _)]); congruence].
    rewrite bool_decide_eq_true. split; [|by intros (_ & _ & _ & [(? & ? & _)|(? & _ & [= <-] & _ & ?)])].
    intros [_ Heq]. split_and!; [done..|]. right. by exists x.
  - split; [by intros [? _]|]. by intros (_ & _ & _ & [(? & ? & _)|(? & _ & ? & _)]).
Qed.

Lemma invalid_is_error q m : validate_browser_subscription_request q = Some m ->
  is_error m = true /\ sequence_of m = 0.
Proof. unfold validate_browser_subscription_request. repeat case_match; intros [= <-]; done. Qed.

(** A subscription is answered with the whole stream exactly when its request is
    well formed and selects the outcome by one id; the stream is numbered from zero
    without gaps, opens and closes with a lifecycle message, reports the state events
    of the execution in order, and ends with its trace and its result.  Any other
    request is answered with one error. *)
Theorem subscription_stream_exact q o :
  let ms := browser_subscription_messages q o in
  sequence_of <$> ms = seq 0 (length ms) /\
  (subscribes_to q o ->
     states_of ms = state_events o /\ length ms = 4 + length (state_events o) /\ existsb is_error ms = false /\
     exists opening body n, ms = opening :: body ++
       [TraceArtifactMessage BROWSER_SUBSCRIPTION_TRACE_KIND SUPPORTED_SCHEMA_VERSION n (trace o);
        StreamTerminalMessage BROWSER_SUBSCRIPTION_TERMINAL_KIND SUPPORTED_SCHEMA_VERSION (S n) (result o);
        lifecycle_message (S (S n)) o StreamCompleted] /\
       opening = lifecycle_message 0 o SubscriptionEstablished) /\
  (~ subscribes_to q o -> exists error, ms = [error] /\ is_error error = true).
Proof.
  cbn zeta. pose proof (targets_exact q o) as Hexact. unfold browser_subscription_messages.
  destruct (validate_browser_subscription_request q) as [m|] eqn:Hv.
  { destruct (invalid_is_error q m Hv) as [He Hs]. split_and!; [cbn; by rewrite Hs| |intros _; by exists m].
    intros [? _]%Hexact. done. }
  destruct (subscription_targets_outcome q o) eqn:Ht; cbn [negb].
  2: { split_and!; [done| |intros _; by eexists]. intros [_ ?]%Hexact. done. }
  pose proof (push_states (state_events o) 1 [lifecycle_message 0 o SubscriptionEstablished] eq_refl) as Hp.
  destruct (foldl _ _ _) as [n ms]. destruct Hp as (-> & Hs & Hst & He & tail & Hms). split_and!.
  - rewrite fmap_app, Hs, length_app. cbn [fmap list_fmap length sequence_of lifecycle_message].
    assert (Hl : length ms = 1 + length (state_events o)) by (rewrite <- (length_fmap sequence_of), Hs; apply length_seq).
    by rewrite Hl, (seq_app (1 + length (state_events o)) 3 0).
  - intros _. split_and!.
    + unfold states_of in *. rewrite omap_app, Hst. cbn. by rewrite app_nil_r.
    + rewrite length_app. cbn. rewrite <- (length_fmap sequence_of), Hs, length_seq. lia.
    + by rewrite existsb_app, He.
    + exists (lifecycle_message 0 o SubscriptionEstablished), tail, (1 + length (state_events o)). by rewrite Hms.
  - intros Hno. destruct Hno. by apply Hexact.
Qed.
