(* ===== verification/WorkflowRun.v ===== *)
(** * The workflow engine

    [crates/traverse-runtime/src/workflows.rs]: requests, the traversal of a workflow
    definition, the matching of emitted and published events against waiting edges,
    and the evidence.  The traversal loop and the loop that drains a subscription
    take fuel; [OutOfFuel] stands for a loop that is still running. *)
From S2P Require Import Prelude Effect Json Pointer Events RuntimeInit Contract.
From S2P Require Import Request Lifecycle Registry Security Outcome Hydration Router Attempt.
From Stdlib Require Import Ascii.

(** ** Requests and outcomes *)

Inductive WorkflowLookupScope := WorkflowPublicOnly | WorkflowPreferPrivate.

Record WorkflowExecutionRequest := {
  workflow_request_kind : string;
  workflow_request_schema_version : string;
  workflow_request_id : string;
  requested_workflow_id : string;
  requested_workflow_version : string;
  workflow_scope : WorkflowLookupScope;
  workflow_input : Value;
  workflow_request_governing_spec : string }.

Record WorkflowExecutionResult := {
  workflow_result_kind : string;
  workflow_result_schema_version : string;
  workflow_result_request_id : string;
  workflow_result_workflow_id : string;
  workflow_result_workflow_version : string;
  workflow_status : WorkflowTraversalStatus;
  workflow_output : option Value;
  workflow_error : option RuntimeError;
  workflow_warnings : list RuntimeWarning }.

Record WorkflowExecutionOutcome := {
  workflow_result : WorkflowExecutionResult;
  evidence : WorkflowTraversalEvidence }.

Record BrokerEventSource := { source_subscription_id : string; source_cursor : string }.

Record EmittedEventRecord := {
  emitted_record_id : string;
  emitted_event : EventReference;
  emitted_payload : option Value;
  emitted_source : option BrokerEventSource }.

Record WorkflowEventEvidenceBundle := {
  bundle_waiting : list WaitingWorkflowEdgeContext;
  bundle_matches : list EventMatchRecord;
  bundle_wakes : list EventWakeDecision;
  bundle_consumptions : list EventConsumptionRecord }.

Definition WORKFLOW_REQUEST_KIND : string := "workflow_execution_request".
Definition WORKFLOW_EVIDENCE_KIND : string := "workflow_traversal_evidence".
Definition WORKFLOW_SCHEMA_VERSION : string := "1.0.0".
Definition WORKFLOW_GOVERNING_SPEC : string := "007-workflow-registry-traversal".
Definition EVENT_BROKER_POLL_BATCH : nat := 256.

#[export] Instance EventReference_eq_dec : EqDecision EventReference.
Proof. solve_decision. Defined.

Definition empty_bundle : WorkflowEventEvidenceBundle :=
  {| bundle_waiting := []; bundle_matches := []; bundle_wakes := []; bundle_consumptions := [] |}.

(** The four vectors extended. *)
Definition bundle_app (a b : WorkflowEventEvidenceBundle) : WorkflowEventEvidenceBundle := {|
  bundle_waiting := bundle_waiting a ++ bundle_waiting b;
  bundle_matches := bundle_matches a ++ bundle_matches b;
  bundle_wakes := bundle_wakes a ++ bundle_wakes b;
  bundle_consumptions := bundle_consumptions a ++ bundle_consumptions b |}.

Definition invalid_workflow (m path : string) : option RuntimeError :=
  Some (runtime_error RequestInvalid m (obj [("path", Str path)])).

Definition validate_workflow_request (r : WorkflowExecutionRequest) : option RuntimeError :=
  if negb (bool_decide (workflow_request_kind r = WORKFLOW_REQUEST_KIND)) then
    invalid_workflow "kind must equal workflow_execution_request" "$.kind"
  else if negb (bool_decide (workflow_request_schema_version r = WORKFLOW_SCHEMA_VERSION)) then
    invalid_workflow "schema_version must equal 1.0.0" "$.schema_version"
  else if negb (bool_decide (workflow_request_governing_spec r = WORKFLOW_GOVERNING_SPEC)) then
    invalid_workflow "governing_spec must equal 007-workflow-registry-traversal" "$.governing_spec"
  else if is_blank (workflow_request_id r) || is_blank (requested_workflow_id r)
       || is_blank (requested_workflow_version r) then
    invalid_workflow "request_id, workflow_id, and workflow_version must be non-empty" "$"
  else None.

Definition map_workflow_lookup_scope (s : WorkflowLookupScope) : LookupScope :=
  match s with WorkflowPublicOnly => LookupPublicOnly | WorkflowPreferPrivate => LookupPreferPrivate end.

(** [lookup_indexed_workflow] of [workspace_lazy.rs] *)
Definition lookup_indexed_workflow (workflows : gmap (string * string) WorkflowDefinition) (s : LookupScope)
    (id version : string) : option WorkflowDefinition :=
  match s with LookupPublicOnly => None | LookupPreferPrivate => workflows !! (id, version) end.

Definition workflow_failure (request : WorkflowExecutionRequest) (r : WorkflowTraversalFailureReason)
    (error : RuntimeError) (visited : list WorkflowTraversalStepRecord)
    (traversed : list WorkflowTraversalEdgeRecord) (emitted : list EventReference)
    (bundle : WorkflowEventEvidenceBundle) (ws : list RuntimeWarning) : WorkflowExecutionOutcome := {|
  workflow_result := {|
    workflow_result_kind := WORKFLOW_REQUEST_KIND; workflow_result_schema_version := WORKFLOW_SCHEMA_VERSION;
    workflow_result_request_id := workflow_request_id request;
    workflow_result_workflow_id := requested_workflow_id request;
    workflow_result_workflow_version := requested_workflow_version request;
    workflow_status := WorkflowError; workflow_output := None; workflow_error := Some error;
    workflow_warnings := ws |};
  evidence := {|
    Outcome.evidence_kind := WORKFLOW_EVIDENCE_KIND; evidence_schema_version := WORKFLOW_SCHEMA_VERSION;
    evidence_governing_spec := WORKFLOW_GOVERNING_SPEC;
    evidence_trace_id := "workflow_trace_" +:+ workflow_request_id request;
    evidence_request_id := workflow_request_id request; evidence_workflow_id := requested_workflow_id request;
    evidence_workflow_version := requested_workflow_version request; visited_nodes := visited;
    traversed_edges := traversed; evidence_emitted_events := emitted; waiting_edges := bundle_waiting bundle;
    event_match_records := bundle_matches bundle; event_wake_decisions := bundle_wakes bundle;
    event_consumptions := bundle_consumptions bundle; traversal_status := WorkflowError;
    traversal_failure := Some r |} |}.

(** ** The state of a workflow *)

Definition workflow_state (value : Value) : list (string * Value) :=
  match value with Object members => members | other => [("input", other)] end.

(** The members of [state] named by [keys], inserted into [acc] in turn. *)
Definition select_members (keys : list string) (state acc : list (string * Value)) : list (string * Value) :=
  foldl (fun acc key => match member key state with Some v => map_insert key v acc | None => acc end) acc keys.

Definition node_input (state : list (string * Value)) (node : WorkflowNode) : Value :=
  Object (select_members (from_workflow_input node) state []).

Definition update_state (state : list (string * Value)) (node : WorkflowNode) (output_ : Value)
    : list (string * Value) :=
  match output_ with
  | Object object =>
      let state := select_members (to_workflow_state node) object state in
      match publish_to_state_as node with
      | Some namespace => map_insert namespace output_ state
      | None => state
      end
  | _ => state
  end.

Definition final_workflow_output (state : list (string * Value)) (projection : list string) : Value :=
  match projection with [] => Object state | _ => Object (select_members projection state []) end.

(** ** Event-driven edges *)

Definition waiting_edge_context (workflow_execution_id : string) (edge : WorkflowEdge)
    : option WaitingWorkflowEdgeContext :=
  event ← edge_event edge;
  Some {| waiting_execution_id := workflow_execution_id; waiting_edge_id := edge_id edge;
          from_node_id := from edge; to_node_id := to edge; event_ref := event;
          waiting_predicate := predicate edge |}.

Definition waiting_edge_contexts (workflow_execution_id : string) (es : list WorkflowEdge)
    : list WaitingWorkflowEdgeContext :=
  omap (waiting_edge_context workflow_execution_id) es.

(** [path.split('.')], through objects only *)
Fixpoint follow_members (current : Value) (path : list string) : option Value :=
  match path with
  | [] => Some current
  | segment :: rest =>
      match current with Object map => next ← member segment map; follow_members next rest | _ => None end
  end.

Definition event_payload_field (payload : option Value) (field_ : string) : option Value :=
  payload ← payload;
  let path := default field_ (strip_prefix "payload." field_) in
  if bool_decide (path = "payload") || bool_decide (path = "") then Some payload
  else follow_members payload (split_on "."%char path).

Definition waiting_le (a b : WaitingWorkflowEdgeContext) : bool :=
  if decide (waiting_execution_id a = waiting_execution_id b)
  then bool_decide (String.le (waiting_edge_id a) (waiting_edge_id b))
  else bool_decide (String.le (waiting_execution_id a) (waiting_execution_id b)).

Definition predicate_passes (edge : WaitingWorkflowEdgeContext) (e : EmittedEventRecord) : bool :=
  match waiting_predicate edge with
  | None => true
  | Some p => from_option (fun v => value_eqb v (equals p)) false
      (event_payload_field (emitted_payload e) (field p))
  end.

Definition consumption_key (e : EmittedEventRecord) (edge : WaitingWorkflowEdgeContext) : string :=
  emitted_record_id e +:+ "|" +:+ waiting_execution_id edge +:+ "|" +:+ waiting_edge_id edge.

(** The state of the two nested loops. *)
Record Evaluation := {
  taken : list string;
  eval_evidence : WorkflowEventEvidenceBundle;
  consumed : gset string;
  next_wake : nat }.

Definition match_record (e : EmittedEventRecord) (edge : WaitingWorkflowEdgeContext) (at_ : string)
    (r : EventMatchResult) (p : option EventPredicateResult) (rejection : option string)
    : WorkflowEventEvidenceBundle := {|
  bundle_waiting := []; bundle_wakes := []; bundle_consumptions := [];
  bundle_matches := [{| match_event_id := RuntimeInit.event_id (emitted_event e);
    match_event_version := event_version (emitted_event e); match_edge_id := waiting_edge_id edge;
    match_result := r; predicate_result := p; rejection_reason := rejection; match_recorded_at := at_;
    match_subscription_id := source_subscription_id <$> emitted_source e;
    match_cursor := source_cursor <$> emitted_source e |}] |}.

Definition wake_record (e : EmittedEventRecord) (edge : WaitingWorkflowEdgeContext) (at_ : string) (n : nat)
    : WorkflowEventEvidenceBundle := {|
  bundle_waiting := []; bundle_matches := [];
  bundle_wakes := [{| decision_type := "event_wake"; wake_event_id := RuntimeInit.event_id (emitted_event e);
    wake_event_version := event_version (emitted_event e); wake_edge_id := waiting_edge_id edge;
    wake_execution_id := waiting_execution_id edge; wake_order := n; wake_recorded_at := at_;
    wake_subscription_id := source_subscription_id <$> emitted_source e;
    wake_cursor := source_cursor <$> emitted_source e |}];
  bundle_consumptions := [{| consumed_event_id := RuntimeInit.event_id (emitted_event e);
    consumed_event_version := event_version (emitted_event e); consumed_edge_id := waiting_edge_id edge;
    consumed_execution_id := waiting_execution_id edge; consumed_at := at_;
    consumed_subscription_id := source_subscription_id <$> emitted_source e;
    consumed_cursor := source_cursor <$> emitted_source e |}] |}.

Definition with_evidence (b : WorkflowEventEvidenceBundle) (s : Evaluation) : Evaluation := {|
  taken := taken s; eval_evidence := bundle_app (eval_evidence s) b; consumed := consumed s;
  next_wake := next_wake s |}.

(** The body of the inner loop. *)
Definition evaluate_pair (prefix : string) (event_index : nat) (e : EmittedEventRecord) (s : Evaluation)
    (edge : WaitingWorkflowEdgeContext) : Evaluation :=
  let at_ what := prefix +:+ ":event:" +:+ u64_to_string (N.of_nat event_index) +:+ ":" +:+ what +:+ ":"
    +:+ waiting_edge_id edge in
  let passed := match waiting_predicate edge with Some _ => Some PredicatePassed | None => None end in
  let note r p rejection := match_record e edge (at_ "match") r p rejection in
  let key := consumption_key e edge in
  if negb (bool_decide (emitted_event e = event_ref edge)) then
    with_evidence (note NotMatched None (Some "event id/version did not match the waiting edge")) s
  else if negb (predicate_passes edge e) then
    with_evidence (note NotMatched (Some PredicateFailed)
      (Some "event predicate did not match the emitted payload")) s
  else if decide (key ∈ consumed s) then
    with_evidence (note AlreadyConsumed passed
      (Some "event record was already consumed for this waiting edge")) s
  else {|
    taken := taken s ++ [waiting_edge_id edge];
    eval_evidence := bundle_app (bundle_app (eval_evidence s) (note Matched passed None))
      (wake_record e edge (at_ "wake") (next_wake s));
    consumed := {[key]} ∪ consumed s;
    next_wake := S (next_wake s) |}.

Definition missing_event_record (prefix : string) (edge : WaitingWorkflowEdgeContext) : EventMatchRecord := {|
  match_event_id := RuntimeInit.event_id (event_ref edge); match_event_version := event_version (event_ref edge);
  match_edge_id := waiting_edge_id edge; match_result := NotMatched; predicate_result := None;
  rejection_reason := Some "required event was not emitted";
  match_recorded_at := prefix +:+ ":no_event:" +:+ waiting_edge_id edge;
  match_subscription_id := None; match_cursor := None |}.

Definition evaluate_event_driven_edges (waiting : list WaitingWorkflowEdgeContext)
    (emitted : list EmittedEventRecord) (consumed_ : gset string) (prefix : string) : Evaluation :=
  let ordered := stable_sort waiting_le waiting in
  let start := {| taken := []; eval_evidence := empty_bundle; consumed := consumed_; next_wake := 1 |} in
  match emitted with
  | [] => with_evidence {| bundle_waiting := []; bundle_matches := missing_event_record prefix <$> ordered;
            bundle_wakes := []; bundle_consumptions := [] |} start
  | _ => foldl (fun s entry => foldl (evaluate_pair prefix entry.1 entry.2) s ordered) start (enumerate emitted)
  end.

(** ** Events of the broker *)

Inductive BrokerQueryFailure := UnregisteredType (event_type : string) | BrokerUnavailable (detail : string).

(** How an operation ends other than with its result: with a terminal value, or
    still running when the fuel is spent. *)
Inductive Exit (A : Type) := Returned (a : A) | OutOfFuel.
Arguments Returned {A} a.
Arguments OutOfFuel {A}.

Section engine.
Context `{Host}.

(** The loop over [poll]: the events delivered, and the failure that ended it. *)
Fixpoint drain (fuel : nat) (sid : string) (delivered : list BrokerEvent) (p : Process)
    : Process * option (list BrokerEvent * option BrokerQueryFailure) :=
  match fuel with
  | 0 => (p, None)
  | S fuel' =>
      match on_broker (fun b => broker_poll b sid EVENT_BROKER_POLL_BATCH) p with
      | (p, Err e) => (p, Some (delivered, Some (BrokerUnavailable (display_event_error e))))
      | (p, Ok batch) =>
          let delivered := delivered ++ poll_events batch in
          if (length (poll_events batch) <? EVENT_BROKER_POLL_BATCH)%nat then (p, Some (delivered, None))
          else drain fuel' sid delivered p
      end
  end.

Definition broker_record (event_type_ sid : string) (e : BrokerEvent) : EmittedEventRecord := {|
  emitted_record_id := "broker:" +:+ event_type_ +:+ ":" +:+ broker_cursor e;
  emitted_event := {| RuntimeInit.event_id := event_type_; event_version := Events.version (broker_event e) |};
  emitted_payload := Some (data (broker_event e));
  emitted_source := Some {| source_subscription_id := sid; source_cursor := broker_cursor e |} |}.

Definition cleanup_warning (sid : string) (e : EventError) : RuntimeWarning := {|
  warning := "event_broker_subscription_cleanup_failed";
  warning_message := "failed to cancel workflow event-driven edge subscription " +:+ sid +:+ ": "
    +:+ display_event_error e |}.

(** One event type: subscribe from the start, drain, cancel. *)
Definition query_event_type (poll_fuel : nat) (event_type_ : string)
    : Eff Process (Exit BrokerQueryFailure) (list EmittedEventRecord * list RuntimeWarning) := fun p =>
  match on_broker (fun b => broker_subscribe b event_type_ "0") p with
  | (p, Err (UnregisteredEventType unknown)) => (p, Err (Returned (UnregisteredType unknown)))
  | (p, Err other) => (p, Err (Returned (BrokerUnavailable (display_event_error other))))
  | (p, Ok subscription) =>
      let sid := handle_id subscription in
      match drain poll_fuel sid [] p with
      | (p, None) => (p, Err OutOfFuel)
      | (p, Some (delivered, poll_failure)) =>
          let '(p, cancelled) := on_broker (fun b => broker_cancel b sid) p in
          let ws := match cancelled with Err e => [cleanup_warning sid e] | Ok _ => [] end in
          match poll_failure with
          | Some failure => (p, Err (Returned failure))
          | None => (p, Ok (broker_record event_type_ sid <$> delivered, ws))
          end
      end
  end.

Fixpoint query_event_types (poll_fuel : nat) (types : list string)
    : Eff Process (Exit BrokerQueryFailure) (list EmittedEventRecord * list RuntimeWarning) :=
  match types with
  | [] => mret ([], [])
  | ty :: rest =>
      first ← query_event_type poll_fuel ty;
      others ← query_event_types poll_fuel rest;
      mret (first.1 ++ others.1, first.2 ++ others.2)
  end.

Definition poll_broker_events_for_waiting_edges (poll_fuel : nat) (waiting : list WaitingWorkflowEdgeContext)
    : Eff Process (Exit BrokerQueryFailure) (list EmittedEventRecord * list RuntimeWarning) :=
  query_event_types poll_fuel
    (btree_elements (list_to_set ((fun edge => RuntimeInit.event_id (event_ref edge)) <$> waiting))).
End engine.
