(* ===== verification/Traverse.v ===== *)
(** * Traversal of a workflow

    [traverse_workflow], [execute_workflow] and [execute_workflow_capability] of
    [crates/traverse-runtime/src/workflows.rs].  One pass of the loop is
    [traverse_step]; it either yields the accumulators of the next pass or ends the
    traversal with an outcome. *)
From S2P Require Import Prelude Effect Json Events RuntimeInit Contract.
From S2P Require Import Request Lifecycle Registry Security Outcome Hydration Router Attempt WorkflowRun.
From Stdlib Require Import Ascii.

(** The local variables of the loop. *)
Record Traversal := {
  state : list (string * Value);
  current : string;
  index : nat;
  visited : list WorkflowTraversalStepRecord;
  traversed : list WorkflowTraversalEdgeRecord;
  emitted : list EventReference;
  bundle : WorkflowEventEvidenceBundle;
  consumed_event_edges : gset string;
  traversal_warnings : list RuntimeWarning }.

Definition start_traversal (request : WorkflowExecutionRequest) (definition : WorkflowDefinition) : Traversal := {|
  state := workflow_state (workflow_input request); current := start_node definition; index := 0;
  visited := []; traversed := []; emitted := []; bundle := empty_bundle; consumed_event_edges := ∅;
  traversal_warnings := [] |}.

(** [visited.last_mut()] given a status. *)
Fixpoint set_last_status (status : WorkflowTraversalStepStatus) (steps : list WorkflowTraversalStepRecord)
    : list WorkflowTraversalStepRecord :=
  match steps with
  | [] => []
  | [last] => [{| step_index := step_index last; step_node_id := step_node_id last;
      step_capability_id := step_capability_id last; step_capability_version := step_capability_version last;
      step_status := status |}]
  | step :: rest => step :: set_last_status status rest
  end.

(** [workflow_failure] with what was accumulated. *)
Definition fail_with (request : WorkflowExecutionRequest) (t : Traversal) (r : WorkflowTraversalFailureReason)
    (error : RuntimeError) : Exit WorkflowExecutionOutcome :=
  Returned (workflow_failure request r error (visited t) (traversed t) (emitted t) (bundle t)
    (traversal_warnings t)).

(** The same after the last step was marked as failed. *)
Definition fail_step (request : WorkflowExecutionRequest) (t : Traversal) (r : WorkflowTraversalFailureReason)
    (error : RuntimeError) : Exit WorkflowExecutionOutcome :=
  Returned (workflow_failure request r error (set_last_status StepFailed (visited t)) (traversed t) (emitted t)
    (bundle t) (traversal_warnings t)).

Definition enter (t : Traversal) (node : WorkflowNode) : Traversal := {|
  state := state t; current := current t; index := index t;
  visited := visited t ++ [{| step_index := index t; step_node_id := node_id node;
    step_capability_id := node_capability_id node; step_capability_version := node_capability_version node;
    step_status := Entered |}];
  traversed := traversed t; emitted := emitted t; bundle := bundle t;
  consumed_event_edges := consumed_event_edges t; traversal_warnings := traversal_warnings t |}.

Definition warn (t : Traversal) (ws : list RuntimeWarning) : Traversal := {|
  state := state t; current := current t; index := index t; visited := visited t; traversed := traversed t;
  emitted := emitted t; bundle := bundle t; consumed_event_edges := consumed_event_edges t;
  traversal_warnings := traversal_warnings t ++ ws |}.

Definition local_record (entry : nat * TraverseEvent) : EmittedEventRecord := {|
  emitted_record_id := "event_record_" +:+ u64_to_string (N.of_nat entry.1);
  emitted_event := {| RuntimeInit.event_id := event_type entry.2; event_version := Events.version entry.2 |};
  emitted_payload := Some (data entry.2); emitted_source := None |}.

(** After the step's output was accepted. *)
Definition complete (t : Traversal) (node : WorkflowNode) (output_ : LocalExecutionOutput) : Traversal := {|
  state := update_state (state t) node (local_value output_); current := current t; index := index t;
  visited := set_last_status StepCompleted (visited t); traversed := traversed t;
  emitted := emitted t ++ (emitted_event <$> (local_record <$> enumerate (local_emitted_events output_)));
  bundle := bundle t; consumed_event_edges := consumed_event_edges t;
  traversal_warnings := traversal_warnings t |}.

Definition await (t : Traversal) (waiting : list WaitingWorkflowEdgeContext) : Traversal := {|
  state := state t; current := current t; index := index t; visited := visited t; traversed := traversed t;
  emitted := emitted t;
  bundle := bundle_app (bundle t) {| bundle_waiting := waiting; bundle_matches := []; bundle_wakes := [];
    bundle_consumptions := [] |};
  consumed_event_edges := consumed_event_edges t; traversal_warnings := traversal_warnings t |}.

(** The evidence of an evaluation and its consumptions. *)
Definition absorb (t : Traversal) (e : Evaluation) : Traversal := {|
  state := state t; current := current t; index := index t; visited := visited t; traversed := traversed t;
  emitted := emitted t; bundle := bundle_app (bundle t) (eval_evidence e);
  consumed_event_edges := consumed e; traversal_warnings := traversal_warnings t |}.

Definition edge_record (edge : WorkflowEdge) : WorkflowTraversalEdgeRecord := {|
  traversed_edge_id := edge_id edge; traversed_from := from edge; traversed_to := to edge;
  traversed_trigger := match trigger edge with Direct => TraversedDirect | Event => TraversedEvent end;
  traversed_event := edge_event edge |}.

Definition follow_edge (t : Traversal) (edge : WorkflowEdge) : Traversal := {|
  state := state t; current := to edge; index := S (index t); visited := visited t;
  traversed := traversed t ++ [edge_record edge]; emitted := emitted t; bundle := bundle t;
  consumed_event_edges := consumed_event_edges t; traversal_warnings := traversal_warnings t |}.

Definition failure_code_debug (c : LocalExecutionFailureCode) : string :=
  match c with
  | LocalExecutionFailed => "ExecutionFailed"
  | LocalTimeout => "Timeout"
  | LocalInvalidInput => "InvalidInput"
  | LocalResourceExhausted => "ResourceExhausted"
  | LocalConstraintViolated => "ConstraintViolated"
  end.

Definition at_node (node : WorkflowNode) : list (string * Value) := [("node_id", Str (node_id node))].

Definition lift_error {St E A} (m : Result RuntimeError A) (exit : RuntimeError -> E) : Eff St E A :=
  lift (match m with Ok a => Ok a | Err e => Err (exit e) end).

Section traverse.
Context `{Host, Trust, ContractCodec, SerdeJson} (rt : Runtime) (poll_fuel : nat).

Abbreviation Step := (Eff Process (Exit WorkflowExecutionOutcome)).

(** [hydrate_resolved_capability] *)
Definition hydrate_resolved_capability (id version : string) : Eff Process HydrationError ResolvedCapability := fun p =>
  let files path := match read_file (world p) path with Ok bytes => Some bytes | Err _ => None end in
  let '(cache, r) := hydrate files (hydration_capacity rt) (capability_metadata rt) id version (hydration p) in
  (with_hydration cache p,
   c ← r; Ok (resolved_from_index (capability_metadata rt) c id version)).

Definition node_capability (request : WorkflowExecutionRequest) (t : Traversal) (node : WorkflowNode)
    : Step ResolvedCapability := fun p =>
  let '(id, version) := (node_capability_id node, node_capability_version node) in
  match find_exact (registries rt) (map_workflow_lookup_scope (workflow_scope request)) id version with
  | Some capability => (p, Ok capability)
  | None =>
      match index_get (capability_metadata rt) id version with
      | None => (p, Err (fail_with request t WorkflowInvalid (runtime_error CapabilityNotFound
          "workflow node capability was not found in the capability registry"
          (obj [("capability_id", Str id); ("capability_version", Str version)]))))
      | Some _ =>
          match hydrate_resolved_capability id version p with
          | (p, Ok capability) => (p, Ok capability)
          | (p, Err e) => (p, Err (fail_step request t StepExecutionFailed (hydration_runtime_error e)))
          end
      end
  end.

Definition unsigned_warning (code_ : string) : RuntimeWarning := {|
  warning := code_; warning_message := "unsigned local/dev artifact allowed by development security mode" |}.

(** The artifact gate; the accumulators carry the warning it may raise. *)
Definition verify_node (request : WorkflowExecutionRequest) (t : Traversal) (node : WorkflowNode)
    (capability : ResolvedCapability) : Step Traversal := fun p =>
  match load_artifact_bytes_for_verification (read_file (world p)) capability with
  | Err error => (p, Err (fail_step request t StepExecutionFailed error))
  | Ok bytes =>
      match verify_artifact capability bytes (security rt) with
      | Ok r => (p, Ok (match warning_code r with Some c => warn t [unsigned_warning c] | None => t end))
      | Err failure => (p, Err (fail_step request t StepExecutionFailed
          (runtime_error ContractViolation "artifact signature verification failed before workflow step execution"
            (obj ([("code", Str (failure_code failure));
                   ("artifact_verification", verification_value (failure_record failure))] ++ at_node node)))))
      end
  end.

(** [self.executor.execute] *)
Definition run_executor (capability : ResolvedCapability) (value : Value)
    : Eff Process LocalExecutionFailure LocalExecutionOutput := fun p =>
  let '(w, r) := local_execute (world p) capability value in (with_world w p, r).

Definition execute_node (request : WorkflowExecutionRequest) (t : Traversal) (node : WorkflowNode)
    (capability : ResolvedCapability) : Step LocalExecutionOutput :=
  let fails := fail_step request t StepExecutionFailed in
  let value := node_input (state t) node in
  _ ← lift_error (validate_payload_against_contract value (schema (inputs (contract capability))) RequestInvalid
        "workflow node input does not satisfy the capability input contract") fails;
  output_ ← (fun p =>
    match run_executor capability value p with
    | (p, Ok output_) => (p, Ok output_)
    | (p, Err failure) => (p, Err (fails (runtime_error ExecutionFailedCode (local_failure_message failure)
        (obj [("code", Str (failure_code_debug (local_failure_code failure)))]))))
    end) : Step LocalExecutionOutput;
  _ ← lift_error (validate_payload_against_contract (local_value output_)
        (schema (outputs (contract capability))) OutputValidationFailed
        "workflow node output does not satisfy the capability output contract") fails;
  _ ← lift (match validate_natively_emitted_events (contract capability) (local_emitted_events output_) with
        | Ok _ => Ok tt
        | Err m => Err (fails (runtime_error ContractViolation m (obj (at_node node))))
        end);
  mret output_.

(** Publication for subscribable capabilities, best effort. *)
Definition publish_step (capability : ResolvedCapability) (es : list TraverseEvent) : Step unit := fun p =>
  match Contract.service_type (contract capability) with
  | Subscribable => (publish_all es p, Ok tt)
  | _ => (p, Ok tt)
  end.

Definition record_prefix (request : WorkflowExecutionRequest) (t : Traversal) (pass : string) : string :=
  workflow_request_id request +:+ ":step:" +:+ u64_to_string (N.of_nat (index t)) +:+ ":" +:+ pass.

(** Pass 2: the edges the node's own events did not take are matched against the
    events of the broker. *)
Definition match_broker_events (request : WorkflowExecutionRequest) (t : Traversal) (node : WorkflowNode)
    (unresolved : list WaitingWorkflowEdgeContext) : Step (Traversal * list string) := fun p =>
  match unresolved with
  | [] => (p, Ok (t, []))
  | _ =>
      match poll_broker_events_for_waiting_edges poll_fuel unresolved p with
      | (p, Err OutOfFuel) => (p, Err OutOfFuel)
      | (p, Err (Returned (UnregisteredType ty))) =>
          (p, Err (fail_step request t EventSubscriptionFailed (runtime_error RequestInvalid
            "waiting edge references an event type not registered in EventBroker's catalog"
            (obj (at_node node ++ [("event_type", Str ty)])))))
      | (p, Err (Returned (BrokerUnavailable detail))) =>
          (p, Err (fail_step request t EventBrokerUnavailable (runtime_error ExecutionFailedCode
            "EventBroker was unreachable or internally failing while evaluating a waiting event-driven edge"
            (obj (at_node node ++ [("detail", Str detail)])))))
      | (p, Ok (records, ws)) =>
          let t := warn t ws in
          let e := evaluate_event_driven_edges unresolved records (consumed_event_edges t)
            (record_prefix request t "broker") in
          (p, Ok (absorb t e, taken e))
      end
  end.

Definition final_outcome (request : WorkflowExecutionRequest) (definition : WorkflowDefinition) (t : Traversal)
    (output_ : Value) : WorkflowExecutionOutcome := {|
  workflow_result := {|
    workflow_result_kind := WORKFLOW_REQUEST_KIND; workflow_result_schema_version := WORKFLOW_SCHEMA_VERSION;
    workflow_result_request_id := workflow_request_id request;
    workflow_result_workflow_id := workflow_id definition;
    workflow_result_workflow_version := workflow_version definition; workflow_status := WorkflowCompleted;
    workflow_output := Some output_; workflow_error := None; workflow_warnings := traversal_warnings t |};
  evidence := {|
    Outcome.evidence_kind := WORKFLOW_EVIDENCE_KIND; evidence_schema_version := WORKFLOW_SCHEMA_VERSION;
    evidence_governing_spec := WORKFLOW_GOVERNING_SPEC;
    evidence_trace_id := "workflow_trace_" +:+ workflow_request_id request;
    evidence_request_id := workflow_request_id request; evidence_workflow_id := workflow_id definition;
    evidence_workflow_version := workflow_version definition; visited_nodes := visited t;
    traversed_edges := traversed t; evidence_emitted_events := emitted t;
    waiting_edges := bundle_waiting (bundle t); event_match_records := bundle_matches (bundle t);
    event_wake_decisions := bundle_wakes (bundle t); event_consumptions := bundle_consumptions (bundle t);
    traversal_status := WorkflowCompleted; traversal_failure := None |} |}.

(** No edge was taken: the traversal ends here. *)
Definition stop_at (request : WorkflowExecutionRequest) (definition : WorkflowDefinition) (t : Traversal)
    (node : WorkflowNode) (outgoing : list WorkflowEdge) : Exit WorkflowExecutionOutcome :=
  if decide (node_id node ∈ terminal_nodes definition) then
    let output_ := final_workflow_output (state t) (output_projection definition) in
    match validate_payload_against_contract output_ (schema (workflow_outputs definition)) OutputValidationFailed
            "workflow output does not satisfy the workflow output contract" with
    | Err error => fail_with request t WorkflowInvalid error
    | Ok _ => Returned (final_outcome request definition t output_)
    end
  else
    fail_with request t
      (if existsb (fun edge => bool_decide (trigger edge = Event)) outgoing
       then MissingRequiredEvent else TerminalNodeNotReached)
      (runtime_error ExecutionFailedCode "workflow traversal could not reach a valid next node"
        (obj (at_node node))).

Definition ambiguous_edges (request : WorkflowExecutionRequest) (t : Traversal) (node : WorkflowNode) (m : string)
    : Exit WorkflowExecutionOutcome :=
  fail_with request t AmbiguousNextEdge (runtime_error ExecutionFailedCode m (obj (at_node node))).

(** The event-driven edges of a node without a direct one. *)
Definition take_event_edge (request : WorkflowExecutionRequest) (definition : WorkflowDefinition) (t : Traversal)
    (node : WorkflowNode) (outgoing : list WorkflowEdge) (own : list EmittedEventRecord) : Step Traversal :=
  let waiting := waiting_edge_contexts ("workflow_exec_" +:+ workflow_request_id request)
    (List.filter (fun edge => bool_decide (trigger edge = Event)) outgoing) in
  let t := await t waiting in
  let local := evaluate_event_driven_edges waiting own (consumed_event_edges t) (record_prefix request t "local") in
  let t := absorb t local in
  let unresolved := List.filter (fun edge => negb (bool_decide (waiting_edge_id edge ∈ taken local))) waiting in
  found ← match_broker_events request t node unresolved;
  let '(t, more) := found in
  let taken_edge_ids := taken local ++ more in
  match List.filter (fun edge => bool_decide (edge_id edge ∈ taken_edge_ids)) outgoing with
  | [] => fail (stop_at request definition t node outgoing)
  | [edge] => mret (follow_edge t edge)
  | _ => fail (ambiguous_edges request t node "workflow traversal found more than one event next edge")
  end.

Definition take_edge (request : WorkflowExecutionRequest) (definition : WorkflowDefinition) (t : Traversal)
    (node : WorkflowNode) (own : list EmittedEventRecord) : Step Traversal :=
  let outgoing := List.filter (fun edge => bool_decide (from edge = node_id node)) (edges definition) in
  match List.filter (fun edge => bool_decide (trigger edge = Direct)) outgoing with
  | [] => take_event_edge request definition t node outgoing own
  | [edge] => mret (follow_edge t edge)
  | _ => fail (ambiguous_edges request t node "workflow traversal found more than one direct next edge")
  end.

Definition find_node (definition : WorkflowDefinition) (id : string) : option WorkflowNode :=
  find_first (fun node => bool_decide (node_id node = id)) (nodes definition).

Definition traverse_step (request : WorkflowExecutionRequest) (definition : WorkflowDefinition) (t : Traversal)
    : Step Traversal :=
  node ← lift (ok_or (find_node definition (current t))
    (fail_with request t WorkflowInvalid (runtime_error ExecutionFailedCode
      "workflow node could not be resolved during traversal" (obj [("node_id", Str (current t))]))));
  let t := enter t node in
  capability ← node_capability request t node;
  t ← verify_node request t node capability;
  output_ ← execute_node request t node capability;
  _ ← publish_step capability (local_emitted_events output_);
  take_edge request definition (complete t node output_) node
    (local_record <$> enumerate (local_emitted_events output_)).

(** The loop. *)
Fixpoint traverse_loop (fuel : nat) (request : WorkflowExecutionRequest) (definition : WorkflowDefinition)
    (t : Traversal) (p : Process) : Process * option WorkflowExecutionOutcome :=
  match fuel with
  | 0 => (p, None)
  | S fuel' =>
      match traverse_step request definition t p with
      | (p, Ok t) => traverse_loop fuel' request definition t p
      | (p, Err (Returned o)) => (p, Some o)
      | (p, Err OutOfFuel) => (p, None)
      end
  end.

Definition traverse_workflow (fuel : nat) (request : WorkflowExecutionRequest) (definition : WorkflowDefinition)
    (p : Process) : Process * option WorkflowExecutionOutcome :=
  traverse_loop fuel request definition (start_traversal request definition) p.

(** A failure before the traversal starts. *)
Definition fail_before (request : WorkflowExecutionRequest) (r : WorkflowTraversalFailureReason)
    (error : RuntimeError) : WorkflowExecutionOutcome :=
  workflow_failure request r error [] [] [] empty_bundle [].

Definition resolve_workflow (request : WorkflowExecutionRequest) : option WorkflowDefinition :=
  let s := map_workflow_lookup_scope (workflow_scope request) in
  match find_workflow (registries rt) s (requested_workflow_id request) (requested_workflow_version request) with
  | Some w => Some w
  | None => lookup_indexed_workflow (indexed_workflows rt) s (requested_workflow_id request)
      (requested_workflow_version request)
  end.

Definition execute_workflow (fuel : nat) (request : WorkflowExecutionRequest) (p : Process)
    : Process * option WorkflowExecutionOutcome :=
  match validate_workflow_request request with
  | Some error => (p, Some (fail_before request WorkflowInvalid error))
  | None =>
      match resolve_workflow request with
      | None => (p, Some (fail_before request WorkflowNotFound (runtime_error CapabilityNotFound
          "workflow definition was not found in the workflow registry"
          (obj [("workflow_id", Str (requested_workflow_id request));
                ("workflow_version", Str (requested_workflow_version request))]))))
      | Some definition =>
          match validate_payload_against_contract (workflow_input request) (schema (workflow_inputs definition))
                  RequestInvalid "workflow request input does not satisfy the workflow input contract" with
          | Err error => (p, Some (fail_before request WorkflowInvalid error))
          | Ok _ => traverse_workflow fuel request definition p
          end
      end
  end.

Definition with_attempt (a : AttemptContext) (c : ExecutionContext) : ExecutionContext := {|
  attempt := a; emitter := emitter c; context_collection := context_collection c;
  context_selection := context_selection c |}.

Definition add_warnings (ws : list RuntimeWarning) (a : AttemptContext) : AttemptContext := {|
  attempt_request := attempt_request a; execution_id := execution_id a; attempt_trace_id := attempt_trace_id a;
  observability := observability a; attempt_verification := attempt_verification a;
  warnings := warnings a ++ ws |}.

Definition workflow_request_for (c : ExecutionContext) (selected : ResolvedCapability) (r : WorkflowReference)
    : WorkflowExecutionRequest := {|
  workflow_request_kind := WORKFLOW_REQUEST_KIND; workflow_request_schema_version := WORKFLOW_SCHEMA_VERSION;
  workflow_request_id := request_id (attempt_request (attempt c));
  requested_workflow_id := ref_workflow_id r; requested_workflow_version := ref_workflow_version r;
  workflow_scope := match record_scope (record selected) with
    | Public => WorkflowPublicOnly | Private => WorkflowPreferPrivate end;
  workflow_input := input (attempt_request (attempt c));
  workflow_request_governing_spec := WORKFLOW_GOVERNING_SPEC |}.

Definition execute_workflow_capability (fuel : nat) (c : ExecutionContext) (selected : ResolvedCapability)
    (started : StartedExecution) (p : Process) : Process * option RuntimeExecutionOutcome :=
  match workflow_ref (artifact selected) with
  | None => (p, Some (execution_failure_outcome c selected started ArtifactMissingReason
      (runtime_error ArtifactMissingCode "workflow-backed capability is missing its workflow reference"
        (obj [("artifact_ref", Str (artifact_ref (record selected)))])) [] None))
  | Some r =>
      match execute_workflow fuel (workflow_request_for c selected r) p with
      | (p, None) => (p, None)
      | (p, Some w) =>
          let c := with_attempt (add_warnings (workflow_warnings (workflow_result w)) (attempt c)) c in
          let events_ := evidence_emitted_events (evidence w) in
          (p, Some (match workflow_status (workflow_result w) with
            | WorkflowCompleted => successful_execution_outcome c selected started
                (default (Object []) (workflow_output (workflow_result w))) events_ (Some (evidence w))
            | WorkflowError => execution_failure_outcome c selected started ExecutionFailedReason
                (default (runtime_error ExecutionFailedCode "workflow-backed capability execution failed" (obj []))
                  (workflow_error (workflow_result w))) events_ (Some (evidence w))
            end))
      end
  end.
End traverse.
