(* ===== verification/TraverseProps.v ===== *)
(** * What a traversal did

    The evidence of a traversal is a run of the workflow definition, and the
    traversal of a workflow that passed the loader's check ends. *)
From S2P Require Import Prelude Effect Json Events RuntimeInit Contract Schema.
From S2P Require Import Request Lifecycle Registry Security Outcome Hydration WorkflowGraph Router Attempt WorkflowRun Traverse.

(** ** Runs of a definition *)

Definition step_record (n : nat) (node : WorkflowNode) (status : WorkflowTraversalStepStatus)
    : WorkflowTraversalStepRecord := {|
  step_index := n; step_node_id := node_id node; step_capability_id := node_capability_id node;
  step_capability_version := node_capability_version node; step_status := status |}.

Definition outgoing_edges (d : WorkflowDefinition) (x : string) : list WorkflowEdge :=
  List.filter (fun edge => bool_decide (from edge = x)) (edges d).

Definition direct_edges (d : WorkflowDefinition) (x : string) : list WorkflowEdge :=
  List.filter (fun edge => bool_decide (trigger edge = Direct)) (outgoing_edges d x).

(** The edge taken out of a node: its only direct one or, when it has none, an
    event-driven one. *)
Definition chosen (d : WorkflowDefinition) (x : string) (e : WorkflowEdge) : Prop :=
  direct_edges d x = [e] \/ (direct_edges d x = [] /\ e ∈ outgoing_edges d x /\ trigger e = Event).

(** Completed steps and the edges between them, from [x] to [y]. *)
Inductive trail (d : WorkflowDefinition) : nat -> string -> list WorkflowTraversalStepRecord ->
    list WorkflowTraversalEdgeRecord -> string -> Prop :=
  | trail_here n x : trail d n x [] [] x
  | trail_step n x node e steps es y :
      find_node d x = Some node -> chosen d x e -> trail d (S n) (to e) steps es y ->
      trail d n x (step_record n node StepCompleted :: steps) (edge_record e :: es) y.

(** Every event-driven edge that was traversed consumed an event. *)
Definition events_consumed (es : list WorkflowTraversalEdgeRecord) (cs : list EventConsumptionRecord) : Prop :=
  forall r, r ∈ es -> traversed_trigger r = TraversedEvent -> exists c, c ∈ cs /\ consumed_edge_id c = traversed_edge_id r.

(** How the traversal ended at [x], after the completed steps [steps]. *)
Definition ended (d : WorkflowDefinition) (x : string) (steps : list WorkflowTraversalStepRecord)
    (o : WorkflowExecutionOutcome) : Prop :=
  match traversal_failure (evidence o) with
  | Some _ =>
      workflow_status (workflow_result o) = WorkflowError /\ workflow_output (workflow_result o) = None /\
      is_Some (workflow_error (workflow_result o)) /\
      ((find_node d x = None /\ visited_nodes (evidence o) = steps) \/
       exists node status, find_node d x = Some node /\
         visited_nodes (evidence o) = steps ++ [step_record (length steps) node status])
  | None =>
      workflow_status (workflow_result o) = WorkflowCompleted /\ workflow_error (workflow_result o) = None /\
      direct_edges d x = [] /\ x ∈ terminal_nodes d /\
      (exists node, find_node d x = Some node /\
        visited_nodes (evidence o) = steps ++ [step_record (length steps) node StepCompleted]) /\
      exists v, workflow_output (workflow_result o) = Some v /\
        validate_value_against_schema v (schema (workflow_outputs d)) "" = []
  end.

Definition is_run (d : WorkflowDefinition) (o : WorkflowExecutionOutcome) : Prop := exists x steps,
  trail d 0 (start_node d) steps (traversed_edges (evidence o)) x /\ ended d x steps o /\
  events_consumed (traversed_edges (evidence o)) (event_consumptions (evidence o)).

(** ** Lemmas on trails *)

Lemma trail_snoc d n x steps es y node e :
  trail d n x steps es y -> find_node d y = Some node -> chosen d y e ->
  trail d n x (steps ++ [step_record (n + length steps) node StepCompleted]) (es ++ [edge_record e]) (to e).
Proof.
  induction 1 as [n x|n x node' e' steps es y Hf Hc _ IH]; intros Hn He; cbn.
  - rewrite Nat.add_0_r. by eapply trail_step; [..|apply trail_here].
  - eapply trail_step; [done..|]. specialize (IH Hn He). by rewrite Nat.add_succ_r.
Qed.

Lemma set_last_snoc st n node st' steps :
  set_last_status st (steps ++ [step_record n node st']) = steps ++ [step_record n node st].
Proof.
  induction steps as [|s steps IH]; [done|]. cbn. rewrite <- IH. by destruct (steps ++ _) eqn:Hs; [destruct steps|].
Qed.

Lemma find_node_id d x node : find_node d x = Some node -> node ∈ nodes d /\ node_id node = x.
Proof. intros [Hin Hx]%find_first_Some. split; [done|]. by apply bool_decide_eq_true in Hx. Qed.

Lemma outgoing_elem d x e : e ∈ outgoing_edges d x <-> e ∈ edges d /\ from e = x.
Proof.
  unfold outgoing_edges. by rewrite list_elem_of_In, filter_In, bool_decide_eq_true, <- list_elem_of_In.
Qed.

Lemma direct_elem d x e : e ∈ direct_edges d x <-> e ∈ edges d /\ from e = x /\ trigger e = Direct.
Proof.
  unfold direct_edges. rewrite list_elem_of_In, filter_In, bool_decide_eq_true, <- list_elem_of_In, outgoing_elem. tauto.
Qed.

Lemma chosen_edge d x e : chosen d x e -> e ∈ edges d /\ from e = x.
Proof.
  intros [Hd|(_ & Ho & _)]; [|by apply outgoing_elem].
  assert (He : e ∈ direct_edges d x) by (rewrite Hd; left). apply direct_elem in He. tauto.
Qed.

(** ** Evaluating waiting edges *)

Definition taken_consumed (s : Evaluation) : Prop := forall id, id ∈ taken s ->
  exists c, c ∈ bundle_consumptions (eval_evidence s) /\ consumed_edge_id c = id.

Lemma evaluate_pair_consumed prefix i e s edge : taken_consumed s -> taken_consumed (evaluate_pair prefix i e s edge).
Proof.
  intros Hs. unfold evaluate_pair. cbn zeta.
  destruct (negb (bool_decide _)); [|destruct (negb (predicate_passes _ _)); [|destruct (decide _)]];
    intros id Hid; cbn in *; rewrite ?app_nil_r; [by apply Hs..|].
  apply elem_of_app in Hid as [Hid|Hid].
  - destruct (Hs id Hid) as (c & Hc & Hce). exists c. split; [|done]. rewrite elem_of_app. by left.
  - apply list_elem_of_singleton in Hid as ->. eexists. split; [rewrite elem_of_app; right; left|done].
Qed.

Lemma evaluate_consumed waiting records seen prefix :
  taken_consumed (evaluate_event_driven_edges waiting records seen prefix).
Proof.
  unfold evaluate_event_driven_edges. destruct records as [|r rs]; [intros id Hid; by apply elem_of_nil in Hid|].
  set (start := Build_Evaluation _ _ _ _). assert (Hs : taken_consumed start) by (intros id Hid; by apply elem_of_nil in Hid).
  generalize dependent start. generalize (enumerate (r :: rs)). intros entries.
  induction entries as [|[i e] entries IH]; intros start Hs; [done|]. cbn. apply IH.
  clear IH. generalize dependent start. generalize (stable_sort waiting_le waiting). intros edges.
  induction edges as [|edge edges IH]; intros start Hs; [done|]. cbn. apply IH. by apply evaluate_pair_consumed.
Qed.

(** ** One pass of the loop *)

(** The accumulators after the node was entered, compared with those before. *)
Record at_step (t t1 : Traversal) (node : WorkflowNode) (status : WorkflowTraversalStepStatus) : Prop := {
  at_visited : visited t1 = visited t ++ [step_record (index t) node status];
  at_index : index t1 = index t;
  at_traversed : traversed t1 = traversed t;
  at_consumed : bundle_consumptions (bundle t) ⊆ bundle_consumptions (bundle t1) }.

Record advanced (d : WorkflowDefinition) (t t' : Traversal) (node : WorkflowNode) (e : WorkflowEdge) : Prop := {
  adv_node : find_node d (Traverse.current t) = Some node;
  adv_chosen : chosen d (Traverse.current t) e;
  adv_current : Traverse.current t' = to e;
  adv_index : index t' = S (index t);
  adv_visited : visited t' = visited t ++ [step_record (index t) node StepCompleted];
  adv_traversed : traversed t' = traversed t ++ [edge_record e];
  adv_consumed : bundle_consumptions (bundle t) ⊆ bundle_consumptions (bundle t');
  adv_event : trigger e = Event -> exists c, c ∈ bundle_consumptions (bundle t') /\ consumed_edge_id c = edge_id e }.

Definition stopped (d : WorkflowDefinition) (t : Traversal) (o : WorkflowExecutionOutcome) : Prop :=
  traversed_edges (evidence o) = traversed t /\
  bundle_consumptions (bundle t) ⊆ event_consumptions (evidence o) /\
  ended d (Traverse.current t) (visited t) o.

(** A pass that runs out of fuel was polling for an event-driven edge. *)
Definition exit_ok (d : WorkflowDefinition) (t : Traversal) (e : Exit WorkflowExecutionOutcome) : Prop :=
  match e with
  | Returned o => stopped d t o
  | OutOfFuel => exists e, e ∈ edges d /\ trigger e = Event
  end.

Section passes.
Context `{Host, Trust, ContractCodec, SerdeJson} (rt : Runtime) (poll_fuel : nat).
Context (request : WorkflowExecutionRequest) (d : WorkflowDefinition).

Definition ends {A} (t : Traversal) (ok : A -> Prop) (m : Eff Process (Exit WorkflowExecutionOutcome) A) : Prop :=
  forall p, match (m p).2 with Ok a => ok a | Err e => exit_ok d t e end.

Lemma ends_bind {A B} t (ok : A -> Prop) (ok' : B -> Prop) (m : Eff Process (Exit WorkflowExecutionOutcome) A) k :
  ends t ok m -> (forall a, ok a -> ends t ok' (k a)) -> ends t ok' (m ≫= k).
Proof.
  intros Hm Hk p. unfold mbind, Eff_bind. specialize (Hm p). destruct (m p) as [p1 [a|e]]; cbn in *; [|done].
  by apply Hk.
Qed.

Lemma ends_ret {A} t (ok : A -> Prop) a : ok a -> ends t ok (mret a).
Proof. by intros Ha p. Qed.

Section node.
Context (t : Traversal) (node : WorkflowNode).
Context (Hnode : find_node d (Traverse.current t) = Some node) (Hindex : index t = length (visited t)).

Lemma fail_with_ok t1 status r error :
  at_step t t1 node status -> exit_ok d t (fail_with request t1 r error).
Proof.
  intros [Hv Hi Ht Hc]. split_and!; [done..|]. cbn. split_and!; [done..|].
  right. exists node, status. rewrite <- Hindex. done.
Qed.

Lemma fail_step_ok t1 status r error :
  at_step t t1 node status -> exit_ok d t (fail_step request t1 r error).
Proof.
  intros [Hv Hi Ht Hc]. split_and!; [done..|]. cbn. split_and!; [done..|].
  right. exists node, StepFailed. by rewrite Hv, set_last_snoc, <- Hindex.
Qed.

Lemma enter_at : at_step t (enter t node) node Entered.
Proof. by split. Qed.

Lemma warn_at t1 status ws : at_step t t1 node status -> at_step t (warn t1 ws) node status.
Proof. by intros []; split. Qed.

Lemma complete_at t1 status out : at_step t t1 node status -> at_step t (complete t1 node out) node StepCompleted.
Proof. intros [Hv Hi Ht Hc]. split; [|done..]. cbn. by rewrite Hv, set_last_snoc. Qed.

Lemma await_at t1 status w : at_step t t1 node status -> at_step t (await t1 w) node status.
Proof. intros [Hv Hi Ht Hc]. split; [done..|]. cbn. by rewrite app_nil_r. Qed.

Lemma absorb_at t1 status e : at_step t t1 node status -> at_step t (absorb t1 e) node status.
Proof. intros [Hv Hi Ht Hc]. split; [done..|]. cbn. set_solver. Qed.

Lemma node_capability_ends t1 status :
  at_step t t1 node status -> ends t (fun _ => True) (node_capability rt request t1 node).
Proof.
  intros Hat p. unfold node_capability. destruct (find_exact _ _ _ _); [done|].
  destruct (index_get _ _ _); [|by eapply fail_with_ok].
  destruct (hydrate_resolved_capability _ _ _ p) as [p1 [c|e]]; [done|by eapply fail_step_ok].
Qed.

Lemma verify_node_ends t1 status c : at_step t t1 node status ->
  ends t (fun t2 => at_step t t2 node status) (verify_node rt request t1 node c).
Proof.
  intros Hat p. unfold verify_node.
  destruct (load_artifact_bytes_for_verification _ _); [|by eapply fail_step_ok].
  destruct (verify_artifact _ _ _) as [vr|vf]; [|by eapply fail_step_ok].
  cbn. destruct (warning_code vr); [by apply warn_at|done].
Qed.

Lemma execute_node_ends t1 status c : at_step t t1 node status ->
  ends t (fun _ => True) (execute_node request t1 node c).
Proof.
  intros Hat. unfold execute_node.
  assert (Hl : forall A (r : Result RuntimeError A),
    ends t (fun _ => True) (lift_error r (fail_step request t1 StepExecutionFailed))).
  { intros A [a|e] p; [done|by eapply fail_step_ok]. }
  eapply ends_bind; [apply Hl|]. intros _ _. eapply (ends_bind _ (fun _ => True)).
  { intros p. destruct (run_executor _ _ p) as [p1 [o|e]]; [done|by eapply fail_step_ok]. }
  intros o _. eapply ends_bind; [apply Hl|]. intros _ _. eapply (ends_bind _ (fun _ => True)).
  { intros p. cbn. destruct (validate_natively_emitted_events _ _); [done|by eapply fail_step_ok]. }
  intros _ _. by apply ends_ret.
Qed.

Lemma match_broker_ends t1 status unresolved :
  at_step t t1 node status ->
  (unresolved <> [] -> exists e, e ∈ edges d /\ trigger e = Event) ->
  ends t (fun r => at_step t r.1 node status /\ bundle_consumptions (bundle t1) ⊆ bundle_consumptions (bundle r.1) /\
      forall id, id ∈ r.2 -> exists c, c ∈ bundle_consumptions (bundle r.1) /\ consumed_edge_id c = id)
    (match_broker_events poll_fuel request t1 node unresolved).
Proof.
  intros Hat Hevent p. unfold match_broker_events.
  destruct unresolved as [|u rest]; [cbn; split_and!; [done..|]; set_solver|].
  destruct (poll_broker_events_for_waiting_edges _ _ p) as [p1 [[records ws]|[[ty|m]|]]]; cbn [snd].
  - pose proof (evaluate_consumed (u :: rest) records (consumed_event_edges t1) (record_prefix request t1 "broker")) as He.
    split_and!; [by apply absorb_at, warn_at|cbn; set_solver|].
    intros id Hid. destruct (He id Hid) as (c & Hc & Hid'). exists c. split; [cbn; set_solver|done].
  - by eapply fail_step_ok.
  - by eapply fail_step_ok.
  - by apply Hevent.
Qed.

Lemma stop_at_ok t1 :
  at_step t t1 node StepCompleted -> direct_edges d (Traverse.current t) = [] ->
  exit_ok d t (stop_at request d t1 node (outgoing_edges d (Traverse.current t))).
Proof.
  intros Hat Hdirect. unfold stop_at. destruct (find_node_id _ _ _ Hnode) as [_ Hid].
  case_decide as Hterminal; [|by eapply fail_with_ok]. unfold validate_payload_against_contract.
  destruct (validate_value_against_schema _ _ _) eqn:Hv; [|by eapply fail_with_ok].
  destruct Hat as [Hvis Hi Ht Hc]. split_and!; [done..|]. cbn. split_and!; [done..|by rewrite <- Hid| |by eexists].
  exists node. by rewrite <- Hindex.
Qed.

Lemma waiting_event id es u :
  u ∈ waiting_edge_contexts id (List.filter (fun edge => bool_decide (trigger edge = Event)) es) ->
  exists e, e ∈ es /\ trigger e = Event.
Proof.
  intros (e & He & _)%list_elem_of_omap. exists e.
  rewrite list_elem_of_In, filter_In, bool_decide_eq_true, <- list_elem_of_In in He. done.
Qed.

Lemma take_event_edge_ends t1 own :
  at_step t t1 node StepCompleted -> direct_edges d (Traverse.current t) = [] ->
  ends t (fun t' => exists e, advanced d t t' node e)
    (take_event_edge poll_fuel request d t1 node (outgoing_edges d (Traverse.current t)) own).
Proof.
  intros Hat Hdirect. unfold take_event_edge. cbn zeta. set (waiting := waiting_edge_contexts _ _).
  set (own_eval := evaluate_event_driven_edges waiting own _ _).
  assert (Hown : taken_consumed own_eval) by apply evaluate_consumed.
  eapply ends_bind; [apply (match_broker_ends _ StepCompleted); [by apply absorb_at, await_at|]|].
  { intros Hun. destruct (List.filter _ waiting) as [|u rest] eqn:Hf; [done|].
    assert (Hu : In u (List.filter (fun edge => negb (bool_decide (waiting_edge_id edge ∈ taken own_eval))) waiting))
      by (rewrite Hf; by left).
    apply filter_In in Hu as [Hu%list_elem_of_In _]. apply waiting_event in Hu as (e & He & Htr).
    exists e. split; [|done]. by apply outgoing_elem in He as [? _]. }
  intros [t2 more] (Hat2 & Hsub & Hmore). cbn [fst snd] in *. set (ids := taken own_eval ++ more).
  match goal with |- context [List.filter ?f ?l] => destruct (List.filter f l) as [|e [|e2 rest]] eqn:Hsel end.
  - intros p. by apply stop_at_ok.
  - assert (He : In e (List.filter (fun edge => bool_decide (edge_id edge ∈ ids))
        (outgoing_edges d (Traverse.current t)))) by (rewrite Hsel; by left).
    apply filter_In in He as [He Hids%bool_decide_eq_true]. apply list_elem_of_In in He.
    destruct Hat2 as [Hv Hi Ht Hc]. apply ends_ret. exists e. split; try done.
    + right. split_and!; [done..|]. destruct (trigger e) eqn:Htr; [|done].
      apply outgoing_elem in He as [He Hfrom].
      assert (Hin : e ∈ direct_edges d (Traverse.current t)) by by apply direct_elem.
      rewrite Hdirect in Hin. by apply elem_of_nil in Hin.
    + cbn. by rewrite Hi.
    + cbn. by rewrite Ht.
    + intros _. cbn. apply elem_of_app in Hids as [Hids|Hids]; [|by apply Hmore].
      destruct (Hown _ Hids) as (c & Hcin & Hcid). exists c. split; [|done]. apply Hsub. cbn. set_solver.
  - intros p. by eapply fail_with_ok.
Qed.

Lemma take_edge_ends t1 own :
  at_step t t1 node StepCompleted ->
  ends t (fun t' => exists e, advanced d t t' node e) (take_edge poll_fuel request d t1 node own).
Proof.
  intros Hat. destruct (find_node_id _ _ _ Hnode) as [_ Hid]. unfold take_edge. cbn zeta. rewrite Hid.
  fold (outgoing_edges d (Traverse.current t)). fold (direct_edges d (Traverse.current t)).
  destruct (direct_edges d (Traverse.current t)) as [|e [|e2 rest]] eqn:Hd.
  - by apply take_event_edge_ends.
  - destruct Hat as [Hv Hi Ht Hc]. apply ends_ret. exists e. split; try done.
    + by left.
    + cbn. by rewrite Hi.
    + cbn. by rewrite Ht.
    + assert (He : e ∈ direct_edges d (Traverse.current t)) by (rewrite Hd; left).
      apply direct_elem in He as (_ & _ & He). by rewrite He.
  - intros p. by eapply fail_with_ok.
Qed.
End node.

Lemma step_ends t : index t = length (visited t) ->
  ends t (fun t' => exists node e, advanced d t t' node e) (traverse_step rt poll_fuel request d t).
Proof.
  intros Hindex. unfold traverse_step. eapply (ends_bind _ (fun node => find_node d (Traverse.current t) = Some node)).
  { intros p. cbn. destruct (find_node d (Traverse.current t)) eqn:Hn; [done|]. cbn.
    split_and!; [done..|]. cbn. split_and!; [done..|]. by left. }
  intros node Hnode. eapply ends_bind; [by eapply node_capability_ends, enter_at|]. intros c _.
  eapply ends_bind; [by eapply verify_node_ends, enter_at|]. intros t1 Hat.
  eapply ends_bind; [exact (execute_node_ends t node Hnode Hindex t1 Entered c Hat)|]. intros out _. eapply (ends_bind _ (fun _ => True)).
  { intros p. unfold publish_step. by destruct (Contract.service_type _). }
  intros _ _ p. pose proof (take_edge_ends t node Hnode Hindex (complete t1 node out)
    (local_record <$> enumerate (local_emitted_events out)) (complete_at _ _ _ _ _ Hat) p) as Ht.
  destruct (take_edge _ _ _ _ _ _ p) as [p1 [t'|e]]; cbn in *; [|done]. destruct Ht as [e He]. by exists node, e.
Qed.

(** ** The loop *)

(** What the accumulators hold between passes. *)
Record between (t : Traversal) : Prop := {
  bt_trail : trail d 0 (start_node d) (visited t) (traversed t) (Traverse.current t);
  bt_index : index t = length (visited t);
  bt_events : events_consumed (traversed t) (bundle_consumptions (bundle t)) }.

Lemma between_start : between (start_traversal request d).
Proof. split; [constructor|done|]. intros r Hr. by apply elem_of_nil in Hr. Qed.

Lemma between_advanced t t' node e : between t -> advanced d t t' node e -> between t'.
Proof.
  intros [Ht Hi He] [Hn Hc Hcur Hidx Hv Htr Hsub Hev]. split.
  - rewrite Hv, Htr, Hcur, Hi. by eapply (trail_snoc d 0).
  - rewrite Hidx, Hv, length_app, Hi. cbn. lia.
  - intros r. rewrite Htr, elem_of_app. intros [Hr|Hr] Hrt.
    + destruct (He r Hr Hrt) as (c & Hcin & Hcid). exists c. split; [by apply Hsub|done].
    + apply list_elem_of_singleton in Hr as ->. apply Hev. cbn in Hrt. by destruct (trigger e).
Qed.

Lemma loop_run fuel t p : between t ->
  match (traverse_loop rt poll_fuel fuel request d t p).2 with
  | Some o => is_run d o
  | None => True
  end.
Proof.
  revert t p. induction fuel as [|fuel IH]; intros t p Hb; [done|]. cbn [traverse_loop].
  pose proof (step_ends t (bt_index _ Hb) p) as Hs.
  destruct (traverse_step rt poll_fuel request d t p) as [p1 [t'|[o|]]]; cbn [snd] in *; [|..|done].
  - destruct Hs as (node & e & Hadv). apply IH. by eapply between_advanced.
  - destruct Hs as (Ht & Hc & Hend). exists (Traverse.current t), (visited t). rewrite Ht.
    split_and!; [by apply Hb|done|]. intros r Hr Hrt. destruct (bt_events _ Hb r Hr Hrt) as (c & Hcin & Hid).
    exists c. split; [by apply Hc|done].
Qed.
End passes.

(** ** Acyclic definitions *)

Section acyclic.
Context (d : WorkflowDefinition).
Context (Hdirect : forall e, e ∈ edges d -> trigger e = Direct).
Context (Hacyclic : forall x, ~ tc (direct_step (edges d) (node_ids d)) x x).

Lemma node_declared x node : find_node d x = Some node -> x ∈ node_ids d.
Proof.
  intros [Hin <-]%find_node_id. unfold node_ids. by apply elem_of_list_to_set, list_elem_of_fmap_2.
Qed.

Lemma chosen_direct x node e : find_node d x = Some node -> chosen d x e -> direct_step (edges d) (node_ids d) x (to e).
Proof.
  intros Hn [He Hfrom]%chosen_edge. split; [by eapply node_declared|]. exists e. split_and!; [done|by apply Hdirect|done..].
Qed.

Lemma trail_distinct n x steps es y : trail d n x steps es y ->
  NoDup (step_node_id <$> steps) /\ (step_node_id <$> steps) ⊆ (node_id <$> nodes d) /\
  forall z, z ∈ step_node_id <$> steps ->
    rtc (direct_step (edges d) (node_ids d)) x z /\ tc (direct_step (edges d) (node_ids d)) z y.
Proof.
  induction 1 as [n x|n x node e steps es y Hn Hc Htr (Hnd & Hin & Hreach)]; cbn.
  { split_and!; [constructor|set_solver|]. intros z Hz. by apply elem_of_nil in Hz. }
  pose proof (chosen_direct _ _ _ Hn Hc) as Hstep. destruct (find_node_id _ _ _ Hn) as [Hdecl Hid]. rewrite Hid.
  assert (Htail : tc (direct_step (edges d) (node_ids d)) x y).
  { destruct Htr as [n' x'|n' x' node' e' steps es y Hn' Hc' _]; [by apply tc_once|].
    eapply tc_l; [done|]. apply Hreach. cbn. rewrite (proj2 (find_node_id _ _ _ Hn')). left. }
  split_and!.
  - constructor; [|done]. intros Hx. destruct (Hreach x Hx) as [Hr _].
    apply (Hacyclic x). by eapply tc_rtc_r; [apply tc_once|].
  - intros z [->|Hz]%elem_of_cons; [|by apply Hin]. rewrite <- Hid. by apply list_elem_of_fmap_2.
  - intros z [->|Hz]%elem_of_cons; [by split|]. destruct (Hreach z Hz) as [Hr Ht]. split; [|done].
    by eapply rtc_l.
Qed.

Lemma distinct_bound (ids : list string) : NoDup ids -> ids ⊆ (node_id <$> nodes d) -> length ids <= length (nodes d).
Proof.
  intros Hnd Hin. rewrite <- (length_fmap node_id (nodes d)). apply submseteq_length.
  apply NoDup_submseteq; [done|]. intros x Hx. by apply Hin.
Qed.

Lemma trail_bound n x steps es y : trail d n x steps es y -> length steps <= length (nodes d).
Proof.
  intros (Hnd & Hin & _)%trail_distinct. rewrite <- (length_fmap step_node_id). by apply distinct_bound.
Qed.

Lemma run_distinct o : is_run d o ->
  NoDup (step_node_id <$> visited_nodes (evidence o)) /\
  (step_node_id <$> visited_nodes (evidence o)) ⊆ (node_id <$> nodes d).
Proof.
  intros (x & steps & Htr & Hend & _). destruct (trail_distinct _ _ _ _ _ Htr) as (Hnd & Hin & Hreach).
  assert (Hlast : forall node status, find_node d x = Some node ->
    NoDup (step_node_id <$> steps ++ [step_record (length steps) node status]) /\
    (step_node_id <$> steps ++ [step_record (length steps) node status]) ⊆ (node_id <$> nodes d)).
  { intros node status Hn. destruct (find_node_id _ _ _ Hn) as [Hdecl Hid]. rewrite fmap_app. split.
    - apply NoDup_app. split_and!; [done| |apply NoDup_singleton]. cbn. rewrite Hid.
      intros z Hz ->%list_elem_of_singleton. by apply (Hacyclic x), Hreach.
    - intros z. rewrite elem_of_app. intros [Hz|Hz]; [by apply Hin|]. apply list_elem_of_singleton in Hz as ->.
      by apply (list_elem_of_fmap_2 node_id). }
  unfold ended in Hend. destruct (traversal_failure (evidence o)).
  - destruct Hend as (_ & _ & _ & [[_ ->]|(node & status & Hn & ->)]); [done|by apply Hlast].
  - destruct Hend as (_ & _ & _ & _ & (node & Hn & ->) & _). by apply Hlast.
Qed.

Lemma loop_ends `{Host, Trust, ContractCodec, SerdeJson} (rt : Runtime) poll_fuel request fuel t p :
  between d t -> length (nodes d) < fuel + length (visited t) ->
  is_Some (traverse_loop rt poll_fuel fuel request d t p).2.
Proof.
  revert t p. induction fuel as [|fuel IH]; intros t p Hb Hf.
  { pose proof (trail_bound _ _ _ _ _ (bt_trail _ _ Hb)). lia. }
  cbn [traverse_loop]. pose proof (step_ends rt poll_fuel request d t (bt_index _ _ Hb) p) as Hs.
  destruct (traverse_step rt poll_fuel request d t p) as [p1 [t'|[o|]]]; cbn [snd] in *; [|by eexists|].
  - destruct Hs as (node & e & Hadv). apply IH; [by eapply between_advanced|].
    rewrite (adv_visited _ _ _ _ _ Hadv), length_app. cbn. lia.
  - destruct Hs as (e & He & Htr). by rewrite (Hdirect e He) in Htr.
Qed.
End acyclic.

Lemma validated_acyclic d ix :
  validate_workflow_against_index d ix = Ok tt -> forall x, ~ tc (direct_step (edges d) (node_ids d)) x x.
Proof.
  unfold validate_workflow_against_index. repeat case_match; try done. intros _ x Hx.
  destruct (cycle_check (edges d) (node_ids d)) as (cyclic & Hc & Hiff).
  assert (Hyes : cyclic = true) by (apply Hiff; by eexists). congruence.
Qed.

(** ** The claims *)

Section claims.
Context `{Host, Trust, ContractCodec, SerdeJson} (rt : Runtime).

(** C3: the traversal of a workflow whose edges are all direct, and which passed the
    loader's checks, ends within one pass more than it declares nodes, whatever the
    executor, the registries and the artifacts do, and enters no node twice. *)
Theorem traversal_terminates poll_fuel fuel request d ix p :
  validate_workflow_against_index d ix = Ok tt ->
  (forall e, e ∈ edges d -> trigger e = Direct) -> length (nodes d) < fuel ->
  exists p' o, traverse_workflow rt poll_fuel fuel request d p = (p', Some o) /\
    NoDup (step_node_id <$> visited_nodes (evidence o)) /\
    length (visited_nodes (evidence o)) <= length (nodes d).
Proof.
  intros Hok Hdirect Hf. pose proof (validated_acyclic d ix Hok) as Hv. unfold traverse_workflow.
  pose proof (loop_ends d Hdirect Hv rt poll_fuel request fuel _ p (between_start request d)) as [o Ho]; [cbn; lia|].
  pose proof (loop_run rt poll_fuel request d fuel _ p (between_start request d)) as Hr. rewrite Ho in Hr.
  destruct (traverse_loop _ _ _ _ _ _ _) as [p' o']. cbn in Ho. subst o'. exists p', o.
  destruct (run_distinct d Hdirect Hv o Hr) as [Hnd Hin]. split_and!; [done..|].
  rewrite <- (length_fmap step_node_id). by apply distinct_bound.
Qed.

(** C4: an outcome of the workflow engine either precedes every step (the request, the
    definition or the input was refused, and nothing ran), or its evidence is a run of
    the definition found: completed steps at consecutive indices that follow declared
    edges from the start node, each edge the only direct one out of its node or an
    event-driven one that consumed an event, and the last step at a terminal node with
    a conforming output exactly when the workflow completed. *)
Theorem workflow_evidence_is_run poll_fuel fuel request p p' o :
  execute_workflow rt poll_fuel fuel request p = (p', Some o) ->
  (p' = p /\ visited_nodes (evidence o) = [] /\ traversed_edges (evidence o) = [] /\
   workflow_status (workflow_result o) = WorkflowError /\
   (traversal_failure (evidence o) = Some WorkflowInvalid \/ traversal_failure (evidence o) = Some WorkflowNotFound)) \/
  exists d, resolve_workflow rt request = Some d /\
    validate_value_against_schema (workflow_input request) (schema (workflow_inputs d)) "" = [] /\ is_run d o.
Proof.
  unfold execute_workflow. destruct (validate_workflow_request request); [intros [= <- <-]; left; cbn; tauto|].
  destruct (resolve_workflow rt request) as [d|]; [|intros [= <- <-]; left; cbn; tauto].
  unfold validate_payload_against_contract. destruct (validate_value_against_schema _ _ _) eqn:Hin.
  2: intros [= <- <-]; left; cbn; tauto.
  intros Ht. right. exists d. split_and!; [done..|].
  pose proof (loop_run rt poll_fuel request d fuel _ p (between_start request d)) as Hr.
  unfold traverse_workflow in Ht. by rewrite Ht in Hr.
Qed.
End claims.
