(* ===== verification/Execute.v ===== *)
(** * Execution of a runtime request

    [Runtime::execute] of [crates/traverse-runtime/src/lib.rs]: candidate collection,
    the gates before execution, the call of the executor through the router, and the
    lifecycle event; with the messages of a browser subscription. *)
From S2P Require Import Prelude Effect Json Pointer Canonical Placement Events RuntimeInit Contract.
From S2P Require Import Request Lifecycle Registry Security Outcome Hydration Router Attempt WorkflowRun Traverse.
From Stdlib Require Import Ascii.

(** What a run observes of clocks and random numbers. *)
Record Readings := {
  event_uuid : string;
  event_time : string;
  router_readings : RouterReadings }.

Definition idle_runtime_snapshot : RuntimeSnapshot := {|
  target_loads := list_to_map ((fun t => (t, f32_zero)) <$> [Local; Browser; Edge; Cloud; Worker; Device]) |}.

Definition execution_target_from_placement (t : PlacementTarget) : ExecutionTarget :=
  match t with
  | LocalTarget => Local
  | BrowserTarget => Browser
  | EdgeTarget => Edge
  | CloudTarget => Cloud
  | WorkerTarget => Worker
  | DeviceTarget => Device
  end.

Definition artifact_type_for (selected : ResolvedCapability) : ArtifactType :=
  match binary (artifact selected) with Some _ => Wasm | None => Native end.

Definition executor_capability_for (selected : ResolvedCapability) (ty : ArtifactType) : ExecutorCapability := {|
  executor_capability_id := Contract.id (contract selected); executor_artifact_type := ty;
  wasm_binary_path := location <$> binary (artifact selected);
  wasm_checksum := binary_digest (artifact selected) ≫= strip_prefix "sha256:";
  host_abi_version := None; executor_emits := emits (contract selected);
  executor_service_type := Contract.service_type (contract selected);
  executor_state_schema := Contract.state_schema (contract selected) |}.

Definition violation_value (v : ViolationRecord) : Value :=
  obj [("violation_code", Str (violation_code v)); ("path", Str (violation_path v));
       ("message", Str (violation_message v))].

Definition map_router_error (e : RouterError) : RuntimeError * ExecutionFailureReason * list EventReference :=
  match e with
  | PlacementFailed NoEligibleTarget => (runtime_error PlacementUnsupportedCode
      "placement constraints rejected the capability execution request"
      (obj [("placement_error", Str "NoEligibleTarget")]), PlacementUnsupported, [])
  | ExecutorNotFound ty => (runtime_error CapabilityNotRunnable
      "no executor is registered for the capability artifact type" (obj [("artifact_type", Str ty)]),
      ArtifactNotRunnable, [])
  | RouterExecutionFailed m => (runtime_error ExecutionFailedCode m (obj [("code", Str "execution_failed")]),
      ExecutionFailedReason, [])
  | RouterContractViolation vs => (runtime_error ContractViolation
      "capability execution violated its governed contract"
      (obj [("violations", Array (violation_value <$> vs))]), ExecutionFailedReason, [])
  | TraceLockPoisoned => (runtime_error ExecutionFailedCode "trace store lock is poisoned"
      (obj [("code", Str "trace_lock_poisoned")]), ExecutionFailedReason, [])
  | DurableTraceWriteFailed m => (runtime_error ExecutionFailedCode
      "the execution trace could not be durably written"
      (obj [("code", Str "durable_trace_write_failed"); ("detail", Str m)]), ExecutionFailedReason, [])
  end.

Definition entry_lookup (s : RegistryScope) : LookupScope :=
  match s with Public => LookupPublicOnly | Private => LookupPreferPrivate end.

(** [capability_id.or(intent_key).unwrap_or_default()] *)
Definition intent_target (i : RuntimeIntent) : string :=
  match intent_capability_id i with Some id => id | None => default "" (intent_key i) end.

(** A capability id with a version range, both non-empty. *)
Definition range_target (i : RuntimeIntent) : option (string * string) :=
  match intent_capability_id i, version_range i with
  | Some id, Some range => if non_empty id && non_empty range then Some (id, range) else None
  | _, _ => None
  end.

Record CandidateResolution := {
  eligible : list ResolvedCapability;
  collection : CandidateCollectionRecord;
  resolution_reason : CandidateReason;
  hydration_failure : option HydrationError }.

Section execute.
Context `{Host, Trust, ContractCodec, SerdeJson, SemverCrate} (rt : Runtime).

(** ** Candidates *)

Definition collect_candidates (request : RuntimeRequest) : list ResolvedCapability :=
  let i := intent request in
  let s := map_lookup_scope (scope (lookup_scope request)) in
  let reg := registries rt in
  if is_exact_target i then
    match intent_capability_id i, intent_capability_version i with
    | Some id, Some version => option_list (find_exact reg s id version)
    | _, _ => []
    end
  else
    match range_target i with
    | Some (id, range) =>
        match resolve_version_range reg id range s with
        | Some resolved => option_list (find_exact reg (entry_lookup (resolved_scope resolved))
            (resolved_capability_id resolved) (resolved_version resolved))
        | None => []
        end
    | None =>
        omap (fun entry => find_exact reg (entry_lookup (entry_scope entry)) (entry_id entry) (entry_version entry))
          (List.filter (fun entry => bool_decide (entry_id entry = intent_target i)) (discover reg s))
    end.

(** The entries of the index in the range, each with its version. *)
Definition matching_entries (requirement : Version -> bool) (id : string) : list (Version * IndexedCapability) :=
  omap (fun entry =>
      v ← parse_version (indexed_capability_version entry);
      if requirement v then Some (v, entry) else None)
    (List.filter (fun entry => bool_decide (indexed_capability_id entry = id)) (index_values (capability_metadata rt))).

Fixpoint hydrate_all (found : list IndexedCapability) : Eff Process HydrationError (list ResolvedCapability) :=
  match found with
  | [] => mret []
  | entry :: rest =>
      first ← hydrate_resolved_capability rt (indexed_capability_id entry) (indexed_capability_version entry);
      others ← hydrate_all rest;
      mret (first :: others)
  end.

Definition collect_indexed_candidates (request : RuntimeRequest) : Eff Process HydrationError (list ResolvedCapability) :=
  let i := intent request in
  let single id version := hydrate_resolved_capability rt id version ≫= fun c => mret [c] in
  match non_blank (intent_capability_id i), non_blank (intent_capability_version i) with
  | Some id, Some version =>
      match index_get (capability_metadata rt) id version with
      | None => mret []
      | Some _ => single id version
      end
  | _, _ =>
      match range_target i with
      | Some (id, range) =>
          match parse_version_req range with
          | None => mret []
          | Some requirement =>
              match last (stable_sort (fun a b => version_le a.1 b.1) (matching_entries requirement id)) with
              | None => mret []
              | Some (_, selected) =>
                  single (indexed_capability_id selected) (indexed_capability_version selected)
              end
          end
      | None =>
          hydrate_all (List.filter (fun entry => bool_decide (indexed_capability_id entry = intent_target i))
            (index_values (capability_metadata rt)))
      end
  end.

(** The candidates that may run and the ones that may not, in order. *)
Fixpoint partition_candidates (discovered : list ResolvedCapability)
    : list ResolvedCapability * list RejectedRuntimeCandidate :=
  match discovered with
  | [] => ([], [])
  | c :: rest =>
      let '(good, bad) := partition_candidates rest in
      match evaluate_candidate c with
      | Ok _ => (c :: good, bad)
      | Err r => (good, {| rejected_id := record_id (record c); rejected_version := record_version (record c);
          rejected_scope := map_registry_scope (record_scope (record c)); rejected_reason := r |} :: bad)
      end
  end.

(** The registry first, the persisted index when it has nothing. *)
Definition discover_candidates (request : RuntimeRequest) (p : Process)
    : Process * (list ResolvedCapability * option HydrationError) :=
  let found := collect_candidates request in
  if bool_decide (length found = 0) && negb (index_is_empty (capability_metadata rt)) then
    match collect_indexed_candidates request p with
    | (p, Ok indexed) => (p, (indexed, None))
    | (p, Err e) => (p, (found, Some e))
    end
  else (p, (found, None)).

Definition count_value (n : nat) : Value := Num (PosInt (N.of_nat n)).

Definition resolve_candidates (request : RuntimeRequest) (em : StateEmitter) (p : Process)
    : Process * (StateEmitter * CandidateResolution) :=
  let r := if is_exact_target (intent request) then ExactMatch else IntentMatch in
  let '(p, (discovered, failure)) := discover_candidates request p in
  let em := match discovered with
    | [] => em
    | _ => push em EvaluatingConstraints CandidatesCollected
        (obj [("candidate_count", count_value (length discovered))])
    end in
  let '(good, bad) := partition_candidates discovered in
  let em := match good with
    | [] => em
    | _ => push em Selecting ConstraintsEvaluated
        (obj [("eligible_candidates", count_value (length good)); ("rejected_candidates", count_value (length bad))])
    end in
  (p, (em, {| eligible := good;
     collection := {| collected_scope := scope (lookup_scope request); candidates := runtime_candidate r <$> good;
       rejected_candidates := bad |};
     resolution_reason := r; hydration_failure := failure |})).

(** ** The gates *)

Definition draft_error (selected : ResolvedCapability) : RuntimeError :=
  runtime_error ContractViolation "draft artifacts are not executable"
    (obj [("violations", Array [violation_value {| violation_code := "draft_artifact_not_executable";
      violation_path := contract_path (record selected);
      violation_message := "draft artifacts are quarantined under drafts/ and must not be executable" |}])]).

Definition dependency_details (e : ResolutionError) : string * string :=
  match e with
  | MissingDependency capability_id required_version => (capability_id, required_version)
  | CircularDependency cycle => (String.concat " -> " cycle, "")
  | MaxTransitiveDepthExceeded depth chain =>
      ("depth=" +:+ u64_to_string (N.of_nat depth), String.concat " -> " chain)
  end.

Definition dependency_error (e : ResolutionError) : RuntimeError :=
  let '(id, version) := dependency_details e in
  runtime_error CapabilityNotFound "dependency resolution failed before execution"
    (obj [("dependency_id", Str id); ("required_version", Str version)]).

Definition pre_failure (selected : ResolvedCapability) (r : ExecutionFailureReason) (p : PlacementDecisionRecord)
    (e : RuntimeError) (v : option ArtifactVerificationRecord) : PreExecutionFailure := {|
  pre_artifact_ref := Some (artifact_ref (record selected)); pre_failure_reason := r; pre_placement := p;
  pre_error := e; pre_verification := v |}.

(** The attempt after its artifact was verified. *)
Definition verified_attempt (r : ArtifactVerificationRecord) (a : AttemptContext) : AttemptContext := {|
  attempt_request := attempt_request a; execution_id := execution_id a; attempt_trace_id := attempt_trace_id a;
  observability := observability a; attempt_verification := Some r;
  warnings := warnings a ++ match warning_code r with Some c => [unsigned_warning c] | None => [] end |}.

(** The gates of [execute_selected] in order: the placement and the attempt to start
    with, or the failure together with the attempt it is reported for. *)
Definition pre_execution_gates (read : string -> Result string Bytes) (a : AttemptContext)
    (selected : ResolvedCapability)
    : Result (AttemptContext * PreExecutionFailure) (AttemptContext * PlacementDecisionRecord) :=
  let target := requested_target (context (attempt_request a)) in
  let failed a r pl e v := Err (a, pre_failure selected r pl e v) in
  if contains_drafts_segment (contract_path (record selected)) then
    failed a ArtifactNotRunnable (placement_not_attempted target SelectionNotReached) (draft_error selected) None
  else
    match resolve_placement target with
    | Err e => failed a PlacementUnsupported (placement_not_attempted target RequestedTargetUnsupported) e None
    | Ok pl =>
        match load_artifact_bytes_for_verification read selected with
        | Err e => failed a ArtifactMissingReason pl e None
        | Ok bytes =>
            match verify_artifact selected bytes (security rt) with
            | Err f => failed a ArtifactNotRunnable pl (artifact_verification_runtime_error f) (Some (failure_record f))
            | Ok r =>
                let a := verified_attempt r a in
                match resolve_dependencies (registries rt) (record_id (record selected))
                        (dependencies (contract selected))
                        (map_lookup_scope (scope (lookup_scope (attempt_request a)))) with
                | Some e => failed a ArtifactMissingReason pl (dependency_error e) (attempt_verification a)
                | None =>
                    match validate_payload_against_contract (input (attempt_request a))
                            (schema (inputs (contract selected))) RequestInvalid
                            "runtime request input does not satisfy the selected capability input contract" ;;
                          canonical_input_check (input (attempt_request a)) with
                    | Err e => failed a ContractInputInvalid pl e (attempt_verification a)
                    | Ok _ => Ok (a, pl)
                    end
                end
            end
        end
    end.

(** ** Execution *)

(** [BoundLocalExecutor::execute] *)
Definition bound_local_executor (selected : ResolvedCapability) : CapabilityExecutor := fun _ value p =>
  match run_executor selected value p with
  | (p, Err failure) => (p, Err (ExecutorExecutionFailed (local_failure_message failure)))
  | (p, Ok output_) =>
      match validate_natively_emitted_events (contract selected) (local_emitted_events output_) with
      | Err m => (p, Err (ExecutorExecutionFailed m))
      | Ok _ => (p, Ok {| executor_value := local_value output_;
                          executor_emitted_events := local_emitted_events output_ |})
      end
  end.

Definition router_request_for (a : AttemptContext) (selected : ResolvedCapability) (pl : PlacementDecisionRecord)
    : RouterRequest :=
  let ty := artifact_type_for selected in {|
    router_capability_id := record_id (record selected); router_artifact_type := ty;
    router_contract := contract selected;
    router_target_hint := Some (execution_target_from_placement (target_of pl));
    router_runtime_snapshot := idle_runtime_snapshot; router_input := input (attempt_request a);
    router_executor_capability := executor_capability_for selected ty;
    trace_id_override := Some (attempt_trace_id a) |}.

Definition event_reference (e : TraverseEvent) : EventReference :=
  {| RuntimeInit.event_id := event_type e; event_version := Events.version e |}.

Definition execute_started_selection (fuel poll_fuel : nat) (at_ : Readings) (c : ExecutionContext)
    (selected : ResolvedCapability) (pl : PlacementDecisionRecord) (p : Process)
    : Process * option RuntimeExecutionOutcome :=
  let '(em, started) := start_selected_execution (emitter c) selected pl (attempt_identity (attempt c)) in
  let c := {| attempt := attempt c; emitter := em; context_collection := context_collection c;
              context_selection := context_selection c |} in
  match implementation_kind (record selected) with
  | Workflow => execute_workflow_capability rt poll_fuel fuel c selected started p
  | Executable =>
      match execute_with_executor None (router_readings at_)
              (router_request_for (attempt c) selected (started_placement started))
              (bound_local_executor selected) p with
      | (p, Err e) =>
          let '(error, r, events_) := map_router_error e in
          (p, Some (execution_failure_outcome c selected started r error events_ None))
      | (p, Ok response) =>
          (p, Some (match validate_payload_against_contract (response_output response)
                          (schema (outputs (contract selected))) OutputValidationFailed
                          "executor output does not satisfy the selected capability output contract" with
            | Err error => execution_failure_outcome c selected started ContractOutputInvalid error [] None
            | Ok _ => successful_execution_outcome c selected started (response_output response)
                (event_reference <$> response_emitted_events response) None
            end))
      end
  end.

Definition execute_selected (fuel poll_fuel : nat) (at_ : Readings) (c : ExecutionContext)
    (selected : ResolvedCapability) (p : Process) : Process * option RuntimeExecutionOutcome :=
  match pre_execution_gates (read_file (world p)) (attempt c) selected with
  | Err (a, failure) => (p, Some (pre_execution_failure_outcome (with_attempt a c) failure))
  | Ok (a, pl) => execute_started_selection fuel poll_fuel at_ (with_attempt a c) selected pl p
  end.

Definition lifecycle_event (at_ : Readings) (o : RuntimeExecutionOutcome) (i : option RuntimeIdentity)
    : TraverseEvent := {|
  Events.id := event_uuid at_; source := "traverse-runtime"; event_type := RUNTIME_EXECUTION_EVENT_TYPE;
  datacontenttype := "application/json"; time := event_time at_;
  data := obj [("execution_id", Str (result_execution_id (result o)));
    ("request_id", Str (result_request_id (result o))); ("status", result_status_value (result_status (result o)));
    ("trace_ref", Str (trace_ref (result o)))];
  Events.owner := "traverse-runtime"; Events.version := SUPPORTED_SCHEMA_VERSION; lifecycle_status := Events.Active;
  deduplication_id := Some (result_execution_id (result o));
  ordering_scope := Some (result_request_id (result o));
  Events.correlation_id := Some (result_request_id (result o));
  causation_id := Some (result_request_id (result o));
  Events.subject_id := subject_id <$> i; Events.actor_id := i ≫= actor_id |}.

Definition with_warning (w : RuntimeWarning) (o : RuntimeExecutionOutcome) : RuntimeExecutionOutcome :=
  let r := result o in
  let t := trace o in
  let tr := trace_result t in
  {| result := {| result_kind := result_kind r; result_schema_version := result_schema_version r;
       result_execution_id := result_execution_id r; result_request_id := result_request_id r;
       result_status := result_status r; trace_ref := trace_ref r; result_output := result_output r;
       result_error := result_error r; result_warnings := result_warnings r ++ [w] |};
     trace := {| trace_kind := trace_kind t; trace_schema_version := trace_schema_version t;
       trace_id := trace_id t; trace_execution_id := trace_execution_id t; trace_request_id := trace_request_id t;
       trace_governing_spec := trace_governing_spec t; trace_request := trace_request t;
       decision_evidence := decision_evidence t; state_progression := state_progression t;
       terminal_outcome := terminal_outcome t; trace_emitted_events := trace_emitted_events t;
       workflow_evidence := workflow_evidence t; state_transitions := state_transitions t;
       state_machine_validation := state_machine_validation t; candidate_collection := candidate_collection t;
       selection := selection t; execution := execution t;
       trace_result := {| trace_result_status := trace_result_status tr; trace_output := trace_output tr;
         trace_error := trace_error tr; trace_warnings := trace_warnings tr ++ [w] |};
       otel_trace := otel_trace t |};
     state_events := state_events o |}.

Definition emit_execution_lifecycle_event (at_ : Readings) (o : RuntimeExecutionOutcome)
    (i : option RuntimeIdentity) (p : Process) : Process * RuntimeExecutionOutcome :=
  let '(s, r) := sink_emit (sink p) (lifecycle_event at_ o i) in
  (with_sink s p,
   match r with
   | Ok _ => o
   | Err e => with_warning {| warning := "runtime_event_sink_delivery_failed";
                              warning_message := display_event_error e |} o
   end).

Definition selected_record (c : ResolvedCapability) : SelectionRecord := {|
  selection_status := Selected; selected_capability_id := Some (record_id (record c));
  selected_capability_version := Some (record_version (record c)); selection_failure := None;
  remaining_candidates := [] |}.

(** The branches of [execute] after the request was found valid. *)
Definition run_resolution (fuel poll_fuel : nat) (at_ : Readings) (a : AttemptContext) (em : StateEmitter)
    (r : CandidateResolution) (p : Process) : Process * option RuntimeExecutionOutcome :=
  match hydration_failure r, eligible r with
  | Some e, _ => (p, Some (hydration_failure_outcome a em (collection r) e))
  | None, [] => (p, Some (no_eligible_outcome a em (collection r)))
  | None, [selected] => execute_selected fuel poll_fuel at_
      {| attempt := a; emitter := em; context_collection := collection r;
         context_selection := selected_record selected |} selected p
  | None, several => (p, Some (ambiguous_outcome a em (collection r) (resolution_reason r) several))
  end.

(** The attempt without its lifecycle event. *)
Definition run_attempt (fuel poll_fuel : nat) (at_ : Readings) (request : RuntimeRequest) (p : Process)
    : Process * option RuntimeExecutionOutcome :=
  let '(a, em) := begin_attempt request (observability_config rt) in
  let em := push em Discovering RequestStarted
    (obj [("lookup_scope", lookup_scope_value (scope (lookup_scope (attempt_request a))));
          ("identity", option_value identity_value (attempt_identity a))]) in
  match validate_request (attempt_request a) with
  | Some error => (p, Some (invalid_request_outcome a em error))
  | None =>
      let '(p, (em, r)) := resolve_candidates (attempt_request a) em p in
      run_resolution fuel poll_fuel at_ a em r p
  end.

(** [Runtime::execute]; [None] when a workflow is still running after [fuel] steps. *)
Definition execute (fuel poll_fuel : nat) (at_ : Readings) (request : RuntimeRequest) (p : Process)
    : Process * option RuntimeExecutionOutcome :=
  let i := identity (context request) in
  match run_attempt fuel poll_fuel at_ request p with
  | (p, None) => (p, None)
  | (p, Some o) => let '(p, o) := emit_execution_lifecycle_event at_ o i p in (p, Some o)
  end.
End execute.
