(* ===== verification/ExecuteProps.v ===== *)
(** * What an outcome reports

    Every outcome of [Execute.execute] carries one walk through the state machine
    that ends in [Ready], and its result, trace and events agree ([reported]). *)
From S2P Require Import Prelude Effect Json Placement Events RuntimeInit Contract Schema.
From S2P Require Import Request Lifecycle Registry Security Outcome Hydration Router Attempt WorkflowRun Traverse Execute.
From Stdlib Require Import Ascii.

(** ** Emitters of an attempt *)

(** The emitter is in state [s] and records the attempt [a]. *)
Record tracks (a : AttemptContext) (em : StateEmitter) (s : RuntimeState) : Prop := {
  tracks_ok : emitter_ok em;
  tracks_state : current_state em = s;
  tracks_execution : emitter_execution_id em = execution_id a;
  tracks_request : emitter_request_id em = request_id (attempt_request a) }.

Lemma push_tracks a em s s' r d :
  tracks a em s -> is_allowed_transition s s' r = true -> tracks a (push em s' r d) s'.
Proof.
  intros [Hok Hs He Hr] Hallowed. subst s. destruct (push_ids em s' r d) as [Hpe Hpr].
  split; [by apply push_ok|by apply push_state|congruence|congruence].
Qed.

Lemma timestamp_tracks a em s : tracks a em s -> tracks a (next_timestamp em).1 s.
Proof. intros [Hok Hs He Hr]. split; [by apply next_timestamp_ok|done..]. Qed.

Lemma tracks_attempt a a' em s :
  tracks a em s -> execution_id a' = execution_id a -> attempt_request a' = attempt_request a ->
  tracks a' em s.
Proof. intros [] He Hr. split; [done|done|congruence|congruence]. Qed.

Create HintDb emitter discriminated.
#[export] Hint Resolve push_tracks timestamp_tracks : emitter.
#[export] Hint Extern 1 (is_allowed_transition _ _ _ = true) => reflexivity : emitter.

(** ** Reports *)

Definition terminal_of (status : RuntimeResultStatus) : RuntimeState :=
  match status with Request.Completed => Completed | Errored => Error end.

Record reported (o : RuntimeExecutionOutcome) : Prop := {
  reported_walk : walk Idle (state_transitions (trace o)) Ready;
  reported_terminal : from_state <$> last (state_transitions (trace o)) =
    Some (terminal_of (result_status (result o)));
  reported_events : recorded (result_execution_id (result o)) (result_request_id (result o))
    (state_events o) (state_transitions (trace o));
  reported_times : exists bound, timed (state_transitions (trace o)) bound;
  reported_passed : validation_status (state_machine_validation (trace o)) = Passed /\
    validation_violations (state_machine_validation (trace o)) = [];
  reported_progression : state_progression (trace o) =
    (state_events o, state_transitions (trace o), state_machine_validation (trace o));
  reported_ids : result_execution_id (result o) = EXECUTION_PREFIX +:+ result_request_id (result o) /\
    trace_ref (result o) = TRACE_PREFIX +:+ result_execution_id (result o) /\
    trace_id (trace o) = trace_ref (result o) /\
    trace_execution_id (trace o) = result_execution_id (result o) /\
    trace_request_id (trace o) = result_request_id (result o);
  reported_result : trace_result (trace o) = {|
    trace_result_status := result_status (result o); trace_output := result_output (result o);
    trace_error := result_error (result o); trace_warnings := result_warnings (result o) |};
  reported_status : match result_status (result o) with
    | Request.Completed => is_Some (result_output (result o)) /\ result_error (result o) = None /\
        execution_status (execution (trace o)) = Succeeded /\ failure_reason (execution (trace o)) = None
    | Errored => result_output (result o) = None /\ is_Some (result_error (result o)) /\
        execution_status (execution (trace o)) <> Succeeded /\ is_Some (failure_reason (execution (trace o)))
    end }.

(** The identifiers of an attempt are derived from its request. *)
Definition named (a : AttemptContext) : Prop :=
  execution_id a = EXECUTION_PREFIX +:+ request_id (attempt_request a) /\
  attempt_trace_id a = TRACE_PREFIX +:+ execution_id a.

Lemma push_last em s r d :
  is_allowed_transition (current_state em) s r = true ->
  from_state <$> last (transitions (push em s r d)) = Some (current_state em).
Proof. intros H. unfold push, try_push. rewrite H. cbn. by rewrite last_snoc. Qed.

(** An emitter that is closed after its terminal state reports the attempt. *)
Lemma assemble_reported a em d collection sel exec status out err emitted wf :
  named a -> tracks a em (terminal_of status) ->
  match status with
  | Request.Completed => is_Some out /\ err = None /\ execution_status exec = Succeeded /\ failure_reason exec = None
  | Errored => out = None /\ is_Some err /\ execution_status exec <> Succeeded /\ is_Some (failure_reason exec)
  end ->
  reported (assemble a (finish (push em Ready ExecutionClosed d)) collection sel exec status out err emitted wf).
Proof.
  intros [Hexec Htrace] Ht Hstatus.
  assert (Hallowed : is_allowed_transition (terminal_of status) Ready ExecutionClosed = true) by by destruct status.
  pose proof (push_tracks _ _ _ _ _ d Ht Hallowed) as [Hok Hready He Hr].
  destruct Ht as [_ Hterm _ _]. rewrite <- Hterm in Hallowed.
  pose proof (push_last em Ready ExecutionClosed d Hallowed) as Hlast.
  destruct (finish_passed _ Hok) as [Hp Hv]. destruct Hok as [Hw _ _ Hrec Htimes].
  split; cbn -[push] in *.
  - by rewrite Hready in Hw.
  - by rewrite Hlast, Hterm.
  - by rewrite <- He, <- Hr.
  - by eexists.
  - done.
  - done.
  - rewrite Htrace, Hexec. done.
  - done.
  - done.
Qed.

(** ** Each way an attempt can end *)

Section outcomes.
Context (a : AttemptContext) (Hnamed : named a).

Lemma invalid_request_reported em e : tracks a em Discovering -> reported (invalid_request_outcome a em e).
Proof.
  intros Ht. apply assemble_reported; [done| |done]. cbn.
  eauto using push_tracks with emitter.
Qed.

Lemma hydration_failure_reported em collection e :
  tracks a em Discovering -> reported (hydration_failure_outcome a em collection e).
Proof. intros Ht. apply assemble_reported; [done| |done]. cbn. eauto with emitter. Qed.

Lemma no_eligible_reported em collection :
  tracks a em (match rejected_candidates collection with [] => Discovering | _ => EvaluatingConstraints end) ->
  reported (no_eligible_outcome a em collection).
Proof.
  intros Ht. apply assemble_reported; [done| |done]. cbn.
  destruct (rejected_candidates collection); eauto with emitter.
Qed.

Lemma ambiguous_reported em collection r found :
  tracks a em Selecting -> reported (ambiguous_outcome a em collection r found).
Proof. intros Ht. apply assemble_reported; [done| |done]. cbn. eauto with emitter. Qed.
End outcomes.

Section contexts.
Context (c : ExecutionContext) (Hnamed : named (attempt c)).

Lemma pre_execution_reported failure :
  tracks (attempt c) (emitter c) Selecting -> reported (pre_execution_failure_outcome c failure).
Proof.
  intros Ht. apply assemble_reported; [done| |done].
  rewrite (tracks_state _ _ _ Ht). cbn. eauto with emitter.
Qed.

Lemma execution_failure_reported selected started r e emitted wf :
  tracks (attempt c) (emitter c) Executing ->
  reported (execution_failure_outcome c selected started r e emitted wf).
Proof.
  intros Ht. apply assemble_reported; [done| |done].
  apply (timestamp_tracks _ (push (emitter c) Error ExecutionFailed (code_and_details e))).
  eauto with emitter.
Qed.

Lemma successful_reported `{SerdeJson} selected started out emitted wf :
  tracks (attempt c) (emitter c) Executing ->
  reported (successful_execution_outcome c selected started out emitted wf).
Proof.
  intros Ht%timestamp_tracks. apply assemble_reported; [done| |by split_and!].
  destruct (emits_events selected); eauto 6 using push_tracks with emitter.
Qed.
End contexts.

(** ** The whole attempt *)

Lemma begin_attempt_named `{Trust, SerdeJson} request config :
  named (begin_attempt request config).1 /\ tracks (begin_attempt request config).1 (begin_attempt request config).2 Ready.
Proof.
  split; [done|]. cbn -[push].
  assert (Hnew : tracks (begin_attempt request config).1
    (new_emitter (EXECUTION_PREFIX +:+ request_id (sanitized_request request))
       (request_id (sanitized_request request))) Idle) by (split; [apply new_emitter_ok|done..]).
  eauto with emitter.
Qed.

Section execute.
Context `{Host, Trust, ContractCodec, SerdeJson, SemverCrate} (rt : Runtime).

(** The state in which the candidates leave the emitter. *)
Definition resolved_state (r : CandidateResolution) : RuntimeState :=
  match eligible r, rejected_candidates (collection r) with
  | [], [] => Discovering
  | [], _ => EvaluatingConstraints
  | _, _ => Selecting
  end.

Lemma discover_failure request p p' found e :
  discover_candidates rt request p = (p', (found, Some e)) -> found = [].
Proof.
  unfold discover_candidates. destruct (_ && _) eqn:E; [|done].
  apply andb_true_iff in E as [E%bool_decide_eq_true _].
  destruct (collect_indexed_candidates rt request p) as [p1 [l|e1]]; [done|].
  intros [= _ <- _]. by apply nil_length_inv.
Qed.

Lemma partition_nil found : partition_candidates found = ([], []) -> found = [].
Proof.
  destruct found as [|c rest]; [done|]. cbn. destruct (partition_candidates rest) as [good bad].
  by destruct (evaluate_candidate c).
Qed.

Lemma resolve_tracks request a em p p' em' r :
  tracks a em Discovering -> resolve_candidates rt request em p = (p', (em', r)) ->
  tracks a em' (resolved_state r) /\
  (is_Some (hydration_failure r) -> resolved_state r = Discovering).
Proof.
  intros Ht. unfold resolve_candidates. destruct (discover_candidates rt request p) as [p1 [found failure]] eqn:Hd.
  destruct (partition_candidates found) as [good bad] eqn:Hp. intros [= _ <- <-].
  unfold resolved_state. cbn -[push]. split.
  - destruct found as [|c rest].
    { by injection Hp as <- <-. }
    destruct good as [|g good]; [|eauto with emitter].
    destruct bad as [|b bad]; [by apply partition_nil in Hp|eauto with emitter].
  - intros [e ->]. apply discover_failure in Hd as ->. by injection Hp as <- <-.
Qed.

Lemma workflow_capability_reported poll_fuel fuel c selected started p p' o :
  named (attempt c) -> tracks (attempt c) (emitter c) Executing ->
  execute_workflow_capability rt poll_fuel fuel c selected started p = (p', Some o) -> reported o.
Proof.
  intros Hn Ht. unfold execute_workflow_capability. destruct (workflow_ref _) as [r|].
  - destruct (execute_workflow rt poll_fuel fuel _ p) as [p1 [w|]]; [|done]. intros [= _ <-].
    destruct (workflow_status _); [apply successful_reported|apply execution_failure_reported];
      by try eapply tracks_attempt.
  - intros [= _ <-]. by apply execution_failure_reported.
Qed.

Lemma started_reported fuel poll_fuel at_ c selected pl p p' o :
  named (attempt c) -> tracks (attempt c) (emitter c) Selecting ->
  execute_started_selection rt fuel poll_fuel at_ c selected pl p = (p', Some o) -> reported o.
Proof.
  intros Hn Ht%timestamp_tracks. unfold execute_started_selection.
  destruct (start_selected_execution _ _ _ _) as [em started] eqn:Hs. injection Hs as <- _.
  pose proof (push_tracks _ _ _ Executing CandidateSelected
    (obj [("capability_id", Str (record_id (record selected)));
          ("capability_version", Str (record_version (record selected)));
          ("artifact_ref", Str (artifact_ref (record selected)));
          ("requested_target", target_value (placement_requested pl));
          ("selected_target", option_value target_value (selected_target pl));
          ("placement_status", placement_status_value (placement_status pl));
          ("placement_reason", placement_reason_value (placement_reason pl));
          ("identity", option_value identity_value (attempt_identity (attempt c)))]) Ht eq_refl) as Hx.
  destruct (implementation_kind _).
  - destruct (execute_with_executor _ _ _ _ p) as [p1 [response|e]].
    + intros [= _ <-]. destruct (validate_payload_against_contract _ _ _ _);
        [by apply successful_reported|by apply execution_failure_reported].
    + destruct (map_router_error e) as [[error r] events_]. intros [= _ <-].
      by apply execution_failure_reported.
  - by apply workflow_capability_reported.
Qed.

(** The gates change nothing of the attempt but its verification and warnings. *)
Lemma gates_attempt read a selected :
  match pre_execution_gates rt read a selected with
  | Ok (a', _) | Err (a', _) =>
      execution_id a' = execution_id a /\ attempt_request a' = attempt_request a /\
      attempt_trace_id a' = attempt_trace_id a
  end.
Proof.
  unfold pre_execution_gates. destruct (contains_drafts_segment _); [done|].
  destruct (resolve_placement _); [|done]. destruct (load_artifact_bytes_for_verification _ _); [|done].
  destruct (verify_artifact _ _ _); [|done]. destruct (resolve_dependencies _ _ _ _); [done|].
  by destruct (_ ;; _).
Qed.

Lemma named_attempt a a' :
  named a -> execution_id a' = execution_id a -> attempt_request a' = attempt_request a ->
  attempt_trace_id a' = attempt_trace_id a -> named a'.
Proof. unfold named. by intros [? ?] -> -> ->. Qed.

Lemma selected_reported fuel poll_fuel at_ c selected p p' o :
  named (attempt c) -> tracks (attempt c) (emitter c) Selecting ->
  execute_selected rt fuel poll_fuel at_ c selected p = (p', Some o) -> reported o.
Proof.
  intros Hn Ht. unfold execute_selected.
  pose proof (gates_attempt (read_file (world p)) (attempt c) selected) as Hg.
  destruct (pre_execution_gates _ _ _ _) as [[a pl]|[a failure]]; destruct Hg as (He & Hr & Htr).
  - apply started_reported; cbn; [by eapply named_attempt|by eapply tracks_attempt].
  - intros [= _ <-]. apply pre_execution_reported; cbn; [by eapply named_attempt|by eapply tracks_attempt].
Qed.

Lemma resolution_reported fuel poll_fuel at_ a em r p p' o :
  named a -> tracks a em (resolved_state r) ->
  (is_Some (hydration_failure r) -> resolved_state r = Discovering) ->
  run_resolution rt fuel poll_fuel at_ a em r p = (p', Some o) -> reported o.
Proof.
  intros Hn Ht Hf. unfold run_resolution. destruct (hydration_failure r) as [e|].
  { intros [= _ <-]. apply hydration_failure_reported; [done|]. rewrite Hf in Ht by done. done. }
  unfold resolved_state in Ht. destruct (eligible r) as [|c [|c2 rest]].
  - intros [= _ <-]. by apply no_eligible_reported.
  - by apply selected_reported.
  - intros [= _ <-]. by apply ambiguous_reported.
Qed.

Lemma attempt_reported fuel poll_fuel at_ request p p' o :
  run_attempt rt fuel poll_fuel at_ request p = (p', Some o) -> reported o.
Proof.
  unfold run_attempt. destruct (begin_attempt_named request (observability_config rt)) as [Hn Ht].
  destruct (begin_attempt request (observability_config rt)) as [a em]. cbn [fst snd] in Hn, Ht.
  apply (push_tracks _ _ _ Discovering RequestStarted
    (obj [("lookup_scope", lookup_scope_value (scope (lookup_scope (attempt_request a))));
          ("identity", option_value identity_value (attempt_identity a))])) in Ht; [|done].
  destruct (validate_request (attempt_request a)) as [e|].
  { intros [= _ <-]. by apply invalid_request_reported. }
  destruct (resolve_candidates rt _ _ p) as [p1 [em1 r]] eqn:Hres.
  destruct (resolve_tracks _ _ _ _ _ _ _ Ht Hres) as [Ht1 Hf]. by apply resolution_reported.
Qed.

Lemma with_warning_reported w o : reported o -> reported (with_warning w o).
Proof. intros []. split; try done. cbn. by rewrite reported_result0. Qed.

Lemma execute_reported fuel poll_fuel at_ request p p' o :
  execute rt fuel poll_fuel at_ request p = (p', Some o) -> reported o.
Proof.
  unfold execute. destruct (run_attempt rt fuel poll_fuel at_ request p) as [p1 [o1|]] eqn:Hr; [|done].
  apply attempt_reported in Hr. unfold emit_execution_lifecycle_event.
  destruct (sink_emit _ _) as [s [u|e]]; intros [= _ <-]; [done|by apply with_warning_reported].
Qed.

(** C2: every outcome of a runtime request is a consistent report of one attempt:
    its transitions are a walk through the state machine from [Idle] to [Ready]
    that passes through the terminal state of its status and violates nothing, at
    increasing times; the state events report these transitions one by one, in the
    trace and outside it; result and trace have the same identifiers, status,
    output, error and warnings; and an output is present exactly when the execution
    succeeded.  In particular the assertion in [StateEmitter::push] never fails. *)
Theorem outcome_is_reported fuel poll_fuel at_ request p p' o :
  execute rt fuel poll_fuel at_ request p = (p', Some o) -> reported o.
Proof. apply execute_reported. Qed.
End execute.

(** * Whose request it was

    The identity a request is attributed to, in the trace and in the lifecycle event,
    and the frame of the event sink. *)
Section identity.
Context `{Host, Trust, ContractCodec, SerdeJson, SemverCrate} (rt : Runtime).

(** ** The sink is only used for the lifecycle event *)

Definition keeps_sink {A} (m : Process -> Process * A) : Prop := forall p, sink (m p).1 = sink p.

Lemma keeps_ret {E A} (a : A) : keeps_sink (mret a : Eff Process E A).
Proof. by intros p. Qed.

Lemma keeps_fail {E A} (e : E) : keeps_sink (fail e : Eff Process E A).
Proof. by intros p. Qed.

Lemma keeps_lift {E A} (r : Result E A) : keeps_sink (lift r : Eff Process E A).
Proof. by intros p. Qed.

Lemma keeps_bind {E A B} (m : Eff Process E A) (k : A -> Eff Process E B) :
  keeps_sink m -> (forall a, keeps_sink (k a)) -> keeps_sink (m ≫= k).
Proof.
  intros Hm Hk p. unfold mbind, Eff_bind. specialize (Hm p). destruct (m p) as [p1 [a|e]]; cbn in *; [|done].
  by rewrite (Hk a p1).
Qed.

Lemma keeps_broker {E A} (run : BrokerObject -> BrokerObject * Result E A) : keeps_sink (on_broker run).
Proof. intros p. unfold on_broker. by destruct (run (broker p)). Qed.

Lemma keeps_publish es p : sink (publish_all es p) = sink p.
Proof. revert p. induction es as [|e es IH]; intros p; [done|]. cbn. by rewrite IH. Qed.

Lemma keeps_run_executor selected value : keeps_sink (run_executor selected value).
Proof. intros p. unfold run_executor. by destruct (local_execute _ _ _). Qed.

Lemma keeps_hydrate id version : keeps_sink (hydrate_resolved_capability rt id version).
Proof. intros p. unfold hydrate_resolved_capability. by destruct (hydrate _ _ _ _ _ _). Qed.

Lemma keeps_drain fuel sid delivered : keeps_sink (drain fuel sid delivered).
Proof.
  revert delivered. induction fuel as [|fuel IH]; intros delivered p; [done|]. cbn [drain].
  pose proof (keeps_broker (fun b => broker_poll b sid EVENT_BROKER_POLL_BATCH) p) as Hb.
  destruct (on_broker _ p) as [p1 [batch|e]]; cbn [fst] in Hb; [|done].
  destruct (length (poll_events batch) <? EVENT_BROKER_POLL_BATCH)%nat; [done|]. by rewrite (IH _ p1).
Qed.

Lemma keeps_query poll_fuel ty : keeps_sink (query_event_type poll_fuel ty).
Proof.
  intros p. unfold query_event_type. pose proof (keeps_broker (fun b => broker_subscribe b ty "0") p) as Hs.
  destruct (on_broker _ p) as [p1 [sub|e]]; cbn [fst] in Hs; [|by destruct e].
  pose proof (keeps_drain poll_fuel (handle_id sub) [] p1) as Hd.
  destruct (drain poll_fuel (handle_id sub) [] p1) as [p2 [[delivered failure]|]]; cbn [fst] in Hd; [|cbn; congruence].
  pose proof (keeps_broker (fun b => broker_cancel b (handle_id sub)) p2) as Hc.
  destruct (on_broker _ p2) as [p3 cancelled]; cbn [fst] in Hc. destruct failure; cbn; congruence.
Qed.

Lemma keeps_queries poll_fuel types : keeps_sink (query_event_types poll_fuel types).
Proof.
  induction types as [|ty rest IH]; [apply keeps_ret|].
  apply keeps_bind; [apply keeps_query|]. intros first. apply keeps_bind; [done|]. intros others. apply keeps_ret.
Qed.

Lemma keeps_node_capability request t node : keeps_sink (node_capability rt request t node).
Proof.
  intros p. unfold node_capability. destruct (find_exact _ _ _ _); [done|]. destruct (index_get _ _ _); [|done].
  pose proof (keeps_hydrate (node_capability_id node) (node_capability_version node) p) as Hh.
  by destruct (hydrate_resolved_capability rt _ _ p) as [p1 [c|e]].
Qed.

Lemma keeps_verify_node request t node c : keeps_sink (verify_node rt request t node c).
Proof.
  intros p. unfold verify_node. destruct (load_artifact_bytes_for_verification _ _); [|done].
  by destruct (verify_artifact _ _ _).
Qed.

Lemma keeps_execute_node request t node c : keeps_sink (execute_node request t node c).
Proof.
  apply keeps_bind; [apply keeps_lift|]. intros _. apply keeps_bind.
  - intros p. pose proof (keeps_run_executor c (node_input (state t) node) p) as Hr.
    by destruct (run_executor c _ p) as [p1 [o|e]].
  - intros o. apply keeps_bind; [apply keeps_lift|]. intros _. apply keeps_bind; [apply keeps_lift|].
    intros _. apply keeps_ret.
Qed.

Lemma keeps_match_broker poll_fuel request t node unresolved :
  keeps_sink (match_broker_events poll_fuel request t node unresolved).
Proof.
  intros p. unfold match_broker_events, poll_broker_events_for_waiting_edges.
  destruct unresolved as [|u rest]; [done|].
  pose proof (keeps_queries poll_fuel
    (btree_elements (list_to_set ((fun edge => RuntimeInit.event_id (event_ref edge)) <$> u :: rest))) p) as Hq.
  by destruct (query_event_types _ _ p) as [p1 [[records ws]|[[ty|d]|]]].
Qed.

Lemma keeps_take_edge poll_fuel request definition t node own :
  keeps_sink (take_edge poll_fuel request definition t node own).
Proof.
  unfold take_edge. destruct (List.filter _ _) as [|e [|e2 rest]]; [|apply keeps_ret|apply keeps_fail].
  apply keeps_bind; [apply keeps_match_broker|]. intros [t1 more]. cbn zeta.
  match goal with |- keeps_sink (match ?l with _ => _ end) => destruct l as [|e [|e2 rest]] end;
    [apply keeps_fail|apply keeps_ret|apply keeps_fail].
Qed.

Lemma keeps_step poll_fuel request definition t : keeps_sink (traverse_step rt poll_fuel request definition t).
Proof.
  apply keeps_bind; [apply keeps_lift|]. intros node.
  apply keeps_bind; [apply keeps_node_capability|]. intros c.
  apply keeps_bind; [apply keeps_verify_node|]. intros t1.
  apply keeps_bind; [apply keeps_execute_node|]. intros o.
  apply keeps_bind; [|intros _; apply keeps_take_edge].
  intros p. unfold publish_step. destruct (Contract.service_type _); cbn; rewrite ?keeps_publish; done.
Qed.

Lemma keeps_loop poll_fuel fuel request definition t : keeps_sink (traverse_loop rt poll_fuel fuel request definition t).
Proof.
  revert t. induction fuel as [|fuel IH]; intros t p; [done|]. cbn [traverse_loop].
  pose proof (keeps_step poll_fuel request definition t p) as Hs.
  destruct (traverse_step rt poll_fuel request definition t p) as [p1 [t1|[o|]]]; cbn [fst] in Hs; [|done..].
  by rewrite (IH t1 p1).
Qed.

Lemma keeps_workflow poll_fuel fuel c selected started :
  keeps_sink (execute_workflow_capability rt poll_fuel fuel c selected started).
Proof.
  intros p. unfold execute_workflow_capability, execute_workflow. destruct (workflow_ref _); [|done].
  destruct (validate_workflow_request _); [done|]. destruct (resolve_workflow _ _) as [d|]; [|done].
  destruct (validate_payload_against_contract _ _ _ _); [|done]. unfold traverse_workflow.
  match goal with |- context [traverse_loop rt poll_fuel fuel ?r d ?t p] =>
    pose proof (keeps_loop poll_fuel fuel r d t p) as Hl; destruct (traverse_loop rt poll_fuel fuel r d t p) as [p1 [wo|]]
  end; done.
Qed.

Lemma keeps_router at_ request selected :
  keeps_sink (execute_with_executor None at_ request (bound_local_executor selected)).
Proof.
  apply keeps_bind; [apply keeps_lift|]. intros d. apply keeps_bind.
  { intros p. unfold as_router_error, bound_local_executor.
    pose proof (keeps_run_executor selected (router_input request) p) as Hr.
    destruct (run_executor selected _ p) as [p1 [o|f]]; [|done].
    by destruct (validate_natively_emitted_events _ _). }
  intros o. destruct (trace_id_override request);
    (apply keeps_bind; [by intros p|intros _]; apply keeps_bind;
      [intros p; unfold record_trace; by destruct (trace_lock_poisoned p)|intros _]; apply keeps_bind;
      [intros p; unfold publish_events; destruct (Contract.service_type _); cbn; rewrite ?keeps_publish; done|
       intros es; apply keeps_ret]).
Qed.

Lemma keeps_started fuel poll_fuel at_ c selected pl :
  keeps_sink (execute_started_selection rt fuel poll_fuel at_ c selected pl).
Proof.
  intros p. unfold execute_started_selection. destruct (start_selected_execution _ _ _ _) as [em started].
  destruct (implementation_kind _); [|apply keeps_workflow].
  match goal with |- context [execute_with_executor None ?r ?q ?e p] =>
    pose proof (keeps_router r q selected p) as Hr; destruct (execute_with_executor None r q e p) as [p1 [response|x]]
  end; [done|]. by destruct (map_router_error x) as [[? ?] ?].
Qed.

Lemma keeps_discover request : keeps_sink (discover_candidates rt request).
Proof.
  assert (Hall : forall l, keeps_sink (hydrate_all rt l)).
  { induction l as [|e l IH]; [apply keeps_ret|]. apply keeps_bind; [apply keeps_hydrate|]. intros c.
    apply keeps_bind; [done|]. intros cs. apply keeps_ret. }
  assert (Hone : forall id version, keeps_sink
    (hydrate_resolved_capability rt id version ≫= fun c => mret [c] : Eff Process HydrationError (list ResolvedCapability))).
  { intros id version. apply keeps_bind; [apply keeps_hydrate|]. intros c. apply keeps_ret. }
  assert (Hi : keeps_sink (collect_indexed_candidates rt request)).
  { unfold collect_indexed_candidates. destruct (non_blank (intent_capability_id (intent request))) as [id|],
      (non_blank (intent_capability_version (intent request))) as [v|]; try destruct (index_get _ _ _);
      try apply keeps_ret; try apply Hone;
      (destruct (range_target _) as [[i r]|]; [|apply Hall]); (destruct (parse_version_req r); [|apply keeps_ret]);
      (destruct (last _) as [[? ?]|]; [apply Hone|apply keeps_ret]). }
  intros p. unfold discover_candidates. specialize (Hi p). destruct (_ && _); [|done].
  by destruct (collect_indexed_candidates rt request p) as [p1 [l|e]].
Qed.

(** ** Attribution *)

(** The trace is of the sanitized request and attributes it to its identity. *)
Definition attributed (request : RuntimeRequest) (o : RuntimeExecutionOutcome) : Prop :=
  trace_request (trace o) = request /\ execution_identity (execution (trace o)) = identity (context request).

Lemma workflow_attributed poll_fuel fuel c selected started p p' o :
  execute_workflow_capability rt poll_fuel fuel c selected started p = (p', Some o) ->
  attributed (attempt_request (attempt c)) o.
Proof.
  unfold execute_workflow_capability. destruct (workflow_ref _) as [r|]; [|by intros [= _ <-]].
  destruct (execute_workflow rt poll_fuel fuel _ p) as [p1 [w|]]; [|done]. intros [= _ <-].
  by destruct (workflow_status _).
Qed.

Lemma started_attributed fuel poll_fuel at_ c selected pl p p' o :
  execute_started_selection rt fuel poll_fuel at_ c selected pl p = (p', Some o) ->
  attributed (attempt_request (attempt c)) o.
Proof.
  unfold execute_started_selection. destruct (start_selected_execution _ _ _ _) as [em started].
  destruct (implementation_kind _); [|apply workflow_attributed].
  destruct (execute_with_executor _ _ _ _ p) as [p1 [response|e]].
  - intros [= _ <-]. by destruct (validate_payload_against_contract _ _ _ _).
  - destruct (map_router_error e) as [[? ?] ?]. by intros [= _ <-].
Qed.

Lemma attempt_attributed fuel poll_fuel at_ request p p' o :
  run_attempt rt fuel poll_fuel at_ request p = (p', Some o) ->
  attributed (sanitized_request request) o /\ sink p' = sink p.
Proof.
  unfold run_attempt. cbn -[push resolve_candidates run_resolution].
  destruct (validate_request (sanitized_request request)) as [e|]; [by intros [= <- <-]|].
  set (em := push _ _ _ _). clearbody em. unfold resolve_candidates.
  pose proof (keeps_discover (sanitized_request request) p) as Hd.
  destruct (discover_candidates rt _ p) as [p1 [found failure]]. cbn [fst] in Hd.
  destruct (partition_candidates found) as [good bad]. unfold run_resolution. cbn [hydration_failure eligible].
  destruct failure as [e|]; [by intros [= <- <-]|].
  destruct good as [|c [|c2 rest]]; [by intros [= <- <-]| |by intros [= <- <-]].
  unfold execute_selected. cbn [attempt].
  match goal with |- context [pre_execution_gates rt ?r ?a c] =>
    pose proof (gates_attempt rt r a c) as Hg; destruct (pre_execution_gates rt r a c) as [[a' pl]|[a' f]]
  end; destruct Hg as (_ & Hg & _); cbn [attempt_request] in Hg;
    [|intros [= <- <-]; unfold attributed; cbn; unfold attempt_identity; by rewrite Hg].
  intros Hx. split; [apply started_attributed in Hx; by rewrite <- Hg|].
  match type of Hx with execute_started_selection _ _ _ _ ?c' _ _ _ = _ =>
    pose proof (keeps_started fuel poll_fuel at_ c' c pl p1) as Hk end.
  rewrite Hx in Hk. cbn in Hk. congruence.
Qed.

(** The trace of a request holds the sanitized request, and its execution record
    the identity derived from the caller's token; but the one event that reaches the
    sink carries the identity submitted with the request, so a request identified
    only by its token is announced without subject and actor, and a token from which
    no subject can be derived is kept verbatim in the trace. *)
Theorem identity_attribution fuel poll_fuel at_ request p p' o token :
  execute rt fuel poll_fuel at_ request p = (p', Some o) ->
  caller (context request) = Some token -> identity (context request) = None ->
  (exists e, sink p' = (sink_emit (sink p) e).1 /\ event_type e = RUNTIME_EXECUTION_EVENT_TYPE /\
    Events.subject_id e = None /\ Events.actor_id e = None) /\
  match derive_identity_from_jwt token with
  | Some i => caller (context (trace_request (trace o))) = None /\
      identity (context (trace_request (trace o))) = Some i /\ execution_identity (execution (trace o)) = Some i
  | None => caller (context (trace_request (trace o))) = Some token /\
      execution_identity (execution (trace o)) = None
  end.
Proof.
  unfold execute. destruct (run_attempt rt fuel poll_fuel at_ request p) as [p1 [o1|]] eqn:Hr; [|done].
  apply attempt_attributed in Hr as [[Ht Hi] Hsink]. intros Hx Hc Hnone. rewrite Hnone in Hx.
  unfold emit_execution_lifecycle_event in Hx. rewrite Hsink in Hx.
  destruct (sink_emit (sink p) (lifecycle_event at_ o1 None)) as [s r] eqn:He. injection Hx as <- <-.
  split; [exists (lifecycle_event at_ o1 None); by rewrite He|].
  assert (Hsame : forall (f : RuntimeTrace -> _), f = trace_request -> f (trace (match r with Ok _ => o1 |
    Err e => with_warning {| warning := "runtime_event_sink_delivery_failed"; warning_message := display_event_error e |} o1 end))
    = trace_request (trace o1)) by (intros f ->; by destruct r).
  rewrite (Hsame trace_request eq_refl).
  replace (execution (trace (match r with Ok _ => o1 | Err _ => _ end))) with (execution (trace o1)) by by destruct r.
  rewrite Ht, Hi. unfold sanitized_request. rewrite Hc. by destruct (derive_identity_from_jwt token).
Qed.
End identity.
