(* ===== verification/ExecuteGates.v ===== *)
(** * What runs, and when

    The executor is only called for the one eligible candidate, after every gate of
    [execute_selected] has passed, once and with the input of the request; an
    attempt that ends before leaves executor, broker and traces alone. *)
From S2P Require Import Prelude Effect Json Canonical Placement Events RuntimeInit Contract Schema.
From S2P Require Import Request Lifecycle Registry Security Outcome Hydration Router Attempt WorkflowRun Traverse Execute.
From Stdlib Require Import Ascii.

(** ** The gates as a specification *)

Section gates.
Context `{Host, Trust, ContractCodec, SerdeJson, SemverCrate} (rt : Runtime).

Record authorized (read : string -> Result string Bytes) (request : RuntimeRequest) (selected : ResolvedCapability)
    : Prop := {
  auth_eligible : evaluate_candidate selected = Ok tt;
  auth_not_draft : contains_drafts_segment (contract_path (record selected)) = false;
  auth_local : requested_target (context request) = LocalTarget;
  auth_artifact : exists bytes r, load_artifact_bytes_for_verification read selected = Ok bytes /\
    verify_artifact selected bytes (security rt) = Ok r;
  auth_dependencies : resolve_dependencies (registries rt) (record_id (record selected))
    (dependencies (contract selected)) (map_lookup_scope (scope (lookup_scope request))) = None;
  auth_input : conforms (input request) (schema (inputs (contract selected)));
  auth_canonical : exists text, to_canonical_json (input request) = Ok text }.

Lemma payload_ok payload s c m : validate_payload_against_contract payload s c m = Ok tt <-> conforms payload s.
Proof.
  unfold validate_payload_against_contract. rewrite <- (validate_value_nil payload s "").
  by destruct (validate_value_against_schema payload s "").
Qed.

Lemma canonical_ok value : canonical_input_check value = Ok tt <-> exists text, to_canonical_json value = Ok text.
Proof. unfold canonical_input_check. destruct (to_canonical_json value); naive_solver. Qed.

Lemma gates_exact read a selected a' pl :
  evaluate_candidate selected = Ok tt ->
  pre_execution_gates rt read a selected = Ok (a', pl) ->
  authorized read (attempt_request a) selected /\ resolve_placement LocalTarget = Ok pl /\
  attempt_request a' = attempt_request a /\ attempt_trace_id a' = attempt_trace_id a.
Proof.
  intros He. unfold pre_execution_gates. destruct (contains_drafts_segment _) eqn:Hd; [done|].
  destruct (resolve_placement _) as [pl0|] eqn:Hp; [|done].
  destruct (load_artifact_bytes_for_verification _ _) as [bytes|] eqn:Hl; [|done].
  destruct (verify_artifact _ _ _) as [r|] eqn:Hv; [|done]. cbn -[validate_payload_against_contract].
  destruct (resolve_dependencies _ _ _ _) eqn:Hdep; [done|].
  destruct (_ ;; _) as [[]|] eqn:Hin; [|done]. intros [= <- <-].
  apply bind_ok_inv in Hin as ([] & Hpay & Hcan).
  assert (Ht : requested_target (context (attempt_request a)) = LocalTarget).
  { unfold resolve_placement in Hp. by case_decide. }
  rewrite Ht in Hp. split_and!; [|done..]. split; try done; [by eauto|by apply payload_ok in Hpay|by apply canonical_ok].
Qed.

(** ** Frames *)

(** Nothing but the hydration cache and the event sink may differ. *)
Definition untouched (p p' : Process) : Prop :=
  world p' = world p /\ broker p' = broker p /\ trace_store p' = trace_store p /\
  trace_lock_poisoned p' = trace_lock_poisoned p.

#[local] Instance untouched_refl : Reflexive untouched.
Proof. by intros p. Qed.

#[local] Instance untouched_trans : Transitive untouched.
Proof. unfold untouched. intros p q r (? & ? & ? & ?) (? & ? & ? & ?). split_and!; congruence. Qed.

Lemma hydrate_untouched id version p :
  untouched p (hydrate_resolved_capability rt id version p).1.
Proof. unfold hydrate_resolved_capability. by destruct (hydrate _ _ _ _ _ _). Qed.

Lemma hydrate_all_untouched found p : untouched p (hydrate_all rt found p).1.
Proof.
  revert p. induction found as [|e rest IH]; intros p; [done|]. cbn [hydrate_all]. unfold mbind, Eff_bind.
  pose proof (hydrate_untouched (indexed_capability_id e) (indexed_capability_version e) p) as Hu.
  destruct (hydrate_resolved_capability rt _ _ p) as [p1 [c|]]; [|done].
  specialize (IH p1). destruct (hydrate_all rt rest p1) as [p2 [l|]]; cbn in *; by etrans.
Qed.

Lemma indexed_untouched request p : untouched p (collect_indexed_candidates rt request p).1.
Proof.
  assert (Hone : forall id version, untouched p
    ((hydrate_resolved_capability rt id version ≫= fun c => mret [c]) p : Process * Result HydrationError (list ResolvedCapability)).1).
  { intros id version. unfold mbind, Eff_bind. pose proof (hydrate_untouched id version p).
    by destruct (hydrate_resolved_capability rt id version p) as [p1 [c|]]. }
  unfold collect_indexed_candidates.
  destruct (non_blank (intent_capability_id (intent request))) as [id|],
    (non_blank (intent_capability_version (intent request))) as [version|];
    try destruct (index_get _ _ _); try done; try apply Hone;
    (destruct (range_target _) as [[i r]|]; [|apply hydrate_all_untouched]);
    (destruct (parse_version_req r); [|done]); (destruct (last _) as [[v e]|]; [apply Hone|done]).
Qed.

Lemma discover_untouched request p : untouched p (discover_candidates rt request p).1.
Proof.
  unfold discover_candidates. pose proof (indexed_untouched request p).
  destruct (_ && _); [|done]. by destruct (collect_indexed_candidates rt request p) as [p1 [l|]].
Qed.

Lemma resolve_untouched request em p : untouched p (resolve_candidates rt request em p).1.
Proof.
  unfold resolve_candidates. pose proof (discover_untouched request p).
  destruct (discover_candidates rt request p) as [p1 [found failure]].
  by destruct (partition_candidates found).
Qed.

Lemma partition_eligible found good bad c :
  partition_candidates found = (good, bad) -> c ∈ good -> evaluate_candidate c = Ok tt.
Proof.
  revert good bad. induction found as [|x rest IH]; intros good bad; cbn.
  { intros [= <- <-]. by intros ?%elem_of_nil. }
  destruct (partition_candidates rest) as [good1 bad1]. destruct (evaluate_candidate x) as [[]|] eqn:Ex; intros [= <- <-].
  - intros [->|Hin]%elem_of_cons; [done|by eapply IH].
  - intros Hin. by eapply IH.
Qed.

Lemma resolve_eligible request em p p' em' r c :
  resolve_candidates rt request em p = (p', (em', r)) -> c ∈ eligible r -> evaluate_candidate c = Ok tt.
Proof.
  unfold resolve_candidates. destruct (discover_candidates rt request p) as [p1 [found failure]].
  destruct (partition_candidates found) as [good bad] eqn:Hp. intros [= _ _ <-]. cbn.
  by eapply partition_eligible.
Qed.

(** ** Execution through the router *)

Lemma publish_all_frame es p :
  world (publish_all es p) = world p /\ trace_store (publish_all es p) = trace_store p.
Proof. revert p. induction es as [|e es IH]; intros p; [done|]. cbn. by destruct (IH (with_broker (broker_publish (broker p) e).1 p)). Qed.

(** The executor's world after one call. *)
Definition called (selected : ResolvedCapability) (value : Value) (p : Process) : World :=
  (local_execute (world p) selected value).1.

Lemma bound_executor_world selected cap value p p' r :
  bound_local_executor selected cap value p = (p', r) ->
  world p' = called selected value p /\ trace_store p' = trace_store p /\ broker p' = broker p.
Proof.
  unfold bound_local_executor, run_executor, called. destruct (local_execute _ _ _) as [w [o|f]]; cbn.
  - destruct (validate_natively_emitted_events _ _); by intros [= <- _].
  - by intros [= <- _].
Qed.

Lemma router_world at_ request selected p p' r :
  execute_with_executor None at_ request (bound_local_executor selected) p = (p', r) ->
  world p' = called selected (router_input request) p \/ world p' = world p /\ exists e, r = Err e.
Proof.
  unfold execute_with_executor, mbind, Eff_bind, lift. destruct (evaluate_placement request) as [d|e]; cbn.
  2:{ intros [= <- <-]. right. eauto. }
  unfold as_router_error. destruct (bound_local_executor _ _ _ p) as [p1 [o|e]] eqn:Hb;
    apply bound_executor_world in Hb as (Hw & _ & _); [|by intros [= <- _]; left].
  destruct (trace_id_override request); cbn; unfold record_trace, publish_events;
    (destruct (trace_lock_poisoned p1); [by intros [= <- _]; left|]);
    destruct (Contract.service_type _); cbn; intros [= <- _]; left; rewrite ?(proj1 (publish_all_frame _ _)); done.
Qed.

Lemma router_response at_ request selected p p' response :
  execute_with_executor None at_ request (bound_local_executor selected) p = (p', Ok response) ->
  world p' = called selected (router_input request) p /\
  exists public private, trace_store p' = store_insert public (Some private) (trace_store p) /\
    public_id public = response_trace_id response /\ public_capability_id public = router_capability_id request /\
    (forall tid, trace_id_override request = Some tid -> response_trace_id response = tid) /\
    local_execute (world p) selected (router_input request) =
      (world p', Ok {| local_value := response_output response;
                       local_emitted_events := match local_execute (world p) selected (router_input request) with
                         | (_, Ok o) => local_emitted_events o | _ => [] end |}).
Proof.
  intros Hx. destruct (router_world _ _ _ _ _ _ Hx) as [Hw|[_ [e He]]]; [|done]. split; [done|]. revert Hx.
  unfold execute_with_executor, mbind, Eff_bind, lift. destruct (evaluate_placement request) as [d|e]; cbn; [|done].
  unfold as_router_error, called in *. destruct (bound_local_executor _ _ _ p) as [p1 [o|e]] eqn:Hb; [|done].
  apply bound_executor_world in Hb as Hf. destruct Hf as (Hw1 & Ht1 & _). unfold called in Hw1.
  unfold bound_local_executor, run_executor in Hb.
  destruct (local_execute (world p) selected (router_input request)) as [w [lo|f]]; cbn in Hb; [|done].
  destruct (validate_natively_emitted_events _ _); [|done]. injection Hb as <- <-.
  unfold record_trace, publish_events. cbn -[store_insert].
  destruct (trace_id_override request) as [tid|]; cbn -[store_insert];
    (destruct (trace_lock_poisoned p); [done|]);
    destruct (Contract.service_type _); cbn -[store_insert]; intros [= <- <-]; cbn -[store_insert];
    rewrite ?(proj2 (publish_all_frame _ _)), ?(proj1 (publish_all_frame _ _)); cbn -[store_insert];
    (eexists _, _; split; [reflexivity|]); cbn -[store_insert]; (split_and!; [done..|naive_solver|by destruct lo]).
Qed.

(** ** The whole attempt *)

(** How an attempt that reaches the executor ends. *)
Record executed (request : RuntimeRequest) (selected : ResolvedCapability) (p p' : Process)
    (o : RuntimeExecutionOutcome) : Prop := {
  executed_selection : selection (trace o) = selected_record selected;
  executed_status : execution_status (execution (trace o)) <> NotStarted;
  executed_once : implementation_kind (record selected) = Executable ->
    world p' = called selected (input request) p \/ world p' = world p /\ result_status (result o) = Errored;
  executed_output : implementation_kind (record selected) = Executable ->
    result_status (result o) = Request.Completed ->
    exists out es, local_execute (world p) selected (input request) =
        (world p', Ok {| local_value := out; local_emitted_events := es |}) /\
      result_output (result o) = Some out /\ conforms out (schema (outputs (contract selected))) /\
      exists public private, trace_store p' !! trace_ref (result o) = Some (public, Some private) /\
        public_capability_id public = record_id (record selected) }.

Lemma workflow_executed poll_fuel fuel c selected started p p' o request :
  implementation_kind (record selected) = Workflow -> context_selection c = selected_record selected ->
  execute_workflow_capability rt poll_fuel fuel c selected started p = (p', Some o) ->
  executed request selected p p' o.
Proof.
  intros Hk Hs. unfold execute_workflow_capability. destruct (workflow_ref _) as [r|].
  - destruct (execute_workflow rt poll_fuel fuel _ p) as [p1 [w|]]; [|done]. intros [= _ <-].
    destruct (workflow_status _); split; try done; congruence.
  - intros [= _ <-]. split; try done; congruence.
Qed.

Lemma started_executed fuel poll_fuel at_ c selected pl p p' o :
  context_selection c = selected_record selected ->
  execute_started_selection rt fuel poll_fuel at_ c selected pl p = (p', Some o) ->
  executed (attempt_request (attempt c)) selected p p' o.
Proof.
  intros Hs. unfold execute_started_selection. cbn -[execute_with_executor push execute_workflow_capability].
  destruct (implementation_kind (record selected)) eqn:Hk; [|by apply workflow_executed].
  destruct (execute_with_executor _ _ _ _ p) as [p1 [response|e]] eqn:Hx.
  - intros [= <- <-].
    destruct (router_response _ _ _ _ _ _ Hx) as (Hw & public & private & Hstore & Hpid & Hcap & Htid & Hl).
    specialize (Htid (attempt_trace_id (attempt c)) eq_refl).
    destruct (validate_payload_against_contract _ _ _ _) as [[]|e] eqn:Hv.
    + split; [done|done|by left|]. intros _ _. eexists _, _. split; [exact Hl|]. split; [done|].
      split; [by apply payload_ok in Hv|]. exists public, private. split; [|done].
      rewrite Hstore. unfold store_insert. rewrite Hpid, Htid. apply lookup_insert_eq.
    + split; [done|done|by left|done].
  - destruct (router_world _ _ _ _ _ _ Hx) as [Hw|[Hw _]];
      destruct (map_router_error e) as [[error r] es]; intros [= <- <-]; split; try done; intros _; [by left|by right].
Qed.

(** Before the executor: nothing is touched, or the gates let the selected capability through. *)
Lemma attempt_cases fuel poll_fuel at_ request p p' o :
  run_attempt rt fuel poll_fuel at_ request p = (p', Some o) ->
  execution_status (execution (trace o)) = NotStarted /\ untouched p p' \/
  exists selected p1, untouched p p1 /\
    authorized (read_file (world p)) (sanitized_request request) selected /\
    executed (sanitized_request request) selected p1 p' o.
Proof.
  unfold run_attempt. cbn -[push resolve_candidates run_resolution].
  destruct (validate_request (sanitized_request request)) as [e|].
  { intros [= <- <-]. by left. }
  set (em := push _ _ _ _). clearbody em.
  pose proof (resolve_untouched (sanitized_request request) em p) as Hu.
  destruct (resolve_candidates rt _ em p) as [p1 [em1 r]] eqn:Hr. cbn [fst] in Hu.
  unfold run_resolution. destruct (hydration_failure r) as [e|]; [intros [= <- <-]; by left|].
  destruct (eligible r) as [|c [|c2 rest]] eqn:He; [intros [= <- <-]; by left| |intros [= <- <-]; by left].
  assert (Hc : evaluate_candidate c = Ok tt).
  { eapply resolve_eligible; [exact Hr|]. rewrite He. left. }
  unfold execute_selected. cbn [attempt]. destruct (pre_execution_gates _ _ _ _) as [[a' pl]|[a' f]] eqn:Hg.
  - intros Hx. right. exists c, p1. split; [done|].
    apply gates_exact in Hg as (Hauth & _ & Hreq & _); [|done]. cbn [attempt_request] in *.
    split; [by destruct Hu as (<- & _)|]. apply started_executed in Hx; [|done]. cbn [with_attempt attempt] in Hx.
    by rewrite Hreq in Hx.
  - intros [= <- <-]. by left.
Qed.

Lemma sanitized_authorized read request selected :
  authorized read (sanitized_request request) selected -> authorized read request selected.
Proof.
  unfold sanitized_request. destruct (caller (context request)); [|done].
  destruct (derive_identity_from_jwt _); [|done]. by intros [].
Qed.

Lemma sanitized_input request : input (sanitized_request request) = input request.
Proof.
  unfold sanitized_request. destruct (caller (context request)); [|done].
  by destruct (derive_identity_from_jwt _).
Qed.

Lemma executed_input r r' selected p p' o :
  input r = input r' -> executed r selected p p' o -> executed r' selected p p' o.
Proof. intros Hi []. split; rewrite <- ?Hi; done. Qed.

Lemma execute_gated fuel poll_fuel at_ request p p' o :
  execute rt fuel poll_fuel at_ request p = (p', Some o) ->
  execution_status (execution (trace o)) = NotStarted /\ untouched p p' \/
  exists selected p1, untouched p p1 /\ authorized (read_file (world p)) request selected /\
    executed request selected p1 p' o.
Proof.
  unfold execute. destruct (run_attempt rt fuel poll_fuel at_ request p) as [p1 [o1|]] eqn:Hr; [|done].
  unfold emit_execution_lifecycle_event. destruct (sink_emit (sink p1) _) as [s result_].
  intros [= <- <-]. apply attempt_cases in Hr as [[Hs Hu]|(selected & q & Hu & Ha & Hx)].
  - left. by destruct result_.
  - right. exists selected, q. split; [done|]. split; [by apply sanitized_authorized|].
    eapply executed_input in Hx; [|apply sanitized_input]. destruct Hx. by destruct result_.
Qed.

(** C1: an execution that is reported as not started has called neither the executor
    nor the broker and recorded no trace.  Any other was of an eligible capability,
    local, not a draft, with a verified artifact, resolved dependencies and an input
    that has its declared type and a canonical text; unless the capability is a
    workflow, the executor was called at most once, with the input of the request,
    and the output of a completed request is the executor's, has the declared type
    and is recorded in the trace store under the trace the result refers to. *)
Theorem execution_is_gated fuel poll_fuel at_ request p p' o :
  execute rt fuel poll_fuel at_ request p = (p', Some o) ->
  execution_status (execution (trace o)) = NotStarted /\ untouched p p' \/
  exists selected p1, untouched p p1 /\ authorized (read_file (world p)) request selected /\
    executed request selected p1 p' o.
Proof. apply execute_gated. Qed.
End gates.
