(* ===== verification/ExecuteSamples.v ===== *)
(** * Concrete runtimes

    A registry of a few capabilities and workflows over an executor that counts its
    calls, on which the theorems on execution are applied, and three runs that the
    specifications exclude. *)
From S2P Require Import Prelude Effect Json Placement Events Broker RuntimeInit Contract Schema.
From S2P Require Import Request Lifecycle Registry Security Outcome Hydration WorkflowGraph Router Attempt WorkflowRun.
From S2P Require Import Traverse TraverseProps Execute ExecuteProps ExecuteGates.
From Stdlib Require Import Ascii.

(** ** Parameters *)

#[local] Instance sample_semver : Semver := {| version_parses := fun _ => true |}.
#[local] Instance sample_semver_crate : SemverCrate := {|
  Version := unit; parse_version := fun _ => Some tt; version_le := fun _ _ => true;
  parse_version_req := fun _ => Some (fun _ => true) |}.
#[local] Instance sample_trust : Trust := {|
  sha256 := fun bytes => bytes; PublicKey := unit; public_key_from_bytes := fun _ => Some tt;
  ed25519_verify := fun _ _ _ => true; is_governed_artifact_path := fun _ => false |}.
#[local] Instance sample_codec : ContractCodec := {| parse_contract := fun _ => None |}.
#[local] Instance sample_json : SerdeJson := {|
  parse_syntax := fun bytes => match bytes with [] => Err "empty" | _ => Ok (Object [("sub", Str "alice")]) end;
  to_vec := fun _ => [] |}.

Definition trip_event (name : string) : TraverseEvent := {|
  Events.id := name; source := "traverse-runtime/trip"; event_type := "dev.trip.planned";
  datacontenttype := "application/json"; time := "2026-01-01T00:00:00Z"; data := Null;
  Events.owner := "trip"; Events.version := "1.0.0"; lifecycle_status := Events.Active;
  deduplication_id := Some name; ordering_scope := Some "trip"; Events.correlation_id := Some "c";
  causation_id := Some "c"; Events.subject_id := None; Events.actor_id := None |}.

Definition trip_reference : EventReference :=
  {| RuntimeInit.event_id := "dev.trip.planned"; event_version := "1.0.0" |}.

(** The world is the number of calls.  The fifth fails, and a capability that emits
    events emits one per call. *)
#[local] Instance sample_host : Host := {|
  World := nat;
  local_execute := fun calls c v =>
    (S calls,
     if decide (calls = 4) then Err {| local_failure_code := LocalExecutionFailed; local_failure_message := "down" |}
     else Ok {| local_value := v;
       local_emitted_events := match Contract.service_type (contract c) with
         | Subscribable => [trip_event (u64_to_string (N.of_nat calls))] | _ => [] end |});
  read_file := fun _ _ => Err "absent";
  BrokerObject := ClockedBroker;
  SinkObject := list TraverseEvent;
  sink_emit := fun sent e => (sent ++ [e], Ok tt) |}.

(** ** Capabilities *)

Definition contract_with (id : string) (service : ServiceType) (targets : list ExecutionTarget) : CapabilityContract := {|
  kind := "capability_contract"; schema_version := "1.0.0"; Contract.id := id; namespace := "trip"; name := id;
  Contract.version := "1.0.0"; lifecycle := Contract.Active; Contract.owner := {| team := "trip"; contact := "trip" |};
  summary := "s"; description := "d"; inputs := {| schema := Object [] |}; outputs := {| schema := Object [] |};
  preconditions := []; postconditions := []; side_effects := []; emits := [trip_reference]; consumes := [];
  permissions := []; Contract.execution := Contract.execution sample_contract; policies := []; dependencies := [];
  provenance := provenance sample_contract; Contract.evidence := []; Contract.service_type := service;
  Contract.permitted_targets := targets; event_trigger := None; connector_requirements := [];
  Contract.state_schema := None; use_cases := []; risk := risk sample_contract |}.

Definition no_artifact (r : option WorkflowReference) : CapabilityArtifactRecord := {|
  source_kind := LocalSource; binary := None; workflow_ref := r; binary_digest := None |}.

Definition capability_with (id path : string) (service : ServiceType) (targets : list ExecutionTarget) : ResolvedCapability := {|
  record := {| record_scope := Public; record_id := id; record_version := "1.0.0"; record_lifecycle := Contract.Active;
    contract_path := path; implementation_kind := Executable; artifact_ref := id |};
  contract := contract_with id service targets; artifact := no_artifact None |}.

Definition workflow_capability (id workflow : string) : ResolvedCapability := {|
  record := {| record_scope := Public; record_id := id; record_version := "1.0.0"; record_lifecycle := Contract.Active;
    contract_path := "contracts/" +:+ id; implementation_kind := Workflow; artifact_ref := id |};
  contract := contract_with id Stateless [Local];
  artifact := no_artifact (Some {| ref_workflow_id := workflow; ref_workflow_version := "1.0.0" |}) |}.

Definition sample_capabilities : list ResolvedCapability := [
  capability_with "echo" "contracts/echo" Stateless [Local];
  capability_with "draft" "drafts/echo" Stateless [Local];
  capability_with "cloud-only" "contracts/cloud" Stateless [Cloud];
  capability_with "announce" "contracts/announce" Subscribable [Local];
  workflow_capability "draft-in-workflow" "one-draft"].

(** ** Workflows *)

Definition node_of (id capability : string) : WorkflowNode := {|
  node_id := id; node_capability_id := capability; node_capability_version := "1.0.0";
  from_workflow_input := []; to_workflow_state := []; publish_to_state_as := None |}.

Definition direct_edge (id x y : string) : WorkflowEdge := {|
  edge_id := id; from := x; to := y; trigger := Direct; edge_event := None; predicate := None |}.

Definition event_edge (id x y : string) : WorkflowEdge := {|
  edge_id := id; from := x; to := y; trigger := Event; edge_event := Some trip_reference; predicate := None |}.

Definition workflow_of (id : string) (ns : list WorkflowNode) (es : list WorkflowEdge) (start : string)
    (terminals : list string) : WorkflowDefinition := {|
  workflow_id := id; workflow_version := "1.0.0"; workflow_inputs := {| schema := Object [] |};
  workflow_outputs := {| schema := Object [] |}; nodes := ns; edges := es; start_node := start;
  terminal_nodes := terminals; output_projection := [] |}.

Definition chain : WorkflowDefinition :=
  workflow_of "chain" [node_of "a" "echo"; node_of "b" "echo"] [direct_edge "ab" "a" "b"] "a" ["b"].

Definition one_draft : WorkflowDefinition := workflow_of "one-draft" [node_of "a" "draft"] [] "a" ["a"].

(** Two nodes that wake each other, one of them by an event. *)
Definition event_loop : WorkflowDefinition :=
  workflow_of "event-loop" [node_of "a" "announce"; node_of "b" "echo"]
    [event_edge "ab" "a" "b"; direct_edge "ba" "b" "a"] "a" ["c"].

Definition sample_registries : Registries := {|
  find_exact := fun _ id version =>
    if decide (version = "1.0.0") then List.find (fun c => bool_decide (record_id (record c) = id)) sample_capabilities else None;
  discover := fun _ => [];
  resolve_version_range := fun _ _ _ => None;
  resolve_dependencies := fun _ _ _ => None;
  find_workflow := fun _ id _ =>
    List.find (fun w => bool_decide (workflow_id w = id)) [chain; one_draft; event_loop] |}.

(** ** The runtime *)

Definition sample_runtime : Runtime := {|
  registries := sample_registries;
  observability_config := {| traces_enabled := false; logs_enabled := false; metrics_enabled := false;
    exporter_endpoint := None; exporter_protocol := Http; deterministic_ids := true; deterministic_seed := None |};
  security := {| mode := Production |};
  capability_metadata := {| index_entries := ∅; index_sources := ∅ |};
  hydration_capacity := 4; indexed_workflows := ∅ |}.

Definition trip_catalog : EventCatalog :=
  {[ "dev.trip.planned" := {| entry_event_type := "dev.trip.planned"; entry_owner := "trip";
       Events.entry_version := "1.0.0"; entry_status := Events.Active; consumer_count := 0 |} ]}.

Definition sample_process : Process := {|
  world := 0;
  broker := {| clock := 0; in_process := {|
    catalog := trip_catalog; config := {| retention_window := 1000; max_queue_len := 8 |};
    validation_mode := Enforcement; Broker.state := Broker.empty_state |} |};
  sink := []; trace_store := ∅; trace_lock_poisoned := false; hydration := empty_cache |}.

Definition sample_readings : Readings := {|
  event_uuid := "u"; event_time := "2026-01-01T00:00:00Z";
  router_readings := {| elapsed_ms := 1; now_rfc3339 := "2026-01-01T00:00:00Z"; minted_id := "m";
                        minted_time := "2026-01-01T00:00:00Z" |} |}.

Definition request_for (capability : string) (token : option string) : RuntimeRequest := {|
  request_kind := RUNTIME_REQUEST_KIND; request_schema_version := "1.0.0"; request_id := "req-1";
  intent := {| intent_capability_id := Some capability; intent_capability_version := Some "1.0.0";
    version_range := None; intent_key := None |};
  input := Object [("x", Str "v")]; lookup_scope := {| scope := PublicOnly; allow_ambiguity := false |};
  context := {| requested_target := LocalTarget; Request.correlation_id := None; caller := token; traceparent := None;
    tracestate := None; metadata := None; identity := None |};
  request_governing_spec := GOVERNING_SPEC |}.

Definition run_sample (capability : string) (token : option string) : Process * option RuntimeExecutionOutcome :=
  execute sample_runtime 10 10 sample_readings (request_for capability token) sample_process.

Definition workflow_request (id : string) : WorkflowExecutionRequest := {|
  workflow_request_kind := WORKFLOW_REQUEST_KIND; workflow_request_schema_version := WORKFLOW_SCHEMA_VERSION;
  workflow_request_id := "req-1"; requested_workflow_id := id; requested_workflow_version := "1.0.0";
  workflow_scope := WorkflowPublicOnly; workflow_input := Object [("x", Str "v")];
  workflow_request_governing_spec := WORKFLOW_GOVERNING_SPEC |}.

(** ** Witnesses *)

Lemma echo_returns : is_Some (run_sample "echo" None).2.
Proof. vm_compute. by eexists. Qed.

Lemma echo_started : (execution_status ∘ execution ∘ trace <$> (run_sample "echo" None).2) = Some Succeeded.
Proof. vm_compute. reflexivity. Qed.

Lemma outcome_is_reported_witness : exists p' o, run_sample "echo" None = (p', Some o) /\ reported o.
Proof.
  destruct (run_sample "echo" None) as [p' [o|]] eqn:Hrun.
  - exists p', o. split; [reflexivity|]. exact (outcome_is_reported _ _ _ _ _ _ _ _ Hrun).
  - pose proof echo_returns as [o Ho]. rewrite Hrun in Ho. discriminate.
Defined.

Lemma execution_is_gated_witness : exists p' o selected p1, run_sample "echo" None = (p', Some o) /\
  authorized sample_runtime (read_file (world sample_process)) (request_for "echo" None) selected /\
  executed (request_for "echo" None) selected p1 p' o.
Proof.
  pose proof echo_started as Hs. destruct (run_sample "echo" None) as [p' [o|]] eqn:Hrun; [|discriminate].
  destruct (execution_is_gated _ _ _ _ _ _ _ _ Hrun) as [[Hns _]|(selected & p1 & _ & Ha & Hx)].
  - cbn in Hs. rewrite Hns in Hs. discriminate.
  - exists p', o, selected, p1. split; [reflexivity|]. split; [exact Ha|exact Hx].
Defined.

(** A token whose payload names a subject. *)
Definition sample_token : string := "h.eyJ9.s".

Lemma token_returns : is_Some (run_sample "echo" (Some sample_token)).2.
Proof. vm_compute. by eexists. Qed.

Lemma identity_attribution_witness : exists p' o e i, run_sample "echo" (Some sample_token) = (p', Some o) /\
  sink p' = [e] /\ Events.subject_id e = None /\ derive_identity_from_jwt sample_token = Some i /\
  execution_identity (execution (trace o)) = Some i.
Proof.
  destruct (run_sample "echo" (Some sample_token)) as [p' [o|]] eqn:Hrun.
  - destruct (identity_attribution _ _ _ _ _ _ _ _ sample_token Hrun eq_refl eq_refl) as [(e & Hsink & _ & Hsub & _) Hi].
    destruct (derive_identity_from_jwt sample_token) as [i|] eqn:Hd; [|vm_compute in Hd; discriminate].
    destruct Hi as (_ & _ & Hi). exists p', o, e, i. split_and!; [reflexivity|exact Hsink|exact Hsub|reflexivity|exact Hi].
  - pose proof token_returns as [o Ho]. rewrite Hrun in Ho. discriminate.
Defined.

Definition chain_index : CapabilityMetadataIndex := {|
  index_entries := {[ "echo@1.0.0" := {| app_id := "app"; app_version := "1"; component_id := "c"; component_version := "1";
    indexed_capability_id := "echo"; indexed_capability_version := "1.0.0"; indexed_contract_digest := "d";
    artifact_digest := None |} ]};
  index_sources := ∅ |}.

Lemma traversal_terminates_witness : exists p' o,
  traverse_workflow sample_runtime 0 3 (workflow_request "chain") chain sample_process = (p', Some o) /\
  length (visited_nodes (evidence o)) <= 2.
Proof.
  destruct (traversal_terminates sample_runtime 0 3 (workflow_request "chain") chain chain_index sample_process)
    as (p' & o & Hrun & _ & Hlen).
  - vm_compute. reflexivity.
  - intros e He. apply list_elem_of_singleton in He. rewrite He. reflexivity.
  - vm_compute. lia.
  - exists p', o. split; [exact Hrun|exact Hlen].
Defined.

Lemma chain_returns : is_Some (execute_workflow sample_runtime 0 3 (workflow_request "chain") sample_process).2.
Proof. vm_compute. by eexists. Qed.

Lemma workflow_evidence_is_run_witness : exists p' o,
  execute_workflow sample_runtime 0 3 (workflow_request "chain") sample_process = (p', Some o) /\
  (visited_nodes (evidence o) = [] \/ is_run chain o).
Proof.
  destruct (execute_workflow sample_runtime 0 3 (workflow_request "chain") sample_process) as [p' [o|]] eqn:Hrun.
  - exists p', o. split; [reflexivity|].
    destruct (workflow_evidence_is_run _ _ _ _ _ _ _ Hrun) as [(_ & Hv & _)|(d & Hd & _ & Hr)]; [left; exact Hv|right].
    vm_compute in Hd. injection Hd as <-. exact Hr.
  - pose proof chain_returns as [o Ho]. rewrite Hrun in Ho. discriminate.
Defined.

(** ** Runs that the specifications exclude *)

(** A capability whose contract lies under [drafts/] is refused when it is
    requested, and the executor is not called; the same capability is executed, and
    the request completes, when it is a step of a workflow.  (Only the artifact gate
    is applied to workflow steps.) *)
Theorem drafts_run_in_workflows :
  world (run_sample "draft" None).1 = 0 /\
  (result_status ∘ result <$> (run_sample "draft" None).2) = Some Errored /\
  world (run_sample "draft-in-workflow" None).1 = 1 /\
  (result_status ∘ result <$> (run_sample "draft-in-workflow" None).2) = Some Request.Completed.
Proof. split_and!; vm_compute; reflexivity. Qed.

(** A capability that permits only cloud execution is run by the local executor,
    which the execution record says, while the trace store records it as run in the
    cloud. *)
Theorem permitted_targets_not_enforced :
  Contract.permitted_targets (contract (capability_with "cloud-only" "contracts/cloud" Stateless [Cloud])) = [Cloud] /\
  world (run_sample "cloud-only" None).1 = 1 /\
  (placement_target ∘ execution ∘ trace <$> (run_sample "cloud-only" None).2) = Some LocalTarget /\
  (public_placement_target ∘ fst <$> store_get (trace_store (run_sample "cloud-only" None).1) "trace_exec_req-1")
    = Some "Cloud".
Proof. split_and!; vm_compute; reflexivity. Qed.

Definition loop_run_sample : Process * option WorkflowExecutionOutcome :=
  execute_workflow sample_runtime 10 10 (workflow_request "event-loop") sample_process.

(** In a workflow whose event edge is passed twice, the first event is consumed
    twice for that edge: once as the emission of its own step, and once more as the
    broker's event at cursor 1, because the two records of one event have different
    ids; and the event of the second pass is reported as already consumed, because
    the ids of emissions start again at every step. *)
Theorem event_consumed_twice :
  (omap (fun c => if decide (consumed_edge_id c = "ab") then Some (consumed_cursor c) else None)
     ∘ event_consumptions ∘ evidence <$> loop_run_sample.2) = Some [None; Some "1"; Some "2"] /\
  (length ∘ evidence_emitted_events ∘ evidence <$> loop_run_sample.2) = Some 2 /\
  (o ← loop_run_sample.2; m ← event_match_records (evidence o) !! 1; Some (match_recorded_at m, match_result m))
    = Some ("req-1:step:2:local:event:0:match:ab", AlreadyConsumed).
Proof. split_and!; vm_compute; reflexivity. Qed.
