(* ===== verification/ProposalLive.v ===== *)
(** * Proposals on the server runtime

    The runtime of [Execute.v] is an implementation of the interface
    [CapabilityRuntime] against which proposal execution is modelled, and the execution of
    a proposal is a run of governed calls of that runtime. *)
From S2P Require Import Prelude Effect Json Placement Events RuntimeInit Contract Schema.
From S2P Require Import Request Proposal ProposalCheck ProposalRun ProposalRunProps.
From S2P Require Import Lifecycle Registry Security Outcome Hydration Router Attempt WorkflowRun Traverse.
From S2P Require Import Execute ExecuteProps ExecuteGates ExecuteSamples.



Section live.
Context `{Host, Trust, ContractCodec, SerdeJson, SemverCrate} (rt : Runtime) (fuel poll_fuel : nat)
  (readings : nat -> Readings).








End live.

(** ** A proposal of one node *)

#[local] Existing Instances sample_host sample_semver sample_semver_crate sample_trust sample_codec sample_json.





