(* ===== verification/HostConnector.v ===== *)
(** * Model rights, usage and placements

    The data of [traverse-runtime/src/exact_model.rs] and [exact_model/adapter.rs] that the
    host connector carries in its results: signed rights, the application's usage, the
    host's package status and the placement that ran a model. *)
From S2P Require Import Prelude.

Definition PLACEMENT_WASM_CPU : string := "wasm-cpu".

Inductive CommercialUse := Allowed | Restricted | Prohibited.

#[export] Instance CommercialUse_eq_dec : EqDecision CommercialUse.
Proof. solve_decision. Defined.

Definition commercial_use_str (c : CommercialUse) : string :=
  match c with Allowed => "allowed" | Restricted => "restricted" | Prohibited => "prohibited" end.

(** Permissiveness, [prohibited < restricted < allowed]. *)
Definition rank (c : CommercialUse) : nat :=
  match c with Prohibited => 0 | Restricted => 1 | Allowed => 2 end.

Inductive ModelUsage := Commercial | NonCommercial.

#[export] Instance ModelUsage_eq_dec : EqDecision ModelUsage.
Proof. solve_decision. Defined.

Inductive DerivationKind := Converted | Quantized | FineTuned.

Record ModelDerivation := {
  derivation_kind : DerivationKind;
  source_digest : string;
  source_license_id : string;
  source_commercial_use : CommercialUse;
  derivation_source_url : string }.

Record ModelRights := {
  license_id : string;
  attribution : string;
  redistribution : string;
  commercial_use : CommercialUse;
  source_url : string;
  derivation : option ModelDerivation }.

Inductive PackageStatus := Active | Deprecated | Revoked.

#[export] Instance PackageStatus_eq_dec : EqDecision PackageStatus.
Proof. solve_decision. Defined.

Record PackageStatusEntry := { entry_status : PackageStatus; entry_reason : string }.

#[export] Instance PackageStatusEntry_eq_dec : EqDecision PackageStatusEntry.
Proof. solve_decision. Defined.

Record ModelRightsRecord := {
  record_model_id : string;
  record_version : string;
  record_digest : string;
  record_rights : ModelRights;
  record_status : PackageStatus;
  status_reason : option string;
  effective_usage : ModelUsage }.

Inductive FuelMetering := Metered | NotApplicable.

#[export] Instance FuelMetering_eq_dec : EqDecision FuelMetering.
Proof. solve_decision. Defined.

Record PlacementEvidence := {
  evidence_placement : string;
  compute_units : string;
  fuel_metering : FuelMetering }.

Definition wasm_cpu_evidence : PlacementEvidence := {|
  evidence_placement := PLACEMENT_WASM_CPU; compute_units := "cpu"; fuel_metering := Metered |}.

(** * Host connector dispatch

    [traverse-runtime/src/host_connector_dispatch.rs]: an application command is resolved
    to a route and a binding of the application manifest, authorized, answered from the
    replay store or by one call of the host adapter, and reported as a dispatch document.
    The adapter is the interface [HostConnectorPort]. *)
From S2P Require Import Effect Json Contract.
(** ** Constants *)

Definition GOVERNING_SPEC : string := "137-host-connector-command-dispatch".
Definition SCHEMA_VERSION : string := "1.0.0".
Definition COMMAND_KIND : string := "host_connector_command".
Definition RESULT_KIND : string := "host_connector_result".
Definition EVENT_KIND : string := "host_connector_event".
Definition AUDIO_INPUT_CONNECTOR : string := "traverse.audio-input".
Definition AUDIO_CAPTURE_OPERATION : string := "audio.capture".
Definition AUDIO_PERMISSION_REQUEST_OPERATION : string := "audio.permission.request".
Definition MODEL_RUNTIME_CONNECTOR : string := "traverse.model-runtime".
Definition MODEL_EXECUTE_OPERATION : string := "model.execute".
Definition MAX_DURATION_MS : N := 60000.
Definition MAX_AUDIO_BYTES : N := 10485760.
Definition MAX_PAYLOAD_BYTES : nat := Eval vm_compute in 16 * 1024.
Definition MAX_MODEL_OUTPUT_BYTES : N := 16777216.
Definition MAX_EVENTS : nat := 8.

(** ** Errors *)

Inductive HostConnectorPermissionState := Granted | Denied | PromptRequired | PermissionUnavailable.

Inductive HostConnectorErrorCode :=
  | UnknownCommand | Unbound | Incompatible | Unconfigured | TargetIncompatible | InputLimitExceeded
  | Cancelled | IdempotencyConflict | PolicyDenied | Unavailable | InvalidInput | ModelUnavailable
  | ModelIncompatible | ResourceExhausted | Timeout | ExecutionFailed.

#[export] Instance HostConnectorErrorCode_eq_dec : EqDecision HostConnectorErrorCode.
Proof. solve_decision. Defined.

Definition error_code_str (c : HostConnectorErrorCode) : string :=
  match c with
  | UnknownCommand => "unknown_command"
  | Unbound => "unbound"
  | Incompatible => "incompatible"
  | Unconfigured => "unconfigured"
  | TargetIncompatible => "target_incompatible"
  | InputLimitExceeded => "input_limit_exceeded"
  | Cancelled => "cancelled"
  | IdempotencyConflict => "idempotency_conflict"
  | PolicyDenied => "policy_denied"
  | Unavailable => "unavailable"
  | InvalidInput => "invalid_input"
  | ModelUnavailable => "model_unavailable"
  | ModelIncompatible => "model_incompatible"
  | ResourceExhausted => "resource_exhausted"
  | Timeout => "timeout"
  | ExecutionFailed => "execution_failed"
  end.

Inductive ModelFailureReason :=
  | PinMismatch | PinAmbiguous | SignatureInvalid | KeyUntrusted | DigestMismatch | ManifestInvalid
  | RightsIncomplete | RightsMismatch | TargetUnsupported | CryptoUnavailable | CandidateUnsupported
  | HostLimitExceeded | UsageUndeclared | UsageInvalid | RightsPolicyDenied | PackageRevoked
  | RightsInconsistent | PlacementUnavailable | FrameMismatch | InferenceFailed | OutputMismatch
  | GuestRejected | OutputLimitExceeded.

Definition reason_str (r : ModelFailureReason) : string :=
  match r with
  | PinMismatch => "pin_mismatch"
  | PinAmbiguous => "pin_ambiguous"
  | SignatureInvalid => "signature_invalid"
  | KeyUntrusted => "key_untrusted"
  | DigestMismatch => "digest_mismatch"
  | ManifestInvalid => "manifest_invalid"
  | RightsIncomplete => "rights_incomplete"
  | RightsMismatch => "rights_mismatch"
  | TargetUnsupported => "target_unsupported"
  | CryptoUnavailable => "crypto_unavailable"
  | CandidateUnsupported => "candidate_unsupported"
  | HostLimitExceeded => "host_limit_exceeded"
  | UsageUndeclared => "usage_undeclared"
  | UsageInvalid => "usage_invalid"
  | RightsPolicyDenied => "rights_policy_denied"
  | PackageRevoked => "package_revoked"
  | RightsInconsistent => "rights_inconsistent"
  | PlacementUnavailable => "placement_unavailable"
  | FrameMismatch => "frame_mismatch"
  | InferenceFailed => "inference_failed"
  | OutputMismatch => "output_mismatch"
  | GuestRejected => "guest_rejected"
  | OutputLimitExceeded => "output_limit_exceeded"
  end.

Record ModelRightsDenialDetail := {
  detail_model_id : option string;
  detail_version : option string;
  detail_digest : option string;
  field : string;
  expected : string;
  actual : string;
  detail_effective_usage : option ModelUsage }.

Record HostConnectorError := {
  code : HostConnectorErrorCode;
  reason : option ModelFailureReason;
  detail : option ModelRightsDenialDetail;
  message : string }.

Definition plain_error (c : HostConnectorErrorCode) (m : string) : HostConnectorError := {|
  code := c; reason := None; detail := None; message := m |}.

(** ** Commands, manifests and results *)

Record HostConnectorAppCommand := {
  command_kind : string;
  command_schema_version : string;
  command : string;
  command_id : string;
  correlation_id : string;
  idempotency_key : string;
  target_family : string;
  cancel_requested : bool;
  payload : Value }.

Record HostConnectorBinding := {
  binding_id : string;
  connector_id : string;
  version : string;
  config_ref : string;
  placement_targets : list string }.

Record HostConnectorCommandRoute := {
  route_command : string;
  route_connector_id : string;
  operation : string }.

Record HostConnectorAppManifest := {
  app_id : string;
  connector_bindings : list HostConnectorBinding;
  command_routes : list HostConnectorCommandRoute }.

Record HostConnectorHostRequest := {
  request_connector_id : string;
  request_operation : string;
  request_binding_id : string;
  request_target_family : string;
  request_correlation_id : string;
  request_payload : Value;
  request_cancel_requested : bool }.

Record HostConnectorHostResult := {
  result_artifact_ref : option string;
  result_permission_state : option HostConnectorPermissionState;
  result_model_evidence : option ModelRightsRecord;
  result_placement_evidence : option PlacementEvidence }.

Record HostConnectorEvent := {
  event_kind : string;
  event_schema_version : string;
  event : string;
  event_command_id : string;
  event_correlation_id : string;
  event_connector_id : option string;
  event_operation : option string;
  event_binding_id : option string;
  event_target_family : string;
  event_artifact_ref : option string;
  event_permission_state : option HostConnectorPermissionState;
  event_error_code : option string }.

Record HostConnectorEvidence := {
  governing_spec : string;
  evidence_connector_id : option string;
  connector_version : option string;
  evidence_operation : option string;
  evidence_target_family : string;
  evidence_binding_id : option string;
  evidence_config_ref : option string;
  evidence_correlation_id : string;
  evidence_result_class : string;
  outcome : string }.

Record HostConnectorDispatch := {
  dispatch_kind : string;
  dispatch_schema_version : string;
  result_class : string;
  dispatch_command_id : string;
  dispatch_correlation_id : string;
  dispatch_connector_id : option string;
  dispatch_operation : option string;
  dispatch_binding_id : option string;
  dispatch_target_family : string;
  artifact_ref : option string;
  permission_state : option HostConnectorPermissionState;
  dispatch_error : option HostConnectorError;
  model_evidence : option ModelRightsRecord;
  placement_evidence : option PlacementEvidence;
  events : list HostConnectorEvent;
  evidence : HostConnectorEvidence }.

Record HostConnectorFailure := { failure_error : HostConnectorError; failure_dispatch : HostConnectorDispatch }.

(** ** Activations and the replay store *)

Record HostConnectorActivationSet := { activated_binding_ids : list string }.

Definition activate (id : string) (s : HostConnectorActivationSet) : HostConnectorActivationSet :=
  if decide (id ∈ activated_binding_ids s) then s
  else {| activated_binding_ids := activated_binding_ids s ++ [id] |}.

Definition is_activated (s : HostConnectorActivationSet) (id : string) : bool :=
  bool_decide (id ∈ activated_binding_ids s).

Record IdempotencyEntry := { entry_fingerprint : string; entry_result : HostConnectorDispatch }.

Abbreviation HostConnectorIdempotencyStore := (gmap string IdempotencyEntry).

(** The host's adapter. *)
Class HostConnectorPort := {
  Port : Type;
  invoke : HostConnectorHostRequest -> Port -> Port * Result HostConnectorError HostConnectorHostResult }.

(** What a dispatch may change. *)
Record DispatchState `{HostConnectorPort} := {
  idempotency : HostConnectorIdempotencyStore;
  host : Port }.

(** What it reads. *)
Record Application := { manifest : HostConnectorAppManifest; activations : HostConnectorActivationSet }.

(** ** Resolution and authorization *)

Record ResolvedRefs := {
  refs_connector_id : string;
  refs_operation : string;
  refs_binding_id : string;
  refs_version : string;
  refs_config_ref : string }.

Definition from_binding (b : HostConnectorBinding) (op : string) : ResolvedRefs := {|
  refs_connector_id := connector_id b; refs_operation := op; refs_binding_id := binding_id b;
  refs_version := version b; refs_config_ref := config_ref b |}.

Definition payload_bytes `{SerdeJson} (v : Value) : nat := length (to_vec v).

Definition validate_command_envelope `{SerdeJson} (c : HostConnectorAppCommand) : Result HostConnectorError unit :=
  _ ← ensure (bool_decide (command_kind c = COMMAND_KIND) && bool_decide (command_schema_version c = SCHEMA_VERSION))
        (plain_error Incompatible "command kind and schema_version must be host_connector_command/1.0.0");
  _ ← ensure (negb (is_blank (command c) || is_blank (command_id c) || is_blank (correlation_id c)
        || is_blank (idempotency_key c) || is_blank (target_family c)))
        (plain_error Incompatible "command identity fields must be non-empty");
  ensure (payload_bytes (payload c) <=? MAX_PAYLOAD_BYTES)%nat
    (plain_error InputLimitExceeded "command payload exceeds the published byte ceiling").

(** The operations the runtime knows. *)
Definition supported_operation (r : HostConnectorCommandRoute) : bool :=
  (bool_decide (route_connector_id r = AUDIO_INPUT_CONNECTOR)
     && (bool_decide (operation r = AUDIO_CAPTURE_OPERATION)
         || bool_decide (operation r = AUDIO_PERMISSION_REQUEST_OPERATION)))
  || (bool_decide (route_connector_id r = MODEL_RUNTIME_CONNECTOR)
     && bool_decide (operation r = MODEL_EXECUTE_OPERATION)).

Definition resolve_route (m : HostConnectorAppManifest) (name : string)
    : Result HostConnectorError HostConnectorCommandRoute :=
  match List.filter (fun r => bool_decide (route_command r = name)) (command_routes m) with
  | [route] =>
      if supported_operation route then Ok route
      else Err (plain_error Incompatible "command route is not a supported host connector operation")
  | [] => Err (plain_error UnknownCommand "command is not declared by the app state machine")
  | _ => Err (plain_error Incompatible "command is routed to more than one host connector operation")
  end.

Definition resolve_binding (m : HostConnectorAppManifest) (id : string)
    : Result HostConnectorError HostConnectorBinding :=
  match List.filter (fun b => bool_decide (connector_id b = id)) (connector_bindings m) with
  | [binding] =>
      _ ← ensure (negb (is_blank (binding_id binding)))
            (plain_error Unbound "connector binding is missing a binding id");
      _ ← ensure (negb (is_blank (config_ref binding)))
            (plain_error Unconfigured "connector binding is missing a configuration reference");
      _ ← ensure (negb (is_blank (version binding)))
            (plain_error Incompatible "connector binding version is incompatible");
      Ok binding
  | [] => Err (plain_error Unbound "application manifest has no binding for the routed connector")
  | _ => Err (plain_error Incompatible "application manifest declares duplicate bindings for the connector")
  end.

Definition claims_target (family : string) (target : string) : bool :=
  bool_decide (target = family)
  || (bool_decide (target = "local") && (bool_decide (family = "macos") || bool_decide (family = "local"))).

Definition confirm_target (b : HostConnectorBinding) (family : string) : Result HostConnectorError unit :=
  _ ← ensure (negb (bool_decide (placement_targets b = [])))
        (plain_error TargetIncompatible "activated binding does not declare any supported target families");
  ensure (existsb (claims_target family) (placement_targets b))
    (plain_error TargetIncompatible "activated binding does not claim the requested target family").

Definition limit_error (m : string) : HostConnectorError := plain_error InputLimitExceeded m.

Definition required_u64 (members : list (string * Value)) (key : string) : Result HostConnectorError N :=
  match member key members with
  | Some (Num n) => ok_or (as_u64 (Num n)) (limit_error "numeric limit fields must be non-negative integers")
  | _ => Err (limit_error "required numeric limit field is missing")
  end.

(** [object.get(key).and_then(Value::as_str).is_some()] *)
Definition has_str (key : string) (members : list (string * Value)) : bool :=
  match member key members ≫= as_str with Some _ => true | None => false end.

Definition model_ref_ok (members : list (string * Value)) : bool :=
  match member "model_ref" members ≫= as_object with
  | Some model_ref => has_str "model_id" model_ref && has_str "version" model_ref && has_str "digest" model_ref
  | None => false
  end.

Definition confirm_capture (members : list (string * Value)) : Result HostConnectorError unit :=
  duration ← required_u64 members "max_duration_ms";
  size ← required_u64 members "max_bytes";
  ensure (negb ((duration =? 0) || (MAX_DURATION_MS <? duration) || (size =? 0) || (MAX_AUDIO_BYTES <? size))%N)
    (limit_error "audio.capture duration or size exceeds published ceilings").

Definition confirm_model_execute (members : list (string * Value)) : Result HostConnectorError unit :=
  output_bytes ← required_u64 members "max_output_bytes";
  _ ← ensure (model_ref_ok members && (has_str "input_ref" members && has_str "policy_ref" members
        && has_str "data_classification" members && has_str "input_schema_ref" members
        && has_str "input_schema_version" members))
        (limit_error "model.execute requires model_ref, input_ref, policy_ref, data_classification, input_schema_ref, input_schema_version, and max_output_bytes");
  _ ← ensure (negb ((output_bytes =? 0) || (MAX_MODEL_OUTPUT_BYTES <? output_bytes))%N)
        (limit_error "model.execute output ceiling exceeds published limits");
  ensure (negb (existsb (fun key => contains_key key members)
            ["provider"; "model_id"; "endpoint"; "credential"; "artifact_ref"]))
    (plain_error Incompatible "model.execute payload must not include provider authority fields").

Definition confirm_operation_payload (r : HostConnectorCommandRoute) (v : Value) : Result HostConnectorError unit :=
  match as_object v with
  | None => Err (limit_error "payload must be a JSON object")
  | Some members =>
      if decide (operation r = AUDIO_PERMISSION_REQUEST_OPERATION) then
        ensure (bool_decide (length members = 0))
          (limit_error "audio.permission.request payload must be an empty object")
      else if decide (operation r = AUDIO_CAPTURE_OPERATION) then confirm_capture members
      else confirm_model_execute members
  end.

Definition looks_leaky (s : string) : bool :=
  let lower := to_ascii_lowercase s in
  existsb (contains lower) ["microphone"; "/tmp/"; "http://"; "https://"; "avaudio"; "credential"].

(** ** Events and documents *)

Definition new_event (c : HostConnectorAppCommand) (name : string) (connector op binding artifact : option string)
    (permission : option HostConnectorPermissionState) (error : option string) : HostConnectorEvent := {|
  event_kind := EVENT_KIND; event_schema_version := SCHEMA_VERSION; event := name;
  event_command_id := command_id c; event_correlation_id := correlation_id c;
  event_connector_id := connector; event_operation := op; event_binding_id := binding;
  event_target_family := target_family c; event_artifact_ref := artifact;
  event_permission_state := permission; event_error_code := error |}.

(** The oldest event makes room for the new one. *)
Definition push_event (es : list HostConnectorEvent) (e : HostConnectorEvent) : list HostConnectorEvent :=
  (if decide (length es = MAX_EVENTS) then drop 1 es else es) ++ [e].

Definition accepted_event (c : HostConnectorAppCommand) : HostConnectorEvent :=
  new_event c "accepted" None None None None None None.

Definition bound_host_connector_event_queue (c : HostConnectorAppCommand) : nat :=
  length (foldl (fun es _ => push_event es (accepted_event c)) [] (seq 0 (S MAX_EVENTS))).

Definition result_class_of (c : HostConnectorErrorCode) : string :=
  if decide (c = Cancelled) then "cancelled" else "failed".

Definition failure_evidence (c : HostConnectorAppCommand) (e : HostConnectorError) (refs : option ResolvedRefs)
    : HostConnectorEvidence := {|
  governing_spec := GOVERNING_SPEC; evidence_connector_id := refs_connector_id <$> refs;
  connector_version := refs_version <$> refs; evidence_operation := refs_operation <$> refs;
  evidence_target_family := target_family c; evidence_binding_id := refs_binding_id <$> refs;
  evidence_config_ref := refs_config_ref <$> refs; evidence_correlation_id := correlation_id c;
  evidence_result_class := result_class_of (code e); outcome := error_code_str (code e) |}.

Definition fail_with (c : HostConnectorAppCommand) (e : HostConnectorError) (es : list HostConnectorEvent)
    (refs : option ResolvedRefs) : HostConnectorFailure :=
  let es := push_event es (new_event c (result_class_of (code e)) (refs_connector_id <$> refs)
    (refs_operation <$> refs) (refs_binding_id <$> refs) None None (Some (error_code_str (code e)))) in {|
  failure_error := e;
  failure_dispatch := {|
    dispatch_kind := RESULT_KIND; dispatch_schema_version := SCHEMA_VERSION;
    result_class := result_class_of (code e); dispatch_command_id := command_id c;
    dispatch_correlation_id := correlation_id c; dispatch_connector_id := refs_connector_id <$> refs;
    dispatch_operation := refs_operation <$> refs; dispatch_binding_id := refs_binding_id <$> refs;
    dispatch_target_family := target_family c; artifact_ref := None; permission_state := None;
    dispatch_error := Some e; model_evidence := None; placement_evidence := None; events := es;
    evidence := failure_evidence c e refs |} |}.

Definition fail_code (c : HostConnectorAppCommand) (k : HostConnectorErrorCode) (m : string)
    (es : list HostConnectorEvent) (refs : option ResolvedRefs) : HostConnectorFailure :=
  fail_with c (plain_error k m) es refs.

Definition success_evidence (c : HostConnectorAppCommand) (b : HostConnectorBinding) (r : HostConnectorCommandRoute)
    : HostConnectorEvidence := {|
  governing_spec := GOVERNING_SPEC; evidence_connector_id := Some (connector_id b);
  connector_version := Some (version b); evidence_operation := Some (operation r);
  evidence_target_family := target_family c; evidence_binding_id := Some (binding_id b);
  evidence_config_ref := Some (config_ref b); evidence_correlation_id := correlation_id c;
  evidence_result_class := "succeeded"; outcome := "succeeded" |}.

Definition success_dispatch (c : HostConnectorAppCommand) (b : HostConnectorBinding) (r : HostConnectorCommandRoute)
    (artifact : option string) (permission : option HostConnectorPermissionState)
    (rights : option ModelRightsRecord) (placement : option PlacementEvidence)
    (es : list HostConnectorEvent) : HostConnectorDispatch := {|
  dispatch_kind := RESULT_KIND; dispatch_schema_version := SCHEMA_VERSION; result_class := "succeeded";
  dispatch_command_id := command_id c; dispatch_correlation_id := correlation_id c;
  dispatch_connector_id := Some (connector_id b); dispatch_operation := Some (operation r);
  dispatch_binding_id := Some (binding_id b); dispatch_target_family := target_family c;
  artifact_ref := artifact; permission_state := permission; dispatch_error := None;
  model_evidence := rights; placement_evidence := placement; events := es;
  evidence := success_evidence c b r |}.

(** ** Dispatch *)

Record AuthorizedCommand := {
  binding : HostConnectorBinding;
  route : HostConnectorCommandRoute;
  fingerprint : string }.

Inductive Authorization :=
  | Replay (d : HostConnectorDispatch)
  | Ready (a : AuthorizedCommand).

Section dispatch.
Context `{SerdeJson, HostConnectorPort}.

Definition fingerprint_value (c : HostConnectorAppCommand) (r : HostConnectorCommandRoute) : Value :=
  obj [("command", Str (command c)); ("connector_id", Str (route_connector_id r)); ("operation", Str (operation r));
       ("target_family", Str (target_family c)); ("payload", payload c)].

Definition fingerprint_of (c : HostConnectorAppCommand) (r : HostConnectorCommandRoute) : string :=
  String.string_of_list_ascii (to_vec (fingerprint_value c r)).

Definition unbound_refs (r : HostConnectorCommandRoute) : ResolvedRefs := {|
  refs_connector_id := route_connector_id r; refs_operation := operation r; refs_binding_id := "";
  refs_version := ""; refs_config_ref := "" |}.

Definition authorize_command (app : Application) (store : HostConnectorIdempotencyStore) (c : HostConnectorAppCommand)
    (es : list HostConnectorEvent) : Result HostConnectorFailure Authorization :=
  _ ← map_err (fun e => fail_code c (code e) (message e) es None) (validate_command_envelope c);
  route ← map_err (fun e => fail_code c (code e) (message e) es None) (resolve_route (manifest app) (command c));
  binding ← map_err (fun e => fail_code c (code e) (message e) es (Some (unbound_refs route)))
              (resolve_binding (manifest app) (route_connector_id route));
  let resolved := Some (from_binding binding (operation route)) in
  _ ← ensure (is_activated (activations app) (binding_id binding))
        (fail_code c Unbound "binding is not explicitly activated" es resolved);
  _ ← map_err (fun e => fail_code c (code e) (message e) es resolved)
        (_ ← confirm_target binding (target_family c); confirm_operation_payload route (payload c));
  let fp := fingerprint_of c route in
  match store !! idempotency_key c with
  | Some entry =>
      if decide (entry_fingerprint entry = fp) then Ok (Replay (entry_result entry))
      else Err (fail_code c IdempotencyConflict "idempotency key was reused with a different command payload" es resolved)
  | None =>
      _ ← ensure (negb (cancel_requested c))
            (fail_code c Cancelled "command was cancelled before host invoke" es resolved);
      Ok (Ready {| binding := binding; route := route; fingerprint := fp |})
  end.

(** [ctx.idempotency.entries.insert(..)] and the document. *)
Definition remember (c : HostConnectorAppCommand) (a : AuthorizedCommand) (d : HostConnectorDispatch)
    : Eff DispatchState HostConnectorFailure HostConnectorDispatch := fun s =>
  ({| idempotency := <[idempotency_key c := {| entry_fingerprint := fingerprint a; entry_result := d |}]> (idempotency s);
      host := host s |}, Ok d).

Definition completed_event (c : HostConnectorAppCommand) (a : AuthorizedCommand) (artifact : option string)
    (permission : option HostConnectorPermissionState) : HostConnectorEvent :=
  new_event c "completed" (Some (connector_id (binding a))) (Some (operation (route a))) (Some (binding_id (binding a)))
    artifact permission None.

Definition complete_permission_success (c : HostConnectorAppCommand) (a : AuthorizedCommand)
    (r : HostConnectorHostResult) (es : list HostConnectorEvent) (resolved : option ResolvedRefs)
    : Eff DispatchState HostConnectorFailure HostConnectorDispatch :=
  match result_permission_state r with
  | None => fail (fail_code c Unavailable "host adapter returned no permission_state" es resolved)
  | Some Denied => fail (fail_code c PolicyDenied "audio permission was denied" es resolved)
  | Some PermissionUnavailable => fail (fail_code c Unavailable "audio permission is unavailable" es resolved)
  | Some state =>
      remember c a (success_dispatch c (binding a) (route a) None (Some state) None None
        (push_event es (completed_event c a None (Some state))))
  end.

Definition complete_host_success (c : HostConnectorAppCommand) (a : AuthorizedCommand)
    (r : HostConnectorHostResult) (es : list HostConnectorEvent) (resolved : option ResolvedRefs)
    : Eff DispatchState HostConnectorFailure HostConnectorDispatch :=
  if decide (operation (route a) = AUDIO_PERMISSION_REQUEST_OPERATION)
  then complete_permission_success c a r es resolved
  else match result_artifact_ref r with
  | None => fail (fail_code c Unavailable "host adapter returned an empty artifact reference" es resolved)
  | Some artifact =>
      if is_blank artifact then
        fail (fail_code c Unavailable "host adapter returned an empty artifact reference" es resolved)
      else if looks_leaky artifact then
        fail (fail_code c Unavailable "host adapter returned a non-opaque artifact reference" es resolved)
      else
        remember c a (success_dispatch c (binding a) (route a) (Some artifact) None
          (result_model_evidence r) (result_placement_evidence r)
          (push_event es (completed_event c a (Some artifact) None)))
  end.

Definition started_event (c : HostConnectorAppCommand) (a : AuthorizedCommand) : HostConnectorEvent :=
  new_event c "started" (Some (connector_id (binding a))) (Some (operation (route a))) (Some (binding_id (binding a)))
    None None None.

Definition host_request (c : HostConnectorAppCommand) (a : AuthorizedCommand) : HostConnectorHostRequest := {|
  request_connector_id := connector_id (binding a); request_operation := operation (route a);
  request_binding_id := binding_id (binding a); request_target_family := target_family c;
  request_correlation_id := correlation_id c; request_payload := payload c;
  request_cancel_requested := cancel_requested c |}.

Definition invoke_authorized (c : HostConnectorAppCommand) (a : AuthorizedCommand) (es : list HostConnectorEvent)
    : Eff DispatchState HostConnectorFailure HostConnectorDispatch := fun s =>
  let es := push_event es (started_event c a) in
  let resolved := Some (from_binding (binding a) (operation (route a))) in
  let '(h, r) := invoke (host_request c a) (host s) in
  let s := {| idempotency := idempotency s; host := h |} in
  match r with
  | Ok result => complete_host_success c a result es resolved s
  | Err e => (s, Err (fail_with c e es resolved))
  end.

Definition dispatch_host_connector_command (app : Application) (c : HostConnectorAppCommand)
    : Eff DispatchState HostConnectorFailure HostConnectorDispatch := fun s =>
  let es := push_event [] (accepted_event c) in
  match authorize_command app (idempotency s) c es with
  | Err f => (s, Err f)
  | Ok (Replay d) => (s, Ok d)
  | Ok (Ready a) => invoke_authorized c a es s
  end.
End dispatch.
