(* ===== verification/HostConnectorProps.v ===== *)
(** * Host connector dispatch: properties

    What a dispatch does, by cases on what the application permits ([dispatched]), and
    what the replay store makes of a sequence of commands. *)
From S2P Require Import Prelude Effect Json Serde Contract HostConnector.

(** ** What the application permits *)

(** The element [x] is the only one of the list with [P]. *)
Definition only {A} (P : A -> Prop) (l : list A) (x : A) : Prop :=
  exists before after, l = before ++ x :: after /\ P x /\ Forall (fun y => ~ P y) (before ++ after).

Lemma filter_none {A} (P : A -> Prop) `{!forall x, Decision (P x)} (l : list A) :
  List.filter (fun x => bool_decide (P x)) l = [] <-> Forall (fun y => ~ P y) l.
Proof.
  induction l as [|a l IH]; cbn; [by split|]. case_bool_decide; rewrite Forall_cons; [naive_solver|]. rewrite IH. tauto.
Qed.

Lemma filter_only {A} (P : A -> Prop) `{!forall x, Decision (P x)} (l : list A) (x : A) :
  List.filter (fun x => bool_decide (P x)) l = [x] <-> only P l x.
Proof.
  induction l as [|a l IH]; cbn.
  - split; [done|]. intros (before & after & Hl & _). by destruct before.
  - case_bool_decide as Ha.
    + split.
      * intros [= -> Hl]. exists [], l. split_and!; [done|done|]. cbn. by apply (filter_none P).
      * intros ([|b before] & after & [= -> ->] & Hx & Hall).
        { cbn in Hall. f_equal. by apply (filter_none P). }
        cbn in Hall. apply Forall_cons in Hall. tauto.
    + rewrite IH. split.
      * intros (before & after & -> & Hx & Hall). exists (a :: before), after. split_and!; [done|done|].
        cbn. by constructor.
      * intros ([|b before] & after & [= -> ->] & Hx & Hall); [done|]. exists before, after. split_and!; [done|done|].
        by apply Forall_cons in Hall as [_ ?].
Qed.

Lemma only_unique {A} (P : A -> Prop) `{!forall x, Decision (P x)} (l : list A) (x y : A) :
  only P l x -> only P l y -> x = y.
Proof. rewrite <-!(filter_only P). congruence. Qed.

Definition well_formed_command `{SerdeJson} (c : HostConnectorAppCommand) : Prop :=
  command_kind c = COMMAND_KIND /\ command_schema_version c = SCHEMA_VERSION /\
  (forall text, text ∈ [command c; command_id c; correlation_id c; idempotency_key c; target_family c] ->
    trim text <> "") /\
  length (to_vec (payload c)) <= MAX_PAYLOAD_BYTES.

Definition supported (r : HostConnectorCommandRoute) : Prop :=
  (route_connector_id r, operation r) ∈
    [(AUDIO_INPUT_CONNECTOR, AUDIO_CAPTURE_OPERATION); (AUDIO_INPUT_CONNECTOR, AUDIO_PERMISSION_REQUEST_OPERATION);
     (MODEL_RUNTIME_CONNECTOR, MODEL_EXECUTE_OPERATION)].

Definition configured (b : HostConnectorBinding) : Prop :=
  trim (binding_id b) <> "" /\ trim (config_ref b) <> "" /\ trim (version b) <> "".

(** A binding claims a target family by name, and with [local] also [macos]. *)
Definition claims (b : HostConnectorBinding) (family : string) : Prop :=
  family ∈ placement_targets b \/ "local" ∈ placement_targets b /\ family = "macos".

Definition limit_between (low high : N) (key : string) (members : list (string * Value)) : Prop :=
  exists n, member key members = Some (Num (PosInt n)) /\ (low <= n <= high)%N.

Definition text_member (members : list (string * Value)) (key : string) : Prop :=
  exists s, member key members = Some (Str s).

(** The payload an operation takes. *)
Definition payload_allowed (op : string) (v : Value) : Prop := exists members, v = Object members /\
  (op = AUDIO_PERMISSION_REQUEST_OPERATION -> members = []) /\
  (op = AUDIO_CAPTURE_OPERATION ->
    limit_between 1 MAX_DURATION_MS "max_duration_ms" members /\ limit_between 1 MAX_AUDIO_BYTES "max_bytes" members) /\
  (op = MODEL_EXECUTE_OPERATION ->
    limit_between 1 MAX_MODEL_OUTPUT_BYTES "max_output_bytes" members /\
    (exists model_ref, member "model_ref" members = Some (Object model_ref) /\
      Forall (text_member model_ref) ["model_id"; "version"; "digest"]) /\
    Forall (text_member members)
      ["input_ref"; "policy_ref"; "data_classification"; "input_schema_ref"; "input_schema_version"] /\
    Forall (fun key => member key members = None) ["provider"; "model_id"; "endpoint"; "credential"; "artifact_ref"]).

(** The command is well formed, routed to one supported operation whose connector has one
    configured and activated binding that claims the target, and its payload is allowed. *)
Record permitted `{SerdeJson} (app : Application) (c : HostConnectorAppCommand) (r : HostConnectorCommandRoute)
    (b : HostConnectorBinding) : Prop := {
  permitted_command : well_formed_command c;
  permitted_route : only (fun r => route_command r = command c) (command_routes (manifest app)) r;
  permitted_operation : supported r;
  permitted_binding : only (fun b => connector_id b = route_connector_id r) (connector_bindings (manifest app)) b;
  permitted_configuration : configured b;
  permitted_activation : binding_id b ∈ activated_binding_ids (activations app);
  permitted_target : claims b (target_family c);
  permitted_payload : payload_allowed (operation r) (payload c) }.

(** ** The checks decide it *)

Lemma not_blank s : negb (is_blank s) = true <-> trim s <> "".
Proof. unfold is_blank. rewrite negb_true_iff, bool_decide_eq_false. done. Qed.

Lemma envelope_iff `{SerdeJson} c : validate_command_envelope c = Ok tt <-> well_formed_command c.
Proof.
  unfold validate_command_envelope, well_formed_command, payload_bytes. rewrite !ensure_then, ensure_ok_inv.
  rewrite !negb_orb, !andb_true_iff, !bool_decide_eq_true, !not_blank, Nat.leb_le.
  rewrite <- Forall_forall, !Forall_cons, Forall_nil. naive_solver.
Qed.

Lemma supported_iff r : supported_operation r = true <-> supported r.
Proof.
  unfold supported_operation, supported. rewrite orb_true_iff, !andb_true_iff, orb_true_iff, !bool_decide_eq_true.
  rewrite !elem_of_cons, elem_of_nil, !pair_equal_spec. tauto.
Qed.

Lemma route_iff m name r : resolve_route m name = Ok r <->
  only (fun r => route_command r = name) (command_routes m) r /\ supported r.
Proof.
  unfold resolve_route. rewrite <-(filter_only (fun r => route_command r = name)), <-supported_iff.
  destruct (List.filter _ _) as [|a [|? ?]]; [by split; [|intros [? ?]]| |by split; [|intros [? ?]]].
  destruct (supported_operation a) eqn:Ha; split; [by intros [= ->]|by intros [[= ->] _]|done|].
  intros [[= ->] ?]. congruence.
Qed.

Lemma binding_iff m id b : resolve_binding m id = Ok b <->
  only (fun b => connector_id b = id) (connector_bindings m) b /\ configured b.
Proof.
  unfold resolve_binding, configured. rewrite <-(filter_only (fun b => connector_id b = id)), <-!not_blank.
  destruct (List.filter _ _) as [|a [|? ?]]; [by split; [|intros [? ?]]| |by split; [|intros [? ?]]].
  rewrite !ensure_then. split; [by intros (? & ? & ? & [= ->])|by intros ([= ->] & ? & ? & ?)].
Qed.

Lemma target_iff b family : confirm_target b family = Ok tt <-> claims b family.
Proof.
  unfold confirm_target, claims. rewrite ensure_then, ensure_ok_inv.
  rewrite negb_true_iff, bool_decide_eq_false, existsb_exists. unfold claims_target.
  setoid_rewrite orb_true_iff. setoid_rewrite andb_true_iff. setoid_rewrite orb_true_iff.
  setoid_rewrite bool_decide_eq_true. setoid_rewrite <- list_elem_of_In. split.
  - intros (_ & x & Hx & [->|[-> [->| ->]]]); tauto.
  - intros [Hin|[Hin ->]]; (split; [intros Hnil; rewrite Hnil in Hin; by apply elem_of_nil in Hin|]); eauto 6.
Qed.

Lemma required_u64_iff members key n : required_u64 members key = Ok n <-> member key members = Some (Num (PosInt n)).
Proof.
  unfold required_u64. destruct (member key members) as [[]|]; try naive_solver.
  rewrite ok_or_ok_inv. destruct n0; naive_solver.
Qed.

Lemma has_str_iff key members : has_str key members = true <-> text_member members key.
Proof. unfold has_str, text_member. destruct (member key members) as [[]|]; naive_solver. Qed.

Lemma within_iff n high : negb ((n =? 0) || (high <? n))%N = true <-> (1 <= n <= high)%N.
Proof. rewrite negb_true_iff, orb_false_iff, N.eqb_neq, N.ltb_ge. lia. Qed.

Lemma capture_iff members : confirm_capture members = Ok tt <->
  limit_between 1 MAX_DURATION_MS "max_duration_ms" members /\ limit_between 1 MAX_AUDIO_BYTES "max_bytes" members.
Proof.
  unfold confirm_capture, limit_between. rewrite bind_ok_inv. setoid_rewrite bind_ok_inv.
  setoid_rewrite required_u64_iff. setoid_rewrite ensure_ok_inv.
  assert (forall d n, negb ((d =? 0) || (MAX_DURATION_MS <? d) || (n =? 0) || (MAX_AUDIO_BYTES <? n))%N = true <->
    (1 <= d <= MAX_DURATION_MS)%N /\ (1 <= n <= MAX_AUDIO_BYTES)%N) as Hb.
  { intros d n. rewrite <-!orb_assoc, orb_assoc, negb_orb, andb_true_iff, !within_iff. done. }
  setoid_rewrite Hb. naive_solver.
Qed.

Lemma model_ref_iff members : model_ref_ok members = true <->
  exists model_ref, member "model_ref" members = Some (Object model_ref) /\
    Forall (text_member model_ref) ["model_id"; "version"; "digest"].
Proof.
  unfold model_ref_ok. destruct (member "model_ref" members) as [[]|]; cbn;
    try (split; [done|by intros (? & [=] & _)]).
  rewrite !andb_true_iff, !has_str_iff. split.
  - intros [[? ?] ?]. eexists. split; [done|]. by repeat constructor.
  - intros (? & [= ->] & Hall). rewrite !Forall_cons in Hall. tauto.
Qed.

Lemma no_keys_iff keys members : negb (existsb (fun key => contains_key key members) keys) = true <->
  Forall (fun key => member key members = None) keys.
Proof.
  induction keys as [|k keys IH]; cbn; [by split|]. rewrite negb_orb, andb_true_iff, IH, Forall_cons.
  unfold contains_key. destruct (member k members); naive_solver.
Qed.

Lemma model_execute_iff members : confirm_model_execute members = Ok tt <->
  limit_between 1 MAX_MODEL_OUTPUT_BYTES "max_output_bytes" members /\
  (exists model_ref, member "model_ref" members = Some (Object model_ref) /\
    Forall (text_member model_ref) ["model_id"; "version"; "digest"]) /\
  Forall (text_member members)
    ["input_ref"; "policy_ref"; "data_classification"; "input_schema_ref"; "input_schema_version"] /\
  Forall (fun key => member key members = None) ["provider"; "model_id"; "endpoint"; "credential"; "artifact_ref"].
Proof.
  unfold confirm_model_execute, limit_between. rewrite <-no_keys_iff, <-model_ref_iff.
  rewrite bind_ok_inv, !Forall_cons, Forall_nil, <-!has_str_iff. setoid_rewrite required_u64_iff. split.
  - intros (n & Hn & Hc). rewrite !ensure_then, ensure_ok_inv, within_iff, !andb_true_iff in Hc.
    split; [exists n; tauto|tauto].
  - intros ((n & Hn & Hb) & Hc). exists n. split; [done|].
    rewrite !ensure_then, ensure_ok_inv, within_iff, !andb_true_iff. tauto.
Qed.

Lemma payload_iff r v : supported r -> confirm_operation_payload r v = Ok tt <-> payload_allowed (operation r) v.
Proof.
  intros Hs. unfold confirm_operation_payload, payload_allowed.
  destruct (as_object v) as [members|] eqn:Hmem; cycle 1.
  { split; [done|]. by intros (members & -> & _). }
  destruct v; try discriminate. injection Hmem as ->.
  unfold supported in Hs. rewrite !elem_of_cons, elem_of_nil in Hs.
  destruct Hs as [[= _ ->]|[[= _ ->]|[[= _ ->]|[]]]]; repeat first [rewrite decide_False by done | rewrite decide_True by done].
  - rewrite capture_iff. split; [intros Hc; exists members; by split_and!|]. intros (? & [= ->] & _ & Hc & _). auto.
  - rewrite ensure_ok_inv, bool_decide_eq_true. split.
    + intros ->%nil_length_inv. exists []. by split_and!.
    + intros (? & [= ->] & Hc & _). by rewrite Hc.
  - rewrite model_execute_iff. split; [intros Hc; exists members; by split_and!|]. intros (? & [= ->] & _ & _ & Hc). auto.
Qed.

Lemma activated_iff s id : is_activated s id = true <-> id ∈ activated_binding_ids s.
Proof. apply bool_decide_eq_true. Qed.

(** ** One dispatch *)

Section dispatch_props.
Context `{SerdeJson, HostConnectorPort}.

Definition refs_of (r : HostConnectorCommandRoute) (b : HostConnectorBinding) : option ResolvedRefs :=
  Some (from_binding b (operation r)).

Definition ready (c : HostConnectorAppCommand) (r : HostConnectorCommandRoute) (b : HostConnectorBinding)
    : AuthorizedCommand := {| binding := b; route := r; fingerprint := fingerprint_of c r |}.

(** What a result of the host publishes: a permission state that grants or asks, or an
    artifact reference that is not blank and names no host resource. *)
Inductive published (op : string) (res : HostConnectorHostResult)
    : option string -> option HostConnectorPermissionState -> option ModelRightsRecord -> option PlacementEvidence -> Prop :=
  | published_permission p : op = AUDIO_PERMISSION_REQUEST_OPERATION -> result_permission_state res = Some p ->
      p = Granted \/ p = PromptRequired -> published op res None (Some p) None None
  | published_artifact ref : op <> AUDIO_PERMISSION_REQUEST_OPERATION -> result_artifact_ref res = Some ref ->
      trim ref <> "" -> looks_leaky ref = false ->
      published op res (Some ref) None (result_model_evidence res) (result_placement_evidence res).

(** A failure document: its error, the events so far with one that names the code, and
    the references that were resolved. *)
Definition reports (c : HostConnectorAppCommand) (names : list string) (f : HostConnectorFailure) : Prop :=
  exists e refs before, f = fail_with c e before refs /\
    event <$> events (failure_dispatch f) = names ++ [result_class_of (code e)].

Inductive dispatched (app : Application) (c : HostConnectorAppCommand) (s : DispatchState)
    : DispatchState -> Result HostConnectorFailure HostConnectorDispatch -> Prop :=
  | refused f : (forall r b, ~ permitted app c r b) -> reports c ["accepted"] f -> dispatched app c s s (Err f)
  | conflicting r b entry f : permitted app c r b -> idempotency s !! idempotency_key c = Some entry ->
      entry_fingerprint entry <> fingerprint_of c r -> code (failure_error f) = IdempotencyConflict ->
      reports c ["accepted"] f -> dispatched app c s s (Err f)
  | replayed r b entry : permitted app c r b -> idempotency s !! idempotency_key c = Some entry ->
      entry_fingerprint entry = fingerprint_of c r -> dispatched app c s s (Ok (entry_result entry))
  | cancelled r b f : permitted app c r b -> idempotency s !! idempotency_key c = None ->
      cancel_requested c = true -> code (failure_error f) = Cancelled ->
      reports c ["accepted"] f -> dispatched app c s s (Err f)
  | failed r b h e f : permitted app c r b -> idempotency s !! idempotency_key c = None ->
      cancel_requested c = false -> invoke (host_request c (ready c r b)) (host s) = (h, Err e) ->
      failure_error f = e -> reports c ["accepted"; "started"] f ->
      dispatched app c s {| idempotency := idempotency s; host := h |} (Err f)
  | withheld r b h res f : permitted app c r b -> idempotency s !! idempotency_key c = None ->
      cancel_requested c = false -> invoke (host_request c (ready c r b)) (host s) = (h, Ok res) ->
      (forall a p m l, ~ published (operation r) res a p m l) -> reports c ["accepted"; "started"] f ->
      dispatched app c s {| idempotency := idempotency s; host := h |} (Err f)
  | completed r b h res a p m l es d : permitted app c r b -> idempotency s !! idempotency_key c = None ->
      cancel_requested c = false -> invoke (host_request c (ready c r b)) (host s) = (h, Ok res) ->
      published (operation r) res a p m l -> event <$> es = ["accepted"; "started"; "completed"] ->
      d = success_dispatch c b r a p m l es ->
      dispatched app c s
        {| idempotency := <[idempotency_key c := {| entry_fingerprint := fingerprint_of c r; entry_result := d |}]>
             (idempotency s); host := h |} (Ok d).


Lemma map_err_err {E E' T} (f : E -> E') (r : Result E T) e : map_err f r = Err e -> exists e', r = Err e' /\ e = f e'.
Proof. destruct r; cbn; naive_solver. Qed.

Lemma fail_reports c e es refs names : event <$> es = names -> (length es <? MAX_EVENTS)%nat = true ->
  reports c names (fail_with c e es refs).
Proof.
  intros <- Hlen%Nat.ltb_lt. exists e, refs, es. split; [done|]. cbn. unfold push_event. rewrite decide_False by lia.
  by rewrite fmap_app.
Qed.

Lemma permitted_checks app c r b : permitted app c r b -> validate_command_envelope c = Ok tt /\
  resolve_route (manifest app) (command c) = Ok r /\ resolve_binding (manifest app) (route_connector_id r) = Ok b /\
  is_activated (activations app) (binding_id b) = true /\ confirm_target b (target_family c) = Ok tt /\
  confirm_operation_payload r (payload c) = Ok tt.
Proof.
  intros []. split_and!; [by apply envelope_iff|by apply route_iff|by apply binding_iff|by apply activated_iff|
    by apply target_iff|by apply payload_iff].
Qed.

(** The checks before the replay store pass exactly for a permitted command. *)
Lemma authorize_permitted app store c es r b : permitted app c r b ->
  authorize_command app store c es =
  match store !! idempotency_key c with
  | Some entry =>
      if decide (entry_fingerprint entry = fingerprint_of c r) then Ok (Replay (entry_result entry))
      else Err (fail_code c IdempotencyConflict "idempotency key was reused with a different command payload" es (refs_of r b))
  | None =>
      if cancel_requested c then Err (fail_code c Cancelled "command was cancelled before host invoke" es (refs_of r b))
      else Ok (Ready (ready c r b))
  end.
Proof.
  intros (Hc & Hr & Hb & Ha & Ht & Hp)%permitted_checks. unfold authorize_command. rewrite Hc, Hr. cbn [map_err mbind Result_bind].
  rewrite Hb. cbn [map_err mbind Result_bind]. rewrite Ha, Ht. cbn [ensure map_err mbind Result_bind].
  rewrite Hp. cbn [map_err mbind Result_bind]. by destruct (store !! _), (cancel_requested c).
Qed.

Lemma authorize_refused app store c es : (exists r b, permitted app c r b) \/
  (forall r b, ~ permitted app c r b) /\ exists e refs, authorize_command app store c es = Err (fail_with c e es refs).
Proof.
  unfold authorize_command.
  destruct (validate_command_envelope c) as [[]|] eqn:Hc; cbn [map_err mbind Result_bind]; [|right; split; [intros r' b' (?&?&?&?&?&?)%permitted_checks; congruence|unfold fail_code; eauto]].
  destruct (resolve_route _ _) as [r|] eqn:Hr; cbn [map_err mbind Result_bind]; [|right; split; [intros r' b' (?&?&?&?&?&?)%permitted_checks; congruence|unfold fail_code; eauto]].
  destruct (resolve_binding _ _) as [b|] eqn:Hb; cbn [map_err mbind Result_bind]; [|right; split; [intros r' b' (?&?&?&?&?&?)%permitted_checks; congruence|unfold fail_code; eauto]].
  destruct (is_activated _ _) eqn:Ha; cbn [ensure map_err mbind Result_bind]; [|right; split; [intros r' b' (?&?&?&?&?&?)%permitted_checks; congruence|unfold fail_code; eauto]].
  destruct (confirm_target _ _) as [[]|] eqn:Ht; cbn [map_err mbind Result_bind]; [|right; split; [intros r' b' (?&?&?&?&?&?)%permitted_checks; congruence|unfold fail_code; eauto]].
  destruct (confirm_operation_payload _ _) as [[]|] eqn:Hp; cbn [map_err mbind Result_bind]; [|right; split; [intros r' b' (?&?&?&?&?&?)%permitted_checks; congruence|unfold fail_code; eauto]].
  left. exists r, b. apply route_iff in Hr as [Hr Hs]. apply binding_iff in Hb as [Hb Hconf].
  split; [by apply envelope_iff|done|done|done|done|by apply activated_iff|by apply target_iff|by apply payload_iff].
Qed.

(** The host is called only for a permitted command, at most once, and what it returned
    is withheld or published and remembered. *)
Lemma invoke_authorized_dispatched app c s r b s' res :
  permitted app c r b -> idempotency s !! idempotency_key c = None -> cancel_requested c = false ->
  invoke_authorized c (ready c r b) [accepted_event c] s = (s', res) -> dispatched app c s s' res.
Proof.
  intros Hp Hnone Hcan. unfold invoke_authorized. destruct (invoke _ _) as [h [result|e]] eqn:Hinv; cycle 1.
  { intros [= <- <-]. eapply failed; [done..|by apply fail_reports]. }
  cbn [binding route ready].
  assert (Hout : forall k m, (forall a p m l, ~ published (operation r) result a p m l) ->
    dispatched app c s {| idempotency := idempotency s; host := h |}
      (Err (fail_code c k m (push_event [accepted_event c] (started_event c (ready c r b))) (refs_of r b)))).
  { intros k m Hno. eapply withheld; [done..|by apply fail_reports]. }
  unfold complete_host_success, complete_permission_success, remember. cbn [binding route ready idempotency host].
  case_decide as Hop.
  - destruct (result_permission_state result) as [[]|] eqn:Hst; intros [= <- <-];
      try (apply Hout; intros a p m l Hpub; inversion Hpub; subst; naive_solver);
      (eapply completed; [done..|eapply published_permission; eauto| |done]; done).
  - destruct (result_artifact_ref result) as [ref|] eqn:Href; cycle 1.
    { intros [= <- <-]. apply Hout. intros a p m l Hpub; inversion Hpub; subst; naive_solver. }
    destruct (is_blank ref) eqn:Hblank.
    { intros [= <- <-]. apply Hout. unfold is_blank in Hblank. to_props.
      intros a p m l Hpub; inversion Hpub; subst; naive_solver. }
    destruct (looks_leaky ref) eqn:Hleak; intros [= <- <-].
    { apply Hout. intros a p m l Hpub; inversion Hpub; subst; naive_solver congruence. }
    unfold is_blank in Hblank. to_props. eapply completed; [done..|by eapply published_artifact| |done]; done.
Qed.

Lemma dispatch_dispatched app c s s' r :
  dispatch_host_connector_command app c s = (s', r) -> dispatched app c s s' r.
Proof.
  unfold dispatch_host_connector_command. change (push_event [] (accepted_event c)) with [accepted_event c].
  destruct (authorize_refused app (idempotency s) c [accepted_event c]) as [(ro & b & Hp)|(Hno & e & refs & ->)].
  - rewrite (authorize_permitted _ _ _ _ _ _ Hp). destruct (idempotency s !! _) as [entry|] eqn:Hent.
    + case_decide as Hfp; intros [= <- <-]; [by eapply replayed|]. eapply conflicting; [done..|by apply fail_reports].
    + destruct (cancel_requested c) eqn:Hcan.
      * intros [= <- <-]. eapply cancelled; [done..|by apply fail_reports].
      * by apply invoke_authorized_dispatched.
  - intros [= <- <-]. apply refused; [done|by apply fail_reports].
Qed.

(** ** Sequences of dispatches *)

(** Each command with the state before it, the state after it and its result. *)
Fixpoint dispatches (s : DispatchState) (commands : list (Application * HostConnectorAppCommand))
    : list (HostConnectorAppCommand * DispatchState * DispatchState * Result HostConnectorFailure HostConnectorDispatch) :=
  match commands with
  | [] => []
  | (app, c) :: rest =>
      let '(s', r) := dispatch_host_connector_command app c s in (c, s, s', r) :: dispatches s' rest
  end.

(** What is remembered stays. *)
Lemma remembered_stays app c s s' r key entry :
  dispatched app c s s' r -> idempotency s !! key = Some entry -> idempotency s' !! key = Some entry.
Proof.
  intros Hd Hkey. destruct Hd; try done. cbn. rewrite lookup_insert_ne; [done|]. congruence.
Qed.

(** A successful dispatch leaves its document under the key. *)
Lemma success_remembered app c s s' d : dispatched app c s s' (Ok d) -> exists r b entry,
  permitted app c r b /\ idempotency s' !! idempotency_key c = Some entry /\ entry_result entry = d /\
  entry_fingerprint entry = fingerprint_of c r.
Proof.
  inversion 1; subst; [by eauto 10|]. eexists _, _, _. split; [done|]. cbn. by rewrite lookup_insert_eq.
Qed.

(** A success under a remembered key is the remembered document and changes nothing. *)
Lemma remembered_success app c s s' d entry : dispatched app c s s' (Ok d) ->
  idempotency s !! idempotency_key c = Some entry -> s' = s /\ d = entry_result entry /\
  exists r b, permitted app c r b /\ entry_fingerprint entry = fingerprint_of c r.
Proof. inversion 1; subst; intros Hk; simplify_eq; eauto 6. Qed.

Lemma dispatches_remember commands : forall s key entry j c sj sj' rj,
  idempotency s !! key = Some entry -> dispatches s commands !! j = Some (c, sj, sj', rj) ->
  idempotency sj !! key = Some entry.
Proof.
  induction commands as [|[app c'] rest IH]; intros s key entry j c sj sj' rj Hk; cbn; [done|].
  destruct (dispatch_host_connector_command app c' s) as [s1 r1] eqn:Hd. apply dispatch_dispatched in Hd.
  destruct j; cbn; [by intros [= _ <- _ _]|]. apply IH. by eapply remembered_stays.
Qed.

Lemma dispatches_step commands : forall s j c sj sj' rj, dispatches s commands !! j = Some (c, sj, sj', rj) ->
  exists app, (app, c) ∈ commands /\ dispatched app c sj sj' rj.
Proof.
  induction commands as [|[app c'] rest IH]; intros s j c sj sj' rj; cbn; [done|].
  destruct (dispatch_host_connector_command app c' s) as [s1 r1] eqn:Hd. apply dispatch_dispatched in Hd.
  destruct j; cbn; [intros [= <- <- <- <-]; exists app; split; [left|done]|].
  intros (app' & ? & ?)%IH. exists app'. split; [by right|done].
Qed.

Lemma dispatches_after commands : forall s i j ci si si' ri c sj sj' rj key entry, i < j ->
  dispatches s commands !! i = Some (ci, si, si', ri) -> dispatches s commands !! j = Some (c, sj, sj', rj) ->
  idempotency si' !! key = Some entry -> idempotency sj !! key = Some entry.
Proof.
  induction commands as [|[app c'] rest IH]; intros s i j ci si si' ri c sj sj' rj key entry Hij; cbn; [done|].
  destruct (dispatch_host_connector_command app c' s) as [s1 r1] eqn:Hd.
  destruct i, j; cbn; [lia| |lia|].
  - intros [= <- <- <- <-] Hj Hk. by eapply dispatches_remember.
  - intros Hi Hj Hk. by apply (IH s1 i j ci si si' ri c sj sj' rj key entry); [lia|..].
Qed.

(** What the fingerprint covers. *)
Lemma fingerprint_value_eq c r : fingerprint_value c r =
  Object [("command", Str (command c)); ("connector_id", Str (route_connector_id r)); ("operation", Str (operation r));
    ("payload", payload c); ("target_family", Str (target_family c))].
Proof. reflexivity. Qed.

(** The texts of a command are UTF-8 and its payload is a value [serde_json] can parse. *)
Definition representable_command (c : HostConnectorAppCommand) : Prop :=
  valid_string (command c) = true /\ valid_string (target_family c) = true /\
  representable (payload c) = true /\ nesting (payload c) < MAX_NESTING.

Lemma fingerprint_injective `{!SerdeLaws} c r c' r' : supported r -> supported r' ->
  representable_command c -> representable_command c' -> fingerprint_of c r = fingerprint_of c' r' ->
  command c = command c' /\ route_connector_id r = route_connector_id r' /\ operation r = operation r' /\
  target_family c = target_family c' /\ payload c = payload c'.
Proof.
  assert (Hrep : forall c r, supported r -> representable_command c ->
    parse_syntax (to_vec (fingerprint_value c r)) = Ok (fingerprint_value c r)).
  { intros k q Hq (Hv1 & Hv2 & Hv3 & Hv4). apply parse_print; rewrite fingerprint_value_eq.
    - assert (valid_string (route_connector_id q) = true /\ valid_string (operation q) = true) as [Hc Ho].
      { unfold supported in Hq. rewrite !elem_of_cons, elem_of_nil in Hq.
        destruct Hq as [[= -> ->]|[[= -> ->]|[[= -> ->]|[]]]]; by vm_compute. }
      cbn [representable forallb fst snd]. rewrite Hv1, Hv2, Hv3, Hc, Ho. by vm_compute.
    - cbn [nesting foldr fst snd]. unfold MAX_NESTING in *. lia. }
  intros Hr Hr' Hc Hc' Hfp. apply (f_equal String.list_ascii_of_string) in Hfp. unfold fingerprint_of in Hfp.
  rewrite !String.list_ascii_of_string_of_list_ascii in Hfp. apply (f_equal parse_syntax) in Hfp.
  rewrite (Hrep _ _ Hr Hc), (Hrep _ _ Hr' Hc'), !fingerprint_value_eq in Hfp. by injection Hfp.
Qed.

(** C11: of all commands under one idempotency key at most one is completed by the host: in
    every sequence of dispatches, whatever the application, the host and the other commands
    do, a later success under the key of an earlier one is for the same command, target and
    payload, returns the earlier document and calls the host no more. *)
Theorem connector_key_once `{!SerdeLaws} s commands i j ci si si' di cj sj sj' dj :
  (forall app c, (app, c) ∈ commands -> representable_command c) -> i < j ->
  dispatches s commands !! i = Some (ci, si, si', Ok di) -> dispatches s commands !! j = Some (cj, sj, sj', Ok dj) ->
  idempotency_key ci = idempotency_key cj ->
  dj = di /\ sj' = sj /\ command cj = command ci /\ target_family cj = target_family ci /\ payload cj = payload ci.
Proof.
  intros Hrep Hij Hi Hj Hkey.
  destruct (dispatches_step _ _ _ _ _ _ _ Hi) as (app & Hin & Hd), (dispatches_step _ _ _ _ _ _ _ Hj) as (app' & Hin' & Hd').
  destruct (success_remembered _ _ _ _ _ Hd) as (r & b & entry & Hp & Hent & <- & Hfp).
  pose proof (dispatches_after _ _ _ _ _ _ _ _ _ _ _ _ _ _ Hij Hi Hj Hent) as Hent'. rewrite Hkey in Hent'.
  destruct (remembered_success _ _ _ _ _ _ Hd' Hent') as (-> & -> & r' & b' & Hp' & Hfp').
  destruct (fingerprint_injective cj r' ci r) as (? & _ & _ & ? & ?);
    [apply Hp'|apply Hp|by eapply Hrep|by eapply Hrep|congruence|done].
Qed.

(** C12: a dispatch does what the application permits: a command that is not permitted
    changes nothing; a permitted one is replayed, refused as conflicting, cancelled, or
    handed to the host exactly once, whose result is published only if it is opaque and
    then remembered; the document and its events report which. *)
Theorem connector_dispatch_exact app c s s' r :
  dispatch_host_connector_command app c s = (s', r) -> dispatched app c s s' r.
Proof. apply dispatch_dispatched. Qed.
End dispatch_props.
