(* ===== verification/GuestFrame.v ===== *)
(** * Guest frames

    The little-endian tensor frames of [traverse-runtime/src/exact_model.rs] that cross
    the boundary to a model guest: [encode_guest_frame], [decode_guest_frame] and
    [concat_guest_frames]. *)
From S2P Require Import Prelude Json HostConnector.
From Stdlib Require Import Ascii.

Definition MODEL_GUEST_ABI_VERSION : N := 1.

(** ** Little-endian integers *)

(** [to_le_bytes] of an integer of [width] bytes. *)
Fixpoint to_le (width : nat) (n : N) : Bytes :=
  match width with
  | 0 => []
  | S w => ascii_of_N (n mod 256) :: to_le w (n / 256)
  end.

(** [from_le_bytes] *)
Fixpoint from_le (b : Bytes) : N :=
  match b with
  | [] => 0
  | c :: rest => N_of_ascii c + 256 * from_le rest
  end.

Lemma to_le_length w n : length (to_le w n) = w.
Proof. revert n. induction w as [|w IH]; cbn; [done|]. intros n. by rewrite IH. Qed.

Lemma N_of_ascii_lt c : (N_of_ascii c < 256)%N.
Proof. apply N_ascii_bounded. Qed.

Lemma from_to_le w n : (n < 256 ^ N.of_nat w)%N -> from_le (to_le w n) = n.
Proof.
  revert n. induction w as [|w IH]; intros n Hn; cbn [to_le from_le].
  - cbn in Hn. lia.
  - rewrite Nat2N.inj_succ, N.pow_succ_r' in Hn.
    rewrite N_ascii_embedding by (apply N.mod_lt; lia).
    rewrite IH by (apply N.Div0.div_lt_upper_bound; lia). rewrite N.add_comm. symmetry. apply N.div_mod. lia.
Qed.

Lemma to_from_le b : to_le (length b) (from_le b) = b.
Proof.
  induction b as [|c b IH]; cbn [length to_le from_le]; [done|]. pose proof (N_of_ascii_lt c).
  rewrite (N.mul_comm 256), N.Div0.mod_add, N.mod_small by lia. rewrite N.div_add by lia.
  rewrite N.div_small by lia. rewrite N.add_0_l. by rewrite ascii_N_embedding, IH.
Qed.

Lemma le_u32 n : (n < 256 ^ N.of_nat 4)%N <-> (n <= u32_max)%N.
Proof. change (256 ^ N.of_nat 4)%N with 4294967296%N. unfold u32_max. lia. Qed.

Lemma from_le_lt b : (from_le b < 256 ^ N.of_nat (length b))%N.
Proof.
  induction b as [|c b IH]; cbn [length from_le]; [cbn; lia|]. pose proof (N_of_ascii_lt c).
  rewrite Nat2N.inj_succ, N.pow_succ_r'. lia.
Qed.

Lemma saturating_add_small a b : (a + b <= u64_max)%N -> saturating_add a b = (a + b)%N.
Proof. apply N.min_l. Qed.

(** ** Frames *)

(** [u8::try_from(dims.len()).unwrap_or(0)] *)
Definition frame_rank (dims : list N) : N :=
  let n := N.of_nat (length dims) in if (n <=? 255)%N then n else 0%N.

(** [u32::try_from(len).unwrap_or(u32::MAX)] *)
Definition u32_length {A} (l : list A) : N := N.min (N.of_nat (length l)) u32_max.

Definition encode_guest_frame (dtype : ascii) (dims : list N) (payload : Bytes) : Bytes :=
  to_le 2 MODEL_GUEST_ABI_VERSION ++ [dtype] ++ [ascii_of_N (frame_rank dims)]
  ++ (dims ≫= to_le 4) ++ to_le 4 (u32_length payload) ++ payload.

Definition concat_guest_frames (frames : list Bytes) : Bytes := mjoin frames.

(** The byte at an index that is in range. *)
Definition byte_at (b : Bytes) (i : nat) : ascii := default "000"%char (b !! i).

(** [u32::from_le_bytes] of the four bytes from an index. *)
Definition u32_at (b : Bytes) (i : nat) : N := from_le (take 4 (drop i b)).

Definition frame_truncated (m : string) : HostConnectorError := plain_error InvalidInput m.

Definition decode_guest_frame (b : Bytes) : Result HostConnectorError (ascii * list N * Bytes) :=
  _ ← ensure (8 <=? length b)%nat (frame_truncated "guest frame too short");
  _ ← ensure (from_le (take 2 b) =? MODEL_GUEST_ABI_VERSION)%N
        (plain_error ModelIncompatible "unsupported guest ABI version");
  let rank := N.to_nat (N_of_ascii (byte_at b 3)) in
  let header := 4 + rank * 4 + 4 in
  _ ← ensure (header <=? length b)%nat (frame_truncated "guest frame header truncated");
  let dims := (fun index => u32_at b (4 + index * 4)) <$> seq 0 rank in
  let payload_len := u32_at b (4 + rank * 4) in
  let payload_end := saturating_add (N.of_nat header) payload_len in
  _ ← ensure (payload_end <=? N.of_nat (length b))%N (frame_truncated "guest frame payload truncated");
  Ok (byte_at b 2, dims, drop header (take (N.to_nat payload_end) b)).

(** ** Round trip *)

(** What a frame can carry. *)
Definition frame_fits (dims : list N) (payload : Bytes) : Prop :=
  length dims <= 255 /\ Forall (fun d => d <= u32_max)%N dims /\ (N.of_nat (length payload) <= u32_max)%N.

Lemma dims_bytes_length dims : length (dims ≫= to_le 4) = length dims * 4.
Proof. induction dims as [|d dims IH]; cbn [mbind list_bind]; [done|]. rewrite length_app, to_le_length, IH. cbn. lia. Qed.

Lemma u32_at_app pre b i : u32_at (pre ++ b) (length pre + i) = u32_at b i.
Proof. unfold u32_at. by rewrite <-drop_drop, drop_app_length. Qed.

Lemma u32_at_le n rest : (n <= u32_max)%N -> u32_at (to_le 4 n ++ rest) 0 = n.
Proof.
  intros Hn. unfold u32_at. rewrite drop_0, take_app_length' by by rewrite to_le_length.
  by apply from_to_le, le_u32.
Qed.

(** Reading back consecutive [u32]s. *)
Lemma read_dims pre dims rest : Forall (fun d => d <= u32_max)%N dims ->
  (fun index => u32_at (pre ++ (dims ≫= to_le 4) ++ rest) (length pre + index * 4)) <$> seq 0 (length dims) = dims.
Proof.
  revert pre. induction dims as [|d dims IH]; intros pre Hd; [done|]. apply Forall_cons in Hd as [Hd Hdims].
  cbn [length seq]. rewrite fmap_cons. f_equal.
  - rewrite u32_at_app. cbn [mbind list_bind]. rewrite <-app_assoc. by apply u32_at_le.
  - rewrite <-fmap_S_seq, <-list_fmap_compose. etransitivity; [|apply (IH (pre ++ to_le 4 d) Hdims)].
    apply list_fmap_ext. intros _ index _. cbn [compose]. cbn [mbind list_bind].
    rewrite <-!app_assoc, length_app, to_le_length. f_equal. cbn. lia.
Qed.

(** A list of bytes of length [4 * n] is [n] integers. *)
Lemma write_dims n : forall b, length b = n * 4 ->
  exists dims, length dims = n /\ Forall (fun d => d <= u32_max)%N dims /\ b = dims ≫= to_le 4.
Proof.
  induction n as [|n IH]; intros b Hb.
  - exists []. destruct b; [done|discriminate].
  - destruct (IH (drop 4 b)) as (dims & Hlen & Hdims & Hdrop); [rewrite length_drop; lia|].
    assert (length (take 4 b) = 4) as H4 by (rewrite length_take; lia).
    exists (from_le (take 4 b) :: dims). split_and!; [cbn; lia| |].
    + constructor; [|done]. pose proof (from_le_lt (take 4 b)) as Hlt. rewrite H4 in Hlt. by apply le_u32.
    + cbn [mbind list_bind]. rewrite <-H4 at 1. rewrite to_from_le, <-Hdrop. by rewrite take_drop.
Qed.

Lemma decode_encode dtype dims payload rest : frame_fits dims payload ->
  decode_guest_frame (encode_guest_frame dtype dims payload ++ rest) = Ok (dtype, dims, payload).
Proof.
  intros (Hrank & Hdims & Hpay). set (n := length dims).
  set (tail := to_le 4 (u32_length payload) ++ payload ++ rest).
  set (pre := to_le 2 MODEL_GUEST_ABI_VERSION ++ [dtype] ++ [ascii_of_N (frame_rank dims)]).
  assert (Hpre : length pre = 4) by done.
  assert (Hb : encode_guest_frame dtype dims payload ++ rest = pre ++ (dims ≫= to_le 4) ++ tail).
  { unfold encode_guest_frame, pre, tail. by rewrite <-!app_assoc. }
  rewrite Hb. assert (Hlen : length (pre ++ (dims ≫= to_le 4) ++ tail) = 4 + n * 4 + 4 + length payload + length rest).
  { unfold tail. rewrite !length_app, Hpre, dims_bytes_length, to_le_length. fold n. lia. }
  unfold decode_guest_frame. rewrite Hlen. rewrite (proj2 (Nat.leb_le 8 _)) by lia. cbn [ensure mbind Result_bind].
  assert (N.to_nat (N_of_ascii (byte_at (pre ++ (dims ≫= to_le 4) ++ tail) 3)) = n) as ->.
  { unfold byte_at. cbn. unfold frame_rank. fold n. rewrite (proj2 (N.leb_le _ _)) by lia.
    rewrite N_ascii_embedding by lia. lia. }
  change (from_le (take 2 (pre ++ _)))%N with MODEL_GUEST_ABI_VERSION. rewrite N.eqb_refl. cbn [ensure mbind Result_bind].
  rewrite (proj2 (Nat.leb_le _ _)) by lia. cbn [ensure mbind Result_bind].
  assert (u32_at (pre ++ (dims ≫= to_le 4) ++ tail) (4 + n * 4) = N.of_nat (length payload)) as ->.
  { change (4 + n * 4) with (length pre + n * 4). rewrite u32_at_app. replace (n * 4) with (length (dims ≫= to_le 4) + 0) by (rewrite dims_bytes_length; lia).
    rewrite u32_at_app. unfold tail, u32_length. rewrite u32_at_le by lia. lia. }
  unfold saturating_add, u64_max. unfold u32_max in Hpay. rewrite N.min_l by lia.
  rewrite (proj2 (N.leb_le _ _)) by lia. cbn [ensure mbind Result_bind].
  pose proof (read_dims pre dims tail Hdims) as Hread. rewrite Hpre in Hread. fold n in Hread. rewrite Hread.
  change (byte_at (pre ++ _) 2) with dtype. do 2 f_equal.
  replace (N.to_nat (N.of_nat (4 + n * 4 + 4) + N.of_nat (length payload))) with (4 + n * 4 + 4 + length payload) by lia.
  unfold tail. rewrite !app_assoc.
  rewrite take_app_length' by (rewrite !length_app, Hpre, dims_bytes_length, to_le_length; fold n; lia).
  by rewrite drop_app_length' by (rewrite !length_app, Hpre, dims_bytes_length, to_le_length; fold n; lia).
Qed.

(** A buffer that decodes is a frame with a rest. *)
Lemma decodable_frame b v : decode_guest_frame b = Ok v ->
  exists dtype dims payload rest, frame_fits dims payload /\ b = encode_guest_frame dtype dims payload ++ rest.
Proof.
  unfold decode_guest_frame. rewrite !ensure_then. intros (Hlen & Habi & Hhdr & Hend & _).
  apply Nat.leb_le in Hlen, Hhdr. apply N.eqb_eq in Habi. apply N.leb_le in Hend.
  destruct b as [|a0 [|a1 [|t [|k b]]]]; try (cbn in Hlen; lia). assert (byte_at (a0 :: a1 :: t :: k :: b) 3 = k) as Hk by done. rewrite Hk in Hhdr, Hend.
  remember (N.to_nat (N_of_ascii k)) as r eqn:Hr. pose proof (N_of_ascii_lt k) as Hk256. cbn [length] in Hhdr, Hend.
  assert ([a0; a1] = to_le 2 MODEL_GUEST_ABI_VERSION) as Hv.
  { rewrite <-Habi. change (take 2 _) with [a0; a1]. symmetry. apply (to_from_le [a0; a1]). }
  destruct (write_dims r (take (r * 4) b)) as (dims & Hdims & Hall & Htake); [rewrite length_take; lia|].
  set (l4 := take 4 (drop (r * 4) b)). assert (length l4 = 4) as H4.
  { unfold l4. rewrite length_take, length_drop. lia. }
  assert (u32_at (a0 :: a1 :: t :: k :: b) (4 + r * 4) = from_le l4) as Hu by done. rewrite Hu in Hend. pose proof (from_le_lt l4) as Hlt. rewrite H4, le_u32 in Hlt.
  rewrite saturating_add_small in Hend by (unfold u64_max; unfold u32_max in Hlt; lia).
  set (body := drop (r * 4 + 4) b). set (p := take (N.to_nat (from_le l4)) body).
  assert (length p = N.to_nat (from_le l4)) as Hp.
  { unfold p, body. rewrite length_take, length_drop. lia. }
  exists t, dims, p, (drop (N.to_nat (from_le l4)) body). split.
  - split_and!; [lia|done|by rewrite Hp, N2Nat.id].
  - unfold encode_guest_frame, frame_rank, u32_length. rewrite <-Hv, Hdims, Hp, (proj2 (N.leb_le _ _)) by lia.
    replace (N.of_nat r) with (N_of_ascii k) by lia. rewrite ascii_N_embedding, N2Nat.id.
    rewrite (N.min_l _ _ Hlt). pose proof (to_from_le l4) as Hl4. rewrite H4 in Hl4. rewrite Hl4, <-Htake.
    cbn. do 4 f_equal. rewrite <-!app_assoc. unfold p. rewrite take_drop. unfold l4, body.
    by rewrite <-drop_drop, take_drop, take_drop.
Qed.

(** Guest frames and bytes correspond exactly: a buffer decodes to a type, dimensions
    and a payload if and only if it starts with the encoding of these, at most 255
    dimensions and lengths of 32 bits; anything shorter or of another version is refused. *)
Theorem guest_frame_roundtrip b dtype dims payload :
  decode_guest_frame b = Ok (dtype, dims, payload) <->
  frame_fits dims payload /\ exists rest, b = encode_guest_frame dtype dims payload ++ rest.
Proof.
  split; [|intros [Hfit [rest ->]]; by apply decode_encode].
  intros Hd. destruct (decodable_frame _ _ Hd) as (t & ds & p & rest & Hfit & ->).
  rewrite decode_encode in Hd by done. injection Hd as <- <- <-. eauto.
Qed.
