(* ===== verification/ModelPackage.v ===== *)
(** * Model packages

    [traverse-runtime/src/exact_model.rs]: the manifest of a model package with its rules,
    pins, signatures by host-trusted keys, the usage policy and the host's package status,
    and the ceilings of the host.  SHA-256 and Ed25519 are those of [Security.Trust]. *)
From S2P Require Import Prelude Json Pointer Security Contract HostConnector GuestFrame.
From Stdlib Require Import SpecFloat Ascii.

(** ** Constants *)

Definition MAX_MODEL_ABI_VERSION : N := 3.
Definition MODEL_GUEST_ABI_PREPARED : N := 3.
Definition MODEL_PACKAGE_SCHEMA_VERSION : string := "2.0.0".
Definition MODEL_PACKAGE_SCHEMA_VERSION_DERIVATION : string := "2.1.0".
Definition MODEL_PACKAGE_SCHEMA_VERSION_PREPARED : string := "2.2.0".
Definition MODEL_PACKAGE_SCHEMA_VERSION_SCORED : string := "2.3.0".
Definition ADAPTER_COREML : string := "coreml".
Definition COREML_VARIANT_FORMAT : string := "mlpackage-zip".
Definition MODEL_SIGNATURE_ALG_ED25519 : string := "ed25519".

(** [5e-3], the double nearest to it. *)
Definition MAX_VARIANT_ABS_DIFF : spec_float := S754_finite false 5764607523034235 (-60).

(** ** Manifests *)

Record VariantConversion := { tool : string; tool_version : string; conversion_source_digest : string }.

Inductive ScoreTransform := Identity | Sigmoid.

#[export] Instance ScoreTransform_eq_dec : EqDecision ScoreTransform.
Proof. solve_decision. Defined.

Record VariantTolerance := {
  max_abs_diff : spec_float;
  top_k : N;
  f32_dtypes : list ascii;
  score_transform : ScoreTransform }.

Record AcceleratorVariant := {
  adapter : string;
  format : string;
  path : string;
  variant_digest : string;
  conversion : VariantConversion;
  conformance_vector_path : string;
  conformance_vector_digest : string;
  tolerance : VariantTolerance;
  peak_memory_bytes : N }.

Record CachedAcceleratorVariant := {
  cached_adapter : string;
  cached_path : string;
  cached_bytes : Bytes;
  cached_vector_path : string;
  conformance_vector : Bytes }.

Record PinRights := { pin_license_id : string; pin_commercial_use : CommercialUse }.

Record ExactModelPin := {
  pin_model_id : string;
  pin_version : string;
  pin_digest : string;
  pin_offline_allowed : bool;
  pin_target : string;
  pin_rights : PinRights;
  pin_key_id : option string }.

Record ModelPackageManifest := {
  schema_version : string;
  model_id : string;
  version : string;
  wasm_digest : string;
  registry_ref : string;
  executable_format : string;
  abi_version : N;
  input_schema_ref : string;
  input_schema_version : string;
  output_schema_ref : string;
  output_schema_version : string;
  rights : ModelRights;
  supported_profiles : list string;
  max_memory_bytes : N;
  max_fuel : N;
  max_input_bytes : N;
  max_output_bytes : N;
  max_execution_ms : N;
  offline_allowed : bool;
  max_prepare_fuel : option N;
  accelerator_variants : option (list AcceleratorVariant) }.

Record ModelPackageSignature := { alg : string; key_id : string; signature : string }.

(** [serde] of the two signed documents. *)
Class ModelCodec := {
  parse_signature : Bytes -> option ModelPackageSignature;
  parse_manifest : Bytes -> option ModelPackageManifest }.

(** ** Errors *)

Definition model_error (c : HostConnectorErrorCode) (r : ModelFailureReason) (m : string) : HostConnectorError := {|
  code := c; reason := Some r; detail := None; message := m |}.

Definition incompatible (r : ModelFailureReason) (m : string) : HostConnectorError :=
  model_error ModelIncompatible r m.

Definition denial (f e a : string) : ModelRightsDenialDetail := {|
  detail_model_id := None; detail_version := None; detail_digest := None; field := f; expected := e; actual := a;
  detail_effective_usage := None |}.

Definition with_detail (e : HostConnectorError) (d : ModelRightsDenialDetail) : HostConnectorError := {|
  code := code e; reason := reason e; detail := Some d; message := message e |}.

Definition with_usage (u : ModelUsage) (d : ModelRightsDenialDetail) : ModelRightsDenialDetail := {|
  detail_model_id := detail_model_id d; detail_version := detail_version d; detail_digest := detail_digest d;
  field := field d; expected := expected d; actual := actual d; detail_effective_usage := Some u |}.

(** The identity of the package, when the error has a rights detail. *)
Definition for_package (e : HostConnectorError) (m : ModelPackageManifest) (digest : string) : HostConnectorError := {|
  code := code e; reason := reason e; message := message e;
  detail := (fun d => {| detail_model_id := Some (model_id m); detail_version := Some (version m);
    detail_digest := Some digest; field := field d; expected := expected d; actual := actual d;
    detail_effective_usage := detail_effective_usage d |}) <$> detail e |}.

Definition parse_optional `{SerdeJson} (v : Value) : Result HostConnectorError (option ModelUsage) :=
  let invalid actual := Err (with_detail (incompatible UsageInvalid "model_usage must be commercial or non_commercial")
    (denial "model_usage" "commercial|non_commercial" actual)) in
  match v with
  | Null => Ok None
  | Str text =>
      if decide (text = "commercial") then Ok (Some Commercial)
      else if decide (text = "non_commercial") then Ok (Some NonCommercial)
      else invalid text
  | other => invalid (String.string_of_list_ascii (to_vec other))
  end.

(** ** Digests *)

Definition normalize_digest (s : string) : string :=
  let t := trim s in Contract.to_ascii_lowercase (default t (strip_prefix "sha256:" t)).

Definition digest_hex `{Trust} (b : Bytes) : string := sha256_hex b.

Definition is_ascii_hexdigit (c : ascii) : bool := bool_decide (is_Some (hex_nibble c)).

Definition is_sha256_hex (s : string) : bool :=
  let hex := text_bytes (normalize_digest s) in
  bool_decide (length hex = 64) && forallb is_ascii_hexdigit hex.

(** [u8::from_str_radix(.., 16)] of two bytes, which may start with a plus sign. *)
Definition parse_hex_pair (h l : ascii) : option N :=
  if decide (h = "+"%char) then hex_nibble l
  else high ← hex_nibble h; low ← hex_nibble l; Some (high * 16 + low)%N.

Fixpoint hex_decode (s : Bytes) : option Bytes :=
  match s with
  | [] => Some []
  | [_] => None
  | h :: l :: rest => n ← parse_hex_pair h l; out ← hex_decode rest; Some (ascii_of_N n :: out)
  end.

(** ** Rules of the manifest *)

Definition prepared_schema (m : ModelPackageManifest) : bool :=
  bool_decide (schema_version m = MODEL_PACKAGE_SCHEMA_VERSION_PREPARED)
  || bool_decide (schema_version m = MODEL_PACKAGE_SCHEMA_VERSION_SCORED).

Definition schema_supported (m : ModelPackageManifest) : bool :=
  bool_decide (schema_version m = MODEL_PACKAGE_SCHEMA_VERSION)
  || bool_decide (schema_version m = MODEL_PACKAGE_SCHEMA_VERSION_DERIVATION) || prepared_schema m.

Definition schema_fields_valid (m : ModelPackageManifest) : bool :=
  let derivation_allowed := bool_decide (derivation (rights m) = None)
    || negb (bool_decide (schema_version m = MODEL_PACKAGE_SCHEMA_VERSION)) in
  let prepare_valid :=
    if decide (abi_version m = MODEL_GUEST_ABI_PREPARED)
    then prepared_schema m && match max_prepare_fuel m with Some fuel => (0 <? fuel)%N | None => false end
    else bool_decide (max_prepare_fuel m = None) in
  let variants_allowed := match accelerator_variants m with None => true | Some _ => prepared_schema m end in
  schema_supported m && derivation_allowed && prepare_valid && variants_allowed.

Definition unsupported_schema (m : ModelPackageManifest) : HostConnectorError :=
  with_detail
    (incompatible ManifestInvalid ("unsupported schema_version " +:+ schema_version m
      +:+ " (supported: 2.0.0, 2.1.0, 2.2.0, 2.3.0)"))
    (denial "schema_version" "2.0.0|2.1.0|2.2.0|2.3.0" (schema_version m)).

Definition unsupported_abi (m : ModelPackageManifest) : HostConnectorError :=
  with_detail
    (incompatible ManifestInvalid ("unsupported abi_version " +:+ pretty (abi_version m) +:+ " (supported: 1..=3)"))
    (denial "abi_version" "1..=3" (pretty (abi_version m))).

Definition derivation_digest_valid (m : ModelPackageManifest) : bool :=
  match derivation (rights m) with Some d => is_sha256_hex (source_digest d) | None => true end.

Definition validate_schema_abi_and_limits (m : ModelPackageManifest) : Result HostConnectorError unit :=
  _ ← ensure (schema_supported m) (unsupported_schema m);
  _ ← ensure (negb ((abi_version m =? 0) || (MAX_MODEL_ABI_VERSION <? abi_version m))%N) (unsupported_abi m);
  ensure (schema_fields_valid m && derivation_digest_valid m
      && negb ((max_memory_bytes m =? 0) || (max_fuel m =? 0) || (max_input_bytes m =? 0)
               || (max_output_bytes m =? 0) || (max_execution_ms m =? 0))%N)
    (incompatible ManifestInvalid "model manifest schema version, resource limits, or ABI are invalid").

Definition adapter_format (id : string) : option string :=
  if decide (id = ADAPTER_COREML) then Some COREML_VARIANT_FORMAT else None.

Definition path_segment (part : string) : bool :=
  negb (bool_decide (part = "") || bool_decide (part = ".") || bool_decide (part = "..")).

Definition variant_package_path (id p : string) : bool :=
  match split_on "/" p with
  | first :: second :: third :: rest =>
      bool_decide (first = "variants") && bool_decide (second = id) && forallb path_segment (third :: rest)
  | _ => false
  end.

(** [is_finite() && (0.0..=MAX).contains(&v)] *)
Definition tolerance_ok (v : spec_float) : bool :=
  match v with
  | S754_nan | S754_infinity _ => false
  | _ => SFleb (S754_zero false) v && SFleb v MAX_VARIANT_ABS_DIFF
  end.

Definition is_identity (t : ScoreTransform) : bool := bool_decide (t = Identity).

Definition variant_fields_valid (m : ModelPackageManifest) (f : string) (v : AcceleratorVariant) : bool :=
  bool_decide (format v = f)
  && variant_package_path (adapter v) (path v) && variant_package_path (adapter v) (conformance_vector_path v)
  && is_sha256_hex (variant_digest v) && is_sha256_hex (conformance_vector_digest v)
  && negb (is_blank (tool (conversion v))) && negb (is_blank (tool_version (conversion v)))
  && is_sha256_hex (conversion_source_digest (conversion v))
  && tolerance_ok (max_abs_diff (tolerance v))
  && (is_identity (score_transform (tolerance v))
      || bool_decide (schema_version m = MODEL_PACKAGE_SCHEMA_VERSION_SCORED))
  && negb (peak_memory_bytes v =? 0)%N.

Fixpoint check_variants (m : ModelPackageManifest) (seen : list string) (vs : list AcceleratorVariant)
    : Result HostConnectorError unit :=
  match vs with
  | [] => Ok tt
  | v :: rest =>
      _ ← ensure (negb (bool_decide (adapter v ∈ seen)))
            (incompatible ManifestInvalid "accelerator_variants has more than one entry for an adapter");
      f ← ok_or (adapter_format (adapter v))
            (incompatible ManifestInvalid "accelerator variant adapter is not in the closed list");
      _ ← ensure (variant_fields_valid m f v)
            (incompatible ManifestInvalid "accelerator variant fields are invalid");
      d ← ok_or (derivation (rights m))
            (incompatible RightsInconsistent "accelerator variants require rights.derivation");
      _ ← ensure (bool_decide (normalize_digest (conversion_source_digest (conversion v))
                               = normalize_digest (source_digest d)))
            (incompatible RightsInconsistent "accelerator variant conversion.source_digest does not match rights.derivation.source_digest");
      check_variants m (adapter v :: seen) rest
  end.

Definition validate_accelerator_variants (m : ModelPackageManifest) : Result HostConnectorError unit :=
  match accelerator_variants m with
  | None => Ok tt
  | Some variants =>
      _ ← ensure (negb (bool_decide (length variants = 0)))
            (incompatible ManifestInvalid "accelerator_variants must not be empty");
      check_variants m [] variants
  end.

(** The texts of the rights, with their paths. *)
Definition rights_texts (r : ModelRights) : list (string * string) :=
  [("rights.license_id", license_id r); ("rights.attribution", attribution r);
   ("rights.redistribution", redistribution r); ("rights.source_url", source_url r)]
  ++ match derivation r with
     | Some d => [("rights.derivation.source_digest", source_digest d);
                  ("rights.derivation.source_license_id", source_license_id d);
                  ("rights.derivation.source_url", derivation_source_url d)]
     | None => []
     end.

Definition required_texts (m : ModelPackageManifest) : list (string * string) :=
  [("wasm_digest", wasm_digest m); ("executable_format", executable_format m);
   ("input_schema_ref", input_schema_ref m); ("output_schema_ref", output_schema_ref m)].

Definition validate (m : ModelPackageManifest) : Result HostConnectorError unit :=
  match find_first (fun p => is_blank p.2) (rights_texts (rights m)) with
  | Some (f, v) =>
      Err (with_detail (incompatible RightsIncomplete "model manifest rights are incomplete") (denial f "non-empty" v))
  | None =>
  match find_first (fun p => is_blank p.2) (required_texts m) with
  | Some (name, _) => Err (incompatible ManifestInvalid ("model manifest missing required field " +:+ name))
  | None =>
      _ ← validate_schema_abi_and_limits m;
      _ ← ensure (bool_decide (PLACEMENT_WASM_CPU ∈ supported_profiles m))
            (incompatible TargetUnsupported "model manifest does not support wasm-cpu");
      _ ← match derivation (rights m) with
          | Some d =>
              ensure (rank (commercial_use (rights m)) <=? rank (source_commercial_use d))%nat
                (with_detail
                  (incompatible RightsInconsistent "package commercial_use is more permissive than its derivation source")
                  (denial "rights.commercial_use"
                    ("no more permissive than " +:+ commercial_use_str (source_commercial_use d))
                    (commercial_use_str (commercial_use (rights m)))))
          | None => Ok tt
          end;
      validate_accelerator_variants m
  end end.

(** [variants_to_fetch] *)
Definition variants_to_fetch (m : ModelPackageManifest) (adapters : list string) : list AcceleratorVariant :=
  List.filter (fun v => bool_decide (adapter v ∈ adapters)) (default [] (accelerator_variants m)).

(** ** Signatures *)

Section trusted.
Context `{Trust}.

Definition model_signing_key_id (public_key : Bytes) : string :=
  MODEL_SIGNATURE_ALG_ED25519 +:+ ":" +:+ digest_hex public_key.

Record TrustedModelKeys := { keys : gmap string PublicKey }.

Definition trust (public_key : Bytes) (t : TrustedModelKeys) : Result HostConnectorError (string * TrustedModelKeys) :=
  key ← ok_or (public_key_from_bytes public_key)
          (incompatible KeyUntrusted "model signing public key is invalid");
  let id := model_signing_key_id public_key in
  Ok (id, {| keys := <[id := key]> (keys t) |}).

Definition verify_signature (t : TrustedModelKeys) (s : ModelPackageSignature) (manifest_bytes : Bytes)
    : Result HostConnectorError unit :=
  _ ← ensure (bool_decide (alg s = MODEL_SIGNATURE_ALG_ED25519))
        (incompatible SignatureInvalid "unsupported model signature algorithm");
  key ← ok_or (keys t !! key_id s) (incompatible KeyUntrusted "model signing key is not host-trusted");
  sig ← ok_or (hex_decode (text_bytes (signature s)) ≫= sized 64)
          (incompatible SignatureInvalid "model signature is malformed");
  ensure (ed25519_verify key manifest_bytes sig) (incompatible SignatureInvalid "model signature verification failed").

(** ** Packages *)

Record VerifiedModelPackage := {
  manifest : ModelPackageManifest;
  manifest_bytes : Bytes;
  wasm : Bytes;
  variants : list CachedAcceleratorVariant }.

Definition variant_bytes_match (m : ModelPackageManifest) (c : CachedAcceleratorVariant) : bool :=
  match accelerator_variants m ≫= find_first (fun v => bool_decide (path v = cached_path c)) with
  | Some v => bool_decide (digest_hex (cached_bytes c) = normalize_digest (variant_digest v))
      && bool_decide (digest_hex (conformance_vector c) = normalize_digest (conformance_vector_digest v))
  | None => false
  end.

(** Every execute hashes the cached bytes again. *)
Definition recheck (p : VerifiedModelPackage) (pinned_digest : string) : Result HostConnectorError unit :=
  ensure (bool_decide (digest_hex (manifest_bytes p) = normalize_digest pinned_digest)
      && bool_decide (digest_hex (wasm p) = normalize_digest (wasm_digest (manifest p)))
      && forallb (variant_bytes_match (manifest p)) (variants p))
    (incompatible DigestMismatch "cached model package bytes no longer match the pinned digest").

Definition variant_file (files : list (string * Bytes)) (p : string) : Result HostConnectorError Bytes :=
  ok_or (snd <$> find_first (fun f => bool_decide (f.1 = p)) files)
    (incompatible DigestMismatch "accelerator variant file is missing").

Fixpoint cache_variants (files : list (string * Bytes)) (vs : list AcceleratorVariant)
    : Result HostConnectorError (list CachedAcceleratorVariant) :=
  match vs with
  | [] => Ok []
  | v :: rest =>
      b ← variant_file files (path v);
      vector ← variant_file files (conformance_vector_path v);
      _ ← ensure (bool_decide (digest_hex b = normalize_digest (variant_digest v))
                  && bool_decide (digest_hex vector = normalize_digest (conformance_vector_digest v)))
            (incompatible DigestMismatch "accelerator variant digest mismatch");
      cached ← cache_variants files rest;
      Ok ({| cached_adapter := adapter v; cached_path := path v; cached_bytes := b;
             cached_vector_path := conformance_vector_path v; conformance_vector := vector |} :: cached)
  end.

Definition cache_selected_variants (m : ModelPackageManifest) (adapters : list string) (files : list (string * Bytes))
    : Result HostConnectorError (list CachedAcceleratorVariant) :=
  cache_variants files (variants_to_fetch m adapters).
End trusted.

(** ** Host ceilings, pins and rights *)

Record HostModelLimits := {
  max_package_bytes : N;
  host_max_memory_bytes : N;
  host_max_fuel : N;
  max_snapshot_bytes : N;
  max_preparation_ms : N }.

Definition DEFAULT_MAX_PREPARATION_MS : N := 300000.

Definition default_host_limits : HostModelLimits := {|
  max_package_bytes := 268435456; host_max_memory_bytes := 1073741824; host_max_fuel := 50000000000;
  max_snapshot_bytes := 536870912; max_preparation_ms := DEFAULT_MAX_PREPARATION_MS |}.

Definition check_host_limits (h : HostModelLimits) (m : ModelPackageManifest) (manifest_len wasm_len variant_len : N)
    : Result HostConnectorError unit :=
  let package_bytes := saturating_add (saturating_add manifest_len wasm_len) variant_len in
  ensure (negb ((max_package_bytes h <? package_bytes) || (host_max_memory_bytes h <? max_memory_bytes m)
      || (host_max_fuel h <? max_fuel m) || (host_max_fuel h <? default 0 (max_prepare_fuel m))))%N
    (incompatible HostLimitExceeded "package size or declared limits exceed the host ceilings").

Definition check_pin_against_manifest (p : ExactModelPin) (s : ModelPackageSignature) (m : ModelPackageManifest)
    : Result HostConnectorError unit :=
  _ ← ensure (match pin_key_id p with Some id => bool_decide (id = key_id s) | None => true end)
        (incompatible KeyUntrusted "package signer is not the key the pin requires");
  _ ← ensure (bool_decide (model_id m = pin_model_id p) && bool_decide (version m = pin_version p))
        (incompatible PinMismatch "signed package identity does not match its pin");
  _ ← validate m;
  _ ← ensure (bool_decide (pin_target p = PLACEMENT_WASM_CPU) && bool_decide (pin_target p ∈ supported_profiles m))
        (incompatible TargetUnsupported "pin target is not supported by the package or the wasm-cpu executor");
  let mismatch := with_detail
    (incompatible RightsMismatch "signed package rights differ from the rights the pin declares") in
  _ ← ensure (bool_decide (license_id (rights m) = pin_license_id (pin_rights p)))
        (mismatch (denial "rights.license_id" (pin_license_id (pin_rights p)) (license_id (rights m))));
  ensure (bool_decide (commercial_use (rights m) = pin_commercial_use (pin_rights p)))
    (mismatch (denial "rights.commercial_use" (commercial_use_str (pin_commercial_use (pin_rights p)))
      (commercial_use_str (commercial_use (rights m))))).

Definition require_unambiguous (pins : list ExactModelPin) (p : ExactModelPin) : Result HostConnectorError unit :=
  ensure (length (List.filter (fun q => bool_decide (pin_model_id q = pin_model_id p)
            && bool_decide (pin_version q = pin_version p)) pins) <=? 1)%nat
    (incompatible PinAmbiguous "more than one exact_model_dependencies pin names this model id and version").

Definition rights_record (m : ModelPackageManifest) (digest : string) (u : ModelUsage) (entry : option PackageStatusEntry)
    : ModelRightsRecord := {|
  record_model_id := model_id m; record_version := version m; record_digest := digest; record_rights := rights m;
  record_status := from_option entry_status Active entry; status_reason := entry_reason <$> entry;
  effective_usage := u |}.

(** The usage the rights are checked against. *)
Definition usage_of (declared : option ModelUsage) (host_requires_commercial : bool) : Result HostConnectorError ModelUsage :=
  u ← ok_or declared
        (with_detail (incompatible UsageUndeclared "app declares exact_model_dependencies but no model_usage")
          (denial "model_usage" "commercial|non_commercial" "undeclared"));
  Ok (if host_requires_commercial then Commercial else u).

Definition check_usage (m : ModelPackageManifest) (digest : string) (u : ModelUsage) : Result HostConnectorError unit :=
  ensure (negb (bool_decide (commercial_use (rights m) = Prohibited) && bool_decide (u = Commercial)))
    (for_package
      (with_detail
        (incompatible RightsPolicyDenied "package commercial_use is not permitted for the effective model_usage")
        (with_usage u (denial "rights.commercial_use" "allowed|restricted" (commercial_use_str Prohibited))))
      m digest).

Definition check_status (m : ModelPackageManifest) (digest : string) (u : ModelUsage) (entry : option PackageStatusEntry)
    : Result HostConnectorError unit :=
  ensure (negb (bool_decide (entry_status <$> entry = Some Revoked)))
    (for_package
      (with_detail
        (model_error ModelUnavailable PackageRevoked "the host package status map marks this package revoked")
        (with_usage u (denial "status" "active|deprecated" "revoked")))
      m digest).

(** * Model packages: properties

    The rules of a manifest, declaratively, and the checks that decide them. *)
From S2P Require Import HostConnectorProps.
(** ** The rules *)

Definition schema_versions : list string := ["2.0.0"; "2.1.0"; "2.2.0"; "2.3.0"].
Definition prepared_versions : list string := ["2.2.0"; "2.3.0"].

Definition texts_present (l : list (string * string)) : Prop := Forall (fun p => trim p.2 <> "") l.

(** A variant of a known adapter, with its files under the adapter's directory, digests,
    provenance equal to the derivation of the rights, and a tolerance within the bar. *)
Record valid_variant (m : ModelPackageManifest) (v : AcceleratorVariant) : Prop := {
  variant_adapter : adapter v = ADAPTER_COREML /\ format v = COREML_VARIANT_FORMAT;
  variant_paths : variant_package_path (adapter v) (path v) = true /\
    variant_package_path (adapter v) (conformance_vector_path v) = true;
  variant_digests : is_sha256_hex (variant_digest v) = true /\ is_sha256_hex (conformance_vector_digest v) = true /\
    is_sha256_hex (conversion_source_digest (conversion v)) = true;
  variant_tool : trim (tool (conversion v)) <> "" /\ trim (tool_version (conversion v)) <> "";
  variant_tolerance : tolerance_ok (max_abs_diff (tolerance v)) = true;
  variant_transform : score_transform (tolerance v) <> Identity -> schema_version m = "2.3.0";
  variant_memory : (0 < peak_memory_bytes v)%N;
  variant_source : exists d, derivation (rights m) = Some d /\
    normalize_digest (conversion_source_digest (conversion v)) = normalize_digest (source_digest d) }.

Record valid_manifest (m : ModelPackageManifest) : Prop := {
  valid_rights : texts_present (rights_texts (rights m));
  valid_texts : texts_present (required_texts m);
  valid_schema : schema_version m ∈ schema_versions;
  valid_abi : (1 <= abi_version m <= 3)%N;
  valid_prepare : if decide (abi_version m = 3%N)
    then schema_version m ∈ prepared_versions /\ exists fuel, max_prepare_fuel m = Some fuel /\ (0 < fuel)%N
    else max_prepare_fuel m = None;
  valid_derivation : forall d, derivation (rights m) = Some d ->
    schema_version m <> "2.0.0" /\ is_sha256_hex (source_digest d) = true /\
    rank (commercial_use (rights m)) <= rank (source_commercial_use d);
  valid_limits : (0 < max_memory_bytes m /\ 0 < max_fuel m /\ 0 < max_input_bytes m /\ 0 < max_output_bytes m /\
    0 < max_execution_ms m)%N;
  valid_profile : PLACEMENT_WASM_CPU ∈ supported_profiles m;
  valid_variants : forall vs, accelerator_variants m = Some vs ->
    schema_version m ∈ prepared_versions /\ vs <> [] /\ NoDup (adapter <$> vs) /\ Forall (valid_variant m) vs }.

(** ** The checks decide them *)

Lemma find_blank_iff l : find_first (fun p : string * string => is_blank p.2) l = None <-> texts_present l.
Proof.
  unfold texts_present. induction l as [|[n v] l IH]; cbn; [by split|]. rewrite Forall_cons. unfold is_blank at 1. cbn.
  case_bool_decide; [split; [done|tauto]|]. rewrite IH. tauto.
Qed.

Lemma prepared_iff m : prepared_schema m = true <-> schema_version m ∈ prepared_versions.
Proof.
  unfold prepared_schema, prepared_versions. rewrite orb_true_iff, !bool_decide_eq_true, !elem_of_cons, elem_of_nil. tauto.
Qed.

Lemma schema_iff m : schema_supported m = true <-> schema_version m ∈ schema_versions.
Proof.
  unfold schema_supported, schema_versions. rewrite !orb_true_iff, prepared_iff, !bool_decide_eq_true.
  unfold prepared_versions. rewrite !elem_of_cons, elem_of_nil. tauto.
Qed.

Lemma adapter_format_iff id f : adapter_format id = Some f <-> id = ADAPTER_COREML /\ f = COREML_VARIANT_FORMAT.
Proof. unfold adapter_format. case_decide; naive_solver. Qed.

Lemma variant_valid_iff m v f d : adapter_format (adapter v) = Some f -> derivation (rights m) = Some d ->
  (variant_fields_valid m f v = true /\
   normalize_digest (conversion_source_digest (conversion v)) = normalize_digest (source_digest d)) <-> valid_variant m v.
Proof.
  intros [Ha ->]%adapter_format_iff Hd. unfold variant_fields_valid, is_identity.
  rewrite !andb_true_iff, orb_true_iff, !not_blank, !bool_decide_eq_true, negb_true_iff, N.eqb_neq. split.
  - intros [Hf Hs]. split; [tauto|tauto|tauto|tauto|tauto| |lia|by exists d]. intros Hn. tauto.
  - intros [H1 H2 H3 H4 H5 H6 H7 (d' & Hd' & H8)]. assert (d' = d) as -> by congruence. split; [|done].
    destruct (decide (score_transform (tolerance v) = Identity)); split_and!; try tauto; lia.
Qed.

Lemma check_variants_iff m vs : forall seen,
  check_variants m seen vs = Ok tt <->
  NoDup (adapter <$> vs) /\ Forall (fun v => adapter v ∉ seen) vs /\ Forall (valid_variant m) vs.
Proof.
  induction vs as [|v vs IH]; intros seen; cbn [check_variants].
  { split; [|done]. intros _. split_and!; constructor. }
  rewrite ensure_then, fmap_cons, NoDup_cons, !Forall_cons, negb_true_iff, bool_decide_eq_false. split.
  - intros (Hseen & (f & Hf%ok_or_ok_inv & Hrest)%bind_ok_inv). rewrite ensure_then in Hrest.
    destruct Hrest as (Hv & (d & Hd%ok_or_ok_inv & Hrest)%bind_ok_inv). rewrite ensure_then, bool_decide_eq_true in Hrest.
    destruct Hrest as [Hs Hrest]. apply IH in Hrest as (Hnd & Hall & Hvs).
    split_and!; [|done|done| |by apply (variant_valid_iff m v f d)|done].
    + rewrite list_elem_of_fmap. intros (v' & Heq & Hin). rewrite Forall_forall in Hall. apply (Hall v' Hin).
      rewrite <-Heq. left.
    + eapply Forall_impl; [exact Hall|]. intros v' Hn Hin. apply Hn, elem_of_cons. by right.
  - intros ([Hnin Hnd] & [Hseen Hall] & [Hv Hvs]). split; [done|].
    destruct (variant_source _ _ Hv) as (d & Hd & Hs). destruct (variant_adapter _ _ Hv) as [Ha Hf].
    assert (adapter_format (adapter v) = Some (format v)) as Hform by (apply adapter_format_iff; by rewrite Hf).
    rewrite Hform, Hd. cbn [ok_or mbind Result_bind].
    destruct (proj2 (variant_valid_iff m v _ d Hform Hd) Hv) as [Hok _].
    rewrite Hok. cbn [ensure mbind Result_bind]. rewrite bool_decide_eq_true_2 by done. cbn [ensure mbind Result_bind].
    apply IH. split_and!; [done| |done]. rewrite Forall_forall in *. intros v' Hin Hmem.
    apply elem_of_cons in Hmem as [Heq|Hmem]; [|by apply (Hall v')].
    apply Hnin. apply list_elem_of_fmap. by exists v'.
Qed.

Lemma variants_iff m : validate_accelerator_variants m = Ok tt <->
  forall vs, accelerator_variants m = Some vs -> vs <> [] /\ NoDup (adapter <$> vs) /\ Forall (valid_variant m) vs.
Proof.
  unfold validate_accelerator_variants. destruct (accelerator_variants m) as [vs|]; [|by split].
  rewrite ensure_then, check_variants_iff, negb_true_iff, bool_decide_eq_false. split.
  - intros (Hne & Hnd & _ & Hall) vs' [= <-]. split_and!; [|done|done]. by intros ->.
  - intros Hvs. destruct (Hvs _ eq_refl) as (Hne & Hnd & Hall). split_and!; [|done| |done].
    + by intros ?%nil_length_inv.
    + apply Forall_forall. intros v _ Hv. by apply elem_of_nil in Hv.
Qed.

Lemma limits_iff m : validate_schema_abi_and_limits m = Ok tt <->
  schema_version m ∈ schema_versions /\ (1 <= abi_version m <= 3)%N /\
  (if decide (abi_version m = 3%N)
   then schema_version m ∈ prepared_versions /\ exists fuel, max_prepare_fuel m = Some fuel /\ (0 < fuel)%N
   else max_prepare_fuel m = None) /\
  (forall d, derivation (rights m) = Some d -> schema_version m <> "2.0.0" /\ is_sha256_hex (source_digest d) = true) /\
  (0 < max_memory_bytes m /\ 0 < max_fuel m /\ 0 < max_input_bytes m /\ 0 < max_output_bytes m /\ 0 < max_execution_ms m)%N /\
  (forall vs, accelerator_variants m = Some vs -> schema_version m ∈ prepared_versions).
Proof.
  unfold validate_schema_abi_and_limits, schema_fields_valid, derivation_digest_valid.
  rewrite !ensure_then, ensure_ok_inv, !andb_true_iff, !negb_true_iff, !orb_false_iff, schema_iff.
  rewrite !N.eqb_neq, N.ltb_ge. change MODEL_GUEST_ABI_PREPARED with 3%N. change MAX_MODEL_ABI_VERSION with 3%N.
  rewrite orb_true_iff, negb_true_iff, !bool_decide_eq_true, bool_decide_eq_false.
  change MODEL_PACKAGE_SCHEMA_VERSION with "2.0.0".
  assert (Hprep : (if decide (abi_version m = 3%N)
      then prepared_schema m && match max_prepare_fuel m with Some fuel => (0 <? fuel)%N | None => false end
      else bool_decide (max_prepare_fuel m = None)) = true <->
    if decide (abi_version m = 3%N)
    then schema_version m ∈ prepared_versions /\ exists fuel, max_prepare_fuel m = Some fuel /\ (0 < fuel)%N
    else max_prepare_fuel m = None).
  { case_decide; [|apply bool_decide_eq_true]. rewrite andb_true_iff, prepared_iff.
    destruct (max_prepare_fuel m) as [fuel|]; [rewrite N.ltb_lt|]; naive_solver. }
  rewrite Hprep. clear Hprep.
  destruct (derivation (rights m)) as [d|], (accelerator_variants m) as [vs|]; rewrite ?prepared_iff; split; naive_solver lia.
Qed.

(** The rules of a model manifest are decided exactly: a manifest is accepted if and
    only if its rights and texts are complete, its schema and ABI versions are supported and
    allow the fields it has, its limits are positive, it supports [wasm-cpu], it is no more
    permissive than what it derives from, and its variants are well formed and have the
    provenance of its rights. *)
Theorem manifest_validation_exact m : validate m = Ok tt <-> valid_manifest m.
Proof.
  unfold validate. pose proof (find_blank_iff (rights_texts (rights m))) as Hr.
  pose proof (find_blank_iff (required_texts m)) as Ht.
  destruct (find_first _ (rights_texts _)) as [[f v]|].
  { split; [done|]. intros [Hv]. by apply Hr in Hv. }
  destruct (find_first _ (required_texts _)) as [[f v]|].
  { split; [done|]. intros [_ Hv]. by apply Ht in Hv. }
  rewrite bind_ok_inv. split.
  - intros ([] & Hl%limits_iff & Hrest). rewrite ensure_then, bool_decide_eq_true in Hrest. destruct Hrest as [Hprof Hrest].
    apply bind_ok_inv in Hrest as ([] & Hrank & Hvs). rewrite variants_iff in Hvs.
    destruct Hl as (Hs & Ha & Hp & Hd & Hlim & Hvv). split; [tauto|tauto|done|done|done| |done|done|].
    + intros d Hder. rewrite Hder in Hrank. apply ensure_ok_inv, Nat.leb_le in Hrank. destruct (Hd d Hder). done.
    + intros vs Hv. split; [by eapply Hvv|by apply Hvs].
  - intros [_ _ Hs Ha Hp Hd Hlim Hprof Hvs]. exists tt. split.
    { apply limits_iff. refine (conj Hs (conj Ha (conj Hp (conj _ (conj Hlim _))))).
      - intros d Hder. destruct (Hd d Hder). tauto.
      - intros vs Hv. by destruct (Hvs vs Hv). }
    rewrite ensure_then, bool_decide_eq_true. split; [done|]. apply bind_ok_inv. exists tt. split.
    { destruct (derivation (rights m)) as [d|]; [|done]. apply ensure_ok_inv, Nat.leb_le. by destruct (Hd d eq_refl) as (_ & _ & ?). }
    apply variants_iff. intros vs Hv. by destruct (Hvs vs Hv).
Qed.
