(* ===== verification/ModelStore.v ===== *)
(** * Staged buffers and snapshots

    [ModelIoStore] of [traverse-runtime/src/exact_model.rs], the host-staged inputs,
    outputs and artifacts, and [SnapshotCache] of [exact_model/snapshot.rs], the bounded
    cache of prepared guests, with the check of guest modules that may be restored. *)
From S2P Require Import Prelude Effect Json HostConnector.
From Stdlib Require Import Ascii.

(** ** Staged buffers *)

Record ModelIoStore := {
  inputs : gmap string Bytes;
  outputs : gmap string Bytes;
  artifacts : gmap string Bytes;
  next_input : N;
  next_output : N;
  next_artifact : N }.

Definition new_io : ModelIoStore := {|
  inputs := ∅; outputs := ∅; artifacts := ∅; next_input := 0; next_output := 0; next_artifact := 0 |}.

Definition input_id (n : N) : string := "input-" +:+ u64_to_string n.
Definition output_id (n : N) : string := "output-" +:+ u64_to_string n.
Definition artifact_id (n : N) : string := "artifact-" +:+ u64_to_string n.

Definition within_ceiling (b : Bytes) (max_bytes : N) : bool :=
  negb (bool_decide (b = []) || (max_bytes <? N.of_nat (length b))%N).

Definition stage_model_input (b : Bytes) (max_bytes : N) : Eff ModelIoStore HostConnectorError string := fun s =>
  if within_ceiling b max_bytes then
    let next := saturating_add (next_input s) 1 in
    ({| inputs := <[input_id next := b]> (inputs s); outputs := outputs s; artifacts := artifacts s;
        next_input := next; next_output := next_output s; next_artifact := next_artifact s |}, Ok (input_id next))
  else (s, Err (plain_error InputLimitExceeded "staged model input empty or exceeds ceiling")).

Definition take_input (input_ref : string) : Eff ModelIoStore HostConnectorError Bytes := fun s =>
  match inputs s !! input_ref with
  | Some b =>
      ({| inputs := delete input_ref (inputs s); outputs := outputs s; artifacts := artifacts s;
          next_input := next_input s; next_output := next_output s; next_artifact := next_artifact s |}, Ok b)
  | None => (s, Err (plain_error InvalidInput "input_ref missing or already consumed"))
  end.

Definition put_output (b : Bytes) (s : ModelIoStore) : ModelIoStore * string :=
  let next := saturating_add (next_output s) 1 in
  ({| inputs := inputs s; outputs := <[output_id next := b]> (outputs s); artifacts := artifacts s;
      next_input := next_input s; next_output := next; next_artifact := next_artifact s |}, output_id next).

Definition output_len (s : ModelIoStore) (output_ref : string) : option N :=
  (fun b => N.of_nat (length b)) <$> outputs s !! output_ref.

(** A stored buffer, bounded by the reader's ceiling. *)
Definition bounded_read (buffers : gmap string Bytes) (ref : string) (max_bytes : N) (missing over : string)
    : Result HostConnectorError Bytes :=
  b ← ok_or (buffers !! ref) (plain_error Unavailable missing);
  _ ← ensure (N.of_nat (length b) <=? max_bytes)%N (plain_error InputLimitExceeded over);
  Ok b.

Definition read_model_output (s : ModelIoStore) (output_ref : string) (max_bytes : N) : Result HostConnectorError Bytes :=
  bounded_read (outputs s) output_ref max_bytes "output_ref missing or expired" "output exceeds read ceiling".

Definition stage_artifact (b : Bytes) (max_bytes : N) : Eff ModelIoStore HostConnectorError string := fun s =>
  if within_ceiling b max_bytes then
    let next := saturating_add (next_artifact s) 1 in
    ({| inputs := inputs s; outputs := outputs s; artifacts := <[artifact_id next := b]> (artifacts s);
        next_input := next_input s; next_output := next_output s; next_artifact := next |}, Ok (artifact_id next))
  else (s, Err (plain_error InputLimitExceeded "staged artifact empty or exceeds ceiling")).

Definition read_artifact (s : ModelIoStore) (ref : string) (max_bytes : N) : Result HostConnectorError Bytes :=
  bounded_read (artifacts s) ref max_bytes "artifact_ref missing or expired" "artifact exceeds read ceiling".

Definition drop_ref (ref : string) (s : ModelIoStore) : ModelIoStore := {|
  inputs := delete ref (inputs s); outputs := delete ref (outputs s); artifacts := delete ref (artifacts s);
  next_input := next_input s; next_output := next_output s; next_artifact := next_artifact s |}.

Definition shutdown_io (s : ModelIoStore) : ModelIoStore := {|
  inputs := ∅; outputs := ∅; artifacts := ∅;
  next_input := next_input s; next_output := next_output s; next_artifact := next_artifact s |}.

(** ** Snapshots *)

Inductive ModelEngine := Wasmtime | Wasmi.

#[export] Instance ModelEngine_eq_dec : EqDecision ModelEngine.
Proof. solve_decision. Defined.

#[export] Instance ModelEngine_countable : Countable ModelEngine.
Proof.
  refine (inj_countable' (fun e => match e with Wasmtime => true | Wasmi => false end)
    (fun b : bool => if b then Wasmtime else Wasmi) _). by intros [].
Defined.

(** Numeric globals keep their raw bits. *)
Inductive GlobalValue := I32 (v : Z) | I64 (v : Z) | F32 (bits : N) | F64 (bits : N).

Record Snapshot := { memory : Bytes; globals : list (string * GlobalValue) }.

Definition sum_of (l : list N) : N := foldr N.add 0%N l.

Definition snapshot_bytes (s : Snapshot) : N :=
  N.of_nat (length (memory s)) + sum_of ((fun g => N.of_nat (String.length g.1) + 8)%N <$> globals s).

Abbreviation SnapshotKey := (string * ModelEngine)%type.

Record SnapshotCache := {
  entries : gmap SnapshotKey (Snapshot * N);
  tick : N;
  total : N }.

Definition empty_snapshots : SnapshotCache := {| entries := ∅; tick := 0; total := 0 |}.

(** [u64] addition of the cache's counters, which are not checked. *)
Definition wrapping_add (a b : N) : N := ((a + b) mod 18446744073709551616)%N.
Definition wrapping_sub (a b : N) : N := ((a + 18446744073709551616 - b) mod 18446744073709551616)%N.

(** A hit becomes the most recently used entry. *)
Definition get_snapshot (key : SnapshotKey) (c : SnapshotCache) : SnapshotCache * option Snapshot :=
  let t := wrapping_add (tick c) 1 in
  match entries c !! key with
  | Some (snapshot, _) =>
      ({| entries := <[key := (snapshot, t)]> (entries c); tick := t; total := total c |}, Some snapshot)
  | None => ({| entries := entries c; tick := t; total := total c |}, None)
  end.

Definition remove_snapshot (key : SnapshotKey) (c : SnapshotCache) : SnapshotCache :=
  match entries c !! key with
  | Some (snapshot, _) =>
      {| entries := delete key (entries c); tick := tick c; total := wrapping_sub (total c) (snapshot_bytes snapshot) |}
  | None => c
  end.

Definition older (a b : N * SnapshotKey) : Prop := (a.1 <= b.1)%N.

#[export] Instance older_dec : RelDecision older.
Proof. intros a b. apply N.le_dec. Defined.

(** The keys, least recently used first. *)
Definition by_age (c : SnapshotCache) : list (N * SnapshotKey) :=
  merge_sort older ((fun e => (e.2.2, e.1)) <$> map_to_list (entries c)).

(** Remove in this order until the new snapshot fits. *)
Fixpoint make_room (keys : list (N * SnapshotKey)) (b budget : N) (c : SnapshotCache) : SnapshotCache :=
  match keys with
  | [] => c
  | (_, key) :: rest =>
      if (wrapping_add (total c) b <=? budget)%N then c else make_room rest b budget (remove_snapshot key c)
  end.

Definition insert_snapshot (key : SnapshotKey) (snapshot : Snapshot) (budget : N) (c : SnapshotCache) : SnapshotCache :=
  let b := snapshot_bytes snapshot in
  if (budget <? b)%N then c
  else
    let c := remove_snapshot key c in
    let c := make_room (by_age c) b budget c in
    let t := wrapping_add (tick c) 1 in
    {| entries := <[key := (snapshot, t)]> (entries c); tick := t; total := wrapping_add (total c) b |}.

Definition drop_package (digest : string) (c : SnapshotCache) : SnapshotCache :=
  foldr (fun e c => if decide (e.1.1 = digest) then remove_snapshot e.1 c else c) c (map_to_list (entries c)).

Definition clear_snapshots (c : SnapshotCache) : SnapshotCache := {| entries := ∅; tick := tick c; total := 0 |}.

(** ** Modules that may be restored *)

Definition MODEL_PREPARE_EXPORT : string := "model_prepare".

Inductive ExternalKind := ExternMemory | ExternGlobal | ExternFunc | ExternOther.

(** What [wasmparser] yields; [None] is a parse error. *)
Inductive Payload :=
  | ImportSection (count : N)
  | MemorySection (count : N)
  | GlobalSection (items : list (option (bool * bool)))
  | ExportSection (items : list (option (ExternalKind * N * string)))
  | CodeSectionEntry (operators : option (list (option bool)))
  | OtherSection.

(** Globals are (mutable, numeric); operators say whether they change a table or a segment. *)
Class WasmParser := { parse_all : Bytes -> list (option Payload) }.

Record ModuleScan := {
  mutable_globals : list (N * bool);
  global_index : N;
  memories : N;
  exported_memories : N;
  exported_globals : gset N;
  prepare : bool }.

Definition MALFORMED : string := "abi_version 3 model wasm failed validation".

Fixpoint scan_globals (items : list (option (bool * bool))) (s : ModuleScan) : Result string ModuleScan :=
  match items with
  | [] => Ok s
  | None :: _ => Err MALFORMED
  | Some (is_mutable, numeric) :: rest =>
      scan_globals rest {| mutable_globals :=
          if is_mutable then mutable_globals s ++ [(global_index s, numeric)] else mutable_globals s;
        global_index := global_index s + 1; memories := memories s; exported_memories := exported_memories s;
        exported_globals := exported_globals s; prepare := prepare s |}
  end.

Definition scan_export (kind : ExternalKind) (index : N) (name : string) (s : ModuleScan) : ModuleScan := {|
  mutable_globals := mutable_globals s; global_index := global_index s; memories := memories s;
  exported_memories := match kind with ExternMemory => exported_memories s + 1 | _ => exported_memories s end;
  exported_globals := match kind with ExternGlobal => {[index]} ∪ exported_globals s | _ => exported_globals s end;
  prepare := match kind with ExternFunc => prepare s || bool_decide (name = MODEL_PREPARE_EXPORT) | _ => prepare s end |}.

Fixpoint scan_exports (items : list (option (ExternalKind * N * string))) (s : ModuleScan) : Result string ModuleScan :=
  match items with
  | [] => Ok s
  | None :: _ => Err MALFORMED
  | Some (kind, index, name) :: rest => scan_exports rest (scan_export kind index name s)
  end.

Fixpoint scan_operators (ops : list (option bool)) : Result string unit :=
  match ops with
  | [] => Ok tt
  | None :: _ => Err MALFORMED
  | Some true :: _ => Err "abi_version 3 model wasm uses a table- or segment-mutating instruction"
  | Some false :: rest => scan_operators rest
  end.

Definition scan_payload (p : option Payload) (s : ModuleScan) : Result string ModuleScan :=
  match p with
  | None => Err MALFORMED
  | Some (ImportSection count) =>
      if (0 <? count)%N then Err "abi_version 3 model wasm must not import anything" else Ok s
  | Some (MemorySection count) =>
      Ok {| mutable_globals := mutable_globals s; global_index := global_index s; memories := memories s + count;
            exported_memories := exported_memories s; exported_globals := exported_globals s; prepare := prepare s |}
  | Some (GlobalSection items) => scan_globals items s
  | Some (ExportSection items) => scan_exports items s
  | Some (CodeSectionEntry None) => Err MALFORMED
  | Some (CodeSectionEntry (Some ops)) => _ ← scan_operators ops; Ok s
  | Some OtherSection => Ok s
  end.

Fixpoint scan_module (payloads : list (option Payload)) (s : ModuleScan) : Result string ModuleScan :=
  match payloads with
  | [] => Ok s
  | p :: rest => s ← scan_payload p s; scan_module rest s
  end.

Definition empty_scan : ModuleScan := {|
  mutable_globals := []; global_index := 0; memories := 0; exported_memories := 0; exported_globals := ∅;
  prepare := false |}.

Definition check_v3_module `{WasmParser} (wasm : Bytes) : Result string unit :=
  s ← scan_module (parse_all wasm) empty_scan;
  _ ← ensure ((memories s =? 1) && (exported_memories s =? 1))%N
        "abi_version 3 model wasm must define and export exactly one memory";
  _ ← ensure (forallb (fun g => g.2 && bool_decide (g.1 ∈ exported_globals s)) (mutable_globals s))
        "abi_version 3 model wasm has a non-exported or non-numeric mutable global";
  ensure (prepare s) "abi_version 3 model wasm missing model_prepare export".

(** * Staged buffers and snapshots: properties

    The snapshot cache is a least-recently-used cache with a byte budget: its operations
    are those of a list ordered by use, and its byte count is exact. *)
(** ** The reference cache

    Snapshots from the least to the most recently used. *)

Abbreviation Recency := (list (SnapshotKey * Snapshot)).

Definition bytes_held (l : Recency) : N := sum_of ((fun e => snapshot_bytes e.2) <$> l).

Definition without (key : SnapshotKey) (l : Recency) : Recency := filter (fun e => e.1 <> key) l.

Definition lru_find (key : SnapshotKey) (l : Recency) : option Snapshot :=
  snd <$> find_first (fun e => bool_decide (e.1 = key)) l.

Definition lru_get (key : SnapshotKey) (l : Recency) : Recency * option Snapshot :=
  match lru_find key l with
  | Some s => (without key l ++ [(key, s)], Some s)
  | None => (l, None)
  end.

(** Drop the oldest until [b] more bytes fit. *)
Fixpoint lru_evict (b budget : N) (l : Recency) : Recency :=
  match l with
  | [] => []
  | _ :: rest => if (bytes_held l + b <=? budget)%N then l else lru_evict b budget rest
  end.

Definition lru_insert (key : SnapshotKey) (s : Snapshot) (budget : N) (l : Recency) : Recency :=
  if (budget <? snapshot_bytes s)%N then l
  else lru_evict (snapshot_bytes s) budget (without key l) ++ [(key, s)].

Definition lru_drop (digest : string) (l : Recency) : Recency := filter (fun e => e.1.1 <> digest) l.

(** ** Representation *)

Abbreviation Stamped := (SnapshotKey * (Snapshot * N))%type.

Definition newer (a b : Stamped) : Prop := (a.2.2 < b.2.2)%N.

Definition unstamped (l : list Stamped) : Recency := (fun e => (e.1, e.2.1)) <$> l.

(** The entries, in the order of their stamps, and the bytes they hold. *)
Record snapshots_repr (c : SnapshotCache) (l : list Stamped) : Prop := {
  repr_entries : map_to_list (entries c) ≡ₚ l;
  repr_order : StronglySorted newer l;
  repr_ticks : Forall (fun e => e.2.2 <= tick c)%N l;
  repr_total : total c = bytes_held (unstamped l) }.

Lemma sum_of_app a b : sum_of (a ++ b) = (sum_of a + sum_of b)%N.
Proof. unfold sum_of. induction a as [|x a IH]; cbn; [done|]. rewrite IH. lia. Qed.

Lemma bytes_held_app a b : bytes_held (a ++ b) = (bytes_held a + bytes_held b)%N.
Proof. unfold bytes_held. by rewrite fmap_app, sum_of_app. Qed.

Lemma bytes_held_cons e l : bytes_held (e :: l) = (snapshot_bytes e.2 + bytes_held l)%N.
Proof. done. Qed.

Lemma unstamped_app a b : unstamped (a ++ b) = unstamped a ++ unstamped b.
Proof. apply fmap_app. Qed.

Lemma unstamped_filter (P : SnapshotKey -> Prop) `{!forall k, Decision (P k)} (l : list Stamped) :
  unstamped (filter (fun e => P e.1) l) = filter (fun e => P e.1) (unstamped l).
Proof.
  induction l as [|e l IH]; [done|]. cbn [unstamped fmap list_fmap]. rewrite !filter_cons. cbn [fst].
  case_decide; cbn; [f_equal|]; exact IH.
Qed.

Lemma ages_sorted_filter (P : SnapshotKey -> Prop) `{!forall k, Decision (P k)} (l : list Stamped) :
  StronglySorted newer l -> StronglySorted newer (filter (fun e => P e.1) l).
Proof.
  induction 1 as [|e l Hl IH He]; [constructor|]. rewrite filter_cons. case_decide; [|done]. constructor; [done|].
  rewrite Forall_forall in *. intros x [_ Hx]%list_elem_of_filter. auto.
Qed.

Lemma repr_lookup c l key : snapshots_repr c l -> lru_find key (unstamped l) = fst <$> entries c !! key.
Proof.
  intros [Hent _ _ _]. assert (Hin : forall x, entries c !! key = Some x <-> (key, x) ∈ l).
  { intros x. rewrite <-Hent. symmetry. apply elem_of_map_to_list. }
  unfold lru_find. destruct (entries c !! key) as [[s u]|] eqn:Hl.
  - pose proof (proj1 (Hin (s, u)) eq_refl) as Hmem. assert (Hall : forall e, e ∈ l -> e.1 = key -> e.2 = (s, u)).
    { intros [k x] He Hk. cbn in *. subst k. apply Hin in He. congruence. }
    clear -Hmem Hall. induction l as [|[k x] l IH]; [by apply elem_of_nil in Hmem|]. cbn. case_bool_decide as Hk.
    + pose proof (Hall (k, x) (list_elem_of_here _ _) Hk) as Hx. cbn in Hx. by subst x.
    + apply elem_of_cons in Hmem as [Heq|Hmem]; [by injection Heq as <- _|]. apply IH; [done|]. intros e He. apply Hall. by right.
  - assert (Hno : forall e, e ∈ l -> e.1 <> key).
    { intros [k x] He Hk. cbn in *. subst k. apply Hin in He. discriminate. }
    clear -Hno. induction l as [|[k x] l IH]; [done|]. cbn. case_bool_decide as Hk.
    + exfalso. apply (Hno (k, x)); [left|done].
    + apply IH. intros e He. apply Hno. by right.
Qed.

(** What remains without a key. *)
Lemma without_entries c l key : map_to_list (entries c) ≡ₚ l ->
  map_to_list (delete key (entries c)) ≡ₚ filter (fun e => e.1 <> key) l.
Proof.
  intros <-. destruct (entries c !! key) as [x|] eqn:Hk.
  - rewrite <-(map_to_list_delete _ _ _ Hk). rewrite filter_cons_False by (cbn; tauto).
    rewrite filter_all; [done|]. intros [k y] Hin Heq. cbn in Heq. subst. apply elem_of_map_to_list in Hin.
    by rewrite lookup_delete_eq in Hin.
  - rewrite delete_id by done. rewrite filter_all; [done|]. intros [k y] Hin Heq. cbn in Heq. subst.
    apply elem_of_map_to_list in Hin. congruence.
Qed.

Lemma filter_bytes key s (l : Recency) : NoDup l.*1 -> (key, s) ∈ l ->
  bytes_held l = (snapshot_bytes s + bytes_held (without key l))%N.
Proof.
  unfold without. induction l as [|[k x] l IH]; intros Hnd Hin; [by apply elem_of_nil in Hin|].
  rewrite fmap_cons in Hnd. apply NoDup_cons in Hnd as [Hk Hnd]. rewrite bytes_held_cons, filter_cons. cbn [fst snd].
  apply elem_of_cons in Hin as [Heq|Hin].
  - injection Heq as -> ->. rewrite decide_False by tauto. f_equal. f_equal. symmetry. apply filter_all.
    intros e He Heq. apply Hk. apply list_elem_of_fmap. by exists e.
  - rewrite decide_True.
    + rewrite bytes_held_cons. cbn [snd]. rewrite IH by done. lia.
    + intros ->. apply Hk. apply list_elem_of_fmap. by exists (key, s).
Qed.

Lemma repr_keys c l : snapshots_repr c l -> NoDup (unstamped l).*1.
Proof.
  intros [Hent _ _ _]. unfold unstamped. rewrite <-list_fmap_compose.
  change (NoDup (l.*1)). rewrite <-Hent. apply NoDup_fst_map_to_list.
Qed.

Lemma wrapping_add_small a b : (a + b < 18446744073709551616)%N -> wrapping_add a b = (a + b)%N.
Proof. apply N.mod_small. Qed.

Lemma wrapping_sub_small a b : (b <= a < 18446744073709551616)%N -> wrapping_sub a b = (a - b)%N.
Proof.
  intros [Hb Ha]. unfold wrapping_sub.
  replace (a + 18446744073709551616 - b)%N with ((a - b) + 1 * 18446744073709551616)%N by lia.
  rewrite N.Div0.mod_add. apply N.mod_small. lia.
Qed.

Section bounded.
Context (budget : N) (Hbudget : (budget < 9223372036854775808)%N).

Lemma remove_repr c l key : snapshots_repr c l -> (total c <= budget)%N ->
  snapshots_repr (remove_snapshot key c) (filter (fun e => e.1 <> key) l) /\
  unstamped (filter (fun e => e.1 <> key) l) = without key (unstamped l).
Proof.
  intros Hr Ht. assert (Hun : unstamped (filter (fun e => e.1 <> key) l) = without key (unstamped l))
    by (unfold without; exact (unstamped_filter (fun k => k <> key) l)).
  split; [|done]. pose proof (repr_keys _ _ Hr) as Hnd. pose proof (repr_lookup _ _ key Hr) as Hlook.
  destruct Hr as [Hent Hord Htick Htot]. unfold remove_snapshot. destruct (entries c !! key) as [[s u]|] eqn:Hk.
  - assert ((key, s) ∈ unstamped l) as Hin.
    { apply list_elem_of_fmap. exists (key, (s, u)). split; [done|]. rewrite <-Hent. by apply elem_of_map_to_list. }
    pose proof (filter_bytes _ _ _ Hnd Hin) as Hb. split; cbn [entries tick total].
    + by apply without_entries.
    + exact (ages_sorted_filter (fun k => k <> key) l Hord).
    + rewrite Forall_forall in *. intros e [_ He]%list_elem_of_filter. auto.
    + rewrite Hun. rewrite wrapping_sub_small by lia. lia.
  - assert (filter (fun e => e.1 <> key) l = l) as ->; [|done]. apply filter_all. intros [k x] Hin Heq. cbn in Heq. subst k.
    rewrite <-Hent in Hin. apply elem_of_map_to_list in Hin. congruence.
Qed.

Lemma without_le key l : (bytes_held (without key l) <= bytes_held l)%N.
Proof.
  unfold without. induction l as [|e l IH]; [done|]. rewrite filter_cons. case_decide; rewrite !bytes_held_cons; lia.
Qed.

Lemma remove_total c l key : snapshots_repr c l -> (total c <= budget)%N -> (total (remove_snapshot key c) <= budget)%N.
Proof.
  intros Hr Ht. destruct (remove_repr _ _ key Hr Ht) as [Hr' Hun]. rewrite (repr_total _ _ Hr'), Hun.
  pose proof (without_le key (unstamped l)). rewrite (repr_total _ _ Hr) in Ht. lia.
Qed.

Lemma remove_tick key c : tick (remove_snapshot key c) = tick c.
Proof. unfold remove_snapshot. by destruct (entries c !! key) as [[s u]|]. Qed.

(** The keys by age are those of the list. *)
Lemma by_age_repr c l : snapshots_repr c l -> by_age c = (fun e => (e.2.2, e.1)) <$> l.
Proof.
  intros [Hent Hord _ _]. unfold by_age. apply (StronglySorted_unique_strong older).
  - intros x1 x2 H1 H2 H12 H21. rewrite merge_sort_Permutation, Hent in H1.
    apply list_elem_of_fmap in H1 as (e1 & -> & He1), H2 as (e2 & -> & He2). unfold older in *. cbn in *.
    enough (e1 = e2) as -> by done. clear Hent.
    induction Hord as [|e l Hl IH Hall]; [by apply elem_of_nil in He1|]. rewrite Forall_forall in Hall.
    apply elem_of_cons in He1 as [->|He1], He2 as [->|He2]; [done| | |by apply IH];
      [apply Hall in He2; unfold newer in He2; lia|apply Hall in He1; unfold newer in He1; lia].
  - apply StronglySorted_merge_sort; [intros a b c'; unfold older; lia|intros a b; unfold older; lia].
  - clear Hent. induction Hord as [|e l Hl IH Hall]; cbn; constructor; [done|]. rewrite Forall_forall in Hall. apply Forall_forall.
    intros x (e' & -> & He')%list_elem_of_fmap. apply Hall in He'. unfold older, newer in *. cbn. lia.
  - rewrite merge_sort_Permutation. by apply fmap_Permutation.
Qed.

Lemma make_room_repr b l : forall c, (b <= budget)%N -> snapshots_repr c l -> (total c <= budget)%N ->
  exists l', snapshots_repr (make_room ((fun e => (e.2.2, e.1)) <$> l) b budget c) l' /\
    unstamped l' = lru_evict b budget (unstamped l) /\ tick (make_room ((fun e => (e.2.2, e.1)) <$> l) b budget c) = tick c.
Proof.
  induction l as [|e l IH]; intros c Hb Hr Ht; [by exists []|]. cbn [fmap list_fmap make_room].
  change (unstamped (e :: l)) with ((e.1, e.2.1) :: unstamped l). cbn [lru_evict].
  change ((e.1, e.2.1) :: unstamped l) with (unstamped (e :: l)). rewrite <-(repr_total _ _ Hr).
  rewrite wrapping_add_small by lia. destruct (total c + b <=? budget)%N; [by exists (e :: l)|].
  destruct (remove_repr _ _ e.1 Hr Ht) as [Hr' _].
  assert (filter (fun e' => e'.1 <> e.1) (e :: l) = l) as Hl.
  { rewrite filter_cons_False by tauto. apply filter_all. intros e' He' Heq.
    pose proof (repr_keys _ _ Hr) as Hnd. cbn in Hnd. apply NoDup_cons in Hnd as [Hnin _]. apply Hnin.
    apply list_elem_of_fmap. exists (e'.1, e'.2.1). split; [done|]. apply list_elem_of_fmap. by exists e'. }
  rewrite Hl in Hr'. destruct (IH _ Hb Hr' (remove_total _ _ _ Hr Ht)) as (l' & ? & ? & Htick). exists l'.
  by rewrite Htick, remove_tick.
Qed.

Lemma evict_fits b l : (b <= budget)%N -> (bytes_held (lru_evict b budget l) + b <= budget)%N.
Proof.
  intros Hb. induction l as [|e l IH]; cbn [lru_evict]; [cbn; lia|].
  destruct (bytes_held (e :: l) + b <=? budget)%N eqn:Hfit; [by apply N.leb_le in Hfit|done].
Qed.

(** Adding the newest entry. *)
Lemma push_repr c l key s : snapshots_repr c l -> entries c !! key = None -> (tick c + 1 < 18446744073709551616)%N ->
  (total c + snapshot_bytes s <= budget)%N ->
  snapshots_repr {| entries := <[key := (s, wrapping_add (tick c) 1)]> (entries c); tick := wrapping_add (tick c) 1;
    total := wrapping_add (total c) (snapshot_bytes s) |} (l ++ [(key, (s, (tick c + 1)%N))]).
Proof.
  intros [Hent Hord Htick Htot] Hno Ht Hb. rewrite !wrapping_add_small by lia. split; cbn [entries tick total].
  - rewrite map_to_list_insert by done. rewrite Hent. by rewrite Permutation_app_comm.
  - clear -Hord Htick. induction Hord as [|e l Hl IH Hall]; cbn; [by repeat constructor|].
    apply Forall_cons in Htick as [He Htick]. constructor; [by apply IH|]. apply Forall_app. split; [done|].
    repeat constructor. unfold newer. cbn. lia.
  - apply Forall_app. split; [|by repeat constructor]. eapply Forall_impl; [done|]. cbn. lia.
  - rewrite unstamped_app, bytes_held_app, Htot. cbn. lia.
Qed.

Lemma evict_suffix b l : exists pre, l = pre ++ lru_evict b budget l.
Proof.
  induction l as [|e l [pre IH]]; cbn [lru_evict]; [by exists []|].
  destruct (_ <=? _)%N; [by exists []|]. exists (e :: pre). cbn. by f_equal.
Qed.

Lemma find_absent key (l : Recency) : (forall e, e ∈ l -> e.1 <> key) -> lru_find key l = None.
Proof.
  unfold lru_find. induction l as [|e l IH]; intros Hno; [done|]. cbn. rewrite bool_decide_eq_false_2 by (apply Hno; left).
  apply IH. intros e' He'. apply Hno. by right.
Qed.

Lemma absent_lookup c l key : snapshots_repr c l -> (forall e, e ∈ unstamped l -> e.1 <> key) -> entries c !! key = None.
Proof.
  intros Hr Hno. pose proof (repr_lookup _ _ key Hr) as Hl. rewrite find_absent in Hl by done.
  by destruct (entries c !! key).
Qed.

(** The cache represents a list and keeps within the budget. *)
Definition cache_at (c : SnapshotCache) (l : Recency) : Prop :=
  exists stamped, snapshots_repr c stamped /\ unstamped stamped = l /\ (total c <= budget)%N.

Lemma get_refines c l key : cache_at c l -> (tick c + 1 < 18446744073709551616)%N ->
  cache_at (get_snapshot key c).1 (lru_get key l).1 /\ (get_snapshot key c).2 = (lru_get key l).2 /\
  (tick (get_snapshot key c).1 <= tick c + 1)%N.
Proof.
  intros (st & Hr & <- & Ht) Htick. unfold get_snapshot, lru_get. rewrite (repr_lookup _ _ key Hr).
  destruct (entries c !! key) as [[s u]|] eqn:Hk; cbn [fmap option_fmap option_map fst snd tick].
  - split; [|split; [done|rewrite wrapping_add_small by done; lia]].
    destruct (remove_repr _ _ key Hr Ht) as [Hr' Hun].
    assert (snapshot_bytes s <= total c)%N as Hle.
    { rewrite (repr_total _ _ Hr), (filter_bytes key s); [lia|by eapply repr_keys|].
      apply list_elem_of_fmap. exists (key, (s, u)). split; [done|]. rewrite <-(repr_entries _ _ Hr).
      by apply elem_of_map_to_list. }
    unfold remove_snapshot in Hr'. rewrite Hk in Hr'.
    assert (Hsub : wrapping_sub (total c) (snapshot_bytes s) = (total c - snapshot_bytes s)%N) by (apply wrapping_sub_small; lia).
    rewrite Hsub in Hr'. pose proof (push_repr _ _ key s Hr') as Hpush. cbn [entries tick total] in Hpush.
    rewrite lookup_delete_eq in Hpush. rewrite insert_delete_eq in Hpush.
    replace (wrapping_add (total c - snapshot_bytes s) (snapshot_bytes s)) with (total c) in Hpush
      by (rewrite wrapping_add_small; lia).
    eexists. split; [apply Hpush; [done|done|lia]|]. split; [|done]. by rewrite unstamped_app, Hun.
  - split; [|split; [done|rewrite wrapping_add_small by done; lia]].
    exists st. split; [|done]. destruct Hr as [He Ho Hf Hs]. split; cbn [entries tick total]; [done|done| |done].
    rewrite wrapping_add_small by done. eapply Forall_impl; [exact Hf|]. cbn. lia.
Qed.

Lemma insert_refines c l key s : cache_at c l -> (tick c + 1 < 18446744073709551616)%N ->
  cache_at (insert_snapshot key s budget c) (lru_insert key s budget l) /\
  (tick (insert_snapshot key s budget c) <= tick c + 1)%N.
Proof.
  intros (st & Hr & <- & Ht) Htick. unfold insert_snapshot, lru_insert.
  destruct (budget <? snapshot_bytes s)%N eqn:Hbig; [split; [by exists st|lia]|]. apply N.ltb_ge in Hbig.
  destruct (remove_repr _ _ key Hr Ht) as [Hr1 Hun]. pose proof (remove_total _ _ key Hr Ht) as Ht1.
  rewrite (by_age_repr _ _ Hr1). destruct (make_room_repr _ _ _ Hbig Hr1 Ht1) as (l' & Hr2 & Hev & Htk).
  set (c2 := make_room _ _ _ _) in *. rewrite Hun in Hev. rewrite remove_tick in Htk.
  destruct (evict_suffix (snapshot_bytes s) (without key (unstamped st))) as [pre Hpre].
  assert (entries c2 !! key = None) as Hnone.
  { eapply absent_lookup; [exact Hr2|]. rewrite Hev. intros e He.
    assert (e ∈ without key (unstamped st)) as Hin by (rewrite Hpre; apply elem_of_app; by right).
    by apply list_elem_of_filter in Hin as [? _]. }
  assert (total c2 + snapshot_bytes s <= budget)%N as Hfit by (rewrite (repr_total _ _ Hr2), Hev; by apply evict_fits).
  pose proof (push_repr _ _ key s Hr2 Hnone) as Hpush. rewrite Htk in Hpush |- *.
  split; [|cbn [tick]; rewrite wrapping_add_small by done; lia].
  eexists. split; [apply Hpush; [done|done]|]. split; [by rewrite unstamped_app, Hev|]. cbn [total].
  rewrite wrapping_add_small by lia. done.
Qed.

Lemma filter_same {A} (P Q : A -> Prop) `{!forall x, Decision (P x), !forall x, Decision (Q x)} (l : list A) :
  (forall x, x ∈ l -> P x <-> Q x) -> filter P l = filter Q l.
Proof.
  induction l as [|a l IH]; intros Hpq; [done|]. rewrite !filter_cons. rewrite (IH ltac:(intros; apply Hpq; by right)).
  pose proof (Hpq a (list_elem_of_here _ _)) as Ha. destruct (decide (P a)), (decide (Q a)); done || tauto.
Qed.

Lemma remove_refines c l key : cache_at c l -> cache_at (remove_snapshot key c) (without key l) /\
  tick (remove_snapshot key c) = tick c.
Proof.
  intros (st & Hr & <- & Ht). split; [|apply remove_tick]. destruct (remove_repr _ _ key Hr Ht) as [Hr' Hun].
  eexists. split; [exact Hr'|]. split; [done|]. by eapply remove_total.
Qed.

(** Removing the keys of a package from a list of entries. *)
Lemma drop_entries c l digest (es : list Stamped) : cache_at c l ->
  let c' := foldr (fun e c => if decide (e.1.1 = digest) then remove_snapshot e.1 c else c) c es in
  cache_at c' (filter (fun e => ~ (e.1.1 = digest /\ e.1 ∈ es.*1)) l) /\ tick c' = tick c.
Proof.
  intros Hc. induction es as [|e es [IH Ht]]; cbn [foldr].
  - rewrite filter_all; [done|]. intros x _ [_ Hx]. by apply elem_of_nil in Hx.
  - case_decide as Hd.
    + destruct (remove_refines _ _ e.1 IH) as [Hr Hrt]. split; [|congruence]. unfold without in Hr.
      rewrite list_filter_filter in Hr. erewrite filter_same; [exact Hr|]. intros x _. rewrite fmap_cons, elem_of_cons.
      split; [|tauto]. intros Hn. split; [|tauto]. intros Heq. apply Hn. rewrite Heq. tauto.
    + split; [|done]. erewrite filter_same; [exact IH|]. intros x _. rewrite fmap_cons, elem_of_cons.
      split; [tauto|]. intros Hn [Hx [Heq|Hin]]; [by rewrite Heq in Hx|tauto].
Qed.

Lemma drop_refines c l digest : cache_at c l -> cache_at (drop_package digest c) (lru_drop digest l) /\
  tick (drop_package digest c) = tick c.
Proof.
  intros Hc. destruct (drop_entries _ _ digest (map_to_list (entries c)) Hc) as [Hd Ht]. split; [|done].
  unfold lru_drop. erewrite filter_same; [exact Hd|]. intros x Hx. cbn. split; [tauto|].
  intros Hn Heq. apply Hn. split; [done|]. destruct Hc as (st & Hr & <- & _).
  apply list_elem_of_fmap in Hx as (e & -> & He). rewrite <-(repr_entries _ _ Hr) in He.
  apply list_elem_of_fmap. by exists e.
Qed.

(** ** Sequences of operations *)

Inductive SnapshotOp :=
  | Lookup (key : SnapshotKey)
  | Store (key : SnapshotKey) (s : Snapshot)
  | DropPackage (digest : string)
  | Clear.

Definition step_snapshots (op : SnapshotOp) (c : SnapshotCache) : SnapshotCache * option Snapshot :=
  match op with
  | Lookup key => get_snapshot key c
  | Store key s => (insert_snapshot key s budget c, None)
  | DropPackage digest => (drop_package digest c, None)
  | Clear => (clear_snapshots c, None)
  end.

Definition step_lru (op : SnapshotOp) (l : Recency) : Recency * option Snapshot :=
  match op with
  | Lookup key => lru_get key l
  | Store key s => (lru_insert key s budget l, None)
  | DropPackage digest => (lru_drop digest l, None)
  | Clear => ([], None)
  end.

(** Run a machine over operations and collect what the lookups return. *)
Fixpoint run_cache {St} (step : SnapshotOp -> St -> St * option Snapshot) (ops : list SnapshotOp) (s : St)
    : St * list (option Snapshot) :=
  match ops with
  | [] => (s, [])
  | op :: rest => let '(s1, r) := step op s in let '(s2, rs) := run_cache step rest s1 in (s2, r :: rs)
  end.

Lemma empty_repr c : entries c = ∅ -> total c = 0%N -> snapshots_repr c [].
Proof. intros He Ht. split; [by rewrite He, map_to_list_empty|apply SSorted_nil|apply Forall_nil_2|done]. Qed.

Lemma step_refines op c l : cache_at c l -> (tick c + 1 < 18446744073709551616)%N ->
  cache_at (step_snapshots op c).1 (step_lru op l).1 /\ (step_snapshots op c).2 = (step_lru op l).2 /\
  (tick (step_snapshots op c).1 <= tick c + 1)%N.
Proof.
  intros Hc Ht. destruct op as [key|key s|digest|]; cbn [step_snapshots step_lru fst snd].
  - by apply get_refines.
  - destruct (insert_refines c l key s Hc Ht). done.
  - destruct (drop_refines c l digest Hc) as [? ->]. split_and!; [done|done|lia].
  - split_and!; [|done|cbn; lia]. exists []. split_and!; [by apply empty_repr|done|apply N.le_0_l].
Qed.

Lemma run_refines ops : forall c l, cache_at c l -> (tick c + N.of_nat (length ops) < 18446744073709551616)%N ->
  cache_at (run_cache step_snapshots ops c).1 (run_cache step_lru ops l).1 /\
  (run_cache step_snapshots ops c).2 = (run_cache step_lru ops l).2.
Proof.
  induction ops as [|op ops IH]; intros c l Hc Ht; cbn [run_cache]; [done|]. cbn [length] in Ht.
  destruct (step_refines op c l Hc) as (Hc1 & Hres & Ht1); [lia|].
  destruct (step_snapshots op c) as [c1 r1], (step_lru op l) as [l1 r1']. cbn in Hc1, Hres, Ht1. subst r1'.
  destruct (IH c1 l1 Hc1) as [Hc2 Hrs]; [lia|].
  destruct (run_cache step_snapshots ops c1) as [c2 rs], (run_cache step_lru ops l1) as [l2 rs']. cbn in *. by subst.
Qed.
End bounded.

(** The snapshot cache is a least-recently-used cache with a budget of bytes: after
    every sequence of lookups, insertions, drops and clears, the lookups have returned
    what a list ordered by use returns, the cache holds exactly the snapshots of that
    list, and its byte count is theirs and within the budget. *)
Theorem snapshot_cache_is_lru budget ops : (budget < 9223372036854775808)%N ->
  (N.of_nat (length ops) < 18446744073709551616)%N ->
  let '(c, found) := run_cache (step_snapshots budget) ops empty_snapshots in
  let '(l, found') := run_cache (step_lru budget) ops [] in
  found = found' /\ (forall key, fst <$> entries c !! key = lru_find key l) /\
  total c = bytes_held l /\ (bytes_held l <= budget)%N.
Proof.
  intros Hb Hlen. assert (cache_at budget empty_snapshots []) as H0.
  { exists []. split_and!; [by apply empty_repr|done|apply N.le_0_l]. }
  destruct (run_refines budget Hb ops _ _ H0 Hlen) as [(st & Hr & Hl & Ht) Hres].
  destruct (run_cache _ ops empty_snapshots) as [c found], (run_cache _ ops []) as [l found']. cbn in *. subst l.
  split_and!; [done| |apply Hr|by rewrite <-(repr_total _ _ Hr)]. intros key. symmetry. by apply repr_lookup.
Qed.

Definition small_snapshot (n : nat) : Snapshot := {| memory := replicate n "a"%char; globals := [] |}.

Lemma snapshot_cache_is_lru_witness :
  let ops := [Store ("a", Wasmi) (small_snapshot 4); Store ("b", Wasmi) (small_snapshot 4); Lookup ("a", Wasmi);
              Store ("c", Wasmi) (small_snapshot 4); Lookup ("b", Wasmi); Lookup ("a", Wasmi)] in
  let '(c, found) := run_cache (step_snapshots 10) ops empty_snapshots in
  found = [None; None; Some (small_snapshot 4); None; None; Some (small_snapshot 4)] /\ total c = 8%N.
Proof.
  intros ops. pose proof (snapshot_cache_is_lru 10 ops eq_refl eq_refl) as Hlru.
  destruct (run_cache (step_snapshots 10) ops empty_snapshots) as [c found].
  destruct (run_cache (step_lru 10) ops []) as [l found'] eqn:Hl. vm_compute in Hl. injection Hl as <- <-.
  destruct Hlru as (-> & _ & -> & _). split; reflexivity.
Defined.
