(* ===== verification/ModelAdapter.v ===== *)
(** * Accelerator adapters

    [traverse-runtime/src/exact_model/adapter.rs]: the placements a policy may list, the
    adapter interface and the device self-check that compares an adapter's predictions
    with the signed conformance vector of a variant. *)
From S2P Require Import Prelude Effect Json Security HostConnector GuestFrame ModelPackage.
From Stdlib Require Import SpecFloat Ascii.

(** A native accelerator and its state. *)
Class AcceleratorAdapter := {
  Adapter : Type;
  adapter_id : Adapter -> string;
  available : Adapter -> bool;
  adapter_compute_units : Adapter -> string;
  platform_version : Adapter -> string;
  adapter_fuel_metering : Adapter -> FuelMetering;
  predict : CachedAcceleratorVariant -> Bytes -> Adapter -> Adapter * Result HostConnectorError Bytes }.

(** [f64::exp] *)
Class Libm := { exp : spec_float -> spec_float }.

(** ** Placements *)

Definition KNOWN_PLACEMENTS : list string := [PLACEMENT_WASM_CPU; ADAPTER_COREML].

Fixpoint distinct_known (seen ids : list string) : option (list string) :=
  match ids with
  | [] => Some seen
  | id :: rest =>
      if bool_decide (id ∈ KNOWN_PLACEMENTS) && negb (bool_decide (id ∈ seen))
      then distinct_known (seen ++ [id]) rest else None
  end.

Definition effective_placements (placements : list string) : option (list string) :=
  match placements with [] => Some [PLACEMENT_WASM_CPU] | _ => distinct_known [] placements end.

(** ** Frames of a conformance vector *)

Record VariantFrameContract := { input_dtype : ascii; output_dtype : ascii }.

#[export] Instance VariantFrameContract_eq_dec : EqDecision VariantFrameContract.
Proof. solve_decision. Defined.

Definition vector_case (case : Value) : option (Bytes * Bytes) :=
  input ← (get "input_frame_hex" case ≫= as_str) ≫= (fun s => hex_decode (text_bytes s));
  output ← (get "output_frame_hex" case ≫= as_str) ≫= (fun s => hex_decode (text_bytes s));
  Some (input, output).

Definition ok_value {E T} (r : Result E T) : option T := match r with Ok v => Some v | Err _ => None end.

Definition vector_cases `{SerdeJson} (vector : Bytes) : option (list (Bytes * Bytes)) :=
  value ← ok_value (from_slice vector);
  cases ← get "cases" value ≫= as_array;
  mapM vector_case cases.

Fixpoint contract_loop (contract : option VariantFrameContract) (cases : list (Bytes * Bytes))
    : option (option VariantFrameContract) :=
  match cases with
  | [] => Some contract
  | (input, expected) :: rest =>
      '(i, _, _) ← ok_value (decode_guest_frame input);
      '(o, _, _) ← ok_value (decode_guest_frame expected);
      let case := {| input_dtype := i; output_dtype := o |} in
      match contract with
      | Some seen => if decide (seen = case) then contract_loop (Some case) rest else None
      | None => contract_loop (Some case) rest
      end
  end.

Definition frame_contract `{SerdeJson} (vector : Bytes) : option VariantFrameContract :=
  cases ← vector_cases vector; mjoin (contract_loop None cases).

(** ** Numbers *)

Definition with_sign (negative : bool) (m : Z) : Z := if negative then (- m)%Z else m.

(** [f64::from(f32::from_bits(bits))] *)
Definition f64_of_f32 (bits : N) : spec_float :=
  let negative := N.testbit bits 31 in
  let e := N.land (N.shiftr bits 23) 255 in
  let m := N.land bits 8388607 in
  if (e =? 255)%N then (if (m =? 0)%N then S754_infinity negative else S754_nan)
  else if (e =? 0)%N then
    (if (m =? 0)%N then S754_zero negative
     else binary_normalize 53 1024 (with_sign negative (Z.of_N m)) (-149) negative)
  else binary_normalize 53 1024 (with_sign negative (Z.of_N (m + 8388608))) (Z.of_N e - 150) negative.

Definition one : spec_float := binary_normalize 53 1024 1 0 false.

Definition apply_transform `{Libm} (t : ScoreTransform) (bits : N) : spec_float :=
  let v := f64_of_f32 bits in
  match t with
  | Identity => v
  | Sigmoid => SFdiv 53 1024 one (SFadd 53 1024 one (exp (SFopp v)))
  end.

Definition is_nan (f : spec_float) : bool := match f with S754_nan => true | _ => false end.

(** [worst.max(diff)], with NaN once there is one. *)
Definition worse (worst diff : spec_float) : spec_float :=
  if is_nan diff || is_nan worst then S754_nan
  else if SFltb worst diff then diff else worst.

(** The little-endian [f32]s of a payload. *)
Fixpoint f32_chunks (b : Bytes) : list N :=
  match b with
  | c0 :: c1 :: c2 :: c3 :: rest => from_le [c0; c1; c2; c3] :: f32_chunks rest
  | _ => []
  end.

Definition f32s (b : Bytes) : option (list N) :=
  if (length b mod 4 =? 0)%nat then Some (f32_chunks b) else None.

(** The key by which [f32::total_cmp] orders bit patterns. *)
Definition total_key (bits : N) : Z :=
  if (bits <? 2147483648)%N then Z.of_N bits else (- 1 - Z.of_N (bits - 2147483648))%Z.

Definition value_at (values : list N) (i : nat) : N := default 0%N (values !! i).

Definition top_indices (values : list N) (k : N) : list nat :=
  take (N.to_nat (N.min k (N.of_nat (length values))))
    (stable_sort (fun left right => (total_key (value_at values right) <=? total_key (value_at values left))%Z)
      (seq 0 (length values))).

(** ** One case *)

Record CaseComparison := { case_passed : bool; case_worst : option spec_float; top_k_mismatch : bool }.

Definition FAILED : CaseComparison := {| case_passed := false; case_worst := None; top_k_mismatch := false |}.

Definition worst_diff `{Libm} (t : ScoreTransform) (reference values : list N) : spec_float :=
  foldl worse (S754_zero false)
    (zip_with (fun left right => SFabs (SFsub 53 1024 (apply_transform t left) (apply_transform t right)))
       reference values).

Definition compare_values `{Libm} (reference values : list N) (t : VariantTolerance) : CaseComparison :=
  let worst := worst_diff (score_transform t) reference values in
  let mismatch := negb (bool_decide (top_indices reference (top_k t) = top_indices values (top_k t))) in
  {| case_passed := SFleb worst (max_abs_diff t) && negb mismatch; case_worst := Some worst;
     top_k_mismatch := mismatch |}.

Definition compare_case `{Libm} (expected actual : Bytes) (t : VariantTolerance) : CaseComparison :=
  match decode_guest_frame expected, decode_guest_frame actual with
  | Ok (dtype, dims, reference), Ok (actual_dtype, actual_dims, values) =>
      if negb (bool_decide (dtype = actual_dtype) && bool_decide (dims = actual_dims)) then FAILED
      else if negb (bool_decide (dtype ∈ f32_dtypes t)) then
        {| case_passed := bool_decide (reference = values); case_worst := None; top_k_mismatch := false |}
      else match f32s reference, f32s values with
           | Some reference, Some values =>
               if decide (length reference = length values) then compare_values reference values t else FAILED
           | _, _ => FAILED
           end
  | _, _ => FAILED
  end.

(** ** The self-check *)

Record SelfCheckEvidence := {
  passed : bool;
  cases : N;
  failed_cases : N;
  worst_abs_diff : option spec_float;
  worst_case : option N;
  top_k_mismatches : N;
  other_failures : N }.

Definition unreadable : SelfCheckEvidence := {|
  passed := false; cases := 0; failed_cases := 0; worst_abs_diff := None; worst_case := None;
  top_k_mismatches := 0; other_failures := 0 |}.

Definition started_check (n : nat) : SelfCheckEvidence := {|
  passed := true; cases := N.min (N.of_nat n) u32_max; failed_cases := 0; worst_abs_diff := None; worst_case := None;
  top_k_mismatches := 0; other_failures := 0 |}.

(** [diff > worst || diff.is_nan()], or the first. *)
Definition is_new_worst (worst : option spec_float) (diff : spec_float) : bool :=
  match worst with None => true | Some w => SFltb w diff || is_nan diff end.

Definition record_case (index : nat) (c : CaseComparison) (e : SelfCheckEvidence) : SelfCheckEvidence :=
  let failed := negb (case_passed c) in
  let fresh := match case_worst c with Some d => is_new_worst (worst_abs_diff e) d | None => false end in {|
  passed := passed e && case_passed c;
  cases := cases e;
  failed_cases := if failed then failed_cases e + 1 else failed_cases e;
  worst_abs_diff := if fresh then case_worst c else worst_abs_diff e;
  worst_case := if fresh then Some (N.min (N.of_nat index) u32_max) else worst_case e;
  top_k_mismatches := if failed && top_k_mismatch c then top_k_mismatches e + 1 else top_k_mismatches e;
  other_failures := if failed && bool_decide (case_worst c = None) then other_failures e + 1 else other_failures e |}.

Abbreviation SelfCheckKey := (string * string * string * string)%type.
Abbreviation SelfChecks := (gmap SelfCheckKey SelfCheckEvidence).

Section self_check.
Context `{AcceleratorAdapter, Libm, SerdeJson}.

Definition check_case (v : AcceleratorVariant) (cached : CachedAcceleratorVariant) (case : Bytes * Bytes) (a : Adapter)
    : Adapter * CaseComparison :=
  let '(a, r) := predict cached case.1 a in
  (a, match r with Ok actual => compare_case case.2 actual (tolerance v) | Err _ => FAILED end).

Fixpoint run_cases (v : AcceleratorVariant) (cached : CachedAcceleratorVariant) (index : nat) (cs : list (Bytes * Bytes))
    (e : SelfCheckEvidence) (a : Adapter) : Adapter * SelfCheckEvidence :=
  match cs with
  | [] => (a, e)
  | case :: rest =>
      let '(a, c) := check_case v cached case a in
      run_cases v cached (S index) rest (record_case index c e) a
  end.

Definition self_check_key (v : AcceleratorVariant) (a : Adapter) : SelfCheckKey :=
  (variant_digest v, adapter_id a, platform_version a, adapter_compute_units a).

(** The cases of a vector whose frames share one contract. *)
Definition readable_cases (vector : Bytes) : option (list (Bytes * Bytes)) :=
  _ ← frame_contract vector;
  cs ← vector_cases vector;
  if decide (cs = []) then None else Some cs.

Definition self_check (v : AcceleratorVariant) (cached : CachedAcceleratorVariant) (s : SelfChecks * Adapter)
    : (SelfChecks * Adapter) * SelfCheckEvidence :=
  let '(cache, a) := s in
  let key := self_check_key v a in
  match cache !! key with
  | Some evidence => ((cache, a), evidence)
  | None =>
      let '(a, evidence) := match readable_cases (conformance_vector cached) with
        | None => (a, unreadable)
        | Some cs => run_cases v cached 0 cs (started_check (length cs)) a
        end in
      ((<[key := evidence]> cache, a), evidence)
  end.
End self_check.
