(* ===== verification/ModelGuest.v ===== *)
(** * Model guests

    The two engines of [traverse-runtime/src/exact_model.rs] that run a [wasm-cpu] model:
    [execute_wasm_cpu_model] and [execute_wasmi_model] with the compiled-module cache, the
    placement of buffers, guest return codes, fuel slices and snapshot reuse.  The
    WebAssembly engines, what the process observes of the cancel flag and of the clock,
    and the enabled features are parameters. *)
From S2P Require Import Prelude Effect Json HostConnector GuestFrame ModelStore.
From Stdlib Require Import Ascii.

Definition WASMI_FUEL_SLICE : N := 1000000.

(** ** Parameters *)

(** [wasmtime] and [wasmi]: a module, its instance with memory, globals and fuel, and
    calls of its exports, which may trap or run out of fuel. *)
Class GuestEngine := {
  Module_ : Type;
  Instance_ : Type;
  Paused : Type;
  compile : ModelEngine -> Bytes -> option Module_;
  instantiate : ModelEngine -> Module_ -> N -> N -> option Instance_;
  memory_data : Instance_ -> option Bytes;
  set_memory : Bytes -> Instance_ -> Instance_;
  grow_memory : N -> Instance_ -> option Instance_;
  get_fuel : Instance_ -> N;
  set_fuel : N -> Instance_ -> Instance_;
  mutable_globals_of : Instance_ -> list (string * GlobalValue);
  set_global : string -> GlobalValue -> Instance_ -> Instance_;
  has_execute : Instance_ -> bool;
  has_prepare : Instance_ -> bool;
  has_alloc : Instance_ -> bool;
  call_alloc : Z -> Instance_ -> option (Z * Instance_);
  call_prepare : Instance_ -> option (Z * Instance_ + Paused * Instance_ + Instance_);
  call_execute : Z * Z * Z * Z -> Instance_ -> option (Z * Instance_ + Paused * Instance_ + Instance_);
  resume : Paused -> Instance_ -> option (Z * Instance_ + Paused * Instance_ + Instance_) }.

(** A call that finished, that ran out of fuel, or that stopped otherwise. *)
Abbreviation Call := (Z * Instance_ + Paused * Instance_ + Instance_)%type.

(** What the process reads of the cancel flag and of the clock (in nanoseconds), by the
    number of the reading. *)
Class Environment := { cancel_at : nat -> bool; instant_at : nat -> N }.

(** Cargo features. *)
Class Build := { wasmtime_executor : bool; wasmi_executor : bool }.

(** ** State *)

Record GuestState `{GuestEngine} := {
  compiled : gmap SnapshotKey Module_;
  snapshots : SnapshotCache;
  readings : nat }.

(** Keys of [compiled] are (wasm digest, engine). *)
Section state.
Context `{GuestEngine, Environment}.

Definition with_snapshots (f : SnapshotCache -> SnapshotCache) (s : GuestState) : GuestState := {|
  compiled := compiled s; snapshots := f (snapshots s); readings := readings s |}.

(** [cancel.load(..)] *)
Definition load_cancel {E} : Eff GuestState E bool := fun s =>
  ({| compiled := compiled s; snapshots := snapshots s; readings := S (readings s) |}, Ok (cancel_at (readings s))).

(** [Instant::now()] *)
Definition now {E} : Eff GuestState E N := fun s =>
  ({| compiled := compiled s; snapshots := snapshots s; readings := S (readings s) |}, Ok (instant_at (readings s))).
End state.

(** ** Limits, codes and regions *)

Record GuestLimits := {
  limit_memory : N;
  limit_fuel : N;
  limit_output : N;
  abi : N;
  prepare_fuel : option N;
  prepare_only : bool }.

Record SnapshotReuse := { reuse_digest : string; reuse_engine : ModelEngine; reuse_budget : N }.

Definition model_error_plain (c : HostConnectorErrorCode) (m : string) : HostConnectorError := plain_error c m.

Definition missing_prepare : HostConnectorError :=
  model_error_plain ModelIncompatible "abi_version 3 model wasm missing model_prepare export".
Definition prepare_failed : HostConnectorError :=
  model_error_plain ExecutionFailed "model_prepare trapped, ran out of fuel, or returned non-zero".
Definition execute_failed : HostConnectorError :=
  model_error_plain ExecutionFailed "model_execute trap or fuel exhausted".
Definition alloc_failed : HostConnectorError :=
  model_error_plain ExecutionFailed "model_alloc trapped or ran out of fuel".
Definition missing_alloc : HostConnectorError :=
  model_error_plain ModelIncompatible "abi_version 2 model wasm missing model_alloc export".
Definition grow_failed : HostConnectorError :=
  model_error_plain ResourceExhausted "model memory grow failed".

(** Pages needed to hold some bytes. *)
Definition pages_for (b : N) : N := ((b + 65535) / 65536)%N.

Definition GUEST_REJECT_GENERIC : Z := -1.
Definition GUEST_REJECT_FRAME_MISMATCH : Z := -2.
Definition GUEST_REJECT_INFERENCE_FAILED : Z := -3.
Definition GUEST_REJECT_OUTPUT_MISMATCH : Z := -4.

Definition guest_rejection (out_len : Z) : HostConnectorError :=
  let '(c, r, m) :=
    if (out_len =? GUEST_REJECT_FRAME_MISMATCH)%Z then
      (InvalidInput, FrameMismatch, "model rejected the input frame: it does not match the package's tensor contract")
    else if (out_len =? GUEST_REJECT_INFERENCE_FAILED)%Z then
      (ExecutionFailed, InferenceFailed, "model inference failed inside the guest")
    else if (out_len =? GUEST_REJECT_OUTPUT_MISMATCH)%Z then
      (ModelIncompatible, OutputMismatch, "model output does not match the package's declared output shape")
    else (ExecutionFailed, GuestRejected, "model rejected the call") in
  {| code := c; reason := Some r; detail := None; message := m |}.

Definition guest_execute_outcome (out_len : Z) (max_output : N) : Result HostConnectorError nat :=
  if (out_len <? 0)%Z then Err (guest_rejection out_len)
  else if (max_output <? Z.to_N out_len)%N then
    Err {| code := ResourceExhausted; reason := Some OutputLimitExceeded; detail := None;
           message := "model output exceeds the output ceiling" |}
  else Ok (Z.to_nat out_len).

Definition i32_max : Z := 2147483647.

(** [i32] arithmetic that is not checked. *)
Definition wrap_i32 (z : Z) : Z := ((z + 2147483648) mod 4294967296 - 2147483648)%Z.

(** [i32::try_from(len).unwrap_or(i32::MAX)] *)
Definition i32_length (n : nat) : Z := Z.min (Z.of_nat n) i32_max.

Definition output_capacity (max_output : N) : Z := Z.min (Z.of_N max_output) i32_max.

Definition v1_placement (input_len : nat) (out_cap : Z) : Z * Z * N :=
  let in_ptr := 64%Z in
  let out_ptr := wrap_i32 (wrap_i32 (in_ptr + i32_length input_len) + 64) in
  (in_ptr, out_ptr, (Z.to_N out_ptr + Z.to_N out_cap)%N).

Definition check_v2_regions (in_ptr : Z) (in_len : nat) (out_ptr out_cap : Z) (memory_size : N)
    : Result HostConnectorError unit :=
  let in_start := Z.to_N in_ptr in
  let out_start := Z.to_N out_ptr in
  let in_end := saturating_add in_start (N.of_nat in_len) in
  let out_end := saturating_add out_start (Z.to_N out_cap) in
  ensure (negb ((in_ptr <? 0)%Z || (out_ptr <? 0)%Z || (out_cap <? 0)%Z
      || (in_start =? 0)%N || (out_start =? 0)%N || (memory_size <? in_end)%N || (memory_size <? out_end)%N
      || ((in_start <? out_end) && (out_start <? in_end))%N))
    (model_error_plain ExecutionFailed "model_alloc returned an invalid region").

(** ** Memory *)

Section guest.
Context `{GuestEngine, Environment, Build}.

Definition memory_size (i : Instance_) : N := N.of_nat (length (default [] (memory_data i))).

(** [memory.write(..)], without effect when out of range. *)
Definition write_memory (offset : N) (b : Bytes) (i : Instance_) : Instance_ :=
  match memory_data i with
  | Some m =>
      let o := N.to_nat offset in
      if (o + length b <=? length m)%nat then set_memory (take o m ++ b ++ drop (o + length b) m) i else i
  | None => i
  end.

(** [memory.read(..)] into a buffer of zeros, which stays as it is when out of range. *)
Definition read_memory (offset : N) (len : nat) (i : Instance_) : Bytes :=
  let m := default [] (memory_data i) in
  let o := N.to_nat offset in
  if (o + len <=? length m)%nat then take len (drop o m) else replicate len "000"%char.

Definition grow_to (pages : N) (i : Instance_) : Result HostConnectorError Instance_ :=
  let current := pages_for (memory_size i) in
  if (current <? pages)%N then ok_or (grow_memory (pages - current) i) grow_failed else Ok i.

(** The input and output windows: fixed offsets, or regions the guest allocates. *)
Definition place_buffers (input_len : nat) (out_cap : Z) (version : N) (i : Instance_)
    : Result HostConnectorError (Z * Z * Instance_) :=
  if (2 <=? version)%N then
    _ ← ensure (has_alloc i) missing_alloc;
    '(in_ptr, i) ← ok_or (call_alloc (i32_length input_len) i) alloc_failed;
    '(out_ptr, i) ← ok_or (call_alloc out_cap i) alloc_failed;
    _ ← check_v2_regions in_ptr input_len out_ptr out_cap (memory_size i);
    Ok (in_ptr, out_ptr, i)
  else
    let '(in_ptr, out_ptr, stop) := v1_placement input_len out_cap in
    i ← grow_to (pages_for stop) i;
    Ok (in_ptr, out_ptr, i).

(** ** Compiled modules *)

Definition compile_error : HostConnectorError := model_error_plain ModelIncompatible "model wasm failed validation".

Definition compiled_module (engine : ModelEngine) (key : string) (wasm : Bytes) : Eff GuestState HostConnectorError Module_ :=
  fun s =>
  match compiled s !! (key, engine) with
  | Some m => (s, Ok m)
  | None =>
      match compile engine wasm with
      | Some m => ({| compiled := <[(key, engine) := m]> (compiled s); snapshots := snapshots s; readings := readings s |}, Ok m)
      | None => (s, Err compile_error)
      end
  end.

(** Is the engine part of the build? *)
Definition enabled (engine : ModelEngine) : bool :=
  match engine with Wasmtime => wasmtime_executor | Wasmi => wasmi_executor end.

(** [CompiledGuests::warm] *)
Definition warm (engine : ModelEngine) (key : string) (wasm : Bytes) (s : GuestState) : GuestState :=
  if enabled engine then (compiled_module engine key wasm s).1 else s.

(** ** Snapshots *)

(** [SnapshotReuse::usable] *)
Definition usable (r : SnapshotReuse) (memory_ceiling : N) (s : GuestState) : GuestState * option Snapshot :=
  let '(c, found) := get_snapshot (reuse_digest r, reuse_engine r) (snapshots s) in
  (with_snapshots (fun _ => c) s,
   snapshot ← found; if (N.of_nat (length (memory snapshot)) <=? memory_ceiling)%N then Some snapshot else None).

(** [SnapshotReuse::store] *)
Definition store_snapshot (r : SnapshotReuse) (snapshot : Snapshot) (s : GuestState) : GuestState :=
  with_snapshots (insert_snapshot (reuse_digest r, reuse_engine r) snapshot (reuse_budget r)) s.

Definition restore (snapshot : Snapshot) (i : Instance_) : Result HostConnectorError Instance_ :=
  i ← grow_to (pages_for (N.of_nat (length (memory snapshot)))) i;
  Ok (foldl (fun i g => set_global g.1 g.2 i) (write_memory 0 (memory snapshot) i) (globals snapshot)).

Definition take_snapshot (i : Instance_) : Snapshot := {|
  memory := default [] (memory_data i);
  globals := stable_sort (fun a b => bool_decide (key_le a b)) (mutable_globals_of i) |}.

(** ** Fuel slices *)

Definition cancelled_mid_run : HostConnectorError := model_error_plain Cancelled "model.execute cancelled mid-run".
Definition timed_out_mid_run : HostConnectorError := model_error_plain Timeout "model.execute exceeded timeout mid-run".

(** The loop of [run_fuel_slices]; [steps] bounds the slices and [None] means it was too
    small.  The fuel granted in all comes with the outcome. *)
Fixpoint slices (steps : nat) (deadline fuel granted : N) (trapped : HostConnectorError) (call : Call) (s : GuestState)
    : option (GuestState * N * Result HostConnectorError (Z * Instance_)) :=
  match call with
  | inr i => Some (s, granted, Ok (GUEST_REJECT_GENERIC, i))
  | inl (inl (n, i)) => Some (s, granted, Ok (n, i))
  | inl (inr (paused, i)) =>
      match steps with
      | 0 => None
      | S steps =>
          let '(s, c) := load_cancel (E := HostConnectorError) s in
          if match c with Ok true => true | _ => false end then Some (s, granted, Err cancelled_mid_run)
          else
            let '(s, t) := now (E := HostConnectorError) s in
            if match t with Ok t => (deadline <=? t)%N | Err _ => false end then Some (s, granted, Err timed_out_mid_run)
            else if (fuel <=? granted)%N then Some (s, granted, Err trapped)
            else
              let next := N.min (fuel - granted) WASMI_FUEL_SLICE in
              match resume paused (set_fuel next i) with
              | None => Some (s, granted + next, Err trapped)%N
              | Some call => slices steps deadline fuel (granted + next) trapped call s
              end
      end
  end.

(** One step per slice, and one more to see that the fuel is spent. *)
Definition slice_bound (fuel : N) : nat := N.to_nat (fuel / WASMI_FUEL_SLICE) + 2.

Definition run_fuel_slices (deadline fuel : N) (trapped : HostConnectorError) (call : option Call)
    : Eff GuestState HostConnectorError (Z * Instance_) := fun s =>
  match call with
  | None => (s, Err trapped)
  | Some call =>
      match slices (slice_bound fuel) deadline fuel (N.min fuel WASMI_FUEL_SLICE) trapped call s with
      | Some (s, _, r) => (s, r)
      | None => (s, Err trapped)
      end
  end.

(** ** Preparation *)

Definition finish_prepare (r : SnapshotReuse) (saved : N) (outcome : Z) (i : Instance_)
    : Eff GuestState HostConnectorError Instance_ := fun s =>
  if (outcome =? 0)%Z then
    let i := set_fuel saved i in (store_snapshot r (take_snapshot i) s, Ok i)
  else (s, Err prepare_failed).

(** A call that is not resumable: anything but a finished call is a trap. *)
Definition finished (call : option Call) : option (Z * Instance_) :=
  match call with Some (inl (inl r)) => Some r | _ => None end.

Definition prepare_or_restore_wasmtime (fuel memory_ceiling : N) (r : SnapshotReuse) (i : Instance_)
    : Eff GuestState HostConnectorError Instance_ := fun s =>
  let '(s, found) := usable r memory_ceiling s in
  match found with
  | Some snapshot => (s, restore snapshot i)
  | None =>
      if has_prepare i then
        let saved := get_fuel i in
        match finished (call_prepare (set_fuel fuel i)) with
        | Some (n, i) => finish_prepare r saved n i s
        | None => (s, Err prepare_failed)
        end
      else (s, Err missing_prepare)
  end.

Definition prepare_or_restore_wasmi (fuel memory_ceiling deadline : N) (r : SnapshotReuse) (i : Instance_)
    : Eff GuestState HostConnectorError Instance_ := fun s =>
  let '(s, found) := usable r memory_ceiling s in
  match found with
  | Some snapshot => (s, restore snapshot i)
  | None =>
      if has_prepare i then
        let saved := get_fuel i in
        (ran ← run_fuel_slices deadline fuel prepare_failed (call_prepare (set_fuel (N.min fuel WASMI_FUEL_SLICE) i));
         finish_prepare r saved ran.1 ran.2) s
      else (s, Err missing_prepare)
  end.

(** ** Execution *)

Definition instantiation_failed : HostConnectorError :=
  model_error_plain ExecutionFailed "model wasm instantiation failed".

(** A fresh instance with the exports every model needs. *)
Definition fresh_instance (engine : ModelEngine) (m : Module_) (memory_limit fuel : N)
    : Result HostConnectorError Instance_ :=
  i ← ok_or (instantiate engine m memory_limit fuel) instantiation_failed;
  _ ← ensure (bool_decide (is_Some (memory_data i)))
        (model_error_plain ModelIncompatible "model wasm missing memory export");
  _ ← ensure (has_execute i) (model_error_plain ModelIncompatible "model wasm missing model_execute export");
  Ok i.

(** The length the guest returned, checked, and its output window. *)
Definition read_output (out_len : Z) (max_output : N) (out_ptr : Z) (i : Instance_) : Result HostConnectorError Bytes :=
  len ← guest_execute_outcome out_len max_output;
  Ok (read_memory (Z.to_N out_ptr) len i).

Definition execute_wasm_cpu_model (key : string) (wasm input : Bytes) (g : GuestLimits) (r : SnapshotReuse)
    : Eff GuestState HostConnectorError Bytes :=
  if wasmtime_executor then
    m ← compiled_module Wasmtime key wasm;
    i ← lift (fresh_instance Wasmtime m (N.min (limit_memory g) usize_max) (limit_fuel g));
    i ← match prepare_fuel g with
        | Some fuel => prepare_or_restore_wasmtime fuel (limit_memory g) r i
        | None => mret i
        end;
    if prepare_only g then mret []
    else
      let out_cap := output_capacity (limit_output g) in
      '(in_ptr, out_ptr, i) ← lift (place_buffers (length input) out_cap (abi g) i);
      let i := write_memory (Z.to_N in_ptr) input i in
      '(out_len, i) ← lift (ok_or (finished (call_execute (in_ptr, i32_length (length input), out_ptr, out_cap) i))
                              execute_failed);
      lift (read_output out_len (limit_output g) out_ptr i)
  else fail (model_error_plain Unavailable "wasm-cpu executor requires wasmtime-executor feature").

Definition execute_wasmi_model (key : string) (wasm input : Bytes) (g : GuestLimits) (deadline : N) (r : SnapshotReuse)
    : Eff GuestState HostConnectorError Bytes :=
  if wasmi_executor then
    m ← compiled_module Wasmi key wasm;
    i ← lift (fresh_instance Wasmi m (N.min (limit_memory g) usize_max) (N.min (limit_fuel g) WASMI_FUEL_SLICE));
    i ← match prepare_fuel g with
        | Some fuel => prepare_or_restore_wasmi fuel (limit_memory g) deadline r i
        | None => mret i
        end;
    if prepare_only g then mret []
    else
      let out_cap := output_capacity (limit_output g) in
      '(in_ptr, out_ptr, i) ← lift (place_buffers (length input) out_cap (abi g) i);
      let i := write_memory (Z.to_N in_ptr) input i in
      '(out_len, i) ← run_fuel_slices deadline (limit_fuel g) execute_failed
                        (call_execute (in_ptr, i32_length (length input), out_ptr, out_cap) i);
      lift (read_output out_len (limit_output g) out_ptr i)
  else fail (model_error_plain Unavailable "wasm-cpu interpreter requires the wasmi-executor feature").
End guest.

(** * Model guests: properties

    Fuel slices end and never grant more than the fuel of the call; the output of a guest
    respects the ceiling. *)
Section guest_props.
Context `{GuestEngine, Environment, Build}.



(** ** Outputs *)

Lemma outcome_bounded out_len max_output n : guest_execute_outcome out_len max_output = Ok n -> (N.of_nat n <= max_output)%N.
Proof.
  unfold guest_execute_outcome. destruct (out_len <? 0)%Z eqn:Hneg; [done|]. apply Z.ltb_ge in Hneg.
  destruct (max_output <? _)%N eqn:Hmax; [done|]. apply N.ltb_ge in Hmax. intros [= <-]. lia.
Qed.

Lemma read_memory_length offset len i : length (read_memory offset len i) = len.
Proof.
  unfold read_memory. destruct (_ <=? _)%nat eqn:Hle; [|apply length_replicate]. apply Nat.leb_le in Hle.
  rewrite length_take, length_drop. lia.
Qed.

Lemma read_output_bounded out_len max_output out_ptr i b :
  read_output out_len max_output out_ptr i = Ok b -> (N.of_nat (length b) <= max_output)%N.
Proof.
  unfold read_output. intros (n & Hn & [= <-])%bind_ok_inv. rewrite read_memory_length. by eapply outcome_bounded.
Qed.

Lemma wasm_cpu_output key wasm input g r s s' b :
  execute_wasm_cpu_model key wasm input g r s = (s', Ok b) -> prepare_only g = false -> (N.of_nat (length b) <= limit_output g)%N.
Proof.
  unfold execute_wasm_cpu_model. destruct wasmtime_executor; [|done]. intros Hrun Hp. rewrite Hp in Hrun.
  apply eff_bind_ok in Hrun as (s1 & m & _ & Hrun). apply eff_bind_ok in Hrun as (s2 & i & _ & Hrun).
  apply eff_bind_ok in Hrun as (s3 & i' & _ & Hrun). apply eff_bind_ok in Hrun as (s4 & [[p o] i2] & _ & Hrun).
  apply eff_bind_ok in Hrun as (s5 & [n i3] & _ & Hrun). apply lift_inv in Hrun as [_ Hrun].
  by eapply read_output_bounded.
Qed.

Lemma wasmi_output key wasm input g deadline r s s' b :
  execute_wasmi_model key wasm input g deadline r s = (s', Ok b) -> prepare_only g = false ->
  (N.of_nat (length b) <= limit_output g)%N.
Proof.
  unfold execute_wasmi_model. destruct wasmi_executor; [|done]. intros Hrun Hp. rewrite Hp in Hrun.
  apply eff_bind_ok in Hrun as (s1 & m & _ & Hrun). apply eff_bind_ok in Hrun as (s2 & i & _ & Hrun).
  apply eff_bind_ok in Hrun as (s3 & i' & _ & Hrun). apply eff_bind_ok in Hrun as (s4 & [[p o] i2] & _ & Hrun).
  apply eff_bind_ok in Hrun as (s5 & [n i3] & _ & Hrun). apply lift_inv in Hrun as [_ Hrun].
  by eapply read_output_bounded.
Qed.

(** ** Windows *)

Lemma wrap_i32_id z : (- 2147483648 <= z <= i32_max)%Z -> wrap_i32 z = z.
Proof. unfold wrap_i32, i32_max. intros Hz. rewrite Z.mod_small; lia. Qed.

Lemma wrap_i32_over z : (i32_max < z <= i32_max + 4294967296)%Z -> wrap_i32 z = (z - 4294967296)%Z.
Proof.
  unfold wrap_i32, i32_max. intros Hz. replace (z + 2147483648)%Z with ((z - 2147483648) + 1 * 4294967296)%Z by lia.
  rewrite Z.mod_add by lia. rewrite Z.mod_small; lia.
Qed.

Lemma v2_regions_iff in_ptr in_len out_ptr out_cap size :
  (in_ptr <= i32_max)%Z -> (out_ptr <= i32_max)%Z -> (out_cap <= i32_max)%Z -> (N.of_nat in_len <= u32_max)%N ->
  check_v2_regions in_ptr in_len out_ptr out_cap size = Ok tt <->
  (0 < in_ptr)%Z /\ (0 < out_ptr)%Z /\ (0 <= out_cap)%Z /\
  (in_ptr + Z.of_nat in_len <= Z.of_N size)%Z /\ (out_ptr + out_cap <= Z.of_N size)%Z /\
  (in_ptr + Z.of_nat in_len <= out_ptr \/ out_ptr + out_cap <= in_ptr)%Z.
Proof.
  unfold i32_max, u32_max. intros Hi Ho Hc Hl. unfold check_v2_regions. rewrite ensure_ok_inv, negb_true_iff.
  rewrite !orb_false_iff, andb_false_iff, !Z.ltb_ge, !N.eqb_neq, !N.ltb_ge.
  rewrite !saturating_add_small by (unfold u64_max; lia). lia.
Qed.

(** C14: the windows a guest is given: when the length of its input plus 128 is at most
    [i32::MAX] the input and output windows are positive and do not overlap, for both
    layouts; beyond that the fixed layout of the first guest ABI overflows and the guest is
    given a negative output address. *)
Theorem guest_windows :
  (forall n out_cap version i in_ptr out_ptr i',
    (Z.of_nat n <= i32_max - 128)%Z -> (0 <= out_cap <= i32_max)%Z ->
    (forall z i r i', call_alloc z i = Some (r, i') -> (r <= i32_max)%Z) ->
    place_buffers n out_cap version i = Ok (in_ptr, out_ptr, i') ->
    (0 < in_ptr)%Z /\ (0 < out_ptr)%Z /\ (in_ptr + Z.of_nat n <= out_ptr \/ out_ptr + out_cap <= in_ptr)%Z) /\
  (forall n out_cap, (i32_max - 128 < Z.of_nat n)%Z -> ((v1_placement n out_cap).1.2 < 0)%Z).
Proof.
  split.
  - intros n out_cap version i in_ptr out_ptr i' Hn Hcap Halloc. unfold place_buffers. destruct (2 <=? version)%N.
    + intros (u & _ & Hp)%bind_ok_inv. apply bind_ok_inv in Hp as ([p i1] & Ha%ok_or_ok_inv & Hp).
      apply bind_ok_inv in Hp as ([o i2] & Hb%ok_or_ok_inv & Hp). apply bind_ok_inv in Hp as ([] & Hr & [= -> -> ->]).
      apply v2_regions_iff in Hr; [tauto|by eapply Halloc|by eapply Halloc|lia|unfold i32_max, u32_max in *; lia].
    + intros Hp. unfold v1_placement, i32_length in Hp. rewrite Z.min_l in Hp by lia.
      rewrite (wrap_i32_id (64 + _)), wrap_i32_id in Hp by (unfold i32_max in *; lia).
      apply bind_ok_inv in Hp as (i1 & _ & [= <- <- _]). lia.
  - intros n out_cap Hn. unfold v1_placement, i32_length. cbn [fst snd]. unfold i32_max in *.
    destruct (Z.le_gt_cases (64 + Z.min (Z.of_nat n) 2147483647) 2147483647) as [Hle|Hgt].
    + rewrite (wrap_i32_id (64 + _)) by (unfold i32_max; lia). rewrite wrap_i32_over by (unfold i32_max; lia). lia.
    + rewrite (wrap_i32_over (64 + _)) by (unfold i32_max; lia). rewrite wrap_i32_id by (unfold i32_max; lia). lia.
Qed.
End guest_props.
