(* ===== verification/ModelConnector.v ===== *)
(** * The exact-model connector

    [ExactModelHostConnector] of [traverse-runtime/src/exact_model.rs]: registration of a
    signed package under a placement policy, and [model.execute] as the host adapter of
    [HostConnector]. *)
From S2P Require Import Prelude Effect Json Serde Security HostConnector GuestFrame ModelPackage.
From S2P Require Import ModelStore ModelAdapter ModelGuest.
From Stdlib Require Import SpecFloat Ascii.

(** ** Policies and preparations *)

Record ExecutionPolicy := {
  policy_ref : string;
  allowed_classifications : list string;
  policy_max_output_bytes : N;
  policy_placements : option (list string);
  policy_require_fuel_metering : option bool }.

Record PlacementPolicy := {
  placement_policy_ref : string;
  placements : list string;
  require_fuel_metering : bool }.

Inductive PlacementOutcome := PlacementReady | Unsupported | SelfCheckFailed | OverBudget.

#[export] Instance PlacementOutcome_eq_dec : EqDecision PlacementOutcome.
Proof. solve_decision. Defined.

(** The [snake_case] name of the variant. *)
Definition outcome_str (o : PlacementOutcome) : string :=
  match o with
  | PlacementReady => "ready"
  | Unsupported => "unsupported"
  | SelfCheckFailed => "self_check_failed"
  | OverBudget => "over_budget"
  end.

Record PlacementAttempt := {
  attempt_placement : string;
  attempt_outcome : PlacementOutcome;
  attempt_duration_ms : N;
  attempt_self_check : option SelfCheckEvidence }.

Record PlacementPreparation := {
  preparation_policy : PlacementPolicy;
  placement : string;
  attempts : list PlacementAttempt;
  preparation_duration_ms : N }.

(** ** State *)

Section connector.
Context `{Trust, ModelCodec, WasmParser, GuestEngine, AcceleratorAdapter, Libm, SerdeJson, Environment, Build}.

(** What the owner sets before use. *)
Record ConnectorConfig := {
  pins : list ExactModelPin;
  offline_mode : bool;
  trusted_keys : TrustedModelKeys;
  engine : ModelEngine;
  host_limits : HostModelLimits;
  model_usage : option ModelUsage;
  host_requires_commercial : bool }.

Record ExactModelHostConnector := {
  config : ConnectorConfig;
  packages : gmap string VerifiedModelPackage;
  io : ModelIoStore;
  policies : gmap string ExecutionPolicy;
  package_status : gmap string PackageStatusEntry;
  guests : GuestState;
  supported_adapters : list string;
  adapters : list Adapter;
  self_checks : SelfChecks;
  prepared : gmap (string * string) PlacementPreparation }.

Definition new_connector (c : ConnectorConfig) : ExactModelHostConnector := {|
  config := c; packages := ∅; io := new_io; policies := ∅; package_status := ∅;
  guests := {| compiled := ∅; snapshots := empty_snapshots; readings := 0 |};
  supported_adapters := []; adapters := []; self_checks := ∅; prepared := ∅ |}.

Definition set_guests (g : GuestState) (c : ExactModelHostConnector) : ExactModelHostConnector := {|
  config := config c; packages := packages c; io := io c; policies := policies c; package_status := package_status c;
  guests := g; supported_adapters := supported_adapters c; adapters := adapters c; self_checks := self_checks c;
  prepared := prepared c |}.

Definition set_io (i : ModelIoStore) (c : ExactModelHostConnector) : ExactModelHostConnector := {|
  config := config c; packages := packages c; io := i; policies := policies c; package_status := package_status c;
  guests := guests c; supported_adapters := supported_adapters c; adapters := adapters c; self_checks := self_checks c;
  prepared := prepared c |}.

Definition set_adapters (l : list Adapter) (s : SelfChecks) (c : ExactModelHostConnector) : ExactModelHostConnector := {|
  config := config c; packages := packages c; io := io c; policies := policies c; package_status := package_status c;
  guests := guests c; supported_adapters := supported_adapters c; adapters := l; self_checks := s;
  prepared := prepared c |}.

(** Operations of the guests and of the buffers on the whole state. *)
Definition on_guests {E A} (m : Eff GuestState E A) : Eff ExactModelHostConnector E A := fun c =>
  let '(g, r) := m (guests c) in (set_guests g c, r).

Definition on_io {E A} (m : Eff ModelIoStore E A) : Eff ExactModelHostConnector E A := fun c =>
  let '(i, r) := m (io c) in (set_io i c, r).

Definition drop_snapshots {E} (digest : string) : Eff ExactModelHostConnector E unit := fun c =>
  (set_guests (with_snapshots (drop_package digest) (guests c)) c, Ok tt).

(** ** Host operations *)

Definition register_adapter (a : Adapter) (c : ExactModelHostConnector) : ExactModelHostConnector := {|
  config := config c; packages := packages c; io := io c; policies := policies c; package_status := package_status c;
  guests := guests c;
  supported_adapters := if decide (adapter_id a ∈ supported_adapters c) then supported_adapters c
                        else supported_adapters c ++ [adapter_id a];
  adapters := adapters c ++ [a]; self_checks := self_checks c; prepared := prepared c |}.

Definition activate_policy (p : ExecutionPolicy) (c : ExactModelHostConnector) : ExactModelHostConnector := {|
  config := config c; packages := packages c; io := io c; policies := <[policy_ref p := p]> (policies c);
  package_status := package_status c; guests := guests c; supported_adapters := supported_adapters c;
  adapters := adapters c; self_checks := self_checks c; prepared := prepared c |}.

Definition shutdown (c : ExactModelHostConnector) : ExactModelHostConnector :=
  set_guests (with_snapshots clear_snapshots (guests c)) (set_io (shutdown_io (io c)) c).

(** The digests whose entry differs between two status maps. *)
Definition changed_status (previous current : gmap string PackageStatusEntry) : list string :=
  List.filter (fun d => negb (bool_decide (previous !! d = current !! d)))
    ((map_to_list previous).*1 ++ (map_to_list current).*1).

Definition set_package_status (new : list (string * PackageStatusEntry)) (c : ExactModelHostConnector)
    : ExactModelHostConnector :=
  let status := foldl (fun m e => <[normalize_digest e.1 := e.2]> m) ∅ new in
  let snaps := foldl (fun s d => drop_package d s) (snapshots (guests c)) (changed_status (package_status c) status) in {|
  config := config c; packages := packages c; io := io c; policies := policies c; package_status := status;
  guests := with_snapshots (fun _ => snaps) (guests c); supported_adapters := supported_adapters c;
  adapters := adapters c; self_checks := self_checks c; prepared := prepared c |}.

Definition effective_usage (c : ExactModelHostConnector) : Result HostConnectorError ModelUsage :=
  usage_of (model_usage (config c)) (host_requires_commercial (config c)).

Definition model_rights_record (c : ExactModelHostConnector) (digest : string) : option ModelRightsRecord :=
  let key := normalize_digest digest in
  package ← packages c !! key;
  usage ← ok_value (effective_usage c);
  Some (rights_record (manifest package) key usage (package_status c !! key)).

Definition model_rights (c : ExactModelHostConnector) (digest : string) : option ModelRights :=
  (fun p => rights (manifest p)) <$> packages c !! normalize_digest digest.

Definition placement_preparation (c : ExactModelHostConnector) (digest ref : string) : option PlacementPreparation :=
  prepared c !! (normalize_digest digest, ref).

Definition check_rights_and_status (c : ExactModelHostConnector) (m : ModelPackageManifest) (digest : string)
    : Result HostConnectorError ModelRightsRecord :=
  usage ← map_err (fun e => for_package e m digest) (effective_usage c);
  _ ← check_usage m digest usage;
  let entry := package_status c !! digest in
  _ ← check_status m digest usage entry;
  Ok (rights_record m digest usage entry).

(** ** Preparation of a placement *)

Definition placement_unavailable (m : string) : HostConnectorError := model_error ModelUnavailable PlacementUnavailable m.

Definition invalid_placements : HostConnectorError :=
  model_error_plain PolicyDenied "execution policy names an unknown or repeated placement".

Definition registration_cancelled : HostConnectorError :=
  model_error_plain Cancelled "model registration cancelled during placement preparation".

Definition nanos (ms : N) : N := (ms * 1000000)%N.

(** [elapsed_ms]: whole milliseconds, a [u64]. *)
Definition elapsed_ms {E} (since : N) : Eff ExactModelHostConnector E N :=
  t ← on_guests now; mret (N.min ((t - since) / 1000000) u64_max).

(** The first adapter with an id that is available on this device. *)
Definition find_adapter (id : string) (l : list Adapter) : option (nat * Adapter) :=
  list_find (fun a => adapter_id a = id /\ available a = true) l.

Definition find_variant (id : string) (m : ModelPackageManifest) : option AcceleratorVariant :=
  find_first (fun v => bool_decide (adapter v = id)) (default [] (accelerator_variants m)).

Definition find_cached (id : string) (p : VerifiedModelPackage) : option CachedAcceleratorVariant :=
  find_first (fun v => bool_decide (cached_adapter v = id)) (variants p).

Definition prepare_adapter {E} (id : string) (p : VerifiedModelPackage) (fuel_metered : bool) (deadline : N)
    : Eff ExactModelHostConnector E (PlacementOutcome * option SelfCheckEvidence) := fun c =>
  match find_variant id (manifest p), find_cached id p, find_adapter id (adapters c) with
  | Some declared, Some cached, Some (i, a) =>
      if (host_max_memory_bytes (host_limits (config c)) <? peak_memory_bytes declared)%N
         || (fuel_metered && negb (bool_decide (adapter_fuel_metering a = Metered)))
      then (c, Ok (Unsupported, None))
      else
        let '((checks, a), evidence) := self_check declared cached (self_checks c, a) in
        let c := set_adapters (<[i := a]> (adapters c)) checks c in
        if passed evidence then
          (t ← on_guests now;
           mret (if (deadline <? t)%N then OverBudget else PlacementReady, Some evidence)) c
        else (c, Ok (SelfCheckFailed, Some evidence))
  | _, _, _ => (c, Ok (Unsupported, None))
  end.

Definition prepare_limits (h : HostModelLimits) (m : ModelPackageManifest) : GuestLimits := {|
  limit_memory := N.min (max_memory_bytes m) (host_max_memory_bytes h);
  limit_fuel := N.min (max_fuel m) (host_max_fuel h);
  limit_output := max_output_bytes m;
  abi := abi_version m;
  prepare_fuel := (fun f => N.min f (host_max_fuel h)) <$> max_prepare_fuel m;
  prepare_only := true |}.

Definition reuse_for (c : ExactModelHostConnector) (digest : string) : SnapshotReuse := {|
  reuse_digest := digest; reuse_engine := engine (config c);
  reuse_budget := max_snapshot_bytes (host_limits (config c)) |}.

(** Run a guest on the connector's engine. *)
Definition run_guest (digest : string) (p : VerifiedModelPackage) (input : Bytes) (g : GuestLimits) (deadline : N)
    : Eff ExactModelHostConnector HostConnectorError Bytes := fun c =>
  let key := normalize_digest (wasm_digest (manifest p)) in
  on_guests (match engine (config c) with
    | Wasmtime => execute_wasm_cpu_model key (wasm p) input g (reuse_for c digest)
    | Wasmi => execute_wasmi_model key (wasm p) input g deadline (reuse_for c digest)
    end) c.

(** An ABI v3 guest is prepared and its snapshot stored; running out of time is an outcome. *)
Definition run_prepare (digest : string) (p : VerifiedModelPackage) (deadline : N)
    : Eff ExactModelHostConnector HostConnectorError bool := fun c =>
  let '(c, r) := run_guest digest p [] (prepare_limits (host_limits (config c)) (manifest p)) deadline c in
  match r with
  | Ok _ => (c, Ok true)
  | Err e =>
      if decide (code e = Timeout) then (_ ← drop_snapshots digest; mret false) c
      else if decide (code e = Cancelled) then (c, Err registration_cancelled)
      else (c, Err e)
  end.

Definition prepare_wasm_cpu (p : VerifiedModelPackage) (digest : string) (deadline : N)
    : Eff ExactModelHostConnector HostConnectorError PlacementOutcome :=
  in_time ← (if decide (abi_version (manifest p) = MODEL_GUEST_ABI_PREPARED)
             then run_prepare digest p deadline else mret true);
  if (in_time : bool) then
    t ← on_guests now;
    if (deadline <? t)%N then _ ← drop_snapshots digest; mret OverBudget else mret PlacementReady
  else mret OverBudget.

(** One listed placement: what its preparation found. *)
Definition attempt_placement_on (p : VerifiedModelPackage) (digest : string) (policy : PlacementPolicy) (budget : N)
    (id : string) : Eff ExactModelHostConnector HostConnectorError (N * PlacementOutcome * option SelfCheckEvidence) :=
  attempt_started ← on_guests now;
  let deadline := (attempt_started + budget)%N in
  stop ← on_guests load_cancel;
  found ← (if (stop : bool) then fail registration_cancelled
           else if decide (id = PLACEMENT_WASM_CPU) then
             o ← prepare_wasm_cpu p digest deadline; mret (o, None)
           else prepare_adapter id p (require_fuel_metering policy) deadline);
  stop ← on_guests load_cancel;
  if (stop : bool) then fail registration_cancelled else mret (attempt_started, found.1, found.2).

(** A failed attempt keeps no snapshot. *)
Definition try_placement (p : VerifiedModelPackage) (digest : string) (policy : PlacementPolicy) (budget : N)
    (id : string) : Eff ExactModelHostConnector HostConnectorError (N * PlacementOutcome * option SelfCheckEvidence) :=
  fun c => match attempt_placement_on p digest policy budget id c with
  | (c, Ok v) => (c, Ok v)
  | (c, Err e) => (_ ← drop_snapshots digest; fail e) c
  end.

Definition attempt_text (a : PlacementAttempt) : string := attempt_placement a +:+ " " +:+ outcome_str (attempt_outcome a).

Fixpoint prepare_placement (p : VerifiedModelPackage) (digest : string) (policy : PlacementPolicy) (ids : list string)
    (tried : list PlacementAttempt) (started budget : N)
    : Eff ExactModelHostConnector HostConnectorError PlacementPreparation :=
  match ids with
  | [] => fail (placement_unavailable ("no placement the execution policy lists could be prepared: "
            +:+ String.concat ", " (attempt_text <$> tried)))
  | id :: rest =>
      '(attempt_started, outcome, check) ← try_placement p digest policy budget id;
      duration ← elapsed_ms attempt_started;
      let tried := tried ++ [{| attempt_placement := id; attempt_outcome := outcome;
        attempt_duration_ms := duration; attempt_self_check := check |}] in
      if decide (outcome = PlacementReady) then
        total ← elapsed_ms started;
        mret {| preparation_policy := policy; placement := id; attempts := tried; preparation_duration_ms := total |}
      else prepare_placement p digest policy rest tried started budget
  end.

(** ** Registration *)

(** [VerifiedModelPackage::verify] *)
Definition verify_package (p : VerifiedModelPackage) : Result HostConnectorError unit :=
  _ ← validate (manifest p);
  _ ← ensure (bool_decide (normalize_digest (wasm_digest (manifest p)) = digest_hex (wasm p)))
        (incompatible DigestMismatch "model wasm digest mismatch");
  _ ← ensure (forallb (variant_bytes_match (manifest p)) (variants p))
        (incompatible DigestMismatch "accelerator variant digest mismatch");
  if decide (abi_version (manifest p) = MODEL_GUEST_ABI_PREPARED)
  then map_err (model_error_plain ModelIncompatible) (check_v3_module (wasm p))
  else Ok tt.

(** Keep the package and the placement fixed for the policy. *)
Definition keep (digest : string) (p : VerifiedModelPackage) (policy : PlacementPolicy) (pr : PlacementPreparation)
    : Eff ExactModelHostConnector HostConnectorError string := fun c => ({|
  config := config c; packages := <[digest := p]> (packages c); io := io c; policies := policies c;
  package_status := package_status c; guests := guests c; supported_adapters := supported_adapters c;
  adapters := adapters c; self_checks := self_checks c;
  prepared := <[(digest, placement_policy_ref policy) := pr]> (prepared c) |}, Ok digest).

Definition preparation_budget (h : HostModelLimits) (ms : option N) : N :=
  match ms with None => max_preparation_ms h | Some ms => N.min ms (max_preparation_ms h) end.

Definition enter_package (p : VerifiedModelPackage) (policy : PlacementPolicy) (budget_ms : option N)
    : Eff ExactModelHostConnector HostConnectorError string := fun c =>
  (_ ← lift (verify_package p);
   let digest := digest_hex (manifest_bytes p) in
   ids ← lift (ok_or (effective_placements (placements policy)) invalid_placements);
   let budget := preparation_budget (host_limits (config c)) budget_ms in
   started ← on_guests now;
   _ ← on_guests (fun g => (warm (engine (config c)) (digest_hex (wasm p)) (wasm p) g, Ok tt));
   pr ← prepare_placement p digest policy ids [] started (nanos budget);
   keep digest p policy pr) c.

Definition variant_total (vs : list CachedAcceleratorVariant) : N :=
  foldl (fun total v => saturating_add (saturating_add total (N.of_nat (length (cached_bytes v))))
           (N.of_nat (length (conformance_vector v)))) 0%N vs.

(** The checks before a package is prepared: signature, pin, rights, variants and limits. *)
Definition accept_package (c : ExactModelHostConnector) (mbytes wbytes sbytes : Bytes) (files : list (string * Bytes))
    : Result HostConnectorError VerifiedModelPackage :=
  s ← ok_or (parse_signature sbytes) (incompatible SignatureInvalid "model signature document is malformed");
  _ ← verify_signature (trusted_keys (config c)) s mbytes;
  let digest := digest_hex mbytes in
  pin ← ok_or (find_first (fun pin => bool_decide (normalize_digest (pin_digest pin) = digest)) (pins (config c)))
          (model_error ModelUnavailable PinMismatch
            "signed package digest does not match an exact_model_dependencies pin");
  _ ← require_unambiguous (pins (config c)) pin;
  m ← ok_or (parse_manifest mbytes)
        (incompatible ManifestInvalid "model manifest is malformed or has unknown fields");
  _ ← map_err (fun e => for_package e m digest) (check_pin_against_manifest pin s m);
  _ ← check_rights_and_status c m digest;
  vs ← cache_selected_variants m (supported_adapters c) files;
  _ ← check_host_limits (host_limits (config c)) m (N.of_nat (length mbytes)) (N.of_nat (length wbytes))
        (variant_total vs);
  Ok {| manifest := m; manifest_bytes := mbytes; wasm := wbytes; variants := vs |}.

Definition register_package_with_variants (mbytes wbytes sbytes : Bytes) (files : list (string * Bytes))
    (policy : PlacementPolicy) (budget_ms : option N) : Eff ExactModelHostConnector HostConnectorError string := fun c =>
  (p ← lift (accept_package c mbytes wbytes sbytes files); enter_package p policy budget_ms) c.

Definition register_package (mbytes wbytes sbytes : Bytes) (policy : PlacementPolicy)
    : Eff ExactModelHostConnector HostConnectorError string :=
  register_package_with_variants mbytes wbytes sbytes [] policy None.

(** ** Execution *)

Record ModelRef := { ref_model_id : string; ref_version : string; ref_digest : string }.

Record ModelExecutePayload := {
  model_ref : ModelRef;
  input_ref : string;
  payload_policy_ref : string;
  data_classification : string;
  payload_input_schema_ref : string;
  payload_input_schema_version : string;
  payload_max_output_bytes : N;
  payload_max_memory_bytes : option N;
  payload_max_fuel : option N;
  timeout_ms : option N }.

Definition decode_model_ref (v : Value) : option ModelRef :=
  fields ← struct_fields ["model_id"; "version"; "digest"] v;
  match fields with
  | [f_id; f_version; f_digest] =>
      id ← required as_str f_id; ver ← required as_str f_version; digest ← required as_str f_digest;
      Some {| ref_model_id := id; ref_version := ver; ref_digest := digest |}
  | _ => None
  end.

Definition payload_fields : list string :=
  ["model_ref"; "input_ref"; "policy_ref"; "data_classification"; "input_schema_ref"; "input_schema_version";
   "max_output_bytes"; "max_memory_bytes"; "max_fuel"; "timeout_ms"; "feature_metadata"].

Definition decode_payload (v : Value) : option ModelExecutePayload :=
  fields ← struct_fields payload_fields v;
  match fields with
  | [f_ref; f_input; f_policy; f_class; f_schema; f_schema_version; f_output; f_memory; f_fuel; f_timeout; _] =>
      ref ← required decode_model_ref f_ref;
      input ← required as_str f_input;
      policy ← required as_str f_policy;
      class ← required as_str f_class;
      schema ← required as_str f_schema;
      schema_v ← required as_str f_schema_version;
      out ← required as_u64 f_output;
      mem ← optional as_u64 f_memory;
      fuel ← optional as_u64 f_fuel;
      timeout ← optional as_u64 f_timeout;
      Some {| model_ref := ref; input_ref := input; payload_policy_ref := policy; data_classification := class;
              payload_input_schema_ref := schema; payload_input_schema_version := schema_v;
              payload_max_output_bytes := out; payload_max_memory_bytes := mem; payload_max_fuel := fuel;
              timeout_ms := timeout |}
  | _ => None
  end.

Definition require_pin (l : list ExactModelPin) (r : ModelRef) : Result HostConnectorError ExactModelPin :=
  ok_or (find_first (fun p => bool_decide (pin_model_id p = ref_model_id r) && bool_decide (pin_version p = ref_version r)
           && bool_decide (normalize_digest (pin_digest p) = normalize_digest (ref_digest r))) l)
    (model_error ModelUnavailable PinMismatch "model_ref does not match an exact_model_dependencies pin").

Definition resolve_offline (c : ExactModelHostConnector) (digest : string) : Result HostConnectorError VerifiedModelPackage :=
  ok_or (packages c !! normalize_digest digest)
    (plain_error ModelUnavailable "model package not present in verified cache").

Definition require_registered_policy (policy : ExecutionPolicy) (registered : PlacementPolicy)
    : Result HostConnectorError unit :=
  _ ← match policy_placements policy with
      | None => Ok tt
      | Some listed =>
          requested ← ok_or (effective_placements listed) invalid_placements;
          ensure (bool_decide (effective_placements (placements registered) = Some requested))
            (placement_unavailable "call placements differ from the policy the package was registered under")
      end;
  ensure (match policy_require_fuel_metering policy with
          | None => true
          | Some required => bool_decide (required = require_fuel_metering registered)
          end)
    (placement_unavailable "call require_fuel_metering differs from the policy the package was registered under").

(** The adapter and the variant of the placement fixed at registration, [None] for [wasm-cpu]. *)
Definition prepared_adapter (id : string) (p : VerifiedModelPackage) (l : list Adapter)
    : Result HostConnectorError (option (nat * Adapter * CachedAcceleratorVariant)) :=
  if decide (id = PLACEMENT_WASM_CPU) then Ok None
  else match find_adapter id l, find_cached id p with
  | Some (i, a), Some cached => Ok (Some (i, a, cached))
  | _, _ => Err (placement_unavailable "the placement fixed at registration is no longer available")
  end.

(** What an execution was granted, before its input is consumed. *)
Record Grant := {
  granted_package : VerifiedModelPackage;
  granted_digest : string;
  granted_evidence : ModelRightsRecord;
  granted_adapter : option (nat * Adapter * CachedAcceleratorVariant);
  granted_output : N }.

(** The checks of [invoke] up to the output ceiling.  The cached bytes were hashed again. *)
Definition grant_package (c : ExactModelHostConnector) (q : ModelExecutePayload) (policy : ExecutionPolicy)
    (digest : string) (package : VerifiedModelPackage) : Result HostConnectorError Grant :=
  evidence ← check_rights_and_status c (manifest package) digest;
  _ ← ensure (bool_decide (model_id (manifest package) = ref_model_id (model_ref q))
              && bool_decide (version (manifest package) = ref_version (model_ref q)))
        (plain_error ModelIncompatible "cached package identity does not match model_ref");
  _ ← ensure (bool_decide (input_schema_ref (manifest package) = payload_input_schema_ref q)
              && bool_decide (input_schema_version (manifest package) = payload_input_schema_version q))
        (plain_error ModelIncompatible "input schema does not match model manifest");
  fixed ← ok_or (prepared c !! (digest, payload_policy_ref q))
            (placement_unavailable "policy_ref was not prepared for this package at registration");
  _ ← require_registered_policy policy (preparation_policy fixed);
  accelerator ← prepared_adapter (placement fixed) package (adapters c);
  let max_out := N.min (N.min (payload_max_output_bytes q) (policy_max_output_bytes policy))
                   (max_output_bytes (manifest package)) in
  _ ← ensure (negb (max_out =? 0)%N)
        (plain_error ResourceExhausted "output ceiling is zero after policy intersection");
  Ok {| granted_package := package; granted_digest := digest; granted_evidence := evidence;
        granted_adapter := accelerator; granted_output := max_out |}.

Definition authorize_execution (c : ExactModelHostConnector) (q : ModelExecutePayload)
    : Result HostConnectorError ExecutionPolicy :=
  pin ← require_pin (pins (config c)) (model_ref q);
  _ ← ensure (negb (offline_mode (config c) && negb (pin_offline_allowed pin)))
        (plain_error ModelUnavailable "pin does not allow offline execution");
  policy ← ok_or (policies c !! payload_policy_ref q) (plain_error PolicyDenied "policy_ref is not activated");
  _ ← ensure (bool_decide (data_classification q ∈ allowed_classifications policy))
        (plain_error PolicyDenied "data_classification denied by policy");
  Ok policy.

Definition execution_limits (h : HostModelLimits) (m : ModelPackageManifest) (q : ModelExecutePayload) (max_out : N)
    : GuestLimits := {|
  limit_memory := N.min (N.min (default (max_memory_bytes m) (payload_max_memory_bytes q)) (max_memory_bytes m))
                    (host_max_memory_bytes h);
  limit_fuel := N.min (N.min (default (max_fuel m) (payload_max_fuel q)) (max_fuel m)) (host_max_fuel h);
  limit_output := max_out;
  abi := abi_version m;
  prepare_fuel := (fun f => N.min f (host_max_fuel h)) <$> max_prepare_fuel m;
  prepare_only := false |}.

Definition execution_timeout (m : ModelPackageManifest) (q : ModelExecutePayload) : N :=
  N.min (default (max_execution_ms m) (timeout_ms q)) (max_execution_ms m).

(** Cancelled or late, before or after the prediction. *)
Definition interrupted (phase : string) (deadline : N) : Eff ExactModelHostConnector HostConnectorError unit :=
  stop ← on_guests load_cancel;
  if (stop : bool) then
    fail (model_error_plain Cancelled ("model.execute cancelled " +:+ phase +:+ " the accelerator prediction"))
  else
    t ← on_guests now;
    lift (ensure (negb (deadline <=? t)%N)
      (model_error_plain Timeout ("model.execute exceeded timeout " +:+ phase +:+ " the accelerator prediction"))).

(** One prediction; the adapter keeps the state it reached. *)
Definition predict_on (i : nat) (a : Adapter) (v : CachedAcceleratorVariant) (input : Bytes)
    : Eff ExactModelHostConnector HostConnectorError (Adapter * Bytes) := fun c =>
  let '(a, r) := predict v input a in
  (set_adapters (<[i := a]> (adapters c)) (self_checks c) c, output ← r; Ok (a, output)).

Definition run_adapter (i : nat) (a : Adapter) (v : CachedAcceleratorVariant) (input : Bytes) (max_output deadline : N)
    : Eff ExactModelHostConnector HostConnectorError (Adapter * Bytes) :=
  _ ← interrupted "before" deadline;
  '(a, output) ← predict_on i a v input;
  _ ← interrupted "after" deadline;
  _ ← lift (ensure (N.of_nat (length output) <=? max_output)%N
             (model_error_plain ResourceExhausted "accelerator output exceeds the output ceiling"));
  _ ← lift (map_err (fun _ => model_error_plain ExecutionFailed
               "accelerator output is not a well-formed guest frame") (decode_guest_frame output));
  mret (a, output).

Definition publish_output (evidence : ModelRightsRecord) (placed : PlacementEvidence) (output : Bytes)
    : Eff ExactModelHostConnector HostConnectorError HostConnectorHostResult := fun c =>
  let '(i, ref) := put_output output (io c) in
  (set_io i c, Ok {| result_artifact_ref := Some ref; result_permission_state := None;
                     result_model_evidence := Some evidence; result_placement_evidence := Some placed |}).

Definition adapter_evidence (a : Adapter) : PlacementEvidence := {|
  evidence_placement := adapter_id a; compute_units := adapter_compute_units a;
  fuel_metering := adapter_fuel_metering a |}.

Definition run_granted (q : ModelExecutePayload) (g : Grant) (input : Bytes)
    : Eff ExactModelHostConnector HostConnectorError HostConnectorHostResult := fun c =>
  let m := manifest (granted_package g) in
  let limits := execution_limits (host_limits (config c)) m q (granted_output g) in
  let timeout := nanos (execution_timeout m q) in
  (started ← on_guests now;
   match granted_adapter g with
   | Some (i, a, v) =>
       '(a, output) ← run_adapter i a v input (granted_output g) (started + timeout)%N;
       publish_output (granted_evidence g) (adapter_evidence a) output
   | None =>
       output ← run_guest (granted_digest g) (granted_package g) input limits (started + timeout)%N;
       t ← on_guests now;
       _ ← lift (ensure (t - started <? timeout)%N (plain_error Timeout "model.execute exceeded timeout"));
       publish_output (granted_evidence g) wasm_cpu_evidence output
   end) c.

(** The cached bytes are hashed again; a mismatch drops the package's snapshots. *)
Definition recheck_cached (p : VerifiedModelPackage) (digest : string)
    : Eff ExactModelHostConnector HostConnectorError unit :=
  match recheck p digest with
  | Ok _ => mret tt
  | Err e => _ ← drop_snapshots digest; fail e
  end.

Definition execute_payload (q : ModelExecutePayload)
    : Eff ExactModelHostConnector HostConnectorError HostConnectorHostResult := fun c =>
  let digest := normalize_digest (ref_digest (model_ref q)) in
  (policy ← lift (authorize_execution c q);
   package ← lift (resolve_offline c digest);
   _ ← recheck_cached package digest;
   g ← lift (grant_package c q policy digest package);
   input ← on_io (take_input (input_ref q));
   _ ← lift (ensure (N.of_nat (length input) <=? max_input_bytes (manifest package))%N
              (plain_error ResourceExhausted "input exceeds model manifest ceiling"));
   run_granted q g input) c.

Definition invoke_model (request : HostConnectorHostRequest)
    : Eff ExactModelHostConnector HostConnectorError HostConnectorHostResult :=
  _ ← lift (ensure (bool_decide (request_connector_id request = MODEL_RUNTIME_CONNECTOR)
                    && bool_decide (request_operation request = MODEL_EXECUTE_OPERATION))
             (plain_error Incompatible "ExactModelHostConnector only serves model.execute"));
  _ ← lift (ensure (negb (request_cancel_requested request))
             (plain_error Cancelled "model.execute cancelled before invoke"));
  q ← lift (ok_or (decode_payload (request_payload request))
             (plain_error InvalidInput "model.execute payload failed schema validation"));
  execute_payload q.

(** The connector is a host adapter. *)
#[export] Instance model_port : HostConnectorPort := {| Port := ExactModelHostConnector; invoke := invoke_model |}.
End connector.
