(* ===== verification/ModelConnectorProps.v ===== *)
(** * The exact-model connector: properties

    What registration accepts and keeps, what every registered package satisfies after any
    sequence of operations, and what an execution that succeeds was granted. *)
From S2P Require Import Prelude Effect Json Serde Security HostConnector HostConnectorProps GuestFrame.
From S2P Require Import ModelPackage ModelStore ModelAdapter ModelGuest ModelConnector.
From Stdlib Require Import Ascii.

Section connector_props.
Context `{Trust, ModelCodec, WasmParser, GuestEngine, AcceleratorAdapter, Libm, SerdeJson, Environment, Build}.

(** ** What preparations and guests leave alone *)

(** Everything but guests, adapters and self-checks. *)
Definition registry (c : ExactModelHostConnector) :=
  (config c, packages c, prepared c, policies c, package_status c, supported_adapters c).

Definition quiet {E A} (m : Eff ExactModelHostConnector E A) : Prop :=
  forall c c' r, m c = (c', r) -> registry c' = registry c /\ io c' = io c.

Lemma quiet_ret {E A} (a : A) : quiet (E := E) (mret a).
Proof. by intros c c' r [= <- _]. Qed.

Lemma quiet_fail {E A} (e : E) : quiet (A := A) (fail e).
Proof. by intros c c' r [= <- _]. Qed.

Lemma quiet_lift {E A} (x : Result E A) : quiet (lift x).
Proof. by intros c c' r [= <- _]. Qed.

Lemma quiet_bind {E A B} (m : Eff ExactModelHostConnector E A) (k : A -> Eff ExactModelHostConnector E B) :
  quiet m -> (forall a, quiet (k a)) -> quiet (m ≫= k).
Proof.
  intros Hm Hk c c' r. unfold mbind, Eff_bind. destruct (m c) as [c1 [a|e]] eqn:Hc.
  - intros Hr. destruct (Hm _ _ _ Hc) as [Hr1 Hi1], (Hk _ _ _ _ Hr) as [Hr2 Hi2]. split; congruence.
  - intros [= <- _]. by eapply Hm.
Qed.

Lemma quiet_guests {E A} (m : Eff GuestState E A) : quiet (on_guests m).
Proof. intros c c' r. unfold on_guests. destruct (m (guests c)). by intros [= <- _]. Qed.

Lemma quiet_drop {E} digest : quiet (E := E) (drop_snapshots digest).
Proof. by intros c c' r [= <- _]. Qed.

Lemma quiet_if {E A} (b : bool) (m1 m2 : Eff ExactModelHostConnector E A) : quiet m1 -> quiet m2 -> quiet (if b then m1 else m2).
Proof. by destruct b. Qed.

Lemma quiet_decide {E A} (P : Prop) `{!Decision P} (m1 m2 : Eff ExactModelHostConnector E A) :
  quiet m1 -> quiet m2 -> quiet (if decide P then m1 else m2).
Proof. by destruct (decide P). Qed.
End connector_props.

Create HintDb quiet.
#[export] Hint Resolve quiet_ret quiet_fail quiet_lift quiet_guests quiet_drop : quiet.
#[export] Hint Resolve quiet_bind quiet_if quiet_decide : quiet.

Section preparation_props.
Context `{Trust, ModelCodec, WasmParser, GuestEngine, AcceleratorAdapter, Libm, SerdeJson, Environment, Build}.

Lemma quiet_elapsed {E} since : quiet (E := E) (elapsed_ms since).
Proof. unfold elapsed_ms. eauto with quiet. Qed.

Lemma quiet_run_guest digest p input g deadline : quiet (run_guest digest p input g deadline).
Proof. intros c c' r. unfold run_guest. apply quiet_guests. Qed.

Lemma quiet_prepare_adapter {E} id p metered deadline : quiet (E := E) (prepare_adapter id p metered deadline).
Proof.
  intros c c' r. unfold prepare_adapter. destruct (find_variant id (manifest p)) as [dv|]; [|by intros [= <- _]].
  destruct (find_cached id p) as [cv|]; [|by intros [= <- _]].
  destruct (find_adapter id (adapters c)) as [[i a]|]; [|by intros [= <- _]].
  destruct (_ || _); [by intros [= <- _]|]. destruct (self_check _ _ _) as [[checks a'] ev].
  destruct (passed ev); [|by intros [= <- _]].
  intros Hr. eapply quiet_bind in Hr; [|apply quiet_guests|intros; apply quiet_ret]. done.
Qed.

Lemma quiet_run_prepare digest p deadline : quiet (run_prepare digest p deadline).
Proof.
  intros c c' r. unfold run_prepare. destruct (run_guest _ _ _ _ _ c) as [c1 r1] eqn:Hg.
  apply quiet_run_guest in Hg as [Hreg Hio].
  destruct r1 as [b|e]; [intros [= <- _]; done|]. case_decide; [by intros [= <- _]|]. case_decide; by intros [= <- _].
Qed.

Lemma quiet_prepare_wasm_cpu p digest deadline : quiet (prepare_wasm_cpu p digest deadline).
Proof. unfold prepare_wasm_cpu. eauto 10 using quiet_run_prepare with quiet. Qed.

Lemma quiet_try_placement p digest policy budget id : quiet (try_placement p digest policy budget id).
Proof.
  assert (Ha : quiet (attempt_placement_on p digest policy budget id)).
  { unfold attempt_placement_on. eauto 20 using quiet_prepare_wasm_cpu, quiet_prepare_adapter with quiet. }
  intros c c' r. unfold try_placement. destruct (attempt_placement_on _ _ _ _ _ c) as [c1 [v|e]] eqn:Hc.
  - intros [= <- _]. by eapply Ha.
  - intros [= <- _]. apply (Ha _ _ _ Hc).
Qed.

Lemma quiet_prepare_placement p digest policy ids : forall tried started budget,
  quiet (prepare_placement p digest policy ids tried started budget).
Proof.
  induction ids as [|id ids IH]; intros tried started budget; cbn [prepare_placement]; [apply quiet_fail|].
  apply quiet_bind; [apply quiet_try_placement|]. intros [[t o] check].
  apply quiet_bind; [apply quiet_elapsed|]. intros d. apply quiet_decide; [|apply IH].
  apply quiet_bind; [apply quiet_elapsed|]. intros total. apply quiet_ret.
Qed.
End preparation_props.

(** ** Registration *)

Section registration_props.
Context `{Trust, ModelCodec, WasmParser, GuestEngine, AcceleratorAdapter, Libm, SerdeJson, Environment, Build}.

(** The pin of a package: the only one with its identity, for its digest, and its terms. *)
Record pinned (c : ConnectorConfig) (digest : string) (m : ModelPackageManifest) (signer : string) (pin : ExactModelPin)
    : Prop := {
  pinned_declared : pin ∈ pins c;
  pinned_digest : normalize_digest (pin_digest pin) = digest;
  pinned_identity : pin_model_id pin = model_id m /\ pin_version pin = version m;
  pinned_unique : forall other, other ∈ pins c -> pin_model_id other = pin_model_id pin ->
    pin_version other = pin_version pin -> other = pin;
  pinned_target : pin_target pin = PLACEMENT_WASM_CPU;
  pinned_rights : license_id (rights m) = pin_license_id (pin_rights pin) /\
    commercial_use (rights m) = pin_commercial_use (pin_rights pin);
  pinned_signer : forall id, pin_key_id pin = Some id -> id = signer }.

(** A package whose exact bytes a host-trusted key signed, that one pin names by digest,
    identity and rights, whose manifest is valid and whose files have the digests it
    declares, within the ceilings of the host. *)
Record registered (c : ConnectorConfig) (digest : string) (p : VerifiedModelPackage) : Prop := {
  registered_digest : digest = digest_hex (manifest_bytes p);
  registered_manifest : parse_manifest (manifest_bytes p) = Some (manifest p) /\ validate (manifest p) = Ok tt;
  registered_signed : exists signer key sig pin, keys (trusted_keys c) !! signer = Some key /\
    ed25519_verify key (manifest_bytes p) sig = true /\ pinned c digest (manifest p) signer pin;
  registered_files : normalize_digest (wasm_digest (manifest p)) = digest_hex (wasm p) /\
    Forall (fun v => variant_bytes_match (manifest p) v = true) (variants p);
  registered_limits : (max_memory_bytes (manifest p) <= host_max_memory_bytes (host_limits c) /\
    max_fuel (manifest p) <= host_max_fuel (host_limits c))%N }.

Lemma find_first_some {A} (f : A -> bool) (l : list A) (x : A) : find_first f l = Some x -> x ∈ l /\ f x = true.
Proof.
  induction l as [|a l IH]; cbn; [done|]. destruct (f a) eqn:Hf; [intros [= <-]; split; [left|done]|].
  intros [? ?]%IH. split; [by right|done].
Qed.

Lemma unambiguous_unique l pin : require_unambiguous l pin = Ok tt -> pin ∈ l ->
  forall other, other ∈ l -> pin_model_id other = pin_model_id pin -> pin_version other = pin_version pin -> other = pin.
Proof.
  unfold require_unambiguous. rewrite ensure_ok_inv, Nat.leb_le. intros Hlen Hin other Ho Hid Hv.
  set (same q := bool_decide (pin_model_id q = pin_model_id pin) && bool_decide (pin_version q = pin_version pin)) in *.
  assert (Hs : forall q, q ∈ l -> same q = true -> q ∈ List.filter same l).
  { intros q Hq Hf. apply list_elem_of_In, filter_In. split; [by apply list_elem_of_In|done]. }
  assert (same pin = true) as Hp1 by (unfold same; by rewrite !bool_decide_eq_true_2).
  assert (same other = true) as Ho1 by (unfold same; by rewrite !bool_decide_eq_true_2).
  pose proof (Hs pin Hin Hp1) as Hp2. pose proof (Hs other Ho Ho1) as Ho2.
  destruct (List.filter same l) as [|a [|b rest]]; [by apply elem_of_nil in Hp2| |cbn in Hlen; lia].
  apply list_elem_of_singleton in Hp2, Ho2. congruence.
Qed.

Lemma verify_signature_ok t s mb : verify_signature t s mb = Ok tt -> exists key sig,
  keys t !! key_id s = Some key /\ ed25519_verify key mb sig = true.
Proof.
  unfold verify_signature. intros Hv. ok_inv. eauto.
Qed.

Lemma check_pin_ok pin s m : check_pin_against_manifest pin s m = Ok tt ->
  pin_model_id pin = model_id m /\ pin_version pin = version m /\ validate m = Ok tt /\ pin_target pin = PLACEMENT_WASM_CPU /\
  license_id (rights m) = pin_license_id (pin_rights pin) /\ commercial_use (rights m) = pin_commercial_use (pin_rights pin) /\
  forall id, pin_key_id pin = Some id -> id = key_id s.
Proof.
  unfold check_pin_against_manifest. intros Hc. ok_inv. to_props. split_and!; try done.
  intros id Hid. match goal with Hk : match pin_key_id pin with _ => _ end = true |- _ => rewrite Hid in Hk; by to_props end.
Qed.

Lemma verify_package_ok p : verify_package p = Ok tt -> validate (manifest p) = Ok tt /\
  normalize_digest (wasm_digest (manifest p)) = digest_hex (wasm p) /\
  Forall (fun v => variant_bytes_match (manifest p) v = true) (variants p).
Proof.
  unfold verify_package. intros ([] & Hv & Hrest)%bind_ok_inv. rewrite !ensure_then, bool_decide_eq_true in Hrest.
  destruct Hrest as (Hd & Hf & _). split_and!; [done|done|]. apply Forall_forall. intros v Hin.
  rewrite forallb_forall in Hf. apply Hf. by apply list_elem_of_In.
Qed.

(** What the checks and the verification accept is registered. *)
Lemma accept_registered c mb wb sb files p :
  accept_package c mb wb sb files = Ok p -> verify_package p = Ok tt -> registered (config c) (digest_hex (manifest_bytes p)) p.
Proof.
  unfold accept_package. intros Ha (Hval & Hwasm & Hvars)%verify_package_ok.
  apply bind_ok_inv in Ha as (s & Hs & Ha). apply bind_ok_inv in Ha as ([] & Hsig & Ha).
  apply bind_ok_inv in Ha as (pin & Hpin%ok_or_ok_inv & Ha). apply bind_ok_inv in Ha as ([] & Hun & Ha).
  apply bind_ok_inv in Ha as (m & Hm%ok_or_ok_inv & Ha). apply bind_ok_inv in Ha as ([] & Hcheck%map_err_ok & Ha).
  apply bind_ok_inv in Ha as (ev & Hrights & Ha). apply bind_ok_inv in Ha as (vs & Hvs & Ha).
  apply bind_ok_inv in Ha as ([] & Hlim & [= <-]). cbn [manifest manifest_bytes wasm variants] in *.
  apply find_first_some in Hpin as [Hin Hd]. to_props. apply verify_signature_ok in Hsig as (key & sig & Hkey & Hver).
  apply check_pin_ok in Hcheck as (? & ? & _ & ? & ? & ? & ?).
  unfold check_host_limits in Hlim. apply ensure_ok_inv in Hlim. to_props. split; cbn [manifest manifest_bytes wasm variants];
    [done|done| |done|lia].
  exists (key_id s), key, sig, pin. split_and!; [done|done|]. split; [done|done|done| |done|done|done].
  by apply unambiguous_unique.
Qed.

(** How a placement was fixed: the first listed one whose preparation was ready. *)
Definition fixed_placement (ref : string) (pr : PlacementPreparation) : Prop :=
  placement_policy_ref (preparation_policy pr) = ref /\ exists before after,
  effective_placements (placements (preparation_policy pr)) = Some (before ++ placement pr :: after) /\
  attempt_placement <$> attempts pr = before ++ [placement pr] /\
  (fun a => bool_decide (attempt_outcome a = PlacementReady)) <$> attempts pr = replicate (length before) false ++ [true].

Lemma prepare_placement_fixed p digest policy ids : forall tried started budget c c' pr,
  prepare_placement p digest policy ids tried started budget c = (c', Ok pr) ->
  preparation_policy pr = policy /\ exists before after, ids = before ++ placement pr :: after /\
    attempt_placement <$> attempts pr = (attempt_placement <$> tried) ++ before ++ [placement pr] /\
    (fun a => bool_decide (attempt_outcome a = PlacementReady)) <$> attempts pr =
      ((fun a => bool_decide (attempt_outcome a = PlacementReady)) <$> tried) ++ replicate (length before) false ++ [true].
Proof.
  induction ids as [|id ids IH]; intros tried started budget c c' pr; cbn [prepare_placement]; [done|].
  intros Hrun. apply eff_bind_ok in Hrun as (c1 & [[t o] check] & _ & Hrun).
  apply eff_bind_ok in Hrun as (c2 & d & _ & Hrun). case_decide as Ho.
  - apply eff_bind_ok in Hrun as (c3 & total & _ & Hrun). injection Hrun as _ <-. cbn. split; [done|].
    exists [], ids. split_and!; [done|by rewrite fmap_app|]. rewrite fmap_app. cbn. by rewrite bool_decide_eq_true_2.
  - apply IH in Hrun as (Hpol & before & after & -> & Hat & Hout). split; [done|]. exists (id :: before), after.
    split_and!; [done| |].
    + rewrite Hat, fmap_app, <-app_assoc. done.
    + rewrite Hout, fmap_app, <-app_assoc. cbn. by rewrite bool_decide_eq_false_2.
Qed.

(** What a registration does: it keeps the verified package and the placement fixed for
    the policy, or nothing. *)
Inductive registration (c c' : ExactModelHostConnector) (policy : PlacementPolicy) : Result HostConnectorError string -> Prop :=
  | registration_kept digest p pr : registered (config c) digest p -> fixed_placement (placement_policy_ref policy) pr ->
      preparation_policy pr = policy -> io c' = io c ->
      registry c' = (config c, <[digest := p]> (packages c), <[(digest, placement_policy_ref policy) := pr]> (prepared c),
        policies c, package_status c, supported_adapters c) ->
      registration c c' policy (Ok digest)
  | registration_refused e : registry c' = registry c -> io c' = io c -> registration c c' policy (Err e).

Lemma enter_registration c mb wb sb files p policy budget c' r :
  accept_package c mb wb sb files = Ok p -> enter_package p policy budget c = (c', r) -> registration c c' policy r.
Proof.
  intros Hacc. unfold enter_package. destruct (verify_package p) as [[]|e] eqn:Hver; cycle 1.
  { intros [= <- <-]. by apply registration_refused. }
  destruct (effective_placements _) as [ids|] eqn:Hids; cycle 1.
  { intros [= <- <-]. by apply registration_refused. }
  unfold mbind, Eff_bind, lift, on_guests, now, ok_or. set (digest := digest_hex _). set (k := nanos _). cbn beta iota.
  match goal with |- context [prepare_placement _ _ _ _ _ ?t _ ?c2] => set (started := t); set (before := c2) end.
  destruct (prepare_placement p digest policy ids [] started k before) as [c3 [pr|e]] eqn:Hprep;
    destruct (quiet_prepare_placement _ _ _ _ _ _ _ _ _ _ Hprep) as [Hreg Hio]; intros [= <- <-].
  - apply prepare_placement_fixed in Hprep as (Hpol & pre & post & Hids' & Hat & Hout).
    eapply registration_kept; [by eapply accept_registered| |exact Hpol|exact Hio|].
    + split; [by rewrite Hpol|]. exists pre, post. rewrite Hpol. split_and!; [congruence|done|done].
    + change (registry before) with (registry c) in Hreg. injection Hreg as -> -> -> -> -> ->. done.
  - by apply registration_refused.
Qed.

Lemma registration_spec mb wb sb files policy budget c c' r :
  register_package_with_variants mb wb sb files policy budget c = (c', r) -> registration c c' policy r.
Proof.
  unfold register_package_with_variants. destruct (accept_package c mb wb sb files) as [p|e] eqn:Hacc.
  - cbn [lift mbind Eff_bind]. by eapply enter_registration.
  - intros [= <- <-]. by apply registration_refused.
Qed.

(** Registration of a signed package: either it is refused and no package, placement,
    policy or buffer changes, or the package is kept under the digest of its exact bytes,
    signed by a trusted key, matching its only pin, valid and within the ceilings of the
    host, together with the first listed placement that could be prepared. *)
Theorem registration_exact mb wb sb files policy budget c c' r :
  register_package_with_variants mb wb sb files policy budget c = (c', r) -> registration c c' policy r.
Proof. apply registration_spec. Qed.
End registration_props.

(** ** Execution *)

(** An adapter keeps its id. *)
Class AdapterLaws `{AcceleratorAdapter} : Prop := {
  predict_id v input a : adapter_id (predict v input a).1 = adapter_id a }.

Section execution_props.
Context `{Trust, ModelCodec, WasmParser, GuestEngine, AcceleratorAdapter, Libm, SerdeJson, Environment, Build, !AdapterLaws}.

Lemma quiet_interrupted phase deadline : quiet (interrupted phase deadline).
Proof. unfold interrupted. eauto 10 with quiet. Qed.

Lemma quiet_predict_on i a v input : quiet (predict_on i a v input).
Proof. intros c c' r. unfold predict_on. destruct (predict v input a) as [a' o]. by intros [= <- _]. Qed.

Lemma quiet_run_adapter i a v input max_output deadline : quiet (run_adapter i a v input max_output deadline).
Proof.
  unfold run_adapter. apply quiet_bind; [apply quiet_interrupted|]. intros _.
  apply quiet_bind; [apply quiet_predict_on|]. intros [a' output]. apply quiet_bind; [apply quiet_interrupted|].
  eauto with quiet.
Qed.

Lemma run_adapter_ok i a v input max_output deadline c c' a' output :
  run_adapter i a v input max_output deadline c = (c', Ok (a', output)) ->
  adapter_id a' = adapter_id a /\ (N.of_nat (length output) <= max_output)%N.
Proof.
  unfold run_adapter. intros Hrun. apply eff_bind_ok in Hrun as (c1 & [] & _ & Hrun).
  apply eff_bind_ok in Hrun as (c2 & [a2 o2] & Hp & Hrun). apply eff_bind_ok in Hrun as (c3 & [] & _ & Hrun).
  apply eff_bind_ok in Hrun as (c4 & [] & [_ Hlen]%lift_inv & Hrun). apply eff_bind_ok in Hrun as (c5 & v5 & _ & Hrun).
  injection Hrun as _ <- <-. symmetry in Hlen. apply ensure_ok_inv, N.leb_le in Hlen. split; [|done].
  unfold predict_on in Hp. pose proof (predict_id v input a) as Hid. destruct (predict v input a) as [a3 [o3|e3]]; [|done].
  by injection Hp as _ <- _.
Qed.

Lemma run_guest_output digest p input g deadline c c' b :
  run_guest digest p input g deadline c = (c', Ok b) -> prepare_only g = false -> (N.of_nat (length b) <= limit_output g)%N.
Proof.
  unfold run_guest, on_guests. intros Hrun Hp. destruct (engine (config c)).
  - destruct (execute_wasm_cpu_model _ _ _ _ _ _) as [gs r] eqn:Hg. injection Hrun as _ ->. by eapply wasm_cpu_output.
  - destruct (execute_wasmi_model _ _ _ _ _ _ _) as [gs r] eqn:Hg. injection Hrun as _ ->. by eapply wasmi_output.
Qed.

(** The placement that ran. *)
Definition placed_by (g : Grant) : string :=
  match granted_adapter g with None => PLACEMENT_WASM_CPU | Some (_, a, _) => adapter_id a end.

(** What a granted execution does to the buffers. *)
Definition granted_run (g : Grant) (c c' : ExactModelHostConnector) (r : Result HostConnectorError HostConnectorHostResult) : Prop :=
  registry c' = registry c /\
  match r with
  | Ok res => exists output placed, (N.of_nat (length output) <= granted_output g)%N /\
      put_output output (io c) = (io c', default "" (result_artifact_ref res)) /\
      res = {| result_artifact_ref := Some (output_id (saturating_add (next_output (io c)) 1));
               result_permission_state := None; result_model_evidence := Some (granted_evidence g);
               result_placement_evidence := Some placed |} /\
      evidence_placement placed = placed_by g
  | Err _ => io c' = io c
  end.

Lemma publish_granted g c c1 c' placed output r : registry c1 = registry c -> io c1 = io c ->
  (N.of_nat (length output) <= granted_output g)%N -> evidence_placement placed = placed_by g ->
  publish_output (granted_evidence g) placed output c1 = (c', r) -> granted_run g c c' r.
Proof.
  intros Hr Hio Hlen Hp. unfold publish_output, put_output. intros [= <- <-]. split; [done|].
  exists output, placed. rewrite Hio. split_and!; done.
Qed.

Lemma run_granted_spec q g input c c' r : run_granted q g input c = (c', r) -> granted_run g c c' r.
Proof.
  unfold run_granted. set (limits := execution_limits _ _ _ _). set (timeout := nanos _).
  unfold mbind at 1, Eff_bind at 1. unfold on_guests at 1, now at 1.
  set (started := instant_at _). set (c0 := set_guests _ c). assert (Hc0 : registry c0 = registry c /\ io c0 = io c) by done.
  destruct Hc0 as [Hr0 Hi0]. clearbody c0. pose proof (publish_granted g c) as Hpub. unfold placed_by in Hpub.
  destruct (granted_adapter g) as [[[i a] v]|] eqn:Hg.
  - unfold mbind at 1, Eff_bind at 1. destruct (run_adapter _ _ _ _ _ _ c0) as [c1 [[a' output]|e]] eqn:Hrun;
      destruct (quiet_run_adapter _ _ _ _ _ _ _ _ _ Hrun) as [Hr1 Hi1].
    + apply run_adapter_ok in Hrun as [Hid Hlen]. apply Hpub; [congruence|congruence|done|done].
    + intros [= <- <-]. split; congruence.
  - unfold mbind at 1, Eff_bind at 1. destruct (run_guest _ _ _ _ _ c0) as [c1 [output|e]] eqn:Hrun;
      destruct (quiet_run_guest _ _ _ _ _ _ _ _ Hrun) as [Hr1 Hi1]; [|intros [= <- <-]; split; congruence].
    apply run_guest_output in Hrun; [|done]. unfold mbind at 1, Eff_bind at 1. unfold on_guests at 1, now at 1.
    set (c2 := set_guests _ c1). assert (Hc2 : registry c2 = registry c1 /\ io c2 = io c1) by done. destruct Hc2 as [Hr2 Hi2].
    clearbody c2. unfold mbind at 1, Eff_bind at 1. unfold lift at 1. destruct (ensure _ _) as [[]|e].
    + apply Hpub; [congruence|congruence|done|done].
    + intros [= <- <-]. split; congruence.
Qed.

Definition payload_digest (q : ModelExecutePayload) : string := normalize_digest (ref_digest (model_ref q)).

(** What an execution needs: a pin of the exact model that allows it, an active policy that
    allows the data, the verified package with unchanged bytes, rights that permit the
    application's usage and no revocation, the schema of the input, and a placement fixed
    for the package and the policy. *)
Record authorized_execution (c : ExactModelHostConnector) (q : ModelExecutePayload) (policy : ExecutionPolicy)
    (p : VerifiedModelPackage) (pr : PlacementPreparation) (usage : ModelUsage) : Prop := {
  execution_pin : exists pin, pin ∈ pins (config c) /\ pin_model_id pin = ref_model_id (model_ref q) /\
    pin_version pin = ref_version (model_ref q) /\ normalize_digest (pin_digest pin) = payload_digest q /\
    (offline_mode (config c) = true -> pin_offline_allowed pin = true);
  execution_policy : policies c !! payload_policy_ref q = Some policy /\
    data_classification q ∈ allowed_classifications policy;
  execution_package : packages c !! normalize_digest (payload_digest q) = Some p /\
    digest_hex (manifest_bytes p) = normalize_digest (payload_digest q) /\
    digest_hex (wasm p) = normalize_digest (wasm_digest (manifest p)) /\
    Forall (fun v => variant_bytes_match (manifest p) v = true) (variants p);
  execution_identity : model_id (manifest p) = ref_model_id (model_ref q) /\ version (manifest p) = ref_version (model_ref q);
  execution_schema : input_schema_ref (manifest p) = payload_input_schema_ref q /\
    input_schema_version (manifest p) = payload_input_schema_version q;
  execution_usage : effective_usage c = Ok usage /\
    (usage = Commercial -> commercial_use (rights (manifest p)) <> Prohibited);
  execution_status : entry_status <$> package_status c !! payload_digest q <> Some Revoked;
  execution_placement : prepared c !! (payload_digest q, payload_policy_ref q) = Some pr /\
    require_registered_policy policy (preparation_policy pr) = Ok tt }.

Lemma authorize_execution_ok c q policy : authorize_execution c q = Ok policy ->
  (exists pin, pin ∈ pins (config c) /\ pin_model_id pin = ref_model_id (model_ref q) /\
    pin_version pin = ref_version (model_ref q) /\ normalize_digest (pin_digest pin) = payload_digest q /\
    (offline_mode (config c) = true -> pin_offline_allowed pin = true)) /\
  policies c !! payload_policy_ref q = Some policy /\ data_classification q ∈ allowed_classifications policy.
Proof.
  unfold authorize_execution, require_pin. intros (pin & Hpin%ok_or_ok_inv & Hrest)%bind_ok_inv.
  apply find_first_some in Hpin as [Hin Hm]. rewrite ensure_then in Hrest. destruct Hrest as [Hoff Hrest].
  apply bind_ok_inv in Hrest as (pol & Hpol%ok_or_ok_inv & Hrest). rewrite ensure_then, bool_decide_eq_true in Hrest.
  destruct Hrest as [Hcl [= <-]]. to_props. split; [|done]. exists pin. split_and!; try done.
  intros Hmode. rewrite Hmode in Hoff. cbn in Hoff. by to_props.
Qed.

Lemma rights_ok c m digest ev : check_rights_and_status c m digest = Ok ev -> exists usage,
  effective_usage c = Ok usage /\ (usage = Commercial -> commercial_use (rights m) <> Prohibited) /\
  entry_status <$> package_status c !! digest <> Some Revoked /\
  ev = rights_record m digest usage (package_status c !! digest).
Proof.
  unfold check_rights_and_status. intros (usage & Hu%map_err_ok & Hrest)%bind_ok_inv.
  unfold check_usage, check_status in Hrest. rewrite !ensure_then in Hrest.
  destruct Hrest as (Huse & Hst & [= <-]). exists usage. rewrite negb_true_iff, andb_false_iff, !bool_decide_eq_false in Huse.
  rewrite negb_true_iff, bool_decide_eq_false in Hst. split_and!; [done| |done|done]. intros ->. by destruct Huse.
Qed.

(** The grant of an authorized execution. *)
Lemma grant_ok c q policy p g : policies c !! payload_policy_ref q = Some policy ->
  grant_package c q policy (payload_digest q) p = Ok g -> exists usage pr,
  effective_usage c = Ok usage /\ (usage = Commercial -> commercial_use (rights (manifest p)) <> Prohibited) /\
  entry_status <$> package_status c !! payload_digest q <> Some Revoked /\
  (model_id (manifest p) = ref_model_id (model_ref q) /\ version (manifest p) = ref_version (model_ref q)) /\
  (input_schema_ref (manifest p) = payload_input_schema_ref q /\
   input_schema_version (manifest p) = payload_input_schema_version q) /\
  (prepared c !! (payload_digest q, payload_policy_ref q) = Some pr /\
   require_registered_policy policy (preparation_policy pr) = Ok tt) /\
  placed_by g = placement pr /\
  granted_evidence g = rights_record (manifest p) (payload_digest q) usage (package_status c !! payload_digest q) /\
  granted_output g = N.min (N.min (payload_max_output_bytes q) (policy_max_output_bytes policy)) (max_output_bytes (manifest p)).
Proof.
  intros Hpol. unfold grant_package. intros (ev & Hev%rights_ok & Hrest)%bind_ok_inv. destruct Hev as (usage & Hu & Huse & Hst & ->).
  rewrite !ensure_then, !andb_true_iff, !bool_decide_eq_true in Hrest. destruct Hrest as (Hid & Hschema & Hrest).
  apply bind_ok_inv in Hrest as (pr & Hpr%ok_or_ok_inv & Hrest). apply bind_ok_inv in Hrest as ([] & Hreg & Hrest).
  apply bind_ok_inv in Hrest as (acc & Hacc & Hrest). rewrite ensure_then in Hrest. destruct Hrest as [_ [= <-]].
  exists usage, pr. split_and!; try done; try apply Hid; try apply Hschema.
  unfold placed_by, prepared_adapter in *. cbn [granted_adapter]. case_decide as Hw; [by injection Hacc as <-|].
  destruct (find_adapter _ _) as [[i a]|] eqn:Hf; [|done]. destruct (find_cached _ _); [|done]. injection Hacc as <-.
  unfold find_adapter in Hf. apply list_find_Some in Hf as (_ & [Hida _] & _). done.
Qed.

(** What [model.execute] does. *)
Definition model_execution (request : HostConnectorHostRequest) (c c' : ExactModelHostConnector)
    (r : Result HostConnectorError HostConnectorHostResult) : Prop :=
  registry c' = registry c /\
  match r with
  | Ok res => exists q policy p pr usage input output placed,
      request_connector_id request = MODEL_RUNTIME_CONNECTOR /\ request_operation request = MODEL_EXECUTE_OPERATION /\
      request_cancel_requested request = false /\ decode_payload (request_payload request) = Some q /\
      authorized_execution c q policy p pr usage /\
      inputs (io c) !! input_ref q = Some input /\ (N.of_nat (length input) <= max_input_bytes (manifest p))%N /\
      (N.of_nat (length output) <= payload_max_output_bytes q /\ N.of_nat (length output) <= policy_max_output_bytes policy /\
       N.of_nat (length output) <= max_output_bytes (manifest p))%N /\
      io c' = (put_output output (take_input (input_ref q) (io c)).1).1 /\
      res = {| result_artifact_ref := Some (output_id (saturating_add (next_output (io c)) 1));
               result_permission_state := None;
               result_model_evidence := Some (rights_record (manifest p) (payload_digest q) usage
                 (package_status c !! payload_digest q));
               result_placement_evidence := Some placed |} /\
      evidence_placement placed = placement pr
  | Err _ => io c' = io c \/
      exists q, decode_payload (request_payload request) = Some q /\ io c' = (take_input (input_ref q) (io c)).1
  end.

Lemma recheck_ok p digest : recheck p digest = Ok tt -> digest_hex (manifest_bytes p) = normalize_digest digest /\
  digest_hex (wasm p) = normalize_digest (wasm_digest (manifest p)) /\
  Forall (fun v => variant_bytes_match (manifest p) v = true) (variants p).
Proof.
  unfold recheck. intros Hr%ensure_ok_inv. to_props. split_and!; [done|done|]. apply Forall_forall. intros v Hin.
  match goal with Hf : forallb _ _ = true |- _ => rewrite forallb_forall in Hf; apply Hf end. by apply list_elem_of_In.
Qed.

Lemma execute_payload_spec q request c c' r : request_connector_id request = MODEL_RUNTIME_CONNECTOR ->
  request_operation request = MODEL_EXECUTE_OPERATION -> request_cancel_requested request = false ->
  decode_payload (request_payload request) = Some q -> execute_payload q c = (c', r) -> model_execution request c c' r.
Proof.
  intros Hcon Hop Hcan Hq. unfold execute_payload, mbind, Eff_bind, lift, mret, Eff_ret, on_io. fold (payload_digest q).
  destruct (authorize_execution c q) as [policy|e] eqn:Hauth; [|intros [= <- <-]; split; [done|by left]].
  destruct (authorize_execution_ok _ _ _ Hauth) as (Hpin & Hpol & Hcl).
  destruct (resolve_offline c (payload_digest q)) as [p|e] eqn:Hres; [|intros [= <- <-]; split; [done|by left]].
  unfold recheck_cached. destruct (recheck p (payload_digest q)) as [[]|e] eqn:Hre; cycle 1.
  { intros [= <- <-]. split; [done|by left]. }
  destruct (grant_package c q policy (payload_digest q) p) as [g|e] eqn:Hg; [|intros [= <- <-]; split; [done|by left]].
  destruct (grant_ok _ _ _ _ _ Hpol Hg) as (usage & pr & Hu & Huse & Hst & Hid & Hschema & Hpr & Hplaced & Hev & Hout).
  unfold mret, Eff_ret. destruct (take_input (input_ref q) (io c)) as [io1 r1] eqn:Htake.
  assert (Hterr : forall c1 e, registry c1 = registry c -> io c1 = io1 -> model_execution request c c1 (Err e)).
  { intros c1 e Hr1 Hi1. split; [done|]. right. exists q. by rewrite Htake. }
  destruct r1 as [input|e]; [|intros [= <- <-]; by apply Hterr]. destruct (ensure _ _) as [[]|e] eqn:Hlen;
    [|intros [= <- <-]; by apply Hterr].
  intros Hrun. apply run_granted_spec in Hrun as [Hr2 Hrun]. change (registry (set_io io1 c)) with (registry c) in Hr2.
  change (io (set_io io1 c)) with io1 in Hrun. destruct r as [res|e]; [|by apply Hterr].
  destruct Hrun as (output & placed & Holen & Hput & -> & Hpe). split; [done|].
  unfold take_input in Htake. destruct (inputs (io c) !! input_ref q) as [b|] eqn:Hin; [|done]. injection Htake as <- <-.
  exists q, policy, p, pr, usage, b, output, placed. apply ensure_ok_inv, N.leb_le in Hlen. rewrite Hout in Holen.
  split_and!; try done; try lia.
  - apply ok_or_ok_inv in Hres. apply recheck_ok in Hre. by split.
  - unfold take_input. rewrite Hin. cbn [fst]. by rewrite Hput.
  - by rewrite <-Hev.
  - congruence.
Qed.

Lemma invoke_model_spec request c c' r : invoke_model request c = (c', r) -> model_execution request c c' r.
Proof.
  unfold invoke_model. destruct (_ && _) eqn:Hop; [|intros [= <- <-]; split; [done|by left]].
  destruct (request_cancel_requested request) eqn:Hcan; [intros [= <- <-]; split; [done|by left]|].
  destruct (decode_payload _) as [q|] eqn:Hq; [|intros [= <- <-]; split; [done|by left]].
  cbn [ensure negb ok_or lift mbind Eff_bind]. to_props. by apply execute_payload_spec.
Qed.


(** ** Sequences of operations *)

Inductive ConnectorOp :=
  | OpRegister (mb wb sb : Bytes) (files : list (string * Bytes)) (policy : PlacementPolicy) (budget : option N)
  | OpExecute (request : HostConnectorHostRequest)
  | OpStatus (new : list (string * PackageStatusEntry))
  | OpStage (b : Bytes) (max_bytes : N)
  | OpStageArtifact (b : Bytes) (max_bytes : N)
  | OpDropRef (ref : string)
  | OpShutdown
  | OpAdapter (a : Adapter)
  | OpPolicy (p : ExecutionPolicy).

Definition step_connector (c : ExactModelHostConnector) (op : ConnectorOp) : ExactModelHostConnector :=
  match op with
  | OpRegister mb wb sb files policy budget => (register_package_with_variants mb wb sb files policy budget c).1
  | OpExecute request => (invoke_model request c).1
  | OpStatus new => set_package_status new c
  | OpStage b max_bytes => (on_io (stage_model_input b max_bytes) c).1
  | OpStageArtifact b max_bytes => (on_io (stage_artifact b max_bytes) c).1
  | OpDropRef ref => set_io (drop_ref ref (io c)) c
  | OpShutdown => shutdown c
  | OpAdapter a => register_adapter a c
  | OpPolicy p => activate_policy p c
  end.

Definition run_connector (cfg : ConnectorConfig) (ops : list ConnectorOp) : ExactModelHostConnector :=
  foldl step_connector (new_connector cfg) ops.

(** Every package is registered, and every placement fixed for a package of the store. *)
Definition sound_registry (cfg : ConnectorConfig) (c : ExactModelHostConnector) : Prop :=
  config c = cfg /\ (forall digest p, packages c !! digest = Some p -> registered cfg digest p) /\
  forall digest ref pr, prepared c !! (digest, ref) = Some pr -> is_Some (packages c !! digest) /\ fixed_placement ref pr.

Lemma sound_same cfg c c' : config c' = config c -> packages c' = packages c -> prepared c' = prepared c ->
  sound_registry cfg c -> sound_registry cfg c'.
Proof. unfold sound_registry. by intros -> -> ->. Qed.

Lemma sound_registration cfg c c' policy r : registration c c' policy r -> sound_registry cfg c -> sound_registry cfg c'.
Proof.
  intros Hreg Hs. destruct Hreg as [digest p pr Hp Hf _ _ Hr|e Hr _].
  - injection Hr as Hcfg Hpk Hpr _ _ _. destruct Hs as (Hc & Hpkgs & Hprep). subst cfg. unfold sound_registry.
    rewrite Hcfg, Hpk, Hpr. split_and!; [done| |].
    + intros d q [[-> <-]|[_ Hq]]%lookup_insert_Some; [done|by apply Hpkgs].
    + intros d ref q [[[= -> <-] <-]|[_ Hq]]%lookup_insert_Some.
      * by rewrite lookup_insert_eq.
      * destruct (Hprep _ _ _ Hq) as [Hsome Hfix]. split; [|done]. destruct (decide (digest = d)) as [->|Hne];
          [by rewrite lookup_insert_eq|by rewrite lookup_insert_ne].
  - injection Hr as Hcfg Hpk Hpr _ _ _. by eapply sound_same.
Qed.

Lemma sound_step cfg c op : sound_registry cfg c -> sound_registry cfg (step_connector c op).
Proof.
  intros Hs. destruct op as [mb wb sb files policy budget|request|new|b n|b n|ref| |a|p]; cbn [step_connector];
    try by apply sound_same with c.
  - destruct (register_package_with_variants _ _ _ _ _ _ c) as [c' r] eqn:Hr. apply registration_spec in Hr.
    by eapply sound_registration.
  - destruct (invoke_model request c) as [c' r] eqn:Hr. apply invoke_model_spec in Hr as [Hreg _].
    injection Hreg as Hcfg Hpk Hpr _ _ _. by eapply sound_same.
  - unfold on_io. destruct (stage_model_input b n (io c)). by apply sound_same with c.
  - unfold on_io. destruct (stage_artifact b n (io c)). by apply sound_same with c.
Qed.

Lemma run_sound cfg ops : sound_registry cfg (run_connector cfg ops).
Proof.
  unfold run_connector. assert (Hstart : sound_registry cfg (new_connector cfg)).
  { split_and!; [done|intros d p Hp; discriminate Hp|intros d ref pr Hp; discriminate Hp]. }
  revert Hstart. generalize (new_connector cfg). induction ops as [|op ops IH]; intros c Hc; [done|]. cbn [foldl].
  by apply IH, sound_step.
Qed.

(** C9: the registry of models is sound after every sequence of registrations, executions,
    status changes and other operations: every package in it was signed by a trusted key
    over the exact bytes whose digest is its key, matches its only pin, is valid and has
    files with the digests it declares, and every placement was the first listed one that
    could be prepared for a package of the store. *)
Theorem model_registry_sound cfg ops : sound_registry cfg (run_connector cfg ops).
Proof. apply run_sound. Qed.

(** C8: a [model.execute] command dispatched to the connector, after any sequence of
    operations: when it completes and is not a replay, the application permitted it and it
    executed a registered package, authorized by its pin, policy, rights and placement; the
    document carries the rights record and the reference of the new output. *)
Theorem model_dispatch_governed cfg ops app command store s' d :
  dispatch_host_connector_command app command {| idempotency := store; host := run_connector cfg ops |} = (s', Ok d) ->
  dispatch_operation d = Some MODEL_EXECUTE_OPERATION -> store !! idempotency_key command = None ->
  let c := run_connector cfg ops in exists r b q policy p pr usage, permitted app command r b /\
    decode_payload (payload command) = Some q /\ authorized_execution c q policy p pr usage /\
    registered cfg (digest_hex (manifest_bytes p)) p /\ fixed_placement (payload_policy_ref q) pr /\
    artifact_ref d = Some (output_id (saturating_add (next_output (io c)) 1)) /\
    model_evidence d = Some (rights_record (manifest p) (payload_digest q) usage (package_status c !! payload_digest q)) /\
    evidence_placement <$> placement_evidence d = Some (placement pr).
Proof.
  intros Hd Hop Hnew c. apply dispatch_dispatched in Hd. inversion Hd as [| |? ? ? ? Hent| | | |r b h res a pm m l es d' Hp _ _ Hinv Hpub Hes Hdoc]; subst.
  { cbn in Hent. rewrite Hnew in Hent. discriminate. }
  cbn [dispatch_operation success_dispatch] in Hop. injection Hop as Hop.
  inversion Hpub as [? Hperm|ref _ Href _ _]; subst; [rewrite Hop in Hperm; discriminate|].
  apply invoke_model_spec in Hinv as [_ (q & policy & p & pr & usage & input & output & placed & _ & _ & _ & Hq & Ha & _ & _ & _ & _ & -> & Hpl)].
  cbn [host] in Ha. destruct (run_sound cfg ops) as (_ & Hpk & Hpr). fold c in Hpk, Hpr, Ha.
  destruct (execution_package _ _ _ _ _ _ Ha) as (Hlook & Hdig & _ & _). destruct (execution_placement _ _ _ _ _ _ Ha) as [Hprep _].
  exists r, b, q, policy, p, pr, usage. split_and!; try done.
  - rewrite Hdig. by apply Hpk.
  - by destruct (Hpr _ _ _ Hprep).
  - cbn. by rewrite Hpl.
Qed.
End execution_props.
