(* ===== verification/ModelSamples.v ===== *)
(** * Sample connectors

    A host that grants audio permission, and a model connector with one signed package
    whose guest copies its input: the dispatches and registrations the properties of
    [HostConnectorProps] and [ModelConnectorProps] speak about happen. *)
From S2P Require Import Prelude Effect Json Serde StoreSamples Security HostConnector.
From S2P Require Import ModelPackage HostConnectorProps GuestFrame ModelStore ModelAdapter ModelGuest.
From S2P Require Import ModelConnector ModelConnectorProps.
From Stdlib Require Import Ascii.

(** ** A host that grants permission *)

Definition granting : HostConnectorPort := {|
  Port := nat;
  invoke _ n := (S n, Ok {| result_artifact_ref := None; result_permission_state := Some Granted;
                            result_model_evidence := None; result_placement_evidence := None |}) |}.

Definition sample_binding (id connector target : string) : HostConnectorBinding := {|
  HostConnector.binding_id := id; HostConnector.connector_id := connector; HostConnector.version := "1.0.0";
  HostConnector.config_ref := "config"; HostConnector.placement_targets := [target] |}.

Definition sample_app : Application := {|
  HostConnector.manifest := {|
    app_id := "app";
    connector_bindings := [sample_binding "mic" AUDIO_INPUT_CONNECTOR "local"; sample_binding "model" MODEL_RUNTIME_CONNECTOR "macos"];
    command_routes := [
      {| route_command := "ask"; route_connector_id := AUDIO_INPUT_CONNECTOR; operation := AUDIO_PERMISSION_REQUEST_OPERATION |};
      {| route_command := "run"; route_connector_id := MODEL_RUNTIME_CONNECTOR; operation := MODEL_EXECUTE_OPERATION |}] |};
  activations := {| activated_binding_ids := ["mic"; "model"] |} |}.

Definition sample_command (name : string) (v : Value) : HostConnectorAppCommand := {|
  command_kind := COMMAND_KIND; command_schema_version := SCHEMA_VERSION; command := name; command_id := "command-1";
  correlation_id := "correlation-1"; idempotency_key := "key-1"; target_family := "macos"; cancel_requested := false;
  payload := v |}.

Definition ask : HostConnectorAppCommand := sample_command "ask" (Object []).

Definition fresh_state : @DispatchState granting := @Build_DispatchState granting ∅ 0.

Definition first_ask := @dispatch_host_connector_command sample_serde granting sample_app ask fresh_state.

(** The document of a dispatch. *)
Definition document (r : Result HostConnectorFailure HostConnectorDispatch) : HostConnectorDispatch :=
  match r with Ok d => d | Err f => failure_dispatch f end.

Definition second_ask := @dispatch_host_connector_command sample_serde granting sample_app ask first_ask.1.

Definition twice : list (Application * HostConnectorAppCommand) := [(sample_app, ask); (sample_app, ask)].

Lemma both_asked : @dispatches sample_serde granting fresh_state twice
  = [(ask, fresh_state, first_ask.1, Ok (document first_ask.2));
     (ask, first_ask.1, second_ask.1, Ok (document second_ask.2))].
Proof. vm_compute. reflexivity. Qed.

(** The same command twice: the second is a replay, and the host was called once. *)
Lemma connector_key_once_witness : @host granting second_ask.1 = 1 /\
  document second_ask.2 = document first_ask.2 /\ second_ask.1 = first_ask.1 /\
  command ask = command ask /\ target_family ask = target_family ask /\ payload ask = payload ask.
Proof.
  split; [vm_compute; reflexivity|].
  apply (@connector_key_once sample_serde granting sample_serde_laws fresh_state twice 0 1 ask fresh_state first_ask.1
    (document first_ask.2) ask first_ask.1).
  - intros app c [[= -> ->]|[[= -> ->]|[]%elem_of_nil]%elem_of_cons]%elem_of_cons;
      (split_and!; [by vm_compute|by vm_compute|by vm_compute|vm_compute; lia]).
  - lia.
  - rewrite both_asked. reflexivity.
  - rewrite both_asked. reflexivity.
  - reflexivity.
Defined.

Lemma connector_dispatch_exact_witness :
  @dispatched sample_serde granting sample_app ask fresh_state first_ask.1 (Ok (document first_ask.2)) /\
  result_class (document first_ask.2) = "succeeded".
Proof. split; [apply connector_dispatch_exact|]; vm_compute; reflexivity. Defined.

(** ** A model connector *)

(** The digest is the head of the text, padded; the only good signature is all zeros. *)
#[local] Instance head_trust : Trust := {|
  sha256 b := take 32 (b ++ replicate 32 "."%char);
  PublicKey := unit;
  public_key_from_bytes _ := Some tt;
  ed25519_verify _ _ s := bool_decide (s = replicate 64 "000"%char);
  is_governed_artifact_path _ := true |}.

Definition manifest_text : Bytes := text_bytes "manifest".
Definition wasm_text : Bytes := text_bytes "wasm".
Definition package_digest : string := digest_hex manifest_text.

Definition sample_rights : ModelRights := {|
  license_id := "MIT"; attribution := "authors"; redistribution := "permitted"; commercial_use := Allowed;
  source_url := "https://example.org/model"; derivation := None |}.

Definition echo_manifest : ModelPackageManifest := {|
  schema_version := MODEL_PACKAGE_SCHEMA_VERSION; model_id := "echo"; ModelPackage.version := "1.0.0";
  wasm_digest := digest_hex wasm_text; registry_ref := "registry"; executable_format := "wasm"; abi_version := 1;
  input_schema_ref := "schema/in"; input_schema_version := "1"; output_schema_ref := "schema/out";
  output_schema_version := "1"; rights := sample_rights; supported_profiles := [PLACEMENT_WASM_CPU];
  max_memory_bytes := 65536; max_fuel := 1000; max_input_bytes := 100; max_output_bytes := 100;
  max_execution_ms := 1000; offline_allowed := true; max_prepare_fuel := None; accelerator_variants := None |}.

Definition echo_signature : ModelPackageSignature := {|
  alg := MODEL_SIGNATURE_ALG_ED25519; key_id := "key";
  signature := String.string_of_list_ascii (replicate 128 "0"%char) |}.

#[local] Instance echo_codec : ModelCodec := {|
  parse_signature _ := Some echo_signature;
  parse_manifest b := if decide (b = manifest_text) then Some echo_manifest else None |}.

#[local] Instance no_sections : WasmParser := {| parse_all _ := [] |}.

(** An instance is its memory and its fuel; a call copies the input window to the output. *)
Definition copy_window (in_ptr len out_ptr : Z) (m : Bytes) : Bytes :=
  let b := take (Z.to_nat len) (drop (Z.to_nat in_ptr) m) in
  take (Z.to_nat out_ptr) m ++ b ++ drop (Z.to_nat out_ptr + length b) m.

#[local] Instance echo_engine : GuestEngine := {|
  Module_ := unit; Instance_ := Bytes * N; Paused := Empty_set;
  compile _ _ := Some tt;
  instantiate _ _ limit fuel := Some (replicate (N.to_nat (N.min limit 65536)) "000"%char, fuel);
  memory_data i := Some i.1;
  set_memory m i := (m, i.2);
  grow_memory _ _ := None;
  get_fuel i := i.2;
  set_fuel f i := (i.1, f);
  mutable_globals_of _ := [];
  set_global _ _ i := i;
  has_execute _ := true;
  has_prepare _ := false;
  has_alloc _ := false;
  call_alloc _ _ := None;
  call_prepare _ := None;
  call_execute '(in_ptr, len, out_ptr, _) i := Some (inl (inl (len, (copy_window in_ptr len out_ptr i.1, i.2))));
  resume p := match p with end |}.

#[local] Instance no_adapters : AcceleratorAdapter := {|
  Adapter := Empty_set;
  adapter_id a := match a with end;
  available a := match a with end;
  adapter_compute_units a := match a with end;
  platform_version a := match a with end;
  adapter_fuel_metering a := match a with end;
  predict _ _ a := match a with end |}.

#[local] Instance no_adapters_laws : AdapterLaws.
Proof. constructor. intros v input []. Qed.

#[local] Instance no_libm : Libm := {| exp f := f |}.

(** Payloads are not measured here. *)
#[local] Instance short_serde : SerdeJson | 0 := {| parse_syntax _ := Err "unused"; to_vec _ := [] |}.

#[local] Instance calm : Environment := {| cancel_at _ := false; instant_at n := N.of_nat n |}.
#[local] Instance full_build : Build := {| wasmtime_executor := true; wasmi_executor := true |}.

Definition echo_pin : ExactModelPin := {|
  pin_model_id := "echo"; pin_version := "1.0.0"; pin_digest := "sha256:" +:+ package_digest; pin_offline_allowed := true;
  pin_target := PLACEMENT_WASM_CPU; pin_rights := {| pin_license_id := "MIT"; pin_commercial_use := Allowed |};
  pin_key_id := None |}.

Definition echo_config : ConnectorConfig := {|
  pins := [echo_pin]; offline_mode := true; trusted_keys := {| keys := {["key" := tt]} |}; engine := Wasmi;
  host_limits := default_host_limits; model_usage := Some Commercial; host_requires_commercial := false |}.

Definition echo_placement : PlacementPolicy := {|
  placement_policy_ref := "policy"; placements := []; require_fuel_metering := true |}.

Definition echo_policy : ExecutionPolicy := {|
  policy_ref := "policy"; allowed_classifications := ["public"]; policy_max_output_bytes := 50;
  policy_placements := Some [PLACEMENT_WASM_CPU]; policy_require_fuel_metering := Some true |}.

Definition echo_ops : list ConnectorOp :=
  [OpRegister manifest_text wasm_text [] [] echo_placement None; OpPolicy echo_policy; OpStage (text_bytes "hello") 10].

Definition echo_payload : Value := Object [
  ("model_ref", Object [("model_id", Str "echo"); ("version", Str "1.0.0"); ("digest", Str package_digest)]);
  ("input_ref", Str "input-1"); ("policy_ref", Str "policy"); ("data_classification", Str "public");
  ("input_schema_ref", Str "schema/in"); ("input_schema_version", Str "1"); ("max_output_bytes", Num (PosInt 20))].

Definition run_echo : HostConnectorAppCommand := sample_command "run" echo_payload.

Definition echo_registration :=
  register_package_with_variants manifest_text wasm_text [] [] echo_placement None (new_connector echo_config).

Lemma echo_registered : echo_registration.2 = Ok package_digest.
Proof. vm_compute. reflexivity. Qed.

Lemma registration_exact_witness :
  registration (new_connector echo_config) echo_registration.1 echo_placement (Ok package_digest).
Proof.
  rewrite <-echo_registered. apply (registration_exact manifest_text wasm_text [] [] echo_placement None).
  apply surjective_pairing.
Defined.

(** The connector with the package, its policy and a staged input. *)
Definition echo_connector : ExactModelHostConnector := run_connector echo_config echo_ops.

Lemma model_registry_sound_witness : manifest_bytes <$> packages echo_connector !! package_digest = Some manifest_text /\
  sound_registry echo_config echo_connector.
Proof. split; [vm_compute; reflexivity|]. apply model_registry_sound. Defined.



Lemma model_dispatch_governed_witness : exists s' d r b q policy p pr usage,
  dispatch_host_connector_command sample_app run_echo {| idempotency := ∅; host := echo_connector |} = (s', Ok d) /\
  permitted sample_app run_echo r b /\ decode_payload (payload run_echo) = Some q /\
  authorized_execution echo_connector q policy p pr usage /\ artifact_ref d = Some "output-1".
Proof.
  assert (Hok : match dispatch_host_connector_command sample_app run_echo {| idempotency := ∅; host := echo_connector |} with
    | (_, Ok d) => dispatch_operation d = Some MODEL_EXECUTE_OPERATION | _ => False end) by (vm_compute; reflexivity).
  destruct (dispatch_host_connector_command sample_app run_echo _) as [s' [d|e]] eqn:Hrun; [|destruct Hok].
  destruct (model_dispatch_governed echo_config echo_ops sample_app run_echo ∅ s' d Hrun Hok eq_refl)
    as (r & b & q & policy & p & pr & usage & Hp & Hq & Ha & _ & _ & Hart & _).
  exists s', d, r, b, q, policy, p, pr, usage. split_and!; [reflexivity|exact Hp|exact Hq|exact Ha|].
  rewrite Hart. vm_compute. reflexivity.
Defined.

Definition small_instance : @Instance_ echo_engine := (replicate 10 "000"%char, 7%N).

(** The windows of an input of five bytes. *)
Lemma guest_windows_witness : exists in_ptr out_ptr i', place_buffers 5 20 1 small_instance = Ok (in_ptr, out_ptr, i') /\
  (0 < in_ptr)%Z /\ (0 < out_ptr)%Z /\ (in_ptr + Z.of_nat 5 <= out_ptr \/ out_ptr + 20 <= in_ptr)%Z.
Proof.
  exists 64%Z, 133%Z, small_instance. split; [vm_compute; reflexivity|].
  apply (proj1 guest_windows 5 20%Z 1%N small_instance 64%Z 133%Z small_instance);
    [vm_compute; discriminate|split; vm_compute; discriminate|intros ? ? ? ?; discriminate|vm_compute; reflexivity].
Defined.
