(* ===== verification/FileTree.v ===== *)
(** * Directories and file system calls

    What the maintenance of the local store uses of [std::path] and [std::fs]: paths,
    directories with the files they hold, and calls that may fail.  Calls are numbered;
    which of them fail, and what a failed write or removal leaves behind, is a parameter. *)
From S2P Require Import Prelude Effect Json Serde DataStore LocalStore.
From Stdlib Require Import Ascii.

(** ** Paths *)

(** The components of a path; a path that starts with a slash is absolute. *)
Record Path := { absolute : bool; components : list string }.

#[export] Instance Path_eq_dec : EqDecision Path.
Proof. solve_decision. Defined.

#[export] Instance Path_countable : Countable Path.
Proof.
  refine (inj_countable' (fun p => (absolute p, components p)) (fun q => {| absolute := q.1; components := q.2 |}) _).
  by intros [].
Defined.

Definition extend (p : Path) (rest : list string) : Path := {|
  absolute := absolute p; components := components p ++ rest |}.

(** [Path::join] of a single name. *)
Definition join (p : Path) (name : string) : Path := extend p [name].

Definition parent (p : Path) : option Path :=
  match components p with
  | [] => None
  | l => Some {| absolute := absolute p; components := removelast l |}
  end.

Definition file_name_of (p : Path) : option string :=
  match last (components p) with
  | Some name => if decide (name = "..") then None else Some name
  | None => None
  end.

Definition with_extension (extension : string) (p : Path) : Path :=
  match file_name_of p, parent p with
  | Some name, Some dir => join dir ((split_extension name).1 +:+ "." +:+ extension)
  | _, _ => p
  end.

Definition path_text (p : Path) : string :=
  (if absolute p then "/" else "") +:+ String.concat "/" (components p).

(** The rest of [p] below the directory [dir]. *)
Fixpoint strip_components (dir p : list string) : option (list string) :=
  match dir, p with
  | [], rest => Some rest
  | x :: dir, y :: p => if decide (x = y) then strip_components dir p else None
  | _ :: _, [] => None
  end.

Definition below (dir p : Path) : option (list string) :=
  if decide (absolute dir = absolute p) then strip_components (components dir) (components p) else None.

(** ** Directories *)

Abbreviation Files := (gmap string Bytes).
Abbreviation Tree := (gmap Path Files).

(** The ancestors of a path and the path itself. *)
Definition prefixes (p : Path) : list Path :=
  (fun n => {| absolute := absolute p; components := take n (components p) |}) <$> seq 0 (S (length (components p))).

Definition make_each (dirs : list Path) (t : Tree) : Tree :=
  foldr (fun q t => match t !! q with Some _ => t | None => <[q := ∅]> t end) t dirs.

Definition make_dirs (p : Path) (t : Tree) : Tree := make_each (prefixes p) t.

#[global] Arguments make_dirs : simpl never.

Definition remove_tree (p : Path) (t : Tree) : Tree :=
  filter (fun e : Path * Files => below p e.1 = None) t.

(** The directory [a] with everything below it becomes [b]. *)
Definition relocate (a b p : Path) : Path :=
  match below a p with Some rest => extend b rest | None => p end.

Definition move_tree (a b : Path) (t : Tree) : Tree :=
  list_to_map ((fun e : Path * Files => (relocate a b e.1, e.2)) <$> map_to_list (remove_tree b t)).

(** Nothing is below a path but itself, without files. *)
Definition vacant (p : Path) (t : Tree) : bool :=
  forallb (fun e : Path * Files => match below p e.1 with
                    | None => true
                    | Some rest => bool_decide (rest = []) && bool_decide (e.2 = ∅)
                    end) (map_to_list t).

Definition put_file (dir : Path) (name : string) (b : Bytes) (t : Tree) : Tree :=
  match t !! dir with Some files => <[dir := <[name := b]> files]> t | None => t end.

Definition drop_file (dir : Path) (name : string) (t : Tree) : Tree :=
  match t !! dir with Some files => <[dir := delete name files]> t | None => t end.

(** The names in a directory: its files and the directories in it. *)
Definition entry_names (dir : Path) (t : Tree) : list string :=
  (map_to_list (default ∅ (t !! dir))).*1
  ++ omap (fun q : Path => match below dir q with Some [name] => Some name | _ => None end) (map_to_list t).*1.

(** ** Calls *)

Record IoError := { not_found : bool; io_reason : string }.

(** Which calls fail, and what they leave: the bytes a failed write left, if it created the
    file, how many ancestors a failed creation of a directory got through, and the
    directories and files a failed removal of a directory kept. *)
Class Faults := {
  fails : nat -> option string;
  lock_fails : nat -> option TryLockError;
  leftover : nat -> option Bytes;
  created : nat -> nat;
  remains : nat -> Path -> bool;
  survives : nat -> Path -> string -> bool }.

Record Machine := { tree : Tree; calls : nat }.

Definition set_tree (t : Tree) (m : Machine) : Machine := {| tree := t; calls := calls m |}.

Definition no_such_file : IoError := {| not_found := true; io_reason := "No such file or directory (os error 2)" |}.

Definition is_a_directory : IoError := {| not_found := false; io_reason := "Is a directory (os error 21)" |}.
Definition not_a_directory : IoError := {| not_found := false; io_reason := "Not a directory (os error 20)" |}.
Definition file_exists : IoError := {| not_found := false; io_reason := "File exists (os error 17)" |}.
Definition not_empty : IoError := {| not_found := false; io_reason := "Directory not empty (os error 39)" |}.
Definition invalid_argument : IoError := {| not_found := false; io_reason := "Invalid argument (os error 22)" |}.

(** The directory and the name a path leads to; it must not be a directory itself. *)
Definition with_file {A} (t : Tree) (p : Path) (k : Path -> string -> Files -> Result IoError A) : Result IoError A :=
  match parent p, file_name_of p with
  | Some dir, Some name =>
      _ ← ensure (bool_decide (t !! p = None)) is_a_directory;
      files ← ok_or (t !! dir) no_such_file;
      k dir name files
  | _, _ => Err no_such_file
  end.

Definition file_at (t : Tree) (p : Path) : option Bytes :=
  dir ← parent p; name ← file_name_of p; files ← t !! dir; files !! name.

(** A failed write leaves a part of the data in the file. *)
Definition partial_write (p : Path) (part : option Bytes) (t : Tree) : Tree :=
  match part, parent p, file_name_of p with
  | Some b, Some dir, Some name => put_file dir name b t
  | _, _, _ => t
  end.

Section calls.
Context `{Faults}.

(** One call: it fails with a leftover effect, or takes effect. *)
Definition call {A} (damage : nat -> Tree -> Tree) (effect : Tree -> Result IoError (Tree * A))
    : Eff Machine IoError A := fun m =>
  let n := calls m in
  let m := {| tree := tree m; calls := S n |} in
  match fails n with
  | Some reason => (set_tree (damage n (tree m)) m, Err {| not_found := false; io_reason := reason |})
  | None =>
      match effect (tree m) with
      | Ok (t, a) => (set_tree t m, Ok a)
      | Err e => (m, Err e)
      end
  end.

Definition unharmed (n : nat) (t : Tree) : Tree := t.

Definition fs_read (p : Path) : Eff Machine IoError Bytes :=
  call unharmed (fun t => with_file t p (fun _ name files =>
    b ← ok_or (files !! name) no_such_file; Ok (t, b))).

Definition fs_remove_file (p : Path) : Eff Machine IoError unit :=
  call unharmed (fun t => with_file t p (fun dir name files =>
    _ ← ok_or (files !! name) no_such_file; Ok (drop_file dir name t, tt))).

(** No file is in the way of a directory. *)
Definition unobstructed (t : Tree) (p : Path) : bool :=
  forallb (fun q => match file_at t q with Some _ => false | None => true end) (prefixes p).

(** [fs::create_dir_all]: a failed one may have created some of the ancestors. *)
Definition partial_create (p : Path) (n : nat) (t : Tree) : Tree :=
  if unobstructed t p then make_each (take (created n) (prefixes p)) t else t.

Definition fs_create_dir_all (p : Path) : Eff Machine IoError unit :=
  call (partial_create p) (fun t => _ ← ensure (unobstructed t p) file_exists; Ok (make_dirs p t, tt)).

(** [fs::write] *)
Definition fs_write (p : Path) (b : Bytes) : Eff Machine IoError unit :=
  call (fun n => partial_write p (leftover n))
       (fun t => with_file t p (fun dir name _ => Ok (put_file dir name b t, tt))).

(** [File::create]: an empty file. *)
Definition fs_create (p : Path) : Eff Machine IoError unit :=
  call unharmed (fun t => with_file t p (fun dir name _ => Ok (put_file dir name [] t, tt))).

(** [OpenOptions] with [create] and without [truncate]. *)
Definition fs_open (p : Path) : Eff Machine IoError unit :=
  call unharmed (fun t => with_file t p (fun dir name files =>
    Ok (match files !! name with Some _ => t | None => put_file dir name [] t end, tt))).

(** [fs::rename] of a file. *)
Definition fs_rename_file (a b : Path) : Eff Machine IoError unit :=
  call unharmed (fun t => with_file t a (fun dir name files =>
    content ← ok_or (files !! name) no_such_file;
    with_file t b (fun dir' name' _ =>
      Ok (put_file dir' name' content (drop_file dir name t), tt)))).

(** [fs::rename] of a directory, onto nothing or onto an empty directory. *)
Definition fs_rename (a b : Path) : Eff Machine IoError unit :=
  call unharmed (fun t =>
    _ ← ok_or (t !! a) no_such_file;
    _ ← ok_or (dir ← parent b; t !! dir) no_such_file;
    _ ← ensure (bool_decide (file_at t b = None)) not_a_directory;
    _ ← ensure (bool_decide (below a b = None)) invalid_argument;
    _ ← ensure (bool_decide (below b a = None) && vacant b t) not_empty;
    Ok (move_tree a b t, tt)).

(** [fs::remove_dir_all]: a failed one may have removed a part. *)
Definition partial_remove (p : Path) (n : nat) (t : Tree) : Tree :=
  map_imap (fun q files => match below p q with
    | Some _ => if remains n q then Some (filter (fun e : string * Bytes => survives n q e.1 = true) files) else None
    | None => Some files
    end) t.

Definition fs_remove_dir_all (p : Path) : Eff Machine IoError unit :=
  call (partial_remove p) (fun t => _ ← ok_or (t !! p) no_such_file; Ok (remove_tree p t, tt)).

(** [fs::read_dir]: the names, each of which is a call of its own. *)
Definition fs_read_dir (p : Path) : Eff Machine IoError (list string) :=
  call unharmed (fun t => _ ← ok_or (t !! p) no_such_file; Ok (t, entry_names p t)).

Definition fs_next_entry : Eff Machine IoError unit := call unharmed (fun t => Ok (t, tt)).

(** [try_lock] *)
Definition fs_try_lock : Eff Machine TryLockError unit := fun m =>
  ({| tree := tree m; calls := S (calls m) |},
   match lock_fails (calls m) with Some e => Err e | None => Ok tt end).
End calls.

(** Change the error of an operation. *)
Definition eff_map_err {St E F A} (f : E -> F) (m : Eff St E A) : Eff St F A := fun s =>
  let '(s, r) := m s in (s, map_err f r).

(** [let _ = m] *)
Definition ignore {St E F A} (m : Eff St E A) : Eff St F unit := fun s => ((m s).1, Ok tt).

(** ** What the calls change *)

Lemma strip_components_app dir rest : strip_components dir (dir ++ rest) = Some rest.
Proof. induction dir as [|x dir IH]; cbn; [done|]. by rewrite decide_True. Qed.

Lemma strip_components_spec dir p rest : strip_components dir p = Some rest <-> p = dir ++ rest.
Proof.
  split; [|intros ->; apply strip_components_app].
  revert p. induction dir as [|x dir IH]; intros p; cbn; [naive_solver|].
  destruct p as [|y p]; [done|]. case_decide; [subst|done]. intros E. by rewrite (IH _ E).
Qed.

Lemma below_extend p rest : below p (extend p rest) = Some rest.
Proof. unfold below. rewrite decide_True by done. apply strip_components_app. Qed.

Lemma below_iff p q rest : below p q = Some rest <-> q = extend p rest.
Proof.
  split; [|intros ->; apply below_extend].
  unfold below. case_decide as E; [|done]. intros F%strip_components_spec.
  destruct q as [a l]. unfold extend. cbn in *. by subst.
Qed.

Lemma below_refl p : below p p = Some [].
Proof. apply below_iff. destruct p. unfold extend. cbn. by rewrite app_nil_r. Qed.

Lemma below_below p a rest : below p a = None -> below a p = None -> below a (extend p rest) = None.
Proof.
  intros Ha Hp. destruct (below a (extend p rest)) as [r|] eqn:E; [|done].
  apply below_iff in E. exfalso.
  assert (Hl : components p ++ rest = components a ++ r) by (by injection E).
  assert (Hb : absolute p = absolute a) by (by injection E).
  destruct (app_eq_app (components p) rest (components a) r Hl) as [l [[Hx _]|[Hx _]]].
  - assert (F : p = extend a l) by (destruct p, a; unfold extend; cbn in *; by subst).
    apply below_iff in F. congruence.
  - assert (F : a = extend p l) by (destruct p, a; unfold extend; cbn in *; by subst).
    apply below_iff in F. congruence.
Qed.

(** Two directories of which neither is below the other. *)
Definition apart (a b : Path) : Prop := below a b = None /\ below b a = None.

Lemma apart_sym a b : apart a b -> apart b a.
Proof. unfold apart. tauto. Qed.

Lemma apart_below a b rest : apart a b -> below a (extend b rest) = None.
Proof. intros [E F]. exact (below_below b a rest F E). Qed.

Lemma apart_above a b rest : apart a b -> below (extend a rest) b = None.
Proof.
  intros [E _]. destruct (below (extend a rest) b) as [r|] eqn:F; [|done]. apply below_iff in F.
  assert (G : below a b = Some (rest ++ r)); [|congruence].
  apply below_iff. rewrite F. unfold extend. cbn. by rewrite app_assoc.
Qed.

Lemma apart_join p a b : a <> b -> apart (join p a) (join p b).
Proof.
  intros E. split.
  all: match goal with |- below ?x ?y = None => destruct (below x y) as [r|] eqn:F; [|done] end.
  all: apply below_iff in F; unfold join, extend in F; cbn in F; injection F; intros G;
       rewrite <- app_assoc in G; apply app_inv_head in G; cbn in G; congruence.
Qed.

Lemma apart_ne a b rest rest' : apart a b -> extend a rest <> extend b rest'.
Proof. intros E F. pose proof (apart_below a b rest' E) as G. rewrite <- F, below_extend in G. done. Qed.

#[export] Instance extend_inj p : Inj (=) (=) (extend p).
Proof. intros a b E. apply (f_equal (below p)) in E. rewrite !below_extend in E. by injection E. Qed.

Lemma extend_nil p : extend p [] = p.
Proof. destruct p. unfold extend. cbn. by rewrite app_nil_r. Qed.

Lemma remove_tree_below p t rest : remove_tree p t !! extend p rest = None.
Proof. apply map_lookup_filter_None. right. intros x _. cbn. by rewrite below_extend. Qed.

Lemma remove_tree_other p t q : below p q = None -> remove_tree p t !! q = t !! q.
Proof.
  intros E. unfold remove_tree. apply option_eq. intros x. rewrite map_lookup_filter_Some. cbn. tauto.
Qed.

Lemma partial_remove_other `{Faults} p n t q : below p q = None -> partial_remove p n t !! q = t !! q.
Proof. intros E. unfold partial_remove. rewrite map_lookup_imap, E. by destruct (t !! q). Qed.

Lemma partial_remove_absent `{Faults} p n t q : t !! q = None -> partial_remove p n t !! q = None.
Proof. intros E. unfold partial_remove. by rewrite map_lookup_imap, E. Qed.

Lemma relocate_nodup a b (t : Tree) : apart a b ->
  NoDup ((fun e : Path * Files => (relocate a b e.1, e.2)) <$> map_to_list (remove_tree b t)).*1.
Proof.
  intros Hab. rewrite <- list_fmap_compose.
  change (NoDup ((fun e : Path * Files => relocate a b e.1) <$> map_to_list (remove_tree b t))).
  apply NoDup_fmap_2_strong; [|apply NoDup_map_to_list].
  intros [p x] [q y] Hp Hq E.
  apply elem_of_map_to_list in Hp, Hq. cbn in E.
  apply map_lookup_filter_Some in Hp as [Hp Hpb]. apply map_lookup_filter_Some in Hq as [Hq Hqb]. cbn in Hpb, Hqb.
  assert (p = q); [|congruence].
  unfold relocate in E. destruct (below a p) as [r|] eqn:Ep, (below a q) as [r'|] eqn:Eq.
  - apply below_iff in Ep, Eq. apply extend_inj in E. congruence.
  - rewrite <- E, below_extend in Hqb. done.
  - rewrite E, below_extend in Hpb. done.
  - done.
Qed.

(** A directory moved: it is gone, and its new place holds what it held. *)
Lemma move_tree_lookup a b t q : apart a b ->
  move_tree a b t !! q = match below b q with
    | Some rest => t !! extend a rest
    | None => if below a q is Some _ then None else t !! q
    end.
Proof.
  intros Hab. unfold move_tree. apply option_eq. intros x.
  rewrite <- elem_of_list_to_map by (by apply relocate_nodup).
  rewrite list_elem_of_fmap. split.
  - intros ([p y] & E & Hin). injection E as -> ->. cbn.
    apply elem_of_map_to_list, map_lookup_filter_Some in Hin as [Hin Hb]. cbn in Hb.
    unfold relocate. destruct (below a p) as [r|] eqn:Ep.
    + rewrite below_extend. apply below_iff in Ep. by subst.
    + by rewrite Hb, Ep.
  - destruct (below b q) as [r|] eqn:Eb.
    + intros E. exists (extend a r, x). apply below_iff in Eb. subst q. unfold relocate. cbn. rewrite below_extend.
      split; [done|]. apply elem_of_map_to_list, map_lookup_filter_Some. split; [done|]. cbn.
      apply apart_below. by apply apart_sym.
    + destruct (below a q) eqn:Ea; [done|]. intros E. exists (q, x). unfold relocate. cbn. rewrite Ea.
      split; [done|]. by apply elem_of_map_to_list, map_lookup_filter_Some.
Qed.

Lemma move_tree_new a b t rest : apart a b -> move_tree a b t !! extend b rest = t !! extend a rest.
Proof. intros E. by rewrite move_tree_lookup, below_extend. Qed.

Lemma move_tree_old a b t rest : apart a b -> move_tree a b t !! extend a rest = None.
Proof.
  intros E. rewrite move_tree_lookup, (apart_below b a) by (by auto using apart_sym). by rewrite below_extend.
Qed.

Lemma move_tree_other a b c t rest : apart a b -> apart a c -> apart b c ->
  move_tree a b t !! extend c rest = t !! extend c rest.
Proof. intros E F G. rewrite move_tree_lookup by done. by rewrite (apart_below b c), (apart_below a c). Qed.

Lemma make_each_other dirs t q : q ∉ dirs -> make_each dirs t !! q = t !! q.
Proof.
  unfold make_each. induction dirs as [|x l IH]; cbn; [done|]. intros [Hx Hl]%not_elem_of_cons. rewrite <- (IH Hl).
  destruct (foldr _ t l !! x) eqn:F; [done|]. by rewrite lookup_insert_ne.
Qed.

Lemma prefixes_below p q : q ∈ prefixes p -> below q p <> None.
Proof.
  unfold prefixes. rewrite list_elem_of_fmap. intros (n & -> & _) E.
  assert (below {| absolute := absolute p; components := take n (components p) |} p = Some (drop n (components p))) as F.
  { apply below_iff. destruct p. unfold extend. cbn. by rewrite take_drop. }
  congruence.
Qed.

(** Only the ancestors of a path are created, empty, where they are absent. *)
Lemma make_dirs_other p t q : below q p = None -> make_dirs p t !! q = t !! q.
Proof. intros E. apply make_each_other. by intros Hq%prefixes_below. Qed.

Lemma partial_create_other `{Faults} p n t q : below q p = None -> partial_create p n t !! q = t !! q.
Proof.
  intros E. unfold partial_create. destruct (unobstructed t p); [|done]. apply make_each_other.
  intros (i & Hi & _)%elem_of_take. apply list_elem_of_lookup_2 in Hi. by apply (prefixes_below p q).
Qed.

Lemma make_dirs_present p t q files : t !! q = Some files -> make_dirs p t !! q = Some files.
Proof.
  intros E. unfold make_dirs, make_each. induction (prefixes p) as [|x l IH]; cbn; [done|].
  destruct (foldr _ t l !! x) eqn:F; [done|]. rewrite lookup_insert_ne; [done|]. intros ->. congruence.
Qed.

Lemma make_dirs_absent p t q : t !! q = None -> make_dirs p t !! q = None \/ make_dirs p t !! q = Some ∅.
Proof.
  intros E. unfold make_dirs, make_each. induction (prefixes p) as [|x l IH]; cbn; [by left|].
  destruct (foldr _ t l !! x) eqn:F; [done|].
  destruct (decide (x = q)) as [->|Hne]; [rewrite lookup_insert_eq; by right|by rewrite lookup_insert_ne].
Qed.

Lemma make_dirs_is_Some p t : is_Some (make_dirs p t !! p).
Proof.
  unfold make_dirs, make_each.
  assert (Hin : p ∈ prefixes p).
  { unfold prefixes. apply list_elem_of_fmap. exists (length (components p)). split.
    - destruct p. cbn. by rewrite take_ge.
    - apply elem_of_seq. lia. }
  induction (prefixes p) as [|x l IH]; [by apply elem_of_nil in Hin|]. cbn.
  destruct (foldr _ t l !! x) eqn:F.
  - destruct (decide (p = x)) as [<-|Hne]; [by rewrite F|]. apply elem_of_cons in Hin as [?|Hin]; [done|auto].
  - destruct (decide (p = x)) as [<-|Hne]; [by rewrite lookup_insert_eq|].
    rewrite lookup_insert_ne by done. apply elem_of_cons in Hin as [?|Hin]; [done|auto].
Qed.

Lemma make_dirs_target p t : t !! p = None -> make_dirs p t !! p = Some ∅.
Proof.
  intros E. destruct (make_dirs_is_Some p t) as [files F].
  destruct (make_dirs_absent p t p E) as [G|G]; congruence.
Qed.

Lemma put_file_other dir name b t q : q <> dir -> put_file dir name b t !! q = t !! q.
Proof. intros E. unfold put_file. destruct (t !! dir); [by rewrite lookup_insert_ne|done]. Qed.

Lemma put_file_same dir name b t files : t !! dir = Some files -> put_file dir name b t !! dir = Some (<[name := b]> files).
Proof. intros E. unfold put_file. by rewrite E, lookup_insert_eq. Qed.

Lemma drop_file_other dir name t q : q <> dir -> drop_file dir name t !! q = t !! q.
Proof. intros E. unfold drop_file. destruct (t !! dir); [by rewrite lookup_insert_ne|done]. Qed.

Lemma drop_file_same dir name t files : t !! dir = Some files -> drop_file dir name t !! dir = Some (delete name files).
Proof. intros E. unfold drop_file. by rewrite E, lookup_insert_eq. Qed.

Lemma drop_file_absent dir name t : (forall files, t !! dir = Some files -> files !! name = None) -> drop_file dir name t = t.
Proof.
  intros E. unfold drop_file. destruct (t !! dir) as [files|] eqn:F; [|done].
  rewrite delete_id by (by apply E). by apply insert_id.
Qed.

Lemma parent_join p name : parent (join p name) = Some p.
Proof.
  unfold parent, join, extend. cbn. pose proof (removelast_last (components p) name) as E.
  destruct (components p ++ [name]) eqn:F; [by destruct (components p)|]. cbn in E. rewrite E. by destruct p.
Qed.

Lemma file_name_join p name : name <> ".." -> file_name_of (join p name) = Some name.
Proof. intros E. unfold file_name_of, join, extend. cbn. rewrite last_snoc. by rewrite decide_False. Qed.

Lemma vacant_spec p t : vacant p t = true -> forall rest files, t !! extend p rest = Some files -> rest = [] /\ files = ∅.
Proof.
  unfold vacant. rewrite forallb_forall. intros E rest files F.
  specialize (E (extend p rest, files)). cbn in E. rewrite below_extend in E.
  rewrite <- list_elem_of_In, elem_of_map_to_list in E. specialize (E F).
  apply andb_true_iff in E as [E1 E2]. by rewrite !bool_decide_eq_true in *.
Qed.

Lemma vacant_absent p t : (forall rest, t !! extend p rest = None) -> vacant p t = true.
Proof.
  intros E. unfold vacant. apply forallb_forall. intros [q files] F.
  rewrite <- list_elem_of_In, elem_of_map_to_list in F. cbn.
  destruct (below p q) as [r|] eqn:G; [|done]. apply below_iff in G. subst. by rewrite E in F.
Qed.
