(* ===== verification/Maintenance.v ===== *)
(** * Maintenance of the local store

    [traverse-runtime/src/data_store_maintenance.rs]: retention pruning, verified zip
    backups, restores that replace the store's directory, and the migration to the second
    envelope format.  Zip archives, RFC 3339 times and the manifest's text are parameters. *)
From S2P Require Import Prelude Effect Json Contract Serde DataStore LocalStore FileTree.
From Stdlib Require Import Ascii.

Definition MAINTENANCE_SPEC : string := "083-datastore-retention-backup".
Definition MIGRATION_SPEC : string := "092-datastore-v2-migration-ownership".
Definition BACKUP_MANIFEST_VERSION : string := "1".
Definition BACKUP_MANIFEST_MEMBER : string := "manifest.json".
Definition BACKUP_RECORDS_PREFIX : string := "records/".
Definition MAX_BACKUP_MANIFEST_BYTES : N := 4194304.
Definition MAX_BACKUP_MEMBER_BYTES : N := 16777216.

(** ** Data *)

Record RetentionPolicy := { max_count : option N; max_age_secs : option N }.

Inductive MaintenanceErrorCode :=
  | MaintenanceLocked | InvalidRetentionPolicy | BackupVerifyFailed | RestoreVerifyFailed
  | UnsupportedStoreFormat | MaintenanceIoFailed.

Record MaintenanceError := {
  maintenance_code : MaintenanceErrorCode;
  maintenance_message : string;
  maintenance_details : Value }.

Inductive MigrationErrorCode :=
  | TransitionUnsupported | SourceInvalid | BackupFailed | WriteFailed | VerificationFailed | CommitFailed
  | RestoreFailed | OwnerLocked.

Record MigrationError := {
  migration_code : MigrationErrorCode;
  migration_message : string;
  migration_details : Value }.

Record MigrationReport := {
  report_spec : string;
  source_format : string;
  target_format : string;
  report_count : N;
  backup_content_digest : string;
  report_outcome : string }.

Record MaintenanceEvidence := {
  evidence_spec : string;
  outcome : string;
  as_of : string;
  attempted_count : N;
  removed_count : N;
  retained_count : N;
  record_count : N;
  archive_digest : option string;
  failure_code : option MaintenanceErrorCode;
  failure_reason : option string }.

Record BackupRecordIndexEntry := {
  entry_key : string;
  entry_classification : LocalDataClassification;
  envelope_digest : string;
  member_path : string }.

Record BackupManifest := {
  manifest_format_version : string;
  created_as_of : string;
  manifest_count : N;
  archive_content_digest : string;
  records_index : list BackupRecordIndexEntry;
  store_format : string;
  writer_tool : string;
  writer_semver : string }.

(** ** Parameters *)

(** [zip]: what a writer of stored members produces, or the operation it refuses and why;
    and reading it: a member has a declared size and its content, or the error of reading
    it. *)
Class ZipCrate := {
  Archive : Type;
  zip_written : list (string * Bytes) -> Result (string * string) Bytes;
  zip_open : Bytes -> Result string Archive;
  by_name : Archive -> string -> option (N * Result string Bytes) }.

(** [chrono]: an instant in nanoseconds; the subtraction of a duration is checked. *)
Class Chrono := {
  parse_rfc3339 : string -> Result string Z;
  checked_sub_signed : Z -> Z -> option Z }.

(** [serde_json::to_vec_pretty] and [from_slice] of the manifest. *)
Class ManifestCodec := {
  manifest_bytes : BackupManifest -> Bytes;
  parse_manifest : Bytes -> option BackupManifest }.

(** ** Errors *)

Definition maintenance_error (c : MaintenanceErrorCode) (m : string) (d : list (string * Value)) : MaintenanceError := {|
  maintenance_code := c; maintenance_message := m; maintenance_details := obj d |}.

Definition maintenance_io (operation : string) (e : IoError) : MaintenanceError :=
  maintenance_error MaintenanceIoFailed "maintenance_io_failed"
    [("operation", Str operation); ("reason", Str (io_reason e))].

Definition maintenance_zip (operation reason : string) : MaintenanceError :=
  maintenance_error MaintenanceIoFailed "maintenance_io_failed" [("operation", Str operation); ("reason", Str reason)].

Definition invalid_policy (d : list (string * Value)) : MaintenanceError :=
  maintenance_error InvalidRetentionPolicy "invalid_retention_policy" d.

Definition backup_verify (d : list (string * Value)) : MaintenanceError :=
  maintenance_error BackupVerifyFailed "backup_verify_failed" d.

Definition restore_verify (d : list (string * Value)) : MaintenanceError :=
  maintenance_error RestoreVerifyFailed "restore_verify_failed" d.

Definition unsupported_format (d : list (string * Value)) : MaintenanceError :=
  maintenance_error UnsupportedStoreFormat "unsupported_store_format" d.

Definition malformed_envelope_error : MaintenanceError := restore_verify [("reason", Str "malformed_envelope")].

Definition map_data_store_error (e : DataStoreError) : MaintenanceError :=
  maintenance_error MaintenanceIoFailed "maintenance_io_failed"
    [("cause", Str (error_message e)); ("details", error_details e)].

Definition map_lock_to_maintenance (e : DataStoreError) : MaintenanceError :=
  match error_code e with
  | StoreLocked => {| maintenance_code := MaintenanceLocked; maintenance_message := "store_locked";
                      maintenance_details := error_details e |}
  | _ => {| maintenance_code := MaintenanceIoFailed; maintenance_message := "maintenance_io_failed";
            maintenance_details := error_details e |}
  end.

Definition max_age_secs_out_of_range_error : MaintenanceError :=
  invalid_policy [("reason", Str "max_age_secs_out_of_range")].

Definition as_of_minus_max_age_underflow_error : MaintenanceError :=
  invalid_policy [("reason", Str "as_of_minus_max_age_underflow")].

Definition store_root_has_no_parent_error : MaintenanceError :=
  maintenance_error MaintenanceIoFailed "maintenance_io_failed"
    [("operation", Str "restore"); ("reason", Str "store_root_has_no_parent")].

Definition member_error (reason cause : string) : MaintenanceError :=
  backup_verify [("reason", Str (if decide (cause = "member_too_large") then "member_too_large" else reason)); ("cause", Str cause)].

Definition read_manifest_bytes_error (cause : string) : MaintenanceError := member_error "read_manifest" cause.
Definition read_member_bytes_error (cause : string) : MaintenanceError := member_error "read_member" cause.

Definition migration_error (c : MigrationErrorCode) (m reason : string) : MigrationError := {|
  migration_code := c; migration_message := m; migration_details := obj [("reason", Str reason)] |}.

Definition map_migration_source_error (_ : MaintenanceError) : MigrationError :=
  migration_error SourceInvalid "datastore_source_invalid" "source_validation_failed".
Definition map_migration_backup_error (_ : MaintenanceError) : MigrationError :=
  migration_error BackupFailed "datastore_backup_failed" "backup_verification_failed".
Definition map_migration_write_io (_ : IoError) : MigrationError :=
  migration_error WriteFailed "datastore_write_failed" "candidate_write_failed".
Definition map_migration_verification_error (_ : MaintenanceError) : MigrationError :=
  migration_error VerificationFailed "datastore_verification_failed" "candidate_verification_failed".
Definition map_migration_commit_io (_ : IoError) : MigrationError :=
  migration_error CommitFailed "datastore_commit_failed" "atomic_commit_failed".
Definition map_migration_commit_error (_ : MaintenanceError) : MigrationError :=
  migration_error CommitFailed "datastore_commit_failed" "atomic_commit_failed".

(** ** State *)

Record LocalFileDataStoreMaintenance := {
  store_root : Path;
  owner_process : N;
  lock_held : bool;
  machine : Machine }.

Definition set_machine (m : Machine) (s : LocalFileDataStoreMaintenance) : LocalFileDataStoreMaintenance := {|
  store_root := store_root s; owner_process := owner_process s; lock_held := lock_held s; machine := m |}.

Definition set_lock (held : bool) (s : LocalFileDataStoreMaintenance) : LocalFileDataStoreMaintenance := {|
  store_root := store_root s; owner_process := owner_process s; lock_held := held; machine := machine s |}.

Abbreviation Maint := (Eff LocalFileDataStoreMaintenance).

(** A file system call. *)
Definition sys {E A} (m : Eff Machine E A) : Maint E A := fun s =>
  let '(m', r) := m (machine s) in (set_machine m' s, r).

(** A call whose failure is reported under a name. *)
Definition sys_io {A} (operation : string) (m : Eff Machine IoError A) : Maint MaintenanceError A :=
  eff_map_err (maintenance_io operation) (sys m).

(** Run for each element in turn. *)
Fixpoint each {E A} (f : A -> Maint E unit) (l : list A) : Maint E unit :=
  match l with [] => mret tt | x :: l => _ ← f x; each f l end.

Fixpoint collect {E A B} (f : A -> Maint E B) (l : list A) : Maint E (list B) :=
  match l with [] => mret [] | x :: l => y ← f x; ys ← collect f l; mret (y :: ys) end.

(** [lock_file.unlock()] *)
Definition unlock {E} : Maint E unit := fun s => (set_lock false s, Ok tt).

(** A new lock file is held. *)
Definition take_lock {E} : Maint E unit := fun s => (set_lock true s, Ok tt).

Section maintenance.
Context `{SerdeJson, StoreCrypto, Faults, ZipCrate, Chrono, ManifestCodec}.

(** ** Digests and times *)

Definition maintenance_sha256_hex (b : Bytes) : string := digest_bytes b.

(** Each path and content is followed by a zero byte. *)
Definition archive_content_digest_from_members (members : list (string * Bytes)) : string :=
  digest_bytes (members ≫= fun m => text m.1 ++ ["000"%char] ++ m.2 ++ ["000"%char]).

Definition parse_as_of (at_time : string) : Result MaintenanceError Z :=
  map_err (fun cause => invalid_policy [("reason", Str "invalid_as_of"); ("cause", Str cause)]) (parse_rfc3339 at_time).

Definition without_colons (s : string) : string :=
  String.string_of_list_ascii (List.filter (fun c => negb (bool_decide (c = ":"%char))) (String.list_ascii_of_string s)).

Definition restore_work_suffix (s : LocalFileDataStoreMaintenance) (at_time : string) : string :=
  u64_to_string (owner_process s) +:+ "-"
  +:+ String.substring 0 16 (hex_encode (sha256 (text (path_text (store_root s))))) +:+ "-" +:+ without_colons at_time.

(** ** Opening *)

Definition lock_path (root : Path) : Path := join root LOCAL_DATA_STORE_LOCK_FILE.

Definition acquire_lock (operation : string) : Maint MaintenanceError unit := fun s =>
  (_ ← sys_io operation (fs_open (lock_path (store_root s)));
   eff_map_err (fun e => map_lock_to_maintenance (lock_error e)) (sys fs_try_lock)) s.

Definition open_maintenance (root : Path) (pid : N) (m : Machine)
    : LocalFileDataStoreMaintenance * Result MaintenanceError unit :=
  (_ ← sys_io "create data store root for maintenance" (fs_create_dir_all root);
   _ ← acquire_lock "open data store lock for maintenance";
   take_lock)
  {| store_root := root; owner_process := pid; lock_held := false; machine := m |}.

Definition reacquire_lock : Maint MaintenanceError unit :=
  _ ← acquire_lock "reopen data store lock"; take_lock.

(** ** Envelopes of a directory *)

Definition json_key (name : string) : option string := listed_key name.

Definition list_record_keys : Maint MaintenanceError (list string) := fun s =>
  (names ← sys_io "list keys" (fs_read_dir (store_root s));
   _ ← each (fun _ => sys_io "read key entry" fs_next_entry) names;
   mret (stable_sort (fun a b => bool_decide (String.le a b)) (omap json_key names))) s.

Definition key_path (root : Path) (k : string) : Result MaintenanceError Path :=
  _ ← map_err map_data_store_error (validate_key k); Ok (join root (file_name k)).

Definition read_envelope_bytes (k : string) : Maint MaintenanceError Bytes := fun s =>
  (p ← lift (key_path (store_root s) k); sys_io "read envelope bytes" (fs_read p)) s.

Definition envelope_record_key (e : LocalDataStoreEnvelope) : Result MaintenanceError string :=
  match classification e with
  | Public => ok_or (key <$> record e) malformed_envelope_error
  | Private => ok_or (record_key e) malformed_envelope_error
  end.

(** The digest an envelope must carry. *)
Definition expected_digest (e : LocalDataStoreEnvelope) (k : string) : Result MaintenanceError string :=
  match classification e with
  | Public =>
      _ ← ensure (match key_id e, record_key e, nonce e, ciphertext e with
                  | None, None, None, None => true | _, _, _, _ => false end) malformed_envelope_error;
      r ← ok_or (record e) malformed_envelope_error;
      Ok (digest_for_record r)
  | Private =>
      _ ← ensure (match record e with None => true | Some _ => false end) malformed_envelope_error;
      kid ← ok_or (key_id e) malformed_envelope_error;
      n ← ok_or (nonce e) malformed_envelope_error;
      ct ← ok_or (ciphertext e) malformed_envelope_error;
      nonce_bytes ← map_err (fun _ => malformed_envelope_error) (hex_decode (text n));
      ciphertext_bytes ← map_err (fun _ => malformed_envelope_error) (hex_decode (text ct));
      _ ← ensure ((length nonce_bytes =? 12) && (16 <=? length ciphertext_bytes))%nat malformed_envelope_error;
      Ok (digest_for_private_envelope kid k n ct)
  end.

Definition parse_envelope_bytes (b : Bytes) : Result MaintenanceError LocalDataStoreEnvelope :=
  v ← map_err (fun _ => malformed_envelope_error) (from_slice b);
  _ ← ensure (match get "format" v with Some _ => true | None => false end)
        (unsupported_format [("reason", Str "legacy_unverified")]);
  e ← ok_or (envelope_of v) malformed_envelope_error;
  _ ← ensure (bool_decide (format e = LOCAL_DATA_STORE_FORMAT))
        (unsupported_format [("reason", Str "unknown_format_version"); ("format", Str (format e))]);
  k ← envelope_record_key e;
  expected ← expected_digest e k;
  _ ← ensure (bool_decide (digest e = expected)) (restore_verify [("reason", Str "digest_mismatch"); ("key", Str k)]);
  Ok e.

Definition read_envelope (k : string) : Maint MaintenanceError LocalDataStoreEnvelope :=
  b ← read_envelope_bytes k; lift (parse_envelope_bytes b).

(** ** Pruning *)

(** A call that does not return an error but panics. *)
Inductive Stop := Failed (e : MaintenanceError) | Panicked.

Definition validate_policy (p : RetentionPolicy) : Result MaintenanceError unit :=
  ensure (match max_count p, max_age_secs p with None, None => false | _, _ => true end)
    (invalid_policy [("reason", Str "at_least_one_bound_required")]).

Definition i64_max : N := 9223372036854775807.

(** [Duration::seconds] panics above [i64::MAX] milliseconds. *)
Definition MAX_DURATION_SECS : N := 9223372036854775.

Definition age_cutoff (instant : Z) (age : N) : Result Stop Z :=
  _ ← ensure (age <=? i64_max)%N (Failed max_age_secs_out_of_range_error);
  _ ← ensure (age <=? MAX_DURATION_SECS)%N Panicked;
  map_err Failed (ok_or (checked_sub_signed instant (Z.of_N age)) as_of_minus_max_age_underflow_error).

(** The count bound keeps the last keys in order. *)
Definition outside_count (keys : list string) (bound : option N) (index : nat) : bool :=
  match bound with
  | Some n => (n <? N.of_nat (length keys))%N && (N.of_nat index <? N.of_nat (length keys) - n)%N
  | None => false
  end.

Definition expired (cutoff : Z) (e : LocalDataStoreEnvelope) : Result MaintenanceError bool :=
  match retained_at e with
  | Some stamp => t ← parse_as_of stamp; Ok (t <=? cutoff)%Z
  | None => Ok false
  end.

Definition age_flags (keys : list string) (bound : option N) (instant : Z) : Maint Stop (list bool) :=
  match bound with
  | None => mret ((fun _ => false) <$> keys)
  | Some age =>
      cutoff ← lift (age_cutoff instant age);
      eff_map_err Failed (collect (fun k => e ← read_envelope k; lift (expired cutoff e)) keys)
  end.

Definition select_prune_victims (keys : list string) (p : RetentionPolicy) (instant : Z) : Maint Stop (list string) :=
  old ← age_flags keys (max_age_secs p) instant;
  mret (omap (fun x => if (x.2 : bool) then Some x.1 else None)
          (zip keys (zip_with orb (imap (fun i _ => outside_count keys (max_count p) i) keys) old))).

Definition delete_key (k : string) : Maint MaintenanceError unit := fun s =>
  match key_path (store_root s) k with
  | Err e => (s, Err e)
  | Ok p =>
      match sys (fs_remove_file p) s with
      | (s, Ok _) => (s, Ok tt)
      | (s, Err e) => if not_found e then (s, Ok tt) else (s, Err (maintenance_io "delete pruned record" e))
      end
  end.

Definition prune_failure (e : MaintenanceError) (attempted removed total : N) : MaintenanceError := {|
  maintenance_code := maintenance_code e; maintenance_message := maintenance_message e;
  maintenance_details := obj [("attempted_count", Num (PosInt attempted)); ("removed_count", Num (PosInt removed));
    ("retained_count", Num (PosInt (saturating_sub total removed))); ("failure_reason", Str (maintenance_message e))] |}.

Fixpoint delete_victims (victims : list string) (attempted removed total : N) : Maint Stop N :=
  match victims with
  | [] => mret removed
  | k :: rest =>
      _ ← eff_map_err (fun e => Failed (prune_failure e attempted removed total)) (delete_key k);
      delete_victims rest attempted (removed + 1) total
  end.

Definition prune_evidence (at_time : string) (attempted removed retained : N) : MaintenanceEvidence := {|
  evidence_spec := MAINTENANCE_SPEC; outcome := "prune_completed"; as_of := at_time; attempted_count := attempted;
  removed_count := removed; retained_count := retained; record_count := retained; archive_digest := None;
  failure_code := None; failure_reason := None |}.

Definition prune (p : RetentionPolicy) (at_time : string) : Maint Stop MaintenanceEvidence :=
  _ ← lift (map_err Failed (validate_policy p));
  instant ← lift (map_err Failed (parse_as_of at_time));
  keys ← eff_map_err Failed list_record_keys;
  let total := N.of_nat (length keys) in
  victims ← select_prune_victims keys p instant;
  let attempted := N.of_nat (length victims) in
  removed ← delete_victims victims attempted 0 total;
  mret (prune_evidence at_time attempted removed (saturating_sub total removed)).

(** ** Archives *)

(** [Read::take] *)
Definition take_bytes (maximum : N) (b : Bytes) : Bytes :=
  if (N.of_nat (length b) <=? maximum)%N then b else take (N.to_nat maximum) b.

Definition read_zip_member_bounded (member : N * Result string Bytes) (maximum : N) : Maint string Bytes :=
  _ ← lift (ensure (member.1 <=? maximum)%N "member_too_large");
  _ ← eff_map_err io_reason (sys fs_next_entry);
  b ← lift (map_err (fun cause => if contains cause "larger than its declared uncompressed size"
                                  then "member_too_large" else cause) member.2);
  mret (take_bytes maximum b).

(** [open_backup_zip] *)
Definition open_zip (p : Path) (opening : IoError -> MaintenanceError) (invalid : string -> MaintenanceError)
    : Maint MaintenanceError Archive :=
  b ← eff_map_err opening (sys (fs_read p));
  lift (map_err invalid (zip_open b)).

Definition open_backup_zip (p : Path) : Maint MaintenanceError Archive :=
  open_zip p (fun e => backup_verify [("reason", Str "open_archive"); ("cause", Str (io_reason e))])
    (fun cause => backup_verify [("reason", Str "invalid_zip"); ("cause", Str cause)]).

Definition open_restore_zip (p : Path) : Maint MaintenanceError Archive :=
  open_zip p (maintenance_io "reopen archive")
    (fun cause => restore_verify [("reason", Str "invalid_zip"); ("cause", Str cause)]).

Definition check_manifest_header (m : BackupManifest) : Result MaintenanceError unit :=
  _ ← ensure (bool_decide (manifest_format_version m = BACKUP_MANIFEST_VERSION))
        (unsupported_format [("reason", Str "unsupported_manifest_version"); ("version", Str (manifest_format_version m))]);
  ensure (bool_decide (store_format m = LOCAL_DATA_STORE_FORMAT))
    (unsupported_format [("reason", Str "unsupported_store_format"); ("format", Str (store_format m))]).

Definition read_and_validate_manifest_header (a : Archive) : Maint MaintenanceError BackupManifest :=
  member ← lift (ok_or (by_name a BACKUP_MANIFEST_MEMBER) (backup_verify [("reason", Str "missing_manifest")]));
  b ← eff_map_err read_manifest_bytes_error (read_zip_member_bounded member MAX_BACKUP_MANIFEST_BYTES);
  m ← lift (ok_or (parse_manifest b) (backup_verify [("reason", Str "malformed_manifest")]));
  _ ← lift (check_manifest_header m);
  mret m.

Definition member_path_ok (p : string) : bool := String.prefix BACKUP_RECORDS_PREFIX p && negb (contains p "..").

(** A member's bytes against its index entry. *)
Definition check_member (e : BackupRecordIndexEntry) (b : Bytes) : Result MaintenanceError unit :=
  _ ← ensure (bool_decide (maintenance_sha256_hex b = envelope_digest e))
        (backup_verify [("reason", Str "member_digest_mismatch"); ("key", Str (entry_key e))]);
  envelope ← parse_envelope_bytes b;
  k ← envelope_record_key envelope;
  ensure (bool_decide (k = entry_key e)) (backup_verify [("reason", Str "key_mismatch"); ("key", Str (entry_key e))]).

Definition verify_member (a : Archive) (e : BackupRecordIndexEntry) : Maint MaintenanceError (string * Bytes) :=
  _ ← lift (ensure (member_path_ok (member_path e))
        (backup_verify [("reason", Str "invalid_member_path"); ("path", Str (member_path e))]));
  member ← lift (ok_or (by_name a (member_path e))
        (backup_verify [("reason", Str "missing_member"); ("path", Str (member_path e))]));
  b ← eff_map_err read_member_bytes_error (read_zip_member_bounded member MAX_BACKUP_MEMBER_BYTES);
  _ ← lift (check_member e b);
  mret (member_path e, b).

Definition sort_members {A} (members : list (string * A)) : list (string * A) :=
  stable_sort (fun left right => bool_decide (String.le left.1 right.1)) members.

Definition verify_manifest_member_payloads (a : Archive) (m : BackupManifest) : Maint MaintenanceError unit :=
  members ← collect (verify_member a) (records_index m);
  _ ← lift (ensure (bool_decide (archive_content_digest_from_members (sort_members members) = archive_content_digest m))
        (backup_verify [("reason", Str "archive_content_digest_mismatch")]));
  lift (ensure (manifest_count m =? N.of_nat (length (records_index m)))%N
    (backup_verify [("reason", Str "record_count_mismatch")])).

Definition verify_backup_archive (p : Path) : Maint MaintenanceError BackupManifest :=
  a ← open_backup_zip p;
  m ← read_and_validate_manifest_header a;
  _ ← verify_manifest_member_payloads a m;
  mret m.

(** ** Backup *)

Definition index_entry (k : string) (b : Bytes) (e : LocalDataStoreEnvelope) : BackupRecordIndexEntry := {|
  entry_key := k; entry_classification := classification e; envelope_digest := maintenance_sha256_hex b;
  member_path := BACKUP_RECORDS_PREFIX +:+ file_name k |}.

Definition backup_member (k : string) : Maint MaintenanceError (string * (Bytes * BackupRecordIndexEntry)) :=
  b ← read_envelope_bytes k;
  e ← lift (parse_envelope_bytes b);
  mret (BACKUP_RECORDS_PREFIX +:+ file_name k, (b, index_entry k b e)).

Definition backup_manifest (at_time : string) (members : list (string * (Bytes * BackupRecordIndexEntry))) : BackupManifest := {|
  manifest_format_version := BACKUP_MANIFEST_VERSION; created_as_of := at_time;
  manifest_count := N.of_nat (length members);
  archive_content_digest := archive_content_digest_from_members ((fun m => (m.1, m.2.1)) <$> members);
  records_index := (fun m => m.2.2) <$> members; store_format := LOCAL_DATA_STORE_FORMAT;
  writer_tool := "traverse-runtime"; writer_semver := "0.16.2" |}.

(** One step of writing the archive; a failure leaves a partial file. *)
Definition zip_step (p : Path) (operation : string) : Maint MaintenanceError unit :=
  sys_io operation (call (fun n => partial_write p (leftover n)) (fun t => Ok (t, tt))).

Definition write_zip (p : Path) (manifest_text : Bytes) (members : list (string * Bytes)) : Maint MaintenanceError unit :=
  _ ← sys_io "create backup zip" (fs_create p);
  _ ← zip_step p "start manifest zip member";
  _ ← zip_step p "write manifest zip member";
  _ ← each (fun _ => _ ← zip_step p "start record zip member"; zip_step p "write record zip member") members;
  b ← lift (map_err (fun refusal => maintenance_zip refusal.1 refusal.2)
        (zip_written ((BACKUP_MANIFEST_MEMBER, manifest_text) :: members)));
  sys_io "finish backup zip" (fs_write p b).

(** [inspect_err(|_| cleanup_failed_backup_temp(..))] *)
Definition cleanup_on_error {A} (p : Path) (m : Maint MaintenanceError A) : Maint MaintenanceError A := fun s =>
  match m s with
  | (s, Ok a) => (s, Ok a)
  | (s, Err e) => (_ ← ignore (sys (fs_remove_file p)); fail e) s
  end.

Definition commit_backup_zip (temporary destination : Path) : Maint MaintenanceError unit :=
  cleanup_on_error temporary (sys_io "commit backup zip" (fs_rename_file temporary destination)).

Definition backup_evidence (kind at_time : string) (count : N) (content_digest : string) : MaintenanceEvidence := {|
  evidence_spec := MAINTENANCE_SPEC; outcome := kind; as_of := at_time; attempted_count := count;
  removed_count := 0; retained_count := count; record_count := count; archive_digest := Some content_digest;
  failure_code := None; failure_reason := None |}.

Definition backup (destination : Path) (at_time : string) : Maint MaintenanceError MaintenanceEvidence :=
  _ ← lift (parse_as_of at_time);
  keys ← list_record_keys;
  found ← collect backup_member keys;
  let members := sort_members found in
  let m := backup_manifest at_time members in
  _ ← match parent destination with
      | Some dir => sys_io "create backup destination directory" (fs_create_dir_all dir)
      | None => mret tt
      end;
  let temporary := with_extension "zip.tmp" destination in
  _ ← ignore (sys (fs_remove_file temporary));
  _ ← write_zip temporary (manifest_bytes m) ((fun x => (x.1, x.2.1)) <$> members);
  _ ← cleanup_on_error temporary (verify_backup_archive temporary);
  _ ← commit_backup_zip temporary destination;
  mret (backup_evidence "backup_created" at_time (N.of_nat (length members)) (archive_content_digest m)).

(** ** Restore *)

Definition restore_parent (root : Path) : Result MaintenanceError Path :=
  ok_or (parent root) store_root_has_no_parent_error.

Definition extract_member (a : Archive) (root : Path) (e : BackupRecordIndexEntry) : Maint MaintenanceError unit :=
  _ ← lift (map_err map_data_store_error (validate_key (entry_key e)));
  member ← lift (ok_or (by_name a (member_path e))
        (restore_verify [("reason", Str "missing_member"); ("path", Str (member_path e))]));
  b ← eff_map_err (fun cause => maintenance_io "extract member" {| not_found := false; io_reason := cause |})
        (read_zip_member_bounded member MAX_BACKUP_MEMBER_BYTES);
  sys_io "write restored envelope" (fs_write (join root (file_name (entry_key e))) b).

Definition materialize_archive_to_root (archive root : Path) : Maint MaintenanceError unit :=
  m ← verify_backup_archive archive;
  a ← open_restore_zip archive;
  _ ← sys_io "create restored lock file" (fs_create (lock_path root));
  each (extract_member a root) (records_index m).

(** One listed file of a directory, if it is an envelope. *)
Definition verify_listed (operation reading : string) (check : Bytes -> Result MaintenanceError unit) (root : Path) (name : string)
    : Maint MaintenanceError unit :=
  _ ← sys_io operation fs_next_entry;
  match (split_extension name).2 with
  | Some extension =>
      if decide (extension = "json") then
        b ← sys_io reading (fs_read (join root name)); lift (check b)
      else mret tt
  | None => mret tt
  end.

Definition parses (b : Bytes) : Result MaintenanceError unit := _ ← parse_envelope_bytes b; Ok tt.

Definition verify_store_root_envelopes (root : Path) : Maint MaintenanceError unit :=
  names ← sys_io "list restored root" (fs_read_dir root);
  each (verify_listed "read restored entry" "read restored envelope" parses root) names.

Definition handle_move_live_store_aside_failure (e : IoError) : Maint MaintenanceError unit :=
  _ ← ignore reacquire_lock; fail (maintenance_io "move live store aside for restore" e).

(** Continue differently on an error. *)
Definition or_else {E F A} (m : Maint E A) (k : E -> Maint F A) : Maint F A := fun s =>
  match m s with
  | (s, Ok a) => (s, Ok a)
  | (s, Err e) => k e s
  end.

Definition move_live_store_aside (backup_root : Path) : Maint MaintenanceError unit := fun s =>
  or_else (sys (fs_rename (store_root s) backup_root)) handle_move_live_store_aside_failure s.

Definition handle_replace_store_root_failure (backup_root : Path) (e : IoError) : Maint MaintenanceError unit := fun s =>
  (_ ← ignore (sys (fs_rename backup_root (store_root s)));
   _ ← ignore reacquire_lock;
   fail (maintenance_io "atomically replace store root" e)) s.

Definition replace_store_root (temp_root backup_root : Path) : Maint MaintenanceError unit := fun s =>
  or_else (sys (fs_rename temp_root (store_root s))) (handle_replace_store_root_failure backup_root) s.

Definition temp_root_of (dir : Path) (suffix : string) : Path := join dir (".traverse-datastore-restore-" +:+ suffix).
Definition backup_root_of (dir : Path) (suffix : string) : Path := join dir (".traverse-datastore-replaced-" +:+ suffix).

(** The archive unpacked and verified beside the store. *)
Definition stage_restore (archive temp_root backup_root : Path) : Maint MaintenanceError unit :=
  _ ← ignore (sys (fs_remove_dir_all temp_root));
  _ ← ignore (sys (fs_remove_dir_all backup_root));
  _ ← sys_io "create restore temp root" (fs_create_dir_all temp_root);
  _ ← materialize_archive_to_root archive temp_root;
  verify_store_root_envelopes temp_root.

(** The live directory exchanged for the new one. *)
Definition swap_store_root (temp_root backup_root : Path) : Maint MaintenanceError unit :=
  _ ← unlock;
  _ ← move_live_store_aside backup_root;
  _ ← replace_store_root temp_root backup_root;
  _ ← reacquire_lock;
  ignore (sys (fs_remove_dir_all backup_root)).

Definition restore (archive : Path) (at_time : string) : Maint MaintenanceError MaintenanceEvidence := fun s =>
  (_ ← lift (parse_as_of at_time);
   verified ← verify_backup_archive archive;
   dir ← lift (restore_parent (store_root s));
   let suffix := restore_work_suffix s at_time in
   let temp_root := temp_root_of dir suffix in
   let backup_root := backup_root_of dir suffix in
   _ ← stage_restore archive temp_root backup_root;
   _ ← swap_store_root temp_root backup_root;
   mret (backup_evidence "restore_committed" at_time (manifest_count verified) (archive_content_digest verified))) s.

(** ** Migration *)

Definition verified_backup_digest (d : option string) : Result MigrationError string :=
  ok_or d (migration_error BackupFailed "datastore_backup_failed" "missing_verified_backup_digest").

(** The second format, back to the first, must still be a valid envelope. *)
Definition parses_v2 (b : Bytes) : Result MaintenanceError unit :=
  v ← map_err (fun _ => malformed_envelope_error) (from_slice b);
  e ← map_err map_data_store_error (decode_v2_envelope v);
  _ ← parse_envelope_bytes (to_vec (envelope_value e));
  Ok tt.

Definition verify_v2_store_root (root : Path) : Maint MaintenanceError unit :=
  names ← sys_io "list migration candidate" (fs_read_dir root);
  each (verify_listed "read migration candidate entry" "read migration candidate" parses_v2 root) names.

Definition migrate_key (candidate_root : Path) (k : string) : Maint MigrationError unit :=
  source ← eff_map_err map_migration_source_error (read_envelope k);
  eff_map_err map_migration_write_io
    (sys (fs_write (join candidate_root (file_name k)) (to_vec (v2_envelope_value (v2_envelope source))))).

Definition build_candidate (candidate_root : Path) (keys : list string) : Maint MigrationError unit :=
  _ ← each (migrate_key candidate_root) keys;
  eff_map_err map_migration_verification_error (verify_v2_store_root candidate_root).

Definition abandon_failed_candidate (candidate_root : Path) (e : MigrationError) : Maint MigrationError unit :=
  _ ← ignore (sys (fs_remove_dir_all candidate_root)); fail e.

Definition abort_migration_before_aside (candidate_root : Path) (e : IoError) : Maint MigrationError unit :=
  _ ← ignore reacquire_lock;
  _ ← ignore (sys (fs_remove_dir_all candidate_root));
  fail (map_migration_commit_io e).

Definition move_live_aside_for_migration (previous_root candidate_root : Path) : Maint MigrationError unit := fun s =>
  or_else (sys (fs_rename (store_root s) previous_root)) (abort_migration_before_aside candidate_root) s.

Definition abort_migration_after_aside (previous_root : Path) (e : IoError) : Maint MigrationError unit := fun s =>
  (_ ← ignore (sys (fs_rename previous_root (store_root s)));
   _ ← ignore reacquire_lock;
   fail (map_migration_commit_io e)) s.

Definition install_migrated_candidate (candidate_root previous_root : Path) : Maint MigrationError unit := fun s =>
  or_else (sys (fs_rename candidate_root (store_root s))) (abort_migration_after_aside previous_root) s.

(** The rollback when the lock of the new directory cannot be taken. *)
Definition undo_migration (candidate_root previous_root : Path) (e : MaintenanceError) : Maint MigrationError unit := fun s =>
  (_ ← ignore (sys (fs_rename (store_root s) candidate_root));
   _ ← ignore (sys (fs_rename previous_root (store_root s)));
   _ ← ignore reacquire_lock;
   fail (map_migration_commit_error e)) s.

Definition reacquire_migrated_lock (candidate_root previous_root : Path) : Maint MigrationError unit :=
  or_else reacquire_lock (undo_migration candidate_root previous_root).

Definition commit_migrated_store_root (candidate_root previous_root : Path) : Maint MigrationError unit :=
  _ ← unlock;
  _ ← move_live_aside_for_migration previous_root candidate_root;
  _ ← install_migrated_candidate candidate_root previous_root;
  _ ← reacquire_migrated_lock candidate_root previous_root;
  ignore (sys (fs_remove_dir_all previous_root)).

Definition candidate_root_of (dir : Path) (suffix : string) : Path := join dir (".traverse-datastore-migration-" +:+ suffix).
Definition previous_root_of (dir : Path) (suffix : string) : Path := join dir (".traverse-datastore-pre-v2-" +:+ suffix).

(** The candidate directory, written and verified beside the store. *)
Definition stage_migration (candidate_root previous_root : Path) (keys : list string) : Maint MigrationError unit :=
  _ ← ignore (sys (fs_remove_dir_all candidate_root));
  _ ← ignore (sys (fs_remove_dir_all previous_root));
  _ ← eff_map_err map_migration_write_io (sys (fs_create_dir_all candidate_root));
  _ ← eff_map_err map_migration_write_io (sys (fs_create (lock_path candidate_root)));
  or_else (build_candidate candidate_root keys) (abandon_failed_candidate candidate_root).

Definition migration_report (keys : list string) (backup_digest : string) : MigrationReport := {|
  report_spec := MIGRATION_SPEC; source_format := LOCAL_DATA_STORE_FORMAT; target_format := LOCAL_DATA_STORE_V2_FORMAT;
  report_count := N.of_nat (length keys); backup_content_digest := backup_digest;
  report_outcome := "datastore_migration_committed" |}.

Definition migrate_v1_to_v2 (backup_destination : Path) (at_time : string) : Maint MigrationError MigrationReport := fun s =>
  (_ ← lift (map_err map_migration_source_error (parse_as_of at_time));
   keys ← eff_map_err map_migration_source_error list_record_keys;
   _ ← each (fun k => eff_map_err map_migration_source_error (_ ← read_envelope k; mret tt)) keys;
   evidence ← eff_map_err map_migration_backup_error (backup backup_destination at_time);
   backup_digest ← lift (verified_backup_digest (archive_digest evidence));
   dir ← lift (map_err map_migration_commit_error (restore_parent (store_root s)));
   let suffix := restore_work_suffix s at_time in
   let candidate_root := candidate_root_of dir suffix in
   let previous_root := previous_root_of dir suffix in
   _ ← stage_migration candidate_root previous_root keys;
   _ ← commit_migrated_store_root candidate_root previous_root;
   mret (migration_report keys backup_digest)) s.
End maintenance.
