(* ===== verification/MaintenanceProps.v ===== *)
(** * What maintenance guarantees

    Whatever calls fail, pruning deletes exactly a first part of the doomed keys, and a
    restore or a migration leaves the old records, the complete new ones, or the old ones
    beside the store; a backup restored is the store backed up. *)
From S2P Require Import Prelude Effect Json Contract Serde DataStore LocalStore LocalStoreProps FileTree Maintenance.
From Stdlib Require Import Ascii.

(** ** Frames *)

(** The paths of [D] are as they were. *)
Definition spares (D : Path -> Prop) (s s' : LocalFileDataStoreMaintenance) : Prop :=
  store_root s' = store_root s /\ owner_process s' = owner_process s
  /\ forall q, D q -> tree (machine s') !! q = tree (machine s) !! q.

#[export] Instance spares_preorder D : PreOrder (spares D).
Proof.
  split; [by intros s|]. intros s1 s2 s3 (A1 & A2 & A3) (B1 & B2 & B3).
  split; [congruence|]. split; [congruence|]. intros q Hq. by rewrite B3, A3.
Qed.

Definition leaves {E A} (K : relation LocalFileDataStoreMaintenance) (m : Maint E A) : Prop := forall s, K s (m s).1.

Section rules.
Context {K : relation LocalFileDataStoreMaintenance} `{!PreOrder K}.

Lemma leaves_ret {E A} (a : A) : leaves K (E := E) (mret a).
Proof. by intros s. Qed.

Lemma leaves_fail {E A} (e : E) : leaves K (A := A) (fail e).
Proof. by intros s. Qed.

Lemma leaves_lift {E A} (r : Result E A) : leaves K (lift r).
Proof. by intros s. Qed.

Lemma leaves_bind {E A B} (m : Maint E A) (k : A -> Maint E B) : leaves K m -> (forall a, leaves K (k a)) -> leaves K (m ≫= k).
Proof.
  intros Hm Hk s. specialize (Hm s). unfold mbind, Eff_bind. destruct (m s) as [s1 [a|e]]; cbn in *; [|done].
  etrans; [exact Hm|]. apply Hk.
Qed.

Lemma leaves_map_err {E F A} (f : E -> F) (m : Maint E A) : leaves K m -> leaves K (eff_map_err f m).
Proof. intros Hm s. specialize (Hm s). unfold eff_map_err. by destruct (m s). Qed.

Lemma leaves_ignore {E F A} (m : Maint E A) : leaves K m -> leaves K (ignore (F := F) m).
Proof. intros Hm s. apply Hm. Qed.

Lemma leaves_each {E A} (f : A -> Maint E unit) l : (forall a, leaves K (f a)) -> leaves K (each f l).
Proof. intros Hf. induction l; cbn; [apply leaves_ret|]. apply leaves_bind; [apply Hf|done]. Qed.

Lemma leaves_collect {E A B} (f : A -> Maint E B) l : (forall a, leaves K (f a)) -> leaves K (collect f l).
Proof.
  intros Hf. induction l; cbn; [apply leaves_ret|]. apply leaves_bind; [apply Hf|]. intros b.
  apply leaves_bind; [done|]. intros bs. apply leaves_ret.
Qed.

Lemma leaves_intro {E A} (m : Maint E A) : leaves K m -> forall s, K s (m s).1.
Proof. done. Qed.
End rules.

(** An operation that first looks at the store's root. *)
Ltac at_root :=
  intros ?s; match goal with |- context [store_root ?s] => generalize (store_root s); intros ?root; revert s end;
  apply leaves_intro.

Create HintDb leaves.
#[export] Hint Resolve spares_preorder leaves_ret leaves_fail leaves_lift leaves_bind leaves_map_err leaves_ignore leaves_each
  leaves_collect : leaves.

(** ** One call *)

(** The machine after a call that left [t]. *)
Definition at_tree (t : Tree) (s : LocalFileDataStoreMaintenance) : LocalFileDataStoreMaintenance :=
  set_machine {| tree := t; calls := S (calls (machine s)) |} s.

Section one_call.
Context `{Faults}.

Inductive Called {A} (damage : nat -> Tree -> Tree) (effect : Tree -> Result IoError (Tree * A))
    (s : LocalFileDataStoreMaintenance) : LocalFileDataStoreMaintenance -> Result IoError A -> Prop :=
  | called_faulty reason : fails (calls (machine s)) = Some reason ->
      Called damage effect s (at_tree (damage (calls (machine s)) (tree (machine s))) s)
        (Err {| not_found := false; io_reason := reason |})
  | called_refused e : fails (calls (machine s)) = None -> effect (tree (machine s)) = Err e ->
      Called damage effect s (at_tree (tree (machine s)) s) (Err e)
  | called_done t a : fails (calls (machine s)) = None -> effect (tree (machine s)) = Ok (t, a) ->
      Called damage effect s (at_tree t s) (Ok a).

Lemma sys_call {A} damage (effect : Tree -> Result IoError (Tree * A)) s s' r :
  sys (call damage effect) s = (s', r) -> Called damage effect s s' r.
Proof.
  unfold sys, call. destruct (fails (calls (machine s))) as [reason|] eqn:Ef.
  - intros [= <- <-]. by apply called_faulty.
  - cbn. destruct (effect (tree (machine s))) as [[t a]|e] eqn:Ee; intros [= <- <-]; [by apply called_done|by apply called_refused].
Qed.

(** A call that reads leaves the tree. *)
Lemma sys_reads {A} (effect : Tree -> Result IoError (Tree * A)) :
  (forall t t' a, effect t = Ok (t', a) -> t' = t) -> forall D, leaves (spares D) (sys (call unharmed effect)).
Proof.
  intros He D s. destruct (sys (call unharmed effect) s) as [s' r] eqn:E. apply sys_call in E.
  destruct E as [reason _|e _ _|t a _ E]; [done|done|]. by rewrite (He _ _ _ E).
Qed.

Lemma leaves_call {A} (D : Path -> Prop) damage (effect : Tree -> Result IoError (Tree * A)) :
  (forall n t q, D q -> damage n t !! q = t !! q) ->
  (forall t t' a q, effect t = Ok (t', a) -> D q -> t' !! q = t !! q) ->
  leaves (spares D) (sys (call damage effect)).
Proof.
  intros Hd He s. destruct (sys (call damage effect) s) as [s' r] eqn:E. apply sys_call in E.
  destruct E as [reason _|e _ _|t a _ E]; [|done|].
  - split; [done|]. split; [done|]. intros q Hq. by apply Hd.
  - split; [done|]. split; [done|]. intros q Hq. by eapply He.
Qed.

Lemma with_file_inv {A} t p (k : Path -> string -> Files -> Result IoError A) a :
  with_file t p k = Ok a ->
  exists dir name files, parent p = Some dir /\ file_name_of p = Some name /\ t !! dir = Some files /\ k dir name files = Ok a.
Proof.
  unfold with_file. destruct (parent p) as [dir|] eqn:Ep; [|done]. destruct (file_name_of p) as [name|] eqn:En; [|done].
  intros E. destruct (bool_decide (t !! p = None)); [|done]. cbn in E.
  destruct (t !! dir) as [files|] eqn:Et; [|done]. cbn in E. eauto 10.
Qed.

Lemma leaves_read D p : leaves (spares D) (sys (fs_read p)).
Proof.
  apply sys_reads. intros t t' b (dir & name & files & _ & _ & _ & E)%with_file_inv.
  destruct (files !! name); [|done]. by injection E.
Qed.

Lemma leaves_read_dir D p : leaves (spares D) (sys (fs_read_dir p)).
Proof. apply sys_reads. intros t t' l E. destruct (t !! p); [|done]. by injection E. Qed.

Lemma leaves_next D : leaves (spares D) (sys fs_next_entry).
Proof. apply sys_reads. intros t t' [] E. by injection E. Qed.

Lemma leaves_try_lock D : leaves (spares D) (sys fs_try_lock).
Proof. done. Qed.
End one_call.

#[export] Hint Resolve leaves_read leaves_read_dir leaves_next leaves_try_lock : leaves.

(** ** Reading *)

Section reading.
Context `{SerdeJson, StoreCrypto, Faults, ZipCrate, Chrono, ManifestCodec}.

Lemma leaves_list D : leaves (spares D) list_record_keys.
Proof. unfold list_record_keys, sys_io. at_root. eauto 8 with leaves. Qed.

Lemma leaves_read_envelope_bytes D k : leaves (spares D) (read_envelope_bytes k).
Proof. unfold read_envelope_bytes, sys_io. at_root. eauto 8 with leaves. Qed.

Lemma leaves_read_envelope D k : leaves (spares D) (read_envelope k).
Proof. unfold read_envelope. eauto using leaves_read_envelope_bytes with leaves. Qed.

Lemma leaves_bounded D member maximum : leaves (spares D) (read_zip_member_bounded member maximum).
Proof. unfold read_zip_member_bounded. eauto 10 with leaves. Qed.

Lemma leaves_open_zip D p f g : leaves (spares D) (open_zip p f g).
Proof. unfold open_zip. eauto with leaves. Qed.

Lemma leaves_verify_member D a e : leaves (spares D) (verify_member a e).
Proof. unfold verify_member. eauto 12 using leaves_bounded with leaves. Qed.

Lemma leaves_verify_archive D p : leaves (spares D) (verify_backup_archive p).
Proof.
  unfold verify_backup_archive, open_backup_zip, read_and_validate_manifest_header, verify_manifest_member_payloads.
  apply leaves_bind; [apply leaves_open_zip|]. intros a.
  apply leaves_bind; [eauto 10 using leaves_bounded with leaves|]. intros m.
  eauto 10 using leaves_verify_member with leaves.
Qed.

Lemma leaves_verify_listed D o o' check root name : leaves (spares D) (verify_listed o o' check root name).
Proof.
  unfold verify_listed, sys_io. apply leaves_bind; [eauto with leaves|]. intros _.
  destruct (split_extension name) as [stem [extension|]]; cbn; [|eauto with leaves].
  case_decide; eauto with leaves.
Qed.

(** A state the same but for the number of calls. *)
Lemma spares_all s s' : spares (fun _ => True) s s' -> tree (machine s') = tree (machine s).
Proof. intros (_ & _ & E). apply map_eq. intros q. by apply E. Qed.

Lemma leaves_run {E A} K (m : Maint E A) s s' r : leaves K m -> m s = (s', r) -> K s s'.
Proof. intros Hm Hr. specialize (Hm s). by rewrite Hr in Hm. Qed.

Lemma sys_read_ok p s s' b : sys (fs_read p) s = (s', Ok b) -> file_at (tree (machine s)) p = Some b.
Proof.
  intros E%sys_call. inversion E as [| |t a _ F]; subst.
  apply with_file_inv in F as (dir & name & files & Hp & Hn & Ht & F).
  unfold file_at. rewrite Hp, Hn. cbn. rewrite Ht. cbn. destruct (files !! name); [|done]. by injection F as _ ->.
Qed.

Lemma eff_map_err_ok {St E F A} (f : E -> F) (m : Eff St E A) s s' a : eff_map_err f m s = (s', Ok a) <-> m s = (s', Ok a).
Proof. unfold eff_map_err, map_err. destruct (m s) as [s1 [a1|e1]]; naive_solver. Qed.

Lemma eff_map_err_err {St E F A} (f : E -> F) (m : Eff St E A) s s' e :
  eff_map_err f m s = (s', Err e) <-> exists e0, m s = (s', Err e0) /\ e = f e0.
Proof. unfold eff_map_err, map_err. destruct (m s) as [s1 [a1|e1]]; naive_solver. Qed.

Definition files_of (root : Path) (t : Tree) : Files := default ∅ (t !! root).

Lemma file_at_join t root name : name <> ".." -> file_at t (join root name) = files_of root t !! name.
Proof.
  intros E. unfold file_at, files_of. rewrite parent_join, file_name_join by done. cbn. by destruct (t !! root).
Qed.

Lemma file_name_not_dots k : file_name k <> "..".
Proof. unfold file_name. destruct k as [|a [|b k]]; [done|done|]. intros [=]. by destruct k. Qed.

Lemma read_envelope_bytes_ok k s s' b : read_envelope_bytes k s = (s', Ok b) ->
  validate_key k = Ok tt /\ files_of (store_root s) (tree (machine s)) !! file_name k = Some b.
Proof.
  unfold read_envelope_bytes, sys_io. intros E. eff_inv. apply eff_map_err_ok in E. subst.
  unfold key_path in *. destruct (validate_key k) as [[]|]; cbn in *; [|done]. simplify_eq.
  apply sys_read_ok in E. rewrite file_at_join in E by apply file_name_not_dots. done.
Qed.

Lemma read_envelope_ok k s s' e : read_envelope k s = (s', Ok e) ->
  exists b, files_of (store_root s) (tree (machine s)) !! file_name k = Some b /\ parse_envelope_bytes b = Ok e.
Proof.
  unfold read_envelope. intros E. eff_inv. subst. exists x0. split; [|done].
  match goal with F : read_envelope_bytes _ _ = _ |- _ => apply read_envelope_bytes_ok in F as [_ F]; exact F end.
Qed.

Definition keys_of (root : Path) (t : Tree) : list string :=
  stable_sort (fun a b => bool_decide (String.le a b)) (omap json_key (entry_names root t)).

Lemma list_record_keys_ok s s' keys : list_record_keys s = (s', Ok keys) ->
  keys = keys_of (store_root s) (tree (machine s)) /\ is_Some (tree (machine s) !! store_root s).
Proof.
  unfold list_record_keys, sys_io. intros E. eff_inv.
  match goal with F : eff_map_err _ (sys (fs_read_dir _)) _ = _ |- _ => apply eff_map_err_ok, sys_call in F; rename F into Hd end.
  inversion Hd as [| |t a _ F]; subst.
  destruct (tree (machine s) !! store_root s) as [files|] eqn:Et; [|done]. cbn in F. simplify_eq.
  split; [|done]. unfold mret, Eff_ret in E. by injection E as _ <-.
Qed.
End reading.

#[export] Hint Resolve leaves_list leaves_read_envelope_bytes leaves_read_envelope leaves_bounded leaves_open_zip
  leaves_verify_member leaves_verify_archive leaves_verify_listed : leaves.

(** ** Pruning *)

Section pruning.
Context `{SerdeJson, StoreCrypto, Faults, Chrono}.

Lemma delete_key_cases k s s' r : delete_key k s = (s', r) ->
  store_root s' = store_root s
  /\ match r with
     | Ok _ => tree (machine s') = drop_file (store_root s) (file_name k) (tree (machine s))
     | Err _ => tree (machine s') = tree (machine s)
     end.
Proof.
  unfold delete_key, key_path. destruct (validate_key k) as [[]|e]; cbn; [|by intros [= <- <-]].
  destruct (sys (fs_remove_file _) s) as [s1 r1] eqn:Er. apply sys_call in Er.
  destruct Er as [reason _|e _ Hr|t a _ Hr]; cbn.
  - by intros [= <- <-].
  - destruct (not_found e) eqn:Hn; intros [= <- <-]; [|done]. split; [done|]. cbn. symmetry. apply drop_file_absent.
    intros files Hf. unfold with_file in Hr. rewrite parent_join, file_name_join in Hr by apply file_name_not_dots.
    destruct (bool_decide _); cbn in Hr; [|by injection Hr as <-]. rewrite Hf in Hr. cbn in Hr.
    by destruct (files !! file_name k).
  - intros [= <- <-]. split; [done|]. cbn. apply with_file_inv in Hr as (dir & name & files & Hp & Hn & Ht & Hr).
    rewrite parent_join in Hp. rewrite file_name_join in Hn by apply file_name_not_dots. simplify_eq.
    destruct (files !! file_name k); [|done]. by injection Hr as <- _.
Qed.

(** The directory without the files of some keys. *)
Definition without_keys (root : Path) (ks : list string) (t : Tree) : Tree :=
  foldl (fun t k => drop_file root (file_name k) t) t ks.

Lemma delete_victims_cases victims : forall attempted removed total s s' r,
  delete_victims victims attempted removed total s = (s', r) ->
  exists n, n <= length victims
    /\ tree (machine s') = without_keys (store_root s) (take n victims) (tree (machine s))
    /\ match r with
       | Ok count => n = length victims /\ count = (removed + N.of_nat n)%N
       | Err (Failed e) => n < length victims
           /\ exists cause, e = prune_failure cause attempted (removed + N.of_nat n) total
       | Err Panicked => False
       end.
Proof.
  induction victims as [|k rest IH]; intros attempted removed total s s' r; cbn.
  - intros [= <- <-]. exists 0. split; [done|]. split; [done|]. split; [done|lia].
  - unfold mbind, Eff_bind, eff_map_err. destruct (delete_key k s) as [s1 [[]|e]] eqn:Ed;
      apply delete_key_cases in Ed as [Hroot Ht]; cbn.
    + intros (n & Hn & Htree & Hr)%IH. exists (S n). split; [lia|]. split.
      * rewrite Htree, Hroot, Ht. done.
      * destruct r as [count|[e|]]; [destruct Hr; lia| |done].
        destruct Hr as (Hlt & cause & ->). split; [lia|]. exists cause. f_equal. lia.
    + intros [= <- <-]. exists 0. split; [lia|]. split; [by rewrite Ht|]. split; [lia|]. exists e. f_equal. lia.
Qed.

(** The record of [k] is stamped, not after the cutoff. *)
Definition too_old (root : Path) (t : Tree) (cutoff : Z) (k : string) : Prop :=
  exists b e stamp at_time, files_of root t !! file_name k = Some b /\ parse_envelope_bytes b = Ok e
    /\ retained_at e = Some stamp /\ parse_rfc3339 stamp = Ok at_time /\ (at_time <= cutoff)%Z.

(** A key goes when the count bound or the age bound excludes it. *)
Definition doomed (root : Path) (t : Tree) (p : RetentionPolicy) (instant : Z) (k : string) : Prop :=
  exists i, keys_of root t !! i = Some k
    /\ ((exists n, max_count p = Some n /\ N.of_nat i + n < N.of_nat (length (keys_of root t)))%N
        \/ exists age cutoff, max_age_secs p = Some age /\ checked_sub_signed instant (Z.of_N age) = Some cutoff
             /\ too_old root t cutoff k).

Lemma outside_count_spec keys bound i :
  outside_count keys bound i = true <-> exists n, bound = Some n /\ (N.of_nat i + n < N.of_nat (length keys))%N.
Proof.
  unfold outside_count. destruct bound as [n|]; [|naive_solver].
  rewrite andb_true_iff, !N.ltb_lt. split; [intros [? ?]; exists n; split; [done|lia]|intros (m & [= <-] & ?); lia].
Qed.

Lemma forall_ex_iff {A} (P Q : A -> Prop) : (forall x, P x <-> Q x) -> (exists x, P x) <-> exists x, Q x.
Proof. firstorder. Qed.

Lemma and_iff_same (P Q R : Prop) : (P -> Q <-> R) -> P /\ Q <-> P /\ R.
Proof. tauto. Qed.

Lemma collect_ok {E A B} (f : A -> Maint E B) (Q : A -> B -> Prop) K `{!PreOrder K} s0 l : forall s s' bs,
  (forall a, leaves K (f a)) ->
  (forall s1 s2 a b, K s0 s1 -> f a s1 = (s2, Ok b) -> Q a b) ->
  K s0 s -> collect f l s = (s', Ok bs) -> Forall2 Q l bs.
Proof.
  intros s s' bs HK HQ. revert s s' bs.
  induction l as [|a l IH]; cbn; intros s s' bs Hs Hr.
  - unfold mret, Eff_ret in Hr. injection Hr as <- <-. constructor.
  - eff_inv. match goal with F : f a s = _ |- _ => pose proof (leaves_run _ _ _ _ _ (HK a) F); apply HQ in F; [|done] end.
    unfold mret, Eff_ret in Hr. injection Hr as <- <-. constructor; [done|].
    eapply IH; [|eassumption]. by etrans.
Qed.

Lemma expired_spec cutoff e b : expired cutoff e = Ok b ->
  b = true <-> exists stamp at_time, retained_at e = Some stamp /\ parse_rfc3339 stamp = Ok at_time /\ (at_time <= cutoff)%Z.
Proof.
  unfold expired, parse_as_of. destruct (retained_at e) as [stamp|]; [|intros [= <-]; split; [done|by intros (? & ? & ? & _)]].
  destruct (parse_rfc3339 stamp) as [x|] eqn:Ep; cbn; [|done]. intros [= <-]. rewrite Z.leb_le.
  split; [intros Hx; by exists stamp, x|]. intros (st & y & Hs & Hp & Hy). injection Hs as <-.
  rewrite Ep in Hp. by injection Hp as ->.
Qed.

Definition flagged (x : string * bool) : option string := if x.2 then Some x.1 else None.

Lemma flagged_sublist keys flags : omap flagged (zip keys flags) `sublist_of` keys.
Proof.
  revert flags. induction keys as [|k keys IH]; intros [|[] flags]; cbn; try done.
  - apply sublist_nil_l.
  - by apply sublist_skip.
  - by apply sublist_cons.
Qed.

Lemma flagged_elem keys flags k :
  k ∈ omap flagged (zip keys flags) <-> exists i, keys !! i = Some k /\ flags !! i = Some true.
Proof.
  rewrite list_elem_of_omap. split.
  - intros ([k' b] & Hin & Hf). apply list_elem_of_lookup in Hin as [i Hi]. exists i.
    apply lookup_zip_with_Some in Hi as (k1 & b1 & Hp & Hk & Hb). unfold flagged in Hf. injection Hp as -> ->. destruct b1; naive_solver.
  - intros (i & Hk & Hb). exists (k, true). split; [|done]. apply list_elem_of_lookup. exists i.
    by apply lookup_zip_with_Some; exists k, true.
Qed.

Lemma age_flags_ok keys p instant s s' old : age_flags keys (max_age_secs p) instant s = (s', Ok old) ->
  Forall2 (fun k b => b = true <-> exists age cutoff, max_age_secs p = Some age
    /\ checked_sub_signed instant (Z.of_N age) = Some cutoff /\ too_old (store_root s) (tree (machine s)) cutoff k) keys old.
Proof.
  unfold age_flags. destruct (max_age_secs p) as [age|].
  - intros Hr. eff_inv. subst. apply eff_map_err_ok in Hr. rename x0 into cutoff.
    match goal with F : Ok cutoff = _ |- _ => rename F into Hc end.
    unfold age_cutoff in Hc. destruct (age <=? i64_max)%N; cbn in Hc; [|done].
    destruct (age <=? MAX_DURATION_SECS)%N; cbn in Hc; [|done].
    destruct (checked_sub_signed instant (Z.of_N age)) as [c|] eqn:Ec; cbn in Hc; [|done]. injection Hc as ->.
    eapply (collect_ok _ _ (spares (fun _ => True)) s); [| |done|exact Hr]; [eauto with leaves|].
    intros s1 s2 k b Hs Hb. cbv beta in Hb. eff_inv. subst.
    match goal with F : read_envelope _ _ = _ |- _ => apply read_envelope_ok in F as (bytes & Hfile & Hparse) end.
    rewrite (spares_all _ _ Hs), (proj1 Hs) in Hfile. symmetry in Hb. apply expired_spec in Hb. rewrite Hb. split.
    + intros (stamp & at_time & Hst & Hp & Hle). exists age, c. split; [done|]. split; [done|]. exists bytes. eauto 10.
    + intros (age' & c' & Ha & Hc & (b' & e' & stamp & at_time & Hf & Hpe & Hst & Hp & Hle)). simplify_eq.
      rewrite Hparse in Hpe. injection Hpe as <-. by exists stamp, at_time.
  - intros [= _ <-]. apply Forall2_fmap_r, Forall_Forall2_diag, Forall_forall. intros k _. split; [done|by intros (? & ? & ? & _)].
Qed.

(** The victims are the doomed keys, in the order of the listing. *)
Lemma select_prune_victims_ok p instant s s' victims :
  select_prune_victims (keys_of (store_root s) (tree (machine s))) p instant s = (s', Ok victims) ->
  victims `sublist_of` keys_of (store_root s) (tree (machine s))
  /\ forall k, k ∈ victims <-> doomed (store_root s) (tree (machine s)) p instant k.
Proof.
  unfold doomed. set (keys := keys_of _ _). unfold select_prune_victims. intros Hr. eff_inv.
  unfold mret, Eff_ret in Hr. injection Hr as _ <-. rename x0 into old.
  match goal with F : age_flags _ _ _ _ = _ |- _ => apply age_flags_ok in F; rename F into Hold end.
  split; [apply flagged_sublist|]. intros k. etrans; [apply flagged_elem|].
  apply forall_ex_iff. intros i. apply and_iff_same. intros Hk.
  destruct (Forall2_lookup_l _ _ _ _ _ Hold Hk) as (b & Hb & Hiff).
  rewrite lookup_zip_with, list_lookup_imap, Hk, Hb. cbn. rewrite <- outside_count_spec, <- Hiff.
  rewrite <- orb_true_iff. split; [by intros [= ->]|by intros ->].
Qed.

Lemma age_cutoff_panics instant age : age_cutoff instant age = Err Panicked -> (MAX_DURATION_SECS < age <= i64_max)%N.
Proof.
  unfold age_cutoff. destruct (age <=? i64_max)%N eqn:E1; cbn; [|done]. destruct (age <=? MAX_DURATION_SECS)%N eqn:E2; cbn.
  - destruct (checked_sub_signed _ _); cbn; done.
  - intros _. apply N.leb_gt in E2. apply N.leb_le in E1. done.
Qed.

Lemma select_prune_victims_panics keys p instant s s' :
  select_prune_victims keys p instant s = (s', Err Panicked) ->
  exists age, max_age_secs p = Some age /\ (MAX_DURATION_SECS < age <= i64_max)%N.
Proof.
  unfold select_prune_victims. intros Hr. apply eff_bind_err in Hr as [Hr|(s1 & old & _ & Hr)]; [|done].
  unfold age_flags in Hr. destruct (max_age_secs p) as [age|]; [|done]. exists age. split; [done|].
  apply eff_bind_err in Hr as [Hr|(s1 & c & _ & Hr)].
  - apply lift_inv in Hr as [_ Hr]. by eapply age_cutoff_panics.
  - apply eff_map_err_err in Hr as (e & _ & Hr). done.
Qed.

Lemma leaves_select D keys p instant : leaves (spares D) (select_prune_victims keys p instant).
Proof.
  unfold select_prune_victims. apply leaves_bind; [|eauto with leaves].
  unfold age_flags. destruct (max_age_secs p); eauto 8 with leaves.
Qed.

(** C17: pruning under any failing calls.  Either nothing is deleted and the call refuses, or
    the keys deleted are a first part, in key order, of the keys a bound excludes: those
    before the last [max_count] keys, and those whose envelope is stamped at or before
    [as_of - max_age_secs].  A success deleted all of them and reports their number; a
    failure reports how many it deleted.  The call panics only for an age between
    [i64::MAX / 1000] and [i64::MAX] seconds, before it deletes anything. *)
Theorem prune_exact p at_time s s' r : prune p at_time s = (s', r) ->
  (tree (machine s') = tree (machine s)
   /\ match r with
      | Ok _ => False
      | Err (Failed _) => True
      | Err Panicked => exists age, max_age_secs p = Some age /\ (MAX_DURATION_SECS < age <= i64_max)%N
      end)
  \/ exists instant victims n,
       parse_rfc3339 at_time = Ok instant
       /\ victims `sublist_of` keys_of (store_root s) (tree (machine s))
       /\ (forall k, k ∈ victims <-> doomed (store_root s) (tree (machine s)) p instant k)
       /\ n <= length victims
       /\ tree (machine s') = without_keys (store_root s) (take n victims) (tree (machine s))
       /\ let total := N.of_nat (length (keys_of (store_root s) (tree (machine s)))) in
          let attempted := N.of_nat (length victims) in
          match r with
          | Ok evidence => n = length victims
              /\ evidence = prune_evidence at_time attempted attempted (saturating_sub total attempted)
          | Err (Failed e) => n < length victims /\ exists cause, e = prune_failure cause attempted (N.of_nat n) total
          | Err Panicked => False
          end.
Proof.
  unfold prune. unfold mbind at 1, Eff_bind at 1, lift at 1.
  destruct (validate_policy p) as [[]|e]; cbn [map_err]; [|intros [= <- <-]; by left].
  unfold mbind at 1, Eff_bind at 1, lift at 1, parse_as_of.
  destruct (parse_rfc3339 at_time) as [instant|e] eqn:Hat; cbn [map_err]; [|intros [= <- <-]; by left].
  unfold mbind at 1, Eff_bind at 1, eff_map_err at 1.
  destruct (list_record_keys s) as [s1 [keys|e]] eqn:Hlist;
    pose proof (leaves_run _ _ _ _ _ (leaves_list (fun _ => True)) Hlist) as Hs1; cbn [map_err];
    [|intros [= <- <-]; left; by rewrite (spares_all _ _ Hs1)].
  apply list_record_keys_ok in Hlist as [-> _].
  unfold mbind at 1, Eff_bind at 1.
  destruct (select_prune_victims _ p instant s1) as [s2 [victims|e]] eqn:Hsel;
    pose proof (leaves_run _ _ _ _ _ (leaves_select (fun _ => True) _ _ _) Hsel) as Hs2.
  - rewrite <- (proj1 Hs1), <- (spares_all _ _ Hs1) in Hsel. apply select_prune_victims_ok in Hsel as [Hsub Hdoomed].
    rewrite (proj1 Hs1), (spares_all _ _ Hs1) in Hsub, Hdoomed.
    unfold mbind, Eff_bind. destruct (delete_victims _ _ _ _ s2) as [s3 r3] eqn:Hdel.
    apply delete_victims_cases in Hdel as (n & Hn & Ht & Hr3).
    rewrite (proj1 Hs2), (proj1 Hs1), (spares_all _ _ Hs2), (spares_all _ _ Hs1) in Ht.
    intros Hr. right. exists instant, victims, n. split; [done|]. split; [done|]. split; [done|]. split; [done|].
    destruct r3 as [count|[e|]]; [| |done]; injection Hr as <- <-; (split; [exact Ht|]).
    + destruct Hr3 as [-> ->]. done.
    + exact Hr3.
  - intros [= <- <-]. left. split; [by rewrite (spares_all _ _ Hs2), (spares_all _ _ Hs1)|].
    destruct e; [done|]. by eapply select_prune_victims_panics.
Qed.
End pruning.

(** ** Exchanging directories *)

(** A directory and all below it hold, but for the lock file, what another one held. *)
Definition carries (t : Tree) (a : Path) (t' : Tree) (b : Path) : Prop := forall rest,
  delete LOCAL_DATA_STORE_LOCK_FILE <$> t' !! extend b rest = delete LOCAL_DATA_STORE_LOCK_FILE <$> t !! extend a rest.

Definition absent (a : Path) (t : Tree) : Prop := forall rest, t !! extend a rest = None.

Lemma carries_refl t a : carries t a t a.
Proof. done. Qed.

Lemma carries_trans t a t' b t'' c : carries t a t' b -> carries t' b t'' c -> carries t a t'' c.
Proof. intros Hab Hbc rest. by rewrite Hbc. Qed.

Lemma carries_same t t' a : (forall rest, t' !! extend a rest = t !! extend a rest) -> carries t a t' a.
Proof. intros Ht rest. by rewrite Ht. Qed.

Definition inside (a q : Path) : Prop := exists rest, q = extend a rest.

Lemma spares_inside a s s' : spares (inside a) s s' -> carries (tree (machine s)) a (tree (machine s')) a.
Proof. intros (_ & _ & Ht). apply carries_same. intros rest. apply Ht. by exists rest. Qed.

Lemma extend_root p rest : extend p rest = p -> rest = [].
Proof. intros Hp. rewrite <- (extend_nil p) in Hp at 2. by apply extend_inj in Hp. Qed.

Section exchange.
Context `{Faults}.

Lemma rename_cases a b s s' r : apart a b -> sys (fs_rename a b) s = (s', r) ->
  s' = at_tree (tree (machine s')) s
  /\ match r with
     | Ok _ => is_Some (tree (machine s) !! a) /\ tree (machine s') = move_tree a b (tree (machine s))
     | Err _ => tree (machine s') = tree (machine s)
     end.
Proof.
  intros Hab Hr%sys_call. destruct Hr as [reason _|e _ Hr|t u _ Hr]; cbn; [done|done|].
  split; [done|]. destruct (tree (machine s) !! a) eqn:Ha; cbn in Hr; [|done].
  destruct (parent b ≫= _); cbn in Hr; [|done].
  destruct (bool_decide (file_at _ b = None)); cbn in Hr; [|done].
  destruct (bool_decide (below a b = None)); cbn in Hr; [|done].
  destruct (bool_decide (below b a = None) && _); cbn in Hr; [|done]. by injection Hr as <-.
Qed.

Lemma reacquire_lock_cases s s' r : reacquire_lock s = (s', r) ->
  store_root s' = store_root s /\ owner_process s' = owner_process s
  /\ carries (tree (machine s)) (store_root s) (tree (machine s')) (store_root s)
  /\ (forall q, q <> store_root s -> tree (machine s') !! q = tree (machine s) !! q)
  /\ (tree (machine s) !! store_root s = None -> tree (machine s') = tree (machine s))
  /\ (forall u, r = Ok u -> lock_held s' = true).
Proof.
  unfold reacquire_lock, acquire_lock, sys_io, mbind, Eff_bind, eff_map_err.
  destruct (sys (fs_open _) s) as [s1 r1] eqn:Ho. apply sys_call in Ho.
  destruct Ho as [reason _|e _ Hr|t u _ Hr]; cbn.
  1-2: by intros [= <- <-].
  apply with_file_inv in Hr as (dir & name & files & Hp & Hn & Ht & Hr).
  unfold lock_path in Hp, Hn. rewrite parent_join in Hp. rewrite file_name_join in Hn by done.
  injection Hp as <-. injection Hn as <-.
  assert (Hcases : t = tree (machine s) \/ t = put_file (store_root s) LOCAL_DATA_STORE_LOCK_FILE [] (tree (machine s))).
  { destruct (files !! _); injection Hr as <-; eauto. }
  clear Hr. unfold sys, fs_try_lock. cbn.
  assert (Hall : carries (tree (machine s)) (store_root s) t (store_root s)
    /\ (forall q, q <> store_root s -> t !! q = tree (machine s) !! q)
    /\ (tree (machine s) !! store_root s = None -> t = tree (machine s))).
  { destruct Hcases as [->| ->]; [done|]. split; [|split; [intros q Hq; by apply put_file_other|congruence]].
    intros rest. destruct (decide (extend (store_root s) rest = store_root s)) as [->|Hne].
    - rewrite (put_file_same _ _ _ _ _ Ht), Ht. cbn. by rewrite delete_insert_eq.
    - by rewrite put_file_other. }
  destruct Hall as (Hc & Hq & Hn0).
  destruct (lock_fails (S (calls (machine s)))); cbn; intros [= <- <-]; (split; [done|]; split; [done|]; split; [exact Hc|]; split; [exact Hq|]; split; [exact Hn0|done]).
Qed.

Lemma leaves_remove_dir_all D p : (forall q, D q -> below p q = None) -> leaves (spares D) (sys (fs_remove_dir_all p)).
Proof.
  intros HD. apply leaves_call.
  - intros n t q Hq. apply partial_remove_other. by apply HD.
  - intros t t' u q Hr Hq. destruct (t !! p); cbn in Hr; [|done]. injection Hr as <- _. apply remove_tree_other. by apply HD.
Qed.

(** Where the records are once two renames and their undoing are over: in place, or
    beside the store, which is absent or holds the new directory. *)
Definition settled (old : Tree) (root temp aside : Path) (t : Tree) : Prop :=
  carries old root t root
  \/ carries old root t aside /\ (absent root t \/ carries old temp t root).

Lemma spares_at (D : Path -> Prop) t s : (forall q, D q -> t !! q = tree (machine s) !! q) -> spares D s (at_tree t s).
Proof. done. Qed.

Lemma carries_moved t a b : apart a b -> carries t a (move_tree a b t) b.
Proof. intros Hab rest. by rewrite move_tree_new. Qed.

Lemma carries_unmoved t a b c : apart a b -> apart a c -> apart b c -> carries t c (move_tree a b t) c.
Proof. intros Hab Hac Hbc rest. by rewrite move_tree_other. Qed.

Lemma absent_moved t a b : apart a b -> absent a (move_tree a b t).
Proof. intros Hab rest. by apply move_tree_old. Qed.

(** Taking the lock again changes no record, here or elsewhere. *)
Lemma reacquire_carries s s' r a : reacquire_lock s = (s', r) -> a = store_root s \/ apart a (store_root s) ->
  carries (tree (machine s)) a (tree (machine s')) a.
Proof.
  intros (_ & _ & Hc & Hq & _)%reacquire_lock_cases [->|Ha]; [done|]. apply carries_same. intros rest. apply Hq.
  rewrite <- (extend_nil (store_root s)). by apply apart_ne.
Qed.

Lemma reacquire_absent s s' r : reacquire_lock s = (s', r) -> absent (store_root s) (tree (machine s)) ->
  absent (store_root s) (tree (machine s')).
Proof.
  intros (_ & _ & _ & _ & Hn & _)%reacquire_lock_cases Ha. rewrite Hn; [done|].
  rewrite <- (extend_nil (store_root s)). apply Ha.
Qed.

(** Moving the old directory back, whatever fails: it is in place again, or nothing moved. *)
Lemma put_back_cases {E} aside (e : E) s : apart (store_root s) aside ->
  let s' := ((_ ← ignore (sys (fs_rename aside (store_root s))); _ ← ignore reacquire_lock; fail (A := unit) e) s).1 in
  carries (tree (machine s)) aside (tree (machine s')) (store_root s)
  \/ carries (tree (machine s)) aside (tree (machine s')) aside
     /\ carries (tree (machine s)) (store_root s) (tree (machine s')) (store_root s)
     /\ (absent (store_root s) (tree (machine s)) -> absent (store_root s) (tree (machine s'))).
Proof.
  intros Hra. unfold mbind, Eff_bind, ignore, fail.
  destruct (sys (fs_rename aside (store_root s)) s) as [s1 r1] eqn:H1.
  apply rename_cases in H1 as [Hs1 H1]; [|by apply apart_sym].
  assert (Hroot : store_root s1 = store_root s) by (by rewrite Hs1).
  cbn. destruct (reacquire_lock s1) as [s2 r2] eqn:H2. cbn.
  assert (Hc : carries (tree (machine s1)) (store_root s) (tree (machine s2)) (store_root s)).
  { rewrite <- Hroot. eapply reacquire_carries; [done|by left]. }
  destruct r1 as [u1|e1].
  - left. eapply carries_trans; [|exact Hc]. destruct H1 as [_ ->]. apply carries_moved. by apply apart_sym.
  - right. rewrite <- H1. split; [eapply reacquire_carries; [done|right; rewrite Hroot; by apply apart_sym]|].
    split; [done|]. rewrite <- Hroot. by eapply reacquire_absent.
Qed.

(** Taking the lock of a directory just moved in. *)
Lemma lock_moved_in temp aside s s1 s2 r :
  apart (store_root s) temp -> apart temp aside -> apart (store_root s) aside ->
  store_root s1 = store_root s -> tree (machine s1) = move_tree temp (store_root s) (tree (machine s)) ->
  reacquire_lock s1 = (s2, r) ->
  store_root s2 = store_root s
  /\ carries (tree (machine s)) temp (tree (machine s2)) (store_root s)
  /\ carries (tree (machine s)) aside (tree (machine s2)) aside
  /\ (forall u, r = Ok u -> lock_held s2 = true).
Proof.
  intros Hrt Hta Hra Hroot Ht Hl. split; [|split; [|split]].
  - apply reacquire_lock_cases in Hl as [-> _]. done.
  - eapply (carries_trans _ _ (tree (machine s1)) (store_root s)).
    + rewrite Ht. apply carries_moved. by apply apart_sym.
    + rewrite <- Hroot. eapply reacquire_carries; [done|by left].
  - eapply (carries_trans _ _ (tree (machine s1)) aside).
    + rewrite Ht. apply carries_unmoved; [by apply apart_sym|done|done].
    + eapply reacquire_carries; [done|right; rewrite Hroot; by apply apart_sym].
  - by apply reacquire_lock_cases in Hl as (_ & _ & _ & _ & _ & Hl).
Qed.

(** Removing the directory put aside, once the new one is in place. *)
Lemma cleanup_aside {E} root aside s : apart root aside ->
  let s' := (ignore (F := E) (sys (fs_remove_dir_all aside)) s).1 in
  carries (tree (machine s)) root (tree (machine s')) root /\ lock_held s' = lock_held s.
Proof.
  intros Hra. unfold ignore. destruct (sys (fs_remove_dir_all aside) s) as [s4 r4] eqn:H4. cbn. split.
  - apply spares_inside. eapply leaves_run; [|exact H4]. apply leaves_remove_dir_all. intros q [rest ->].
    apply apart_below. by apply apart_sym.
  - unfold sys in H4. destruct (fs_remove_dir_all aside (machine s)). by injection H4 as <- _.
Qed.

(** The live directory moved aside, seen from the state before. *)
Lemma moved_aside root temp aside t : apart root temp -> apart root aside -> apart temp aside ->
  carries t root (move_tree root aside t) aside /\ absent root (move_tree root aside t)
  /\ carries t temp (move_tree root aside t) temp.
Proof.
  intros Hrt Hra Hta. split; [by apply carries_moved|]. split; [by apply absent_moved|].
  apply carries_unmoved; [done|done|by apply apart_sym].
Qed.

Lemma settled_back old root temp aside t t' :
  carries old root t aside -> absent root t \/ carries old temp t root ->
  carries t aside t' root
  \/ carries t aside t' aside /\ carries t root t' root /\ (absent root t -> absent root t') ->
  settled old root temp aside t'.
Proof.
  intros Hold Hroot [Hb|(Hb & Hr & Ha)]; [left; by eapply carries_trans|right].
  split; [by eapply carries_trans|]. destruct Hroot as [Hroot|Hroot]; [left; auto|right; by eapply carries_trans].
Qed.

Lemma swap_cases temp aside s s' r :
  apart (store_root s) temp -> apart (store_root s) aside -> apart temp aside ->
  swap_store_root temp aside s = (s', r) ->
  match r with
  | Ok _ => carries (tree (machine s)) temp (tree (machine s')) (store_root s) /\ lock_held s' = true
  | Err _ => settled (tree (machine s)) (store_root s) temp aside (tree (machine s'))
  end.
Proof.
  intros Hrt Hra Hta. unfold swap_store_root, unlock. unfold mbind at 1, Eff_bind at 1.
  set (s0 := set_lock false s). change (store_root s) with (store_root s0) in *.
  change (tree (machine s)) with (tree (machine s0)). generalize s0 Hrt Hra Hta. clear. intros s Hrt Hra Hta.
  unfold mbind at 1, Eff_bind at 1, move_live_store_aside, or_else.
  destruct (sys (fs_rename (store_root s) aside) s) as [s1 r1] eqn:H1. apply rename_cases in H1 as [Hs1 H1]; [|done].
  assert (Hroot1 : store_root s1 = store_root s) by (by rewrite Hs1).
  destruct r1 as [u1|e1].
  2:{ unfold handle_move_live_store_aside_failure, ignore, mbind, Eff_bind, fail.
      destruct (reacquire_lock s1) as [s2 r2] eqn:H2. cbn. intros [= <- <-]. left. rewrite <- H1, <- Hroot1.
      eapply reacquire_carries; [done|by left]. }
  destruct (moved_aside _ _ _ (tree (machine s)) Hrt Hra Hta) as (Hold & Hgone & Hnew).
  destruct H1 as [_ Ht1]. rewrite <- Ht1 in Hold, Hgone, Hnew.
  unfold mbind at 1, Eff_bind at 1, replace_store_root, or_else. rewrite Hroot1.
  destruct (sys (fs_rename temp (store_root s)) s1) as [s2 r2] eqn:H2.
  apply rename_cases in H2 as [Hs2 H2]; [|by apply apart_sym].
  assert (Hroot2 : store_root s2 = store_root s) by (by rewrite Hs2).
  destruct r2 as [u2|e2].
  - destruct H2 as [_ Ht2]. unfold mbind, Eff_bind. destruct (reacquire_lock s2) as [s3 r3] eqn:H3.
    rewrite <- Hroot1 in Ht2, Hrt, Hra.
    destruct (lock_moved_in temp aside s1 s2 s3 r3) as (Hroot3 & Hin & Haside & Hlock); [done..| |done|done|]; [by rewrite Hroot2|].
    rewrite Hroot1 in Hin, Hra. destruct r3 as [u3|e3].
    + pose proof (cleanup_aside (E := MaintenanceError) _ _ s3 Hra) as [Hc Hl]. unfold ignore in *.
      intros [= <- <-]. split; [|by cbn in Hl; rewrite Hl; eapply Hlock].
      eapply carries_trans; [exact Hnew|]. by eapply carries_trans.
    + intros [= <- <-]. right. split; [by eapply carries_trans|]. right. by eapply carries_trans.
  - pose proof (put_back_cases aside (maintenance_io "atomically replace store root" e2) s2) as Hback.
    rewrite Hroot2 in Hback. specialize (Hback Hra). rewrite H2 in Hback.
    unfold handle_replace_store_root_failure. rewrite Hroot2.
    destruct ((_ ← ignore _; _) s2) as [s3 r3] eqn:H3.
    assert (exists e, r3 = Err e) as [e3 ->].
    { unfold mbind, Eff_bind, ignore, fail in H3. injection H3 as _ <-. eauto. }
    intros [= <- <-]. eapply settled_back; [exact Hold|by left|exact Hback].
Qed.
End exchange.

(** ** Files written one after the other *)

Definition insert_all (l : list (string * Bytes)) (files : Files) : Files :=
  foldl (fun files x => <[x.1 := x.2]> files) files l.

Lemma insert_all_lookup (files : Files) l name : forall acc : Files,
  (forall x, x ∈ l -> files !! x.1 = Some x.2) ->
  insert_all l acc !! name = if decide (name ∈ l.*1) then files !! name else acc !! name.
Proof.
  unfold insert_all. induction l as [|x l IH]; intros acc Hl; [done|]. cbn [foldl].
  rewrite IH by (intros x' Hx'; apply Hl; by right).
  assert (Hfile : files !! x.1 = Some x.2) by (apply Hl; by left).
  destruct (decide (name = x.1)) as [->|Hne].
  - rewrite lookup_insert_eq, Hfile. rewrite (decide_True (P := _ ∈ (x :: l).*1)) by (cbn; by left). by case_decide.
  - rewrite lookup_insert_ne by done. apply decide_ext. cbn. rewrite elem_of_cons. naive_solver.
Qed.

Lemma insert_all_delete name l : (forall x, x ∈ l -> x.1 <> name) -> forall files : Files,
  delete name (insert_all l files) = insert_all l (delete name files).
Proof.
  unfold insert_all. induction l as [|x l IH]; intros Hl files; [done|]. cbn [foldl].
  rewrite IH by (intros x' Hx'; apply Hl; by right). f_equal. apply delete_insert_ne. intros Hx. apply (Hl x); [by left|done].
Qed.

Lemma file_name_not_lock k : file_name k <> LOCAL_DATA_STORE_LOCK_FILE.
Proof.
  intros Hk. destruct (decide (k = "")) as [->|Hne]; [done|].
  apply (f_equal listed_key) in Hk. by rewrite listed_file_name in Hk.
Qed.

(** A directory with these files, besides the lock file, and no directory below. *)
Definition holds (root : Path) (t : Tree) (files : Files) : Prop := forall rest,
  delete LOCAL_DATA_STORE_LOCK_FILE <$> t !! extend root rest = match rest with [] => Some files | _ => None end.

Lemma carries_holds old temp t root l :
  carries old temp t root -> old !! temp = Some (insert_all l {[LOCAL_DATA_STORE_LOCK_FILE := []]}) ->
  (forall x, x ∈ l -> exists k, x.1 = file_name k) ->
  (forall rest, rest <> [] -> old !! extend temp rest = None) -> holds root t (insert_all l ∅).
Proof.
  intros Hc Ht Hl Hn rest. rewrite Hc. destruct rest as [|x rest]; [|by rewrite Hn].
  rewrite extend_nil, Ht. apply (f_equal Some). rewrite insert_all_delete; [done|].
  intros x Hx. destruct (Hl x Hx) as [k ->]. apply file_name_not_lock.
Qed.

(** ** Archives *)

Section archives.
Context `{SerdeJson, StoreCrypto, Faults, ZipCrate, ManifestCodec}.

(** The bytes of a member within the bound. *)
Definition bounded_member (maximum : N) (member : option (N * Result string Bytes)) : option Bytes :=
  match member with
  | Some (size, Ok b) => if (size <=? maximum)%N then Some (take_bytes maximum b) else None
  | _ => None
  end.

Definition member_content (a : Archive) (e : BackupRecordIndexEntry) : option Bytes :=
  bounded_member MAX_BACKUP_MEMBER_BYTES (by_name a (member_path e)).

(** What every reader of an archive checks. *)
Record sound_archive (a : Archive) (m : BackupManifest) : Prop := {
  manifest_read : exists b, bounded_member MAX_BACKUP_MANIFEST_BYTES (by_name a BACKUP_MANIFEST_MEMBER) = Some b
                            /\ parse_manifest b = Some m;
  header_checked : check_manifest_header m = Ok tt;
  members_checked : Forall (fun e => exists b, member_content a e = Some b /\ member_path_ok (member_path e) = true
                                               /\ check_member e b = Ok tt) (records_index m);
  digest_checked : archive_content_digest_from_members
      (sort_members ((fun e => (member_path e, default [] (member_content a e))) <$> records_index m)) = archive_content_digest m;
  count_checked : manifest_count m = N.of_nat (length (records_index m)) }.

Lemma bounded_ok member maximum s s' b : read_zip_member_bounded member maximum s = (s', Ok b) ->
  bounded_member maximum (Some member) = Some b.
Proof.
  unfold read_zip_member_bounded. intros Hr. eff_inv. subst.
  destruct member as [size [content|cause]]; cbn in *; [|done].
  destruct (size <=? maximum)%N; [|done]. unfold mret, Eff_ret in *. by simplify_eq.
Qed.

Lemma open_zip_ok p f g s s' a : open_zip p f g s = (s', Ok a) ->
  exists b, file_at (tree (machine s)) p = Some b /\ zip_open b = Ok a.
Proof.
  unfold open_zip. intros Hr. eff_inv. subst.
  match goal with F : eff_map_err _ _ _ = _ |- _ => apply eff_map_err_ok, sys_read_ok in F end.
  eexists. split; [done|]. symmetry in Hr. by apply map_err_ok in Hr.
Qed.

Lemma verify_member_ok a e s s' x : verify_member a e s = (s', Ok x) ->
  exists b, x = (member_path e, b) /\ member_content a e = Some b /\ member_path_ok (member_path e) = true /\ check_member e b = Ok tt.
Proof.
  unfold verify_member. intros Hr. eff_inv. subst. unfold mret, Eff_ret in Hr. injection Hr as <- <-.
  match goal with F : eff_map_err _ _ _ = _ |- _ => apply eff_map_err_ok, bounded_ok in F; rename F into Hb end.
  destruct (by_name a (member_path e)) as [member|] eqn:Hm; cbn in *; [|done]. simplify_eq.
  eexists. split; [done|]. unfold member_content. rewrite Hm. split; [done|].
  destruct (member_path_ok (member_path e)); [|done]. split; [done|].
  match goal with F : Ok ?u = check_member e _ |- _ => destruct u; done end.
Qed.

Lemma read_header_ok a s s' m : read_and_validate_manifest_header a s = (s', Ok m) ->
  (exists b, bounded_member MAX_BACKUP_MANIFEST_BYTES (by_name a BACKUP_MANIFEST_MEMBER) = Some b /\ parse_manifest b = Some m)
  /\ check_manifest_header m = Ok tt.
Proof.
  unfold read_and_validate_manifest_header. intros Hr. eff_inv. subst. unfold mret, Eff_ret in Hr. injection Hr as <- <-.
  match goal with F : eff_map_err _ _ _ = _ |- _ => apply eff_map_err_ok, bounded_ok in F; rename F into Hm end.
  destruct (by_name a BACKUP_MANIFEST_MEMBER) as [mm|]; cbn [ok_or] in *; [|done]. simplify_eq.
  match goal with F : Ok ?m0 = ok_or (parse_manifest _) _ |- _ => symmetry in F; apply ok_or_ok_inv in F end.
  match goal with F : Ok ?u = check_manifest_header _ |- _ => destruct u; symmetry in F end. eauto.
Qed.

Lemma verify_payloads_ok a m s s' u : verify_manifest_member_payloads a m s = (s', Ok u) ->
  Forall (fun e => exists b, member_content a e = Some b /\ member_path_ok (member_path e) = true
                             /\ check_member e b = Ok tt) (records_index m)
  /\ archive_content_digest_from_members
      (sort_members ((fun e => (member_path e, default [] (member_content a e))) <$> records_index m)) = archive_content_digest m
  /\ manifest_count m = N.of_nat (length (records_index m)).
Proof.
  unfold verify_manifest_member_payloads. intros Hr. eff_inv. subst.
  symmetry in Hr. apply ensure_ok_inv, N.eqb_eq in Hr.
  match goal with F : _ = ensure _ _ |- _ => symmetry in F; apply ensure_ok_inv, bool_decide_eq_true in F; rename F into Hd end.
  match goal with F : collect _ _ _ = (_, Ok ?l) |- _ => rename F into Hc; rename l into members end.
  eapply (collect_ok _ _ (spares (fun _ => True)) s) in Hc; [| |intros; by eapply verify_member_ok|done]; [|eauto with leaves].
  assert (Hmem : members = (fun e => (member_path e, default [] (member_content a e))) <$> records_index m).
  { clear -Hc. induction Hc as [|e x l l' (b & -> & Hb & _) _ IH]; [done|]. cbn. by rewrite Hb, IH. }
  rewrite <- Hmem. split; [|done]. clear -Hc. induction Hc as [|e x l l' (b & -> & Hb) _ IH]; constructor; [eauto|done].
Qed.

Lemma verify_backup_archive_ok p s s' m : verify_backup_archive p s = (s', Ok m) ->
  exists b a, file_at (tree (machine s)) p = Some b /\ zip_open b = Ok a /\ sound_archive a m.
Proof.
  unfold verify_backup_archive. intros Hr. eff_inv. unfold mret, Eff_ret in Hr. injection Hr as <- <-.
  match goal with F : open_backup_zip p s = (_, Ok ?a0) |- _ => apply open_zip_ok in F as (b & Hb & Ha); rename a0 into a end.
  exists b, a. split; [done|]. split; [done|].
  match goal with F : read_and_validate_manifest_header a _ = _ |- _ => apply read_header_ok in F as [? ?] end.
  match goal with F : verify_manifest_member_payloads a _ _ = _ |- _ => apply verify_payloads_ok in F as (? & ? & ?) end.
  by split.
Qed.

(** The same archive has one manifest. *)
Lemma sound_archive_det a m m' : sound_archive a m -> sound_archive a m' -> m = m'.
Proof. intros [(b & Hb & Hm) _ _ _ _] [(b' & Hb' & Hm') _ _ _ _]. congruence. Qed.

(** *** Unpacking *)

(** The files an archive's index describes; of two entries with a key the later counts. *)
Definition member_file (a : Archive) (e : BackupRecordIndexEntry) : string * Bytes :=
  (file_name (entry_key e), default [] (member_content a e)).

Definition fill (a : Archive) (entries : list BackupRecordIndexEntry) (files : Files) : Files :=
  insert_all (member_file a <$> entries) files.

Lemma sys_write_ok p b s s' u : sys (fs_write p b) s = (s', Ok u) ->
  exists dir name, parent p = Some dir /\ file_name_of p = Some name /\ s' = at_tree (put_file dir name b (tree (machine s))) s.
Proof.
  intros Hr%sys_call. inversion Hr as [| |t u' _ Hw]; subst.
  apply with_file_inv in Hw as (dir & name & files & Hp & Hn & _ & Hw). injection Hw as <- _. eauto.
Qed.

Lemma sys_create_ok p s s' u : sys (fs_create p) s = (s', Ok u) ->
  exists dir name, parent p = Some dir /\ file_name_of p = Some name /\ s' = at_tree (put_file dir name [] (tree (machine s))) s.
Proof.
  intros Hr%sys_call. inversion Hr as [| |t u' _ Hw]; subst.
  apply with_file_inv in Hw as (dir & name & files & Hp & Hn & _ & Hw). injection Hw as <- _. eauto.
Qed.

Lemma extract_member_ok a root e s s' u : extract_member a root e s = (s', Ok u) ->
  validate_key (entry_key e) = Ok tt
  /\ tree (machine s') = put_file root (file_name (entry_key e)) (default [] (member_content a e)) (tree (machine s)).
Proof.
  unfold extract_member, sys_io. intros Hr. eff_inv. subst. apply eff_map_err_ok, sys_write_ok in Hr as (dir & name & Hd & Hn & ->).
  rewrite parent_join in Hd. rewrite file_name_join in Hn by apply file_name_not_dots. injection Hd as <-. injection Hn as <-.
  match goal with F : eff_map_err _ (read_zip_member_bounded _ _) ?s1 = _ |- _ =>
    pose proof (leaves_run _ _ _ _ _ (leaves_map_err _ _ (leaves_bounded (fun _ => True) _ _)) F) as Hs;
    apply eff_map_err_ok, bounded_ok in F; rename F into Hb end.
  split; [by destruct (validate_key (entry_key e)) as [[]|]|].
  cbn. rewrite (spares_all _ _ Hs). unfold member_content.
  destruct (by_name a (member_path e)); cbn [ok_or] in *; [|done]. simplify_eq. by rewrite Hb.
Qed.

Lemma extract_all_ok a root entries : forall s s' u files, each (extract_member a root) entries s = (s', Ok u) ->
  tree (machine s) !! root = Some files ->
  Forall (fun e => validate_key (entry_key e) = Ok tt) entries
  /\ tree (machine s') !! root = Some (fill a entries files)
  /\ forall q, q <> root -> tree (machine s') !! q = tree (machine s) !! q.
Proof.
  induction entries as [|e entries IH]; cbn; intros s s' u files Hr Hf.
  - injection Hr as <- _. done.
  - eff_inv. match goal with F : extract_member _ _ _ _ = _ |- _ => apply extract_member_ok in F as [Hk Ht] end.
    eapply IH in Hr as (Hks & Hroot & Hq); [|rewrite Ht; by apply put_file_same].
    split; [by constructor|]. split; [done|]. intros q Hne. rewrite Hq, Ht by done. by apply put_file_other.
Qed.

(** *** Staging *)

Lemma leaves_write (D : Path -> Prop) p b : (forall dir, parent p = Some dir -> ~ D dir) -> leaves (spares D) (sys (fs_write p b)).
Proof.
  intros HD. apply leaves_call.
  - intros n t q Hq. unfold partial_write. destruct (leftover n); [|done]. destruct (parent p) as [dir|]; [|done].
    destruct (file_name_of p); [|done]. apply put_file_other. intros ->. by apply (HD dir).
  - intros t t' u q (dir & name & files & Hp & _ & _ & Hr)%with_file_inv Hq. injection Hr as <- _.
    apply put_file_other. intros ->. by apply (HD dir).
Qed.

Lemma leaves_create (D : Path -> Prop) p : (forall dir, parent p = Some dir -> ~ D dir) -> leaves (spares D) (sys (fs_create p)).
Proof.
  intros HD. apply leaves_call; [done|].
  intros t t' u q (dir & name & files & Hp & _ & _ & Hr)%with_file_inv Hq. injection Hr as <- _.
  apply put_file_other. intros ->. by apply (HD dir).
Qed.

Lemma leaves_create_dir_all (D : Path -> Prop) p : (forall q, D q -> below q p = None) -> leaves (spares D) (sys (fs_create_dir_all p)).
Proof.
  intros HD. apply leaves_call; [intros n t q Hq; by apply partial_create_other, HD|]. intros t t' u q Hr Hq.
  destruct (unobstructed _ _); cbn in Hr; [|done]. injection Hr as <- _. apply make_dirs_other. by apply HD.
Qed.

Lemma inside_apart a b : apart a b -> ~ inside a b.
Proof. intros [Hab _] [rest ->]. by rewrite below_extend in Hab. Qed.

Lemma leaves_materialize root archive temp : apart root temp ->
  leaves (spares (inside root)) (materialize_archive_to_root archive temp).
Proof.
  intros Hrt. unfold materialize_archive_to_root, extract_member, sys_io.
  assert (Hin : forall name dir, parent (join temp name) = Some dir -> ~ inside root dir).
  { intros name dir Hd. rewrite parent_join in Hd. injection Hd as <-. by apply inside_apart. }
  repeat (apply leaves_bind; [|intros]); eauto using leaves_verify_archive, leaves_open_zip with leaves.
  - apply leaves_map_err, leaves_create. apply Hin.
  - apply leaves_each. intros e. repeat (apply leaves_bind; [|intros]); eauto with leaves.
    apply leaves_map_err, leaves_write. apply Hin.
Qed.

Lemma leaves_verify_root D root : leaves (spares D) (verify_store_root_envelopes root).
Proof. unfold verify_store_root_envelopes, sys_io. eauto 10 with leaves. Qed.

Lemma leaves_stage root archive temp aside : apart root temp -> apart root aside ->
  leaves (spares (inside root)) (stage_restore archive temp aside).
Proof.
  intros Hrt Hra. unfold stage_restore, sys_io.
  apply leaves_bind; [apply leaves_ignore, leaves_remove_dir_all; intros q [rest ->]; apply apart_below; by apply apart_sym|intros _].
  apply leaves_bind; [apply leaves_ignore, leaves_remove_dir_all; intros q [rest ->]; apply apart_below; by apply apart_sym|intros _].
  apply leaves_bind; [apply leaves_map_err, leaves_create_dir_all; intros q [rest ->]; by apply apart_above|intros _].
  apply leaves_bind; [by apply leaves_materialize|intros _]. apply leaves_verify_root.
Qed.

(** No file appears. *)
Definition shrinks (s s' : LocalFileDataStoreMaintenance) : Prop :=
  forall p b, file_at (tree (machine s')) p = Some b -> file_at (tree (machine s)) p = Some b.

Lemma shrinks_dirs s s' :
  (forall dir name, files_of dir (tree (machine s')) !! name = None
                    \/ files_of dir (tree (machine s')) !! name = files_of dir (tree (machine s)) !! name) -> shrinks s s'.
Proof.
  unfold shrinks, file_at, files_of. intros Hd p b. destruct (parent p) as [dir|]; cbn; [|done].
  destruct (file_name_of p) as [name|]; cbn; [|done]. specialize (Hd dir name).
  destruct (tree (machine s') !! dir) as [f'|]; cbn in *; [|done]. intros Hb.
  destruct Hd as [Hd|Hd]; [congruence|]. rewrite Hb in Hd.
  destruct (tree (machine s) !! dir) as [f|]; cbn in *; [by symmetry|]. by rewrite lookup_empty in Hd.
Qed.

Lemma remove_dir_all_shrinks p s s' r : sys (fs_remove_dir_all p) s = (s', r) -> shrinks s s'.
Proof.
  intros Hr%sys_call. destruct Hr as [reason _|e _ _|t u _ Hr]; [|by intros q b|]; apply shrinks_dirs; intros dir name; cbn.
  - unfold partial_remove, files_of. rewrite map_lookup_imap. destruct (tree (machine s) !! dir) as [files|] eqn:Hf; cbn; [|by right].
    destruct (below p dir); [|by right]. destruct (remains _ dir); cbn; [|by left].
    destruct (filter _ files !! name) eqn:Hn; [|by left]. right. apply map_lookup_filter_Some in Hn as [-> _]. done.
  - destruct (tree (machine s) !! p); cbn in Hr; [|done]. injection Hr as <- _. unfold files_of.
    destruct (below p dir) as [rest|] eqn:Hb.
    + apply below_iff in Hb as ->. rewrite remove_tree_below. by left.
    + rewrite remove_tree_other by done. by right.
Qed.

Lemma create_dir_all_shrinks p s s' u : sys (fs_create_dir_all p) s = (s', Ok u) -> shrinks s s'.
Proof.
  intros Hr%sys_call. inversion Hr as [| |t u' _ Hd]; subst. destruct (unobstructed _ _); cbn in Hd; [|done]. injection Hd as <- _.
  apply shrinks_dirs. intros dir name. cbn [tree machine at_tree set_machine]. unfold files_of.
  destruct (tree (machine s) !! dir) as [files|] eqn:Hf; [rewrite (make_dirs_present _ _ _ _ Hf); by right|].
  destruct (make_dirs_absent p (tree (machine s)) dir Hf) as [-> | ->]; by left.
Qed.

Lemma remove_dir_all_absent a p s s' r : sys (fs_remove_dir_all p) s = (s', r) ->
  absent a (tree (machine s)) -> absent a (tree (machine s')).
Proof.
  intros Hr%sys_call Ha rest. specialize (Ha rest). destruct Hr as [reason _|e _ _|t u _ Hr]; cbn; [|done|].
  - by apply partial_remove_absent.
  - destruct (tree (machine s) !! p); cbn in Hr; [|done]. injection Hr as <- _.
    apply map_lookup_filter_None. by left.
Qed.

Lemma create_dir_all_new p s s' u : sys (fs_create_dir_all p) s = (s', Ok u) -> absent p (tree (machine s)) ->
  tree (machine s') !! p = Some ∅ /\ forall rest, rest <> [] -> tree (machine s') !! extend p rest = None.
Proof.
  intros Hr%sys_call Ha. inversion Hr as [| |t u' _ Hd]; subst. destruct (unobstructed _ _); cbn in Hd; [|done]. injection Hd as <- _.
  cbn. split; [apply make_dirs_target; specialize (Ha []); by rewrite extend_nil in Ha|].
  intros rest Hrest. rewrite make_dirs_other; [apply Ha|].
  destruct (below (extend p rest) p) as [r|] eqn:Hb; [|done]. apply below_iff in Hb.
  assert (Hp : extend p (rest ++ r) = p) by (rewrite Hb at 2; unfold extend; cbn; by rewrite app_assoc).
  apply extend_root in Hp. by destruct rest.
Qed.

Lemma materialize_ok archive temp s s' u : materialize_archive_to_root archive temp s = (s', Ok u) ->
  tree (machine s) !! temp = Some ∅ ->
  exists b a m, file_at (tree (machine s)) archive = Some b /\ zip_open b = Ok a /\ sound_archive a m
    /\ Forall (fun e => validate_key (entry_key e) = Ok tt) (records_index m)
    /\ tree (machine s') !! temp = Some (fill a (records_index m) {[LOCAL_DATA_STORE_LOCK_FILE := []]})
    /\ forall q, q <> temp -> tree (machine s') !! q = tree (machine s) !! q.
Proof.
  unfold materialize_archive_to_root. intros Hr Htemp. eff_inv.
  match goal with F : verify_backup_archive archive s = (?st, Ok ?m0) |- _ => rename F into Hv; rename m0 into m; rename st into s1 end.
  pose proof (spares_all _ _ (leaves_run _ _ _ _ _ (leaves_verify_archive _ _) Hv)) as Ht1.
  apply verify_backup_archive_ok in Hv as (b & a & Hb & Ha & Hsound).
  match goal with F : open_restore_zip archive s1 = (?st, Ok ?a0) |- _ => rename F into Ho; rename a0 into a'; rename st into s2 end.
  pose proof (spares_all _ _ (leaves_run _ _ _ _ _ (leaves_open_zip _ _ _ _) Ho)) as Ht2.
  apply open_zip_ok in Ho as (b' & Hb' & Ha'). rewrite Ht1, Hb in Hb'. injection Hb' as <-. rewrite Ha in Ha'. injection Ha' as <-.
  match goal with F : sys_io _ (fs_create _) s2 = _ |- _ => apply eff_map_err_ok, sys_create_ok in F as (dir & name & Hd & Hn & ->) end.
  unfold lock_path in Hd, Hn. rewrite parent_join in Hd. rewrite file_name_join in Hn by done. injection Hd as <-. injection Hn as <-.
  rewrite <- Ht1, <- Ht2 in Htemp.
  eapply extract_all_ok in Hr as (Hkeys & Hfill & Hother); [|cbn; by apply put_file_same].
  exists b, a, m. do 4 (split; [done|]). split; [done|].
  intros q Hq. rewrite (Hother q Hq). cbn. rewrite put_file_other, Ht2, Ht1; done.
Qed.

Lemma stage_ok archive temp aside s s' u : stage_restore archive temp aside s = (s', Ok u) ->
  absent temp (tree (machine s)) ->
  exists b a m, file_at (tree (machine s)) archive = Some b /\ zip_open b = Ok a /\ sound_archive a m
    /\ Forall (fun e => validate_key (entry_key e) = Ok tt) (records_index m)
    /\ tree (machine s') !! temp = Some (fill a (records_index m) {[LOCAL_DATA_STORE_LOCK_FILE := []]})
    /\ forall rest, rest <> [] -> tree (machine s') !! extend temp rest = None.
Proof.
  unfold stage_restore, ignore, sys_io. intros Hr Habs. unfold mbind at 1, Eff_bind at 1 in Hr.
  destruct (sys (fs_remove_dir_all temp) s) as [s1 r1] eqn:Hc1. cbn [fst] in Hr.
  unfold mbind at 1, Eff_bind at 1 in Hr. destruct (sys (fs_remove_dir_all aside) s1) as [s2 r2] eqn:Hc2. cbn [fst] in Hr.
  pose proof (remove_dir_all_absent _ _ _ _ _ Hc2 (remove_dir_all_absent _ _ _ _ _ Hc1 Habs)) as Ha2.
  apply remove_dir_all_shrinks in Hc1, Hc2. eff_inv.
  match goal with F : eff_map_err _ _ s2 = (?st, Ok _) |- _ => apply eff_map_err_ok in F; rename F into Hc3; rename st into s3 end.
  pose proof (create_dir_all_shrinks _ _ _ _ Hc3) as Hs3. apply create_dir_all_new in Hc3 as [Htemp Hrest]; [|done].
  match goal with F : materialize_archive_to_root _ _ _ = (?st, _) |- _ => rename F into Hc4; rename st into s4 end.
  apply materialize_ok in Hc4 as (b & a & m & Hb & Ha & Hsound & Hkeys & Hfill & Hother); [|done].
  pose proof (spares_all _ _ (leaves_run _ _ _ _ _ (leaves_verify_root _ _) Hr)) as ->.
  exists b, a, m. split; [by apply Hc1, Hc2, Hs3|]. do 4 (split; [done|]).
  intros rest Hne. rewrite Hother; [by apply Hrest|]. intros Hp%extend_root. done.
Qed.

(** The files of an archive, by name. *)
Definition archive_files (a : Archive) (m : BackupManifest) : Files := fill a (records_index m) ∅.

Lemma parent_inv p dir : parent p = Some dir -> exists name, p = join dir name.
Proof.
  unfold parent, join, extend. destruct p as [abs l]. cbn. destruct l as [|x l]; [done|]. intros [= <-]. cbn [absolute components].
  exists (List.last (x :: l) ""). f_equal. by apply (@app_removelast_last _ (x :: l) "").
Qed.

Lemma parent_apart p dir name : parent p = Some dir -> p <> join dir name -> apart p (join dir name).
Proof. intros [x ->]%parent_inv Hne. apply apart_join. congruence. Qed.

Lemma work_roots_apart dir suffix : apart (temp_root_of dir suffix) (backup_root_of dir suffix).
Proof. by apply apart_join. Qed.

(** What a restore puts in place: the records of the verified archive. *)
Definition restored (archive : Path) (t : Tree) (root : Path) (t' : Tree) (m : BackupManifest) : Prop :=
  exists b a, file_at t archive = Some b /\ zip_open b = Ok a /\ sound_archive a m /\ holds root t' (archive_files a m).
End archives.

Section restoring.
Context `{SerdeJson, StoreCrypto, Faults, ZipCrate, Chrono, ManifestCodec}.

(** Both outcomes of a restore. *)
Lemma restore_cases archive at_time dir s s' r :
  parent (store_root s) = Some dir ->
  let temp := temp_root_of dir (restore_work_suffix s at_time) in
  let aside := backup_root_of dir (restore_work_suffix s at_time) in
  store_root s <> temp -> store_root s <> aside -> absent temp (tree (machine s)) ->
  restore archive at_time s = (s', r) ->
  match r with
  | Ok evidence => exists m, restored archive (tree (machine s)) (store_root s) (tree (machine s')) m
      /\ evidence = backup_evidence "restore_committed" at_time (N.of_nat (length (records_index m))) (archive_content_digest m)
      /\ lock_held s' = true
  | Err _ => carries (tree (machine s)) (store_root s) (tree (machine s')) (store_root s)
      \/ carries (tree (machine s)) (store_root s) (tree (machine s')) aside
         /\ (absent (store_root s) (tree (machine s'))
             \/ exists m, restored archive (tree (machine s)) (store_root s) (tree (machine s')) m)
  end.
Proof.
  intros Hdir temp aside Hne Hna Habs.
  pose proof (parent_apart _ _ _ Hdir Hne) as Hrt. fold temp in Hrt.
  pose proof (parent_apart _ _ _ Hdir Hna) as Hra. fold aside in Hra.
  pose proof (work_roots_apart dir (restore_work_suffix s at_time) : apart temp aside) as Hta.
  unfold restore. unfold mbind at 1, Eff_bind at 1, lift at 1.
  destruct (parse_as_of at_time) as [instant|e]; [|intros [= <- <-]; left; apply carries_refl].
  unfold mbind at 1, Eff_bind at 1. destruct (verify_backup_archive archive s) as [s1 r1] eqn:Hv.
  pose proof (leaves_run _ _ _ _ _ (leaves_verify_archive (fun _ => True) _) Hv) as Hs1.
  pose proof (spares_all _ _ Hs1) as Ht1. destruct Hs1 as (Hroot1 & _ & _).
  destruct r1 as [m1|e]; [|intros [= <- <-]; left; rewrite Ht1; apply carries_refl].
  unfold mbind at 1, Eff_bind at 1, lift at 1, restore_parent. rewrite Hdir. cbn [ok_or]. fold temp aside.
  unfold mbind at 1, Eff_bind at 1. destruct (stage_restore archive temp aside s1) as [s2 r2] eqn:Hst.
  pose proof (leaves_run _ _ _ _ _ (leaves_stage _ _ _ _ Hrt Hra) Hst) as Hs2.
  pose proof (spares_inside _ _ _ Hs2) as Hkeep. rewrite Ht1 in Hkeep.
  destruct r2 as [u|e]; [|intros [= <- <-]; by left].
  apply stage_ok in Hst as (b & a & m & Hb & Ha & Hsound & Hkeys & Hfill & Hrest); [|by rewrite Ht1].
  apply verify_backup_archive_ok in Hv as (b1 & a1 & Hb1 & Ha1 & Hsound1).
  rewrite Ht1, Hb1 in Hb. injection Hb as <-. rewrite Ha1 in Ha. injection Ha as <-.
  pose proof (sound_archive_det _ _ _ Hsound1 Hsound) as ->.
  assert (Hput : forall t', carries (tree (machine s2)) temp t' (store_root s) -> restored archive (tree (machine s)) (store_root s) t' m).
  { intros t' Hc. exists b1, a1. do 3 (split; [done|]). eapply carries_holds; [done|done| |done].
    intros x (e & -> & _)%list_elem_of_fmap. by eexists. }
  unfold mbind, Eff_bind. destruct (swap_store_root temp aside s2) as [s3 r3] eqn:Hsw.
  assert (Hroot2 : store_root s2 = store_root s) by (by rewrite (proj1 Hs2)).
  apply swap_cases in Hsw; [|by rewrite Hroot2..|done]. rewrite Hroot2 in Hsw.
  destruct r3 as [u3|e].
  - destruct Hsw as [Hc Hl]. intros [= <- <-]. exists m. split; [by apply Hput|]. split; [|done].
    by rewrite (count_checked _ _ Hsound).
  - intros [= <- <-]. destruct Hsw as [Hc|[Hc Hc']]; [left; by eapply carries_trans|right].
    split; [by eapply carries_trans|]. destruct Hc' as [Hc'|Hc']; [by left|right; eauto].
Qed.
(** C15: a restore is all or nothing, whatever calls fail, when no restore directory is left
    over from an earlier attempt.  On success the store's directory
    holds exactly the records of the archive, every one of them checked against its digest,
    the report describes that archive and the lock is held again.  After an error the
    store's records are as they were, or they are complete in the directory they were moved
    to, while the store's directory is absent or holds the verified new records. *)
Theorem restore_all_or_nothing archive at_time dir s s' r :
  parent (store_root s) = Some dir ->
  let temp := temp_root_of dir (restore_work_suffix s at_time) in
  let aside := backup_root_of dir (restore_work_suffix s at_time) in
  store_root s <> temp -> store_root s <> aside -> absent temp (tree (machine s)) ->
  restore archive at_time s = (s', r) ->
  match r with
  | Ok evidence => exists m, restored archive (tree (machine s)) (store_root s) (tree (machine s')) m
      /\ evidence = backup_evidence "restore_committed" at_time (N.of_nat (length (records_index m))) (archive_content_digest m)
      /\ lock_held s' = true
  | Err _ => carries (tree (machine s)) (store_root s) (tree (machine s')) (store_root s)
      \/ carries (tree (machine s)) (store_root s) (tree (machine s')) aside
         /\ (absent (store_root s) (tree (machine s'))
             \/ exists m, restored archive (tree (machine s)) (store_root s) (tree (machine s')) m)
  end.
Proof. apply restore_cases. Qed.
End restoring.

(** ** Backup and restore *)

(** A member written is read back with its size. *)
Class ZipLaws `{ZipCrate} : Prop := {
  zip_read_back members b : zip_written members = Ok b ->
    exists a, zip_open b = Ok a /\ forall name content, (name, content) ∈ members ->
      by_name a name = Some (N.of_nat (length content), Ok content) }.

Class ManifestLaws `{ManifestCodec} : Prop := {
  manifest_read_back m : parse_manifest (manifest_bytes m) = Some m }.

(** The record files of a directory. *)
Definition records_of (files : Files) : Files := filter (fun e : string * Bytes => is_Some (listed_key e.1)) files.

Section backup.
Context `{SerdeJson, StoreCrypto, Faults, ZipCrate, Chrono, ManifestCodec}.

Lemma take_bytes_all maximum b : (N.of_nat (length b) <= maximum)%N -> take_bytes maximum b = b.
Proof. intros Hb. unfold take_bytes. by rewrite (proj2 (N.leb_le _ _) Hb). Qed.

Lemma bounded_exact maximum b c : bounded_member maximum (Some (N.of_nat (length b), Ok b)) = Some c -> c = b.
Proof.
  cbn. destruct (N.of_nat (length b) <=? maximum)%N eqn:Hb; [|done]. intros [= <-].
  apply N.leb_le in Hb. by apply take_bytes_all.
Qed.

Lemma put_file_at dir name b t p : parent p = Some dir -> file_name_of p = Some name -> is_Some (t !! dir) ->
  file_at (put_file dir name b t) p = Some b.
Proof.
  intros Hp Hn [files Hf]. unfold file_at. rewrite Hp, Hn. cbn. rewrite (put_file_same _ _ _ _ _ Hf). cbn.
  apply lookup_insert_eq.
Qed.

Lemma zip_step_ok p operation s s' u : zip_step p operation s = (s', Ok u) -> tree (machine s') = tree (machine s).
Proof. intros Hr%eff_map_err_ok%sys_call. by inversion Hr as [| |t v _ Hw]; subst; injection Hw as <- _. Qed.

Lemma sys_write_at p b s s' u : sys (fs_write p b) s = (s', Ok u) -> file_at (tree (machine s')) p = Some b.
Proof.
  intros Hr%sys_call. inversion Hr as [| |t u' _ Hw]; subst.
  apply with_file_inv in Hw as (dir & name & files & Hp & Hn & Hd & Hw). injection Hw as <- _. by apply put_file_at.
Qed.

Lemma write_zip_ok p manifest_text members s s' u : write_zip p manifest_text members s = (s', Ok u) ->
  exists b, zip_written ((BACKUP_MANIFEST_MEMBER, manifest_text) :: members) = Ok b /\ file_at (tree (machine s')) p = Some b.
Proof.
  unfold write_zip. intros Hr. eff_inv. subst. apply eff_map_err_ok, sys_write_at in Hr. eexists. split; [|done].
  match goal with F : Ok ?b = map_err _ _ |- _ => symmetry in F; by apply map_err_ok in F end.
Qed.

Lemma rename_file_ok a b s s' u : sys (fs_rename_file a b) s = (s', Ok u) ->
  file_at (tree (machine s')) b = file_at (tree (machine s)) a.
Proof.
  intros Hr%sys_call. inversion Hr as [| |t u' _ Hw]; subst.
  apply with_file_inv in Hw as (dir & name & files & Hp & Hn & Hd & Hw).
  destruct (files !! name) as [content|] eqn:Hc; cbn in Hw; [|done].
  apply with_file_inv in Hw as (dir' & name' & files' & Hp' & Hn' & Hd' & Hw). injection Hw as <- _. cbn.
  rewrite (put_file_at dir' name') by (done || (unfold drop_file; rewrite Hd; destruct (decide (dir = dir')) as [->|Hne];
    [by rewrite lookup_insert_eq|by rewrite lookup_insert_ne])).
  unfold file_at. rewrite Hp, Hn. cbn. rewrite Hd. cbn. by rewrite Hc.
Qed.

Lemma cleanup_ok {A} p (m : Maint MaintenanceError A) s s' a : cleanup_on_error p m s = (s', Ok a) -> m s = (s', Ok a).
Proof. unfold cleanup_on_error. destruct (m s) as [s1 [x|e]]; done. Qed.

(** What a backup collects for a key. *)
Definition collected (files : Files) (k : string) (x : string * (Bytes * BackupRecordIndexEntry)) : Prop :=
  exists b e, validate_key k = Ok tt /\ files !! file_name k = Some b /\ parse_envelope_bytes b = Ok e
    /\ x = (BACKUP_RECORDS_PREFIX +:+ file_name k, (b, index_entry k b e)).

Lemma leaves_backup_member D k : leaves (spares D) (backup_member k).
Proof. unfold backup_member. eauto 10 with leaves. Qed.

Lemma backup_member_ok k s s' x : backup_member k s = (s', Ok x) ->
  collected (files_of (store_root s) (tree (machine s))) k x.
Proof.
  unfold backup_member. intros Hr. eff_inv. subst. unfold mret, Eff_ret in Hr. injection Hr as _ <-.
  match goal with F : read_envelope_bytes _ _ = _ |- _ => apply read_envelope_bytes_ok in F as [? ?] end.
  unfold collected. eauto 10.
Qed.

Lemma listed_key_listed root t name k b : files_of root t !! name = Some b -> listed_key name = Some k -> k ∈ keys_of root t.
Proof.
  intros Hb Hk. unfold keys_of. rewrite stable_sort_perm. apply list_elem_of_omap. exists name. split; [|done].
  unfold entry_names. apply elem_of_app. left. apply list_elem_of_fmap. exists (name, b). split; [done|].
  by apply elem_of_map_to_list.
Qed.

Lemma valid_key_nonempty k : validate_key k = Ok tt -> k <> "".
Proof. unfold validate_key. intros Hk ->. done. Qed.

(** An archive whose index lists what was collected holds the directory's records. *)
Lemma collected_files a m root t found :
  Forall2 (collected (files_of root t)) (keys_of root t) found ->
  (records_index m) ≡ₚ ((fun x => x.2.2) <$> found) ->
  (forall x, x ∈ found -> member_content a x.2.2 = Some x.2.1) ->
  archive_files a m = records_of (files_of root t).
Proof.
  intros Hc Hperm Hcontent. apply map_eq. intros name. unfold archive_files.
  assert (Hall : forall x, x ∈ found -> exists k, k ∈ keys_of root t /\ collected (files_of root t) k x).
  { intros x Hx. apply list_elem_of_lookup in Hx as [i Hi].
    destruct (Forall2_lookup_r _ _ _ _ _ Hc Hi) as (k & Hk & Hx). exists k. split; [by eapply list_elem_of_lookup_2|done]. }
  unfold fill. rewrite (insert_all_lookup (files_of root t)).
  2:{ intros y Hy. apply list_elem_of_fmap in Hy as (e & -> & He). rewrite Hperm in He. apply list_elem_of_fmap in He as (x & -> & Hx).
      destruct (Hall x Hx) as (k & _ & b & e & _ & Hf & _ & ->). pose proof (Hcontent _ Hx) as Hm. cbn in Hm |- *. by rewrite Hm. }
  rewrite <- list_fmap_compose.
  unfold records_of. case_decide as Hin.
  - apply list_elem_of_fmap in Hin as (e & -> & He). rewrite Hperm in He. apply list_elem_of_fmap in He as (x & -> & Hx).
    destruct (Hall x Hx) as (k & _ & b & e & Hv & Hf & _ & ->). cbn. rewrite Hf. symmetry. apply map_lookup_filter_Some.
    split; [done|]. cbn. rewrite listed_file_name by (by apply valid_key_nonempty). done.
  - rewrite lookup_empty. symmetry. apply map_lookup_filter_None. right. intros b Hb [k Hk]. cbn in Hk. apply Hin.
    pose proof (listed_key_listed _ _ _ _ _ Hb Hk) as Hkey. apply list_elem_of_lookup in Hkey as [i Hi].
    destruct (Forall2_lookup_l _ _ _ _ _ Hc Hi) as (x & Hx & Hcol). apply list_elem_of_fmap. exists x.2.2. split.
    + destruct Hcol as (b' & e & _ & _ & _ & ->). cbn. by apply listed_key_inv in Hk as [-> _].
    + rewrite Hperm. apply list_elem_of_fmap. exists x. split; [done|by eapply list_elem_of_lookup_2].
Qed.

(** The archive written is read back as what was collected. *)
Lemma written_archive `{!ZipLaws} `{!ManifestLaws} m m' members zb a :
  zip_written ((BACKUP_MANIFEST_MEMBER, manifest_bytes m) :: ((fun x : string * (Bytes * BackupRecordIndexEntry) => (x.1, x.2.1)) <$> members)) = Ok zb ->
  zip_open zb = Ok a -> sound_archive a m' -> records_index m = (fun x => x.2.2) <$> members ->
  (forall x, x ∈ members -> member_path x.2.2 = x.1) ->
  m' = m /\ forall x, x ∈ members -> member_content a x.2.2 = Some x.2.1.
Proof.
  intros Hz Ha Hsound Hidx Hpath. apply zip_read_back in Hz as (a' & Ha' & Hread). rewrite Ha in Ha'. injection Ha' as <-.
  assert (Hm : m' = m).
  { destruct (manifest_read _ _ Hsound) as (b & Hb & Hp). rewrite (Hread _ (manifest_bytes m)) in Hb by left.
    apply bounded_exact in Hb as ->. rewrite manifest_read_back in Hp. by injection Hp. }
  split; [done|]. subst m'. intros x Hx. pose proof (members_checked _ _ Hsound) as Hall. rewrite Forall_forall in Hall.
  destruct (Hall x.2.2) as (c & Hc & _ & _); [rewrite Hidx; apply list_elem_of_fmap; eauto|].
  unfold member_content in Hc |- *. rewrite (Hpath _ Hx) in Hc |- *.
  rewrite (Hread x.1 x.2.1) in Hc |- * by (right; apply list_elem_of_fmap; exists x; by destruct x as [? []]).
  by rewrite Hc, (bounded_exact _ _ _ Hc).
Qed.

Lemma backup_ok `{!ZipLaws} `{!ManifestLaws} destination at_time s s' evidence :
  backup destination at_time s = (s', Ok evidence) ->
  exists b a m, file_at (tree (machine s')) destination = Some b /\ zip_open b = Ok a /\ sound_archive a m
    /\ archive_files a m = records_of (files_of (store_root s) (tree (machine s)))
    /\ evidence = backup_evidence "backup_created" at_time (N.of_nat (length (records_index m))) (archive_content_digest m).
Proof.
  unfold backup. intros Hr. eff_inv. unfold mret, Eff_ret in Hr. injection Hr as <- <-. subst.
  match goal with F : list_record_keys s = (?st, _) |- _ => rename F into Hlist; rename st into s1 end.
  pose proof (leaves_run _ _ _ _ _ (leaves_list (fun _ => True)) Hlist) as Hs1. apply list_record_keys_ok in Hlist as [-> _].
  match goal with F : collect backup_member _ s1 = (_, Ok ?l) |- _ => rename F into Hc; rename l into found end.
  eapply (collect_ok _ (collected (files_of (store_root s) (tree (machine s)))) (spares (fun _ => True)) s1) in Hc;
    [|by intros; apply leaves_backup_member| |done].
  2:{ intros s2 s3 k x Hs2 Hx%backup_member_ok. by rewrite (spares_all _ _ Hs2), (proj1 Hs2), (spares_all _ _ Hs1), (proj1 Hs1) in Hx. }
  match goal with F : write_zip _ _ _ _ = _ |- _ => apply write_zip_ok in F as (zb & Hzip & Hzb) end.
  match goal with F : cleanup_on_error _ (verify_backup_archive _) _ = _ |- _ => apply cleanup_ok in F; rename F into Hv end.
  pose proof (spares_all _ _ (leaves_run _ _ _ _ _ (leaves_verify_archive _ _) Hv)) as Hsame.
  apply verify_backup_archive_ok in Hv as (b & a & Hb & Ha & Hsound). rewrite Hb in Hzb. injection Hzb as ->.
  match goal with F : commit_backup_zip _ _ _ = _ |- _ => apply cleanup_ok, eff_map_err_ok, rename_file_ok in F; rename F into Hdest end.
  rewrite Hsame, Hb in Hdest.
  assert (Hperm : sort_members found ≡ₚ found) by apply stable_sort_perm.
  edestruct (written_archive _ _ _ _ _ Hzip Ha Hsound eq_refl) as [-> Hcontent].
  { intros x Hx. rewrite Hperm in Hx. apply list_elem_of_lookup in Hx as [i Hi].
      by destruct (Forall2_lookup_r _ _ _ _ _ Hc Hi) as (k & _ & b' & e & _ & _ & _ & ->). }
  eexists zb, a, _. split; [done|]. split; [done|]. split; [done|]. split.
  - eapply collected_files; [done|cbn; by rewrite Hperm|]. intros x Hx. apply Hcontent. by rewrite Hperm.
  - by rewrite <- (count_checked _ _ Hsound).
Qed.
End backup.

Section roundtrip.
Context `{SerdeJson, StoreCrypto, Faults, ZipCrate, !ZipLaws, Chrono, ManifestCodec, !ManifestLaws}.

(** C16: a store that was backed up is what a restore of the backup puts in place, byte for
    byte: after a backup of a store and a restore of that archive, to the same or to another
    store, at any later state in which the archive is still there and no restore directory is
    left over from an earlier attempt, the directory restored
    holds the record files of the directory backed up and no others; both reports name the
    same number of records and the same digest. *)
Theorem backup_restore_roundtrip destination at_time s s1 evidence at_time' dir s2 s3 evidence' :
  backup destination at_time s = (s1, Ok evidence) ->
  file_at (tree (machine s2)) destination = file_at (tree (machine s1)) destination ->
  parent (store_root s2) = Some dir ->
  store_root s2 <> temp_root_of dir (restore_work_suffix s2 at_time') ->
  store_root s2 <> backup_root_of dir (restore_work_suffix s2 at_time') ->
  absent (temp_root_of dir (restore_work_suffix s2 at_time')) (tree (machine s2)) ->
  restore destination at_time' s2 = (s3, Ok evidence') ->
  holds (store_root s2) (tree (machine s3)) (records_of (files_of (store_root s) (tree (machine s))))
  /\ record_count evidence' = record_count evidence /\ archive_digest evidence' = archive_digest evidence.
Proof.
  intros Hb Hfile Hdir Hne Hna Habs Hr.
  apply backup_ok in Hb as (b & a & m & Hb & Ha & Hsound & Hfiles & ->).
  eapply restore_cases in Hr as (m' & (b' & a' & Hb' & Ha' & Hsound' & Hholds) & -> & _); [|done..].
  rewrite Hfile, Hb in Hb'. injection Hb' as <-. rewrite Ha in Ha'. injection Ha' as <-.
  pose proof (sound_archive_det _ _ _ Hsound Hsound') as <-. rewrite <- Hfiles. done.
Qed.
End roundtrip.
