(* ===== verification/MigrationProps.v ===== *)
(** * Migration to the second envelope format

    A migration keeps every record readable: it ends with the migrated directory in place,
    with the old one in place, or with the old one complete beside the store. *)
From S2P Require Import Prelude Effect Json Contract Serde DataStore LocalStore LocalStoreProps FileTree Maintenance.
From S2P Require Import MaintenanceProps.
From Stdlib Require Import Ascii.

(** ** The exchange *)

Section commit.
Context `{Faults}.

(** Moving the new directory out and the old one back, when the lock cannot be taken. *)
Lemma undo_cases old candidate previous e s :
  apart (store_root s) candidate -> apart (store_root s) previous -> apart candidate previous ->
  carries old (store_root s) (tree (machine s)) previous -> carries old candidate (tree (machine s)) (store_root s) ->
  settled old (store_root s) candidate previous (tree (machine (undo_migration candidate previous e s).1)).
Proof.
  intros Hrc Hrp Hcp Hold Hnew. unfold undo_migration. unfold mbind at 1, Eff_bind at 1, ignore at 1.
  destruct (sys (fs_rename (store_root s) candidate) s) as [s1 r1] eqn:Hr. apply rename_cases in Hr as [Hs1 Hr]; [|done].
  assert (Hroot : store_root s1 = store_root s) by (by rewrite Hs1). cbn [fst].
  pose proof (put_back_cases previous (map_migration_commit_error e) s1) as Hback. rewrite Hroot in Hback.
  specialize (Hback Hrp). eapply settled_back; [| |exact Hback].
  - eapply carries_trans; [exact Hold|]. destruct r1 as [u|e1]; [|by rewrite Hr].
    destruct Hr as [_ ->]. by apply carries_unmoved.
  - destruct r1 as [u|e1]; [left|right; by rewrite Hr]. destruct Hr as [_ ->]. by apply absent_moved.
Qed.

Lemma commit_cases candidate previous s s' r :
  apart (store_root s) candidate -> apart (store_root s) previous -> apart candidate previous ->
  commit_migrated_store_root candidate previous s = (s', r) ->
  match r with
  | Ok _ => carries (tree (machine s)) candidate (tree (machine s')) (store_root s) /\ lock_held s' = true
  | Err _ => settled (tree (machine s)) (store_root s) candidate previous (tree (machine s'))
  end.
Proof.
  intros Hrc Hrp Hcp. unfold commit_migrated_store_root, unlock. unfold mbind at 1, Eff_bind at 1.
  set (s0 := set_lock false s). change (store_root s) with (store_root s0) in *.
  change (tree (machine s)) with (tree (machine s0)). generalize s0 Hrc Hrp Hcp. clear. intros s Hrc Hrp Hcp.
  unfold mbind at 1, Eff_bind at 1, move_live_aside_for_migration, or_else.
  destruct (sys (fs_rename (store_root s) previous) s) as [s1 r1] eqn:H1. apply rename_cases in H1 as [Hs1 H1]; [|done].
  assert (Hroot1 : store_root s1 = store_root s) by (by rewrite Hs1).
  destruct r1 as [u1|e1].
  2:{ unfold abort_migration_before_aside, mbind, Eff_bind, fail. unfold ignore at 1.
      destruct (reacquire_lock s1) as [s2 r2] eqn:H2. cbn [fst].
      pose proof (cleanup_aside (E := MigrationError) _ _ s2 Hrc) as [Hc _]. unfold ignore in *.
      intros [= <- <-]. left. eapply carries_trans; [|exact Hc]. rewrite <- H1, <- Hroot1.
      eapply reacquire_carries; [done|by left]. }
  destruct (moved_aside _ _ _ (tree (machine s)) Hrc Hrp Hcp) as (Hold & Hgone & Hnew).
  destruct H1 as [_ Ht1]. rewrite <- Ht1 in Hold, Hgone, Hnew.
  unfold mbind at 1, Eff_bind at 1, install_migrated_candidate, or_else. rewrite Hroot1.
  destruct (sys (fs_rename candidate (store_root s)) s1) as [s2 r2] eqn:H2.
  apply rename_cases in H2 as [Hs2 H2]; [|by apply apart_sym].
  assert (Hroot2 : store_root s2 = store_root s) by (by rewrite Hs2).
  destruct r2 as [u2|e2].
  - destruct H2 as [_ Ht2]. unfold mbind, Eff_bind, reacquire_migrated_lock, or_else. destruct (reacquire_lock s2) as [s3 r3] eqn:H3.
    rewrite <- Hroot1 in Ht2, Hrc, Hrp.
    destruct (lock_moved_in candidate previous s1 s2 s3 r3) as (Hroot3 & Hin & Haside & Hlock); [done..| |done|done|]; [by rewrite Hroot2|].
    rewrite Hroot1 in Hin, Hrp, Hrc, Hroot3. destruct r3 as [u3|e3].
    + pose proof (cleanup_aside (E := MigrationError) _ _ s3 Hrp) as [Hc Hl]. unfold ignore in *.
      intros [= <- <-]. split; [|by cbn in Hl; rewrite Hl; eapply Hlock].
      eapply carries_trans; [exact Hnew|]. by eapply carries_trans.
    + pose proof (undo_cases (tree (machine s)) candidate previous e3 s3) as Hundo. rewrite Hroot3 in Hundo.
      destruct (undo_migration candidate previous e3 s3) as [s4 r4] eqn:H4.
      assert (exists e, r4 = Err e) as [e4 ->].
      { unfold undo_migration, mbind, Eff_bind, ignore, fail in H4. injection H4 as _ <-. eauto. }
      intros [= <- <-]. apply Hundo; [done..| |]; by eapply carries_trans.
  - pose proof (put_back_cases previous (map_migration_commit_io e2) s2) as Hback.
    rewrite Hroot2 in Hback. specialize (Hback Hrp). rewrite H2 in Hback.
    unfold abort_migration_after_aside. rewrite Hroot2.
    destruct ((_ ← ignore _; _) s2) as [s3 r3] eqn:H3.
    assert (exists e, r3 = Err e) as [e3 ->].
    { unfold mbind, Eff_bind, ignore, fail in H3. injection H3 as _ <-. eauto. }
    intros [= <- <-]. eapply settled_back; [exact Hold|by left|exact Hback].
Qed.
End commit.

(** ** What a backup leaves alone *)

Section frames.
Context `{SerdeJson, StoreCrypto, Faults, ZipCrate, Chrono, ManifestCodec}.
Context (D : Path -> Prop).

Lemma leaves_remove_file p : (forall dir, parent p = Some dir -> ~ D dir) -> leaves (spares D) (sys (fs_remove_file p)).
Proof.
  intros HD. apply leaves_call; [done|]. intros t t' u q (dir & name & files & Hp & _ & _ & Hr)%with_file_inv Hq.
  destruct (files !! name); cbn in Hr; [|done]. injection Hr as <- _. apply drop_file_other. intros ->. by apply (HD dir).
Qed.

Lemma leaves_zip_step p operation : (forall dir, parent p = Some dir -> ~ D dir) -> leaves (spares D) (zip_step p operation).
Proof.
  intros HD. unfold zip_step, sys_io. apply leaves_map_err, leaves_call.
  - intros n t q Hq. unfold partial_write. destruct (leftover n); [|done]. destruct (parent p) as [dir|]; [|done].
    destruct (file_name_of p); [|done]. apply put_file_other. intros ->. by apply (HD dir).
  - intros t t' u q [= <- _]. done.
Qed.

Lemma leaves_rename_file a b : (forall dir, parent a = Some dir \/ parent b = Some dir -> ~ D dir) ->
  leaves (spares D) (sys (fs_rename_file a b)).
Proof.
  intros HD. apply leaves_call; [done|]. intros t t' u q (dir & name & files & Hp & _ & _ & Hr)%with_file_inv Hq.
  destruct (files !! name); cbn in Hr; [|done].
  apply with_file_inv in Hr as (dir' & name' & files' & Hp' & _ & _ & Hr). injection Hr as <- _.
  rewrite put_file_other, drop_file_other; [done| |].
  - intros ->. exact (HD _ (or_introl Hp) Hq).
  - intros ->. exact (HD _ (or_intror Hp') Hq).
Qed.

Lemma leaves_cleanup {A} p (m : Maint MaintenanceError A) : (forall dir, parent p = Some dir -> ~ D dir) ->
  leaves (spares D) m -> leaves (spares D) (cleanup_on_error p m).
Proof.
  intros HD Hm s. specialize (Hm s). unfold cleanup_on_error. destruct (m s) as [s1 [x|e]]; [done|]. cbn in Hm.
  etrans; [exact Hm|]. apply leaves_intro. apply leaves_bind; [apply leaves_ignore; by apply leaves_remove_file|eauto with leaves].
Qed.

Lemma leaves_write_zip p text members : (forall dir, parent p = Some dir -> ~ D dir) -> leaves (spares D) (write_zip p text members).
Proof.
  intros HD. unfold write_zip, sys_io.
  apply leaves_bind; [by apply leaves_map_err, leaves_create|intros _].
  apply leaves_bind; [by apply leaves_zip_step|intros _]. apply leaves_bind; [by apply leaves_zip_step|intros _].
  apply leaves_bind; [|intros _; apply leaves_bind; [eauto with leaves|intros b; by apply leaves_map_err, leaves_write]].
  apply leaves_each. intros x. apply leaves_bind; [by apply leaves_zip_step|intros _; by apply leaves_zip_step].
Qed.

Lemma parent_with_extension extension p dir : parent (with_extension extension p) = Some dir -> parent p = Some dir.
Proof.
  unfold with_extension. destruct (file_name_of p); [|done]. destruct (parent p) eqn:Hp; [by rewrite parent_join|by rewrite Hp].
Qed.

(** A backup writes only in the directory of its archive, and creates only its ancestors. *)
Lemma leaves_backup destination at_time :
  (forall dir, parent destination = Some dir -> ~ D dir /\ forall q, D q -> below q dir = None) ->
  leaves (spares D) (backup destination at_time).
Proof.
  intros HD. unfold backup.
  assert (Hdest : forall dir, parent destination = Some dir -> ~ D dir) by (intros dir Hd; by apply HD).
  assert (Htemp : forall dir, parent (with_extension "zip.tmp" destination) = Some dir -> ~ D dir).
  { intros dir Hd%parent_with_extension. by apply HD. }
  apply leaves_bind; [eauto with leaves|intros _]. apply leaves_bind; [eauto with leaves|intros keys].
  apply leaves_bind; [apply leaves_collect; intros k; apply leaves_backup_member|intros found].
  apply leaves_bind.
  { destruct (parent destination) as [dir|] eqn:Hd; [|eauto with leaves]. unfold sys_io.
    apply leaves_map_err, leaves_create_dir_all. by apply HD. }
  intros _. apply leaves_bind; [apply leaves_ignore; by apply leaves_remove_file|intros _].
  apply leaves_bind; [by apply leaves_write_zip|intros _].
  apply leaves_bind; [apply leaves_cleanup; [done|eauto with leaves]|intros m].
  apply leaves_bind; [|eauto with leaves]. unfold commit_backup_zip. apply leaves_cleanup; [done|].
  unfold sys_io. apply leaves_map_err, leaves_rename_file. intros dir [Hd|Hd]; auto.
Qed.
End frames.

Lemma leaves_backup_inside `{SerdeJson, StoreCrypto, Faults, ZipCrate, Chrono, ManifestCodec} root destination at_time :
  (forall dir, parent destination = Some dir -> ~ inside root dir) ->
  leaves (spares (inside root)) (backup destination at_time).
Proof.
  intros Hd. apply leaves_backup. intros dir Hp. split; [by apply Hd|]. intros q [rest ->].
  destruct (below (extend root rest) dir) as [r|] eqn:Hb; [|done]. apply below_iff in Hb. destruct (Hd dir Hp).
  exists (rest ++ r). rewrite Hb. unfold extend. cbn. by rewrite app_assoc.
Qed.

(** ** The migrated files *)

Section migration.
Context `{SerdeJson, StoreCrypto, Faults, ZipCrate, Chrono, ManifestCodec}.

(** The text of an envelope in the second format. *)
Definition upgrade (b : Bytes) : option Bytes :=
  match parse_envelope_bytes b with
  | Ok e => Some (to_vec (v2_envelope_value (v2_envelope e)))
  | Err _ => None
  end.

Definition migrated (files : Files) : Files := omap upgrade (records_of files).

(** What is written for a key. *)
Definition upgraded (files : Files) (k : string) (x : string * Bytes) : Prop :=
  exists b, validate_key k = Ok tt /\ files !! file_name k = Some b /\ x.1 = file_name k /\ upgrade b = Some x.2.

Lemma migrate_key_ok candidate k s s' u : migrate_key candidate k s = (s', Ok u) ->
  exists x, upgraded (files_of (store_root s) (tree (machine s))) k x /\ store_root s' = store_root s
    /\ tree (machine s') = put_file candidate x.1 x.2 (tree (machine s)).
Proof.
  unfold migrate_key. intros Hr. eff_inv. apply eff_map_err_ok, sys_write_ok in Hr as (dir & name & Hd & Hn & ->).
  rewrite parent_join in Hd. rewrite file_name_join in Hn by apply file_name_not_dots. injection Hd as <-. injection Hn as <-.
  match goal with F : eff_map_err _ (read_envelope k) s = (?st, Ok ?e0) |- _ =>
    apply eff_map_err_ok in F; rename F into He; rename e0 into e; rename st into s1 end.
  pose proof (leaves_run _ _ _ _ _ (leaves_read_envelope (fun _ => True) _) He) as Hs.
  unfold read_envelope in He. eff_inv. subst.
  match goal with F : read_envelope_bytes _ _ = _ |- _ => apply read_envelope_bytes_ok in F as [Hk Hb] end.
  eexists (file_name k, _). split; [|split; [by rewrite <- (proj1 Hs)|cbn; by rewrite (spares_all _ _ Hs)]].
  eexists. split; [done|]. split; [done|]. split; [done|]. unfold upgrade. by rewrite <- He.
Qed.

Lemma migrate_all_ok candidate keys : forall s s' u files, each (migrate_key candidate) keys s = (s', Ok u) ->
  apart (store_root s) candidate -> tree (machine s) !! candidate = Some files ->
  exists news, Forall2 (upgraded (files_of (store_root s) (tree (machine s)))) keys news
    /\ tree (machine s') !! candidate = Some (insert_all news files)
    /\ forall q, q <> candidate -> tree (machine s') !! q = tree (machine s) !! q.
Proof.
  induction keys as [|k keys IH]; cbn; intros s s' u files Hr Hap Hf.
  - injection Hr as <- _. exists []. split; [constructor|done].
  - eff_inv. match goal with F : migrate_key _ _ _ = _ |- _ => apply migrate_key_ok in F as (x' & Hx & Hroot & Ht) end.
    eapply IH in Hr as (news & Hnews & Hfile & Hq); [|by rewrite Hroot|rewrite Ht; by apply put_file_same].
    exists (x' :: news). split; [constructor; [done|]|split; [done|]].
    + unfold files_of in Hnews. rewrite Hroot, Ht, put_file_other in Hnews; [done|].
      intros Hc. rewrite Hc in Hap. destruct Hap as [Hap _]. by rewrite below_refl in Hap.
    + intros q Hne. rewrite Hq, Ht by done. by apply put_file_other.
Qed.

(** The files written for all keys of a directory are its migrated records. *)
Lemma upgraded_files root t news :
  Forall2 (upgraded (files_of root t)) (keys_of root t) news -> insert_all news ∅ = migrated (files_of root t).
Proof.
  intros Hn. apply map_eq. intros name.
  assert (Hall : forall x, x ∈ news -> exists k, upgraded (files_of root t) k x).
  { intros x Hx. apply list_elem_of_lookup in Hx as [i Hi]. destruct (Forall2_lookup_r _ _ _ _ _ Hn Hi) as (k & _ & Hk). eauto. }
  rewrite (insert_all_lookup (migrated (files_of root t))).
  2:{ intros x Hx. destruct (Hall x Hx) as (k & b & Hv & Hf & -> & Hu). unfold migrated. rewrite lookup_omap.
      assert (records_of (files_of root t) !! file_name k = Some b) as ->; [|done].
      apply map_lookup_filter_Some. split; [done|]. cbn. by rewrite listed_file_name by (by apply valid_key_nonempty). }
  case_decide as Hin; [done|]. rewrite lookup_empty. symmetry. unfold migrated. rewrite lookup_omap.
  destruct (records_of (files_of root t) !! name) as [b|] eqn:Hb; [|done]. exfalso. apply Hin.
  apply map_lookup_filter_Some in Hb as [Hb [k Hk]]. cbn in Hk.
  pose proof (listed_key_listed _ _ _ _ _ Hb Hk) as Hkey. apply list_elem_of_lookup in Hkey as [i Hi].
  destruct (Forall2_lookup_l _ _ _ _ _ Hn Hi) as (x & Hx & b' & _ & _ & Hname & _).
  apply list_elem_of_fmap. exists x. split; [|by eapply list_elem_of_lookup_2].
  rewrite Hname. by apply listed_key_inv in Hk as [-> _].
Qed.

(** ** Staging the candidate *)

Lemma leaves_or_else {E F A} K `{!PreOrder K} (m : Maint E A) (k : E -> Maint F A) :
  leaves K m -> (forall e, leaves K (k e)) -> leaves K (or_else m k).
Proof.
  intros Hm Hk s. specialize (Hm s). unfold or_else. destruct (m s) as [s1 [a|e]]; [done|]. etrans; [exact Hm|apply Hk].
Qed.

Lemma leaves_stage_migration root candidate previous keys : apart root candidate -> apart root previous ->
  leaves (spares (inside root)) (stage_migration candidate previous keys).
Proof.
  intros Hrc Hrp. unfold stage_migration.
  assert (Hrm : forall p, apart root p -> leaves (spares (inside root)) (sys (fs_remove_dir_all p))).
  { intros p Hp. apply leaves_remove_dir_all. intros q [rest ->]. apply apart_below. by apply apart_sym. }
  assert (Hin : forall name dir, parent (join candidate name) = Some dir -> ~ inside root dir).
  { intros name dir Hd. rewrite parent_join in Hd. injection Hd as <-. by apply inside_apart. }
  apply leaves_bind; [by apply leaves_ignore, Hrm|intros _]. apply leaves_bind; [by apply leaves_ignore, Hrm|intros _].
  apply leaves_bind; [apply leaves_map_err, leaves_create_dir_all; intros q [rest ->]; by apply apart_above|intros _].
  apply leaves_bind; [apply leaves_map_err, leaves_create; apply Hin|intros _].
  apply leaves_or_else; [apply _| |].
  - unfold build_candidate, migrate_key. apply leaves_bind.
    + apply leaves_each. intros k. apply leaves_bind; [eauto with leaves|]. intros e. apply leaves_map_err, leaves_write, Hin.
    + intros _. apply leaves_map_err. unfold verify_v2_store_root, sys_io. eauto 10 with leaves.
  - intros e. unfold abandon_failed_candidate. apply leaves_bind; [by apply leaves_ignore, Hrm|eauto with leaves].
Qed.

Lemma stage_migration_ok candidate previous keys s s' u :
  stage_migration candidate previous keys s = (s', Ok u) ->
  apart (store_root s) candidate -> apart (store_root s) previous -> absent candidate (tree (machine s)) ->
  exists news, Forall2 (upgraded (files_of (store_root s) (tree (machine s)))) keys news
    /\ tree (machine s') !! candidate = Some (insert_all news {[LOCAL_DATA_STORE_LOCK_FILE := []]})
    /\ forall rest, rest <> [] -> tree (machine s') !! extend candidate rest = None.
Proof.
  intros Hr Hrc Hrp Habs.
  assert (Hrm : forall p s1 s2 r, apart (store_root s) p -> sys (fs_remove_dir_all p) s1 = (s2, r) -> spares (inside (store_root s)) s1 s2).
  { intros p s1 s2 r Hp. apply leaves_run, leaves_remove_dir_all. intros q [rest ->]. apply apart_below. by apply apart_sym. }
  unfold stage_migration, ignore in Hr. unfold mbind at 1, Eff_bind at 1 in Hr.
  destruct (sys (fs_remove_dir_all candidate) s) as [s1 r1] eqn:Hc1. cbn [fst] in Hr.
  unfold mbind at 1, Eff_bind at 1 in Hr. destruct (sys (fs_remove_dir_all previous) s1) as [s2 r2] eqn:Hc2. cbn [fst] in Hr.
  pose proof (remove_dir_all_absent _ _ _ _ _ Hc2 (remove_dir_all_absent _ _ _ _ _ Hc1 Habs)) as Ha2.
  apply Hrm in Hc1, Hc2; [|done..]. assert (Hs2 : spares (inside (store_root s)) s s2) by (by etrans). clear Hc1 Hc2. eff_inv.
  match goal with F : eff_map_err _ _ s2 = (?st, Ok _) |- _ => apply eff_map_err_ok in F; rename F into Hc3; rename st into s3 end.
  assert (Hs3 : spares (inside (store_root s)) s s3).
  { etrans; [exact Hs2|]. eapply leaves_run; [|exact Hc3]. apply leaves_create_dir_all. intros q [rest ->]. by apply apart_above. }
  apply create_dir_all_new in Hc3 as [Htemp Hrest]; [|done].
  match goal with F : eff_map_err _ _ s3 = (?st, Ok _) |- _ => apply eff_map_err_ok in F; rename F into Hc4; rename st into s4 end.
  apply sys_create_ok in Hc4 as (dir & name & Hd & Hn & Hs4).
  unfold lock_path in Hd, Hn. rewrite parent_join in Hd. rewrite file_name_join in Hn by done. injection Hd as <-. injection Hn as <-.
  unfold or_else in Hr. destruct (build_candidate candidate keys s4) as [s5 [u5|e5]] eqn:Hb; [|done]. injection Hr as <- _.
  unfold build_candidate in Hb. eff_inv. apply eff_map_err_ok in Hb.
  assert (Hv : forall root D, leaves (spares D) (verify_v2_store_root root)).
  { intros root D. unfold verify_v2_store_root, sys_io. eauto 10 with leaves. }
  rewrite (spares_all _ _ (leaves_run _ _ _ _ _ (Hv _ _) Hb)).
  assert (Hroot : store_root s4 = store_root s) by (rewrite Hs4; apply Hs3).
  assert (Hfiles : files_of (store_root s4) (tree (machine s4)) = files_of (store_root s) (tree (machine s))).
  { unfold files_of. rewrite Hroot, Hs4. cbn. rewrite put_file_other.
    - f_equal. apply Hs3. exists []. by rewrite extend_nil.
    - intros Hx. rewrite Hx in Hrc. destruct Hrc as [Hrc _]. by rewrite below_refl in Hrc. }
  match goal with F : each _ _ s4 = _ |- _ => eapply migrate_all_ok in F as (news & Hnews & Hfill & Hother) end;
    [|by rewrite Hroot|rewrite Hs4; cbn; by apply put_file_same].
  rewrite Hfiles in Hnews. exists news. split; [done|]. split; [done|].
  intros rest Hne. rewrite Hother; [|by intros ?%extend_root]. rewrite Hs4. cbn. rewrite put_file_other; [by apply Hrest|by intros ?%extend_root].
Qed.
End migration.

(** ** Reading before and after *)

Section reading_back.
Context `{SerdeLaws} `{StoreCrypto}.

Lemma envelope_of_format v e x : envelope_of v = Some e -> get "format" v = Some x -> get "format" v ≫= as_str = Some (format e).
Proof.
  unfold envelope_of. intros He Hx. destruct v as [| | | | |members]; try done. cbn [get] in *.
  unfold struct_fields in He. destruct (forallb _ _); [|done]. cbn [mbind option_bind fmap list_fmap] in He.
  unfold required in He. destruct (member "format" members ≫= as_str) as [f|]; [|done]. cbn [mbind option_bind] in He.
  clear Hx. by simplify_option_eq.
Qed.

Lemma parse_envelope_inv b e : parse_envelope_bytes b = Ok e ->
  exists v x, from_slice b = Ok v /\ get "format" v = Some x /\ envelope_of v = Some e /\ format e = LOCAL_DATA_STORE_FORMAT.
Proof.
  unfold parse_envelope_bytes. destruct (from_slice b) as [v|]; cbn [map_err mbind Result_bind]; [|done].
  destruct (get "format" v) as [x|] eqn:Hx; cbn [ensure mbind Result_bind]; [|done].
  destruct (envelope_of v) as [e'|] eqn:He; cbn [ok_or mbind Result_bind]; [|done]. intros Hr.
  apply ensure_then in Hr as [Hf%bool_decide_eq_true Hr]. exists v, x.
  assert (e' = e) as ->; [|done].
  destruct (envelope_record_key e'); cbn [mbind Result_bind] in Hr; [|done].
  destruct (expected_digest e' _); cbn [mbind Result_bind] in Hr; [|done].
  apply ensure_then in Hr as [_ Hr]. by injection Hr.
Qed.

(** A store reads the same from both texts, whatever its keys. *)
Lemma upgrade_reads st k b e : parse_envelope_bytes b = Ok e -> writable e ->
  exists b', upgrade b = Some b' /\ decode_file st k b' = decode_file st k b.
Proof.
  intros Hp Hw. unfold upgrade. rewrite Hp. eexists. split; [done|].
  apply parse_envelope_inv in Hp as (v & x & Hs & Hx & He & Hf).
  etrans; [exact (proj2 (decode_file_written st k true e Hw Hf))|].
  unfold decode_file, decode_document. rewrite Hs. cbn [map_err mbind Result_bind]. rewrite Hx. cbn [ensure mbind Result_bind].
  pose proof (envelope_of_format _ _ _ He Hx) as Hfmt. rewrite Hx in Hfmt. cbn [mbind option_bind] in Hfmt |- *. rewrite Hfmt, Hf.
  rewrite bool_decide_eq_true_2 by done. rewrite He. done.
Qed.
End reading_back.

(** The files of [new] are those of [old], and a store reads the same from each. *)
Definition same_records `{SerdeJson} `{StoreCrypto} (old new : Files) : Prop :=
  (forall name, is_Some (new !! name) <-> is_Some (old !! name))
  /\ forall st k b e, old !! file_name k = Some b -> parse_envelope_bytes b = Ok e -> writable e ->
       exists b', new !! file_name k = Some b' /\ decode_file st k b' = decode_file st k b.

Section migrating.
Context `{SerdeLaws} `{StoreCrypto, Faults, ZipCrate, Chrono, ManifestCodec}.

(** Every record of a directory whose migration was staged is migrated. *)
Lemma migrated_records files : (forall name b, records_of files !! name = Some b -> is_Some (upgrade b)) ->
  same_records (records_of files) (migrated files).
Proof.
  intros Hup. split.
  - intros name. unfold migrated. rewrite lookup_omap. destruct (records_of files !! name) as [b|] eqn:Hb; cbn; [|done].
    split; [done|]. intros _. by eapply Hup.
  - intros st k b e Hb Hp Hw. destruct (upgrade_reads st k b e Hp Hw) as (b' & Hb' & Hd). exists b'. split; [|done].
    unfold migrated. by rewrite lookup_omap, Hb.
Qed.

Lemma staged_records root t news : Forall2 (upgraded (files_of root t)) (keys_of root t) news ->
  same_records (records_of (files_of root t)) (insert_all news ∅).
Proof.
  intros Hn. rewrite (upgraded_files _ _ _ Hn). apply migrated_records. intros name b Hb.
  apply map_lookup_filter_Some in Hb as [Hb [k Hk]]. cbn in Hk.
  pose proof (listed_key_listed _ _ _ _ _ Hb Hk) as Hkey. apply list_elem_of_lookup in Hkey as [i Hi].
  destruct (Forall2_lookup_l _ _ _ _ _ Hn Hi) as (x & Hx & b' & _ & Hf & _ & Hu).
  apply listed_key_inv in Hk as [-> _]. rewrite Hb in Hf. injection Hf as <-. by eexists.
Qed.

(** The outcomes of staging and exchanging. *)
Lemma exchange_cases candidate previous old_root old keys s s' r :
  store_root s = old_root -> apart old_root candidate -> apart old_root previous -> apart candidate previous ->
  absent candidate (tree (machine s)) ->
  (forall rest, tree (machine s) !! extend old_root rest = old !! extend old_root rest) -> keys = keys_of old_root old ->
  (_ ← stage_migration candidate previous keys; commit_migrated_store_root candidate previous) s = (s', r) ->
  match r with
  | Ok _ => exists new, holds old_root (tree (machine s')) new /\ same_records (records_of (files_of old_root old)) new
      /\ lock_held s' = true
  | Err _ => carries old old_root (tree (machine s')) old_root
      \/ carries old old_root (tree (machine s')) previous
         /\ (absent old_root (tree (machine s'))
             \/ exists new, holds old_root (tree (machine s')) new /\ same_records (records_of (files_of old_root old)) new)
  end.
Proof.
  intros <- Hrc Hrp Hcp Habs Hsame ->. unfold mbind, Eff_bind.
  assert (Hfiles : files_of (store_root s) (tree (machine s)) = files_of (store_root s) old).
  { unfold files_of. specialize (Hsame []). rewrite extend_nil in Hsame. by rewrite Hsame. }
  destruct (stage_migration candidate previous _ s) as [s1 r1] eqn:Hst.
  pose proof (leaves_run _ _ _ _ _ (leaves_stage_migration _ _ _ _ Hrc Hrp) Hst) as Hs1.
  assert (Hkeep : carries old (store_root s) (tree (machine s1)) (store_root s)).
  { eapply carries_trans; [by apply carries_same|by apply spares_inside]. }
  destruct r1 as [u|e]; [|intros [= <- <-]; by left].
  apply stage_migration_ok in Hst as (news & Hnews & Hfill & Hrest); [|done..]. rewrite Hfiles in Hnews.
  assert (Hput : forall t', carries (tree (machine s1)) candidate t' (store_root s) ->
    exists new, holds (store_root s) t' new /\ same_records (records_of (files_of (store_root s) old)) new).
  { intros t' Hc. exists (insert_all news ∅). split; [|by apply staged_records]. eapply carries_holds; [done|done| |done].
    intros x Hx. apply list_elem_of_lookup in Hx as [i Hi].
    destruct (Forall2_lookup_r _ _ _ _ _ Hnews Hi) as (k & _ & b & _ & _ & -> & _). eauto. }
  intros Hcommit. apply commit_cases in Hcommit; [|by rewrite (proj1 Hs1)..|done]. rewrite (proj1 Hs1) in Hcommit.
  destruct r as [u'|e].
  - destruct Hcommit as [Hc Hl]. destruct (Hput _ Hc) as (new & Hh & Hsr). eauto.
  - destruct Hcommit as [Hc|[Hc Hc']]; [left; by eapply carries_trans|right].
    split; [by eapply carries_trans|]. destruct Hc' as [Hc'|Hc']; [by left|right; eauto].
Qed.

(** Before the exchange the store is only read, and the backup written. *)
Lemma migration_prepares destination at_time s s' r :
  (forall d, parent destination = Some d -> ~ inside (store_root s) d) ->
  migrate_v1_to_v2 destination at_time s = (s', r) ->
  (spares (inside (store_root s)) s s' /\ exists e, r = Err e)
  \/ exists s1 dir backup_digest,
       spares (inside (store_root s)) s s1
       /\ (forall p, (forall d, parent destination = Some d -> ~ inside p d) -> spares (inside p) s s1)
       /\ parent (store_root s) = Some dir
       /\ (_ ← stage_migration (candidate_root_of dir (restore_work_suffix s at_time))
                 (previous_root_of dir (restore_work_suffix s at_time)) (keys_of (store_root s) (tree (machine s)));
           _ ← commit_migrated_store_root (candidate_root_of dir (restore_work_suffix s at_time))
                 (previous_root_of dir (restore_work_suffix s at_time));
           mret (migration_report (keys_of (store_root s) (tree (machine s))) backup_digest)) s1 = (s', r).
Proof.
  intros Hdest. unfold migrate_v1_to_v2. unfold mbind at 1, Eff_bind at 1, lift at 1.
  destruct (parse_as_of at_time) as [instant|e]; cbn [map_err]; [|intros [= <- <-]; left; split; [done|eauto]].
  unfold mbind at 1, Eff_bind at 1, eff_map_err at 1.
  destruct (list_record_keys s) as [s1 r1] eqn:Hlist.
  pose proof (fun D => leaves_run _ _ _ _ _ (leaves_list D) Hlist) as Hs1.
  destruct r1 as [keys|e]; cbn [map_err]; [|intros [= <- <-]; left; split; [done|eauto]].
  apply list_record_keys_ok in Hlist as [-> _].
  unfold mbind at 1, Eff_bind at 1. destruct (each _ _ s1) as [s2 r2] eqn:Heach.
  assert (Hs2 : forall D, spares D s s2).
  { intros D. etrans; [apply Hs1|]. eapply leaves_run; [|exact Heach]. eauto 10 with leaves. }
  destruct r2 as [u2|e]; [|intros [= <- <-]; left; split; [done|eauto]].
  unfold mbind at 1, Eff_bind at 1, eff_map_err at 1. destruct (backup destination at_time s2) as [s3 r3] eqn:Hb.
  assert (Hs3 : forall p, (forall d, parent destination = Some d -> ~ inside p d) -> spares (inside p) s s3).
  { intros p Hp. etrans; [apply Hs2|]. eapply leaves_run; [|exact Hb]. by apply leaves_backup_inside. }
  destruct r3 as [evidence|e]; cbn [map_err]; [|intros [= <- <-]; left; split; [auto|eauto]].
  unfold mbind at 1, Eff_bind at 1, lift at 1. destruct (verified_backup_digest _) as [digest|e];
    [|intros [= <- <-]; left; split; [auto|eauto]].
  unfold mbind at 1, Eff_bind at 1, lift at 1, restore_parent. destruct (parent (store_root s)) as [dir|]; cbn [ok_or map_err];
    [|intros [= <- <-]; left; split; [auto|eauto]].
  intros Hr. right. exists s3, dir, digest. auto.
Qed.

(** C18: a migration to the second format loses no record, whatever calls fail.  On success
    the store's directory holds a file for every record and no other, from which a store
    reads what it read before, and the lock is held.  After an error the records are as they
    were, or they are complete in the directory they were moved to, while the store's
    directory is absent or holds the migrated records.  No candidate directory is left over
    from an earlier attempt, and the backup is written to a directory that is neither in the
    store nor in the candidate. *)
Theorem migration_preserves_records destination at_time dir s s' r :
  parent (store_root s) = Some dir ->
  let candidate := candidate_root_of dir (restore_work_suffix s at_time) in
  let previous := previous_root_of dir (restore_work_suffix s at_time) in
  store_root s <> candidate -> store_root s <> previous -> absent candidate (tree (machine s)) ->
  (forall d, parent destination = Some d -> ~ inside (store_root s) d /\ ~ inside candidate d) ->
  migrate_v1_to_v2 destination at_time s = (s', r) ->
  let old := records_of (files_of (store_root s) (tree (machine s))) in
  match r with
  | Ok report => exists new, holds (store_root s) (tree (machine s')) new /\ same_records old new
      /\ lock_held s' = true
      /\ report_count report = N.of_nat (length (keys_of (store_root s) (tree (machine s))))
  | Err _ => carries (tree (machine s)) (store_root s) (tree (machine s')) (store_root s)
      \/ carries (tree (machine s)) (store_root s) (tree (machine s')) previous
         /\ (absent (store_root s) (tree (machine s'))
             \/ exists new, holds (store_root s) (tree (machine s')) new /\ same_records old new)
  end.
Proof.
  intros Hdir candidate previous Hnc Hnp Habs Hdest Hr. cbn zeta.
  pose proof (parent_apart _ _ _ Hdir Hnc) as Hrc. fold candidate in Hrc.
  pose proof (parent_apart _ _ _ Hdir Hnp) as Hrp. fold previous in Hrp.
  assert (Hcp : apart candidate previous) by (by apply apart_join).
  apply migration_prepares in Hr as [[Hs [e ->]]|(s1 & dir' & digest & Hs & Hp & Hdir' & Hr)]; [by left; apply spares_inside| |].
  2:{ intros d Hd. by apply Hdest. }
  rewrite Hdir in Hdir'. injection Hdir' as <-. fold candidate previous in Hr.
  specialize (Hp candidate (fun d Hd => proj2 (Hdest d Hd))).
  set (keys := keys_of _ _) in *.
  assert (exists r0, (_ ← stage_migration candidate previous keys; commit_migrated_store_root candidate previous) s1 = (s', r0)
    /\ match r with Ok report => r0 = Ok tt /\ report = migration_report keys digest | Err e => r0 = Err e end) as (r0 & Hx & Hr0).
  { unfold mbind, Eff_bind in Hr |- *. destruct (stage_migration candidate previous keys s1) as [s2 [u2|e2]];
      [destruct (commit_migrated_store_root candidate previous s2) as [s3 [[]|e3]]|]; injection Hr as <- <-; eauto. }
  eapply exchange_cases in Hx; [|by apply Hs|exact Hrc|exact Hrp|exact Hcp| | |reflexivity].
  - destruct r as [report|e]; [destruct Hr0 as [-> ->]|by subst r0].
    destruct Hx as (new & Hh & Hsr & Hl). by exists new.
  - intros rest. rewrite <- (Habs rest). apply Hp. by exists rest.
  - intros rest. apply Hs. by exists rest.
Qed.
End migrating.
