(* ===== verification/HostedSync.v ===== *)
(** * Hosted synchronisation

    [traverse-runtime/src/data_store_hosted_sync.rs]: the transport port, its in-memory
    relay, the adapter over an edge of a provider with the in-memory edge, and the event
    envelope of an operation.  The text of an event is a parameter.  Both transports are
    compared with one log of operations. *)
From S2P Require Import Prelude Effect Json Events LocalStore LocalStoreProps.
From Stdlib Require Import Ascii.

Definition HOSTED_TRANSPORT_SPEC : string := "087-hosted-datastore-transport".
Definition SYNC_PROTOCOL_SPEC : string := "089-datastore-synchronization".
Definition MIN_REPLAY_WINDOW_MS : N := 120000.

(** ** Data *)

Record HostedSyncCredential := { token : string; scope : string; expires_at_ms : N }.

Record EncryptedSyncOperation := {
  operation_id : string;
  synchronization_set_id : string;
  operation_writer : string;
  operation_clock : N;
  operation_correlation : option string;
  operation_causation : option string;
  key_version_id : string;
  sealed : Bytes }.

#[export] Instance EncryptedSyncOperation_eq_dec : EqDecision EncryptedSyncOperation.
Proof. solve_decision. Defined.

Inductive HostedSyncDegradedReason := RelayUnavailable | ExpiredCredential | CredentialRefreshFailed.

Inductive HostedSyncConnectionState :=
  | Disconnected | Connected | Degraded (reason : HostedSyncDegradedReason) | Recovering.

Inductive HostedSyncErrorCode :=
  | UnauthorizedScope | CredentialExpired | CredentialMismatch | InvalidEnvelope | KeyMismatch | ProviderUnavailable
  | NotConnected | ResyncNeeded.

Record HostedSyncError := { hosted_code : HostedSyncErrorCode; hosted_message : string; hosted_details : Value }.

Inductive HostedSyncReplayResult :=
  | Delivered (operations : list EncryptedSyncOperation) (next : string)
  | ResyncRequired (oldest_available_cursor : option string).

Record HostedSyncPublishReceipt := { receipt_id : string; receipt_cursor : string }.

Record HostedSyncObservation := {
  observed_spec : string;
  observed_kind : string;
  observed_operation : option string;
  observed_key_version : option string;
  hashed_scope : option string;
  observed_state : option HostedSyncConnectionState;
  observed_outcome : option string;
  latency_ms : option N }.

Record HostedSyncLineageEvidence := {
  lineage_spec : string;
  protocol_spec : string;
  lineage_operation : string;
  lineage_set : string;
  lineage_writer : string;
  lineage_clock : N;
  lineage_correlation : option string;
  lineage_causation : option string;
  lineage_key_version : string;
  event_id : string;
  observed : bool }.

Record RetainedMessage := { message_cursor : string; retained_at_ms : N; message_payload : Bytes }.

Definition hosted_error (c : HostedSyncErrorCode) (m : string) (d : list (string * Value)) : HostedSyncError := {|
  hosted_code := c; hosted_message := m; hosted_details := obj d |}.

Definition not_connected : HostedSyncError := hosted_error NotConnected "hosted sync transport is not connected" [].
Definition relay_unavailable : HostedSyncError := hosted_error ProviderUnavailable "hosted relay unavailable" [].
Definition expired_credential : HostedSyncError := hosted_error CredentialExpired "scoped hosted-relay credential expired" [].

(** ** Hexadecimal text *)

Definition hex_nibble (c : ascii) : option N :=
  let n := N_of_ascii c in
  if ((48 <=? n) && (n <=? 57))%N then Some (n - 48)%N
  else if ((97 <=? n) && (n <=? 102))%N then Some (n - 97 + 10)%N
  else if ((65 <=? n) && (n <=? 70))%N then Some (n - 65 + 10)%N
  else None.

Fixpoint decode_pairs (digits : Bytes) : option Bytes :=
  match digits with
  | [] => Some []
  | [_] => None
  | high :: low :: rest =>
      h ← hex_nibble high; l ← hex_nibble low; bytes ← decode_pairs rest;
      Some (ascii_of_N (N.lor (N.shiftl h 4) l) :: bytes)
  end.

Section hosted.
Context `{StoreCrypto}.

Definition hex_digest (b : Bytes) : string := hex_encode (sha256 b).

(** [SyncScopeId::hashed] *)
Definition hashed (scope_id : string) : string := hex_digest (text scope_id).

Definition ably_channel_for_scope (scope_id : string) : string := "ably.sync." +:+ hex_digest (text scope_id).

(** ** The envelope of an operation *)

Definition wrap_ecca_event (o : EncryptedSyncOperation) : TraverseEvent := {|
  id := "evt-" +:+ operation_id o; source := "traverse-runtime/hosted-sync";
  event_type := "dev.traverse.datastore.sync.operation"; datacontenttype := "application/json";
  time := "1970-01-01T00:00:00Z";
  data := obj [("operation_id", Str (operation_id o)); ("synchronization_set_id", Str (synchronization_set_id o));
               ("writer_id", Str (operation_writer o)); ("lamport_clock", Num (PosInt (operation_clock o)));
               ("key_version_id", Str (key_version_id o)); ("ciphertext_sha256", Str (hex_digest (sealed o)));
               ("ciphertext", Str (hex_encode (sealed o)))];
  owner := "hosted-sync"; version := SYNC_PROTOCOL_SPEC; lifecycle_status := Active;
  deduplication_id := Some (operation_id o); ordering_scope := Some (synchronization_set_id o);
  correlation_id := operation_correlation o; causation_id := operation_causation o; subject_id := None;
  actor_id := Some (operation_writer o) |}.

Definition required_string (v : Value) (field : string) : Result HostedSyncError string :=
  ok_or (get field v ≫= as_str)
    (hosted_error InvalidEnvelope "ECCA sync envelope missing required field" [("field", Str field)]).

Definition operation_from_ecca_event (e : TraverseEvent) : Result HostedSyncError EncryptedSyncOperation :=
  ciphertext_hex ← ok_or (get "ciphertext" (data e) ≫= as_str)
    (hosted_error InvalidEnvelope "ECCA sync envelope missing ciphertext" []);
  bytes ← ok_or (decode_pairs (text ciphertext_hex))
    (hosted_error InvalidEnvelope "ECCA sync envelope ciphertext is not valid hex" []);
  oid ← required_string (data e) "operation_id";
  set_id ← required_string (data e) "synchronization_set_id";
  writer ← required_string (data e) "writer_id";
  clock ← ok_or (get "lamport_clock" (data e) ≫= as_u64)
    (hosted_error InvalidEnvelope "ECCA sync envelope missing lamport_clock" []);
  version_id ← required_string (data e) "key_version_id";
  Ok {| operation_id := oid; synchronization_set_id := set_id; operation_writer := writer; operation_clock := clock;
        operation_correlation := correlation_id e; operation_causation := causation_id e; key_version_id := version_id;
        sealed := bytes |}.

(** ** What both transports check *)

Definition validate_operation (accepted : gset string) (o : EncryptedSyncOperation) : Result HostedSyncError unit :=
  _ ← ensure (negb (bool_decide (operation_id o = "") || bool_decide (synchronization_set_id o = "")
                    || bool_decide (operation_writer o = "") || bool_decide (key_version_id o = "")
                    || bool_decide (sealed o = [])))
        (hosted_error InvalidEnvelope "encrypted sync operation envelope is incomplete" []);
  ensure (bool_decide (key_version_id o ∈ accepted))
    (hosted_error KeyMismatch "key-version is outside the accepted active/previous window"
       [("key_version_id", Str (key_version_id o))]).

Definition lineage_of (o : EncryptedSyncOperation) : HostedSyncLineageEvidence := {|
  lineage_spec := HOSTED_TRANSPORT_SPEC; protocol_spec := SYNC_PROTOCOL_SPEC; lineage_operation := operation_id o;
  lineage_set := synchronization_set_id o; lineage_writer := operation_writer o; lineage_clock := operation_clock o;
  lineage_correlation := operation_correlation o; lineage_causation := operation_causation o;
  lineage_key_version := key_version_id o; event_id := id (wrap_ecca_event o); observed := true |}.

Definition deduplicated_receipt (o : EncryptedSyncOperation) : HostedSyncPublishReceipt := {|
  receipt_id := operation_id o; receipt_cursor := "cursor:" +:+ operation_id o |}.

Definition observation (kind : string) (o : option EncryptedSyncOperation) (s : option HostedSyncCredential)
    (state : HostedSyncConnectionState) (result : string) : HostedSyncObservation := {|
  observed_spec := HOSTED_TRANSPORT_SPEC; observed_kind := kind; observed_operation := operation_id <$> o;
  observed_key_version := key_version_id <$> o; hashed_scope := (fun c => hashed (scope c)) <$> s;
  observed_state := Some state; observed_outcome := Some result; latency_ms := Some 0%N |}.

Definition missing_credential : HostedSyncError :=
  hosted_error UnauthorizedScope "scoped credential is missing token or scope" [].

Definition scope_mismatch (c : HostedSyncCredential) : HostedSyncError :=
  hosted_error CredentialMismatch "credential scope does not match the connected synchronization scope"
    [("hashed_scope", Str (hashed (scope c)))].

(** ** The in-memory relay *)

Record SharedRelay := {
  now_ms : N;
  replay_window_ms : N;
  relay_available : bool;
  session : option HostedSyncCredential;
  accepted_key_versions : gset string;
  seen_operation_ids : gset string;
  messages : list RetainedMessage;
  operations_by_cursor : gmap string EncryptedSyncOperation;
  observations : list HostedSyncObservation;
  lineage : list HostedSyncLineageEvidence }.

Definition default_key_versions : gset string := {["key-active"; "key-previous"]}.

Definition new_relay : SharedRelay := {|
  now_ms := 0; replay_window_ms := MIN_REPLAY_WINDOW_MS; relay_available := true; session := None;
  accepted_key_versions := default_key_versions; seen_operation_ids := ∅; messages := []; operations_by_cursor := ∅;
  observations := []; lineage := [] |}.

Definition set_now (n : N) (r : SharedRelay) : SharedRelay := {|
  now_ms := n; replay_window_ms := replay_window_ms r; relay_available := relay_available r; session := session r;
  accepted_key_versions := accepted_key_versions r; seen_operation_ids := seen_operation_ids r; messages := messages r;
  operations_by_cursor := operations_by_cursor r; observations := observations r; lineage := lineage r |}.

Definition set_available_flag (b : bool) (r : SharedRelay) : SharedRelay := {|
  now_ms := now_ms r; replay_window_ms := replay_window_ms r; relay_available := b; session := session r;
  accepted_key_versions := accepted_key_versions r; seen_operation_ids := seen_operation_ids r; messages := messages r;
  operations_by_cursor := operations_by_cursor r; observations := observations r; lineage := lineage r |}.

Definition set_session (c : option HostedSyncCredential) (r : SharedRelay) : SharedRelay := {|
  now_ms := now_ms r; replay_window_ms := replay_window_ms r; relay_available := relay_available r; session := c;
  accepted_key_versions := accepted_key_versions r; seen_operation_ids := seen_operation_ids r; messages := messages r;
  operations_by_cursor := operations_by_cursor r; observations := observations r; lineage := lineage r |}.

Definition set_messages (l : list RetainedMessage) (ops : gmap string EncryptedSyncOperation) (r : SharedRelay) : SharedRelay := {|
  now_ms := now_ms r; replay_window_ms := replay_window_ms r; relay_available := relay_available r; session := session r;
  accepted_key_versions := accepted_key_versions r; seen_operation_ids := seen_operation_ids r; messages := l;
  operations_by_cursor := ops; observations := observations r; lineage := lineage r |}.

Definition add_observation (x : HostedSyncObservation) (r : SharedRelay) : SharedRelay := {|
  now_ms := now_ms r; replay_window_ms := replay_window_ms r; relay_available := relay_available r; session := session r;
  accepted_key_versions := accepted_key_versions r; seen_operation_ids := seen_operation_ids r; messages := messages r;
  operations_by_cursor := operations_by_cursor r; observations := observations r ++ [x]; lineage := lineage r |}.

Definition observe (kind : string) (o : option EncryptedSyncOperation) (state : HostedSyncConnectionState) (result : string)
    (r : SharedRelay) : SharedRelay := add_observation (observation kind o (session r) state result) r.

Definition expired_now (n : N) (c : HostedSyncCredential) : bool := (expires_at_ms c <=? n)%N.

Definition connect (c : HostedSyncCredential) (r : SharedRelay) : SharedRelay * Result HostedSyncError unit :=
  if bool_decide (token c = "") || bool_decide (scope c = "") then (r, Err missing_credential)
  else if expired_now (now_ms r) c then
    (observe "connect_rejected_expired" None (Degraded ExpiredCredential) "rejected" r,
     Err (hosted_error CredentialExpired "scoped hosted-relay credential already expired" []))
  else if negb (relay_available r) then
    (observe "connect_rejected_unavailable" None (Degraded RelayUnavailable) "rejected" r, Err relay_unavailable)
  else (observe "connected" None Connected "connected" (set_session (Some c) r), Ok tt).

Definition refresh_credential (c : HostedSyncCredential) (r : SharedRelay) : SharedRelay * Result HostedSyncError unit :=
  match session r with
  | None => (r, Err not_connected)
  | Some old =>
      if negb (bool_decide (scope old = scope c)) then (r, Err (scope_mismatch c))
      else if expired_now (now_ms r) c || bool_decide (token c = "") then
        (observe "credential_refresh_failed" None (Degraded CredentialRefreshFailed) "degraded" (set_session None r),
         Err (hosted_error CredentialExpired "credential refresh failed" []))
      else if negb (relay_available r) then
        (observe "credential_refresh_unavailable" None (Degraded RelayUnavailable) "degraded" (set_session None r),
         Err (hosted_error ProviderUnavailable "hosted relay unavailable during credential refresh" []))
      else (observe "credential_refreshed" None Connected "refreshed" (set_session (Some c) r), Ok tt)
  end.

Definition ensure_live_credential (r : SharedRelay) : SharedRelay * Result HostedSyncError unit :=
  match session r with
  | None => (r, Err not_connected)
  | Some c =>
      if expired_now (now_ms r) c then
        (observe "credential_expired" None (Degraded ExpiredCredential) "degraded" r, Err expired_credential)
      else if negb (relay_available r) then
        (observe "relay_unavailable" None (Degraded RelayUnavailable) "degraded" r, Err relay_unavailable)
      else (r, Ok tt)
  end.

(** A new operation: its message, its place by cursor and its lineage. *)
Definition accept_operation (o : EncryptedSyncOperation) (r : SharedRelay) : SharedRelay * string :=
  let c := "cursor:" +:+ u64_to_string (saturating_add (N.of_nat (length (messages r))) 1) in
  ({| now_ms := now_ms r; replay_window_ms := replay_window_ms r; relay_available := relay_available r; session := session r;
      accepted_key_versions := accepted_key_versions r; seen_operation_ids := {[operation_id o]} ∪ seen_operation_ids r;
      messages := messages r ++ [{| message_cursor := c; retained_at_ms := now_ms r; message_payload := [] |}];
      operations_by_cursor := <[c := o]> (operations_by_cursor r); observations := observations r;
      lineage := lineage r ++ [lineage_of o] |}, c).

Definition publish (o : EncryptedSyncOperation) (r : SharedRelay) : SharedRelay * Result HostedSyncError HostedSyncPublishReceipt :=
  match ensure_live_credential r with
  | (r, Err e) => (r, Err e)
  | (r, Ok _) =>
      match validate_operation (accepted_key_versions r) o with
      | Err e => (r, Err e)
      | Ok _ =>
          if bool_decide (operation_id o ∈ seen_operation_ids r) then
            (observe "publish_deduplicated" (Some o) Connected "deduplicated" r, Ok (deduplicated_receipt o))
          else
            let '(r, c) := accept_operation o r in
            (observe "publish" (Some o) Connected "delivered" r, Ok {| receipt_id := operation_id o; receipt_cursor := c |})
      end
  end.

Fixpoint drop_expired (oldest : N) (l : list RetainedMessage) (ops : gmap string EncryptedSyncOperation)
    : list RetainedMessage * gmap string EncryptedSyncOperation :=
  match l with
  | m :: rest => if (retained_at_ms m <? oldest)%N then drop_expired oldest rest (delete (message_cursor m) ops) else (l, ops)
  | [] => ([], ops)
  end.

Definition prune_expired (r : SharedRelay) : SharedRelay :=
  let '(l, ops) := drop_expired (saturating_sub (now_ms r) (replay_window_ms r)) (messages r) (operations_by_cursor r) in
  set_messages l ops r.

Definition position_of (c : string) (l : list RetainedMessage) : option nat :=
  fst <$> list_find (fun m => message_cursor m = c) l.

Definition start_index (c : option string) (l : list RetainedMessage) : nat :=
  match c ≫= fun c => position_of c l with Some i => S i | None => 0 end.

Definition mentions (c : string) (l : list RetainedMessage) : bool := existsb (fun m => bool_decide (message_cursor m = c)) l.

Definition needs_resync (c : option string) (known : string -> bool) (retained : list RetainedMessage) : bool :=
  match c with
  | Some c => (known c && negb (mentions c retained)) || (negb (known c) && negb (bool_decide (c = "0")) && negb (bool_decide (c = "")))
  | None => false
  end.

Definition replay_from (c : option string) (r : SharedRelay) : SharedRelay * Result HostedSyncError HostedSyncReplayResult :=
  match ensure_live_credential r with
  | (r, Err e) => (r, Err e)
  | (r, Ok _) =>
      let r := prune_expired r in
      let oldest := message_cursor <$> head (messages r) in
      let known c := match operations_by_cursor r !! c with Some _ => true | None => mentions c (messages r) end in
      if needs_resync c known (messages r) then
        (observe "replay" None Connected "resync_required" r, Ok (ResyncRequired oldest))
      else
        let start := start_index c (messages r) in
        let operations := omap (fun m => operations_by_cursor r !! message_cursor m) (drop start (messages r)) in
        let last_index := start + (length operations - 1) in
        let next := match message_cursor <$> messages r !! last_index with
                    | Some c => c
                    | None => default "0" c
                    end in
        (observe "replay" None Connected "delivered" r, Ok (Delivered operations next))
  end.

(** The state reported for a session. *)
Definition state_of (s : option HostedSyncCredential) (available : bool) (n : N) : HostedSyncConnectionState :=
  match s with
  | None => Disconnected
  | Some c => if negb available then Degraded RelayUnavailable else if expired_now n c then Degraded ExpiredCredential else Connected
  end.

Definition connection_state (r : SharedRelay) : HostedSyncConnectionState := state_of (session r) (relay_available r) (now_ms r).

Definition advance_clock (n : N) (r : SharedRelay) : SharedRelay :=
  let r := if (now_ms r <? n)%N then set_now n r else r in
  let r := prune_expired r in
  match session r with
  | Some c => if expired_now (now_ms r) c then observe "credential_expired" None (Degraded ExpiredCredential) "degraded" r else r
  | None => r
  end.

Definition set_relay_available (b : bool) (r : SharedRelay) : SharedRelay :=
  let r := set_available_flag b r in
  match session r with
  | None => r
  | Some _ =>
      if b then observe "reconnected" None Connected "connected" (observe "recovering" None Recovering "recovering" r)
      else observe "relay_unavailable" None (Degraded RelayUnavailable) "degraded" r
  end.
End hosted.

(** ** The edge of a provider *)

Inductive AblyEdgeError := Unauthorized | Unavailable | EdgeCursorExpired (oldest_available_cursor : option string).

Record AblyHistoryBatch := { payloads : list Bytes; batch_cursor : string }.

(** The [AblyRealtimeEdge] trait. *)
Class AblyRealtimeEdge (E : Type) := {
  edge_publish : string -> string -> N -> Bytes -> Eff E AblyEdgeError string;
  edge_history : string -> string -> option string -> N -> N -> Eff E AblyEdgeError AblyHistoryBatch;
  edge_set_available : bool -> E -> E }.

Record InMemoryAblyEdge := {
  available : bool;
  tokens : gmap string (gset string);
  channels : gmap string (list RetainedMessage) }.

Definition new_edge : InMemoryAblyEdge := {| available := true; tokens := ∅; channels := ∅ |}.

Definition authorize (channel token_text : string) (e : InMemoryAblyEdge) : InMemoryAblyEdge := {|
  available := available e;
  tokens := <[channel := {[token_text]} ∪ default ∅ (tokens e !! channel)]> (tokens e); channels := channels e |}.

Definition token_allowed (channel token_text : string) (e : InMemoryAblyEdge) : bool :=
  match tokens e !! channel with Some l => bool_decide (token_text ∈ l) | None => false end.

Definition memory_publish (channel token_text : string) (at_ms : N) (payload : Bytes) : Eff InMemoryAblyEdge AblyEdgeError string := fun e =>
  if negb (available e) then (e, Err Unavailable)
  else if negb (token_allowed channel token_text e) then (e, Err Unauthorized)
  else
    let queue := default [] (channels e !! channel) in
    let c := channel +:+ ":" +:+ u64_to_string (saturating_add (N.of_nat (length queue)) 1) in
    ({| available := available e; tokens := tokens e;
        channels := <[channel := queue ++ [{| message_cursor := c; retained_at_ms := at_ms; message_payload := payload |}]]> (channels e) |},
     Ok c).

Definition memory_history (channel token_text : string) (c : option string) (now window : N)
    : Eff InMemoryAblyEdge AblyEdgeError AblyHistoryBatch := fun e =>
  if negb (available e) then (e, Err Unavailable)
  else if negb (token_allowed channel token_text e) then (e, Err Unauthorized)
  else
    match channels e !! channel with
    | None => (e, Ok {| payloads := []; batch_cursor := default "0" c |})
    | Some queue =>
        let retained := filter (fun m => (saturating_sub now window <= retained_at_ms m)%N) queue in
        if needs_resync c (fun c => mentions c queue) retained then
          (e, Err (EdgeCursorExpired (message_cursor <$> head retained)))
        else
          let slice := drop (start_index c retained `min` length retained) retained in
          (e, Ok {| payloads := message_payload <$> slice;
                    batch_cursor := match message_cursor <$> last slice with Some c => c | None => default "0" c end |})
    end.

#[export] Instance memory_edge : AblyRealtimeEdge InMemoryAblyEdge := {|
  edge_publish := memory_publish; edge_history := memory_history;
  edge_set_available b e := {| available := b; tokens := tokens e; channels := channels e |} |}.

(** [serde_json::to_vec] and [from_slice] of an event. *)
Class EventCodec := {
  encode_ecca_payload : TraverseEvent -> Bytes;
  decode_ecca_payload : Bytes -> option TraverseEvent }.

Definition map_ably_edge_failure (e : AblyEdgeError) : HostedSyncError :=
  match e with
  | Unauthorized => hosted_error UnauthorizedScope "provider rejected scoped credential or channel binding" []
  | Unavailable => relay_unavailable
  | EdgeCursorExpired oldest =>
      hosted_error ResyncNeeded "cursor expired; application sync authority catch-up required"
        [("oldest_available_cursor", match oldest with Some c => Str c | None => Null end)]
  end.

(** ** The adapter *)

Record AblySession := { ably_credential : HostedSyncCredential; provider_channel : string }.

Record AblyHostedSyncTransport (E : Type) := {
  edge : E;
  ably_session : option AblySession;
  ably_now : N;
  ably_available : bool;
  ably_versions : gset string;
  ably_seen : gset string;
  ably_observations : list HostedSyncObservation;
  ably_lineage : list HostedSyncLineageEvidence;
  ably_window : N }.
#[global] Arguments edge {E}.
#[global] Arguments ably_session {E}.
#[global] Arguments ably_now {E}.
#[global] Arguments ably_available {E}.
#[global] Arguments ably_versions {E}.
#[global] Arguments ably_seen {E}.
#[global] Arguments ably_observations {E}.
#[global] Arguments ably_lineage {E}.
#[global] Arguments ably_window {E}.
#[global] Arguments Build_AblyHostedSyncTransport {E}.

Section adapter.
Context {E : Type} `{AblyRealtimeEdge E} `{StoreCrypto} `{EventCodec}.

Definition new_ably (e : E) : AblyHostedSyncTransport E := {|
  edge := e; ably_session := None; ably_now := 0; ably_available := true; ably_versions := default_key_versions; ably_seen := ∅;
  ably_observations := []; ably_lineage := []; ably_window := MIN_REPLAY_WINDOW_MS |}.

Definition set_accepted_key_versions (l : gset string) (t : AblyHostedSyncTransport E) : AblyHostedSyncTransport E := {|
  edge := edge t; ably_session := ably_session t; ably_now := ably_now t; ably_available := ably_available t;
  ably_versions := l; ably_seen := ably_seen t; ably_observations := ably_observations t; ably_lineage := ably_lineage t;
  ably_window := ably_window t |}.

Definition with_edge (e : E) (t : AblyHostedSyncTransport E) : AblyHostedSyncTransport E := {|
  edge := e; ably_session := ably_session t; ably_now := ably_now t; ably_available := ably_available t;
  ably_versions := ably_versions t; ably_seen := ably_seen t; ably_observations := ably_observations t;
  ably_lineage := ably_lineage t; ably_window := ably_window t |}.

Definition with_session (s : option AblySession) (t : AblyHostedSyncTransport E) : AblyHostedSyncTransport E := {|
  edge := edge t; ably_session := s; ably_now := ably_now t; ably_available := ably_available t;
  ably_versions := ably_versions t; ably_seen := ably_seen t; ably_observations := ably_observations t;
  ably_lineage := ably_lineage t; ably_window := ably_window t |}.

Definition with_clock (n : N) (b : bool) (t : AblyHostedSyncTransport E) : AblyHostedSyncTransport E := {|
  edge := edge t; ably_session := ably_session t; ably_now := n; ably_available := b;
  ably_versions := ably_versions t; ably_seen := ably_seen t; ably_observations := ably_observations t;
  ably_lineage := ably_lineage t; ably_window := ably_window t |}.

Definition with_observation (x : HostedSyncObservation) (t : AblyHostedSyncTransport E) : AblyHostedSyncTransport E := {|
  edge := edge t; ably_session := ably_session t; ably_now := ably_now t; ably_available := ably_available t;
  ably_versions := ably_versions t; ably_seen := ably_seen t; ably_observations := ably_observations t ++ [x];
  ably_lineage := ably_lineage t; ably_window := ably_window t |}.

Definition record_operation (o : EncryptedSyncOperation) (t : AblyHostedSyncTransport E) : AblyHostedSyncTransport E := {|
  edge := edge t; ably_session := ably_session t; ably_now := ably_now t; ably_available := ably_available t;
  ably_versions := ably_versions t; ably_seen := {[operation_id o]} ∪ ably_seen t; ably_observations := ably_observations t;
  ably_lineage := ably_lineage t ++ [lineage_of o]; ably_window := ably_window t |}.

Definition session_credential (t : AblyHostedSyncTransport E) : option HostedSyncCredential := ably_credential <$> ably_session t.

Definition observe_state (kind : string) (state : HostedSyncConnectionState) (t : AblyHostedSyncTransport E) : AblyHostedSyncTransport E :=
  with_observation (observation kind None (session_credential t) state kind) t.

Definition ensure_live_session (t : AblyHostedSyncTransport E) : AblyHostedSyncTransport E * Result HostedSyncError AblySession :=
  match ably_session t with
  | None => (t, Err not_connected)
  | Some s =>
      if expired_now (ably_now t) (ably_credential s) then
        (observe_state "credential_expired" (Degraded ExpiredCredential) t, Err expired_credential)
      else if negb (ably_available t) then
        (observe_state "relay_unavailable" (Degraded RelayUnavailable) t, Err relay_unavailable)
      else (t, Ok s)
  end.

Definition ably_connect (c : HostedSyncCredential) (t : AblyHostedSyncTransport E)
    : AblyHostedSyncTransport E * Result HostedSyncError unit :=
  if bool_decide (token c = "") || bool_decide (scope c = "") then (t, Err missing_credential)
  else if expired_now (ably_now t) c then
    (observe_state "connect_rejected_expired" (Degraded ExpiredCredential) t,
     Err (hosted_error CredentialExpired "scoped hosted-relay credential already expired" []))
  else if negb (ably_available t) then
    (observe_state "connect_rejected_unavailable" (Degraded RelayUnavailable) t, Err relay_unavailable)
  else
    (observe_state "connected" Connected
       (with_session (Some {| ably_credential := c; provider_channel := ably_channel_for_scope (scope c) |}) t), Ok tt).

Definition ably_refresh_credential (c : HostedSyncCredential) (t : AblyHostedSyncTransport E)
    : AblyHostedSyncTransport E * Result HostedSyncError unit :=
  match ably_session t with
  | None => (t, Err not_connected)
  | Some s =>
      if negb (bool_decide (scope (ably_credential s) = scope c)) then (t, Err (scope_mismatch c))
      else if expired_now (ably_now t) c || bool_decide (token c = "") then
        (observe_state "credential_refresh_failed" (Degraded CredentialRefreshFailed) (with_session None t),
         Err (hosted_error CredentialExpired "credential refresh failed" []))
      else if negb (ably_available t) then
        (observe_state "credential_refresh_unavailable" (Degraded RelayUnavailable) (with_session None t),
         Err (hosted_error ProviderUnavailable "hosted relay unavailable during credential refresh" []))
      else
        (observe_state "credential_refreshed" Connected
           (with_session (Some {| ably_credential := c; provider_channel := ably_channel_for_scope (scope c) |}) t), Ok tt)
  end.

Definition ably_publish (o : EncryptedSyncOperation) (t : AblyHostedSyncTransport E)
    : AblyHostedSyncTransport E * Result HostedSyncError HostedSyncPublishReceipt :=
  match ensure_live_session t with
  | (t, Err e) => (t, Err e)
  | (t, Ok s) =>
      match validate_operation (ably_versions t) o with
      | Err e => (t, Err e)
      | Ok _ =>
          if bool_decide (operation_id o ∈ ably_seen t) then
            (with_observation (observation "publish_deduplicated" (Some o) (Some (ably_credential s)) Connected "deduplicated") t,
             Ok (deduplicated_receipt o))
          else
            match edge_publish (provider_channel s) (token (ably_credential s)) (ably_now t)
                    (encode_ecca_payload (wrap_ecca_event o)) (edge t) with
            | (e, Err failure) => (with_edge e t, Err (map_ably_edge_failure failure))
            | (e, Ok c) =>
                (with_observation (observation "publish" (Some o) (Some (ably_credential s)) Connected "delivered")
                   (record_operation o (with_edge e t)),
                 Ok {| receipt_id := operation_id o; receipt_cursor := c |})
            end
      end
  end.

Definition decode_operation (payload : Bytes) : Result HostedSyncError EncryptedSyncOperation :=
  e ← ok_or (decode_ecca_payload payload)
        (hosted_error InvalidEnvelope "replay payload is not a valid ECCA envelope" []);
  operation_from_ecca_event e.

Fixpoint decode_operations (l : list Bytes) : Result HostedSyncError (list EncryptedSyncOperation) :=
  match l with
  | [] => Ok []
  | payload :: l => o ← decode_operation payload; rest ← decode_operations l; Ok (o :: rest)
  end.

Definition observe_replay (s : AblySession) (result : string) (t : AblyHostedSyncTransport E) : AblyHostedSyncTransport E :=
  with_observation (observation "replay" None (Some (ably_credential s)) Connected result) t.

Definition ably_replay_from (c : option string) (t : AblyHostedSyncTransport E)
    : AblyHostedSyncTransport E * Result HostedSyncError HostedSyncReplayResult :=
  match ensure_live_session t with
  | (t, Err e) => (t, Err e)
  | (t, Ok s) =>
      match edge_history (provider_channel s) (token (ably_credential s)) c (ably_now t) (ably_window t) (edge t) with
      | (e, Ok batch) =>
          let t := with_edge e t in
          match decode_operations (payloads batch) with
          | Err failure => (t, Err failure)
          | Ok operations => (observe_replay s "delivered" t, Ok (Delivered operations (batch_cursor batch)))
          end
      | (e, Err (EdgeCursorExpired oldest)) => (observe_replay s "resync_required" (with_edge e t), Ok (ResyncRequired oldest))
      | (e, Err failure) => (with_edge e t, Err (map_ably_edge_failure failure))
      end
  end.

Definition ably_connection_state (t : AblyHostedSyncTransport E) : HostedSyncConnectionState :=
  state_of (session_credential t) (ably_available t) (ably_now t).

Definition ably_advance_clock (n : N) (t : AblyHostedSyncTransport E) : AblyHostedSyncTransport E :=
  let t := if (ably_now t <? n)%N then with_clock n (ably_available t) t else t in
  match session_credential t with
  | Some c => if expired_now (ably_now t) c then observe_state "credential_expired" (Degraded ExpiredCredential) t else t
  | None => t
  end.

Definition ably_set_relay_available (b : bool) (t : AblyHostedSyncTransport E) : AblyHostedSyncTransport E :=
  let t := with_edge (edge_set_available b (edge t)) (with_clock (ably_now t) b t) in
  match ably_session t with
  | None => t
  | Some _ =>
      if b then observe_state "reconnected" Connected (observe_state "recovering" Recovering t)
      else observe_state "relay_unavailable" (Degraded RelayUnavailable) t
  end.
End adapter.

(** ** The port *)

(** The [HostedSyncTransport] trait. *)
Class HostedSyncTransport (T : Type) := {
  port_connect : HostedSyncCredential -> T -> T * Result HostedSyncError unit;
  port_refresh : HostedSyncCredential -> T -> T * Result HostedSyncError unit;
  port_publish : EncryptedSyncOperation -> T -> T * Result HostedSyncError HostedSyncPublishReceipt;
  port_replay : option string -> T -> T * Result HostedSyncError HostedSyncReplayResult;
  port_state : T -> HostedSyncConnectionState;
  port_clock : N -> T -> T;
  port_available : bool -> T -> T;
  port_lineage : T -> list HostedSyncLineageEvidence }.

#[export] Instance relay_transport `{StoreCrypto} : HostedSyncTransport SharedRelay := {|
  port_connect := connect; port_refresh := refresh_credential; port_publish := publish; port_replay := replay_from;
  port_state := connection_state; port_clock := advance_clock; port_available := set_relay_available; port_lineage := lineage |}.

#[export] Instance ably_transport {E} `{AblyRealtimeEdge E} `{StoreCrypto} `{EventCodec} : HostedSyncTransport (AblyHostedSyncTransport E) := {|
  port_connect := ably_connect; port_refresh := ably_refresh_credential; port_publish := ably_publish;
  port_replay := ably_replay_from; port_state := ably_connection_state; port_clock := ably_advance_clock;
  port_available := ably_set_relay_available; port_lineage := ably_lineage |}.

Inductive HostCall :=
  | CallConnect (c : HostedSyncCredential) | CallRefresh (c : HostedSyncCredential) | CallPublish (o : EncryptedSyncOperation)
  | CallReplay (c : option string) | CallState | CallClock (n : N) | CallAvailable (b : bool) | CallLineage.

Inductive HostAnswer :=
  | Settled (r : Result HostedSyncError unit) | Published (r : Result HostedSyncError HostedSyncPublishReceipt)
  | Replayed (r : Result HostedSyncError HostedSyncReplayResult) | Reported (s : HostedSyncConnectionState)
  | Traced (l : list HostedSyncLineageEvidence) | Silent.

Definition answer {T} `{HostedSyncTransport T} (call : HostCall) (t : T) : T * HostAnswer :=
  match call with
  | CallConnect c => let '(t, r) := port_connect c t in (t, Settled r)
  | CallRefresh c => let '(t, r) := port_refresh c t in (t, Settled r)
  | CallPublish o => let '(t, r) := port_publish o t in (t, Published r)
  | CallReplay c => let '(t, r) := port_replay c t in (t, Replayed r)
  | CallState => (t, Reported (port_state t))
  | CallClock n => (port_clock n t, Silent)
  | CallAvailable b => (port_available b t, Silent)
  | CallLineage => (t, Traced (port_lineage t))
  end.

Fixpoint answers {T} `{HostedSyncTransport T} (calls : list HostCall) (t : T) : list HostAnswer :=
  match calls with
  | [] => []
  | call :: calls => let '(t, a) := answer call t in a :: answers calls t
  end.

(** ** The log *)

(** Operations with the times they were published at, by channel; a cursor names a channel
    and the number of an operation. *)
Record LogState := {
  log_now : N;
  log_available : bool;
  log_session : option HostedSyncCredential;
  log_seen : gset string;
  log : gmap string (list (N * EncryptedSyncOperation));
  log_order : list EncryptedSyncOperation }.

Definition new_log : LogState := {|
  log_now := 0; log_available := true; log_session := None; log_seen := ∅; log := ∅; log_order := [] |}.

Section log.
Context `{StoreCrypto}.
Context (channel_of : string -> string) (cursor_name : string -> nat -> string) (permits : string -> string -> bool).

(** The number of the operation a cursor names. *)
Definition cursor_index (channel : string) (c : option string) (n : nat) : option nat :=
  c ≫= fun c => snd <$> list_find (fun i => cursor_name channel i = c) (seq 1 n).

(** The operations too old to be replayed come first. *)
Definition stale (oldest : N) (l : list (N * EncryptedSyncOperation)) : nat :=
  length (filter (fun x : N * EncryptedSyncOperation => (x.1 < oldest)%N) l).

(** After the [i]-th operation. *)
Definition deliver_after (channel : string) (c : option string) (i : nat) (l : list (N * EncryptedSyncOperation)) : HostedSyncReplayResult :=
  Delivered (snd <$> drop i l) (if decide (i < length l) then cursor_name channel (length l) else default "0" c).

Definition log_replay (channel : string) (c : option string) (oldest : N) (l : list (N * EncryptedSyncOperation)) : HostedSyncReplayResult :=
  let k := stale oldest l in
  let resync := ResyncRequired (if decide (k < length l) then Some (cursor_name channel (S k)) else None) in
  match cursor_index channel c (length l) with
  | Some i => if decide (k < i) then deliver_after channel c i l else resync
  | None => if decide (c = None \/ c = Some "0" \/ c = Some "") then deliver_after channel c k l else resync
  end.

Definition live_session (s : LogState) : Result HostedSyncError HostedSyncCredential :=
  match log_session s with
  | None => Err not_connected
  | Some c => if expired_now (log_now s) c then Err expired_credential
              else if negb (log_available s) then Err relay_unavailable else Ok c
  end.

Definition log_publish (o : EncryptedSyncOperation) (s : LogState) : LogState * Result HostedSyncError HostedSyncPublishReceipt :=
  match live_session s with
  | Err e => (s, Err e)
  | Ok c =>
      match validate_operation default_key_versions o with
      | Err e => (s, Err e)
      | Ok _ =>
          if bool_decide (operation_id o ∈ log_seen s) then (s, Ok (deduplicated_receipt o))
          else
            let channel := channel_of (scope c) in
            if negb (permits channel (token c)) then (s, Err (map_ably_edge_failure Unauthorized))
            else
              let l := default [] (log s !! channel) in
              ({| log_now := log_now s; log_available := log_available s; log_session := log_session s;
                  log_seen := {[operation_id o]} ∪ log_seen s; log := <[channel := l ++ [(log_now s, o)]]> (log s);
                  log_order := log_order s ++ [o] |},
               Ok {| receipt_id := operation_id o; receipt_cursor := cursor_name channel (S (length l)) |})
      end
  end.

Definition log_replay_from (c : option string) (s : LogState) : Result HostedSyncError HostedSyncReplayResult :=
  match live_session s with
  | Err e => Err e
  | Ok session =>
      let channel := channel_of (scope session) in
      if negb (permits channel (token session)) then Err (map_ably_edge_failure Unauthorized)
      else
        match log s !! channel with
        | None => Ok (Delivered [] (default "0" c))
        | Some l => Ok (log_replay channel c (saturating_sub (log_now s) MIN_REPLAY_WINDOW_MS) l)
        end
  end.

Definition log_set_session (c : option HostedSyncCredential) (s : LogState) : LogState := {|
  log_now := log_now s; log_available := log_available s; log_session := c; log_seen := log_seen s; log := log s;
  log_order := log_order s |}.

Definition log_connect (c : HostedSyncCredential) (s : LogState) : LogState * Result HostedSyncError unit :=
  if bool_decide (token c = "") || bool_decide (scope c = "") then (s, Err missing_credential)
  else if expired_now (log_now s) c then
    (s, Err (hosted_error CredentialExpired "scoped hosted-relay credential already expired" []))
  else if negb (log_available s) then (s, Err relay_unavailable)
  else (log_set_session (Some c) s, Ok tt).

Definition log_refresh (c : HostedSyncCredential) (s : LogState) : LogState * Result HostedSyncError unit :=
  match log_session s with
  | None => (s, Err not_connected)
  | Some old =>
      if negb (bool_decide (scope old = scope c)) then (s, Err (scope_mismatch c))
      else if expired_now (log_now s) c || bool_decide (token c = "") then
        (log_set_session None s, Err (hosted_error CredentialExpired "credential refresh failed" []))
      else if negb (log_available s) then
        (log_set_session None s, Err (hosted_error ProviderUnavailable "hosted relay unavailable during credential refresh" []))
      else (log_set_session (Some c) s, Ok tt)
  end.

Definition log_set_clock (n : N) (b : bool) (s : LogState) : LogState := {|
  log_now := n; log_available := b; log_session := log_session s; log_seen := log_seen s; log := log s;
  log_order := log_order s |}.

Definition log_answer (call : HostCall) (s : LogState) : LogState * HostAnswer :=
  match call with
  | CallConnect c => let '(s, r) := log_connect c s in (s, Settled r)
  | CallRefresh c => let '(s, r) := log_refresh c s in (s, Settled r)
  | CallPublish o => let '(s, r) := log_publish o s in (s, Published r)
  | CallReplay c => (s, Replayed (log_replay_from c s))
  | CallState => (s, Reported (state_of (log_session s) (log_available s) (log_now s)))
  | CallClock n => (log_set_clock (N.max (log_now s) n) (log_available s) s, Silent)
  | CallAvailable b => (log_set_clock (log_now s) b s, Silent)
  | CallLineage => (s, Traced (lineage_of <$> log_order s))
  end.

Fixpoint log_answers (calls : list HostCall) (s : LogState) : list HostAnswer :=
  match calls with
  | [] => []
  | call :: calls => let '(s, a) := log_answer call s in a :: log_answers calls s
  end.
End log.

(** ** The envelope read back *)

Lemma hex_nibble_digit c x : decode_hex_digit c = Some x -> hex_nibble c = Some x.
Proof. unfold decode_hex_digit, hex_nibble. by repeat case_match. Qed.

Lemma decode_pairs_hex b : decode_pairs (text (hex_encode b)) = Some b.
Proof.
  induction b as [|c b IH]; [done|]. rewrite hex_encode_cons, bytes_app.
  destruct (hex_byte_decodes c) as (h & l & -> & _ & _ & x & y & Hx & Hy & Hc). cbn [decode_pairs app].
  rewrite (hex_nibble_digit _ _ Hx), (hex_nibble_digit _ _ Hy). cbn. by rewrite IH; cbn; rewrite Hc.
Qed.

(** The envelope of an operation reads back as the operation, whatever its fields. *)
Lemma ecca_read_back `{StoreCrypto} o : operation_from_ecca_event (wrap_ecca_event o) = Ok o.
Proof.
  unfold operation_from_ecca_event, required_string.
  change (get "ciphertext" (data (wrap_ecca_event o))) with (Some (Str (hex_encode (sealed o)))).
  cbn [mbind option_bind as_str ok_or Result_bind]. rewrite decode_pairs_hex. cbn [ok_or mbind Result_bind].
  change (get "operation_id" (data (wrap_ecca_event o))) with (Some (Str (operation_id o))).
  change (get "synchronization_set_id" (data (wrap_ecca_event o))) with (Some (Str (synchronization_set_id o))).
  change (get "writer_id" (data (wrap_ecca_event o))) with (Some (Str (operation_writer o))).
  change (get "lamport_clock" (data (wrap_ecca_event o))) with (Some (Num (PosInt (operation_clock o)))).
  change (get "key_version_id" (data (wrap_ecca_event o))) with (Some (Str (key_version_id o))).
  by destruct o.
Qed.

(** ** A queue that is a log *)

Lemma fresh_sorted {A} (f : A -> N) oldest l : Sorted N.le (f <$> l) ->
  filter (fun x => (oldest <= f x)%N) l = drop (length (filter (fun x => (x < oldest)%N) (f <$> l))) l.
Proof.
  intros Hs. apply Sorted_StronglySorted in Hs; [|intros x y z; lia].
  induction l as [|a l IH]; [done|]. cbn [fmap list_fmap] in Hs |- *. apply StronglySorted_inv in Hs as [Hs Ha].
  rewrite !filter_cons. destruct (decide (f a < oldest)%N) as [Hlt|Hge].
  - rewrite decide_False by lia. cbn. by apply IH.
  - rewrite decide_True by lia. rewrite (IH Hs). rewrite Forall_fmap in Ha.
    assert (filter (fun x => (x < oldest)%N) (f <$> l) = []) as ->; [|done].
    rewrite Forall_forall in Ha. apply elem_of_nil_inv. intros x [Hx (b & -> & Hb)%list_elem_of_fmap]%list_elem_of_filter.
    specialize (Ha b Hb). cbn in Ha. lia.
Qed.

Lemma filter_fmap_length {A} (f : A -> N) (P : N -> Prop) `{!forall x, Decision (P x)} l :
  length (filter (fun x => P (f x)) l) = length (filter P (f <$> l)).
Proof. induction l as [|a l IH]; [done|]. cbn [fmap list_fmap]. rewrite !filter_cons. case_decide; cbn; by rewrite IH. Qed.

Section queue.
Context (name : nat -> string) (payload_of : EncryptedSyncOperation -> Bytes).

Definition message_for (i : nat) (x : N * EncryptedSyncOperation) : RetainedMessage := {|
  message_cursor := name (S i); retained_at_ms := x.1; message_payload := payload_of x.2 |}.

Definition queue_of (l : list (N * EncryptedSyncOperation)) : list RetainedMessage := imap message_for l.

Lemma queue_length l : length (queue_of l) = length l.
Proof. apply length_imap. Qed.

Lemma queue_lookup l i : queue_of l !! i = message_for i <$> l !! i.
Proof. apply list_lookup_imap. Qed.

Lemma queue_snoc l x : queue_of (l ++ [x]) = queue_of l ++ [message_for (length l) x].
Proof. unfold queue_of. rewrite imap_app. cbn. by rewrite Nat.add_0_r. Qed.

Lemma queue_times l : retained_at_ms <$> queue_of l = l.*1.
Proof. apply list_eq. intros i. rewrite !list_lookup_fmap, queue_lookup. by destruct (l !! i). Qed.

Context (l : list (N * EncryptedSyncOperation)).
Context (names_differ : forall i j, 1 <= i <= length l -> 1 <= j <= length l -> name i = name j -> i = j).
Context (in_order : Sorted N.le l.*1).

Lemma filter_fresh (oldest : N) : filter (fun m => (oldest <= retained_at_ms m)%N) (queue_of l) = drop (stale oldest l) (queue_of l).
Proof.
  rewrite (fresh_sorted retained_at_ms) by (by rewrite queue_times). rewrite queue_times. unfold stale.
  f_equal. symmetry. exact (@filter_fmap_length _ fst (fun x => (x < oldest)%N) (fun x => decide_rel N.lt x oldest) l).
Qed.

Lemma mentions_index k c : mentions c (drop k (queue_of l)) = true <-> exists i, k < i <= length l /\ name i = c.
Proof.
  unfold mentions. rewrite existsb_exists. split.
  - intros (m & Hm & Hc%bool_decide_eq_true). apply list_elem_of_In, list_elem_of_lookup in Hm as [j Hj].
    rewrite lookup_drop, queue_lookup in Hj. destruct (l !! (k + j)) as [x|] eqn:Hx; [|done]. injection Hj as <-.
    apply lookup_lt_Some in Hx. exists (S (k + j)). split; [lia|done].
  - intros (i & Hi & Hc). destruct (lookup_lt_is_Some_2 l (i - 1) ltac:(lia)) as [x Hx].
    exists (message_for (i - 1) x). split.
    + apply list_elem_of_In, (list_elem_of_lookup_2 _ (i - 1 - k)). rewrite lookup_drop, queue_lookup.
      replace (k + (i - 1 - k)) with (i - 1) by lia. by rewrite Hx.
    + apply bool_decide_eq_true. cbn. by replace (S (i - 1)) with i by lia.
Qed.

Lemma cursor_index_Some c i : cursor_index (fun _ => name) "" c (length l) = Some i -> c = Some (name i) /\ 1 <= i <= length l.
Proof.
  unfold cursor_index. destruct c as [c|]; [|done]. cbn. destruct (list_find _ _) as [[j x]|] eqn:Hf; [|done]. intros [= ->].
  apply list_find_Some in Hf as (Hj & Hn & _). apply lookup_seq in Hj as [-> Hj]. split; [by rewrite Hn|lia].
Qed.

Lemma cursor_index_None c i : cursor_index (fun _ => name) "" (Some c) (length l) = None -> 1 <= i <= length l -> name i <> c.
Proof.
  unfold cursor_index. cbn. destruct (list_find _ _) as [[j x]|] eqn:Hf; [done|]. intros _ Hi Hn.
  apply list_find_None in Hf. rewrite Forall_forall in Hf. apply (Hf i); [|done]. apply elem_of_seq. lia.
Qed.

Lemma resync_iff c k known : (forall c, known c = mentions c (queue_of l)) ->
  needs_resync c known (drop k (queue_of l))
  = match cursor_index (fun _ => name) "" c (length l) with
    | Some i => negb (bool_decide (k < i))
    | None => negb (bool_decide (c = None \/ c = Some "0" \/ c = Some ""))
    end.
Proof.
  intros Hk. destruct c as [c|]; [|done]. unfold needs_resync. rewrite !Hk.
  destruct (cursor_index _ _ _ _) as [i|] eqn:Hi.
  - apply cursor_index_Some in Hi as [[= ->] Hi].
    assert (mentions (name i) (queue_of l) = true) as -> by (apply (mentions_index 0); exists i; split; [lia|done]).
    cbn. rewrite orb_false_r. f_equal. apply eq_bool_prop_intro. rewrite !Is_true_true, bool_decide_eq_true, mentions_index. split.
    + intros (j & Hj & Hn). apply names_differ in Hn; lia.
    + intros Hlt. exists i. split; [lia|done].
  - assert (mentions c (queue_of l) = false) as ->.
    { apply not_true_is_false. intros (i & Hr & Hn)%(mentions_index 0). by eapply cursor_index_None; [done| |exact Hn]; lia. }
    cbn [negb andb orb]. destruct (decide (c = "0")) as [->|H0]; [by rewrite (bool_decide_eq_true_2 (_ \/ _)) by auto|].
    destruct (decide (c = "")) as [->|H1]; [by rewrite (bool_decide_eq_true_2 (_ \/ _)) by auto|].
    rewrite (bool_decide_eq_false_2 _ H0), (bool_decide_eq_false_2 _ H1), bool_decide_eq_false_2; [done|].
    intros [?|[?|?]]; congruence.
Qed.

Lemma position_at k i : k < i <= length l -> position_of (name i) (drop k (queue_of l)) = Some (i - 1 - k).
Proof.
  intros Hi. destruct (lookup_lt_is_Some_2 l (i - 1) ltac:(lia)) as [x Hx]. unfold position_of.
  assert (list_find (fun m => message_cursor m = name i) (drop k (queue_of l)) = Some (i - 1 - k, message_for (i - 1) x)) as ->; [|done].
  apply list_find_Some. rewrite lookup_drop, queue_lookup. replace (k + (i - 1 - k)) with (i - 1) by lia. rewrite Hx.
  split; [done|]. split; [cbn; f_equal; lia|]. intros j m Hj Hlt Hn.
  rewrite lookup_drop, queue_lookup in Hj. destruct (l !! (k + j)) as [y|] eqn:Hy; [|done]. injection Hj as <-.
  apply lookup_lt_Some in Hy. cbn in Hn. apply names_differ in Hn; lia.
Qed.

(** Where a replay starts. *)
Definition replay_start (c : option string) (k : nat) : nat :=
  match cursor_index (fun _ => name) "" c (length l) with Some i => i | None => k end.

Lemma start_index_eq c k :
  (forall i, cursor_index (fun _ => name) "" c (length l) = Some i -> k < i) ->
  k + start_index c (drop k (queue_of l)) = replay_start c k.
Proof.
  unfold replay_start, start_index. intros Hk. destruct (cursor_index _ _ _ _) as [i|] eqn:Hi.
  - specialize (Hk i eq_refl). apply cursor_index_Some in Hi as [-> Hi]. cbn. rewrite position_at by lia. lia.
  - destruct c as [c|]; cbn; [|lia].
    destruct (position_of c (drop k (queue_of l))) as [j|] eqn:Hp; [|lia]. exfalso.
    unfold position_of in Hp. destruct (list_find _ _) as [[j' m]|] eqn:Hf; [|done].
    apply list_find_Some in Hf as (Hj & Hc & _). rewrite lookup_drop, queue_lookup in Hj.
    destruct (l !! (k + j')) as [x|] eqn:Hx; [|done]. injection Hj as <-. apply lookup_lt_Some in Hx. cbn in Hc.
    by eapply (cursor_index_None c (S (k + j'))); [done|lia|].
Qed.

Lemma last_cursor i : message_cursor <$> last (drop i (queue_of l)) = if decide (i < length l) then Some (name (length l)) else None.
Proof.
  case_decide as Hi.
  - rewrite last_lookup, length_drop, queue_length, lookup_drop, queue_lookup.
    replace (i + pred (length l - i)) with (length l - 1) by lia.
    destruct (lookup_lt_is_Some_2 l (length l - 1) ltac:(lia)) as [x ->]. cbn. f_equal. f_equal. lia.
  - rewrite drop_ge by (rewrite queue_length; lia). done.
Qed.

Lemma head_cursor k : message_cursor <$> head (drop k (queue_of l)) = if decide (k < length l) then Some (name (S k)) else None.
Proof.
  rewrite head_lookup, lookup_drop, Nat.add_0_r, queue_lookup. case_decide as Hk.
  - by destruct (lookup_lt_is_Some_2 l k Hk) as [x ->].
  - by rewrite lookup_ge_None_2 by lia.
Qed.
End queue.

(** ** The adapter over the in-memory edge is the log *)

Class EventCodecLaws `{EventCodec} : Prop := {
  payload_read_back e : decode_ecca_payload (encode_ecca_payload e) = Some e }.

Definition numbered (prefix : string) (i : nat) : string := prefix +:+ u64_to_string (N.of_nat i).

Lemma numbered_inj prefix i j : numbered prefix i = numbered prefix j -> i = j.
Proof.
  unfold numbered, u64_to_string. intros Hn. apply (inj (String.append prefix)) in Hn.
  apply (inj pretty) in Hn. lia.
Qed.

Lemma next_number (n : nat) : (N.of_nat (S n) <= u64_max)%N -> saturating_add (N.of_nat n) 1 = N.of_nat (S n).
Proof. unfold saturating_add. lia. Qed.

Section ably.
Context `{StoreCrypto} `{EventCodecLaws} (e0 : InMemoryAblyEdge).

Definition ably_cursor (channel : string) : nat -> string := numbered (channel +:+ ":").
Definition ably_payload (o : EncryptedSyncOperation) : Bytes := encode_ecca_payload (wrap_ecca_event o).

(** The logs of a state have at most [n] operations, at times that do not decrease. *)
Definition log_ok (s : LogState) (n : nat) : Prop := forall channel l, log s !! channel = Some l ->
  length l <= n /\ Sorted N.le l.*1 /\ Forall (fun t => (t <= log_now s)%N) l.*1.

Lemma sorted_snoc l x : Sorted N.le l -> Forall (fun t => (t <= x)%N) l -> Sorted N.le (l ++ [x]).
Proof.
  intros Hs Hx. induction Hs as [|a l Hs IH Ha]; cbn; [repeat constructor|]. apply Forall_cons in Hx as [Hax Hx].
  constructor; [auto|]. destruct l as [|b l]; cbn; [by constructor|]. inversion Ha; subst. by constructor.
Qed.

(** A publication extends one log. *)
Lemma log_ok_snoc s n channel o seen order available_ session_ :
  log_ok s n ->
  log_ok {| log_now := log_now s; log_available := available_; log_session := session_; log_seen := seen;
            log := <[channel := default [] (log s !! channel) ++ [(log_now s, o)]]> (log s); log_order := order |} (S n).
Proof.
  intros Hok ch l Hl. cbn in Hl |- *. destruct (decide (ch = channel)) as [->|Hne].
  - rewrite lookup_insert_eq in Hl. injection Hl as <-. destruct (log s !! channel) as [l0|] eqn:Hl0; cbn.
    + destruct (Hok _ _ Hl0) as (Hlen & Hs & Hf). rewrite length_app, fmap_app. cbn. split; [lia|].
      split; [by apply sorted_snoc|]. apply Forall_app. split; [done|]. by repeat constructor.
    + split; [lia|]. split; by repeat constructor.
  - rewrite lookup_insert_ne in Hl by done. destruct (Hok _ _ Hl) as (Hlen & Hs & Hf). split; [lia|done].
Qed.

Record ably_sim (t : AblyHostedSyncTransport InMemoryAblyEdge) (s : LogState) : Prop := {
  sim_now : ably_now t = log_now s;
  sim_available : ably_available t = log_available s;
  sim_edge : available (edge t) = log_available s;
  sim_session : session_credential t = log_session s;
  sim_channel x : ably_session t = Some x -> provider_channel x = ably_channel_for_scope (scope (ably_credential x));
  sim_versions : ably_versions t = default_key_versions;
  sim_seen : ably_seen t = log_seen s;
  sim_lineage : ably_lineage t = lineage_of <$> log_order s;
  sim_window : ably_window t = MIN_REPLAY_WINDOW_MS;
  sim_tokens : tokens (edge t) = tokens e0;
  sim_queues channel : channels (edge t) !! channel = queue_of (ably_cursor channel) ably_payload <$> log s !! channel }.

Definition ably_permits (channel token_text : string) : bool := token_allowed channel token_text e0.

Lemma sim_observation x t s : ably_sim t s -> ably_sim (with_observation x t) s.
Proof. by intros []. Qed.

Lemma permits_sim t s channel token_text : ably_sim t s -> token_allowed channel token_text (edge t) = ably_permits channel token_text.
Proof. intros Hs. unfold ably_permits, token_allowed. by rewrite (sim_tokens _ _ Hs). Qed.

Lemma live_sim t s : ably_sim t s ->
  match ensure_live_session t with
  | (t', Ok x) => ably_sim t' s /\ t' = t /\ live_session s = Ok (ably_credential x) /\ ably_session t = Some x
  | (t', Err e) => ably_sim t' s /\ live_session s = Err e
  end.
Proof.
  intros Hs. unfold ensure_live_session, live_session. pose proof (sim_session _ _ Hs) as Hsess. unfold session_credential in Hsess.
  rewrite <- Hsess, <- (sim_now _ _ Hs), <- (sim_available _ _ Hs). destruct (ably_session t) as [x|]; cbn; [|done].
  destruct (expired_now _ _); [split; [by apply sim_observation|done]|].
  destruct (negb (ably_available t)); [split; [by apply sim_observation|done]|done].
Qed.

Lemma decode_all (l : list EncryptedSyncOperation) : decode_operations (ably_payload <$> l) = Ok l.
Proof.
  induction l as [|o l IH]; [done|]. cbn [fmap list_fmap decode_operations]. rewrite IH.
  unfold decode_operation, ably_payload. rewrite payload_read_back. cbn [ok_or mbind Result_bind]. by rewrite ecca_read_back.
Qed.

Lemma queue_payloads name (l : list (N * EncryptedSyncOperation)) i :
  message_payload <$> drop i (queue_of name ably_payload l) = ably_payload <$> (snd <$> drop i l).
Proof.
  apply list_eq. intros j. rewrite !list_lookup_fmap, !lookup_drop, queue_lookup. by destruct (l !! (i + j)).
Qed.

Lemma drop_min {A} (l : list A) n : drop (n `min` length l) l = drop n l.
Proof.
  destruct (Nat.le_ge_cases n (length l)); [by rewrite Nat.min_l|]. rewrite Nat.min_r, !drop_ge by lia. done.
Qed.

Lemma history_is_log channel token_text c now l e :
  available e = true -> token_allowed channel token_text e = true ->
  channels e !! channel = Some (queue_of (ably_cursor channel) ably_payload l) -> Sorted N.le l.*1 ->
  memory_history channel token_text c now MIN_REPLAY_WINDOW_MS e
  = (e, match log_replay ably_cursor channel c (saturating_sub now MIN_REPLAY_WINDOW_MS) l with
        | Delivered operations next => Ok {| payloads := ably_payload <$> operations; batch_cursor := next |}
        | ResyncRequired oldest => Err (EdgeCursorExpired oldest)
        end).
Proof.
  intros Ha Ht Hc Hs. unfold memory_history. rewrite Ha, Ht, Hc. cbn [negb].
  assert (Hn : forall i j, 1 <= i <= length l -> 1 <= j <= length l -> ably_cursor channel i = ably_cursor channel j -> i = j).
  { intros i j _ _. apply numbered_inj. }
  rewrite (filter_fresh _ _ l Hs). set (k := stale _ l). unfold log_replay. fold k.
  change (cursor_index ably_cursor channel c (length l)) with (cursor_index (fun _ => ably_cursor channel) "" c (length l)).
  rewrite (resync_iff _ _ l Hn) by done. rewrite head_cursor.
  assert (Hdeliver : (forall i, cursor_index (fun _ => ably_cursor channel) "" c (length l) = Some i -> k < i) ->
    {| payloads := message_payload <$> drop (start_index c (drop k (queue_of (ably_cursor channel) ably_payload l))
                     `min` length (drop k (queue_of (ably_cursor channel) ably_payload l))) (drop k (queue_of (ably_cursor channel) ably_payload l));
       batch_cursor := match message_cursor <$> last (drop (start_index c (drop k (queue_of (ably_cursor channel) ably_payload l))
                     `min` length (drop k (queue_of (ably_cursor channel) ably_payload l))) (drop k (queue_of (ably_cursor channel) ably_payload l)))
                       with Some c => c | None => default "0" c end |}
    = {| payloads := ably_payload <$> (snd <$> drop (replay_start (ably_cursor channel) l c k) l);
         batch_cursor := if decide (replay_start (ably_cursor channel) l c k < length l) then ably_cursor channel (length l) else default "0" c |}).
  { intros Hk. rewrite drop_min, drop_drop, (start_index_eq _ _ l Hn _ _ Hk), queue_payloads, last_cursor. by case_decide. }
  unfold replay_start in Hdeliver. destruct (cursor_index _ "" c _) as [i|].
  - destruct (decide (k < i)) as [Hk|Hk].
    + rewrite (bool_decide_eq_true_2 _ Hk). cbn [negb]. rewrite Hdeliver by (by intros ? [= <-]). done.
    + rewrite (bool_decide_eq_false_2 _ Hk). done.
  - destruct (decide (c = None \/ c = Some "0" \/ c = Some "")) as [Hd|Hd].
    + rewrite (bool_decide_eq_true_2 _ Hd). cbn [negb]. rewrite Hdeliver by done. done.
    + rewrite (bool_decide_eq_false_2 _ Hd). done.
Qed.

Lemma live_available s c : live_session s = Ok c -> log_available s = true.
Proof. unfold live_session. destruct (log_session s); [|done]. destruct (expired_now _ _); [done|]. by destruct (log_available s). Qed.

Lemma with_same_edge (t : AblyHostedSyncTransport InMemoryAblyEdge) : with_edge (edge t) t = t.
Proof. by destruct t. Qed.

Lemma replay_sim c t s n : ably_sim t s -> log_ok s n ->
  ably_sim (ably_replay_from c t).1 s
  /\ (ably_replay_from c t).2 = log_replay_from ably_channel_for_scope ably_cursor ably_permits c s.
Proof.
  intros Hs Hok. pose proof (live_sim _ _ Hs) as Hl. unfold ably_replay_from, log_replay_from.
  destruct (ensure_live_session t) as [t1 [x|e]]; [destruct Hl as (_ & -> & Hlive & Hx)|by destruct Hl as [? ->]].
  rewrite Hlive, (sim_channel _ _ Hs _ Hx), (sim_window _ _ Hs), <- (permits_sim _ _ _ _ Hs), <- (sim_now _ _ Hs).
  set (channel := ably_channel_for_scope _). cbn [edge_history memory_edge].
  pose proof (live_available _ _ Hlive) as Hav. rewrite <- (sim_edge _ _ Hs) in Hav.
  pose proof (sim_queues _ _ Hs channel) as Hq.
  destruct (token_allowed channel (token (ably_credential x)) (edge t)) eqn:Htok; cbn [negb].
  - destruct (log s !! channel) as [l|] eqn:Hlog.
    + rewrite (history_is_log _ _ _ _ _ _ Hav Htok Hq) by (by eapply Hok).
      destruct (log_replay _ _ _ _ _) as [operations next|oldest]; rewrite with_same_edge; cbn [payloads batch_cursor].
      * rewrite decode_all. split; [by apply sim_observation|done].
      * split; [by apply sim_observation|done].
    + unfold memory_history. rewrite Hav, Htok, Hq. cbn. rewrite with_same_edge. split; [by apply sim_observation|done].
  - unfold memory_history. rewrite Hav, Htok. cbn. rewrite with_same_edge. done.
Qed.

Lemma publish_sim o t s n : ably_sim t s -> log_ok s n -> (N.of_nat (S n) <= u64_max)%N ->
  let '(s', r) := log_publish ably_channel_for_scope ably_cursor ably_permits o s in
  ably_sim (ably_publish o t).1 s' /\ (ably_publish o t).2 = r /\ log_ok s' (S n).
Proof.
  intros Hs Hok Hn. pose proof (live_sim _ _ Hs) as Hl. unfold ably_publish, log_publish.
  assert (Hok' : log_ok s (S n)) by (intros ch l Hch; destruct (Hok ch l Hch) as (? & ? & ?); split; [lia|done]).
  destruct (ensure_live_session t) as [t1 [x|e]]; [destruct Hl as (_ & -> & Hlive & Hx)|destruct Hl as [? ->]; done].
  rewrite Hlive, (sim_versions _ _ Hs). destruct (validate_operation _ o) as [u|e]; [|done].
  rewrite (sim_seen _ _ Hs). destruct (bool_decide (operation_id o ∈ log_seen s)); [split; [by apply sim_observation|done]|].
  rewrite (sim_channel _ _ Hs _ Hx), <- (permits_sim _ _ _ _ Hs). set (channel := ably_channel_for_scope _).
  cbn [edge_publish memory_edge]. unfold memory_publish.
  pose proof (live_available _ _ Hlive) as Hav. rewrite <- (sim_edge _ _ Hs) in Hav. rewrite Hav. cbn [negb].
  destruct (token_allowed channel (token (ably_credential x)) (edge t)) eqn:Htok; cbn [negb].
  2:{ rewrite with_same_edge. done. }
  set (l := default [] (log s !! channel)).
  assert (Hqueue : default [] (channels (edge t) !! channel) = queue_of (ably_cursor channel) ably_payload l).
  { rewrite (sim_queues _ _ Hs channel). unfold l. by destruct (log s !! channel). }
  assert (Hlen : length l <= n) by (unfold l; destruct (log s !! channel) as [l0|] eqn:Hl0; cbn; [by eapply Hok|lia]).
  rewrite Hqueue, queue_length, next_number by lia.
  assert (Hname : channel +:+ ":" +:+ u64_to_string (N.of_nat (S (length l))) = ably_cursor channel (S (length l))).
  { unfold ably_cursor, numbered. by rewrite string_app_assoc. }
  rewrite Hname. cbn [fst snd]. split; [|split; [done|by apply log_ok_snoc]]. apply sim_observation.
  destruct Hs. split; cbn; try done; try congruence; [by rewrite fmap_app, sim_lineage0|].
  intros ch. destruct (decide (ch = channel)) as [->|Hne].
  - rewrite !lookup_insert_eq. cbn. f_equal. rewrite queue_snoc. f_equal. unfold message_for, ably_payload. cbn. by rewrite sim_now0.
  - rewrite !lookup_insert_ne by done. auto.
Qed.

Lemma connect_sim c t s : ably_sim t s ->
  ably_sim (ably_connect c t).1 (log_connect c s).1 /\ (ably_connect c t).2 = (log_connect c s).2.
Proof.
  intros Hs. unfold ably_connect, log_connect. rewrite <- (sim_now _ _ Hs), <- (sim_available _ _ Hs).
  destruct (bool_decide (token c = "") || _); [done|]. destruct (expired_now _ c); [split; [by apply sim_observation|done]|].
  destruct (negb (ably_available t)); [split; [by apply sim_observation|done]|].
  split; [|done]. apply sim_observation. destruct Hs. split; cbn; try done. by intros x [= <-].
Qed.

Lemma refresh_sim c t s : ably_sim t s ->
  ably_sim (ably_refresh_credential c t).1 (log_refresh c s).1 /\ (ably_refresh_credential c t).2 = (log_refresh c s).2.
Proof.
  intros Hs. unfold ably_refresh_credential, log_refresh.
  rewrite <- (sim_now _ _ Hs), <- (sim_available _ _ Hs), <- (sim_session _ _ Hs). unfold session_credential.
  destruct (ably_session t) as [x|]; cbn [fmap option_fmap option_map]; [|done].
  destruct (negb (bool_decide (scope (ably_credential x) = scope c))); [done|].
  destruct (expired_now _ c || _); [|destruct (negb (ably_available t))];
    (split; [|done]; apply sim_observation; destruct Hs; split; cbn; try done). by intros y [= <-].
Qed.

Lemma clock_sim n t s m : ably_sim t s -> log_ok s m ->
  ably_sim (ably_advance_clock n t) (log_set_clock (N.max (log_now s) n) (log_available s) s)
  /\ log_ok (log_set_clock (N.max (log_now s) n) (log_available s) s) m.
Proof.
  intros Hs Hok. split.
  - assert (Hs' : ably_sim (if (ably_now t <? n)%N then with_clock n (ably_available t) t else t)
      (log_set_clock (N.max (log_now s) n) (log_available s) s)).
    { destruct (ably_now t <? n)%N eqn:Hn; [apply N.ltb_lt in Hn|apply N.ltb_ge in Hn]; destruct Hs; split; cbn; try done; lia. }
    unfold ably_advance_clock. destruct (session_credential _); [|done].
    destruct (expired_now _ _); [by apply sim_observation|done].
  - intros ch l Hl. destruct (Hok ch l Hl) as (? & ? & Hf). split; [done|]. split; [done|]. cbn.
    eapply Forall_impl; [exact Hf|]. cbn. intros x Hx. lia.
Qed.

Lemma available_sim b t s : ably_sim t s -> ably_sim (ably_set_relay_available b t) (log_set_clock (log_now s) b s).
Proof.
  intros Hs. assert (Hs' : ably_sim (with_edge (edge_set_available b (edge t)) (with_clock (ably_now t) b t)) (log_set_clock (log_now s) b s)).
  { by destruct Hs. }
  unfold ably_set_relay_available. destruct (ably_session _); [|done]. destruct b; by repeat apply sim_observation.
Qed.

Lemma connect_log c s : log (log_connect c s).1 = log s /\ log_now (log_connect c s).1 = log_now s.
Proof. unfold log_connect. by repeat case_match. Qed.

Lemma refresh_log c s : log (log_refresh c s).1 = log s /\ log_now (log_refresh c s).1 = log_now s.
Proof. unfold log_refresh. by repeat case_match. Qed.

Lemma log_ok_same s s' n : log s' = log s /\ log_now s' = log_now s -> log_ok s n -> log_ok s' n.
Proof. unfold log_ok. intros [-> ->]. done. Qed.

Lemma answer_sim call t s n : ably_sim t s -> log_ok s n -> (N.of_nat (S n) <= u64_max)%N ->
  let '(s', a) := log_answer ably_channel_for_scope ably_cursor ably_permits call s in
  ably_sim (answer call t).1 s' /\ (answer call t).2 = a /\ log_ok s' (S n).
Proof.
  intros Hs Hok Hn. assert (Hok' : log_ok s (S n)) by (intros ch l Hch; destruct (Hok ch l Hch) as (? & ? & ?); split; [lia|done]).
  destruct call as [c|c|o|c| |m|b|]; unfold answer, log_answer; cbn [port_connect port_refresh port_publish port_replay port_state port_clock
    port_available port_lineage ably_transport].
  - pose proof (connect_sim c t s Hs) as [Hsim Hr]. pose proof (log_ok_same _ _ _ (connect_log c s) Hok') as Hl.
    destruct (ably_connect c t), (log_connect c s). cbn in *. by subst.
  - pose proof (refresh_sim c t s Hs) as [Hsim Hr]. pose proof (log_ok_same _ _ _ (refresh_log c s) Hok') as Hl.
    destruct (ably_refresh_credential c t), (log_refresh c s). cbn in *. by subst.
  - pose proof (publish_sim o t s n Hs Hok Hn) as Hp. destruct (log_publish _ _ _ o s) as [s' r].
    destruct (ably_publish o t). cbn in *. destruct Hp as (? & -> & ?). done.
  - pose proof (replay_sim c t s n Hs Hok) as [Hsim Hr]. destruct (ably_replay_from c t). cbn in *. by subst.
  - split; [done|]. split; [|done]. cbn. unfold ably_connection_state.
    by rewrite (sim_session _ _ Hs), (sim_available _ _ Hs), (sim_now _ _ Hs).
  - destruct (clock_sim m t s (S n) Hs Hok') as [? ?]. done.
  - split; [by apply available_sim|]. done.
  - split; [done|]. split; [|done]. cbn. by rewrite (sim_lineage _ _ Hs).
Qed.

Lemma answers_sim calls : forall t s n, ably_sim t s -> log_ok s n -> (N.of_nat (n + length calls) <= u64_max)%N ->
  answers calls t = log_answers ably_channel_for_scope ably_cursor ably_permits calls s.
Proof.
  induction calls as [|call calls IH]; intros t s n Hs Hok Hn; [done|]. cbn [answers log_answers length] in *.
  pose proof (answer_sim call t s n Hs Hok ltac:(lia)) as Ha. destruct (answer call t) as [t' a].
  destruct (log_answer _ _ _ call s) as [s' a']. cbn in Ha. destruct Ha as (Hs' & -> & Hok'). f_equal.
  apply (IH _ _ (S n)); [done|done|lia].
Qed.
End ably.

(** C19: the adapter over the in-memory edge is a log.  For every sequence of calls, on an
    edge with any authorized tokens and no messages yet, the answers are those of a log of
    operations per channel: a fresh operation is appended once and named by its number, a
    repeated one is acknowledged without being appended, and a replay from a cursor delivers
    exactly the operations after it, in order, or asks for a resynchronisation when the
    operation it names is older than the replay window; without a live credential nothing is
    published or replayed. *)
Theorem ably_refines_log `{StoreCrypto} `{EventCodecLaws} (e : InMemoryAblyEdge) calls :
  available e = true -> channels e = ∅ -> (N.of_nat (length calls) <= u64_max)%N ->
  answers calls (new_ably e)
  = log_answers ably_channel_for_scope ably_cursor (fun channel token_text => token_allowed channel token_text e) calls new_log.
Proof.
  intros Ha Hc Hn. apply (answers_sim e calls (new_ably e) new_log 0); [| |done].
  - split; cbn; try done. intros channel. by rewrite Hc, !lookup_empty.
  - intros ch l Hl. change (log new_log) with (∅ : gmap string (list (N * EncryptedSyncOperation))) in Hl.
    by rewrite lookup_empty in Hl.
Qed.

(** ** The in-memory relay is a log within its window *)

Section relay.
Context `{StoreCrypto}.

Definition relay_cursor : nat -> string := numbered "cursor:".

(** The relay has one log for all scopes. *)
Definition one_channel (scope_id : string) : string := "".

Definition relay_log : LogState := {|
  log_now := 0; log_available := true; log_session := None; log_seen := ∅; log := {["" := []]}; log_order := [] |}.

Record relay_sim (r : SharedRelay) (s : LogState) (l : list (N * EncryptedSyncOperation)) : Prop := {
  relay_now : now_ms r = log_now s;
  relay_within : (log_now s <= MIN_REPLAY_WINDOW_MS)%N;
  relay_avail : relay_available r = log_available s;
  relay_session : session r = log_session s;
  relay_versions : accepted_key_versions r = default_key_versions;
  relay_seen : seen_operation_ids r = log_seen s;
  relay_lineage : lineage r = lineage_of <$> log_order s;
  relay_window : replay_window_ms r = MIN_REPLAY_WINDOW_MS;
  relay_messages : messages r = queue_of relay_cursor (fun _ => []) l;
  relay_operations i x : l !! i = Some x -> operations_by_cursor r !! relay_cursor (S i) = Some x.2;
  relay_known c o : operations_by_cursor r !! c = Some o -> mentions c (messages r) = true;
  relay_logged : log s = {["" := l]} }.

Lemma relay_observation x r s l : relay_sim r s l -> relay_sim (add_observation x r) s l.
Proof. by intros []. Qed.

Lemma relay_live r s l : relay_sim r s l ->
  match ensure_live_credential r with
  | (r', Ok _) => r' = r /\ exists c, live_session s = Ok c
  | (r', Err e) => relay_sim r' s l /\ live_session s = Err e
  end.
Proof.
  intros Hs. unfold ensure_live_credential, live_session.
  rewrite <- (relay_session _ _ _ Hs), <- (relay_now _ _ _ Hs), <- (relay_avail _ _ _ Hs). destruct (session r) as [c|]; [|done].
  destruct (expired_now _ c); [split; [by apply relay_observation|done]|].
  destruct (negb (relay_available r)); [split; [by apply relay_observation|done]|eauto].
Qed.

Lemma nothing_expired l ops : drop_expired 0 l ops = (l, ops).
Proof. destruct l as [|m l]; cbn; [done|]. by destruct (retained_at_ms m <? 0)%N eqn:Hm; [apply N.ltb_lt in Hm; lia|]. Qed.

Lemma relay_prune r s l : relay_sim r s l -> relay_sim (prune_expired r) s l.
Proof.
  intros Hs. unfold prune_expired, saturating_sub. rewrite (relay_now _ _ _ Hs), (relay_window _ _ _ Hs).
  pose proof (relay_within _ _ _ Hs). replace (log_now s - MIN_REPLAY_WINDOW_MS)%N with 0%N by lia.
  rewrite nothing_expired. by destruct Hs.
Qed.

Lemma stale_none l : stale 0 l = 0.
Proof. unfold stale. induction l as [|x l IH]; [done|]. rewrite filter_cons. by rewrite decide_False by lia. Qed.

Lemma relay_operations_drop r s l i : relay_sim r s l ->
  omap (fun m => operations_by_cursor r !! message_cursor m) (drop i (messages r)) = snd <$> drop i l.
Proof.
  intros Hs. rewrite (relay_messages _ _ _ Hs). pose proof (relay_operations _ _ _ Hs) as Hop.
  set (ops := operations_by_cursor r) in *. clearbody ops. clear Hs r s.
  assert (Hall : forall j x, drop i l !! j = Some x -> ops !! relay_cursor (S (i + j)) = Some x.2).
  { intros j x Hj. rewrite lookup_drop in Hj. by apply Hop. }
  assert (Hq : drop i (queue_of relay_cursor (fun _ => []) l) = imap (fun j x => message_for relay_cursor (fun _ => []) (i + j) x) (drop i l)).
  { apply list_eq. intros j. by rewrite lookup_drop, queue_lookup, list_lookup_imap, lookup_drop. }
  rewrite Hq. clear Hq Hop. revert Hall. generalize (drop i l). intros rest. revert i.
  induction rest as [|x rest IH]; intros i Hall; [done|]. rewrite imap_cons. cbn.
  specialize (Hall 0 x eq_refl) as Hx. rewrite Nat.add_0_r in Hx |- *. rewrite Hx. cbn. f_equal.
  etrans; [|apply (IH (S i))].
  - f_equal. apply imap_ext. intros j y Hy. cbn. by rewrite Nat.add_succ_r.
  - intros j y Hy. specialize (Hall (S j) y Hy). by rewrite Nat.add_succ_r in Hall.
Qed.

Lemma relay_names (l : list (N * EncryptedSyncOperation)) i j :
  1 <= i <= length l -> 1 <= j <= length l -> relay_cursor i = relay_cursor j -> i = j.
Proof. intros _ _. apply numbered_inj. Qed.

Abbreviation relay_replay := (log_replay_from one_channel (fun _ => relay_cursor) (fun _ _ => true)).
Abbreviation relay_publish := (log_publish one_channel (fun _ => relay_cursor) (fun _ _ => true)).

Lemma relay_next l j :
  message_cursor <$> queue_of relay_cursor (fun _ => []) l !! (j + (length (snd <$> drop j l) - 1))
  = if decide (j < length l) then Some (relay_cursor (length l)) else None.
Proof.
  rewrite length_fmap, length_drop, queue_lookup. case_decide as Hj.
  - replace (j + (length l - j - 1)) with (length l - 1) by lia.
    destruct (lookup_lt_is_Some_2 l (length l - 1) ltac:(lia)) as [x ->]. cbn. f_equal. f_equal. lia.
  - by rewrite lookup_ge_None_2 by lia.
Qed.

Lemma relay_start c l : start_index c (queue_of relay_cursor (fun _ => []) l) = replay_start relay_cursor l c 0.
Proof.
  rewrite <- (start_index_eq _ (fun _ => []) l (relay_names l)); [done|].
  intros i Hi. apply cursor_index_Some in Hi as [_ Hi]. lia.
Qed.

Lemma relay_replay_sim c r s l : relay_sim r s l ->
  relay_sim (replay_from c r).1 s l /\ (replay_from c r).2 = relay_replay c s.
Proof.
  intros Hs. pose proof (relay_live _ _ _ Hs) as Hl. unfold replay_from, log_replay_from.
  destruct (ensure_live_credential r) as [r1 [u|e]]; [destruct Hl as (-> & x & ->)|by destruct Hl as [? ->]].
  apply relay_prune in Hs. generalize dependent (prune_expired r). clear r. intros r Hs.
  pose proof (relay_within _ _ _ Hs) as Hw. cbn [negb]. change (one_channel (scope x)) with "".
  rewrite (relay_logged _ _ _ Hs), lookup_singleton_eq.
  unfold saturating_sub. replace (log_now s - MIN_REPLAY_WINDOW_MS)%N with 0%N by lia. unfold log_replay. rewrite stale_none.
  rewrite (relay_operations_drop _ _ _ _ Hs).
  assert (Hknown : forall c0, match operations_by_cursor r !! c0 with Some _ => true | None => mentions c0 (messages r) end
    = mentions c0 (queue_of relay_cursor (fun _ => []) l)).
  { intros c0. rewrite <- (relay_messages _ _ _ Hs). destruct (operations_by_cursor r !! c0) eqn:Ho; [|done].
    symmetry. by eapply relay_known. }
  rewrite (relay_messages _ _ _ Hs) in Hknown |- *.
  pose proof (resync_iff _ (fun _ => []) l (relay_names l) c 0 _ Hknown) as Hresync. rewrite drop_0 in Hresync. rewrite Hresync.
  rewrite relay_start, relay_next. pose proof (head_cursor relay_cursor (fun _ => []) l 0) as Hhead. rewrite drop_0 in Hhead. rewrite Hhead.
  unfold replay_start. destruct (cursor_index _ "" c _) as [i|] eqn:Hi.
  - apply cursor_index_Some in Hi as [_ Hi]. rewrite bool_decide_eq_true_2 by lia. destruct (decide (0 < i)); [|lia]. cbn [negb fst snd].
    split; [by apply relay_observation|]. unfold deliver_after. by destruct (decide (i < length l)).
  - destruct (decide (c = None \/ c = Some "0" \/ c = Some "")) as [Hd|Hd].
    + rewrite (bool_decide_eq_true_2 _ Hd). cbn [negb fst snd]. split; [by apply relay_observation|]. unfold deliver_after. by destruct (decide (0 < length l)).
    + rewrite (bool_decide_eq_false_2 _ Hd). cbn [negb fst snd]. split; [by apply relay_observation|done].
Qed.

Lemma relay_publish_sim o r s l : relay_sim r s l -> (N.of_nat (S (length l)) <= u64_max)%N ->
  exists l', length l' <= S (length l) /\ relay_sim (publish o r).1 (relay_publish o s).1 l' /\ (publish o r).2 = (relay_publish o s).2.
Proof.
  intros Hs Hn. pose proof (relay_live _ _ _ Hs) as Hl. unfold publish, log_publish.
  destruct (ensure_live_credential r) as [r1 [u|e]]; [destruct Hl as (-> & x & ->)|destruct Hl as [? ->]; exists l; split; [lia|done]].
  rewrite (relay_versions _ _ _ Hs). destruct (validate_operation _ o) as [u'|e]; [|exists l; split; [lia|done]].
  rewrite (relay_seen _ _ _ Hs). destruct (bool_decide (operation_id o ∈ log_seen s)).
  { exists l. split; [lia|]. split; [by apply relay_observation|done]. }
  cbn [negb]. change (one_channel (scope x)) with "". rewrite (relay_logged _ _ _ Hs), lookup_singleton_eq. cbn [default].
  unfold accept_operation. rewrite (relay_messages _ _ _ Hs), queue_length, next_number by done.
  change ("cursor:" +:+ u64_to_string (N.of_nat (S (length l)))) with (relay_cursor (S (length l))). cbn [fst snd].
  exists (l ++ [(log_now s, o)]). split; [rewrite length_app; cbn; lia|]. split; [|done]. apply relay_observation.
  destruct Hs. split; cbn; try done; try congruence.
  - by rewrite fmap_app, relay_lineage0.
  - rewrite queue_snoc. unfold message_for. cbn. by rewrite relay_now0.
  - intros i y Hy. destruct (decide (i = length l)) as [->|Hne].
    + rewrite lookup_app_r, Nat.sub_diag in Hy by lia. injection Hy as <-. by rewrite lookup_insert_eq.
    + assert (i < length l) by (apply lookup_lt_Some in Hy; rewrite length_app in Hy; cbn in Hy; lia).
      rewrite lookup_app_l in Hy by lia. rewrite lookup_insert_ne; [by apply relay_operations0|].
      intros Hi%numbered_inj. lia.
  - intros c o' Ho. rewrite existsb_app. apply orb_true_iff. destruct (decide (c = relay_cursor (S (length l)))) as [->|Hne].
    + right. cbn. by rewrite bool_decide_eq_true_2.
    + left. rewrite lookup_insert_ne in Ho by done. apply relay_known0 in Ho. by rewrite relay_messages0 in Ho.
Qed.

Lemma relay_connect_sim c r s l : relay_sim r s l ->
  relay_sim (connect c r).1 (log_connect c s).1 l /\ (connect c r).2 = (log_connect c s).2.
Proof.
  intros Hs. unfold connect, log_connect. rewrite <- (relay_now _ _ _ Hs), <- (relay_avail _ _ _ Hs).
  destruct (bool_decide (token c = "") || _); [done|]. destruct (expired_now _ c); [split; [by apply relay_observation|done]|].
  destruct (negb (relay_available r)); (split; [|done]); apply relay_observation; [done|]. by destruct Hs.
Qed.

Lemma relay_refresh_sim c r s l : relay_sim r s l ->
  relay_sim (refresh_credential c r).1 (log_refresh c s).1 l /\ (refresh_credential c r).2 = (log_refresh c s).2.
Proof.
  intros Hs. unfold refresh_credential, log_refresh.
  rewrite <- (relay_now _ _ _ Hs), <- (relay_avail _ _ _ Hs), <- (relay_session _ _ _ Hs). destruct (session r) as [old|]; [|done].
  destruct (negb (bool_decide (scope old = scope c))); [done|].
  destruct (expired_now _ c || _); [|destruct (negb (relay_available r))]; (split; [|done]); apply relay_observation; by destruct Hs.
Qed.

Lemma relay_clock_sim n r s l : relay_sim r s l -> (n <= MIN_REPLAY_WINDOW_MS)%N ->
  relay_sim (advance_clock n r) (log_set_clock (N.max (log_now s) n) (log_available s) s) l.
Proof.
  intros Hs Hn. assert (Hs' : relay_sim (prune_expired (if (now_ms r <? n)%N then set_now n r else r))
    (log_set_clock (N.max (log_now s) n) (log_available s) s) l).
  { apply relay_prune. destruct (now_ms r <? n)%N eqn:Hc; [apply N.ltb_lt in Hc|apply N.ltb_ge in Hc]; destruct Hs; split; cbn; try done; lia. }
  unfold advance_clock. destruct (session _); [|done]. destruct (expired_now _ _); [by apply relay_observation|done].
Qed.

Lemma relay_available_sim b r s l : relay_sim r s l -> relay_sim (set_relay_available b r) (log_set_clock (log_now s) b s) l.
Proof.
  intros Hs. assert (Hs' : relay_sim (set_available_flag b r) (log_set_clock (log_now s) b s) l) by (by destruct Hs).
  unfold set_relay_available. destruct (session _); [|done]. destruct b; by repeat apply relay_observation.
Qed.

Definition within_window (call : HostCall) : Prop :=
  match call with CallClock n => (n <= MIN_REPLAY_WINDOW_MS)%N | _ => True end.

Abbreviation relay_answer := (log_answer one_channel (fun _ => relay_cursor) (fun _ _ => true)).

Lemma relay_answer_sim call r s l : relay_sim r s l -> within_window call -> (N.of_nat (S (length l)) <= u64_max)%N ->
  exists l', length l' <= S (length l) /\ relay_sim (answer call r).1 (relay_answer call s).1 l' /\ (answer call r).2 = (relay_answer call s).2.
Proof.
  intros Hs Hw Hn. destruct call as [c|c|o|c| |m|b|]; unfold answer, log_answer; cbn [port_connect port_refresh port_publish port_replay
    port_state port_clock port_available port_lineage relay_transport].
  3:{ destruct (relay_publish_sim o r s l Hs Hn) as (l' & Hl & Hsim & Hr). exists l'. split; [done|].
      destruct (publish o r), (relay_publish o s). cbn in *. by subst. }
  all: exists l; split; [lia|].
  - pose proof (relay_connect_sim c r s l Hs) as [Hsim Hr]. destruct (connect c r), (log_connect c s). cbn in *. by subst.
  - pose proof (relay_refresh_sim c r s l Hs) as [Hsim Hr]. destruct (refresh_credential c r), (log_refresh c s). cbn in *. by subst.
  - pose proof (relay_replay_sim c r s l Hs) as [Hsim Hr]. destruct (replay_from c r). cbn in *. by subst.
  - split; [done|]. cbn. unfold connection_state. by rewrite (relay_session _ _ _ Hs), (relay_avail _ _ _ Hs), (relay_now _ _ _ Hs).
  - split; [|done]. by apply relay_clock_sim.
  - split; [|done]. by apply relay_available_sim.
  - split; [done|]. cbn. by rewrite (relay_lineage _ _ _ Hs).
Qed.

Lemma relay_answers_sim calls : forall r s l, relay_sim r s l -> Forall within_window calls ->
  (N.of_nat (length l + length calls) <= u64_max)%N ->
  answers calls r = log_answers one_channel (fun _ => relay_cursor) (fun _ _ => true) calls s.
Proof.
  induction calls as [|call calls IH]; intros r s l Hs Hw Hn; [done|]. cbn [answers log_answers length] in *.
  apply Forall_cons in Hw as [Hw Hws].
  destruct (relay_answer_sim call r s l Hs Hw ltac:(lia)) as (l' & Hl & Hs' & Ha). destruct (answer call r) as [r' a].
  destruct (relay_answer call s) as [s' a']. cbn in *. subst a'. f_equal. eapply IH; [done|done|lia].
Qed.
End relay.

(** C20: the in-memory relay is a log too, one that all scopes share ([one_channel]) and to
    which every credential is admitted, under its own names of cursors, as long as its clock
    stays within the replay window, so that nothing was discarded: for every such sequence of
    calls it gives the answers of that log. *)
Theorem relay_refines_log `{StoreCrypto} calls :
  Forall within_window calls -> (N.of_nat (length calls) <= u64_max)%N ->
  answers calls new_relay = log_answers one_channel (fun _ => relay_cursor) (fun _ _ => true) calls relay_log.
Proof.
  intros Hw Hn. apply (relay_answers_sim calls new_relay relay_log []); [|done|done].
  by split.
Qed.
