(* ===== verification/MaintenanceSamples.v ===== *)
(** * Concrete maintenance runs

    An archive format, a manifest codec and a clock that satisfy the laws used, stores on
    which the theorems of maintenance are applied, two runs that show what repeating an
    interrupted restore does, and runs of the two hosted transports. *)
From S2P Require Import Prelude Effect Json Contract Serde DataStore LocalStore LocalStoreProps StoreSamples FileTree.
From S2P Require Import Maintenance MaintenanceProps MigrationProps.
From Stdlib Require Import Ascii.

(** ** An archive format *)

(** A field: every byte is announced by a one, and a zero ends it. *)
Definition field_text (b : Bytes) : Bytes := (b ≫= fun c => ["1"%char; c]) ++ ["0"%char].

Fixpoint read_field (b : Bytes) : option (Bytes * Bytes) :=
  match b with
  | "1"%char :: c :: rest => '(f, rest) ← read_field rest; Some (c :: f, rest)
  | "0"%char :: rest => Some ([], rest)
  | _ => None
  end.

Lemma read_field_text b rest : read_field (field_text b ++ rest) = Some (b, rest).
Proof. unfold field_text. induction b as [|c b IH]; cbn; [done|]. cbn in IH. by rewrite IH. Qed.

Definition fields_text (l : list Bytes) : Bytes := l ≫= field_text.

Fixpoint read_fields (fuel : nat) (b : Bytes) : option (list Bytes) :=
  match fuel, b with
  | _, [] => Some []
  | 0, _ => None
  | S fuel, b => '(f, b) ← read_field b; rest ← read_fields fuel b; Some (f :: rest)
  end.

Lemma read_fields_text l : forall fuel, length (fields_text l) <= fuel -> read_fields fuel (fields_text l) = Some l.
Proof.
  unfold fields_text. induction l as [|f l IH]; intros fuel Hf; [by destruct fuel|].
  change ((f :: l) ≫= field_text) with (field_text f ++ (l ≫= field_text)) in *. rewrite length_app in Hf.
  assert (Hne : 0 < length (field_text f)) by (unfold field_text; rewrite length_app; cbn; lia).
  destruct fuel as [|fuel]; [lia|]. cbn [read_fields].
  destruct (field_text f ++ _) eqn:Hb; [apply (f_equal length) in Hb; rewrite length_app in Hb; cbn in Hb; lia|].
  rewrite <- Hb. rewrite read_field_text. cbn [mbind option_bind]. rewrite IH by lia. done.
Qed.

Definition fields_of (b : Bytes) : option (list Bytes) := read_fields (length b) b.

Lemma fields_of_text l : fields_of (fields_text l) = Some l.
Proof. by apply read_fields_text. Qed.

Definition string_of (b : Bytes) : string := String.string_of_list_ascii b.

Lemma string_of_text s : string_of (text s) = s.
Proof. apply String.string_of_list_ascii_of_string. Qed.

Fixpoint read_members (l : list Bytes) : option (list (string * Bytes)) :=
  match l with
  | [] => Some []
  | name :: content :: l => rest ← read_members l; Some ((string_of name, content) :: rest)
  | _ => None
  end.

Definition member_fields (members : list (string * Bytes)) : list Bytes := members ≫= fun m => [text m.1; m.2].

Lemma read_member_fields members : read_members (member_fields members) = Some members.
Proof. unfold member_fields. induction members as [|[n c] members IH]; cbn; [done|]. cbn in IH. by rewrite IH, string_of_text. Qed.

Definition archived (members : list (string * Bytes)) (name : string) : option Bytes := snd <$> List.find (fun m => bool_decide (m.1 = name)) members.

#[export] Instance sample_zip : ZipCrate := {|
  Archive := list (string * Bytes);
  zip_written members :=
    if decide (NoDup members.*1) then Ok (fields_text (member_fields members)) else Err ("start record zip member", "Duplicate filename");
  zip_open b := match fields_of b ≫= read_members with Some members => Ok members | None => Err "invalid Zip archive" end;
  by_name members name := (fun b => (N.of_nat (length b), Ok b)) <$> archived members name |}.

Lemma archived_elem members name content : NoDup members.*1 -> (name, content) ∈ members -> archived members name = Some content.
Proof.
  unfold archived. induction members as [|[n c] members IH]; [by intros _ ?%elem_of_nil|].
  cbn. intros [Hn Hd]%NoDup_cons Hin. apply elem_of_cons in Hin as [[= -> ->]|Hin]; [by rewrite bool_decide_eq_true_2|].
  rewrite bool_decide_eq_false_2; [by apply IH|]. intros ->. apply Hn. apply list_elem_of_fmap. by exists (name, content).
Qed.

#[export] Instance sample_zip_laws : ZipLaws.
Proof.
  constructor. cbn. intros members b Hw. case_decide as Hd; [|done]. injection Hw as <-.
  exists members. rewrite fields_of_text. cbn. rewrite read_member_fields. split; [done|]. intros name content Hin.
  by rewrite (archived_elem _ _ _ Hd Hin).
Qed.

(** ** A manifest codec and a clock *)

Definition entry_fields (e : BackupRecordIndexEntry) : list Bytes :=
  [text (entry_key e); text (match entry_classification e with Public => "public" | Private => "private" end);
   text (envelope_digest e); text (member_path e)].

Definition manifest_fields (m : BackupManifest) : list Bytes :=
  [text (manifest_format_version m); text (created_as_of m); bits (encode (manifest_count m)); text (archive_content_digest m);
   text (store_format m); text (writer_tool m); text (writer_semver m)] ++ (records_index m ≫= entry_fields).

Fixpoint read_entries (l : list Bytes) : option (list BackupRecordIndexEntry) :=
  match l with
  | [] => Some []
  | k :: c :: d :: p :: l =>
      rest ← read_entries l;
      Some ({| entry_key := string_of k; entry_classification := if decide (string_of c = "public") then Public else Private;
               envelope_digest := string_of d; member_path := string_of p |} :: rest)
  | _ => None
  end.

Definition read_manifest (l : list Bytes) : option BackupManifest :=
  match l with
  | v :: c :: n :: d :: f :: w :: sv :: entries =>
      count ← read_bits n ≫= decode;
      index ← read_entries entries;
      Some {| manifest_format_version := string_of v; created_as_of := string_of c; manifest_count := count;
              archive_content_digest := string_of d; records_index := index; store_format := string_of f;
              writer_tool := string_of w; writer_semver := string_of sv |}
  | _ => None
  end.

Lemma read_entry_fields l : read_entries (l ≫= entry_fields) = Some l.
Proof.
  induction l as [|[k c d p] l IH]; cbn; [done|]. cbn in IH. rewrite IH. cbn. rewrite !string_of_text. by destruct c.
Qed.

Lemma read_manifest_fields m : read_manifest (manifest_fields m) = Some m.
Proof.
  unfold manifest_fields. cbn -[encode decode mbind]. rewrite read_bits_bits. cbn -[encode decode]. rewrite decode_encode. cbn.
  pose proof (read_entry_fields (records_index m)) as He. cbn in He. rewrite He. cbn. rewrite !string_of_text. by destruct m.
Qed.

#[export] Instance sample_manifest : ManifestCodec := {|
  manifest_bytes m := fields_text (manifest_fields m);
  parse_manifest b := fields_of b ≫= read_manifest |}.

#[export] Instance sample_manifest_laws : ManifestLaws.
Proof. constructor. intros m. cbn [manifest_bytes parse_manifest sample_manifest]. rewrite fields_of_text. apply read_manifest_fields. Qed.

(** Instants as numbers of seconds. *)
#[export] Instance sample_chrono : Chrono := {|
  parse_rfc3339 s := match parse_u64 s with Some n => Ok (Z.of_N n) | None => Err "input contains invalid characters" end;
  checked_sub_signed instant age := Some (instant - age)%Z |}.

(** The calls that fail. *)
Definition failing (l : list nat) (locks : list nat) : Faults := {|
  fails n := if decide (n ∈ l) then Some "Input/output error (os error 5)" else None;
  lock_fails n := if decide (n ∈ locks) then Some WouldBlock else None;
  leftover _ := None; created _ := 0; remains _ _ := true; survives _ _ _ := true |}.

(** ** Stores *)

Definition path (l : list string) : Path := {| absolute := true; components := l |}.
Definition live : Path := path ["srv"; "data"].
Definition archive : Path := path ["backup"; "a.zip"].

Definition envelope_at (k stamp : string) : LocalDataStoreEnvelope :=
  let r := {| key := k; value := Str "text"; lamport_clock := 1; writer_id := "phone" |} in {|
  format := LOCAL_DATA_STORE_FORMAT; classification := Public; digest := digest_for_record r; record := Some r;
  record_key := None; key_id := None; nonce := None; ciphertext := None; retained_at := Some stamp |}.

Definition stored (k stamp : string) : string * Bytes := (file_name k, to_vec (envelope_value (envelope_at k stamp))).

Definition store (files : list (string * Bytes)) : LocalFileDataStoreMaintenance := {|
  store_root := live; owner_process := 7; lock_held := true;
  machine := {| tree := {[path [] := ∅; path ["srv"] := ∅;
                          live := list_to_map ((LOCAL_DATA_STORE_LOCK_FILE, []) :: files)]}; calls := 0 |} |}.

Definition three : LocalFileDataStoreMaintenance := store [stored "a" "100"; stored "b" "300"; stored "c" "200"].
Definition one : LocalFileDataStoreMaintenance := store [stored "a" "100"].

#[local] Instance no_faults : Faults := failing [] [].

(** ** Pruning *)

(** Two keys are excluded; the deletion of the second fails. *)
Definition last_two : RetentionPolicy := {| max_count := Some 2%N; max_age_secs := Some 50%N |}.

Lemma prune_failure_removed cause attempted removed total :
  get "removed_count" (maintenance_details (prune_failure cause attempted removed total)) = Some (Num (PosInt removed)).
Proof. reflexivity. Qed.

Lemma prune_exact_witness :
  exists victims, tree (machine (@prune _ _ (failing [9] []) _ last_two "250" three).1)
                  = without_keys live (take 1 victims) (tree (machine three))
    /\ forall k, k ∈ victims <-> doomed live (tree (machine three)) last_two 250 k.
Proof.
  destruct (@prune _ _ (failing [9] []) _ last_two "250" three) as [s' r] eqn:Hr.
  assert (Hf : match r with Err (Failed e) => get "removed_count" (maintenance_details e) | _ => None end = Some (Num (PosInt 1))).
  { change r with (s', r).2. rewrite <- Hr. vm_compute. reflexivity. }
  assert (Hn : size (files_of live (tree (machine s'))) = 3).
  { change s' with (s', r).1. rewrite <- Hr. vm_compute. reflexivity. }
  destruct (@prune_exact _ _ (failing [9] []) _ _ _ _ _ _ Hr)
    as [[Ht _]|(instant & victims & n & Hi & _ & Hd & _ & Ht & Hres)].
  - rewrite Ht in Hn. by vm_compute in Hn.
  - injection Hi as <-. exists victims. destruct r as [ev|[e|]]; [done| |done]. destruct Hres as [_ [cause ->]].
    rewrite prune_failure_removed in Hf. injection Hf as Hn'. assert (n = 1) as -> by lia. split; [exact Ht|exact Hd].
Defined.

(** ** Restoring *)

Definition backed : LocalFileDataStoreMaintenance := set_machine (machine (backup archive "400" one).1) one.

Lemma absent_check p (t : Tree) :
  forallb (fun e : Path * Files => bool_decide (below p e.1 = None)) (map_to_list t) = true -> absent p t.
Proof.
  rewrite forallb_forall. intros Hall rest. destruct (t !! extend p rest) as [files|] eqn:Hf; [|done].
  specialize (Hall (extend p rest, files)). rewrite <- list_elem_of_In, elem_of_map_to_list in Hall. cbn in Hall.
  specialize (Hall Hf). by rewrite below_extend in Hall.
Qed.

Definition aside_root : Path := backup_root_of (path ["srv"]) (restore_work_suffix backed "400").

(** Both renames fail: the records are beside the store. *)
Lemma restore_all_or_nothing_witness :
  let s' := (@restore _ _ (failing [34; 35] []) _ _ _ archive "400" backed).1 in
  absent live (tree (machine s')) /\ carries (tree (machine backed)) live (tree (machine s')) aside_root.
Proof.
  destruct (@restore _ _ (failing [34; 35] []) _ _ _ archive "400" backed) as [s' r] eqn:Hr. cbn zeta.
  assert (Hl : bool_decide (tree (machine s') !! live = None) = true).
  { change s' with (s', r).1. rewrite <- Hr. vm_compute. reflexivity. }
  apply bool_decide_eq_true in Hl.
  assert (Hl0 : bool_decide (tree (machine backed) !! live = None) = false) by (vm_compute; reflexivity).
  apply bool_decide_eq_false in Hl0.
  assert (Hc : forall t a, carries t a (tree (machine s')) live -> t !! a = None).
  { intros t a Hc. specialize (Hc []). rewrite !extend_nil, Hl in Hc. by destruct (t !! a). }
  assert (Hh : forall files, ~ holds live (tree (machine s')) files).
  { intros files Hh. specialize (Hh []). by rewrite extend_nil, Hl in Hh. }
  pose proof (@restore_all_or_nothing _ _ (failing [34; 35] []) _ _ _ archive "400" (path ["srv"]) backed s' r eq_refl) as Hall.
  cbn zeta in Hall. specialize (Hall ltac:(apply (bool_decide_unpack _); vm_compute; reflexivity)
    ltac:(apply (bool_decide_unpack _); vm_compute; reflexivity) ltac:(apply absent_check; vm_compute; reflexivity) Hr).
  destruct r as [ev|e].
  - destruct Hall as (m & (b & a & _ & _ & _ & Hholds) & _). by destruct (Hh _ Hholds).
  - destruct Hall as [Hkeep|[Haside [Habs|(m & b & a & _ & _ & _ & Hholds)]]].
    + destruct Hl0. by apply Hc.
    + unfold aside_root. split; [exact Habs|exact Haside].
    + by destruct (Hh _ Hholds).
Defined.

(** The interrupted restore again: it cannot succeed, as the store's directory is gone, and
    it removes the records it finds beside the store. *)
Definition interrupted : LocalFileDataStoreMaintenance :=
  set_machine (machine (@restore _ _ (failing [34; 35] []) _ _ _ archive "400" backed).1) one.

Theorem repeated_restore_loses_records :
  let s' := (restore archive "400" interrupted).1 in
  absent live (tree (machine interrupted))
  /\ is_Some (tree (machine interrupted) !! aside_root)
  /\ is_ok (restore archive "400" interrupted).2 = false
  /\ absent live (tree (machine s')) /\ absent aside_root (tree (machine s')).
Proof.
  cbn zeta. split; [apply absent_check; vm_compute; reflexivity|].
  split; [apply (bool_decide_unpack _); vm_compute; reflexivity|].
  split; [vm_compute; reflexivity|]. split; apply absent_check; vm_compute; reflexivity.
Qed.

(** The archive restored over other records. *)
Definition changed : LocalFileDataStoreMaintenance :=
  at_tree (put_file live "z.json" (stored "z" "500").2 (drop_file live "a.json" (tree (machine backed)))) backed.

Lemma backup_restore_roundtrip_witness :
  files_of live (tree (machine changed)) !! "a.json" = None
  /\ holds live (tree (machine (restore archive "600" changed).1)) (records_of (files_of live (tree (machine one)))).
Proof.
  split; [by vm_compute|].
  destruct (backup archive "400" one) as [s1 r1] eqn:Hb.
  assert (exists evidence, r1 = Ok evidence) as [evidence ->].
  { change r1 with (s1, r1).2. rewrite <- Hb. vm_compute. eauto. }
  destruct (restore archive "600" changed) as [s3 r3] eqn:Hr.
  assert (exists evidence, r3 = Ok evidence) as [evidence' ->].
  { change r3 with (s3, r3).2. rewrite <- Hr. vm_compute. eauto. }
  refine (proj1 (backup_restore_roundtrip archive "400" one s1 evidence "600" (path ["srv"]) changed s3 evidence' Hb _ eq_refl _ _ _ Hr)).
  - change s1 with (s1, Ok (E := MaintenanceError) evidence).1. rewrite <- Hb. apply (bool_decide_unpack _). vm_compute. reflexivity.
  - apply (bool_decide_unpack _). vm_compute. reflexivity.
  - apply (bool_decide_unpack _). vm_compute. reflexivity.
  - apply absent_check. vm_compute. reflexivity.
Defined.

(** ** Migrating *)

Lemma migration_preserves_records_witness :
  exists new, holds live (tree (machine (migrate_v1_to_v2 archive "400" one).1)) new
    /\ same_records (records_of (files_of live (tree (machine one)))) new.
Proof.
  destruct (migrate_v1_to_v2 archive "400" one) as [s' r] eqn:Hr.
  assert (exists report, r = Ok report) as [report ->].
  { change r with (s', r).2. rewrite <- Hr. vm_compute. eauto. }
  pose proof (migration_preserves_records archive "400" (path ["srv"]) one s' (Ok report) eq_refl) as Hall.
  cbn zeta in Hall. destruct Hall as (new & Hh & Hs & _); [| | | |exact Hr|exact (ex_intro _ new (conj Hh Hs))].
  - apply (bool_decide_unpack _). vm_compute. reflexivity.
  - apply (bool_decide_unpack _). vm_compute. reflexivity.
  - apply absent_check. vm_compute. reflexivity.
  - intros d [= <-]. split; intros [rest Hi]; apply (f_equal (fun p => head (components p))) in Hi; discriminate Hi.
Defined.

(** ** Runs that depart from the specification *)

(** A record stamped after the cutoff is deleted when it is not among the last [max_count] keys. *)
Theorem prune_deletes_recent_record :
  let policy := {| max_count := Some 1%N; max_age_secs := Some 200%N |} in
  parse_envelope_bytes (stored "b" "300").2 = Ok (envelope_at "b" "300")
  /\ checked_sub_signed 250 200 = Some 50%Z
  /\ files_of live (tree (machine three)) !! "b.json" = Some (stored "b" "300").2
  /\ files_of live (tree (machine (prune policy "250" three).1)) !! "b.json" = None.
Proof. cbn zeta. do 3 (split; [vm_compute; reflexivity|]). vm_compute. reflexivity. Qed.

(** An age of more than [i64::MAX] milliseconds is not refused: the call panics. *)
Theorem prune_panics :
  (prune {| max_count := None; max_age_secs := Some (MAX_DURATION_SECS + 1)%N |} "250" three).2 = Err Panicked
  /\ (exists e, (prune {| max_count := None; max_age_secs := Some (i64_max + 1)%N |} "250" three).2 = Err (Failed e)
                /\ maintenance_code e = InvalidRetentionPolicy).
Proof. split; [vm_compute; reflexivity|]. eexists. split; vm_compute; reflexivity. Qed.

(** A directory left by an earlier run that cannot be removed is merged into the restored store. *)
Definition stale : LocalFileDataStoreMaintenance :=
  set_machine {| tree := <[temp_root_of (path ["srv"]) (restore_work_suffix backed "400") := {[(stored "z" "500").1 := (stored "z" "500").2]}]>
                           (tree (machine backed)); calls := 0 |} backed.

Theorem restore_merges_stale_files :
  let run := @restore _ _ (failing [3] []) _ _ _ archive "400" stale in
  is_ok run.2 = true
  /\ files_of live (tree (machine stale)) !! "z.json" = None
  /\ files_of live (tree (machine run.1)) !! "z.json" = Some (stored "z" "500").2.
Proof. cbn zeta. do 2 (split; [vm_compute; reflexivity|]). vm_compute. reflexivity. Qed.

(** ** Hosted synchronisation *)

From S2P Require Import Events HostedSync.

Definition option_text (o : option string) : Bytes := match o with Some s => "S"%char :: text s | None => [] end.
Definition text_option (b : Bytes) : option string := match b with [] => None | _ :: b => Some (string_of b) end.

Lemma text_option_text o : text_option (option_text o) = o.
Proof. destruct o as [s|]; cbn; [|done]. f_equal. apply string_of_text. Qed.

Definition event_fields (e : TraverseEvent) : list Bytes :=
  [text (id e); text (source e); text (event_type e); text (datacontenttype e); text (time e); bits (encode (value_tree (data e)));
   text (owner e); text (version e); text (match lifecycle_status e with Draft => "draft" | Active => "active" | Deprecated => "deprecated" end);
   option_text (deduplication_id e); option_text (ordering_scope e); option_text (correlation_id e); option_text (causation_id e);
   option_text (subject_id e); option_text (actor_id e)].

Definition read_event (l : list Bytes) : option TraverseEvent :=
  match l with
  | [i; src; ty; ct; tm; d; ow; v; st; dd; os; co; ca; su; ac] =>
      t ← read_bits d ≫= decode;
      Some {| id := string_of i; source := string_of src; event_type := string_of ty; datacontenttype := string_of ct;
              time := string_of tm; data := tree_value t; owner := string_of ow; version := string_of v;
              lifecycle_status := if decide (string_of st = "draft") then Draft
                                  else if decide (string_of st = "active") then Active else Deprecated;
              deduplication_id := text_option dd; ordering_scope := text_option os; correlation_id := text_option co;
              causation_id := text_option ca; subject_id := text_option su; actor_id := text_option ac |}
  | _ => None
  end.

#[export] Instance sample_events : EventCodec := {|
  encode_ecca_payload e := fields_text (event_fields e);
  decode_ecca_payload b := fields_of b ≫= read_event |}.

#[export] Instance sample_event_laws : EventCodecLaws.
Proof.
  constructor. intros e. cbn [encode_ecca_payload decode_ecca_payload sample_events]. rewrite fields_of_text.
  cbn -[encode decode text option_text]. rewrite read_bits_bits. cbn -[encode decode text option_text]. rewrite decode_encode.
  cbn -[text option_text]. rewrite !string_of_text, !text_option_text, tree_value_tree. by destruct e as [? ? ? ? ? ? ? ? [] ? ? ? ? ? ?].
Qed.

Definition operation (oid : string) : EncryptedSyncOperation := {|
  operation_id := oid; synchronization_set_id := "set"; operation_writer := "phone"; operation_clock := 1;
  operation_correlation := None; operation_causation := None; key_version_id := "key-active"; sealed := ["x"%char] |}.

Definition credential (scope_id : string) : HostedSyncCredential := {| token := "t"; scope := scope_id; expires_at_ms := 1000000 |}.

Definition session_calls : list HostCall :=
  [CallConnect (credential "s"); CallPublish (operation "a"); CallClock 1000; CallPublish (operation "b"); CallPublish (operation "b");
   CallReplay (Some "cursor:1"); CallReplay None].

Lemma relay_refines_log_witness :
  answers session_calls new_relay = log_answers one_channel (fun _ => relay_cursor) (fun _ _ => true) session_calls relay_log
  /\ nth 5 (answers session_calls new_relay) Silent = Replayed (Ok (Delivered [operation "b"] "cursor:2")).
Proof.
  split; [apply relay_refines_log; [repeat constructor; vm_compute; discriminate|vm_compute; discriminate]|vm_compute; reflexivity].
Defined.

Definition authorized : InMemoryAblyEdge := authorize (ably_channel_for_scope "s") "t" new_edge.

Lemma ably_refines_log_witness :
  answers session_calls (new_ably authorized)
  = log_answers ably_channel_for_scope ably_cursor (fun channel token_text => token_allowed channel token_text authorized) session_calls new_log
  /\ nth 6 (answers session_calls (new_ably authorized)) Silent
     = Replayed (Ok (Delivered [operation "a"; operation "b"] (ably_cursor (ably_channel_for_scope "s") 2))).
Proof. split; [apply ably_refines_log; [reflexivity|reflexivity|vm_compute; discriminate]|vm_compute; reflexivity]. Defined.

(** Once a message was discarded, the relay gives its cursor to another one: the operation
    "b" is lost, "c" is delivered twice, and the edge, asked the same, delivers both. *)
Definition outdated_calls : list HostCall :=
  [CallConnect (credential "s"); CallPublish (operation "a"); CallClock 100000; CallPublish (operation "b"); CallClock 130000;
   CallPublish (operation "c"); CallReplay None].

Theorem relay_reuses_cursors :
  nth 6 (answers outdated_calls new_relay) Silent = Replayed (Ok (Delivered [operation "c"; operation "c"] "cursor:2"))
  /\ nth 6 (answers outdated_calls (new_ably authorized)) Silent
     = Replayed (Ok (Delivered [operation "b"; operation "c"] (ably_cursor (ably_channel_for_scope "s") 3))).
Proof. split; vm_compute; reflexivity. Qed.

(** The relay replays the operations of one scope to the session of another. *)
Theorem relay_ignores_scope :
  nth 3 (answers [CallConnect (credential "s"); CallPublish (operation "a"); CallConnect (credential "other"); CallReplay None] new_relay) Silent
  = Replayed (Ok (Delivered [operation "a"] "cursor:1")).
Proof. vm_compute. reflexivity. Qed.

(** The receipt of a repeated operation carries a cursor that no message has. *)
Theorem repeated_receipt_unknown :
  let calls := [CallConnect (credential "s"); CallPublish (operation "a"); CallPublish (operation "a"); CallReplay (Some "cursor:a")] in
  nth 2 (answers calls new_relay) Silent = Published (Ok {| receipt_id := "a"; receipt_cursor := "cursor:a" |})
  /\ nth 3 (answers calls new_relay) Silent = Replayed (Ok (ResyncRequired (Some "cursor:1"))).
Proof. split; vm_compute; reflexivity. Qed.
